(* ===== verification/_CoqProject ===== *)
-Q . S2P
Prelude.v
Decimal.v
Dates.v
Calendar.v
Csv.v
Ir.v
Catalog.v
Contracts.v
Hash.v
Outcomes.v
Eval.v
Approvals.v
Authority.v
Rate.v
Deadlines.v
Live.v
Transactions.v
Flatten.v
Versioned.v
History.v
Queue.v
Runs.v
Admission.v
Planning.v
Facts.v
Sheet.v
Pages.v
Evolve.v
Scripts.v
Migrations.v
Generate.v
