(* ===== verification/Prelude.v ===== *)
(** * A verification of the Norbital workspace engine.

    The repository is a TypeScript monorepo. A workspace declares models, policies, automations and envoys;
    [packages/store] compiles the declared schema to a catalog and reads and writes it in PostgreSQL; [packages/bolt] is
    the engine that admits requests, compiles each caller's authority, decides approvals, runs automations and keeps
    live views; [packages/std] holds the exact value library both sides share. This library models the parts that decide
    something, as shallow embeddings: a pure function of the source is a Gallina function, a thrown error is [Throw] of
    the [outcome] type, a mutable object is a record passed along, and code that mutates shared objects has the store
    written out.

    ** Files, in dependency order

    - [Prelude] (this file): [outcome], JavaScript's strings, digits, [Number] and dictionaries, the shared tactics and
      lemmas. A dictionary (object or Map used as a map) is an association list [dict] in insertion order, [get], [set]
      and [has_own] being its operations and [wf_dict] that keys are distinct.
    - Values, [packages/std/src]: [Decimal] (decimal.ts), [Dates] (date.ts, zone.ts), [Calendar] (calendar.ts), [Csv]
      (csv.ts), [Hash] (hash.ts: SHA-256 and canonical JSON), [Versioned] (versioned.ts: lineages of sealed rows),
      [Facts] (facts.ts: declared fields; pricing.ts: priced lines), [Sheet] (sheet.ts: typed rows from and to cells).
    - Reads, [packages/store/src] and [packages/bolt/src/engine/query]: [Ir] (ir.ts: JSON, predicates and the read IR),
      [Catalog] (catalog.ts), [Eval] (query/eval.ts and the parts of read/values.ts it calls), [Pages] (store's errors.ts,
      limits.ts, read/page.ts and the keyset cursors of read/sql.ts: the pages of a compiled read).
    - Schemas and migrations, [packages/store/src]: [Evolve] (schema/plan.ts: the plan from one schema to the next),
      [Scripts] (migrate.ts: the SQL lexer, the markers of a file, what the host executes, a file's admission),
      [Migrations] (migrate.ts: histories, squashes, locks, physical proofs, verify and the guard), [Generate]
      (migration-generate.ts: a plan written as a migration file, and a squash).
    - The engine, [packages/bolt/src/engine]: [Contracts] (contracts.ts: actors and the compiled authority), [Approvals]
      (approvals/machine.ts, approvals.ts, route.ts, rollback.ts), [Authority] (access/authority.ts, pred.ts,
      delegation.ts), [Rate] (runs/time.ts, access/rate.ts), [Deadlines] (runs/deadlines.ts), [Live] (live/hub.ts, and
      [patched] of packages/bolt/src/page/bolt.ts), [Outcomes] (errors.ts, schema/refusal.ts and protocol/errors.ts:
      what a failure means to the caller), [Transactions] (transactions.ts with the retained read guards of
      write/sql.ts: interactive transactions), [Flatten] (write/flatten.ts: a nested input as a flat list of changes),
      [History] (query/history-schema.ts, query/history.ts and [historyPiece] of write/commit.ts: revisions), [Queue]
      (runs/queue.ts with the declared triggers: which runs an act, a schedule or an event asks for), [Runs]
      (runs/index.ts: claims, leases, attempts, the boot after a crash, the views of a run), [Admission] (write/act.ts
      up to its [plan], write/import.ts, and the idempotency records of write/sql.ts), [Planning] (write/act.ts: [plan],
      [answerOf], [modelRules], [ownedLocks], [recordCapabilities]).

    A write goes through these files in the order [Admission] (is the request in time and settled once; may its columns
    be written; what do the policies' checks need to see), [Flatten] (called by it: the nested input as changes),
    [Planning] (the checks, the upserts, the writes with their defaults and rules, the approval), [Approvals] when a
    check routes it to one, and [Transactions] when an interactive lease carries it; [Queue] derives the runs its
    committed changes ask for, [Runs] executes them and [Live] patches the views. Database reads and the answers of
    workspace code ("the guest") are arguments of the definitions; what they are relied on for is a named hypothesis of
    the section that uses it. Of the run queue one generation of the host executes at a time, and a claim takes due runs
    in the order and up to the limit the statement's [ORDER BY] and [LIMIT] give.

    A schema change goes from [Evolve] (the steps, and which of them destroy) through [Generate] (the file a person may
    edit) to [Scripts] (is the edited file admissible, and what runs) and [Migrations] (which files a database has yet to
    run). The planner is shown to plan exactly the statements the difference of the schemas makes due; what the SQL of a
    step then does to a database is PostgreSQL's.

    ** What is shown

    - Approvals: the stored request's log is always a run of the state machine that ends in the row's own state; an
      approved request was approved at every step of its route; nobody reviews an own request, also under a preview;
      concurrent decisions serialize through the guards of the UPDATE statement; the verbs offered are exactly those
      admitted.
    - Authority: a compiled authority confers exactly the union of the declared grants of the declared policies; a
      bypassing holder never gains the identity models' writes; a delegation token adds the declared arms of one verb of
      one model only, on the authority it was issued for.
    - Live views: a patch is the same change on both sides of the stream, a patched page is the page a re-read would
      give (under a database that sorts by the read's keys; decimals as the binary64 numbers the hub reads, where
      [Sample.close_decimals_tie] shows two that differ), and the retained-bytes accounting is exact under every interleaving of the hub's operations that delivers
      answers to views still registered. [Hub.stale_answer_leaks] shows why that last restriction is there.
    - Admission: what is admitted is in time, names stored rows the caller reads, and writes only columns that every arm
      judging it covers; the arms' checks combine to one verdict; a key settles one act once, and its outcome is
      returned to the same request only. [Desk.upsert_skips_moves] shows a state moved without a grant, through an
      upsert.
    - Plans: every change becomes one write within the model's rules, a sync's on a locked model excepted; a record's
      state only moves along declared edges from the initial one; the locks on owned parents are exactly the parents'
      states; an act joins the requests that hold what it touches, or opens or resubmits one; the advice on a record is exact and the moves it offers are taken. [Office.sync_leaves_machine] shows
      where a sync escapes the rules.
    - Runs and their queue: no automation runs more than its capacity; an ended run stays ended; after a crash every run
      is queued, failed or ended; attempts, leases and depth are bounded; an act queues exactly the runs its changes
      reach; a view shows a run's input only to those who may read it.
    - Time: due times and their buckets; rate windows count exactly and stay bounded; the timer forgets no deadline in
      any reachable state, and a due deadline is taken.
    - Failures: an outcome says nothing happened only when nothing can have, the retriable ones agree with what the
      database says, and only a lost answer is unknown.
    - Transactions: the changes of a transaction collapse to its net effect; a lease is settled exactly once whatever
      fails; read guards are published with the digests they were read with; budgets hold; the answer is what happened.
    - Writes: flattening ends, drops nothing, puts parents first and writes only what the declaration lists.
    - Histories: the fold of a record's revisions is the record, through renames, erasures and new schema versions;
      pruning keeps that for every kept revision; a caller is shown only fields it may name today.
    - Lineages: no two standing sealed versions ever share a day, and a sealed row changes only by an earlier end or one
      void.
    - Reads: the catalog's levels and relations resolve; period predicates are set operations on calendar days; JSON
      containment is a preorder.
    - Pages: a walk by cursors reads every row once, in order, wherever the limit and the byte budget cut it, and ends; the
      seek condition is exactly "after the cursor" with absent values; a read asked for whole is answered whole or
      refused.
    - Schema evolution: the statements of a plan are the drops, renames, widenings and creations that the difference of
      the two schemas makes due, and no others; it rebuilds exactly what it must, in an order that runs; every drop of stored data is a destructive step, and an accepted plan drops nothing
      else. [Notes.rename_replaces_table] shows a mere rename that drops a table.
    - Migrations: the lexer reads written SQL back, comments, quotes and dollar bodies included; a check is one statement
      whatever it holds; a file is admitted exactly when it may run; a ledger is a first part of one chain and what is
      pending is the rest, so a stopped run resumes; a verified squash is accepted and replaces exactly its prefix; the
      lock and the proofs are read back as they were written; a generated file reads back as its plan, and a generated
      squash is verified under its own name. [Scripts.Sample.dollar_name_unguarded] and
      [Migrations.Sample.copied_rows_squashed] show what two of the checks let through.
    - Values: decimal arithmetic is exact rational arithmetic and prints to text that parses back; calendar days are in
      bijection with day numbers; a validated record is typed by its declared facts; a quantity is priced once; a sheet
      written is read back; wall times resolve as Temporal's "compatible" rule does; cycles partition the days;
      business-hour arithmetic; CSV round trips; the SHA-256 of the source is FIPS 180-4's on every input; equal
      canonical texts are equal values.

    ** Conventions

    JavaScript numbers used as integers are [Z]; where a JSON number is compared or rounded it is a rational [Q] with
    binary64 rounding written out ([Ir]). Strings are lists of bytes ([string]); string comparison is by code unit,
    which agrees with bytes on the ASCII texts involved. Loops that are not structural carry a fuel computed from their
    input, and the theorem about the loop shows the fuel suffices ([Calendar.businessDays_correct],
    [Calendar.addBusinessHours_correct], [Csv.csv_roundtrip]). The flattener's fuel is one more than the nesting it
    accepts ([Flatten.flatten_ends]), the layers' is the longest declared path, and the scan of a statement for table
    names has its length. The planner's loop over dependants takes a turn for each object ([Evolve.Rebuild.grow_closed]),
    the lexer one for each character ([Scripts.Lex.lex_turn_progress]), a delimiter is free after at most as many tries
    as the text is long ([Scripts.Checks.fresh_delimiter_fresh]), and texts nested in a statement get shorter
    ([Scripts.Guards.bounds_guarded]). SQL statements are modelled by their guard on the row they update; parameters of a section
    stand for what is not under src/ (Intl, CEL, Effect's equality, HMAC), and the witnesses instantiate them.

    ** Not modelled

    SQL text generation and PostgreSQL itself, the DDL of a schema's objects (schema/ddl.ts), the condition a changed
    inline shape is checked by ([shapeViolation]) and the introspection query among it; base64 and deflate; Effect fibers and queues (interleavings are sequences of steps instead); of a plan, the loop
    that replaces rows by their callbacks' answers, a resubmission's reading of history, and search vectors; the assistant, external systems
    and files, identity and messages; wire codecs; the browser (shell, page components), app shell, command line, compiler, providers and servers, which are
    I/O or presentation around the modelled core. *)
(** The shared base of the development: JavaScript outcomes (a value or a thrown error), the part of the JavaScript
    string and number library the modelled code uses, the tactics and the hint database every file shares, and the
    generic lemmas on strings, digits and lists. *)
From Stdlib Require Export ZArith Lia Bool Ascii String.
From stdpp Require Export base tactics option list gmap strings.
#[export] Set Default Goal Selector "!".
Declare Scope js_scope.
Delimit Scope js_scope with js.
Open Scope Z_scope.

(** ** Outcomes: what a call returns or throws. *)

(** A thrown error: its constructor's name and its message. *)
Record jserror := JsError { err_name : string; err_message : string }.

Inductive outcome (A : Type) : Type :=
| Ok (a : A)
| Throw (e : jserror).
Arguments Ok {A} a.
Arguments Throw {A} e.

#[export] Instance outcome_ret : MRet outcome := fun A a => Ok a.
#[export] Instance outcome_bind : MBind outcome :=
  fun A B f m => match m with Ok a => f a | Throw e => Throw e end.
#[export] Instance outcome_fmap : FMap outcome :=
  fun A B f m => match m with Ok a => Ok (f a) | Throw e => Throw e end.

Definition RangeError {A} (msg : string) : outcome A := Throw (JsError "RangeError" msg).
Definition PlainError {A} (msg : string) : outcome A := Throw (JsError "Error" msg).
Definition TypeError {A} (msg : string) : outcome A := Throw (JsError "TypeError" msg).

Definition is_ok {A} (m : outcome A) : bool := match m with Ok _ => true | Throw _ => false end.

(** [Array.prototype.map] with a callback that may throw: the first throw ends it. *)
Fixpoint map_outcome {A B} (f : A -> outcome B) (l : list A) : outcome (list B) :=
  match l with
  | [] => Ok []
  | x :: l' => y ← f x; ys ← map_outcome f l'; Ok (y :: ys)
  end.

(** ** Automation. *)

Create HintDb js.
Create Rewrite HintDb js.

(** Splits boolean conjunctions and turns boolean tests into propositions. *)
Ltac bool_hyps :=
  repeat match goal with
  | H : (_ && _) = true |- _ => apply andb_true_iff in H; destruct H
  | H : (_ || _) = false |- _ => apply orb_false_iff in H; destruct H
  | H : negb _ = true |- _ => apply negb_true_iff in H
  | H : negb _ = false |- _ => apply negb_false_iff in H
  | H : (_ =? _)%Z = true |- _ => apply Z.eqb_eq in H
  | H : (_ =? _)%Z = false |- _ => apply Z.eqb_neq in H
  | H : (_ <=? _)%Z = true |- _ => apply Z.leb_le in H
  | H : (_ <=? _)%Z = false |- _ => apply Z.leb_gt in H
  | H : (_ <? _)%Z = true |- _ => apply Z.ltb_lt in H
  | H : (_ <? _)%Z = false |- _ => apply Z.ltb_ge in H
  | H : (_ >? _)%Z = _ |- _ => rewrite Z.gtb_ltb in H
  | H : (_ >=? _)%Z = _ |- _ => rewrite Z.geb_leb in H
  | H : (_ =? _)%string = true |- _ => apply String.eqb_eq in H
  | H : (_ =? _)%string = false |- _ => apply String.eqb_neq in H
  end.

(** [bool_hyps], and case analysis on boolean disjunctions. *)
Ltac bool_cases :=
  repeat (progress bool_hyps ||
    match goal with
    | H : (_ || _) = true |- _ => apply orb_true_iff in H as [H|H]
    | H : (_ && _) = false |- _ => apply andb_false_iff in H as [H|H]
    end).

(** Inverts a chain of binds that returned a value. *)
Ltac inv_outcome :=
  repeat match goal with
  | H : mbind _ ?m = Ok _ |- _ =>
      let E := fresh "E" in destruct m eqn:E; cbn [mbind outcome_bind] in H; [|discriminate H]
  | H : Ok _ = Ok _ |- _ => injection H as H; try subst
  | H : Throw _ = Ok _ |- _ => discriminate H
  | H : RangeError _ = Ok _ |- _ => discriminate H
  | H : PlainError _ = Ok _ |- _ => discriminate H
  | H : (if ?b then _ else _) = Ok _ |- _ => destruct b eqn:?
  end.

(** [lia] after the division and modulo by constants are turned into equations. *)
Ltac dlia := Z.div_mod_to_equations; lia.

(** ** Strings.

    A JavaScript string is a [string]; its code units are the 256 values of [ascii], so a text outside Latin-1 is not
    represented. Length, indexing, slicing, concatenation and comparison are by code unit, as in JavaScript. *)

Definition chr (n : N) : ascii := ascii_of_N n.
Definition LF : ascii := chr 10.
Definition CR : ascii := chr 13.
Definition QUOTE : ascii := chr 34.

Definition is_digit (c : ascii) : bool := let n := N_of_ascii c in (48 <=? n)%N && (n <=? 57)%N.
Definition digit_val (c : ascii) : Z := Z.of_N (N_of_ascii c) - 48.
Definition digit_char (d : Z) : ascii := chr (Z.to_N (d + 48)).

(** White space and line terminators of [String.prototype.trim] below code 256. *)
Definition is_space (c : ascii) : bool :=
  let n := N_of_ascii c in
  ((9 <=? n)%N && (n <=? 13)%N) || (n =? 32)%N || (n =? 160)%N.

Fixpoint trim_start (s : string) : string :=
  match s with
  | EmptyString => EmptyString
  | String c s' => if is_space c then trim_start s' else s
  end.

Fixpoint trim_end (s : string) : string :=
  match s with
  | EmptyString => EmptyString
  | String c s' =>
      match trim_end s' with
      | EmptyString => if is_space c then EmptyString else String c EmptyString
      | t => String c t
      end
  end.
Definition trim (s : string) : string := trim_end (trim_start s).

Definition slength (s : string) : Z := Z.of_nat (String.length s).

Fixpoint drop (n : nat) (s : string) : string :=
  match n, s with
  | O, _ => s
  | S n', String _ s' => drop n' s'
  | S _, EmptyString => EmptyString
  end.
Fixpoint takes (n : nat) (s : string) : string :=
  match n, s with
  | S n', String c s' => String c (takes n' s')
  | _, _ => EmptyString
  end.

(** [s.slice(a, b)] for [0 <= a <= b]. *)
Definition slice (a b : nat) (s : string) : string := takes (b - a) (drop a s).

Fixpoint repeat_char (n : nat) (c : ascii) : string :=
  match n with O => EmptyString | S n' => String c (repeat_char n' c) end.
(** [s.padStart(width, c)]. *)
Definition pad_start (width : Z) (c : ascii) (s : string) : string :=
  repeat_char (Z.to_nat (width - slength s)) c +:+ s.

Fixpoint all_chars (f : ascii -> bool) (s : string) : bool :=
  match s with EmptyString => true | String c s' => f c && all_chars f s' end.
Fixpoint has_char (f : ascii -> bool) (s : string) : bool :=
  match s with EmptyString => false | String c s' => f c || has_char f s' end.

(** The longest prefix of characters satisfying [f], and the rest. *)
Fixpoint span (f : ascii -> bool) (s : string) : string * string :=
  match s with
  | EmptyString => (EmptyString, EmptyString)
  | String c s' => if f c then let '(a, b) := span f s' in (String c a, b) else (EmptyString, s)
  end.

(** [s.split(c)] for a one-character separator. *)
Fixpoint split_char (c : ascii) (s : string) : list string :=
  match s with
  | EmptyString => [EmptyString]
  | String x s' =>
      let r := split_char c s' in
      if Ascii.eqb x c then EmptyString :: r
      else match r with w :: r' => String x w :: r' | [] => [String x EmptyString] end
  end.

(** [xs.join(sep)]. *)
Fixpoint join (sep : string) (xs : list string) : string :=
  match xs with
  | [] => EmptyString
  | [x] => x
  | x :: xs' => x +:+ sep +:+ join sep xs'
  end.

(** [a < b] and [a <= b] on strings: lexicographic by code unit. *)
Fixpoint str_ltb (a b : string) : bool :=
  match a, b with
  | _, EmptyString => false
  | EmptyString, String _ _ => true
  | String x a', String y b' =>
      (N_of_ascii x <? N_of_ascii y)%N || ((N_of_ascii x =? N_of_ascii y)%N && str_ltb a' b')
  end.
Definition str_leb (a b : string) : bool := negb (str_ltb b a).

(** ** Numbers. *)

(** The decimal digits of [n], written before [acc]; [fuel] bounds the digits. *)
Fixpoint digits_before (fuel : nat) (n : Z) (acc : string) : string :=
  match fuel with
  | O => acc
  | S f =>
      let acc' := String (digit_char (n mod 10)) acc in
      if n <? 10 then acc' else digits_before f (n / 10) acc'
  end.
(** [String(n)] of a non-negative integer: its decimal digits. *)
Definition digits_of (n : Z) : string := digits_before (S (Z.to_nat (Z.log2 n))) n EmptyString.
(** [String(n)] of an integer below 10^21, and [n.toString()] of a bigint. *)
Definition dec_of (n : Z) : string := if n <? 0 then String "-" (digits_of (- n)) else digits_of n.

Fixpoint digits_acc (s : string) (acc : Z) : Z :=
  match s with EmptyString => acc | String c s' => digits_acc s' (acc * 10 + digit_val c) end.
(** [BigInt(s)], [Number(s)] of a text of decimal digits. *)
Definition digits_val (s : string) : Z := digits_acc s 0.

Definition MAX_SAFE_INTEGER : Z := 9007199254740991.
Definition is_safe_integer (n : Z) : bool := (- MAX_SAFE_INTEGER <=? n) && (n <=? MAX_SAFE_INTEGER).

(** A JavaScript number as the code observes it: its integer value when it is integral, and its text [String(v)]. *)
Record jsnumber := JsNumber { num_int : option Z; num_text : string }.
Definition num_of_Z (n : Z) : jsnumber := JsNumber (Some n) (dec_of n).

(** ** Lemmas on strings. *)

Lemma append_nil_r (s : string) : s +:+ "" = s.
Proof. induction s as [|c s IH]; [done|]. change (String c (s +:+ "") = String c s). by rewrite IH. Qed.

Lemma append_cons (c : ascii) (a b : string) : String c a +:+ b = String c (a +:+ b).
Proof. done. Qed.

Lemma append_assoc_s (a b c : string) : (a +:+ b) +:+ c = a +:+ (b +:+ c).
Proof. induction a as [|x a IH]; [done|]. rewrite !append_cons. by rewrite IH. Qed.

Lemma length_append (a b : string) : String.length (a +:+ b) = (String.length a + String.length b)%nat.
Proof. induction a as [|x a IH]; [done|]. rewrite append_cons. cbn. by rewrite IH. Qed.

Lemma slength_append (a b : string) : slength (a +:+ b) = slength a + slength b.
Proof. unfold slength. rewrite length_append. lia. Qed.

Lemma slength_cons (c : ascii) (s : string) : slength (String c s) = 1 + slength s.
Proof. unfold slength. cbn [String.length]. lia. Qed.

Lemma slength_nonneg (s : string) : 0 <= slength s.
Proof. unfold slength. lia. Qed.

Lemma length_repeat_char (n : nat) (c : ascii) : String.length (repeat_char n c) = n.
Proof. induction n as [|n IH]; [done|]. cbn. by rewrite IH. Qed.

Lemma slength_repeat_char (n : nat) (c : ascii) : slength (repeat_char n c) = Z.of_nat n.
Proof. unfold slength. by rewrite length_repeat_char. Qed.

Lemma all_chars_append (f : ascii -> bool) (a b : string) :
  all_chars f (a +:+ b) = all_chars f a && all_chars f b.
Proof.
  induction a as [|x a IH]; [done|]. rewrite append_cons. cbn. rewrite IH. by rewrite andb_assoc.
Qed.

Lemma all_chars_repeat (f : ascii -> bool) (n : nat) (c : ascii) :
  f c = true -> all_chars f (repeat_char n c) = true.
Proof. intros H. induction n as [|n IH]; [done|]. cbn. by rewrite H, IH. Qed.

Lemma all_chars_impl (f g : ascii -> bool) (s : string) :
  (forall c, f c = true -> g c = true) -> all_chars f s = true -> all_chars g s = true.
Proof.
  intros Hfg. induction s as [|c s IH]; [done|]. cbn. intros H.
  apply andb_true_iff in H as [Hc Hs]. by rewrite (Hfg _ Hc), IH.
Qed.

Lemma has_char_all (f : ascii -> bool) (s : string) : has_char f s = negb (all_chars (fun c => negb (f c)) s).
Proof. induction s as [|c s IH]; [done|]. cbn. rewrite IH. by destruct (f c). Qed.

Lemma span_all (f : ascii -> bool) (a : string) : all_chars f a = true -> span f a = (a, EmptyString).
Proof.
  induction a as [|c a IH]; [done|]. cbn. intros H. apply andb_true_iff in H as [Hc Ha].
  by rewrite Hc, (IH Ha).
Qed.

Lemma span_stop (f : ascii -> bool) (a : string) (c : ascii) (b : string) :
  all_chars f a = true -> f c = false -> span f (a +:+ String c b) = (a, String c b).
Proof.
  intros Ha Hc. induction a as [|x a IH].
  - change (span f (String c b) = (EmptyString, String c b)). cbn. by rewrite Hc.
  - rewrite append_cons. cbn in Ha |- *. apply andb_true_iff in Ha as [Hx Ha].
    by rewrite Hx, (IH Ha).
Qed.

Lemma span_append (f : ascii -> bool) (s a b : string) :
  span f s = (a, b) -> s = a +:+ b /\ all_chars f a = true.
Proof.
  revert a b. induction s as [|c s IH]; cbn; intros a b H.
  - by injection H as <- <-.
  - destruct (f c) eqn:Hc.
    + destruct (span f s) as [a' b'] eqn:Hs. injection H as <- <-.
      destruct (IH _ _ eq_refl) as [-> Ha]. cbn. by rewrite Hc, Ha.
    + by injection H as <- <-.
Qed.

Lemma takes_drop (n : nat) (s : string) : takes n s +:+ drop n s = s.
Proof.
  revert s. induction n as [|n IH]; intros [|c s]; try done.
  cbn [takes drop]. rewrite append_cons. by rewrite IH.
Qed.

Lemma takes_append (a b : string) : takes (String.length a) (a +:+ b) = a.
Proof. induction a as [|c a IH]; [by destruct b|]. rewrite append_cons. cbn. by rewrite IH. Qed.

Lemma drop_append (a b : string) : drop (String.length a) (a +:+ b) = b.
Proof. induction a as [|c a IH]; [done|]. rewrite append_cons. cbn. by rewrite IH. Qed.

Lemma prefix_append (a b : string) : String.prefix a (a +:+ b) = true.
Proof. induction a as [|c a IH]; [by destruct b|]. rewrite append_cons. cbn [String.prefix]. by destruct (ascii_dec c c). Qed.
Lemma prefix_drop (a s : string) : String.prefix a s = true -> s = a +:+ drop (String.length a) s.
Proof.
  revert s. induction a as [|c a IH]; intros s; [done|]. destruct s as [|d s]; [done|]. cbn [String.prefix]. destruct (ascii_dec c d) as [->|]; [|done].
  intros H. rewrite append_cons. cbn [String.length drop]. by rewrite <- IH.
Qed.

Lemma length_takes (n : nat) (s : string) : (n <= String.length s)%nat -> String.length (takes n s) = n.
Proof.
  revert s. induction n as [|n IH]; intros [|c s]; cbn; try lia. intros H. rewrite IH; lia.
Qed.

Lemma length_drop (n : nat) (s : string) : String.length (drop n s) = (String.length s - n)%nat.
Proof. revert s. induction n as [|n IH]; intros [|c s]; cbn; try lia. apply IH. Qed.

Lemma all_chars_takes (f : ascii -> bool) (n : nat) (s : string) :
  all_chars f s = true -> all_chars f (takes n s) = true.
Proof.
  revert s. induction n as [|n IH]; intros [|c s]; cbn; try done.
  intros H. apply andb_true_iff in H as [Hc Hs]. by rewrite Hc, IH.
Qed.

Lemma all_chars_drop (f : ascii -> bool) (n : nat) (s : string) :
  all_chars f s = true -> all_chars f (drop n s) = true.
Proof.
  revert s. induction n as [|n IH]; intros [|c s]; cbn; try done.
  intros H. apply andb_true_iff in H as [Hc Hs]. by apply IH.
Qed.

Lemma trim_start_id (c : ascii) (s : string) : is_space c = false -> trim_start (String c s) = String c s.
Proof. intros H. cbn. by rewrite H. Qed.

Lemma trim_end_id (s : string) : all_chars (fun c => negb (is_space c)) s = true -> trim_end s = s.
Proof.
  induction s as [|c s IH]; [done|]. cbn. intros H. apply andb_true_iff in H as [Hc Hs].
  rewrite (IH Hs). destruct s; [|done]. by destruct (is_space c).
Qed.

Lemma trim_id (s : string) : all_chars (fun c => negb (is_space c)) s = true -> trim s = s.
Proof.
  intros H. unfold trim. destruct s as [|c s]; [done|].
  pose proof H as H'. cbn in H'. apply andb_true_iff in H' as [Hc _]. apply negb_true_iff in Hc.
  rewrite trim_start_id by done. by apply trim_end_id.
Qed.

(** ** Lemmas on the string order. *)

Lemma str_ltb_irrefl (s : string) : str_ltb s s = false.
Proof. induction s as [|c s IH]; [done|]. cbn. by rewrite N.ltb_irrefl, IH, andb_false_r. Qed.

Lemma str_ltb_app (p a b : string) : str_ltb (p +:+ a) (p +:+ b) = str_ltb a b.
Proof.
  induction p as [|c p IH]; [done|]. rewrite !append_cons. cbn.
  by rewrite N.ltb_irrefl, N.eqb_refl, IH.
Qed.

Lemma str_ltb_trans (a b c : string) : str_ltb a b = true -> str_ltb b c = true -> str_ltb a c = true.
Proof.
  revert b c. induction a as [|x a IH]; intros [|y b] [|z c]; cbn; try done.
  rewrite !orb_true_iff, !andb_true_iff, !N.ltb_lt, !N.eqb_eq.
  intros [H1|[H1 H1']] [H2|[H2 H2']]; try (left; lia).
  right. split; [lia|]. by eapply IH.
Qed.

Lemma str_ltb_total (a b : string) : str_ltb a b = false -> str_ltb b a = false -> a = b.
Proof.
  revert b. induction a as [|x a IH]; intros [|y b]; cbn; try done.
  rewrite !orb_false_iff, !andb_false_iff, !N.ltb_ge, !N.eqb_neq.
  intros [H1 [H2|H2]] [H3 [H4|H4]]; try lia.
  f_equal; [|by apply IH].
  rewrite <- (ascii_N_embedding x), <- (ascii_N_embedding y). f_equal. lia.
Qed.

Lemma str_leb_refl (s : string) : str_leb s s = true.
Proof. unfold str_leb. by rewrite str_ltb_irrefl. Qed.

Lemma str_ltb_asym (a b : string) : str_ltb a b = true -> str_ltb b a = false.
Proof.
  intros H. destruct (str_ltb b a) eqn:E; [|done].
  pose proof (str_ltb_trans _ _ _ H E) as C. by rewrite str_ltb_irrefl in C.
Qed.

(** ** Lemmas on decimal digits. *)

Lemma is_digit_val (c : ascii) : is_digit c = true -> 0 <= digit_val c <= 9.
Proof.
  unfold is_digit, digit_val. rewrite andb_true_iff, !N.leb_le. intros []. lia.
Qed.

Lemma digit_char_val (d : Z) : 0 <= d <= 9 -> digit_val (digit_char d) = d.
Proof. intros H. unfold digit_val, digit_char, chr. rewrite N_ascii_embedding; lia. Qed.

Lemma digit_char_digit (d : Z) : 0 <= d <= 9 -> is_digit (digit_char d) = true.
Proof.
  intros H. unfold is_digit, digit_char, chr. rewrite N_ascii_embedding by lia.
  apply andb_true_iff. split; apply N.leb_le; lia.
Qed.

Lemma digit_val_inj (c c' : ascii) :
  is_digit c = true -> is_digit c' = true -> digit_val c = digit_val c' -> c = c'.
Proof.
  unfold is_digit, digit_val. rewrite !andb_true_iff, !N.leb_le. intros H H' E.
  rewrite <- (ascii_N_embedding c), <- (ascii_N_embedding c'). f_equal. lia.
Qed.

Lemma digits_acc_app (a b : string) (acc : Z) : digits_acc (a +:+ b) acc = digits_acc b (digits_acc a acc).
Proof. revert acc. induction a as [|c a IH]; intros acc; [done|]. rewrite append_cons. cbn. apply IH. Qed.

Lemma digits_acc_val (s : string) (acc : Z) : digits_acc s acc = acc * 10 ^ slength s + digits_val s.
Proof.
  unfold digits_val. revert acc. induction s as [|c s IH]; intros acc.
  - change (acc = acc * 1 + 0). lia.
  - cbn [digits_acc]. rewrite IH, (IH (0 * 10 + _)), slength_cons.
    pose proof (slength_nonneg s). rewrite Z.pow_add_r by lia. ring.
Qed.

Lemma digits_val_append (a b : string) : digits_val (a +:+ b) = digits_val a * 10 ^ slength b + digits_val b.
Proof. unfold digits_val at 1. rewrite digits_acc_app, digits_acc_val. done. Qed.

Lemma digits_val_cons (c : ascii) (s : string) :
  digits_val (String c s) = digit_val c * 10 ^ slength s + digits_val s.
Proof. unfold digits_val at 1. cbn [digits_acc]. rewrite digits_acc_val. done. Qed.

Lemma digits_val_bounds (s : string) : all_chars is_digit s = true -> 0 <= digits_val s < 10 ^ slength s.
Proof.
  induction s as [|c s IH]; [done|]. cbn [all_chars]. rewrite andb_true_iff. intros [Hc Hs].
  rewrite digits_val_cons, slength_cons. specialize (IH Hs). apply is_digit_val in Hc.
  pose proof (slength_nonneg s). rewrite Z.pow_add_r by lia. nia.
Qed.

Lemma digits_val_zeros (k : nat) (s : string) : digits_val (repeat_char k "0" +:+ s) = digits_val s.
Proof. induction k as [|k IH]; [done|]. cbn [repeat_char]. rewrite append_cons, digits_val_cons, IH. change (digit_val "0") with 0. lia. Qed.

Lemma digits_before_val (fuel : nat) (n : Z) (acc : string) :
  0 <= n < 10 ^ Z.of_nat fuel -> digits_val (digits_before fuel n acc) = digits_acc acc n.
Proof.
  revert n acc. induction fuel as [|f IH]; intros n acc H.
  - cbn in H. assert (n = 0) as -> by lia. done.
  - cbn [digits_before]. destruct (n <? 10) eqn:E; bool_hyps.
    + unfold digits_val. cbn [digits_acc]. rewrite Z.mod_small, digit_char_val by lia. done.
    + rewrite IH.
      * cbn [digits_acc]. rewrite digit_char_val by dlia. f_equal. dlia.
      * rewrite Nat2Z.inj_succ, Z.pow_succ_r in H by lia. dlia.
Qed.

Lemma digits_before_digits (fuel : nat) (n : Z) (acc : string) :
  0 <= n -> all_chars is_digit acc = true -> all_chars is_digit (digits_before fuel n acc) = true.
Proof.
  revert n acc. induction fuel as [|f IH]; intros n acc Hn Ha; [done|].
  cbn [digits_before].
  assert (all_chars is_digit (String (digit_char (n mod 10)) acc) = true) as H'.
  { cbn. rewrite Ha, digit_char_digit by dlia. done. }
  destruct (n <? 10); [done|]. apply IH; [dlia | done].
Qed.

Lemma digits_fuel (n : Z) : 0 <= n -> n < 10 ^ Z.of_nat (S (Z.to_nat (Z.log2 n))).
Proof.
  intros Hn. pose proof (Z.log2_nonneg n). rewrite Nat2Z.inj_succ, Z2Nat.id by lia.
  destruct (Z.eq_dec n 0) as [->|Hz]; [done|].
  apply Z.lt_le_trans with (2 ^ Z.succ (Z.log2 n)); [by apply Z.log2_spec; lia|].
  apply Z.pow_le_mono_l. lia.
Qed.

Lemma digits_of_val (n : Z) : 0 <= n -> digits_val (digits_of n) = n.
Proof.
  intros Hn. unfold digits_of. rewrite digits_before_val; [done|].
  split; [done | by apply digits_fuel].
Qed.

Lemma digits_of_digits (n : Z) : 0 <= n -> all_chars is_digit (digits_of n) = true.
Proof. intros Hn. by apply digits_before_digits. Qed.

Lemma digits_before_length (fuel : nat) (n : Z) (acc : string) :
  (String.length acc <= String.length (digits_before fuel n acc))%nat.
Proof.
  revert n acc. induction fuel as [|f IH]; intros n acc; cbn; [done|].
  destruct (n <? 10); cbn; [lia|]. etrans; [|apply IH]. cbn. lia.
Qed.

Lemma digits_of_nonempty (n : Z) : 1 <= slength (digits_of n).
Proof.
  unfold digits_of, slength. cbn [digits_before]. destruct (n <? 10); cbn [String.length]; [lia|].
  pose proof (digits_before_length (Z.to_nat (Z.log2 n)) (n / 10) (String (digit_char (n mod 10)) "")) as H.
  cbn [String.length] in H. lia.
Qed.

Lemma digit_not_space (c : ascii) : is_digit c = true -> is_space c = false.
Proof.
  unfold is_digit, is_space. intros H. bool_hyps. rewrite N.leb_le in *.
  repeat (apply orb_false_iff; split); try apply andb_false_iff; rewrite ?N.eqb_neq, ?N.leb_gt; lia.
Qed.

Lemma digits_not_space (s : string) : all_chars is_digit s = true -> all_chars (fun c => negb (is_space c)) s = true.
Proof. apply all_chars_impl. intros c H. by rewrite digit_not_space. Qed.

Lemma digits_before_length_le (fuel : nat) (n k : Z) (acc : string) :
  0 <= n -> 1 <= k -> n < 10 ^ k -> slength (digits_before fuel n acc) <= k + slength acc.
Proof.
  revert n k acc. induction fuel as [|f IH]; intros n k acc Hn Hk Hlt; [cbn; lia|].
  cbn [digits_before]. destruct (n <? 10) eqn:E; bool_hyps; [rewrite slength_cons; lia|].
  assert (k <> 1) as Hk1 by (intros ->; lia).
  etrans; [apply (IH _ (k - 1))|rewrite slength_cons; lia]; [dlia|lia|].
  replace k with (Z.succ (k - 1)) in Hlt by lia. rewrite Z.pow_succ_r in Hlt by lia. dlia.
Qed.

Lemma digits_of_length_le (n k : Z) : 0 <= n -> 1 <= k -> n < 10 ^ k -> slength (digits_of n) <= k.
Proof.
  intros. unfold digits_of. etrans; [by apply (digits_before_length_le _ n k)|].
  change (slength "") with 0. lia.
Qed.

(** A number padded to [k] digits that hold it: exactly [k] digits with its value. *)
Lemma pad_digits (k n : Z) :
  0 <= n -> 1 <= k -> n < 10 ^ k ->
  all_chars is_digit (pad_start k "0" (digits_of n)) = true /\
  slength (pad_start k "0" (digits_of n)) = k /\ digits_val (pad_start k "0" (digits_of n)) = n.
Proof.
  intros Hn Hk Hlt. pose proof (digits_of_length_le n k Hn Hk Hlt) as Hl. unfold pad_start. repeat split.
  - rewrite all_chars_append, all_chars_repeat by done. by apply digits_of_digits.
  - rewrite slength_append, slength_repeat_char. lia.
  - rewrite digits_val_zeros. by apply digits_of_val.
Qed.

(** Digit texts of one length are ordered as their values. *)
Lemma str_ltb_digits (a b : string) :
  all_chars is_digit a = true -> all_chars is_digit b = true -> String.length a = String.length b ->
  str_ltb a b = (digits_val a <? digits_val b).
Proof.
  revert b. induction a as [|x a IH]; intros [|y b]; try done. cbn [all_chars String.length str_ltb].
  rewrite !andb_true_iff. intros [Hx Ha] [Hy Hb] Hl. injection Hl as Hl.
  rewrite (IH b Ha Hb Hl), !digits_val_cons.
  pose proof (digits_val_bounds a Ha). pose proof (digits_val_bounds b Hb).
  assert (slength a = slength b) as E by (unfold slength; lia). rewrite E in *.
  pose proof Hx as Hx'. pose proof Hy as Hy'.
  apply is_digit_val in Hx, Hy. unfold digit_val in *.
  apply eq_true_iff_eq. rewrite orb_true_iff, andb_true_iff, N.ltb_lt, N.eqb_eq, !Z.ltb_lt. nia.
Qed.

Lemma digits_val_inj (a b : string) :
  all_chars is_digit a = true -> all_chars is_digit b = true -> String.length a = String.length b ->
  digits_val a = digits_val b -> a = b.
Proof.
  intros Ha Hb Hl E. apply str_ltb_total; rewrite str_ltb_digits by done; apply Z.ltb_ge; lia.
Qed.

(** The order of two texts whose first parts have one length. *)
Lemma str_ltb_parts (a b r r' : string) :
  String.length a = String.length b ->
  str_ltb (a +:+ r) (b +:+ r') = str_ltb a b || (String.eqb a b && str_ltb r r').
Proof.
  revert b. induction a as [|x a IH]; intros [|y b]; try done.
  cbn [String.length]. intros Hl. injection Hl as Hl. rewrite !append_cons. cbn [str_ltb String.eqb].
  rewrite (IH b Hl). destruct (Ascii.eqb x y) eqn:E.
  - apply Ascii.eqb_eq in E as ->. by rewrite N.ltb_irrefl, N.eqb_refl.
  - assert ((N_of_ascii x =? N_of_ascii y)%N = false) as ->.
    { apply N.eqb_neq. intros H. apply Ascii.eqb_neq in E. apply E.
      by rewrite <- (ascii_N_embedding x), <- (ascii_N_embedding y), H. }
    cbn. by rewrite !orb_false_r.
Qed.

Lemma append_inj (a b r r' : string) :
  String.length a = String.length b -> a +:+ r = b +:+ r' -> a = b /\ r = r'.
Proof.
  revert b. induction a as [|x a IH]; intros [|y b]; try done.
  cbn [String.length]. intros Hl H. injection Hl as Hl. rewrite !append_cons in H. injection H as -> H.
  by destruct (IH b Hl H) as [-> ->].
Qed.

Lemma slice_mid (n k : nat) (a b c : string) :
  String.length a = n -> String.length b = k -> slice n (n + k) (a +:+ b +:+ c) = b.
Proof.
  intros <- <-. unfold slice. rewrite drop_append.
  replace (String.length a + String.length b - String.length a)%nat with (String.length b) by lia.
  apply takes_append.
Qed.

Lemma slice_first (k : nat) (a c : string) : String.length a = k -> slice 0 k (a +:+ c) = a.
Proof. intros <-. unfold slice. rewrite Nat.sub_0_r. apply takes_append. Qed.

Lemma slice_last (n k : nat) (a b : string) :
  String.length a = n -> String.length b = k -> slice n (n + k) (a +:+ b) = b.
Proof. intros Ha Hb. rewrite <- (append_nil_r b) at 1. by apply slice_mid. Qed.

#[export] Hint Resolve digits_of_digits digits_of_nonempty slength_nonneg digits_not_space str_leb_refl : js.
#[export] Hint Rewrite append_nil_r append_assoc_s slength_append slength_cons all_chars_append : js.

(** Splitting at a character and joining with it are inverse. *)
Lemma split_not_nil (c : ascii) (s : string) : split_char c s <> [].
Proof. induction s as [|x s IH]; cbn [split_char]; [done|]. destruct (Ascii.eqb x c); [done|]. by destruct (split_char c s). Qed.
Lemma join_split (c : ascii) (s : string) : join (String c EmptyString) (split_char c s) = s.
Proof.
  induction s as [|x s IH]; [done|]. cbn [split_char]. pose proof (split_not_nil c s) as Hn. destruct (Ascii.eqb x c) eqn:E.
  - apply Ascii.eqb_eq in E as ->. destruct (split_char c s) as [|w r] eqn:Es; [done|].
    change (join (String c EmptyString) (EmptyString :: w :: r)) with (String c (join (String c EmptyString) (w :: r))). by rewrite IH.
  - destruct (split_char c s) as [|w r] eqn:Es; [done|]. destruct r as [|w2 r]; cbn [join] in *; by rewrite <- IH.
Qed.
Lemma split_char_app (c : ascii) (a b : string) : split_char c (a +:+ String c b) = split_char c a ++ split_char c b.
Proof.
  induction a as [|x a IH].
  - change (split_char c (String c b) = [""%string] ++ split_char c b). cbn [split_char]. by rewrite Ascii.eqb_refl.
  - rewrite append_cons. cbn [split_char]. rewrite IH. destruct (Ascii.eqb x c); [done|].
    destruct (split_char c a) as [|w r] eqn:E; [|done]. by destruct a; cbn in E; repeat case_match.
Qed.
Lemma split_char_none (c : ascii) (s : string) : all_chars (fun x => negb (Ascii.eqb x c)) s = true -> split_char c s = [s].
Proof.
  induction s as [|x s IH]; cbn [all_chars split_char]; [done|]. intros H. apply andb_true_iff in H as [Hx Hs]. apply negb_true_iff in Hx.
  by rewrite Hx, (IH Hs).
Qed.

(** ** JavaScript objects, maps and sets used as data.

    An object (or a [Map]) read by key and iterated in insertion order is an association list with at most one entry per
    key; the keys the modelled code uses are names, which JavaScript keeps in insertion order. *)

Abbreviation dict A := (list (string * A)).

(** Whether an optional value is present ([!== undefined]). *)
Definition is_some {A} (o : option A) : bool := match o with Some _ => true | None => false end.

Section Dict.
Context {A : Type}.
Implicit Types d : dict A.

(** [d[k]], [undefined] as [None]. *)
Fixpoint get d (k : string) : option A :=
  match d with
  | [] => None
  | (k', v) :: d' => if String.eqb k' k then Some v else get d' k
  end.
(** [d[k] = v]: an own key keeps its place, a new one is appended. *)
Fixpoint set d (k : string) (v : A) : dict A :=
  match d with
  | [] => [(k, v)]
  | (k', v') :: d' => if String.eqb k' k then (k', v) :: d' else (k', v') :: set d' k v
  end.
(** [Object.hasOwn(d, k)]. *)
Definition has_own d (k : string) : bool := is_some (get d k).
(** [Object.keys(d)], [Object.values(d)]. *)
Definition keys d : list string := map fst d.
Definition values d : list A := map snd d.
(** At most one entry per key. *)
Definition wf_dict d : Prop := NoDup (keys d).

Lemma get_set_eq d k v : get (set d k v) k = Some v.
Proof.
  induction d as [|[k' v'] d IH]; cbn; [by rewrite String.eqb_refl|].
  destruct (String.eqb k' k) eqn:E; cbn; by rewrite E.
Qed.

Lemma get_set_ne d k k' v : k <> k' -> get (set d k v) k' = get d k'.
Proof.
  intros Hne. induction d as [|[k2 v2] d IH]; cbn.
  - by rewrite (proj2 (String.eqb_neq k k')).
  - destruct (String.eqb k2 k) eqn:E; cbn; [|by rewrite IH].
    apply String.eqb_eq in E as ->. by rewrite (proj2 (String.eqb_neq k k')).
Qed.

Lemma get_in d k v : get d k = Some v -> (k, v) ∈ d.
Proof.
  induction d as [|[k' v'] d IH]; cbn; [done|]. destruct (String.eqb k' k) eqn:E.
  - intros [= ->]. apply String.eqb_eq in E as ->. by left.
  - intros H. right. by apply IH.
Qed.

Lemma get_keys d k : is_some (get d k) = bool_decide (k ∈ keys d).
Proof.
  induction d as [|[k' v'] d IH]; cbn [get keys map fst]; [done|]. destruct (String.eqb k' k) eqn:E.
  - apply String.eqb_eq in E as ->. cbn. symmetry. apply bool_decide_eq_true. by left.
  - apply String.eqb_neq in E. rewrite IH. apply bool_decide_ext. unfold keys. rewrite elem_of_cons. naive_solver.
Qed.
Lemma get_none d k : k ∉ keys d -> get d k = None.
Proof. intros H. pose proof (get_keys d k) as G. rewrite bool_decide_eq_false_2 in G by done. by destruct (get d k). Qed.
Lemma set_fresh d k x : get d k = None -> set d k x = d ++ [(k, x)].
Proof.
  induction d as [|[k' x'] d IH]; cbn [get set]; [done|]. destruct (String.eqb k' k); [done|]. intros H. cbn. by rewrite IH.
Qed.

Lemma in_get d k v : wf_dict d -> (k, v) ∈ d -> get d k = Some v.
Proof.
  unfold wf_dict. induction d as [|[k' v'] d IH]; cbn [keys map fst]; intros Hd H; [by apply elem_of_nil in H|].
  apply NoDup_cons in Hd as [Hk Hd]. apply elem_of_cons in H as [[= -> ->]|H]; cbn.
  - by rewrite String.eqb_refl.
  - destruct (String.eqb k' k) eqn:E; [|by apply IH]. apply String.eqb_eq in E as ->.
    exfalso. apply Hk. apply list_elem_of_fmap. by exists (k, v).
Qed.

Lemma keys_set d k v : keys (set d k v) = if bool_decide (k ∈ keys d) then keys d else keys d ++ [k].
Proof.
  induction d as [|[k' v'] d IH]; cbn [set keys map fst]; [done|]. destruct (String.eqb k' k) eqn:E.
  - apply String.eqb_eq in E as ->. cbn [map fst]. by rewrite bool_decide_eq_true_2 by (by left).
  - apply String.eqb_neq in E. cbn [map fst]. fold (keys (set d k v)). fold (keys d). rewrite IH.
    destruct (bool_decide (k ∈ keys d)) eqn:Ek.
    + apply bool_decide_eq_true in Ek. by rewrite bool_decide_eq_true_2 by (by right).
    + apply bool_decide_eq_false in Ek. rewrite bool_decide_eq_false_2; [done|]. rewrite elem_of_cons. naive_solver.
Qed.

Lemma wf_set d k v : wf_dict d -> wf_dict (set d k v).
Proof.
  unfold wf_dict. intros H. rewrite keys_set. case_bool_decide as Hk; [done|].
  apply NoDup_app. repeat split; [done| |apply NoDup_singleton].
  intros x Hx Hx'. apply list_elem_of_singleton in Hx' as ->. done.
Qed.

(** The entries that satisfy a test, and those whose key does. *)
Lemma get_filter (p : string * A -> bool) d k : wf_dict d ->
  get (List.filter p d) k = match get d k with Some v => if p (k, v) then Some v else None | None => None end.
Proof.
  unfold wf_dict. induction d as [|[k' v] d IH]; cbn [List.filter keys map fst get]; intros Hd; [done|].
  apply NoDup_cons in Hd as [Hk Hd]. destruct (String.eqb k' k) eqn:Ek.
  - apply String.eqb_eq in Ek as ->. destruct (p (k, v)); cbn [get]; [by rewrite String.eqb_refl|]. rewrite IH by done.
    destruct (get d k) eqn:G; [|done]. apply get_in in G. destruct Hk. apply (list_elem_of_fmap_2 fst) in G. exact G.
  - destruct (p (k', v)); cbn [get]; rewrite ?Ek; by apply IH.
Qed.


Lemma get_filter_key (p : string -> bool) d k : get (List.filter (fun kv => p (fst kv)) d) k = if p k then get d k else None.
Proof.
  induction d as [|[k' v] d IH]; cbn [List.filter fst get]; [by case_match|].
  destruct (p k') eqn:E; cbn [get]; destruct (String.eqb k' k) eqn:Ek; rewrite ?IH; try done;
    apply String.eqb_eq in Ek as ->; by rewrite E.
Qed.
End Dict.

Lemma get_app {A} (a b : dict A) k : get (a ++ b) k = match get a k with Some v => Some v | None => get b k end.
Proof. induction a as [|[k' v] a IH]; cbn [app get]; [done|]. by destruct (String.eqb k' k). Qed.

(** Entries written one after another: the last of a key holds. *)
Lemma get_fold_set {A B} (f : A -> B) (l : dict A) (d : dict B) k : wf_dict l ->
  get (fold_left (fun out (kx : string * A) => set out (fst kx) (f (snd kx))) l d) k =
  match get l k with Some x => Some (f x) | None => get d k end.
Proof.
  unfold wf_dict. revert d. induction l as [|[k' x] l IH]; intros d Hl; cbn [fold_left fst snd get]; [done|].
  apply NoDup_cons in Hl as [Hk Hl]. rewrite IH by done. destruct (String.eqb k' k) eqn:E.
  - apply String.eqb_eq in E as ->. destruct (get l k) eqn:G; [|by rewrite get_set_eq].
    apply get_in in G. destruct Hk. apply (list_elem_of_fmap_2 fst) in G. exact G.
  - apply String.eqb_neq in E. by rewrite get_set_ne.
Qed.

(** [{ ...a, ...b }]. *)
Definition spread {A} (a b : dict A) : dict A := fold_left (fun d kv => set d (fst kv) (snd kv)) b a.

Lemma get_spread {A} (a b : dict A) k : wf_dict b -> get (spread a b) k = match get b k with Some x => Some x | None => get a k end.
Proof. apply (get_fold_set (fun x => x)). Qed.

(** [xs.includes(x)] on strings. *)
Definition includes (xs : list string) (x : string) : bool := existsb (String.eqb x) xs.

Lemma includes_spec (xs : list string) (x : string) : includes xs x = true <-> x ∈ xs.
Proof.
  unfold includes. rewrite existsb_exists. setoid_rewrite <- list_elem_of_In. split.
  - intros (y & Hy & E). apply String.eqb_eq in E as ->. done.
  - intros H. exists x. by rewrite String.eqb_refl.
Qed.

Lemma includes_false (xs : list string) (x : string) : includes xs x = false <-> x ∉ xs.
Proof. rewrite <- includes_spec. by destruct (includes xs x). Qed.

(** [[...new Set(xs)]]: the first occurrence of each element, in order. *)
Fixpoint uniq (xs : list string) : list string :=
  match xs with
  | [] => []
  | x :: xs' => x :: filter (fun y => y <> x) (uniq xs')
  end.

Lemma elem_of_uniq (xs : list string) (x : string) : x ∈ uniq xs <-> x ∈ xs.
Proof.
  induction xs as [|y xs IH]; [done|]. cbn [uniq]. rewrite !elem_of_cons, list_elem_of_filter, IH.
  destruct (decide (x = y)); naive_solver.
Qed.

Lemma NoDup_uniq (xs : list string) : NoDup (uniq xs).
Proof.
  induction xs as [|y xs IH]; cbn [uniq]; constructor.
  - rewrite list_elem_of_filter. naive_solver.
  - by apply NoDup_filter.
Qed.

(** The first answer of a test over a list. *)
Definition first_some {A B} (f : A -> option B) : list A -> option B :=
  fix go l := match l with [] => None | x :: l' => match f x with Some y => Some y | None => go l' end end.

Lemma first_some_none {A B} (f : A -> option B) (l : list A) : first_some f l = None <-> forall x, x ∈ l -> f x = None.
Proof.
  induction l as [|x l IH]; cbn [first_some]; [split; [intros _ x Hx; by apply elem_of_nil in Hx|done]|]. split.
  - destruct (f x) eqn:E; [done|]. intros Hl y [->|Hy]%elem_of_cons; [done|]. by apply IH.
  - intros Hl. rewrite (Hl x) by (by left). apply IH. intros y Hy. apply Hl. by right.
Qed.

Lemma first_some_some {A B} (f : A -> option B) (l : list A) y : first_some f l = Some y -> exists x, x ∈ l /\ f x = Some y.
Proof.
  induction l as [|x l IH]; cbn [first_some]; [done|]. destruct (f x) eqn:E.
  - intros [= ->]. exists x. split; [by left|done].
  - intros (x' & Hx & Hf)%IH. exists x'. split; [by right|done].
Qed.

#[export] Hint Resolve wf_set NoDup_uniq : js.
#[export] Hint Rewrite @get_set_eq includes_spec includes_false elem_of_uniq : js.
