(* ===== verification/Decimal.v ===== *)
(** Exact decimals: [packages/std/src/decimal.ts]. A decimal is a bigint coefficient and a scale; the module [Decimal]
    follows the class and its free functions, and the section [Exactness] relates every operation to the rational the
    decimal denotes. The bigint operators [/] and [%] truncate ([Z.quot], [Z.rem]). *)
From Stdlib Require Import QArith Qabs.
From S2P Require Import Prelude.
Open Scope Z_scope.

Module Decimal.

(** ** Data. *)

Inductive Rounding := halfUp | halfEven | down | up | floor | ceil.

#[export] Instance Rounding_eq_dec : EqDecision Rounding.
Proof. solve_decision. Defined.

(** The class's two private fields: [#c], [#s]. *)
Record t := mk { coeff : Z; scale : Z }.

#[export] Instance t_eq_dec : EqDecision t.
Proof. solve_decision. Defined.

(** [DecimalLike]: a decimal of this class, a bigint, a number, a text, or another object with its [$dec] member (if it has
    one) and its text [String(v)]. *)
Inductive DecimalLike :=
| LDecimal (d : t)
| LBigint (n : Z)
| LNumber (v : jsnumber)
| LText (s : string)
| LObject (tag : option string) (text : string).

(** ** Text. *)

Definition is_sign (c : ascii) : bool := Ascii.eqb c "+" || Ascii.eqb c "-".

(** The optional sign group of [TEXT] and the text after it. *)
Definition sign_of (s : string) : string * string :=
  match s with
  | String c s' => if is_sign c then (String c EmptyString, s') else (EmptyString, s)
  | EmptyString => (EmptyString, EmptyString)
  end.

(** [(\d+)(?:\.(\d+))?]: the whole digits, the fraction digits if there are any, and the rest. *)
Definition number_groups (s : string) : option (string * option string * string) :=
  let '(whole, rest) := span is_digit s in
  match whole with
  | EmptyString => None
  | _ =>
      match rest with
      | String "." r =>
          match span is_digit r with
          | (EmptyString, _) => Some (whole, None, rest)
          | (frac, r') => Some (whole, Some frac, r')
          end
      | _ => Some (whole, None, rest)
      end
  end.

(** [TEXT.exec(text)]: its groups 1, 2 and 3. *)
Definition TEXT (s : string) : option (string * string * option string) :=
  let '(sign, s') := sign_of s in
  match number_groups s' with
  | Some (whole, frac, EmptyString) => Some (sign, whole, frac)
  | _ => None
  end.

(** [FLOAT.exec(text)]: its groups 1, 2, 3 and the exponent of group 4. *)
Definition FLOAT (s : string) : option (string * string * option string * option Z) :=
  let '(sign, s') :=
    match s with String "-" r => ("-"%string, r) | _ => (EmptyString, s) end in
  match number_groups s' with
  | Some (whole, frac, EmptyString) => Some (sign, whole, frac, None)
  | Some (whole, frac, String "e" (String c e)) =>
      if is_sign c && negb (String.eqb e "") && all_chars is_digit e
      then Some (sign, whole, frac, Some (if Ascii.eqb c "-" then - digits_val e else digits_val e))
      else None
  | _ => None
  end.

Definition pow10 (n : Z) : Z := 10 ^ n.

(** ** Rounding. *)

(** [n / d] rounded by [mode]; [d > 0]. *)
Definition divRound (n d : Z) (mode : Rounding) : Z :=
  let q := Z.quot n d in
  let r := Z.rem n d in
  if r =? 0 then q
  else
    let neg := n <? 0 in
    let away := if neg then q - 1 else q + 1 in
    let twice := (if r <? 0 then - r else r) * 2 in
    match mode with
    | down => q
    | up => away
    | floor => if neg then away else q
    | ceil => if neg then q else away
    | halfUp => if twice >=? d then away else q
    | halfEven => if (twice >? d) || ((twice =? d) && negb (Z.rem q 2 =? 0)) then away else q
    end.

(** ** Construction. *)

Definition of_text (text : string) : outcome t :=
  match TEXT (trim text) with
  | None => RangeError ("'" +:+ text +:+ "' is not a decimal")
  | Some (sign, whole, frac) =>
      let f := default EmptyString frac in
      let c := digits_val (whole +:+ f) in
      Ok (mk (if String.eqb sign "-" then - c else c) (slength f))
  end.

Definition of_like (v : DecimalLike) : outcome t :=
  match v with
  | LDecimal d => Ok d
  | LBigint n => Ok (mk n 0)
  | LNumber x =>
      match num_int x with
      | Some n =>
          if is_safe_integer n then Ok (mk n 0)
          else RangeError (num_text x +:+ " is not an integer; use Decimal.fromNumber(x, scale)")
      | None => RangeError (num_text x +:+ " is not an integer; use Decimal.fromNumber(x, scale)")
      end
  | LText s => of_text s
  | LObject tag text => of_text (default text tag)
  end.

(** ** Arithmetic. *)

(** [#at(s)]: the coefficient at scale [s]. *)
Definition at_scale (x : t) (s : Z) : Z := coeff x * pow10 (s - scale x).

(** [#pair(a, o)]. *)
Definition pair (a : t) (o : DecimalLike) : outcome (Z * Z * Z) :=
  b ← of_like o;
  let s := Z.max (scale a) (scale b) in
  Ok (at_scale a s, at_scale b s, s).

Definition plus (x : t) (o : DecimalLike) : outcome t :=
  p ← pair x o; let '(a, b, s) := p in Ok (mk (a + b) s).

Definition minus (x : t) (o : DecimalLike) : outcome t :=
  p ← pair x o; let '(a, b, s) := p in Ok (mk (a - b) s).

Definition times (x : t) (o : DecimalLike) : outcome t :=
  b ← of_like o; Ok (mk (coeff x * coeff b) (scale x + scale b)).

(** Division to a scale; the callers pass a whole number of digits. *)
Definition div (x : t) (o : DecimalLike) (sc : Z) (mode : Rounding) : outcome t :=
  b ← of_like o;
  if coeff b =? 0 then RangeError "division by zero"
  else
    let shift := scale b + sc - scale x in
    let n := if shift >=? 0 then coeff x * pow10 shift else coeff x in
    let d := if shift >=? 0 then coeff b else coeff b * pow10 (- shift) in
    let '(n, d) := if d <? 0 then (- n, - d) else (n, d) in
    Ok (mk (divRound n d mode) sc).

(** [round(scale, mode)]; a scale that is no whole number is [None]. *)
Definition round (x : t) (sc : jsnumber) (mode : Rounding) : outcome t :=
  match num_int sc with
  | Some s =>
      if s <? 0 then RangeError ("scale " +:+ num_text sc +:+ " is not a whole number ≥ 0")
      else if s >=? scale x then Ok (mk (at_scale x s) s)
      else Ok (mk (divRound (coeff x) (pow10 (scale x - s)) mode) s)
  | None => RangeError ("scale " +:+ num_text sc +:+ " is not a whole number ≥ 0")
  end.

(** The only door from a float: its shortest round-trip digits, rounded to [sc]. *)
Definition fromNumber (v : jsnumber) (sc : jsnumber) (mode : Rounding) : outcome t :=
  match FLOAT (num_text v) with
  | None => RangeError (num_text v +:+ " is not a finite number")
  | Some (sign, whole, frac, e) =>
      let f := default EmptyString frac in
      let digits := whole +:+ f in
      let exp := default 0 e - slength f in
      let c := (if String.eqb sign "-" then -1 else 1) * digits_val digits in
      let d := if exp >=? 0 then mk (c * pow10 exp) 0 else mk c (- exp) in
      round d sc mode
  end.

Definition neg (x : t) : t := mk (- coeff x) (scale x).
Definition abs (x : t) : t := if coeff x <? 0 then neg x else x.
Definition sign (x : t) : Z := if coeff x <? 0 then -1 else if coeff x >? 0 then 1 else 0.
Definition isZero (x : t) : bool := coeff x =? 0.

Definition cmp (x : t) (o : DecimalLike) : outcome Z :=
  p ← pair x o; let '(a, b, _) := p in Ok (if a <? b then -1 else if a >? b then 1 else 0).
Definition eq (x : t) (o : DecimalLike) : outcome bool := c ← cmp x o; Ok (c =? 0).
Definition lt (x : t) (o : DecimalLike) : outcome bool := c ← cmp x o; Ok (c <? 0).
Definition lte (x : t) (o : DecimalLike) : outcome bool := c ← cmp x o; Ok (c <=? 0).
Definition gt (x : t) (o : DecimalLike) : outcome bool := c ← cmp x o; Ok (c >? 0).
Definition gte (x : t) (o : DecimalLike) : outcome bool := c ← cmp x o; Ok (c >=? 0).

(** [toString()]; [cut] is at least 1, since [padStart] makes the digits one longer than the scale. *)
Definition toString (x : t) : string :=
  let isneg := coeff x <? 0 in
  let digits := pad_start (scale x + 1) "0" (digits_of (if isneg then - coeff x else coeff x)) in
  let cut := Z.to_nat (slength digits - scale x) in
  (if isneg then "-" else "") +:+ takes cut digits +:+
    (if scale x >? 0 then "." +:+ drop cut digits else "").

(** [valueOf()]: a decimal has no primitive value. *)
Definition valueOf (_ : t) : outcome t :=
  TypeError "Decimal has no primitive value: use plus/minus/cmp, or toNumber() explicitly".

(** ** Free functions. *)

Definition dec (v : DecimalLike) : outcome t := of_like v.

Fixpoint sum_from (total : t) (values : list DecimalLike) : outcome t :=
  match values with
  | [] => Ok total
  | v :: vs => total' ← plus total v; sum_from total' vs
  end.
Definition sum (values : list DecimalLike) : outcome t := sum_from (mk 0 0) values.

Definition ZERO : list string :=
  ["BIF"; "CLP"; "DJF"; "GNF"; "ISK"; "JPY"; "KMF"; "KRW"; "PYG"; "RWF"; "UGX"; "UYI"; "VND"; "VUV"; "XAF"; "XOF";
   "XPF"]%string.
Definition THREE : list string := ["BHD"; "IQD"; "JOD"; "KWD"; "LYD"; "OMR"; "TND"]%string.

Definition minorDigits (c : string) : Z :=
  if bool_decide (c ∈ ZERO) then 0 else if bool_decide (c ∈ THREE) then 3 else 2.

(** [roundTo(c, mode)]: rounded to the currency's minor unit. *)
Definition roundTo (x : t) (c : string) (mode : Rounding) : outcome t :=
  round x (num_of_Z (minorDigits c)) mode.

Definition is_upper (c : ascii) : bool := let n := N_of_ascii c in (65 <=? n)%N && (n <=? 90)%N.

(** [currency(code)]; [known] is the set [Intl.supportedValuesOf('currency')] of the runtime. *)
Definition currency (known : list string) (code : string) : outcome string :=
  if negb ((slength code =? 3) && all_chars is_upper code) || negb (bool_decide (code ∈ known))
  then RangeError ("'" +:+ code +:+ "' is not an ISO 4217 currency")
  else Ok code.

(** ** What rounding means. *)

(** [q] is [n / d] rounded by [mode], by its defining inequalities. *)
Definition rounds (mode : Rounding) (n d q : Z) : Prop :=
  match mode with
  | floor => d * q <= n < d * q + d
  | ceil => d * q - d < n <= d * q
  | down => (0 <= n -> d * q <= n < d * q + d) /\ (n <= 0 -> d * q - d < n <= d * q)
  | up => (0 <= n -> d * q - d < n <= d * q) /\ (n <= 0 -> d * q <= n < d * q + d)
  | halfUp =>
      (0 <= n -> 2 * (d * q) - d <= 2 * n < 2 * (d * q) + d) /\
      (n < 0 -> 2 * (d * q) - d < 2 * n <= 2 * (d * q) + d)
  | halfEven =>
      2 * (d * q) - d <= 2 * n <= 2 * (d * q) + d /\ (2 * Z.abs (n - d * q) = d -> Z.even q = true)
  end.

Lemma rounds_unique (mode : Rounding) (n d q1 q2 : Z) :
  0 < d -> rounds mode n d q1 -> rounds mode n d q2 -> q1 = q2.
Proof.
  intros Hd H1 H2.
  assert (d * (q1 - q2) < d -> d * (q2 - q1) < d -> q1 = q2) as Hlt by nia.
  assert (forall a b, d * a = d * b + d -> Z.even a = true -> Z.even b = true -> False) as Hpar.
  { intros a b Heq Ha Hb. assert (a = Z.succ b) as -> by nia.
    rewrite Z.even_succ, <- Z.negb_even, Hb in Ha. done. }
  destruct mode; cbn [rounds] in H1, H2; try (apply Hlt; lia).
  destruct H1 as [H1 H1'], H2 as [H2 H2'].
  destruct (Z.lt_trichotomy q1 q2) as [Hq|[Hq|Hq]]; [exfalso|done|exfalso].
  - assert (d * q2 >= d * q1 + d) by nia. apply (Hpar q2 q1); [lia|apply H2'; lia|apply H1'; lia].
  - assert (d * q1 >= d * q2 + d) by nia. apply (Hpar q1 q2); [lia|apply H1'; lia|apply H2'; lia].
Qed.

Lemma rem2_even (q : Z) : (Z.rem q 2 =? 0) = Z.even q.
Proof.
  apply eq_true_iff_eq. rewrite Z.eqb_eq, Z.even_spec, Z.rem_divide by lia.
  split; intros [m Hm]; exists m; lia.
Qed.

Lemma divRound_rounds (mode : Rounding) (n d : Z) : 0 < d -> rounds mode n d (divRound n d mode).
Proof.
  intros Hd. unfold divRound.
  pose proof (Z.quot_rem' n d) as Hqr.
  assert (0 <= n -> 0 <= Z.rem n d < d) as Hpos by (intros; apply Z.rem_bound_pos; lia).
  assert (n <= 0 -> - d < Z.rem n d <= 0) as Hneg.
  { intros. apply Z.rem_bound_pos_neg; lia. }
  set (q := Z.quot n d) in *. set (r := Z.rem n d) in *.
  rewrite (rem2_even q).
  assert (Z.even (q + 1) = negb (Z.even q)) as Hsucc.
  { rewrite Z.even_add. by destruct (Z.even q). }
  assert (Z.even (q - 1) = negb (Z.even q)) as Hpred.
  { rewrite Z.even_sub. by destruct (Z.even q). }
  assert (d * (q + 1) = d * q + d) as Hs by ring.
  assert (d * (q - 1) = d * q - d) as Hp by ring.
  set (p := d * q) in *.
  destruct (r =? 0) eqn:Er; bool_hyps.
  { destruct mode; cbn [rounds]; fold p; repeat split; lia. }
  destruct (n <? 0) eqn:En, (r <? 0) eqn:Er0; bool_hyps; try lia;
    destruct mode; cbn [rounds];
    repeat match goal with
    | |- context [if ?b then _ else _] => destruct b eqn:?
    end; rewrite ?Hs, ?Hp, ?Hsucc, ?Hpred; fold p;
    bool_cases; repeat split; intros; try lia; try congruence; by apply negb_true_iff.
Qed.

(** The rounding inequalities depend on the quotient only. *)
Lemma rounds_scale (mode : Rounding) (k n d q : Z) :
  0 < k -> 0 < d -> rounds mode (k * n) (k * d) q <-> rounds mode n d q.
Proof.
  intros Hk Hd.
  assert (k * d * q = k * (d * q)) as E by ring.
  destruct mode; cbn [rounds]; rewrite E; try (split; intros; repeat split; nia).
  rewrite <- Z.mul_sub_distr_l, Z.abs_mul, (Z.abs_eq k) by lia.
  split; (intros [H1 H2]; split; [nia|]); intros H3; apply H2; nia.
Qed.

Lemma rounds_ratio (mode : Rounding) (n d n' d' q : Z) :
  0 < d -> 0 < d' -> n * d' = n' * d -> rounds mode n d q -> rounds mode n' d' q.
Proof.
  intros Hd Hd' E H. apply (rounds_scale mode d' n d q) in H; [|lia..].
  replace (d' * n) with (d * n') in H by lia. rewrite (Z.mul_comm d' d) in H.
  by apply (rounds_scale mode d n' d' q) in H; [|lia..].
Qed.

(** ** Exactness: the rational a decimal denotes. *)

(** Every stored scale is non-negative: [of] reads a length, the operators keep it, [round] checks it. *)
Definition wf (x : t) : Prop := 0 <= scale x.
Definition wf_like (o : DecimalLike) : Prop := match o with LDecimal d => wf d | _ => True end.

Definition value (x : t) : Q := inject_Z (coeff x) / inject_Z (pow10 (scale x)).

Lemma pow10_pos (n : Z) : 0 <= n -> 0 < pow10 n.
Proof. intros H. by apply Z.pow_pos_nonneg. Qed.

Lemma pow10_add (a b : Z) : 0 <= a -> 0 <= b -> pow10 (a + b) = pow10 a * pow10 b.
Proof. intros. by apply Z.pow_add_r. Qed.

Lemma pow10_nz (n : Z) : 0 <= n -> ~ (inject_Z (pow10 n) == 0)%Q.
Proof. intros H. apply pow10_pos in H. unfold Qeq, inject_Z. cbn. lia. Qed.

#[local] Hint Resolve pow10_pos pow10_nz : js.

Lemma of_text_wf (s : string) (d : t) : of_text s = Ok d -> wf d.
Proof.
  unfold of_text, wf. destruct (TEXT (trim s)) as [[[sg w] f]|]; intros H; [|discriminate H].
  injection H as <-. cbn. auto with js.
Qed.

Lemma of_like_wf (o : DecimalLike) (d : t) : wf_like o -> of_like o = Ok d -> wf d.
Proof.
  destruct o as [x|n|v|s|tag s]; cbn; intros Hw H.
  - by injection H as <-.
  - injection H as <-. done.
  - destruct (num_int v); [|done]. destruct (is_safe_integer _); [|done]. injection H as <-. done.
  - by apply of_text_wf in H.
  - by apply of_text_wf in H.
Qed.

(** The coefficient at a larger scale is the value times that power of ten. *)
Lemma round_wf (x d : t) (sc : jsnumber) (mode : Rounding) : round x sc mode = Ok d -> wf d.
Proof.
  unfold round. destruct (num_int sc) as [s|]; [|done]. destruct (s <? 0) eqn:E; [done|]. apply Z.ltb_ge in E. destruct (s >=? scale x); by intros [= <-].
Qed.
Lemma fromNumber_wf (v sc : jsnumber) (mode : Rounding) (d : t) : fromNumber v sc mode = Ok d -> wf d.
Proof. unfold fromNumber. destruct (FLOAT (num_text v)) as [[[[sg w] f] e]|]; [|done]. apply round_wf. Qed.
Lemma at_scale_value (x : t) (s : Z) :
  wf x -> scale x <= s -> (inject_Z (at_scale x s) == value x * inject_Z (pow10 s))%Q.
Proof.
  unfold wf, at_scale, value. intros Hx Hs.
  replace s with (scale x + (s - scale x)) at 2 by lia.
  rewrite pow10_add, !inject_Z_mult by lia. field. auto with js.
Qed.

Lemma value_mk (c s : Z) (r : Q) :
  0 <= s -> (inject_Z c == r * inject_Z (pow10 s))%Q -> (value (mk c s) == r)%Q.
Proof. intros Hs E. unfold value. cbn [coeff scale]. rewrite E. field. auto with js. Qed.

(** [#pair] aligns both operands at one scale without changing their values. *)
Lemma pair_spec (x y : t) (o : DecimalLike) :
  wf x -> wf y -> of_like o = Ok y ->
  exists a b s, pair x o = Ok (a, b, s) /\ 0 <= s /\
    (inject_Z a == value x * inject_Z (pow10 s))%Q /\ (inject_Z b == value y * inject_Z (pow10 s))%Q.
Proof.
  intros Hx Hy Ho. unfold pair. rewrite Ho. cbn.
  exists (at_scale x (scale x `max` scale y)), (at_scale y (scale x `max` scale y)), (scale x `max` scale y).
  repeat split; [unfold wf in *; lia|apply at_scale_value; [done|lia]..].
Qed.

Lemma Qcompare_scaled (p q m : Q) : (0 < m)%Q -> (p * m ?= q * m)%Q = (p ?= q)%Q.
Proof.
  intros Hm. destruct (p ?= q)%Q eqn:E.
  - apply Qeq_alt in E. apply Qeq_alt. by rewrite E.
  - apply Qlt_alt in E. apply Qlt_alt. by apply Qmult_lt_r.
  - apply Qgt_alt in E. apply Qgt_alt. by apply Qmult_lt_r.
Qed.

Lemma Qcompare_inject (a b : Z) : (inject_Z a ?= inject_Z b)%Q = (a ?= b).
Proof. unfold Qcompare, inject_Z. cbn. by rewrite !Z.mul_1_r. Qed.

(** The sign of a comparison, as [cmp] returns it. *)
Definition comparison_sign (c : comparison) : Z := match c with Lt => -1 | Eq => 0 | Gt => 1 end.

(** [q] is the rational [r] rounded by [mode] to [s] digits after the point. *)
Definition nearest (mode : Rounding) (r : Q) (s q : Z) : Prop :=
  rounds mode (Qnum r * pow10 s) (Zpos (Qden r)) q.

Lemma nearest_of (mode : Rounding) (r : Q) (s n d q : Z) :
  0 < d -> (inject_Z n == r * inject_Z (pow10 s) * inject_Z d)%Q -> rounds mode n d q -> nearest mode r s q.
Proof.
  intros Hd E H. unfold nearest. apply (rounds_ratio mode n d); [done|lia| |done].
  revert E. unfold Qeq, inject_Z. cbn. rewrite !Pos.mul_1_r, Z.mul_1_r. done.
Qed.

(** ** Printing. *)

Lemma number_groups_whole (w : string) :
  w <> EmptyString -> all_chars is_digit w = true -> number_groups w = Some (w, None, EmptyString).
Proof. intros Hn Hw. unfold number_groups. rewrite span_all by done. by destruct w. Qed.

Lemma number_groups_frac (w f : string) :
  w <> EmptyString -> f <> EmptyString -> all_chars is_digit w = true -> all_chars is_digit f = true ->
  number_groups (w +:+ String "." f) = Some (w, Some f, EmptyString).
Proof.
  intros Hw Hf Dw Df. unfold number_groups. rewrite span_stop, span_all by done.
  destruct w; [done|]. by destruct f.
Qed.

Lemma sign_of_digit (c : ascii) (s : string) : is_digit c = true -> sign_of (String c s) = (EmptyString, String c s).
Proof.
  intros H. unfold sign_of. destruct (is_sign c) eqn:E; [|done].
  unfold is_sign in E. apply orb_true_iff in E as [E|E]; apply Ascii.eqb_eq in E; subst c; discriminate H.
Qed.

(** The digits [toString] prints: all digits, longer than the scale, of the coefficient's absolute value. *)
Definition printed_digits (x : t) : string :=
  pad_start (scale x + 1) "0" (digits_of (if coeff x <? 0 then - coeff x else coeff x)).

Lemma printed_digits_spec (x : t) :
  all_chars is_digit (printed_digits x) = true /\ scale x + 1 <= slength (printed_digits x) /\
  digits_val (printed_digits x) = (if coeff x <? 0 then - coeff x else coeff x).
Proof.
  unfold printed_digits, pad_start.
  assert (0 <= (if coeff x <? 0 then - coeff x else coeff x)) as Hn.
  { destruct (coeff x <? 0) eqn:E; bool_hyps; lia. }
  set (n := if coeff x <? 0 then - coeff x else coeff x) in *.
  repeat split.
  - rewrite all_chars_append, all_chars_repeat by done. by apply digits_of_digits.
  - rewrite slength_append, slength_repeat_char. lia.
  - rewrite digits_val_zeros. by apply digits_of_val.
Qed.

(** The magnitude part of [toString] splits at the point into its whole and fraction digits. *)
Lemma printed_groups (x : t) (cut := Z.to_nat (slength (printed_digits x) - scale x)) :
  wf x ->
  exists frac, number_groups (takes cut (printed_digits x) +:+
                              (if scale x >? 0 then "." +:+ drop cut (printed_digits x) else "")) =
                 Some (takes cut (printed_digits x), frac, EmptyString) /\
               takes cut (printed_digits x) +:+ default EmptyString frac = printed_digits x /\
               slength (default EmptyString frac) = scale x.
Proof.
  intros Hw. unfold wf in Hw. destruct (printed_digits_spec x) as (Dd & Dl & _).
  assert (String.length (takes cut (printed_digits x)) = cut) as Hc.
  { apply length_takes. unfold cut, slength in *. lia. }
  assert (takes cut (printed_digits x) <> EmptyString) as Hne.
  { intros E. rewrite E in Hc. cbn in Hc. unfold cut, slength in *. lia. }
  assert (slength (drop cut (printed_digits x)) = scale x) as Hd.
  { unfold slength at 1. rewrite length_drop. unfold cut, slength in *. lia. }
  destruct (scale x >? 0) eqn:E; bool_hyps.
  - exists (Some (drop cut (printed_digits x))). cbn [default]. repeat split; [|by rewrite takes_drop|done].
    rewrite append_cons. apply number_groups_frac; [done| |by apply all_chars_takes|by apply all_chars_drop].
    intros E0. rewrite E0 in Hd. change (slength "") with 0 in Hd. lia.
  - exists None. cbn [default]. rewrite !append_nil_r. assert (scale x = 0) as H0 by lia.
    repeat split; [apply number_groups_whole; [done|by apply all_chars_takes]| |done].
    rewrite <- (takes_drop cut (printed_digits x)) at 2.
    destruct (drop cut (printed_digits x)) as [|c r]; [by rewrite append_nil_r|].
    rewrite slength_cons in Hd. pose proof (slength_nonneg r). lia.
Qed.

Lemma toString_chars (x : t) :
  all_chars (fun c => negb (is_space c)) (toString x) = true.
Proof.
  unfold toString. fold (printed_digits x). destruct (printed_digits_spec x) as (Dd & _ & _).
  apply digits_not_space in Dd.
  destruct (coeff x <? 0), (scale x >? 0); rewrite !all_chars_append, ?all_chars_append, all_chars_takes; try done;
    cbn; by rewrite ?all_chars_drop.
Qed.

(** ** Theorems. *)

(** [divRound] is the rounding function: for every mode and every positive divisor it returns the one integer that
    satisfies the mode's defining inequalities. *)
Theorem divRound_correct (mode : Rounding) (n d q : Z) (Hd : 0 < d) :
  rounds mode n d q <-> q = divRound n d mode.
Proof.
  pose proof (divRound_rounds mode n d Hd) as H. split.
  - intros Hq. by eapply rounds_unique.
  - by intros ->.
Qed.

Lemma divRound_correct_witness : 0 < 4 /\ (rounds halfEven (-10) 4 (-2) <-> -2 = divRound (-10) 4 halfEven).
Proof. split; [lia|]. apply (divRound_correct halfEven (-10) 4 (-2)). lia. Defined.

(** Sum, difference, product, negation, absolute value and comparison are exact: each succeeds whenever its operand is a decimal
    and denotes the rational operation on the operands' values, at a non-negative scale. *)
Theorem arithmetic_exact (x y : t) (o : DecimalLike) (Hx : wf x) (Ho : wf_like o) (Hy : of_like o = Ok y) :
  (exists z, plus x o = Ok z /\ wf z /\ (value z == value x + value y)%Q) /\
  (exists z, minus x o = Ok z /\ wf z /\ (value z == value x - value y)%Q) /\
  (exists z, times x o = Ok z /\ wf z /\ (value z == value x * value y)%Q) /\
  (value (neg x) == - value x)%Q /\ (value (abs x) == Qabs (value x))%Q /\
  cmp x o = Ok (comparison_sign (value x ?= value y)%Q).
Proof.
  pose proof (of_like_wf o y Ho Hy) as Hwy.
  destruct (pair_spec x y o Hx Hwy Hy) as (a & b & s & Hp & Hs & Ha & Hb).
  assert (value (neg x) == - value x)%Q as Hneg.
  { unfold value. cbn [neg coeff scale]. rewrite inject_Z_opp. field. auto with js. }
  repeat split.
  - exists (mk (a + b) s). unfold plus. rewrite Hp. repeat split; [done|].
    apply value_mk; [done|]. rewrite inject_Z_plus, Ha, Hb. ring.
  - exists (mk (a - b) s). unfold minus. rewrite Hp. repeat split; [done|].
    apply value_mk; [done|]. unfold Z.sub. rewrite inject_Z_plus, inject_Z_opp, Ha, Hb. ring.
  - exists (mk (coeff x * coeff y) (scale x + scale y)). unfold times. rewrite Hy. unfold wf in *.
    repeat split; [cbn; lia|]. apply value_mk; [lia|]. rewrite pow10_add, !inject_Z_mult by done.
    unfold value. field. auto with js.
  - done.
  - assert (0 < inject_Z (pow10 (scale x)))%Q as Hpos.
    { unfold Qlt, inject_Z. cbn. pose proof (pow10_pos (scale x) Hx). lia. }
    unfold abs. destruct (coeff x <? 0) eqn:E; bool_hyps.
    + rewrite Hneg. symmetry. apply Qabs_neg. unfold value.
      apply Qle_shift_div_r; [done|]. unfold Qle. cbn. lia.
    + symmetry. apply Qabs_pos. unfold value.
      apply Qle_shift_div_l; [done|]. unfold Qle. cbn. lia.
  - unfold cmp. rewrite Hp. cbn. f_equal.
    rewrite <- (Qcompare_scaled (value x) (value y) (inject_Z (pow10 s))).
    + rewrite <- Ha, <- Hb, Qcompare_inject. unfold Z.ltb, Z.gtb. by destruct (a ?= b).
    + unfold Qlt, inject_Z. cbn. pose proof (pow10_pos s Hs). lia.
Qed.

Lemma arithmetic_exact_witness :
  exists z, plus (mk 1990 2) (LText "-0.5") = Ok z /\ wf z /\ (value z == value (mk 1990 2) + value (mk (-5) 1))%Q.
Proof. apply (arithmetic_exact (mk 1990 2) (mk (-5) 1) (LText "-0.5")); [done|done|reflexivity]. Defined.

(** Division by a non-zero decimal to a non-negative scale returns a decimal of that scale whose coefficient is the exact
    quotient of the two values rounded by the mode; division by zero throws. *)
Theorem div_correct (x y : t) (o : DecimalLike) (sc : Z) (mode : Rounding)
    (Hx : wf x) (Ho : wf_like o) (Hy : of_like o = Ok y) (Hsc : 0 <= sc) :
  (coeff y = 0 -> div x o sc mode = RangeError "division by zero") /\
  (coeff y <> 0 -> exists z, div x o sc mode = Ok z /\ scale z = sc /\
     nearest mode (value x / value y)%Q sc (coeff z)).
Proof.
  pose proof (of_like_wf o y Ho Hy) as Hwy. unfold wf in *.
  unfold div. rewrite Hy. cbn [mbind outcome_bind]. split; intros Hz.
  { by rewrite Hz. }
  apply Z.eqb_neq in Hz as Hz'. rewrite Hz'.
  set (shift := scale y + sc - scale x).
  set (n := if shift >=? 0 then coeff x * pow10 shift else coeff x).
  set (d := if shift >=? 0 then coeff y else coeff y * pow10 (- shift)).
  assert (~ (inject_Z (coeff y) == 0)%Q) as Hyq by (unfold Qeq, inject_Z; cbn; lia).
  assert (d <> 0 /\ (inject_Z n == value x / value y * inject_Z (pow10 sc) * inject_Z d)%Q) as [Hd E].
  { assert (~ (inject_Z (pow10 (scale x)) == 0)%Q /\ ~ (inject_Z (pow10 (scale y)) == 0)%Q) as [] by auto with js.
    unfold n, d, value. destruct (shift >=? 0) eqn:Es; bool_hyps; split.
    - done.
    - assert (pow10 shift * pow10 (scale x) = pow10 (scale y) * pow10 sc) as Hp.
      { rewrite <- !pow10_add by lia. f_equal. unfold shift. lia. }
      apply (f_equal inject_Z) in Hp. rewrite !inject_Z_mult in *.
      field_simplify_eq; [|by auto]. rewrite <- !Qmult_assoc, Hp. ring.
    - pose proof (pow10_pos (- shift)). nia.
    - assert (pow10 (scale x) = pow10 (scale y) * pow10 sc * pow10 (- shift)) as Hp.
      { rewrite <- !pow10_add by lia. f_equal. unfold shift. lia. }
      apply (f_equal inject_Z) in Hp. rewrite !inject_Z_mult in *.
      field_simplify_eq; [|by auto]. rewrite Hp. ring. }
  destruct (d <? 0) eqn:En; bool_hyps; eexists; (split; [reflexivity|]); split; try done; cbn [coeff].
  - apply (nearest_of mode _ sc (- n) (- d)); [lia| |apply divRound_rounds; lia].
    rewrite !inject_Z_opp, E. ring.
  - apply (nearest_of mode _ sc n d); [lia|done|apply divRound_rounds; lia].
Qed.

Lemma div_correct_witness :
  exists z, div (mk 100 1) (LText "3") 2 halfUp = Ok z /\ scale z = 2 /\
    nearest halfUp (value (mk 100 1) / value (mk 3 0))%Q 2 (coeff z).
Proof. apply (div_correct (mk 100 1) (mk 3 0) (LText "3") 2 halfUp); try done; cbn; lia. Defined.

(** [round] refuses a scale that is not a whole number or is negative; at any other it returns that scale, with the
    value unchanged when no digit is dropped and otherwise the value rounded by the mode. *)
Theorem round_correct (x : t) (v : jsnumber) (mode : Rounding) (Hx : wf x) :
  match num_int v with
  | Some s =>
      if s <? 0 then is_ok (round x v mode) = false
      else exists z, round x v mode = Ok z /\ scale z = s /\
             (scale x <= s -> (value z == value x)%Q) /\ nearest mode (value x) s (coeff z)
  | None => is_ok (round x v mode) = false
  end.
Proof.
  unfold wf in Hx. unfold round. destruct (num_int v) as [s|]; [|done].
  destruct (s <? 0) eqn:Es; [done|]. bool_hyps.
  assert (~ (inject_Z (pow10 (scale x)) == 0)%Q) as Hnz by auto with js.
  destruct (s >=? scale x) eqn:E; bool_hyps; eexists; (split; [reflexivity|]); split; try done; split.
  - intros _. apply value_mk; [done|]. by apply at_scale_value.
  - apply (nearest_of mode _ s (at_scale x s) 1); [lia| |].
    + rewrite at_scale_value by done. change (inject_Z 1) with 1%Q. ring.
    + destruct mode; cbn [rounds coeff]; repeat split; intros; lia.
  - lia.
  - assert (pow10 (scale x) = pow10 (scale x - s) * pow10 s) as Hp.
    { rewrite <- pow10_add by lia. f_equal. lia. }
    apply (nearest_of mode _ s (coeff x) (pow10 (scale x - s))).
    + apply pow10_pos. lia.
    + unfold value. apply (f_equal inject_Z) in Hp. rewrite inject_Z_mult in Hp.
      field_simplify_eq; [|done]. rewrite Hp. ring.
    + apply divRound_rounds, pow10_pos. lia.
Qed.

Lemma round_correct_witness :
  exists z, round (mk 12345 3) (num_of_Z 2) halfEven = Ok z /\ scale z = 2 /\
    (3 <= 2 -> (value z == value (mk 12345 3))%Q) /\ nearest halfEven (value (mk 12345 3)) 2 (coeff z).
Proof. exact (round_correct (mk 12345 3) (num_of_Z 2) halfEven (ltac:(done))). Defined.

Lemma of_text_toString (x : t) (Hx : wf x) : of_text (toString x) = Ok x.
Proof.
  unfold of_text. rewrite trim_id by apply toString_chars.
  destruct (printed_groups x Hx) as (frac & Hg & Happ & Hlen).
  destruct (printed_digits_spec x) as (Dd & Dl & Dv).
  unfold toString. fold (printed_digits x).
  set (cut := Z.to_nat (slength (printed_digits x) - scale x)) in *.
  assert (digits_val (takes cut (printed_digits x) +:+ default "" frac) =
          if coeff x <? 0 then - coeff x else coeff x) as Hv by by rewrite Happ.
  destruct (coeff x <? 0) eqn:En.
  - change ("-" +:+ ?r) with (String "-" r). unfold TEXT. cbn [sign_of is_sign Ascii.eqb Bool.eqb orb].
    change (is_sign "-") with true. cbv iota. rewrite Hg, Hv, Hlen. destruct x; cbn. do 2 f_equal. lia.
  - change ("" +:+ ?r) with r. unfold TEXT.
    destruct (takes cut (printed_digits x)) as [|c w] eqn:Et.
    { exfalso. unfold wf in Hx. assert (String.length (takes cut (printed_digits x)) = cut) as Hc.
      { apply length_takes. unfold cut, slength in *. lia. }
      rewrite Et in Hc. cbn in Hc. unfold cut, slength in *. lia. }
    rewrite append_cons, sign_of_digit.
    + rewrite append_cons in Hg. rewrite Hg, Hv, Hlen. by destruct x.
    + apply (all_chars_takes _ cut) in Dd. rewrite Et in Dd. cbn in Dd. by apply andb_true_iff in Dd as [].
Qed.

(** Printing a decimal and reading the text back gives the same decimal, coefficient and scale: the wire form loses
    nothing. *)
Theorem toString_of (x : t) (Hx : wf x) : of_like (LText (toString x)) = Ok x.
Proof. by apply of_text_toString. Qed.

Lemma toString_of_witness : of_like (LText (toString (mk (-7) 3))) = Ok (mk (-7) 3).
Proof. apply (toString_of (mk (-7) 3)). done. Defined.

(** The rational total of a list of decimals. *)
Definition total (ds : list t) : Q := foldr (fun d acc => value d + acc)%Q 0%Q ds.

Lemma sum_from_total (vs : list DecimalLike) (ds : list t) (acc : t) :
  wf acc -> Forall wf_like vs -> map_outcome of_like vs = Ok ds ->
  exists z, sum_from acc vs = Ok z /\ wf z /\ (value z == value acc + total ds)%Q.
Proof.
  revert ds acc. induction vs as [|v vs IH]; intros ds acc Hacc Hvs Hds.
  - injection Hds as <-. exists acc. cbn. repeat split; [done|]. ring.
  - cbn in Hds. destruct (of_like v) as [d|] eqn:Ev; [|discriminate Hds]. cbn in Hds.
    destruct (map_outcome of_like vs) as [ds'|] eqn:Es; [|discriminate Hds]. injection Hds as <-.
    apply Forall_cons in Hvs as [Hv Hvs].
    pose proof (of_like_wf v d Hv Ev) as Hd.
    destruct (pair_spec acc d v Hacc Hd Ev) as (a & b & s & Hp & Hs & Ha & Hb).
    destruct (IH ds' (mk (a + b) s) Hs Hvs eq_refl) as (z & Hz & Hw & E).
    exists z. cbn [sum_from]. unfold plus. rewrite Hp. repeat split; [done|done|].
    rewrite E, (value_mk (a + b) s (value acc + value d)); [|done|].
    { change (total (d :: ds')) with (value d + total ds')%Q. ring. }
    rewrite inject_Z_plus, Ha, Hb. ring.
Qed.

(** The total of a list of decimal-like values exists as soon as every one of them is a decimal, and is exact; the total
    of none is zero. *)
Theorem sum_exact (vs : list DecimalLike) (ds : list t)
    (Hvs : Forall wf_like vs) (Hds : map_outcome of_like vs = Ok ds) :
  exists z, sum vs = Ok z /\ wf z /\ (value z == total ds)%Q.
Proof.
  destruct (sum_from_total vs ds (mk 0 0) (ltac:(done)) Hvs Hds) as (z & Hz & Hw & E).
  exists z. repeat split; [done|done|]. rewrite E.
  assert (value (mk 0 0) == 0)%Q as -> by reflexivity. ring.
Qed.

Lemma sum_exact_witness :
  exists z, sum [LText "0.10"; LBigint 3; LObject (Some "-1.005"%string) ""] = Ok z /\ wf z /\
    (value z == total [mk 10 2; mk 3 0; mk (-1005) 3])%Q.
Proof.
  apply (sum_exact [LText "0.10"; LBigint 3; LObject (Some "-1.005"%string) ""]); [|reflexivity].
  repeat constructor.
Defined.

(** [div] does not check its scale as [round] does: a negative one is kept, and such a decimal prints its bare
    coefficient. *)
Lemma div_negative_scale :
  exists z, div (mk 1500 0) (LBigint 1) (-2) halfUp = Ok z /\ scale z = -2 /\ toString z = "15" /\
    is_ok (round (mk 1500 0) (num_of_Z (-2)) halfUp) = false.
Proof. eexists. repeat split; vm_compute; reflexivity. Qed.

Example half_up_example : fmap toString (round (mk 5970 3) (num_of_Z 2) halfUp) = Ok "5.97"%string.
Proof. reflexivity. Qed.

End Decimal.
