(* ===== verification/Dates.v ===== *)
(** Calendar days and periods ([packages/std/src/date.ts]) and wall-clock time in a zone ([packages/std/src/zone.ts]). A
    [PlainDate] is its text, as in the code; the module [Day] is the part of JavaScript's [Date] the code goes through (day
    numbers from 1970-01-01), [Dates] follows date.ts and [Zone] follows zone.ts over the zone data of the runtime. *)
From S2P Require Import Prelude.

(** ** JavaScript's [Date] on whole UTC days. *)
Module Day.

Definition leap (y : Z) : bool := (y mod 4 =? 0) && (negb (y mod 100 =? 0) || (y mod 400 =? 0)).

(** [DayFromYear] of ECMA-262: the day number of 1 January. *)
Definition of_year (y : Z) : Z :=
  365 * (y - 1970) + (y - 1969) / 4 - (y - 1901) / 100 + (y - 1601) / 400.

(** Days before month [m] (from 1) in a common year. *)
Definition before_month (m : Z) : Z :=
  match m with
  | 1 => 0 | 2 => 31 | 3 => 59 | 4 => 90 | 5 => 120 | 6 => 151
  | 7 => 181 | 8 => 212 | 9 => 243 | 10 => 273 | 11 => 304 | 12 => 334
  | _ => 365
  end.
Definition in_year (y m : Z) : Z := before_month m + (if (2 <? m) && leap y then 1 else 0).

(** The day number of a calendar day. *)
Definition number (y m d : Z) : Z := of_year y + in_year y m + (d - 1).

(** [YearFromTime]: the year whose days hold day [n]. *)
Definition year (n : Z) : Z :=
  let y := n * 400 / 146097 + 1970 in
  if n <? of_year y then y - 1 else if of_year (y + 1) <=? n then y + 1 else y.

Definition month_from (y k : Z) : Z :=
  if k <? in_year y 2 then 1 else if k <? in_year y 3 then 2 else if k <? in_year y 4 then 3
  else if k <? in_year y 5 then 4 else if k <? in_year y 6 then 5 else if k <? in_year y 7 then 6
  else if k <? in_year y 8 then 7 else if k <? in_year y 9 then 8 else if k <? in_year y 10 then 9
  else if k <? in_year y 11 then 10 else if k <? in_year y 12 then 11 else 12.

(** Year, month and day of month of a day number. *)
Definition civil (n : Z) : Z * Z * Z :=
  let y := year n in
  let k := n - of_year y in
  let m := month_from y k in
  (y, m, k - in_year y m + 1).

(** [((getUTCDay() + 6) % 7) + 1]: 1 is Monday; day 0 was a Thursday. *)
Definition weekday (n : Z) : Z := (n + 3) mod 7 + 1.

Lemma of_year_succ (y : Z) : of_year (y + 1) = of_year y + 365 + (if leap y then 1 else 0).
Proof.
  unfold of_year, leap.
  assert ((y mod 4 =? 0) = (((y + 1 - 1969) / 4) =? ((y - 1969) / 4 + 1))) as ->.
  { apply eq_true_iff_eq. rewrite !Z.eqb_eq. dlia. }
  assert ((y mod 100 =? 0) = (((y + 1 - 1901) / 100) =? ((y - 1901) / 100 + 1))) as E1.
  { apply eq_true_iff_eq. rewrite !Z.eqb_eq. dlia. }
  assert ((y mod 400 =? 0) = (((y + 1 - 1601) / 400) =? ((y - 1601) / 400 + 1))) as E2.
  { apply eq_true_iff_eq. rewrite !Z.eqb_eq. dlia. }
  rewrite E1, E2.
  destruct (_ =? (y - 1969) / 4 + 1) eqn:H1, (_ =? (y - 1901) / 100 + 1) eqn:H2, (_ =? (y - 1601) / 400 + 1) eqn:H3;
    cbn [andb orb negb]; bool_hyps; dlia.
Qed.

Lemma year_bounds (n : Z) : of_year (year n) <= n < of_year (year n + 1).
Proof.
  unfold year. set (y := n * 400 / 146097 + 1970).
  assert (of_year (y - 1) <= n < of_year (y + 2)) as H by (unfold of_year, y; dlia).
  destruct (n <? of_year y) eqn:E1; bool_hyps.
  - replace (y - 1 + 1) with y by lia. lia.
  - destruct (of_year (y + 1) <=? n) eqn:E2; bool_hyps; [|lia].
    replace (y + 1 + 1) with (y + 2) by lia. lia.
Qed.

Lemma of_year_mono (y z : Z) : y <= z -> of_year y <= of_year z.
Proof. intros H. unfold of_year. dlia. Qed.

Lemma year_unique (n y : Z) : of_year y <= n < of_year (y + 1) -> year n = y.
Proof.
  intros H. pose proof (year_bounds n) as H'.
  destruct (Z.lt_trichotomy (year n) y) as [L|[E|L]]; [|done|].
  - pose proof (of_year_mono (year n + 1) y). lia.
  - pose proof (of_year_mono (y + 1) (year n)). lia.
Qed.

(** [daysInMonth] of date.ts. *)
Definition days_in_month (y m : Z) : Z :=
  if m =? 2 then if leap y then 29 else 28
  else if (m =? 4) || (m =? 6) || (m =? 9) || (m =? 11) then 30 else 31.

Lemma days_in_month_range (y m : Z) : 28 <= days_in_month y m <= 31.
Proof.
  unfold days_in_month. destruct (m =? 2), (leap y), ((m =? 4) || (m =? 6) || (m =? 9) || (m =? 11)); lia.
Qed.

(** A day of the proleptic Gregorian calendar. *)
Definition valid (y m d : Z) : Prop := 1 <= m <= 12 /\ 1 <= d <= days_in_month y m.

(** Case analysis on a month from 1 to 12. *)
Ltac months m :=
  assert (m = 1 \/ m = 2 \/ m = 3 \/ m = 4 \/ m = 5 \/ m = 6 \/ m = 7 \/ m = 8 \/ m = 9 \/ m = 10 \/ m = 11 \/ m = 12)
    as Hmonth by lia;
  repeat match type of Hmonth with _ \/ _ => destruct Hmonth as [Hmonth|Hmonth] end; subst m.

Lemma in_year_next (y m : Z) : 1 <= m <= 11 -> in_year y (m + 1) = in_year y m + days_in_month y m.
Proof. intros H. unfold in_year, days_in_month. months m; destruct (leap y); try reflexivity; lia. Qed.

Lemma in_year_range (y m d : Z) :
  valid y m d -> 0 <= in_year y m + (d - 1) < 365 + (if leap y then 1 else 0).
Proof.
  intros [Hm Hd]. unfold in_year, days_in_month in *.
  months m; cbn in *; destruct (leap y); lia.
Qed.

Lemma month_from_spec (y m d : Z) : valid y m d -> month_from y (in_year y m + (d - 1)) = m.
Proof.
  intros [Hm Hd]. unfold month_from.
  months m; unfold in_year, days_in_month in *; cbn in *; destruct (leap y);
    repeat match goal with |- context [if ?b then _ else _] => destruct b eqn:? end; bool_hyps; lia.
Qed.

Lemma number_year (y m d : Z) : valid y m d -> year (number y m d) = y.
Proof.
  intros H. apply year_unique. rewrite of_year_succ. unfold number.
  pose proof (in_year_range y m d H). lia.
Qed.

(** [civil] undoes [number] ... *)
Lemma civil_number (y m d : Z) : valid y m d -> civil (number y m d) = (y, m, d).
Proof.
  intros H. unfold civil. rewrite (number_year y m d H). unfold number.
  replace (of_year y + in_year y m + (d - 1) - of_year y) with (in_year y m + (d - 1)) by lia.
  rewrite month_from_spec by done. f_equal. lia.
Qed.

(** ... and names a day of the calendar whose number is the given one. *)
Lemma civil_spec (n : Z) : let '(y, m, d) := civil n in valid y m d /\ number y m d = n.
Proof.
  unfold civil. pose proof (year_bounds n) as H. set (y := year n) in *.
  rewrite of_year_succ in H. set (k := n - of_year y).
  assert (0 <= k < 365 + (if leap y then 1 else 0)) as Hk by (unfold k; lia).
  assert (valid y (month_from y k) (k - in_year y (month_from y k) + 1)) as Hv.
  { unfold valid, month_from, in_year, days_in_month. cbn in *. destruct (leap y);
      repeat match goal with |- context [if ?b then _ else _] => destruct b eqn:? end; bool_hyps; cbn; lia. }
  split; [done|]. unfold number, k. lia.
Qed.

(** Day numbers are ordered as the days they name. *)
Lemma number_lt (y m d y' m' d' : Z) :
  valid y m d -> valid y' m' d' ->
  (number y m d <? number y' m' d') = ((y <? y') || ((y =? y') && ((m <? m') || ((m =? m') && (d <? d'))))).
Proof.
  intros H H'. pose proof (in_year_range y m d H). pose proof (in_year_range y' m' d' H').
  apply eq_true_iff_eq. rewrite !orb_true_iff, !andb_true_iff, !orb_true_iff, !andb_true_iff, !Z.ltb_lt, !Z.eqb_eq.
  unfold number. destruct (Z.lt_trichotomy y y') as [L|[->|L]].
  - pose proof (of_year_mono (y + 1) y'). rewrite of_year_succ in *. lia.
  - assert (forall a b, 1 <= a <= 12 -> 1 <= b <= 12 -> a < b -> in_year y' a + days_in_month y' a <= in_year y' b) as Hin.
    { clear. intros a b Ha Hb Hab. unfold in_year, days_in_month.
      months a; months b; try lia; cbn; destruct (leap y'); lia. }
    destruct H as [Hm Hd], H' as [Hm' Hd'].
    destruct (Z.lt_trichotomy m m') as [Lm|[->|Lm]]; [|lia|].
    + pose proof (Hin m m' Hm Hm' Lm). lia.
    + pose proof (Hin m' m Hm' Hm Lm). lia.
  - pose proof (of_year_mono (y' + 1) y). rewrite of_year_succ in *. lia.
Qed.

Lemma number_lt_iff (y m d y' m' d' : Z) :
  valid y m d -> valid y' m' d' ->
  (number y m d < number y' m' d' <-> y < y' \/ (y = y' /\ (m < m' \/ (m = m' /\ d < d')))).
Proof.
  intros H H'. rewrite <- Z.ltb_lt, number_lt by done.
  by rewrite !orb_true_iff, !andb_true_iff, !orb_true_iff, !andb_true_iff, !Z.ltb_lt, !Z.eqb_eq.
Qed.

End Day.

(** ** [date.ts]. *)
Module Dates.
Import Day.

(** A [PlainDate] is a text; [DatePeriod] is inclusive, with no [to] when it is open. *)
Record DatePeriod := Period { from : string; to : option string }.

#[export] Instance DatePeriod_eq_dec : EqDecision DatePeriod.
Proof. solve_decision. Defined.

(** [DATE.test(value)]: [^\d{4}-\d{2}-\d{2}$]. *)
Definition DATE (s : string) : bool :=
  (slength s =? 10) && all_chars is_digit (slice 0 4 s) && String.eqb (slice 4 5 s) "-" &&
  all_chars is_digit (slice 5 7 s) && String.eqb (slice 7 8 s) "-" && all_chars is_digit (slice 8 10 s).

Definition year_part (s : string) : Z := digits_val (slice 0 4 s).
Definition month_part (s : string) : Z := digits_val (slice 5 7 s).
Definition day_part (s : string) : Z := digits_val (slice 8 10 s).

(** An actual four-digit Gregorian calendar day. *)
Definition isPlainDate (value : string) : bool :=
  if negb (slength value =? 10) || negb (DATE value) then false
  else
    let year := year_part value in
    let month := month_part value in
    let day := day_part value in
    (month >=? 1) && (month <=? 12) && (day >=? 1) && (day <=? days_in_month year month).

Definition PlainDate (s : string) : outcome string :=
  if negb (isPlainDate s) then RangeError ("'" +:+ s +:+ "' is not a calendar date (YYYY-MM-DD)") else Ok s.

(** [toDays]: the day number of a [PlainDate] ([Date.parse] of its midnight in UTC, over the day's milliseconds). *)
Definition toDays (d : string) : Z := number (year_part d) (month_part d) (day_part d).

Definition pad (width : Z) (n : Z) : string := pad_start width "0" (digits_of n).

(** [YYYY-MM-DD] of [toISOString]; a year outside four digits is signed with six. *)
Definition iso_day (n : Z) : string :=
  let '(y, m, d) := civil n in
  let yyyy := if (0 <=? y) && (y <=? 9999) then pad 4 y
              else if y <? 0 then "-" +:+ pad 6 (- y) else "+" +:+ pad 6 y in
  yyyy +:+ "-" +:+ pad 2 m +:+ "-" +:+ pad 2 d.

(** [fromDays]: [new Date(n * DAY_MS).toISOString().slice(0, 10)], which throws outside a [Date]'s range. *)
Definition fromDays (n : Z) : outcome string :=
  if Z.abs n <=? 100000000 then Ok (takes 10 (iso_day n)) else RangeError "Invalid time value".

Definition datePeriod (f : string) (t : option string) : outcome DatePeriod :=
  pf ← PlainDate f;
  pt ← match t with None => Ok None | Some t => t' ← PlainDate t; Ok (Some t') end;
  match pt with
  | Some t' =>
      if str_ltb t' pf
      then RangeError ("period ends (" +:+ t' +:+ ") before it starts (" +:+ pf +:+ ")")
      else Ok (Period pf pt)
  | None => Ok (Period pf None)
  end.

Definition contains (p : DatePeriod) (d : string) : bool :=
  str_leb (from p) d && match to p with None => true | Some t => str_leb d t end.

Definition overlaps (a b : DatePeriod) : bool :=
  match to a with None => true | Some t => str_leb (from b) t end &&
  match to b with None => true | Some t => str_leb (from a) t end.

Definition intersect (a b : DatePeriod) : option DatePeriod :=
  if negb (overlaps a b) then None
  else
    let t := match to a, to b with
             | None, tb => tb
             | ta, None => ta
             | Some x, Some y => if str_ltb x y then Some x else Some y
             end in
    Some (Period (if str_ltb (from b) (from a) then from a else from b) t).

Definition days (p : DatePeriod) : outcome Z :=
  match to p with
  | None => RangeError "an open period has no day count"
  | Some t => Ok (toDays t - toDays (from p) + 1)
  end.

(** [Array.from({ length: n }, ...)] takes a negative length as none. *)
Definition eachDay (p : DatePeriod) : outcome (list string) :=
  n ← days p;
  map_outcome (fun i => fromDays (toDays (from p) + Z.of_nat i)) (seq 0 (Z.to_nat n)).

Definition addDays (d : string) (n : Z) : outcome string :=
  d' ← PlainDate d; fromDays (toDays d' + n).

(** Calendar months, clamped to the target month's last day; [n] is a whole number. *)
Definition addMonths (d : string) (n : Z) : outcome string :=
  date ← PlainDate d;
  let year := year_part date in
  let month := month_part date in
  let day := day_part date in
  let index := year * 12 + (month - 1 + n) in
  if (index <? 0) || (index >=? 10000 * 12)
  then RangeError ("'" +:+ d +:+ "' plus " +:+ dec_of n +:+ " calendar months is outside YYYY-MM-DD")
  else
    let targetYear := index / 12 in
    let targetMonth := index mod 12 + 1 in
    let targetDay := Z.min day (days_in_month targetYear targetMonth) in
    Ok (pad 4 targetYear +:+ "-" +:+ pad 2 targetMonth +:+ "-" +:+ pad 2 targetDay).

Definition monthOf (d : string) : outcome DatePeriod :=
  d' ← PlainDate d;
  f ← PlainDate (slice 0 7 d' +:+ "-01");
  next ← addMonths f 1;
  t ← addDays next (-1);
  Ok (Period f (Some t)).

Definition yearOf (d : string) : outcome DatePeriod :=
  d' ← PlainDate d;
  f ← PlainDate (slice 0 4 d' +:+ "-01-01");
  t ← PlainDate (slice 0 4 d +:+ "-12-31");
  Ok (Period f (Some t)).

(** ** The text of a day. *)

(** The text of a calendar day. *)
Definition fmt (y m d : Z) : string := pad 4 y +:+ "-" +:+ pad 2 m +:+ "-" +:+ pad 2 d.

(** A day of a four-digit year. *)
Definition valid4 (y m d : Z) : Prop := 0 <= y <= 9999 /\ valid y m d.

Lemma pad_length (k n : Z) : 0 <= n -> 1 <= k -> n < 10 ^ k -> String.length (pad k n) = Z.to_nat k.
Proof. intros H1 H2 H3. destruct (pad_digits k n H1 H2 H3) as (_ & E & _). unfold slength, pad in *. lia. Qed.

Lemma valid_day_bound (y m d : Z) : valid y m d -> 1 <= m <= 12 /\ 1 <= d <= 31.
Proof.
  intros [Hm Hd]. split; [done|]. pose proof (days_in_month_range y m). lia.
Qed.

Lemma fmt_slices (y m d : Z) :
  0 <= y <= 9999 -> 0 <= m <= 99 -> 0 <= d <= 99 ->
  slength (fmt y m d) = 10 /\ slice 0 4 (fmt y m d) = pad 4 y /\ slice 4 5 (fmt y m d) = "-" /\
  slice 5 7 (fmt y m d) = pad 2 m /\ slice 7 8 (fmt y m d) = "-" /\ slice 8 10 (fmt y m d) = pad 2 d.
Proof.
  intros Hy Hm Hd.
  assert (String.length (pad 4 y) = 4%nat) as Ly by (apply (pad_length 4); lia).
  assert (String.length (pad 2 m) = 2%nat) as Lm by (apply (pad_length 2); lia).
  assert (String.length (pad 2 d) = 2%nat) as Ld by (apply (pad_length 2); lia).
  unfold fmt. repeat split.
  - unfold slength. rewrite !length_append, Ly, Lm, Ld. done.
  - by apply (slice_mid 0 4 "" (pad 4 y)).
  - by apply (slice_mid 4 1 (pad 4 y) "-").
  - rewrite <- append_assoc_s. apply (slice_mid 5 2); [by rewrite length_append, Ly|done].
  - rewrite <- !append_assoc_s. rewrite append_assoc_s. apply (slice_mid 7 1); [by rewrite !length_append, Ly, Lm|done].
  - rewrite <- !append_assoc_s. apply (slice_last 8 2); [by rewrite !length_append, Ly, Lm|done].
Qed.

Lemma fmt_parts (y m d : Z) :
  0 <= y <= 9999 -> 0 <= m <= 99 -> 0 <= d <= 99 ->
  DATE (fmt y m d) = true /\ year_part (fmt y m d) = y /\ month_part (fmt y m d) = m /\ day_part (fmt y m d) = d.
Proof.
  intros Hy Hm Hd. destruct (fmt_slices y m d Hy Hm Hd) as (E0 & E1 & E2 & E3 & E4 & E5).
  destruct (pad_digits 4 y) as (Y1 & _ & Y2), (pad_digits 2 m) as (M1 & _ & M2), (pad_digits 2 d) as (D1 & _ & D2);
    try lia.
  unfold DATE, year_part, month_part, day_part. rewrite E0, E1, E2, E3, E4, E5. unfold pad. by rewrite Y1, M1, D1.
Qed.

Lemma fmt_plain (y m d : Z) : valid4 y m d -> isPlainDate (fmt y m d) = true.
Proof.
  intros [Hy Hv]. pose proof (valid_day_bound y m d Hv) as [Hm Hd].
  destruct (fmt_parts y m d) as (E & Ey & Em & Ed); try lia.
  destruct (fmt_slices y m d) as (El & _); try lia.
  unfold isPlainDate. rewrite E, Ey, Em, Ed, El. destruct Hv as [_ Hdm]. cbn. rewrite Z.geb_leb.
  repeat (apply andb_true_iff; split); rewrite ?Z.geb_leb; apply Z.leb_le; lia.
Qed.

Lemma DATE_fmt (s : string) : DATE s = true -> s = fmt (year_part s) (month_part s) (day_part s).
Proof.
  unfold DATE. rewrite !andb_true_iff. intros [[[[[L Hy] H4] Hm] H7] Hd].
  apply Z.eqb_eq in L. apply String.eqb_eq in H4, H7. unfold slength in L.
  do 10 (destruct s as [|?c s]; [discriminate L|]). destruct s; [|cbn in L; lia].
  cbn in H4, H7. injection H4 as ->. injection H7 as ->. clear L.
  unfold year_part, month_part, day_part, fmt. cbn in Hy, Hm, Hd. cbn [slice takes drop Nat.sub].
  assert (forall w : string, all_chars is_digit w = true -> 1 <= slength w ->
            w = pad (slength w) (digits_val w)) as P.
  { intros w Hw Hl. pose proof (digits_val_bounds w Hw).
    destruct (pad_digits (slength w) (digits_val w)) as (P1 & P2 & P3); [lia..|].
    apply digits_val_inj; [done|done| |by symmetry]. unfold slength, pad in *. lia. }
  set (w1 := String c (String c0 (String c1 (String c2 "")))) in *.
  set (w2 := String c4 (String c5 "")) in *. set (w3 := String c7 (String c8 "")) in *.
  pose proof (P w1 Hy ltac:(done)) as P1. pose proof (P w2 Hm ltac:(done)) as P2.
  pose proof (P w3 Hd ltac:(done)) as P3.
  change (slength w1) with 4 in P1. change (slength w2) with 2 in P2. change (slength w3) with 2 in P3.
  rewrite <- P1, <- P2, <- P3. reflexivity.
Qed.

(** A [PlainDate] is exactly the text of a valid day of a four-digit year. *)
Lemma isPlainDate_iff (s : string) :
  isPlainDate s = true <-> exists y m d, valid4 y m d /\ s = fmt y m d.
Proof.
  split.
  - unfold isPlainDate. destruct (negb (slength s =? 10) || negb (DATE s)) eqn:E; [done|].
    apply orb_false_iff in E as [_ E]. apply negb_false_iff in E. pose proof (DATE_fmt s E) as Hs.
    intros H. rewrite !Z.geb_leb in H. bool_hyps.
    exists (year_part s), (month_part s), (day_part s). split; [|done].
    split; [|by split]. unfold year_part. unfold DATE in E. bool_hyps.
    match goal with H : all_chars is_digit (slice 0 4 s) = true |- _ => pose proof (digits_val_bounds _ H) as B end.
    assert (slength (slice 0 4 s) = 4) as L4.
    { unfold slice, slength in *. cbn [Nat.sub drop]. rewrite length_takes; lia. }
    rewrite L4 in B. lia.
  - intros (y & m & d & H & ->). by apply fmt_plain.
Qed.

Lemma toDays_fmt (y m d : Z) : valid4 y m d -> toDays (fmt y m d) = number y m d.
Proof.
  intros [Hy Hv]. pose proof (valid_day_bound y m d Hv) as [Hm Hd].
  destruct (fmt_parts y m d) as (_ & Ey & Em & Ed); try lia. unfold toDays. by rewrite Ey, Em, Ed.
Qed.

(** The first and last day numbers of the four-digit years. *)
Definition MIN_DAY : Z := -719528.
Definition MAX_DAY : Z := 2932896.

Lemma number_range (y m d : Z) : valid y m d -> (0 <= y <= 9999 <-> MIN_DAY <= number y m d <= MAX_DAY).
Proof.
  intros H. pose proof (in_year_range y m d H) as R. unfold number, MIN_DAY, MAX_DAY.
  change (-719528) with (of_year 0). change 2932896 with (of_year 10000 - 1).
  pose proof (of_year_succ y) as S. split.
  - intros Hy. pose proof (of_year_mono 0 y). pose proof (of_year_mono (y + 1) 10000). lia.
  - intros Hn. pose proof (of_year_mono (y + 1) 0). pose proof (of_year_mono 10000 y). lia.
Qed.

Lemma toDays_range (s : string) : isPlainDate s = true -> MIN_DAY <= toDays s <= MAX_DAY.
Proof.
  intros H. apply isPlainDate_iff in H as (y & m & d & H & ->). rewrite toDays_fmt by done.
  destruct H as [Hy Hv]. by apply number_range.
Qed.

Lemma takes_all (s : string) (n : nat) : String.length s = n -> takes n s = s.
Proof. intros <-. rewrite <- (append_nil_r s) at 2. apply takes_append. Qed.

(** [fromDays] on the four-digit years, and its inverse. *)
Lemma fromDays_fmt (y m d : Z) : valid4 y m d -> fromDays (number y m d) = Ok (fmt y m d).
Proof.
  intros [Hy Hv]. pose proof (valid_day_bound y m d Hv) as [Hm Hd]. unfold fromDays.
  pose proof (proj1 (number_range y m d Hv) Hy) as R. unfold MIN_DAY, MAX_DAY in R.
  rewrite (proj2 (Z.leb_le _ _)) by lia. unfold iso_day. rewrite civil_number by done.
  rewrite (proj2 (Z.leb_le 0 y)), (proj2 (Z.leb_le y 9999)) by lia. cbn [andb]. fold (fmt y m d).
  f_equal. apply takes_all. destruct (fmt_slices y m d) as (E & _); try lia. unfold slength in E. lia.
Qed.

Lemma fromDays_ok (n : Z) :
  MIN_DAY <= n <= MAX_DAY -> exists s, fromDays n = Ok s /\ isPlainDate s = true /\ toDays s = n.
Proof.
  intros R. pose proof (civil_spec n) as H. destruct (civil n) as [[y m] d]. destruct H as [Hv <-].
  assert (valid4 y m d) as H4 by (split; [by apply number_range in R|done]).
  exists (fmt y m d). split; [by apply fromDays_fmt|]. split; [by apply fmt_plain|by apply toDays_fmt].
Qed.

Lemma fromDays_toDays (s : string) : isPlainDate s = true -> fromDays (toDays s) = Ok s.
Proof.
  intros H. apply isPlainDate_iff in H as (y & m & d & H & ->). rewrite toDays_fmt by done. by apply fromDays_fmt.
Qed.

Lemma toDays_inj (a b : string) : isPlainDate a = true -> isPlainDate b = true -> toDays a = toDays b -> a = b.
Proof.
  intros Ha Hb E. apply fromDays_toDays in Ha, Hb. rewrite E, Hb in Ha. by injection Ha.
Qed.

(** The order of the texts is the order of the days. *)
Lemma ltb_days (a b : string) :
  isPlainDate a = true -> isPlainDate b = true -> str_ltb a b = (toDays a <? toDays b).
Proof.
  intros Ha Hb. apply isPlainDate_iff in Ha as (y & m & d & [Hy Hv] & ->), Hb as (y' & m' & d' & [Hy' Hv'] & ->).
  rewrite !toDays_fmt, number_lt by done.
  pose proof (valid_day_bound y m d Hv) as [Hm Hd]. pose proof (valid_day_bound y' m' d' Hv') as [Hm' Hd'].
  assert (forall k n n', 1 <= k -> 0 <= n < 10 ^ k -> 0 <= n' < 10 ^ k ->
            String.length (pad k n) = String.length (pad k n') /\
            str_ltb (pad k n) (pad k n') = (n <? n') /\ String.eqb (pad k n) (pad k n') = (n =? n')) as P.
  { intros k n n' Hk Hn Hn'. destruct (pad_digits k n) as (A1 & A2 & A3), (pad_digits k n') as (B1 & B2 & B3); try lia.
    fold (pad k n) in *. fold (pad k n') in *.
    assert (String.length (pad k n) = String.length (pad k n')) as L by (unfold slength in *; lia).
    split; [done|]. split; [rewrite str_ltb_digits by done; by rewrite A3, B3|].
    apply eq_true_iff_eq. rewrite String.eqb_eq, Z.eqb_eq. split; [intros E; by rewrite <- A3, <- B3, E|by intros ->]. }
  destruct (P 4 y y') as (L1 & S1 & E1); [lia..|]. destruct (P 2 m m') as (L2 & S2 & E2); [lia..|].
  destruct (P 2 d d') as (L3 & S3 & E3); [lia..|].
  unfold fmt. rewrite str_ltb_parts by done. rewrite !str_ltb_app, str_ltb_parts by done.
  by rewrite !str_ltb_app, S1, S2, S3, E1, E2.
Qed.

Lemma leb_days (a b : string) :
  isPlainDate a = true -> isPlainDate b = true -> str_leb a b = (toDays a <=? toDays b).
Proof. intros Ha Hb. unfold str_leb. rewrite ltb_days by done. by rewrite Z.leb_antisym. Qed.

Lemma PlainDate_ok (s : string) : isPlainDate s = true -> PlainDate s = Ok s.
Proof. intros H. unfold PlainDate. by rewrite H. Qed.

Lemma addDays_days (d : string) (n : Z) :
  isPlainDate d = true -> MIN_DAY <= toDays d + n <= MAX_DAY ->
  exists s, addDays d n = Ok s /\ isPlainDate s = true /\ toDays s = toDays d + n.
Proof. intros H R. unfold addDays. rewrite PlainDate_ok by done. by apply fromDays_ok. Qed.

(** ** Theorems. *)

(** A period as [datePeriod] builds it. *)
Definition wf_period (p : DatePeriod) : Prop :=
  isPlainDate (from p) = true /\
  match to p with None => True | Some t => isPlainDate t = true /\ toDays (from p) <= toDays t end.

(** The day numbers of a period. *)
Definition in_days (p : DatePeriod) (n : Z) : Prop :=
  toDays (from p) <= n /\ match to p with None => True | Some t => n <= toDays t end.

Lemma contains_days (p : DatePeriod) (d : string) :
  wf_period p -> isPlainDate d = true -> (contains p d = true <-> in_days p (toDays d)).
Proof.
  intros [Hf Ht] Hd. unfold contains, in_days. rewrite leb_days by done.
  rewrite andb_true_iff, Z.leb_le. destruct (to p) as [t|]; [|tauto].
  rewrite leb_days, Z.leb_le by tauto. done.
Qed.

Lemma overlaps_days (a b : DatePeriod) :
  wf_period a -> wf_period b ->
  (overlaps a b = true <-> (exists n, MIN_DAY <= n <= MAX_DAY /\ in_days a n /\ in_days b n)).
Proof.
  intros [Hfa Hta] [Hfb Htb]. unfold overlaps, in_days. rewrite andb_true_iff.
  pose proof (toDays_range _ Hfa). pose proof (toDays_range _ Hfb).
  destruct (to a) as [ta|], (to b) as [tb|]; rewrite ?leb_days by tauto; rewrite ?Z.leb_le; split;
    try (intros (n & ? & ? & ?); lia);
    intros; exists (Z.max (toDays (from a)) (toDays (from b))); lia.
Qed.

(** The text of a calendar day and its day number determine each other: every [PlainDate] comes back from its number,
    every number of a four-digit year names exactly one [PlainDate], and the order of the texts is the order of the days. *)
Theorem days_bijection :
  (forall s, isPlainDate s = true -> fromDays (toDays s) = Ok s) /\
  (forall n, MIN_DAY <= n <= MAX_DAY -> exists s, fromDays n = Ok s /\ isPlainDate s = true /\ toDays s = n) /\
  (forall a b, isPlainDate a = true -> isPlainDate b = true -> (str_ltb a b = true <-> toDays a < toDays b)).
Proof.
  split; [apply fromDays_toDays|]. split; [apply fromDays_ok|].
  intros a b Ha Hb. by rewrite ltb_days, Z.ltb_lt.
Qed.

(** C0. [addDays] moves a day by [n] whenever the result has a four-digit year, and moves add up; anything but a calendar
    day is refused. *)
Theorem addDays_correct (d : string) (n : Z) :
  (isPlainDate d = false -> is_ok (addDays d n) = false) /\
  (isPlainDate d = true -> MIN_DAY <= toDays d + n <= MAX_DAY ->
   exists s, addDays d n = Ok s /\ isPlainDate s = true /\ toDays s = toDays d + n /\
     forall k, MIN_DAY <= toDays d + n + k <= MAX_DAY -> addDays s k = addDays d (n + k)).
Proof.
  split.
  - intros H. unfold addDays, PlainDate. by rewrite H.
  - intros H R. destruct (addDays_days d n H R) as (s & E & P & D). exists s. repeat split; try done.
    intros k Hk. unfold addDays. rewrite !PlainDate_ok by done. cbn. f_equal. lia.
Qed.

(** [addMonths] of a calendar day lands in the month [n] months away with the day clamped to that month's last, and
    refuses exactly the targets outside the four-digit years. *)
Theorem addMonths_correct (d : string) (n : Z) (Hd : isPlainDate d = true) :
  let index := year_part d * 12 + (month_part d - 1 + n) in
  if (0 <=? index) && (index <? 120000)
  then exists s, addMonths d n = Ok s /\ isPlainDate s = true /\
         year_part s = index / 12 /\ month_part s = index mod 12 + 1 /\
         day_part s = Z.min (day_part d) (days_in_month (index / 12) (index mod 12 + 1))
  else is_ok (addMonths d n) = false.
Proof.
  intros index. unfold addMonths. rewrite PlainDate_ok by done. cbn [mbind outcome_bind]. fold index.
  rewrite Z.geb_leb. change (10000 * 12) with 120000.
  assert ((120000 <=? index) = negb (index <? 120000)) as -> by apply Z.leb_antisym.
  assert ((index <? 0) = negb (0 <=? index)) as -> by apply Z.ltb_antisym.
  rewrite <- negb_andb. destruct ((0 <=? index) && (index <? 120000)) eqn:E; [|done]. bool_hyps. cbn [negb].
  set (y := index / 12). set (m := index mod 12 + 1). set (dd := Z.min (day_part d) (days_in_month y m)).
  assert (valid4 y m dd) as V.
  { apply isPlainDate_iff in Hd as (y0 & m0 & d0 & [Hy0 Hv0] & ->).
    pose proof (valid_day_bound y0 m0 d0 Hv0) as [Hm Hdd].
    destruct (fmt_parts y0 m0 d0) as (_ & _ & _ & Ed); try lia.
    unfold valid4, valid, dd, y, m. rewrite Ed.
    pose proof (days_in_month_range (index / 12) (index mod 12 + 1)).
    split; [dlia|]. split; [dlia|lia]. }
  exists (fmt y m dd). fold (fmt y m dd). split; [done|].
  destruct V as [Hy Hv]. pose proof (valid_day_bound y m dd Hv) as [Hm Hdd].
  destruct (fmt_parts y m dd) as (_ & -> & -> & ->); try lia. split; [by apply fmt_plain|done].
Qed.

Lemma addMonths_correct_witness :
  exists s, addMonths "2026-01-31" 1 = Ok s /\ isPlainDate s = true /\
    year_part s = 2026 /\ month_part s = 2 /\ day_part s = 28.
Proof. exact (addMonths_correct "2026-01-31" 1 eq_refl). Defined.

(** Periods are sets of days: two periods overlap exactly when some calendar day is in both, [intersect] is then the
    period of exactly the shared days, and it is null when there is none. *)
Theorem intersect_correct (a b : DatePeriod) (Ha : wf_period a) (Hb : wf_period b) :
  (overlaps a b = true <-> exists d, isPlainDate d = true /\ contains a d = true /\ contains b d = true) /\
  match intersect a b with
  | None => overlaps a b = false
  | Some p => wf_period p /\ forall d, isPlainDate d = true -> contains p d = contains a d && contains b d
  end.
Proof.
  split.
  { rewrite overlaps_days by done. split.
    - intros (n & R & Hna & Hnb). destruct (fromDays_ok n R) as (d & _ & P & D).
      exists d. rewrite !contains_days, D by done. done.
    - intros (d & P & Hca & Hcb). exists (toDays d). rewrite contains_days in Hca, Hcb by done.
      split; [by apply toDays_range|done]. }
  unfold intersect. destruct (overlaps a b) eqn:O; [|done]. cbn [negb].
  apply overlaps_days in O as (n & R & Hna & Hnb); [|done..].
  destruct Ha as [Hfa Hta], Hb as [Hfb Htb]. unfold in_days in *.
  assert (wf_period (Period (if str_ltb (from b) (from a) then from a else from b)
            match to a, to b with
            | None, tb => tb | ta, None => ta
            | Some x, Some y => if str_ltb x y then Some x else Some y end)) as W.
  { unfold wf_period. cbn. rewrite ltb_days by done.
    destruct (toDays (from b) <? toDays (from a)) eqn:E1, (to a) as [ta|], (to b) as [tb|];
      rewrite ?ltb_days by tauto; try destruct (toDays ta <? toDays tb) eqn:E2; bool_hyps; (split; [done|]); try done;
      split; try tauto; lia. }
  split; [done|]. intros d Hd. apply eq_true_iff_eq.
  rewrite andb_true_iff, !contains_days by done. unfold in_days. cbn. rewrite ltb_days by done.
  destruct (toDays (from b) <? toDays (from a)) eqn:E1, (to a) as [ta|], (to b) as [tb|];
    rewrite ?ltb_days by tauto; try destruct (toDays ta <? toDays tb) eqn:E2; bool_hyps; lia.
Qed.

Definition jan : DatePeriod := Period "2026-01-10" (Some "2026-02-05"%string).
Definition from_feb : DatePeriod := Period "2026-02-01" None.
Lemma intersect_correct_witness :
  wf_period jan /\ wf_period from_feb /\
  (overlaps jan from_feb = true <->
     exists d, isPlainDate d = true /\ contains jan d = true /\ contains from_feb d = true).
Proof.
  assert (wf_period jan) as Hj by (split; [reflexivity|split; [reflexivity|vm_compute; discriminate]]).
  assert (wf_period from_feb) as Hf by (split; [reflexivity|exact I]).
  split; [done|]. split; [done|]. apply (intersect_correct jan from_feb Hj Hf).
Defined.

Lemma map_outcome_seq {A} (f : Z -> outcome A) (P : Z -> A -> Prop) (n : nat) (k : nat) :
  (forall i : nat, (k <= i < k + n)%nat -> exists a, f (Z.of_nat i) = Ok a /\ P (Z.of_nat i) a) ->
  exists l, map_outcome (fun i => f (Z.of_nat i)) (seq k n) = Ok l /\ length l = n /\
    forall (i : nat) a, l !! i = Some a -> P (Z.of_nat (k + i)) a.
Proof.
  revert k. induction n as [|n IH]; intros k H.
  - exists []. repeat split; try done.
  - destruct (H k) as (a & Ea & Pa); [lia|]. destruct (IH (S k)) as (l & El & Ll & Pl).
    { intros i Hi. apply H. lia. }
    exists (a :: l). cbn. rewrite Ea. cbn. rewrite El. cbn. repeat split; [by rewrite Ll|].
    intros [|i] b Hb; cbn in Hb.
    + injection Hb as <-. by replace (k + 0)%nat with k by lia.
    + replace (k + S i)%nat with (S k + i)%nat by lia. by apply Pl.
Qed.

(** C0. [eachDay] of a closed period lists its days once each, in order, as many as [days] counts: the [i]-th is [i] days
    after the first, and a calendar day is listed exactly when the period contains it. *)
Theorem eachDay_correct (f t : string) (p := Period f (Some t)) (Hp : wf_period p) :
  exists l, eachDay p = Ok l /\ days p = Ok (Z.of_nat (length l)) /\
    (forall (i : nat) d, l !! i = Some d -> isPlainDate d = true /\ toDays d = toDays f + Z.of_nat i) /\
    (forall d, isPlainDate d = true -> (d ∈ l <-> contains p d = true)).
Proof.
  destruct Hp as [Hf [Ht Hle]]. cbn in Hf, Ht, Hle.
  pose proof (toDays_range f Hf). pose proof (toDays_range t Ht).
  unfold eachDay. cbn [days to p mbind outcome_bind from].
  destruct (map_outcome_seq (fun i => fromDays (toDays f + i))
              (fun i d => isPlainDate d = true /\ toDays d = toDays f + i)
              (Z.to_nat (toDays t - toDays f + 1)) 0) as (l & El & Ll & Pl).
  { intros i Hi. apply fromDays_ok. lia. }
  exists l. split; [done|]. split; [rewrite Ll; f_equal; lia|]. split; [exact Pl|].
  intros d Hd. rewrite contains_days by done. unfold in_days. cbn. split.
  - intros Hin. apply list_elem_of_lookup in Hin as [i Hi]. pose proof (lookup_lt_Some _ _ _ Hi).
    apply Pl in Hi as [_ ->]. lia.
  - intros [H1 H2]. apply list_elem_of_lookup. exists (Z.to_nat (toDays d - toDays f)).
    destruct (lookup_lt_is_Some_2 l (Z.to_nat (toDays d - toDays f))) as [d' Hd']; [lia|].
    rewrite Hd'. f_equal. apply Pl in Hd' as [P' D']. apply toDays_inj; [done|done|lia].
Qed.

Lemma eachDay_correct_witness :
  exists l, eachDay jan = Ok l /\ days jan = Ok (Z.of_nat (length l)) /\
    (forall (i : nat) d, l !! i = Some d -> isPlainDate d = true /\ toDays d = toDays (from jan) + Z.of_nat i) /\
    (forall d, isPlainDate d = true -> (d ∈ l <-> contains jan d = true)).
Proof.
  apply (eachDay_correct "2026-01-10" "2026-02-05").
  split; [reflexivity|split; [reflexivity|vm_compute; discriminate]].
Defined.

Lemma plain_fmt (s : string) :
  isPlainDate s = true -> s = fmt (year_part s) (month_part s) (day_part s) /\ valid4 (year_part s) (month_part s) (day_part s).
Proof.
  intros H. apply isPlainDate_iff in H as (y & m & d & [Hy Hv] & ->).
  pose proof (valid_day_bound y m d Hv) as [Hm Hd].
  by destruct (fmt_parts y m d) as (_ & -> & -> & ->); [lia..|].
Qed.

(** The last day of a month is the day before the first of the next. *)
Lemma number_month_end (y m : Z) (i := y * 12 + m) :
  1 <= m <= 12 -> number (i / 12) (i mod 12 + 1) 1 + -1 = number y m (days_in_month y m).
Proof.
  intros Hm. subst i. unfold number. destruct (Z.eq_dec m 12) as [->|Hne].
  - replace ((y * 12 + 12) / 12) with (y + 1) by dlia. replace ((y * 12 + 12) mod 12 + 1) with 1 by dlia.
    rewrite of_year_succ. unfold in_year, days_in_month. cbn. destruct (leap y); lia.
  - replace ((y * 12 + m) / 12) with y by dlia. replace ((y * 12 + m) mod 12 + 1) with (m + 1) by dlia.
    rewrite in_year_next by lia. lia.
Qed.

(** The days of a calendar month are those between its first and its last. *)
Lemma month_days (y m y' m' d' : Z) :
  1 <= m <= 12 -> valid y' m' d' ->
  (number y m 1 <= number y' m' d' <= number y m (days_in_month y m) <-> y' = y /\ m' = m).
Proof.
  intros Hm Hv'. pose proof (days_in_month_range y m) as R.
  assert (valid y m 1) as V1 by (split; lia). assert (valid y m (days_in_month y m)) as V2 by (split; lia).
  pose proof (number_lt_iff y' m' d' y m 1 Hv' V1) as L1.
  pose proof (number_lt_iff y m (days_in_month y m) y' m' d' V2 Hv') as L2.
  destruct Hv' as [Hm' Hd']. split.
  - intros [H1 H2]. lia.
  - intros [-> ->]. lia.
Qed.

(** C0. [monthOf] is the period of exactly the days that share the given day's year and month, for every calendar day
    before December 9999 (whose next month has no four-digit year, so there it throws). *)
Theorem monthOf_correct (d : string) (Hd : isPlainDate d = true) :
  if year_part d * 12 + month_part d <? 120000
  then exists p, monthOf d = Ok p /\ wf_period p /\
         forall x, isPlainDate x = true ->
           (contains p x = true <-> year_part x = year_part d /\ month_part x = month_part d)
  else is_ok (monthOf d) = false.
Proof.
  destruct (plain_fmt d Hd) as [E [Hy Hv]]. pose proof (valid_day_bound _ _ _ Hv) as [Hm Hdd].
  set (y := year_part d) in *. set (m := month_part d) in *.
  assert (slice 0 7 d +:+ "-01" = fmt y m 1) as Ef.
  { destruct (fmt_slices y m (day_part d)) as (L & _); [lia..|]. rewrite E. unfold fmt.
    rewrite <- (append_assoc_s (pad 4 y)), <- (append_assoc_s _ (pad 2 m)).
    rewrite slice_first by (rewrite !length_append, (pad_length 4), (pad_length 2) by lia; done).
    by rewrite !append_assoc_s. }
  assert (valid4 y m 1) as V1.
  { pose proof (days_in_month_range y m). repeat split; lia. }
  unfold monthOf. rewrite PlainDate_ok by done. cbn [mbind outcome_bind]. rewrite Ef.
  pose proof (fmt_plain y m 1 V1) as Hf. rewrite PlainDate_ok by done. cbn [mbind outcome_bind].
  pose proof (addMonths_correct (fmt y m 1) 1 Hf) as A. destruct (fmt_parts y m 1) as (_ & Ey & Em & Ed); [lia..|].
  rewrite Ey, Em, Ed in A. cbv zeta in A. replace (y * 12 + (m - 1 + 1)) with (y * 12 + m) in A by lia.
  rewrite (proj2 (Z.leb_le 0 (y * 12 + m))) in A by lia. cbn [andb] in A.
  destruct (y * 12 + m <? 120000); [|by destruct (addMonths (fmt y m 1) 1)].
  destruct A as (s & -> & Ps & Ys & Ms & Ds). cbn [mbind outcome_bind].
  assert (toDays s + -1 = number y m (days_in_month y m)) as Hend.
  { unfold toDays. rewrite Ys, Ms, Ds. pose proof (days_in_month_range ((y * 12 + m) / 12) ((y * 12 + m) mod 12 + 1)).
    rewrite Z.min_l by lia. by apply number_month_end. }
  assert (valid4 y m (days_in_month y m)) as V2.
  { pose proof (days_in_month_range y m). repeat split; lia. }
  destruct (addDays_days s (-1) Ps) as (t & -> & Pt & Dt).
  { rewrite Hend. apply number_range; [by destruct V2|by destruct V2]. }
  cbn [mbind outcome_bind]. eexists. split; [reflexivity|].
  assert (wf_period (Period (fmt y m 1) (Some t))) as W.
  { split; [done|]. cbn [from to]. split; [done|]. rewrite Dt, Hend, toDays_fmt by done. unfold number.
    pose proof (days_in_month_range y m). lia. }
  split; [done|]. intros x Px. rewrite contains_days by done. unfold in_days. cbn [from to].
  rewrite Dt, Hend, toDays_fmt by done. destruct (plain_fmt x Px) as [_ [_ Vx]].
  apply (month_days y m (year_part x) (month_part x) (day_part x) Hm Vx).
Qed.

Lemma monthOf_correct_witness :
  exists p, monthOf "2024-02-17" = Ok p /\ wf_period p /\
    forall x, isPlainDate x = true -> (contains p x = true <-> year_part x = 2024 /\ month_part x = 2).
Proof. exact (monthOf_correct "2024-02-17" eq_refl). Defined.

End Dates.

(** ** [zone.ts], over the zone data of the runtime. *)
Module Zone.
Import Day Dates.

Definition DAY_MS : Z := 86400000.

(** The parts [Intl.DateTimeFormat.formatToParts] gives for one instant. *)
Record Parts := MkParts {
  p_year : string; p_month : string; p_day : string; p_hour : string; p_minute : string; p_second : string
}.

Record Local := MkLocal { date : string; msOfDay : Z }.

Section Zone.
(** [format(zone).formatToParts(ms)]: the runtime's zone data, by zone and instant. *)
Context (formatToParts : string -> Z -> Parts).

(** The zone-local calendar day and milliseconds into it of a UTC instant. *)
Definition localOf (ms : Z) (zone : string) : Local :=
  let p := formatToParts zone ms in
  MkLocal (pad_start 4 "0" (p_year p) +:+ "-" +:+ p_month p +:+ "-" +:+ p_day p)
    (((digits_val (p_hour p) * 60 + digits_val (p_minute p)) * 60 + digits_val (p_second p)) * 1000 +
     Z.rem (Z.rem ms 1000 + 1000) 1000).

(** [offset(t)] inside [utcOf]. *)
Definition offset (zone : string) (t : Z) : Z :=
  let l := localOf t zone in toDays (date l) * DAY_MS + msOfDay l - t.

(** The UTC instant of a zone-local wall time. *)
Definition utcOf (d : string) (ms : Z) (zone : string) : Z :=
  let wall := toDays d * DAY_MS + ms in
  let before := wall - offset zone (wall - DAY_MS) in
  let after := wall - offset zone (wall + DAY_MS) in
  let fits := fun t => t + offset zone t =? wall in
  if fits before then before else if fits after then after else before.


(** ** The wall clock. *)

(** The parts of wall time [w] (milliseconds of the local clock since 1970-01-01): what a runtime with a proleptic Gregorian
    calendar prints with two digits each, the year unpadded. *)
Definition wall_parts (w : Z) : Parts :=
  let '(y, m, d) := civil (w / DAY_MS) in
  let s := w mod DAY_MS / 1000 in
  MkParts (digits_of y) (pad 2 m) (pad 2 d) (pad 2 (s / 3600)) (pad 2 (s / 60 mod 60)) (pad 2 (s mod 60)).

(** A zone of the runtime: at each instant it shows the wall clock [off] ahead of UTC, a whole number of seconds. *)
Definition shows (zone : string) (off : Z -> Z) : Prop :=
  forall t, formatToParts zone t = wall_parts (t + off t) /\ off t mod 1000 = 0.

(** Instants whose wall clock has a four-digit year. *)
Definition wall_range (w : Z) : Prop := MIN_DAY * DAY_MS <= w < (MAX_DAY + 1) * DAY_MS.

Lemma offset_shows (zone : string) (off : Z -> Z) (t : Z) :
  shows zone off -> wall_range (t + off t) -> offset zone t = off t.
Proof.
  intros Hz Hr. destruct (Hz t) as [E M]. unfold offset, localOf. rewrite E. unfold wall_parts.
  set (w := t + off t) in *. unfold wall_range, DAY_MS in Hr.
  pose proof (civil_spec (w / DAY_MS)) as C. destruct (civil (w / DAY_MS)) as [[y m] d]. destruct C as [Hv Hn].
  assert (valid4 y m d) as V.
  { split; [|done]. apply (number_range y m d Hv). rewrite Hn. unfold MIN_DAY, MAX_DAY, DAY_MS in *. dlia. }
  cbn [date msOfDay p_year p_month p_day p_hour p_minute p_second].
  fold (pad 4 y). fold (fmt y m d). rewrite toDays_fmt by done. rewrite Hn.
  set (s := w mod DAY_MS / 1000).
  assert (0 <= s < 86400) as Hs by (unfold s, DAY_MS; dlia).
  assert (forall n, 0 <= n < 100 -> digits_val (pad 2 n) = n) as P.
  { intros n Hn2. apply pad_digits; lia. }
  rewrite !P by dlia.
  replace (((s / 3600) * 60 + s / 60 mod 60) * 60 + s mod 60) with s by dlia.
  assert (Z.rem (Z.rem t 1000 + 1000) 1000 = t mod 1000) as ->.
  { rewrite Z.rem_mod_nonneg by (pose proof (Z.rem_bound_abs t 1000); lia).
    pose proof (Z.quot_rem' t 1000). dlia. }
  unfold s, DAY_MS, w in *. dlia.
Qed.

(** The offset of a zone with one transition, from [a] to [b] at instant [T]. *)
Definition one_transition (T a b t : Z) : Z := if t <? T then a else b.

(** Around a zone's transition [utcOf] reads a wall time as Temporal's 'compatible' rule does: if some instant shows that
    wall time it returns the earliest one (in a fold there are two), and in a gap it reads the time with the offset before the
    transition. *)
Theorem utcOf_compatible (zone : string) (T a b : Z) (d : string) (ms : Z)
    (off := one_transition T a b) (wall := toDays d * DAY_MS + ms)
    (Hz : shows zone off)
    (Hab : Z.abs a < DAY_MS /\ Z.abs b < DAY_MS)
    (Hr : wall_range (wall - 3 * DAY_MS) /\ wall_range (wall + 3 * DAY_MS)) :
  let u := utcOf d ms zone in
  (u + off u = wall /\ forall t, t + off t = wall -> u <= t) \/
  ((forall t, t + off t <> wall) /\ u = wall - a).
Proof.
  assert (forall t, Z.abs (t - wall) < 2 * DAY_MS -> offset zone t = off t) as O.
  { intros t Ht. apply offset_shows; [done|]. unfold off, one_transition, wall_range in *. unfold DAY_MS in *.
    destruct (t <? T); lia. }
  unfold utcOf. fold wall. cbv zeta.
  rewrite (O (wall - DAY_MS)), (O (wall + DAY_MS)) by (unfold DAY_MS in *; lia).
  assert (forall t, off t = a \/ off t = b) as Hoff by (intros t; unfold off, one_transition; destruct (t <? T); lia).
  rewrite (O (wall - off (wall - DAY_MS))) by (destruct (Hoff (wall - DAY_MS)) as [-> | ->]; lia).
  rewrite (O (wall - off (wall + DAY_MS))) by (destruct (Hoff (wall + DAY_MS)) as [-> | ->]; lia).
  clear O Hoff Hz Hr. unfold off, one_transition, DAY_MS in *.
  repeat match goal with
  | |- context [if ?x <? ?y then a else b] => destruct (Z.ltb_spec x y)
  end; repeat match goal with |- context [if ?x =? ?y then _ else _] => destruct (Z.eqb_spec x y) end;
  first [ left; split; [repeat match goal with |- context [if ?x <? ?y then _ else _] => destruct (Z.ltb_spec x y) end; lia
                       | intros t; destruct (Z.ltb_spec t T); lia]
        | right; split; [intros t; destruct (Z.ltb_spec t T); lia | lia] ].
Qed.

End Zone.

(** A runtime whose only zone leaves UTC for UTC+1 at instant 1000000000000. *)
Definition summer_parts (zone : string) (t : Z) : Parts := wall_parts (t + one_transition 1000000000000 0 3600000 t).

Lemma utcOf_compatible_witness :
  let u := utcOf summer_parts "2001-09-09" 8800000 "Europe/London" in
  (u + one_transition 1000000000000 0 3600000 u = 1000002400000 /\
   forall t, t + one_transition 1000000000000 0 3600000 t = 1000002400000 -> u <= t) \/
  ((forall t, t + one_transition 1000000000000 0 3600000 t <> 1000002400000) /\ u = 1000002400000 - 0).
Proof.
  apply (utcOf_compatible summer_parts "Europe/London" 1000000000000 0 3600000 "2001-09-09" 8800000).
  - intros t. split; [reflexivity|]. unfold one_transition. by destruct (t <? 1000000000000).
  - split; reflexivity.
  - split; split; vm_compute; try discriminate; reflexivity.
Defined.
End Zone.
