(* ===== verification/Calendar.v ===== *)
(** Pay and billing cycles, working days and business hours: [packages/std/src/calendar.ts]. A cycle rule cuts the calendar
    into consecutive periods; [Partition] states that contract on day numbers and every rule of [cycleOf] is shown to meet
    it. The module [Calendar] follows the file; the runtime's zone data are arguments, as in [Dates]. *)
From S2P Require Import Prelude Decimal Dates.

(** ** The contract of a cycle rule: it cuts the day numbers into consecutive intervals. *)
Class Partition (lo hi : Z -> Z) : Prop := {
  part_in : forall n, lo n <= n <= hi n;
  part_same : forall n k, lo n <= k <= hi n -> lo k = lo n /\ hi k = hi n;
}.

Module Calendar.
Import Day Dates Zone.

(** ** Data. *)

(** [Cycle]; a number that is no whole one is refused like one out of range, and is not represented. *)
Inductive Cycle :=
| EveryMonth (opensOn : option Z)
| EverySemiMonth (secondOpensOn : option Z)
| EveryWeek (opensOn : Z)
| EveryDays (n : Z) (anchor : string).

(** [Hours]: 'HH:MM' wall times. *)
Record Hours := MkHours { hours_start : string; hours_end : string }.
(** [week] holds the hours of ISO weekdays 1 to 7 in order; [holidays] is a set of dates. *)
Record WorkCalendar := MkCalendar { cal_zone : string; week : list (option Hours); holidays : list string }.

(** ** Times of day. *)

(** [TIME.exec(t)]: [^([01]\d|2[0-3]):([0-5]\d)$], as its two numbers. *)
Definition TIME (t : string) : option (Z * Z) :=
  match t with
  | String a (String b (String ":" (String c (String d EmptyString)))) =>
      if is_digit a && is_digit b && is_digit c && is_digit d &&
         ((digit_val a <=? 1) || ((digit_val a =? 2) && (digit_val b <=? 3))) && (digit_val c <=? 5)
      then Some (digit_val a * 10 + digit_val b, digit_val c * 10 + digit_val d)
      else None
  | _ => None
  end.

Definition minutes (t : string) : outcome Z :=
  match TIME t with
  | None => RangeError ("'" +:+ t +:+ "' is not HH:MM")
  | Some (h, m) => Ok (h * 60 + m)
  end.

Definition weekday_of (d : string) : Z := weekday (toDays d).
Definition dayNumber (d : string) : Z := toDays d.

(** [cal.week[weekday(d)]]. *)
Definition week_hours (cal : WorkCalendar) (d : string) : option Hours :=
  default None (week cal !! Z.to_nat (weekday_of d - 1)).

(** ** Building a calendar. *)

Fixpoint check_week (hs : list (option Hours)) : outcome unit :=
  match hs with
  | [] => Ok tt
  | None :: hs' => check_week hs'
  | Some h :: hs' =>
      s ← minutes (hours_start h);
      e ← minutes (hours_end h);
      if s >=? e
      then RangeError ("hours " +:+ hours_start h +:+ "–" +:+ hours_end h +:+ " end before they start")
      else check_week hs'
  end.

(** [WorkCalendar(c)]; [knownZone] is whether [Intl.DateTimeFormat] accepts the zone. *)
Definition mkWorkCalendar (knownZone : string -> bool) (z : string) (w : list (option Hours)) (hs : list string)
    : outcome WorkCalendar :=
  if negb (knownZone z) then RangeError ("Invalid time zone specified: " +:+ z)
  else
    _ ← check_week w;
    hs' ← map_outcome PlainDate hs;
    Ok (MkCalendar z w hs').

(** ** Cycles. *)

(** The cycle that holds [day]. *)
Definition cycleOf (rule : Cycle) (day : string) : outcome DatePeriod :=
  d ← PlainDate day;
  match rule with
  | EveryMonth o =>
      let opens := default 1 o in
      if (opens <? 1) || (opens >? 28) then RangeError "opensOn is a day 1–28"
      else
        here ← PlainDate (slice 0 8 d +:+ pad 2 opens);
        f ← (if str_leb here d then Ok here else addMonths here (-1));
        next ← addMonths f 1;
        t ← addDays next (-1);
        Ok (Period f (Some t))
  | EverySemiMonth o =>
      let second := default 16 o in
      if (second <? 2) || (second >? 28) then RangeError "secondOpensOn is a day 2–28"
      else
        mid ← PlainDate (slice 0 8 d +:+ pad 2 second);
        first ← PlainDate (slice 0 8 d +:+ "01");
        if str_ltb d mid
        then t ← addDays mid (-1); Ok (Period first (Some t))
        else next ← addMonths first 1; t ← addDays next (-1); Ok (Period mid (Some t))
  | EveryWeek opensOn =>
      f ← addDays d (- Z.rem (weekday_of d - opensOn + 7) 7);
      t ← addDays f 6;
      Ok (Period f (Some t))
  | EveryDays n a =>
      if n <? 1 then RangeError "n is a whole number of days ≥ 1"
      else
        anchor ← PlainDate a;
        f ← addDays anchor ((dayNumber d - dayNumber anchor) / n * n);
        t ← addDays f (n - 1);
        Ok (Period f (Some t))
  end.

(** The loop of [cycles] from cycle [c] while it starts by [last]; [fuel] bounds its turns. *)
Fixpoint cycles_from (fuel : nat) (rule : Cycle) (last : string) (c : DatePeriod) : outcome (list DatePeriod) :=
  match fuel with
  | O => Ok []
  | S fuel' =>
      if str_leb (from c) last then
        next ← addDays (default EmptyString (to c)) 1;
        c' ← cycleOf rule next;
        rest ← cycles_from fuel' rule last c';
        Ok (c :: rest)
      else Ok []
  end.

(** Every cycle that shares a day with [within]; a cycle has a day, so there are at most as many as [within] has days. *)
Definition cycles (rule : Cycle) (within : DatePeriod) : outcome (list DatePeriod) :=
  match to within with
  | None => RangeError "cycles needs a closed period"
  | Some last =>
      c ← cycleOf rule (from within);
      cycles_from (S (Z.to_nat (toDays last - toDays (from within) + 1))) rule last c
  end.

(** ** Working days. *)

Definition worked (cal : WorkCalendar) (d : string) : bool :=
  match week_hours cal d with None => false | Some _ => negb (bool_decide (d ∈ holidays cal)) end.

(** The loop of [businessDays] from day [d], having counted [n]. *)
Fixpoint businessDays_from (fuel : nat) (cal : WorkCalendar) (last d : string) (n : Z) : outcome Z :=
  match fuel with
  | O => Ok n
  | S fuel' =>
      if str_leb d last then
        let n' := if worked cal d then n + 1 else n in
        d' ← addDays d 1;
        businessDays_from fuel' cal last d' n'
      else Ok n
  end.

Definition businessDays (p : DatePeriod) (cal : WorkCalendar) : outcome Z :=
  match to p with
  | None => RangeError "businessDays needs a closed period"
  | Some last => businessDays_from (S (Z.to_nat (toDays last - toDays (from p) + 1))) cal last (from p) 0
  end.

(** ** Business hours. *)
Section BusinessHours.
Context (formatToParts : string -> Z -> Parts).

(** The loop: [left] milliseconds to work from [ms] into [date]; the code takes at most 3660 turns. *)
Fixpoint addBusiness_from (turns : nat) (cal : WorkCalendar) (date : string) (ms left : Z) : outcome Z :=
  match turns with
  | O => RangeError "the calendar has no working hours within ten years"
  | S turns' =>
      let continue := fun left' => next ← addDays date 1; addBusiness_from turns' cal next 0 left' in
      match week_hours cal date with
      | None => continue left
      | Some h =>
          if bool_decide (date ∈ holidays cal) then continue left
          else
            s ← minutes (hours_start h);
            e ← minutes (hours_end h);
            let start := Z.max (s * 60000) ms in
            let fin := e * 60000 in
            if start >=? fin then continue left
            else if left <=? fin - start then Ok (utcOf formatToParts date (start + left) (cal_zone cal))
            else continue (left - (fin - start))
      end
  end.

(** [addBusinessHours(from, hours, cal)], the instants as epoch milliseconds; the hours are a decimal (a number enters
    through [Decimal.fromNumber(hours, 6)]). *)
Definition addBusinessHours (from_ms : Z) (hours : Decimal.t) (cal : WorkCalendar) : outcome Z :=
  ms ← Decimal.times hours (Decimal.LNumber (num_of_Z 3600000));
  whole ← Decimal.round ms (num_of_Z 0) Decimal.halfUp;
  let left := Decimal.coeff whole in
  if left <? 0 then RangeError "hours must be ≥ 0"
  else
    let l := localOf formatToParts from_ms (cal_zone cal) in
    addBusiness_from 3660 cal (date l) (msOfDay l) left.

End BusinessHours.

(** ** The cycles of a rule, on day numbers. *)

(** Day [o] of the month of index [i] (years times 12, plus months from 0). *)
Definition day_of_month (i o : Z) : Z := number (i / 12) (i mod 12 + 1) o.
Definition month_index (n : Z) : Z := let '(y, m, _) := civil n in y * 12 + (m - 1).
Definition month_day (n : Z) : Z := let '(_, _, d) := civil n in d.

(** The first day of the rule's cycle [i], and the cycle that holds day [n]. *)
Definition opening (rule : Cycle) (i : Z) : Z :=
  match rule with
  | EveryMonth o => day_of_month i (default 1 o)
  | EverySemiMonth o => day_of_month (i / 2) (if i mod 2 =? 0 then 1 else default 16 o)
  | EveryWeek o => 7 * i + (o - 4)
  | EveryDays k a => toDays a + k * i
  end.
Definition index (rule : Cycle) (n : Z) : Z :=
  match rule with
  | EveryMonth o => month_index n - (if month_day n <? default 1 o then 1 else 0)
  | EverySemiMonth o => 2 * month_index n + (if month_day n <? default 16 o then 0 else 1)
  | EveryWeek o => (n - (o - 4)) / 7
  | EveryDays k a => (n - toDays a) / k
  end.

Lemma opening_month (o : option Z) (i : Z) : opening (EveryMonth o) i = day_of_month i (default 1 o).
Proof. done. Qed.
Lemma index_month (o : option Z) (n : Z) :
  index (EveryMonth o) n = month_index n - (if month_day n <? default 1 o then 1 else 0).
Proof. done. Qed.
Lemma opening_semi (o : option Z) (i : Z) :
  opening (EverySemiMonth o) i = day_of_month (i / 2) (if i mod 2 =? 0 then 1 else default 16 o).
Proof. done. Qed.
Lemma index_semi (o : option Z) (n : Z) :
  index (EverySemiMonth o) n = 2 * month_index n + (if month_day n <? default 16 o then 0 else 1).
Proof. done. Qed.

(** The rules [cycleOf] does not refuse. *)
Definition wf_rule (rule : Cycle) : Prop :=
  match rule with
  | EveryMonth o => 1 <= default 1 o <= 28
  | EverySemiMonth o => 2 <= default 16 o <= 28
  | EveryWeek o => 1 <= o <= 7
  | EveryDays k a => 1 <= k /\ isPlainDate a = true
  end.

Lemma valid_of_month (i o : Z) : 1 <= o <= 28 -> valid (i / 12) (i mod 12 + 1) o.
Proof. intros H. pose proof (days_in_month_range (i / 12) (i mod 12 + 1)). split; [dlia|lia]. Qed.

Lemma day_of_month_lt (i j o p : Z) :
  1 <= o <= 28 -> 1 <= p <= 28 -> (day_of_month i o < day_of_month j p <-> i < j \/ (i = j /\ o < p)).
Proof.
  intros Ho Hp. unfold day_of_month. rewrite number_lt_iff by by apply valid_of_month. dlia.
Qed.

(** A day lies in its month, before or after a day of it as its day of month says. *)
Lemma month_position (n o : Z) :
  1 <= o <= 28 ->
  day_of_month (month_index n) 1 <= n < day_of_month (month_index n + 1) 1 /\
  (n < day_of_month (month_index n) o <-> month_day n < o).
Proof.
  intros Ho. unfold month_index, month_day. pose proof (civil_spec n) as C.
  destruct (civil n) as [[y m] d]. destruct C as [Hv <-]. set (i := y * 12 + (m - 1)).
  assert (i / 12 = y /\ i mod 12 + 1 = m) as [Ey Em] by (destruct Hv as [Hm _]; unfold i; split; dlia).
  pose proof (number_lt_iff y m d (i / 12) (i mod 12 + 1) o Hv (valid_of_month i o Ho)) as L1.
  pose proof (number_lt_iff y m d (i / 12) (i mod 12 + 1) 1 Hv (valid_of_month i 1 ltac:(lia))) as L2.
  pose proof (number_lt_iff y m d ((i + 1) / 12) ((i + 1) mod 12 + 1) 1 Hv (valid_of_month (i + 1) 1 ltac:(lia))) as L3.
  unfold day_of_month. destruct Hv as [Hm Hd].
  assert (y < (i + 1) / 12 \/ (y = (i + 1) / 12 /\ m < (i + 1) mod 12 + 1)) by (unfold i; dlia).
  lia.
Qed.

Lemma opening_lt (rule : Cycle) (i j : Z) : wf_rule rule -> i < j -> opening rule i < opening rule j.
Proof.
  destruct rule as [o|o|o|k a]; cbn [wf_rule opening]; intros Hw Hij.
  - apply day_of_month_lt; lia.
  - destruct (i mod 2 =? 0) eqn:Ei, (j mod 2 =? 0) eqn:Ej; bool_hyps; apply day_of_month_lt; try lia; dlia.
  - lia.
  - nia.
Qed.

Lemma index_spec (rule : Cycle) (n : Z) :
  wf_rule rule -> opening rule (index rule n) <= n < opening rule (index rule n + 1).
Proof.
  destruct rule as [o|o|o|k a]; cbn [wf_rule opening index]; intros Hw.
  - set (opens := default 1 o) in *. destruct (month_position n opens) as [M P]; [lia|].
    set (i := month_index n) in *.
    pose proof (day_of_month_lt (i - 1) i opens 1). pose proof (day_of_month_lt (i + 1) (i + 1) 1 opens).
    destruct (month_day n <? opens) eqn:E; bool_hyps.
    + replace (i - 1 + 1) with i by lia. lia.
    + replace (i - 0) with i by lia. destruct (Z.eq_dec opens 1) as [->|]; lia.
  - set (second := default 16 o) in *. destruct (month_position n second) as [M P]; [lia|].
    set (i := month_index n) in *. destruct (month_day n <? second) eqn:E; bool_hyps.
    + replace ((2 * i + 0) / 2) with i by dlia. replace ((2 * i + 0 + 1) / 2) with i by dlia.
      replace ((2 * i + 0) mod 2) with 0 by dlia. replace ((2 * i + 0 + 1) mod 2) with 1 by dlia.
      change (0 =? 0) with true. change (1 =? 0) with false. cbv iota. lia.
    + replace ((2 * i + 1) / 2) with i by dlia. replace ((2 * i + 1 + 1) / 2) with (i + 1) by dlia.
      replace ((2 * i + 1) mod 2) with 1 by dlia. replace ((2 * i + 1 + 1) mod 2) with 0 by dlia.
      change (0 =? 0) with true. change (1 =? 0) with false. cbv iota. lia.
  - dlia.
  - pose proof (Z.div_mod (n - toDays a) k). pose proof (Z.mod_pos_bound (n - toDays a) k). nia.
Qed.

Lemma index_unique (rule : Cycle) (n i : Z) :
  wf_rule rule -> opening rule i <= n < opening rule (i + 1) -> index rule n = i.
Proof.
  intros Hw H. pose proof (index_spec rule n Hw) as S.
  assert (forall a b, a <= b -> opening rule a <= opening rule b) as Mono.
  { intros a b Hab. destruct (Z.eq_dec a b) as [->|]; [done|]. pose proof (opening_lt rule a b Hw). lia. }
  destruct (Z.lt_trichotomy (index rule n) i) as [L|[E|L]]; [|done|].
  - pose proof (Mono (index rule n + 1) i). lia.
  - pose proof (Mono (i + 1) (index rule n)). lia.
Qed.

(** Every rule is a partition of the days. *)
#[export] Instance rule_partition (rule : Cycle) (Hw : wf_rule rule) :
  Partition (fun n => opening rule (index rule n)) (fun n => opening rule (index rule n + 1) - 1).
Proof.
  split.
  - intros n. pose proof (index_spec rule n Hw). lia.
  - intros n k H. rewrite (index_unique rule k (index rule n) Hw); [done|lia].
Qed.

(** ** The texts [cycleOf] computes. *)

Lemma addMonths_day (s : string) (i o k : Z) :
  isPlainDate s = true -> 1 <= o <= 28 -> toDays s = day_of_month i o -> MIN_DAY <= day_of_month (i + k) o <= MAX_DAY ->
  exists s', addMonths s k = Ok s' /\ isPlainDate s' = true /\ toDays s' = day_of_month (i + k) o.
Proof.
  intros P Ho E R. pose proof (addMonths_correct s k P) as A.
  destruct (plain_fmt s P) as [Es [Hy Hv]].
  assert ((year_part s, month_part s, day_part s) = (i / 12, i mod 12 + 1, o)) as Ep.
  { rewrite <- (civil_number _ _ _ Hv), <- (civil_number _ _ _ (valid_of_month i o Ho)). f_equal.
    rewrite <- toDays_fmt by (by split). by rewrite <- Es. }
  injection Ep as Ey Em Ed. cbv zeta in A. rewrite Ey, Em, Ed in A.
  replace (i / 12 * 12 + (i mod 12 + 1 - 1 + k)) with (i + k) in A by dlia.
  pose proof (valid_of_month (i + k) o Ho) as V. apply (number_range _ _ _ V) in R.
  rewrite (proj2 (Z.leb_le 0 (i + k))), (proj2 (Z.ltb_lt (i + k) 120000)) in A by dlia.
  destruct A as (s' & -> & P' & Y & M & D). exists s'. split; [done|]. split; [done|].
  unfold toDays, day_of_month. rewrite Y, M, D. f_equal.
  pose proof (days_in_month_range ((i + k) / 12) ((i + k) mod 12 + 1)). lia.
Qed.

(** The text of day [o] of the month of [d]. *)
Lemma same_month (d : string) (o : Z) (i := month_index (toDays d)) :
  isPlainDate d = true -> 1 <= o <= 28 ->
  isPlainDate (slice 0 8 d +:+ pad 2 o) = true /\ toDays (slice 0 8 d +:+ pad 2 o) = day_of_month i o.
Proof.
  intros P Ho. subst i. destruct (plain_fmt d P) as [E [Hy Hv]]. pose proof (valid_day_bound _ _ _ Hv) as [Hm Hd].
  assert (slice 0 8 d +:+ pad 2 o = fmt (year_part d) (month_part d) o) as ->.
  { rewrite E at 1. unfold fmt. rewrite <- !append_assoc_s. rewrite slice_first; [done|].
    rewrite !length_append, (pad_length 4), (pad_length 2) by lia. done. }
  assert (valid4 (year_part d) (month_part d) o) as V.
  { pose proof (days_in_month_range (year_part d) (month_part d)). repeat split; lia. }
  split; [by apply fmt_plain|]. rewrite toDays_fmt by done. unfold day_of_month, month_index, toDays.
  rewrite civil_number by done. f_equal; dlia.
Qed.

(** [c] is the rule's cycle [i]. *)
Definition is_cycle (rule : Cycle) (i : Z) (c : DatePeriod) : Prop :=
  isPlainDate (from c) = true /\ toDays (from c) = opening rule i /\
  exists t, to c = Some t /\ isPlainDate t = true /\ toDays t = opening rule (i + 1) - 1.

(** A cycle from its first day and the day after its last. *)
Lemma close_cycle (rule : Cycle) (i : Z) (f next : string) :
  wf_rule rule -> isPlainDate f = true -> toDays f = opening rule i ->
  isPlainDate next = true -> toDays next = opening rule (i + 1) ->
  exists t, addDays next (-1) = Ok t /\ is_cycle rule i (Period f (Some t)).
Proof.
  intros Hw Pf Ef Pn En. pose proof (opening_lt rule i (i + 1) Hw) as L.
  pose proof (toDays_range f Pf). pose proof (toDays_range next Pn).
  destruct (addDays_days next (-1) Pn) as (t & Et & Pt & Dt); [lia|].
  exists t. split; [done|]. repeat split; [done|done|]. exists t. repeat split; [done|]. lia.
Qed.

(** Steps through a checked date, and through an operation whose result is known. *)
Ltac step_ok := rewrite PlainDate_ok by done; cbn [mbind outcome_bind].

#[local] Opaque toDays day_of_month.

Lemma cycleOf_month (o : option Z) (d : string) (i : Z) :
  index (EveryMonth o) (toDays d) = i -> wf_rule (EveryMonth o) -> isPlainDate d = true ->
  MIN_DAY <= opening (EveryMonth o) i -> opening (EveryMonth o) (i + 1) <= MAX_DAY ->
  exists c, cycleOf (EveryMonth o) d = Ok c /\ is_cycle (EveryMonth o) i c.
Proof.
  intros Ei Hw P L R. pose proof (opening_lt (EveryMonth o) i (i + 1) Hw) as Lt. unfold cycleOf. step_ok.
  pose proof Hw as Ho. cbn [wf_rule] in Ho. rewrite opening_month in L, R. rewrite !opening_month in Lt.
  rewrite index_month in Ei. symmetry in Ei. remember (default 1 o) as opens eqn:Eo.
  rewrite (proj2 (Z.ltb_ge opens 1)), Z.gtb_ltb, (proj2 (Z.ltb_ge 28 opens)) by lia. cbn [orb].
  destruct (same_month d opens P Ho) as [Ph Eh]. step_ok.
  set (here := slice 0 8 d +:+ pad 2 opens) in *. rewrite leb_days, Eh by done.
  destruct (month_position (toDays d) opens Ho) as [_ Mp].
  assert (exists f, (if day_of_month (month_index (toDays d)) opens <=? toDays d then Ok here else addMonths here (-1)) = Ok f
            /\ isPlainDate f = true /\ toDays f = day_of_month i opens) as (f & -> & Pf & Ef).
  { destruct (_ <=? toDays d) eqn:E; bool_hyps.
    - exists here. rewrite (proj2 (Z.ltb_ge (month_day (toDays d)) opens)) in Ei by lia.
      rewrite Z.sub_0_r in Ei. by rewrite Ei.
    - rewrite (proj2 (Z.ltb_lt (month_day (toDays d)) opens)) in Ei by lia.
      assert (MIN_DAY <= day_of_month i opens <= MAX_DAY) as Ri by lia. rewrite Ei in Ri |- *.
      by apply (addMonths_day here _ opens (-1) Ph Ho Eh). }
  cbn [mbind outcome_bind].
  destruct (addMonths_day f i opens 1 Pf Ho Ef) as (next & -> & Pn & En); [lia|].
  cbn [mbind outcome_bind]. rewrite Eo, <- opening_month in Ef, En.
  destruct (close_cycle (EveryMonth o) i f next Hw Pf Ef Pn En) as (t & -> & C).
  cbn [mbind outcome_bind]. by eexists.
Qed.

Lemma cycleOf_semiMonth (o : option Z) (d : string) (i : Z) :
  index (EverySemiMonth o) (toDays d) = i -> wf_rule (EverySemiMonth o) -> isPlainDate d = true ->
  MIN_DAY <= opening (EverySemiMonth o) i -> opening (EverySemiMonth o) (i + 1) <= MAX_DAY ->
  exists c, cycleOf (EverySemiMonth o) d = Ok c /\ is_cycle (EverySemiMonth o) i c.
Proof.
  intros Ei Hw P L R. unfold cycleOf. step_ok. pose proof Hw as Ho. cbn [wf_rule] in Ho.
  rewrite opening_semi in L, R. rewrite index_semi in Ei. symmetry in Ei.
  assert (forall j f next, isPlainDate f = true ->
            toDays f = day_of_month (j / 2) (if j mod 2 =? 0 then 1 else default 16 o) -> isPlainDate next = true ->
            toDays next = day_of_month ((j + 1) / 2) (if (j + 1) mod 2 =? 0 then 1 else default 16 o) ->
            exists t, addDays next (-1) = Ok t /\ is_cycle (EverySemiMonth o) j (Period f (Some t))) as Close.
  { intros j f next. rewrite <- !opening_semi. by apply close_cycle. }
  set (k := month_index (toDays d)) in *. remember (default 16 o) as second eqn:Eo.
  rewrite (proj2 (Z.ltb_ge second 2)), Z.gtb_ltb, (proj2 (Z.ltb_ge 28 second)) by lia. cbn [orb].
  destruct (same_month d second P) as [Pm Em]; [lia|]. destruct (same_month d 1 P) as [Pf Ef]; [lia|].
  change (pad 2 1) with "01"%string in Pf, Ef. do 2 step_ok.
  set (mid := slice 0 8 d +:+ pad 2 second) in *. set (first := slice 0 8 d +:+ "01") in *.
  destruct (month_position (toDays d) second) as [_ Mp]; [lia|]. fold k in Mp, Em, Ef.
  rewrite ltb_days by done. destruct (toDays d <? toDays mid) eqn:E; bool_hyps.
  - rewrite (proj2 (Z.ltb_lt (month_day (toDays d)) second)) in Ei by lia.
    destruct (Close i first mid Pf) as (t & -> & C); [|done| |].
    + replace (i mod 2) with 0 by dlia. replace (i / 2) with k by dlia. exact Ef.
    + replace ((i + 1) mod 2) with 1 by dlia. replace ((i + 1) / 2) with k by dlia. exact Em.
    + cbn [mbind outcome_bind]. by eexists.
  - rewrite (proj2 (Z.ltb_ge (month_day (toDays d)) second)) in Ei by lia.
    replace ((i + 1) / 2) with (k + 1) in R by dlia. replace ((i + 1) mod 2) with 0 in R by dlia.
    change (0 =? 0) with true in R. cbv iota in R.
    destruct (addMonths_day first k 1 1 Pf ltac:(lia) Ef) as (next & -> & Pn & En).
    { pose proof (toDays_range first Pf). pose proof (day_of_month_lt k (k + 1) 1 1). lia. }
    cbn [mbind outcome_bind]. destruct (Close i mid next Pm) as (t & -> & C); [|done| |].
    + replace (i mod 2) with 1 by dlia. replace (i / 2) with k by dlia. exact Em.
    + replace ((i + 1) mod 2) with 0 by dlia. replace ((i + 1) / 2) with (k + 1) by dlia. exact En.
    + cbn [mbind outcome_bind]. by eexists.
Qed.

Lemma cycleOf_ok (rule : Cycle) (d : string) (i := index rule (toDays d)) :
  wf_rule rule -> isPlainDate d = true -> MIN_DAY <= opening rule i -> opening rule (i + 1) <= MAX_DAY ->
  exists c, cycleOf rule d = Ok c /\ is_cycle rule i c.
Proof.
  intros Hw P L R. pose proof (opening_lt rule i (i + 1) Hw) as Lt.
  destruct rule as [o|o|o|k a]; [by apply (cycleOf_month o d i)|by apply (cycleOf_semiMonth o d i)| |];
    unfold cycleOf; rewrite (PlainDate_ok d P); cbn [mbind outcome_bind];
    unfold i in *; cbn [opening index wf_rule] in *.
  - assert (weekday_of d - o + 7 = (toDays d + 3) mod 7 + 1 - o + 7) as W by reflexivity.
    assert (Z.rem (weekday_of d - o + 7) 7 = (toDays d - (o - 4)) mod 7) as ->.
    { rewrite W, Z.rem_mod_nonneg by dlia. dlia. }
    destruct (addDays_days d (- ((toDays d - (o - 4)) mod 7)) P) as (f & -> & Pf & Df); [dlia|].
    cbn [mbind outcome_bind]. destruct (addDays_days f 6 Pf) as (t & -> & Pt & Dt); [dlia|].
    cbn [mbind outcome_bind]. eexists. split; [done|]. unfold is_cycle. cbn [from to opening].
    split; [done|]. split; [dlia|]. exists t. repeat split; [done|dlia].
  - destruct Hw as [Hk Pa]. rewrite (proj2 (Z.ltb_ge k 1)) by lia. step_ok. unfold dayNumber.
    set (q := (toDays d - toDays a) / k) in *.
    destruct (addDays_days a (q * k) Pa) as (f & -> & Pf & Df); [lia|].
    cbn [mbind outcome_bind]. destruct (addDays_days f (k - 1) Pf) as (t & -> & Pt & Dt); [lia|].
    cbn [mbind outcome_bind]. eexists. split; [done|]. unfold is_cycle. cbn [from to opening].
    split; [done|]. split; [lia|]. exists t. repeat split; [done|lia].
Qed.

Lemma is_cycle_period (rule : Cycle) (i : Z) (c : DatePeriod) (x : string) :
  wf_rule rule -> is_cycle rule i c -> isPlainDate x = true ->
  wf_period c /\ (contains c x = true <-> index rule (toDays x) = i).
Proof.
  intros Hw (Pf & Ef & t & Et & Pt & Dt) Px. pose proof (opening_lt rule i (i + 1) Hw).
  assert (wf_period c) as W by (split; [done|rewrite Et; split; [done|lia]]).
  split; [done|]. rewrite contains_days by done. unfold in_days. rewrite Et, Ef, Dt. split.
  - intros H'. apply index_unique; [done|lia].
  - intros <-. pose proof (index_spec rule (toDays x) Hw). lia.
Qed.

Lemma is_cycle_unique (rule : Cycle) (i : Z) (c c' : DatePeriod) : is_cycle rule i c -> is_cycle rule i c' -> c = c'.
Proof.
  intros (Pf & Ef & t & Et & Pt & Dt) (Pf' & Ef' & t' & Et' & Pt' & Dt').
  destruct c as [f ot], c' as [f' ot']. cbn [from to] in *. subst ot ot'. f_equal; [|f_equal]; apply toDays_inj; congruence.
Qed.

(** ** Theorems. *)

(** The cycles of a rule partition the calendar: [cycleOf] of a calendar day, whose cycle lies in the four-digit years, is
    a period that contains the day, and every calendar day of that period has the very same cycle. *)
Theorem cycleOf_partition (rule : Cycle) (d : string) (i := index rule (toDays d))
    (Hw : wf_rule rule) (Hd : isPlainDate d = true) (Hlo : MIN_DAY <= opening rule i) (Hhi : opening rule (i + 1) <= MAX_DAY) :
  exists c, cycleOf rule d = Ok c /\ wf_period c /\ contains c d = true /\
    forall x, isPlainDate x = true -> contains c x = true -> cycleOf rule x = Ok c.
Proof.
  destruct (cycleOf_ok rule d Hw Hd Hlo Hhi) as (c & Ec & C). exists c.
  destruct (is_cycle_period rule i c d Hw C Hd) as [W M].
  split; [done|]. split; [done|]. split; [by apply M|]. intros x Px Hx.
  apply (is_cycle_period rule i c x Hw C Px) in Hx.
  destruct (cycleOf_ok rule x Hw Px) as (c' & Ec' & C'); rewrite ?Hx in *; [done..|].
  rewrite Ec'. f_equal. by eapply is_cycle_unique.
Qed.

Lemma cycleOf_partition_witness :
  exists c, cycleOf (EveryMonth (Some 25)) "2026-03-10" = Ok c /\ wf_period c /\ contains c "2026-03-10" = true /\
    forall x, isPlainDate x = true -> contains c x = true -> cycleOf (EveryMonth (Some 25)) x = Ok c.
Proof. apply (cycleOf_partition (EveryMonth (Some 25)) "2026-03-10"); vm_compute; intuition discriminate. Defined.

Lemma opening_grows (rule : Cycle) (i j : Z) : wf_rule rule -> i <= j -> opening rule i + (j - i) <= opening rule j.
Proof.
  intros Hw Hij. replace j with (i + Z.of_nat (Z.to_nat (j - i))) by lia. set (n := Z.to_nat (j - i)).
  clearbody n. induction n as [|n IH]; [replace (i + Z.of_nat 0) with i by lia; lia|].
  pose proof (opening_lt rule (i + Z.of_nat n) (i + Z.of_nat (S n)) Hw). lia.
Qed.

(** The cycles from [i] on, one after the other. *)
Definition consecutive (rule : Cycle) (i : Z) (cs : list DatePeriod) : Prop :=
  forall (k : nat) c, cs !! k = Some c -> is_cycle rule (i + Z.of_nat k) c.

Lemma cycles_from_ok (fuel : nat) (rule : Cycle) (last : string) (i j : Z) (c : DatePeriod) :
  wf_rule rule -> isPlainDate last = true -> index rule (toDays last) = j -> opening rule (j + 2) <= MAX_DAY ->
  is_cycle rule i c -> i <= j + 1 -> (Z.to_nat (j + 1 - i) < fuel)%nat ->
  exists cs, cycles_from fuel rule last c = Ok cs /\ length cs = Z.to_nat (j + 1 - i) /\ consecutive rule i cs.
Proof.
  intros Hw Pl Ej R. revert i c. induction fuel as [|fuel IH]; intros i c C Hi Hf; [lia|].
  cbn [cycles_from]. pose proof C as (Pf & Ef & t & Et & Pt & Dt).
  rewrite leb_days, Ef by done. pose proof (index_spec rule (toDays last) Hw) as Hl. rewrite Ej in Hl.
  destruct (Z.eq_dec i (j + 1)) as [->|Hne].
  - rewrite (proj2 (Z.leb_gt _ _)) by lia. exists []. split; [done|]. split; [cbn [length]; lia|].
    intros k x Hk. by rewrite lookup_nil in Hk.
  - pose proof (opening_grows rule i j Hw ltac:(lia)). pose proof (opening_grows rule (i + 1) (j + 2) Hw ltac:(lia)).
    pose proof (opening_grows rule (i + 2) (j + 2) Hw ltac:(lia)).
    pose proof (opening_lt rule i (i + 1) Hw). pose proof (opening_lt rule (i + 1) (i + 2) Hw).
    rewrite (proj2 (Z.leb_le _ _)) by lia. rewrite Et. change (default EmptyString (Some t)) with t.
    pose proof (toDays_range t Pt). destruct (addDays_days t 1 Pt) as (next & -> & Pn & Dn); [lia|].
    cbn [mbind outcome_bind].
    assert (index rule (toDays next) = i + 1) as En.
    { apply index_unique; [done|]. rewrite Dn, Dt. replace (i + 1 + 1) with (i + 2) by lia. lia. }
    destruct (cycleOf_ok rule next Hw Pn) as (c' & -> & C'); rewrite ?En.
    { pose proof (toDays_range (from c) Pf). lia. }
    { replace (i + 1 + 1) with (i + 2) by lia. lia. }
    rewrite En in C'. cbn [mbind outcome_bind].
    destruct (IH (i + 1) c' C') as (cs & -> & Lc & Cc); [lia|lia|].
    cbn [mbind outcome_bind]. exists (c :: cs). split; [done|]. split; [cbn [length]; lia|].
    intros [|k] x Hk; cbn in Hk.
    + injection Hk as <-. by replace (i + Z.of_nat 0) with i by lia.
    + replace (i + Z.of_nat (S k)) with (i + 1 + Z.of_nat k) by lia. by apply Cc.
Qed.

(** [cycles] terminates and lists, in order and without gaps, exactly the cycles that share a day with the period: from the
    cycle of its first day to the cycle of its last. *)
Theorem cycles_correct (rule : Cycle) (f t : string) (i := index rule (toDays f)) (j := index rule (toDays t))
    (Hw : wf_rule rule) (Hf : isPlainDate f = true) (Ht : isPlainDate t = true) (Hft : toDays f <= toDays t)
    (Hlo : MIN_DAY <= opening rule i) (Hhi : opening rule (j + 2) <= MAX_DAY) :
  exists cs, cycles rule (Period f (Some t)) = Ok cs /\ length cs = Z.to_nat (j + 1 - i) /\ consecutive rule i cs /\
    forall c, c ∈ cs -> overlaps c (Period f (Some t)) = true.
Proof.
  pose proof (index_spec rule (toDays f) Hw) as Sf. fold i in Sf.
  pose proof (index_spec rule (toDays t) Hw) as St. fold j in St.
  assert (i <= j) as Hij.
  { destruct (Z.le_gt_cases i j) as [|G]; [done|]. pose proof (opening_grows rule (j + 1) i Hw). lia. }
  pose proof (opening_grows rule (i + 1) (j + 2) Hw ltac:(lia)).
  unfold cycles. cbn [to from].
  destruct (cycleOf_ok rule f Hw Hf) as (c & -> & C); [done|fold i; lia|]. cbn [mbind outcome_bind].
  destruct (cycles_from_ok (S (Z.to_nat (toDays t - toDays f + 1))) rule t i j c Hw Ht eq_refl Hhi C) as (cs & -> & L & Cc).
  { lia. }
  { destruct (Z.eq_dec i j) as [E|]; [lia|]. pose proof (opening_grows rule (i + 1) j Hw ltac:(lia)). lia. }
  exists cs. split; [done|]. split; [done|]. split; [done|]. intros c' Hc'.
  apply list_elem_of_lookup in Hc' as [k Hk]. pose proof (lookup_lt_Some _ _ _ Hk) as Hlt. apply Cc in Hk.
  destruct (is_cycle_period rule _ c' f Hw Hk Hf) as [W _]. apply overlaps_days; [done|by split|].
  destruct Hk as (Pf' & Ef' & t' & Et' & Pt' & Dt'). set (m := i + Z.of_nat k) in *.
  exists (Z.max (toDays f) (opening rule m)). unfold in_days. cbn [from to]. rewrite Et', Ef', Dt'.
  pose proof (toDays_range f Hf). pose proof (toDays_range t Ht). pose proof (toDays_range _ Pf').
  pose proof (opening_lt rule m (m + 1) Hw). pose proof (opening_grows rule (i + 1) (m + 1) Hw ltac:(lia)).
  pose proof (opening_grows rule m j Hw ltac:(lia)). lia.
Qed.

Lemma cycles_correct_witness :
  exists cs, cycles (EveryWeek 1) (Period "2026-01-01" (Some "2026-01-31"%string)) = Ok cs /\ length cs = 5%nat /\
    consecutive (EveryWeek 1) (index (EveryWeek 1) (toDays "2026-01-01")) cs /\
    forall c, c ∈ cs -> overlaps c (Period "2026-01-01" (Some "2026-01-31"%string)) = true.
Proof.
  apply (cycles_correct (EveryWeek 1) "2026-01-01" "2026-01-31"); vm_compute; intuition discriminate.
Defined.

Lemma businessDays_from_count (cal : WorkCalendar) (t : string) (l : list string) (fuel : nat) (d : string) (n : Z) :
  isPlainDate t = true -> toDays t < MAX_DAY -> isPlainDate d = true ->
  toDays t - toDays d + 1 = Z.of_nat (length l) -> (length l < fuel)%nat ->
  (forall (i : nat) x, l !! i = Some x -> isPlainDate x = true /\ toDays x = toDays d + Z.of_nat i) ->
  businessDays_from fuel cal t d n = Ok (n + Z.of_nat (length (filter (fun x => worked cal x = true) l))).
Proof.
  intros Pt Ht. revert fuel d n. induction l as [|x l IH]; intros fuel d n Pd Hl Hf Hx;
    (destruct fuel as [|fuel]; [lia|]); cbn [businessDays_from length] in *; rewrite leb_days by done.
  - rewrite (proj2 (Z.leb_gt _ _)) by lia. f_equal. cbn. lia.
  - rewrite (proj2 (Z.leb_le _ _)) by lia.
    destruct (Hx 0%nat x eq_refl) as [Px Dx]. assert (x = d) as -> by (apply toDays_inj; [done|done|lia]).
    pose proof (toDays_range d Pd). destruct (addDays_days d 1 Pd) as (d' & -> & Pd' & Dd'); [lia|].
    cbn [mbind outcome_bind]. rewrite (IH fuel d' _ Pd'); [|lia|lia|].
    + f_equal. rewrite filter_cons. destruct (worked cal d); [rewrite decide_True by done; cbn [length]; lia|].
      by rewrite decide_False.
    + intros i y Hy. destruct (Hx (S i) y Hy) as [Py Dy]. split; [done|lia].
Qed.

(** [businessDays] terminates and counts exactly the working days among the days [eachDay] lists, for every closed period
    that ends before 9999-12-31. *)
Theorem businessDays_correct (cal : WorkCalendar) (f t : string) (p := Period f (Some t))
    (Hp : wf_period p) (Ht : toDays t < MAX_DAY) :
  exists l, eachDay p = Ok l /\
    businessDays p cal = Ok (Z.of_nat (length (filter (fun d => worked cal d = true) l))).
Proof.
  pose proof Hp as [Pf [Pt Hft]]. unfold p in *. cbn [from to] in *. pose proof (toDays_range f Pf). pose proof (toDays_range t Pt).
  destruct (map_outcome_seq (fun i => fromDays (toDays f + i))
              (fun i d => isPlainDate d = true /\ toDays d = toDays f + i)
              (Z.to_nat (toDays t - toDays f + 1)) 0) as (l & El & Ll & Pl).
  { intros i Hi. apply fromDays_ok. lia. }
  exists l. split; [done|]. unfold businessDays. cbn [to from p].
  rewrite (businessDays_from_count cal t l); [f_equal; lia|done|done|done|lia|lia|exact Pl].
Qed.

(** ** Business hours. *)

(** A checked calendar: every day's hours are [start < end]. *)
Definition wf_calendar (cal : WorkCalendar) : Prop :=
  forall d h, week_hours cal d = Some h ->
    exists s e, minutes (hours_start h) = Ok s /\ minutes (hours_end h) = Ok e /\ s < e.

Lemma check_week_ok (hs : list (option Hours)) (u : unit) :
  check_week hs = Ok u ->
  forall h, Some h ∈ hs -> exists s e, minutes (hours_start h) = Ok s /\ minutes (hours_end h) = Ok e /\ s < e.
Proof.
  induction hs as [|[h|] hs IH]; intros H h' Hin.
  - by apply not_elem_of_nil in Hin.
  - cbn [check_week] in H. inv_outcome. bool_hyps. apply elem_of_cons in Hin as [E'|Hin]; [|by apply IH].
    injection E' as ->. eexists _, _. repeat split; [done|done|lia].
  - apply elem_of_cons in Hin as [E'|Hin]; [done|]. by apply IH.
Qed.

(** The working hours of day [d] after [ms], as milliseconds of the day. *)
Definition open_hours (cal : WorkCalendar) (d : string) (ms : Z) : option (Z * Z) :=
  match week_hours cal d with
  | None => None
  | Some h =>
      if bool_decide (d ∈ holidays cal) then None
      else match minutes (hours_start h), minutes (hours_end h) with
           | Ok s, Ok e => if Z.max (s * 60000) ms >=? e * 60000 then None else Some (Z.max (s * 60000) ms, e * 60000)
           | _, _ => None
           end
  end.
Definition open_ms (cal : WorkCalendar) (d : string) (ms : Z) : Z :=
  match open_hours cal d ms with None => 0 | Some (s, e) => e - s end.

Definition next_day (d : string) : string := match addDays d 1 with Ok s => s | Throw _ => d end.
Fixpoint nth_day (d : string) (k : nat) : string := match k with O => d | S k' => nth_day (next_day d) k' end.
(** The working milliseconds of the [k] days from [ms] into [d]. *)
Fixpoint worked_ms (cal : WorkCalendar) (d : string) (ms : Z) (k : nat) : Z :=
  match k with O => 0 | S k' => open_ms cal d ms + worked_ms cal (next_day d) 0 k' end.
Definition day_hours (cal : WorkCalendar) (d : string) (ms : Z) (k : nat) : option (Z * Z) :=
  open_hours cal (nth_day d k) (match k with O => ms | S _ => 0 end).

(** No day before the [k]-th has hours that reach [left]. *)
Definition not_before (cal : WorkCalendar) (d : string) (ms left : Z) (k : nat) : Prop :=
  forall j, (j < k)%nat -> is_Some (day_hours cal d ms j) -> worked_ms cal d ms (S j) < left.

Lemma not_before_S (cal : WorkCalendar) (d : string) (ms left : Z) (k : nat) :
  (is_Some (open_hours cal d ms) -> open_ms cal d ms < left) ->
  not_before cal (next_day d) 0 (left - open_ms cal d ms) k -> not_before cal d ms left (S k).
Proof.
  intros H0 H [|j] Hj Hs.
  - cbn [worked_ms]. specialize (H0 Hs). lia.
  - assert (is_Some (day_hours cal (next_day d) 0 j)) as Hs' by (unfold day_hours in *; by destruct j).
    pose proof (H j ltac:(lia) Hs') as Hlt. cbn [worked_ms] in *. lia.
Qed.

Section Hours.
Context (formatToParts : string -> Z -> Parts) (cal : WorkCalendar) (Hcal : wf_calendar cal).

(** One turn of the loop in terms of the day's open hours. *)
Lemma addBusiness_step (turns : nat) (d : string) (ms left : Z) :
  addBusiness_from formatToParts (S turns) cal d ms left =
  match open_hours cal d ms with
  | Some (s, e) =>
      if left <=? e - s then Ok (utcOf formatToParts d (s + left) (cal_zone cal))
      else next ← addDays d 1; addBusiness_from formatToParts turns cal next 0 (left - (e - s))
  | None => next ← addDays d 1; addBusiness_from formatToParts turns cal next 0 left
  end.
Proof.
  cbn [addBusiness_from]. unfold open_hours. destruct (week_hours cal d) as [h|] eqn:E; [|done].
  destruct (bool_decide (d ∈ holidays cal)); [done|].
  destruct (Hcal d h E) as (s & e & -> & -> & _). cbn [mbind outcome_bind].
  by destruct (Z.max (s * 60000) ms >=? e * 60000).
Qed.

Lemma open_hours_lt (d : string) (ms s e : Z) : open_hours cal d ms = Some (s, e) -> s < e.
Proof.
  unfold open_hours. intros H. repeat case_match; try done. bool_hyps. injection H as <- <-. lia.
Qed.

Lemma addBusiness_from_correct (turns : nat) (d : string) (ms left : Z) :
  isPlainDate d = true -> toDays d + Z.of_nat turns <= MAX_DAY -> 0 <= left ->
  match addBusiness_from formatToParts turns cal d ms left with
  | Ok u => exists k s e, (k < turns)%nat /\ not_before cal d ms left k /\ day_hours cal d ms k = Some (s, e) /\
              0 <= left - worked_ms cal d ms k <= e - s /\
              u = utcOf formatToParts (nth_day d k) (s + (left - worked_ms cal d ms k)) (cal_zone cal)
  | Throw _ => not_before cal d ms left turns
  end.
Proof.
  revert d ms left. induction turns as [|turns IH]; intros d ms left Pd Hr Hl.
  { intros j Hj. lia. }
  rewrite addBusiness_step. pose proof (toDays_range d Pd).
  destruct (addDays_days d 1 Pd) as (d' & Ed' & Pd' & Dd'); [lia|].
  assert (next_day d = d') as Hn by (unfold next_day; by rewrite Ed').
  assert (forall left', left' = left - open_ms cal d ms -> 0 <= left' ->
            (is_Some (open_hours cal d ms) -> open_ms cal d ms < left) ->
            match next ← addDays d 1; addBusiness_from formatToParts turns cal next 0 left' with
            | Ok u => exists k s e, (k < S turns)%nat /\ not_before cal d ms left k /\ day_hours cal d ms k = Some (s, e) /\
                        0 <= left - worked_ms cal d ms k <= e - s /\
                        u = utcOf formatToParts (nth_day d k) (s + (left - worked_ms cal d ms k)) (cal_zone cal)
            | Throw _ => not_before cal d ms left (S turns)
            end) as Go.
  { intros left' -> Hl' H0. rewrite Ed'. cbn [mbind outcome_bind].
    pose proof (IH d' 0 (left - open_ms cal d ms) Pd' ltac:(lia) Hl') as R.
    destruct (addBusiness_from formatToParts turns cal d' 0 _) as [u|].
    - destruct R as (k & s & e & Hk & Hb & Hd & Hw & Hu). exists (S k), s, e. split; [lia|].
      split; [apply not_before_S; [done|by rewrite Hn]|].
      split; [unfold day_hours in *; cbn [nth_day]; rewrite Hn; by destruct k|].
      cbn [worked_ms nth_day]. rewrite Hn. replace (left - (open_ms cal d ms + worked_ms cal d' 0 k))
        with (left - open_ms cal d ms - worked_ms cal d' 0 k) by lia. done.
    - apply not_before_S; [done|by rewrite Hn]. }
  destruct (open_hours cal d ms) as [[s e]|] eqn:E.
  - pose proof (open_hours_lt d ms s e E). assert (open_ms cal d ms = e - s) as Eo by (unfold open_ms; by rewrite E).
    destruct (left <=? e - s) eqn:El; bool_hyps.
    + exists 0%nat, s, e. split; [lia|]. split; [intros j Hj; lia|]. split; [done|]. cbn [worked_ms nth_day].
      rewrite Z.sub_0_r. split; [lia|done].
    + apply Go; lia.
  - apply Go; [unfold open_ms; rewrite E; lia|lia|]. by intros [].
Qed.

End Hours.

(** The milliseconds to work: the hours times 3 600 000, rounded half away from zero. *)
Definition hours_ms (hours : Decimal.t) : Z :=
  if Decimal.scale hours <=? 0 then Decimal.coeff hours * 3600000 * 10 ^ (- Decimal.scale hours)
  else Decimal.divRound (Decimal.coeff hours * 3600000) (10 ^ Decimal.scale hours) Decimal.halfUp.

(** [addBusinessHours] on a checked calendar counts exactly the asked working time: the due time is on the first day whose
    hours reach it, the working milliseconds of the days before plus the time into that day's hours are the milliseconds
    asked, and it gives up only when none of the 3660 days' hours reach it. *)
Theorem addBusinessHours_correct (formatToParts : string -> Z -> Parts) (cal : WorkCalendar) (from_ms : Z)
    (hours : Decimal.t) (l := localOf formatToParts from_ms (cal_zone cal))
    (Hcal : wf_calendar cal) (Hh : Decimal.wf hours) (Hpos : 0 <= Decimal.coeff hours)
    (Hd : isPlainDate (date l) = true) (Hr : toDays (date l) + 3660 <= MAX_DAY) :
  let left := hours_ms hours in
  match addBusinessHours formatToParts from_ms hours cal with
  | Ok u => exists k s e, (k < 3660)%nat /\ not_before cal (date l) (msOfDay l) left k /\
              day_hours cal (date l) (msOfDay l) k = Some (s, e) /\
              0 <= left - worked_ms cal (date l) (msOfDay l) k <= e - s /\
              u = utcOf formatToParts (nth_day (date l) k) (s + (left - worked_ms cal (date l) (msOfDay l) k)) (cal_zone cal)
  | Throw _ => not_before cal (date l) (msOfDay l) left 3660
  end.
Proof.
  intros left. unfold Decimal.wf in Hh.
  assert (0 <= left) as Hleft.
  { unfold left, hours_ms. destruct (Decimal.scale hours <=? 0); [nia|].
    pose proof (Decimal.divRound_rounds Decimal.halfUp (Decimal.coeff hours * 3600000) (10 ^ Decimal.scale hours)) as R.
    assert (0 < 10 ^ Decimal.scale hours) as Hp by (by apply Z.pow_pos_nonneg). cbn [Decimal.rounds] in R. nia. }
  unfold addBusinessHours, Decimal.times. cbn [Decimal.of_like num_int num_of_Z]. cbn [is_safe_integer].
  change (is_safe_integer 3600000) with true. cbv iota. cbn [mbind outcome_bind Decimal.coeff Decimal.scale].
  unfold Decimal.round. cbn [num_int num_of_Z Decimal.scale Decimal.coeff]. change (0 <? 0) with false. cbv iota.
  assert (exists z, (if 0 >=? Decimal.scale hours + 0
                     then Ok (Decimal.mk (Decimal.at_scale (Decimal.mk (Decimal.coeff hours * 3600000) (Decimal.scale hours + 0)) 0) 0)
                     else Ok (Decimal.mk (Decimal.divRound (Decimal.coeff hours * 3600000)
                            (Decimal.pow10 (Decimal.scale hours + 0 - 0)) Decimal.halfUp) 0)) = Ok z /\ Decimal.coeff z = left) as (z & -> & Ez).
  { rewrite Z.geb_leb, Z.add_0_r, Z.sub_0_r. unfold left, hours_ms, Decimal.at_scale, Decimal.pow10. cbn [Decimal.coeff Decimal.scale].
    destruct (Decimal.scale hours <=? 0); eexists; (split; [done|]); cbn [Decimal.coeff]; [|done]. by rewrite Z.sub_0_l. }
  cbn [mbind outcome_bind]. rewrite Ez, (proj2 (Z.ltb_ge left 0)) by lia. fold l.
  by apply addBusiness_from_correct.
Qed.

(** A calendar with Monday to Friday hours 09:00 to 18:00 and one holiday. *)
Definition office : WorkCalendar :=
  let nine := Some (MkHours "09:00" "18:00") in
  MkCalendar "UTC" [nine; nine; nine; nine; nine; None; None] ["2026-01-01"%string].
Definition utc_parts (zone : string) (t : Z) : Parts := wall_parts t.

Lemma office_wf : wf_calendar office.
Proof.
  intros d h H. unfold week_hours, office in H. cbn [week] in H.
  assert (h = MkHours "09:00" "18:00") as ->.
  { destruct (Z.to_nat (weekday_of d - 1)) as [|[|[|[|[|[|[|n]]]]]]]; cbn in H; try discriminate H; by injection H. }
  exists 540, 1080. split; [reflexivity|]. split; [reflexivity|lia].
Qed.

Lemma businessDays_correct_witness :
  exists l, eachDay (Period "2025-12-29" (Some "2026-01-04"%string)) = Ok l /\
    businessDays (Period "2025-12-29" (Some "2026-01-04"%string)) office =
      Ok (Z.of_nat (length (filter (fun d => worked office d = true) l))).
Proof. apply (businessDays_correct office); vm_compute; intuition discriminate. Defined.

Lemma addBusinessHours_correct_witness :
  match addBusinessHours utc_parts 1767196800000 (Decimal.mk 25 1) office with
  | Ok u => exists k s e, (k < 3660)%nat /\ not_before office "2025-12-31" 57600000 9000000 k /\
              day_hours office "2025-12-31" 57600000 k = Some (s, e) /\
              0 <= 9000000 - worked_ms office "2025-12-31" 57600000 k <= e - s /\
              u = utcOf utc_parts (nth_day "2025-12-31" k) (s + (9000000 - worked_ms office "2025-12-31" 57600000 k)) "UTC"
  | Throw _ => not_before office "2025-12-31" 57600000 9000000 3660
  end.
Proof.
  assert (localOf utc_parts 1767196800000 "UTC" = MkLocal "2025-12-31" 57600000) as E by (vm_compute; reflexivity).
  pose proof (addBusinessHours_correct utc_parts office 1767196800000 (Decimal.mk 25 1) office_wf) as H.
  change (cal_zone office) with "UTC"%string in H. rewrite E in H. apply H; vm_compute; intuition discriminate.
Defined.
End Calendar.
