(* ===== verification/Csv.v ===== *)
(** RFC 4180 CSV: [packages/std/src/csv.ts]. The reader is the code's loop over the text with its state as a record; the
    writer quotes as the code does; the round trip theorem relates the two. The byte decoders of [TextDecoder] are
    arguments. *)
From S2P Require Import Prelude.

Module Csv.

(** ** Reading. *)

(** The variables of the loop: finished rows, the open row, the open cell, inside quotes, and where the open row starts. *)
Record State := MkState { rows : list (list string); row : list string; cell : string; quoted : bool; rowStart : Z }.

Definition snoc (s : string) (c : ascii) : string := s +:+ String c EmptyString.
Definition add_char (c : ascii) (st : State) : State :=
  MkState (rows st) (row st) (snoc (cell st) c) (quoted st) (rowStart st).
Definition set_quoted (q : bool) (st : State) : State := MkState (rows st) (row st) (cell st) q (rowStart st).
Definition end_cell (st : State) : State :=
  MkState (rows st) (row st ++ [cell st]) EmptyString (quoted st) (rowStart st).
(** [row.push(cell); rows.push(row); row = []; cell = ''; rowStart = start]. *)
Definition end_row (start : Z) (st : State) : State :=
  MkState (rows st ++ [row st ++ [cell st]]) [] EmptyString (quoted st) start.

Definition starts_with (c : ascii) (s : string) : bool :=
  match s with String x _ => Ascii.eqb x c | EmptyString => false end.

(** The loop at index [i], with [s] the text from [i] on. *)
Fixpoint csv_loop (delimiter : ascii) (s : string) (i : Z) (st : State) : State :=
  match s with
  | EmptyString => st
  | String ch s' =>
      if quoted st then
        if Ascii.eqb ch QUOTE then
          match s' with
          | String c2 s'' =>
              if Ascii.eqb c2 QUOTE then csv_loop delimiter s'' (i + 2) (add_char QUOTE st)
              else csv_loop delimiter s' (i + 1) (set_quoted false st)
          | EmptyString => csv_loop delimiter s' (i + 1) (set_quoted false st)
          end
        else csv_loop delimiter s' (i + 1) (add_char ch st)
      else if Ascii.eqb ch QUOTE then csv_loop delimiter s' (i + 1) (set_quoted true st)
      else if Ascii.eqb ch delimiter then csv_loop delimiter s' (i + 1) (end_cell st)
      else if Ascii.eqb ch LF || Ascii.eqb ch CR then
        match s' with
        | String c2 s'' =>
            if Ascii.eqb ch CR && Ascii.eqb c2 LF then csv_loop delimiter s'' (i + 2) (end_row (i + 2) st)
            else csv_loop delimiter s' (i + 1) (end_row (i + 1) st)
        | EmptyString => csv_loop delimiter s' (i + 1) (end_row (i + 1) st)
        end
      else csv_loop delimiter s' (i + 1) (add_char ch st)
  end.

Definition finish (length : Z) (st : State) : list (list string) :=
  if rowStart st <? length then rows st ++ [row st ++ [cell st]] else rows st.

Definition csvRows (text : string) (delimiter : ascii) : list (list string) :=
  finish (slength text) (csv_loop delimiter text 0 (MkState [] [] EmptyString false 0)).

(** ** The delimiter of a text. *)

Definition DELIMITERS : list ascii := [","; ";"; chr 9; "|"]%char.

(** The characters of the header line outside quotes: up to the first line break outside quotes. *)
Fixpoint header_chars (s : string) (q : bool) : list ascii :=
  match s with
  | EmptyString => []
  | String ch s' =>
      if Ascii.eqb ch QUOTE then header_chars s' (negb q)
      else if q then header_chars s' q
      else if Ascii.eqb ch LF || Ascii.eqb ch CR then []
      else ch :: header_chars s' q
  end.

(** The [counts] map of the characters read. *)
Definition count_chars (cs : list ascii) : gmap ascii Z :=
  foldl (fun m ch => <[ch := default 0 (m !! ch) + 1]> m) ∅ cs.

Definition pick_best (counts : gmap ascii Z) (best d : ascii) : ascii :=
  if default 0 (counts !! d) >? default 0 (counts !! best) then d else best.

Definition csvDelimiter (text : string) : ascii :=
  foldl (pick_best (count_chars (header_chars text false))) ","%char DELIMITERS.

(** ** Bytes to text. *)
Section CsvText.
(** [new TextDecoder(encoding).decode(bytes)], and the fatal UTF-8 decoder, which throws on invalid bytes. *)
Context (decode : string -> list Z -> string) (decode_fatal : list Z -> option string).

Definition csvText (bytes : list Z) : string :=
  match bytes with
  | 239 :: 187 :: 191 :: rest => decode "utf-8" rest
  | 255 :: 254 :: rest => decode "utf-16le" rest
  | 254 :: 255 :: rest => decode "utf-16be" rest
  | _ => match decode_fatal bytes with Some s => s | None => decode "windows-1252" bytes end
  end.
End CsvText.

(** ** Writing. *)

(** A cell's value; a number is its text. *)
Inductive Value := VText (s : string) | VNumber (v : jsnumber) | VBool (b : bool) | VNull.

Definition value_text (v : Value) : string :=
  match v with
  | VText s => s
  | VNumber n => num_text n
  | VBool b => if b then "true" else "false"
  | VNull => EmptyString
  end.

(** [s.replaceAll] of each quote by two. *)
Fixpoint double_quotes (s : string) : string :=
  match s with
  | EmptyString => EmptyString
  | String c s' => if Ascii.eqb c QUOTE then String QUOTE (String QUOTE (double_quotes s')) else String c (double_quotes s')
  end.

Definition needs_quotes (delimiter : ascii) (s : string) : bool :=
  has_char (fun c => Ascii.eqb c delimiter || (Ascii.eqb c QUOTE || Ascii.eqb c CR || Ascii.eqb c LF)) s.

Definition write_cell (delimiter : ascii) (s : string) : string :=
  if needs_quotes delimiter s then String QUOTE (double_quotes s +:+ String QUOTE EmptyString) else s.

Definition CRLF : string := String CR (String LF EmptyString).

Definition csvOf (rs : list (list Value)) (delimiter : ascii) : string :=
  join CRLF (map (fun r => join (String delimiter EmptyString) (map (fun v => write_cell delimiter (value_text v)) r)) rs).

(** ** Reading what was written. *)

Definition plain (delimiter : ascii) (c : ascii) : bool :=
  negb (Ascii.eqb c delimiter || (Ascii.eqb c QUOTE || Ascii.eqb c CR || Ascii.eqb c LF)).

Lemma snoc_append (a : string) (c : ascii) (b : string) : snoc a c +:+ b = a +:+ String c b.
Proof. unfold snoc. by rewrite append_assoc_s. Qed.

(** Inside quotes, a doubled text is read back, up to the closing quote. *)
Lemma loop_quoted (d : ascii) (s rest : string) (i : Z) (st : State) :
  quoted st = true -> starts_with QUOTE rest = false ->
  csv_loop d (double_quotes s +:+ String QUOTE rest) i st =
  csv_loop d rest (i + slength (double_quotes s) + 1)
    (MkState (rows st) (row st) (cell st +:+ s) false (rowStart st)).
Proof.
  revert i st. induction s as [|c s IH]; intros i st Hq Hr.
  - cbn [double_quotes]. change ("" +:+ ?r) with r. cbn [csv_loop]. rewrite Hq, Ascii.eqb_refl, append_nil_r.
    change (slength "") with 0. rewrite Z.add_0_r. destruct rest as [|c2 r]; [done|].
    cbn [starts_with] in Hr. by rewrite Hr.
  - cbn [double_quotes]. destruct (Ascii.eqb c QUOTE) eqn:E.
    + apply Ascii.eqb_eq in E as ->. rewrite !append_cons. cbn [csv_loop]. rewrite Hq, !Ascii.eqb_refl.
      rewrite IH by done. unfold add_char. cbn [rows row cell rowStart]. rewrite snoc_append, !slength_cons. f_equal. lia.
    + rewrite append_cons. cbn [csv_loop]. rewrite Hq, E. rewrite IH by done. unfold add_char.
      cbn [rows row cell rowStart]. rewrite snoc_append, slength_cons. f_equal. lia.
Qed.

Lemma loop_plain (d : ascii) (s rest : string) (i : Z) (st : State) :
  quoted st = false -> all_chars (plain d) s = true ->
  csv_loop d (s +:+ rest) i st =
  csv_loop d rest (i + slength s) (MkState (rows st) (row st) (cell st +:+ s) false (rowStart st)).
Proof.
  revert i st. induction s as [|c s IH]; intros i st Hq Hs.
  - rewrite append_nil_r. change ("" +:+ rest) with rest. change (slength "") with 0. rewrite Z.add_0_r, <- Hq.
    by destruct st.
  - cbn [all_chars] in Hs. apply andb_true_iff in Hs as [Hc Hs]. unfold plain in Hc.
    apply negb_true_iff, orb_false_iff in Hc as [Hd Hc]. apply orb_false_iff in Hc as [Hc Hl].
    apply orb_false_iff in Hc as [Hqc Hcr].
    rewrite append_cons. cbn [csv_loop]. rewrite Hq, Hqc, Hd, Hl, Hcr. cbn [orb]. rewrite IH by done.
    unfold add_char. cbn [rows row cell rowStart]. rewrite snoc_append, slength_cons. f_equal. lia.
Qed.

(** A written cell is read back whole, whatever follows it. *)
Lemma loop_cell (d : ascii) (s rest : string) (i : Z) (rs : list (list string)) (r : list string) (start : Z) :
  starts_with QUOTE rest = false ->
  csv_loop d (write_cell d s +:+ rest) i (MkState rs r EmptyString false start) =
  csv_loop d rest (i + slength (write_cell d s)) (MkState rs r s false start).
Proof.
  intros Hr. unfold write_cell. destruct (needs_quotes d s) eqn:E.
  - rewrite append_cons, append_assoc_s. cbn [csv_loop quoted]. rewrite Ascii.eqb_refl.
    change (String QUOTE "" +:+ rest) with (String QUOTE rest). rewrite loop_quoted by done.
    rewrite slength_cons, slength_append, slength_cons. change (slength "") with 0.
    unfold set_quoted. cbn [rows row cell rowStart]. f_equal. lia.
  - rewrite loop_plain; [done|done|].
    unfold needs_quotes in E. rewrite has_char_all in E. by apply negb_false_iff in E.
Qed.

(** A delimiter that the reader can tell from quotes and line breaks. *)
Definition good_delimiter (d : ascii) : Prop := d <> QUOTE /\ d <> CR /\ d <> LF.

Definition line (d : ascii) (r : list string) : string := join (String d EmptyString) (map (write_cell d) r).

Lemma loop_row (d : ascii) (c : string) (cs : list string) (rest : string) (i : Z) (rs : list (list string))
    (r : list string) (start : Z) :
  good_delimiter d -> starts_with QUOTE rest = false ->
  exists r' last, r' ++ [last] = c :: cs /\
    csv_loop d (line d (c :: cs) +:+ rest) i (MkState rs r EmptyString false start) =
    csv_loop d rest (i + slength (line d (c :: cs))) (MkState rs (r ++ r') last false start).
Proof.
  intros Hd Hr. revert c i r. induction cs as [|c2 cs IH]; intros c i r.
  - exists [], c. split; [done|]. unfold line. cbn [map join]. by rewrite loop_cell, app_nil_r.
  - destruct (IH c2 (i + slength (write_cell d c) + 1) (r ++ [c])) as (r' & last & El & Hloop).
    exists (c :: r'), last. split; [by rewrite <- El|].
    assert (line d (c :: c2 :: cs) = write_cell d c +:+ String d (line d (c2 :: cs))) as -> by done.
    rewrite append_assoc_s, append_cons, loop_cell.
    + cbn [csv_loop quoted]. destruct Hd as (Hq & _). rewrite (proj2 (Ascii.eqb_neq d QUOTE) Hq), Ascii.eqb_refl.
      unfold end_cell. cbn [rows row cell quoted rowStart]. rewrite Hloop, slength_append, slength_cons, <- app_assoc.
      cbn [app]. f_equal. lia.
    + cbn. destruct Hd as (Hq & _). by apply Ascii.eqb_neq.
Qed.

(** The only row written as an empty line. *)
Lemma line_empty (d : ascii) (c : string) (cs : list string) : slength (line d (c :: cs)) = 0 -> c :: cs = [EmptyString].
Proof.
  unfold line. destruct cs as [|c2 cs]; cbn [map join].
  - unfold write_cell. destruct (needs_quotes d c); [rewrite slength_cons; pose proof (slength_nonneg (double_quotes c +:+ String QUOTE "")); intros; lia|].
    destruct c; [done|]. rewrite slength_cons. pose proof (slength_nonneg c). intros; lia.
  - rewrite !slength_append. change (slength (String d EmptyString)) with 1.
    pose proof (slength_nonneg (write_cell d c)). intros H0. match type of H0 with _ + (1 + slength ?t) = 0 => pose proof (slength_nonneg t) end. lia.
Qed.

Definition last_row_visible (rs : list (list string)) : Prop := last rs <> Some [EmptyString].

Lemma loop_rows (d : ascii) (rs : list (list string)) (acc : list (list string)) (i : Z) (text := join CRLF (map (line d) rs)) :
  good_delimiter d -> Forall (fun r => r <> []) rs -> rs <> [] -> last_row_visible rs ->
  finish (i + slength text) (csv_loop d text i (MkState acc [] EmptyString false i)) = acc ++ rs.
Proof.
  intros Hd. subst text. revert acc i. induction rs as [|r rs IH]; intros acc i Hne Hn Hl; [done|].
  apply Forall_cons in Hne as [Hr Hne]. destruct r as [|c cs]; [done|]. destruct rs as [|r2 rs].
  - cbn [map join]. rewrite <- (append_nil_r (line d (c :: cs))) at 2.
    destruct (loop_row d c cs EmptyString i acc [] i Hd eq_refl) as (r' & lastc & El & ->).
    cbn [csv_loop finish rowStart rows row cell]. unfold finish. cbn [rowStart rows row cell].
    rewrite (proj2 (Z.ltb_lt _ _)); [by rewrite <- El|].
    destruct (Z.eq_dec (slength (line d (c :: cs))) 0) as [E0|]; [|pose proof (slength_nonneg (line d (c :: cs))); lia].
    apply line_empty in E0. exfalso. apply Hl. unfold last_row_visible. by rewrite E0.
  - change (join CRLF (map (line d) ((c :: cs) :: r2 :: rs)))
      with (line d (c :: cs) +:+ CRLF +:+ join CRLF (map (line d) (r2 :: rs))).
    destruct (loop_row d c cs (CRLF +:+ join CRLF (map (line d) (r2 :: rs))) i acc [] i Hd eq_refl) as (r' & lastc & El & ->).
    unfold CRLF. rewrite !append_cons. cbn [csv_loop quoted]. destruct Hd as (Hq & Hcr & Hlf).
    rewrite (proj2 (Ascii.eqb_neq CR d)) by congruence. change (Ascii.eqb CR QUOTE) with false.
    change (Ascii.eqb CR LF || Ascii.eqb CR CR) with true. change (Ascii.eqb CR CR && Ascii.eqb LF LF) with true. cbv iota.
    change ("" +:+ ?x) with x. unfold end_row. cbn [rows row cell quoted]. rewrite app_nil_l, El.
    specialize (IH (acc ++ [c :: cs]) (i + slength (line d (c :: cs)) + 2) Hne ltac:(done) Hl).
    rewrite !slength_append, !slength_cons. fold CRLF in *. rewrite <- app_assoc in IH. cbn [app] in IH.
    rewrite <- IH. f_equal. lia.
Qed.

(** ** Theorems. *)

(** Reading back a written table gives its texts: [csvRows(csvOf(rows))] is the rows' cells as texts, for every delimiter
    that is not a quote or a line break and every table of rows with at least one cell whose last row is not one empty
    cell (that row is written as nothing after the last line break, which adds no row). *)
Theorem csv_roundtrip (d : ascii) (rs : list (list Value)) (texts := map (map value_text) rs)
    (Hd : good_delimiter d) (Hne : Forall (fun r => r <> []) rs) (Hl : last_row_visible texts) :
  csvRows (csvOf rs d) d = texts.
Proof.
  assert (csvOf rs d = join CRLF (map (line d) texts)) as E.
  { unfold csvOf, texts, line. f_equal. rewrite map_map. apply map_ext. intros r. by rewrite map_map. }
  unfold csvRows. rewrite E. destruct (decide (texts = [])) as [->|Hn]; [done|].
  rewrite <- (Z.add_0_l (slength _)). rewrite loop_rows; [done|done| |done|done].
  unfold texts. apply Forall_forall. intros r Hr. apply list_elem_of_fmap in Hr as (r0 & -> & Hr0).
  rewrite Forall_forall in Hne. specialize (Hne r0 Hr0). by destruct r0.
Qed.

Definition sample : list (list Value) :=
  [[VText "name"; VText ("a " +:+ String QUOTE ("quoted" +:+ String QUOTE ", cell")); VNull]; [VNumber (num_of_Z (-12)); VBool true; VText (String LF "x")]]%string.
Lemma csv_roundtrip_witness : csvRows (csvOf sample ",") "," = map (map value_text) sample.
Proof. apply (csv_roundtrip "," sample); [done| |done]. repeat constructor; done. Defined.

Lemma count_chars_spec (cs : list ascii) (ch : ascii) :
  default 0 (count_chars cs !! ch) = Z.of_nat (length (filter (fun x => x = ch) cs)).
Proof.
  unfold count_chars.
  assert (forall m, default 0 (foldl (fun m ch => <[ch := default 0 (m !! ch) + 1]> m) m cs !! ch) =
            default 0 ((m : gmap ascii Z) !! ch) + Z.of_nat (length (filter (fun x => x = ch) cs))) as H.
  { induction cs as [|c cs IH]; intros m; cbn [foldl]; [cbn; lia|].
    rewrite IH, filter_cons. destruct (decide (c = ch)) as [->|Hne].
    - rewrite lookup_insert_eq. cbn [default length]. cbn. lia.
    - by rewrite lookup_insert_ne. }
  rewrite H, lookup_empty. done.
Qed.

(** The scan of the candidates ends at one with the largest count. *)
Lemma pick_best_max (m : gmap ascii Z) (ds : list ascii) (b0 : ascii) :
  let f := fun d => default 0 (m !! d) in
  let b := foldl (pick_best m) b0 ds in
  (b = b0 \/ b ∈ ds) /\ f b0 <= f b /\ (forall d, d ∈ ds -> f d <= f b) /\
  ((forall d, d ∈ ds -> f d <= f b0) -> b = b0).
Proof.
  cbv zeta. revert b0. induction ds as [|d ds IH]; intros b0; cbn [foldl].
  - repeat split; [by left|lia|]. intros d Hd. by apply elem_of_nil in Hd.
  - destruct (IH (pick_best m b0 d)) as (H1 & H2 & H3 & H4). unfold pick_best in *.
    destruct (default 0 (m !! d) >? default 0 (m !! b0)) eqn:E; bool_hyps.
    + repeat split; [right; set_solver|lia| |].
      * intros x [->|Hx]%elem_of_cons; [lia|by apply H3].
      * intros Hall. specialize (Hall d ltac:(set_solver)). lia.
    + repeat split; [set_solver|lia| |].
      * intros x [->|Hx]%elem_of_cons; [lia|by apply H3].
      * intros Hall. apply H4. set_solver.
Qed.

(** [csvDelimiter] picks, among comma, semicolon, tab and bar, one its header line holds most often outside quotes, and
    the comma when the header holds none of them. *)
Theorem csvDelimiter_correct (text : string) :
  let n := fun d => length (filter (fun x => x = d) (header_chars text false)) in
  let best := csvDelimiter text in
  best ∈ DELIMITERS /\ (forall d, d ∈ DELIMITERS -> (n d <= n best)%nat) /\
  ((forall d, d ∈ DELIMITERS -> n d = 0%nat) -> best = ","%char).
Proof.
  intros n best. destruct (pick_best_max (count_chars (header_chars text false)) DELIMITERS ","%char) as (H1 & _ & H3 & H4).
  assert (forall d, default 0 (count_chars (header_chars text false) !! d) = Z.of_nat (n d)) as Hm by (intros d; apply count_chars_spec).
  setoid_rewrite Hm in H3. setoid_rewrite Hm in H4. fold (csvDelimiter text) in *. fold best in H1, H3, H4.
  split; [|split].
  - destruct H1 as [->|]; [|done]. by apply elem_of_cons; left.
  - intros d Hd. specialize (H3 d Hd). lia.
  - intros H0. apply H4. intros d Hd. rewrite (H0 d Hd). lia.
Qed.

End Csv.
