(* ===== verification/Ir.v ===== *)
(** Values and the read IR: the JSON value type ([packages/std/src/wire.ts]), JavaScript numbers as rationals with the
    rounding of binary64, and the predicate and projection types of [packages/store/src/ir.ts]. *)
From Stdlib Require Export QArith.
From S2P Require Import Prelude.
Open Scope Z_scope.

(** ** JavaScript numbers.

    A finite number is the rational it denotes. [fl] rounds a rational to the nearest binary64 value, ties to even: what
    [Number(text)] and every arithmetic operator do with the exact result. The largest finite magnitude is not modelled,
    so neither are infinities; [NaN] is written where the code produces it. *)

Definition number := Q.

(** The quotient [n / d] of non-negative [n] rounded to an integer, ties to even. *)
Definition round_even (n d : Z) : Z :=
  let q := n / d in
  let r := 2 * (n mod d) in
  if r <? d then q else if d <? r then q + 1 else if Z.even q then q else q + 1.

(** The rational [m * 2^e]. *)
Definition scale2 (m e : Z) : Q := if e <? 0 then Qmake m (Z.to_pos (2 ^ (- e))) else inject_Z (m * 2 ^ e).

(** The exponent of the last significant bit of binary64 for [n / d > 0]. *)
Definition ulp_exp (n d : Z) : Z :=
  let l := Z.log2 n - Z.log2 d in
  let l := if (if l <? 0 then n * 2 ^ (- l) <? d else n <? d * 2 ^ l) then l - 1 else l in
  Z.max (-1074) (l - 52).

Definition fl (q : Q) : number :=
  let n := Z.abs (Qnum q) in
  let d := Zpos (Qden q) in
  if n =? 0 then 0%Q
  else
    let e := ulp_exp n d in
    let m := if e <? 0 then round_even (n * 2 ^ (- e)) d else round_even n (d * 2 ^ e) in
    Qred (scale2 (Z.sgn (Qnum q) * m) e).

Definition num_of_int (n : Z) : number := inject_Z n.

(** ** JSON. *)

Inductive Json :=
| JNull
| JBool (b : bool)
| JNumber (n : number)
| JString (s : string)
| JArray (l : list Json)
| JObject (o : list (string * Json)).

Section JsonInd.
Variable P : Json -> Prop.
Hypothesis Hnull : P JNull.
Hypothesis Hbool : forall b, P (JBool b).
Hypothesis Hnum : forall n, P (JNumber n).
Hypothesis Hstr : forall s, P (JString s).
Hypothesis Harr : forall l, Forall P l -> P (JArray l).
Hypothesis Hobj : forall o, Forall (fun kv => P (snd kv)) o -> P (JObject o).

(** Induction that reaches the elements of arrays and the members of objects. *)
Fixpoint Json_nested (j : Json) : P j :=
  match j with
  | JNull => Hnull
  | JBool b => Hbool b
  | JNumber n => Hnum n
  | JString s => Hstr s
  | JArray l =>
      Harr l ((fix go l := match l return Forall P l with
               | [] => Forall_nil_2 P
               | x :: l' => Forall_cons_2 P x l' (Json_nested x) (go l')
               end) l)
  | JObject o =>
      Hobj o ((fix go o := match o return Forall (fun kv => P (snd kv)) o with
               | [] => Forall_nil_2 _
               | kv :: o' => Forall_cons_2 (fun kv => P (snd kv)) kv o' (Json_nested (snd kv)) (go o')
               end) o)
  end.
End JsonInd.

(** Structural equality of values in canonical form. *)
Fixpoint json_eqb (a b : Json) : bool :=
  match a, b with
  | JNull, JNull => true
  | JBool x, JBool y => Bool.eqb x y
  | JNumber x, JNumber y => (Qnum x =? Qnum y) && (Qden x =? Qden y)%positive
  | JString x, JString y => String.eqb x y
  | JArray l, JArray m =>
      (fix go l m := match l, m with [], [] => true | x :: l, y :: m => json_eqb x y && go l m | _, _ => false end) l m
  | JObject o, JObject p =>
      (fix go o p := match o, p with
         | [], [] => true | (k, x) :: o, (k', y) :: p => String.eqb k k' && json_eqb x y && go o p | _, _ => false end) o p
  | _, _ => false
  end.
Lemma json_eqb_eq (a b : Json) : json_eqb a b = true -> a = b.
Proof.
  revert b. induction a as [|x|x|x|l IH|o IH] using Json_nested; intros [|y|y|y|m|p]; cbn [json_eqb]; try done.
  - by intros ->%Bool.eqb_prop.
  - destruct x, y; cbn. intros [->%Z.eqb_eq ->%Pos.eqb_eq]%andb_true_iff. done.
  - by intros ->%String.eqb_eq.
  - intros H. f_equal. revert m H. induction IH as [|x l Hx _ IHl]; intros [|y m] H; try done. apply andb_true_iff in H as [H1 H2].
    f_equal; [by apply Hx|by apply IHl].
  - intros H. f_equal. revert p H. induction IH as [|[k x] o Hx _ IHo]; intros [|[k' y] p] H; try done.
    apply andb_true_iff in H as [H1 H2]. apply andb_true_iff in H1 as [->%String.eqb_eq H1]. f_equal; [cbn [snd] in Hx; by rewrite (Hx y H1)|by apply IHo].
Qed.

(** [a === b] of two JSON values: scalars by value, arrays and objects (distinct references) never. *)
Definition json_is (a b : Json) : bool :=
  match a, b with
  | JNull, JNull => true
  | JBool x, JBool y => Bool.eqb x y
  | JNumber x, JNumber y => Qeq_bool x y
  | JString x, JString y => String.eqb x y
  | _, _ => false
  end.

(** ** The predicate IR. *)

Record Point := MkPoint { lat : number; lng : number }.
Inductive Shape :=
| Polygon (ps : list Point)
| Bbox (a b : Point).

(** An operand resolved when the predicate runs: a field of the same row, or a requestor variable's expression. *)
Inductive Operand :=
| Field (field : string)
| Var (text : string).
(** A value position: a literal in wire form, or an operand. *)
Inductive Arg :=
| Lit (value : Json)
| Op (o : Operand).
(** The argument of [in]: a literal list, an operand, or a field of an earlier member of a keyed read. *)
Inductive InArgs :=
| Args (l : list Json)
| ArgOp (o : Operand)
| Member (member field : string).

Inductive Cmp := CEq | CNe | CLt | CLte | CGt | CGte.
Inductive PathTest :=
| PtCmp (op : Cmp) (arg : Json)
| PtLike (arg : Json)
| PtIn (args : list Json) (negated : bool)
| PtNull (is_ : bool)
| PtContains (arg : Json)
| PtIsEmpty (is_ : bool).
Inductive TextMode := Folded | Digits.
Inductive ListOp := LHas | LHasAny | LHasAll | LIsEmpty.
Inductive PeriodOp := POverlaps | PWithin | PStartsWithin | PEndsWithin.
Inductive Quantifier := QSome | QNone | QEvery.
Inductive AggFn := FSum | FMin | FMax | FAvg.

#[export] Instance Cmp_eq_dec : EqDecision Cmp. Proof. solve_decision. Defined.
#[export] Instance PeriodOp_eq_dec : EqDecision PeriodOp. Proof. solve_decision. Defined.

(** The normalized [Where]. *)
Inductive Pred :=
| PConst (value : bool)
| PAnd (ps : list Pred)
| POr (ps : list Pred)
| PNot (p : Pred)
| PCmp (field : string) (op : Cmp) (arg : Arg)
| PLike (field pattern : string)
| PText (field : string) (mode : TextMode) (value : string)
| PAge (field : string) (seconds : number)
| PIn (field : string) (negated : bool) (args : InArgs)
| PNull (field : string) (is_ : bool)
| PList (field : string) (op : ListOp) (arg : Json)
| PPeriodContains (field : string) (arg : Arg)
| PPeriod (field : string) (op : PeriodOp) (lo hi : Arg)
| PGeo (field : string) (near : option (Point * number)) (within : option Shape)
| POne (rel target : string) (pred : Pred)
| PMany (rel target : string) (q : Quantifier) (pred : Pred)
| PCount (rel target : string) (op : Cmp) (n : number)
| PAgg (rel target : string) (fn : AggFn) (field : string) (op : Cmp) (arg : Json)
| PPath (field : string) (path : list string) (pg : string) (test : PathTest)
| PEach (field : string) (path : list string) (q : Quantifier) (pred : Pred)
| PJsonContains (field : string) (contains : Json)
| PJsonIsEmpty (field : string) (isEmpty : bool)
| PSearch (text : string) (via : option (list string))
| PSimilar (to : string) (top : number) (vector : option (list number)).

Section PredInd.
Variable P : Pred -> Prop.
Hypothesis Hconst : forall b, P (PConst b).
Hypothesis Hand : forall l, Forall P l -> P (PAnd l).
Hypothesis Hor : forall l, Forall P l -> P (POr l).
Hypothesis Hnot : forall p, P p -> P (PNot p).
Hypothesis Hone : forall r t p, P p -> P (POne r t p).
Hypothesis Hmany : forall r t q p, P p -> P (PMany r t q p).
Hypothesis Heach : forall f path q p, P p -> P (PEach f path q p).
Hypothesis Hleaf : forall p,
  match p with PConst _ | PAnd _ | POr _ | PNot _ | POne _ _ _ | PMany _ _ _ _ | PEach _ _ _ _ => True | _ => P p end.

(** Induction that reaches the predicates of a conjunction and a disjunction. *)
Fixpoint Pred_nested (p : Pred) : P p :=
  let fix go (l : list Pred) : Forall P l :=
    match l with
    | [] => Forall_nil_2 P
    | x :: l' => Forall_cons_2 P x l' (Pred_nested x) (go l')
    end in
  match p as q return P q with
  | PConst b => Hconst b
  | PAnd l => Hand l (go l)
  | POr l => Hor l (go l)
  | PNot x => Hnot x (Pred_nested x)
  | POne r t x => Hone r t x (Pred_nested x)
  | PMany r t q x => Hmany r t q x (Pred_nested x)
  | PEach f path q x => Heach f path q x (Pred_nested x)
  | x => Hleaf x
  end.
End PredInd.

(** ** Pages, order, projection, reads. *)

Inductive Dir := Asc | Desc.
Record OrderKey := MkOrder { ord_field : string; ord_dir : Dir; ord_near : option Point }.
Inductive PageIR :=
| Limit (limit : Z) (after : option string)
| AllRows.
Inductive Unit := UDay | UWeek | UMonth | UQuarter | UYear.
Record Bucket := MkBucket { bucket_field : string; bucket_unit : option Unit }.
Record Measures := MkMeasures {
  m_by : list Bucket; m_count : bool; m_sum : option (list string); m_avg : option (list string);
  m_min : option (list string); m_max : option (list string) }.

Inductive SelectIR :=
| Select (fields : option (list string)) (whole : bool) (relations : list (string * RelSelectIR))
with RelSelectIR :=
| RelSelect (target : string) (targets : option (list string)) (targetSelects : option (list (string * SelectIR)))
    (many : bool) (select : SelectIR) (where_ : option Pred) (order : option (list OrderKey)) (page : option PageIR)
    (aggregate : option Measures).

Record ListRead := MkListRead {
  lr_model : string; lr_output : option string; lr_where : option Pred; lr_select : SelectIR;
  lr_order : option (list OrderKey); lr_search : option string; lr_firstPer : option (list string); lr_page : PageIR;
  lr_total : bool; lr_member : option string; lr_cte : option string }.

Inductive ReadIR :=
| Read (r : ListRead)
| GetRead (model : string) (output : option string) (id : string) (select : SelectIR) (member cte : option string)
| Aggregate (m : Measures) (model : string) (output : option string) (where_ : option Pred) (page : option PageIR)
| Similar (model : string) (output : option string) (index : string) (input : Json) (limit : Z) (where_ : option Pred)
    (select : option SelectIR).
