(* ===== verification/Catalog.v ===== *)
(** The read catalog of a schema: [packages/store/src/catalog.ts]. What the query compilers and the evaluator know of each
    model: its fields by kind, its relations, and the read levels each of its outputs exposes. *)
From Stdlib Require Import Sorted.
From S2P Require Import Prelude Ir.

(** ** What the catalog reads of a schema. *)

(** An object's member [edit]. *)
Inductive Edit := EditAll | EditNone | EditFields (fields : list string).
Record StateSpec := MkStateSpec { st_to : option (list string); st_edit : option Edit }.

(** [KindSpec]: a field kind literal. [k_to] is a ref's one target ([inl]) or its several ([inr]). *)
Inductive KindSpec := MkKind {
  k_kind : string; k_optional : bool; k_to : option (string + list string); k_inverse : option string; k_many : bool;
  k_format : option string; k_of : option Json; k_metric : option string; k_dim : option Z; k_pattern : option string;
  k_values : option (list string); k_initial : option string; k_states : option (dict StateSpec);
  k_fields : option (dict KindSpec); k_shape : option KindSpec; k_rest : option KindSpec }.
(** [{ kind }]. *)
Definition kind_only (kind : string) : KindSpec :=
  MkKind kind false None None false None None None None None None None None None None None.
(** [{ kind: 'id', of }]. *)
Definition id_kind (of_ : option string) : KindSpec :=
  MkKind "id" false None None false None (option_map JString of_) None None None None None None None None None.

Record Machine := MkMachine { initial : string; states : dict StateSpec }.
Record FieldInfo := MkField {
  f_name : string; f_kind : string; f_column : string; f_pg : string; f_many : bool; f_email : bool; f_phone : bool;
  f_team : bool; f_periodOf : option string; f_metric : option string; f_dim : option Z; f_values : option (list string);
  f_state : option Machine; f_of : option string; f_arms : option (list string); f_computed : bool; f_derived : bool;
  f_shape : option KindSpec }.
(** [{ ...f, pg }], [{ ...f, column }], [{ ...f, of }], [{ ...f, computed: true }]. *)
Definition with_pg (f : FieldInfo) (pg : string) : FieldInfo :=
  MkField (f_name f) (f_kind f) (f_column f) pg (f_many f) (f_email f) (f_phone f) (f_team f) (f_periodOf f) (f_metric f)
    (f_dim f) (f_values f) (f_state f) (f_of f) (f_arms f) (f_computed f) (f_derived f) (f_shape f).
Definition with_column (f : FieldInfo) (column : string) : FieldInfo :=
  MkField (f_name f) (f_kind f) column (f_pg f) (f_many f) (f_email f) (f_phone f) (f_team f) (f_periodOf f) (f_metric f)
    (f_dim f) (f_values f) (f_state f) (f_of f) (f_arms f) (f_computed f) (f_derived f) (f_shape f).
Definition with_of (f : FieldInfo) (of_ : string) : FieldInfo :=
  MkField (f_name f) (f_kind f) (f_column f) (f_pg f) (f_many f) (f_email f) (f_phone f) (f_team f) (f_periodOf f)
    (f_metric f) (f_dim f) (f_values f) (f_state f) (Some of_) (f_arms f) (f_computed f) (f_derived f) (f_shape f).
Definition with_computed (f : FieldInfo) : FieldInfo :=
  MkField (f_name f) (f_kind f) (f_column f) (f_pg f) (f_many f) (f_email f) (f_phone f) (f_team f) (f_periodOf f)
    (f_metric f) (f_dim f) (f_values f) (f_state f) (f_of f) (f_arms f) true (f_derived f) (f_shape f).
(** The literal [{ name: fk, kind: 'ref', column: fk, pg: 'uuid', arms: targets }]. *)
Definition arc_field (fk : string) (targets : list string) : FieldInfo :=
  MkField fk "ref" fk "uuid" false false false false None None None None None None (Some targets) false false None.

Record OneRel := MkOne { one_name : string; one_targets : list string }.
Record Through := MkThrough { t_table : string; t_from : string; t_to : string }.
Record ManyRel := MkMany { many_name : string; many_child : string; many_column : string; many_through : option Through }.
Record LabelLink := MkLabelLink { ll_model : string; ll_record : string; ll_targets : list string }.
Record IndexInfo := MkIndex { ix_dim : Z; ix_metric : string; ix_field : option string; ix_candidates : option Z; ix_rerank : bool }.
Record Semantic := MkSemantic { sem_model : string; sem_dim : Z; sem_fields : option (list string) }.
Record SemanticInfo := MkSemanticInfo { si_model : string; si_dim : Z; si_fields : list string }.
Record SearchSpec := MkSearch { s_text : option (list string); s_indexes : option (dict IndexInfo); s_semantic : option Semantic }.

(** A table's key: an [id] column of the declared type, or declared key fields. *)
Inductive Key := KeyUuid | KeyText | KeyIdentity | KeyFields (first : string) (rest : list string).
Record CatalogTable := MkTable {
  ct_fields : dict KindSpec; ct_recordLabel : option string; ct_labelLink : option LabelLink;
  ct_computed : option (dict string); ct_key : option Key; ct_audit : bool; ct_through : option (dict Through);
  ct_search : option SearchSpec }.
(** A layer's fields: ['all'] is [None]. *)
Definition LayerFields := dict (option (list string)).
Record CatalogExposure := MkExposure { ce_read : LayerFields; ce_outputs : option (dict LayerFields) }.

(** ** The catalog. *)

Record ModelInfo := MkModel {
  mi_name : string; mi_audit : bool; mi_fields : dict FieldInfo; mi_one : dict OneRel; mi_many : dict ManyRel;
  mi_key : list string; mi_search : list string; mi_recordLabel : option (list string); mi_labelLink : option LabelLink;
  mi_semantic : option SemanticInfo; mi_indexes : dict IndexInfo }.
(** A set of names, or ['all'] ([None]). *)
Record ExposureInfo := MkLevel {
  e_name : string; e_path : string; e_model : ModelInfo; e_fields : option (list string); e_relations : option (list string) }.
Record OutputInfo := MkOutput { o_root : ExposureInfo; o_layers : dict ExposureInfo }.
Record Catalog := MkCatalog {
  models : dict ModelInfo; exposures : dict ExposureInfo; layers : dict ExposureInfo; outputs : dict (dict OutputInfo) }.

Definition RECORD_LABEL_COLUMN : string := "bolt_record_label".
Definition AUDIT_COLUMNS : list string := ["revision"; "created_at"; "created_by"; "updated_at"; "updated_by"]%string.
Definition SYSTEM_COLUMNS : list string := "id"%string :: AUDIT_COLUMNS.
Definition INLINE : list string := ["json"; "list"; "object"; "record"]%string.
Definition HEAVY : list string := ["json"; "custom"; "file"]%string.
Definition DEFAULT_OUTPUT : string := "default".
Definition PG : dict string :=
  [("text", "text"); ("enum", "text"); ("state", "text"); ("currency", "text"); ("int", "int8"); ("count", "int8");
   ("duration", "int8"); ("number", "float8"); ("decimal", "numeric"); ("money", "numeric"); ("sum", "numeric");
   ("bool", "bool"); ("date", "date"); ("instant", "timestamptz"); ("time", "time"); ("id", "uuid"); ("json", "jsonb");
   ("list", "jsonb"); ("object", "jsonb"); ("file", "jsonb"); ("custom", "jsonb"); ("point", "point");
   ("vector", "vector")]%string.

(** [x === text] of an optional value of unknown type. *)
Definition is_text (j : option Json) (t : string) : bool := match j with Some (JString s) => String.eqb s t | _ => false end.
Definition format_is (k : KindSpec) (t : string) : bool := match k_format k with Some s => String.eqb s t | None => false end.

(** [fieldInfo(name, k)]; the callers' [extra] is a [with_] of the result. *)
Definition fieldInfo (name : string) (k : KindSpec) : FieldInfo :=
  let kind :=
    if String.eqb (k_kind k) "seq" then match k_pattern k with None => "int"%string | Some _ => "text"%string end
    else k_kind k in
  let period := String.eqb kind "period" in
  let date := is_text (k_of k) "date" in
  {| f_name := name; f_kind := kind; f_column := name;
     f_pg := if period then (if date then "daterange" else "tstzrange")
             else if k_many k then "text[]" else default "text" (get PG kind);
     f_many := k_many k; f_email := format_is k "email"; f_phone := format_is k "phone"; f_team := format_is k "team";
     f_periodOf := if period then Some (if date then "date"%string else "instant"%string) else None;
     f_metric := if String.eqb kind "vector" then Some (default "l2"%string (k_metric k)) else None;
     f_dim := if String.eqb kind "vector" then k_dim k else None;
     f_derived := includes ["seq"; "sum"; "count"]%string (k_kind k);
     f_values := match k_values k, k_states k with
                 | Some vs, _ => Some vs
                 | None, Some ss => Some (keys ss)
                 | None, None => None
                 end;
     f_state := match k_initial k, k_states k with
                | Some i, Some ss => if String.eqb kind "state" then Some (MkMachine i ss) else None
                | _, _ => None
                end;
     f_of := match k_of k with Some (JString s) => if String.eqb kind "id" then Some s else None | _ => None end;
     f_arms := None; f_computed := false;
     f_shape := if includes INLINE kind then Some k else None |}.

(** [keyPg]. *)
Definition keyPg (spec : option CatalogTable) : string :=
  match spec with
  | None => "text"
  | Some s =>
      match ct_key s with
      | Some KeyText => "text"
      | None | Some KeyUuid => "uuid"
      | Some KeyIdentity => "int8"
      | Some (KeyFields k _) => match get (ct_fields s) k with None => "text" | Some f => f_pg (fieldInfo k f) end
      end
  end.

(** ** [catalogOf]. *)
Section Build.
(** The record fields a CEL label reads: the paths of [labelExpression], whose parser is a third-party package. *)
Context (label_paths : string -> list string).

(** [entries.forEach]: [Map.set] of each in turn. *)
Definition set_all {A B} (f : string -> A -> B) (d : dict A) (acc : dict B) : dict B :=
  fold_left (fun acc kv => set acc (fst kv) (f (fst kv) (snd kv))) d acc.
Definition is_ref (k : KindSpec) : bool := String.eqb (k_kind k) "ref".
Definition ends_by (s : string) : bool := String.eqb (drop (String.length s - 3) s) "_by".

(** One audit column's field. *)
Definition audit_field (s : string) : FieldInfo :=
  if String.eqb s "revision" then fieldInfo s (kind_only "int")
  else if ends_by s then with_of (fieldInfo s (kind_only "text")) "sys_user" else fieldInfo s (kind_only "instant").
Definition is_key_fields (k : option Key) : bool := match k with Some (KeyFields _ _) => true | _ => false end.

(** A table's own fields: the first loop. *)
Definition own_fields (name : string) (spec : CatalogTable) : dict FieldInfo :=
  let f : dict FieldInfo :=
    if is_key_fields (ct_key spec) then []
    else [("id"%string, with_pg (fieldInfo "id" (id_kind (Some name))) (keyPg (Some spec)))] in
  let f := if ct_audit spec then fold_left (fun f s => set f s (audit_field s)) AUDIT_COLUMNS f else f in
  let f := fold_left (fun f nk => if is_ref (snd nk) then f else set f (fst nk) (fieldInfo (fst nk) (snd nk))) (ct_fields spec) f in
  set_all (fun n kind => with_computed (fieldInfo n (kind_only kind))) (default [] (ct_computed spec)) f.

(** The maps the second and third loop fill. *)
Record Maps := MkMaps { fields_of : dict (dict FieldInfo); one_of : dict (dict OneRel); many_of : dict (dict ManyRel) }.
(** [m.get(k)?.set(n, v)]. *)
Definition set_in {A} (m : dict (dict A)) (k n : string) (v : A) : dict (dict A) :=
  match get m k with Some d => set m k (set d n v) | None => m end.

Definition targets_of (to : string + list string) : list string := match to with inl t => [t] | inr ts => ts end.
Definition is_arc (targets : list string) : bool := (1 <? length targets)%nat.
(** The column of an arm, and the column a target's many side reads. *)
Definition arm_column (fk t : string) : string := fk +:+ "__" +:+ t.
Definition inverse_column (fk : string) (targets : list string) (t : string) : string :=
  if is_arc targets then arm_column fk t else fk.
Definition hd_text (l : list string) : string := match l with x :: _ => x | [] => "" end.

(** The fields a ref gives its own table. *)
Definition ref_fields (specs : dict CatalogTable) (fk : string) (targets : list string) (own : dict FieldInfo) : dict FieldInfo :=
  if is_arc targets then
    fold_left (fun own t =>
        set own (fk +:+ "." +:+ t)
          (with_column (with_pg (fieldInfo (fk +:+ "." +:+ t) (id_kind (Some t))) (keyPg (get specs t))) (arm_column fk t)))
      targets (set own fk (arc_field fk targets))
  else set own fk (with_pg (fieldInfo fk (id_kind (head targets))) (keyPg (get specs (hd_text targets)))).

(** One ref field: its fields, its one side and, named, each target's many side. *)
Definition add_ref (specs : dict CatalogTable) (from : string) (m : Maps) (fr : string * KindSpec) : Maps :=
  let '(fk, rel) := fr in
  match is_ref rel, k_to rel, get (fields_of m) from with
  | true, Some to, Some own =>
      let targets := targets_of to in
      MkMaps (set (fields_of m) from (ref_fields specs fk targets own))
        (set_in (one_of m) from fk (MkOne fk targets))
        (match k_inverse rel with
         | None => many_of m
         | Some inv =>
             fold_left (fun mm t => set_in mm t inv (MkMany inv from (inverse_column fk targets t) None)) targets (many_of m)
         end)
  | _, _, _ => m
  end.
Definition add_refs (specs : dict CatalogTable) (m : Maps) (ns : string * CatalogTable) : Maps :=
  fold_left (add_ref specs (fst ns)) (ct_fields (snd ns)) m.
(** One join-table relation. *)
Definition add_through (specs : dict CatalogTable) (from : string) (many : dict (dict ManyRel)) (nm : string * Through)
    : dict (dict ManyRel) :=
  let '(name, m) := nm in
  match get specs (t_table m) with
  | None => many
  | Some spec =>
      match get (ct_fields spec) (t_to m) with
      | Some k => match k_to k with Some (inl target) => set_in many from name (MkMany name target (t_to m) (Some m)) | _ => many end
      | None => many
      end
  end.
Definition add_throughs (specs : dict CatalogTable) (many : dict (dict ManyRel)) (ns : string * CatalogTable)
    : dict (dict ManyRel) :=
  fold_left (add_through specs (fst ns)) (default [] (ct_through (snd ns))) many.

(** The three loops. *)
Definition maps (specs : dict CatalogTable) : Maps :=
  let m0 := MkMaps (set_all own_fields specs []) (set_all (fun _ _ => []) specs []) (set_all (fun _ _ => []) specs []) in
  let m1 := fold_left (add_refs specs) specs m0 in
  MkMaps (fields_of m1) (one_of m1) (fold_left (add_throughs specs) specs (many_of m1)).

Definition head_segment (path : string) : string := match split_char "." path with w :: _ => w | [] => path end.

(** One entry of [byName]. *)
Definition model_info (specs : dict CatalogTable) (m : Maps) (name : string) (f : dict FieldInfo) : ModelInfo :=
  let spec := get specs name in
  let search := spec ≫= ct_search in
  let label := spec ≫= ct_recordLabel in
  {| mi_name := name; mi_audit := match spec with Some s => ct_audit s | None => false end; mi_fields := f;
     mi_one := default [] (get (one_of m) name); mi_many := default [] (get (many_of m) name);
     mi_key := match spec ≫= ct_key with Some (KeyFields k ks) => k :: ks | _ => ["id"%string] end;
     mi_search := default [] (search ≫= s_text) ++ (if label is Some _ then [RECORD_LABEL_COLUMN] else []);
     mi_recordLabel := option_map (fun l => uniq (map head_segment (label_paths l))) label;
     mi_labelLink := spec ≫= ct_labelLink;
     mi_indexes := default [] (search ≫= s_indexes);
     mi_semantic := option_map (fun s => MkSemanticInfo (sem_model s) (sem_dim s) (default [] (sem_fields s))) (search ≫= s_semantic) |}.
Definition by_name (specs : dict CatalogTable) : dict ModelInfo :=
  let m := maps specs in set_all (model_info specs m) (fields_of m) [].

(** *** [levels]. *)

(** [paths.sort(...)] by segment count: a stable insertion sort. *)
Fixpoint insert_level (p : string) (ps : list string) : list string :=
  match ps with
  | [] => [p]
  | x :: ps' =>
      if (length (split_char "." p) <=? length (split_char "." x))%nat then p :: ps else x :: insert_level p ps'
  end.
Definition sort_levels (ps : list string) : list string := foldr insert_level [] ps.

Definition is_layer (path : string) : bool := (1 <? length (split_char "." path))%nat.
(** [path.slice(0, path.lastIndexOf('.'))] and [path.slice(path.lastIndexOf('.') + 1)]. *)
Definition parent_path (path : string) : string := join "." (removelast (split_char "." path)).
Definition last_segment (path : string) : string := List.last (split_char "." path) "".

(** The model a relation of [m] reaches: its one target, or its many side's child. *)
Definition relation_target (m : ModelInfo) (rel : string) : option string :=
  match get (mi_one m) rel with
  | Some (MkOne _ [t]) => Some t
  | _ => option_map many_child (get (mi_many m) rel)
  end.
Definition level_name (out : dict ExposureInfo) (path : string) : option string :=
  if is_layer path then e ← get out (parent_path path); relation_target (e_model e) (last_segment path) else Some path.
Definition level (byName : dict ModelInfo) (root : string) (read : LayerFields) (paths : list string)
    (out : dict ExposureInfo) (path : string) : dict ExposureInfo :=
  match level_name out path with
  | None => out
  | Some name =>
      match get byName name with
      | None => out
      | Some model =>
          if negb (is_layer path) && negb (String.eqb path root) then out
          else set out path (MkLevel name path model (default None (get read path))
                 (Some (map last_segment (filter (fun p => is_layer p && String.eqb (parent_path p) path) paths))))
      end
  end.
(** Every level by path, the root's included. *)
Definition level_map (byName : dict ModelInfo) (root : string) (read : LayerFields) : dict ExposureInfo :=
  let paths := sort_levels (keys read) in fold_left (level byName root read paths) paths [].
Definition without {A} (d : dict A) (k : string) : dict A := filter (fun kv => fst kv <> k) d.
Definition levels (byName : dict ModelInfo) (root : string) (read : LayerFields) : option OutputInfo :=
  let out := level_map byName root read in
  top ← get out root; Some (MkOutput top (without out root)).

(** One exposure of the schema. *)
Definition expose (byName : dict ModelInfo) (c : Catalog) (rs : string * CatalogExposure) : Catalog :=
  let '(root, spec) := rs in
  if negb (has_own byName root) then c
  else
    match levels byName root (ce_read spec) with
    | None => c
    | Some declared =>
        MkCatalog (models c) (set (exposures c) root (o_root declared))
          (set_all (fun _ info => info) (o_layers declared) (layers c))
          (fold_left (fun outs nr =>
             match levels byName root (snd nr) with
             | Some o => set outs root (set (default [] (get outs root)) (fst nr) o)
             | None => outs
             end) (default [] (ce_outputs spec)) (outputs c))
    end.
Definition catalogOf (specs : dict CatalogTable) (exposed : option (dict CatalogExposure)) : Catalog :=
  let byName := by_name specs in
  match exposed with
  | None => MkCatalog byName (set_all (fun name model => MkLevel name name model None None) byName []) [] []
  | Some es => fold_left (expose byName) es (MkCatalog byName [] [] [])
  end.
End Build.

(** ** Reading the catalog. *)

Definition INVALID (message : string) : jserror := JsError "invalid" message.
Fixpoint starts_with (p s : string) : bool :=
  match p, s with
  | EmptyString, _ => true
  | String a p', String b s' => Ascii.eqb a b && starts_with p' s'
  | _, _ => false
  end.
(** [catalogFor]; its memo table only shares equal results. *)
Definition catalogFor (cat : Catalog) (root : string) (output : option string) : outcome Catalog :=
  match output with
  | None => Ok cat
  | Some o =>
      if String.eqb o DEFAULT_OUTPUT then Ok cat
      else
        match outs ← get (outputs cat) root; get outs o with
        | None =>
            Throw (INVALID ("'" +:+ root +:+ "' declares no read output '" +:+ o +:+ "'; it declares: " +:+
              join ", " (DEFAULT_OUTPUT :: keys (default [] (get (outputs cat) root)))))
        | Some info =>
            Ok (MkCatalog (models cat) (set (exposures cat) root (o_root info))
                 (set_all (fun _ l => l) (o_layers info) (filter (fun pl => starts_with (root +:+ ".") (fst pl) = false) (layers cat)))
                 (outputs cat))
        end
  end.
Definition family (f : FieldInfo) : string :=
  if includes ["int"; "decimal"; "money"; "sum"; "count"; "number"]%string (f_kind f) then "num"
  else if includes ["text"; "enum"; "state"; "currency"]%string (f_kind f) then "text"
  else if String.eqb (f_kind f) "id" then "id:" +:+ default "" (f_of f) else f_kind f.
(** [q]: a quoted identifier. *)
Fixpoint double_quotes (s : string) : string :=
  match s with
  | EmptyString => EmptyString
  | String c s' => if Ascii.eqb c QUOTE then String QUOTE (String QUOTE (double_quotes s')) else String c (double_quotes s')
  end.
Definition q (name : string) : string := String QUOTE (double_quotes name) +:+ String QUOTE EmptyString.
Definition exposureOf (cat : Catalog) (name : string) : outcome ExposureInfo :=
  match get (exposures cat) name with Some c => Ok c | None => Throw (INVALID ("unknown model '" +:+ name +:+ "'")) end.
Definition exposedField (c : ExposureInfo) (name : string) : bool :=
  if includes SYSTEM_COLUMNS name then true
  else
    let base := head_segment name in
    match e_fields c with None => has_own (mi_fields (e_model c)) base | Some fs => includes fs base end.
Definition exposedRelation (c : ExposureInfo) (rel : string) : bool :=
  match e_relations c with
  | None => has_own (mi_one (e_model c)) rel || has_own (mi_many (e_model c)) rel
  | Some rs => includes rs rel
  end.
Definition has_dot (s : string) : bool := has_char (Ascii.eqb ".") s.
Definition defaultFields (c : ExposureInfo) (heavy : bool) : list string :=
  map f_name (filter (fun f => negb (has_dot (f_name f)) && (heavy || negb (includes HEAVY (f_kind f))) && exposedField c (f_name f) = true)
    (values (mi_fields (e_model c)))).
Definition storedFields (m : ModelInfo) : list string :=
  map f_name (filter (fun f => negb (has_dot (f_name f)) && negb (f_computed f) && negb (f_derived f) = true) (values (mi_fields m))).

(** ** Levels follow relations. *)
Module Levels.

Lemma dotless_cons (x : ascii) (s : string) : has_dot (String x s) = false -> Ascii.eqb x "." = false /\ has_dot s = false.
Proof.
  unfold has_dot. cbn [has_char]. intros H. apply orb_false_iff in H as [H1 H2]. split; [|done].
  rewrite Ascii.eqb_neq in *. congruence.
Qed.
Lemma split_dotless (s : string) : has_dot s = false -> split_char "." s = [s].
Proof. induction s as [|x s IH]; [done|]. intros [Hx Hs]%dotless_cons. cbn [split_char]. by rewrite Hx, IH. Qed.
Lemma split_app (a rel : string) : has_dot rel = false -> split_char "." (a +:+ "." +:+ rel) = split_char "." a ++ [rel].
Proof.
  intros Hr. induction a as [|x a IH].
  - change ("" +:+ "." +:+ rel) with (String "." rel). cbn [split_char]. by rewrite split_dotless.
  - change (String x a +:+ "." +:+ rel) with (String x (a +:+ "." +:+ rel)). cbn [split_char]. rewrite IH.
    destruct (Ascii.eqb x "."); [done|]. pose proof (split_not_nil "." a). by destruct (split_char "." a).
Qed.
Lemma segment_dotless (s w : string) : w ∈ split_char "." s -> has_dot w = false.
Proof.
  revert w. induction s as [|x s IH]; cbn [split_char]; intros w H; [by apply list_elem_of_singleton in H as ->|].
  destruct (Ascii.eqb x ".") eqn:E.
  - apply elem_of_cons in H as [->|H]; [done|by apply IH].
  - pose proof (split_not_nil "." s). destruct (split_char "." s) as [|w0 r] eqn:Es; [done|].
    apply elem_of_cons in H as [->|H]; [|apply IH; by right]. unfold has_dot. cbn [has_char].
    assert (Ascii.eqb "." x = false) as -> by (rewrite Ascii.eqb_neq in *; congruence).
    cbn. apply (IH w0). by left.
Qed.

Lemma join_snoc (l : list string) (w : string) : l <> [] -> join "." (l ++ [w]) = join "." l +:+ "." +:+ w.
Proof.
  induction l as [|x [|y l] IH]; intros H; [done|done|]. cbn [app]. cbn [app] in IH.
  change (join "." (x :: y :: l ++ [w])) with (x +:+ "." +:+ join "." (y :: l ++ [w])). rewrite IH by done.
  change (join "." (x :: y :: l)) with (x +:+ "." +:+ join "." (y :: l)). by rewrite !append_assoc_s.
Qed.
(** A layer's path is its parent's path, a dot and a dot-free relation name. *)
Lemma layer_parts (path : string) : is_layer path = true ->
  path = parent_path path +:+ "." +:+ last_segment path /\ has_dot (last_segment path) = false.
Proof.
  unfold is_layer, parent_path, last_segment. intros H. apply Nat.ltb_lt in H.
  assert (split_char "." path <> []) as Hn by apply split_not_nil.
  split; [|apply (segment_dotless path)].
  - rewrite <- join_snoc, <- app_removelast_last by (done || destruct (split_char "." path) as [|? [|]]; cbn in *; (lia || done)).
    by rewrite join_split.
  - rewrite (app_removelast_last "" Hn) at 2. apply elem_of_app. right. by left.
Qed.
Lemma layer_of (parent rel : string) : has_dot rel = false ->
  is_layer (parent +:+ "." +:+ rel) = true /\ parent_path (parent +:+ "." +:+ rel) = parent /\
  last_segment (parent +:+ "." +:+ rel) = rel /\
  length (split_char "." (parent +:+ "." +:+ rel)) = S (length (split_char "." parent)).
Proof.
  intros Hr. unfold is_layer, parent_path, last_segment. rewrite (split_app parent rel Hr), removelast_last, last_last, length_app.
  pose proof (split_not_nil "." parent). split_and!.
  - apply Nat.ltb_lt. cbn. destruct (split_char "." parent); [done|cbn; lia].
  - apply join_split.
  - done.
  - cbn. lia.
Qed.

(** The model at a path, by walking declared paths: the root, or a declared layer one relation below a resolved path. *)
Inductive at_path (byName : dict ModelInfo) (root : string) (read : LayerFields) : string -> string -> Prop :=
| at_root : root ∈ keys read -> is_some (get byName root) -> at_path byName root read root root
| at_layer parent above m rel name :
    at_path byName root read parent above -> get byName above = Some m -> has_dot rel = false ->
    parent +:+ "." +:+ rel ∈ keys read -> relation_target m rel = Some name -> is_some (get byName name) ->
    at_path byName root read (parent +:+ "." +:+ rel) name.

Lemma at_path_declared byName root read path name : at_path byName root read path name -> path ∈ keys read.
Proof. by destruct 1. Qed.

Definition depth (p : string) : nat := length (split_char "." p).
Lemma insert_level_perm (p : string) (ps : list string) : insert_level p ps ≡ₚ p :: ps.
Proof. induction ps as [|x ps IH]; cbn [insert_level]; [done|]. destruct (_ <=? _)%nat; [done|]. rewrite IH. apply Permutation_swap. Qed.
Lemma sort_levels_perm (ps : list string) : sort_levels ps ≡ₚ ps.
Proof. induction ps as [|p ps IH]; cbn [sort_levels foldr]; [done|]. fold (sort_levels ps). by rewrite insert_level_perm, IH. Qed.
Lemma sort_levels_sorted (ps : list string) : StronglySorted (fun a b => depth a <= depth b)%nat (sort_levels ps).
Proof.
  induction ps as [|p ps IH]; cbn [sort_levels foldr]; [constructor|]. fold (sort_levels ps).
  induction IH as [|x l Hl IHl Hx]; cbn [insert_level]; [repeat constructor|]. fold (depth p). fold (depth x).
  destruct (depth p <=? depth x)%nat eqn:E.
  - apply Nat.leb_le in E. constructor; [by constructor|]. constructor; [done|]. eapply Forall_impl; [exact Hx|]. cbn. lia.
  - apply Nat.leb_gt in E. constructor; [done|]. apply Forall_forall. intros y Hy. rewrite insert_level_perm in Hy.
    apply elem_of_cons in Hy as [->|Hy]; [lia|]. rewrite Forall_forall in Hx. by apply Hx.
Qed.

Section Fold.
Context (byName : dict ModelInfo) (root : string) (read : LayerFields).
Hypothesis Hroot : has_dot root = false.
Local Abbreviation paths := (sort_levels (keys read)).

(** What a level of the map is. *)
Definition is_level (path : string) (info : ExposureInfo) : Prop :=
  at_path byName root read path (e_name info) /\ get byName (e_name info) = Some (e_model info) /\ e_path info = path /\
  e_fields info = default None (get read path).
(** After the paths [before] have been taken. *)
Definition taken (before : list string) (out : dict ExposureInfo) : Prop :=
  (forall p info, get out p = Some info -> p ∈ before /\ is_level p info) /\
  (forall p name, at_path byName root read p name -> p ∈ before -> exists info, get out p = Some info /\ e_name info = name).

Lemma not_layer (p : string) : is_layer p = false <-> has_dot p = false.
Proof.
  split.
  - unfold is_layer. intros H. apply Nat.ltb_ge in H. pose proof (split_not_nil "." p). destruct (split_char "." p) as [|w [|]] eqn:E; [done| |cbn in H; lia].
    pose proof (join_split "." p) as Hj. rewrite E in Hj. cbn [join] in Hj. apply (segment_dotless p). rewrite E, Hj. by left.
  - intros H. unfold is_layer. by rewrite split_dotless.
Qed.

(** The name a path in its turn resolves to is the model it is at. *)
Lemma level_name_spec (before : list string) (out : dict ExposureInfo) (x name : string) :
  taken before out -> x ∈ keys read -> (is_layer x = true -> parent_path x ∈ keys read -> parent_path x ∈ before) ->
  is_some (get byName name) -> (is_layer x = false -> x = root) ->
  level_name out x = Some name <-> at_path byName root read x name.
Proof.
  intros [HA HB] Hx Hpar Hname Hr. unfold level_name. destruct (is_layer x) eqn:El.
  - destruct (layer_parts x El) as [Ex Hrel]. split.
    + destruct (get out (parent_path x)) as [e|] eqn:Ee; [|done]. cbn. intros Ht. destruct (HA _ _ Ee) as [_ (H1 & H2 & _)].
      rewrite Ex. by eapply at_layer; [exact H1|exact H2|done|rewrite <- Ex|exact Ht|].
    + intros Hat. destruct Hat as [Hk Hs|parent above m rel name Hp Hm Hrel' Hk Ht Hn].
      * apply not_layer in Hroot. congruence.
      * destruct (layer_of parent rel Hrel') as (_ & Ep & El' & _). rewrite Ep, El'. rewrite Ep in Hpar.
        destruct (HB parent above Hp) as (info & Hg & <-); [apply Hpar; [done|by eapply at_path_declared]|].
        rewrite Hg. cbn. destruct (HA _ _ Hg) as [_ (_ & H2 & _)]. rewrite Hm in H2. by injection H2 as <-.
  - specialize (Hr eq_refl) as ->. split.
    + intros [= <-]. by apply at_root.
    + intros Hat. inversion Hat as [|parent above m rel name' _ _ Hrel _ _ _ Ep]; [done|]. exfalso.
      destruct (layer_of parent rel Hrel) as (H & _). rewrite Ep in H. congruence.
Qed.

Lemma level_taken (before : list string) (out : dict ExposureInfo) (x : string) :
  taken before out -> x ∈ keys read -> x ∉ before ->
  (is_layer x = true -> parent_path x ∈ keys read -> parent_path x ∈ before) ->
  taken (before ++ [x]) (level byName root read paths out x).
Proof.
  intros Ht Hx Hnew Hpar. pose proof Ht as [HA HB].
  assert (forall n, at_path byName root read x n -> is_layer x = false -> x = root) as Honly.
  { intros n Hat El. destruct Hat as [|parent above m rel n' _ _ Hrel _ _ _]; [done|].
    destruct (layer_of parent rel Hrel) as (H & _). congruence. }
  assert (level byName root read paths out x = out -> (forall n, ~ at_path byName root read x n) ->
    taken (before ++ [x]) (level byName root read paths out x)) as Hskip.
  { intros -> Hno. split.
    - intros p info Hg. destruct (HA p info Hg). split; [apply elem_of_app; by left|done].
    - intros p n Hat [Hp|[= ->]%list_elem_of_singleton]%elem_of_app; [by apply HB|by apply Hno in Hat]. }
  unfold level in *. destruct (level_name out x) as [name|] eqn:En.
  2:{ apply Hskip; [done|]. intros n Hat.
      assert (is_some (get byName n)) as Hn by (by destruct Hat).
      apply (level_name_spec before out x n Ht Hx Hpar Hn (Honly n Hat)) in Hat. congruence. }
  destruct (get byName name) as [model|] eqn:Em.
  2:{ apply Hskip; [done|]. intros n Hat. assert (is_some (get byName n)) as Hn by (by destruct Hat).
      apply (level_name_spec before out x n Ht Hx Hpar Hn (Honly n Hat)) in Hat. rewrite En in Hat. injection Hat as <-. by rewrite Em in Hn. }
  destruct (negb (is_layer x) && negb (String.eqb x root)) eqn:Eg.
  { apply Hskip; [done|]. intros n Hat. apply andb_true_iff in Eg as [E1 E2].
    apply negb_true_iff in E1, E2. by rewrite (Honly n Hat E1), String.eqb_refl in E2. }
  assert (is_layer x = false -> x = root) as Hr.
  { intros El. rewrite El in Eg. cbn in Eg. apply negb_false_iff, String.eqb_eq in Eg. done. }
  assert (is_some (get byName name)) as Hn by (by rewrite Em).
  pose proof (proj1 (level_name_spec before out x name Ht Hx Hpar Hn Hr) En) as Hat. split.
  - intros p info Hg. destruct (decide (x = p)) as [->|Hne].
    + rewrite get_set_eq in Hg. injection Hg as <-. split; [apply elem_of_app; right; by left|]. done.
    + rewrite get_set_ne in Hg by done. destruct (HA p info Hg). split; [apply elem_of_app; by left|done].
  - intros p n Hp [Hin|[= ->]%list_elem_of_singleton]%elem_of_app.
    + destruct (HB p n Hp Hin) as (info & Hg & <-). exists info. split; [|done]. rewrite get_set_ne; [done|]. by intros ->.
    + eexists. rewrite get_set_eq. split; [done|]. cbn [e_name].
      assert (is_some (get byName n)) as Hn' by (by destruct Hp).
      apply (level_name_spec before out x n Ht Hx Hpar Hn' Hr) in Hp. congruence.
Qed.

Lemma level_map_taken : wf_dict read -> taken paths (level_map byName root read).
Proof.
  intros Hwf. unfold level_map. set (all := paths).
  assert (forall before rest out, all = before ++ rest -> taken before out ->
    taken all (fold_left (level byName root read all) rest out)) as H.
  { intros before rest. revert before. induction rest as [|x rest IH]; intros before out E Ht; cbn [fold_left].
    - by rewrite E, app_nil_r.
    - apply (IH (before ++ [x])); [by rewrite E, <- app_assoc|]. apply level_taken; [done| | |].
      + rewrite <- (sort_levels_perm (keys read)). fold all. rewrite E. apply elem_of_app. right. by left.
      + assert (NoDup all) as Hnd by (unfold all; by rewrite sort_levels_perm). rewrite E in Hnd.
        apply NoDup_app in Hnd as (_ & Hnd & _). intros Hx. apply (Hnd x Hx). by left.
      + intros Hl Hp. destruct (layer_parts x Hl) as [Ex Hrel].
        rewrite <- (sort_levels_perm (keys read)) in Hp. fold all in Hp. rewrite E in Hp.
        apply elem_of_app in Hp as [Hp|Hp]; [done|]. exfalso.
        destruct (layer_of (parent_path x) (last_segment x) Hrel) as (_ & _ & _ & Hlen). rewrite <- Ex in Hlen.
        fold (depth x) in Hlen. fold (depth (parent_path x)) in Hlen.
        pose proof (sort_levels_sorted (keys read)) as Hs. fold all in Hs. rewrite E in Hs.
        apply elem_of_cons in Hp as [Hp|Hp]; [rewrite Hp in Hlen; lia|].
        clear - Hs Hp Hlen. induction before as [|b before IHb]; cbn [app] in Hs; inversion Hs as [|? ? Hs1 Hs2]; subst; [|by apply IHb].
        rewrite Forall_forall in Hs2. specialize (Hs2 _ Hp). cbn in Hs2. lia. }
  apply (H [] all []); [done|]. split; [done|]. intros p n _ Hp. by apply elem_of_nil in Hp.
Qed.
End Fold.

Lemma get_without {A} (d : dict A) (k k' : string) : get (without d k) k' = if String.eqb k k' then None else get d k'.
Proof.
  unfold without. induction d as [|[k2 v] d IH]; [by destruct (String.eqb k k')|]. rewrite filter_cons. cbn [fst].
  destruct (decide (k2 <> k)) as [Hne|He].
  - cbn [get]. destruct (String.eqb k2 k') eqn:E; [|done]. apply String.eqb_eq in E as ->. by rewrite (proj2 (String.eqb_neq k k')).
  - apply dec_stable in He as ->. rewrite IH. cbn [get]. by destruct (String.eqb k k').
Qed.

(** An output's levels are exactly the declared paths that follow relations: for a layer map of [root], the output has
    a level at a path, with a model's name, that model and the path's declared fields, exactly when the path is the root
    itself or a declared path one relation below another level, whatever order the paths are declared in. *)
Theorem levels_resolve (byName : dict ModelInfo) (root : string) (read : LayerFields) (path name : string)
    (Hroot : has_dot root = false) (Hread : wf_dict read) :
  (exists o info, levels byName root read = Some o /\
     (if String.eqb root path then info = o_root o else get (o_layers o) path = Some info) /\
     e_name info = name /\ e_path info = path /\ get byName name = Some (e_model info) /\
     e_fields info = default None (get read path)) <->
  at_path byName root read path name.
Proof.
  destruct (level_map_taken byName root read Hroot Hread) as [HA HB]. unfold levels. split.
  - intros (o & info & Ho & Hp & Hn & _). destruct (get (level_map _ _ _) root) as [top|] eqn:Et; [|done]. injection Ho as <-.
    cbn [o_root o_layers] in Hp. rewrite get_without in Hp. destruct (String.eqb root path) eqn:E.
    + apply String.eqb_eq in E as <-. subst. by apply HA in Et as [_ [? _]].
    + by apply HA in Hp as [_ [? _]]; subst.
  - intros Hat. assert (path ∈ sort_levels (keys read)) as Hin.
    { rewrite sort_levels_perm. by eapply at_path_declared. }
    destruct (HB path name Hat Hin) as (info & Hg & Hn).
    assert (exists top, get (level_map byName root read) root = Some top) as [top Htop].
    { assert (exists n, at_path byName root read root n) as [n Hr].
      { clear - Hat. induction Hat; [|done]. eexists. by apply at_root. }
      destruct (HB root n Hr) as (top & ? & _); [rewrite sort_levels_perm; by eapply at_path_declared|by exists top]. }
    rewrite Htop. cbn. exists (MkOutput top (without (level_map byName root read) root)), info. cbn [o_root o_layers].
    rewrite get_without. destruct (HA path info Hg) as (_ & _ & H2 & H3 & H4). subst name. split_and!; try done.
    destruct (String.eqb root path) eqn:E; [|done]. apply String.eqb_eq in E as <-. congruence.
Qed.
End Levels.

(** ** A many side reads a field that holds the key. *)
Module Relations.

Lemma get_set_all {A B} (f : string -> A -> B) (d : dict A) (acc : dict B) (k : string) : wf_dict d ->
  get (set_all f d acc) k = match get d k with Some v => Some (f k v) | None => get acc k end.
Proof.
  unfold set_all. revert acc. induction d as [|[k' v] d IH]; intros acc Hd; cbn [fold_left]; [done|].
  apply NoDup_cons in Hd as [Hk Hd]. rewrite IH by done. cbn [get fst snd]. destruct (String.eqb k' k) eqn:E.
  - apply String.eqb_eq in E as ->. assert (get d k = None) as ->.
    { pose proof (get_keys d k) as H. rewrite bool_decide_eq_false_2 in H by done. by destruct (get d k). }
    apply get_set_eq.
  - destruct (get d k); [done|]. apply get_set_ne. by apply String.eqb_neq.
Qed.
Lemma wf_set_all {A B} (f : string -> A -> B) (d : dict A) (acc : dict B) : wf_dict acc -> wf_dict (set_all f d acc).
Proof. unfold set_all. revert acc. induction d as [|kv d IH]; intros acc H; [done|]. apply IH. by apply wf_set. Qed.

Lemma head_dot (fk t : string) : has_dot fk = false -> head_segment (fk +:+ "." +:+ t) = fk.
Proof.
  unfold head_segment. intros H. assert (exists r, split_char "." (fk +:+ "." +:+ t) = fk :: r) as [r ->]; [|done].
  induction fk as [|x fk IH].
  - exists (split_char "." t). done.
  - apply Levels.dotless_cons in H as [Hx H]. destruct (IH H) as [r E]. exists r.
    change (String x fk +:+ "." +:+ t) with (String x (fk +:+ "." +:+ t)). cbn [split_char]. by rewrite Hx, E.
Qed.
Lemma head_dotless (fk : string) : has_dot fk = false -> head_segment fk = fk.
Proof. intros H. unfold head_segment. by rewrite Levels.split_dotless. Qed.

Section Refs.
Context (specs : dict CatalogTable).
Hypothesis Hspecs : wf_dict specs.
Hypothesis Hfields : forall name spec, get specs name = Some spec ->
  wf_dict (ct_fields spec) /\ forall fk, fk ∈ keys (ct_fields spec) -> has_dot fk = false.

(** The name of the field that holds a target's key. *)
Definition key_name (fk : string) (targets : list string) (t : string) : string :=
  if is_arc targets then fk +:+ "." +:+ t else fk.
(** [own] has a field that holds [t]'s key in the column its many side reads. *)
Definition holds (fk : string) (targets : list string) (t : string) (own : dict FieldInfo) : Prop :=
  exists f, get own (key_name fk targets t) = Some f /\ f_column f = inverse_column fk targets t /\ f_of f = Some t.

Lemma ref_fields_other (fk : string) (targets : list string) (own : dict FieldInfo) (n : string) :
  has_dot fk = false -> head_segment n <> fk -> get (ref_fields specs fk targets own) n = get own n.
Proof.
  intros Hd Hn. unfold ref_fields. assert (fk <> n) by (intros ->; by rewrite head_dotless in Hn).
  destruct (is_arc targets); [|by apply get_set_ne].
  rewrite <- (get_set_ne own fk n (arc_field fk targets)) by done. generalize (set own fk (arc_field fk targets)) as acc.
  clear own. generalize (keyPg). intros pg. induction targets as [|t ts IH]; intros acc; cbn [fold_left]; [done|].
  rewrite IH. apply get_set_ne. intros <-. by rewrite head_dot in Hn.
Qed.
Lemma ref_fields_holds (fk : string) (targets : list string) (own : dict FieldInfo) (t : string) :
  t ∈ targets -> holds fk targets t (ref_fields specs fk targets own).
Proof.
  intros Ht. unfold holds, ref_fields, key_name, inverse_column. destruct (is_arc targets) eqn:Ea.
  - eexists. split; [|split].
    + generalize (set own fk (arc_field fk targets)) as acc. clear Ea. induction targets as [|t' ts IH]; intros acc; [by apply elem_of_nil in Ht|].
      cbn [fold_left]. destruct (decide (t ∈ ts)) as [Hin|Hni]; [by apply IH|].
      apply elem_of_cons in Ht as [->|Ht]; [|done]. clear IH.
      match goal with |- get (fold_left _ _ (set _ _ ?v)) _ = _ => set (x := v) end.
      assert (forall acc, get acc (fk +:+ "." +:+ t') = Some x -> get (fold_left (fun own t0 =>
         set own (fk +:+ "." +:+ t0) (with_column (with_pg (fieldInfo (fk +:+ "." +:+ t0) (id_kind (Some t0))) (keyPg (get specs t0)))
           (arm_column fk t0))) ts acc) (fk +:+ "." +:+ t') = Some x) as H.
      { clear acc. induction ts as [|t0 ts IHt]; intros acc H; cbn [fold_left]; [done|]. apply IHt.
        - intros Hin. apply Hni. by right.
        - rewrite get_set_ne; [done|]. intros E. apply Hni. apply append_inj in E; [|done]. destruct E as [_ E].
          assert (t0 = t') as <- by (by injection E). by left. }
      apply H. apply get_set_eq.
    + done.
    + done.
  - unfold is_arc in Ea. apply Nat.ltb_ge in Ea. destruct targets as [|t0 [|]]; [by apply elem_of_nil in Ht| |cbn in Ea; lia].
    apply list_elem_of_singleton in Ht as ->. eexists. rewrite get_set_eq. split_and!; done.
Qed.

(** What the reference loop has established for the refs of [from] among [fks]. *)
Definition refs_hold (from : string) (fks : list (string * KindSpec)) (m : Maps) : Prop :=
  exists own, get (fields_of m) from = Some own /\
    forall fk rel to t, (fk, rel) ∈ fks -> is_ref rel = true -> k_to rel = Some to -> t ∈ targets_of to ->
      holds fk (targets_of to) t own.

Lemma add_ref_other (from child : string) (m : Maps) (fr : string * KindSpec) :
  child <> from -> get (fields_of (add_ref specs from m fr)) child = get (fields_of m) child.
Proof.
  intros Hne. unfold add_ref. destruct fr as [fk rel]. destruct (is_ref rel), (k_to rel), (get (fields_of m) from); try done.
  cbn [fields_of]. by apply get_set_ne.
Qed.
Lemma add_refs_other (from child : string) (spec : CatalogTable) (m : Maps) :
  child <> from -> get (fields_of (add_refs specs m (from, spec))) child = get (fields_of m) child.
Proof.
  intros Hne. unfold add_refs. cbn [fst snd]. revert m. induction (ct_fields spec) as [|fr l IH]; intros m; cbn [fold_left]; [done|].
  rewrite IH. by apply add_ref_other.
Qed.

Lemma head_key_name (fk : string) (targets : list string) (t : string) :
  has_dot fk = false -> head_segment (key_name fk targets t) = fk.
Proof. intros H. unfold key_name. destruct (is_arc targets); [by apply head_dot|by apply head_dotless]. Qed.

Lemma add_refs_hold (from : string) (spec : CatalogTable) (m : Maps) :
  get specs from = Some spec -> is_some (get (fields_of m) from) -> refs_hold from (ct_fields spec) (add_refs specs m (from, spec)).
Proof.
  intros Hs Hm. destruct (Hfields from spec Hs) as [Hwf Hdot]. unfold add_refs. cbn [fst snd].
  assert (forall rest before m0, ct_fields spec = before ++ rest -> refs_hold from before m0 ->
    refs_hold from (ct_fields spec) (fold_left (add_ref specs from) rest m0)) as H.
  { induction rest as [|[fk rel] rest IH]; intros before m0 E H0; cbn [fold_left]; [by rewrite E, app_nil_r|].
    apply (IH (before ++ [(fk, rel)])); [by rewrite E, <- app_assoc|]. destruct H0 as (own & Hown & H0).
    assert (has_dot fk = false /\ forall fk' rel', (fk', rel') ∈ before -> fk' <> fk /\ has_dot fk' = false) as [Hfk Hbefore].
    { rewrite E in Hwf, Hdot. unfold wf_dict, keys in *. rewrite map_app in Hwf, Hdot. cbn [map fst] in *.
      apply NoDup_app in Hwf as (_ & Hnd & _). split; [apply Hdot, elem_of_app; right; by left|].
      intros fk' rel' Hin. assert (fk' ∈ map fst before) as Hk by (apply list_elem_of_fmap; by exists (fk', rel')).
      split; [intros ->; apply (Hnd fk Hk); by left|apply Hdot, elem_of_app; by left]. }
    unfold add_ref. destruct (is_ref rel) eqn:Er; [|exists own; split; [done|]].
    2:{ intros fk' rel' to t [Hin|[= -> ->]%list_elem_of_singleton]%elem_of_app; [by apply H0|congruence]. }
    destruct (k_to rel) as [to0|] eqn:Et; [|exists own; split; [done|]].
    2:{ intros fk' rel' to t [Hin|[= -> ->]%list_elem_of_singleton]%elem_of_app; [by apply H0|congruence]. }
    rewrite Hown. eexists. cbn [fields_of]. rewrite get_set_eq. split; [done|].
    intros fk' rel' to t [Hin|[= -> ->]%list_elem_of_singleton]%elem_of_app Hr' Hto Ht.
    - destruct (H0 _ _ _ _ Hin Hr' Hto Ht) as (f & Hf & Hf2). exists f. split; [|done].
      destruct (Hbefore _ _ Hin) as [Hne Hd]. rewrite ref_fields_other; [done|done|]. by rewrite head_key_name.
    - rewrite Et in Hto. injection Hto as ->. by apply ref_fields_holds. }
  apply (H _ []); [done|]. destruct (get (fields_of m) from) as [own|] eqn:E; [|done]. exists own. split; [done|].
  intros ? ? ? ? Hx. by apply elem_of_nil in Hx.
Qed.

Lemma get_own_some (m : Maps) (from child : string) (spec : CatalogTable) :
  is_some (get (fields_of m) child) -> is_some (get (fields_of (add_refs specs m (from, spec))) child).
Proof.
  unfold add_refs. cbn [fst snd]. revert m. induction (ct_fields spec) as [|[fk rel] l IH]; intros m H; [done|]. cbn [fold_left].
  apply IH. unfold add_ref. destruct (is_ref rel), (k_to rel), (get (fields_of m) from) eqn:E; try done. cbn [fields_of].
  destruct (decide (from = child)) as [->|Hne]; [by rewrite get_set_eq|by rewrite get_set_ne].
Qed.

Definition loops : Maps :=
  fold_left (add_refs specs) specs (MkMaps (set_all own_fields specs []) (set_all (fun _ _ => []) specs []) (set_all (fun _ _ => []) specs [])).

Lemma loops_hold (child : string) (spec : CatalogTable) : get specs child = Some spec -> refs_hold child (ct_fields spec) loops.
Proof.
  intros Hs. unfold loops.
  assert (forall rest m, wf_dict rest -> (forall n s, (n, s) ∈ rest -> get specs n = Some s) ->
    is_some (get (fields_of m) child) -> (child, spec) ∈ rest \/ refs_hold child (ct_fields spec) m ->
    refs_hold child (ct_fields spec) (fold_left (add_refs specs) rest m)) as H.
  { induction rest as [|[n s] rest IH]; intros m Hwf Hrest Hm Hor; cbn [fold_left]; [by destruct Hor as [?%elem_of_nil|]|].
    apply NoDup_cons in Hwf as [Hn Hwf]. apply IH; [done|intros; apply Hrest; by right|by apply get_own_some|].
    destruct Hor as [[[= <- <-]|Hin]%elem_of_cons|Hold]; [right; by apply add_refs_hold|by left|].
    destruct (decide (child = n)) as [->|Hne]; [right|right].
    - assert (s = spec) as -> by (assert (get specs n = Some s) by (apply Hrest; by left); congruence). by apply add_refs_hold.
    - destruct Hold as (own & H1 & H2). exists own. by rewrite add_refs_other. }
  apply H; [done|intros n s Hin; by apply in_get| |left; by apply get_in].
  cbn [fields_of]. by rewrite get_set_all, Hs.
Qed.

(** Where a many side that is no join comes from. *)
Definition declared_by (t inv : string) (r : ManyRel) : Prop :=
  exists child spec fk rel to, get specs child = Some spec /\ (fk, rel) ∈ ct_fields spec /\ is_ref rel = true /\
    k_to rel = Some to /\ t ∈ targets_of to /\ r = MkMany inv child (inverse_column fk (targets_of to) t) None.
Definition many_sound (mm : dict (dict ManyRel)) : Prop :=
  forall t d inv r, get mm t = Some d -> get d inv = Some r -> many_through r = None -> declared_by t inv r.

Lemma set_in_sound (mm : dict (dict ManyRel)) (t inv : string) (r : ManyRel) :
  many_sound mm -> (many_through r = None -> declared_by t inv r) -> many_sound (set_in mm t inv r).
Proof.
  intros Hm Hr t0 d inv0 r0. unfold set_in. destruct (get mm t) as [d0|] eqn:E; [|by apply Hm].
  destruct (decide (t = t0)) as [->|Hne]; [|rewrite get_set_ne by done; by apply Hm].
  rewrite get_set_eq. intros [= <-]. destruct (decide (inv = inv0)) as [->|Hni].
  - rewrite get_set_eq. by intros [= <-].
  - rewrite get_set_ne by done. by apply Hm.
Qed.
Lemma fold_sound {X A} (P : A -> Prop) (f : A -> X -> A) (l : list X) (a : A) :
  P a -> (forall a x, x ∈ l -> P a -> P (f a x)) -> P (fold_left f l a).
Proof.
  revert a. induction l as [|x l IH]; intros a Ha Hf; [done|]. apply IH; [apply Hf; [by left|done]|].
  intros; apply Hf; [by right|done].
Qed.

Lemma maps_sound : many_sound (many_of (maps specs)).
Proof.
  unfold maps. cbn [many_of]. apply fold_sound.
  - apply (fold_sound (fun m => many_sound (many_of m))).
    + cbn [many_of]. intros t d inv r. rewrite get_set_all by done. destruct (get specs t); [|done]. by intros [= <-].
    + intros m [from spec] Hin Hm. apply (fold_sound (fun m => many_sound (many_of m))); [done|]. cbn [fst snd].
      intros m0 [fk rel] Hfk Hm0. unfold add_ref.
      destruct (is_ref rel) eqn:Er, (k_to rel) as [to|] eqn:Et, (get (fields_of m0) from); try done. cbn [many_of].
      destruct (k_inverse rel) as [inv|]; [|done]. apply fold_sound; [done|]. intros mm t Ht Hmm. apply set_in_sound; [done|].
      intros _. exists from, spec, fk, rel, to. split_and!; try done. by apply in_get.
  - intros mm [from spec] Hin Hmm. unfold add_throughs. cbn [fst snd]. apply fold_sound; [done|]. intros mm0 [name th] _ Hm0. unfold add_through.
    destruct (get specs (t_table th)) as [s|]; [|done]. destruct (get (ct_fields s) (t_to th)) as [k|]; [|done].
    destruct (k_to k) as [[target|]|]; [|done|done]. by apply set_in_sound.
Qed.

End Refs.

(** Every inverse relation of a built catalog can be walked: where a model's many side names a child model and a
    column, the child is a model of the catalog and that column is the one of a field of the child holding this model's
    key. *)
Theorem many_resolves (label_paths : string -> list string) (specs : dict CatalogTable) (t inv : string) (m : ModelInfo) (r : ManyRel)
    (Hspecs : wf_dict specs)
    (Hfields : forall name spec, get specs name = Some spec ->
       wf_dict (ct_fields spec) /\ forall fk, fk ∈ keys (ct_fields spec) -> has_dot fk = false)
    (Hm : get (by_name label_paths specs) t = Some m) (Hr : get (mi_many m) inv = Some r) (Hthrough : many_through r = None) :
  exists child n f, get (by_name label_paths specs) (many_child r) = Some child /\ get (mi_fields child) n = Some f /\
    f_column f = many_column r /\ f_of f = Some t.
Proof.
  assert (wf_dict (fields_of (maps specs))) as Hwf.
  { unfold maps. cbn [fields_of]. apply (fold_sound (fun m => wf_dict (fields_of m))); [by apply wf_set_all, NoDup_nil_2|].
    intros m0 [from spec] _ H. apply (fold_sound (fun m => wf_dict (fields_of m))); [done|]. intros m1 [fk rel] _ H1.
    unfold add_ref. destruct (is_ref rel), (k_to rel), (get (fields_of m1) (fst (from, spec))); try done. by apply wf_set. }
  assert (forall k, get (by_name label_paths specs) k =
    option_map (model_info label_paths specs (maps specs) k) (get (fields_of (maps specs)) k)) as Hby.
  { intros k. unfold by_name. cbv zeta. rewrite get_set_all by done. by destruct (get _ k). }
  rewrite Hby in Hm. destruct (get (fields_of (maps specs)) t) as [own|]; [|done]. injection Hm as <-. cbn [mi_many model_info] in Hr.
  destruct (get (many_of (maps specs)) t) as [d|] eqn:Ed; [|done].
  destruct (maps_sound specs Hspecs t d inv r Ed Hr Hthrough) as (child & spec & fk & rel & to & Hs & Hin & Href & Hto & Ht & ->).
  cbn [many_child many_column]. destruct (loops_hold specs Hspecs Hfields child spec Hs) as (fs & Hfs & Hold).
  destruct (Hold fk rel to t Hin Href Hto Ht) as (f & Hf & Hcol & Hof). rewrite Hby.
  change (fields_of (maps specs)) with (fields_of (loops specs)). rewrite Hfs. cbn [option_map].
  eexists _, _, f. split; [reflexivity|]. cbn [mi_fields model_info]. done.
Qed.
End Relations.

(** ** A schema with a one-target and a two-target reference. *)
Module Sample.
Definition ref_kind (to : string + list string) (inv : string) : KindSpec :=
  MkKind "ref" false (Some to) (Some inv) false None None None None None None None None None None None.
Definition table (fields : dict KindSpec) : CatalogTable := MkTable fields None None None None true None None.
Definition schema : dict CatalogTable :=
  [("account", table [("name", kind_only "text")]);
   ("order", table [("account", ref_kind (inl "account") "orders"); ("total", kind_only "money")]);
   ("note", table [("subject", ref_kind (inr ["account"; "order"]) "notes")])]%string.
Definition no_labels (_ : string) : list string := [].
Definition byName : dict ModelInfo := by_name no_labels schema.
Definition read : LayerFields :=
  [("account.orders.notes", None); ("account", None); ("account.orders", Some ["total"]); ("account.total", None)]%string.

Lemma levels_resolve_witness : Levels.at_path byName "account" read "account.orders.notes" "note".
Proof.
  apply (Levels.levels_resolve byName "account" read "account.orders.notes" "note"); [reflexivity| |].
  - unfold wf_dict. vm_compute keys. apply (bool_decide_unpack _). vm_compute. exact I.
  - eexists _, _. split; [vm_compute; reflexivity|]. split; [vm_compute; reflexivity|]. split_and!; vm_compute; reflexivity.
Defined.

Lemma schema_wf : wf_dict schema.
Proof. unfold wf_dict. vm_compute keys. apply (bool_decide_unpack _). vm_compute. exact I. Qed.
Lemma schema_fields (name : string) (spec : CatalogTable) : get schema name = Some spec ->
  wf_dict (ct_fields spec) /\ forall fk, fk ∈ keys (ct_fields spec) -> has_dot fk = false.
Proof.
  intros H. apply get_in in H. unfold schema in H. rewrite !elem_of_cons in H. unfold wf_dict.
  destruct H as [[= _ ->]|[[= _ ->]|[[= _ ->]|H]]]; [| | |by apply elem_of_nil in H]; vm_compute keys;
    (split; [apply (bool_decide_unpack _); vm_compute; exact I|]); intros fk Hk; rewrite ?elem_of_cons in Hk;
    repeat (destruct Hk as [->|Hk]; [reflexivity|]); by apply elem_of_nil in Hk.
Qed.
Lemma many_resolves_witness : exists child n f, get byName "note" = Some child /\ get (mi_fields child) n = Some f /\
  f_column f = "subject__order"%string /\ f_of f = Some "order"%string.
Proof.
  destruct (get byName "order") as [m|] eqn:Em; [|vm_compute in Em; discriminate Em].
  apply (Relations.many_resolves no_labels schema "order" "notes" m (MkMany "notes" "note" "subject__order" None));
    [exact schema_wf|exact schema_fields|exact Em| |reflexivity].
  vm_compute in Em. injection Em as <-. reflexivity.
Defined.
End Sample.
