(* ===== verification/Contracts.v ===== *)
(** The engine's shared types: actors, arms and the compiled authority of [packages/bolt/src/engine/contracts.ts]. *)
From S2P Require Import Prelude Ir.

Record Party := MkParty { party_model : string; party_id : string }.

Record MemberActor := MkMember {
  ma_id : string; ma_email : option string; ma_phone : option string; ma_external : bool; ma_teams : list string;
  ma_teamPath : list string; ma_admin : bool; ma_party : option Party }.

Inductive SystemBy :=
| ByAutomation (automation : string)
| ByPlatform (platform : string)
| BySync (sync instance : string).

Inductive EngineActor :=
| ActMember (m : MemberActor)
| ActEnvoy (envoy instance sender : string) (member : option string) (linked : option MemberActor)
| ActVisitor (app visitor : string) (anonymous : bool)
| ActApiKey (key : string)
| ActSystem (run : string) (by_ : SystemBy).

(** A read arm, a create or update arm, a delete arm. *)
Record Arm := MkArm { arm_policy : string; arm_where : Pred }.
Record WriteArm := MkWriteArm { wa_policy : string; wa_columns : dict (list string); wa_check : bool }.
Record DeleteArm := MkDeleteArm { da_policy : string; da_check : bool }.

Inductive Moves := AllMoves | Edges (edges : list string).

Record ModelAuthority := MkModelAuthority {
  ma_read : dict (dict (list Arm)); ma_history : list Arm; ma_create : list WriteArm; ma_update : list WriteArm;
  ma_delete : list DeleteArm; ma_moves : dict Moves }.

Inductive Per := PerActor | PerIp | PerSender | PerSubject.
Record LimitRule := MkLimit { lim_key : string; lim_rate : string; lim_per : Per }.

Record Capabilities := MkCaps { cap_apps : list string; cap_kiosks : list string; cap_tools : list string; cap_mcp : list string }.

(** An admin's preview of another member or of a team. *)
Record Preview := MkPreview { prev_by : string; prev_team : option string }.

Record Holder := MkHolder {
  h_actor : EngineActor; h_policies : list string; h_admin : bool; h_platform : bool; h_teamTree : list string;
  h_scopes : dict (list string) }.

Record Authority := MkAuthority {
  au_key : string; au_actor : EngineActor; au_admin : bool; au_policies : list string; au_preview : option Preview;
  au_kiosk : option string; au_agent : option string; au_run : option (Z * Holder);
  au_models : dict ModelAuthority; au_automations : list string; au_capabilities : Capabilities;
  au_limits : list LimitRule; au_teamTree : list string; au_scopes : dict (list string) }.

#[export] Instance SystemBy_eq_dec : EqDecision SystemBy. Proof. solve_decision. Defined.
#[export] Instance Party_eq_dec : EqDecision Party. Proof. solve_decision. Defined.
#[export] Instance MemberActor_eq_dec : EqDecision MemberActor. Proof. solve_decision. Defined.
#[export] Instance EngineActor_eq_dec : EqDecision EngineActor. Proof. solve_decision. Defined.
#[export] Instance Per_eq_dec : EqDecision Per. Proof. solve_decision. Defined.

Definition kind_of (a : EngineActor) : string :=
  match a with
  | ActMember _ => "member" | ActEnvoy _ _ _ _ _ => "envoy" | ActVisitor _ _ _ => "visitor" | ActApiKey _ => "apiKey"
  | ActSystem _ _ => "system"
  end.

(** [actorRef] of write/commit.ts: an actor as the log names it. *)
Definition actorRef (a : EngineActor) : string :=
  kind_of a +:+ ":" +:+
  match a with
  | ActMember m => ma_id m
  | ActSystem run _ => run
  | ActApiKey key => key
  | ActVisitor _ visitor _ => visitor
  | ActEnvoy _ _ sender _ _ => sender
  end.

(** [actorId] of write/commit.ts: the [sys_user] an actor is, if any. *)
Definition actorId (a : EngineActor) : option string :=
  match a with
  | ActMember m => Some (ma_id m)
  | ActEnvoy _ _ _ m _ => m
  | ActVisitor _ visitor true => Some visitor
  | _ => None
  end.

(** ** Changes. *)

(** A row's stored values in wire form. *)
Definition Row := dict Json.
(** One committed row change. *)
Inductive CapturedOp := OpCreate | OpUpdate | OpDelete.
Inductive Cause := Direct | Cascade | Derived | Erased.
Record Captured := MkCaptured {
  c_model : string; c_id : string; c_op : CapturedOp; c_revision : Z; c_old : option Row; c_new : option Row; c_cause : Cause }.
#[export] Instance CapturedOp_eq_dec : EqDecision CapturedOp. Proof. solve_decision. Defined.
#[export] Instance Cause_eq_dec : EqDecision Cause. Proof. solve_decision. Defined.
