(* ===== verification/Hash.v ===== *)
(** Hashing, [packages/std/src/hash.ts]: SHA-256 in plain JavaScript, with its 32-bit arithmetic written out, and the
    canonical JSON text the store hashes. Module [Sha256] shows the routine is the standard's function, module [Canonical]
    that equal canonical texts are equal values. *)
From Stdlib Require Import Sorted.
From S2P Require Import Prelude Ir.

(** ** 32-bit words.

    A JavaScript bit operator reads its operands modulo 2^32 and answers an [int32]; a [Uint32Array] stores its elements
    modulo 2^32. *)

(** [x >>> 0], and what a [Uint32Array] stores. *)
Definition u32 (x : Z) : Z := x mod 2 ^ 32.
(** [x | 0]. *)
Definition i32 (x : Z) : Z := (x + 2 ^ 31) mod 2 ^ 32 - 2 ^ 31.
Definition js_shr (x n : Z) : Z := Z.shiftr (u32 x) n.
Definition js_shl (x n : Z) : Z := i32 (Z.shiftl x n).
Definition js_or (x y : Z) : Z := i32 (Z.lor x y).
Definition js_xor (x y : Z) : Z := i32 (Z.lxor x y).
Definition js_and (x y : Z) : Z := i32 (Z.land x y).
Definition js_not (x : Z) : Z := i32 (Z.lnot x).

Definition rotr (x n : Z) : Z := js_or (js_shr x n) (js_shl x (32 - n)).

Definition bytes := list Z.
Definition byte_at (b : bytes) (i : nat) : Z := nth i b 0.
(** The word of four bytes. *)
Definition word (b : bytes) (i : nat) : Z :=
  js_or (js_or (js_or (js_shl (byte_at b i) 24) (js_shl (byte_at b (i + 1)) 16)) (js_shl (byte_at b (i + 2)) 8)) (byte_at b (i + 3)).

(** ** Blocks of 64 bytes. *)

(** [view.setUint32(o, v)]. *)
Definition be32 (v : Z) : bytes := [u32 v / 2 ^ 24; u32 v / 2 ^ 16 mod 256; u32 v / 2 ^ 8 mod 256; u32 v mod 256].
Fixpoint chunk (n : nat) (data : bytes) : list bytes :=
  match n with O => [] | S n' => take 64 data :: chunk n' (skipn 64 data) end.
(** The tail: what is left of the data, the byte 0x80, zeros, and the length in bits as two words. *)
Definition tail_of (data : bytes) : bytes :=
  let n := length data in
  let full := (n - n mod 64)%nat in
  let size := if (n - full <? 56)%nat then 64%nat else 128%nat in
  let rest := skipn full data in
  rest ++ [128] ++ repeat 0 (size - 9 - length rest) ++
  be32 (Z.of_nat n / 536870912) ++ be32 (js_shr (Z.of_nat n * 8) 0).
(** The blocks [blocks] hands over, in order. *)
Definition blocks (data : bytes) : list bytes :=
  let n := length data in
  chunk (n / 64) data ++ chunk (length (tail_of data) / 64) (tail_of data).

(** ** The compression function. *)

(** The constants, a row of the source's table at a time: eight words written as one number, the first the highest. *)
Definition row_words (row : Z) : list Z := map (fun i => u32 (Z.shiftr row (32 * Z.of_nat i))) [7; 6; 5; 4; 3; 2; 1; 0]%nat.
Definition K256 : list Z :=
  Eval vm_compute in concat (map row_words [
    0x428a2f98_71374491_b5c0fbcf_e9b5dba5_3956c25b_59f111f1_923f82a4_ab1c5ed5;
    0xd807aa98_12835b01_243185be_550c7dc3_72be5d74_80deb1fe_9bdc06a7_c19bf174;
    0xe49b69c1_efbe4786_0fc19dc6_240ca1cc_2de92c6f_4a7484aa_5cb0a9dc_76f988da;
    0x983e5152_a831c66d_b00327c8_bf597fc7_c6e00bf3_d5a79147_06ca6351_14292967;
    0x27b70a85_2e1b2138_4d2c6dfc_53380d13_650a7354_766a0abb_81c2c92e_92722c85;
    0xa2bfe8a1_a81a664b_c24b8b70_c76c51a3_d192e819_d6990624_f40e3585_106aa070;
    0x19a4c116_1e376c08_2748774c_34b0bcb5_391c0cb3_4ed8aa4a_5b9cca4f_682e6ff3;
    0x748f82ee_78a5636f_84c87814_8cc70208_90befffa_a4506ceb_bef9a3f7_c67178f2]).
Definition H256 : list Z :=
  [0x6a09e667; 0xbb67ae85; 0x3c6ef372; 0xa54ff53a; 0x510e527f; 0x9b05688c; 0x1f83d9ab; 0x5be0cd19].

Record Regs := MkRegs { ra : Z; rb : Z; rc : Z; rd : Z; re : Z; rf : Z; rg : Z; rh : Z }.

(** The message schedule: sixteen words of the block, then the recurrence. *)
Definition next_word (w : list Z) : Z :=
  let t := length w in
  let x := nth (t - 15) w 0 in
  let y := nth (t - 2) w 0 in
  u32 (nth (t - 16) w 0 + js_xor (js_xor (rotr x 7) (rotr x 18)) (js_shr x 3) + nth (t - 7) w 0
       + js_xor (js_xor (rotr y 17) (rotr y 19)) (js_shr y 10)).
Fixpoint extend (n : nat) (w : list Z) : list Z := match n with O => w | S n' => extend n' (w ++ [next_word w]) end.
Definition schedule (b : bytes) : list Z := extend 48 (map (fun t => u32 (word b (t * 4))) (seq 0 16)).

(** One turn of the loop over the registers. *)
Definition turn (r : Regs) (kw : Z * Z) : Regs :=
  let '(k, w) := kw in
  let e := re r in
  let a := ra r in
  let t1 := i32 (rh r + js_xor (js_xor (rotr e 6) (rotr e 11)) (rotr e 25)
                 + js_xor (js_and e (rf r)) (js_and (js_not e) (rg r)) + k + w) in
  let t2 := i32 (js_xor (js_xor (rotr a 2) (rotr a 13)) (rotr a 22)
                 + js_xor (js_xor (js_and a (rb r)) (js_and a (rc r))) (js_and (rb r) (rc r))) in
  MkRegs (i32 (t1 + t2)) a (rb r) (rc r) (i32 (rd r + t1)) e (rf r) (rg r).
Definition regs_of (h : list Z) : Regs :=
  MkRegs (nth 0 h 0) (nth 1 h 0) (nth 2 h 0) (nth 3 h 0) (nth 4 h 0) (nth 5 h 0) (nth 6 h 0) (nth 7 h 0).
Definition of_regs (r : Regs) : list Z := [ra r; rb r; rc r; rd r; re r; rf r; rg r; rh r].
Definition compress (h : list Z) (b : bytes) : list Z :=
  zip_with (fun x y => u32 (x + y)) h (of_regs (fold_left turn (zip K256 (schedule b)) (regs_of h))).
Definition scalar (data : bytes) : bytes := concat (map be32 (fold_left compress (blocks data) H256)).

(** [toHex]. *)
Definition hex_digit (d : Z) : ascii := if d <? 10 then digit_char d else chr (Z.to_N (d + 87)).
Fixpoint toHex (b : bytes) : string :=
  match b with [] => EmptyString | x :: b' => String (hex_digit (x / 16)) (String (hex_digit (x mod 16)) (toHex b')) end.
(** The UTF-8 bytes of a text. *)
Fixpoint utf8 (s : string) : bytes := match s with EmptyString => [] | String c s' => Z.of_N (N_of_ascii c) :: utf8 s' end.
(** [sha256Hex] of a text where the process has no native digest. *)
Definition sha256Hex (s : string) : string := toHex (scalar (utf8 s)).

Example sha256_abc : sha256Hex "abc" = "ba7816bf8f01cfea414140de5dae2223b00361a396177a9cb410ff61f20015ad"%string.
Proof. vm_compute. reflexivity. Qed.
Example sha256_two_blocks :
  sha256Hex "abcdbcdecdefdefgefghfghighijhijkijkljklmklmnlmnomnopnopq" =
  "248d6a61d20638b8e5c026930c3e6039a33ce45964ff2167f6ecedd419db06c1"%string.
Proof. vm_compute. reflexivity. Qed.

(** ** The standard's function (FIPS 180-4), over words in [0, 2^32). *)
Module Fips.
Definition ROTR (n x : Z) : Z := Z.lor (Z.shiftr x n) (u32 (Z.shiftl x (32 - n))).
Definition SHR (n x : Z) : Z := Z.shiftr x n.
Definition not32 (x : Z) : Z := 2 ^ 32 - 1 - x.
Definition Ch (x y z : Z) : Z := Z.lxor (Z.land x y) (Z.land (not32 x) z).
Definition Maj (x y z : Z) : Z := Z.lxor (Z.lxor (Z.land x y) (Z.land x z)) (Z.land y z).
Definition Sigma0 (x : Z) : Z := Z.lxor (Z.lxor (ROTR 2 x) (ROTR 13 x)) (ROTR 22 x).
Definition Sigma1 (x : Z) : Z := Z.lxor (Z.lxor (ROTR 6 x) (ROTR 11 x)) (ROTR 25 x).
Definition sigma0 (x : Z) : Z := Z.lxor (Z.lxor (ROTR 7 x) (ROTR 18 x)) (SHR 3 x).
Definition sigma1 (x : Z) : Z := Z.lxor (Z.lxor (ROTR 17 x) (ROTR 19 x)) (SHR 10 x).
(** The message, a one bit, zero bits up to 448 modulo 512, and the length in bits as 64 bits. *)
Definition pad (data : bytes) : bytes :=
  let n := Z.of_nat (length data) in
  data ++ [128] ++ repeat 0 (Z.to_nat ((55 - n) mod 64)) ++ be32 (8 * n / 2 ^ 32) ++ be32 (8 * n mod 2 ^ 32).
Definition word_at (b : bytes) (i : nat) : Z :=
  byte_at b i * 2 ^ 24 + byte_at b (i + 1) * 2 ^ 16 + byte_at b (i + 2) * 2 ^ 8 + byte_at b (i + 3).
Fixpoint W_from (n : nat) (w : list Z) : list Z :=
  match n with
  | O => w
  | S n' =>
      let t := length w in
      W_from n' (w ++ [u32 (sigma1 (nth (t - 2) w 0) + nth (t - 7) w 0 + sigma0 (nth (t - 15) w 0) + nth (t - 16) w 0)])
  end.
Definition W (b : bytes) : list Z := W_from 48 (map (fun t => word_at b (t * 4)) (seq 0 16)).
Definition round (r : Regs) (kw : Z * Z) : Regs :=
  let T1 := u32 (rh r + Sigma1 (re r) + Ch (re r) (rf r) (rg r) + fst kw + snd kw) in
  let T2 := u32 (Sigma0 (ra r) + Maj (ra r) (rb r) (rc r)) in
  MkRegs (u32 (T1 + T2)) (ra r) (rb r) (rc r) (u32 (rd r + T1)) (re r) (rf r) (rg r).
Definition hash_block (H : list Z) (b : bytes) : list Z :=
  zip_with (fun x y => u32 (x + y)) H (of_regs (fold_left round (zip K256 (W b)) (regs_of H))).
Definition sha256 (data : bytes) : bytes :=
  concat (map be32 (fold_left hash_block (chunk (length (pad data) / 64) (pad data)) H256)).
End Fips.

(** ** The routine is the standard's function. *)
Module Sha256.
Import Fips.

Lemma u32_idem (x : Z) : u32 (u32 x) = u32 x.
Proof. unfold u32. by rewrite Z.mod_mod. Qed.
Lemma u32_i32 (x : Z) : u32 (i32 x) = u32 x.
Proof. unfold u32, i32. rewrite Zminus_mod_idemp_l. f_equal. lia. Qed.
Lemma u32_range (x : Z) : 0 <= u32 x < 2 ^ 32.
Proof. apply Z.mod_pos_bound. lia. Qed.
Lemma u32_small (x : Z) : 0 <= x < 2 ^ 32 -> u32 x = x.
Proof. apply Z.mod_small. Qed.
Lemma u32_ones (x : Z) : u32 x = Z.land x (Z.ones 32).
Proof. symmetry. by apply Z.land_ones. Qed.
Lemma u32_testbit (x n : Z) : 0 <= n -> Z.testbit (u32 x) n = Z.testbit x n && (n <? 32).
Proof. intros Hn. rewrite u32_ones, Z.land_spec, Z.testbit_ones_nonneg by lia. done. Qed.
(** A bitwise operator is one on words. *)
Ltac by_bits := apply Z.bits_inj'; intros n Hn; repeat (rewrite ?u32_testbit, ?Z.lxor_spec, ?Z.land_spec, ?Z.lor_spec by done);
  repeat match goal with |- context [Z.testbit ?x n] => destruct (Z.testbit x n) end; by destruct (n <? 32).
Lemma u32_lxor (x y : Z) : u32 (Z.lxor x y) = Z.lxor (u32 x) (u32 y).
Proof. by_bits. Qed.
Lemma u32_land (x y : Z) : u32 (Z.land x y) = Z.land (u32 x) (u32 y).
Proof. by_bits. Qed.
Lemma u32_lor (x y : Z) : u32 (Z.lor x y) = Z.lor (u32 x) (u32 y).
Proof. by_bits. Qed.
Lemma u32_lnot (x : Z) : u32 (Z.lnot x) = not32 (u32 x).
Proof.
  unfold not32, u32, Z.lnot. symmetry. apply (Z.mod_unique _ _ (- (x / 2 ^ 32) - 1)).
  - left. pose proof (Z.mod_pos_bound x (2 ^ 32)). lia.
  - unfold Z.pred. pose proof (Z.div_mod x (2 ^ 32)). lia.
Qed.
Create Rewrite HintDb word.
#[local] Hint Rewrite u32_idem u32_lxor u32_land u32_lor u32_lnot : word.

Lemma js_xor_word (x y : Z) : u32 (js_xor x y) = Z.lxor (u32 x) (u32 y).
Proof. unfold js_xor. by rewrite u32_i32, u32_lxor. Qed.
Lemma js_and_word (x y : Z) : u32 (js_and x y) = Z.land (u32 x) (u32 y).
Proof. unfold js_and. by rewrite u32_i32, u32_land. Qed.
Lemma js_or_word (x y : Z) : u32 (js_or x y) = Z.lor (u32 x) (u32 y).
Proof. unfold js_or. by rewrite u32_i32, u32_lor. Qed.
Lemma js_not_word (x : Z) : u32 (js_not x) = not32 (u32 x).
Proof. unfold js_not. by rewrite u32_i32, u32_lnot. Qed.
Lemma js_shr_word (x n : Z) : 0 <= n -> u32 (js_shr x n) = SHR n (u32 x).
Proof.
  intros Hn. unfold js_shr, SHR. apply u32_small. pose proof (u32_range x). rewrite Z.shiftr_div_pow2 by done. split.
  - apply Z.div_pos; lia.
  - apply Z.div_lt_upper_bound; [lia|]. pose proof (Z.pow_pos_nonneg 2 n). nia.
Qed.
Lemma js_shl_word (x n : Z) : 0 <= n -> u32 (js_shl x n) = u32 (Z.shiftl (u32 x) n).
Proof. intros Hn. unfold js_shl. rewrite u32_i32, !Z.shiftl_mul_pow2 by done. unfold u32. by rewrite Zmult_mod_idemp_l. Qed.
Lemma rotr_word (x n : Z) : 0 <= n <= 32 -> u32 (rotr x n) = ROTR n (u32 x).
Proof. intros Hn. unfold rotr, ROTR. rewrite js_or_word, js_shr_word, js_shl_word by lia. done. Qed.
#[local] Hint Rewrite js_xor_word js_and_word js_or_word js_not_word : word.

(** *** The rounds. *)
Lemma Sigma1_word (e : Z) : u32 (js_xor (js_xor (rotr e 6) (rotr e 11)) (rotr e 25)) = Sigma1 (u32 e).
Proof. unfold Sigma1. autorewrite with word. by rewrite !rotr_word by lia. Qed.
Lemma Sigma0_word (a : Z) : u32 (js_xor (js_xor (rotr a 2) (rotr a 13)) (rotr a 22)) = Sigma0 (u32 a).
Proof. unfold Sigma0. autorewrite with word. by rewrite !rotr_word by lia. Qed.
Lemma sigma0_word (x : Z) : u32 (js_xor (js_xor (rotr x 7) (rotr x 18)) (js_shr x 3)) = sigma0 (u32 x).
Proof. unfold sigma0. autorewrite with word. by rewrite !rotr_word, js_shr_word by lia. Qed.
Lemma sigma1_word (x : Z) : u32 (js_xor (js_xor (rotr x 17) (rotr x 19)) (js_shr x 10)) = sigma1 (u32 x).
Proof. unfold sigma1. autorewrite with word. by rewrite !rotr_word, js_shr_word by lia. Qed.
Lemma Ch_word (e f g : Z) : u32 (js_xor (js_and e f) (js_and (js_not e) g)) = Ch (u32 e) (u32 f) (u32 g).
Proof. unfold Ch. by autorewrite with word. Qed.
Lemma Maj_word (a b c : Z) : u32 (js_xor (js_xor (js_and a b) (js_and a c)) (js_and b c)) = Maj (u32 a) (u32 b) (u32 c).
Proof. unfold Maj. by autorewrite with word. Qed.

(** Sums of words: any summand may be read modulo 2^32. *)
Lemma u32_add (x y : Z) : u32 (u32 x + u32 y) = u32 (x + y).
Proof. unfold u32. by rewrite <- Zplus_mod. Qed.
Lemma eqm_add (x x' y y' : Z) : u32 x = u32 x' -> u32 y = u32 y' -> u32 (x + y) = u32 (x' + y').
Proof. intros Hx Hy. by rewrite <- (u32_add x), Hx, Hy, u32_add. Qed.
Lemma eqm_i32 (x y : Z) : u32 x = u32 y -> u32 (i32 x) = u32 y.
Proof. by rewrite u32_i32. Qed.
Lemma eqm_u32 (x y : Z) : u32 x = u32 y -> u32 x = u32 (u32 y).
Proof. by rewrite u32_idem. Qed.
Lemma eqm_word (x w : Z) : u32 x = w -> u32 x = u32 w.
Proof. intros <-. by rewrite u32_idem. Qed.
Definition map_regs (f : Z -> Z) (r : Regs) : Regs :=
  MkRegs (f (ra r)) (f (rb r)) (f (rc r)) (f (rd r)) (f (re r)) (f (rf r)) (f (rg r)) (f (rh r)).
Lemma turn_round (r : Regs) (k w : Z) : map_regs u32 (turn r (k, w)) = round (map_regs u32 r) (k, w).
Proof.
  destruct r as [a b c d e f g h]. unfold turn, round, map_regs. cbn [ra rb rc rd re rf rg rh fst snd].
  assert (u32 (i32 (h + js_xor (js_xor (rotr e 6) (rotr e 11)) (rotr e 25) + js_xor (js_and e f) (js_and (js_not e) g) + k + w))
    = u32 (u32 h + Sigma1 (u32 e) + Ch (u32 e) (u32 f) (u32 g) + k + w)) as H1.
  { apply eqm_i32. repeat apply eqm_add; try done; [by rewrite u32_idem|apply eqm_word, Sigma1_word|apply eqm_word, Ch_word]. }
  assert (u32 (i32 (js_xor (js_xor (rotr a 2) (rotr a 13)) (rotr a 22) + js_xor (js_xor (js_and a b) (js_and a c)) (js_and b c)))
    = u32 (Sigma0 (u32 a) + Maj (u32 a) (u32 b) (u32 c))) as H2.
  { apply eqm_i32, eqm_add; apply eqm_word; [apply Sigma0_word|apply Maj_word]. }
  f_equal; apply eqm_i32, eqm_add; try (by rewrite u32_idem); by apply eqm_u32.
Qed.
Lemma turns_rounds (kws : list (Z * Z)) (r : Regs) : map_regs u32 (fold_left turn kws r) = fold_left round kws (map_regs u32 r).
Proof.
  revert r. induction kws as [|[k w] kws IH]; intros r; [done|]. cbn [fold_left]. by rewrite IH, turn_round.
Qed.

(** *** The schedule. *)
Definition words (w : list Z) : Prop := Forall (fun x => u32 x = x) w.
Lemma nth_word (w : list Z) (i : nat) : words w -> u32 (nth i w 0) = nth i w 0.
Proof.
  intros H. revert i. induction H as [|x w Hx _ IH]; intros [|i]; cbn [nth]; try done.
Qed.
Lemma extend_W (n : nat) (w : list Z) : words w -> extend n w = W_from n w /\ words (W_from n w).
Proof.
  revert w. induction n as [|n IH]; intros w Hw; [done|]. cbn [extend W_from].
  assert (next_word w = u32 (sigma1 (nth (length w - 2) w 0) + nth (length w - 7) w 0 + sigma0 (nth (length w - 15) w 0) + nth (length w - 16) w 0)) as ->.
  { unfold next_word. pose proof (nth_word w (length w - 15) Hw) as Hx. pose proof (nth_word w (length w - 2) Hw) as Hy.
    set (x := nth (length w - 15) w 0) in *. set (y := nth (length w - 2) w 0) in *.
    transitivity (u32 (nth (length w - 16) w 0 + sigma0 (u32 x) + nth (length w - 7) w 0 + sigma1 (u32 y))).
    - repeat apply eqm_add; try done; apply eqm_word; [apply sigma0_word|apply sigma1_word].
    - rewrite Hx, Hy. f_equal. lia. }
  apply IH. apply Forall_app. split; [done|]. repeat constructor. apply u32_idem.
Qed.

(** *** The words of a block. *)
Definition is_byte (x : Z) : Prop := 0 <= x < 256.
Lemma byte_at_byte (b : bytes) (i : nat) : Forall is_byte b -> is_byte (byte_at b i).
Proof.
  intros H. unfold byte_at. destruct (nth_in_or_default i b 0) as [Hi| ->]; [|unfold is_byte; lia].
  rewrite Forall_forall in H. by apply H, list_elem_of_In.
Qed.
Lemma lor_add (a b n : Z) : 0 <= n -> 0 <= b < 2 ^ n -> Z.lor (a * 2 ^ n) b = a * 2 ^ n + b.
Proof.
  intros Hn Hb. assert (Z.land (a * 2 ^ n) b = 0) as H.
  { apply Z.bits_inj'. intros k Hk. rewrite Z.land_spec, Z.bits_0. destruct (Z.ltb_spec k n).
    - by rewrite Z.mul_pow2_bits_low.
    - rewrite <- (Z.mod_small b (2 ^ n)), Z.mod_pow2_bits_high, andb_false_r by lia. done. }
  by rewrite <- Z.lxor_lor, <- Z.add_nocarry_lxor.
Qed.
Lemma shl_byte (x n : Z) : is_byte x -> 0 <= n <= 24 -> u32 (js_shl x n) = x * 2 ^ n.
Proof.
  unfold is_byte. intros Hx Hn. rewrite js_shl_word by lia. rewrite (u32_small x) by lia. rewrite Z.shiftl_mul_pow2 by lia.
  apply u32_small. assert (0 < 2 ^ n <= 2 ^ 24) as [? ?] by (split; [apply Z.pow_pos_nonneg|apply Z.pow_le_mono_r]; lia). nia.
Qed.
Lemma word_word (b : bytes) (i : nat) : Forall is_byte b -> u32 (word b i) = word_at b i /\ u32 (word_at b i) = word_at b i.
Proof.
  intros H. unfold word, word_at. autorewrite with word. pose proof (byte_at_byte b i H) as H0.
  pose proof (byte_at_byte b (i + 1) H) as H1. pose proof (byte_at_byte b (i + 2) H) as H2. pose proof (byte_at_byte b (i + 3) H) as H3.
  rewrite !shl_byte by (done || lia). unfold is_byte in *. rewrite (u32_small (byte_at b (i + 3))) by lia. split; [|apply u32_small; lia].
  rewrite lor_add by lia.
  replace (byte_at b i * 2 ^ 24 + byte_at b (i + 1) * 2 ^ 16) with ((byte_at b i * 2 ^ 8 + byte_at b (i + 1)) * 2 ^ 16) by lia.
  rewrite lor_add by lia.
  replace ((byte_at b i * 2 ^ 8 + byte_at b (i + 1)) * 2 ^ 16 + byte_at b (i + 2) * 2 ^ 8) with
    ((byte_at b i * 2 ^ 16 + byte_at b (i + 1) * 2 ^ 8 + byte_at b (i + 2)) * 2 ^ 8) by lia.
  rewrite !lor_add by lia. lia.
Qed.
Lemma schedule_W (b : bytes) : Forall is_byte b -> schedule b = W b.
Proof.
  intros H. unfold schedule, W.
  assert (map (fun t => u32 (word b (t * 4))) (seq 0 16) = map (fun t => word_at b (t * 4)) (seq 0 16)) as ->.
  { apply map_ext. intros t. by apply word_word. }
  apply extend_W. apply Forall_fmap, Forall_true. intros t. cbn. by apply word_word.
Qed.

(** *** The blocks. *)
Lemma chunk_app (k m : nat) (a b : bytes) : length a = (64 * k)%nat -> chunk (k + m) (a ++ b) = chunk k a ++ chunk m b.
Proof.
  revert a. induction k as [|k IH]; intros a Ha; [by destruct a|]. cbn [Nat.add chunk app].
  rewrite take_app_le, skipn_app by lia. replace (64 - length a)%nat with 0%nat by lia. rewrite skipn_O. f_equal.
  apply IH. rewrite length_skipn. lia.
Qed.
Lemma chunk_take (k : nat) (data : bytes) : chunk k (take (64 * k) data) = chunk k data.
Proof.
  revert data. induction k as [|k IH]; intros data; [done|]. cbn [chunk]. f_equal.
  - rewrite take_take. f_equal. lia.
  - rewrite <- (IH (skipn 64 data)). rewrite firstn_skipn_comm. by replace (64 + 64 * k)%nat with (64 * S k)%nat by lia.
Qed.
(** The full blocks of the data and the blocks of its tail are the blocks of the padded message. *)
Lemma blocks_pad (data : bytes) : 8 * Z.of_nat (length data) < 2 ^ 53 ->
  blocks data = chunk (length (pad data) / 64) (pad data) /\ exists k, length (pad data) = (64 * k)%nat.
Proof.
  intros Hsize. set (n := length data). set (q := (n / 64)%nat). set (r := (n mod 64)%nat).
  assert (n = 64 * q + r /\ r < 64)%nat as [Hn Hr] by (unfold q, r; split; [apply Nat.div_mod_eq|apply Nat.mod_upper_bound; lia]).
  assert (tail_of data = skipn (64 * q) (pad data)) as Ht.
  { unfold tail_of, pad. fold n. fold r. replace (n - r)%nat with (64 * q)%nat by lia.
    rewrite skipn_app. fold n. replace (64 * q - n)%nat with 0%nat by lia. rewrite skipn_O. f_equal. cbn [app]. f_equal.
    rewrite length_skipn. fold n. f_equal; [f_equal|].
    - destruct (Nat.ltb_spec (n - 64 * q) 56); (rewrite <- (Nat2Z.id (_ - _ - _)); f_equal).
      + apply (Z.mod_unique _ _ (- Z.of_nat q)); lia.
      + apply (Z.mod_unique _ _ (- Z.of_nat q - 1)); lia.
    - unfold js_shr. rewrite Z.shiftr_0_r. f_equal; [|f_equal; unfold u32; f_equal; lia].
      f_equal. replace (8 * Z.of_nat n) with (Z.of_nat n * 8) by lia. change (2 ^ 32) with (536870912 * 8).
      by rewrite Z.div_mul_cancel_r. }
  assert (length (tail_of data) = (if (r <? 56)%nat then 64 else 128)%nat) as Hl.
  { unfold tail_of. fold n. fold r. replace (n - r)%nat with (64 * q)%nat by lia. rewrite !length_app, length_skipn, repeat_length.
    fold n. cbn [be32 length]. replace (n - 64 * q)%nat with r by lia. destruct (Nat.ltb_spec r 56); lia. }
  assert (length (pad data) = 64 * (q + length (tail_of data) / 64))%nat as Hp.
  { rewrite <- (take_drop (64 * q) (pad data)), length_app, <- Ht, length_take, Hl.
    assert (64 * q <= length (pad data))%nat by (unfold pad; rewrite length_app; fold n; lia).
    destruct (r <? 56)%nat; change (64 / 64)%nat with 1%nat; change (128 / 64)%nat with 2%nat; lia. }
  split; [|by eexists]. unfold blocks. fold n. fold q. rewrite Hp, Nat.mul_comm, Nat.div_mul by lia.
  rewrite <- (take_drop (64 * q) (pad data)) at 1. rewrite chunk_app; [|rewrite length_take; lia]. rewrite <- Ht. f_equal.
  rewrite <- (chunk_take q data). f_equal. unfold pad. rewrite take_app_le; [done|fold n; lia].
Qed.

Lemma regs_words (h : list Z) : words h -> map_regs u32 (regs_of h) = regs_of h.
Proof. intros H. unfold map_regs, regs_of. cbn [ra rb rc rd re rf rg rh]. by rewrite !nth_word. Qed.
Lemma rounds_of (h : list Z) (kws : list (Z * Z)) : words h ->
  of_regs (fold_left round kws (regs_of h)) = map u32 (of_regs (fold_left turn kws (regs_of h))).
Proof. intros H. pose proof (turns_rounds kws (regs_of h)) as E. rewrite regs_words in E by done. by rewrite <- E. Qed.
Lemma feed_forward (h k : list Z) : words h -> zip_with (fun x y => u32 (x + y)) h k = zip_with (fun x y => u32 (x + y)) h (map u32 k).
Proof.
  intros H. revert k. induction H as [|x h Hx _ IH]; intros [|y k]; [done..|]. cbn [zip_with map]. rewrite IH. f_equal.
  rewrite <- (u32_add x (u32 y)), u32_idem. by rewrite u32_add.
Qed.
Lemma zip_words (h k : list Z) : words (zip_with (fun x y => u32 (x + y)) h k).
Proof. revert k. induction h as [|x h IH]; intros [|y k]; constructor; [apply u32_idem|apply IH]. Qed.
Lemma compress_hash (h : list Z) (b : bytes) : words h -> Forall is_byte b -> compress h b = hash_block h b /\ words (compress h b).
Proof.
  intros Hh Hb. unfold compress, hash_block. split; [|apply zip_words]. rewrite schedule_W, feed_forward by done.
  by rewrite <- rounds_of.
Qed.
Lemma compress_all (bs : list bytes) (h : list Z) : words h -> Forall (Forall is_byte) bs -> fold_left compress bs h = fold_left hash_block bs h.
Proof.
  intros Hh H. revert h Hh. induction H as [|b bs Hb _ IH]; intros h Hh; [done|]. cbn [fold_left].
  destruct (compress_hash h b Hh Hb) as [E Hw]. rewrite <- E. by apply IH.
Qed.

Lemma be32_bytes (v : Z) : Forall is_byte (be32 v).
Proof.
  pose proof (u32_range v). unfold be32, is_byte. repeat constructor; try (apply Z.mod_pos_bound; lia).
  - apply Z.div_pos; lia.
  - apply Z.div_lt_upper_bound; lia.
Qed.
Lemma pad_bytes (data : bytes) : Forall is_byte data -> Forall is_byte (pad data).
Proof.
  intros H. unfold pad. repeat (apply Forall_app; split); try done; try apply be32_bytes.
  - repeat constructor; lia.
  - apply Forall_forall. intros x Hx. apply list_elem_of_In, repeat_spec in Hx as ->. unfold is_byte. lia.
Qed.
Lemma chunk_bytes (k : nat) (data : bytes) : Forall is_byte data -> Forall (Forall is_byte) (chunk k data).
Proof. revert data. induction k as [|k IH]; intros data H; constructor; [by apply Forall_take|]. by apply IH, Forall_drop. Qed.

(** The plain JavaScript SHA-256, with its signed 32-bit operators, its stored words modulo 2^32 and the blocks it reads in
    place before a copied tail, is the standard's function on every byte string shorter than a petabyte. *)
Theorem scalar_fips (data : bytes) (Hb : Forall is_byte data) (Hn : 8 * Z.of_nat (length data) < 2 ^ 53) :
  scalar data = Fips.sha256 data.
Proof.
  unfold scalar, Fips.sha256. destruct (blocks_pad data Hn) as [-> _]. f_equal. f_equal. apply compress_all.
  - repeat constructor.
  - by apply chunk_bytes, pad_bytes.
Qed.
Lemma scalar_fips_witness : scalar [97; 98; 99] = Fips.sha256 [97; 98; 99].
Proof. apply scalar_fips; [repeat constructor; cbn; lia|cbn; lia]. Defined.
End Sha256.

(** ** Canonical JSON.

    [JSON.stringify] with a replacer that rebuilds each object from its entries sorted by key: the engine then lists array
    indices first, in numeric order, and the other keys in the order they were set. *)
Section Canonical.
(** [String(n)] of a finite number: the shortest text that reads back, the language's. *)
Context (number_text : number -> string).

Definition BACKSLASH : ascii := chr 92.
(** A character of a JSON string. *)
Definition escape (c : ascii) : string :=
  let n := N_of_ascii c in
  let esc := fun x : N => String BACKSLASH (String (chr x) EmptyString) in
  if (n =? 34)%N then esc 34%N else if (n =? 92)%N then esc 92%N
  else if (n =? 8)%N then esc 98%N else if (n =? 9)%N then esc 116%N else if (n =? 10)%N then esc 110%N
  else if (n =? 12)%N then esc 102%N else if (n =? 13)%N then esc 114%N
  else if (n <? 32)%N then
    String BACKSLASH ("u00" +:+ String (hex_digit (Z.of_N n / 16)) (String (hex_digit (Z.of_N n mod 16)) EmptyString))
  else String c EmptyString.
Fixpoint escaped (s : string) : string := match s with EmptyString => EmptyString | String c s' => escape c +:+ escaped s' end.
Definition quote (s : string) : string := String QUOTE (escaped s +:+ String QUOTE EmptyString).

(** An array index: a number below 2^32 - 1 in its own decimal text. *)
Definition is_index (k : string) : bool :=
  all_chars is_digit k && String.eqb k (digits_of (digits_val k)) && (digits_val k <? 2 ^ 32 - 1).
Section Sort.
Context {A : Type} (lt : string -> string -> bool).
Fixpoint insert_by (kv : string * A) (l : dict A) : dict A :=
  match l with [] => [kv] | y :: l' => if lt (fst y) (fst kv) then y :: insert_by kv l' else kv :: y :: l' end.
Fixpoint sort_by (l : dict A) : dict A := match l with [] => [] | x :: l' => insert_by x (sort_by l') end.
End Sort.
Definition index_lt (a b : string) : bool := digits_val a <? digits_val b.
(** The entries of [Object.fromEntries(Object.entries(o).sort(...))], in the order they are listed. *)
Definition member_order {A} (o : dict A) : dict A :=
  let sorted := sort_by str_ltb o in
  sort_by index_lt (List.filter (fun kv => is_index (fst kv)) sorted) ++ List.filter (fun kv => negb (is_index (fst kv))) sorted.

Definition member_text (kt : string * string) : string := quote (fst kt) +:+ ":" +:+ snd kt.
Fixpoint canonical (v : Json) : string :=
  match v with
  | JNull => "null"
  | JBool b => if b then "true" else "false"
  | JNumber n => number_text n
  | JString s => quote s
  | JArray l => "[" +:+ join "," (map canonical l) +:+ "]"
  | JObject o => "{" +:+ join "," (map member_text (member_order (map (fun kv => (fst kv, canonical (snd kv))) o))) +:+ "}"
  end.
End Canonical.

(** ** Equal texts are equal values. *)
Module Canonical.

(** Equality of values up to the order of members and the representation of numbers. *)
Inductive same_json : Json -> Json -> Prop :=
| same_null : same_json JNull JNull
| same_bool b : same_json (JBool b) (JBool b)
| same_number n m : (n == m)%Q -> same_json (JNumber n) (JNumber m)
| same_string s : same_json (JString s) (JString s)
| same_array l m : Forall2 same_json l m -> same_json (JArray l) (JArray m)
| same_object o o' p p' : o ≡ₚ o' -> p' ≡ₚ p -> Forall2 (fun x y => fst x = fst y /\ same_json (snd x) (snd y)) o' p' ->
    same_json (JObject o) (JObject p).
(** At most one member per key, at every depth. *)
Fixpoint wf_json (v : Json) : Prop :=
  match v with
  | JArray l => foldr (fun x P => wf_json x /\ P) True l
  | JObject o => wf_dict o /\ foldr (fun kv P => wf_json (snd kv) /\ P) True o
  | _ => True
  end.

Section Sorting.
Context {A : Type}.
Implicit Types l : dict A.
Lemma insert_by_perm (lt : string -> string -> bool) (kv : string * A) l : insert_by lt kv l ≡ₚ kv :: l.
Proof.
  induction l as [|y l IH]; cbn; [done|]. destruct (lt _ _); [|done]. rewrite IH. apply Permutation_swap.
Qed.
Lemma sort_by_perm (lt : string -> string -> bool) l : sort_by lt l ≡ₚ l.
Proof. induction l as [|x l IH]; cbn; [done|]. rewrite insert_by_perm. by f_equiv. Qed.
Lemma member_order_perm l : member_order l ≡ₚ l.
Proof.
  unfold member_order. rewrite sort_by_perm. rewrite <- (sort_by_perm str_ltb l) at 3. generalize (sort_by str_ltb l). clear l.
  intros l. induction l as [|x l IH]; cbn; [done|]. destruct (is_index (fst x)); cbn; [by f_equiv|].
  rewrite <- Permutation_middle. by f_equiv.
Qed.

Section Order.
Context (lt : string -> string -> bool) (P : string -> Prop).
Hypothesis Hirr : forall a, lt a a = false.
Hypothesis Htrans : forall a b c, lt a b = true -> lt b c = true -> lt a c = true.
Hypothesis Htotal : forall a b, P a -> P b -> lt a b = false -> lt b a = false -> a = b.
Definition ascends : dict A -> Prop := StronglySorted (fun x y => lt (fst x) (fst y) = true).
Lemma insert_ascends (kv : string * A) l : ascends l -> Forall P (keys (kv :: l)) -> fst kv ∉ keys l -> ascends (insert_by lt kv l).
Proof.
  intros Hs HP Hn. induction Hs as [|y l Hs IH Hy]; cbn [insert_by]; [repeat constructor|].
  cbn [keys map] in HP, Hn. apply Forall_cons in HP as [Hk HP]. apply Forall_cons in HP as [Hyk HP].
  apply not_elem_of_cons in Hn as [Hne Hn]. destruct (lt (fst y) (fst kv)) eqn:E.
  - constructor; [apply IH; [by constructor|done]|]. rewrite insert_by_perm. by constructor.
  - assert (lt (fst kv) (fst y) = true) as E'.
    { destruct (lt (fst kv) (fst y)) eqn:E'; [done|]. exfalso. apply Hne. by apply Htotal. }
    constructor; [by constructor|]. constructor; [done|]. eapply Forall_impl; [exact Hy|]. intros z Hz. by eapply Htrans.
Qed.
Lemma sort_ascends l : Forall P (keys l) -> wf_dict l -> ascends (sort_by lt l).
Proof.
  unfold wf_dict. induction l as [|x l IH]; intros HP Hd; [constructor|]. cbn [keys map] in HP, Hd.
  apply NoDup_cons in Hd as [Hx Hd]. pose proof HP as [_ HP']%Forall_cons. cbn [sort_by].
  apply insert_ascends; [by apply IH| |].
  - cbn [keys map]. change (map fst (sort_by lt l)) with (fst <$> sort_by lt l). by rewrite (sort_by_perm lt l).
  - unfold keys. change (map fst (sort_by lt l)) with (fst <$> sort_by lt l). by rewrite (sort_by_perm lt l).
Qed.
Lemma ascends_unique l m : ascends l -> ascends m -> l ≡ₚ m -> l = m.
Proof.
  intros Hl. revert m. induction Hl as [|x l Hl IH Hx]; intros m Hm HP.
  - by apply Permutation_nil_l in HP.
  - destruct Hm as [|y m Hm Hy]; [by apply symmetry, Permutation_nil_cons in HP|].
    assert (x = y) as ->.
    { assert (x ∈ y :: m) as Hx' by (rewrite <- HP; by left). assert (y ∈ x :: l) as Hy' by (rewrite HP; by left).
      apply elem_of_cons in Hx' as [|Hx']; [done|]. apply elem_of_cons in Hy' as [|Hy']; [done|].
      rewrite Forall_forall in Hx, Hy. pose proof (Htrans _ _ _ (Hx y Hy') (Hy x Hx')). by rewrite Hirr in *. }
    f_equal. apply IH; [done|]. by apply Permutation_cons_inv in HP.
Qed.
Lemma sort_unique l m : Forall P (keys l) -> wf_dict l -> l ≡ₚ m -> sort_by lt l = sort_by lt m.
Proof.
  intros HP Hd HE. assert (keys l ≡ₚ keys m) as HK by (unfold keys; by apply Permutation_map).
  apply ascends_unique; [by apply sort_ascends| |by rewrite !sort_by_perm].
  apply sort_ascends; [by rewrite <- HK|]. unfold wf_dict. by rewrite <- HK.
Qed.
End Order.
End Sorting.

Lemma index_lt_total (a b : string) : is_index a = true -> is_index b = true -> index_lt a b = false -> index_lt b a = false -> a = b.
Proof.
  unfold is_index, index_lt. rewrite !andb_true_iff, !String.eqb_eq, !Z.ltb_ge. intros [[_ Ha] _] [[_ Hb] _] H1 H2.
  rewrite Ha, Hb. f_equal. lia.
Qed.
Lemma keys_filter {A} (f : string * A -> bool) (l : dict A) : wf_dict l -> wf_dict (List.filter f l).
Proof.
  unfold wf_dict, keys. induction l as [|x l IH]; cbn; [done|]. intros [Hx Hd]%NoDup_cons. destruct (f x); [|by apply IH]. cbn.
  apply NoDup_cons. split; [|by apply IH]. intros Hin. apply Hx. apply list_elem_of_In, in_map_iff in Hin as (y & <- & Hy).
  apply filter_In in Hy as [Hy _]. apply list_elem_of_In. by apply in_map.
Qed.
Lemma filter_permutation {A} (f : A -> bool) (l m : list A) : l ≡ₚ m -> List.filter f l ≡ₚ List.filter f m.
Proof.
  induction 1 as [|x l m _ IH|x y l|l m k _ IH1 _ IH2]; cbn; [done| | |by etrans].
  - destruct (f x); [by f_equiv|done].
  - destruct (f x), (f y); try done. apply Permutation_swap.
Qed.
Lemma wf_perm {A} (l m : dict A) : l ≡ₚ m -> wf_dict l -> wf_dict m.
Proof. intros HE. unfold wf_dict, keys. by rewrite (Permutation_map fst HE). Qed.
Lemma member_order_unique {A} (l m : dict A) : wf_dict l -> l ≡ₚ m -> member_order l = member_order m.
Proof.
  intros Hd HE. unfold member_order. rewrite (sort_unique str_ltb (fun _ => True) str_ltb_irrefl str_ltb_trans) with (m := m); try done.
  - intros a b _ _. apply str_ltb_total.
  - by apply Forall_true.
Qed.
Lemma insert_by_map {A B} (lt : string -> string -> bool) (f : A -> B) (kv : string * A) (l : dict A) :
  map (prod_map id f) (insert_by lt kv l) = insert_by lt (prod_map id f kv) (map (prod_map id f) l).
Proof. induction l as [|y l IH]; cbn [insert_by map]; [done|]. cbn [prod_map fst id]. destruct (lt _ _); cbn [map]; by rewrite ?IH. Qed.
Lemma sort_by_map {A B} (lt : string -> string -> bool) (f : A -> B) (l : dict A) :
  map (prod_map id f) (sort_by lt l) = sort_by lt (map (prod_map id f) l).
Proof. induction l as [|x l IH]; [done|]. cbn [sort_by map]. by rewrite insert_by_map, IH. Qed.
Lemma filter_map_key {A B} (g : string -> bool) (f : A -> B) (l : dict A) :
  List.filter (fun kv => g (fst kv)) (map (prod_map id f) l) = map (prod_map id f) (List.filter (fun kv => g (fst kv)) l).
Proof. induction l as [|[k x] l IH]; [done|]. cbn [map List.filter prod_map fst snd id]. destruct (g k); cbn [map]; by rewrite IH. Qed.
Lemma member_order_map {A B} (f : A -> B) (l : dict A) : member_order (map (prod_map id f) l) = map (prod_map id f) (member_order l).
Proof.
  unfold member_order. rewrite <- sort_by_map, (filter_map_key is_index), (filter_map_key (fun k => negb (is_index k))).
  by rewrite <- sort_by_map, map_app.
Qed.

(** *** Reading a text back. *)
Definition hex_val (c : ascii) : Z := let n := Z.of_N (N_of_ascii c) in if n <? 58 then n - 48 else n - 87.
(** The first character of an escaped text and what follows it; [None] at a quotation mark or the end. *)
Definition unescape (s : string) : option (ascii * string) :=
  match s with
  | EmptyString => None
  | String c r =>
      if Ascii.eqb c QUOTE then None
      else if Ascii.eqb c BACKSLASH then
        match r with
        | EmptyString => None
        | String e r' =>
            let n := N_of_ascii e in
            if (n =? 34)%N then Some (chr 34, r') else if (n =? 92)%N then Some (chr 92, r')
            else if (n =? 98)%N then Some (chr 8, r') else if (n =? 116)%N then Some (chr 9, r')
            else if (n =? 110)%N then Some (chr 10, r') else if (n =? 102)%N then Some (chr 12, r')
            else if (n =? 114)%N then Some (chr 13, r')
            else
              match r' with
              | String _ (String _ (String h (String l r''))) => Some (chr (Z.to_N (hex_val h * 16 + hex_val l)), r'')
              | _ => None
              end
        end
      else Some (c, r)
  end.
Lemma unescape_escape (c : ascii) (r : string) : unescape (escape c +:+ r) = Some (c, r).
Proof. destruct c as [[] [] [] [] [] [] [] []]; reflexivity. Qed.
Lemma unescape_quote (r : string) : unescape (String QUOTE r) = None.
Proof. reflexivity. Qed.
Lemma escaped_inj (s t r r' : string) : escaped s +:+ String QUOTE r = escaped t +:+ String QUOTE r' -> s = t /\ r = r'.
Proof.
  revert t. induction s as [|c s IH]; intros [|d t]; cbn [escaped]; rewrite ?append_assoc_s.
  - by intros [= ->].
  - intros H. apply (f_equal unescape) in H. change ("" +:+ String QUOTE r) with (String QUOTE r) in H.
    by rewrite unescape_quote, unescape_escape in H.
  - intros H. apply (f_equal unescape) in H. change ("" +:+ String QUOTE r') with (String QUOTE r') in H.
    by rewrite unescape_quote, unescape_escape in H.
  - intros H. apply (f_equal unescape) in H. rewrite !unescape_escape in H. injection H as -> H.
    by destruct (IH _ H) as [-> ->].
Qed.
Lemma quote_inj (s t r r' : string) : quote s +:+ r = quote t +:+ r' -> s = t /\ r = r'.
Proof. unfold quote. cbn. intros [= H]. rewrite !append_assoc_s in H. by apply escaped_inj in H. Qed.

Definition is_numeric (c : ascii) : bool := is_digit c || has_char (Ascii.eqb c) "+-.eE".
Definition COMMA : ascii := ","%char.
(** A text that ends a number. *)
Definition ends (r : string) : Prop := match r with EmptyString => True | String c _ => is_numeric c = false end.

Section Items.
Context {A : Type} (txt : A -> string) (R : A -> A -> Prop) (close : ascii).
Hypothesis Hclose : is_numeric close = false.
Hypothesis Hcomma : close <> COMMA.
Hypothesis Hhead : forall a s s', txt a +:+ s <> String close s'.
Lemma items_cons (a : A) (l : list A) (r : string) :
  exists r1, join "," (map txt (a :: l)) +:+ String close r = txt a +:+ r1 /\ ends r1 /\
    match l with [] => r1 = String close r | _ => r1 = String COMMA (join "," (map txt l) +:+ String close r) end.
Proof.
  destruct l as [|b l]; cbn [map join].
  - by exists (String close r).
  - exists (String COMMA (join "," (txt b :: map txt l) +:+ String close r)). rewrite !append_assoc_s. by split_and!.
Qed.
Lemma items_inj (l : list A) :
  Forall (fun a => forall b r r', ends r -> ends r' -> txt a +:+ r = txt b +:+ r' -> R a b /\ r = r') l ->
  forall m r r', join "," (map txt l) +:+ String close r = join "," (map txt m) +:+ String close r' -> Forall2 R l m /\ r = r'.
Proof.
  induction 1 as [|a l Ha _ IH]; intros [|b m] r r'.
  - intros [= ->]. done.
  - destruct (items_cons b m r') as (r1 & -> & _). intros H. by apply eq_sym, Hhead in H.
  - destruct (items_cons a l r) as (r1 & -> & _). intros H. by apply Hhead in H.
  - destruct (items_cons a l r) as (r1 & -> & E1 & H1). destruct (items_cons b m r') as (r2 & -> & E2 & H2). intros H.
    destruct (Ha b r1 r2 E1 E2 H) as [HR ->]. destruct l as [|a' l], m as [|b' m]; subst; try (by injection H2); try congruence.
    + injection H2 as ->. by repeat constructor.
    + injection H2 as H2. destruct (IH (b' :: m) r r' H2) as [HF ->]. split; [by constructor|done].
Qed.
End Items.

Section Text.
Context (number_text : number -> string).
(** The language's number texts: equal numbers have one text, different numbers different ones, of digits, signs, a point and
    an exponent. *)
Hypothesis Htext : forall n m, number_text n = number_text m <-> (n == m)%Q.
Hypothesis Hchars : forall n, all_chars is_numeric (number_text n) = true /\ number_text n <> EmptyString.

(** The kind of a value, read off its text's first character. *)
Definition kind_at (s : string) : nat :=
  match s with
  | EmptyString => 9
  | String c _ =>
      if Ascii.eqb c "n" then 0 else if Ascii.eqb c "t" then 1 else if Ascii.eqb c "f" then 2 else if Ascii.eqb c QUOTE then 3
      else if Ascii.eqb c "[" then 4 else if Ascii.eqb c "{" then 5 else if is_numeric c then 6 else 7
  end%nat.
Definition kind_of (v : Json) : nat :=
  match v with JNull => 0 | JBool true => 1 | JBool false => 2 | JString _ => 3 | JArray _ => 4 | JObject _ => 5 | JNumber _ => 6 end%nat.
Lemma numeric_kind (c : ascii) (s : string) : is_numeric c = true -> kind_at (String c s) = 6%nat.
Proof. destruct c as [[] [] [] [] [] [] [] []]; vm_compute; intros H; congruence. Qed.
Lemma canonical_kind (v : Json) (r : string) : kind_at (canonical number_text v +:+ r) = kind_of v.
Proof.
  destruct v as [|[]|n|s|l|o]; try done. cbn [canonical kind_of]. destruct (Hchars n) as [Hc Hn].
  destruct (number_text n) as [|c t]; [done|]. cbn [all_chars] in Hc. apply andb_true_iff in Hc as [Hc _]. by apply numeric_kind.
Qed.
Lemma number_inj (n m : number) (r r' : string) : ends r -> ends r' -> number_text n +:+ r = number_text m +:+ r' -> (n == m)%Q /\ r = r'.
Proof.
  intros Hr Hr' H. apply (f_equal (span is_numeric)) in H. destruct (Hchars n) as [Hn _]. destruct (Hchars m) as [Hm _].
  assert (forall t s, all_chars is_numeric t = true -> ends s -> span is_numeric (t +:+ s) = (t, s)) as Hspan.
  { intros t [|c s] Ht Hs; [rewrite append_nil_r; by apply span_all|by apply span_stop]. }
  rewrite !Hspan in H by done. injection H as H ->. by apply Htext in H.
Qed.
Lemma canonical_text (o : dict Json) :
  map member_text (member_order (map (fun kv => (fst kv, canonical number_text (snd kv))) o)) =
  map (fun kv => quote (fst kv) +:+ ":" +:+ canonical number_text (snd kv)) (member_order o).
Proof.
  change (map (fun kv => (fst kv, canonical number_text (snd kv))) o) with (map (prod_map id (canonical number_text)) o).
  rewrite member_order_map, map_map. by apply map_ext.
Qed.

Lemma canonical_inj (a : Json) : forall b r r', ends r -> ends r' ->
  canonical number_text a +:+ r = canonical number_text b +:+ r' -> same_json a b /\ r = r'.
Proof.
  induction a as [|x|x|x|l IH|o IH] using Json_nested; intros b r r' Hr Hr' H;
    pose proof (f_equal kind_at H) as Hk; rewrite !canonical_kind in Hk; destruct b as [|y|y|y|m|p]; try (destruct x; discriminate Hk);
    try (destruct y; discriminate Hk); try discriminate Hk; try (by destruct x); try (by destruct y).
  - apply append_inj in H as [_ ->]; [|done]. by split; [constructor|].
  - destruct x, y; try discriminate Hk; apply append_inj in H as [_ ->]; try done; (split; [constructor|done]).
  - apply number_inj in H as [H ->]; [|done..]. by split; [constructor|].
  - cbn [canonical] in H. apply quote_inj in H as [-> ->]. by split; [constructor|].
  - cbn [canonical] in H. rewrite !append_assoc_s in H. injection H as H.
    apply (items_inj (canonical number_text) same_json "]"%char) in H as [H ->]; [by split; [constructor|]|done|done| |done].
    intros v s s' E. apply (f_equal kind_at) in E. rewrite canonical_kind in E. by destruct v as [|[]| | | |].
  - cbn [canonical] in H. rewrite !canonical_text, !append_assoc_s in H. injection H as H.
    apply (items_inj _ (fun x y => fst x = fst y /\ same_json (snd x) (snd y)) "}"%char) in H as [H ->]; [| done|done| |].
    + split; [|done]. econstructor; [symmetry; apply member_order_perm|apply member_order_perm|done].
    + intros v s s' E. discriminate E.
    + assert (Forall (fun kv => forall b r r', ends r -> ends r' -> canonical number_text (snd kv) +:+ r = canonical number_text b +:+ r' ->
        same_json (snd kv) b /\ r = r') (member_order o)) as IH' by (by rewrite member_order_perm).
      eapply Forall_impl; [exact IH'|]. intros [k v] Hv [k' v'] s s' Hs Hs' E. cbn [fst snd] in *. rewrite !append_assoc_s in E.
      apply quote_inj in E as [-> E]. injection E as E. by destruct (Hv v' s s' Hs Hs' E) as [? ->].
Qed.

Lemma Forall2_member (f : Json -> string) (o p : dict Json) :
  Forall2 (fun x y => fst x = fst y /\ f (snd x) = f (snd y)) o p -> map (prod_map id f) o = map (prod_map id f) p.
Proof.
  induction 1 as [|[k v] [k' v'] o p [H1 H2] _ IH]; [done|]. cbn [fst snd] in *. cbn [map prod_map fst snd id]. by rewrite H1, H2, IH.
Qed.
Lemma wf_members (o : dict Json) : wf_json (JObject o) <-> wf_dict o /\ Forall (fun kv => wf_json (snd kv)) o.
Proof.
  cbn [wf_json]. f_equiv. induction o as [|x o IH]; cbn [foldr]; [by split|]. rewrite IH, Forall_cons. done.
Qed.
Lemma wf_elements (l : list Json) : wf_json (JArray l) <-> Forall wf_json l.
Proof. cbn [wf_json]. induction l as [|x l IH]; cbn [foldr]; [by split|]. rewrite IH, Forall_cons. done. Qed.
Lemma same_canonical (a : Json) : forall b, wf_json a -> wf_json b -> same_json a b -> canonical number_text a = canonical number_text b.
Proof.
  induction a as [|x|x|x|l IH|o IH] using Json_nested; intros b Ha Hb H; inversion H; subst; cbn [canonical]; try done.
  - by apply Htext.
  - f_equal. f_equal. f_equal. apply wf_elements in Ha, Hb. match goal with E : Forall2 same_json l _ |- _ => rename E into HF end.
    clear H. induction HF as [|x y l m Hxy _ IHF]; [done|]. apply Forall_cons in IH as [IHx IH]. apply Forall_cons in Ha as [Hx Ha].
    apply Forall_cons in Hb as [Hy Hb]. cbn [map]. f_equal; [by apply IHx|by apply IHF].
  - match goal with E : Forall2 _ o' p', P : o ≡ₚ o', Q : p' ≡ₚ p |- _ => rename E into HF, P into HP, Q into HQ end.
    f_equal. f_equal. f_equal. f_equal. apply wf_members in Ha as [Hd Ha]. apply wf_members in Hb as [Hd' Hb].
    set (f := canonical number_text). change (member_order (map (prod_map id f) o) = member_order (map (prod_map id f) p)).
    assert (map (prod_map id f) o' = map (prod_map id f) p') as E.
    { rewrite HP in IH, Ha. rewrite <- HQ in Hb. apply Forall2_member. clear H Hd Hd' HP HQ.
      induction HF as [|x y u w [H1 H2] _ IHF]; constructor.
      - apply Forall_cons in IH as [IHx _]. apply Forall_cons in Ha as [Hx _]. apply Forall_cons in Hb as [Hy _]. split; [done|by apply IHx].
      - apply Forall_cons in IH as [_ IH]. apply Forall_cons in Ha as [_ Ha]. apply Forall_cons in Hb as [_ Hb]. by apply IHF. }
    rewrite (member_order_unique _ (map (prod_map id f) o')), E; [|unfold wf_dict, keys; by rewrite map_map|by apply Permutation_map].
    apply member_order_unique; [|by apply Permutation_map]. unfold wf_dict, keys. rewrite map_map. cbn. by rewrite HQ.
Qed.

(** Canonical JSON decides equality: two values whose objects have distinct keys have one canonical text exactly when they
    are equal up to the order of members, so equal values hash equal and no two different values are hashed as one text. *)
Theorem canonical_decides (a b : Json) (Ha : wf_json a) (Hb : wf_json b) :
  canonical number_text a = canonical number_text b <-> same_json a b.
Proof.
  split; [|by apply same_canonical]. intros H.
  destruct (canonical_inj a b "" "" I I) as [? _]; [by rewrite !append_nil_r|done].
Qed.
End Text.
End Canonical.

(** ** Instances. *)
Module Sample.
Import Canonical.

(** A text for every number: numerator and denominator in lowest terms. *)
Definition number_text (q : number) : string := dec_of (Qnum (Qred q)) +:+ String "e" (digits_of (Zpos (Qden (Qred q)))).
Definition dec_val (s : string) : Z := match s with String c t => if Ascii.eqb c "-" then - digits_val t else digits_val s | _ => 0 end.
Lemma dec_val_of (n : Z) : dec_val (dec_of n) = n.
Proof.
  unfold dec_of. destruct (n <? 0) eqn:E; bool_hyps; cbn [dec_val Ascii.eqb Bool.eqb].
  - rewrite digits_of_val; lia.
  - pose proof (digits_of_digits n ltac:(lia)) as Hd. pose proof (digits_of_nonempty n) as Hl. rewrite <- (digits_of_val n) at 2 by lia.
    destruct (digits_of n) as [|c t]; [by vm_compute in Hl|]. cbn [dec_val]. cbn [all_chars] in Hd. apply andb_true_iff in Hd as [Hc _].
    by destruct (Ascii.eqb_spec c "-") as [->|].
Qed.
Definition not_e (c : ascii) : bool := negb (Ascii.eqb c "e").
Lemma dec_not_e (n : Z) : all_chars not_e (dec_of n) = true /\ all_chars is_numeric (dec_of n) = true.
Proof.
  assert (forall s, all_chars is_digit s = true -> all_chars not_e s = true /\ all_chars is_numeric s = true) as H.
  { intros s Hs. split; (eapply all_chars_impl; [|exact Hs]); intros c Hc; [unfold not_e; by destruct (Ascii.eqb_spec c "e") as [->|]|].
    unfold is_numeric. by rewrite Hc. }
  unfold dec_of. destruct (n <? 0) eqn:E; bool_hyps; [cbn [all_chars]; apply (H (digits_of (- n)))|apply H]; apply digits_of_digits; lia.
Qed.
Lemma number_text_ok (n m : number) : number_text n = number_text m <-> (n == m)%Q.
Proof.
  split; [|intros H; unfold number_text; by rewrite (Qred_complete n m H)]. unfold number_text. intros H.
  pose proof (f_equal (span not_e) H) as Hs. rewrite !span_stop in Hs by (apply dec_not_e || done).
  injection Hs as H1 H2. apply (f_equal dec_val) in H1. rewrite !dec_val_of in H1.
  apply (f_equal digits_val) in H2. rewrite !digits_of_val in H2 by lia. injection H2 as H2.
  rewrite <- (Qred_correct n), <- (Qred_correct m). unfold Qeq. by rewrite H1, H2.
Qed.
Lemma number_text_chars (n : number) : all_chars is_numeric (number_text n) = true /\ number_text n <> EmptyString.
Proof.
  unfold number_text. split.
  - rewrite all_chars_append. cbn [all_chars]. destruct (dec_not_e (Qnum (Qred n))) as [_ ->].
    change (digits_of (Zpos (Qden (Qred n)))) with (dec_of (Zpos (Qden (Qred n)))). by destruct (dec_not_e (Zpos (Qden (Qred n)))) as [_ ->].
  - intros H. apply (f_equal String.length) in H. rewrite length_append in H. cbn in H. lia.
Qed.
Definition left_ : Json := JObject [("b", JArray [JNull; JNumber (inject_Z 2)]); ("a", JString "x"); ("10", JBool true)]%string.
Definition right_ : Json := JObject [("10", JBool true); ("a", JString "x"); ("b", JArray [JNull; JNumber (inject_Z 2)])]%string.
Lemma wf_sample : wf_json left_ /\ wf_json right_.
Proof.
  assert (NoDup ["b"; "a"; "10"]%string /\ NoDup ["10"; "a"; "b"]%string) as [H1 H2].
  { split; repeat (apply NoDup_cons; split; [rewrite ?not_elem_of_cons; split_and?; try discriminate; apply not_elem_of_nil|]); apply NoDup_nil_2. }
  by repeat split.
Qed.
Lemma canonical_decides_witness : canonical number_text left_ = canonical number_text right_ /\ same_json left_ right_.
Proof.
  split; [vm_compute; reflexivity|].
  apply (canonical_decides number_text number_text_ok number_text_chars left_ right_); [apply wf_sample|apply wf_sample|vm_compute; reflexivity].
Defined.
End Sample.
