(* ===== verification/Outcomes.v ===== *)
(** Failures and outcomes: the codes of [packages/bolt/src/protocol/errors.ts] with their wire status and retry class, the
    engine's errors ([engine/errors.ts]), the outcomes of a write ([engine/contracts.ts]), and how a database error becomes
    one: [refusalOf] (engine/schema/refusal.ts), [decided] (engine/write/sql.ts) and [transactionFailure]
    (engine/transactions.ts). *)
From S2P Require Import Prelude Ir Contracts.

(** ** Codes. *)

(** [CODES]. *)
Inductive Code :=
| C_active | C_approvalSplit | C_artifactDigest | C_badAnswer | C_badCursor | C_behind | C_bug | C_buildFailed
| C_busy | C_check | C_conflict | C_conflicts | C_contract | C_corrupt | C_cpuBudget | C_crossingBudget
| C_destructiveNotAccepted | C_expired | C_fenced | C_files | C_forbidden | C_guestError | C_guestRefused
| C_internal | C_interrupted | C_invalid | C_invalidCode | C_invalidCron | C_invalidInput | C_invalidRecords
| C_invalidSpec | C_invalidWhere | C_keyReuse | C_lastAdmin | C_locked | C_memory | C_migrationChanged
| C_migrationInvalid | C_missingBody | C_missingRef | C_needsSql | C_noApproval | C_noBridge | C_noGuest
| C_noProgress | C_noTrigger | C_notApproved | C_notFound | C_notMember | C_notReady | C_overflow | C_overlap
| C_pendingApproval | C_preparedComputed | C_preparedConflict | C_preparedOwnership | C_preparedPath
| C_preparedPrevious | C_preparedRead | C_preparedUpsert | C_preparedValues | C_rateLimited | C_readBudgetExceeded
| C_refused | C_releaseChanged | C_required | C_restricted | C_schema | C_schemaInvalid | C_schemaMismatch
| C_schemaMoved | C_sealed | C_SeedDrift | C_seedDecode | C_seedRefused | C_sourceChanged | C_stale | C_stalled
| C_timeout | C_tooLarge | C_tooManySubscriptions | C_transformIdentity | C_transformPayload | C_transformShape
| C_unaccepted | C_unavailable | C_unique | C_unknown | C_unknownAutomation | C_unknownCallable | C_unknownModel
| C_unknownEnvoy | C_unknownPipeline | C_unsupported | C_upload | C_upstream.
#[export] Instance Code_eq_dec : EqDecision Code. Proof. solve_decision. Defined.
(** A code as the wire spells it. *)
Definition code_name (c : Code) : string :=
  match c with
  | C_active => "active" | C_approvalSplit => "approvalSplit" | C_artifactDigest => "artifactDigest"
  | C_badAnswer => "badAnswer" | C_badCursor => "badCursor" | C_behind => "behind" | C_bug => "bug"
  | C_buildFailed => "buildFailed" | C_busy => "busy" | C_check => "check" | C_conflict => "conflict"
  | C_conflicts => "conflicts" | C_contract => "contract" | C_corrupt => "corrupt" | C_cpuBudget => "cpuBudget"
  | C_crossingBudget => "crossingBudget" | C_destructiveNotAccepted => "destructiveNotAccepted"
  | C_expired => "expired" | C_fenced => "fenced" | C_files => "files" | C_forbidden => "forbidden"
  | C_guestError => "guestError" | C_guestRefused => "guestRefused" | C_internal => "internal"
  | C_interrupted => "interrupted" | C_invalid => "invalid" | C_invalidCode => "invalidCode"
  | C_invalidCron => "invalidCron" | C_invalidInput => "invalidInput" | C_invalidRecords => "invalidRecords"
  | C_invalidSpec => "invalidSpec" | C_invalidWhere => "invalidWhere" | C_keyReuse => "keyReuse"
  | C_lastAdmin => "lastAdmin" | C_locked => "locked" | C_memory => "memory"
  | C_migrationChanged => "migrationChanged" | C_migrationInvalid => "migrationInvalid"
  | C_missingBody => "missingBody" | C_missingRef => "missingRef" | C_needsSql => "needsSql"
  | C_noApproval => "noApproval" | C_noBridge => "noBridge" | C_noGuest => "noGuest" | C_noProgress => "noProgress"
  | C_noTrigger => "noTrigger" | C_notApproved => "notApproved" | C_notFound => "notFound"
  | C_notMember => "notMember" | C_notReady => "notReady" | C_overflow => "overflow" | C_overlap => "overlap"
  | C_pendingApproval => "pendingApproval" | C_preparedComputed => "preparedComputed"
  | C_preparedConflict => "preparedConflict" | C_preparedOwnership => "preparedOwnership"
  | C_preparedPath => "preparedPath" | C_preparedPrevious => "preparedPrevious" | C_preparedRead => "preparedRead"
  | C_preparedUpsert => "preparedUpsert" | C_preparedValues => "preparedValues" | C_rateLimited => "rateLimited"
  | C_readBudgetExceeded => "readBudgetExceeded" | C_refused => "refused" | C_releaseChanged => "releaseChanged"
  | C_required => "required" | C_restricted => "restricted" | C_schema => "schema"
  | C_schemaInvalid => "schemaInvalid" | C_schemaMismatch => "schemaMismatch" | C_schemaMoved => "schemaMoved"
  | C_sealed => "sealed" | C_SeedDrift => "SeedDrift" | C_seedDecode => "seedDecode" | C_seedRefused => "seedRefused"
  | C_sourceChanged => "sourceChanged" | C_stale => "stale" | C_stalled => "stalled" | C_timeout => "timeout"
  | C_tooLarge => "tooLarge" | C_tooManySubscriptions => "tooManySubscriptions"
  | C_transformIdentity => "transformIdentity" | C_transformPayload => "transformPayload"
  | C_transformShape => "transformShape" | C_unaccepted => "unaccepted" | C_unavailable => "unavailable"
  | C_unique => "unique" | C_unknown => "unknown" | C_unknownAutomation => "unknownAutomation"
  | C_unknownCallable => "unknownCallable" | C_unknownModel => "unknownModel" | C_unknownEnvoy => "unknownEnvoy"
  | C_unknownPipeline => "unknownPipeline" | C_unsupported => "unsupported" | C_upload => "upload"
  | C_upstream => "upstream"
  end.
(** [CODE]: each code's HTTP status and whether a run retries it. *)
Record Fault := MkFault { status : Z; transient : bool }.
Definition fault (s : Z) : Fault := MkFault s false.
Definition retry (s : Z) : Fault := MkFault s true.
Definition CODE (c : Code) : Fault :=
  match c with
  | C_badCursor | C_invalid | C_invalidCode | C_invalidInput => fault 400
  | C_forbidden | C_notMember => fault 403
  | C_notFound | C_unknownCallable | C_unknownModel => fault 404
  | C_active | C_behind | C_conflicts | C_lastAdmin | C_notApproved | C_notReady | C_stale | C_unaccepted => fault 409
  | C_conflict => retry 409
  | C_expired => fault 410
  | C_tooLarge => fault 413
  | C_buildFailed | C_check | C_refused => fault 422
  | C_tooManySubscriptions => fault 429
  | C_rateLimited => retry 429
  | C_unsupported => fault 501
  | C_upstream => retry 502
  | C_unavailable => fault 503
  | C_timeout => retry 504
  | _ => fault 500
  end.

(** [PHASES] and [PHASE_SENTENCE]. *)
Inductive Phase := PDecode | PAdmission | PGuest | PDerive | PCommit | PFacility | PDeliver.
Definition PHASE_SENTENCE (p : Phase) : string :=
  match p with
  | PDecode => "The input could not be decoded."
  | PAdmission => "The request was not admitted."
  | PGuest => "Workspace code failed."
  | PDerive => "Deriving the write failed."
  | PCommit => "The commit failed."
  | PFacility => "A facility call failed."
  | PDeliver => "Delivery failed."
  end.

(** ** The engine's errors. *)

Record DbError := MkDbError { sqlstate : string; db_message : string; db_constraint : option string; db_column : option string }.
(** The cause a [BoltError] carries: nothing, a database error, a plain value (a guest facility's failure), or any other
    defect. *)
Inductive ErrorCause := NoCause | CauseDb (d : DbError) | CauseValue (j : Json) | CauseOther.
Record BoltError := MkBoltError { be_code : Code; be_phase : Phase; be_message : string; be_cause : ErrorCause }.
(** [BoltError.make]: a blank message becomes the phase's sentence. *)
Definition BoltError_make (code : Code) (phase : Phase) (message : string) (cause : ErrorCause) : BoltError :=
  MkBoltError code phase (if String.eqb (trim message) "" then PHASE_SENTENCE phase else message) cause.

(** A record of a conflict: a row another write changed, and the fields. *)
Record ConflictRecord := MkConflictRecord { cr_model : string; cr_id : string; cr_fields : list string }.

(** [EngineError]. [IdentityRefusal]'s codes are among [CODES]. *)
Inductive EngineError :=
| EBolt (b : BoltError)
| EDb (d : DbError)
| EConflict (records : list ConflictRecord)
| EFenced (instance message : string)
| EInterrupted
| ESerializationReplay
| EIdentityRefusal (code : Code) (message : string) (retryAfter : option number)
| EManifestInvalid (issues : list string)
| EAgentRefusal (message : string).

(** [IDENTITY_REFUSALS]. *)
Definition IDENTITY_REFUSALS : list Code :=
  [C_forbidden; C_notFound; C_rateLimited; C_expired; C_lastAdmin; C_active; C_check; C_invalidCode; C_notMember;
   C_unavailable; C_upstream; C_timeout].
(** [FACILITY_KINDS] of decl/errors/facility.ts. *)
Definition FACILITY_KINDS : list Code := [C_upstream; C_timeout; C_rateLimited; C_invalid; C_tooLarge; C_unsupported].
(** [guestFacility]: the kind of a facility failure that crossed the isolate boundary. *)
Definition guestFacility (c : ErrorCause) : option Code :=
  match c with
  | CauseValue (JObject o) =>
      match get o "kind" with
      | Some (JString k) => List.find (fun c => String.eqb (code_name c) k) FACILITY_KINDS
      | _ => None
      end
  | _ => None
  end.
(** [TRANSIENT_SQLSTATES] and [isTransient]: what a run retries. *)
Definition TRANSIENT_SQLSTATES : list string := ["40001"; "40P01"; "57014"]%string.
Definition isTransient (e : EngineError) : bool :=
  match e with
  | EBolt b =>
      if transient (CODE (be_code b)) then true
      else if bool_decide (be_code b = C_guestError) then
        match guestFacility (be_cause b) with Some kind => transient (CODE kind) | None => false end
      else false
  | EDb d => bool_decide (sqlstate d ∈ TRANSIENT_SQLSTATES)
  | EConflict _ | ESerializationReplay => transient (CODE C_conflict)
  | EFenced _ _ => transient (CODE C_fenced)
  | EInterrupted => transient (CODE C_interrupted)
  | EIdentityRefusal code _ _ => transient (CODE code)
  | EManifestInvalid _ | EAgentRefusal _ => false
  end.

(** ** Outcomes of a write. *)

Record Written := MkWritten { wr_model : string; wr_id : string; wr_revision : Z }.
(** [Refused] of decl/ctx.ts. *)
Record Refused := MkRefused {
  rf_code : Code; rf_message : string; rf_field : option string; rf_path : option string; rf_row : option Z;
  rf_rows : option (list Z); rf_rule : option string; rf_requestId : option string }.
Definition refused_at (code : Code) (message : string) (field : option string) : Refused :=
  MkRefused code message field None None None None None.
Inductive Outcome :=
| Committed (output : Json) (records : list Written) (unchanged : option (list (string * string)))
| PendingApproval (requestId : string) (records : list Written)
| OutRefused (r : Refused)
| OutConflict (records : list ConflictRecord)
| OutUnknown (invocation : string).

(** ** A database error as a refusal. *)

(** [ConstraintMeta] of packages/store/src/schema/ddl.ts. *)
Inductive ConstraintKind := KUnique | KCheck | KOverlap | KFk.
#[export] Instance ConstraintKind_eq_dec : EqDecision ConstraintKind. Proof. solve_decision. Defined.
Record ConstraintMeta := MkConstraintMeta {
  cm_model : string; cm_kind : ConstraintKind; cm_fields : list string; cm_rule : option string; cm_message : option string }.

(** The first text in double quotes right after [before] and a blank: what the expression of [quoted] captures. *)
Fixpoint quoted_after (pat s : string) : option string :=
  let here :=
    if String.eqb (takes (String.length pat) s) pat then
      match span (fun c => negb (Ascii.eqb c QUOTE)) (drop (String.length pat) s) with
      | (String _ _ as name, String _ _) => Some name
      | _ => None
      end
    else None in
  match here, s with
  | Some name, _ => Some name
  | None, String _ s' => quoted_after pat s'
  | None, EmptyString => None
  end.
Definition quoted (message before : string) : option string := quoted_after (before +:+ " " +:+ String QUOTE EmptyString) message.

(** An absent value in a template. *)
Definition undef (o : option string) : string := default "undefined"%string o.

(** The three results of [refusalOf]. *)
Inductive Refusal := RRefused (r : Refused) | RConflict | RThrow (b : BoltError).
Definition refusalOf (e : DbError) (constraints : dict ConstraintMeta) : Refusal :=
  let meta := c ← db_constraint e; get constraints c in
  let column :=
    match (m ← meta; match cm_fields m with [f] => Some f | _ => None end) with Some f => Some f | None => db_column e end in
  let names :=
    match meta with
    | None => ""
    | Some m => cm_model m +:+ ": " +:+ match cm_rule m with Some r => r | None => join ", " (cm_fields m) end
    end in
  let names_or_constraint := if String.eqb names "" then undef (db_constraint e) else names in
  let refused := fun code message => RRefused (refused_at code message column) in
  let refused_plain := fun code message => RRefused (refused_at code message None) in
  let restricted := refused_plain C_restricted ("other records still refer to this one (" +:+ names_or_constraint +:+ ")") in
  let s := sqlstate e in
  if String.eqb s "23505" then
    refused C_unique ("another record already has this " +:+ (if String.eqb names "" then "value" else names))
  else if String.eqb s "23001" then restricted
  else if String.eqb s "23503" then
    if String.prefix "update or delete on table" (db_message e) then restricted
    else refused C_missingRef ("the referenced record does not exist (" +:+ names_or_constraint +:+ ")")
  else if String.eqb s "23514" then
    let rule := if String.eqb names "" then db_constraint e else Some names in
    refused C_check
      match (m ← meta; cm_message m), (m ← meta; cm_rule m), rule with
      | Some message, _, _ => message
      | None, Some r, _ => "the record breaks the rule '" +:+ r +:+ "'"
      | None, None, None => "a native rule refused the record"
      | None, None, Some rule =>
          match meta with
          | Some m =>
              match cm_fields m with
              | [f] =>
                  cm_model m +:+ "." +:+ f +:+
                  " is not a valid value for its kind: describe the model for its shape (a file field takes the reference a message lists, whole, and a multiple one a list of them)"
              | _ => "the record breaks the rules of " +:+ rule
              end
          | None => "the record breaks the rules of " +:+ rule
          end
      end
  else if String.eqb s "23P01" then
    if bool_decide (option_map cm_kind meta = Some KUnique) then refused C_unique ("another record already has this " +:+ names)
    else refused C_overlap ("the period overlaps another record's (" +:+ names_or_constraint +:+ ")")
  else if String.eqb s "23502" then
    let column := match db_column e with Some c => Some c | None => quoted (db_message e) "column" end in
    RRefused (refused_at C_required (default "a field" column +:+ " is required") column)
  else if String.eqb s "22003" then refused_plain C_overflow "a number is out of range"
  else if String.eqb s "40001" || String.eqb s "40P01" then RConflict
  else if String.eqb s "57014" then
    RThrow (BoltError_make C_timeout PFacility "the database did not answer within its wall" (CauseDb e))
  else RThrow (BoltError_make C_bug PCommit ("unexpected database error " +:+ s +:+ ": " +:+ db_message e) (CauseDb e)).

(** [decided]: a write's database error as its outcome, whether the outcome is kept under the request's key, and whether
    the write is replayed first. *)
Record Decided := MkDecided { dc_outcome : Outcome; dc_record : bool; dc_replay : bool }.
Definition RATE_LIMITED : string := "Too many requests. Wait a moment and try again.".
Definition not_blank (c : ascii) : bool := negb (Ascii.eqb c " ").
(** The text up to the first blank and the text after it. *)
Definition cut (s : string) : string * option string :=
  match span not_blank s with (a, String _ b) => (a, Some b) | (a, EmptyString) => (a, None) end.

Section Decided.
(** The JSON of a conflict's detail, decoded by the schema library: its model and ids. *)
Context (conflictDetail : string -> option (string * list string)).
Definition conflictRecords (detail : string) : list ConflictRecord :=
  match conflictDetail detail with
  | Some (model, ids) => map (fun id => MkConflictRecord model id []) ids
  | None => []
  end.
Definition decided (e : EngineError) (constraints : dict ConstraintMeta) : EngineError + Decided :=
  match e with
  | EDb d =>
      if String.eqb (sqlstate d) "BA001" then
        let '(code, rest) := cut (db_message d) in
        let detail := default "" rest in
        inr
          (if String.eqb code "conflict" then MkDecided (OutConflict (conflictRecords detail)) true false
           else if String.eqb code "fingerprint" then MkDecided (OutConflict []) true true
           else if String.eqb code "rateLimited" then MkDecided (OutRefused (refused_at C_rateLimited RATE_LIMITED None)) false false
           else if String.eqb code "underApproval" then
             let '(id, who) := match cut detail with
                               | (id, Some who) => (id, who)
                               | (_, None) => (takes (String.length detail - 1) detail, detail)
                               end in
             MkDecided (OutRefused (MkRefused C_locked who None None None None None (Some id))) true false
           else if String.eqb code "sourceChanged" then
             MkDecided (OutRefused (refused_at C_sourceChanged "The integration configuration changed before this write could commit." None)) true false
           else MkDecided (OutRefused (refused_at C_locked "The parent record is locked in its current state." None)) true false)
      else
        match refusalOf d constraints with
        | RThrow b => inl (EBolt b)
        | RConflict => inr (MkDecided (OutConflict []) true true)
        | RRefused r => inr (MkDecided (OutRefused r) true false)
        end
  | e => inl e
  end.

(** [transactionFailure]: what a native transaction answers when it fails. *)
(** The message of an error whose class declares none: the schema library's. *)
Context (native_message : EngineError -> string).
Definition message_of (e : EngineError) : string :=
  match e with
  | EBolt b => be_message b
  | EDb d => db_message d
  | EFenced _ m | EIdentityRefusal _ m _ | EAgentRefusal m => m
  | e => native_message e
  end.
Definition db_failure (d : DbError) (invocation : string) (constraints : dict ConstraintMeta) : Outcome :=
  let s := sqlstate d in
  let refused := fun code => OutRefused (refused_at code (db_message d) None) in
  if String.eqb s "08007" then OutUnknown invocation
  else if String.eqb s "57014" || String.eqb s "25P04" || String.eqb s "55P03" then refused C_timeout
  else if String.eqb s "54000" then refused C_readBudgetExceeded
  else if String.eqb s "0A000" then refused C_unsupported
  else match decided (EDb d) constraints with inr x => dc_outcome x | inl _ => refused C_internal end.
Definition bolt_failure_code (c : Code) : Code :=
  match c with
  | C_timeout | C_unsupported | C_approvalSplit | C_forbidden | C_sourceChanged | C_locked | C_readBudgetExceeded => c
  | _ => C_invalidInput
  end.
Definition transactionFailure (e : EngineError) (invocation : string) (constraints : dict ConstraintMeta) : Outcome :=
  match e with
  | EConflict records => OutConflict records
  | ESerializationReplay => OutConflict []
  | EDb d => db_failure d invocation constraints
  | EBolt b =>
      match be_cause b with
      | CauseDb d => db_failure d invocation constraints
      | _ =>
          if bool_decide (be_code b = C_conflict) then OutConflict []
          else OutRefused (refused_at (bolt_failure_code (be_code b)) (be_message b) None)
      end
  | e => OutRefused (refused_at C_internal (message_of e) None)
  end.
End Decided.

(** [PlatformRefusal] of decl/ctx.ts, and the authored [refused]. *)
Definition PlatformRefusal : list Code :=
  [C_locked; C_sourceChanged; C_timeout; C_unsupported; C_readBudgetExceeded; C_forbidden; C_notFound; C_invalidInput; C_unique;
   C_check; C_overlap; C_missingRef; C_restricted; C_required; C_overflow; C_rateLimited; C_keyReuse; C_approvalSplit;
   C_releaseChanged; C_expired; C_internal; C_cpuBudget; C_crossingBudget; C_memory; C_tooLarge].

(** ** Properties. *)

Module Failures.
Section Failures.
Context (conflictDetail : string -> option (string * list string)) (native_message : EngineError -> string).

(** The database error behind an engine error, if there is one. *)
Definition behind (e : EngineError) : option DbError :=
  match e with
  | EDb d => Some d
  | EBolt b => match be_cause b with CauseDb d => Some d | _ => None end
  | _ => None
  end.

(** Case analysis of a chain of comparisons with literal texts. *)
Ltac each_state x :=
  repeat match goal with |- context [String.eqb x ?l] => destruct (String.eqb_spec x l) as [->|]; cbn [orb] end.

(** The states each result of [refusalOf] stands for. *)
Definition REFUSED_STATES : list string := ["23505"; "23001"; "23503"; "23514"; "23P01"; "23502"; "22003"]%string.
Definition DATA_CODES : list Code :=
  [C_unique; C_restricted; C_missingRef; C_check; C_overlap; C_required; C_overflow].
(** Case analysis of an innermost match. *)
Ltac inner_match :=
  match goal with |- context [match ?x with _ => _ end] =>
    lazymatch x with context [match _ with _ => _ end] => fail | _ => destruct x end
  end.
(** Membership of a literal in a literal list, and of a value known to differ from every element. *)
Ltac listed := apply (bool_decide_unpack _); vm_compute; exact I.
Ltac unlisted := cbn [app REFUSED_STATES sqlstate]; rewrite ?not_elem_of_cons; split_and?; try done; apply not_elem_of_nil.

Lemma refusal_states (d : DbError) (constraints : dict ConstraintMeta) :
  match refusalOf d constraints with
  | RRefused r => sqlstate d ∈ REFUSED_STATES /\ rf_code r ∈ DATA_CODES
  | RConflict => sqlstate d = "40001"%string \/ sqlstate d = "40P01"%string
  | RThrow b =>
      (sqlstate d = "57014"%string /\ be_code b = C_timeout) \/
      ((sqlstate d ∉ REFUSED_STATES ++ ["40001"; "40P01"; "57014"]%string) /\ be_code b = C_bug)
  end.
Proof.
  destruct d as [s m c col]. unfold refusalOf. cbn [sqlstate db_message db_constraint db_column].
  destruct (c' ← c; get constraints c') as [[model kind fields rule message]|]; cbn [mbind option_bind cm_model cm_kind cm_fields cm_rule cm_message option_map];
    each_state s; cbn [refused_at rf_code];
    repeat (inner_match; cbn [refused_at rf_code]); first [by left | by right | split; listed | right; split; [unlisted|done]].
Qed.

(** The retry table and the refusal table agree: a run retries a database error exactly when the refusal of that error
    is a conflict to replay or the database's timeout, whatever constraints the schema declares. *)
Theorem transient_agrees (d : DbError) (constraints : dict ConstraintMeta) :
  isTransient (EDb d) = true <->
  refusalOf d constraints = RConflict \/ exists b, refusalOf d constraints = RThrow b /\ be_code b = C_timeout.
Proof.
  pose proof (refusal_states d constraints) as H. cbn [isTransient]. rewrite bool_decide_eq_true. unfold TRANSIENT_SQLSTATES.
  destruct (refusalOf d constraints) as [r| |b].
  - destruct H as [H _]. split; [|by intros [?|(b & ? & _)]]. intros Ht. exfalso. unfold REFUSED_STATES in H.
    repeat (apply elem_of_cons in Ht as [Ht|Ht]; [rewrite Ht in H; revert H; by apply (bool_decide_unpack (_ ∉ _))|]). by apply elem_of_nil in Ht.
  - split; [by left|]. intros _. destruct H as [->| ->]; listed.
  - split.
    + intros Ht. destruct H as [[_ H]|[H _]]; [right; by exists b|]. exfalso. apply H, elem_of_app. by right.
    + intros [?|(b' & [= <-] & Hb)]; [done|]. destruct H as [[-> _]|[_ H]]; [listed|congruence].
Qed.

(** What a database error's outcome is, when it has one. *)
Lemma decided_db (d : DbError) (constraints : dict ConstraintMeta) (x : Decided) :
  decided conflictDetail (EDb d) constraints = inr x ->
  match dc_outcome x with
  | OutConflict records => dc_record x = true /\ (dc_replay x = true -> records = [])
  | OutRefused r =>
      dc_replay x = false /\ (dc_record x = false <-> rf_code r = C_rateLimited) /\
      rf_code r ∈ [C_rateLimited; C_locked; C_sourceChanged] ++ DATA_CODES
  | _ => False
  end.
Proof.
  unfold decided. destruct (String.eqb (sqlstate d) "BA001").
  - destruct (cut (db_message d)) as [code rest]. intros [= <-].
    each_state code; cbn [dc_outcome dc_record dc_replay]; repeat (inner_match; cbn [dc_outcome dc_record dc_replay]); cbn [dc_outcome dc_record dc_replay refused_at rf_code]; try done; (split; [done|split; [split; congruence|listed]]).
  - pose proof (refusal_states d constraints) as H. destruct (refusalOf d constraints) as [r| |b]; intros [= <-]; cbn.
    + destruct H as [_ H]. split; [done|split; [split; [done|]|by apply (elem_of_app [_; _; _]); right]]. intros E. rewrite E in H.
      exfalso. revert H. by apply (bool_decide_unpack (_ ∉ _)).
    + done.
Qed.

Lemma decided_platform (c : Code) : c ∈ [C_rateLimited; C_locked; C_sourceChanged] ++ DATA_CODES -> c ∈ PlatformRefusal.
Proof.
  intros H. cbn [app DATA_CODES] in H. repeat (apply elem_of_cons in H as [->|H]; [listed|]). by apply elem_of_nil in H.
Qed.

(** A database error decides a write's outcome soundly: the outcome is a conflict or a refusal; only a conflict without
    records is replayed; every outcome is kept under the request's key except a rate limit; and the error is left to the
    caller exactly when it is neither an assertion of the engine's own nor a state of the refusal table. *)
Theorem decided_sound (d : DbError) (constraints : dict ConstraintMeta) :
  match decided conflictDetail (EDb d) constraints with
  | inr x =>
      (dc_replay x = true -> dc_outcome x = OutConflict []) /\
      (dc_record x = false <-> exists r, dc_outcome x = OutRefused r /\ rf_code r = C_rateLimited) /\
      ((exists r, dc_outcome x = OutRefused r /\ rf_code r ∈ PlatformRefusal) \/ exists records, dc_outcome x = OutConflict records)
  | inl e =>
      (exists b, e = EBolt b /\ be_code b ∈ [C_timeout; C_bug]) /\
      sqlstate d ∉ ("BA001"%string :: REFUSED_STATES ++ ["40001"; "40P01"]%string)
  end.
Proof.
  destruct (decided conflictDetail (EDb d) constraints) as [e|x] eqn:E.
  - unfold decided in E. destruct (String.eqb_spec (sqlstate d) "BA001") as [|Hne]; [by destruct (cut _)|].
    pose proof (refusal_states d constraints) as H. destruct (refusalOf d constraints) as [r| |b]; [done..|]. injection E as <-. split.
    + exists b. split; [done|]. destruct H as [[_ H]|[_ H]]; rewrite H; listed.
    + destruct H as [[H _]|[H _]]; [rewrite H; listed|]. apply not_elem_of_cons. split; [done|]. intros Hin. apply H.
      apply elem_of_app in Hin as [Hin|Hin]; apply elem_of_app; [by left|right].
      apply elem_of_cons in Hin as [->|Hin]; [by left|]. apply list_elem_of_singleton in Hin as ->. right. by left.
  - apply decided_db in E. destruct (dc_outcome x) as [| |r|records|]; try done.
    + destruct E as (E1 & E2 & E3). split; [by rewrite E1|split].
      * split; [intros H; exists r; split; [done|by apply E2]|]. intros (r' & [= <-] & H). by apply E2.
      * left. exists r. split; [done|]. by apply decided_platform.
    + destruct E as (E1 & E2). split; [intros H; by rewrite (E2 H)|split; [|right; by eexists]]. rewrite E1. split; [done|]. by intros (r & ? & _).
Qed.

(** Only an uncertain commit is unknown: a native transaction that fails answers [unknown] exactly when the error, or
    the cause it carries, is a database error of state 08007, and every refusal it answers is a platform refusal. *)
Theorem unknown_only_uncertain (e : EngineError) (invocation : string) (constraints : dict ConstraintMeta) :
  match transactionFailure conflictDetail native_message e invocation constraints with
  | OutUnknown i => i = invocation /\ option_map sqlstate (behind e) = Some "08007"%string
  | OutRefused r => rf_code r ∈ PlatformRefusal /\ option_map sqlstate (behind e) <> Some "08007"%string
  | OutConflict _ => option_map sqlstate (behind e) <> Some "08007"%string
  | Committed _ _ _ | PendingApproval _ _ => False
  end.
Proof.
  assert (forall d, match db_failure conflictDetail d invocation constraints with
    | OutUnknown i => i = invocation /\ Some (sqlstate d) = Some "08007"%string
    | OutRefused r => rf_code r ∈ PlatformRefusal /\ Some (sqlstate d) <> Some "08007"%string
    | OutConflict _ => Some (sqlstate d) <> Some "08007"%string
    | Committed _ _ _ | PendingApproval _ _ => False end) as Hdb.
  { intros d. unfold db_failure. destruct (String.eqb_spec (sqlstate d) "08007") as [Es|Hne]; [split; congruence|].
    assert (Some (sqlstate d) <> Some "08007"%string) as Hn by congruence.
    repeat match goal with |- context [if ?b then _ else _] => destruct b end; cbn [refused_at rf_code]; try (split; [listed|done]).
    pose proof (decided_db d constraints) as Hd. destruct (decided conflictDetail (EDb d) constraints) as [e'|x].
    - cbn [refused_at rf_code]. split; [listed|done].
    - specialize (Hd x eq_refl). destruct (dc_outcome x); try done. split; [|done]. destruct Hd as (_ & _ & H).
      by apply decided_platform. }
  destruct e as [[code phase message cause]|d| | | | | | |]; cbn [transactionFailure behind be_cause option_map]; try done;
    try (split; [listed|done]); [|apply Hdb].
  destruct cause as [|d| |]; cbn [option_map]; [|apply Hdb| |];
    (destruct (bool_decide (be_code _ = C_conflict)); [done|]; split; [|done]; cbn [refused_at rf_code be_code]; destruct code; listed).
Qed.
End Failures.
End Failures.
