(* ===== verification/Eval.v ===== *)
(** The in-memory evaluator of predicates: [packages/bolt/src/engine/query/eval.ts], with the comparable forms of
    [packages/store/src/read/values.ts]. JavaScript values are written out where the code compares them: [null], text,
    numbers with [NaN], booleans, and references (arrays and objects), which no two literals share. *)
From S2P Require Import Prelude Decimal Dates Ir Catalog Contracts.

(** ** JavaScript comparison. *)

Inductive js := JsNull | JsStr (s : string) | JsNum (n : number) | JsNaN | JsBool (b : bool) | JsRef (j : Json).

(** [Number(text)]: decimal text, with an optional exponent; blank text is 0. Text in the other literal forms (hexadecimal,
    [Infinity]) never reaches the comparisons of numeric columns. *)
Definition strip_e (s : string) : option (string * option string * Z) :=
  match Decimal.number_groups s with
  | Some (whole, frac, EmptyString) => Some (whole, frac, 0)
  | Some (whole, frac, String c e) =>
      if Ascii.eqb c "e" || Ascii.eqb c "E" then
        let '(sign, ds) := Decimal.sign_of e in
        if negb (String.eqb ds "") && all_chars is_digit ds
        then Some (whole, frac, if String.eqb sign "-" then - digits_val ds else digits_val ds) else None
      else None
  | None => None
  end.
Definition pow10Q (e : Z) : Q := if e <? 0 then 1 # Z.to_pos (10 ^ (- e)) else inject_Z (10 ^ e).
Definition to_number (text : string) : js :=
  let s := trim text in
  if String.eqb s "" then JsNum 0%Q
  else
    let '(sign, s') := Decimal.sign_of s in
    match strip_e s' with
    | None => JsNaN
    | Some (whole, frac, e) =>
        let f := default EmptyString frac in
        let n := digits_val (whole +:+ f) in
        JsNum (fl (inject_Z (if String.eqb sign "-" then - n else n) * pow10Q (e - slength f)))
    end.
(** [Number(x)]; an array or object of a numeric column is not a number. *)
Definition Number (x : js) : js :=
  match x with
  | JsNull => JsNum 0%Q | JsStr s => to_number s | JsNum n => JsNum n | JsNaN => JsNaN
  | JsBool b => JsNum (if b then 1%Q else 0%Q) | JsRef _ => JsNaN
  end.
(** [a === b]. *)
Definition js_is (a b : js) : bool :=
  match a, b with
  | JsNull, JsNull => true
  | JsStr x, JsStr y => String.eqb x y
  | JsNum x, JsNum y => Qeq_bool x y
  | JsBool x, JsBool y => Bool.eqb x y
  | _, _ => false
  end.
(** [a < b] and [a <= b]. *)
Definition Qlt_bool (a b : Q) : bool := Qle_bool a b && negb (Qeq_bool a b).
Definition js_lt (a b : js) : bool :=
  match a, b with
  | JsStr x, JsStr y => str_ltb x y
  | _, _ => match Number a, Number b with JsNum x, JsNum y => Qlt_bool x y | _, _ => false end
  end.
Definition js_le (a b : js) : bool :=
  match a, b with
  | JsStr x, JsStr y => str_leb x y
  | _, _ => match Number a, Number b with JsNum x, JsNum y => Qle_bool x y | _, _ => false end
  end.

(** A JSON value as a JavaScript one. *)
Definition of_json (j : Json) : js :=
  match j with
  | JNull => JsNull | JBool b => JsBool b | JNumber n => JsNum n | JString s => JsStr s | j => JsRef j
  end.

(** [toLowerCase] and the case folding of a regular expression's [i] flag, on Latin-1 characters. *)
Definition lower (c : ascii) : ascii :=
  let n := N_of_ascii c in
  if ((65 <=? n) && (n <=? 90))%N || ((192 <=? n) && (n <=? 222) && negb (n =? 215))%N then chr (n + 32) else c.
Definition canonicalize (c : ascii) : ascii :=
  let n := N_of_ascii c in
  if ((97 <=? n) && (n <=? 122))%N || ((224 <=? n) && (n <=? 254) && negb (n =? 247))%N then chr (n - 32) else c.
Fixpoint toLowerCase (s : string) : string :=
  match s with EmptyString => EmptyString | String c s' => String (lower c) (toLowerCase s') end.
(** [s.replace(/[^0-9]/g, '')]. *)
Fixpoint only_digits (s : string) : string :=
  match s with
  | EmptyString => EmptyString
  | String c s' => if is_digit c then String c (only_digits s') else only_digits s'
  end.

(** [Date.parse] of the ISO forms the engine writes: a calendar day, alone or with a time of day and a zone offset. *)
Definition two_digits (s : string) (at_ : nat) : option Z :=
  let t := slice at_ (at_ + 2) s in if (slength t =? 2) && all_chars is_digit t then Some (digits_val t) else None.
Definition zone_minutes (s : string) : option Z :=
  match s with
  | String c s' =>
      if Ascii.eqb c "Z" && String.eqb s' "" then Some 0
      else if Decimal.is_sign c && (slength s' =? 5) && String.eqb (slice 2 3 s') ":" then
        match two_digits s' 0, two_digits s' 3 with
        | Some h, Some m => if (h <=? 23) && (m <=? 59) then Some (if Ascii.eqb c "-" then - (60 * h + m) else 60 * h + m) else None
        | _, _ => None
        end
      else None
  | EmptyString => None
  end.
(** The milliseconds of a fraction's digits, those after the third dropped. *)
Definition fraction_ms (ds : string) : Z := digits_val (takes 3 (ds +:+ "000")).
(** [:SS(.s+)?] if it is there, with the text after it. *)
Definition seconds_ms (s : string) : option (Z * string) :=
  match s with
  | String ":" r =>
      match two_digits r 0 with
      | Some sec =>
          if sec <=? 59 then
            match drop 2 r with
            | String "." f => match span is_digit f with (EmptyString, _) => None | (ds, r') => Some (1000 * sec + fraction_ms ds, r') end
            | r' => Some (1000 * sec, r')
            end
          else None
      | None => None
      end
  | _ => Some (0, s)
  end.
Definition Date_parse (s : string) : option Z :=
  let d := takes 10 s in
  if negb (Dates.isPlainDate d) then None
  else
    match drop 10 s with
    | EmptyString => Some (86400000 * Dates.toDays d)
    | String "T" t =>
        match two_digits t 0, two_digits t 3, seconds_ms (drop 5 t) with
        | Some h, Some m, Some (ms, z) =>
            if (h <=? 23) && (m <=? 59) && String.eqb (slice 2 3 t) ":" then
              match zone_minutes z with
              | Some off => Some (86400000 * Dates.toDays d + 3600000 * h + 60000 * (m - off) + ms)
              | None => None
              end
            else None
        | _, _, _ => None
        end
    | _ => None
    end.
(** [Date.parse(x as string)] as a JavaScript number. *)
Definition parsed (x : js) : js :=
  match x with
  | JsStr s => match Date_parse s with Some t => JsNum (inject_Z t) | None => JsNaN end
  | _ => JsNaN
  end.

(** ** Comparable forms: [values.ts]. *)

Definition UNIT_S : dict Z := [("s", 1); ("min", 60); ("h", 3600); ("d", 86400)]%string.
(** [DURATION.exec(v)]: [^(\d+)(s|min|h|d)$]. *)
Definition DURATION (v : string) : option (string * string) :=
  let '(ds, u) := span is_digit v in
  if negb (String.eqb ds "") && has_own UNIT_S u then Some (ds, u) else None.

(** [databaseValue(v)] without a field: the wire decimal's text. *)
Definition databaseValue (v : Json) : Json :=
  match v with
  | JObject [(k, x)] => if String.eqb k "$dec" then x else v
  | _ => v
  end.
(** [comparable(v, f)], [undefined] as [None]. *)
Definition comparable (v : option Json) (f : option FieldInfo) : Json :=
  let plain := databaseValue (default JNull v) in
  match f, v with
  | Some f, Some (JString s) =>
      if String.eqb (f_kind f) "duration" then
        match DURATION s with
        | Some (ds, u) => JNumber (fl (Qmult (fl (inject_Z (digits_val ds))) (inject_Z (default 1%Z (get UNIT_S u)))))
        | None => plain
        end
      else plain
  | _, _ => plain
  end.
Definition is_date_period (f : FieldInfo) : bool := match f_periodOf f with Some p => String.eqb p "date" | None => false end.
Definition shown (x : js) : string := match x with JsStr s => s | _ => "NaN" end.
(** [inverted(f, lo, hi)]. [String] of an epoch number is no date [Date.parse] reads, so such bounds are never inverted. *)
Definition inverted (f : FieldInfo) (lo hi : js) : bool :=
  match hi, lo with
  | JsNull, _ | _, JsNull => false
  | _, _ =>
      if is_date_period f then str_leb (shown hi) (shown lo)
      else match parsed lo, parsed hi with JsNum x, JsNum y => Qlt_bool y x | _, _ => false end
  end.

(** ** [eval.ts]. *)

Definition Invalid {A} (message : string) : outcome A := Throw (INVALID message).

Definition NUMERIC : list string := ["int"; "decimal"; "money"; "sum"; "count"; "number"; "duration"]%string.
(** [norm]; an email column holds text. *)
Definition norm (f : FieldInfo) (v : option Json) : js :=
  let p := of_json (comparable v (Some f)) in
  match p with
  | JsNull => JsNull
  | _ =>
      if includes NUMERIC (f_kind f) then Number p
      else if String.eqb (f_kind f) "instant" then parsed p
      else if f_email f then match p with JsStr s => JsStr (toLowerCase s) | _ => p end
      else p
  end.

Definition cmp (op : Cmp) (a b : js) : bool :=
  match op with
  | CNe => negb (js_is a b)
  | _ =>
      match a, b with
      | JsNull, _ | _, JsNull => false
      | _, _ =>
          match op with
          | CEq => js_is a b | CLt => js_lt a b | CLte => js_le a b | CGt => js_lt b a | _ => js_le b a
          end
      end
  end.

(** [likeRegex]: [%] any text, [_] one character, a backslash before the last character quotes the next one. *)
Inductive LikeToken := AnyText | AnyChar | Char (c : ascii).
Fixpoint likeRegex (pattern : string) : list LikeToken :=
  match pattern with
  | EmptyString => []
  | String "\" (String c rest) => Char c :: likeRegex rest
  | String c rest => (if Ascii.eqb c "%" then AnyText else if Ascii.eqb c "_" then AnyChar else Char c) :: likeRegex rest
  end.
(** [regex.test(v)] of the anchored, case-insensitive, dot-all expression. *)
Fixpoint like_test (ts : list LikeToken) (s : string) {struct ts} : bool :=
  match ts with
  | [] => String.eqb s ""
  | AnyText :: ts' =>
      (fix any (s : string) : bool := like_test ts' s || match s with EmptyString => false | String _ s' => any s' end) s
  | AnyChar :: ts' => match s with EmptyString => false | String _ s' => like_test ts' s' end
  | Char c :: ts' =>
      match s with EmptyString => false | String x s' => Ascii.eqb (canonicalize x) (canonicalize c) && like_test ts' s' end
  end.

(** [row[name] ?? null], and an arm [name] of an exclusive arc: its id when the reference is to that model. *)
Definition field (row : Row) (name : string) : Json :=
  if has_dot name then
    let prefix := head_segment name in
    let model := drop (S (String.length prefix)) name in
    match get row prefix with
    | Some (JObject o) =>
        match get o "model" with
        | Some (JString m) => if String.eqb m model then default JNull (get o "id") else JNull
        | _ => JNull
        end
    | _ => JNull
    end
  else default JNull (get row name).

Record Range := MkRange { lo : js; hi : js }.
(** A member of a period object as the comparison reads it: [undefined] compares as [NaN]. *)
Definition end_of (p : dict Json) (k : string) : js := match get p k with Some x => of_json x | None => JsNaN end.
Definition is_nullish (p : dict Json) (k : string) : bool := match get p k with None | Some JNull => true | _ => false end.
(** The day after a date period's last day. *)
Definition day_after (x : js) : outcome js :=
  match x with
  | JsStr d => if Dates.isPlainDate d then s ← Dates.fromDays (Dates.toDays d + 1); Ok (JsStr s) else RangeError "Invalid time value"
  | _ => RangeError "Invalid time value"
  end.
Definition range (f : FieldInfo) (v : option Json) : outcome (option Range) :=
  match comparable v None with
  | JNull => Ok None
  | r =>
      let p := match r with JObject o => map (fun kx => (fst kx, comparable (Some (snd kx)) None)) o | _ => [] end in
      if is_date_period f then
        h ← (if is_nullish p "to" then Ok JsNull else day_after (end_of p "to"));
        Ok (Some (MkRange (end_of p "from") h))
      else
        Ok (Some (MkRange (parsed (end_of p "start")) (if is_nullish p "end" then JsNull else parsed (end_of p "end"))))
  end.
Definition below (x h : js) : bool := match h with JsNull => true | _ => js_lt x h end.
(** The period operators on two ranges. *)
Definition period_holds (op : PeriodOp) (r o : Range) : bool :=
  match op with
  | POverlaps => below (lo r) (hi o) && below (lo o) (hi r) && negb (js_is (lo r) (hi r)) && negb (js_is (lo o) (hi o))
  | PStartsWithin => js_le (lo o) (lo r) && below (lo r) (hi o)
  | PEndsWithin =>
      match hi r with
      | JsNull => false
      | h => js_lt (lo o) h && match hi o with JsNull => true | oh => js_le h oh end
      end
  | PWithin =>
      js_le (lo o) (lo r) &&
      match hi o with JsNull => true | oh => match hi r with JsNull => false | h => js_le h oh end end
  end.

(** jsonb [@>]. *)
Fixpoint contains (a : option Json) (b : Json) (top : bool) {struct b} : bool :=
  match a with
  | None => false
  | Some JNull => negb top && match b with JNull => true | _ => false end
  | Some (JArray xs) =>
      match b with
      | JArray ys => forallb (fun y => existsb (fun x => contains (Some x) y false) xs) ys
      | JNull | JObject _ => false
      | _ => top && existsb (fun x => json_is x b) xs
      end
  | Some (JObject o) =>
      match b with
      | JObject ps => forallb (fun kx => has_own o (fst kx) && contains (get o (fst kx)) (snd kx) false) ps
      | _ => false
      end
  | Some a => json_is a b
  end.

(** [xs.every(f)] and [xs.some(f)] with a test that may throw. *)
Fixpoint every {A} (f : A -> outcome bool) (xs : list A) : outcome bool :=
  match xs with [] => Ok true | x :: xs' => b ← f x; if (b : bool) then every f xs' else Ok false end.
Fixpoint some {A} (f : A -> outcome bool) (xs : list A) : outcome bool :=
  match xs with [] => Ok false | x :: xs' => b ← f x; if (b : bool) then Ok true else some f xs' end.
(** [xs.filter(f)] with a test that may throw. *)
Fixpoint filter_outcome {A} (f : A -> outcome bool) (xs : list A) : outcome (list A) :=
  match xs with [] => Ok [] | x :: xs' => b ← f x; ys ← filter_outcome f xs'; Ok (if (b : bool) then x :: ys else ys) end.

(** [Number(x.toPrecision(15))]: to 15 significant decimal digits, the larger of two equally near, then to binary64. *)
Definition exponent10 (n d : Z) : Z :=
  let e := Z.log2 n - Z.log2 d in
  let g := (e * 30103) / 100000 in
  if (if g + 1 <? 0 then d <=? n * 10 ^ (- (g + 1)) else d * 10 ^ (g + 1) <=? n) then g + 1
  else if (if g <? 0 then d <=? n * 10 ^ (- g) else d * 10 ^ g <=? n) then g else g - 1.
Definition toPrecision15 (x : Q) : number :=
  let n := Z.abs (Qnum x) in
  let d := Zpos (Qden x) in
  if n =? 0 then 0%Q
  else
    let e := exponent10 n d - 14 in
    let m := if e <? 0 then (2 * (n * 10 ^ (- e)) + d) / (2 * d) else (2 * n + d * 10 ^ e) / (2 * (d * 10 ^ e)) in
    fl (inject_Z (Z.sgn (Qnum x) * m) * pow10Q e).
Definition num_add (a b : js) : js := match a, b with JsNum x, JsNum y => JsNum (fl (x + y)%Q) | _, _ => JsNaN end.
Definition exact (x : js) : js := match x with JsNum x => JsNum (toPrecision15 x) | _ => JsNaN end.
Definition js_sum (xs : list js) : js := fold_left num_add xs (JsNum 0%Q).
Definition aggregate_of (fn : AggFn) (xs : list js) : js :=
  match fn, xs with
  | FSum, _ => exact (js_sum xs)
  | _, [] => JsNull
  | FAvg, _ => exact (match js_sum xs with JsNum s => JsNum (fl (s / inject_Z (Z.of_nat (length xs)))%Q) | _ => JsNaN end)
  | FMin, x :: xs' => fold_left (fun a b => if js_lt a b then a else b) xs' x
  | FMax, x :: xs' => fold_left (fun a b => if js_lt b a then a else b) xs' x
  end.

(** The arithmetic operators on numbers. *)
Definition mul (a b : number) : number := fl (Qmult a b).
Definition add (a b : number) : number := fl (Qplus a b).
Definition sub (a b : number) : number := fl (Qminus a b).
Definition quot (a b : number) : number := fl (Qdiv a b).
(** [Math.PI]. *)
Definition PI : number := 884279719003555 # 281474976710656.
Definition R : number := fl (63710088 # 10).

Record Bindings := MkBindings { now : string; today : string }.
Definition num_of (o : dict Json) (k : string) : number := match get o k with Some (JNumber n) => n | _ => 0%Q end.
Definition Qmin (a b : Q) : Q := if Qle_bool a b then a else b.
Definition Qmax (a b : Q) : Q := if Qle_bool a b then b else a.

(** The even-odd walk over a polygon's edges: one edge from [pi] to [pj], the vertex before it. *)
Definition crosses (v pi pj : Point) : bool :=
  negb (Bool.eqb (Qlt_bool (lat v) (lat pi)) (Qlt_bool (lat v) (lat pj))) &&
  Qlt_bool (lng v) (add (quot (mul (sub (lng pj) (lng pi)) (sub (lat v) (lat pi))) (sub (lat pj) (lat pi))) (lng pi)).
Fixpoint walk (v pj : Point) (poly : list Point) (inside : bool) : bool :=
  match poly with
  | [] => inside
  | pi :: poly' => walk v pi poly' (if crosses v pi pj then negb inside else inside)
  end.
Definition in_polygon (v : Point) (poly : list Point) : bool :=
  match poly with [] => false | p :: _ => walk v (List.last poly p) poly false end.
Definition in_bbox (v a b : Point) : bool :=
  Qle_bool (Qmin (lat a) (lat b)) (lat v) && Qle_bool (lat v) (Qmax (lat a) (lat b)) &&
  Qle_bool (Qmin (lng a) (lng b)) (lng v) && Qle_bool (lng v) (Qmax (lng a) (lng b)).

(** [startOfDate]: the first day of the unit holding [today], [shift] units away. [Date.UTC] reads a year of two digits as
    one of the twentieth century. *)
Definition utc_day (y m : Z) : Z :=
  let y := if (0 <=? y) && (y <=? 99) then 1900 + y else y in Day.number (y + m / 12) (m mod 12 + 1) 1.
Definition startOfDate (unit : Unit) (shift : Z) (today : string) : outcome string :=
  if negb (Dates.isPlainDate today) then RangeError "Invalid time value"
  else
    let d := Dates.toDays today in
    let y := Dates.year_part today in
    let m := Dates.month_part today - 1 in
    Dates.fromDays
      match unit with
      | UWeek => d - (Day.weekday d - 1) + 7 * shift
      | UMonth => utc_day y (m + shift)
      | UQuarter => utc_day y (m - m mod 3 + 3 * shift)
      | _ => utc_day (y + shift) 0
      end.

Section Evaluate.
(** [Math.sin], [Math.cos], [Math.asin] and [Math.sqrt], whose results the language leaves to the implementation. *)
Context (sin cos asin sqrt : number -> number).
(** [operandValue]: a requestor variable's value, through the third-party CEL runtime. *)
Context (operandValue : string -> Authority -> outcome Json).
Context (cat : Catalog) (bindings : Bindings) (authority : option Authority).
(** [env.related]: the rows of a target related to a row through a relation of its model, when the caller has them. *)
Context (related : option (string -> string -> string -> Row -> list Row)).

Definition haversine (a b : Point) : number :=
  let rad := quot PI (inject_Z 180) in
  let s1 := sin (quot (mul (sub (lat a) (lat b)) rad) (inject_Z 2)) in
  let s2 := sin (quot (mul (sub (lng a) (lng b)) rad) (inject_Z 2)) in
  let h := add (mul s1 s1) (mul (mul (cos (mul (lat b) rad)) (cos (mul (lat a) rad))) (mul s2 s2)) in
  mul (mul R (inject_Z 2)) (asin (sqrt h)).

Definition info (c name : string) : outcome FieldInfo :=
  match m ← get (models cat) c; get (mi_fields m) name with
  | Some f => Ok f
  | None => Invalid ("unknown field '" +:+ name +:+ "' on '" +:+ c +:+ "'")
  end.
Definition operand (o : Operand) : outcome Json :=
  match o with
  | Var text => match authority with None => Invalid "a requestor variable needs a caller" | Some a => operandValue text a end
  | Field _ => Invalid "a field operand has no value of its own"
  end.
(** A value position over a row. *)
Definition arg_value (row : Row) (a : Arg) : outcome Json :=
  match a with Lit v => Ok v | Op (Field f) => Ok (field row f) | Op o => operand o end.

Definition as_point (j : Json) : Point := match j with JObject o => MkPoint (num_of o "lat") (num_of o "lng") | _ => MkPoint 0%Q 0%Q end.
Definition DECIDED_BY_READ (t : string) : string := t +:+ " is decided by a read, not in memory".

(** [evaluate] over the rows a relation gives: [rows model rel target row]. *)
Section Body.
Context (rows : string -> string -> string -> Row -> outcome (list Row)).
Fixpoint eval (c : string) (p : Pred) (row : Row) {struct p} : outcome bool :=
  match p with
  | PConst b => Ok b
  | PAnd ps => every (fun x => eval c x row) ps
  | POr ps => some (fun x => eval c x row) ps
  | PNot x => b ← eval c x row; Ok (negb b)
  | PNull fd is_ => Ok (Bool.eqb (match field row fd with JNull => true | _ => false end) is_)
  | PCmp fd op a =>
      f ← info c fd; rhs ← arg_value row a; Ok (cmp op (norm f (Some (field row fd))) (norm f (Some rhs)))
  | PLike fd pattern => Ok match field row fd with JString v => like_test (likeRegex pattern) v | _ => false end
  | PText fd mode value =>
      let normalize := match mode with Folded => toLowerCase | Digits => only_digits end in
      Ok match field row fd with JString v => String.eqb (normalize v) (normalize value) | _ => false end
  | PAge fd seconds =>
      Ok match field row fd with
         | JString v =>
             match Date_parse v, Date_parse (now bindings) with
             | Some t, Some n => Qlt_bool (inject_Z t) (sub (inject_Z n) (mul seconds (inject_Z 1000)))
             | _, _ => false
             end
         | _ => false
         end
  | PIn fd negated args =>
      f ← info c fd;
      let a := norm f (Some (field row fd)) in
      l ← match args with Args l => Ok (JArray l) | Member _ _ => Ok (JArray []) | ArgOp o => operand o end;
      let list := match l with JArray xs => xs | JNull => [] | x => [x] end in
      let found := match a with JsNull => false | _ => existsb (fun x => js_is (norm f (Some x)) a) list end in
      Ok (if negated then negb found else found)
  | PList fd op arg =>
      match op, field row fd with
      | LIsEmpty, JNull => Ok match arg with JBool true => true | _ => false end
      | LIsEmpty, JArray xs =>
          Ok match arg with JBool true => (length xs =? 0)%nat | _ => (0 <? length xs)%nat end
      | _, JNull => Ok false
      | LHas, JArray xs => Ok (existsb (json_is arg) xs)
      | LHasAny, JArray xs => match arg with JArray want => Ok (existsb (fun x => existsb (json_is x) xs) want) | _ => TypeError "want.some is not a function" end
      | LHasAll, JArray xs => match arg with JArray want => Ok (forallb (fun x => existsb (json_is x) xs) want) | _ => TypeError "want.every is not a function" end
      | _, _ => TypeError "arr.includes is not a function"
      end
  | PPeriodContains fd a =>
      f ← info c fd; r ← range f (Some (field row fd));
      match r with
      | None => Ok false
      | Some r =>
          arg ← arg_value row a;
          match arg with
          | JNull => Ok false
          | _ =>
              let v := of_json (comparable (Some arg) None) in
              let x := if is_date_period f then v else parsed v in
              Ok (js_le (lo r) x && below x (hi r))
          end
      end
  | PPeriod fd op l h =>
      f ← info c fd; r ← range f (Some (field row fd));
      match r with
      | None => Ok false
      | Some r =>
          let end_ := fun e => match e with Lit v => Ok v | Op o => operand o end in
          lv ← end_ l; hv ← end_ h;
          let names := if is_date_period f then ("from", "to")%string else ("start", "end")%string in
          o ← range f (Some (JObject [(fst names, lv); (snd names, hv)]));
          match o with
          | None => Ok false
          | Some o => Ok (if inverted f (lo o) (hi o) then false else period_holds op r o)
          end
      end
  | PGeo fd near within =>
      match field row fd with
      | JNull => Ok false
      | j =>
          let v := as_point j in
          match near, within with
          | Some (p, d), _ => Ok (Qle_bool (haversine v p) d)
          | None, Some (Bbox a b) => Ok (in_bbox v a b)
          | None, Some (Polygon ps) => Ok (in_polygon v ps)
          | None, None => TypeError "Cannot use 'in' operator to search for 'bbox' in undefined"
          end
      end
  | PPath _ _ _ _ => Invalid (DECIDED_BY_READ "path")
  | PEach _ _ _ _ => Invalid (DECIDED_BY_READ "each")
  | PSearch _ _ => Invalid (DECIDED_BY_READ "$search")
  | PSimilar _ _ _ => Invalid (DECIDED_BY_READ "$similar")
  | POne rel target q => rs ← rows c rel target row; some (fun r => eval target q r) rs
  | PMany rel target k q =>
      rs ← rows c rel target row;
      match k with
      | QSome => some (fun r => eval target q r) rs
      | QNone => b ← some (fun r => eval target q r) rs; Ok (negb b)
      | QEvery => every (fun r => eval target q r) rs
      end
  | PCount rel target op n =>
      rs ← rows c rel target row; Ok (cmp op (JsNum (inject_Z (Z.of_nat (length rs)))) (JsNum n))
  | PAgg rel target fn fd op a =>
      f ← info target fd; rs ← rows c rel target row;
      let xs := filter (fun x => negb (js_is x JsNull) = true) (map (fun r => norm f (Some (default JNull (get r fd)))) rs) in
      let v := aggregate_of fn xs in
      Ok (match v with JsNull => false | _ => cmp op v (norm f (Some a)) end)
  | PJsonIsEmpty fd is_ =>
      let v := field row fd in
      Ok (if is_ then match v with JNull => true | JArray l => (length l =? 0)%nat | _ => false end
          else match v with JArray l => (0 <? length l)%nat | _ => false end)
  | PJsonContains fd x => Ok (contains (Some (field row fd)) x true)
  end.
End Body.

Definition related_rows (c rel target : string) (row : Row) : outcome (list Row) :=
  match related with None => Invalid "this evaluation has no related rows" | Some f => Ok (f c rel target row) end.
(** [visible] of a scoped evaluation: some arm of any output of the row's model admits it; the arms themselves are
    evaluated unscoped. *)
Definition visible (c : string) (row : Row) : outcome bool :=
  match authority with
  | None => Ok true
  | Some a =>
      if au_admin a then Ok true
      else
        some (fun paths => some (fun arm => eval related_rows c (arm_where arm) row) (default [] (get paths c)))
          (match get (au_models a) c with Some m => values (ma_read m) | None => [] end)
  end.
(** [rows] and [evaluate] with [scoped] as given. *)
Definition rows_of (scoped : bool) (c rel target : string) (row : Row) : outcome (list Row) :=
  rs ← related_rows c rel target row; if (scoped : bool) then filter_outcome (visible target) rs else Ok rs.
Definition evaluate (scoped : bool) (c : string) (p : Pred) (row : Row) : outcome bool := eval (rows_of scoped) c p row.
End Evaluate.

(** ** Date periods are sets of days. *)
Module Periods.

(** A date period as the wire carries it, and as a predicate's bounds. *)
Definition end_json (t : option string) : Json := match t with Some d => JString d | None => JNull end.
Definition period_json (p : Dates.DatePeriod) : Json := JObject [("from", JString (Dates.from p)); ("to", end_json (Dates.to p))]%string.
(** A period of calendar days ending before the last day of year 9999. *)
Definition wf_span (p : Dates.DatePeriod) : Prop :=
  Dates.wf_period p /\ forall t, Dates.to p = Some t -> Dates.toDays t < Dates.MAX_DAY.

(** A bound's day, [None] unbounded. *)
Definition upper (p : Dates.DatePeriod) : option Z := option_map (fun t => Dates.toDays t + 1) (Dates.to p).
Definition denotes (x : js) (n : option Z) : Prop :=
  match n with None => x = JsNull | Some n => exists s, x = JsStr s /\ Dates.isPlainDate s = true /\ Dates.toDays s = n end.

Lemma lt_denotes (x y : js) (a b : Z) : denotes x (Some a) -> denotes y (Some b) -> js_lt x y = (a <? b).
Proof. intros (s & -> & Hs & <-) (t & -> & Ht & <-). cbn [js_lt]. by rewrite Dates.ltb_days. Qed.
Lemma le_denotes (x y : js) (a b : Z) : denotes x (Some a) -> denotes y (Some b) -> js_le x y = (a <=? b).
Proof. intros (s & -> & Hs & <-) (t & -> & Ht & <-). cbn [js_le]. by rewrite Dates.leb_days. Qed.
Lemma is_denotes (x y : js) (a b : Z) : denotes x (Some a) -> denotes y (Some b) -> js_is x y = (a =? b).
Proof.
  intros (s & -> & Hs & <-) (t & -> & Ht & <-). cbn [js_is]. apply eq_true_iff_eq. rewrite String.eqb_eq, Z.eqb_eq.
  split; [by intros ->|by apply Dates.toDays_inj].
Qed.
Lemma null_denotes (x : js) (a : Z) : denotes x (Some a) -> js_is x JsNull = false /\ match x with JsNull => false | _ => true end = true.
Proof. by intros (s & -> & _). Qed.

Definition denotes_range (r : Range) (p : Dates.DatePeriod) : Prop :=
  denotes (lo r) (Some (Dates.toDays (Dates.from p))) /\ denotes (hi r) (upper p).

(** The range of a well-formed period's JSON. *)
Lemma range_period (f : FieldInfo) (p : Dates.DatePeriod) : is_date_period f = true -> wf_span p ->
  exists r, range f (Some (period_json p)) = Ok (Some r) /\ denotes_range r p.
Proof.
  intros Hf [[Hfrom Hto] Hmax]. unfold range, period_json. cbn [comparable databaseValue default from_option id].
  rewrite Hf. unfold is_nullish, end_of, upper, denotes_range, upper. cbn [map fst snd get String.eqb Ascii.eqb Bool.eqb comparable databaseValue default from_option id].
  destruct (Dates.to p) as [t|] eqn:Et; cbn [end_json of_json databaseValue].
  - destruct Hto as [Ht Hle]. pose proof (Dates.toDays_range t Ht) as Hr. specialize (Hmax t eq_refl).
    destruct (Dates.fromDays_ok (Dates.toDays t + 1)) as (s & Es & Hs & Hd); [lia|]. unfold day_after. rewrite Ht. cbn. rewrite Es. cbn.
    eexists. split; [reflexivity|]. cbn [lo hi denotes option_map]. split; [by exists (Dates.from p)|by exists s].
  - cbn. eexists. split; [reflexivity|]. cbn [lo hi denotes option_map]. split; [by exists (Dates.from p)|done].
Qed.

(** What a period operator says of two sets of days. *)
Definition op_days (op : PeriodOp) (r s : Dates.DatePeriod) : Prop :=
  match op with
  | POverlaps => exists n, Dates.in_days r n /\ Dates.in_days s n
  | PWithin => forall n, Dates.in_days r n -> Dates.in_days s n
  | PStartsWithin => Dates.in_days s (Dates.toDays (Dates.from r))
  | PEndsWithin => exists t, Dates.to r = Some t /\ Dates.in_days s (Dates.toDays t)
  end.

Lemma below_denotes (x h : js) (a : Z) (b : option Z) : denotes x (Some a) -> denotes h b ->
  below x h = match b with None => true | Some b => a <? b end.
Proof.
  intros Hx Hh. destruct b as [b|]; [|by rewrite Hh]. unfold below. rewrite <- (lt_denotes x h a b) by done.
  destruct Hh as (s & -> & _). done.
Qed.

Lemma holds_days (op : PeriodOp) (x y : Range) (r s : Dates.DatePeriod) :
  Dates.wf_period r -> Dates.wf_period s -> denotes_range x r -> denotes_range y s ->
  (period_holds op x y = true <-> op_days op r s).
Proof.
  intros [_ Hr] [_ Hs] [Hlx Hhx] [Hly Hhy]. unfold upper in *. unfold period_holds, op_days, Dates.in_days. destruct op.
  - rewrite (below_denotes _ _ _ _ Hlx Hhy), (below_denotes _ _ _ _ Hly Hhx).
    assert (forall z q (n : Z), denotes (lo z) (Some (Dates.toDays (Dates.from q))) -> denotes (hi z) (option_map (fun t => Dates.toDays t + 1) (Dates.to q)) ->
      match Dates.to q with None => True | Some t => Dates.isPlainDate t = true /\ Dates.toDays (Dates.from q) <= Dates.toDays t end ->
      js_is (lo z) (hi z) = false) as Hne.
    { intros z q0 n Hl Hh Hq. destruct (Dates.to q0) as [t|]; cbn [option_map] in Hh.
      - rewrite (is_denotes _ _ _ _ Hl Hh). apply Z.eqb_neq. lia.
      - rewrite Hh. by destruct (null_denotes _ _ Hl). }
    rewrite (Hne x r 0 Hlx Hhx Hr), (Hne y s 0 Hly Hhy Hs). cbn [negb]. rewrite !andb_true_r, andb_true_iff.
    destruct (Dates.to r) as [tr|], (Dates.to s) as [ts|]; cbn [option_map]; rewrite ?Z.ltb_lt; split;
      try (intros (n & ? & ?); lia); intros;
      exists (Z.max (Dates.toDays (Dates.from r)) (Dates.toDays (Dates.from s))); lia.
  - rewrite (le_denotes _ _ _ _ Hly Hlx), andb_true_iff, Z.leb_le.
    destruct (Dates.to s) as [ts|]; cbn [option_map] in Hhy.
    + destruct Hhy as (hy & Ey & Hy & Dy). rewrite Ey. destruct (Dates.to r) as [tr|]; cbn [option_map] in Hhx.
      * destruct Hhx as (hx & Ex & Hx & Dx). rewrite Ex. cbn [js_le]. rewrite Dates.leb_days by done. rewrite Z.leb_le. split.
        -- intros [H1 H2] n Hn. lia.
        -- intros H. pose proof (H (Dates.toDays (Dates.from r)) ltac:(lia)). pose proof (H (Dates.toDays tr) ltac:(lia)). lia.
      * rewrite Hhx. split; [by intros [_ ?]|]. intros H. exfalso.
        pose proof (H (Z.max (Dates.toDays (Dates.from r)) (Dates.toDays ts + 1)) ltac:(lia)). lia.
    + rewrite Hhy. split; [intros [H _] n Hn; lia|]. intros H. split; [|done].
      pose proof (H (Dates.toDays (Dates.from r))) as H0. destruct (Dates.to r); lia.
  - rewrite (le_denotes _ _ _ _ Hly Hlx), (below_denotes _ _ _ _ Hlx Hhy), andb_true_iff, Z.leb_le.
    destruct (Dates.to s) as [ts|]; cbn [option_map]; rewrite ?Z.ltb_lt; lia.
  - destruct (Dates.to r) as [tr|]; cbn [option_map] in Hhx.
    + pose proof Hhx as Hhx'. destruct Hhx as (hx & Ex & Hx & Dx). rewrite Ex in *. rewrite (lt_denotes _ _ _ _ Hly Hhx'), andb_true_iff, Z.ltb_lt.
      destruct (Dates.to s) as [ts|]; cbn [option_map] in Hhy.
      * destruct Hhy as (hy & Ey & Hy & Dy). rewrite Ey. cbn [js_le]. rewrite Dates.leb_days by done. rewrite Z.leb_le. split.
        -- intros [H1 H2]. exists tr. split; [done|]. lia.
        -- intros (t & [= <-] & H1 & H2). lia.
      * rewrite Hhy. split; [intros [H _]; exists tr; split; [done|lia]|]. intros (t & [= <-] & H & _). split; [lia|done].
    + rewrite Hhx. split; [done|]. by intros (t & ? & _).
Qed.

Lemma inverted_span (f : FieldInfo) (y : Range) (s : Dates.DatePeriod) :
  is_date_period f = true -> Dates.wf_period s -> denotes_range y s -> inverted f (lo y) (hi y) = false.
Proof.
  intros Hdate [_ Hto] [(l & El & Hl & Dl) Hhy]. unfold upper in Hhy. rewrite El. unfold inverted.
  destruct (Dates.to s) as [t|]; cbn [option_map denotes] in Hhy; [|by rewrite Hhy].
  destruct Hhy as (h & -> & Hh & Dh). rewrite Hdate. cbn [shown]. rewrite Dates.leb_days by done. apply Z.leb_gt. lia.
Qed.

#[local] Opaque range inverted period_holds.
Section Days.
Context (sin cos asin sqrt : number -> number) (operandValue : string -> Authority -> outcome Json) (cat : Catalog)
  (bindings : Bindings) (authority : option Authority) (rows : string -> string -> string -> Row -> outcome (list Row)).
Local Abbreviation evaluates := (eval sin cos asin sqrt operandValue cat bindings authority rows).

(** The period operators on dates are set operations on calendar days: for a row whose field holds a date period and a
    predicate naming another, [overlaps] holds exactly when some day is in both, [within] when every day of the row's
    period is in the other, [startsWithin] and [endsWithin] when its first, or last, day is; and [contains] of a day holds
    exactly when the day is in the row's period. *)
Theorem date_periods (c fd : string) (row : Row) (f : FieldInfo) (r s : Dates.DatePeriod) (op : PeriodOp) (d : string)
    (Hf : info cat c fd = Ok f) (Hdate : is_date_period f = true) (Hrow : field row fd = period_json r)
    (Hr : wf_span r) (Hs : wf_span s) (Hd : Dates.isPlainDate d = true) :
  (exists b, evaluates c (PPeriod fd op (Lit (JString (Dates.from s))) (Lit (end_json (Dates.to s)))) row = Ok b /\
     (b = true <-> op_days op r s)) /\
  (exists b, evaluates c (PPeriodContains fd (Lit (JString d))) row = Ok b /\ (b = true <-> Dates.in_days r (Dates.toDays d))).
Proof.
  destruct (range_period f r Hdate Hr) as (x & Ex & Hx), (range_period f s Hdate Hs) as (y & Ey & Hy).
  split.
  - cbn [eval]. rewrite Hf. cbn. rewrite Hrow, Ex. cbn. rewrite Hdate. cbn [fst snd]. unfold period_json in Ey. rewrite Ey. cbn.
    rewrite (inverted_span f y s Hdate (proj1 Hs) Hy).
    eexists. split; [reflexivity|]. apply holds_days; [apply Hr|apply Hs|done|done].
  - cbn [eval]. rewrite Hf. cbn. rewrite Hrow, Ex. cbn. rewrite Hdate. eexists. split; [reflexivity|].
    assert (denotes (JsStr d) (Some (Dates.toDays d))) as Hdd by (by exists d). destruct Hx as [Hl Hh].
    rewrite (le_denotes _ _ _ _ Hl Hdd), (below_denotes _ _ _ _ Hdd Hh). unfold upper, Dates.in_days.
    rewrite andb_true_iff, Z.leb_le. destruct (Dates.to r); cbn [option_map]; rewrite ?Z.ltb_lt; [lia|tauto].
Qed.
End Days.
End Periods.

(** ** jsonb containment. *)
Module Containment.

(** No object of the value repeats a key. *)
Fixpoint wf_json (j : Json) : Prop :=
  match j with
  | JArray l => (fix all l := match l with [] => True | x :: l' => wf_json x /\ all l' end) l
  | JObject o => NoDup (keys o) /\ (fix all o := match o with [] => True | (_, x) :: o' => wf_json x /\ all o' end) o
  | _ => True
  end.

Lemma json_is_trans (a b c : Json) : json_is a b = true -> json_is b c = true -> json_is a c = true.
Proof.
  destruct a, b, c; cbn; try done.
  - intros ->%Bool.eqb_prop. done.
  - rewrite !Qeq_bool_iff. intros -> ->. done.
  - by intros ->%String.eqb_eq.
Qed.

(** [contains] of a scalar is identity of scalars. *)
Lemma contains_scalar (a c : Json) :
  match c with JArray _ | JObject _ => False | _ => True end -> contains (Some a) c false = json_is a c.
Proof. by destruct a, c. Qed.
Lemma contains_array (a : Json) (ys : list Json) : contains (Some a) (JArray ys) false = true <->
  exists xs, a = JArray xs /\ forall y, y ∈ ys -> exists x, x ∈ xs /\ contains (Some x) y false = true.
Proof.
  destruct a as [| | | |xs|]; try (split; [done|by intros (? & ? & _)]). cbn [contains]. rewrite forallb_forall. split.
  - intros H. exists xs. split; [done|]. intros y Hy. apply list_elem_of_In in Hy. specialize (H y Hy).
    apply existsb_exists in H as (x & Hx & H). exists x. by rewrite list_elem_of_In.
  - intros (xs' & [= <-] & H) y Hy. apply list_elem_of_In in Hy. destruct (H y Hy) as (x & Hx & Hc). apply existsb_exists.
    exists x. by rewrite <- list_elem_of_In.
Qed.
Lemma contains_object (a : Json) (ps : dict Json) : contains (Some a) (JObject ps) false = true <->
  exists o, a = JObject o /\ forall k y, (k, y) ∈ ps -> exists x, get o k = Some x /\ contains (Some x) y false = true.
Proof.
  destruct a as [| | | | |o]; try (split; [done|by intros (? & ? & _)]). cbn [contains]. rewrite forallb_forall. split.
  - intros H. exists o. split; [done|]. intros k y Hy. apply list_elem_of_In in Hy. specialize (H (k, y) Hy). cbn [fst snd] in H.
    apply andb_true_iff in H as [H0 H]. unfold has_own in H0. destruct (get o k) as [x|]; [by exists x|done].
  - intros (o' & [= <-] & H) [k y] Hy. apply list_elem_of_In in Hy. destruct (H k y Hy) as (x & Hx & Hc). cbn [fst snd].
    unfold has_own. by rewrite Hx, Hc.
Qed.

Lemma contains_refl (a : Json) : wf_json a -> contains (Some a) a false = true.
Proof.
  induction a as [| | | |l IH|o IH] using Json_nested; intros Hwf; try done.
  - rewrite contains_scalar by done. by destruct b.
  - rewrite contains_scalar by done. apply Qeq_bool_refl.
  - rewrite contains_scalar by done. apply String.eqb_refl.
  - apply contains_array. exists l. split; [done|]. intros y Hy. exists y. split; [done|]. cbn [wf_json] in Hwf.
    induction IH as [|x l Hx IH IHl]; [by apply elem_of_nil in Hy|]. destruct Hwf as [H1 H2].
    apply elem_of_cons in Hy as [->|Hy]; [by apply Hx|by apply IHl].
  - apply contains_object. exists o. split; [done|]. intros k y Hy. exists y. cbn [wf_json] in Hwf. destruct Hwf as [Hnd Hwf].
    split; [by apply in_get|]. clear Hnd. induction IH as [|[k' x] o Hx IH IHo]; [by apply elem_of_nil in Hy|]. destruct Hwf as [H1 H2].
    apply elem_of_cons in Hy as [[= -> ->]|Hy]; [by apply Hx|by apply IHo].
Qed.

(** Containment is a preorder, as jsonb's is: every value contains itself, and what is contained in a contained value is
    contained; so a row kept by a containment filter is kept by every weaker one. *)
Theorem contains_preorder (a b c : Json) (Ha : wf_json a) :
  contains (Some a) a false = true /\
  (contains (Some a) b false = true -> contains (Some b) c false = true -> contains (Some a) c false = true).
Proof.
  split; [by apply contains_refl|]. clear Ha. revert a b. induction c as [|bc|nc|sc|l IH|o IH] using Json_nested; intros a b Hab Hbc.
  1-4: rewrite contains_scalar in Hbc |- * by done; destruct b; try discriminate Hbc; rewrite contains_scalar in Hab by done;
    exact (json_is_trans _ _ _ Hab Hbc).
  - apply contains_array in Hbc as (ys & -> & Hbc). apply contains_array in Hab as (xs & -> & Hab). apply contains_array.
    exists xs. split; [done|]. intros z Hz. destruct (Hbc z Hz) as (y & Hy & Hyz). destruct (Hab y Hy) as (x & Hx & Hxy).
    exists x. split; [done|]. rewrite Forall_forall in IH. by apply (IH z Hz x y).
  - apply contains_object in Hbc as (ys & -> & Hbc). apply contains_object in Hab as (xs & -> & Hab). apply contains_object.
    exists xs. split; [done|]. intros k z Hz. destruct (Hbc k z Hz) as (y & Hy & Hyz). apply get_in in Hy.
    destruct (Hab k y Hy) as (x & Hx & Hxy). exists x. split; [done|]. rewrite Forall_forall in IH. by apply (IH (k, z) Hz x y).
Qed.
End Containment.

(** ** Concrete evaluations. *)
Module Sample.
Definition period_field : FieldInfo := fieldInfo "stay" (MkKind "period" false None None false None (Some (JString "date"))
  None None None None None None None None None).
Definition span_field : FieldInfo := fieldInfo "shift" (MkKind "period" false None None false None (Some (JString "instant"))
  None None None None None None None None None).
Definition model : ModelInfo :=
  MkModel "room" false [("stay", period_field); ("shift", span_field)]%string [] [] ["id"%string] [] None None None [].
Definition cat : Catalog := MkCatalog [("room"%string, model)] [] [] [].
Definition same (n : number) : number := n.
Definition no_value (_ : string) (_ : Authority) : outcome Json := Ok JNull.
Definition ask (p : Pred) (row : Row) : outcome bool :=
  evaluate same same same same no_value cat (MkBindings "2026-06-15T00:00:00Z" "2026-06-15") None None false "room" p row.
Definition stay (a : string) (b : option string) : Row := [("stay", Periods.period_json (Dates.Period a b))]%string.

Lemma date_periods_witness :
  exists b, ask (PPeriod "stay" PEndsWithin (Lit (JString "2026-06-10")) (Lit (JString "2026-06-20")))
    (stay "2026-06-01" (Some "2026-06-20")) = Ok b /\ (b = true <-> Periods.op_days PEndsWithin
      (Dates.Period "2026-06-01" (Some "2026-06-20"%string)) (Dates.Period "2026-06-10" (Some "2026-06-20"%string))).
Proof.
  refine (proj1 (Periods.date_periods same same same same no_value cat (MkBindings "2026-06-15T00:00:00Z" "2026-06-15") None
    (rows_of same same same same no_value cat (MkBindings "2026-06-15T00:00:00Z" "2026-06-15") None None false)
    "room" "stay" (stay "2026-06-01" (Some "2026-06-20")) period_field
    (Dates.Period "2026-06-01" (Some "2026-06-20"%string)) (Dates.Period "2026-06-10" (Some "2026-06-20"%string)) PEndsWithin
    "2026-06-11" eq_refl eq_refl eq_refl _ _ eq_refl));
    (split; [split; [reflexivity|split; [reflexivity|apply Z.leb_le; vm_compute; reflexivity]]|]);
    intros t [= <-]; apply Z.ltb_lt; vm_compute; reflexivity.
Defined.
Lemma contains_preorder_witness :
  contains (Some (JObject [("a", JArray [JNumber (1#1); JNumber (2#1)])]))%string (JObject []) false = true.
Proof.
  refine (proj2 (Containment.contains_preorder (JObject [("a", JArray [JNumber (1#1); JNumber (2#1)])])%string
    (JObject [("a", JArray [JNumber (1#1)])])%string (JObject []) _) eq_refl eq_refl).
  split; [|done]. apply (bool_decide_unpack _). vm_compute. exact I.
Defined.

(** A period ending on the last day of year 9999 contains no day: the text of the day after it, [+010000-01], sorts before
    every other. *)
Lemma last_day_contains_nothing : ask (PPeriodContains "stay" (Lit (JString "2026-06-15"))) (stay "2020-01-01" (Some "9999-12-31"%string)) = Ok false.
Proof. vm_compute. reflexivity. Qed.

(** An instant period argument whose ends cross matches a period between them. *)
Lemma crossed_instants_overlap :
  ask (PPeriod "shift" POverlaps (Lit (JString "2026-06-02T00:00:00Z")) (Lit (JString "2026-06-01T00:00:00Z")))
    [("shift", JObject [("start", JString "2026-05-01T00:00:00Z"); ("end", JString "2026-07-01T00:00:00Z")])]%string = Ok true.
Proof. vm_compute. reflexivity. Qed.
End Sample.
