(* ===== verification/Approvals.v ===== *)
(** Approvals: the state machine of [packages/bolt/src/engine/approvals/machine.ts], who may act of [route.ts], and the
    guarded moves of a stored request of [approvals.ts]. *)
From S2P Require Import Prelude Ir Contracts.

(** ** The state machine. *)
Module Machine.

Inductive ApprovalState := Pending | ChangesRequested | Approved | Rejected | Superseded.
Inductive ApprovalMove := Approve | Reject | RequestChanges | Resubmit | Supersede.
Inductive ApprovalRole := Approver | Requester | Superseder.
Inductive Reason := Required | Optional.
(** Where an edge leads: a state, or the following step ([Approved] after the last one). *)
Inductive Target := Next | To (s : ApprovalState).
Record Edge := MkEdge { edge_by : list ApprovalRole; edge_to : Target; edge_reason : Reason; edge_rollback : bool }.

#[export] Instance ApprovalState_eq_dec : EqDecision ApprovalState. Proof. solve_decision. Defined.
#[export] Instance Target_eq_dec : EqDecision Target. Proof. solve_decision. Defined.
#[export] Instance ApprovalMove_eq_dec : EqDecision ApprovalMove. Proof. solve_decision. Defined.
#[export] Instance ApprovalRole_eq_dec : EqDecision ApprovalRole. Proof. solve_decision. Defined.

Definition DECIDERS : list ApprovalRole := [Approver; Superseder].
Definition reject : Edge := MkEdge DECIDERS (To Rejected) Required true.

Definition MACHINE (s : ApprovalState) (m : ApprovalMove) : option Edge :=
  match s, m with
  | Pending, Approve => Some (MkEdge [Approver] Next Optional false)
  | Pending, Reject => Some reject
  | Pending, RequestChanges => Some (MkEdge DECIDERS (To ChangesRequested) Required false)
  | Pending, Supersede => Some (MkEdge [Superseder] (To Superseded) Required false)
  | ChangesRequested, Resubmit => Some (MkEdge [Requester] (To Pending) Optional false)
  | ChangesRequested, Reject => Some reject
  | _, _ => None
  end.

(** The states that hold the record's lock. *)
Definition OPEN : list ApprovalState := [Pending; ChangesRequested].
Definition is_open (s : ApprovalState) : bool := bool_decide (s ∈ OPEN).

Inductive ApprovalDecision := DApprove | DReject | DRequestChanges.
Definition move_of_decision (d : ApprovalDecision) : ApprovalMove :=
  match d with DApprove => Approve | DReject => Reject | DRequestChanges => RequestChanges end.

(** A set of roles is the list of its elements. *)
Definition has (roles : list ApprovalRole) (r : ApprovalRole) : bool := bool_decide (r ∈ roles).
Definition may (e : Edge) (roles : list ApprovalRole) : bool := existsb (has roles) (edge_by e).

Definition moveOf (decision : ApprovalDecision) (roles : list ApprovalRole) : ApprovalMove :=
  match decision with
  | DApprove => if negb (has roles Approver) && has roles Superseder then Supersede else Approve
  | d => move_of_decision d
  end.

Definition decisionsFor (state : ApprovalState) (roles : list ApprovalRole) : list (ApprovalDecision * Reason) :=
  flat_map (fun decision =>
      match MACHINE state (moveOf decision roles) with
      | Some edge => if may edge roles then [(decision, edge_reason edge)] else []
      | None => []
      end) [DApprove; DReject; DRequestChanges].

Definition state_name (s : ApprovalState) : string :=
  match s with
  | Pending => "Pending" | ChangesRequested => "ChangesRequested" | Approved => "Approved" | Rejected => "Rejected"
  | Superseded => "Superseded"
  end.
Definition move_name (m : ApprovalMove) : string :=
  match m with
  | Approve => "approve" | Reject => "reject" | RequestChanges => "requestChanges" | Resubmit => "resubmit"
  | Supersede => "supersede"
  end.
Definition role_name (r : ApprovalRole) : string :=
  match r with Approver => "approver" | Requester => "requester" | Superseder => "superseder" end.

Record Step := MkStep { state : ApprovalState; step : Z }.
Inductive Why := InvalidMove | Forbidden | NeedsReason.
Inductive Transition :=
| Moved (next : Step) (edge : Edge)
| Refused (why : Why) (message : string).

Definition transition (at_ : Step) (steps : Z) (move : ApprovalMove) (roles : list ApprovalRole) (reason : string) (to : Z)
    : Transition :=
  match MACHINE (state at_) move with
  | None =>
      Refused InvalidMove
        (if is_open (state at_)
         then "A request in " +:+ state_name (state at_) +:+ " cannot " +:+ move_name move +:+ "."
         else "This request is " +:+ state_name (state at_) +:+ "; it no longer changes.")
  | Some edge =>
      if negb (may edge roles) then
        Refused Forbidden ("Only the " +:+ join " or " (map role_name (edge_by edge)) +:+ " may " +:+ move_name move +:+ ".")
      else if (match edge_reason edge with Required => true | Optional => false end) && String.eqb reason "" then
        Refused NeedsReason "This decision needs a reason."
      else
        Moved
          match edge_to edge with
          | Next => if step at_ + 1 <? steps then MkStep Pending (step at_ + 1) else MkStep Approved (step at_)
          | To s => if bool_decide (move = Resubmit) then MkStep Pending to else MkStep s (step at_)
          end
          edge
  end.

End Machine.
Import Machine.

(** ** Who may act. *)
Module Route.

Record FlowStep := MkFlowStep { fs_name : string; fs_teams : list string; fs_users : list string }.
#[export] Instance FlowStep_eq_dec : EqDecision FlowStep. Proof. solve_decision. Defined.
(** The flow a request stores; [sn_guards] is the source epoch of the stored read plans, when it has any. *)
Record Snapshot := MkSnapshot { sn_steps : list FlowStep; superseded_by : list string; sn_guards : option string }.

(** A team handle the snapshot names that the workspace does not declare. *)
Definition unknownTeam (teams : list string) (s : Snapshot) : option string :=
  List.find (fun handle => negb (includes teams handle)) (flat_map fs_teams (sn_steps s) ++ superseded_by s).

(** Equal [JSON.stringify] of the steps: the same names, teams and users, in order. *)
Definition sameFlow (a b : Snapshot) : bool := bool_decide (sn_steps a = sn_steps b).

Record Request := MkRequest {
  rq_at : Step; requestor : string; rq_user : option string; route : Snapshot }.

Record Member := MkMem { m_id : string; m_team : option string }.
Definition member (a : EngineActor) : option Member :=
  match a with ActMember m => Some (MkMem (ma_id m) (head (ma_teams m))) | _ => None end.

Definition requestedBy (r : Request) (id : string) : bool :=
  String.eqb (requestor r) ("member:" +:+ id) || bool_decide (rq_user r = Some id).

Definition reviewer (r : Request) (auth : Authority) : option Member :=
  match member (au_actor auth) with
  | None => None
  | Some m =>
      if requestedBy r (m_id m)
         || match au_preview auth with Some p => requestedBy r (prev_by p) | None => false end
      then None else Some m
  end.

(** [r.route.steps[r.step]]. *)
Definition step_at (s : Snapshot) (k : Z) : option FlowStep := if k <? 0 then None else sn_steps s !! Z.to_nat k.

Definition in_team (team : option string) (teams : list string) : bool :=
  match team with Some t => includes teams t | None => false end.

Definition canApprove (r : Request) (auth : Authority) : bool :=
  match step_at (route r) (step (rq_at r)), reviewer r auth with
  | Some s, Some m => in_team (m_team m) (fs_teams s) || includes (fs_users s) (m_id m)
  | _, _ => false
  end.

Definition canSupersede (r : Request) (auth : Authority) : bool :=
  match reviewer r auth with
  | Some m => au_admin auth || in_team (m_team m) (superseded_by (route r))
  | None => false
  end.

Definition rolesOf (r : Request) (auth : Authority) : list ApprovalRole :=
  (if canApprove r auth then [Approver] else []) ++
  (if String.eqb (requestor r) (actorRef (au_actor auth)) then [Requester] else []) ++
  (if canSupersede r auth then [Superseder] else []).

Definition participant (r : Request) (auth : Authority) : bool :=
  is_open (state (rq_at r)) && negb (Nat.eqb (length (rolesOf r auth)) 0).

End Route.
Import Route.

(** ** A stored request and its moves. *)
Module Requests.

Inductive WriteOp := OpCreate | OpUpdate | OpDelete.
(** A held record's checkpoint. *)
Record Checkpoint := MkCheckpoint { cp_model : string; cp_id : string; cp_op : WriteOp; cp_before : option Z }.
(** What a rollback did to a record, and what it had to leave. *)
Inductive RollbackAction := Restored | Removed | Recreated.
Record RolledBack := MkRolledBack { rb_model : string; rb_id : string; rb_action : RollbackAction }.
Record Skipped := MkSkipped { sk_model : string; sk_id : string; sk_field : string; sk_reason : string }.

(** One interaction; [le_move] is [None] for the request itself. *)
Record LogEntry := MkLog {
  le_move : option ApprovalMove; le_by : string; le_at : string; le_from : option ApprovalState; le_to : ApprovalState;
  le_step : Z; le_reason : option string; le_changed : option (list string);
  le_rolledBack : option (list RolledBack); le_skipped : option (list Skipped) }.

(** The row of [bolt_approvals]. *)
Record Stored := MkStored {
  s_id : string; s_request : Request; s_model : string; s_record : string; s_action : WriteOp;
  s_records : list Checkpoint; s_log : list LogEntry; s_closed_at : option string }.
Definition s_at (a : Stored) : Step := rq_at (s_request a).

Inductive Code := CForbidden | CNotFound | CInvalidInput | CSourceChanged | CInvalidSpec | CInternal.
Inductive Decision :=
| Decided (requestId : string) (status : ApprovalState)
| Refusal (code : Code) (message : string) (field : option string)
| Conflict (id : string).

(** The columns of [approval_request] a state of a route shows. *)
Record Face := MkFace {
  f_steps : Z; f_names : list string; f_teams : list string; f_users : list string; f_superseders : list string }.
Definition face (r : Snapshot) (next : Step) : Face :=
  let open := is_open (state next) in
  let s := step_at r (step next) in
  MkFace (Z.of_nat (length (sn_steps r))) (map fs_name (sn_steps r))
    (if open then match s with Some s => fs_teams s | None => [] end else [])
    (if open then match s with Some s => fs_users s | None => [] end else [])
    (if open then superseded_by r else []).

Section Decide.
(** The reviewer's authority as the source has it now ([Authorities.member], [Authorities.team]), the release's source
    epoch, the rollback of the held records to their checkpoints ([rollbackPlan]), and what the approved write's
    [onApproved] answers: the writes it commits, or why the approval cannot stand. *)
Context (source_member : string -> bool -> option Authority).
Context (source_team : EngineActor -> string -> option Authority).
Context (sourceEpoch : option string).
Context (rollbackPlan : list Checkpoint -> list RolledBack * list Skipped).
Context (approved_writes : Stored -> Authority -> option Decision).

Record DecideInput := MkDecide {
  di_requestId : string; di_decision : ApprovalDecision; di_reason : option string; di_authority : Authority; di_now : string }.

Definition with_preview (a : Authority) (p : Preview) : Authority :=
  MkAuthority (au_key a) (au_actor a) (au_admin a) (au_policies a) (Some p) (au_kiosk a) (au_agent a) (au_run a)
    (au_models a) (au_automations a) (au_capabilities a) (au_limits a) (au_teamTree a) (au_scopes a).

Definition currentMember (id : string) (preview : option Preview) (admin : bool) : option Authority :=
  match preview with
  | None => source_member id (negb admin)
  | Some p =>
      match source_member (prev_by p) false with
      | None => None
      | Some real =>
          match au_admin real, au_actor real with
          | true, ActMember _ =>
              match prev_team p with
              | Some team =>
                  if negb (String.eqb id (prev_by p)) then None
                  else option_map (fun c => with_preview c p) (source_team (au_actor real) team)
              | None => option_map (fun c => with_preview c p) (source_member id true)
              end
          | _, _ => None
          end
      end
  end.

(** A planned decision: the version of the row it was planned on, and what the statement writes. *)
Record Change := MkChange { ch_at : Step; ch_log : nat; ch_next : Step; ch_entry : LogEntry; ch_closed : option string }.

(** [decide] up to its statement: what is refused, else the change it commits to the row it loaded. *)
Definition decide_plan (x : DecideInput) (loaded : option Stored) : Decision + Change :=
  match au_actor (di_authority x) with
  | ActMember m =>
      match loaded with
      | None => inl (Refusal CNotFound "No approval request has this id." None)
      | Some a =>
          match currentMember (ma_id m) (au_preview (di_authority x)) (au_admin (di_authority x)) with
          | None => inl (Refusal CForbidden "You are no longer authorized to act on this request." None)
          | Some auth =>
              let roles := rolesOf (s_request a) auth in
              let move := moveOf (di_decision x) roles in
              let reason := match di_reason x with Some r => trim r | None => "" end in
              let r := route (s_request a) in
              match transition (s_at a) (Z.of_nat (length (sn_steps r))) move roles reason 0 with
              | Refused Forbidden message => inl (Refusal CForbidden message None)
              | Refused NeedsReason message => inl (Refusal CInvalidInput message (Some "reason"))
              | Refused InvalidMove message => inl (Refusal CInvalidInput message None)
              | Moved next edge =>
                  let readGuards := if bool_decide (move = Approve \/ move = Supersede) then sn_guards r else None in
                  if match readGuards with Some g => negb (bool_decide (Some g = sourceEpoch)) | None => false end then
                    inl (Refusal CSourceChanged
                      "This request was prepared by another source release. Reject it and start a fresh request." None)
                  else
                    let stands := bool_decide (state next = Approved \/ state next = Superseded) in
                    let '(rolledBack, skipped) := if edge_rollback edge then rollbackPlan (s_records a) else ([], []) in
                    if existsb (fun k => String.eqb (sk_field k) "*" && negb (String.eqb (sk_reason k) "modelRemoved")) skipped then
                      inl (Refusal CInvalidInput
                        "An approval checkpoint cannot be restored. The request and its records remain held." None)
                    else
                      match if stands then approved_writes a auth else None with
                      | Some refused => inl refused
                      | None =>
                          inr (MkChange (s_at a) (length (s_log a)) next
                            (MkLog (Some move) (actorRef (au_actor auth)) (di_now x) (Some (state (s_at a))) (state next)
                              (step (s_at a)) (if String.eqb reason "" then None else Some reason) None
                              (if edge_rollback edge then Some rolledBack else None)
                              (if edge_rollback edge then Some skipped else None))
                            (if is_open (state next) then None else Some (di_now x)))
                      end
              end
          end
      end
  | _ => inl (Refusal CForbidden "Only a member may decide an approval." None)
  end.

(** [ap_authorize] and [up]: the row as loaded, locked, then moved; [None] when it moved meanwhile (a conflict). *)
Definition decide_commit (gated : bool) (c : Change) (row : Stored) : option Stored :=
  if bool_decide (state (s_at row) = state (ch_at c)) && (step (s_at row) =? step (ch_at c))
     && (length (s_log row) =? ch_log c)%nat && gated
  then
    Some (MkStored (s_id row)
      (MkRequest (ch_next c) (requestor (s_request row)) (rq_user (s_request row)) (route (s_request row)))
      (s_model row) (s_record row) (s_action row) (s_records row) (s_log row ++ [ch_entry c]) (ch_closed c))
  else None.

(** The whole decision against the row it loaded and the row its statement finds. *)
Definition decide (x : DecideInput) (loaded : option Stored) (gated : bool) (row : Stored) : Decision * Stored :=
  match decide_plan x loaded with
  | inl d => (d, row)
  | inr c =>
      match decide_commit gated c row with
      | Some row' => (Decided (s_id row) (state (ch_next c)), row')
      | None => (Conflict (s_id row), row)
      end
  end.
End Decide.

Section Resubmit.
(** The teams the workspace declares. *)
Context (teams : list string).

(** The requester's save in [ChangesRequested]; [snapshot] is [None] when the flow now allows the write. *)
Record ResubmitInput := MkResubmit {
  ri_snapshot : option Snapshot; ri_authority : Authority; ri_now : string; ri_changed : list (string * string * list string) }.

Record Resubmission := MkResubmission { rs_by : string; rs_next : Step; rs_route : Snapshot; rs_entry : LogEntry }.

Definition resubmit_plan (x : ResubmitInput) (loaded : option Stored) : Code * string + Resubmission :=
  match loaded with
  | None => inl (CNotFound, "No approval request has this id.")
  | Some a =>
      match sn_guards (route (s_request a)) with
      | Some _ => inl (CSourceChanged, "This request depends on earlier reads. Reject it and start a fresh request.")
      | None =>
          let r := match ri_snapshot x with Some s => s | None => route (s_request a) end in
          match unknownTeam teams r with
          | Some unknown =>
              inl (CInvalidSpec, "The approval flow names the team '" +:+ unknown +:+ "', which this workspace does not declare.")
          | None =>
              let next := MkStep Pending (if sameFlow (route (s_request a)) r then step (s_at a) else 0) in
              let by_ := actorRef (au_actor (ri_authority x)) in
              inr (MkResubmission by_ next r
                (MkLog (Some Resubmit) by_ (ri_now x) (Some ChangesRequested) (state next) (step next) None
                  (Some (uniq (flat_map (fun '(model, id, fields) =>
                     if String.eqb model (s_model a) && String.eqb id (s_record a) then fields
                     else map (fun f => model +:+ "." +:+ f) fields) (ri_changed x)))) None None))
          end
      end
  end.

(** [ap_resubmit]: the row of this requester while it waits for changes. *)
Definition resubmit_commit (gated : bool) (c : Resubmission) (row : Stored) : option Stored :=
  if bool_decide (state (s_at row) = ChangesRequested) && String.eqb (requestor (s_request row)) (rs_by c) && gated then
    Some (MkStored (s_id row) (MkRequest (rs_next c) (requestor (s_request row)) (rq_user (s_request row)) (rs_route c))
      (s_model row) (s_record row) (s_action row) (s_records row) (s_log row ++ [rs_entry c]) None)
  else None.

(** [route]: the row a routed write stores ([ap_state]), or why its flow is refused. *)
Definition request_row (id model record : string) (action : WriteOp) (records : list Checkpoint) (flow : Snapshot)
    (auth : Authority) (now : string) : string + Stored :=
  match unknownTeam teams flow with
  | Some unknown => inl ("The approval flow names the team '" +:+ unknown +:+ "', which this workspace does not declare.")
  | None =>
      let by_ := actorRef (au_actor auth) in
      let user := match au_preview auth with Some p => Some (prev_by p) | None => actorId (au_actor auth) end in
      inr (MkStored id (MkRequest (MkStep Pending 0) by_ user flow) model record action records
        [MkLog None by_ now None Pending 0 None None None None] None)
  end.
End Resubmit.

(** ** Theorems. *)

(** *** The machine. *)

Lemma has_spec (roles : list ApprovalRole) (r : ApprovalRole) : has roles r = true <-> r ∈ roles.
Proof. apply bool_decide_eq_true. Qed.

(** What a move that is taken says of the state it leaves and the state it reaches. *)
Lemma transition_moved (at_ : Step) (steps : Z) (move : ApprovalMove) (roles : list ApprovalRole) (reason : string) (to : Z)
    (next : Step) (edge : Edge) :
  transition at_ steps move roles reason to = Moved next edge ->
  MACHINE (state at_) move = Some edge /\ may edge roles = true /\
  (edge_reason edge = Required -> reason <> ""%string) /\
  next = match edge_to edge with
         | Next => if step at_ + 1 <? steps then MkStep Pending (step at_ + 1) else MkStep Approved (step at_)
         | To s => if bool_decide (move = Resubmit) then MkStep Pending to else MkStep s (step at_)
         end.
Proof.
  unfold transition. destruct (MACHINE (state at_) move) as [e|]; [|done].
  destruct (may e roles) eqn:Em; [|done]. cbn [negb]. destruct (_ && _) eqn:Er; [done|]. intros [= <- <-].
  split_and!; try done. intros Hr ->. rewrite Hr in Er. done.
Qed.

(** The buttons the view shows are the decisions the engine takes: [decisionsFor] lists a decision exactly when
    [transition] moves the request for these roles once a reason is given. *)
Theorem decisionsFor_complete (at_ : Step) (steps : Z) (roles : list ApprovalRole) (d : ApprovalDecision) (reason : string)
    (Hr : reason <> ""%string) :
  (exists r, (d, r) ∈ decisionsFor (state at_) roles) <->
  (exists next edge, transition at_ steps (moveOf d roles) roles reason 0 = Moved next edge).
Proof.
  assert ((exists next edge, transition at_ steps (moveOf d roles) roles reason 0 = Moved next edge) <->
    exists e, MACHINE (state at_) (moveOf d roles) = Some e /\ may e roles = true) as ->.
  { unfold transition. split.
    - intros (next & edge & H). apply transition_moved in H as (H1 & H2 & _). by exists edge.
    - intros (e & -> & ->). cbn [negb]. rewrite (proj2 (String.eqb_neq reason "") Hr), andb_false_r. by repeat eexists. }
  unfold decisionsFor. setoid_rewrite list_elem_of_In. setoid_rewrite in_flat_map. split.
  - intros (r & d' & _ & H). destruct (MACHINE (state at_) (moveOf d' roles)) as [e|] eqn:Em; [|done].
    destruct (may e roles) eqn:Ew; [|done]. destruct H as [[= <- _]|[]]. by exists e.
  - intros (e & Em & Ew). exists (edge_reason e), d. split; [destruct d; cbn; auto|]. rewrite Em, Ew. by left.
Qed.
Lemma decisionsFor_complete_witness :
  (exists r, (DApprove, r) ∈ decisionsFor Pending [Superseder]) <->
  (exists next edge, transition (MkStep Pending 0) 2 (moveOf DApprove [Superseder]) [Superseder] "late" 0 = Moved next edge).
Proof. by apply (decisionsFor_complete (MkStep Pending 0) 2 [Superseder] DApprove "late"). Defined.

(** *** Separation of duties. *)

Definition reviews (m : ApprovalMove) : bool := bool_decide (m <> Resubmit).

Lemma reviewer_other (r : Request) (auth : Authority) (m : Member) :
  reviewer r auth = Some m ->
  actorRef (au_actor auth) <> requestor r /\ Some (actorRef (au_actor auth)) <> option_map (append "member:") (rq_user r).
Proof.
  unfold reviewer, member. destruct (au_actor auth) as [a| | | |]; try done.
  destruct (requestedBy r (m_id _) || _) eqn:E; [done|]. intros _. apply orb_false_iff in E as [E _].
  unfold requestedBy in E. cbn [m_id] in E. apply orb_false_iff in E as [E1 E2].
  apply String.eqb_neq in E1. apply bool_decide_eq_false in E2. split.
  - intros H. apply E1. by rewrite <- H.
  - destruct (rq_user r) as [u|]; cbn; [|done]. intros [= H]. change (ma_id a = u) in H. apply E2. by rewrite H.
Qed.

Lemma rolesOf_reviewer (r : Request) (auth : Authority) (x : ApprovalRole) :
  x ∈ rolesOf r auth -> x <> Requester -> exists m, reviewer r auth = Some m.
Proof.
  unfold rolesOf, canApprove, canSupersede. rewrite !elem_of_app. intros [H|[H|H]] Hx.
  - destruct (step_at _ _), (reviewer r auth); try (by apply elem_of_nil in H). by eexists.
  - destruct (String.eqb _ _); [|by apply elem_of_nil in H]. by apply list_elem_of_singleton in H.
  - destruct (reviewer r auth); [by eexists|by apply elem_of_nil in H].
Qed.

Lemma machine_reviewers (s : ApprovalState) (m : ApprovalMove) (e : Edge) :
  MACHINE s m = Some e -> m <> Resubmit -> Requester ∉ edge_by e.
Proof.
  intros H Hm. destruct s, m; try done; cbn in H; injection H as <-; intros Hx%has_spec; discriminate Hx.
Qed.

Lemma review_by_reviewer (r : Request) (auth : Authority) (s : ApprovalState) (m : ApprovalMove) (e : Edge) :
  MACHINE s m = Some e -> m <> Resubmit -> may e (rolesOf r auth) = true -> exists x, reviewer r auth = Some x.
Proof.
  intros He Hm. unfold may. rewrite existsb_exists. intros (x & Hx & Hh). apply has_spec in Hh.
  apply (rolesOf_reviewer r auth x Hh). intros ->. apply (machine_reviewers s m e He Hm).
  by apply list_elem_of_In.
Qed.

(** *** Any interleaving of decisions and resubmissions. *)

Section History.
Context (source_member : string -> bool -> option Authority) (source_team : EngineActor -> string -> option Authority).
Context (sourceEpoch : option string) (rollbackPlan : list Checkpoint -> list RolledBack * list Skipped).
Context (approved_writes : Stored -> Authority -> option Decision) (teams : list string).
#[local] Abbreviation plan := (decide_plan source_member source_team sourceEpoch rollbackPlan approved_writes).

(** The versions of a request, newest first: each move is planned on any version loaded before and committed to the
    newest one, as concurrent callers do. A flow has at least one step, as its schema requires. *)
Inductive versions : list Stored -> Prop :=
| v_request id model record action records flow auth now row :
    sn_steps flow <> [] ->
    request_row teams id model record action records flow auth now = inr row -> versions [row]
| v_decide x loaded change row hs row' :
    versions (row :: hs) -> loaded ∈ row :: hs -> plan x (Some loaded) = inr change ->
    decide_commit true change row = Some row' -> versions (row' :: row :: hs)
| v_resubmit x loaded change row hs row' :
    versions (row :: hs) -> loaded ∈ row :: hs -> (forall flow, ri_snapshot x = Some flow -> sn_steps flow <> []) ->
    resubmit_plan teams x (Some loaded) = inr change ->
    resubmit_commit true change row = Some row' -> versions (row' :: row :: hs).

Lemma decide_plan_inv (x : DecideInput) (a : Stored) (c : Change) :
  plan x (Some a) = inr c ->
  ch_at c = s_at a /\ ch_log c = length (s_log a) /\
  exists move edge auth reason,
    move <> Resubmit /\ may edge (rolesOf (s_request a) auth) = true /\
    MACHINE (state (s_at a)) move = Some edge /\
    transition (s_at a) (Z.of_nat (length (sn_steps (route (s_request a))))) move (rolesOf (s_request a) auth) reason 0 =
      Moved (ch_next c) edge /\
    le_move (ch_entry c) = Some move /\ le_by (ch_entry c) = actorRef (au_actor auth) /\
    le_from (ch_entry c) = Some (state (s_at a)) /\ le_to (ch_entry c) = state (ch_next c) /\
    le_step (ch_entry c) = step (s_at a).
Proof.
  unfold decide_plan. destruct (au_actor (di_authority x)) as [m| | | |]; try done.
  destruct (currentMember _ _ _ _ _) as [auth|]; [|done].
  set (roles := rolesOf (s_request a) auth). set (move := moveOf (di_decision x) roles).
  set (reason := match di_reason x with Some r => trim r | None => "" end).
  destruct (transition _ _ _ _ _ _) as [next edge|[] msg] eqn:Et; try done.
  destruct (match _ with Some g => negb _ | None => false end); [done|].
  destruct (if edge_rollback edge then _ else _) as [rb sk]. destruct (existsb _ sk); [done|].
  destruct (if bool_decide _ then approved_writes a auth else None); [done|]. intros [= <-].
  split; [done|]. split; [done|]. exists move, edge, auth, reason.
  pose proof Et as Et'. apply transition_moved in Et' as (H1 & H2 & _).
  split_and!; try done. unfold move, moveOf. by destruct (di_decision x); [destruct (_ && _)| |].
Qed.

Lemma decide_commit_inv (g : bool) (c : Change) (row row' : Stored) :
  decide_commit g c row = Some row' ->
  s_at row = ch_at c /\ length (s_log row) = ch_log c /\ s_at row' = ch_next c /\
  s_log row' = s_log row ++ [ch_entry c] /\ route (s_request row') = route (s_request row) /\
  requestor (s_request row') = requestor (s_request row) /\ rq_user (s_request row') = rq_user (s_request row).
Proof.
  unfold decide_commit. destruct (_ && g) eqn:E; [|done]. intros [= <-]. bool_hyps.
  repeat match goal with H : bool_decide _ = true |- _ => apply bool_decide_eq_true in H end.
  match goal with H : (_ =? _)%nat = true |- _ => apply Nat.eqb_eq in H end.
  split_and!; try done. destruct (s_at row), (ch_at c). cbn in *. by subst.
Qed.

Lemma resubmit_inv (x : ResubmitInput) (a : Stored) (c : Resubmission) (row row' : Stored) :
  resubmit_plan teams x (Some a) = inr c -> resubmit_commit true c row = Some row' ->
  state (s_at row) = ChangesRequested /\ le_by (rs_entry c) = requestor (s_request row) /\
  s_at row' = rs_next c /\ state (rs_next c) = Pending /\
  (step (rs_next c) = 0 \/ step (rs_next c) = step (s_at a) /\ sn_steps (rs_route c) = sn_steps (route (s_request a))) /\
  s_log row' = s_log row ++ [rs_entry c] /\ route (s_request row') = rs_route c /\
  (rs_route c = route (s_request a) \/ ri_snapshot x = Some (rs_route c)) /\
  requestor (s_request row') = requestor (s_request row) /\ rq_user (s_request row') = rq_user (s_request row) /\
  le_move (rs_entry c) = Some Resubmit /\ le_from (rs_entry c) = Some ChangesRequested /\
  le_to (rs_entry c) = Pending /\ le_step (rs_entry c) = step (rs_next c).
Proof.
  unfold resubmit_plan, resubmit_commit. destruct (sn_guards _); [done|].
  destruct (unknownTeam _ _); [done|]. intros [= <-]. cbn [rs_by rs_next rs_route rs_entry].
  destruct (_ && true) eqn:E; [|done]. intros [= <-]. bool_hyps.
  match goal with H : bool_decide _ = true |- _ => apply bool_decide_eq_true in H end.
  split_and!; try done; [|by destruct (ri_snapshot x); auto]. cbn [step].
  destruct (sameFlow _ _) eqn:Ef; [|by left]. apply bool_decide_eq_true in Ef. by right.
Qed.

(** What a log says: the state it reaches by edges of the machine from the request's first step, and the steps approved
    since the last submission with the step that submission starts at. *)
Definition replay_entry (at_ : option Step) (e : LogEntry) : option Step :=
  match le_move e with
  | None => None
  | Some m =>
      s ← at_; edge ← MACHINE (state s) m;
      if negb (bool_decide (le_from e = Some (state s))) then None
      else match m with
           | Resubmit => if bool_decide (le_to e = Pending) then Some (MkStep Pending (le_step e)) else None
           | Approve =>
               if negb (le_step e =? step s) then None
               else if bool_decide (le_to e = Pending) then Some (MkStep Pending (step s + 1))
               else if bool_decide (le_to e = Approved) then Some (MkStep Approved (step s)) else None
           | _ =>
               if negb (le_step e =? step s) then None
               else if bool_decide (edge_to edge = To (le_to e)) then Some (MkStep (le_to e) (step s)) else None
           end
  end.
Definition replay (log : list LogEntry) : option Step :=
  match log with
  | e :: log' => foldl replay_entry (if bool_decide (le_move e = None) then Some (MkStep (le_to e) (le_step e)) else None) log'
  | [] => None
  end.

Definition since_entry (acc : Z * list Z) (e : LogEntry) : Z * list Z :=
  match le_move e with
  | None | Some Resubmit => (le_step e, [])
  | Some Approve => (fst acc, snd acc ++ [le_step e])
  | Some _ => acc
  end.
Definition since (log : list LogEntry) : Z * list Z := foldl since_entry (0, []) log.

(** An entry of a review is by someone other than the requester; a resubmission is by the requester. *)
Definition duties (r : Request) (e : LogEntry) : Prop :=
  match le_move e with
  | None | Some Resubmit => le_by e = requestor r
  | Some _ => le_by e <> requestor r /\ Some (le_by e) <> option_map (append "member:") (rq_user r)
  end.

(** The approvals since the last submission are its steps in order, up to the current one. *)
Definition approvals_in_order (row : Stored) : Prop :=
  let '(base, ss) := since (s_log row) in
  let n := Z.of_nat (length (sn_steps (route (s_request row)))) in
  let k := step (s_at row) in
  0 <= base <= k /\ k < n /\
  match state (s_at row) with
  | Approved => k = n - 1 /\ ss = seqZ base (k + 1 - base)
  | _ => ss = seqZ base (k - base)
  end.

Definition sound (row : Stored) : Prop :=
  replay (s_log row) = Some (s_at row) /\ Forall (duties (s_request row)) (s_log row) /\ approvals_in_order row /\ s_log row <> [].

Lemma replay_snoc (log : list LogEntry) (e : LogEntry) : log <> [] -> replay (log ++ [e]) = replay_entry (replay log) e.
Proof. destruct log as [|e0 log]; [done|]. intros _. cbn. by rewrite foldl_app. Qed.

Lemma since_snoc (log : list LogEntry) (e : LogEntry) : since (log ++ [e]) = since_entry (since log) e.
Proof. unfold since. by rewrite foldl_app. Qed.

Lemma seqZ_snoc (m n : Z) : 0 <= n -> seqZ m (n + 1) = seqZ m n ++ [m + n].
Proof. intros Hn. rewrite seqZ_app by lia. f_equal. Qed.

Lemma sound_request (t : list string) (id model record : string) (action : WriteOp) (records : list Checkpoint)
    (flow : Snapshot) (auth : Authority) (now : string) (row : Stored) :
  sn_steps flow <> [] -> request_row t id model record action records flow auth now = inr row -> sound row.
Proof.
  intros Hne. unfold request_row. destruct (unknownTeam _ _); [done|]. intros [= <-].
  split; [done|]. split; [by repeat constructor|]. split; [|done].
  unfold approvals_in_order. cbn. destruct (sn_steps flow); [done|]. cbn [length]. split_and!; try lia. done.
Qed.

Lemma sound_decide (row row' : Stored) (c : Change) (a : Stored) (x : DecideInput) :
  sound row -> a = row -> plan x (Some a) = inr c -> decide_commit true c row = Some row' -> sound row'.
Proof.
  intros (Hr & Hd & Ho & Hl) -> Hp Hc.
  apply decide_plan_inv in Hp as (_ & _ & move & edge & auth & reason & Hm & Hmay & He & Ht & Em & Eby & Ef & Eto & Es).
  apply decide_commit_inv in Hc as (_ & _ & Hat & Hlog & Hroute & Hreq & Huser).
  pose proof Ht as Hn. apply transition_moved in Hn as (_ & _ & _ & Hn).
  split; [|split; [|split]].
  - rewrite Hlog, replay_snoc, Hr by done. unfold replay_entry. rewrite Em. cbn [mbind option_bind]. rewrite He.
    cbn [mbind option_bind]. rewrite Ef, bool_decide_eq_true_2 by done. cbn [negb]. rewrite Es, Z.eqb_refl, Eto, Hat. cbn [negb].
    rewrite Hn. destruct (state (s_at row)), move; try done; cbn in He; injection He as <-; cbn; try done.
    by destruct (_ <? _).
  - rewrite Hlog. apply Forall_app. split.
    + apply (Forall_impl _ _ _ Hd). intros e. unfold duties. by rewrite Hreq, Huser.
    + constructor; [|done]. unfold duties. rewrite Em, Hreq, Huser, Eby.
      destruct (review_by_reviewer _ _ _ _ _ He Hm Hmay) as [r Hrev]. apply reviewer_other in Hrev. by destruct move.
  - unfold approvals_in_order in *. rewrite Hlog, since_snoc, Hroute, Hat.
    destruct (since (s_log row)) as [base ss]. unfold since_entry. rewrite Em, Es. cbn [fst snd].
    destruct (state (s_at row)) eqn:Est, move; try done; cbn in He; injection He as <-; cbn [edge_to reject] in Hn; rewrite Hn.
    all: destruct Ho as (Hb & Hk & Hss).
    all: try (rewrite bool_decide_eq_false_2 by done; cbn [state step]; split_and!; first [lia|exact Hss]).
    destruct (_ <? _) eqn:E; bool_hyps; cbn [state step]; split_and!; try lia; rewrite Hss.
    + replace (step (s_at row) + 1 - base) with (step (s_at row) - base + 1) by lia.
      rewrite seqZ_snoc by lia. do 2 f_equal. lia.
    + replace (step (s_at row) + 1 - base) with (step (s_at row) - base + 1) by lia.
      rewrite seqZ_snoc by lia. do 2 f_equal. lia.
  - rewrite Hlog. by destruct (s_log row).
Qed.

Lemma sound_resubmit (row row' loaded : Stored) (c : Resubmission) (x : ResubmitInput) :
  sound row -> sound loaded -> (forall flow, ri_snapshot x = Some flow -> sn_steps flow <> []) ->
  resubmit_plan teams x (Some loaded) = inr c -> resubmit_commit true c row = Some row' -> sound row'.
Proof.
  intros (Hr & Hd & Ho & Hl) (_ & _ & Hoa & _) Hne Hp Hc.
  destruct (resubmit_inv _ _ _ _ _ Hp Hc) as
    (Hst & Hby & Hat & Hpend & Hstep & Hlog & Hroute & Hflow & Hreq & Huser & Em & Ef & Eto & Es).
  assert (0 <= step (rs_next c) < Z.of_nat (length (sn_steps (rs_route c)))) as Hk.
  { unfold approvals_in_order in Hoa. destruct (since (s_log loaded)) as [base ss]. destruct Hoa as (Hb & Hn & _).
    destruct Hstep as [->|[-> ->]]; [|lia]. split; [lia|]. destruct Hflow as [->|Hs]; [lia|].
    specialize (Hne _ Hs). destruct (sn_steps (rs_route c)); [done|cbn; lia]. }
  split; [|split; [|split]].
  - rewrite Hlog, replay_snoc, Hr by done. unfold replay_entry. rewrite Em. cbn [mbind option_bind].
    rewrite Hst. cbn [MACHINE mbind option_bind]. rewrite Ef, Eto, !bool_decide_eq_true_2 by done. cbn [negb].
    rewrite Es, Hat. destruct (rs_next c) as [st k]. cbn in *. by subst.
  - rewrite Hlog. apply Forall_app. split.
    + apply (Forall_impl _ _ _ Hd). intros e. unfold duties. by rewrite Hreq, Huser.
    + constructor; [|done]. unfold duties. by rewrite Em, Hreq.
  - unfold approvals_in_order. rewrite Hlog, since_snoc, Hroute, Hat. destruct (since (s_log row)) as [base ss].
    unfold since_entry. rewrite Em, Es, Hpend. split_and!; try lia. by rewrite Z.sub_diag.
  - rewrite Hlog. by destruct (s_log row).
Qed.

(** Every version is sound, and logs only grow. *)
Lemma versions_sound (row : Stored) (hs : list Stored) :
  versions (row :: hs) ->
  Forall sound (row :: hs) /\ Forall (fun v => (length (s_log v) < length (s_log row))%nat) hs.
Proof.
  remember (row :: hs) as vs eqn:E. intros H. revert row hs E.
  induction H as [id model record action records flow auth now row0 Hne Hrow
                 |x loaded c row0 hs0 row' Hv IH Hin Hp Hc|x loaded c row0 hs0 row' Hv IH Hin Hne Hp Hc];
    intros row hs [= <- <-].
  - split; [|done]. constructor; [|done]. by eapply sound_request.
  - destruct (IH _ _ eq_refl) as [Hs Hlen].
    assert (loaded = row0) as ->.
    { apply elem_of_cons in Hin as [->|Hin]; [done|]. exfalso. rewrite Forall_forall in Hlen. specialize (Hlen _ Hin).
      apply decide_plan_inv in Hp as (_ & Hl & _). apply decide_commit_inv in Hc as (_ & Hl' & _). lia. }
    assert (length (s_log row') = S (length (s_log row0))) as El.
    { apply decide_commit_inv in Hc as (_ & _ & _ & -> & _). rewrite length_app. cbn. lia. }
    split.
    + constructor; [|done]. apply Forall_cons in Hs as [Hs _]. by eapply sound_decide.
    + constructor; [lia|]. apply (Forall_impl _ _ _ Hlen). intros; lia.
  - destruct (IH _ _ eq_refl) as [Hs Hlen].
    assert (length (s_log row') = S (length (s_log row0))) as El.
    { destruct (resubmit_inv _ _ _ _ _ Hp Hc) as (_ & _ & _ & _ & _ & -> & _). rewrite length_app. cbn. lia. }
    split.
    + constructor; [|done]. pose proof Hs as Hs0. apply Forall_cons in Hs0 as [Hrow0 _].
      rewrite Forall_forall in Hs. by eapply sound_resubmit; [done|apply Hs| | |].
    + constructor; [lia|]. apply (Forall_impl _ _ _ Hlen). intros; lia.
Qed.

(** No lost update: in any interleaving, a decision whose statement commits was planned on the newest version of the
    request, so a concurrent move turns every other planned decision into a conflict. *)
Theorem decide_serialized (row loaded row' : Stored) (hs : list Stored) (x : DecideInput) (c : Change)
    (Hv : versions (row :: hs)) (Hin : loaded ∈ row :: hs) (Hp : plan x (Some loaded) = inr c)
    (Hc : decide_commit true c row = Some row') :
  loaded = row.
Proof.
  apply elem_of_cons in Hin as [->|Hin]; [done|]. apply versions_sound in Hv as [_ Hlen].
  rewrite Forall_forall in Hlen. specialize (Hlen _ Hin).
  apply decide_plan_inv in Hp as (_ & Hl & _). apply decide_commit_inv in Hc as (_ & Hl' & _). lia.
Qed.

(** Whatever the interleaving of decisions and resubmissions, planned on whichever versions, the log of the newest
    version is a run of the machine from the first step that ends in the row's own state and step. *)
Theorem log_is_run (row : Stored) (hs : list Stored) (Hv : versions (row :: hs)) : replay (s_log row) = Some (s_at row).
Proof. apply versions_sound in Hv as [Hs _]. apply Forall_cons in Hs as [(H & _) _]. done. Qed.

(** Separation of duties: every review in a request's log (approve, reject, ask for changes, supersede) is by someone
    other than the requester, also under a preview, and every resubmission is by the requester. *)
Theorem no_self_review (row : Stored) (hs : list Stored) (Hv : versions (row :: hs)) :
  Forall (duties (s_request row)) (s_log row).
Proof. apply versions_sound in Hv as [Hs _]. apply Forall_cons in Hs as [(_ & H & _) _]. done. Qed.

(** C1. An approved request was approved at every step, in order, from the step its last submission resumed at to the
    last step of its flow. *)
Theorem approved_every_step (row : Stored) (hs : list Stored) (Hv : versions (row :: hs))
    (Ha : state (s_at row) = Approved) :
  let '(base, ss) := since (s_log row) in
  let n := Z.of_nat (length (sn_steps (route (s_request row)))) in
  0 <= base < n /\ ss = seqZ base (n - base).
Proof.
  apply versions_sound in Hv as [Hs _]. apply Forall_cons in Hs as [(_ & _ & Ho & _) _].
  unfold approvals_in_order in Ho. destruct (since (s_log row)) as [base ss]. rewrite Ha in Ho.
  destruct Ho as (Hb & Hk & Hn & Hss). split; [lia|]. rewrite Hss. f_equal. lia.
Qed.
End History.

(** *** A concrete request: two steps, a conflict, changes requested, and both approvals. *)

Definition person (id team : string) : Authority :=
  MkAuthority id (ActMember (MkMember id None None false [team] [] false None)) false [] None None None None []
    [] (MkCaps [] [] [] []) [] [] [].
Definition demo_member (id : string) (_ : bool) : option Authority :=
  Some (person id (if String.eqb id "u2" then "managers" else "staff")).
Definition no_team (_ : EngineActor) (_ : string) : option Authority := None.
Definition no_rollback (_ : list Checkpoint) : list RolledBack * list Skipped := ([], []).
Definition no_writes (_ : Stored) (_ : Authority) : option Decision := None.
Definition demo_flow : Snapshot :=
  MkSnapshot [MkFlowStep "manager" ["managers"] []; MkFlowStep "finance" [] ["u3"]] [] None.
#[local] Abbreviation demo_plan := (decide_plan demo_member no_team None no_rollback no_writes).
#[local] Abbreviation demo_versions := (versions demo_member no_team None no_rollback no_writes ["managers"; "staff"]).

Definition row_or (a : Stored) (m : string + Stored) : Stored := match m with inr r => r | inl _ => a end.
Definition blank : Stored :=
  MkStored "" (MkRequest (MkStep Pending 0) "" None (MkSnapshot [] [] None)) "" "" OpUpdate [] [] None.
Definition row0 : Stored :=
  row_or blank (request_row ["managers"; "staff"] "r" "invoice" "i1" OpUpdate [] demo_flow (person "u1" "staff") "t0").
Definition ask (id : string) (d : ApprovalDecision) : DecideInput := MkDecide "r" d (Some "why"%string) (person id "staff") "t1".
Definition change_or (m : Decision + Change) : Change :=
  match m with inr c => c | inl _ => MkChange (MkStep Pending 9) 0 (MkStep Pending 0) (MkLog None "" "" None Pending 0 None None None None) None end.
Definition change1 : Change := change_or (demo_plan (ask "u2" DApprove) (Some row0)).
Definition row1 : Stored := from_option id blank (decide_commit true change1 row0).
Definition change2 : Change := change_or (demo_plan (ask "u3" DApprove) (Some row1)).
Definition row2 : Stored := from_option id blank (decide_commit true change2 row1).

Lemma demo_run1 : demo_versions [row1; row0].
Proof.
  apply (v_decide _ _ _ _ _ _ (ask "u2" DApprove) row0 change1); [|by left|vm_compute; reflexivity..].
  by apply (v_request _ _ _ _ _ _ "r" "invoice" "i1" OpUpdate [] demo_flow (person "u1" "staff") "t0").
Qed.
Lemma demo_run2 : demo_versions [row2; row1; row0].
Proof. apply (v_decide _ _ _ _ _ _ (ask "u3" DApprove) row1 change2); [exact demo_run1|by left|vm_compute; reflexivity..]. Qed.

Lemma decide_serialized_witness : demo_plan (ask "u3" DApprove) (Some row1) = inr change2 /\ row1 = row1.
Proof.
  split; [vm_compute; reflexivity|].
  apply (decide_serialized demo_member no_team None no_rollback no_writes ["managers"; "staff"]
    row1 row1 row2 [row0] (ask "u3" DApprove) change2 demo_run1); [by left|vm_compute; reflexivity..].
Defined.
Lemma log_is_run_witness : replay (s_log row2) = Some (MkStep Approved 1).
Proof. apply (log_is_run _ _ _ _ _ _ row2 [row1; row0] demo_run2). Defined.
Lemma no_self_review_witness : length (s_log row2) = 3%nat /\ Forall (duties (s_request row2)) (s_log row2).
Proof. split; [done|]. apply (no_self_review _ _ _ _ _ _ row2 [row1; row0] demo_run2). Defined.
Lemma approved_every_step_witness : since (s_log row2) = (0, [0; 1]) /\ 0 <= 0 < 2 /\ [0; 1] = seqZ 0 (2 - 0).
Proof. split; [done|]. exact (approved_every_step _ _ _ _ _ _ row2 [row1; row0] demo_run2 eq_refl). Defined.
End Requests.
