(* ===== verification/Authority.v ===== *)
(** Policies to authority: the manifest parts [packages/bolt/src/engine/access/authority.ts] reads, its compiler, what a
    write and a read consult of the result, and an automation's delegation ([delegation.ts]). *)
From S2P Require Import Prelude Ir Contracts.

(** ** The manifest's parts. *)
Module Manifest.

(** A grant of rows: [true], or an object (a scope, a layer map or a bare [Where]) as JSON. *)
Inductive Grant := GTrue | GObject (o : dict Json).
Inductive WriteGrant := WTrue | WSpec (columns : option (dict (list string))) (check : bool).
Inductive DeleteGrant := DTrue | DSpec (check : bool).
(** [moves]: every edge, or the edges of each state field. *)
Inductive GrantMoves := GrantAll | GrantEdges (edges : dict (list string)).
Record GrantData := MkGrant {
  g_read : option Grant; g_outputs : dict Grant; g_history : option Grant; g_create : option WriteGrant;
  g_update : option WriteGrant; g_delete : option DeleteGrant; g_moves : option GrantMoves }.
Inductive LimitData := LRate (rate : string) | LSpec (rate : string) (per : Per).
(** One [limits] entry: one rule or a list of them. *)
Inductive LimitEntry := LOne (l : LimitData) | LMany (ls : list LimitData).
Record PolicyData := MkPolicy {
  p_grants : dict GrantData; p_automations : list string; p_apps : list string; p_kiosks : list string;
  p_tools : list string; p_mcp : list string; p_limits : dict LimitEntry }.

(** The fields a layer exposes. *)
Inductive Fields := AllFields | SomeFields (fields : list string).
Definition ReadLayers := dict Fields.
Definition LayerColumns := dict (list string).
Record SyncEntry := MkSync { sy_with : string; sy_read : bool; sy_write : bool }.
(** A create or update access point: its columns, and the ones the host fills. *)
Record WriteSpec := MkWriteSpec { ws_columns : LayerColumns; ws_filled : option LayerColumns }.
Record ExposureSpec := MkExposure {
  ex_read : ReadLayers; ex_outputs : dict ReadLayers; ex_create : option WriteSpec; ex_update : option WriteSpec;
  ex_syncs : dict SyncEntry }.
(** A relationship [<from>.<fk>]: one target or several, and its inverse. *)
Inductive RefTo := ToOne (model : string) | ToArc (models : list string).
Record RelationshipSpec := MkRel { rel_to : RefTo; rel_inverse : option string }.
(** A model as the compiler reads it: each stored field's kind, and its computed fields. *)
Record ModelSpec := MkModel { md_fields : dict string; md_computed : list string }.
Record Delegation := MkDelegation { dg_verb : string; dg_policy : string }.

Record Parts := MkParts {
  pt_models : dict ModelSpec; pt_relationships : dict RelationshipSpec; pt_exposures : dict ExposureSpec }.
Record EngineManifest := MkManifest {
  m_parts : Parts; m_policies : dict PolicyData; m_automations : dict (list Delegation) }.

(** ** The model behind each layer path. *)

Definition LAYER_MAX_DEPTH : nat := 5.

Definition before_dot (s : string) : string := match split_char "." s with w :: _ => w | [] => s end.
Definition after_dot (s : string) : string := drop (S (String.length (before_dot s))) s.

Definition targets (r : RelationshipSpec) (from : string) : bool :=
  match rel_to r with ToOne t => String.eqb t from | ToArc ts => includes ts from end.

(** The model a relation of [from] leads to, and whether it is a many-relation; or why it leads nowhere. *)
Definition layer_step (relationships : dict RelationshipSpec) (from rel : string) : string + string * bool :=
  match get relationships (from +:+ "." +:+ rel) with
  | Some one =>
      match rel_to one with
      | ToOne t => inr (t, false)
      | ToArc _ => inl ("'" +:+ rel +:+ "' is an arc (a ref to several models) and cannot be a layer")
      end
  | None =>
      match List.find (fun kv => bool_decide (rel_inverse (snd kv) = Some rel) && targets (snd kv) from) relationships with
      | None => inl ("'" +:+ rel +:+ "' is no relation of " +:+ from)
      | Some (key, _) => inr (before_dot key, true)
      end
  end.

(** [[...].sort] by segment count: stable insertion. *)
Fixpoint insert_path (p : string) (ps : list string) : list string :=
  match ps with
  | [] => [p]
  | x :: ps' =>
      if (length (split_char "." p) <? length (split_char "." x))%nat then p :: ps else x :: insert_path p ps'
  end.
Definition sort_paths (ps : list string) : list string := fold_left (fun acc p => insert_path p acc) ps [].

(** One path of one map: the models resolved so far and the errors. *)
Definition layer_path (relationships : dict RelationshipSpec) (root where_ : string) (declared : list string) (write : bool)
    (acc : dict string * list string) (path : string) : dict string * list string :=
  let '(models, errors) := acc in
  let error msg := (models, errors ++ [where_ +:+ ": " +:+ msg]) in
  let segments := split_char "." path in
  if negb (bool_decide (head segments = Some root)) then error ("'" +:+ path +:+ "' does not start at '" +:+ root +:+ "'")
  else if (LAYER_MAX_DEPTH <? length segments)%nat then error ("'" +:+ path +:+ "' is deeper than 5 levels")
  else if (length segments =? 1)%nat then acc
  else
    let parent := join "." (removelast segments) in
    let rel := List.last segments "" in
    match get models parent with
    | Some above =>
        if negb (includes declared parent) && negb (String.eqb where_ "create.filled")
        then error ("'" +:+ path +:+ "' needs its parent layer '" +:+ parent +:+ "'")
        else
          match layer_step relationships above rel with
          | inl msg => error (path +:+ ": " +:+ msg)
          | inr (next, many) =>
              if write && negb many then
                error ("'" +:+ path +:+ "' is a ref; a write layer is a many-relation (its child rows)")
              else
                match get models path with
                | Some other =>
                    if negb (String.eqb other next)
                    then error ("'" +:+ path +:+ "' resolves to " +:+ next +:+ ", elsewhere to " +:+ other)
                    else (set models path next, errors)
                | None => (set models path next, errors)
                end
          end
    | None => error ("'" +:+ path +:+ "' needs its parent layer '" +:+ parent +:+ "'")
    end.

Definition layer_map (relationships : dict RelationshipSpec) (root : string)
    (acc : dict string * list string) (entry : string * option (list string) * bool) : dict string * list string :=
  let '(where_, paths, write) := entry in
  match paths with
  | None => acc
  | Some ps =>
      let acc :=
        if negb (includes ps root) && negb (String.eqb where_ "create.filled")
        then (fst acc, snd acc ++ [where_ +:+ ": declare the root layer '" +:+ root +:+ "'"]) else acc in
      fold_left (layer_path relationships root where_ ps write) (sort_paths ps) acc
  end.

Definition layerModels (root : string) (c : ExposureSpec) (relationships : dict RelationshipSpec)
    : dict string * list string :=
  fold_left (layer_map relationships root)
    ([("read"%string, Some (keys (ex_read c)), false)]
     ++ map (fun '(output, layers) => ("outputs." +:+ output, Some (keys layers), false)) (ex_outputs c)
     ++ [("create.columns"%string, option_map (fun w => keys (ws_columns w)) (ex_create c), true);
         ("create.filled"%string, mbind (fun w => option_map keys (ws_filled w)) (ex_create c), true);
         ("update.columns"%string, option_map (fun w => keys (ws_columns w)) (ex_update c), true)])
    ([(root, root)], []).
End Manifest.
Import Manifest.

(** ** The compiler. *)
Module Access.

Definition TRUE : Pred := PConst true.
Definition FALSE : Pred := PConst false.
Definition isTrue (p : Pred) : bool := match p with PConst b => b | _ => false end.
Definition or (ps : list Pred) : Pred :=
  if existsb isTrue ps then TRUE else match ps with [] => FALSE | [p] => p | _ => POr ps end.

Definition DEFAULT_OUTPUT : string := "default".
Definition SYSTEM_COLUMNS : list string := ["id"; "revision"; "created_at"; "created_by"; "updated_at"; "updated_by"]%string.
Definition IDENTITY : list string := ["sys_user"; "sys_invitation"; "sys_api_key"]%string.
Definition isIdentity (c : string) : bool := includes IDENTITY c.
Definition KERNEL : string := "$directory".
Definition DIRECTORY_OUTPUT : string := "directory".

Definition emptyModel : ModelAuthority := MkModelAuthority [] [] [] [] [] [].

Definition DEFAULTS : list LimitRule :=
  [MkLimit "act" "600/min" PerActor; MkLimit "read" "3000/min" PerActor; MkLimit "upload" "120/min" PerActor;
   MkLimit "convert" "30/min" PerActor; MkLimit "agent" "100/h" PerActor;
   MkLimit "envoys.unrecognised" "1/15min" PerSender].
Definition VISITOR_DEFAULTS : list LimitRule :=
  [MkLimit "act" "120/h" PerIp; MkLimit "register" "20/h" PerIp; MkLimit "upload" "20/h" PerIp; MkLimit "read" "600/min" PerIp].

Definition starts_with (prefix s : string) : bool := String.eqb (takes (String.length prefix) s) prefix.

Definition limit_rule (key : string) (x : LimitData) : LimitRule :=
  match x with
  | LRate rate => MkLimit key rate (if starts_with "envoys." key then PerSender else PerActor)
  | LSpec rate per => MkLimit key rate per
  end.
Definition limitRules (key : string) (v : LimitEntry) : list LimitRule :=
  match v with LOne x => [limit_rule key x] | LMany xs => map (limit_rule key) xs end.

(** The kernel directory grant: staff read staff, externals read themselves and their party. *)
Definition directory (actor : EngineActor) : option Arm :=
  match actor with
  | ActMember m =>
      Some (MkArm KERNEL
        (if ma_external m
         then or [PCmp "id" CEq (Op (Var "requestor.id")); PCmp "party_id" CEq (Op (Var "requestor.party"))]
         else PCmp "kind" CEq (Lit (JString "staff"))))
  | _ => None
  end.

Section Compile.
(** The built-in layer ([SYSTEM]), and the decoder of a declared [Where], which [bolt check] proved. *)
Context (SYSTEM : Parts) (toPred : string -> Json -> Pred).
Context (m : EngineManifest).

Definition layered : Parts :=
  let own := m_parts m in
  MkParts (spread (pt_models SYSTEM) (pt_models own)) (spread (pt_relationships SYSTEM) (pt_relationships own))
    (spread (pt_exposures SYSTEM) (pt_exposures own)).
Definition layers (c : string) : dict string :=
  match get (pt_exposures layered) c with
  | Some e => fst (layerModels c e (pt_relationships layered))
  | None => []
  end.
Definition own_fields (c : string) : dict string :=
  match get (pt_models (m_parts m)) c with Some md => md_fields md | None => [] end.

(** [Schema.is] of a scope object and of a layer grant. *)
Definition isScope (o : dict Json) : bool :=
  match get o "where" with None | Some (JBool true) | Some (JObject _) => true | _ => false end.
Definition layer_where (j : option Json) : option (dict Json) :=
  match j with
  | Some (JObject o) => match get o "where" with Some (JObject w) => Some w | _ => None end
  | _ => None
  end.

Definition scopeObject (model : string) (g : Grant) : option (option Json) :=
  match g with
  | GTrue => None
  | GObject o =>
      if negb (isScope o) then None
      else if negb (length o =? 0)%nat
              && forallb (fun k => String.eqb k "where" && negb (has_own (own_fields model) k)) (keys o)
      then Some (get o "where") else None
  end.

Definition scopeArm (c policy : string) (g : option Grant) : option Arm :=
  match g with
  | None => None
  | Some GTrue => Some (MkArm policy TRUE)
  | Some (GObject o) =>
      match scopeObject c (GObject o) with
      | None => Some (MkArm policy (toPred c (JObject o)))
      | Some None | Some (Some (JBool true)) => Some (MkArm policy TRUE)
      | Some (Some w) => Some (MkArm policy (toPred c w))
      end
  end.

Definition outputsOf (c : string) : list string :=
  DEFAULT_OUTPUT :: match get (pt_exposures layered) c with Some e => keys (ex_outputs e) | None => [] end.

(** The layer map of one output. *)
Definition output_layers (c output : string) : ReadLayers :=
  match get (pt_exposures layered) c with
  | Some e => if String.eqb output DEFAULT_OUTPUT then ex_read e else default [] (get (ex_outputs e) output)
  | None => []
  end.

Definition pathsOf (c output : string) : dict string :=
  let declared := filter (fun pm => has_own (output_layers c output) (fst pm) = true) (layers c) in
  match declared with [] => [(c, c)] | _ => declared end.

Definition readArm (c policy : string) (read : Grant) (pm : string * string) : string * Arm :=
  let '(path, model) := pm in
  let open := MkArm policy TRUE in
  (path,
   match read with
   | GTrue => open
   | GObject o =>
       if isIdentity c then (if String.eqb path c then default open (scopeArm c policy (Some read)) else open)
       else match layer_where (get o path) with
            | Some w => MkArm policy (toPred model (JObject w))
            | None => open
            end
   end).
Definition readArms (c output policy : string) (read : Grant) : dict Arm := map (readArm c policy read) (pathsOf c output).

Definition write_spec (e : ExposureSpec) (update : bool) : option WriteSpec := if update then ex_update e else ex_create e.
Definition declared_columns (c : string) (update : bool) : LayerColumns :=
  match get (pt_exposures layered) c with
  | Some e => match write_spec e update with Some w => ws_columns w | None => [] end
  | None => []
  end.
Definition writeArm (c : string) (update : bool) (policy : string) (g : option WriteGrant) : option WriteArm :=
  match g with
  | None => None
  | Some WTrue => Some (MkWriteArm policy (declared_columns c update) false)
  | Some (WSpec columns check) => Some (MkWriteArm policy (default (declared_columns c update) columns) check)
  end.

(** [exposed]: the fields an output exposes at a path, its foreign keys included. *)
Definition exposed (root path model output : string) : list string :=
  let fields := get (output_layers root output) path in
  let fks := map after_dot (filter (fun k => before_dot k = model) (keys (pt_relationships layered))) in
  let md := get (pt_models layered) model in
  let sys := has_own (pt_models SYSTEM) model in
  let own :=
    filter (fun x => negb sys || negb (includes SYSTEM_COLUMNS x) = true)
      (match md with Some md => keys (md_fields md) ++ md_computed md | None => [] end ++ fks) in
  match fields with None | Some AllFields => own | Some (SomeFields f) => f end.

(** *** The models table, one write at a time ([col], [addRead] and the pushes). *)
Definition cols := dict ModelAuthority.
Definition col (d : cols) (c : string) : ModelAuthority := default emptyModel (get d c).
Definition update (f : ModelAuthority -> ModelAuthority) (c : string) (d : cols) : cols := set d c (f (col d c)).

Definition push_arm (at_ : dict (list Arm)) (pa : string * Arm) : dict (list Arm) :=
  set at_ (fst pa) (default [] (get at_ (fst pa)) ++ [snd pa]).
Definition addRead (c output : string) (arms : dict Arm) : cols -> cols :=
  update (fun a =>
    MkModelAuthority
      (set (ma_read a) output (fold_left push_arm arms (default [] (get (ma_read a) output))))
      (ma_history a) (ma_create a) (ma_update a) (ma_delete a) (ma_moves a)) c.
Definition pushHistory (arm : option Arm) : ModelAuthority -> ModelAuthority := fun a =>
  match arm with
  | None => a
  | Some x => MkModelAuthority (ma_read a) (ma_history a ++ [x]) (ma_create a) (ma_update a) (ma_delete a) (ma_moves a)
  end.
Definition pushWrite (is_update : bool) (arm : option WriteArm) : ModelAuthority -> ModelAuthority := fun a =>
  match arm with
  | None => a
  | Some x =>
      if is_update then MkModelAuthority (ma_read a) (ma_history a) (ma_create a) (ma_update a ++ [x]) (ma_delete a) (ma_moves a)
      else MkModelAuthority (ma_read a) (ma_history a) (ma_create a ++ [x]) (ma_update a) (ma_delete a) (ma_moves a)
  end.
Definition pushDelete (arm : option DeleteArm) : ModelAuthority -> ModelAuthority := fun a =>
  match arm with
  | None => a
  | Some x => MkModelAuthority (ma_read a) (ma_history a) (ma_create a) (ma_update a) (ma_delete a ++ [x]) (ma_moves a)
  end.
Definition setMoves (f : string) (v : Moves) : ModelAuthority -> ModelAuthority := fun a =>
  MkModelAuthority (ma_read a) (ma_history a) (ma_create a) (ma_update a) (ma_delete a) (set (ma_moves a) f v).

(** Every state field of a model moves along every edge. *)
Definition moveAll (c : string) (a : ModelAuthority) : ModelAuthority :=
  fold_left (fun a fk => if String.eqb (snd fk) "state" then setMoves (fst fk) AllMoves a else a) (own_fields c) a.
Definition addEdges (a : ModelAuthority) (fe : string * list string) : ModelAuthority :=
  let '(f, edges) := fe in
  setMoves f
    match get (ma_moves a) f with
    | Some AllMoves => AllMoves
    | Some (Edges had) => Edges (uniq (had ++ edges))
    | None => Edges (uniq edges)
    end a.

(** One grant of policy [p] on model [c]. *)
Definition addGrant (p : string) (d : cols) (cg : string * GrantData) : cols :=
  let '(c, g) := cg in
  let d := update id c d in
  let d := match g_read g with Some read => addRead c DEFAULT_OUTPUT (readArms c DEFAULT_OUTPUT p read) d | None => d end in
  let d := fold_left (fun d '(output, read) => addRead c output (readArms c output p read) d) (g_outputs g) d in
  update (fun a =>
    let a := pushHistory (scopeArm c p (g_history g)) a in
    let a := pushWrite false (writeArm c false p (g_create g)) a in
    let a := pushWrite true (writeArm c true p (g_update g)) a in
    let a := pushDelete
      match g_delete g with
      | None => None
      | Some DTrue => Some (MkDeleteArm p false)
      | Some (DSpec check) => Some (MkDeleteArm p check)
      end a in
    match g_moves g with
    | Some GrantAll => moveAll c a
    | Some (GrantEdges edges) => fold_left addEdges edges a
    | None => a
    end) c d.

Definition policy_of (p : string) : PolicyData := default (MkPolicy [] [] [] [] [] [] []) (get (m_policies m) p).
Definition addPolicy (d : cols) (p : string) : cols := fold_left (addGrant p) (p_grants (policy_of p)) d.

(** The kernel directory: [sys_user]'s directory output, filtered at its root. *)
Definition addDirectory (actor : EngineActor) (d : cols) : cols :=
  match directory actor with
  | None => d
  | Some kernel =>
      addRead "sys_user" DIRECTORY_OUTPUT
        (map (fun pm => (fst pm, if String.eqb (fst pm) "sys_user" then kernel else MkArm KERNEL TRUE))
          (pathsOf "sys_user" DIRECTORY_OUTPUT)) d
  end.

(** What an administrator or a platform run holds of one model. *)
Definition addOpen (d : cols) (c : string) : cols :=
  let open := MkArm "$admin" TRUE in
  let d := update id c d in
  let d := fold_left (fun d output => addRead c output (map (fun pm => (fst pm, open)) (pathsOf c output)) d) (outputsOf c) d in
  update (fun a =>
    let a := pushHistory (Some open) a in
    let a :=
      if isIdentity c then a
      else pushDelete (Some (MkDeleteArm "$admin" false))
             (pushWrite true (Some (MkWriteArm "$admin" (declared_columns c true) false))
               (pushWrite false (Some (MkWriteArm "$admin" (declared_columns c false) false)) a)) in
    moveAll c a) c d.

Definition policies_of (holder : Holder) : list string := filter (fun p => has_own (m_policies m) p = true) (h_policies holder).
Definition bypass (holder : Holder) : bool := h_admin holder || h_platform holder.

Definition models_of (holder : Holder) : cols :=
  if bypass holder then
    fold_left addOpen
      (keys (pt_exposures (m_parts m)) ++ (if h_admin holder then IDENTITY ++ ["sys_integration"%string] else [])) []
  else addDirectory (h_actor holder) (fold_left addPolicy (policies_of holder) []).

Definition declared_limits (holder : Holder) : list LimitRule :=
  flat_map (fun p => flat_map (fun '(k, v) => limitRules k v) (p_limits (policy_of p))) (policies_of holder).
Definition limits_of (holder : Holder) : list LimitRule :=
  let declared := declared_limits holder in
  let defaults := match h_actor holder with ActVisitor _ _ _ => VISITOR_DEFAULTS | _ => DEFAULTS end in
  declared ++ filter (fun d => existsb (fun x => String.eqb (lim_key x) (lim_key d)) declared = false) defaults.

Definition caps_of (f : PolicyData -> list string) (holder : Holder) : list string :=
  uniq (flat_map (fun p => f (policy_of p)) (policies_of holder)).

Definition compileAuthority (holder : Holder) (key : string) : Authority :=
  MkAuthority key (h_actor holder) (h_admin holder) (policies_of holder) None None None None (models_of holder)
    (if bypass holder then keys (m_automations m) else caps_of p_automations holder)
    (MkCaps (caps_of p_apps holder) (caps_of p_kiosks holder) (caps_of p_tools holder) (caps_of p_mcp holder))
    (limits_of holder) (h_teamTree holder) (h_scopes holder).

(** *** What a write and a read consult. *)

Definition admitMove (auth : Authority) (model field from to : string) : bool :=
  if au_admin auth || String.eqb from to then true
  else match mbind (fun a => get (ma_moves a) field) (get (au_models auth) model) with
       | Some AllMoves => true
       | Some (Edges moves) => includes moves (from +:+ "->" +:+ to)
       | None => false
       end.

Definition grantedArms (auth : Authority) (model output path : string) : option (list Arm) :=
  match mbind (fun a => mbind (fun paths => get paths path) (get (ma_read a) output)) (get (au_models auth) model) with
  | None | Some [] => None
  | Some arms => Some arms
  end.

Definition readsAny (auth : Authority) (model : string) : bool :=
  au_admin auth ||
  existsb (fun paths : dict (list Arm) => match get paths model with Some (_ :: _) => true | _ => false end)
    (match get (au_models auth) model with Some a => values (ma_read a) | None => [] end).

Definition viewOutput (auth : Authority) (model : string) : option string :=
  if au_admin auth then Some DEFAULT_OUTPUT
  else List.find (fun o => is_some (grantedArms auth model o model)) (outputsOf model).

Definition readScope (auth : Authority) (model : string) (history : bool) (output : string) : option Pred :=
  let arms :=
    if history then option_map ma_history (get (au_models auth) model) else grantedArms auth model output model in
  match arms with
  | None | Some [] => None
  | Some arms => Some (or (map arm_where arms))
  end.

Definition write_arms (a : ModelAuthority) (is_update : bool) : list WriteArm := if is_update then ma_update a else ma_create a.
(** The columns of the root a caller may write; [None] is every column. *)
Definition writableColumns (auth : Authority) (model : string) (is_update : bool) : option (list string) :=
  if au_admin auth then None
  else Some (uniq (flat_map (fun arm => default [] (get (wa_columns arm) model))
         (match get (au_models auth) model with Some a => write_arms a is_update | None => [] end))).

Definition visitorMayRead (auth : Authority) (model : string) : bool :=
  match au_actor auth with ActVisitor _ _ _ => readsAny auth model | _ => false end.

(** What the requestor variables read off an authority. *)
Record Requestor := MkRequestor {
  r_id : option string; r_email : option string; r_phone : option string; r_party : option string;
  r_visitor : option string; r_instance : option string; r_teams : list string; r_teamTree : list string;
  r_scopes : dict (list string) }.
Definition requestorOf (auth : Authority) : Requestor :=
  let actor := au_actor auth in
  let member := match actor with ActMember a => Some a | ActEnvoy _ _ _ _ linked => linked | _ => None end in
  MkRequestor
    match member with
    | Some a => Some (ma_id a)
    | None => match actor with ActVisitor _ visitor true => Some visitor | _ => None end
    end
    (mbind ma_email member) (mbind ma_phone member) (mbind (fun a => option_map party_id (ma_party a)) member)
    match actor with ActVisitor _ visitor _ => Some visitor | _ => None end
    match actor with
    | ActEnvoy _ instance _ _ _ => Some instance
    | ActSystem _ (BySync _ instance) => Some instance
    | _ => None
    end
    match member with Some a => ma_teams a | None => [] end (au_teamTree auth) (au_scopes auth).

(** The read-only remote sync that owns a model, and the fields left to the workspace. *)
Definition syncOwned (model : string) : option (string * list string) :=
  match get (pt_exposures (m_parts m)) model with
  | None => None
  | Some spec =>
      match List.find (fun ns => negb (String.eqb (sy_with (snd ns)) "file") && sy_read (snd ns) && negb (sy_write (snd ns)))
              (ex_syncs spec) with
      | Some (name, _) =>
          Some (model +:+ ".sync." +:+ name,
            match ex_update spec with Some w => default [] (get (ws_columns w) model) | None => [] end)
      | None => None
      end
  end.
End Compile.
End Access.
Import Access.

(** ** An automation's delegated verb. *)
Module Delegations.

(** A token is an object; what the native bridge issued is held by its identity, with the identities of the manifest and
    of the authority it was issued for. *)
Record Token := MkToken { tk_ref : nat; tk_run : string; tk_automation : string }.
Record Native := MkNative { nat_manifest : nat; nat_authority : nat }.
Definition issued := gmap nat Native.

Definition issueAutomationDelegation (st : issued) (manifest authority : nat) (run automation : string) : Token * issued :=
  let ref := fresh (dom st) in
  (MkToken ref run automation, <[ref := MkNative manifest authority]> st).

Definition forbidden {A} (msg : string) : outcome A := Throw (JsError "BoltError" msg).

(** [slice(0, i)] and [slice(i + 1)] at the last dot; [i] is -1 where there is none. *)
Fixpoint last_dot (s : string) : option (string * string) :=
  match s with
  | EmptyString => None
  | String c s' =>
      match last_dot s' with
      | Some (a, b) => Some (String c a, b)
      | None => if Ascii.eqb c "." then Some (EmptyString, s') else None
      end
  end.
Definition split_last_dot (s : string) : string * string :=
  match last_dot s with Some ab => ab | None => (takes (String.length s - 1) s, s) end.

Inductive Verb := VCreate | VUpdate | VDelete.
Definition verb_of (s : string) : option Verb :=
  if String.eqb s "create" then Some VCreate else if String.eqb s "update" then Some VUpdate
  else if String.eqb s "delete" then Some VDelete else None.

Definition has_arms (v : Verb) (a : ModelAuthority) : bool :=
  match v with
  | VCreate => negb (length (ma_create a) =? 0)%nat
  | VUpdate => negb (length (ma_update a) =? 0)%nat
  | VDelete => negb (length (ma_delete a) =? 0)%nat
  end.
(** [{ ...own, [verb]: [...own[verb], ...arms] }]. *)
Definition add_verb (v : Verb) (own arms : ModelAuthority) : ModelAuthority :=
  match v with
  | VCreate => MkModelAuthority (ma_read own) (ma_history own) (ma_create own ++ ma_create arms) (ma_update own) (ma_delete own) (ma_moves own)
  | VUpdate => MkModelAuthority (ma_read own) (ma_history own) (ma_create own) (ma_update own ++ ma_update arms) (ma_delete own) (ma_moves own)
  | VDelete => MkModelAuthority (ma_read own) (ma_history own) (ma_create own) (ma_update own) (ma_delete own ++ ma_delete arms) (ma_moves own)
  end.

Section Delegate.
Context (SYSTEM : Parts) (toPred : string -> Json -> Pred) (m : EngineManifest).

Definition delegatedVerbAuthority (st : issued) (mref aref : nat) (authority : Authority) (token : option Token)
    (callable : string) : outcome Authority :=
  match token with
  | None => Ok authority
  | Some tk =>
      match st !! tk_ref tk with
      | Some native =>
          if negb (nat_manifest native =? mref)%nat || negb (nat_authority native =? aref)%nat
          then forbidden "Automation delegation requires its immutable native run principal."
          else
            let policies :=
              map dg_policy (filter (fun d => dg_verb d = callable) (default [] (get (m_automations m) (tk_automation tk)))) in
            if (length policies =? 0)%nat then Ok authority
            else
              let '(model, verb) := split_last_dot callable in
              match verb_of verb with
              | None => forbidden "Automation delegates only an exact native generated verb."
              | Some v =>
                  match get (au_models authority) model with
                  | None => forbidden "Automation delegation requires its native target model."
                  | Some own =>
                      let delegated :=
                        compileAuthority SYSTEM toPred m
                          (MkHolder (au_actor authority) policies false false (au_teamTree authority) (au_scopes authority))
                          (au_key authority +:+ ":automation:" +:+ tk_automation tk +:+ ":" +:+ callable) in
                      match get (au_models delegated) model with
                      | Some arms =>
                          if has_arms v arms then
                            Ok (MkAuthority (au_key authority +:+ ":run:" +:+ tk_run tk +:+ ":" +:+ callable)
                                 (au_actor authority) (au_admin authority) (uniq (au_policies authority ++ policies))
                                 (au_preview authority) (au_kiosk authority) (au_agent authority) (au_run authority)
                                 (set (au_models authority) model (add_verb v own arms)) (au_automations authority)
                                 (au_capabilities authority) (au_limits authority) (au_teamTree authority) (au_scopes authority))
                          else forbidden "The declared automation policy has no exact target verb grant."
                      | None => forbidden "The declared automation policy has no exact target verb grant."
                      end
                  end
              end
      | None => forbidden "Automation delegation requires its immutable native run principal."
      end
  end.
End Delegate.
End Delegations.

(** ** Theorems. *)
Module AccessFacts.

Lemma col_update_eq (f : ModelAuthority -> ModelAuthority) (c : string) (d : cols) : col (update f c d) c = f (col d c).
Proof. unfold col, update. by rewrite get_set_eq. Qed.
Lemma col_update_ne (f : ModelAuthority -> ModelAuthority) (c c' : string) (d : cols) :
  c <> c' -> col (update f c d) c' = col d c'.
Proof. intros H. unfold col, update. by rewrite get_set_ne. Qed.

(** The arms of a path among the entries of a layer map. *)
Definition at_path (path : string) (arms : dict Arm) : list Arm := map snd (filter (fun pa => fst pa = path) arms).
(** The arms one output's path holds in the table. *)
Definition arms_at (d : cols) (c output path : string) : list Arm :=
  default [] (get (default [] (get (ma_read (col d c)) output)) path).

Lemma push_arms (arms : dict Arm) (at_ : dict (list Arm)) (path : string) :
  default [] (get (fold_left push_arm arms at_) path) = default [] (get at_ path) ++ at_path path arms.
Proof.
  revert at_. induction arms as [|[p a] arms IH]; intros at_; cbn [fold_left].
  - unfold at_path. cbn. by rewrite app_nil_r.
  - rewrite IH. unfold at_path, push_arm. cbn [fst snd]. rewrite filter_cons. cbn [fst].
    destruct (decide (p = path)) as [->|Hne].
    + rewrite get_set_eq. cbn [from_option id map snd]. by rewrite <- app_assoc.
    + by rewrite get_set_ne.
Qed.

Lemma arms_at_addRead (c o : string) (arms : dict Arm) (d : cols) (c' o' path : string) :
  arms_at (addRead c o arms d) c' o' path =
  arms_at d c' o' path ++ (if decide (c = c' /\ o = o') then at_path path arms else []).
Proof.
  unfold arms_at, addRead. destruct (decide (c = c')) as [<-|Hc].
  - rewrite col_update_eq. cbn [ma_read]. destruct (decide (o = o')) as [<-|Ho].
    + rewrite get_set_eq, decide_True by done. cbn [from_option id]. by rewrite push_arms.
    + rewrite get_set_ne, decide_False by naive_solver. by rewrite app_nil_r.
  - rewrite col_update_ne by done. rewrite decide_False by naive_solver. by rewrite app_nil_r.
Qed.

(** An update that leaves the reads alone. *)
Lemma arms_at_update (f : ModelAuthority -> ModelAuthority) (c : string) (d : cols) (c' o path : string) :
  (forall a, ma_read (f a) = ma_read a) -> arms_at (update f c d) c' o path = arms_at d c' o path.
Proof.
  intros Hf. unfold arms_at. destruct (decide (c = c')) as [<-|Hc]; [by rewrite col_update_eq, Hf|by rewrite col_update_ne].
Qed.

Section Facts.
Context (SYSTEM : Parts) (toPred : string -> Json -> Pred) (m : EngineManifest).

(** The grants of policy [p] on model [c]. *)
Definition grants_on (p c : string) : list GrantData :=
  map snd (filter (fun cg => fst cg = c) (p_grants (policy_of m p))).

(** The read arms a grant gives on one path of one output: of [read] for the default output, of [outputs] for a named one. *)
Definition grant_reads (p c output path : string) (g : GrantData) : list Arm :=
  flat_map (fun '(o, read) => if decide (o = output) then at_path path (readArms SYSTEM toPred m c o p read) else [])
    (match g_read g with Some read => [(DEFAULT_OUTPUT, read)] | None => [] end ++ g_outputs g).

Definition kernel_reads (actor : EngineActor) (c output path : string) : list Arm :=
  match directory actor with
  | Some kernel =>
      if decide ("sys_user" = c /\ DIRECTORY_OUTPUT = output) then
        at_path path (map (fun pm => (fst pm, if String.eqb (fst pm) "sys_user" then kernel else MkArm KERNEL TRUE))
          (pathsOf SYSTEM m "sys_user" DIRECTORY_OUTPUT))
      else []
  | None => []
  end.

Lemma reads_pushWrite (u : bool) (w : option WriteArm) (a : ModelAuthority) : ma_read (pushWrite u w a) = ma_read a.
Proof. unfold pushWrite. destruct w, u; done. Qed.
Lemma reads_pushHistory (h : option Arm) (a : ModelAuthority) : ma_read (pushHistory h a) = ma_read a.
Proof. by destruct h. Qed.
Lemma reads_pushDelete (x : option DeleteArm) (a : ModelAuthority) : ma_read (pushDelete x a) = ma_read a.
Proof. by destruct x. Qed.

Lemma fold_keep {A B} (view : A -> B) {C} (f : A -> C -> A) (l : list C) (a : A) :
  (forall a x, view (f a x) = view a) -> view (fold_left f l a) = view a.
Proof. intros Hf. revert a. induction l as [|x l IH]; intros a; cbn; [done|]. by rewrite IH, Hf. Qed.

(** What moves leave alone. *)
Definition without_moves (a : ModelAuthority) : dict (dict (list Arm)) * list Arm * list WriteArm * list WriteArm * list DeleteArm :=
  (ma_read a, ma_history a, ma_create a, ma_update a, ma_delete a).
Lemma moveAll_keeps (c : string) (a : ModelAuthority) : without_moves (moveAll m c a) = without_moves a.
Proof. unfold moveAll. apply fold_keep. intros b x. by destruct (String.eqb _ _). Qed.
Lemma addEdges_keep (es : dict (list string)) (a : ModelAuthority) :
  without_moves (fold_left addEdges es a) = without_moves a.
Proof. apply fold_keep. by intros b [f e]. Qed.
Lemma moves_keep (c : string) (mv : option GrantMoves) (a : ModelAuthority) :
  without_moves (match mv with
                 | Some GrantAll => moveAll m c a | Some (GrantEdges es) => fold_left addEdges es a | None => a
                 end) = without_moves a.
Proof. destruct mv as [[|es]|]; [apply moveAll_keeps|apply addEdges_keep|done]. Qed.

Lemma arms_at_outputs (p c : string) (outputs : dict Grant) (d : cols) (c' o path : string) :
  arms_at (fold_left (fun d '(output, read) => addRead c output (readArms SYSTEM toPred m c output p read) d) outputs d) c' o path =
  arms_at d c' o path ++
  (if decide (c = c') then
     flat_map (fun '(o', read) => if decide (o' = o) then at_path path (readArms SYSTEM toPred m c o' p read) else []) outputs
   else []).
Proof.
  revert d. induction outputs as [|[o1 r] outputs IH]; intros d; cbn [fold_left].
  - destruct (decide _); cbn; by rewrite app_nil_r.
  - rewrite IH, arms_at_addRead, <- app_assoc. f_equal.
    destruct (decide (c = c')) as [<-|Hc]; [|by rewrite decide_False by naive_solver]. cbn [flat_map]. f_equal.
    destruct (decide (o1 = o)) as [<-|Ho]; [by rewrite decide_True|by rewrite decide_False by naive_solver].
Qed.

Lemma arms_at_addGrant (p : string) (d : cols) (cg : string * GrantData) (c o path : string) :
  arms_at (addGrant SYSTEM toPred m p d cg) c o path =
  arms_at d c o path ++ (if decide (fst cg = c) then grant_reads p (fst cg) o path (snd cg) else []).
Proof.
  destruct cg as [c0 g]. unfold addGrant. rewrite arms_at_update.
  2:{ intros a. pose proof (f_equal (fun t => fst (fst (fst (fst t))))
        (moves_keep c0 (g_moves g) (pushDelete match g_delete g with None => None | Some DTrue => Some (MkDeleteArm p false)
           | Some (DSpec check) => Some (MkDeleteArm p check) end
           (pushWrite true (writeArm SYSTEM m c0 true p (g_update g))
             (pushWrite false (writeArm SYSTEM m c0 false p (g_create g)) (pushHistory (scopeArm toPred m c0 p (g_history g)) a)))))) as E.
      cbn [fst without_moves] in E. etrans; [exact E|].
      by rewrite reads_pushDelete, !reads_pushWrite, reads_pushHistory. }
  rewrite arms_at_outputs. cbn [fst snd]. unfold grant_reads. rewrite flat_map_app.
  destruct (g_read g) as [read|].
  - rewrite arms_at_addRead, arms_at_update by done. rewrite <- app_assoc. f_equal. cbn [flat_map]. rewrite app_nil_r.
    destruct (decide (c0 = c)) as [<-|Hc]; [|by rewrite decide_False by naive_solver]. f_equal.
    destruct (decide (DEFAULT_OUTPUT = o)) as [<-|Ho]; [by rewrite decide_True|by rewrite decide_False by naive_solver].
  - rewrite arms_at_update by done. f_equal.
Qed.

Lemma arms_at_addPolicy (p : string) (d : cols) (c o path : string) :
  arms_at (addPolicy SYSTEM toPred m d p) c o path = arms_at d c o path ++ flat_map (grant_reads p c o path) (grants_on p c).
Proof.
  unfold addPolicy, grants_on. revert d. induction (p_grants (policy_of m p)) as [|cg gs IH]; intros d; cbn [fold_left].
  - cbn. by rewrite app_nil_r.
  - rewrite IH, arms_at_addGrant, <- app_assoc. f_equal. rewrite filter_cons.
    destruct (decide (fst cg = c)) as [<-|]; done.
Qed.

(** What a holder that bypasses policy reads: the administrator's open arm, on every path of every output of the models
    opened to it. *)
Definition opened (holder : Holder) : list string :=
  keys (pt_exposures (m_parts m)) ++
  (if h_admin holder then ["sys_user"; "sys_invitation"; "sys_api_key"; "sys_integration"]%string else []).
Definition open_reads (c output path : string) : list Arm :=
  flat_map (fun o => if decide (o = output) then at_path path (map (fun pm => (fst pm, MkArm "$admin" TRUE)) (pathsOf SYSTEM m c o)) else [])
    (outputsOf SYSTEM m c).
Lemma arms_at_addOpen (c0 : string) (d : cols) (c o path : string) :
  arms_at (addOpen SYSTEM m d c0) c o path = arms_at d c o path ++ (if decide (c0 = c) then open_reads c o path else []).
Proof.
  unfold addOpen. rewrite arms_at_update.
  2:{ intros a. pose proof (f_equal (fun t => fst (fst (fst (fst t))))
        (moveAll_keeps c0 (let a := pushHistory (Some (MkArm "$admin" TRUE)) a in
           if isIdentity c0 then a
           else pushDelete (Some (MkDeleteArm "$admin" false))
                  (pushWrite true (Some (MkWriteArm "$admin" (declared_columns SYSTEM m c0 true) false))
                    (pushWrite false (Some (MkWriteArm "$admin" (declared_columns SYSTEM m c0 false) false)) a))))) as E.
      cbn [fst without_moves] in E. etrans; [exact E|]. by destruct (isIdentity c0). }
  assert (forall os d, arms_at (fold_left (fun d output => addRead c0 output (map (fun pm => (fst pm, MkArm "$admin" TRUE)) (pathsOf SYSTEM m c0 output)) d) os d) c o path =
    arms_at d c o path ++ (if decide (c0 = c) then
      flat_map (fun o' => if decide (o' = o) then at_path path (map (fun pm => (fst pm, MkArm "$admin" TRUE)) (pathsOf SYSTEM m c o')) else []) os else [])) as H.
  { induction os as [|o1 os IH]; intros d1; cbn [fold_left].
    - destruct (decide _); cbn; by rewrite app_nil_r.
    - rewrite IH, arms_at_addRead, <- app_assoc. f_equal. destruct (decide (c0 = c)) as [<-|Hc]; [|by rewrite decide_False by naive_solver].
      cbn [flat_map]. f_equal. destruct (decide (o1 = o)) as [<-|Ho]; [by rewrite decide_True|by rewrite decide_False by naive_solver]. }
  rewrite H, arms_at_update by done. f_equal. by destruct (decide (c0 = c)) as [<-|].
Qed.

(** C20. The read union, of any holder: the arms of one path of one output of a model are exactly the arms of the grants
    of its declared policies, in the holder's policy order, and for a member the kernel directory's; an undeclared policy
    and every other grant confer nothing. A holder that bypasses policy, an administrator or a platform run, has instead
    the open arm on the models opened to it, whatever its policies: the exposed ones, and for an administrator the
    identity models and the integrations. *)
Theorem reads_union (holder : Holder) (c output path : string) :
  arms_at (models_of SYSTEM toPred m holder) c output path =
  if h_admin holder || h_platform holder then
    flat_map (fun c0 => if decide (c0 = c) then open_reads c output path else []) (opened holder)
  else
    flat_map (fun p => flat_map (grant_reads p c output path) (grants_on p c)) (policies_of m holder)
    ++ kernel_reads (h_actor holder) c output path.
Proof.
  unfold models_of, bypass. destruct (h_admin holder || h_platform holder).
  - assert (forall cs d, arms_at (fold_left (addOpen SYSTEM m) cs d) c output path =
              arms_at d c output path ++ flat_map (fun c0 => if decide (c0 = c) then open_reads c output path else []) cs) as H.
    { induction cs as [|c0 cs IH]; intros d; cbn [fold_left flat_map]; [by rewrite app_nil_r|]. by rewrite IH, arms_at_addOpen, <- app_assoc. }
    rewrite H. unfold opened. by destruct (h_admin holder).
  - unfold addDirectory, kernel_reads.
    assert (forall ps d, arms_at (fold_left (addPolicy SYSTEM toPred m) ps d) c output path =
              arms_at d c output path ++ flat_map (fun p => flat_map (grant_reads p c output path) (grants_on p c)) ps) as H.
    { induction ps as [|p ps IH]; intros d; cbn [fold_left flat_map]; [by rewrite app_nil_r|].
      by rewrite IH, arms_at_addPolicy, <- app_assoc. }
    destruct (directory (h_actor holder)); [rewrite arms_at_addRead|]; rewrite H; [done|by rewrite app_nil_r].
Qed.

(** *** Write arms. *)

Definition writes (a : ModelAuthority) : list Arm * list WriteArm * list WriteArm * list DeleteArm :=
  (ma_history a, ma_create a, ma_update a, ma_delete a).
Definition delete_arm (p : string) (g : option DeleteGrant) : option DeleteArm :=
  match g with None => None | Some DTrue => Some (MkDeleteArm p false) | Some (DSpec check) => Some (MkDeleteArm p check) end.
Definition grant_writes (p c : string) (g : GrantData) : list Arm * list WriteArm * list WriteArm * list DeleteArm :=
  (option_list (scopeArm toPred m c p (g_history g)), option_list (writeArm SYSTEM m c false p (g_create g)),
   option_list (writeArm SYSTEM m c true p (g_update g)), option_list (delete_arm p (g_delete g))).
Definition plus (x y : list Arm * list WriteArm * list WriteArm * list DeleteArm) :=
  let '(h, c, u, d) := x in let '(h', c', u', d') := y in (h ++ h', c ++ c', u ++ u', d ++ d').

Lemma plus_nil (x : list Arm * list WriteArm * list WriteArm * list DeleteArm) : plus x ([], [], [], []) = x.
Proof. destruct x as [[[h c] u] d]. cbn. by rewrite !app_nil_r. Qed.
Lemma plus_assoc (x y z : list Arm * list WriteArm * list WriteArm * list DeleteArm) : plus (plus x y) z = plus x (plus y z).
Proof. destruct x as [[[? ?] ?] ?], y as [[[? ?] ?] ?], z as [[[? ?] ?] ?]. cbn. by rewrite !app_assoc. Qed.

Lemma writes_addRead (c0 o : string) (arms : dict Arm) (d : cols) (c : string) :
  writes (col (addRead c0 o arms d) c) = writes (col d c).
Proof.
  unfold addRead. destruct (decide (c0 = c)) as [<-|H]; [by rewrite col_update_eq|by rewrite col_update_ne].
Qed.
Lemma writes_without_moves (a b : ModelAuthority) : without_moves a = without_moves b -> writes a = writes b.
Proof. unfold without_moves, writes. by intros [= _ -> -> -> ->]. Qed.
Lemma writes_touch (c0 : string) (d : cols) (c : string) : writes (col (update id c0 d) c) = writes (col d c).
Proof. destruct (decide (c0 = c)) as [<-|H]; [by rewrite col_update_eq|by rewrite col_update_ne]. Qed.

Lemma writes_addGrant (p : string) (d : cols) (cg : string * GrantData) (c : string) :
  writes (col (addGrant SYSTEM toPred m p d cg) c) =
  plus (writes (col d c)) (if decide (fst cg = c) then grant_writes p (fst cg) (snd cg) else ([], [], [], [])).
Proof.
  destruct cg as [c0 g]. cbn [fst snd]. unfold addGrant.
  set (d2 := fold_left _ (g_outputs g) _).
  assert (forall c, writes (col d2 c) = writes (col d c)) as Hd2.
  { intros c1. unfold d2.
    rewrite (fold_keep (fun d => writes (col d c1))) by (intros ? [? ?]; apply writes_addRead).
    destruct (g_read g); rewrite ?writes_addRead; apply writes_touch. }
  clearbody d2. destruct (decide (c0 = c)) as [<-|Hne].
  - rewrite col_update_eq. etrans; [apply writes_without_moves, moves_keep|].
    rewrite <- Hd2. fold (delete_arm p (g_delete g)). unfold grant_writes.
    destruct (scopeArm _ _ _ _ _), (writeArm _ _ _ false _ _), (writeArm _ _ _ true _ _), (delete_arm _ _);
      cbn; by rewrite ?app_nil_r.
  - rewrite col_update_ne, Hd2, plus_nil by done. done.
Qed.

(** What a policy's grants on a model write. *)
Definition policy_writes (c p : string) : list Arm * list WriteArm * list WriteArm * list DeleteArm :=
  fold_right (fun g acc => plus (grant_writes p c g) acc) ([], [], [], []) (grants_on p c).

Lemma writes_addPolicy (p : string) (d : cols) (c : string) :
  writes (col (addPolicy SYSTEM toPred m d p) c) = plus (writes (col d c)) (policy_writes c p).
Proof.
  unfold addPolicy, policy_writes, grants_on. revert d.
  induction (p_grants (policy_of m p)) as [|cg gs IH]; intros d; cbn [fold_left].
  - symmetry. apply plus_nil.
  - rewrite IH, writes_addGrant, plus_assoc. f_equal. rewrite filter_cons.
    destruct (decide (fst cg = c)) as [<-|]; [done|]. cbn [plus app].
    by destruct (fold_right _ _ _) as [[[? ?] ?] ?].
Qed.

(** The write union: for a holder that does not bypass policy, its history, create, update and delete arms on a model
    are exactly those the grants of its declared policies give, in policy order. *)
Theorem writes_union (holder : Holder) (c : string) (Hb : bypass holder = false) :
  writes (col (models_of SYSTEM toPred m holder) c) =
  fold_right (fun p acc => plus (policy_writes c p) acc) ([], [], [], []) (policies_of m holder).
Proof.
  unfold models_of. rewrite Hb. unfold addDirectory.
  assert (forall ps d, writes (col (fold_left (addPolicy SYSTEM toPred m) ps d) c) =
            plus (writes (col d c)) (fold_right (fun p acc => plus (policy_writes c p) acc) ([], [], [], []) ps)) as H.
  { induction ps as [|p ps IH]; intros d; cbn [fold_left fold_right]; [by rewrite plus_nil|].
    by rewrite IH, writes_addPolicy, plus_assoc. }
  destruct (directory (h_actor holder)); [rewrite writes_addRead|]; rewrite H;
    by destruct (fold_right _ _ _) as [[[? ?] ?] ?].
Qed.

(** *** Moves. *)

Definition allows (mv : option Moves) (e : string) : bool :=
  match mv with Some AllMoves => true | Some (Edges es) => includes es e | None => false end.
Definition grant_allows (c f e : string) (g : GrantData) : bool :=
  match g_moves g with
  | Some GrantAll => existsb (fun fk => String.eqb (snd fk) "state" && String.eqb (fst fk) f) (own_fields m c)
  | Some (GrantEdges es) => existsb (fun fe => String.eqb (fst fe) f && includes (snd fe) e) es
  | None => false
  end.
Definition moves_of (d : cols) (c f : string) : option Moves := get (ma_moves (col d c)) f.

Lemma includes_uniq (xs : list string) (x : string) : includes (uniq xs) x = includes xs x.
Proof. apply eq_true_iff_eq. by rewrite !includes_spec, elem_of_uniq. Qed.
Lemma includes_app (xs ys : list string) (x : string) : includes (xs ++ ys) x = includes xs x || includes ys x.
Proof. apply existsb_app. Qed.

Lemma allows_moveAll (c f e : string) (a : ModelAuthority) :
  allows (get (ma_moves (moveAll m c a)) f) e =
  allows (get (ma_moves a) f) e || existsb (fun fk => String.eqb (snd fk) "state" && String.eqb (fst fk) f) (own_fields m c).
Proof.
  unfold moveAll. revert a. induction (own_fields m c) as [|[f0 k] fs IH]; intros a; cbn [fold_left existsb fst snd].
  - by rewrite orb_false_r.
  - rewrite IH. destruct (String.eqb k "state"); [|done]. cbn [ma_moves setMoves andb].
    destruct (String.eqb f0 f) eqn:E.
    + apply String.eqb_eq in E as ->. rewrite get_set_eq. cbn. by rewrite !orb_true_r.
    + apply String.eqb_neq in E. by rewrite get_set_ne.
Qed.

Lemma allows_addEdges (es : dict (list string)) (f e : string) (a : ModelAuthority) :
  allows (get (ma_moves (fold_left addEdges es a)) f) e =
  allows (get (ma_moves a) f) e || existsb (fun fe => String.eqb (fst fe) f && includes (snd fe) e) es.
Proof.
  revert a. induction es as [|[f0 edges] es IH]; intros a; cbn [fold_left existsb fst snd]; [by rewrite orb_false_r|].
  rewrite IH, orb_assoc. f_equal. cbn [addEdges setMoves ma_moves]. destruct (String.eqb f0 f) eqn:E.
  - apply String.eqb_eq in E as ->. rewrite get_set_eq. destruct (get (ma_moves a) f) as [[|had]|]; cbn [allows].
    + done.
    + by rewrite includes_uniq, includes_app.
    + by rewrite includes_uniq.
  - apply String.eqb_neq in E. rewrite get_set_ne by done. by rewrite orb_false_r.
Qed.

Lemma moves_addRead (c0 o : string) (arms : dict Arm) (d : cols) (c f : string) :
  moves_of (addRead c0 o arms d) c f = moves_of d c f.
Proof.
  unfold moves_of, addRead. destruct (decide (c0 = c)) as [<-|H]; [by rewrite col_update_eq|by rewrite col_update_ne].
Qed.

Lemma allows_addGrant (p : string) (d : cols) (cg : string * GrantData) (c f e : string) :
  allows (moves_of (addGrant SYSTEM toPred m p d cg) c f) e =
  allows (moves_of d c f) e || (if decide (fst cg = c) then grant_allows c f e (snd cg) else false).
Proof.
  destruct cg as [c0 g]. cbn [fst snd]. unfold addGrant. set (d2 := fold_left _ (g_outputs g) _).
  assert (forall c f, moves_of d2 c f = moves_of d c f) as Hd2.
  { intros c1 f1. unfold d2.
    rewrite (fold_keep (fun d => moves_of d c1 f1)) by (intros ? [? ?]; apply moves_addRead).
    assert (moves_of (update id c0 d) c1 f1 = moves_of d c1 f1) as Hid.
    { unfold moves_of. destruct (decide (c0 = c1)) as [<-|H]; [by rewrite col_update_eq|by rewrite col_update_ne]. }
    destruct (g_read g); by rewrite ?moves_addRead. }
  clearbody d2. destruct (decide (c0 = c)) as [<-|Hne].
  - unfold moves_of at 1. rewrite col_update_eq, <- Hd2. unfold grant_allows, moves_of.
    assert (forall h w1 w2 dl a, ma_moves (pushDelete dl (pushWrite true w2 (pushWrite false w1 (pushHistory h a)))) = ma_moves a) as Hm.
    { intros h w1 w2 dl a. by destruct h, w1, w2, dl. }
    destruct (g_moves g) as [[|es]|].
    + by rewrite allows_moveAll, Hm.
    + by rewrite allows_addEdges, Hm.
    + by rewrite Hm, orb_false_r.
  - unfold moves_of at 1. rewrite col_update_ne by done. fold (moves_of d2 c f). by rewrite Hd2, orb_false_r.
Qed.

Lemma allows_addPolicy (p : string) (d : cols) (c f e : string) :
  allows (moves_of (addPolicy SYSTEM toPred m d p) c f) e =
  allows (moves_of d c f) e || existsb (grant_allows c f e) (grants_on p c).
Proof.
  unfold addPolicy, grants_on. revert d. induction (p_grants (policy_of m p)) as [|cg gs IH]; intros d; cbn [fold_left].
  - by rewrite orb_false_r.
  - rewrite IH, allows_addGrant, <- orb_assoc. f_equal. rewrite filter_cons. by destruct (decide (fst cg = c)).
Qed.

(** A state moves only along a granted edge: for a holder that does not bypass policy, a move between two states is
    admitted exactly when a grant of one of its declared policies lists the edge, or grants every move of that state
    field. *)
Theorem admitMove_union (holder : Holder) (key model field from to : string) (Hb : bypass holder = false) :
  admitMove (compileAuthority SYSTEM toPred m holder key) model field from to =
  String.eqb from to ||
  existsb (fun p => existsb (grant_allows model field (from +:+ "->" +:+ to)) (grants_on p model)) (policies_of m holder).
Proof.
  unfold admitMove. cbn [au_admin compileAuthority au_models].
  assert (h_admin holder = false) as -> by (by apply orb_false_iff in Hb as [-> _]). cbn [orb].
  destruct (String.eqb from to); [done|]. cbn [orb].
  assert (forall ps d, allows (moves_of (fold_left (addPolicy SYSTEM toPred m) ps d) model field) (from +:+ "->" +:+ to) =
            allows (moves_of d model field) (from +:+ "->" +:+ to) ||
            existsb (fun p => existsb (grant_allows model field (from +:+ "->" +:+ to)) (grants_on p model)) ps) as H.
  { induction ps as [|p ps IH]; intros d; cbn [fold_left existsb]; [by rewrite orb_false_r|].
    by rewrite IH, allows_addPolicy, orb_assoc. }
  etrans; [|apply (H (policies_of m holder) [])].
  assert (moves_of (models_of SYSTEM toPred m holder) model field =
          moves_of (fold_left (addPolicy SYSTEM toPred m) (policies_of m holder) []) model field) as E.
  { unfold models_of. rewrite Hb. unfold addDirectory. destruct (directory _); [by rewrite moves_addRead|done]. }
  rewrite <- E. unfold moves_of, col. by destruct (get (models_of SYSTEM toPred m holder) model).
Qed.

(** *** Bypass. *)

Lemma identity_addOpen (d : cols) (c0 c : string) :
  isIdentity c = true -> writes (col (addOpen SYSTEM m d c0) c) =
    (if decide (c0 = c) then plus (writes (col d c)) ([MkArm "$admin" TRUE], [], [], []) else writes (col d c)).
Proof.
  intros Hi. unfold addOpen. set (d2 := fold_left _ (outputsOf SYSTEM m c0) _).
  assert (forall c, writes (col d2 c) = writes (col d c)) as Hd2.
  { intros c1. unfold d2. rewrite (fold_keep (fun d => writes (col d c1))) by (intros; apply writes_addRead). apply writes_touch. }
  clearbody d2. destruct (decide (c0 = c)) as [<-|Hne].
  - rewrite col_update_eq, Hi. etrans; [apply writes_without_moves, moveAll_keeps|]. rewrite <- Hd2.
    unfold writes. cbn. by rewrite !app_nil_r.
  - by rewrite col_update_ne, Hd2.
Qed.

(** No bypass writes identity: an administrator's and a platform run's authority holds no create, update or delete arm
    on an identity model ([sys_user], [sys_invitation], [sys_api_key]), whatever the manifest. *)
Theorem bypass_identity (holder : Holder) (c : string) (Hb : bypass holder = true) (Hi : isIdentity c = true) :
  let a := col (models_of SYSTEM toPred m holder) c in ma_create a = [] /\ ma_update a = [] /\ ma_delete a = [].
Proof.
  cbv zeta. unfold models_of. rewrite Hb. set (cs := _ ++ _).
  assert (forall cs d, ma_create (col d c) = [] /\ ma_update (col d c) = [] /\ ma_delete (col d c) = [] ->
    let a := col (fold_left (addOpen SYSTEM m) cs d) c in ma_create a = [] /\ ma_update a = [] /\ ma_delete a = []) as H.
  { clear cs. induction cs as [|c0 cs IH]; intros d Hd; cbn [fold_left]; [done|]. apply IH.
    pose proof (identity_addOpen d c0 c Hi) as E. destruct (decide (c0 = c)); unfold writes in E; destruct Hd as (H1 & H2 & H3);
      cbn [plus] in E; injection E as _ -> -> ->; by rewrite ?H1, ?H2, ?H3. }
  by apply H.
Qed.
End Facts.
End AccessFacts.

(** *** Delegation. *)
Module DelegationFacts.
Import AccessFacts Delegations.

Section Facts.
Context (SYSTEM : Parts) (toPred : string -> Json -> Pred) (m : EngineManifest).

(** The write arms the policies an automation declares for a callable grant on a model, in policy order. *)
Definition declared_policies (automation callable : string) : list string :=
  map dg_policy (filter (fun d => dg_verb d = callable) (default [] (get (m_automations m) automation))).
Definition declared_writes (automation callable model : string) : list Arm * list WriteArm * list WriteArm * list DeleteArm :=
  fold_right (fun p acc => plus (policy_writes SYSTEM toPred m model p) acc) ([], [], [], [])
    (filter (fun p => has_own (m_policies m) p = true) (declared_policies automation callable)).
(** One verb of a model's authority grows by the arms of that verb, of which there is one; all else stays. *)
Record grown (verb : string) (arms : list Arm * list WriteArm * list WriteArm * list DeleteArm) (own now : ModelAuthority) : Prop := MkGrown {
  grown_read : ma_read now = ma_read own;
  grown_history : ma_history now = ma_history own;
  grown_moves : ma_moves now = ma_moves own;
  grown_create : ma_create now = if String.eqb verb "create" then ma_create own ++ snd (fst (fst arms)) else ma_create own;
  grown_update : ma_update now = if String.eqb verb "update" then ma_update own ++ snd (fst arms) else ma_update own;
  grown_delete : ma_delete now = if String.eqb verb "delete" then ma_delete own ++ snd arms else ma_delete own;
  grown_some : verb = "create"%string /\ snd (fst (fst arms)) <> [] \/ verb = "update"%string /\ snd (fst arms) <> [] \/
               verb = "delete"%string /\ snd arms <> [] }.

(** What delegation leaves as it was. *)
Definition same_but_models (a b : Authority) : Prop :=
  au_actor a = au_actor b /\ au_admin a = au_admin b /\ au_preview a = au_preview b /\ au_kiosk a = au_kiosk b /\
  au_agent a = au_agent b /\ au_run a = au_run b /\ au_automations a = au_automations b /\
  au_capabilities a = au_capabilities b /\ au_limits a = au_limits b /\ au_teamTree a = au_teamTree b /\
  au_scopes a = au_scopes b.

(** C2. Least privilege of a delegation: a token yields more than the authority it was issued for only on the very
    manifest and authority it was issued with, and then only one verb of one model grows, the create, update or delete
    the callable names, by exactly the arms of that verb that the policies the automation declares for the callable
    grant on the model; its other verbs, its reads, histories and moves, every other model and all else of the authority
    but its key and the policies named in it stay as they were. *)
Theorem delegation_least (st : issued) (mref aref : nat) (authority result : Authority) (tk : Token) (callable : string)
    (Hr : delegatedVerbAuthority SYSTEM toPred m st mref aref authority (Some tk) callable = Ok result) :
  st !! tk_ref tk = Some (MkNative mref aref) /\
  (result = authority \/
   exists model verb own now,
     split_last_dot callable = (model, verb) /\ get (au_models authority) model = Some own /\ get (au_models result) model = Some now /\
     grown verb (declared_writes (tk_automation tk) callable model) own now /\
     (forall other, other <> model -> get (au_models result) other = get (au_models authority) other) /\
     (forall p, p ∈ au_policies result <-> p ∈ au_policies authority \/ p ∈ declared_policies (tk_automation tk) callable) /\
     same_but_models result authority).
Proof.
  unfold delegatedVerbAuthority in Hr. destruct (st !! tk_ref tk) as [[nm na]|]; [|done]. cbn [nat_manifest nat_authority] in Hr.
  destruct (negb _ || negb _) eqn:E; [done|]. apply orb_false_iff in E as [E1 E2].
  apply negb_false_iff, Nat.eqb_eq in E1. apply negb_false_iff, Nat.eqb_eq in E2. subst. split; [done|].
  fold (declared_policies (tk_automation tk) callable) in Hr. set (ps := declared_policies _ _) in *.
  destruct (length ps =? 0)%nat; [injection Hr as <-; by left|]. right.
  destruct (split_last_dot callable) as [model verb]. destruct (verb_of verb) as [v|] eqn:Ev; [|done].
  destruct (get (au_models authority) model) as [own|] eqn:Eo; [|done].
  cbn [au_models compileAuthority] in Hr. set (h := MkHolder _ ps _ _ _ _) in *.
  destruct (get (models_of SYSTEM toPred m h) model) as [arms|] eqn:Ea; [|done].
  destruct (has_arms v arms) eqn:Eh; [|done]. injection Hr as <-. cbn [au_models au_policies].
  assert (writes arms = declared_writes (tk_automation tk) callable model) as Ew.
  { assert (arms = col (models_of SYSTEM toPred m h) model) as -> by (unfold col; by rewrite Ea). by rewrite writes_union. }
  exists model, verb, own, (add_verb v own arms). split_and!; try done.
  - by rewrite get_set_eq.
  - rewrite <- Ew. unfold writes. unfold verb_of in Ev.
    destruct (String.eqb verb "create") eqn:E1; [|destruct (String.eqb verb "update") eqn:E2; [|destruct (String.eqb verb "delete") eqn:E3; [|done]]]; injection Ev as <-;
      apply String.eqb_eq in E1 || apply String.eqb_eq in E2 || apply String.eqb_eq in E3; subst verb; cbn [has_arms] in Eh; split; try done; cbn [fst snd].
    + left. split; [done|]. by destruct (ma_create arms).
    + right; left. split; [done|]. by destruct (ma_update arms).
    + right; right. split; [done|]. by destruct (ma_delete arms).
  - intros other Hne. by rewrite get_set_ne.
  - intros p. by rewrite elem_of_uniq, elem_of_app.
Qed.
End Facts.
End DelegationFacts.

(** *** Layers. *)
Module LayerFacts.

(** Every resolved path is the root or one declared relation below another resolved path. *)
Definition resolved (relationships : dict RelationshipSpec) (root : string) (models : dict string) : Prop :=
  get models root = Some root /\
  forall path model, get models path = Some model ->
    path = root /\ model = root \/
    exists parent above rel many,
      path = parent +:+ "." +:+ rel /\ get models parent = Some above /\
      (length (split_char "." path) <= LAYER_MAX_DEPTH)%nat /\ layer_step relationships above rel = inr (model, many).

Lemma join_last (l : list string) :
  (2 <= length l)%nat -> join "." l = join "." (removelast l) +:+ "." +:+ List.last l "".
Proof.
  induction l as [|x l IH]; cbn [length]; [lia|]. intros H. destruct l as [|y l]; [cbn in H; lia|].
  destruct l as [|z l]; [done|]. cbn [length] in IH. specialize (IH ltac:(lia)).
  change (removelast (x :: y :: z :: l)) with (x :: removelast (y :: z :: l)).
  change (List.last (x :: y :: z :: l) "") with (List.last (y :: z :: l) "").
  change (join "." (x :: y :: z :: l)) with (x +:+ "." +:+ join "." (y :: z :: l)). rewrite IH.
  change (removelast (y :: z :: l)) with (y :: removelast (z :: l)).
  change (join "." (x :: y :: removelast (z :: l))) with (x +:+ "." +:+ join "." (y :: removelast (z :: l))).
  by rewrite !append_assoc_s.
Qed.

Lemma resolved_set (relationships : dict RelationshipSpec) (root : string) (models : dict string)
    (path next parent above rel : string) (many : bool) :
  resolved relationships root models ->
  (forall other, get models path = Some other -> other = next) ->
  path = parent +:+ "." +:+ rel -> get models parent = Some above ->
  (length (split_char "." path) <= LAYER_MAX_DEPTH)%nat -> layer_step relationships above rel = inr (next, many) ->
  resolved relationships root (set models path next).
Proof.
  intros [Hroot Hres] Hsame Hpath Hparent Hlen Hstep.
  assert (forall k v, get models k = Some v -> get (set models path next) k = Some v) as Hmono.
  { intros k v Hk. destruct (decide (path = k)) as [<-|Hne]; [|by rewrite get_set_ne].
    rewrite get_set_eq. f_equal. symmetry. by apply Hsame. }
  split; [by apply Hmono|]. intros p md Hp. destruct (decide (path = p)) as [<-|Hne].
  - rewrite get_set_eq in Hp. injection Hp as <-. right. exists parent, above, rel, many. split_and!; try done. by apply Hmono.
  - rewrite get_set_ne in Hp by done. destruct (Hres p md Hp) as [H|(pa & ab & r & mn & H1 & H2 & H3 & H4)]; [by left|].
    right. exists pa, ab, r, mn. split_and!; try done. by apply Hmono.
Qed.

Lemma resolved_path (relationships : dict RelationshipSpec) (root where_ : string) (declared : list string) (write : bool)
    (acc : dict string * list string) (path : string) :
  resolved relationships root (fst acc) ->
  resolved relationships root (fst (layer_path relationships root where_ declared write acc path)).
Proof.
  destruct acc as [models errors]. cbn [fst]. intros Hr. unfold layer_path. set (segs := split_char "." path).
  destruct (negb _); [done|]. destruct (LAYER_MAX_DEPTH <? length segs)%nat eqn:Ed; [done|].
  destruct (length segs =? 1)%nat eqn:E1; [done|]. destruct (get models _) as [above|] eqn:Ep; [|done].
  destruct (negb _ && negb _); [done|]. destruct (layer_step _ _ _) as [|[next many]] eqn:Es; [done|].
  destruct (write && negb many); [done|].
  apply Nat.ltb_ge in Ed. apply Nat.eqb_neq in E1.
  assert (path = join "." (removelast segs) +:+ "." +:+ List.last segs "") as Hpath.
  { rewrite <- (join_split "." path) at 1. apply join_last. fold segs. destruct segs as [|a segs0] eqn:E.
    - exfalso. unfold segs in E. by destruct path; cbn in E; repeat case_match.
    - cbn in E1 |- *. lia. }
  assert ((forall other, get models path = Some other -> other = next) -> resolved relationships root (set models path next)) as Hset.
  { intros Ho. by eapply resolved_set. }
  destruct (get models path) as [other|] eqn:Eo.
  - destruct (negb (String.eqb other next)) eqn:En; [done|]. apply negb_false_iff, String.eqb_eq in En as ->.
    cbn [fst]. apply Hset. by intros ? [= ->].
  - cbn [fst]. by apply Hset.
Qed.

Lemma fold_invariant {A B} (I : A -> Prop) (f : A -> B -> A) (l : list B) (a : A) :
  (forall a b, I a -> I (f a b)) -> I a -> I (fold_left f l a).
Proof. intros Hf. revert a. induction l as [|b l IH]; intros a Ha; cbn; auto. Qed.

(** Layers follow declared relations: every path [layerModels] resolves is the root itself, or one declared relation
    below another resolved path, at most five levels deep, and its model is the one that relation leads to. *)
Theorem layerModels_sound (root : string) (c : ExposureSpec) (relationships : dict RelationshipSpec) :
  resolved relationships root (fst (layerModels root c relationships)).
Proof.
  unfold layerModels. apply (fold_invariant (fun acc => resolved relationships root (fst acc))).
  - intros [models errors] [[where_ paths] write] H. unfold layer_map. destruct paths as [ps|]; [|done].
    apply (fold_invariant (fun acc => resolved relationships root (fst acc))).
    + intros a b. apply resolved_path.
    + by destruct (_ && _).
  - split; [cbn; by rewrite String.eqb_refl|]. cbn. intros path model. destruct (String.eqb root path) eqn:E; [|done].
    apply String.eqb_eq in E as ->. intros [= <-]. by left.
Qed.
End LayerFacts.

(** ** A concrete workspace. *)
Module Sample.
Import AccessFacts Delegations DelegationFacts.

Definition no_system : Parts := MkParts [] [] [].
Definition keep_where (_ : string) (w : Json) : Pred := PJsonContains "where" w.
Definition clerk : PolicyData :=
  MkPolicy [("invoice"%string,
      MkGrant (Some (GObject [("invoice", JObject [("where", JObject [("owner", JString "me")])])]%string)) [] None
        (Some (WSpec (Some [("invoice", ["total"])]%string) true)) None None
        (Some (GrantEdges [("status", ["draft->sent"])]%string)))]
    [] [] [] [] [] [].
Definition boss : PolicyData :=
  MkPolicy [("invoice"%string, MkGrant (Some GTrue) [] (Some GTrue) None (Some WTrue) (Some DTrue) (Some GrantAll))]
    [] [] [] [] [] [].
Definition sample : EngineManifest :=
  MkManifest
    (MkParts [("invoice"%string, MkModel [("status", "state"); ("total", "decimal")]%string [])] []
      [("invoice"%string, MkExposure [("invoice"%string, AllFields)] [] (Some (MkWriteSpec [("invoice", ["total"])]%string None))
          (Some (MkWriteSpec [("invoice", ["total"; "status"])]%string None)) [])])
    [("clerk", clerk); ("boss", boss)]%string [("nightly"%string, [MkDelegation "invoice.update" "boss"])].
Definition staff : EngineActor := ActMember (MkMember "u1" None None false [] [] false None).
Definition holder (policies : list string) (admin : bool) : Holder := MkHolder staff policies admin false [] [].
Definition both : Holder := holder ["clerk"; "gone"; "boss"] false.

Lemma reads_union_witness :
  arms_at (models_of no_system keep_where sample both) "invoice" "default" "invoice" =
  [MkArm "clerk" (PJsonContains "where" (JObject [("owner", JString "me")]%string)); MkArm "boss" TRUE].
Proof. rewrite (reads_union no_system keep_where sample both "invoice" "default" "invoice"). vm_compute. reflexivity. Defined.
Lemma writes_union_witness :
  writes (col (models_of no_system keep_where sample both) "invoice") =
  ([MkArm "boss" TRUE], [MkWriteArm "clerk" [("invoice", ["total"])]%string true],
   [MkWriteArm "boss" [("invoice", ["total"; "status"])]%string false], [MkDeleteArm "boss" false]).
Proof. rewrite (writes_union no_system keep_where sample both "invoice" eq_refl). vm_compute. reflexivity. Defined.
Lemma admitMove_union_witness :
  admitMove (compileAuthority no_system keep_where sample (holder ["clerk"] false) "k") "invoice" "status" "sent" "paid" = false.
Proof. rewrite (admitMove_union no_system keep_where sample (holder ["clerk"] false) "k" "invoice" "status" "sent" "paid" eq_refl). vm_compute. reflexivity. Defined.
Lemma bypass_identity_witness :
  let a := col (models_of no_system keep_where sample (holder [] true)) "sys_user" in
  ma_create a = [] /\ ma_update a = [] /\ ma_delete a = [].
Proof. exact (bypass_identity no_system keep_where sample (holder [] true) "sys_user" eq_refl eq_refl). Defined.

Definition plain : Authority := compileAuthority no_system keep_where sample (holder ["clerk"] false) "k".
Definition token : Token * issued := issueAutomationDelegation ∅ 1 2 "run1" "nightly".
Definition granted : Authority :=
  match delegatedVerbAuthority no_system keep_where sample (snd token) 1 2 plain (Some (fst token)) "invoice.update" with
  | Ok a => a | Throw _ => plain
  end.
Lemma delegation_least_witness : exists own now,
  get (au_models plain) "invoice" = Some own /\ get (au_models granted) "invoice" = Some now /\
  ma_update own = [] /\ ma_update now = [MkWriteArm "boss" [("invoice", ["total"; "status"])]%string false] /\ ma_create now = ma_create own.
Proof.
  destruct (delegation_least no_system keep_where sample (snd token) 1 2 plain granted (fst token) "invoice.update") as [_ [E|(model & verb & own & now & E & Ho & Hn & Hg & _)]].
  - vm_compute. reflexivity.
  - exfalso. apply (f_equal (fun a => match get (au_models a) "invoice" with Some x => length (ma_update x) | None => 0%nat end)) in E. vm_compute in E. discriminate E.
  - injection E as <- <-. exists own, now. split; [exact Ho|]. split; [exact Hn|]. injection Ho as <-. split; [vm_compute; reflexivity|].
    split; [rewrite (grown_update _ _ _ _ Hg); vm_compute; reflexivity|exact (grown_create _ _ _ _ Hg)].
Defined.
End Sample.
