(* ===== verification/Rate.v ===== *)
(** Rate limits and client addresses: [packages/bolt/src/engine/access/rate.ts], and the durations of
    [packages/bolt/src/engine/runs/time.ts] they are declared in. *)
From S2P Require Import Prelude Ir Contracts.

(** ** Durations. *)
Module Time.

Definition UNIT_MS : dict Z := [("s", 1000); ("min", 60000); ("h", 3600000); ("d", 86400000)]%string.
Definition BUCKET_MS : Z := 300000.

(** [/^(\d+(?:\.\d+)?)(s|min|h|d)$/]: the number's digits, its fraction's digits and the unit. *)
Definition DURATION (value : string) : option (string * string * string) :=
  let '(whole, rest) := span is_digit value in
  if String.eqb whole "" then None
  else
    let '(frac, unit) :=
      match rest with
      | String c rest' =>
          if Ascii.eqb c "." then
            let '(f, u) := span is_digit rest' in if String.eqb f "" then (EmptyString, rest) else (f, u)
          else (EmptyString, rest)
      | EmptyString => (EmptyString, rest)
      end in
    if has_own UNIT_MS unit then Some (whole, frac, unit) else None.

(** [Number(text)] of a decimal text. *)
Definition number_of (whole frac : string) : number :=
  fl (Qmake (digits_val (whole +:+ frac)) (Z.to_pos (10 ^ slength frac))).

Definition duration (value : string) : outcome number :=
  match DURATION value with
  | Some (whole, frac, unit) =>
      Ok (fl (Qmult (number_of whole frac) (inject_Z (default 0 (get UNIT_MS unit)))))
  | None => Throw (JsError "BoltError" ("'" +:+ value +:+ "' is not a duration"))
  end.

Definition offsetMs (value : string) : outcome number :=
  match value with
  | EmptyString => Ok 0%Q
  | String c rest =>
      if Ascii.eqb c "+" then duration rest
      else if Ascii.eqb c "-" then d ← duration rest; Ok (Qopp d)
      else Throw (JsError "BoltError" ("'" +:+ value +:+ "' is not an offset"))
  end.

(** [Math.ceil(a / b)] of integers, [b > 0]. *)
Definition ceil_div (a b : Z) : Z := - ((- a) / b).

Definition dueAt (now at_ : Z) : Z := if at_ - now <? BUCKET_MS then at_ else ceil_div at_ BUCKET_MS * BUCKET_MS.

Definition Qmin (a b : Q) : Q := if Qle_bool a b then a else b.
Definition backoffMs (backoff : string) (attempt : Z) : outcome number :=
  d ← duration backoff; Ok (Qmin (fl (Qmult d (scale2 1 (attempt - 1)))) (inject_Z 3600000)).

Lemma ceil_div_spec (a b : Z) : 0 < b -> a <= ceil_div a b * b < a + b.
Proof. intros Hb. unfold ceil_div. pose proof (Z.div_mod (- a) b ltac:(lia)). pose proof (Z.mod_pos_bound (- a) b Hb). nia. Qed.

(** A due time under five minutes ahead is kept; a later one moves to the next five-minute mark, so it is never early
    and less than five minutes late, and two due times in order stay in order. *)
Theorem dueAt_bounds (now a b : Z) :
  a <= dueAt now a < a + BUCKET_MS /\ (dueAt now a = a \/ dueAt now a mod BUCKET_MS = 0) /\
  (a - now < BUCKET_MS -> dueAt now a = a) /\ (a <= b -> dueAt now a <= dueAt now b).
Proof.
  pose proof (ceil_div_spec a BUCKET_MS ltac:(done)). pose proof (ceil_div_spec b BUCKET_MS ltac:(done)).
  assert (BUCKET_MS = 300000) by done. unfold dueAt.
  destruct (a - now <? BUCKET_MS) eqn:Ea, (b - now <? BUCKET_MS) eqn:Eb; bool_hyps; split_and!;
    intros; try lia; auto using Z_mod_mult.
Qed.
End Time.
Import Time.

(** ** Fixed windows. *)
Module Windows.

Record Charge := MkCharge { c_rule : string; c_bucket : string; c_limit : Z; c_windowMs : Z }.
Inductive RateVerdict := RateAdmitted | Refused (retryAfter : Z).

(** [rate.split('/')]; a declared rate is whole, so [limit] and [windowMs] are integers. *)
Definition parseRate (rate : string) : outcome (Z * Z) :=
  match split_char "/" rate with
  | n :: rest =>
      let unit := default "undefined" (head rest) in
      let text := match unit with String c _ => if is_digit c then unit else "1" +:+ unit | EmptyString => "1" +:+ unit end in
      d ← duration text; Ok (digits_val n, Qnum d)
  | [] => Ok (0, 0)
  end.

Definition windowStart (nowMs windowMs : Z) : Z := nowMs - Z.rem nowMs windowMs.

(** *** The bucket hash. A 32-bit integer is its residue in [0, 2^32). *)
Definition u32 (n : Z) : Z := Z.land n 4294967295.
Definition imul (a b : Z) : Z := u32 (a * b).
Definition mix (h : Z * Z) (c : Z) : Z * Z :=
  (imul (Z.lxor (fst h) c) 2654435761, imul (Z.lxor (snd h) c) 1597334677).
Fixpoint mix_all (h : Z * Z) (s : string) : Z * Z :=
  match s with EmptyString => h | String c s' => mix_all (mix h (Z.of_N (N_of_ascii c))) s' end.
Definition id (rule bucket : string) : Z :=
  let '(h1, h2) := mix_all (mix (mix_all (3735928559, 1103547991) rule) 0) bucket in
  let h1' := Z.lxor (imul (Z.lxor h1 (Z.shiftr h1 16)) 2246822507) (imul (Z.lxor h2 (Z.shiftr h2 13)) 3266489909) in
  let h2' := Z.lxor (imul (Z.lxor h2 (Z.shiftr h2 16)) 2246822507) (imul (Z.lxor h1' (Z.shiftr h1' 13)) 3266489909) in
  4294967296 * Z.land 2097151 h2' + h1'.

(** *** Maps with number keys, in insertion order. *)
Section ZMap.
Context {A : Type}.
Implicit Types d : list (Z * A).
Fixpoint zget d (k : Z) : option A :=
  match d with [] => None | (k', v) :: d' => if k' =? k then Some v else zget d' k end.
Fixpoint zset d (k : Z) (v : A) : list (Z * A) :=
  match d with
  | [] => [(k, v)]
  | (k', v') :: d' => if k' =? k then (k', v) :: d' else (k', v') :: zset d' k v
  end.
Fixpoint zdelete d (k : Z) : list (Z * A) :=
  match d with [] => [] | (k', v') :: d' => if k' =? k then d' else (k', v') :: zdelete d' k end.
End ZMap.

(** [end] and the count of each bucket of the windows that start at one instant. *)
Record Window := MkWindow { w_end : Z; w_counts : list (Z * Z) }.
Record RateWindows := MkWindows { windows : list (Z * Window); count : Z; max : Z }.
Definition empty_windows (max : Z) : RateWindows := MkWindows [] 0 max.

Fixpoint insert_num (x : Z) (xs : list Z) : list Z :=
  match xs with [] => [x] | y :: ys => if x <? y then x :: xs else y :: insert_num x ys end.
Definition sort_nums (xs : list Z) : list Z := fold_left (fun acc x => insert_num x acc) xs [].

(** The first loop of [evict]: groups whose windows all ended. *)
Definition drop_ended (nowMs : Z) (st : RateWindows) : RateWindows :=
  fold_left (fun st sw =>
      if w_end (snd sw) <=? nowMs
      then MkWindows (zdelete (windows st) (fst sw)) (count st - Z.of_nat (length (w_counts (snd sw)))) (max st)
      else st) (windows st) st.

(** The buckets of one window, oldest first, until half remain; [true] when the loop returned. *)
Fixpoint drop_buckets (ks : list (Z * Z)) (count max : Z) : list (Z * Z) * Z * bool :=
  match ks with
  | [] => ([], count, false)
  | _ :: ks' => if count * 2 <=? max then (ks, count, true) else drop_buckets ks' (count - 1) max
  end.
Fixpoint drop_oldest (starts : list Z) (st : RateWindows) : RateWindows :=
  match starts with
  | [] => st
  | start :: starts' =>
      match zget (windows st) start with
      | None => drop_oldest starts' st
      | Some w =>
          let '(counts, n, returned) := drop_buckets (w_counts w) (count st) (max st) in
          if returned then MkWindows (zset (windows st) start (MkWindow (w_end w) counts)) n (max st)
          else drop_oldest starts' (MkWindows (zdelete (windows st) start) n (max st))
      end
  end.
Definition evict (nowMs : Z) (st : RateWindows) : RateWindows :=
  let st := drop_ended nowMs st in drop_oldest (sort_nums (map fst (windows st))) st.

(** [add]: the bucket's new count, and the windows after. *)
Definition add (start end_ k n nowMs : Z) (st : RateWindows) : Z * RateWindows :=
  let prior := mbind (fun w => zget (w_counts w) k) (zget (windows st) start) in
  let st :=
    match prior with
    | Some _ => st
    | None =>
        let st := if max st <=? count st then evict nowMs st else st in
        MkWindows (windows st) (count st + 1) (max st)
    end in
  let w :=
    match zget (windows st) start with
    | None => MkWindow end_ []
    | Some w => MkWindow (if w_end w <? end_ then end_ else w_end w) (w_counts w)
    end in
  let next := default 0 prior + n in
  (next, MkWindows (zset (windows st) start (MkWindow (w_end w) (zset (w_counts w) k next))) (count st) (max st)).

Fixpoint charge_from (charges : list Charge) (nowMs retryAfter : Z) (st : RateWindows) : Z * RateWindows :=
  match charges with
  | [] => (retryAfter, st)
  | c :: cs =>
      let start := windowStart nowMs (c_windowMs c) in
      let end_ := start + c_windowMs c in
      let '(n, st') := add start end_ (id (c_rule c) (c_bucket c)) 1 nowMs st in
      charge_from cs nowMs (if c_limit c <? n then Z.max retryAfter (ceil_div (end_ - nowMs) 1000) else retryAfter) st'
  end.
Definition charge (charges : list Charge) (nowMs : Z) (st : RateWindows) : RateVerdict * RateWindows :=
  let '(retryAfter, st') := charge_from charges nowMs 0 st in
  (if 0 <? retryAfter then Refused retryAfter else RateAdmitted, st').

Definition DAY : Z := 86400000.
Record OpenWindow := MkOpen { o_rule : string; o_bucket : string; o_start : Z; o_n : Z }.
(** A cell taking a tenant: its persisted open windows. *)
Fixpoint load (rows : list OpenWindow) (nowMs : Z) (st : RateWindows) : RateWindows :=
  match rows with
  | [] => st
  | r :: rows' =>
      if max st <=? count st then st
      else
        let k := id (o_rule r) (o_bucket r) in
        let prior := default 0 (mbind (fun w => zget (w_counts w) k) (zget (windows st) (o_start r))) in
        load rows' nowMs
          (if prior <? o_n r then snd (add (o_start r) (o_start r + DAY) k (o_n r - prior) nowMs st) else st)
  end.

Definition resetAfter (charges : list Charge) (nowMs : Z) : Z :=
  fold_left Z.max
    (map (fun c => ceil_div (windowStart nowMs (c_windowMs c) + c_windowMs c - nowMs) 1000) charges) 1.

(** Whom a request counts: the host resolves it before decode. *)
Record Who := MkWho { who_actor : option string; who_ip : option string; who_sender : option string; who_subject : option string }.
Definition who_of (who : Who) (per : Per) : option string :=
  match per with PerActor => who_actor who | PerIp => who_ip who | PerSender => who_sender who | PerSubject => who_subject who end.
Definition per_name (per : Per) : string :=
  match per with PerActor => "actor" | PerIp => "ip" | PerSender => "sender" | PerSubject => "subject" end.

Fixpoint chargesFor (limits : list LimitRule) (kinds : list string) (who : Who) : outcome (list Charge) :=
  match limits with
  | [] => Ok []
  | rule :: rules =>
      if negb (includes kinds (lim_key rule)) then chargesFor rules kinds who
      else match who_of who (lim_per rule) with
           | None => chargesFor rules kinds who
           | Some bucket =>
               lw ← parseRate (lim_rate rule); rest ← chargesFor rules kinds who;
               Ok (MkCharge (lim_key rule +:+ ":" +:+ lim_rate rule +:+ ":" +:+ per_name (lim_per rule)) bucket (fst lw) (snd lw) :: rest)
           end
  end.

(** ** Theorems on the windows. *)

Section ZMapFacts.
Context {A : Type}.
Implicit Types d : list (Z * A).

Lemma zget_zset_eq d k v : zget (zset d k v) k = Some v.
Proof.
  induction d as [|[k' v'] d IH]; cbn; [by rewrite Z.eqb_refl|]. destruct (k' =? k) eqn:E; cbn; by rewrite E.
Qed.
Lemma zget_zset_ne d k k' v : k <> k' -> zget (zset d k v) k' = zget d k'.
Proof.
  intros Hne. induction d as [|[k2 v2] d IH]; cbn; [by rewrite (proj2 (Z.eqb_neq k k'))|].
  destruct (k2 =? k) eqn:E; cbn; [|by rewrite IH]. bool_hyps. subst. by rewrite (proj2 (Z.eqb_neq k k')).
Qed.
Lemma zget_None d k : zget d k = None <-> k ∉ map fst d.
Proof.
  induction d as [|[k' v'] d IH]; cbn; [split; [intros _ H; by apply elem_of_nil in H|done]|].
  rewrite elem_of_cons. destruct (k' =? k) eqn:E; bool_hyps; naive_solver.
Qed.
Lemma keys_zset d k v : map fst (zset d k v) = if zget d k is Some _ then map fst d else map fst d ++ [k].
Proof.
  induction d as [|[k' v'] d IH]; cbn; [done|]. destruct (k' =? k) eqn:E; cbn; [done|]. rewrite IH.
  by destruct (zget d k).
Qed.
Lemma NoDup_zset d k v : NoDup (map fst d) -> NoDup (map fst (zset d k v)).
Proof.
  intros H. rewrite keys_zset. destruct (zget d k) eqn:E; [done|]. apply zget_None in E.
  apply NoDup_app. split_and!; [done| |apply NoDup_singleton]. intros x Hx ->%list_elem_of_singleton. done.
Qed.
Lemma zget_in d k v : NoDup (map fst d) -> (k, v) ∈ d -> zget d k = Some v.
Proof.
  induction d as [|[k' v'] d IH]; cbn; intros Hd H; [by apply elem_of_nil in H|].
  apply NoDup_cons in Hd as [Hk Hd]. apply elem_of_cons in H as [[= -> ->]|H]; [by rewrite Z.eqb_refl|].
  destruct (k' =? k) eqn:E; [|by apply IH]. bool_hyps. subst. exfalso. apply Hk, list_elem_of_fmap. by exists (k, v).
Qed.
Lemma zget_elem d k v : zget d k = Some v -> (k, v) ∈ d.
Proof.
  induction d as [|[k' v'] d IH]; cbn; [done|]. destruct (k' =? k) eqn:E; bool_hyps.
  - intros [= ->]. subst. by left.
  - intros H. right. by apply IH.
Qed.
Lemma zdelete_app d1 d2 k v : k ∉ map fst d1 -> zdelete (d1 ++ (k, v) :: d2) k = d1 ++ d2.
Proof.
  induction d1 as [|[k' v'] d1 IH]; cbn; intros H; [by rewrite Z.eqb_refl|].
  rewrite not_elem_of_cons in H. destruct H as [Hk H]. rewrite (proj2 (Z.eqb_neq k' k)) by done. by rewrite IH.
Qed.
Lemma zget_split d k v : zget d k = Some v -> exists d1 d2, d = d1 ++ (k, v) :: d2 /\ k ∉ map fst d1.
Proof.
  induction d as [|[k' v'] d IH]; cbn; [done|]. destruct (k' =? k) eqn:E; bool_hyps.
  - intros [= ->]. subst. exists [], d. split; [done|]. intros H. by apply elem_of_nil in H.
  - intros H. destruct (IH H) as (d1 & d2 & -> & Hk). exists ((k', v') :: d1), d2. split; [done|]. cbn.
    rewrite not_elem_of_cons. split; [congruence|done].
Qed.
Lemma zset_app d1 d2 k v v' : k ∉ map fst d1 -> zset (d1 ++ (k, v) :: d2) k v' = d1 ++ (k, v') :: d2.
Proof.
  induction d1 as [|[k2 v2] d1 IH]; cbn; intros H; [by rewrite Z.eqb_refl|].
  rewrite not_elem_of_cons in H. destruct H as [Hk H]. rewrite (proj2 (Z.eqb_neq k2 k)) by done. by rewrite IH.
Qed.
End ZMapFacts.

(** The entry of a bucket in the windows that start at an instant, and the hits it counts. *)
Definition bucket_of (st : RateWindows) (start k : Z) : option Z :=
  mbind (fun w => zget (w_counts w) k) (zget (windows st) start).
Definition count_of (st : RateWindows) (start k : Z) : Z := default 0 (bucket_of st start k).

Definition total (ws : list (Z * Window)) : Z := fold_right (fun sw n => Z.of_nat (length (w_counts (snd sw))) + n) 0 ws.
(** Keys are unique and [count] counts the buckets. *)
Definition wf (st : RateWindows) : Prop :=
  NoDup (map fst (windows st)) /\ Forall (fun sw => NoDup (map fst (w_counts (snd sw)))) (windows st) /\
  count st = total (windows st).

Lemma total_app (a b : list (Z * Window)) : total (a ++ b) = total a + total b.
Proof. induction a as [|x a IH]; cbn [app total fold_right]; [done|]. fold (total (a ++ b)). rewrite IH. unfold total. lia. Qed.
Lemma total_nonneg (a : list (Z * Window)) : 0 <= total a.
Proof. induction a as [|x a IH]; cbn [total fold_right]; [done|]. fold (total a). lia. Qed.
Lemma total_cons (x : Z * Window) (a : list (Z * Window)) : total (x :: a) = Z.of_nat (length (w_counts (snd x))) + total a.
Proof. done. Qed.

(** What eviction may do to a state: keep each bucket or drop it. *)
Definition only_drops (st st' : RateWindows) : Prop :=
  max st' = max st /\ forall s k, bucket_of st' s k = bucket_of st s k \/ bucket_of st' s k = None.

Lemma only_drops_trans (a b c : RateWindows) : only_drops a b -> only_drops b c -> only_drops a c.
Proof.
  intros [M1 H1] [M2 H2]. split; [congruence|]. intros s k. destruct (H2 s k) as [->|]; [apply H1|by right].
Qed.

Lemma delete_window (d1 d2 : list (Z * Window)) (s : Z) (w : Window) (m n : Z) (st := MkWindows (d1 ++ (s, w) :: d2) n m) :
  wf st -> wf (MkWindows (zdelete (windows st) s) (count st - Z.of_nat (length (w_counts w))) m) /\
  only_drops st (MkWindows (zdelete (windows st) s) (count st - Z.of_nat (length (w_counts w))) m) /\
  zdelete (windows st) s = d1 ++ d2.
Proof.
  intros (Hk & Hw & Hc). subst st. cbn [windows count max] in *. rewrite map_app in Hk. cbn [map fst] in Hk.
  assert (s ∉ map fst d1) as Hs.
  { intros H. apply NoDup_app in Hk as (_ & Hd & _). apply (Hd s H). by left. }
  rewrite zdelete_app by done. split_and!; [split_and!| |done]; cbn [windows count max].
  - rewrite map_app. apply NoDup_app in Hk as (Hk1 & Hk2 & Hk3). apply NoDup_cons in Hk3 as [_ Hk3].
    apply NoDup_app. split_and!; [done| |done]. intros x Hx Hx'. apply (Hk2 x Hx). by right.
  - apply Forall_app in Hw as [Hw1 Hw2]. apply Forall_cons in Hw2 as [_ Hw2]. by apply Forall_app.
  - rewrite Hc, !total_app, total_cons. cbn [snd]. lia.
  - split; [done|]. intros s' k. unfold bucket_of. cbn [windows].
    assert (forall d, s' <> s -> zget (d ++ (s, w) :: d2) s' = zget (d ++ d2) s') as Hz.
    { intros d Hne. induction d as [|[k2 v2] d IH]; cbn; [by rewrite (proj2 (Z.eqb_neq s s')) by done|].
      by destruct (k2 =? s'). }
    destruct (Z.eq_dec s' s) as [->|Hne]; [|left; by rewrite Hz]. right.
    assert (zget (d1 ++ d2) s = None) as ->; [|done]. apply zget_None. rewrite map_app, elem_of_app. intros [H|H]; [done|].
    apply NoDup_app in Hk as (_ & _ & Hk3). by apply NoDup_cons in Hk3 as [Hk3 _].
Qed.

Lemma drop_ended_wf (nowMs : Z) (st : RateWindows) : wf st -> wf (drop_ended nowMs st) /\ only_drops st (drop_ended nowMs st).
Proof.
  intros Hwf. unfold drop_ended.
  assert (forall l kept st0, windows st0 = kept ++ l -> wf st0 -> only_drops st st0 ->
    let st' := fold_left (fun st sw =>
      if w_end (snd sw) <=? nowMs
      then MkWindows (zdelete (windows st) (fst sw)) (count st - Z.of_nat (length (w_counts (snd sw)))) (max st)
      else st) l st0 in wf st' /\ only_drops st st') as H.
  { induction l as [|[s w] l IH]; intros kept st0 E Hw Hd; cbn [fold_left]; [done|]. cbn [fst snd].
    destruct (w_end w <=? nowMs).
    - destruct st0 as [ws n m]. cbn [windows] in E. subst ws.
      destruct (delete_window kept l s w m n Hw) as (Hw' & Hd' & Ez). apply (IH kept); [done|done|].
      by eapply only_drops_trans.
    - apply (IH (kept ++ [(s, w)])); [by rewrite <- app_assoc|done|done]. }
  apply (H (windows st) []); [done|done|]. split; [done|]. by left.
Qed.

Lemma drop_buckets_spec (ks : list (Z * Z)) (n m : Z) :
  let '(ks', n', returned) := drop_buckets ks n m in
  exists pre, ks = pre ++ ks' /\ n' = n - Z.of_nat (length pre) /\
    (if returned then n' * 2 <= m else ks' = []).
Proof.
  revert n. induction ks as [|k ks IH]; intros n; cbn [drop_buckets].
  - exists []. cbn. split_and!; [done|lia|done].
  - destruct (n * 2 <=? m) eqn:E; bool_hyps.
    + exists []. cbn. split_and!; [done|lia|lia].
    + specialize (IH (n - 1)). destruct (drop_buckets ks (n - 1) m) as [[ks' n'] r]. destruct IH as (pre & -> & -> & H).
      exists (k :: pre). cbn [length app]. split_and!; [done|lia|done].
Qed.

Lemma zget_suffix {A} (pre suf : list (Z * A)) (k : Z) :
  NoDup (map fst (pre ++ suf)) -> zget suf k = zget (pre ++ suf) k \/ zget suf k = None.
Proof.
  intros Hd. destruct (zget suf k) as [v|] eqn:E; [|by right]. left. symmetry. apply zget_in; [done|].
  apply elem_of_app. right. by apply zget_elem.
Qed.

Lemma shrink_window (d1 d2 : list (Z * Window)) (s e m n : Z) (pre suf : list (Z * Z))
    (st := MkWindows (d1 ++ (s, MkWindow e (pre ++ suf)) :: d2) n m)
    (st' := MkWindows (zset (windows st) s (MkWindow e suf)) (n - Z.of_nat (length pre)) m) :
  wf st -> wf st' /\ only_drops st st'.
Proof.
  intros (Hk & Hw & Hc). subst st'. subst st. cbn [windows count max] in *.
  assert (s ∉ map fst d1) as Hs.
  { intros H. rewrite map_app in Hk. apply NoDup_app in Hk as (_ & Hd & _). apply (Hd s H). by left. }
  apply Forall_app in Hw as [Hw1 Hw2]. apply Forall_cons in Hw2 as [Hw0 Hw2]. cbn [snd w_counts] in Hw0.
  split; [split_and!|]; cbn [windows count max].
  - by apply NoDup_zset.
  - rewrite zset_app by done. apply Forall_app. split; [done|]. constructor; [|done]. cbn [snd w_counts].
    rewrite map_app in Hw0. by apply NoDup_app in Hw0 as (_ & _ & Hw0).
  - rewrite zset_app, Hc by done. rewrite !total_app, !total_cons. cbn [snd w_counts]. rewrite length_app. lia.
  - split; [done|]. intros s' k. unfold bucket_of. cbn [windows]. destruct (Z.eq_dec s s') as [<-|Hne].
    + rewrite zget_zset_eq. cbn [mbind option_bind w_counts].
      rewrite (zget_in (d1 ++ (s, MkWindow e (pre ++ suf)) :: d2) s (MkWindow e (pre ++ suf)) Hk)
        by (apply elem_of_app; right; by left).
      cbn [mbind option_bind w_counts]. destruct (zget_suffix pre suf k Hw0) as [-> | ->]; [by left|by right].
    + rewrite zget_zset_ne by done. by left.
Qed.

Lemma drop_oldest_spec (starts : list Z) (st : RateWindows) :
  wf st -> 0 <= max st -> (forall s, s ∈ map fst (windows st) -> s ∈ starts) ->
  let st' := drop_oldest starts st in wf st' /\ only_drops st st' /\ count st' * 2 <= max st'.
Proof.
  revert st. induction starts as [|s starts IH]; intros st Hw Hm Hsub; cbn [drop_oldest].
  - split_and!; [done|split; [done|by left]|]. destruct Hw as (_ & _ & ->).
    destruct (windows st) as [|[s w] ws]; [cbn; lia|]. exfalso. specialize (Hsub s ltac:(by left)). by apply elem_of_nil in Hsub.
  - destruct (zget (windows st) s) as [[e ks]|] eqn:Es.
    2:{ apply IH; [done|done|]. intros x Hx. apply zget_None in Es.
        specialize (Hsub x Hx). apply elem_of_cons in Hsub as [->|]; done. }
    destruct (zget_split _ _ _ Es) as (d1 & d2 & E & Hs). destruct st as [ws n m]. cbn [windows count max w_counts w_end] in *.
    subst ws. pose proof (drop_buckets_spec ks n m) as Hb. destruct (drop_buckets ks n m) as [[ks' n'] returned].
    destruct Hb as (pre & -> & -> & Hb). destruct returned.
    + destruct (shrink_window d1 d2 s e m n pre ks' Hw) as [Hw' Hd']. split_and!; [exact Hw'|exact Hd'|exact Hb].
    + subst ks'. rewrite app_nil_r in *. destruct (delete_window d1 d2 s (MkWindow e pre) m n Hw) as (Hw' & Hd' & Ez).
      cbn [windows count w_counts] in Hw', Hd', Ez.
      destruct (IH _ Hw' Hm) as (H1 & H2 & H3).
      * cbn [windows]. rewrite Ez. intros x Hx.
        assert (x ∈ s :: starts) as Hx'.
        { apply Hsub. rewrite map_app in *. cbn [map fst]. apply elem_of_app. apply elem_of_app in Hx as [Hx|Hx]; [by left|].
          right. by right. }
        apply elem_of_cons in Hx' as [->|]; [|done]. exfalso.
        destruct Hw as (Hk & _). cbn [windows] in Hk. rewrite map_app in Hk, Hx. cbn [map fst] in Hk.
        apply NoDup_app in Hk as (_ & _ & Hk). apply NoDup_cons in Hk as [Hk _].
        apply elem_of_app in Hx as [Hx|Hx]; done.
      * split_and!; [exact H1|by eapply only_drops_trans|exact H3].
Qed.

Lemma elem_of_sort_nums (xs : list Z) (x : Z) : x ∈ sort_nums xs <-> x ∈ xs.
Proof.
  unfold sort_nums.
  assert (forall y ys, x ∈ insert_num y ys <-> x = y \/ x ∈ ys) as Hins.
  { intros y ys. induction ys as [|z ys IH]; cbn [insert_num]; [by rewrite list_elem_of_singleton, elem_of_nil; naive_solver|].
    destruct (y <? z); rewrite !elem_of_cons; [naive_solver|]. rewrite IH. naive_solver. }
  assert (forall acc, x ∈ fold_left (fun acc x => insert_num x acc) xs acc <-> x ∈ acc \/ x ∈ xs) as H.
  { induction xs as [|y ys IH]; intros acc; cbn [fold_left]; [rewrite elem_of_nil; naive_solver|].
    rewrite IH, Hins, elem_of_cons. naive_solver. }
  rewrite H, elem_of_nil. naive_solver.
Qed.

Lemma evict_spec (nowMs : Z) (st : RateWindows) :
  wf st -> 0 <= max st ->
  wf (evict nowMs st) /\ only_drops st (evict nowMs st) /\ count (evict nowMs st) * 2 <= max (evict nowMs st).
Proof.
  intros Hw Hm. unfold evict. destruct (drop_ended_wf nowMs st Hw) as [Hw1 Hd1].
  destruct (drop_oldest_spec (sort_nums (map fst (windows (drop_ended nowMs st)))) (drop_ended nowMs st) Hw1) as (H1 & H2 & H3).
  - destruct Hd1 as [-> _]. done.
  - intros s. by rewrite elem_of_sort_nums.
  - split_and!; [done|by eapply only_drops_trans|done].
Qed.


(** The step every charge and every loaded row takes: the bucket counts [n] more, within the bound; another bucket keeps
    its entry, or is dropped when the windows were full. *)
Lemma add_spec (start end_ k n nowMs : Z) (st : RateWindows) (st' := snd (add start end_ k n nowMs st)) :
  wf st -> 1 <= max st -> count st <= max st ->
  wf st' /\ max st' = max st /\ count st' <= max st /\ count st' <= count st + 1 /\
  fst (add start end_ k n nowMs st) = count_of st start k + n /\ count_of st' start k = count_of st start k + n /\
  (forall s' k', (s', k') <> (start, k) ->
     bucket_of st' s' k' = bucket_of st s' k' \/ bucket_of st' s' k' = None /\ max st <= count st).
Proof.
  intros Hw Hm Hc. subst st'. unfold add. fold (bucket_of st start k).
  (* the state the bucket is written to: [st], or what eviction left of it *)
  set (st1 := match bucket_of st start k with Some _ => st | None => _ end).
  assert (exists st0, wf st0 /\ max st0 = max st /\ windows st1 = windows st0 /\ max st1 = max st /\
    bucket_of st0 start k = bucket_of st start k /\
    count st1 = count st0 + (if bucket_of st start k is Some _ then 0 else 1) /\
    count st1 <= max st /\ count st0 <= count st /\
    (forall s' k', bucket_of st0 s' k' = bucket_of st s' k' \/ bucket_of st0 s' k' = None /\ max st <= count st)) as
    (st0 & Hw0 & Hm0 & Hwin & Hm1 & Hb0 & Hc1 & Hc1m & Hc0 & Hdrop).
  { unfold st1. destruct (bucket_of st start k) as [p|] eqn:Eb.
    - exists st. split_and!; try done; [lia|by left].
    - destruct (max st <=? count st) eqn:E; bool_hyps; cbn [windows count max].
      + destruct (evict_spec nowMs st Hw ltac:(lia)) as (H1 & [H2 H3] & H4). exists (evict nowMs st).
        rewrite H2 in H4. split_and!; try done; try lia.
        * destruct (H3 start k) as [-> | ->]; done.
        * intros s' k'. destruct (H3 s' k') as [-> | ->]; [by left|by right].
      + exists st. split_and!; try done; try lia. by left. }
  clearbody st1. destruct st1 as [ws1 n1 m1]. cbn [windows count max] in *. subst ws1 m1. cbn [fst snd].
  set (w := match zget (windows st0) start with None => _ | Some w => _ end).
  assert (zget (w_counts w) k = bucket_of st start k) as Hwk.
  { rewrite <- Hb0. unfold w, bucket_of. by destruct (zget (windows st0) start). }
  destruct Hw0 as (Hk0 & Hws0 & Hct0).
  assert (NoDup (map fst (w_counts w))) as Hnd.
  { unfold w. destruct (zget (windows st0) start) as [w0|] eqn:Ew; [|by constructor]. cbn [w_counts].
    apply zget_elem in Ew. rewrite Forall_forall in Hws0. by apply (Hws0 _ Ew). }
  set (w' := MkWindow (w_end w) (zset (w_counts w) k (default 0 (bucket_of st start k) + n))).
  assert (length (w_counts w') = (length (w_counts w) + (if bucket_of st start k is Some _ then 0 else 1))%nat) as Hlen.
  { unfold w'. cbn [w_counts]. rewrite <- (length_map fst), keys_zset, Hwk.
    destruct (bucket_of st start k); [rewrite length_map; lia|]. rewrite length_app, length_map. done. }
  assert (total (zset (windows st0) start w') = total (windows st0) + (if bucket_of st start k is Some _ then 0 else 1)) as Htot.
  { destruct (zget (windows st0) start) as [w0|] eqn:Ew.
    - destruct (zget_split _ _ _ Ew) as (d1 & d2 & E & Hs). rewrite E, zset_app by done.
      rewrite !total_app, !total_cons. cbn [snd]. rewrite Hlen. unfold w. cbn [w_counts].
      destruct (bucket_of st start k); lia.
    - assert (zset (windows st0) start w' = windows st0 ++ [(start, w')]) as ->.
      { revert Ew. generalize (windows st0). intros l. induction l as [|[k2 v2] l IH]; cbn; [done|].
        destruct (k2 =? start); [done|]. intros E. by rewrite IH. }
      rewrite total_app, total_cons. cbn [snd]. rewrite Hlen. unfold w. cbn [w_counts length].
      destruct (bucket_of st start k); cbn; lia. }
  split_and!; cbn [windows count max].
  - split_and!; cbn [windows count].
    + by apply NoDup_zset.
    + apply Forall_forall. intros [s0 w0] H0. apply (zget_in _ _ _ (NoDup_zset _ _ _ Hk0)) in H0. cbn [snd].
      destruct (Z.eq_dec start s0) as [<-|Hne].
      * rewrite zget_zset_eq in H0. injection H0 as <-. unfold w'. cbn [w_counts]. by apply NoDup_zset.
      * rewrite zget_zset_ne in H0 by done. apply zget_elem in H0. rewrite Forall_forall in Hws0. by apply (Hws0 _ H0).
    + rewrite Htot, <- Hct0. done.
  - done.
  - done.
  - destruct (bucket_of st start k); lia.
  - done.
  - unfold count_of at 1, bucket_of at 1. cbn [windows]. rewrite zget_zset_eq. unfold w'. cbn [mbind option_bind w_counts].
    by rewrite zget_zset_eq.
  - intros s' k' Hne. unfold bucket_of at 1 3. cbn [windows]. destruct (Z.eq_dec start s') as [<-|Hs].
    + rewrite zget_zset_eq. unfold w'. cbn [mbind option_bind w_counts]. rewrite zget_zset_ne by congruence.
      assert (zget (w_counts w) k' = bucket_of st0 start k') as ->; [|apply Hdrop].
      unfold w, bucket_of. by destruct (zget (windows st0) start).
    + rewrite zget_zset_ne by done. apply Hdrop.
Qed.

(** The window and bucket a charge counts in, and how many charges of a list count in one. *)
Definition start_of (nowMs : Z) (c : Charge) : Z := windowStart nowMs (c_windowMs c).
Definition id_of (c : Charge) : Z := id (c_rule c) (c_bucket c).
Definition hits (nowMs : Z) (cs : list Charge) (s k : Z) : Z :=
  Z.of_nat (length (filter (fun c => start_of nowMs c = s /\ id_of c = k) cs)).
(** The charge after [before] in a request's list passes its limit. *)
Definition within (nowMs : Z) (st : RateWindows) (before : list Charge) (c : Charge) : Prop :=
  count_of st (start_of nowMs c) (id_of c) + hits nowMs before (start_of nowMs c) (id_of c) + 1 <= c_limit c.

Lemma hits_cons (nowMs : Z) (c : Charge) (cs : list Charge) (s k : Z) :
  hits nowMs (c :: cs) s k = (if decide (start_of nowMs c = s /\ id_of c = k) then 1 else 0) + hits nowMs cs s k.
Proof. unfold hits. rewrite filter_cons. destruct (decide _); cbn [length]; lia. Qed.

Lemma window_ahead (nowMs w : Z) : 0 <= nowMs -> 0 < w -> 0 < windowStart nowMs w + w - nowMs <= w.
Proof. intros Hn Hw. unfold windowStart. rewrite Z.rem_mod_nonneg by lia. pose proof (Z.mod_pos_bound nowMs w Hw). lia. Qed.

Lemma charge_from_spec (cs : list Charge) (nowMs r : Z) (st : RateWindows) :
  wf st -> 1 <= max st -> count st + Z.of_nat (length cs) <= max st -> 0 <= nowMs -> 0 <= r ->
  Forall (fun c => 0 < c_windowMs c) cs ->
  let '(r', st') := charge_from cs nowMs r st in
  wf st' /\ max st' = max st /\ count st' <= max st /\
  (forall s k, count_of st' s k = count_of st s k + hits nowMs cs s k) /\
  0 <= r' /\ (r' = 0 <-> r = 0 /\ forall l1 c l2, cs = l1 ++ c :: l2 -> within nowMs st l1 c).
Proof.
  revert r st. induction cs as [|c cs IH]; intros r st Hw Hm Hroom Hn Hr Hcs; cbn [charge_from].
  - split_and!; try done; [cbn in Hroom; lia|intros s k; unfold hits; cbn; lia|]. split; [|by intros []].
    intros ->. split; [done|]. by intros [|? l1] ? ? E.
  - cbn [length] in Hroom. apply Forall_cons in Hcs as [Hc Hcs].
    pose proof (add_spec (start_of nowMs c) (start_of nowMs c + c_windowMs c) (id_of c) 1 nowMs st Hw Hm ltac:(lia))
      as (Hw1 & Hm1 & Hb1 & Hb2 & Hfst & Hcnt & Hoth).
    fold (start_of nowMs c) (id_of c).
    destruct (add (start_of nowMs c) (start_of nowMs c + c_windowMs c) (id_of c) 1 nowMs st) as [n st1]. cbn [fst snd] in *.
    assert (forall s k, count_of st1 s k = count_of st s k + (if decide (start_of nowMs c = s /\ id_of c = k) then 1 else 0)) as Hall.
    { intros s k. destruct (decide (start_of nowMs c = s /\ id_of c = k)) as [[<- <-]|Hne]; [done|].
      destruct (Hoth s k) as [E|[_ E]]; [intros [= -> ->]; by apply Hne| |lia]. unfold count_of. rewrite E. lia. }
    pose proof (window_ahead nowMs (c_windowMs c) Hn Hc) as Hahead. fold (start_of nowMs c) in Hahead.
    pose proof (ceil_div_spec (start_of nowMs c + c_windowMs c - nowMs) 1000 ltac:(lia)) as Hceil.
    set (r1 := if c_limit c <? n then _ else r).
    assert (0 <= r1 /\ (r1 = 0 <-> r = 0 /\ n <= c_limit c)) as [Hr1 Hr1'].
    { unfold r1. destruct (c_limit c <? n) eqn:E; bool_hyps; split; lia. }
    specialize (IH r1 st1 Hw1 ltac:(lia) ltac:(lia) Hn Hr1 Hcs).
    destruct (charge_from cs nowMs r1 st1) as [r' st'].
    destruct IH as (H1 & H2 & H3 & H4 & H5 & H6). split_and!; try done; try lia.
    + intros s k. rewrite H4, Hall, hits_cons. lia.
    + rewrite H6, Hr1'. split.
      * intros ([Hr0 Hlim] & Hrest). split; [done|]. intros [|c0 l1] c' l2 [= <- E].
        -- unfold within. unfold hits. cbn. lia.
        -- specialize (Hrest l1 c' l2 E). unfold within in *. rewrite Hall in Hrest. rewrite hits_cons. lia.
      * intros [Hr0 Hall']. pose proof (Hall' [] c cs eq_refl) as H0. unfold within, hits in H0. cbn in H0.
        split; [split; [done|lia]|]. intros l1 c' l2 E. specialize (Hall' (c :: l1) c' l2 ltac:(cbn; by rewrite E)).
        unfold within in *. rewrite Hall. rewrite hits_cons in Hall'. lia.
Qed.

(** Rate limits count exactly: while the windows have room, a request's charges each add one hit to their own bucket
    and window and to nothing else, refused or not, and the request is admitted exactly when every charge is within its
    limit; a refusal always asks for at least one second. *)
Theorem charge_exact (cs : list Charge) (nowMs : Z) (st : RateWindows) (Hw : wf st) (Hm : 1 <= max st)
    (Hroom : count st + Z.of_nat (length cs) <= max st) (Hn : 0 <= nowMs) (Hcs : Forall (fun c => 0 < c_windowMs c) cs) :
  let '(verdict, st') := charge cs nowMs st in
  wf st' /\ count st' <= max st' /\ (forall s k, count_of st' s k = count_of st s k + hits nowMs cs s k) /\
  (verdict = RateAdmitted <-> forall l1 c l2, cs = l1 ++ c :: l2 -> within nowMs st l1 c) /\
  (forall r, verdict = Refused r -> 1 <= r).
Proof.
  unfold charge. pose proof (charge_from_spec cs nowMs 0 st Hw Hm Hroom Hn ltac:(lia) Hcs) as H.
  destruct (charge_from cs nowMs 0 st) as [r st']. destruct H as (H1 & H2 & H3 & H4 & H5 & H6).
  split_and!; try done; [lia| |].
  - destruct (0 <? r) eqn:E; bool_hyps.
    + split; [done|]. intros H. assert (r = 0) by (by apply H6). lia.
    + split; [|done]. intros _. apply H6. lia.
  - destruct (0 <? r) eqn:E; bool_hyps; [intros ? [= <-]; lia|done].
Qed.

(** A minute's window of at most two requests of one actor. *)
Definition twice : list Charge := [MkCharge "act:2/min:actor" "member:u1" 2 60000].
Lemma charge_exact_witness :
  exists st1 st2, charge twice 30000 (empty_windows 10) = (RateAdmitted, st1) /\ charge twice 31000 st1 = (RateAdmitted, st2) /\
    fst (charge twice 32000 st2) <> RateAdmitted /\ wf (snd (charge twice 32000 st2)).
Proof.
  exists (snd (charge twice 30000 (empty_windows 10))), (snd (charge twice 31000 (snd (charge twice 30000 (empty_windows 10))))).
  split; [vm_compute; reflexivity|]. split; [vm_compute; reflexivity|]. split; [vm_compute; discriminate|].
  set (st2 := snd (charge twice 31000 _)).
  assert (wf st2) as Hw2.
  { vm_compute. split_and!; [repeat constructor; intros H; by apply elem_of_nil in H| |done].
    repeat constructor; intros H; by apply elem_of_nil in H. }
  pose proof (charge_exact twice 32000 st2 Hw2 ltac:(vm_compute; discriminate) ltac:(vm_compute; discriminate) ltac:(lia)
    ltac:(repeat constructor)) as H.
  destruct (charge twice 32000 st2) as [v st3]. apply H.
Defined.

(** *** Bounds over a whole history. *)

Lemma charge_from_bounded (cs : list Charge) (nowMs r : Z) (st : RateWindows) :
  wf st -> 1 <= max st -> count st <= max st ->
  let st' := snd (charge_from cs nowMs r st) in wf st' /\ max st' = max st /\ count st' <= max st.
Proof.
  revert r st. induction cs as [|c cs IH]; intros r st Hw Hm Hc; cbn [charge_from]; [done|].
  pose proof (add_spec (start_of nowMs c) (start_of nowMs c + c_windowMs c) (id_of c) 1 nowMs st Hw Hm Hc)
    as (Hw1 & Hm1 & Hb1 & _). fold (start_of nowMs c) (id_of c). destruct (add _ _ _ _ _ st) as [n st1]. cbn [snd] in *.
  set (r1 := if c_limit c <? n then _ else r). destruct (IH r1 st1 Hw1 ltac:(lia) ltac:(lia)) as (H1 & H2 & H3). split_and!; [done|lia|lia].
Qed.

Lemma load_bounded (rows : list OpenWindow) (nowMs : Z) (st : RateWindows) :
  wf st -> 1 <= max st -> count st <= max st ->
  let st' := load rows nowMs st in wf st' /\ max st' = max st /\ count st' <= max st.
Proof.
  revert st. induction rows as [|r rows IH]; intros st Hw Hm Hc; cbn [load]; [done|].
  destruct (max st <=? count st); [done|]. destruct (_ <? o_n r); [|by apply IH].
  pose proof (add_spec (o_start r) (o_start r + DAY) (id (o_rule r) (o_bucket r))
    (o_n r - default 0 (mbind (fun w => zget (w_counts w) (id (o_rule r) (o_bucket r))) (zget (windows st) (o_start r)))) nowMs st Hw Hm Hc)
    as (Hw1 & Hm1 & Hb1 & _).
  destruct (IH _ Hw1 ltac:(lia) ltac:(lia)) as (H1 & H2 & H3). split_and!; [done|lia|lia].
Qed.

(** The states of one tenant's windows in a cell: built empty, charged and loaded in any order. *)
Inductive reached (bound : Z) : RateWindows -> Prop :=
| reached_new : reached bound (empty_windows bound)
| reached_charge cs nowMs st : reached bound st -> reached bound (snd (charge cs nowMs st))
| reached_load rows nowMs st : reached bound st -> reached bound (load rows nowMs st).

(** Memory stays bounded: whatever is charged or loaded, in whatever order and at whatever times, the windows hold at
    most [max] buckets, and [count] is exactly how many they hold. *)
Theorem windows_bounded (bound : Z) (st : RateWindows) (Hb : 1 <= bound) (Hr : reached bound st) :
  wf st /\ max st = bound /\ total (windows st) <= bound.
Proof.
  assert (wf st /\ max st = bound /\ count st <= bound) as (H1 & H2 & H3).
  { induction Hr as [|cs nowMs st Hr IH|rows nowMs st Hr IH].
    - split_and!; [|done|cbn; lia]. split_and!; [constructor|constructor|done].
    - destruct IH as (Hw & Hm & Hc). unfold charge. destruct (charge_from_bounded cs nowMs 0 st Hw ltac:(lia) ltac:(lia)) as (H1 & H2 & H3).
      destruct (charge_from cs nowMs 0 st) as [r st']. cbn [snd] in *. split_and!; [done|lia|lia].
    - destruct IH as (Hw & Hm & Hc). destruct (load_bounded rows nowMs st Hw ltac:(lia) ltac:(lia)) as (H1 & H2 & H3).
      split_and!; [done|lia|lia]. }
  split_and!; [done|done|]. destruct H1 as (_ & _ & <-). done.
Qed.
Lemma windows_bounded_witness : total (windows (snd (charge (twice ++ [MkCharge "r" "b" 1 5000]) 70000 (snd (charge twice 0 (empty_windows 1)))))) <= 1.
Proof. apply (windows_bounded 1); [lia|]. apply reached_charge, reached_charge, reached_new. Defined.
End Windows.
Import Windows.

(** ** Addresses. *)
Module Addresses.

(** [/^(0|[1-9]\d{0,2})$/]. *)
Definition is_byte_text (p : string) : bool :=
  match p with
  | EmptyString => false
  | String c rest =>
      if Ascii.eqb c "0" then String.eqb rest "" else is_digit c && all_chars is_digit rest && (slength rest <=? 2)
  end.
Definition ipv4 (a : string) : option (list Z) :=
  let parts := split_char "." a in
  if negb (length parts =? 4)%nat || negb (forallb is_byte_text parts) then None
  else let bytes := map digits_val parts in if forallb (fun b => b <? 256) bytes then Some bytes else None.

(** [a.split('::')]. *)
Fixpoint split_colons (s : string) : list string :=
  match s with
  | EmptyString => [EmptyString]
  | String c s' =>
      match s' with
      | String c2 s'' =>
          if Ascii.eqb c ":" && Ascii.eqb c2 ":" then EmptyString :: split_colons s''
          else match split_colons s' with w :: r => String c w :: r | [] => [String c EmptyString] end
      | EmptyString => [String c EmptyString]
      end
  end.

Definition hex_val (c : ascii) : option Z :=
  let n := Z.of_N (N_of_ascii c) in
  if is_digit c then Some (digit_val c)
  else if (97 <=? n) && (n <=? 102) then Some (n - 87)
  else if (65 <=? n) && (n <=? 70) then Some (n - 55) else None.
Fixpoint parse_hex (s : string) (acc : Z) : option Z :=
  match s with
  | EmptyString => Some acc
  | String c s' => match hex_val c with Some v => parse_hex s' (acc * 16 + v) | None => None end
  end.
(** [/^[0-9a-f]{1,4}$/i] and [parseInt(g, 16)]. *)
Definition hex_group (g : string) : option Z :=
  if (1 <=? slength g) && (slength g <=? 4) then parse_hex g 0 else None.

Definition quad_words (q : list Z) : list Z :=
  match q with [a; b; c; d] => [Z.lor (Z.shiftl a 8) b; Z.lor (Z.shiftl c 8) d] | _ => [] end.

(** [words(part, last)] from group [i] of [n] on. *)
Fixpoint words_from (groups : list string) (last : bool) : option (list Z) :=
  match groups with
  | [] => Some []
  | g :: gs =>
      let quad := if last && (length gs =? 0)%nat && has_char (Ascii.eqb ".") g then ipv4 g else None in
      match quad with
      | Some q => option_map (app (quad_words q)) (words_from gs last)
      | None =>
          match hex_group g with
          | Some w => option_map (cons w) (words_from gs last)
          | None => None
          end
      end
  end.
Definition words (part : string) (last : bool) : option (list Z) :=
  if String.eqb part "" then Some [] else words_from (split_char ":" part) last.

Definition ipv6 (a : string) : option (list Z) :=
  match split_colons a with
  | [one] => match words one true with Some head => if (length head =? 8)%nat then Some head else None | None => None end
  | [first; second] =>
      match words first false, words second true with
      | Some head, Some tail =>
          let fill := 8 - Z.of_nat (length head) - Z.of_nat (length tail) in
          if fill <? 1 then None else Some (head ++ repeat 0 (Z.to_nat fill) ++ tail)
      | _, _ => None
      end
  | _ => None
  end.

(** Any address as IPv6 words; IPv4 as its mapped form. *)
Definition ipWords (a : string) : option (list Z) :=
  match ipv4 a with
  | Some quad => Some ([0; 0; 0; 0; 0; 65535] ++ quad_words quad)
  | None => ipv6 a
  end.

Record Subnet := MkSubnet { sn_words : list Z; sn_bits : Z }.
(** One trusted entry; a malformed one trusts nothing. A bit count is decimal digits (or empty, [Number('')] = 0). *)
Definition subnet (cidr : string) : list Subnet :=
  let parts := split_char "/" cidr in
  let net := List.hd "" parts in
  let max := match ipv4 net with None => 128 | Some _ => 32 end in
  let n :=
    match parts with
    | _ :: bits :: _ => if all_chars is_digit bits then Some (digits_val bits) else None
    | _ => Some max
    end in
  match ipWords net, n with
  | Some ws, Some n => if (n <? 0) || (max <? n) then [] else [MkSubnet ws (n + 128 - max)]
  | _, _ => []
  end.

Definition mask_of (left : Z) : Z := Z.land (Z.shiftl 65535 (16 - left)) 65535.
Fixpoint masks_agree (ws ss : list Z) (bits : Z) : bool :=
  match ws, ss with
  | w :: ws', s :: ss' =>
      let mask := mask_of (Z.min 16 (Z.max 0 bits)) in
      (Z.land w mask =? Z.land s mask) && masks_agree ws' ss' (bits - 16)
  | _, _ => true
  end.
Definition isTrusted (subnets : list Subnet) (a : string) : bool :=
  match ipWords a with
  | Some ws => existsb (fun s => masks_agree ws (sn_words s) (sn_bits s)) subnets
  | None => false
  end.

Definition hops_of (forwardedFor : option string) : list string :=
  filter (fun s => s <> ""%string) (map trim (split_char "," (default ""%string forwardedFor))).

(** The walk from the peer through the hops, nearest first. *)
Fixpoint walk (trusted : string -> bool) (address : string) (nearest : list string) : string :=
  match nearest with
  | hop :: rest => if trusted address then walk trusted hop rest else address
  | [] => address
  end.
Definition clientAddress (peer : string) (forwardedFor : option string) (trusted : list string) : string :=
  walk (isTrusted (flat_map subnet trusted)) peer (rev (hops_of forwardedFor)).

Definition hex_digit (d : Z) : ascii := if d <? 10 then digit_char d else chr (Z.to_N (d + 87)).
(** [w.toString(16)] of a 16-bit word. *)
Definition hex_text (w : Z) : string :=
  let '(a, b, c, d) := (w / 4096, w / 256 mod 16, w / 16 mod 16, w mod 16) in
  fold_right (fun d s => String (hex_digit d) s) EmptyString
    (if 0 <? a then [a; b; c; d] else if 0 <? b then [b; c; d] else if 0 <? c then [c; d] else [d]).

(** [/^::ffff:(\d+\.\d+\.\d+\.\d+)$/i]. *)
Definition lower (c : ascii) : ascii :=
  let n := N_of_ascii c in if (65 <=? n)%N && (n <=? 90)%N then chr (n + 32) else c.
Fixpoint lower_text (s : string) : string := match s with EmptyString => EmptyString | String c s' => String (lower c) (lower_text s') end.
Definition mapped (address : string) : option string :=
  let rest := drop 7 address in
  let parts := split_char "." rest in
  if String.eqb (lower_text (takes 7 address)) "::ffff:" && (length parts =? 4)%nat
     && forallb (fun p => negb (String.eqb p "") && all_chars is_digit p) parts
  then Some rest else None.

Definition addressBucket (address : string) : string :=
  match mapped address with
  | Some v4 => v4
  | None =>
      match ipv6 address with
      | None => address
      | Some ws => join ":" (map hex_text (firstn 4 ws)) +:+ "::/64"
      end
  end.

Example v6 : ipv6 "2001:db8::192.0.2.33" = Some [8193; 3512; 0; 0; 0; 0; 49152; 545]. Proof. reflexivity. Qed.
Example bucket6 : addressBucket "2001:DB8:0:a:1::9" = "2001:db8:0:a::/64"%string. Proof. reflexivity. Qed.
Example bucket4 : addressBucket "::FFFF:10.0.0.7" = "10.0.0.7"%string. Proof. reflexivity. Qed.
Example via : clientAddress "10.0.0.1" (Some "6.6.6.6, 203.0.113.9 ,10.1.2.3"%string) ["10.0.0.0/8"%string] = "203.0.113.9"%string.
Proof. reflexivity. Qed.

(** *** The trusted prefix. *)

Fixpoint value (ws : list Z) : Z :=
  match ws with [] => 0 | w :: ws' => w * 2 ^ (16 * Z.of_nat (length ws')) + value ws' end.
Definition is_words (ws : list Z) : Prop := Forall (fun w => 0 <= w < 65536) ws.

Lemma value_bounds (ws : list Z) : is_words ws -> 0 <= value ws < 2 ^ (16 * Z.of_nat (length ws)).
Proof.
  induction ws as [|w ws IH]; cbn [value length]; [done|]. intros [Hw Hws]%Forall_cons. specialize (IH Hws).
  replace (16 * Z.of_nat (S (length ws))) with (16 + 16 * Z.of_nat (length ws)) by lia. rewrite Z.pow_add_r by lia. nia.
Qed.

Lemma land_mask (w left : Z) : 0 <= w < 65536 -> 0 <= left <= 16 ->
  Z.land w (mask_of left) = Z.shiftl (Z.shiftr w (16 - left)) (16 - left).
Proof.
  intros Hw Hl. unfold mask_of. change 65535 with (Z.ones 16). apply Z.bits_inj'. intros n Hn.
  rewrite !Z.land_spec, !Z.shiftl_spec by done.
  destruct (Z.lt_ge_cases n (16 - left)) as [Hlt|Hge].
  - rewrite !(Z.testbit_neg_r _ (n - (16 - left))) by lia. by rewrite andb_false_r.
  - rewrite Z.shiftr_spec by lia. replace (n - (16 - left) + (16 - left)) with n by lia.
    destruct (Z.lt_ge_cases n 16) as [H16|H16].
    + rewrite !Z.ones_spec_low by lia. by rewrite !andb_true_r.
    + rewrite (Z.ones_spec_high 16 n) by lia. rewrite andb_false_r.
      destruct (Z.eq_dec w 0) as [->|Hw0]; [by rewrite Z.bits_0|]. rewrite andb_false_r. symmetry.
      apply Z.bits_above_log2; [lia|]. apply Z.log2_lt_pow2; [lia|].
      apply Z.lt_le_trans with (2 ^ 16); [lia|]. by apply Z.pow_le_mono_r.
Qed.

Lemma mask_eq (w s left : Z) : 0 <= w < 65536 -> 0 <= s < 65536 -> 0 <= left <= 16 ->
  (Z.land w (mask_of left) =? Z.land s (mask_of left)) = (w / 2 ^ (16 - left) =? s / 2 ^ (16 - left)).
Proof.
  intros Hw Hs Hl. rewrite !land_mask by done. rewrite !Z.shiftl_mul_pow2, !Z.shiftr_div_pow2 by lia.
  pose proof (Z.pow_pos_nonneg 2 (16 - left) ltac:(lia) ltac:(lia)).
  apply eq_true_iff_eq. rewrite !Z.eqb_eq. nia.
Qed.

(** A subnet is a prefix of bits: the word masks of a trusted entry agree exactly when the two addresses, as 128-bit
    numbers, have the same first [bits] bits. *)
Theorem masks_are_prefix (ws ss : list Z) (bits : Z) (Hw : is_words ws) (Hs : is_words ss) (Hl : length ws = length ss)
    (Hb : 0 <= bits <= 16 * Z.of_nat (length ws)) :
  let low := 16 * Z.of_nat (length ws) - bits in
  masks_agree ws ss bits = (value ws / 2 ^ low =? value ss / 2 ^ low).
Proof.
  cbv zeta. revert ss bits Hs Hl Hb. induction ws as [|w ws IH]; intros [|s ss] bits Hs Hl Hb; try done.
  cbn [length] in *. apply Forall_cons in Hw as [Hw Hws]. apply Forall_cons in Hs as [Hs Hss].
  injection Hl as Hl. cbn [masks_agree value]. rewrite <- Hl. set (n := Z.of_nat (length ws)) in *.
  replace (Z.of_nat (S (length ws))) with (n + 1) in * by lia.
  pose proof (value_bounds ws Hws) as Bw. pose proof (value_bounds ss Hss) as Bs. rewrite <- Hl in Bs. fold n in Bw, Bs.
  rewrite mask_eq by lia. destruct (Z.le_gt_cases 16 bits) as [Hge|Hlt].
  - rewrite Z.min_l, Z.sub_diag, Z.pow_0_r, !Z.div_1_r by lia.
    rewrite (IH Hws ss (bits - 16) Hss Hl ltac:(lia)). replace (16 * (n + 1) - bits) with (16 * n - (bits - 16)) by lia.
    remember (bits - 16) as k eqn:Hk.
    assert (forall x v, x * 2 ^ (16 * n) + v = v + (x * 2 ^ k) * 2 ^ (16 * n - k)) as E.
    { intros x v. rewrite <- Z.mul_assoc, <- Z.pow_add_r by lia. replace (k + (16 * n - k)) with (16 * n) by lia. lia. }
    pose proof (Z.pow_pos_nonneg 2 (16 * n - k) ltac:(lia) ltac:(lia)).
    rewrite !E, !Z.div_add by lia.
    assert (forall v, 0 <= v < 2 ^ (16 * n) -> 0 <= v / 2 ^ (16 * n - k) < 2 ^ k) as Hd.
    { intros v Hv. split; [apply Z.div_pos; lia|]. apply Z.div_lt_upper_bound; [lia|]. rewrite <- Z.pow_add_r by lia.
      replace (16 * n - k + k) with (16 * n) by lia. lia. }
    pose proof (Hd _ Bw). pose proof (Hd _ Bs). apply eq_true_iff_eq. rewrite andb_true_iff, !Z.eqb_eq.
    split; [by intros [-> ->]|]. intros Heq.
    assert (forall q x, 0 <= q < 2 ^ k -> (q + x * 2 ^ k) / 2 ^ k = x) as Hq.
    { intros q x Hqx. rewrite Z.div_add, Z.div_small by lia. lia. }
    assert (w = s) as ->; [|split; [done|lia]].
    rewrite <- (Hq (value ws / 2 ^ (16 * n - k)) w), Heq by done. by apply Hq.
  - assert (masks_agree ws ss (bits - 16) = true) as ->.
    { clear IH. assert (bits - 16 <= 0) as H0 by lia. clearbody n. revert H0. generalize (bits - 16). clear -Hl.
      revert ss Hl. induction ws as [|w ws IH]; intros [|s ss] Hl z H0; try done. injection Hl as Hl. cbn [masks_agree].
      rewrite Z.max_l, Z.min_r by lia. change (mask_of 0) with 0. rewrite !Z.land_0_r. cbn. apply IH; [done|lia]. }
    rewrite andb_true_r, Z.max_r, Z.min_r by lia.
    replace (16 * (n + 1) - bits) with (16 * n + (16 - bits)) by lia. rewrite Z.pow_add_r by lia.
    pose proof (Z.pow_pos_nonneg 2 (16 * n) ltac:(lia) ltac:(lia)).
    rewrite <- !Z.div_div by lia. rewrite !Z.div_add_l, !(Z.div_small (value _)) by lia. by rewrite !Z.add_0_r.
Qed.
Lemma masks_are_prefix_witness :
  masks_agree [0; 0; 0; 0; 0; 65535; 2561; 515] [0; 0; 0; 0; 0; 65535; 2560; 0] 104 = true.
Proof.
  rewrite (masks_are_prefix [0; 0; 0; 0; 0; 65535; 2561; 515] [0; 0; 0; 0; 0; 65535; 2560; 0] 104);
    [vm_compute; reflexivity|repeat constructor; lia|repeat constructor; lia|reflexivity|cbn; lia].
Defined.

(** *** The walk. *)

Lemma hops_app (a b : string) : hops_of (Some (a +:+ String "," b)) = hops_of (Some a) ++ hops_of (Some b).
Proof. unfold hops_of, from_option, Datatypes.id. by rewrite split_char_app, map_app, filter_app. Qed.

Lemma walk_app (trusted : string -> bool) (peer : string) (near far : list string) :
  trusted (walk trusted peer near) = false -> walk trusted peer (near ++ far) = walk trusted peer near.
Proof.
  revert peer. induction near as [|h near IH]; intros peer; cbn [walk app].
  - intros H. destruct far; cbn [walk]; [done|]. by rewrite H.
  - destruct (trusted peer); [apply IH|done].
Qed.

Lemma walk_spec (trusted : string -> bool) (peer : string) (near : list string) :
  exists passed rest, peer :: near = passed ++ walk trusted peer near :: rest /\ Forall (fun h => trusted h = true) passed /\
    (trusted (walk trusted peer near) = false \/ rest = []).
Proof.
  revert peer. induction near as [|h near IH]; intros peer; cbn [walk].
  - exists [], []. auto.
  - destruct (trusted peer) eqn:E.
    + destruct (IH h) as (passed & rest & E1 & E2 & E3). exists (peer :: passed), rest. split_and!; [cbn; by rewrite <- E1|by constructor|done].
    + exists [], (h :: near). auto.
Qed.

(** The client address cannot be forged: it is the nearest address, from the peer back through [X-Forwarded-For], that
    is not trusted (the furthest hop when all are), and every hop nearer than it is trusted; whatever a client writes
    before an untrusted hop changes nothing. *)
Theorem clientAddress_unforged (peer xff forged : string) (trusted : list string) :
  let known := isTrusted (flat_map subnet trusted) in
  (exists passed rest, peer :: rev (hops_of (Some xff)) = passed ++ clientAddress peer (Some xff) trusted :: rest /\
     Forall (fun h => known h = true) passed /\ (known (clientAddress peer (Some xff) trusted) = false \/ rest = [])) /\
  (known (clientAddress peer (Some xff) trusted) = false ->
     clientAddress peer (Some (forged +:+ String "," xff)) trusted = clientAddress peer (Some xff) trusted).
Proof.
  cbv zeta. split; [apply walk_spec|]. intros H. unfold clientAddress in *. rewrite hops_app, rev_app_distr. by apply walk_app.
Qed.
End Addresses.
