(* ===== verification/Deadlines.v ===== *)
(** The deadline timer and the in-process deadline host: [packages/bolt/src/engine/runs/deadlines.ts]. Every operation is
    a step on the timer's state; the sleeping fiber and the callbacks it started are part of the state, and the clock and
    the interleaving of operations are the steps of a relation. *)
From S2P Require Import Prelude.

Module Timer.
Section Timer.
Context {Subject : Type}.

Record Held := MkHeld { h_subject : Subject; h_at : Z }.
Record Entry := MkEntry { e_key : string; e_subject : Subject; e_at : Z }.
Record Active := MkActive { a_entry : Entry; a_retired : bool }.

(** [sleeping] is the time the fiber of [timer] sleeps until; [callbacks] counts the fibers of [onDue] that have not yet
    taken their entry. *)
Record State := MkState {
  held : dict Held; active : dict Active; armedFor : option Z; sleeping : option Z; callbacks : nat; stopped : bool }.
Definition init : State := MkState [] [] None None 0 false.

Fixpoint remove {A} (d : dict A) (k : string) : dict A :=
  match d with [] => [] | (k', v) :: d' => if String.eqb k' k then d' else (k', v) :: remove d' k end.

Definition with_held (st : State) (h : dict Held) : State :=
  MkState h (active st) (armedFor st) (sleeping st) (callbacks st) (stopped st).
Definition with_active (st : State) (a : dict Active) : State :=
  MkState (held st) a (armedFor st) (sleeping st) (callbacks st) (stopped st).

(** The loop of [arm] over the held entries whose key is not active. *)
Definition earlier (act : dict Active) (earliest : option Z) (kh : string * Held) : option Z :=
  if negb (has_own act (fst kh)) && match earliest with None => true | Some e => h_at (snd kh) <? e end
  then Some (h_at (snd kh)) else earliest.
Definition earliest (st : State) : option Z := fold_left (earlier (active st)) (held st) None.

Definition arm (st : State) : State :=
  match stopped st, earliest st with
  | true, _ | _, None => MkState (held st) (active st) None None (callbacks st) (stopped st)
  | false, Some e =>
      if bool_decide (armedFor st = Some e) then st
      else MkState (held st) (active st) (Some e) (Some e) (callbacks st) (stopped st)
  end.

(** [announce]: whether the deadline was taken up, and the state after. *)
Definition announce (key : string) (subject : Subject) (at_ : Z) (st : State) : bool * State :=
  if stopped st || match get (held st) key with Some h => h_at h <=? at_ | None => false end then (false, arm st)
  else (true, arm (with_held st (set (held st) key (MkHeld subject at_)))).

Definition settle (key : string) (subject : Subject) (at_ : option Z) (st : State) : State :=
  arm (if stopped st then st
       else match at_ with
            | None => with_held st (remove (held st) key)
            | Some a => with_held st (set (held st) key (MkHeld subject a))
            end).

Definition retire (key : string) (st : State) : bool * State :=
  let st := with_held st (remove (held st) key) in
  match get (active st) key with
  | None => (true, arm st)
  | Some running => (false, arm (with_active st (set (active st) key (MkActive (a_entry running) true))))
  end.

Definition restore (entries : list Entry) (st : State) : State :=
  arm (fold_left (fun st e =>
         if negb (has_own (held st) (e_key e)) && negb (has_own (active st) (e_key e))
         then with_held st (set (held st) (e_key e) (MkHeld (e_subject e) (e_at e))) else st) entries st).

(** The loop of [takeDue]: the earliest due entry whose key is not active. *)
Definition due (act : dict Active) (now : Z) (taken : option Entry) (kh : string * Held) : option Entry :=
  let '(key, h) := kh in
  if negb (has_own act key) && (h_at h <=? now) && match taken with None => true | Some t => h_at h <? e_at t end
  then Some (MkEntry key (h_subject h) (h_at h)) else taken.
Definition takeDue (now : Z) (st : State) : option Entry * State :=
  if stopped st then (None, arm st)
  else
    match fold_left (due (active st) now) (held st) None with
    | None => (None, arm st)
    | Some taken =>
        (Some taken,
          arm (with_active (with_held st (remove (held st) (e_key taken)))
                 (set (active st) (e_key taken) (MkActive taken false))))
    end.

Record Resolution := MkResolution { r_subject : Subject; r_at : option Z; r_stale : bool }.
(** [complete]; [callbackAt] is a finite time or none. *)
Definition complete (key : string) (callbackAt : option Z) (mergeAnnouncements : bool) (st : State) : outcome (Resolution * State) :=
  match get (active st) key with
  | None => PlainError ("Deadline callback lane " +:+ key +:+ " is idle")
  | Some running =>
      let announced := option_map h_at (get (held st) key) in
      let at_ :=
        if mergeAnnouncements then
          match callbackAt with
          | None => announced
          | Some c => Some (match announced with Some a => Z.min c a | None => c end)
          end
        else callbackAt in
      let stale := stopped st || a_retired running in
      let st1 :=
        if stale then st
        else match at_ with
             | None => with_held st (remove (held st) key)
             | Some a => with_held st (set (held st) key (MkHeld (e_subject (a_entry running)) a))
             end in
      Ok (MkResolution (e_subject (a_entry running)) (if stale then None else at_) stale,
          arm (with_active st1 (remove (active st1) key)))
  end.

(** The sleeping fiber wakes: [armedFor] is cleared and a callback starts. *)
Definition fire (now : Z) (st : State) : option State :=
  match sleeping st with
  | Some at_ => if at_ <=? now then Some (MkState (held st) (active st) None None (S (callbacks st)) (stopped st)) else None
  | None => None
  end.
(** A callback of [onDue] takes its entry. *)
Definition callback (now : Z) (st : State) : option (option Entry * State) :=
  match callbacks st with
  | O => None
  | S n => Some (takeDue now (MkState (held st) (active st) (armedFor st) (sleeping st) n (stopped st)))
  end.
(** The scope closes: the finalizer runs and the scope's fibers are interrupted. *)
Definition stop (st : State) : State := MkState (held st) (active st) None None 0 true.

(** ** Reachable states. *)
Inductive step : State -> State -> Prop :=
| step_announce k s a st : step st (snd (announce k s a st))
| step_settle k s a st : step st (settle k s a st)
| step_retire k st : step st (snd (retire k st))
| step_restore es st : step st (restore es st)
| step_fire now st st' : fire now st = Some st' -> step st st'
| step_callback now st r st' : callback now st = Some (r, st') -> step st st'
| step_complete k c m st r st' : complete k c m st = Ok (r, st') -> step st st'
| step_stop st : step st (stop st).
Inductive reached : State -> Prop :=
| reached_init : reached init
| reached_step st st' : reached st -> step st st' -> reached st'.

(** The timer is set to the earliest eligible deadline, or a callback that will look for one is on its way. *)
Definition ready (st : State) : Prop := armedFor st = earliest st \/ armedFor st = None /\ (0 < callbacks st)%nat.
Definition invariant (st : State) : Prop :=
  wf_dict (held st) /\ wf_dict (active st) /\ sleeping st = armedFor st /\ (stopped st = false -> ready st) /\
  (stopped st = true -> armedFor st = None).

Lemma keys_remove {A} (d : dict A) (k : string) : wf_dict d -> forall x, x ∈ keys (remove d k) <-> x ∈ keys d /\ x <> k.
Proof.
  unfold wf_dict, keys. induction d as [|[k' v] d IH]; intros Hd x; cbn [remove map fst].
  - rewrite elem_of_nil. naive_solver.
  - cbn [map fst] in Hd. apply NoDup_cons in Hd as [Hk Hd]. destruct (String.eqb k' k) eqn:E.
    + apply String.eqb_eq in E as ->. rewrite elem_of_cons. split; [intros H; split; [by right|by intros ->]|naive_solver].
    + apply String.eqb_neq in E. cbn [map fst]. rewrite !elem_of_cons, (IH Hd x).
      split; [intros [-> | [H1 H2]]; auto|naive_solver].
Qed.
Lemma wf_remove {A} (d : dict A) (k : string) : wf_dict d -> wf_dict (remove d k).
Proof.
  induction d as [|[k' v] d IH]; intros Hd; [done|]. cbn [remove]. pose proof Hd as Hd0.
  apply NoDup_cons in Hd as [Hk Hd]. destruct (String.eqb k' k); [done|]. apply NoDup_cons. split; [|by apply IH].
  intros H. apply (keys_remove d k Hd) in H as [H _]. done.
Qed.
Lemma get_remove_ne {A} (d : dict A) (k k' : string) : k <> k' -> get (remove d k) k' = get d k'.
Proof.
  intros Hne. induction d as [|[k2 v] d IH]; cbn; [done|]. destruct (String.eqb k2 k) eqn:E; cbn; [|by rewrite IH].
  apply String.eqb_eq in E as ->. by rewrite (proj2 (String.eqb_neq k k')).
Qed.
Lemma get_remove_eq {A} (d : dict A) (k : string) : wf_dict d -> get (remove d k) k = None.
Proof.
  intros Hd. pose proof (get_keys (remove d k) k) as H. destruct (get (remove d k) k); [|done].
  cbn in H. symmetry in H. apply bool_decide_eq_true in H. apply (keys_remove d k Hd k) in H as [_ H]. done.
Qed.

Lemma arm_fields (st : State) :
  held (arm st) = held st /\ active (arm st) = active st /\ callbacks (arm st) = callbacks st /\ stopped (arm st) = stopped st.
Proof. unfold arm. destruct (stopped st) eqn:E, (earliest st); try done. by case_bool_decide. Qed.

Lemma earliest_same (st st' : State) : held st = held st' -> active st = active st' -> earliest st = earliest st'.
Proof. unfold earliest. by intros -> ->. Qed.

Lemma arm_invariant (st : State) :
  wf_dict (held st) -> wf_dict (active st) -> sleeping st = armedFor st -> invariant (arm st).
Proof.
  intros Hh Ha Hs. destruct (arm_fields st) as (E1 & E2 & E3 & E4). unfold invariant. rewrite E1, E2, E4.
  split_and!; [done|done| | |].
  - unfold arm. destruct (stopped st), (earliest st); try done. by case_bool_decide.
  - intros Hst. left. rewrite (earliest_same (arm st) st E1 E2). unfold arm. rewrite Hst.
    destruct (earliest st); [|done]. by case_bool_decide.
  - intros Hst. unfold arm. by rewrite Hst.
Qed.

Lemma restore_fold (es : list Entry) (st : State) (st' := fold_left (fun st e =>
    if negb (has_own (held st) (e_key e)) && negb (has_own (active st) (e_key e))
    then with_held st (set (held st) (e_key e) (MkHeld (e_subject e) (e_at e))) else st) es st) :
  wf_dict (held st) -> wf_dict (held st') /\ active st' = active st /\ sleeping st' = sleeping st /\ armedFor st' = armedFor st.
Proof.
  subst st'. revert st. induction es as [|e es IH]; intros st H; cbn [fold_left]; [done|].
  destruct (_ && _); [|by apply IH]. destruct (IH (with_held st (set (held st) (e_key e) (MkHeld (e_subject e) (e_at e))))) as (H1 & H2 & H3 & H4).
  - by apply wf_set.
  - done.
Qed.

Lemma step_invariant (st st' : State) : invariant st -> step st st' -> invariant st'.
Proof.
  intros (Hh & Ha & Hs & Hr & Hst) Hstep.
  destruct Hstep as [k s a st|k s a st|k st|es st|now st st' Hf|now st r st' Hc|k c m st r st' Hc|st].
  - unfold announce. destruct (_ || _); cbn [snd]; apply arm_invariant; try done. by apply wf_set.
  - unfold settle. apply arm_invariant; destruct (stopped st), a; try done; cbn [held with_held]; auto using wf_set, wf_remove.
  - unfold retire. cbn [active with_held]. destruct (get (active st) k); cbn [snd]; apply arm_invariant; try done;
      cbn [held active with_held with_active]; auto using wf_set, wf_remove.
  - unfold restore. destruct (restore_fold es st Hh) as (H1 & H2 & H3 & H4). apply arm_invariant; [done|by rewrite H2|by rewrite H3, H4].
  - unfold fire in Hf. destruct (sleeping st) as [a|] eqn:Es; [|done]. destruct (a <=? now); [|done]. injection Hf as <-.
    split_and!; try done. intros _. right. cbn. split; [done|lia].
  - unfold callback in Hc. destruct (callbacks st) as [|n]; [done|]. injection Hc as Hc. unfold takeDue in Hc.
    cbn [stopped held active] in Hc. destruct (stopped st); [injection Hc as _ <-; by apply arm_invariant|].
    destruct (fold_left _ _ _) as [t|]; injection Hc as _ <-; apply arm_invariant; try done;
      cbn [held active with_held with_active]; auto using wf_set, wf_remove.
  - unfold complete in Hc. destruct (get (active st) k) as [running|]; [|done]. injection Hc as _ <-.
    apply arm_invariant; destruct (stopped st || a_retired running); repeat case_match; try done;
      cbn [held active with_held with_active]; auto using wf_set, wf_remove.
  - split_and!; try done.
Qed.

Lemma reached_invariant (st : State) : reached st -> invariant st.
Proof.
  induction 1 as [|st st' Hr IH Hs]; [|by eapply step_invariant]. split_and!; [constructor|constructor|done|intros _; by left|done].
Qed.

(** A key waiting with no callback running. *)
Definition eligible (st : State) (k : string) (h : Held) : Prop := (k, h) ∈ held st /\ has_own (active st) k = false.

Lemma earliest_spec (st : State) :
  match earliest st with
  | Some e => (exists k h, eligible st k h /\ h_at h = e) /\ forall k h, eligible st k h -> e <= h_at h
  | None => forall k h, ~ eligible st k h
  end.
Proof.
  unfold earliest, eligible.
  assert (forall l acc, match fold_left (earlier (active st)) l acc with
    | Some e => (acc = Some e \/ exists k h, ((k, h) ∈ l /\ has_own (active st) k = false) /\ h_at h = e) /\
                (forall a, acc = Some a -> e <= a) /\ forall k h, (k, h) ∈ l /\ has_own (active st) k = false -> e <= h_at h
    | None => acc = None /\ forall k h, ~ ((k, h) ∈ l /\ has_own (active st) k = false)
    end) as H.
  { induction l as [|[k h] l IH]; intros acc; cbn [fold_left].
    - assert (forall k h, ~ ((k, h) ∈ ([] : dict Held) /\ has_own (active st) k = false)) as Hnil
        by (intros ? ? [Hx _]; by apply elem_of_nil in Hx).
      destruct acc as [a|]; [|done]. split_and!; [by left|intros ? [= ->]; lia|]. intros k h Hx. by apply Hnil in Hx.
    - destruct (has_own (active st) k) eqn:Ek.
      + assert (earlier (active st) acc (k, h) = acc) as -> by (unfold earlier; cbn [fst]; by rewrite Ek).
        specialize (IH acc). destruct (fold_left _ l acc) as [e|].
        * destruct IH as (H1 & H2 & H3). split; [|split; [done|]].
          -- destruct H1 as [|(k0 & h0 & [Hin Ha] & E)]; [by left|]. right. exists k0, h0. split; [split; [by right|done]|done].
          -- intros k0 h0 [[[= -> ->]|Hin]%elem_of_cons Ha]; [congruence|by apply (H3 k0)].
        * destruct IH as [H1 H2]. split; [done|]. intros k0 h0 [[[= -> ->]|Hin]%elem_of_cons Ha]; [congruence|by apply (H2 k0 h0)].
      + set (acc' := if match acc with None => true | Some e => h_at h <? e end then Some (h_at h) else acc).
        assert (earlier (active st) acc (k, h) = acc') as -> by (unfold earlier; cbn [fst snd]; by rewrite Ek).
        assert (exists a', acc' = Some a' /\ a' <= h_at h /\ (forall a, acc = Some a -> a' <= a) /\ (a' = h_at h \/ acc = Some a')) as (a' & E' & Hle & Hacc & Hor).
        { unfold acc'. destruct acc as [a|].
          - destruct (h_at h <? a) eqn:E; bool_hyps.
            + exists (h_at h). split_and!; [done|lia|intros ? [= <-]; lia|by left].
            + exists a. split_and!; [done|lia|intros ? [= <-]; lia|by right].
          - exists (h_at h). split_and!; [done|lia|done|by left]. }
        rewrite E'. specialize (IH (Some a')). destruct (fold_left _ l (Some a')) as [e|]; [|by destruct IH].
        destruct IH as (H1 & H2 & H3). specialize (H2 a' eq_refl). split_and!.
        * destruct H1 as [[= ->]|(k0 & h0 & [Hin Ha] & E)].
          -- destruct Hor as [->|Hor]; [|by left]. right. exists k, h. split; [split; [by left|done]|done].
          -- right. exists k0, h0. split; [split; [by right|done]|done].
        * intros a Ea. specialize (Hacc a Ea). lia.
        * intros k0 h0 [[[= -> ->]|Hin]%elem_of_cons Ha]; [lia|by apply (H3 k0)]. }
  specialize (H (held st) None). destruct (fold_left _ _ _) as [e|].
  - destruct H as ([|H1] & _ & H2); [done|]. done.
  - by destruct H.
Qed.

(** No deadline is forgotten: in every state the operations reach, in whatever order they and the timer's fibers run, a
    deadline whose key has no callback running is covered: the timer sleeps until a time no later than it, or a callback
    that will look for due deadlines has been started. *)
Theorem no_deadline_lost (st : State) (k : string) (h : Held) (Hr : reached st) (Hs : stopped st = false)
    (Hk : (k, h) ∈ held st) (Ha : has_own (active st) k = false) :
  (exists a, sleeping st = Some a /\ a <= h_at h) \/ (0 < callbacks st)%nat.
Proof.
  apply reached_invariant in Hr as (_ & _ & Hsl & Hready & _). destruct (Hready Hs) as [He|[_ Hc]]; [|by right].
  left. rewrite Hsl, He. pose proof (earliest_spec st) as H. destruct (earliest st) as [e|].
  - exists e. split; [done|]. destruct H as [_ H]. by apply (H k).
  - exfalso. by apply (H k h).
Qed.

Lemma due_spec (act : dict Active) (now : Z) (l : dict Held) :
  match fold_left (due act now) l None with
  | Some t => (e_key t, MkHeld (e_subject t) (e_at t)) ∈ l /\ has_own act (e_key t) = false /\ e_at t <= now /\
              forall k h, (k, h) ∈ l -> has_own act k = false -> h_at h <= now -> e_at t <= h_at h
  | None => forall k h, (k, h) ∈ l -> has_own act k = false -> now < h_at h
  end.
Proof.
  assert (forall l1 acc, match acc with
    | Some t => (e_key t, MkHeld (e_subject t) (e_at t)) ∈ l1 /\ has_own act (e_key t) = false /\ e_at t <= now /\
              forall k h, (k, h) ∈ l1 -> has_own act k = false -> h_at h <= now -> e_at t <= h_at h
    | None => forall k h, (k, h) ∈ l1 -> has_own act k = false -> now < h_at h
    end -> forall l2, match fold_left (due act now) l2 acc with
    | Some t => (e_key t, MkHeld (e_subject t) (e_at t)) ∈ l1 ++ l2 /\ has_own act (e_key t) = false /\ e_at t <= now /\
              forall k h, (k, h) ∈ l1 ++ l2 -> has_own act k = false -> h_at h <= now -> e_at t <= h_at h
    | None => forall k h, (k, h) ∈ l1 ++ l2 -> has_own act k = false -> now < h_at h
    end) as H.
  { intros l1 acc H0 l2. revert l1 acc H0. induction l2 as [|[k h] l2 IH]; intros l1 acc H0; cbn [fold_left].
    - by rewrite app_nil_r.
    - replace (l1 ++ (k, h) :: l2) with ((l1 ++ [(k, h)]) ++ l2) by (by rewrite <- app_assoc). apply IH. unfold due.
      destruct (negb (has_own act k) && (h_at h <=? now) && _) eqn:E.
      + bool_hyps. cbn [e_key e_subject e_at]. split_and!; [|done|done|].
        * apply elem_of_app. right. destruct h. by left.
        * intros k0 h0 Hin Ha Hle. destruct acc as [t|].
          -- bool_hyps. apply elem_of_app in Hin as [Hin|[= -> ->]%list_elem_of_singleton]; [|lia].
             destruct H0 as (_ & _ & _ & Hall). specialize (Hall _ _ Hin Ha Hle). lia.
          -- apply elem_of_app in Hin as [Hin|[= -> ->]%list_elem_of_singleton]; [|lia]. specialize (H0 _ _ Hin Ha). lia.
      + destruct acc as [t|].
        * destruct H0 as (H1 & H2 & H3 & H4). split_and!; [apply elem_of_app; by left|done|done|].
          intros k0 h0 [Hin|[= -> ->]%list_elem_of_singleton]%elem_of_app Ha Hle; [by apply (H4 k0)|].
          rewrite Ha in E. cbn [negb andb] in E. bool_cases; lia.
        * intros k0 h0 [Hin|[= -> ->]%list_elem_of_singleton]%elem_of_app Ha; [by apply (H0 k0)|].
          rewrite Ha in E. cbn [negb andb] in E. bool_cases; [lia|done]. }
  apply (H [] None). intros k h Hx. by apply elem_of_nil in Hx.
Qed.

(** One callback per key, earliest first: a taken deadline is due, is the earliest due one, and its key had no
    callback running; it leaves the waiting ones and its key runs alone until it completes. *)
Theorem takeDue_correct (st st' : State) (now : Z) (t : Entry) (Hr : reached st) (Ht : takeDue now st = (Some t, st')) :
  get (held st) (e_key t) = Some (MkHeld (e_subject t) (e_at t)) /\ e_at t <= now /\ get (active st) (e_key t) = None /\
  (forall k h, get (held st) k = Some h -> get (active st) k = None -> h_at h <= now -> e_at t <= h_at h) /\
  get (held st') (e_key t) = None /\ get (active st') (e_key t) = Some (MkActive t false).
Proof.
  apply reached_invariant in Hr as (Hh & Hact & _). unfold takeDue in Ht. destruct (stopped st); [done|].
  pose proof (due_spec (active st) now (held st)) as Hd. destruct (fold_left _ _ _) as [t0|]; [|done].
  injection Ht as -> <-. destruct Hd as (H1 & H2 & H3 & H4).
  assert (forall k, has_own (active st) k = false <-> get (active st) k = None) as Hown.
  { intros k. unfold has_own. by destruct (get (active st) k). }
  destruct (arm_fields (with_active (with_held st (remove (held st) (e_key t))) (set (active st) (e_key t) (MkActive t false)))) as (-> & -> & _).
  cbn [held active with_held with_active]. split_and!.
  - by apply in_get.
  - done.
  - by apply Hown.
  - intros k h Hk Ha Hle. apply (H4 k); [by apply get_in|by apply Hown|done].
  - by apply get_remove_eq.
  - by rewrite get_set_eq.
Qed.

(** An announcement made while a key's callback runs is not lost when it completes: unless the key was retired or the
    timer stopped, the key waits again, no later than the announced time and than the time its callback asked for. *)
Theorem complete_merges (st st' : State) (k : string) (c : option Z) (r : Resolution) (h : Held) (Hr : reached st)
    (Hc : complete k c true st = Ok (r, st')) (Hh : get (held st) k = Some h) (Hs : r_stale r = false) :
  exists h', get (held st') k = Some h' /\ h_at h' <= h_at h /\ (forall a, c = Some a -> h_at h' <= a) /\
    (h_at h' = h_at h \/ c = Some (h_at h')) /\ get (active st') k = None.
Proof.
  apply reached_invariant in Hr as (Hhw & Hact & _). unfold complete in Hc.
  destruct (get (active st) k) as [running|]; [|done]. rewrite Hh in Hc. cbn [option_map] in Hc. injection Hc as <- <-.
  cbn [r_stale] in Hs. rewrite Hs.
  set (at_ := match c with None => Some (h_at h) | Some c0 => Some (Z.min c0 (h_at h)) end).
  assert (exists a, at_ = Some a /\ a <= h_at h /\ (forall x, c = Some x -> a <= x) /\ (a = h_at h \/ c = Some a)) as (a & E & H1 & H2 & H3).
  { unfold at_. destruct c as [c0|].
    - exists (Z.min c0 (h_at h)). split_and!; [done|lia|intros ? [= <-]; lia|].
      destruct (Z.min_spec c0 (h_at h)) as [[_ ->]|[_ ->]]; auto.
    - exists (h_at h). split_and!; [done|lia|done|by left]. }
  rewrite E. destruct (arm_fields (with_active (with_held st (set (held st) k (MkHeld (e_subject (a_entry running)) a)))
    (remove (active (with_held st (set (held st) k (MkHeld (e_subject (a_entry running)) a)))) k))) as (-> & -> & _).
  cbn [held active with_held with_active]. exists (MkHeld (e_subject (a_entry running)) a).
  rewrite get_set_eq. cbn [h_at]. split_and!; try done. by apply get_remove_eq.
Qed.

(** The earlier of two optional times. *)
Definition sooner (a b : option Z) : option Z :=
  match a, b with Some x, Some y => Some (Z.min x y) | Some x, None => Some x | None, y => y end.

Lemma complete_fields (st : State) (k : string) (c : option Z) (m : bool) (running : Active) :
  wf_dict (held st) -> wf_dict (active st) -> get (active st) k = Some running ->
  exists r st', complete k c m st = Ok (r, st') /\ active st' = remove (active st) k /\ stopped st' = stopped st /\
    r_stale r = stopped st || a_retired running /\
    (r_stale r = false ->
      option_map h_at (get (held st') k) = (if m then sooner c (option_map h_at (get (held st) k)) else c)).
Proof.
  intros Hh Ha E. unfold complete. rewrite E. eexists _, _. split; [reflexivity|]. cbn [r_stale].
  match goal with |- context [arm ?s] => destruct (arm_fields s) as (-> & -> & _ & ->) end.
  cbn [held active with_held with_active stopped].
  split_and!; [destruct (stopped st || a_retired running); [done|by repeat case_match]
              |destruct (stopped st || a_retired running); [done|by repeat case_match]|done|].
  intros ->. destruct m, c as [c|], (get (held st) k) as [h|] eqn:Ek; cbn [option_map sooner held with_held];
    rewrite ?get_set_eq, ?get_remove_eq by done; done.
Qed.

(** *** Progress. *)

(** One round while the clock shows [now]: a started callback takes its entry; else the fiber wakes, if its time has come,
    and its callback takes its entry. *)
Definition round (now : Z) (st : State) : option State :=
  match callback now st with
  | Some (_, st') => Some st'
  | None => match fire now st with Some st1 => option_map snd (callback now st1) | None => None end
  end.
Fixpoint rounds (fuel : nat) (now : Z) (st : State) : State :=
  match fuel with O => st | S f => match round now st with Some st' => rounds f now st' | None => st end end.

Lemma length_remove {A} (d : dict A) (k : string) : (length (remove d k) <= length d)%nat.
Proof. induction d as [|[k' v] d IH]; cbn; [lia|]. destruct (String.eqb k' k); cbn; lia. Qed.
Lemma length_remove_in {A} (d : dict A) (k : string) (v : A) : (k, v) ∈ d -> length d = S (length (remove d k)).
Proof.
  induction d as [|[k' v'] d IH]; intros H; [by apply elem_of_nil in H|]. cbn. destruct (String.eqb k' k) eqn:E; [done|].
  apply elem_of_cons in H as [[= -> ->]|H]; [by rewrite String.eqb_refl in E|]. cbn. by rewrite <- (IH H).
Qed.

Lemma takeDue_measure (now : Z) (st : State) (r : option Entry) (st' : State) :
  takeDue now st = (r, st') -> stopped st = false ->
  callbacks st' = callbacks st /\ stopped st' = false /\
  match r with Some _ => length (held st) = S (length (held st')) | None => length (held st') = length (held st) end.
Proof.
  unfold takeDue. intros H Hs. rewrite Hs in H. pose proof (due_spec (active st) now (held st)) as Hd.
  destruct (fold_left _ _ _) as [t|]; injection H as <- <-.
  - destruct (arm_fields (with_active (with_held st (remove (held st) (e_key t))) (set (active st) (e_key t) (MkActive t false)))) as (-> & _ & -> & ->).
    cbn. split_and!; [done|done|]. destruct Hd as (Hin & _). by eapply length_remove_in.
  - destruct (arm_fields st) as (-> & _ & -> & ->). done.
Qed.

Lemma round_spec (now : Z) (st st' : State) : invariant st -> stopped st = false -> round now st = Some st' ->
  invariant st' /\ stopped st' = false /\ (callbacks st' + length (held st') < callbacks st + length (held st))%nat.
Proof.
  intros Hi Hs. unfold round. destruct (callback now st) as [[r st1]|] eqn:Ec.
  - intros [= <-]. split; [eapply step_invariant; [exact Hi|by eapply step_callback]|].
    unfold callback in Ec. destruct (callbacks st) as [|n] eqn:En; [done|]. injection Ec as Ec.
    apply takeDue_measure in Ec as (H1 & H2 & H3); [|done]. cbn [callbacks held] in *. split; [done|]. destruct r; lia.
  - assert (callbacks st = 0%nat) as E0 by (unfold callback in Ec; by destruct (callbacks st)).
    destruct (fire now st) as [st1|] eqn:Ef; [|done]. intros H.
    assert (invariant st1) as Hi1 by (eapply step_invariant; [exact Hi|by eapply step_fire]).
    unfold fire in Ef. destruct (sleeping st) as [a|] eqn:Esl; [|done]. destruct (a <=? now) eqn:Ea; [|done].
    injection Ef as <-. destruct (callback now (MkState _ _ _ _ _ _)) as [[r st2]|] eqn:Ec2 in H; [|discriminate H].
    injection H as <-. split; [eapply step_invariant; [exact Hi1|by eapply step_callback]|].
    unfold callback in Ec2. cbn [callbacks held active armedFor sleeping stopped] in Ec2. injection Ec2 as Ec2.
    pose proof Ec2 as Et. apply takeDue_measure in Ec2 as (H1 & H2 & H3); [|done]. cbn [callbacks held] in *.
    split; [done|]. destruct r as [t|]; [lia|]. exfalso.
    destruct Hi as (_ & _ & Hsl & Hready & _). destruct (Hready Hs) as [He|[_ Hc]]; [|lia].
    rewrite Hsl in Esl. rewrite Esl in He. pose proof (earliest_spec st) as Hspec. rewrite <- He in Hspec.
    destruct Hspec as [(k & h & [Hin Hact] & Hat) _]. unfold takeDue in Et. cbn [stopped held active] in Et. rewrite Hs in Et.
    pose proof (due_spec (active st) now (held st)) as Hd. destruct (fold_left _ _ _); [done|].
    specialize (Hd k h Hin Hact). bool_hyps. lia.
Qed.

(** Due deadlines are reached: from every reachable state that is not stopped, once the clock shows [now] the fibers of
    the timer take every waiting deadline due by [now] within as many rounds as there are started callbacks and waiting
    deadlines. *)
Theorem due_are_taken (st : State) (now : Z) (k : string) (h : Held) (Hr : reached st) (Hs : stopped st = false) :
  let st' := rounds (callbacks st + length (held st)) now st in
  stopped st' = false /\ (get (held st') k = Some h -> get (active st') k = None -> now < h_at h).
Proof.
  cbv zeta. apply reached_invariant in Hr.
  assert (forall fuel st0, invariant st0 -> stopped st0 = false -> (callbacks st0 + length (held st0) <= fuel)%nat ->
    let st' := rounds fuel now st0 in invariant st' /\ stopped st' = false /\ round now st' = None) as H.
  { induction fuel as [|fuel IH]; intros st0 Hi Hs0 Hf; cbn [rounds].
    - split_and!; [done|done|]. destruct (round now st0) as [st1|] eqn:E; [|done].
      apply round_spec in E as (_ & _ & E); [lia|done|done].
    - destruct (round now st0) as [st1|] eqn:E; [|done].
      apply round_spec in E as (H1 & H2 & H3); [|done|done]. apply IH; [done|done|lia]. }
  destruct (H (callbacks st + length (held st))%nat st Hr Hs ltac:(lia)) as (Hi & Hs' & Hround).
  set (st' := rounds _ now st) in *. split; [done|]. intros Hk Ha.
  unfold round in Hround. destruct (callback now st') as [[r s1]|] eqn:Ec; [done|].
  assert (callbacks st' = 0%nat) as E0 by (unfold callback in Ec; by destruct (callbacks st')).
  destruct Hi as (Hwf & _ & Hsl & Hready & _). destruct (Hready Hs') as [He|[_ Hc]]; [|lia].
  destruct (Z.lt_ge_cases now (h_at h)) as [|Hle]; [done|]. exfalso.
  assert (eligible st' k h) as Hel.
  { split; [by apply get_in|]. unfold has_own. by rewrite Ha. }
  pose proof (earliest_spec st') as Hspec. destruct (earliest st') as [e|]; [|by apply (Hspec k h)].
  destruct Hspec as [_ Hall]. specialize (Hall k h Hel). rewrite He in Hsl.
  unfold fire in Hround. rewrite Hsl in Hround. rewrite (proj2 (Z.leb_le e now)) in Hround by lia.
  unfold callback in Hround. cbn [callbacks] in Hround. done.
Qed.
End Timer.
End Timer.

(** ** The in-process host: [inProcessDeadlines]. *)
Module Host.
Import Timer.

(** [waking] is the set of scopes whose wake runs; a settlement of such a scope is kept in [answers] until the wake ends
    ([null] as [None]). *)
Record HostState := MkHost { timer : @Timer.State string; answers : dict (option Z); waking : list string }.
Definition init : HostState := MkHost Timer.init [] [].
Definition without (k : string) : list string -> list string := filter (fun x => x <> k).

Definition port_announce (scope : string) (at_ : Z) (st : HostState) : HostState :=
  MkHost (snd (Timer.announce scope scope at_ (timer st))) (answers st) (waking st).
Definition port_settle (scope : string) (at_ : option Z) (st : HostState) : HostState :=
  if includes (waking st) scope then MkHost (timer st) (set (answers st) scope at_) (waking st)
  else MkHost (Timer.settle scope scope at_ (timer st)) (answers st) (waking st).
Definition port_teardown (scope : string) (st : HostState) : HostState :=
  MkHost (snd (Timer.retire scope (timer st))) (answers st) (waking st).
(** The first half of [onDue]: the entry is taken and its wake begins. *)
Definition begin (now : Z) (st : HostState) : option HostState :=
  match Timer.callback now (timer st) with
  | Some (Some entry, t) =>
      Some (MkHost t (remove (answers st) (e_key entry)) (waking st ++ [e_key entry]))
  | Some (None, t) => Some (MkHost t (answers st) (waking st))
  | None => None
  end.
(** The second half, when the wake of [key] has ended at [now], [ok] telling whether it succeeded. *)
Definition finish (key : string) (ok : bool) (now : Z) (st : HostState) : outcome (@Resolution string * HostState) :=
  let callbackAt := if ok then default None (get (answers st) key) else Some (now + 60000) in
  match Timer.complete key callbackAt ok (timer st) with
  | Ok (r, t) => Ok (r, MkHost t (remove (answers st) key) (without key (waking st)))
  | Throw e => Throw e
  end.

Inductive step : HostState -> HostState -> Prop :=
| step_announce s a st : step st (port_announce s a st)
| step_settle s a st : step st (port_settle s a st)
| step_teardown s st : step st (port_teardown s st)
| step_fire now st t : Timer.fire now (timer st) = Some t -> step st (MkHost t (answers st) (waking st))
| step_begin now st st' : begin now st = Some st' -> step st st'
| step_finish k ok now st r st' : k ∈ waking st -> finish k ok now st = Ok (r, st') -> step st st'.
Inductive reached : HostState -> Prop :=
| reached_init : reached init
| reached_step st st' : reached st -> step st st' -> reached st'.

(** *** A wake's scope is a running key of the timer. *)
Definition invariant (st : HostState) : Prop :=
  Timer.invariant (timer st) /\ forall k, k ∈ waking st <-> exists a, get (active (timer st)) k = Some a.

Lemma get_active_set (d : dict (@Active string)) (k k' : string) (v : Active) :
  (exists a, get (set d k v) k' = Some a) <-> k' = k \/ exists a, get d k' = Some a.
Proof.
  destruct (decide (k = k')) as [->|Hne].
  - rewrite get_set_eq. split; [by left|by eexists].
  - rewrite get_set_ne by done. split; [by right|intros [->|H]; done].
Qed.

Lemma host_invariant (st st' : HostState) : invariant st -> step st st' -> invariant st'.
Proof.
  intros [Hi Hw] Hs. destruct Hs as [s a st|s a st|s st|now st t Hf|now st st' Hb|k ok now st r st' Hk Hf].
  - split; [eapply Timer.step_invariant; [exact Hi|apply Timer.step_announce]|]. cbn [timer waking port_announce].
    intros k. rewrite Hw. unfold Timer.announce. destruct (_ || _); cbn [snd]; by rewrite (proj1 (proj2 (arm_fields _))).
  - unfold port_settle. destruct (includes _ _); [done|].
    split; [eapply Timer.step_invariant; [exact Hi|apply Timer.step_settle]|]. cbn [timer waking].
    intros k. rewrite Hw. unfold Timer.settle. rewrite (proj1 (proj2 (arm_fields _))). by destruct (stopped _), a.
  - split; [eapply Timer.step_invariant; [exact Hi|apply Timer.step_retire]|]. cbn [timer waking port_teardown].
    intros k. rewrite Hw. unfold Timer.retire. cbn [active with_held].
    destruct (get (active (timer st)) s) as [running|] eqn:E; cbn [snd]; rewrite (proj1 (proj2 (arm_fields _))); [|done].
    cbn [active with_active]. rewrite get_active_set. split; [by right|]. intros [->|H]; [by eexists|done].
  - split; [eapply Timer.step_invariant; [exact Hi|by eapply Timer.step_fire]|]. cbn [timer waking].
    intros k. rewrite Hw. unfold Timer.fire in Hf. repeat case_match; try done. by injection Hf as <-.
  - unfold begin in Hb. destruct (callback now (timer st)) as [[r t]|] eqn:Ec; [|done].
    assert (Timer.invariant t) as Ht by (eapply Timer.step_invariant; [exact Hi|by eapply Timer.step_callback]).
    unfold callback in Ec. destruct (callbacks (timer st)); [done|]. injection Ec as Ec. unfold takeDue in Ec.
    cbn [stopped held active] in Ec. destruct (stopped (timer st)).
    + injection Ec as <- <-. injection Hb as <-. split; [done|]. cbn [timer waking]. intros k.
      by rewrite (proj1 (proj2 (arm_fields _))).
    + destruct (fold_left _ _ _) as [e|]; injection Ec as <- <-; injection Hb as <-; (split; [done|]); cbn [timer waking];
        intros k; rewrite (proj1 (proj2 (arm_fields _))); cbn [active with_active with_held]; [|done].
      rewrite get_active_set, elem_of_app, list_elem_of_singleton, Hw. naive_solver.
  - unfold finish in Hf. apply Hw in Hk as [running Hk].
    destruct (complete_fields (timer st) k (if ok then default None (get (answers st) k) else Some (now + 60000)) ok running)
      as (r' & t & E & Ha & _); [apply Hi|apply Hi|done|]. pose proof E as Ec. rewrite E in Hf. injection Hf as <- <-.
    split; [eapply Timer.step_invariant; [exact Hi|by eapply Timer.step_complete]|]. cbn [timer waking]. intros k'.
    unfold without. rewrite list_elem_of_filter, Hw, Ha. destruct (decide (k' = k)) as [->|Hne].
    + rewrite get_remove_eq by apply Hi. naive_solver.
    + rewrite get_remove_ne by done. naive_solver.
Qed.

(** A wake always completes and its outcome decides the scope's next deadline: a wake of a running scope ends without
    the idle-lane error and clears the scope; unless the scope was torn down, after a success the scope waits for the
    earlier of what it settled while awake and what was announced meanwhile (nothing if neither), and after a failure it
    is retried one minute later. *)
Theorem wake_finishes (st : HostState) (k : string) (ok : bool) (now : Z) (Hr : reached st) (Hk : k ∈ waking st) :
  exists r st', finish k ok now st = Ok (r, st') /\ (k ∉ waking st') /\ get (active (timer st')) k = None /\
    (r_stale r = false ->
      option_map h_at (get (held (timer st')) k) =
      (if ok then sooner (default None (get (answers st) k)) (option_map h_at (get (held (timer st)) k))
       else Some (now + 60000))).
Proof.
  assert (invariant st) as [Hi Hw].
  { clear Hk. induction Hr as [|st st' Hr IH Hs]; [|by eapply host_invariant]. split.
    - apply Timer.reached_invariant. constructor.
    - intros x. split; [by intros Hx%elem_of_nil|by intros [a Ha]]. }
  apply Hw in Hk as [running Hk].
  destruct (complete_fields (timer st) k (if ok then default None (get (answers st) k) else Some (now + 60000)) ok running)
    as (r & t & E & Ha & _ & _ & Hs); [apply Hi|apply Hi|done|]. exists r. unfold finish. rewrite E.
  eexists. split; [done|]. cbn [waking timer]. split_and!.
  - unfold without. rewrite list_elem_of_filter. naive_solver.
  - rewrite Ha. apply get_remove_eq, Hi.
  - intros Hst. rewrite (Hs Hst). by destruct ok.
Qed.
End Host.

(** ** Concrete runs. *)
Module Samples.
Import Timer.
Definition announced : State := snd (announce "a" "a" 5 (snd (announce "b" "b" 3 init))).
Definition woken : State := MkState (held announced) [] None None 1 false.
Definition taken : State := snd (takeDue 9 (MkState (held announced) [] None None 0 false)).
Definition again : State := snd (announce "b" "b" 7 taken).

Lemma announced_reached : reached announced.
Proof. repeat (eapply reached_step; [|apply step_announce]). apply reached_init. Qed.
Lemma woken_reached : reached woken.
Proof. eapply reached_step; [apply announced_reached|]. by apply (step_fire 9). Qed.
Lemma taken_reached : reached taken.
Proof. eapply reached_step; [apply woken_reached|]. by eapply (step_callback 9). Qed.
Lemma again_reached : reached again.
Proof. eapply reached_step; [apply taken_reached|]. apply step_announce. Qed.

Lemma no_deadline_lost_witness :
  (exists a, sleeping announced = Some a /\ a <= 5) \/ (0 < callbacks announced)%nat.
Proof.
  apply (no_deadline_lost announced "a" (MkHeld "a" 5) announced_reached); [reflexivity| |reflexivity].
  right. left.
Defined.
Lemma takeDue_correct_witness : get (held woken) "b" = Some (MkHeld "b" 3).
Proof.
  refine (proj1 (takeDue_correct woken (snd (takeDue 9 woken)) 9 (MkEntry "b" "b" 3) woken_reached _)). reflexivity.
Defined.
Lemma complete_merges_witness : exists h', get (held (snd (default (MkResolution "" None false, init)
    (match complete "b" (Some 8) true again with Ok x => Some x | _ => None end)))) "b" = Some h' /\ h_at h' <= 7.
Proof.
  destruct (complete_merges again _ "b" (Some 8) (MkResolution "b" (Some 7) false) (MkHeld "b" 7) again_reached
    eq_refl eq_refl eq_refl) as (h' & H1 & H2 & _). exists h'. split; [exact H1|exact H2].
Defined.
Lemma due_are_taken_witness : stopped (rounds (callbacks announced + length (held announced)) 9 announced) = false.
Proof. exact (proj1 (due_are_taken announced 9 "a" (MkHeld "a" 5) announced_reached eq_refl)). Defined.

Definition waking : Host.HostState :=
  Host.port_settle "s" (Some 20) (Host.MkHost (snd (takeDue 9 (MkState [("s", MkHeld "s" 4)] [] None None 0 false))) [] ["s"]).
Lemma waking_reached : Host.reached waking.
Proof.
  eapply Host.reached_step; [|apply Host.step_settle].
  apply (Host.reached_step (Host.MkHost (MkState [("s", MkHeld "s" 4)] [] None None 1 false) [] []));
    [|by apply (Host.step_begin 9)].
  apply (Host.reached_step (Host.port_announce "s" 4 Host.init)).
  - eapply Host.reached_step; [apply Host.reached_init|apply Host.step_announce].
  - by apply (Host.step_fire 9 (Host.port_announce "s" 4 Host.init)).
Qed.
Lemma wake_finishes_witness : exists r st', Host.finish "s" true 9 waking = Ok (r, st') /\
  option_map h_at (get (held (Host.timer st')) "s") = Some 20.
Proof.
  destruct (Host.wake_finishes waking "s" true 9 waking_reached) as (r & st' & H1 & _ & _ & H2); [left|].
  exists r, st'. split; [exact H1|]. apply H2. vm_compute in H1. injection H1 as <- _. reflexivity.
Defined.
End Samples.
