(* ===== verification/Live.v ===== *)
(** The live engine: [packages/bolt/src/engine/live/hub.ts], with the page client's patch application
    ([packages/bolt/src/page/bolt.ts], [patched]) and the reads it serves ([packages/bolt/src/protocol/reads.ts]). Module
    [Views] judges and patches one view, [PatchFacts] and [PageFacts] state that a patch is exact on both sides of the
    stream, [Hub] is the lane's state and its accounting. *)
From Stdlib Require Import Sorted.
From S2P Require Import Prelude Decimal Dates Ir Catalog Contracts Eval.

Module Views.

(** ** Reads, captures and patches. *)

Inductive HistoryAt := AtInstant (instant : string) | AtRevision (revision : Z) | AtBefore (before : string).
(** The protocol's reads: the store's, and Bolt's own. *)
Inductive LiveRead :=
| StoreRead (r : ReadIR)
| HistoryRead (model : string) (output : option string) (id : string) (at_ : option HistoryAt) (full view : bool)
| RequestRead (roots : list RequestRoot)
| AfterRead (model : string) (where_ : Pred) (query : option ListRead)
| TranscriptRead (conversation : string) (thread automation : bool) (from : option number)
| InboxRead (member : string) (requests : bool)
| ConversationsRead (member : string)
| RunsRead (limit : Z) (automation id : option string) (brief : bool)
with RequestRoot :=
| RootRead (root : string) (read : LiveRead)
| RootAsOf (root : string) (asOf : list LiveRead) (fields : option (list string)).

Inductive PatchOp :=
| Upsert (index : nat) (row : Row)
| RemoveRow (id : string)
| Meta (key : string) (value : Json).

(** [PageSchema]: [next] absent, null or a cursor; every other key is dropped. *)
Record Page := MkPage { rows : list Row; next : option (option string) }.
Definition as_row (j : Json) : option Row := match j with JObject o => Some o | _ => None end.
Definition next_of (o : Row) : option (option (option string)) :=
  match get o "next" with
  | None => Some None | Some JNull => Some (Some None) | Some (JString s) => Some (Some (Some s)) | _ => None
  end.
Definition pageOf (v : Json) : option Page :=
  match v with
  | JObject o =>
      match get o "rows" with
      | Some (JArray l) =>
          rs ← mapM as_row l; n ← next_of o; Some (MkPage rs n)
      | _ => None
      end
  | _ => None
  end.
(** [{ ...page, rows }]. *)
Definition page_json (p : Page) : Json :=
  JObject (("rows"%string, JArray (map JObject (rows p))) ::
    match next p with None => [] | Some None => [("next"%string, JNull)] | Some (Some s) => [("next"%string, JString s)] end).
Definition more (p : Page) : bool := match next p with Some (Some _) => true | _ => false end.

(** [x['id'] === id]. *)
Definition has_id (id : string) (x : Row) : bool := match get x "id" with Some (JString s) => String.eqb s id | _ => false end.
(** [rows.findIndex(f)], absent as [None]. *)
Fixpoint findIndex {A} (f : A -> bool) (l : list A) : option nat :=
  match l with [] => None | x :: l' => if f x then Some O else S <$> findIndex f l' end.
(** [rows.splice(i, 1)] and [rows.splice(i, 0, x)]. *)
Definition remove_at {A} (i : nat) (l : list A) : list A := take i l ++ skipn (S i) l.
Definition insert_at {A} (i : nat) (x : A) (l : list A) : list A := take i l ++ x :: skipn i l.

(** ** Judging a captured row. *)

(** [decidable]: relation, period and point predicates need rows or column forms an image does not carry. *)
Fixpoint decidable (p : Pred) : bool :=
  match p with
  | PAnd ps | POr ps => forallb decidable ps
  | PNot x => decidable x
  | POne _ _ _ | PMany _ _ _ _ | PCount _ _ _ _ | PAgg _ _ _ _ _ _ | PGeo _ _ _ | PPeriodContains _ _ | PPeriod _ _ _ _
  | PPath _ _ _ _ | PEach _ _ _ _ | PSearch _ _ | PSimilar _ _ _ => false
  | PConst _ => true
  | PCmp fd _ a => negb (has_dot fd) && negb match a with Op (Field g) => has_dot g | _ => false end
  | PLike fd _ | PText fd _ _ | PAge fd _ | PIn fd _ _ | PNull fd _ | PList fd _ _ | PJsonContains fd _ | PJsonIsEmpty fd _ =>
      negb (has_dot fd)
  end.

(** [jb]: keys by length, then by code unit. *)
Definition key_before (a b : string) : bool :=
  (String.length a <? String.length b)%nat || ((String.length a =? String.length b)%nat && str_ltb a b).
Fixpoint insert_key {A} (k : string) (v : A) (o : dict A) : dict A :=
  match o with [] => [(k, v)] | (k', v') :: o' => if key_before k' k then (k', v') :: insert_key k v o' else (k, v) :: o end.
Definition jb (o : dict Json) : Row := foldr (fun kv acc => insert_key (fst kv) (snd kv) acc) [] o.

(** [image]: each exclusive arc whose arm columns the row carries, under its field name as a [RecordRef]. *)
Definition arm_text (f : FieldInfo) (a : string) : string := f_column f +:+ "__" +:+ a.
Definition image_field (row : Row) (out : Row) (f : FieldInfo) : Row :=
  match f_arms f with
  | None => out
  | Some arms =>
      if existsb (fun a => negb (has_own row (arm_text f a))) arms then out
      else
        let given := fun a => match get row (arm_text f a) with Some JNull => false | _ => true end in
        set out (f_name f)
          match List.find given arms with
          | None => JNull
          | Some a => JObject (jb [("model"%string, JString a); ("id"%string, default JNull (get row (arm_text f a)))])
          end
  end.
Definition image (cat : Catalog) (model : string) (row : Row) : Row :=
  match get (models cat) model with
  | None => row
  | Some m => fold_left (image_field row) (values (mi_fields m)) row
  end.

(** [sortTargets] and [selectTargets] of query/engine.ts: the models a sort's related keys, and a selection's relations, read. *)
Definition sort_step (cat : Catalog) (m s : string) : string :=
  match (mi ← get (models cat) m; o ← get (mi_one mi) s; head (one_targets o)) with Some t => t | None => m end.
Fixpoint sort_walk (cat : Catalog) (m : string) (path : list string) (out : list string) : list string :=
  match path with [] => out | s :: path' => let m' := sort_step cat m s in sort_walk cat m' path' (out ++ [m']) end.
Definition sortTargets (cat : Catalog) (model : string) (order : option (list OrderKey)) : list string :=
  fold_left (fun out k => sort_walk cat model (removelast (split_char "." (ord_field k))) out) (default [] order) [].
Fixpoint selectTargets (cat : Catalog) (s : SelectIR) : list string :=
  match s with
  | Select _ _ relations =>
      concat (map (fun nr => relTargets cat (snd nr)) relations)
  end
with relTargets (cat : Catalog) (r : RelSelectIR) : list string :=
  match r with
  | RelSelect target targets targetSelects _ sel _ order _ _ =>
      let own := selectTargets cat sel in
      let named := match targetSelects with Some l => map (fun ts => (fst ts, selectTargets cat (snd ts))) l | None => [] end in
      concat (map (fun t => t :: sortTargets cat t order ++ default own (get named t)) (default [target] targets))
  end.

Inductive Judgement := Skip | Hit | Unknown.

(** [(captured.new ?? captured.old)?.[k]]. *)
Definition newest_image (c : Captured) : option Row := match c_new c with Some r => Some r | None => c_old c end.
Definition of_image (c : Captured) (k : string) : option Json := r ← newest_image c; get r k.
Definition is_string (v : option Json) (s : string) : bool := match v with Some (JString t) => String.eqb t s | _ => false end.
Definition nullish (v : option Json) : bool := match v with None | Some JNull => true | _ => false end.
(** [listed] of agent/schema.ts. *)
Definition listed (r : option Row) (member : string) (publicEnvoys : list string) (admin : bool) : bool :=
  match r with
  | None => false
  | Some r =>
      nullish (get r "parent") &&
      (if negb (nullish (get r "run")) then admin
       else if nullish (get r "integration") then is_string (get r "owner") member
       else includes publicEnvoys match get r "envoy" with Some (JString e) => e | _ => EmptyString end)
  end.

Section Decide.
(** [operandValue], as in [Eval]. *)
Context (operandValue : string -> Authority -> outcome Json).
(** The catalog, the names of the envoys declared public, whether an authority's member is staff ([isStaff]), and the
    models a read touches ([readTargets]). *)
Context (cat : Catalog) (publicEnvoys : list string) (isStaff : Authority -> bool) (readTargets : LiveRead -> Authority -> list string).

(** [member]: a read arm admits the image and the view's predicate holds of it. No predicate judged here is geographic. *)
Definition no_math (n : number) : number := n.
Definition holds (a : Authority) (b : Bindings) (scoped : bool) : string -> Pred -> Row -> outcome bool :=
  evaluate no_math no_math no_math no_math operandValue cat b (Some a) None scoped.
Definition arms_of (a : Authority) (model : string) (output : option string) : option (list Arm) :=
  if au_admin a then None
  else Some (default [] (m ← get (au_models a) model; paths ← get (ma_read m) (default "default"%string output); get paths model)).
Definition member (a : Authority) (model : string) (where_ : option Pred) (output : option string) (row : Row) (b : Bindings) : outcome bool :=
  admitted ← match arms_of a model output with
             | None => Ok true
             | Some arms => some (fun x => holds a b false model (arm_where x) row) arms
             end;
  if (admitted : bool) then match where_ with None => Ok true | Some w => holds a b true model w row end else Ok false.

(** The judgement of a read with rows of its own model. *)
Definition decide_rows (a : Authority) (model : string) (where_ : option Pred) (output : option string) (c : Captured) (b : Bindings) : Judgement :=
  if match where_ with Some w => negb (decidable w) | None => false end ||
     match arms_of a (c_model c) output with Some arms => existsb (fun x => negb (decidable (arm_where x))) arms | None => false end
  then Unknown
  else
    let hit := fun row => match row with None => Ok false | Some r => member a model where_ output (image cat (c_model c) r) b end in
    match hit (c_old c) with
    | Throw _ => Unknown
    | Ok true => Hit
    | Ok false => match hit (c_new c) with Throw _ => Unknown | Ok true => Hit | Ok false => Skip end
    end.
(** The base [decide]. *)
Definition decide_base (a : Authority) (r : LiveRead) (c : Captured) (b : Bindings) : Judgement :=
  match r with
  | StoreRead (Read l) =>
      if includes (sortTargets cat (lr_model l) (lr_order l)) (c_model c) then Unknown
      else if negb (String.eqb (c_model c) (lr_model l)) then
        (if includes (selectTargets cat (lr_select l)) (c_model c) then Unknown else Skip)
      else decide_rows a (lr_model l) (lr_where l) (lr_output l) c b
  | StoreRead (GetRead model _ id select _ _) =>
      if negb (String.eqb (c_model c) model) then (if includes (selectTargets cat select) (c_model c) then Unknown else Skip)
      else if String.eqb (c_id c) id then Hit else Skip
  | StoreRead (Aggregate _ model output where_ _) =>
      if negb (String.eqb (c_model c) model) then Skip else decide_rows a model where_ output c b
  | StoreRead (Similar model output _ _ _ where_ _) =>
      if negb (String.eqb (c_model c) model) then Skip else decide_rows a model where_ output c b
  | HistoryRead model _ id _ _ _ =>
      if negb (String.eqb (c_model c) model) then Skip else if String.eqb (c_id c) id then Hit else Skip
  | _ => Unknown
  end.

(** [LIVE_KINDS[kind].decide]; [value] is the view's current answer. *)
Definition decide_kind (a : Authority) (r : LiveRead) (value : option Json) (c : Captured) (b : Bindings) : Judgement :=
  match r with
  | RequestRead _ => if includes (readTargets r a) (c_model c) then Unknown else Skip
  | StoreRead (Similar model _ _ _ _ _ _) => if String.eqb (c_model c) model then Unknown else Skip
  | AfterRead _ _ _ => Unknown
  | TranscriptRead conversation _ _ from =>
      if String.eqb (c_model c) "sys_conversation" && is_string (of_image c "id") conversation then
        match value with
        | Some (JObject o) =>
            if match get o "status", of_image c "status" with
               | Some x, Some y => json_is x y | None, None => true | _, _ => false
               end then Skip else Hit
        | _ => Hit
        end
      else if String.eqb (c_model c) "sys_message" && is_string (of_image c "conversation") conversation &&
              match from with
              | None => true
              | Some n => js_le (JsNum n) match of_image c "seq" with Some x => Number (of_json x) | None => JsNaN end
              end
      then Hit else Skip
  | InboxRead m requests =>
      if (String.eqb (c_model c) "sys_notification" && is_string (of_image c "member") m) ||
         (requests && String.eqb (c_model c) "sys_user") then Hit else Skip
  | ConversationsRead m =>
      if negb (String.eqb (c_model c) "sys_conversation") then Skip
      else
        let row := newest_image c in
        if listed row m (if isStaff a then publicEnvoys else []) (au_admin a) then Hit
        else
          match row with
          | Some r0 => if nullish (get r0 "parent") && negb (nullish (get r0 "integration")) then Unknown else Skip
          | None => Skip
          end
  | RunsRead _ _ _ _ => Skip
  | r => decide_base a r c b
  end.
End Decide.

(** ** Placing and patching. *)

(** [sortable], [undefined] as [None]. *)
Definition sortable (v : option Json) : option js :=
  match v with
  | None => None
  | Some (JArray _) => None
  | Some (JObject o) => match get o "$dec" with Some (JString s) => Some (to_number s) | _ => None end
  | Some j => Some (of_json j)
  end.
Definition is_desc (d : Dir) : bool := match d with Desc => true | Asc => false end.
Definition is_null (x : js) : bool := match x with JsNull => true | _ => false end.
(** [before] of [place] over the sort keys; [None] when the order is the database's to tell. *)
Fixpoint before_keys (fields : dict FieldInfo) (keys : list OrderKey) (x y : Row) : option bool :=
  match keys with
  | [] => Some false
  | k :: keys' =>
      match ord_near k with
      | Some _ => None
      | None =>
          match sortable (get x (ord_field k)), sortable (get y (ord_field k)) with
          | Some p, Some q =>
              if js_is p q then before_keys fields keys' x y
              else if is_null p || is_null q then Some (Bool.eqb (is_null p) (is_desc (ord_dir k)))
              else if match get fields (ord_field k) with Some f => String.eqb (f_pg f) "text" | None => false end then None
              else Some (Bool.eqb (js_lt p q) (negb (is_desc (ord_dir k))))
          | _, _ => None
          end
      end
  end.
Definition ID_KEY : OrderKey := MkOrder "id" Asc None.
Definition before (fields : dict FieldInfo) (l : ListRead) : Row -> Row -> option bool :=
  before_keys fields (default [] (lr_order l) ++ [ID_KEY]).
(** The loop of [place]. *)
Fixpoint place_by (bf : Row -> Row -> option bool) (rs : list Row) (row : Row) : option nat :=
  match rs with
  | [] => Some O
  | y :: rs' => match bf row y with None => None | Some true => Some O | Some false => S <$> place_by bf rs' row end
  end.
(** [rows.findIndex(f)], or the end. *)
Definition find_place (f : Row -> bool) (rs : list Row) : nat := default (length rs) (findIndex f rs).
(** A text the reads of these views always carry; [String] of anything else is no date and no id. *)
Definition text_at (r : Row) (k : string) : string := match get r k with Some (JString s) => s | _ => EmptyString end.
(** [newest]: by time descending, then by id descending. *)
Definition newest_before (row other : Row) : bool :=
  match Date_parse (text_at other "at"), Date_parse (text_at row "at") with
  | Some v, Some t => (v <? t) || ((v =? t) && str_ltb (text_at other "id") (text_at row "id"))
  | _, _ => false
  end.
Definition newest (rs : list Row) (row : Row) : nat := find_place (newest_before row) rs.
Definition seq_of (r : Row) : js := match get r "seq" with Some x => Number (of_json x) | None => JsNaN end.
Definition by_seq (rs : list Row) (row : Row) : nat := find_place (fun other => js_lt (seq_of row) (seq_of other)) rs.
Definition same_member (k : string) (x y : Row) : bool :=
  match get x k, get y k with Some u, Some v => json_is u v | None, None => true | _, _ => false end.

Definition LIMIT_ALL : Z := 50000.
Definition INBOX_LIMIT : Z := 200.
Definition CONVERSATIONS : Z := 100.
(** [LIVE_KINDS[kind].limit]. *)
Definition limit_of (r : LiveRead) : Z :=
  match r with
  | StoreRead (Read l) => match lr_page l with Limit n _ => n | AllRows => LIMIT_ALL end
  | InboxRead _ _ => INBOX_LIMIT
  | ConversationsRead _ => CONVERSATIONS
  | _ => LIMIT_ALL
  end.

Section Patch.
(** [Equal.equals] of two encoded JSON values, of the Effect library. *)
Context (equals : Json -> Json -> bool).
Context (cat : Catalog).

Definition same (a : option Json) (b : Json) : bool := match a with None => false | Some a => equals a b end.
(** [storeSync(exposureOf(cat, model)).model.fields]. *)
Definition fields_of (model : string) : outcome (dict FieldInfo) := e ← exposureOf cat model; Ok (mi_fields (e_model e)).
(** [LIVE_KINDS[kind].place]. *)
Definition place (r : LiveRead) (rs : list Row) (row : Row) : outcome (option nat) :=
  match r with
  | StoreRead (Read l) => fs ← fields_of (lr_model l); Ok (place_by (before fs l) rs row)
  | TranscriptRead _ _ _ _ => Ok (Some (by_seq rs row))
  | InboxRead _ _ | ConversationsRead _ => Ok (Some (newest rs row))
  | _ => Ok None
  end.
(** [LIVE_KINDS[kind].kept]. *)
Definition kept_key (fs : dict FieldInfo) (c : Captured) (k : OrderKey) : bool :=
  let head := head_segment (ord_field k) in
  let col := match get fs head with Some f => f_column f | None => head end in
  match c_old c, c_new c with Some o, Some n => same (get o col) (default JNull (get n col)) | _, _ => false end.
Definition kept (r : LiveRead) (c : Captured) (old row : Row) : outcome bool :=
  match r with
  | StoreRead (Read l) => fs ← fields_of (lr_model l); Ok (forallb (kept_key fs c) (default [] (lr_order l)))
  | TranscriptRead _ _ _ _ => Ok (same_member "seq" old row)
  | InboxRead _ _ | ConversationsRead _ => Ok (same_member "at" old row)
  | _ => Ok false
  end.

Definition is_listed (r : LiveRead) : bool :=
  match r with StoreRead (Read _) | TranscriptRead _ _ _ _ | InboxRead _ _ | ConversationsRead _ => true | _ => false end.
(** [x['id']]. *)
Definition key (x : Row) : option Json := get x "id".
(** [rows[i]]. *)
Definition row_at (rs : list Row) (i : nat) : option Row := rs !! i.
(** The part of [apply] over a page: the ops and the rows after, or [None] for a re-read. *)
Definition apply_page (r : LiveRead) (page : Page) (c : Captured) (row : option Row) : outcome (option (list PatchOp * Page)) :=
  let rs := rows page in
  let i := findIndex (has_id (c_id c)) rs in
  let done := fun ops rs' => Ok (Some (ops, MkPage rs' (next page))) in
  match row with
  | None =>
      if more page then Ok None
      else match i with None => done [] rs | Some i => done [RemoveRow (c_id c)] (remove_at i rs) end
  | Some row =>
      keep ← match i ≫= row_at rs with Some old => kept r c old row | None => Ok false end;
      match keep, i with
      | true, Some i =>
          if match row_at rs i with Some old => same (Some (JObject old)) (JObject row) | None => false end then done [] rs else done [Upsert i row] (<[i := row]> rs)
      | _, _ =>
          let last_ := last rs ≫= key in
          let rs' := match i with Some i => remove_at i rs | None => rs end in
          at_ ← place r rs' row;
          match at_ with
          | None => Ok None
          | Some at_ =>
              if more page then
                if (at_ =? length rs')%nat then match i with None => done [] rs | Some _ => Ok None end
                else
                  match i with
                  | None => Ok None
                  | Some _ =>
                      let rs'' := insert_at at_ row rs' in
                      match last rs'' ≫= key, last_ with
                      | Some x, Some y => if json_is x y then done [Upsert at_ row] rs'' else Ok None
                      | None, None => done [Upsert at_ row] rs''
                      | _, _ => Ok None
                      end
                  end
              else if limit_of r <? Z.of_nat (length rs') + 1 then Ok None
              else done [Upsert at_ row] (insert_at at_ row rs')
          end
      end
  end.
(** [apply]: the ops that turn the working value into the one after, or [None] when only a re-read is exact. *)
Definition apply (r : LiveRead) (work : Json) (c : Captured) (row : option Row) : outcome (option (list PatchOp * Json)) :=
  match r with
  | TranscriptRead _ _ _ _ =>
      if String.eqb (c_model c) "sys_conversation" then
        match work, (n ← c_new c; get n "status") with
        | JObject o, Some status => Ok (Some ([Meta "status" status], JObject (set o "status" status)))
        | _, _ => Ok None
        end
      else
        match pageOf work with
        | None => Ok None
        | Some page => res ← apply_page r page c row; Ok (option_map (fun op => (fst op, page_json (snd op))) res)
        end
  | StoreRead (GetRead _ _ _ _ _ _) =>
      match row with
      | None => Ok (Some match work with JNull => ([], JNull) | _ => ([RemoveRow (c_id c)], JNull) end)
      | Some row => Ok (Some (if same (Some work) (JObject row) then ([], work) else ([Upsert 0 row], JObject row)))
      end
  | _ =>
      if negb (is_listed r) then Ok None
      else
        match pageOf work with
        | None => Ok None
        | Some page => res ← apply_page r page c row; Ok (option_map (fun op => (fst op, page_json (snd op))) res)
        end
  end.

(** The rows of one flush applied in turn: the loop over a view's deltas. *)
Fixpoint apply_all (r : LiveRead) (work : Json) (rs : list (Captured * option Row)) : outcome (option (list PatchOp * Json)) :=
  match rs with
  | [] => Ok (Some ([], work))
  | (c, row) :: rs' =>
      o ← apply r work c row;
      match o with
      | None => Ok None
      | Some (ops, work') =>
          res ← apply_all r work' rs'; Ok (option_map (fun op => (ops ++ fst op, snd op)) res)
      end
  end.
End Patch.

(** ** The page client: [patched]. *)

(** Whether a row stays where an op drops the row of identity [id]. *)
Definition opt_is (a b : option Json) : bool := match a, b with Some x, Some y => json_is x y | None, None => true | _, _ => false end.
Definition stays (id : option Json) (j : Json) : bool := match j with JObject o => negb (opt_is (get o "id") id) | _ => true end.
(** The state of [patched]'s loop: the page's members, if the value is a page, and the rows. *)
Definition patch_op (st : option Row * list Json) (op : PatchOp) : option (option Row * list Json) :=
  let '(page, rs) := st in
  match op with
  | Meta k v => match page with None => None | Some p => Some (Some (set p k v), rs) end
  | RemoveRow id => Some (page, List.filter (stays (Some (JString id))) rs)
  | Upsert i row =>
      let rest := List.filter (stays (get row "id")) rs in
      if (length rest <? i)%nat then None else Some (page, insert_at i (JObject row) rest)
  end.
Fixpoint patch_ops (st : option Row * list Json) (ops : list PatchOp) : option (option Row * list Json) :=
  match ops with [] => Some st | op :: ops' => st' ← patch_op st op; patch_ops st' ops' end.
Definition opened (v : Json) : option Row * list Json :=
  match v with
  | JObject o => match get o "rows" with Some (JArray l) => (Some o, l) | _ => (None, [v]) end
  | JNull => (None, [])
  | _ => (None, [v])
  end.
Definition closed (st : option Row * list Json) : option Json :=
  match st with
  | (Some p, rs) => Some (JObject (set p "rows" (JArray rs)))
  | (None, []) => Some JNull
  | (None, [v]) => Some v
  | (None, _) => None
  end.
Definition patched (v : option Json) (ops : list PatchOp) : option Json :=
  v0 ← v; st ← patch_ops (opened v0) ops; closed st.
End Views.

(** ** A patch does on the client what it did in the hub. *)
Module PatchFacts.
Import Views.

(** Every row of a page has a text id of its own. *)
Definition ids_ok (rs : list Row) : Prop := Forall (fun x => exists i, key x = Some (JString i)) rs /\ NoDup (map key rs).

Lemma has_id_spec (x : Row) (id : string) : has_id id x = true <-> key x = Some (JString id).
Proof.
  unfold has_id, key. destruct (get x "id") as [[| | |s| |]|]; try (split; [done|by intros [=]]).
  rewrite String.eqb_eq. split; [by intros ->|by intros [= ->]].
Qed.
Lemma stays_spec (id : string) (x : Row) : stays (Some (JString id)) (JObject x) = negb (has_id id x).
Proof. unfold stays, opt_is, has_id. by destruct (get x "id") as [[]|]. Qed.

Lemma findIndex_some {A} (f : A -> bool) (l : list A) (i : nat) : findIndex f l = Some i ->
  exists x, l !! i = Some x /\ f x = true /\ (i < length l)%nat /\ l = take i l ++ x :: skipn (S i) l.
Proof.
  revert i. induction l as [|x l IH]; intros i; cbn [findIndex]; [done|]. destruct (f x) eqn:E.
  - intros [= <-]. exists x. cbn. split_and!; [done|done|lia|done].
  - destruct (findIndex f l) as [j|]; [|done]. intros [= <-]. destruct (IH j eq_refl) as (y & H1 & H2 & H3 & H4). exists y.
    cbn. split_and!; [done|done|lia|by rewrite H4 at 1].
Qed.
Lemma findIndex_none {A} (f : A -> bool) (l : list A) : findIndex f l = None <-> forall x, x ∈ l -> f x = false.
Proof.
  induction l as [|x l IH]; cbn [findIndex]; [split; [intros _ x H; by apply elem_of_nil in H|done]|].
  destruct (f x) eqn:E; [split; [done|intros H; rewrite H in E; [done|by left]]|].
  destruct (findIndex f l); cbn; split; try done.
  - intros H. exfalso. assert (Some n = None) as ?; [|done]. apply IH. intros y Hy. apply H. by right.
  - intros _ y [->|Hy]%elem_of_cons; [done|]. by apply IH.
Qed.

(** The rows that are not row [id], where [i] is its index. *)
Definition others (i : option nat) (rs : list Row) : list Row := match i with Some i => remove_at i rs | None => rs end.
Lemma others_filter (rs : list Row) (id : string) : ids_ok rs ->
  others (findIndex (has_id id) rs) rs = List.filter (fun x => negb (has_id id x)) rs.
Proof.
  intros [_ Hnd]. induction rs as [|x rs IH]; [done|]. apply NoDup_cons in Hnd as [Hx Hnd]. cbn [findIndex List.filter].
  destruct (has_id id x) eqn:E; cbn [negb].
  - cbn [others remove_at take skipn app]. symmetry. assert (forall y, y ∈ rs -> has_id id y = false) as H.
    { intros y Hy. destruct (has_id id y) eqn:Ey; [|done]. exfalso. apply Hx. apply has_id_spec in E, Ey. rewrite E, <- Ey.
      by apply list_elem_of_fmap_2. }
    clear - H. induction rs as [|y rs IH]; [done|]. cbn [List.filter]. rewrite (H y) by (by left). cbn. f_equal. apply IH.
    intros z Hz. apply H. by right.
  - rewrite <- (IH Hnd). by destruct (findIndex (has_id id) rs).
Qed.
Lemma filter_map_stays (rs : list Row) (id : string) :
  List.filter (stays (Some (JString id))) (map JObject rs) = map JObject (List.filter (fun x => negb (has_id id x)) rs).
Proof. induction rs as [|x rs IH]; [done|]. cbn [map List.filter]. rewrite stays_spec. by destruct (has_id id x); cbn [negb map]; rewrite IH. Qed.
Lemma filter_stays (rs : list Row) (id : string) : ids_ok rs ->
  List.filter (stays (Some (JString id))) (map JObject rs) = map JObject (others (findIndex (has_id id) rs) rs).
Proof. intros H. by rewrite filter_map_stays, others_filter. Qed.

Lemma others_sub (i : option nat) (rs : list Row) (x : Row) : x ∈ others i rs -> x ∈ rs.
Proof.
  destruct i as [i|]; [|done]. unfold others, remove_at. intros Hx. rewrite elem_of_app in Hx.
  rewrite <- (take_drop i rs), elem_of_app. destruct Hx as [H|H]; [by left|right]. destruct (lookup_lt_is_Some_2 rs i) as [y Hy].
  { apply Nat.nle_gt. intros Hle. rewrite drop_ge in H by lia. by apply elem_of_nil in H. }
  rewrite (drop_S _ y) by done. by right.
Qed.
Lemma others_ok (rs : list Row) (id : string) : ids_ok rs ->
  ids_ok (others (findIndex (has_id id) rs) rs) /\ Some (JString id) ∉ map key (others (findIndex (has_id id) rs) rs).
Proof.
  intros Hok. pose proof Hok as [Hall Hnd]. split.
  - split; [apply Forall_forall; intros x Hx; rewrite Forall_forall in Hall; by eapply Hall, others_sub|].
    rewrite others_filter by done. clear Hok Hall. induction rs as [|x rs IH]; [done|]. apply NoDup_cons in Hnd as [Hx Hnd].
    cbn [List.filter]. destruct (has_id id x); cbn [negb]; [by apply IH|]. cbn [map]. apply NoDup_cons. split; [|by apply IH].
    intros (y & E & Hy)%list_elem_of_fmap. apply Hx. rewrite E. apply list_elem_of_fmap_2.
    apply list_elem_of_In, List.filter_In in Hy as [Hy _]. by apply list_elem_of_In.
  - rewrite others_filter by done. intros (y & E & Hy)%list_elem_of_fmap. apply list_elem_of_In, List.filter_In in Hy as [_ Hy].
    symmetry in E. apply has_id_spec in E. by rewrite E in Hy.
Qed.

Lemma insert_ok (rs : list Row) (i : nat) (x : Row) (id : string) :
  ids_ok rs -> Some (JString id) ∉ map key rs -> key x = Some (JString id) -> ids_ok (insert_at i x rs).
Proof.
  intros [Hall Hnd] Hn Hx. unfold insert_at. assert (take i rs ++ x :: skipn i rs ≡ₚ x :: rs) as P.
  { rewrite <- Permutation_middle. by rewrite take_drop. }
  split; [rewrite P; constructor; [by exists id|done]|]. rewrite P. cbn [map]. apply NoDup_cons. by rewrite Hx.
Qed.
Lemma insert_remove (rs : list Row) (i : nat) (x : Row) : (i < length rs)%nat -> insert_at i x (remove_at i rs) = <[i := x]> rs.
Proof.
  intros H. unfold insert_at, remove_at. rewrite insert_take_drop by done.
  rewrite take_app_le, take_take, Nat.min_id by (rewrite length_take; lia).
  rewrite drop_app_ge by (rewrite length_take; lia). rewrite length_take, Nat.min_l by lia. by rewrite Nat.sub_diag.
Qed.
Lemma length_insert_at (i : nat) (x : Row) (rs : list Row) : length (insert_at i x rs) = S (length rs).
Proof. unfold insert_at. rewrite <- (take_drop i rs) at 3. rewrite !length_app. cbn [length]. lia. Qed.
Lemma length_remove_at (i : nat) (rs : list Row) : (i < length rs)%nat -> length rs = S (length (remove_at i rs)).
Proof. intros H. unfold remove_at. rewrite length_app, length_take, length_skipn. lia. Qed.
Lemma insert_at_map (i : nat) (x : Row) (rs : list Row) : insert_at i (JObject x) (map JObject rs) = map JObject (insert_at i x rs).
Proof. unfold insert_at. by rewrite map_app, firstn_map, skipn_map. Qed.
Lemma place_by_le (bf : Row -> Row -> option bool) (rs : list Row) (row : Row) (n : nat) : place_by bf rs row = Some n -> (n <= length rs)%nat.
Proof.
  revert n. induction rs as [|y rs IH]; intros n; cbn [place_by]; [intros [= <-]; cbn; lia|].
  destruct (bf row y) as [[]|]; [intros [= <-]; lia| |done]. destruct (place_by bf rs row); [|done]. intros [= <-].
  specialize (IH _ eq_refl). cbn. lia.
Qed.
Lemma find_place_le (f : Row -> bool) (rs : list Row) : (find_place f rs <= length rs)%nat.
Proof. unfold find_place. destruct (findIndex f rs) as [i|] eqn:E; cbn; [|lia]. apply findIndex_some in E as (? & _ & _ & ? & _). lia. Qed.
Lemma place_le (cat : Catalog) (r : LiveRead) (rs : list Row) (row : Row) (n : nat) :
  place cat r rs row = Ok (Some n) -> (n <= length rs)%nat.
Proof.
  unfold place. destruct r as [[l| | |]| | | | | | |]; try done; try (intros [= <-]; apply find_place_le).
  destruct (fields_of cat (lr_model l)); [|done]. cbn. intros [= H]. by eapply place_by_le.
Qed.

Section Apply.
Context (equals : Json -> Json -> bool) (cat : Catalog) (r : LiveRead).

(** The ways a page takes one resolved row. *)
Inductive applied (page : Page) (c : Captured) : option Row -> list PatchOp -> list Row -> Prop :=
| applied_absent : more page = false -> findIndex (has_id (c_id c)) (rows page) = None -> applied page c None [] (rows page)
| applied_removed i : more page = false -> findIndex (has_id (c_id c)) (rows page) = Some i ->
    applied page c None [RemoveRow (c_id c)] (remove_at i (rows page))
| applied_kept i old row : findIndex (has_id (c_id c)) (rows page) = Some i -> rows page !! i = Some old ->
    kept equals cat r c old row = Ok true -> applied page c (Some row) [Upsert i row] (<[i := row]> (rows page))
| applied_same i old row : findIndex (has_id (c_id c)) (rows page) = Some i -> rows page !! i = Some old ->
    kept equals cat r c old row = Ok true -> equals (JObject old) (JObject row) = true -> applied page c (Some row) [] (rows page)
| applied_beyond row : more page = true -> findIndex (has_id (c_id c)) (rows page) = None ->
    place cat r (rows page) row = Ok (Some (length (rows page))) -> applied page c (Some row) [] (rows page)
| applied_moved i row n rs' : more page = true -> findIndex (has_id (c_id c)) (rows page) = Some i ->
    rs' = remove_at i (rows page) -> place cat r rs' row = Ok (Some n) -> (n < length rs')%nat ->
    opt_is (last (insert_at n row rs') ≫= key) (last (rows page) ≫= key) = true ->
    applied page c (Some row) [Upsert n row] (insert_at n row rs')
| applied_placed row n rs' : more page = false -> rs' = others (findIndex (has_id (c_id c)) (rows page)) (rows page) ->
    place cat r rs' row = Ok (Some n) -> Z.of_nat (length rs') + 1 <= limit_of r ->
    applied page c (Some row) [Upsert n row] (insert_at n row rs').

Lemma apply_page_applied (page : Page) (c : Captured) (row : option Row) (ops : list PatchOp) (page' : Page) :
  apply_page equals cat r page c row = Ok (Some (ops, page')) ->
  next page' = next page /\ applied page c row ops (rows page').
Proof.
  unfold apply_page. destruct row as [row|].
  2:{ destruct (more page) eqn:Em; [done|]. destruct (findIndex _ _) as [i|] eqn:Ei; intros [= <- <-]; cbn [rows next]; (split; [done|]);
        [by apply applied_removed|by apply applied_absent]. }
  destruct (findIndex (has_id (c_id c)) (rows page)) as [i|] eqn:Ei.
  - destruct (findIndex_some _ _ _ Ei) as (old & Hold & _ & _ & _). cbn [mbind option_bind]. change (rows page !! i) with (row_at (rows page) i) in Hold.
    rewrite Hold. change (row_at (rows page) i) with (rows page !! i) in Hold.
    destruct (kept equals cat r c old row) as [[]|] eqn:Ek; cbn [mbind outcome_bind]; [| |done].
    + cbn [same]. destruct (equals (JObject old) (JObject row)) eqn:Ee; intros [= <- <-]; cbn [rows next]; (split; [done|]).
      * by apply (applied_same page c i old).
      * by apply (applied_kept page c i old).
    + destruct (place cat r (remove_at i (rows page)) row) as [[n|]|] eqn:Ep; cbn [mbind outcome_bind]; [|done|done].
      destruct (more page) eqn:Em.
      * destruct (n =? length (remove_at i (rows page)))%nat eqn:En; [done|]. apply Nat.eqb_neq in En.
        pose proof (place_le _ _ _ _ _ Ep) as Hle. 
        destruct (last (insert_at n row (remove_at i (rows page))) ≫= key) as [u|] eqn:Eu,
          (last (rows page) ≫= key) as [v|] eqn:Ev; try done.
        -- destruct (json_is u v) eqn:Euv; [|done]. intros [= <- <-]; cbn [rows next]. split; [done|].
           eapply applied_moved; try done; [lia|]. by rewrite Eu, Ev.
        -- intros [= <- <-]; cbn [rows next]. split; [done|]. eapply applied_moved; try done; [lia|]. by rewrite Eu, Ev.
      * destruct (limit_of r <? _) eqn:El; [done|]. intros [= <- <-]; cbn [rows next]. split; [done|]. apply Z.ltb_ge in El.
        eapply applied_placed; [done| |exact Ep|done]. by rewrite Ei.
  - cbn [mbind option_bind outcome_bind].
    destruct (place cat r (rows page) row) as [[n|]|] eqn:Ep; cbn [mbind outcome_bind]; [|done|done].
    destruct (more page) eqn:Em.
    + destruct (n =? length (rows page))%nat eqn:En; [|done]. apply Nat.eqb_eq in En as ->. intros [= <- <-]; cbn [rows next]. split; [done|].
      by apply applied_beyond.
    + destruct (limit_of r <? _) eqn:El; [done|]. intros [= <- <-]; cbn [rows next]. split; [done|]. apply Z.ltb_ge in El.
      eapply applied_placed; [done| |exact Ep|done]. by rewrite Ei.
Qed.

(** A resolved row is the captured row's own. *)
Definition own_row (c : Captured) (row : option Row) : Prop := forall x, row = Some x -> key x = Some (JString (c_id c)).

(** The client's rows after the ops are the hub's. *)
Lemma applied_client (page : Page) (c : Captured) (row : option Row) (ops : list PatchOp) (rs' : list Row) (p : option Row) :
  applied page c row ops rs' -> ids_ok (rows page) -> own_row c row ->
  patch_ops (p, map JObject (rows page)) ops = Some (p, map JObject rs') /\ ids_ok rs'.
Proof.
  intros H Hok Hown. pose proof (filter_stays (rows page) (c_id c) Hok) as Hf.
  destruct (others_ok (rows page) (c_id c) Hok) as [Hoo Hfresh].
  assert (forall x n rs, row = Some x -> rs = others (findIndex (has_id (c_id c)) (rows page)) (rows page) -> (n <= length rs)%nat ->
    patch_ops (p, map JObject (rows page)) [Upsert n x] = Some (p, map JObject (insert_at n x rs)) /\ ids_ok (insert_at n x rs)) as Hup.
  { intros x n rs Ex -> Hn. specialize (Hown x Ex). split; [|by eapply insert_ok].
    cbn [patch_ops patch_op mbind option_bind]. fold (key x). rewrite Hown, Hf.
    rewrite (proj2 (Nat.ltb_ge _ _)) by (rewrite length_map; exact Hn). by rewrite insert_at_map. }
  destruct H as [_ _|i _ Ei|i old x Ei Hi _|i old x _ _ _ _|x _ _ _|i x n rs Hm Ei -> Hp Hn _|x n rs Hm -> Hp _]; try done.
  - cbn [patch_ops patch_op mbind option_bind]. rewrite Hf, Ei. split; [done|]. by rewrite Ei in Hoo.
  - destruct (findIndex_some _ _ _ Ei) as (_ & _ & _ & Hlt & _). rewrite <- insert_remove by done.
    apply (Hup x i); [done|by rewrite Ei|]. unfold remove_at. rewrite length_app, length_take, length_skipn. lia.
  - apply (Hup x n); [done|by rewrite Ei|lia].
  - apply (Hup x n); [done|done|]. by eapply place_le.
Qed.

Lemma mapM_as_row (l : list Json) (rs : list Row) : mapM as_row l = Some rs <-> l = map JObject rs.
Proof.
  revert rs. induction l as [|j l IH]; intros rs; cbn [mapM].
  - split; [by intros [= <-]|]. by destruct rs.
  - destruct j as [| | | | |o]; cbn; try (split; [done|]; by destruct rs).
    destruct (mapM as_row l) as [rs'|]; cbn.
    + split; [intros [= <-]; cbn; f_equal; by apply IH|]. destruct rs as [|o' rs]; [done|]. intros [= -> E].
      f_equal. f_equal. specialize (IH rs). destruct IH as [_ IH]. specialize (IH E). congruence.
    + split; [done|]. destruct rs as [|o' rs]; [done|]. intros [= -> E]. destruct (IH rs) as [_ IH']. specialize (IH' E). done.
Qed.
Lemma pageOf_page (p : Page) : pageOf (page_json p) = Some p.
Proof.
  unfold page_json. cbn [pageOf get String.eqb Ascii.eqb Bool.eqb]. rewrite (proj2 (mapM_as_row _ (rows p)) eq_refl). cbn.
  destruct p as [rs [[s|]|]]; done.
Qed.
Lemma pageOf_set (o : Row) (p : Page) (rs : list Row) :
  pageOf (JObject o) = Some p -> pageOf (JObject (set o "rows" (JArray (map JObject rs)))) = Some (MkPage rs (next p)).
Proof.
  unfold pageOf. destruct (get o "rows") as [[| | | |l|]|]; try done. destruct (mapM as_row l); [|done]. cbn.
  rewrite get_set_eq, (proj2 (mapM_as_row _ rs) eq_refl). unfold next_of. rewrite get_set_ne by done. cbn.
  destruct (get o "next") as [[]|]; try done; by intros [= <-].
Qed.
Lemma pageOf_other (o : Row) (k : string) (v : Json) : k <> "rows"%string -> k <> "next"%string ->
  pageOf (JObject (set o k v)) = pageOf (JObject o).
Proof. intros H1 H2. unfold pageOf, next_of. by rewrite !get_set_ne. Qed.

Lemma patch_ops_app (st : option Row * list Json) (a b : list PatchOp) :
  patch_ops st (a ++ b) = st' ← patch_ops st a; patch_ops st' b.
Proof. revert st. induction a as [|op a IH]; intros st; [done|]. cbn [app patch_ops]. destruct (patch_op st op); cbn; [apply IH|done]. Qed.

(** The client's page members and rows show the page the hub holds. *)
Definition shows (st : option Row * list Json) (w : Json) : Prop :=
  exists o pg, st = (Some o, map JObject (rows pg)) /\ pageOf w = Some pg /\
    (exists pg0, pageOf (JObject o) = Some pg0 /\ next pg0 = next pg) /\ ids_ok (rows pg).

Lemma apply_shows (st : option Row * list Json) (w w' : Json) (c : Captured) (row : option Row) (ops : list PatchOp) :
  is_listed r = true -> shows st w -> own_row c row -> apply equals cat r w c row = Ok (Some (ops, w')) ->
  exists st', patch_ops st ops = Some st' /\ shows st' w'.
Proof.
  intros Hl (o & pg & -> & Hw & (pg0 & Ho & Hn) & Hok) Hown Ha.
  assert (forall res, (res0 ← apply_page equals cat r pg c row; Ok (option_map (fun op => (fst op, page_json (snd op))) res0)) = Ok res ->
    res = Some (ops, w') -> exists st', patch_ops (Some o, map JObject (rows pg)) ops = Some st' /\ shows st' w') as Hpage.
  { intros res. destruct (apply_page equals cat r pg c row) as [[[ops0 pg']|]|] eqn:Ep; cbn; [|by intros [= <-]|done].
    intros [= <-] [= <- <-]. apply apply_page_applied in Ep as [Hn' Ep].
    destruct (applied_client pg c row ops0 (rows pg') (Some o) Ep Hok Hown) as [Hp Hok']. rewrite Hp. eexists. split; [done|].
    exists o, pg'. split_and!; [done|by rewrite pageOf_page| |done]. exists pg0. by rewrite Hn'. }
  unfold apply in Ha. destruct r as [[l| | |]| | | | | | |]; try done.
  - cbn [is_listed negb] in Ha. rewrite Hw in Ha. by eapply Hpage.
  - destruct (String.eqb (c_model c) "sys_conversation"); [|rewrite Hw in Ha; by eapply Hpage].
    destruct w as [| | | | |ow]; try done. destruct (n ← c_new c; get n "status") as [status|]; [|done]. injection Ha as <- <-.
    eexists. cbn [patch_ops patch_op mbind option_bind]. split; [reflexivity|]. eexists _, pg. split; [reflexivity|].
    rewrite !pageOf_other by done. split_and!; [done| |done]. by exists pg0.
  - cbn [is_listed negb] in Ha. rewrite Hw in Ha. by eapply Hpage.
  - cbn [is_listed negb] in Ha. rewrite Hw in Ha. by eapply Hpage.
Qed.

(** A patch is the same change on both sides of the stream: when the hub turns a view's rows through the resolved rows of
    a flush and sends the ops, the page client that applies those ops to the value it holds gets a value with the very
    rows, in the same order, and the same cursor as the hub's own; no op is rejected. *)
Theorem patch_matches (v w : Json) (pg : Page) (changes : list (Captured * option Row)) (ops : list PatchOp)
    (Hr : is_listed r = true) (Hv : pageOf v = Some pg) (Hids : ids_ok (rows pg))
    (Hown : Forall (fun cr => own_row (fst cr) (snd cr)) changes)
    (Ha : apply_all equals cat r v changes = Ok (Some (ops, w))) :
  exists v', patched (Some v) ops = Some v' /\ pageOf v' = pageOf w.
Proof.
  assert (forall changes st v ops w, shows st v -> Forall (fun cr => own_row (fst cr) (snd cr)) changes ->
    apply_all equals cat r v changes = Ok (Some (ops, w)) -> exists st', patch_ops st ops = Some st' /\ shows st' w) as H.
  { clear - Hr. induction changes as [|[c row] changes IH]; intros st v ops w Hs Hall Ha; cbn [apply_all] in Ha.
    - injection Ha as <- <-. by exists st.
    - apply Forall_cons in Hall as [Hc Hall]. destruct (apply equals cat r v c row) as [[[ops1 v1]|]|] eqn:E1; cbn in Ha; [|done|done].
      destruct (apply_all equals cat r v1 changes) as [[[ops2 v2]|]|] eqn:E2; cbn in Ha; [|done|done]. injection Ha as <- <-.
      destruct (apply_shows _ _ _ _ _ _ Hr Hs Hc E1) as (st1 & P1 & S1). destruct (IH _ _ _ _ S1 Hall E2) as (st2 & P2 & S2).
      exists st2. rewrite patch_ops_app, P1. done. }
  destruct v as [| | | | |o]; try done.
  assert (opened (JObject o) = (Some o, map JObject (rows pg))) as Ho.
  { unfold pageOf in Hv. unfold opened. destruct (get o "rows") as [[| | | |l|]|]; try done.
    destruct (mapM as_row l) as [rs|] eqn:El; [|done]. cbn in Hv. destruct (next_of o); [|done]. injection Hv as <-. cbn [rows].
    by apply mapM_as_row in El as ->. }
  destruct (H changes (opened (JObject o)) (JObject o) ops w) as (st' & Hp & o' & pg' & -> & Hw & (pg0 & Hpg0 & Hn) & _).
  - exists o, pg. split_and!; [done|done| |done]. by exists pg.
  - done.
  - done.
  - exists (JObject (set o' "rows" (JArray (map JObject (rows pg'))))). unfold patched. cbn [mbind option_bind]. rewrite Hp. cbn.
    split; [done|]. refine (eq_trans (pageOf_set o' pg0 (rows pg') Hpg0) _). rewrite Hw, Hn. by destruct pg'.
Qed.
End Apply.
End PatchFacts.

(** ** A patched page is the page a re-read gives. *)
Module PageFacts.
Import Views PatchFacts.

Section Pages.
Context (equals : Json -> Json -> bool) (cat : Catalog) (r : LiveRead).
(** The database's order on the rows of the read, and the cursor of a row: its sort keys. *)
Context (lt : Row -> Row -> Prop) (cursor : Row -> string).
(** How the database compares two rows in one sort key, ascending: the column's values, or the distances of a [near] key. *)
Context (column : OrderKey -> Row -> Row -> comparison).
(** The rows the read returns. *)
Context (good : Row -> Prop).

(** [before] of the read's kind. *)
Definition row_before : outcome (Row -> Row -> option bool) :=
  match r with
  | StoreRead (Read l) => fs ← fields_of cat (lr_model l); Ok (before fs l)
  | TranscriptRead _ _ _ _ => Ok (fun x y => Some (js_lt (seq_of x) (seq_of y)))
  | _ => Ok (fun x y => Some (newest_before x y))
  end.

(** [ORDER BY]: the first key in which two rows differ decides, in its direction. *)
Definition compares (k : OrderKey) (x y : Row) : comparison :=
  match ord_dir k with Asc => column k x y | Desc => CompOpp (column k x y) end.
Inductive sorts : list OrderKey -> Row -> Row -> Prop :=
| sorts_here k ks x y : compares k x y = Lt -> sorts (k :: ks) x y
| sorts_next k ks x y : compares k x y = Eq -> sorts ks x y -> sorts (k :: ks) x y.
(** The order of each kind of read: a list's keys and then the id; a transcript's sequence; the newest first, then by id. *)
Definition sorts_before (x y : Row) : Prop :=
  match r with
  | StoreRead (Read l) => sorts (default [] (lr_order l) ++ [MkOrder "id" Asc None]) x y
  | TranscriptRead _ _ _ _ => exists p q, get x "seq" = Some (JNumber p) /\ get y "seq" = Some (JNumber q) /\ (p < q)%Q
  | InboxRead _ _ | ConversationsRead _ =>
      exists t u, Date_parse (text_at x "at") = Some t /\ Date_parse (text_at y "at") = Some u /\
        (u < t \/ u = t /\ str_ltb (text_at y "id") (text_at x "id") = true)
  | _ => False
  end.

(** A number as a row carries it: itself, or the text of a decimal, which is read to binary64. *)
Inductive numeric : Json -> number -> Prop :=
| numeric_number p : numeric (JNumber p) p
| numeric_decimal o s p : get o "$dec" = Some (JString s) -> to_number s = JsNum p -> numeric (JObject o) p.
(** A value no order is told of: a list, or an object that is no decimal. *)
Definition opaque (j : Json) : Prop :=
  match j with JArray _ => True | JObject o => forall s, get o "$dec" <> Some (JString s) | _ => False end.
(** How the database compares two stored values, by what the rows carry of them: nothing is told of an absent or an
    opaque one; nulls are equal and last; booleans and numbers by value; equal strings are equal, and different ones
    are by code unit unless the column is text, whose collation decides. *)
Inductive agrees (text : bool) : option Json -> option Json -> comparison -> Prop :=
| agrees_absent a b c : a = None \/ b = None -> agrees text a b c
| agrees_opaque a b c : opaque a \/ opaque b -> agrees text (Some a) (Some b) c
| agrees_null : agrees text (Some JNull) (Some JNull) Eq
| agrees_null_left b : b <> JNull -> agrees text (Some JNull) (Some b) Gt
| agrees_null_right a : a <> JNull -> agrees text (Some a) (Some JNull) Lt
| agrees_bool a b : agrees text (Some (JBool a)) (Some (JBool b)) (Bool.compare a b)
| agrees_number a b p q : numeric a p -> numeric b q -> agrees text (Some a) (Some b) (p ?= q)%Q
| agrees_same s : agrees text (Some (JString s)) (Some (JString s)) Eq
| agrees_collated a b c : text = true -> a <> b -> agrees text (Some (JString a)) (Some (JString b)) c
| agrees_string a b : text = false -> a <> b -> agrees text (Some (JString a)) (Some (JString b)) (if str_ltb a b then Lt else Gt).
Definition text_field (model field : string) : bool :=
  match fields_of cat model with
  | Ok fs => match get fs field with Some f => String.eqb (f_pg f) "text" | None => false end
  | Throw _ => false
  end.

(** The database's order is a strict total order on rows of different ids, the one the read's [ORDER BY] gives, and it
    compares stored values as the rows' members say. *)
Record ordered : Prop := MkOrdered {
  lt_irrefl : forall x, ~ lt x x;
  lt_trans : forall x y z, lt x y -> lt y z -> lt x z;
  lt_total : forall x y, good x -> good y -> key x <> key y -> lt x y \/ lt y x;
  lt_sorts : forall x y, good x -> good y -> lt x y <-> sorts_before x y;
  values_sort : forall l k x y, r = StoreRead (Read l) -> k ∈ default [] (lr_order l) ++ [MkOrder "id" Asc None] -> ord_near k = None ->
    good x -> good y -> agrees (text_field (lr_model l) (ord_field k)) (get x (ord_field k)) (get y (ord_field k)) (column k x y) }.

(** A commit leaves the sort keys of its row as they were: the captured images agree in the column of every key (a related
    key's is the relation's), or the row shown has the same number or instant. *)
Definition key_column (fs : dict FieldInfo) (field : string) : string :=
  match get fs (head_segment field) with Some f => f_column f | None => head_segment field end.
Definition same_value (a b : option Json) : Prop := a = b \/ exists p q, a = Some (JNumber p) /\ b = Some (JNumber q) /\ (p == q)%Q.
Definition unmoved (c : Captured) (old row : Row) : Prop :=
  match r with
  | StoreRead (Read l) => exists fs, fields_of cat (lr_model l) = Ok fs /\ forall k, k ∈ default [] (lr_order l) ->
      exists o n v, c_old c = Some o /\ c_new c = Some n /\ get o (key_column fs (ord_field k)) = Some v /\
        default JNull (get n (key_column fs (ord_field k))) = v
  | TranscriptRead _ _ _ _ => same_value (get old "seq") (get row "seq")
  | InboxRead _ _ | ConversationsRead _ => same_value (get old "at") (get row "at")
  | _ => False
  end.

Lemma newest_before_spec (x y : Row) : if newest_before x y then
    exists t u, Date_parse (text_at x "at") = Some t /\ Date_parse (text_at y "at") = Some u /\
      (u < t \/ u = t /\ str_ltb (text_at y "id") (text_at x "id") = true)
  else ~ exists t u, Date_parse (text_at x "at") = Some t /\ Date_parse (text_at y "at") = Some u /\
      (u < t \/ u = t /\ str_ltb (text_at y "id") (text_at x "id") = true).
Proof.
  unfold newest_before. destruct (Date_parse (text_at y "at")) as [u|]; [|by intros (? & ? & _ & ? & _)].
  destruct (Date_parse (text_at x "at")) as [t|]; [|by intros (? & ? & ? & _)].
  destruct (_ || _) eqn:E.
  - exists t, u. split_and!; [done|done|]. apply orb_true_iff in E as [E|[E1 E2]%andb_true_iff]; [left; by apply Z.ltb_lt|right; split; [by apply Z.eqb_eq|done]].
  - intros (? & ? & [= <-] & [= <-] & H). apply orb_false_iff in E as [E1%Z.ltb_ge E2]. destruct H as [H|[-> H]]; [lia|]. by rewrite Z.eqb_refl, H in E2.
Qed.
Lemma kept_unmoved (c : Captured) (old row : Row) : (forall a b, equals a b = true -> a = b) ->
  kept equals cat r c old row = Ok true -> unmoved c old row.
Proof.
  intros Heq. unfold kept, unmoved.
  assert (forall k, same_member k old row = true -> same_value (get old k) (get row k)) as Hm.
  { intros k. unfold same_member, same_value. destruct (get old k) as [u|], (get row k) as [v|]; try done; [|by left].
    destruct u, v; cbn [json_is]; try done; intros H.
    - by left.
    - left. by apply Bool.eqb_prop in H as ->.
    - right. apply Qeq_bool_iff in H. eauto 10.
    - left. by apply String.eqb_eq in H as ->. }
  destruct r as [[l| | |]| | | | | | |]; try done; [|intros [= H]; by apply Hm..].
  destruct (fields_of cat (lr_model l)) as [fs|] eqn:Ef; [|done]. cbn [mbind outcome_bind]. intros [= H]. exists fs. split; [done|]. intros k Hin.
  rewrite forallb_forall in H. specialize (H k (proj1 (list_elem_of_In _ _) Hin)). unfold kept_key in H. fold (key_column fs (ord_field k)) in H.
  destruct (c_old c) as [o|], (c_new c) as [n|]; try done. unfold same in H. destruct (get o (key_column fs (ord_field k))) as [v|] eqn:Ev; [|done].
  apply Heq in H. by exists o, n, v.
Qed.

(** A listing of the rows [S] in order, and a page of it. *)
Definition listing (S L : list Row) : Prop := L ≡ₚ S /\ StronglySorted lt L.
Definition is_page (S : list Row) (pg : Page) : Prop :=
  exists rest, listing S (rows pg ++ rest) /\ Z.of_nat (length (rows pg)) <= limit_of r /\
    match rest with
    | [] => more pg = false
    | _ => exists x, last (rows pg) = Some x /\ next pg = Some (Some (cursor x))
    end.
(** The rows after a commit to row [id]. *)
Definition after (S : list Row) (id : string) (row : option Row) : list Row :=
  List.filter (fun x => negb (has_id id x)) S ++ option_list row.

(** *** Sorted lists. *)
Lemma sorted_app (a b : list Row) : StronglySorted lt (a ++ b) <->
  StronglySorted lt a /\ StronglySorted lt b /\ forall x y, x ∈ a -> y ∈ b -> lt x y.
Proof.
  induction a as [|x a IH]; cbn [app].
  - split; [intros H; split_and!; [constructor|done|intros ? ? H1; by apply elem_of_nil in H1]|by intros (_ & ? & _)].
  - split.
    + inversion 1 as [|? ? Hs Hx]; subst. apply IH in Hs as (H1 & H2 & H3). rewrite Forall_app in Hx. destruct Hx as [Hxa Hxb].
      split_and!; [by constructor|done|]. intros u v [->|Hu]%elem_of_cons Hv; [|by apply H3]. rewrite Forall_forall in Hxb. by apply Hxb.
    + intros (H1 & H2 & H3). inversion H1 as [|? ? Hs Hx]; subst. constructor.
      * apply IH. split_and!; [done|done|]. intros u v Hu Hv. apply H3; [by right|done].
      * apply Forall_app. split; [done|]. apply Forall_forall. intros y Hy. apply H3; [by left|done].
Qed.
Lemma sorted_insert (a b : list Row) (x : Row) : StronglySorted lt (a ++ b) -> (forall y, y ∈ a -> lt y x) -> (forall y, y ∈ b -> lt x y) ->
  StronglySorted lt (a ++ x :: b).
Proof.
  intros H Ha Hb. apply sorted_app in H as (H1 & H2 & H3). apply sorted_app. split_and!; [done| |].
  - constructor; [done|]. by apply Forall_forall.
  - intros u v Hu [->|Hv]%elem_of_cons; [by apply Ha|by apply H3].
Qed.
Lemma sorted_filter (f : Row -> bool) (l : list Row) : StronglySorted lt l -> StronglySorted lt (List.filter f l).
Proof.
  induction 1 as [|x l Hl IH Hx]; cbn [List.filter]; [constructor|]. destruct (f x); [|done]. constructor; [done|].
  apply Forall_forall. intros y Hy. apply list_elem_of_In, List.filter_In in Hy as [Hy _]. rewrite Forall_forall in Hx. by apply Hx, list_elem_of_In.
Qed.
Lemma sorted_replace (a b : list Row) (old x : Row) : StronglySorted lt (a ++ old :: b) ->
  (forall y, y ∈ a ++ b -> (lt old y -> lt x y) /\ (lt y old -> lt y x)) -> StronglySorted lt (a ++ x :: b).
Proof.
  intros H Hx. apply sorted_app in H as (H1 & H2 & H3). inversion H2 as [|? ? H4 H5]; subst.
  rewrite Forall_forall in H5. apply sorted_insert.
  - apply sorted_app. split_and!; [done|done|]. intros u v Hu Hv. apply H3; [done|by right].
  - intros y Hy. apply Hx; [apply elem_of_app; by left|]. apply H3; [done|by left].
  - intros y Hy. apply Hx; [apply elem_of_app; by right|]. by apply H5.
Qed.

Section Ordered.
Hypothesis Hord : ordered.

Lemma Qlt_bool_compare (p q : Q) : Qlt_bool p q = match (p ?= q)%Q with Lt => true | _ => false end.
Proof.
  unfold Qlt_bool. apply eq_true_iff_eq. rewrite andb_true_iff, negb_true_iff, Qle_bool_iff, <- not_true_iff_false, Qeq_bool_iff.
  destruct (Qcompare_spec p q) as [E|E|E].
  - split; [by intros [_ ?]|done].
  - split; [done|]. intros _. split; [by apply Qlt_le_weak|]. intros E'. rewrite E' in E. by apply Qlt_irrefl in E.
  - split; [intros [H _]; by destruct (Qlt_not_le q p)|done].
Qed.
Lemma Qeq_bool_compare (p q : Q) : Qeq_bool p q = match (p ?= q)%Q with Eq => true | _ => false end.
Proof.
  apply eq_true_iff_eq. rewrite Qeq_bool_iff. destruct (Qcompare_spec p q) as [E|E|E]; [done|split; [|done]; intros E'..]; rewrite E' in E; by apply Qlt_irrefl in E.
Qed.
Lemma numeric_sortable (j : Json) (p : number) : numeric j p -> sortable (Some j) = Some (JsNum p).
Proof. intros [q|o s q Ho Hs]; [done|]. cbn [sortable]. by rewrite Ho, Hs. Qed.
Lemma opaque_sortable (j : Json) : opaque j -> sortable (Some j) = None.
Proof. destruct j; try done. cbn [opaque sortable]. intros H. destruct (get o "$dec") as [[]|]; try done. by specialize (H s). Qed.
(** What [before] reads of two members, and what the database makes of them. *)
Lemma agrees_reads (text : bool) (a b : option Json) (c : comparison) (u v : js) : agrees text a b c -> sortable a = Some u -> sortable b = Some v ->
  (js_is u v = true -> c = Eq) /\
  (js_is u v = false -> (is_null u = true -> is_null v = false -> c = Gt) /\ (is_null u = false -> is_null v = true -> c = Lt) /\
     (is_null u = false -> is_null v = false -> text = false -> js_lt u v = match c with Lt => true | _ => false end /\ c <> Eq)) /\
  (is_null u = true -> is_null v = true -> js_is u v = true).
Proof.
  assert (forall j w, j <> JNull -> sortable (Some j) = Some w -> is_null w = false) as Hnn.
  { intros j w Hj. destruct j; try done; cbn [sortable of_json]; [intros [= <-]; done..|]. destruct (get o "$dec") as [[]|]; try done. intros [= <-].
    unfold to_number. cbv zeta. destruct (String.eqb _ _); [done|]. destruct (Decimal.sign_of _). by destruct (strip_e _) as [[[? ?] ?]|]. }
  intros H Hu Hv. destruct H as [a b c [-> | ->]|a b c [H|H]| |b H|a H|x y|a b p q Hp Hq|s|x y c Ht Hne|x y Ht Hne]; try done.
  - by rewrite (opaque_sortable _ H) in Hu.
  - by rewrite (opaque_sortable _ H) in Hv.
  - injection Hu as <-. injection Hv as <-. done.
  - pose proof (Hnn _ _ H Hv). injection Hu as <-. destruct v; done.
  - pose proof (Hnn _ _ H Hu). injection Hv as <-. destruct u; done.
  - injection Hu as <-. injection Hv as <-. by destruct x, y.
  - rewrite (numeric_sortable _ _ Hp) in Hu. rewrite (numeric_sortable _ _ Hq) in Hv. injection Hu as <-. injection Hv as <-.
    cbn [js_is is_null js_lt Number]. rewrite Qlt_bool_compare, Qeq_bool_compare. by destruct (p ?= q)%Q.
  - injection Hu as <-. injection Hv as <-. cbn [of_json js_is is_null]. by rewrite String.eqb_refl.
  - injection Hu as <-. injection Hv as <-. cbn [of_json js_is is_null]. rewrite (proj2 (String.eqb_neq _ _) Hne). by rewrite Ht.
  - injection Hu as <-. injection Hv as <-. cbn [of_json js_is is_null js_lt]. rewrite (proj2 (String.eqb_neq _ _) Hne). by destruct (str_ltb x y).
Qed.
(** Over the keys, [before] answers as the database sorts. *)
Lemma before_keys_sound (fs : dict FieldInfo) (keys : list OrderKey) (x y : Row) (b : bool) :
  (forall k, k ∈ keys -> ord_near k = None ->
     agrees match get fs (ord_field k) with Some f => String.eqb (f_pg f) "text" | None => false end (get x (ord_field k)) (get y (ord_field k)) (column k x y)) ->
  before_keys fs keys x y = Some b -> if b then sorts keys x y else ~ sorts keys x y.
Proof.
  induction keys as [|k keys IH]; intros Hk H; cbn [before_keys] in H; [injection H as <-; inversion 1|].
  destruct (ord_near k) eqn:En; [done|]. pose proof (Hk k ltac:(by left) En) as Ha.
  destruct (sortable (get x (ord_field k))) as [u|] eqn:Eu; [|done]. destruct (sortable (get y (ord_field k))) as [v|] eqn:Ev; [|done].
  destruct (agrees_reads _ _ _ _ u v Ha Eu Ev) as (H1 & H2 & H3).
  assert (forall ans : bool, compares k x y = (if ans then Lt else Gt) -> b = ans -> if b then sorts (k :: keys) x y else ~ sorts (k :: keys) x y) as Hdone.
  { intros ans Hc ->. destruct ans; [by apply sorts_here|]. inversion 1; congruence. }
  destruct (js_is u v) eqn:Ei.
  - specialize (IH ltac:(intros k' ?; apply Hk; by right) H). assert (compares k x y = Eq) as Hc by (unfold compares; rewrite H1 by done; by destruct (ord_dir k)).
    destruct b; [by apply sorts_next|]. inversion 1; [congruence|done].
  - destruct (H2 eq_refl) as (N1 & N2 & N3). destruct (is_null u) eqn:Nu, (is_null v) eqn:Nv; cbn [orb] in H.
    + by specialize (H3 eq_refl eq_refl).
    + injection H as <-. apply (Hdone (is_desc (ord_dir k))); [|by destruct (is_desc _)]. unfold compares. rewrite N1 by done. by destruct (ord_dir k).
    + injection H as <-. apply (Hdone (negb (is_desc (ord_dir k)))); [|by destruct (is_desc _)]. unfold compares. rewrite N2 by done. by destruct (ord_dir k).
    + destruct (match get fs (ord_field k) with Some f => _ | None => _ end) eqn:Et; [done|]. injection H as <-. destruct (N3 eq_refl eq_refl eq_refl) as [Hlt Hne].
      apply (Hdone (Bool.eqb (js_lt u v) (negb (is_desc (ord_dir k))))); [|done]. rewrite Hlt.
      unfold compares. by destruct (column k x y), (ord_dir k).
Qed.
(** [before] says the database's order wherever it answers. *)
Lemma lt_before bf x y b : is_listed r = true -> row_before = Ok bf -> good x -> good y -> key x <> key y -> bf x y = Some b ->
  if b then lt x y else lt y x.
Proof.
  intros Hl Hbf Hx Hy Hk Hb. assert (if b then sorts_before x y else ~ sorts_before x y) as H.
  { unfold row_before in Hbf. unfold sorts_before. pose proof (fun l k => values_sort Hord l k x y) as Hvs.
    pose proof (lt_sorts Hord x y Hx Hy) as Hxy. pose proof (lt_sorts Hord y x Hy Hx) as Hyx. unfold sorts_before in Hxy, Hyx. destruct r as [[l| | |]| | | | | | |]; try done.
    - specialize (Hvs l). unfold text_field in Hvs. destruct (fields_of cat (lr_model l)) as [fs|] eqn:Ef; [|done]. cbn in Hbf. injection Hbf as <-.
      apply (before_keys_sound fs _ x y b); [|done]. intros k Hin Hn. by apply Hvs.
    - injection Hbf as <-. injection Hb as <-. destruct (lt_total Hord x y Hx Hy Hk) as [Hlt|Hlt]; [apply Hxy in Hlt|apply Hyx in Hlt].
      + destruct Hlt as (p & q & Hp & Hq & Hlt). unfold seq_of. rewrite Hp, Hq. cbn [of_json Number js_lt]. rewrite Qlt_bool_compare, (proj1 (Qlt_alt p q)) by done. by exists p, q.
      + destruct Hlt as (p & q & Hp & Hq & Hlt). unfold seq_of. rewrite Hp, Hq. cbn [of_json Number js_lt]. rewrite Qlt_bool_compare, (proj1 (Qgt_alt q p)) by done.
        intros (q' & p' & [= <-] & [= <-] & Hlt'). by apply (Qlt_irrefl p), (Qlt_trans _ q).
    - injection Hbf as <-. injection Hb as <-. apply newest_before_spec.
    - injection Hbf as <-. injection Hb as <-. apply newest_before_spec. }
  destruct b; [by apply (lt_sorts Hord)|]. destruct (lt_total Hord x y Hx Hy Hk) as [Hlt|Hlt]; [|done]. exfalso. by apply H, (lt_sorts Hord).
Qed.

Lemma place_as (rs : list Row) (row : Row) (n : nat) : is_listed r = true -> place cat r rs row = Ok (Some n) ->
  exists bf, row_before = Ok bf /\ place_by bf rs row = Some n.
Proof.
  assert (forall f rs row, place_by (fun x y => Some (f x y)) rs row = Some (find_place (f row) rs)) as Hfind.
  { intros f rs0 row0. unfold find_place. induction rs0 as [|y rs0 IH]; [done|]. cbn [place_by findIndex length].
    destruct (f row0 y); [done|]. rewrite IH. by destruct (findIndex (f row0) rs0). }
  unfold place, row_before. destruct r as [[l| | |]| | | | | | |]; try done; intros _.
  - destruct (fields_of cat (lr_model l)) as [fs|]; [|done]. cbn. intros [= H]. by exists (before fs l).
  - intros [= <-]. eexists. split; [done|]. apply Hfind.
  - intros [= <-]. eexists. split; [done|]. apply Hfind.
  - intros [= <-]. eexists. split; [done|]. apply Hfind.
Qed.
(** A row is placed after the rows before it and before the others. *)
Lemma place_spec (rs : list Row) (row : Row) (n : nat) : is_listed r = true -> place cat r rs row = Ok (Some n) ->
  StronglySorted lt rs -> Forall good rs -> good row -> key row ∉ map key rs ->
  (forall y, y ∈ take n rs -> lt y row) /\ (forall y, y ∈ skipn n rs -> lt row y).
Proof.
  intros Hl Hp Hs Hg Hrow Hk. destruct (place_as rs row n Hl Hp) as (bf & Hbf & H). clear Hp. revert n H.
  induction Hs as [|y rs Hs IH Hy]; intros n H; cbn [place_by] in H.
  - injection H as <-. cbn. split; intros ? Hx; by apply elem_of_nil in Hx.
  - apply Forall_cons in Hg as [Hgy Hg]. cbn [map] in Hk. rewrite not_elem_of_cons in Hk. destruct Hk as [Hky Hk].
    rewrite Forall_forall in Hy. destruct (bf row y) as [[]|] eqn:Eb; [| |done].
    + injection H as <-. cbn. split; [intros ? Hx; by apply elem_of_nil in Hx|].
      pose proof (lt_before bf row y true Hl Hbf Hrow Hgy Hky Eb) as Hlt.
      intros z [->|Hz]%elem_of_cons; [done|]. eapply lt_trans; [done|exact Hlt|by apply Hy].
    + destruct (place_by bf rs row) as [m|] eqn:Em; [|done]. injection H as <-. destruct (IH Hg Hk m eq_refl) as [H1 H2].
      cbn. split; [|done]. intros z [->|Hz]%elem_of_cons; [|by apply H1].
      exact (lt_before bf row y false Hl Hbf Hrow Hgy Hky Eb).
Qed.

(** A row can be put in order among sorted rows of other ids. *)
Lemma sorted_with (l : list Row) (x : Row) : StronglySorted lt l -> Forall good l -> good x -> key x ∉ map key l ->
  exists l', l' ≡ₚ x :: l /\ StronglySorted lt l'.
Proof.
  intros Hs Hg Hx Hk. induction Hs as [|y l Hs IH Hy].
  - exists [x]. split; [done|]. repeat constructor.
  - apply Forall_cons in Hg as [Hgy Hg]. cbn [map] in Hk. rewrite not_elem_of_cons in Hk. destruct Hk as [Hky Hk].
    destruct (lt_total Hord x y Hx Hgy Hky) as [Hlt|Hlt].
    + exists (x :: y :: l). split; [done|]. constructor; [by constructor|]. constructor; [done|].
      eapply Forall_impl; [exact Hy|]. intros z Hz. by eapply lt_trans.
    + destruct (IH Hg Hk) as (l' & HP & Hl'). exists (y :: l'). split; [rewrite HP; apply Permutation_swap|]. constructor; [done|].
      apply Forall_forall. intros z Hz. rewrite HP in Hz. apply elem_of_cons in Hz as [->|Hz]; [done|]. rewrite Forall_forall in Hy. by apply Hy.
Qed.

Lemma filter_perm (f : Row -> bool) (a b : list Row) : a ≡ₚ b -> List.filter f a ≡ₚ List.filter f b.
Proof.
  induction 1 as [|x a b H IH|x y a|a b c H1 IH1 H2 IH2]; cbn [List.filter]; [done| | |by rewrite IH1].
  - destruct (f x); [by rewrite IH|done].
  - destruct (f x), (f y); try done. apply Permutation_swap.
Qed.
#[local] Instance filter_proper (f : Row -> bool) : Proper (Permutation ==> Permutation) (List.filter f).
Proof. intros a b. apply filter_perm. Qed.
Lemma ids_ok_perm (a b : list Row) : a ≡ₚ b -> ids_ok b -> ids_ok a.
Proof. intros H [H1 H2]. split; by rewrite H. Qed.
Lemma ids_ok_app (a b : list Row) : ids_ok (a ++ b) -> ids_ok a /\ ids_ok b /\ forall x, x ∈ map key a -> x ∉ map key b.
Proof.
  intros [H1 H2]. apply Forall_app in H1 as [Ha Hb]. rewrite map_app in H2. apply NoDup_app in H2 as (Na & Nd & Nb). done.
Qed.
Lemma filter_id (l : list Row) (id : string) : (forall x, x ∈ l -> has_id id x = false) -> List.filter (fun x => negb (has_id id x)) l = l.
Proof.
  induction l as [|x l IH]; intros H; [done|]. cbn [List.filter]. rewrite (H x) by (by left). cbn. f_equal. apply IH.
  intros y Hy. apply H. by right.
Qed.
Lemma fresh_filter (l : list Row) (id : string) : Some (JString id) ∉ map key (List.filter (fun x => negb (has_id id x)) l).
Proof.
  intros (y & E & Hy)%list_elem_of_fmap. apply list_elem_of_In, List.filter_In in Hy as [_ Hy].
  symmetry in E. apply has_id_spec in E. by rewrite E in Hy.
Qed.
Lemma filter_sub (f : Row -> bool) (l : list Row) (x : Row) : x ∈ List.filter f l -> x ∈ l.
Proof. intros H. by apply list_elem_of_In, List.filter_In, proj1, list_elem_of_In in H. Qed.

(** The rows after the commit, from a listing before it. *)
Lemma after_perm (S l rest : list Row) (id : string) (row : option Row) : ids_ok (l ++ rest) -> l ++ rest ≡ₚ S ->
  after S id row ≡ₚ others (findIndex (has_id id) l) l ++ List.filter (fun x => negb (has_id id x)) rest ++ option_list row.
Proof.
  intros Hok HP. apply ids_ok_app in Hok as (Hl & _). unfold after. rewrite <- HP, List.filter_app, <- app_assoc, others_filter by done. done.
Qed.
Lemma rest_same (l rest : list Row) (id : string) (i : nat) : ids_ok (l ++ rest) -> findIndex (has_id id) l = Some i ->
  List.filter (fun x => negb (has_id id x)) rest = rest.
Proof.
  intros Hok Hi. apply ids_ok_app in Hok as (_ & _ & Hd). apply findIndex_some in Hi as (x & Hx & Hid & _).
  apply filter_id. intros y Hy. destruct (has_id id y) eqn:E; [|done]. exfalso. apply has_id_spec in Hid, E.
  apply (Hd (key x)); [by eapply list_elem_of_fmap_2, list_elem_of_lookup_2|]. rewrite Hid, <- E. by apply list_elem_of_fmap_2.
Qed.

(** What the order keys being kept means to the database: the changed row sorts as the old one. *)
Definition sorts_alike (S : list Row) (old row : Row) : Prop :=
  cursor old = cursor row /\ forall y, y ∈ S -> key y <> key row -> (lt old y -> lt row y) /\ (lt y old -> lt y row).

Lemma others_at (i : nat) (l : list Row) : others (Some i) l = take i l ++ skipn (S i) l.
Proof. done. Qed.

Lemma page_kept (S : list Row) (pg : Page) (id : string) (i : nat) (old row : Row) :
  ids_ok S -> is_page S pg -> findIndex (has_id id) (rows pg) = Some i -> rows pg !! i = Some old -> key row = Some (JString id) ->
  sorts_alike S old row -> is_page (after S id (Some row)) (MkPage (<[i := row]> (rows pg)) (next pg)).
Proof.
  intros Hok (rest & [HP Hs] & Hlen & Hrest) Hi Hold Hkey [Hcur Hsort]. destruct (findIndex_some _ _ _ Hi) as (old' & Hold' & Hid & Hlt & El).
  rewrite Hold in Hold'. injection Hold' as <-. apply has_id_spec in Hid.
  assert (ids_ok (rows pg ++ rest)) as Hok' by (by eapply ids_ok_perm). exists rest. cbn [rows next].
  rewrite insert_take_drop by done. split_and!.
  - split.
    + rewrite (after_perm S (rows pg) rest id (Some row) Hok' HP), Hi, others_at, (rest_same _ _ _ _ Hok' Hi). cbn [option_list].
      rewrite <- !app_assoc. apply Permutation_app_head. cbn [app].
      rewrite (app_assoc _ rest [row]). apply Permutation_cons_append.
    + rewrite <- app_assoc. cbn [app]. rewrite El, <- app_assoc in Hs. cbn [app] in Hs. eapply sorted_replace; [exact Hs|].
      intros y Hy. apply Hsort.
      * rewrite <- HP, El, <- app_assoc. cbn [app]. apply elem_of_app in Hy as [Hy|Hy]; apply elem_of_app; [by left|right; by right].
      * rewrite Hkey, <- Hid. rewrite El in Hok'. destruct Hok' as [_ Hnd]. rewrite <- app_assoc, map_app in Hnd. cbn [app map] in Hnd.
        rewrite <- Permutation_middle in Hnd. apply NoDup_cons in Hnd as [Hnd _]. intros E. apply Hnd. rewrite <- map_app.
        rewrite <- E. by apply list_elem_of_fmap_2.
  - revert Hlen. rewrite El at 1. rewrite !length_app. done.
  - destruct rest as [|z rest]; [done|]. destruct Hrest as (x & Hx & Hn). rewrite El in Hx.
    destruct (skipn (Datatypes.S i) (rows pg)) as [|w t] using rev_ind.
    + rewrite last_snoc in Hx |- *. injection Hx as ->. exists row. by rewrite <- Hcur.
    + exists x. rewrite app_comm_cons, app_assoc, last_snoc in Hx |- *. done.
Qed.

Lemma others_rest_sorted (l rest : list Row) (id : string) : ids_ok (l ++ rest) -> StronglySorted lt (l ++ rest) ->
  StronglySorted lt (others (findIndex (has_id id) l) l ++ List.filter (fun x => negb (has_id id x)) rest).
Proof.
  intros Hok Hs. pose proof Hok as Hok'. apply ids_ok_app in Hok' as (Hl & _). rewrite others_filter by done.
  rewrite <- List.filter_app. by apply sorted_filter.
Qed.

(** The row leaves, or was never there. *)
Lemma page_removed (S : list Row) (pg : Page) (id : string) :
  ids_ok S -> is_page S pg -> more pg = false ->
  is_page (after S id None) (MkPage (others (findIndex (has_id id) (rows pg)) (rows pg)) (next pg)).
Proof.
  intros Hok (rest & [HP Hs] & Hlen & Hrest) Hm. destruct rest as [|z rest].
  2:{ destruct Hrest as (x & _ & Hn). unfold more in Hm. by rewrite Hn in Hm. }
  assert (ids_ok (rows pg ++ [])) as Hok' by (by eapply ids_ok_perm). exists []. cbn [rows next].
  pose proof (others_rest_sorted _ _ id Hok' Hs) as Hs'. cbn [List.filter] in Hs'. split_and!.
  - split; [|done]. by rewrite (after_perm S (rows pg) [] id None Hok' HP).
  - pose proof (proj1 (ids_ok_app _ _ Hok')) as Hl. rewrite others_filter by done.
    pose proof (List.filter_length_le (fun x => negb (has_id id x)) (rows pg)). lia.
  - done.
Qed.

(** A row placed among all the others. *)
Lemma page_placed (S : list Row) (pg : Page) (id : string) (row : Row) (n : nat) (rs := others (findIndex (has_id id) (rows pg)) (rows pg)) :
  is_listed r = true -> ids_ok S -> is_page S pg -> Forall good S -> good row -> key row = Some (JString id) ->
  more pg = false -> place cat r rs row = Ok (Some n) -> Z.of_nat (length rs) + 1 <= limit_of r ->
  is_page (after S id (Some row)) (MkPage (insert_at n row rs) (next pg)).
Proof.
  intros Hl Hok (rest & [HP Hs] & Hlen & Hrest) Hg Hrow Hkey Hm Hp Hle. destruct rest as [|z rest].
  2:{ destruct Hrest as (x & _ & Hn). unfold more in Hm. by rewrite Hn in Hm. }
  assert (ids_ok (rows pg ++ [])) as Hok' by (by eapply ids_ok_perm). exists []. cbn [rows next].
  pose proof (others_rest_sorted _ _ id Hok' Hs) as Hs'. cbn [List.filter] in Hs'. rewrite app_nil_r in Hs'.
  rewrite app_nil_r in Hok'. fold rs in Hs'. destruct (others_ok (rows pg) id Hok') as [_ Hfresh]. fold rs in Hfresh.
  destruct (place_spec rs row n Hl Hp Hs') as [H1 H2]; [|done|by rewrite Hkey|].
  { apply Forall_forall. intros x Hx. rewrite Forall_forall in Hg. apply Hg. rewrite <- HP, app_nil_r. by eapply others_sub. }
  split_and!.
  - rewrite app_nil_r. split.
    + rewrite (after_perm S (rows pg) [] id (Some row)); [|by rewrite app_nil_r|done]. fold rs. cbn [List.filter app option_list].
      unfold insert_at. rewrite <- Permutation_middle, take_drop. by apply Permutation_cons_append.
    + unfold insert_at. apply sorted_insert; [by rewrite take_drop|done|done].
  - assert (length (insert_at n row rs) = Datatypes.S (length rs)) as ->; [|lia]. apply length_insert_at.
  - done.
Qed.

(** A row past the end of a full page. *)
Lemma page_beyond (S : list Row) (pg : Page) (id : string) (row : Row) :
  is_listed r = true -> ids_ok S -> is_page S pg -> Forall good S -> good row -> key row = Some (JString id) ->
  more pg = true -> findIndex (has_id id) (rows pg) = None -> place cat r (rows pg) row = Ok (Some (length (rows pg))) ->
  is_page (after S id (Some row)) pg.
Proof.
  intros Hl Hok (rest & [HP Hs] & Hlen & Hrest) Hg Hrow Hkey Hm Hi Hp. destruct rest as [|z rest]; [by rewrite Hm in Hrest|].
  assert (ids_ok (rows pg ++ z :: rest)) as Hok' by (by eapply ids_ok_perm). set (rest0 := z :: rest) in *.
  pose proof (others_rest_sorted _ _ id Hok' Hs) as Hs'. rewrite Hi in Hs'. cbn [others] in Hs'.
  apply sorted_app in Hs' as (Hs1 & Hs2 & Hs3). assert (Forall good (rows pg) /\ Forall good rest0) as [Hg1 Hg2].
  { apply Forall_app. by rewrite HP. }
  assert (key row ∉ map key (rows pg)) as Hk1.
  { rewrite Hkey. intros (y & E & Hy)%list_elem_of_fmap. symmetry in E. apply has_id_spec in E.
    rewrite findIndex_none in Hi. by rewrite (Hi y Hy) in E. }
  destruct (place_spec (rows pg) row _ Hl Hp Hs1 Hg1 Hrow Hk1) as [Hlt _]. rewrite take_ge in Hlt by done.
  destruct (sorted_with (List.filter (fun x => negb (has_id id x)) rest0) row Hs2) as (rest' & HP' & Hs').
  - apply Forall_forall. intros x Hx. rewrite Forall_forall in Hg2. by eapply Hg2, filter_sub.
  - done.
  - rewrite Hkey. apply fresh_filter.
  - exists rest'. split_and!.
    + split.
      * rewrite (after_perm S (rows pg) rest0 id (Some row) Hok' HP), Hi. cbn [others option_list]. apply Permutation_app_head.
        rewrite HP'. apply Permutation_cons_append.
      * apply sorted_app. split_and!; [done|done|]. intros x y Hx Hy. rewrite HP' in Hy.
        apply elem_of_cons in Hy as [->|Hy]; [by apply Hlt|by apply Hs3].
    + done.
    + destruct rest' as [|w rest']; [|done]. apply Permutation_length in HP'. done.
Qed.

Lemma last_key (l : list Row) (x y : Row) : ids_ok l -> x ∈ l -> y ∈ l -> key x = key y -> x = y.
Proof.
  intros [_ Hnd] Hx Hy E. induction l as [|z l IH]; [by apply elem_of_nil in Hx|]. cbn [map] in Hnd. apply NoDup_cons in Hnd as [Hz Hnd].
  apply elem_of_cons in Hx, Hy. destruct Hx as [->|Hx], Hy as [->|Hy]; [done| | |by apply IH]; exfalso; apply Hz.
  - rewrite E. by apply list_elem_of_fmap_2.
  - rewrite <- E. by apply list_elem_of_fmap_2.
Qed.
Lemma last_in (l : list Row) (x : Row) : last l = Some x -> x ∈ l.
Proof. destruct l as [|y l] using rev_ind; [done|]. rewrite last_snoc. intros [= ->]. apply elem_of_app. right. by left. Qed.

(** A row that moves inside a full page whose last row stays. *)
Lemma page_moved (S : list Row) (pg : Page) (id : string) (row : Row) (i n : nat) (rs := remove_at i (rows pg)) :
  is_listed r = true -> ids_ok S -> is_page S pg -> Forall good S -> good row -> key row = Some (JString id) ->
  more pg = true -> findIndex (has_id id) (rows pg) = Some i -> place cat r rs row = Ok (Some n) -> (n < length rs)%nat ->
  opt_is (last (insert_at n row rs) ≫= key) (last (rows pg) ≫= key) = true ->
  is_page (after S id (Some row)) (MkPage (insert_at n row rs) (next pg)).
Proof.
  intros Hl Hok (rest & [HP Hs] & Hlen & Hrest) Hg Hrow Hkey Hm Hi Hp Hn Hlast. destruct rest as [|z rest]; [by rewrite Hm in Hrest|].
  assert (ids_ok (rows pg ++ z :: rest)) as Hok' by (by eapply ids_ok_perm). set (rest0 := z :: rest) in *.
  pose proof (others_rest_sorted _ _ id Hok' Hs) as Hs'. rewrite Hi in Hs'. cbn [others] in Hs'. fold rs in Hs'.
  rewrite (rest_same _ _ _ _ Hok' Hi) in Hs'. pose proof Hs' as Hs0. apply sorted_app in Hs0 as (Hs1 & Hs2 & Hs3).
  assert (Forall good (rows pg)) as Hg1 by (rewrite <- HP in Hg; by apply Forall_app in Hg as [? _]).
  pose proof (proj1 (ids_ok_app _ _ Hok')) as Hokl. destruct (others_ok (rows pg) id Hokl) as [_ Hfresh]. rewrite Hi in Hfresh. cbn [others] in Hfresh. fold rs in Hfresh.
  assert (forall x, x ∈ rs -> x ∈ rows pg) as Hsub by (intros x; apply (others_sub (Some i))).
  destruct (place_spec rs row n Hl Hp Hs1) as [H1 H2]; [|done|by rewrite Hkey|].
  { apply Forall_forall. intros x Hx. rewrite Forall_forall in Hg1. by apply Hg1, Hsub. }
  assert (exists w, w ∈ skipn n rs /\ last (insert_at n row rs) = Some w) as (w & Hw & Elast).
  { unfold insert_at. destruct (skipn n rs) as [|w t] eqn:E using rev_ind.
    - exfalso. assert (length (skipn n rs) = 0%nat) as El by (by rewrite E). rewrite length_skipn in El. lia.
    - exists w. split; [apply elem_of_app; right; by left|]. by rewrite app_comm_cons, app_assoc, last_snoc. }
  exists rest0. cbn [rows next]. split_and!.
  - split.
    + rewrite (after_perm S (rows pg) rest0 id (Some row) Hok' HP), Hi. cbn [others option_list]. fold rs.
      rewrite (rest_same _ _ _ _ Hok' Hi). unfold insert_at. rewrite <- Permutation_middle, take_drop. cbn [app].
      etransitivity; [apply Permutation_cons_append|]. by rewrite <- app_assoc.
    + unfold insert_at. rewrite <- app_assoc. cbn [app]. apply sorted_insert.
      * by rewrite app_assoc, take_drop.
      * done.
      * intros y [Hy|Hy]%elem_of_app; [by apply H2|]. eapply (lt_trans Hord); [by apply H2|]. apply Hs3; [|done].
        rewrite <- (take_drop n rs). apply elem_of_app. by right.
  - assert (length (insert_at n row rs) <= length (rows pg))%nat as Hlr; [|lia].
    destruct (findIndex_some _ _ _ Hi) as (_ & _ & _ & Hlt & _). rewrite length_insert_at, (length_remove_at i (rows pg)) by done. done.
  - destruct Hrest as (x & Hx & Hnext). exists w. split; [done|]. rewrite Elast, Hx in Hlast. cbn [mbind option_bind] in Hlast.
    assert (w ∈ rows pg) as Hwl.
    { apply Hsub. rewrite <- (take_drop n rs). apply elem_of_app. by right. }
    pose proof (last_in _ _ Hx) as Hxl. destruct Hokl as [Hall Hnd]. pose proof Hall as Hall'. rewrite Forall_forall in Hall'.
    destruct (Hall' w Hwl) as [iw Ew], (Hall' x Hxl) as [ix Ex]. rewrite Ew, Ex in Hlast. cbn in Hlast. apply String.eqb_eq in Hlast as ->.
    rewrite Hnext. f_equal. f_equal. f_equal. apply (last_key (rows pg)); [by split|done|done|by rewrite Ew].
Qed.

(** C3. A live page is never wrong: when a view shows a page of its read in the database's order (its rows a prefix of at most
    its limit, its cursor that of its last row, no cursor when nothing is left) and a commit changes one row, then
    whenever the hub answers with ops instead of a re-read, the rows and cursor it then holds are such a page of the rows
    after the commit, whether the row was new, changed in place, moved, left, or lies beyond the page. The database's order is
    the one the read's [ORDER BY] names, over values that compare as the rows carry them ([agrees]: decimals as their
    binary64 values, instants by the millisecond, a text column by its collation), and a row whose sort columns a commit leaves
    as they were ([unmoved]) keeps its place and cursor. *)
Theorem page_exact (S : list Row) (work work' : Json) (pg : Page) (c : Captured) (row : option Row) (ops : list PatchOp)
    (Hequals : forall a b, equals a b = true -> a = b)
    (Hr : is_listed r = true) (Hrow : forall a b d e, r = TranscriptRead a b d e -> c_model c <> "sys_conversation"%string)
    (Hids : ids_ok S) (Hgood : Forall good (S ++ option_list row)) (Hown : own_row c row)
    (Hunmoved : forall old x, row = Some x -> old ∈ S -> key old = Some (JString (c_id c)) -> unmoved c old x -> sorts_alike S old x)
    (Hv : pageOf work = Some pg) (Hpage : is_page S pg)
    (Ha : apply equals cat r work c row = Ok (Some (ops, work'))) :
  exists pg', pageOf work' = Some pg' /\ is_page (after S (c_id c) row) pg'.
Proof.
  assert (exists pg', apply_page equals cat r pg c row = Ok (Some (ops, pg')) /\ work' = page_json pg') as (pg' & Hp & ->).
  { assert (forall res, (res0 ← apply_page equals cat r pg c row; Ok (option_map (fun op => (fst op, page_json (snd op))) res0)) = Ok res ->
      res = Some (ops, work') -> exists pg', apply_page equals cat r pg c row = Ok (Some (ops, pg')) /\ work' = page_json pg') as H.
    { intros res. destruct (apply_page equals cat r pg c row) as [[[ops0 pg']|]|]; cbn; [|by intros [= <-]|done].
      intros [= <-] [= <- <-]. by exists pg'. }
    clear Hpage Hunmoved. unfold apply in Ha. destruct r as [[l| | |]| | | | | | |]; try done; cbn [is_listed negb] in Ha.
    - rewrite Hv in Ha. by eapply H.
    - rewrite (proj2 (String.eqb_neq _ _)) in Ha by (by eapply Hrow). rewrite Hv in Ha. by eapply H.
    - rewrite Hv in Ha. by eapply H.
    - rewrite Hv in Ha. by eapply H. }
  exists pg'. split; [apply pageOf_page|]. apply apply_page_applied in Hp as [Hn Hp]. destruct pg' as [rs' nx]. cbn [next rows] in Hn, Hp. subst nx.
  apply Forall_app in Hgood as [HgS Hgrow].
  assert (forall i old x, row = Some x -> findIndex (has_id (c_id c)) (rows pg) = Some i -> rows pg !! i = Some old ->
    kept equals cat r c old x = Ok true -> is_page (after S (c_id c) row) (MkPage (<[i := x]> (rows pg)) (next pg))) as Hkeep.
  { intros i old x -> Hi Hold Hk. eapply page_kept; [done|done|done|exact Hold|by apply Hown|].
    apply Hunmoved; [done| | |by apply (kept_unmoved c old x Hequals)].
    2:{ apply findIndex_some in Hi as (old' & Hold' & Hid & _). rewrite Hold in Hold'. injection Hold' as <-. by apply has_id_spec. }
    destruct Hpage as (rest & [HP _] & _). rewrite <- HP. apply elem_of_app. left. by eapply list_elem_of_lookup_2. }
  destruct Hp as [Hm Hi|i Hm Hi|i old x Hi Hold Hk|i old x Hi Hold Hk He|x Hm Hi Hp|i x n rs Hm Hi -> Hp Hlt Hl|x n rs Hm -> Hp Hle].
  - pose proof (page_removed S pg (c_id c) Hids Hpage Hm) as H. by rewrite Hi in H.
  - pose proof (page_removed S pg (c_id c) Hids Hpage Hm) as H. by rewrite Hi in H.
  - by eapply Hkeep.
  - apply Hequals in He. injection He as <-. pose proof (Hkeep i old old eq_refl Hi Hold Hk) as H. by rewrite list_insert_id in H.
  - apply Forall_cons in Hgrow as [Hgx _]. destruct pg as [prs pnx]. eapply page_beyond; try done. by apply Hown.
  - apply Forall_cons in Hgrow as [Hgx _]. eapply page_moved; try done. by apply Hown.
  - apply Forall_cons in Hgrow as [Hgx _]. eapply page_placed; try done. by apply Hown.
Qed.
End Ordered.
End Pages.
End PageFacts.

(** ** The lane's state and its accounting. *)
Module Hub.
Import Views.

Definition MiB : Z := 1024 * 1024.
(** [LIVE]. *)
Definition subscriptionBytes : Z := 2 * MiB.
Definition perConnection : nat := 500.
Definition cellBytes : Z := 128 * MiB.

(** [Frame]. *)
Inductive Frame :=
| Hello (conn : string) (v : Z)
| Answer (view : string) (v : Z) (value : Json) (arrivals : list Json)
| Patch (view : string) (v : Z) (ops : list PatchOp)
| ErrorFrame (view code message : string)
| Version (v : Z)
| Close (release : string).

(** A view is an object other work keeps hold of: [views] maps a name to an index of [heap]. *)
Record View := MkView {
  vw_read : LiveRead; vw_id : string; vw_bytes : Z; vw_value : option Json; vw_arrivalsAfter : option Z; vw_conservative : bool }.
Record Conn := MkConn { cn_authority : Authority; cn_views : dict nat; cn_sent : list Frame; cn_ended : bool }.
Record State := MkState {
  v : Z; routed : Z; retained : Z; queued : bool; pending : list (Captured * Z);
  syncChanges : dict (option (list string)); conns : dict Conn; closed_conns : dict Conn; heap : list View; n : Z }.
Definition init : State := MkState 0 0 0 false [] [] [] [] [] 0.

Definition without {A} (d : dict A) (k : string) : dict A := filter (fun kv => fst kv <> k) d.
Definition with_conn (st : State) (id : string) (c : Conn) : State :=
  MkState (v st) (routed st) (retained st) (queued st) (pending st) (syncChanges st) (set (conns st) id c) (closed_conns st) (heap st) (n st).
Definition with_retained (st : State) (x : Z) : State :=
  MkState (v st) (routed st) x (queued st) (pending st) (syncChanges st) (conns st) (closed_conns st) (heap st) (n st).
Definition with_heap (st : State) (h : list View) : State :=
  MkState (v st) (routed st) (retained st) (queued st) (pending st) (syncChanges st) (conns st) (closed_conns st) h (n st).
Definition send (c : Conn) (f : Frame) : Conn := MkConn (cn_authority c) (cn_views c) (cn_sent c ++ [f]) (cn_ended c).
Definition with_views (c : Conn) (vs : dict nat) : Conn := MkConn (cn_authority c) vs (cn_sent c) (cn_ended c).
Definition bytes_at (h : list View) (i : nat) : Z := match h !! i with Some w => vw_bytes w | None => 0 end.
Definition with_answer (w : View) (bytes : Z) (value : Json) : View :=
  MkView (vw_read w) (vw_id w) bytes (Some value) (vw_arrivalsAfter w) (vw_conservative w).

(** [connect]. *)
Definition conn_name (k : Z) : string := "c" +:+ dec_of k.
Definition connect (a : Authority) (st : State) : State :=
  let k := n st + 1 in
  let id := conn_name k in
  let st := with_conn st id (MkConn a [] [Hello id (routed st)] false) in
  MkState (v st) (routed st) (retained st) (queued st) (pending st) (syncChanges st) (conns st) (closed_conns st) (heap st) k.

(** [drop]: the view's bytes are released and its name is free. *)
Definition drop (id name : string) (st : State) : State :=
  match get (conns st) id with
  | None => st
  | Some c =>
      match get (cn_views c) name with
      | None => st
      | Some i =>
          with_conn (with_retained st (retained st - bytes_at (heap st) i)) id (with_views c (without (cn_views c) name))
      end
  end.
(** [disconnect]. *)
Definition views_bytes (h : list View) (vs : dict nat) : Z := foldr (fun ni acc => bytes_at h (snd ni) + acc) 0 vs.
Definition disconnect (id : string) (st : State) : State :=
  match get (conns st) id with
  | None => st
  | Some c =>
      let c' := MkConn (cn_authority c) [] (cn_sent c) true in
      MkState (v st) (routed st) (retained st - views_bytes (heap st) (cn_views c)) (queued st) (pending st) (syncChanges st)
        (without (conns st) id) (set (closed_conns st) id c') (heap st) (n st)
  end.

(** [check]: cursor pages and prospective reads have no live registration. *)
Definition not_liveable (kind : string) : outcome unit :=
  Throw (JsError "invalid" ("a " +:+ kind +:+ " read is not liveable")).
Fixpoint check (r : LiveRead) : outcome unit :=
  match r with
  | RequestRead roots =>
      (fix each (rs : list RequestRoot) : outcome unit :=
         match rs with
         | [] => Ok tt
         | RootRead _ read :: rs' => _ ← check read; each rs'
         | RootAsOf _ _ _ :: rs' => each rs'
         end) roots
  | AfterRead _ _ _ => not_liveable "after"
  | StoreRead (Read l) =>
      match lr_page l with Limit _ (Some _) => not_liveable "cursor page" | _ => Ok tt end
  | _ => Ok tt
  end.

(** The first half of [register]: the name is bound to a new view object, whose first answer is then read. *)
Definition register (id name : string) (read : LiveRead) (st : State) : outcome (nat * State) :=
  match get (conns st) id with
  | None => Throw (JsError "notFound" "the live connection is gone")
  | Some c =>
      _ ← check read;
      if negb (has_own (cn_views c) name) && (perConnection <=? length (cn_views c))%nat
      then Throw (JsError "tooManySubscriptions" ("a connection holds at most " +:+ dec_of (Z.of_nat perConnection) +:+ " live views"))
      else
        let st := drop id name st in
        let i := length (heap st) in
        let st := with_heap st (heap st ++ [MkView read name 0 None None false]) in
        Ok (i, match get (conns st) id with
               | Some c => with_conn st id (with_views c (set (cn_views c) name i))
               | None => st
               end)
  end.
(** The end of [register]: inbox arrivals are counted from here. *)
Definition arrive (v : Z) (w : View) : View := MkView (vw_read w) (vw_id w) (vw_bytes w) (vw_value w) (Some v) (vw_conservative w).
Definition registered (i : nat) (st : State) : State := with_heap st (alter (arrive (v st)) i (heap st)).

Section Put.
(** [bytesOf(JSON.stringify(value))] and [Equal.equals] of the Effect library. *)
Context (bytesOf : Json -> Z) (equals : Json -> Json -> bool).

(** [put]: view object [i] of connection [id] takes its new value; over a budget the view errors alone. *)
Definition put (id : string) (i : nat) (value : Json) (ops : option (list PatchOp)) (arrivals : list Json) (st : State) : State :=
  match get (conns st) id, heap st !! i with
  | Some c, Some w =>
      if match ops, arrivals, vw_value w with None, [], Some old => equals old value | _, _, _ => false end then st
      else
        let bytes := bytesOf value in
        let over :=
          if subscriptionBytes <? bytes then
            Some ("subscriptionTooLarge"%string, "the answer is " +:+ dec_of bytes +:+ " bytes; a live view holds at most " +:+ dec_of subscriptionBytes)
          else if cellBytes <? retained st - vw_bytes w + bytes then
            Some ("cellBudget"%string, "the cell retains at most " +:+ dec_of cellBytes +:+ " bytes of live answers")
          else None in
        match over with
        | Some (code, message) =>
            let st := drop id (vw_id w) st in
            match get (conns st) id with
            | Some c => with_conn st id (send c (ErrorFrame (vw_id w) code message))
            | None => st
            end
        | None =>
            let st := with_retained st (retained st + (bytes - vw_bytes w)) in
            let st := with_heap st (<[i := with_answer w bytes value]> (heap st)) in
            with_conn st id (send c match ops with
                                    | None => Answer (vw_id w) (routed st) value arrivals
                                    | Some ops => Patch (vw_id w) (routed st) ops
                                    end)
        end
  | _, _ => st
  end.
(** One result of [answer], delivered when its read ends: a connection that lost the view's name skips it. *)
Definition deliver (id : string) (i : nat) (result : Json + string * string) (st : State) : State :=
  match get (conns st) id, heap st !! i with
  | Some c, Some w =>
      if has_own (cn_views c) (vw_id w) then
        match result with
        | inl value => put id i value None [] st
        | inr (code, message) => with_conn st id (send c (ErrorFrame (vw_id w) code message))
        end
      else st
  | _, _ => st
  end.
End Put.

(** [publish] and [syncChanged]: the lane's sequence moves and a flush is queued. *)
Definition publish (captured : list Captured) (st : State) : State :=
  match captured with
  | [] => st
  | _ =>
      let v' := v st + 1 in
      MkState v' (routed st) (retained st) true (pending st ++ map (fun c => (c, v')) captured) (syncChanges st) (conns st)
        (closed_conns st) (heap st) (n st)
  end.
Definition syncChanged (model : string) (records : option (list string)) (st : State) : State :=
  match records with
  | Some [] => st
  | _ =>
      let previous := get (syncChanges st) model in
      let next_ := match records, previous with
                   | None, _ | _, Some None => None
                   | Some ids, _ => Some (uniq (default [] (mjoin previous) ++ ids))
                   end in
      MkState (v st + 1) (routed st) (retained st) true (pending st) (set (syncChanges st) model next_) (conns st)
        (closed_conns st) (heap st) (n st)
  end.
(** The start of [flush]: the batch is taken and frames are stamped with its sequence. *)
Definition take_batch (st : State) : list (Captured * Z) * dict (option (list string)) * State :=
  (pending st, syncChanges st,
    MkState (v st) (v st) (retained st) false [] [] (conns st) (closed_conns st) (heap st) (n st)).
(** [authorize]: every view of the connection forgets its value before it is answered again. *)
Definition forget (w : View) : View := MkView (vw_read w) (vw_id w) (vw_bytes w) None (vw_arrivalsAfter w) (vw_conservative w).
Definition authorize (id : string) (a : Authority) (st : State) : State :=
  match get (conns st) id with
  | None => st
  | Some c =>
      let st := with_conn st id (MkConn a (cn_views c) (cn_sent c) (cn_ended c)) in
      with_heap st (fold_left (fun h ni => alter forget (snd ni) h) (cn_views c) (heap st))
  end.
(** [close]. *)
Definition close (release : string) (st : State) : State :=
  fold_left (fun st id =>
    disconnect id match get (conns st) id with Some c => with_conn st id (send c (Close release)) | None => st end)
    (keys (conns st)) st.

(** *** Reachable states. *)
Section Reached.
Context (bytesOf : Json -> Z) (equals : Json -> Json -> bool).

(** View object [i] is the one its connection has under its name. *)
Definition current (st : State) (id : string) (i : nat) : Prop :=
  exists c w, get (conns st) id = Some c /\ heap st !! i = Some w /\ get (cn_views c) (vw_id w) = Some i.

(** The hub's operations, in any order, where every answer and patch is for a view its connection still has. *)
Inductive step : State -> State -> Prop :=
| step_connect a st : step st (connect a st)
| step_drop id name st : step st (drop id name st)
| step_disconnect id st : step st (disconnect id st)
| step_register id name r st i st' : register id name r st = Ok (i, st') -> step st st'
| step_registered i st : step st (registered i st)
| step_put id i value ops arrivals st : current st id i -> step st (put bytesOf equals id i value ops arrivals st)
| step_deliver id i result st : current st id i -> step st (deliver bytesOf equals id i result st)
| step_publish cs st : step st (publish cs st)
| step_syncChanged model records st : step st (syncChanged model records st)
| step_flush st : step st (snd (take_batch st))
| step_authorize id a st : step st (authorize id a st).
Inductive reached : State -> Prop :=
| reached_init : reached init
| reached_step st st' : reached st -> step st st' -> reached st'.
End Reached.

(** *** The accounting invariant. *)

(** The view objects connections have, and their bytes. *)
Definition held (cs : dict Conn) : list nat := concat (map (fun ic => map snd (cn_views (snd ic))) cs).
Definition sum_bytes (h : list View) (ixs : list nat) : Z := foldr (fun i acc => bytes_at h i + acc) 0 ixs.
Definition named (h : list View) (c : Conn) : Prop :=
  wf_dict (cn_views c) /\ forall name i, (name, i) ∈ cn_views c -> exists w, h !! i = Some w /\ vw_id w = name.
Definition invariant (st : State) : Prop :=
  wf_dict (conns st) /\ Forall (fun ic => named (heap st) (snd ic) /\ exists k, 1 <= k <= n st /\ fst ic = conn_name k) (conns st) /\
  NoDup (held (conns st)) /\ retained st = sum_bytes (heap st) (held (conns st)) /\ retained st <= cellBytes /\
  Forall (fun w => 0 <= vw_bytes w) (heap st) /\ 0 <= n st.

Lemma get_split {A} (d : dict A) (k : string) (x : A) : get d k = Some x ->
  exists l1 l2, d = l1 ++ (k, x) :: l2 /\ forall y, set d k y = l1 ++ (k, y) :: l2.
Proof.
  induction d as [|[k' x'] d IH]; cbn [get set]; [done|]. destruct (String.eqb k' k) eqn:E.
  - intros [= ->]. apply String.eqb_eq in E as ->. by exists [], d.
  - intros H. destruct (IH H) as (l1 & l2 & -> & Hs). exists ((k', x') :: l1), l2. split; [done|]. intros y. cbn. by rewrite Hs.
Qed.
Lemma without_app {A} (l1 l2 : dict A) (k : string) (x : A) : wf_dict (l1 ++ (k, x) :: l2) -> without (l1 ++ (k, x) :: l2) k = l1 ++ l2.
Proof.
  unfold wf_dict, keys, without. rewrite map_app. cbn [map fst]. intros H. rewrite filter_app, filter_cons. cbn [fst].
  rewrite decide_False by (intros H'; by apply H').
  apply NoDup_app in H as (_ & H1 & H2). apply NoDup_cons in H2 as [H2 _].
  assert (forall l : dict A, k ∉ map fst l -> filter (fun kv => fst kv <> k) l = l) as Hf.
  { induction l as [|[k' y] l IH]; [done|]. cbn [map fst]. rewrite not_elem_of_cons. intros [Hne Hl]. rewrite filter_cons. cbn [fst].
    rewrite decide_True by done. by rewrite IH. }
  rewrite (Hf l2) by done. rewrite Hf; [done|]. intros Hk. apply (H1 k Hk). by left.
Qed.
Lemma held_app (a b : dict Conn) : held (a ++ b) = held a ++ held b.
Proof. unfold held. by rewrite map_app, concat_app. Qed.
Lemma held_cons (k : string) (c : Conn) (l : dict Conn) : held ((k, c) :: l) = map snd (cn_views c) ++ held l.
Proof. done. Qed.
Lemma sum_app (h : list View) (a b : list nat) : sum_bytes h (a ++ b) = sum_bytes h a + sum_bytes h b.
Proof. induction a as [|i a IH]; [done|]. cbn [app sum_bytes foldr]. fold (sum_bytes h (a ++ b)). fold (sum_bytes h a). rewrite IH. lia. Qed.
Lemma sum_views (h : list View) (vs : dict nat) : views_bytes h vs = sum_bytes h (map snd vs).
Proof. induction vs as [|[k i] vs IH]; [done|]. cbn [views_bytes foldr map sum_bytes snd]. f_equal. exact IH. Qed.
Lemma sum_perm (h : list View) (a b : list nat) : a ≡ₚ b -> sum_bytes h a = sum_bytes h b.
Proof. induction 1; cbn [sum_bytes foldr] in *; unfold sum_bytes in *; lia. Qed.
Lemma sum_same (h h' : list View) (ixs : list nat) : (forall i, i ∈ ixs -> bytes_at h' i = bytes_at h i) -> sum_bytes h' ixs = sum_bytes h ixs.
Proof.
  induction ixs as [|i ixs IH]; intros H; [done|]. cbn [sum_bytes foldr]. rewrite (H i) by (by left). f_equal. apply IH.
  intros j Hj. apply H. by right.
Qed.
Lemma bytes_nonneg (h : list View) (i : nat) : Forall (fun w => 0 <= vw_bytes w) h -> 0 <= bytes_at h i.
Proof.
  intros H. unfold bytes_at. destruct (h !! i) as [w|] eqn:E; [|done]. rewrite Forall_forall in H. apply H.
  by eapply list_elem_of_lookup_2.
Qed.
Lemma sum_nonneg (h : list View) (ixs : list nat) : Forall (fun w => 0 <= vw_bytes w) h -> 0 <= sum_bytes h ixs.
Proof.
  intros H. induction ixs as [|i ixs IH]; cbn [sum_bytes foldr]; [lia|]. fold (sum_bytes h ixs).
  pose proof (bytes_nonneg h i H). lia.
Qed.

(** A connection that keeps its views keeps the invariant. *)
Lemma keep_views (st : State) (id : string) (c c' : Conn) :
  invariant st -> get (conns st) id = Some c -> cn_views c' = cn_views c -> invariant (with_conn st id c').
Proof.
  intros (Hwf & Hall & Hnd & Hret & Hmax & Hb & Hn) Hc Hv. destruct (get_split _ _ _ Hc) as (l1 & l2 & E & Hset).
  unfold invariant. cbn [with_conn conns heap retained n]. rewrite Hset. rewrite E in *.
  assert (held (l1 ++ (id, c') :: l2) = held (l1 ++ (id, c) :: l2)) as -> by (rewrite !held_app, !held_cons; by rewrite Hv).
  split_and!; try done.
  - unfold wf_dict, keys in *. rewrite map_app in *. done.
  - apply Forall_app in Hall as [H1 H2]. apply Forall_app. split; [done|]. apply Forall_cons in H2 as [[H2 H3] H4].
    constructor; [|done]. split; [|done]. unfold named in *. cbn [snd] in *. by rewrite Hv.
Qed.
Lemma held_bound (st : State) (i : nat) : invariant st -> i ∈ held (conns st) -> (i < length (heap st))%nat.
Proof.
  intros (_ & Hall & _) Hi. unfold held in Hi. apply list_elem_of_In, in_concat in Hi as (l & Hl & Hi).
  apply in_map_iff in Hl as ((id & c) & <- & Hc). apply in_map_iff in Hi as ((name & j) & <- & Hj).
  rewrite Forall_forall in Hall. destruct (Hall (id, c)) as [[_ Hn] _]; [by apply list_elem_of_In|].
  destruct (Hn name j) as (w & Hw & _); [by apply list_elem_of_In|]. by eapply lookup_lt_Some.
Qed.

Lemma drop_invariant (st : State) (id name : string) : invariant st ->
  invariant (drop id name st) /\ heap (drop id name st) = heap st /\ n (drop id name st) = n st /\
  (forall i, i ∈ held (conns (drop id name st)) -> i ∈ held (conns st)) /\
  (forall c, get (conns st) id = Some c -> exists c', get (conns (drop id name st)) id = Some c' /\ get (cn_views c') name = None).
Proof.
  intros Hinv. pose proof Hinv as (Hwf & Hall & Hnd & Hret & Hmax & Hb & Hn). unfold drop. destruct (get (conns st) id) as [c|] eqn:Ec.
  2:{ split_and!; try done. }
  destruct (get (cn_views c) name) as [i|] eqn:Ei.
  2:{ split_and!; try done. intros c0 [= <-]. by exists c. }
  destruct (get_split _ _ _ Ec) as (l1 & l2 & E & Hset). destruct (get_split _ _ _ Ei) as (v1 & v2 & Ev & _).
  assert (named (heap st) c /\ exists k, 1 <= k <= n st /\ id = conn_name k) as [[Hvwf Hvn] Hk].
  { rewrite E in Hall. apply Forall_app in Hall as [_ H2]. by apply Forall_cons in H2 as [H2 _]. }
  assert (without (cn_views c) name = v1 ++ v2) as Ew by (rewrite Ev; apply without_app; by rewrite <- Ev).
  assert (held (l1 ++ (id, c) :: l2) ≡ₚ i :: held (l1 ++ (id, with_views c (without (cn_views c) name)) :: l2)) as HP.
  { rewrite !held_app, !held_cons. cbn [with_views cn_views]. rewrite Ew. rewrite Ev at 1. rewrite !map_app. cbn [map snd].
    rewrite <- !app_assoc. cbn [app]. by rewrite <- !Permutation_middle. }
  rewrite E in Hnd, Hret. rewrite HP in Hnd. rewrite (sum_perm _ _ _ HP) in Hret. cbn [sum_bytes foldr] in Hret.
  fold (sum_bytes (heap st) (held (l1 ++ (id, with_views c (without (cn_views c) name)) :: l2))) in Hret.
  unfold invariant. cbn [with_conn with_retained conns heap retained n]. rewrite Hset. apply NoDup_cons in Hnd as [Hi Hnd]. split_and!.
  - unfold wf_dict, keys in *. rewrite E in Hwf. rewrite map_app in *. done.
  - rewrite E in Hall. apply Forall_app in Hall as [H1 H2]. apply Forall_app. split; [done|]. apply Forall_cons in H2 as [_ H4].
    constructor; [|done]. split; [|done]. cbn [snd]. split; cbn [with_views cn_views]; rewrite Ew.
    + unfold wf_dict, keys in *. rewrite Ev, map_app in Hvwf. cbn [map fst] in Hvwf. rewrite map_app.
      apply NoDup_app in Hvwf as (N1 & N2 & N3). apply NoDup_cons in N3 as [_ N3]. apply NoDup_app. split_and!; [done| |done].
      intros x Hx Hx'. apply (N2 x Hx). by right.
    + intros nm j Hj. apply Hvn. rewrite Ev. apply elem_of_app in Hj as [Hj|Hj]; apply elem_of_app; [by left|right; by right].
  - done.
  - lia.
  - pose proof (bytes_nonneg (heap st) i Hb). lia.
  - done.
  - done.
  - done.
  - done.
  - intros j Hj. rewrite E, HP. by right.
  - intros c0 [= <-]. eexists. split.
    + rewrite <- Hset. apply get_set_eq.
    + cbn [with_views cn_views]. pose proof (get_keys (without (cn_views c) name) name) as Hg. rewrite Ew in *.
      rewrite bool_decide_eq_false_2 in Hg; [by destruct (get (v1 ++ v2) name)|].
      unfold keys. rewrite map_app. unfold wf_dict, keys in Hvwf. rewrite Ev, map_app in Hvwf. cbn [map fst] in Hvwf.
      rewrite <- Permutation_middle in Hvwf. by apply NoDup_cons in Hvwf as [Hvwf _].
Qed.

Lemma same_core (st st' : State) : invariant st -> conns st' = conns st -> heap st' = heap st -> retained st' = retained st -> n st' = n st ->
  invariant st'.
Proof. unfold invariant. by intros H -> -> -> ->. Qed.

(** Two heaps whose objects agree in name and bytes. *)
Definition agree (h h' : list View) : Prop :=
  forall i, option_map (fun w => (vw_id w, vw_bytes w)) (h' !! i) = option_map (fun w => (vw_id w, vw_bytes w)) (h !! i).
Lemma agree_bytes (h h' : list View) (i : nat) : agree h h' -> bytes_at h' i = bytes_at h i.
Proof. intros H. specialize (H i). unfold bytes_at. destruct (h' !! i), (h !! i); cbn in H; congruence. Qed.
Lemma agree_named (h h' : list View) (c : Conn) : agree h h' -> named h c -> named h' c.
Proof.
  intros H [H1 H2]. split; [done|]. intros name i Hi. destruct (H2 name i Hi) as (w & Hw & Hn). specialize (H i). rewrite Hw in H.
  destruct (h' !! i) as [w'|]; cbn in H; [|done]. exists w'. split; [done|]. congruence.
Qed.
Lemma agree_invariant (st : State) (h' : list View) : invariant st -> agree (heap st) h' -> invariant (with_heap st h').
Proof.
  intros (Hwf & Hall & Hnd & Hret & Hmax & Hb & Hn) Ha. unfold invariant. cbn [with_heap conns heap retained n]. split_and!; try done.
  - eapply Forall_impl; [exact Hall|]. intros ic [H1 H2]. split; [by eapply agree_named|done].
  - rewrite Hret. symmetry. apply sum_same. intros j _. by apply agree_bytes.
  - apply Forall_forall. intros w Hw. apply list_elem_of_lookup in Hw as [j Hj]. pose proof (agree_bytes _ _ j Ha) as E.
    unfold bytes_at in E at 1. rewrite Hj in E. rewrite E. by apply bytes_nonneg.
Qed.

Lemma conn_name_inj (a b : Z) : 1 <= a -> 1 <= b -> conn_name a = conn_name b -> a = b.
Proof.
  unfold conn_name, dec_of. intros Ha Hb. rewrite !(proj2 (Z.ltb_ge _ 0)) by lia. intros H.
  assert (digits_of a = digits_of b) as E by (by injection H). rewrite <- (digits_of_val a), <- (digits_of_val b) by lia. by rewrite E.
Qed.

Lemma connect_invariant (st : State) (a : Authority) : invariant st -> invariant (connect a st).
Proof.
  intros (Hwf & Hall & Hnd & Hret & Hmax & Hb & Hn). unfold connect, invariant. cbn [with_conn conns heap retained n].
  assert (get (conns st) (conn_name (n st + 1)) = None) as Hf.
  { apply get_none. intros (ic & E & Hin)%list_elem_of_fmap. rewrite Forall_forall in Hall. destruct (Hall ic Hin) as [_ (k & Hk & Ek)].
    rewrite Ek in E. apply conn_name_inj in E; lia. }
  rewrite (set_fresh _ _ _ Hf). split_and!.
  - pose proof (wf_set _ (conn_name (n st + 1)) (MkConn a [] [Hello (conn_name (n st + 1)) (routed st)] false) Hwf) as H.
    by rewrite (set_fresh _ _ _ Hf) in H.
  - apply Forall_app. split.
    + eapply Forall_impl; [exact Hall|]. intros ic [H1 (k & Hk & Ek)]. split; [done|]. exists k. split; [lia|done].
    + constructor; [|constructor]. split; [split|]; cbn [fst snd cn_views].
      * constructor.
      * intros ? ? H. by apply elem_of_nil in H.
      * exists (n st + 1). split; [lia|done].
  - rewrite held_app, held_cons. cbn. by rewrite app_nil_r.
  - rewrite held_app, held_cons. cbn. by rewrite app_nil_r.
  - done.
  - done.
  - lia.
Qed.

Lemma disconnect_invariant (st : State) (id : string) : invariant st -> invariant (disconnect id st).
Proof.
  intros Hinv. pose proof Hinv as (Hwf & Hall & Hnd & Hret & Hmax & Hb & Hn). unfold disconnect. destruct (get (conns st) id) as [c|] eqn:Ec; [|done].
  destruct (get_split _ _ _ Ec) as (l1 & l2 & E & _). unfold invariant. cbn [conns heap retained n].
  rewrite E in *. rewrite without_app by done. rewrite sum_views.
  assert (held (l1 ++ (id, c) :: l2) ≡ₚ map snd (cn_views c) ++ held (l1 ++ l2)) as HP.
  { rewrite !held_app, held_cons. rewrite !app_assoc. apply Permutation_app_tail, Permutation_app_comm. }
  rewrite (sum_perm _ _ _ HP), sum_app in Hret. rewrite HP in Hnd. apply NoDup_app in Hnd as (_ & _ & Hnd).
  pose proof (sum_nonneg (heap st) (map snd (cn_views c)) Hb). split_and!; try done; try lia.
  - unfold wf_dict, keys in *. rewrite map_app in *. cbn [map fst] in Hwf. apply NoDup_app in Hwf as (N1 & N2 & N3).
    apply NoDup_cons in N3 as [_ N3]. apply NoDup_app. split_and!; [done| |done]. intros x Hx Hx'. apply (N2 x Hx). by right.
  - apply Forall_app in Hall as [H1 H2]. apply Forall_cons in H2 as [_ H2]. by apply Forall_app.
Qed.

Lemma register_invariant (st : State) (id name : string) (r : LiveRead) (i : nat) (st' : State) :
  invariant st -> register id name r st = Ok (i, st') -> invariant st'.
Proof.
  intros Hinv. unfold register. destruct (get (conns st) id) as [c|] eqn:Ec; [|done]. destruct (check r); [|done]. cbn [mbind outcome_bind].
  destruct (_ && _); [done|]. destruct (drop_invariant st id name Hinv) as (H1 & Hh & Hnn & _ & Hc). destruct (Hc c Ec) as (c' & Ec' & Hname).
  set (st1 := drop id name st) in *. cbn [with_heap conns]. rewrite Ec'. intros [= _ <-]. clear Hinv.
  pose proof H1 as (Hwf & Hall & Hnd & Hret & Hmax & Hb & Hn). destruct (get_split _ _ _ Ec') as (l1 & l2 & E & Hset).
  unfold invariant. cbn [with_conn with_heap conns heap retained n]. rewrite Hset.
  set (w := MkView r name 0 None None false). set (h := heap st1) in *.
  assert (forall j, (j < length h)%nat -> (h ++ [w]) !! j = h !! j) as Hext by (intros j Hj; by apply lookup_app_l).
  assert (forall c0, named h c0 -> named (h ++ [w]) c0) as Hnamed.
  { intros c0 [N1 N2]. split; [done|]. intros nm j Hj. destruct (N2 nm j Hj) as (w0 & Hw0 & Hid). exists w0. split; [|done].
    rewrite Hext; [done|by eapply lookup_lt_Some]. }
  assert (held (l1 ++ (id, with_views c' (set (cn_views c') name (length h))) :: l2) ≡ₚ length h :: held (conns st1)) as HP.
  { rewrite E, !held_app, !held_cons. cbn [with_views cn_views]. rewrite (set_fresh _ _ _ Hname), map_app. cbn [map snd].
    rewrite <- !app_assoc. cbn [app]. rewrite <- Permutation_middle. rewrite <- Permutation_middle. done. }
  assert (length h ∉ held (conns st1)) as Hnew by (intros Hi; apply (held_bound st1 _ H1) in Hi; fold h in Hi; lia).
  split_and!.
  - unfold wf_dict, keys in *. rewrite E in Hwf. rewrite map_app in *. done.
  - rewrite E in Hall. apply Forall_app in Hall as [A1 A2]. apply Forall_cons in A2 as [[A2 A3] A4]. apply Forall_app. split; [|constructor].
    + eapply Forall_impl; [exact A1|]. intros ic [? ?]. split; [by apply Hnamed|done].
    + split; [|done]. cbn [snd] in *. destruct (Hnamed c' A2) as [N1 N2]. split; cbn [with_views cn_views]; [by apply wf_set|].
      intros nm j Hj. rewrite (set_fresh _ _ _ Hname) in Hj. apply elem_of_app in Hj as [Hj|Hj]; [by apply N2|].
      apply list_elem_of_singleton in Hj as [= -> ->]. exists w. split; [|done]. by rewrite lookup_app_r, Nat.sub_diag.
    + eapply Forall_impl; [exact A4|]. intros ic [? ?]. split; [by apply Hnamed|done].
  - rewrite HP. by apply NoDup_cons.
  - rewrite (sum_perm _ _ _ HP). cbn [sum_bytes foldr]. unfold bytes_at at 1. rewrite lookup_app_r, Nat.sub_diag by done. cbn [lookup list_lookup vw_bytes w].
    fold (sum_bytes (h ++ [w]) (held (conns st1))). rewrite Hret. cbn. symmetry. apply sum_same. intros j Hj. apply (held_bound st1 _ H1) in Hj.
    unfold bytes_at. by rewrite Hext.
  - done.
  - apply Forall_app. split; [done|]. repeat constructor. cbn. lia.
  - done.
Qed.

Lemma agree_refl (h : list View) : agree h h.
Proof. by intros i. Qed.
Lemma authorize_invariant (st : State) (id : string) (a : Authority) : invariant st -> invariant (authorize id a st).
Proof.
  intros Hinv. unfold authorize. destruct (get (conns st) id) as [c|] eqn:Ec; [|done].
  set (c' := MkConn a (cn_views c) (cn_sent c) (cn_ended c)). pose proof (keep_views st id c c' Hinv Ec eq_refl) as H.
  apply agree_invariant; [done|]. cbn [with_conn heap]. generalize (cn_views c). intros vs.
  assert (forall h, agree (heap st) h -> agree (heap st) (fold_left (fun h ni => alter forget (snd ni) h) vs h)) as Hf; [|apply Hf, agree_refl].
  induction vs as [|[nm i] vs IH]; intros h Hh; [done|]. cbn [fold_left snd]. apply IH. intros j. rewrite <- (Hh j).
  rewrite list_lookup_alter. destruct (decide (i = j)) as [<-|]; [|done]. destruct (h !! i); reflexivity.
Qed.

Section Put_.
Context (bytesOf : Json -> Z) (equals : Json -> Json -> bool).
Hypothesis Hbytes : forall j, 0 <= bytesOf j.

Lemma current_held (st : State) (id : string) (i : nat) : current st id i -> i ∈ held (conns st).
Proof.
  intros (c & w & Hc & _ & Hi). unfold held. apply list_elem_of_In, in_concat. exists (map snd (cn_views c)).
  split; apply in_map_iff; [exists (id, c)|exists (vw_id w, i)]; (split; [done|]); apply list_elem_of_In; by apply get_in.
Qed.

Lemma put_invariant (st : State) (id : string) (i : nat) (value : Json) (ops : option (list PatchOp)) (arrivals : list Json) :
  invariant st -> current st id i -> invariant (put bytesOf equals id i value ops arrivals st).
Proof.
  intros Hinv Hcur. pose proof (current_held _ _ _ Hcur) as Hheld. destruct Hcur as (c & w & Hc & Hw & Hi). unfold put. rewrite Hc, Hw.
  destruct (match ops with None => _ | Some _ => _ end); [done|].
  assert (forall code message, invariant (let st := drop id (vw_id w) st in
    match get (conns st) id with Some c => with_conn st id (send c (ErrorFrame (vw_id w) code message)) | None => st end)) as Hover.
  { intros code message. cbv zeta. destruct (drop_invariant st id (vw_id w) Hinv) as (H & _). set (st1 := drop id (vw_id w) st) in *.
    destruct (get (conns st1) id) as [c1|] eqn:E1; [by eapply keep_views|done]. }
  destruct (subscriptionBytes <? bytesOf value); [apply Hover|].
  destruct (cellBytes <? retained st - vw_bytes w + bytesOf value) eqn:El; [apply Hover|]. apply Z.ltb_ge in El. clear Hover.
  cbv zeta. set (h := <[i := with_answer w (bytesOf value) value]> (heap st)).
  assert (invariant (with_heap (with_retained st (retained st + (bytesOf value - vw_bytes w))) h)) as H.
  { destruct Hinv as (Hwf & Hall & Hnd & Hret & Hmax & Hb & Hn). unfold invariant. cbn [with_heap with_retained conns heap retained n].
    pose proof (lookup_lt_Some _ _ _ Hw) as Hlt.
    assert (forall j, h !! j = if decide (j = i) then Some (with_answer w (bytesOf value) value) else heap st !! j) as Hlk.
    { intros j. unfold h. destruct (decide (j = i)) as [->|Hne]; [by apply list_lookup_insert_eq|by apply list_lookup_insert_ne]. }
    split_and!; try done.
    - eapply Forall_impl; [exact Hall|]. intros ic [[N1 N2] Hk]. split; [|done]. split; [done|]. intros nm j Hj.
      destruct (N2 nm j Hj) as (w0 & Hw0 & Hid). rewrite Hlk. destruct (decide (j = i)) as [->|]; [|by exists w0].
      rewrite Hw in Hw0. injection Hw0 as <-. by eexists.
    - apply list_elem_of_split in Hheld as (a & b & Eh). rewrite Eh in *. rewrite Hret, !sum_app. cbn [sum_bytes foldr].
      fold (sum_bytes h b). fold (sum_bytes (heap st) b). apply NoDup_app in Hnd as (_ & N1 & N2). apply NoDup_cons in N2 as [N2 _].
      assert (forall l, i ∉ l -> sum_bytes h l = sum_bytes (heap st) l) as Hs.
      { intros l Hl. apply sum_same. intros j Hj. unfold bytes_at. rewrite Hlk. destruct (decide (j = i)) as [->|]; done. }
      rewrite (Hs a), (Hs b); [|done|intros Ha; apply (N1 i Ha); by left]. unfold bytes_at. rewrite Hlk, Hw, decide_True by done. cbn. lia.
    - lia.
    - apply Forall_forall. intros w0 Hw0. apply list_elem_of_lookup in Hw0 as [j Hj]. rewrite Hlk in Hj. destruct (decide (j = i)).
      + injection Hj as <-. cbn. apply Hbytes.
      + rewrite Forall_forall in Hb. apply Hb. by eapply list_elem_of_lookup_2. }
  eapply (keep_views _ id c); [exact H|done|done].
Qed.

(** The hub's accounting is exact and bounded: while every answer and patch is delivered to a view its connection still
    has, whatever connections come and go and views are registered, re-registered, dropped, patched or re-authorised in
    whatever order, [retained] is exactly the bytes of the answers the registered views hold, and never above the cell's
    budget. *)
Theorem retained_exact (st : State) (Hr : reached bytesOf equals st) :
  retained st = sum_bytes (heap st) (held (conns st)) /\ 0 <= retained st <= cellBytes.
Proof.
  assert (invariant st) as (_ & _ & _ & Hret & Hmax & Hb & _).
  { induction Hr as [|st st' Hr IH Hs].
    - unfold invariant. cbn. split_and!; try done; try constructor.
    - destruct Hs as [a st|id name st|id st|id name r st i st' Hreg|i st|id i value ops arrivals st Hc|id i result st Hc|cs st|model records st|st|id a st].
      + by apply connect_invariant.
      + by apply drop_invariant.
      + by apply disconnect_invariant.
      + by eapply register_invariant.
      + apply agree_invariant; [done|]. intros j. rewrite list_lookup_alter. destruct (decide (i = j)) as [<-|]; [|done].
        destruct (heap st !! i); reflexivity.
      + by apply put_invariant.
      + unfold deliver. pose proof Hc as (c & w & Ec & Ew & Ei). rewrite Ec, Ew. destruct (has_own (cn_views c) (vw_id w)); [|done].
        destruct result as [value|[code message]]; [by apply put_invariant|by eapply keep_views].
      + destruct cs; [done|]. by apply (same_core st).
      + unfold syncChanged. destruct records as [[|]|]; [done| |]; by apply (same_core st).
      + by apply (same_core st).
      + by apply authorize_invariant. }
  split; [done|]. split; [|done]. rewrite Hret. by apply sum_nonneg.
Qed.
End Put_.

(** An answer that arrives for a view whose name was registered again meanwhile is counted though no view holds it: after
    the connection is gone its bytes are still retained. *)
Definition somebody : Authority :=
  MkAuthority "k" (ActApiKey "k") true [] None None None None [] [] (MkCaps [] [] [] []) [] [] [].
Definition one_view : LiveRead := ConversationsRead "m".
Definition size (_ : Json) : Z := 10.
Definition never (_ _ : Json) : bool := false.
Definition twice : outcome State :=
  s1 ← register "c1" "x" one_view (connect somebody init); s2 ← register "c1" "x" one_view (snd s1); Ok (snd s2).
Lemma stale_answer_leaks :
  option_map (fun st => (keys (conns st), retained st))
    match twice with Ok st => Some (disconnect "c1" (deliver size never "c1" 0 (inl JNull) st)) | _ => None end = Some ([], 10).
Proof. vm_compute. reflexivity. Qed.
End Hub.

(** ** A live list ordered by a number. *)
Module Sample.
Import Views PatchFacts PageFacts.

Definition item (id : string) (k : Z) : Row := [("id"%string, JString id); ("n"%string, JNumber (inject_Z k))].
Definition good (x : Row) : Prop := exists id k, x = item id k.
Definition number_of (x : Row) : Z := match get x "n" with Some (JNumber q) => Qnum q | _ => 0 end.
Definition lt (x y : Row) : Prop :=
  number_of x < number_of y \/ (number_of x = number_of y /\ str_ltb (text_at x "id") (text_at y "id") = true).
Definition cursor (x : Row) : string := dec_of (number_of x) +:+ " " +:+ text_at x "id".

Definition model : ModelInfo :=
  MkModel "item" false [("id", with_pg (fieldInfo "id" (id_kind (Some "item"%string))) "uuid"); ("n", fieldInfo "n" (kind_only "number"))]%string
    [] [] ["id"%string] [] None None None [].
Definition cat : Catalog := MkCatalog [("item"%string, model)] [("item"%string, MkLevel "item" "item" model None None)] [] [].
Definition list_read : ListRead :=
  MkListRead "item" None None (Select None false []) (Some [MkOrder "n" Asc None]) None None (Limit 2 None) false None None.
Definition live : LiveRead := StoreRead (Read list_read).

Definition column (k : OrderKey) (x y : Row) : comparison :=
  if String.eqb (ord_field k) "n" then (number_of x ?= number_of y)
  else if String.eqb (text_at x "id") (text_at y "id") then Eq else if str_ltb (text_at x "id") (text_at y "id") then Lt else Gt.
Lemma item_key (a : string) (k : Z) : key (item a k) = Some (JString a).
Proof. done. Qed.
Lemma item_lt (a b : string) (k m : Z) : lt (item a k) (item b m) = (k < m \/ (k = m /\ str_ltb a b = true)).
Proof. done. Qed.
(** The hub reads a decimal through [Number]: two that differ past binary64 tie, and the id places a row before one the
    database, which sorts the decimals themselves, puts first. *)
Definition decimal_item (id dec : string) : Row := [("id"%string, JString id); ("n"%string, JObject [("$dec"%string, JString dec)])].
Example close_decimals_tie :
  before [] list_read (decimal_item "a" "9007199254740993") (decimal_item "b" "9007199254740992") = Some true.
Proof. vm_compute. reflexivity. Qed.
Lemma order_ok : ordered cat live lt column good.
Proof.
  split.
  - unfold lt. intros x [H|[_ H]]; [lia|by rewrite str_ltb_irrefl in H].
  - unfold lt. intros x y z [H1|[H1 H1']] [H2|[H2 H2']]; [left; lia..|right]. split; [lia|by eapply str_ltb_trans].
  - intros x y (a & k & ->) (b & m & ->) Hk. rewrite !item_key in Hk. rewrite !item_lt.
    destruct (Z.lt_total k m) as [?|[->|?]]; [by left; left| |by right; left].
    destruct (str_ltb a b) eqn:H1; [left; by right|]. destruct (str_ltb b a) eqn:H2; [right; by right|].
    by rewrite (str_ltb_total a b H1 H2) in Hk.
  - intros x y (a & k & ->) (b & m & ->). rewrite item_lt. change (sorts_before live column (item a k) (item b m)) with
      (sorts column [MkOrder "n" Asc None; MkOrder "id" Asc None] (item a k) (item b m)).
    assert (compares column (MkOrder "n" Asc None) (item a k) (item b m) = (k ?= m)) as Hn by done.
    assert (compares column (MkOrder "id" Asc None) (item a k) (item b m) = if String.eqb a b then Eq else if str_ltb a b then Lt else Gt) as Hi by done.
    split.
    + intros [H|[-> H]]; [apply sorts_here; by rewrite Hn|]. apply sorts_next; [by rewrite Hn, Z.compare_refl|]. apply sorts_here. rewrite Hi, H.
      destruct (String.eqb_spec a b) as [->|]; [by rewrite str_ltb_irrefl in H|done].
    + inversion 1 as [? ? ? ? H1|? ? ? ? H1 H2]; subst; rewrite Hn in H1; [by left|]. apply Z.compare_eq in H1. right. split; [done|].
      inversion H2 as [? ? ? ? H3|? ? ? ? _ H3]; subst; [|inversion H3]. rewrite Hi in H3. destruct (String.eqb a b); [done|]. by destruct (str_ltb a b).
  - intros l k x y [= <-] Hk _ (a & i & ->) (b & j & ->). cbn [list_read lr_order default from_option id app] in Hk.
    apply elem_of_cons in Hk as [->|Hk]; [|apply list_elem_of_singleton in Hk as ->].
    + change (agrees false (Some (JNumber (inject_Z i))) (Some (JNumber (inject_Z j))) (i ?= j)).
      assert ((i ?= j) = (inject_Z i ?= inject_Z j)%Q) as -> by (unfold Qcompare; cbn; by rewrite !Z.mul_1_r). apply agrees_number; constructor.
    + change (agrees false (Some (JString a)) (Some (JString b)) (if String.eqb a b then Eq else if str_ltb a b then Lt else Gt)).
      destruct (String.eqb_spec a b) as [->|Hne]; [apply agrees_same|by apply agrees_string].
Qed.

Definition changed (id : string) (op : CapturedOp) (old new : option Row) : Captured := MkCaptured "item" id op 2 old new Direct.
Definition three : Page := MkPage [item "a" 1; item "b" 2; item "c" 9] None.
(** One flush: "a" moves past "b", "d" arrives and "b" goes. *)
Definition flush : list (Captured * option Row) :=
  [ (changed "a" OpUpdate (Some (item "a" 1)) (Some (item "a" 3)), Some (item "a" 3));
    (changed "d" OpCreate None (Some (item "d" 5)), Some (item "d" 5));
    (changed "b" OpDelete (Some (item "b" 2)) None, None) ].
Definition flush_ops : list PatchOp := [Upsert 1 (item "a" 3); Upsert 2 (item "d" 5); RemoveRow "b"].
Definition limit_four : LiveRead :=
  StoreRead (Read (MkListRead "item" None None (Select None false []) (Some [MkOrder "n" Asc None]) None None (Limit 4 None) false None None)).

#[local] Ltac distinct :=
  cbn; repeat apply NoDup_cons_2; try apply NoDup_nil_2;
  let H := fresh in intros H; repeat (apply elem_of_cons in H as [H|H]; [discriminate H|]); by apply elem_of_nil in H.
Lemma three_ids : ids_ok (rows three).
Proof. split; [repeat constructor; eexists; reflexivity|]. distinct. Qed.
Lemma patch_matches_witness :
  is_listed limit_four = true /\
  exists v', patched (Some (page_json three)) flush_ops = Some v' /\ pageOf v' = Some (MkPage [item "a" 3; item "d" 5; item "c" 9] None).
Proof.
  split; [reflexivity|].
  apply (patch_matches json_eqb cat limit_four (page_json three) (page_json (MkPage [item "a" 3; item "d" 5; item "c" 9] None)) three flush flush_ops).
  - reflexivity.
  - apply pageOf_page.
  - apply three_ids.
  - repeat constructor; intros x; intros [= <-]; reflexivity.
  - vm_compute. reflexivity.
Defined.

(** The view holds the first two of three rows; "b" moves to the front, which its last row's key says stays within the page. *)
Definition first_two : Page := MkPage [item "a" 1; item "b" 2] (Some (Some (cursor (item "b" 2)))).
Definition closer : Captured := changed "a" OpUpdate (Some (item "a" 1)) (Some (item "a" 0)).
Definition all_rows : list Row := [item "c" 9; item "a" 1; item "b" 2].
Lemma all_good : Forall good (all_rows ++ [item "a" 0]).
Proof. repeat constructor; eexists _, _; reflexivity. Qed.
Lemma page_exact_witness :
  is_page live lt cursor all_rows first_two /\
  exists pg', pageOf (page_json (MkPage [item "a" 0; item "b" 2] (next first_two))) = Some pg' /\
    is_page live lt cursor (after all_rows "a" (Some (item "a" 0))) pg'.
Proof.
  assert (is_page live lt cursor all_rows first_two) as Hp.
  { exists [item "c" 9]. split; [split|split].
    - cbn. apply (Permutation_app_comm [item "a" 1; item "b" 2] [item "c" 9]).
    - repeat constructor; rewrite item_lt; left; lia.
    - cbn. lia.
    - exists (item "b" 2). done. }
  split; [exact Hp|].
  apply (page_exact json_eqb cat live lt cursor column good order_ok all_rows (page_json first_two)
    (page_json (MkPage [item "a" 0; item "b" 2] (next first_two))) first_two closer (Some (item "a" 0)) [Upsert 0 (item "a" 0)]).
  - exact json_eqb_eq.
  - reflexivity.
  - intros a b d e. discriminate.
  - split; [repeat constructor; eexists; reflexivity|]. distinct.
  - exact all_good.
  - intros x. intros [= <-]. reflexivity.
  - intros old x. intros [= <-] _ _ (fs & Hfs & Hk). vm_compute in Hfs. injection Hfs as <-. specialize (Hk (MkOrder "n" Asc None) ltac:(by left)).
    destruct Hk as (o & n & v & Ho & Hn & Hv & Hv'). cbn in Ho, Hn. injection Ho as <-. injection Hn as <-. vm_compute in Hv, Hv'. congruence.
  - apply pageOf_page.
  - exact Hp.
  - vm_compute. reflexivity.
Defined.

(** A connection takes a view, its answer of ten bytes is put, and the view is dropped. *)
Import Hub.
Definition with_view : State := match register "c1" "x" one_view (connect somebody init) with Ok (_, st) => st | _ => init end.
Definition answered : State := put size never "c1" 0 JNull None [] with_view.
Lemma retained_exact_witness : retained answered = 10 /\ 0 <= retained answered <= cellBytes.
Proof.
  assert (reached size never answered) as Hr.
  { eapply reached_step; [eapply reached_step; [eapply reached_step; [apply reached_init|apply (step_connect size never somebody)]|]|].
    - apply (step_register size never "c1" "x" one_view (connect somebody init) 0 with_view). vm_compute. reflexivity.
    - apply (step_put size never "c1" 0 JNull None [] with_view). eexists _, _. vm_compute. done. }
  destruct (retained_exact size never ltac:(intros j; vm_compute; discriminate) answered Hr) as [_ H]. split; [vm_compute; reflexivity|exact H].
Defined.
End Sample.
