(* ===== verification/Transactions.v ===== *)
(** Native interactive transactions: [packages/bolt/src/engine/transactions.ts], the retained read guards of
    [engine/write/sql.ts] (makeReadGuards), and the lane of one transaction at a time [engine/runs/index.ts] gives them.
    Module [Net] collapses the staged changes of a transaction, [Guards] is the optimistic read boundary, [Controller] the
    lease of one transaction from its opening to its commit or rollback. *)
From S2P Require Import Prelude Ir Contracts Hash Outcomes Eval Live.

(** ** Limits, [LIMITS] of engine/contracts.ts. *)
Definition MiB : Z := 1048576.
Definition changesPerAct : Z := 10000.
Definition readBytes : Z := 32 * MiB.
Definition automationCrossings : Z := 10000.
Definition readGuards_count : Z := 256.
Definition readGuards_bytes : Z := 4 * MiB.

(** ** Net changes. *)
Module Net.

(** [netChanges]: repeated changes of one row collapse to one. *)
Definition row_key (c : Captured) : string := c_model c +:+ "/" +:+ c_id c.
Definition merge (first row : Captured) : Captured :=
  MkCaptured (c_model row) (c_id row)
    (match c_old first, c_new row with None, _ => OpCreate | Some _, None => OpDelete | Some _, Some _ => OpUpdate end)
    (c_revision row) (c_old first) (c_new row)
    (if bool_decide (c_cause first = Direct) || bool_decide (c_cause row = Direct) then Direct else c_cause row).
Definition net_step (rows : dict Captured) (row : Captured) : dict Captured :=
  set rows (row_key row) match get rows (row_key row) with None => row | Some first => merge first row end.
Definition kept (c : Captured) : bool := is_some (c_old c) || is_some (c_new c).
Definition netChanges (captured : list Captured) : list Captured := List.filter kept (values (fold_left net_step captured [])).

(** The rows of a workspace, and what a change does to them. *)
Abbreviation store := (gmap (string * string) Row).
Definition pos (c : Captured) : string * string := (c_model c, c_id c).
Definition apply (c : Captured) (m : store) : store :=
  match c_new c with Some r => <[pos c := r]> m | None => delete (pos c) m end.
(** The changes were captured in order from [m] to the store it ends in. *)
Inductive run (m : store) : list Captured -> store -> Prop :=
| run_nil : run m [] m
| run_snoc cs m' c : run m cs m' -> m' !! pos c = c_old c -> run m (cs ++ [c]) (apply c m').
(** A change names what happened to its row. *)
Definition names_op (c : Captured) : Prop :=
  match c_old c, c_new c with
  | None, Some _ => c_op c = OpCreate
  | Some _, Some _ => c_op c = OpUpdate
  | Some _, None => c_op c = OpDelete
  | None, None => True
  end.
(** Model names hold no slash. *)
Definition plain_model (c : Captured) : Prop := has_char (Ascii.eqb "/") (c_model c) = false.

Lemma row_key_inj (a b : Captured) : plain_model a -> plain_model b -> row_key a = row_key b -> pos a = pos b.
Proof.
  unfold plain_model, row_key, pos. intros Ha Hb H.
  assert (forall s t, has_char (Ascii.eqb "/") s = false -> span (fun c => negb (Ascii.eqb "/" c)) (s +:+ String "/" t) = (s, String "/" t)) as Hs.
  { intros s t Hn. rewrite has_char_all in Hn. apply negb_false_iff in Hn. by apply span_stop. }
  apply (f_equal (span (fun c => negb (Ascii.eqb "/" c)))) in H. change ("/" +:+ c_id a) with (String "/" (c_id a)) in H.
  change ("/" +:+ c_id b) with (String "/" (c_id b)) in H. rewrite !Hs in H by done. by injection H as -> ->.
Qed.
Lemma apply_at (c : Captured) (m : store) : apply c m !! pos c = c_new c.
Proof. unfold apply. destruct (c_new c); [by rewrite lookup_insert_eq|by rewrite lookup_delete_eq]. Qed.
Lemma apply_ne (c : Captured) (m : store) (k : string * string) : k <> pos c -> apply c m !! k = m !! k.
Proof. intros Hk. unfold apply. destruct (c_new c); [by rewrite lookup_insert_ne|by rewrite lookup_delete_ne]. Qed.

Lemma set_in {A} (d : dict A) (k : string) (v : A) (k' : string) (v' : A) : wf_dict d ->
  (k', v') ∈ set d k v <-> (k' = k /\ v' = v) \/ (k' <> k /\ (k', v') ∈ d).
Proof.
  intros Hd. destruct (decide (k' = k)) as [->|Hk].
  - split; [|intros [[_ ->]|[? _]]; [apply get_in, get_set_eq|done]].
    intros H. apply in_get in H; [|by apply wf_set]. rewrite get_set_eq in H. injection H as ->. by left.
  - split; [intros H; right|intros [[-> _]|[_ H]]; [done|]].
    + apply in_get in H; [|by apply wf_set]. rewrite get_set_ne in H by congruence. split; [done|by apply get_in].
    + apply in_get in H; [|done]. apply get_in. by rewrite get_set_ne by congruence.
Qed.

(** [c] carries the revision of the last change of its row. *)
Definition last_of (cs : list Captured) (c : Captured) : Prop :=
  exists l1 x l2, cs = l1 ++ x :: l2 /\ pos x = pos c /\ c_revision x = c_revision c /\ Forall (fun y => pos y <> pos c) l2.

(** What the table of changes holds after a run. *)
Record collapsed (m m' : store) (cs : list Captured) (D : dict Captured) : Prop := MkCollapsed {
  col_wf : wf_dict D;
  col_key : forall k c, (k, c) ∈ D -> k = row_key c /\ plain_model c;
  col_ends : forall k c, (k, c) ∈ D -> c_old c = m !! pos c /\ c_new c = m' !! pos c;
  col_frame : forall p, (forall k c, (k, c) ∈ D -> pos c <> p) -> m !! p = m' !! p;
  col_seen : forall c, c ∈ cs -> exists k c', (k, c') ∈ D /\ pos c' = pos c;
  col_op : Forall names_op cs -> forall k c, (k, c) ∈ D -> names_op c;
  col_cause : forall k c, (k, c) ∈ D -> c_cause c = Direct <-> exists x, x ∈ cs /\ pos x = pos c /\ c_cause x = Direct;
  col_last : forall k c, (k, c) ∈ D -> last_of cs c }.

(** The row a change leaves in the table. *)
Definition put (D : dict Captured) (row : Captured) : Captured :=
  match get D (row_key row) with None => row | Some first => merge first row end.
Lemma put_pos (D : dict Captured) (row : Captured) : pos (put D row) = pos row /\ row_key (put D row) = row_key row /\
  c_new (put D row) = c_new row /\ (plain_model (put D row) <-> plain_model row).
Proof. unfold put. by destruct (get D (row_key row)). Qed.

Section Step.
Context (m m' : store) (cs : list Captured) (D : dict Captured) (row : Captured).
Hypothesis HC : collapsed m m' cs D.
Hypothesis Hplain : plain_model row.
Hypothesis Hold : m' !! pos row = c_old row.

(** The entry at a row's key is that row's, and there is none elsewhere. *)
Lemma at_key (k : string) (c : Captured) : (k, c) ∈ D -> k = row_key row <-> pos c = pos row.
Proof.
  intros Hc. destruct (col_key _ _ _ _ HC _ _ Hc) as [-> Hp]. split; [by apply row_key_inj|].
  unfold pos, row_key. by intros [= -> ->].
Qed.
Lemma put_old : c_old (put D row) = m !! pos row.
Proof.
  unfold put. destruct (get D (row_key row)) as [first|] eqn:E; cbn [merge c_old].
  - apply get_in in E. destruct (col_ends _ _ _ _ HC _ _ E) as [-> _]. f_equal. by apply (at_key _ _ E).
  - rewrite <- Hold. symmetry. apply (col_frame _ _ _ _ HC). intros k c Hc Hp.
    apply (at_key _ _ Hc) in Hp as ->. apply in_get in Hc; [|by apply (col_wf _ _ _ _ HC)]. congruence.
Qed.
Lemma put_names : Forall names_op (cs ++ [row]) -> names_op (put D row).
Proof.
  intros [_ Hr]%Forall_app. rewrite Forall_singleton in Hr. unfold put. destruct (get D (row_key row)) as [first|]; [|done].
  unfold names_op. cbn [merge c_old c_new c_op]. by destruct (c_old first), (c_new row).
Qed.
Lemma put_cause : c_cause (put D row) = Direct <-> exists x, x ∈ cs ++ [row] /\ pos x = pos row /\ c_cause x = Direct.
Proof.
  unfold put. destruct (get D (row_key row)) as [first|] eqn:E.
  - apply get_in in E. pose proof (proj1 (at_key _ _ E) eq_refl) as Hp. pose proof (col_cause _ _ _ _ HC _ _ E) as Hc. rewrite Hp in Hc.
    cbn [merge c_cause]. setoid_rewrite elem_of_app. setoid_rewrite list_elem_of_singleton.
    case_bool_decide as H1; [|case_bool_decide as H2]; cbn [orb].
    + apply Hc in H1 as (x & Hx & Hd). split; [|done]. intros _. exists x. tauto.
    + split; [|done]. intros _. exists row. tauto.
    + split; [done|]. intros (x & [Hx| ->] & Hq & Hd); [|done]. exfalso. apply H1, Hc. by exists x.
  - setoid_rewrite elem_of_app. setoid_rewrite list_elem_of_singleton. split; [intros Hd; exists row; tauto|].
    intros (x & [Hx| ->] & Hp & Hd); [|done]. destruct (col_seen _ _ _ _ HC _ Hx) as (k & c' & Hc & Hp').
    rewrite Hp in Hp'. apply (at_key _ _ Hc) in Hp' as ->. apply in_get in Hc; [|by apply (col_wf _ _ _ _ HC)]. congruence.
Qed.

Lemma collapsed_step : collapsed m (apply row m') (cs ++ [row]) (net_step D row).
Proof.
  pose proof (put_pos D row) as (Hpp & Hpk & Hpn & Hpm). pose proof (col_wf _ _ _ _ HC) as Hwf.
  assert (forall k c, (k, c) ∈ net_step D row <-> (k = row_key row /\ c = put D row) \/ (k <> row_key row /\ (k, c) ∈ D)) as Hin
    by (intros k c; by apply set_in).
  assert (forall k c, k <> row_key row -> (k, c) ∈ D -> pos c <> pos row) as Hne by (intros k c Hk Hc Hp; by apply Hk, (at_key _ _ Hc)).
  split.
  - by apply wf_set.
  - intros k c [[-> ->]|[_ Hc]]%Hin; [by rewrite Hpm|by apply (col_key _ _ _ _ HC)].
  - intros k c [[-> ->]|[Hk Hc]]%Hin; [rewrite Hpp, apply_at; split; [apply put_old|done]|].
    rewrite apply_ne by (by eapply Hne). by apply (col_ends _ _ _ _ HC k).
  - intros p Hp. rewrite apply_ne; [|intros ->; eapply Hp; [by apply Hin; left|done]].
    apply (col_frame _ _ _ _ HC). intros k c Hc <-. destruct (decide (k = row_key row)) as [->|Hk].
    + apply (Hp (row_key row) (put D row)); [by apply Hin; left|]. rewrite Hpp. symmetry. by apply (at_key _ _ Hc).
    + apply (Hp k c); [apply Hin; by right|done].
  - intros c [Hc| ->%list_elem_of_singleton]%elem_of_app; [|exists (row_key row), (put D row); split; [by apply Hin; left|done]].
    destruct (col_seen _ _ _ _ HC _ Hc) as (k & c' & Hc' & Hp). destruct (decide (k = row_key row)) as [->|Hk].
    + exists (row_key row), (put D row). split; [by apply Hin; left|]. rewrite Hpp, <- Hp. symmetry. by apply (at_key _ _ Hc').
    + exists k, c'. split; [apply Hin; by right|done].
  - intros Ho k c [[-> ->]|[_ Hc]]%Hin; [by apply put_names|]. apply Forall_app in Ho as [Ho _]. by apply (col_op _ _ _ _ HC Ho k).
  - intros k c [[-> ->]|[Hk Hc]]%Hin; [rewrite Hpp; apply put_cause|]. rewrite (col_cause _ _ _ _ HC _ _ Hc).
    setoid_rewrite elem_of_app. setoid_rewrite list_elem_of_singleton. split.
    + intros (x & Hx & Hp & Hd). exists x. tauto.
    + intros (x & [Hx| ->] & Hp & Hd); [by exists x|]. by destruct (Hne _ _ Hk Hc).
  - intros k c [[-> ->]|[Hk Hc]]%Hin.
    + exists cs, row, []. rewrite Hpp. split_and!; [done|done| |constructor]. unfold put. by destruct (get D (row_key row)).
    + destruct (col_last _ _ _ _ HC _ _ Hc) as (l1 & x & l2 & -> & Hp & Hr & Hl). exists l1, x, (l2 ++ [row]).
      split_and!; [by rewrite <- app_assoc|done|done|]. apply Forall_app. split; [done|]. rewrite Forall_singleton.
      intros Hq. by apply (Hne _ _ Hk Hc).
Qed.
End Step.

Lemma collapsed_run (m m' : store) (cs : list Captured) : run m cs m' -> Forall plain_model cs -> collapsed m m' cs (fold_left net_step cs []).
Proof.
  induction 1 as [|cs m' c Hr IH Ho]; intros Hp.
  - split; [by apply NoDup_nil_2|..]; cbn [fold_left]; try done; try (intros k c Hc; by apply elem_of_nil in Hc); try (intros ? k c Hc; by apply elem_of_nil in Hc).
    intros c Hc. by apply elem_of_nil in Hc.
  - apply Forall_app in Hp as [Hp [Hc _]%Forall_cons]. rewrite fold_left_app. cbn [fold_left]. by apply collapsed_step; [apply IH| |].
Qed.

(** Changes of distinct rows, each from what the store holds, run. *)
Lemma run_distinct (m : store) (l : list Captured) : NoDup (map pos l) -> Forall (fun c => c_old c = m !! pos c) l ->
  run m l (fold_left (fun m c => apply c m) l m) /\
  (forall c, c ∈ l -> fold_left (fun m c => apply c m) l m !! pos c = c_new c) /\
  (forall p, p ∉ map pos l -> fold_left (fun m c => apply c m) l m !! p = m !! p).
Proof.
  induction l as [|c l IH] using rev_ind; intros Hd Ho.
  { split_and!; [constructor|intros c Hc; by apply elem_of_nil in Hc|done]. }
  rewrite map_app in Hd. apply NoDup_app in Hd as (Hd & Hc & _). apply Forall_app in Ho as [Ho Hoc]. rewrite Forall_singleton in Hoc.
  destruct (IH Hd Ho) as (Hr & Hn & Hf). rewrite fold_left_app. cbn [fold_left].
  assert (pos c ∉ map pos l) as Hcl by (intros Hin; apply (Hc _ Hin); by left).
  split_and!.
  - constructor; [done|]. by rewrite Hf.
  - intros x [Hx| ->%list_elem_of_singleton]%elem_of_app; [|apply apply_at]. rewrite apply_ne; [by apply Hn|].
    intros Hp. apply Hcl. rewrite <- Hp. by apply (list_elem_of_fmap_2 pos).
  - intros p Hp. rewrite map_app, elem_of_app in Hp. rewrite apply_ne; [apply Hf; tauto|]. intros ->. apply Hp. right. by left.
Qed.

Lemma kept_spec (c : Captured) : kept c = false <-> c_old c = None /\ c_new c = None.
Proof. unfold kept. destruct (c_old c), (c_new c); cbn; naive_solver. Qed.
Lemma in_net (cs : list Captured) (c : Captured) :
  c ∈ netChanges cs <-> (exists k, (k, c) ∈ fold_left net_step cs []) /\ kept c = true.
Proof.
  unfold netChanges, values. rewrite list_elem_of_In, filter_In, <- list_elem_of_In. rewrite list_elem_of_fmap.
  split; [intros [([k y] & -> & H) Hk]|intros [[k H] Hk]]; (split; [|done]); [by exists k|by exists (k, c)].
Qed.
Lemma net_distinct (D : dict Captured) : wf_dict D -> (forall k c, (k, c) ∈ D -> k = row_key c) -> NoDup (map pos (List.filter kept (values D))).
Proof.
  unfold wf_dict, keys, values. induction D as [|[k c] D IH]; cbn [map fst snd]; intros Hd Hk; [constructor|].
  apply NoDup_cons in Hd as [Hn Hd]. assert (NoDup (map pos (List.filter kept (map snd D)))) as HI
    by (apply IH; [done|]; intros k' c' H; apply Hk; by right).
  cbn [List.filter]. destruct (kept c); [|done]. cbn [map]. constructor; [|done].
  intros H. apply list_elem_of_fmap in H as (c' & Hp & Hc'). apply list_elem_of_In, filter_In in Hc' as [Hc' _].
  apply list_elem_of_In, list_elem_of_fmap in Hc' as ([k' y] & Hy & Hin). cbn in Hy. subst y. apply Hn. apply list_elem_of_fmap. exists (k', c').
  split; [|done]. cbn. rewrite (Hk k c) by (by left). rewrite (Hk k' c') by (by right). unfold pos in Hp. unfold row_key. by injection Hp as -> ->.
Qed.

(** C4. The net changes of a transaction are exactly its effect. For row changes captured in order from a store [m] to a
    store [m'], with names that hold no slash: the net list has at most one change per row; running it from [m] gives [m'];
    each of its changes names what happened to the row from end to end and carries the revision of the row's last change; it is direct
    exactly when some change of the row was; and a row that was touched but is not listed exists at neither end. *)
Theorem net_changes_correct (m m' : store) (cs : list Captured) : run m cs m' -> Forall plain_model cs -> Forall names_op cs ->
  NoDup (map pos (netChanges cs)) /\ run m (netChanges cs) m' /\
  Forall (fun c => names_op c /\ last_of cs c /\ (c_cause c = Direct <-> exists x, x ∈ cs /\ pos x = pos c /\ c_cause x = Direct)) (netChanges cs) /\
  (forall c, c ∈ cs -> pos c ∉ map pos (netChanges cs) -> m !! pos c = None /\ m' !! pos c = None).
Proof.
  intros Hr Hp Ho. pose proof (collapsed_run m m' cs Hr Hp) as HC. set (D := fold_left net_step cs []) in *.
  assert (NoDup (map pos (netChanges cs))) as Hd.
  { apply net_distinct; [apply HC|]. intros k c Hc. by destruct (col_key _ _ _ _ HC _ _ Hc). }
  assert (forall c, c ∈ netChanges cs -> c_old c = m !! pos c /\ c_new c = m' !! pos c) as He.
  { intros c [[k Hc] _]%in_net. by apply (col_ends _ _ _ _ HC k). }
  assert (forall p, p ∉ map pos (netChanges cs) -> m !! p = m' !! p) as Hframe.
  { intros p Hn. destruct (decide (Exists (fun kc => pos (snd kc) = p) D)) as [Hx|Hx].
    - apply Exists_exists in Hx as ([k c] & Hin & <-). cbn [snd] in *. destruct (kept c) eqn:Hk.
      + destruct Hn. apply (list_elem_of_fmap_2 pos). apply in_net. split; [by exists k|done].
      + apply kept_spec in Hk as [H1 H2]. destruct (col_ends _ _ _ _ HC _ _ Hin) as [E1 E2]. congruence.
    - apply (col_frame _ _ _ _ HC). intros k c Hc Hq. apply Hx. apply Exists_exists. by exists (k, c). }
  split_and!; [done| | |].
  - destruct (run_distinct m (netChanges cs) Hd) as (HR & HN & HF); [apply Forall_forall; intros c Hc; by apply He|].
    replace m' with (fold_left (fun m c => apply c m) (netChanges cs) m); [done|]. apply map_eq. intros p.
    destruct (decide (p ∈ map pos (netChanges cs))) as [Hin|Hin]; [|by rewrite HF, Hframe].
    apply list_elem_of_fmap in Hin as (c & -> & Hc). rewrite HN by done. by apply He.
  - apply Forall_forall. intros c [[k Hc] _]%in_net.
    split_and!; [by apply (col_op _ _ _ _ HC Ho k)|by apply (col_last _ _ _ _ HC k)|by apply (col_cause _ _ _ _ HC k)].
  - intros c Hc Hn. destruct (col_seen _ _ _ _ HC _ Hc) as (k & c' & Hin & Hq). destruct (kept c') eqn:Hk.
    + destruct Hn. rewrite <- Hq. apply (list_elem_of_fmap_2 pos). apply in_net. split; [by exists k|done].
    + apply kept_spec in Hk as [H1 H2]. destruct (col_ends _ _ _ _ HC _ _ Hin) as [E1 E2]. rewrite Hq in E1, E2. split; congruence.
Qed.

(** One row created, updated and deleted; one updated twice, directly and by a cascade. *)
Definition demo_changes : list Captured :=
  let r (s : string) : Row := [("title", JString s)] in
  [MkCaptured "task" "1" OpCreate 1 None (Some (r "a")) Direct; MkCaptured "task" "2" OpUpdate 4 (Some (r "x")) (Some (r "y")) Direct;
   MkCaptured "task" "1" OpDelete 1 (Some (r "a")) None Cascade; MkCaptured "task" "2" OpUpdate 5 (Some (r "y")) (Some (r "z")) Derived].
Lemma net_changes_correct_witness :
  let m : store := {[("task", "2") := [("title", JString "x")]]} in
  run m demo_changes {[("task", "2") := [("title", JString "z")]]} /\
  netChanges demo_changes = [MkCaptured "task" "2" OpUpdate 5 (Some [("title", JString "x")]) (Some [("title", JString "z")]) Direct] /\
  NoDup (map pos (netChanges demo_changes)).
Proof.
  cbv zeta.
  assert (run {[("task", "2") := [("title", JString "x")]]} demo_changes {[("task", "2") := [("title", JString "z")]]}) as H.
  { set (m := {[("task", "2") := [("title", JString "x")]]}).
    set (c := fun i => List.nth i demo_changes (MkCaptured "" "" OpCreate 0 None None Direct)).
    assert (run m [c 0%nat] (apply (c 0%nat) m)) as H1 by (apply (run_snoc m []); [constructor|vm_compute; reflexivity]).
    assert (run m [c 0%nat; c 1%nat] (apply (c 1%nat) (apply (c 0%nat) m))) as H2 by (apply (run_snoc m [_]); [done|vm_compute; reflexivity]).
    assert (run m [c 0%nat; c 1%nat; c 2%nat] (apply (c 2%nat) (apply (c 1%nat) (apply (c 0%nat) m)))) as H3
      by (apply (run_snoc m [_; _]); [done|vm_compute; reflexivity]).
    replace {[("task", "2") := [("title", JString "z")]]} with (apply (c 3%nat) (apply (c 2%nat) (apply (c 1%nat) (apply (c 0%nat) m))))
      by (vm_compute; reflexivity).
    apply (run_snoc m [_; _; _] _ (c 3%nat)); [done|vm_compute; reflexivity]. }
  split_and!; [exact H|reflexivity|].
  apply (net_changes_correct _ _ _ H); repeat constructor.
Defined.
End Net.

(** ** The retained reads of an automation attempt. *)
Definition sort_names (xs : list string) : list string := map fst (sort_by str_ltb (map (fun x => (x, tt)) xs)).

Record Sql := MkSql { sql_text : string; sql_params : list Json }.
Record Fingerprint := MkFingerprint { fp_sql : Sql; fp_digest : string }.
Record ReadGuards := MkReadGuards {
  rg_sourceEpoch : option string; rg_fingerprints : list Fingerprint; rg_tables : list string; rg_inconsistent : bool }.

Module Guards.
Section Guards.
Context (number_text : number -> string).

Definition sql_json (s : Sql) : Json := JObject [("text", JString (sql_text s)); ("params", JArray (sql_params s))].
Definition sql_key (s : Sql) : string := canonical number_text (sql_json s).
(** [new TextEncoder().encode(s).length]: strings are their UTF-8 bytes. *)
Definition byte_length (s : string) : Z := Z.of_nat (String.length s).

(** A row of a fingerprinted statement: a row of the read, or the digest of them all. *)
Inductive FingerprintRow := FpRow (r : Row) | FpDigest (d : string).
Definition open_envelope (env : list FingerprintRow) : list Row * option string :=
  fold_left (fun acc row => match row with FpDigest d => (fst acc, Some d) | FpRow r => (fst acc ++ [r], snd acc) end) env ([], None).
Definition db_error (message : string) : DbError := MkDbError "08P01" message None None.
(** The answers of one round trip: [None] where the envelope does not decode. *)
Fixpoint open_answers (originals : list Sql) (answers : list (option (list FingerprintRow))) : DbError + (list (list Row) * list Fingerprint) :=
  match originals, answers with
  | [], _ => inr ([], [])
  | _ :: _, [] => inl (db_error "a fingerprinted read returned no answer")
  | _ :: _, None :: _ => inl (db_error "the envelope does not decode")
  | sql :: originals', Some env :: answers' =>
      match open_envelope env with
      | (_, None) => inl (db_error "a fingerprinted read returned no digest")
      | (values, Some digest) =>
          match open_answers originals' answers' with
          | inl e => inl e
          | inr (rows, fps) => inr (values :: rows, MkFingerprint sql digest :: fps)
          end
      end
  end.
Definition readFingerprints (originals : list Sql) (answers : list (option (list FingerprintRow))) : DbError + (list (list Row) * list Fingerprint) :=
  if negb (Nat.eqb (length answers) (length originals)) then inl (db_error "a fingerprinted read returned the wrong number of answers")
  else open_answers originals answers.

Record Entry := MkEntry { en_fingerprint : Fingerprint; en_tables : list string; en_generation : Z }.
(** The guards of one attempt, and one crossing of it. *)
Record State := MkState { published : dict Entry; generation : Z; inconsistent : bool }.
Record Crossing := MkCrossing { pending : dict Fingerprint; changed : bool }.
Definition start : State := MkState [] 0 false.
Definition begin : Crossing := MkCrossing [] false.

(** One fingerprint of a captured read. *)
Definition capture_one (st : State) (cr : Crossing) (f : Fingerprint) : Crossing :=
  let key := sql_key (fp_sql f) in
  let first := match get (pending cr) key with Some p => Some p | None => option_map en_fingerprint (get (published st) key) end in
  MkCrossing
    (match get (pending cr) key with Some _ => pending cr | None => set (pending cr) key (default f first) end)
    (changed cr || match first with Some p => negb (String.eqb (fp_digest p) (fp_digest f)) | None => false end).
Definition capture (st : State) (cr : Crossing) (originals : list Sql) (answers : list (option (list FingerprintRow)))
  : DbError + (list (list Row) * Crossing) :=
  match readFingerprints originals answers with
  | inl e => inl e
  | inr (rows, fps) => inr (rows, fold_left (capture_one st) fps cr)
  end.

(** The entries a finish would publish, and whether one of the pending reads disagrees with the published one. *)
Definition entry_for (st : State) (tables : list string) (k : string) (f : Fingerprint) : Entry :=
  let first := get (published st) k in
  MkEntry (match first with Some e => en_fingerprint e | None => f end)
    (sort_names (uniq (match first with Some e => en_tables e | None => [] end ++ sort_names tables))) (generation st + 1).
Definition differs (st : State) (k : string) (f : Fingerprint) : bool :=
  match get (published st) k with Some e => negb (String.eqb (fp_digest (en_fingerprint e)) (fp_digest f)) | None => false end.
Definition publish_one (st : State) (tables : list string) (acc : dict Entry * bool) (kf : string * Fingerprint) : dict Entry * bool :=
  (set (fst acc) (fst kf) (entry_for st tables (fst kf) (snd kf)), snd acc || differs st (fst kf) (snd kf)).
Definition next_of (st : State) (cr : Crossing) (tables : list string) : dict Entry * bool :=
  fold_left (publish_one st tables) (pending cr) (published st, changed cr).
Definition held_tables (next : dict Entry) : list string := uniq (flat_map en_tables (values next)).
Definition guard_bytes (next : dict Entry) : Z :=
  fold_left (fun size k => size + byte_length k) (keys next) 0 +
  byte_length (canonical number_text (JArray (map JString (sort_names (held_tables next))))).
Definition READ_CHANGED : BoltError :=
  BoltError_make C_conflict PAdmission "a repeated native read changed during this automation attempt; start a fresh attempt" NoCause.
Definition READ_BUDGET : BoltError :=
  BoltError_make C_readBudgetExceeded PAdmission "retained native reads exceed 256 statements or 4194304 bytes" NoCause.
Definition finish (st : State) (cr : Crossing) (tables : list string) : State * option BoltError :=
  let (next, moved) := next_of st cr tables in
  if inconsistent st || moved then (MkState (published st) (generation st + 1) true, Some READ_CHANGED)
  else if (readGuards_count <? Z.of_nat (length next)) || (readGuards_bytes <? guard_bytes next) then (st, Some READ_BUDGET)
  else (MkState next (generation st + 1) (inconsistent st), None).

Definition snapshot (sourceEpoch : string) (st : State) : Z * ReadGuards :=
  (generation st,
   MkReadGuards (Some sourceEpoch) (map en_fingerprint (values (published st)))
     (sort_names (uniq (flat_map en_tables (values (published st))))) (inconsistent st)).
Definition consume (st : State) (consumed : Z) : State :=
  MkState (List.filter (fun ke => negb (en_generation (snd ke) <=? consumed)) (published st)) (generation st) (inconsistent st).

(** *** What a crossing has read.

    The captures of one crossing interleave with the finishes of others, so each sees its own state of the attempt. *)
Definition key_of (f : Fingerprint) : string := sql_key (fp_sql f).
Record keyed (st : State) : Prop := MkKeyed {
  ky_wf : wf_dict (published st);
  ky_key : forall k e, (k, e) ∈ published st -> key_of (en_fingerprint e) = k;
  ky_gen : forall k e, (k, e) ∈ published st -> en_generation e <= generation st }.
Inductive taken : list Fingerprint -> Crossing -> Prop :=
| taken_begin : taken [] begin
| taken_read log cr st originals answers rows fps : taken log cr -> keyed st ->
    readFingerprints originals answers = inr (rows, fps) -> taken (log ++ fps) (fold_left (capture_one st) fps cr).

Record reads (log : list Fingerprint) (cr : Crossing) : Prop := MkReads {
  rd_wf : wf_dict (pending cr);
  rd_from : forall k, is_some (get (pending cr) k) = true <-> exists f, f ∈ log /\ key_of f = k;
  rd_key : forall k f, get (pending cr) k = Some f -> key_of f = k;
  rd_same : changed cr = false -> forall f, f ∈ log -> option_map fp_digest (get (pending cr) (key_of f)) = Some (fp_digest f) }.

Lemma capture_one_reads (st : State) (log : list Fingerprint) (cr : Crossing) (f : Fingerprint) : keyed st -> reads log cr ->
  reads (log ++ [f]) (capture_one st cr f).
Proof.
  intros Hst [Hwf Hfrom Hkey Hsame]. unfold capture_one. fold (key_of f). destruct (get (pending cr) (key_of f)) as [p|] eqn:E.
  - split; cbn [pending changed]; [done| |done|].
    + intros k. rewrite Hfrom. setoid_rewrite elem_of_app. setoid_rewrite list_elem_of_singleton. split; [naive_solver|].
      intros (x & [Hx| ->] & <-); [by exists x|]. apply Hfrom. by rewrite E.
    + intros [Hc Hd]%orb_false_iff x [Hx| ->%list_elem_of_singleton]%elem_of_app; [by apply Hsame|].
      rewrite E. cbn. apply negb_false_iff, String.eqb_eq in Hd. by rewrite Hd.
  - set (first := option_map en_fingerprint (get (published st) (key_of f))).
    assert (key_of (default f first) = key_of f) as Hk.
    { unfold first. destruct (get (published st) (key_of f)) as [e|] eqn:Ee; [|done]. cbn. apply (ky_key _ Hst). by apply get_in. }
    split; cbn [pending changed].
    + by apply wf_set.
    + intros k. setoid_rewrite elem_of_app. setoid_rewrite list_elem_of_singleton. destruct (decide (k = key_of f)) as [->|Hne].
      * rewrite get_set_eq. split; [intros _; exists f; tauto|done].
      * rewrite get_set_ne by congruence. rewrite Hfrom. split; [naive_solver|]. intros (x & [Hx| ->] & Hq); [by exists x|congruence].
    + intros k x. destruct (decide (k = key_of f)) as [->|Hne]; [rewrite get_set_eq; by intros [= <-]|].
      rewrite get_set_ne by congruence. apply Hkey.
    + intros [Hc Hd]%orb_false_iff x Hx. destruct (decide (key_of x = key_of f)) as [Hq|Hne].
      * rewrite Hq, get_set_eq. cbn [option_map]. apply elem_of_app in Hx as [Hx| ->%list_elem_of_singleton].
        { assert (is_some (get (pending cr) (key_of f)) = true) as H by (apply Hfrom; by exists x). by rewrite E in H. }
        destruct first as [p|]; [|done]. cbn. apply negb_false_iff, String.eqb_eq in Hd. by rewrite Hd.
      * rewrite get_set_ne by congruence. apply elem_of_app in Hx as [Hx| ->%list_elem_of_singleton]; [by apply Hsame|done].
Qed.
Lemma taken_reads (log : list Fingerprint) (cr : Crossing) : taken log cr -> reads log cr.
Proof.
  induction 1 as [|log cr st originals answers rows fps Ht IH Hst _].
  - split; cbn; try done; [apply NoDup_nil_2|intros k; split; [done|]; intros (f & Hf & _); by apply elem_of_nil in Hf|].
    intros _ f Hf. by apply elem_of_nil in Hf.
  - clear Ht. revert log cr IH. induction fps as [|f fps IHf]; intros log cr IH; cbn [fold_left]; [by rewrite app_nil_r|].
    change (f :: fps) with ([f] ++ fps). rewrite app_assoc. apply IHf. by apply capture_one_reads.
Qed.

(** The table a finish builds. *)
Lemma publish_fold (st : State) (tables : list string) (l : dict Fingerprint) (d : dict Entry) (b : bool) : wf_dict l -> wf_dict d ->
  let r := fold_left (publish_one st tables) l (d, b) in
  wf_dict (fst r) /\
  (forall k, get (fst r) k = match get l k with None => get d k | Some f => Some (entry_for st tables k f) end) /\
  (snd r = false <-> b = false /\ forall k f, get l k = Some f -> differs st k f = false).
Proof.
  revert d b. induction l as [|[k f] l IH]; intros d b Hl Hd; [cbn; split_and!; [done|done|naive_solver]|]. cbv zeta. cbn [fold_left]. unfold wf_dict in Hl. cbn [keys map fst] in Hl.
  apply NoDup_cons in Hl as [Hn Hl]. change (publish_one st tables (d, b) (k, f)) with (set d k (entry_for st tables k f), b || differs st k f).
  destruct (IH (set d k (entry_for st tables k f)) (b || differs st k f) Hl (wf_set _ _ _ Hd)) as (H1 & H2 & H3).
  assert (get l k = None) as El.
  { destruct (get l k) as [g|] eqn:E; [|done]. exfalso. apply Hn. apply get_in in E. apply list_elem_of_fmap. by exists (k, g). }
  split_and!; [exact H1| |].
  - intros x. rewrite H2. cbn [get]. destruct (String.eqb_spec k x) as [<-|Hx]; [by rewrite El, get_set_eq|].
    destruct (get l x); [done|]. by apply get_set_ne.
  - rewrite H3, orb_false_iff. cbn [get]. split.
    + intros [[Hb Hk] Hall]. split; [done|]. intros x g. destruct (String.eqb_spec k x) as [<-|Hx]; [by intros [= <-]|by apply Hall].
    + intros [Hb Hall]. split_and!; [done|by apply Hall; rewrite String.eqb_refl|]. intros x g Hg. apply Hall.
      destruct (String.eqb_spec k x) as [<-|Hx]; [congruence|done].
Qed.

Lemma elem_of_sort_names (xs : list string) (x : string) : x ∈ sort_names xs <-> x ∈ xs.
Proof.
  unfold sort_names. change (map fst) with (fmap (M := list) (@fst string unit)). rewrite (Canonical.sort_by_perm str_ltb).
  rewrite <- list_fmap_compose. cbn. by rewrite list_fmap_id.
Qed.
Lemma next_of_spec (st : State) (log : list Fingerprint) (cr : Crossing) (tables : list string) : keyed st -> reads log cr ->
  wf_dict (fst (next_of st cr tables)) /\
  (forall k, get (fst (next_of st cr tables)) k =
     match get (pending cr) k with None => get (published st) k | Some f => Some (entry_for st tables k f) end) /\
  (snd (next_of st cr tables) = false <-> changed cr = false /\ forall k f, get (pending cr) k = Some f -> differs st k f = false).
Proof. intros Hst Hr. apply publish_fold; [apply Hr|apply Hst]. Qed.
Lemma finish_cases (st : State) (cr : Crossing) (tables : list string) :
  finish st cr tables =
    if inconsistent st || snd (next_of st cr tables) then (MkState (published st) (generation st + 1) true, Some READ_CHANGED)
    else if (readGuards_count <? Z.of_nat (length (fst (next_of st cr tables)))) || (readGuards_bytes <? guard_bytes (fst (next_of st cr tables)))
    then (st, Some READ_BUDGET) else (MkState (fst (next_of st cr tables)) (generation st + 1) (inconsistent st), None).
Proof. unfold finish. by destruct (next_of st cr tables). Qed.

Lemma finish_keyed (st : State) (log : list Fingerprint) (cr : Crossing) (tables : list string) : keyed st -> reads log cr ->
  keyed (fst (finish st cr tables)).
Proof.
  intros Hst Hr. destruct (next_of_spec st log cr tables Hst Hr) as (Hwf & Hget & _). rewrite finish_cases.
  destruct (_ || _); [|destruct (_ || _); [done|]]; cbn [fst]; split; cbn [published generation]; try done; try apply Hst.
  - intros k e He. pose proof (ky_gen _ Hst _ _ He). lia.
  - intros k e He. apply (in_get _ _ _ Hwf) in He. rewrite Hget in He. destruct (get (pending cr) k) as [f|] eqn:E.
    + injection He as <-. unfold entry_for. cbn [en_fingerprint]. destruct (get (published st) k) as [e|] eqn:Ee; [|by apply (rd_key _ _ Hr)].
      apply (ky_key _ Hst). by apply get_in.
    + apply (ky_key _ Hst). by apply get_in.
  - intros k e He. apply (in_get _ _ _ Hwf) in He. rewrite Hget in He. destruct (get (pending cr) k) as [f|] eqn:E.
    + injection He as <-. cbn. lia.
    + apply get_in in He. pose proof (ky_gen _ Hst _ _ He). lia.
Qed.

(** What a finished crossing leaves behind. For a crossing whose captured reads are [log], taken while other crossings may
    have finished in between: when its finish succeeds, every read it captured is published with the digest it was captured with,
    at the new generation and with the crossing's tables among its dependencies; no other entry changes; and the retained
    statements and bytes are within their limits. When it fails, what is published does not change: over budget nothing changes at all,
    and a changed read marks the attempt inconsistent for good. *)
Theorem finish_correct (st : State) (log : list Fingerprint) (cr : Crossing) (tables : list string) : keyed st -> taken log cr ->
  let st' := fst (finish st cr tables) in
  match snd (finish st cr tables) with
  | None => inconsistent st = false /\ inconsistent st' = false /\ generation st' = generation st + 1 /\
      Forall (fun f => exists e, get (published st') (key_of f) = Some e /\ fp_digest (en_fingerprint e) = fp_digest f /\
        en_generation e = generation st' /\ (forall t, t ∈ tables -> t ∈ en_tables e) /\
        (forall e0, get (published st) (key_of f) = Some e0 -> en_fingerprint e = en_fingerprint e0 /\ forall t, t ∈ en_tables e0 -> t ∈ en_tables e)) log /\
      (forall k, Forall (fun f => key_of f <> k) log -> get (published st') k = get (published st) k) /\
      Z.of_nat (length (published st')) <= readGuards_count /\ guard_bytes (published st') <= readGuards_bytes
  | Some e => published st' = published st /\
      (e = READ_BUDGET /\ st' = st /\ inconsistent st = false \/ e = READ_CHANGED /\ inconsistent st' = true)
  end.
Proof.
  intros Hst Ht. apply taken_reads in Ht as Hr. destruct (next_of_spec st log cr tables Hst Hr) as (Hwf & Hget & Hmoved). cbv zeta.
  rewrite finish_cases. destruct (inconsistent st || snd (next_of st cr tables)) eqn:E1; cbn [fst snd]; [by split; [|right]|].
  apply orb_false_iff in E1 as [E1 E2]. apply Hmoved in E2 as [Hc Hd].
  destruct ((readGuards_count <? _) || _) eqn:E3; cbn [fst snd]; [by split; [|left]|].
  apply orb_false_iff in E3 as [E3 E4]. cbn [published generation inconsistent].
  split_and!; [done|done|done| | |lia|lia].
  - apply Forall_forall. intros f Hf. pose proof (rd_same _ _ Hr Hc f Hf) as Hp. rewrite Hget.
    destruct (get (pending cr) (key_of f)) as [p|] eqn:Ep; [|done]. cbn in Hp. injection Hp as Hp. eexists. split; [done|].
    specialize (Hd _ _ Ep). unfold differs in Hd. unfold entry_for. cbn [en_fingerprint en_generation en_tables].
    setoid_rewrite elem_of_sort_names. setoid_rewrite elem_of_uniq. setoid_rewrite elem_of_app. setoid_rewrite elem_of_sort_names.
    destruct (get (published st) (key_of f)) as [e0|].
    + apply negb_false_iff, String.eqb_eq in Hd. rewrite Hd. split_and!; [done|done|by right|]. intros e1 [= <-]. split; [done|by left].
    + by split_and!; [|..|right|].
  - intros k Hk. rewrite Hget. destruct (get (pending cr) k) as [p|] eqn:Ep; [|done]. exfalso.
    assert (is_some (get (pending cr) k) = true) as H by (by rewrite Ep). apply (rd_from _ _ Hr) in H as (f & Hf & Hq).
    rewrite Forall_forall in Hk. by apply (Hk f).
Qed.

(** The crossings that finished after a state of the attempt, and the reads the successful ones captured. *)
Inductive later (st : State) : list string -> State -> Prop :=
| later_none : later st [] st
| later_finish ks st1 log cr tables : later st ks st1 -> taken log cr ->
    later st (ks ++ match snd (finish st1 cr tables) with None => map key_of log | Some _ => [] end) (fst (finish st1 cr tables)).
Record since (st st1 : State) (ks : list string) : Prop := MkSince {
  sn_keyed : keyed st1;
  sn_gen : generation st <= generation st1;
  sn_new : forall k e, get (published st1) k = Some e -> en_generation e <= generation st <-> k ∉ ks;
  sn_old : forall k, k ∉ ks -> get (published st1) k = get (published st) k;
  sn_kept : forall k, is_some (get (published st) k) = true \/ k ∈ ks -> is_some (get (published st1) k) = true;
  sn_sticky : inconsistent st = true -> inconsistent st1 = true /\ ks = [] }.
Lemma later_since (st st1 : State) (ks : list string) : keyed st -> later st ks st1 -> since st st1 ks.
Proof.
  intros Hst. induction 1 as [|ks st1 log cr tables _ IH Ht].
  { split; try done; [|set_solver]. intros k e He. split; [set_solver|]. intros _. by apply (ky_gen _ Hst k), get_in. }
  destruct IH as [Hk Hg Hn Ho Hp Hs]. pose proof (finish_correct st1 log cr tables Hk Ht) as HF. cbv zeta in HF.
  pose proof (finish_keyed st1 log cr tables Hk (taken_reads _ _ Ht)) as Hk'.
  destruct (snd (finish st1 cr tables)) as [err|] eqn:Ef.
  - rewrite app_nil_r. destruct HF as [HP HI]. split; rewrite ?HP; try done.
    + destruct HI as [(_ & -> & _)|[_ HI]]; [done|]. rewrite finish_cases in *. destruct (_ || _); cbn; [lia|]. destruct (_ || _); [done|cbn; lia].
    + intros Hi. destruct (Hs Hi) as [Hi1 ->]. split; [|done]. destruct HI as [(_ & -> & _)|[_ HI]]; done.
  - destruct HF as (Hi & Hi' & Hgen & Hl & Hf & _). rewrite Forall_forall in Hl.
    assert (forall k, k ∉ map key_of log -> get (published (fst (finish st1 cr tables))) k = get (published st1) k) as Hsame.
    { intros k Hn'. apply Hf, Forall_forall. intros f Hin <-. apply Hn'. by apply (list_elem_of_fmap_2 key_of). }
    assert (forall k, k ∈ map key_of log -> exists e, get (published (fst (finish st1 cr tables))) k = Some e /\ en_generation e = generation st1 + 1) as Hnew.
    { intros k Hin. apply list_elem_of_fmap in Hin as (f & -> & Hin). destruct (Hl f Hin) as (e & He & _ & Hge & _). exists e. by rewrite <- Hgen. }
    split; [done|lia|..].
    + intros k e He. rewrite not_elem_of_app. destruct (decide (k ∈ map key_of log)) as [Hin|Hin].
      * destruct (Hnew k Hin) as (e' & He' & Hge). rewrite He in He'. injection He' as <-. split; [lia|tauto].
      * rewrite Hsame in He by done. rewrite (Hn k e He). tauto.
    + intros k [H1 H2]%not_elem_of_app. rewrite Hsame by done. by apply Ho.
    + intros k Hor. destruct (decide (k ∈ map key_of log)) as [Hin|Hin]; [by destruct (Hnew k Hin) as (e & -> & _)|].
      rewrite Hsame by done. apply Hp. set_solver.
    + intros Hi0. destruct (Hs Hi0) as [? _]. congruence.
Qed.
Lemma get_consume (st : State) (g : Z) (k : string) (e : Entry) : keyed st ->
  get (published (consume st g)) k = Some e <-> get (published st) k = Some e /\ g < en_generation e.
Proof.
  intros Hst. unfold consume. cbn [published]. pose proof (ky_wf _ Hst) as Hwf.
  assert (forall x, (k, x) ∈ List.filter (fun ke => negb (en_generation (snd ke) <=? g)) (published st) <-> (k, x) ∈ published st /\ g < en_generation x) as H.
  { intros x. rewrite list_elem_of_In, filter_In, <- list_elem_of_In. cbn. rewrite negb_true_iff, Z.leb_gt. done. }
  split.
  - intros He%get_in. apply H in He as [He Hg]. split; [by apply in_get|done].
  - intros [He Hg]. apply in_get; [by apply Canonical.keys_filter|]. apply H. split; [by apply get_in|done].
Qed.

(** An act consumes exactly the guards it was given. After a snapshot is taken of a state and other crossings finish,
    consuming the snapshot's generation keeps an entry exactly when a crossing that succeeded since has read it again; an entry nobody
    has read again is removed, and one that was read since is still there. *)
Theorem consume_exact (st st1 : State) (ks : list string) (sourceEpoch : string) : keyed st -> later st ks st1 ->
  let st2 := consume st1 (fst (snapshot sourceEpoch st)) in
  (forall k e, get (published st2) k = Some e <-> get (published st1) k = Some e /\ k ∈ ks) /\
  (forall k, k ∈ ks -> is_some (get (published st2) k) = true) /\
  (inconsistent st = true -> inconsistent st2 = true /\ published st2 = []).
Proof.
  intros Hst Hl. pose proof (later_since st st1 ks Hst Hl) as [Hk Hg Hn Ho Hp Hs]. cbv zeta. cbn [snapshot fst].
  assert (forall k e, get (published (consume st1 (generation st))) k = Some e <-> get (published st1) k = Some e /\ k ∈ ks) as Heq.
  { intros k e. rewrite get_consume by done. split; intros [He H]; (split; [done|]); pose proof (Hn k e He) as H1.
    - destruct (decide (k ∈ ks)) as [|Hx]; [done|]. apply H1 in Hx. lia.
    - destruct (decide (en_generation e <= generation st)) as [Hx|Hx]; [|lia]. by apply H1 in Hx. }
  split_and!; [done| |].
  - intros k Hin. destruct (get (published st1) k) as [e|] eqn:Ee; [|specialize (Hp k (or_intror Hin)); by rewrite Ee in Hp].
    by rewrite (proj2 (Heq k e)).
  - intros Hi. destruct (Hs Hi) as [Hi1 ->]. split; [done|]. destruct (published (consume st1 (generation st))) as [|[k e] l] eqn:E; [done|].
    exfalso. assert (get ((k, e) :: l) k = Some e) as H by (cbn; by rewrite String.eqb_refl). apply Heq in H as [_ H]. set_solver.
Qed.
End Guards.
End Guards.

Module GuardSample.
Import Guards.
Local Abbreviation nt := Sample.number_text.
Definition sql_a : Sql := MkSql "SELECT * FROM task" [].
Definition sql_b : Sql := MkSql "SELECT * FROM task WHERE id = $1" [JString "7"].
Definition answer_of (digest : string) : list (option (list FingerprintRow)) := [Some [FpRow [("id", JString "7")]; FpDigest digest]].
Definition read_of (st : State) (cr : Crossing) (s : Sql) (digest : string) : Crossing :=
  match capture nt st cr [s] (answer_of digest) with inl _ => cr | inr (_, cr') => cr' end.
(** A crossing that reads one statement twice, and one that reads the other. *)
Definition cross_a : Crossing := read_of start (read_of start begin sql_a "d1") sql_a "d1".
Definition after_a : State := fst (finish nt start cross_a ["task"]).
Definition cross_b : Crossing := read_of after_a begin sql_b "d2".
Definition after_b : State := fst (finish nt after_a cross_b ["task"; "sys_user"]).
Lemma keyed_start : keyed nt start.
Proof. split; cbn; [by apply NoDup_nil_2|intros k e H; by apply elem_of_nil in H|intros k e H; by apply elem_of_nil in H]. Qed.
Lemma taken_a : taken nt [MkFingerprint sql_a "d1"; MkFingerprint sql_a "d1"] cross_a.
Proof.
  apply (taken_read nt [MkFingerprint sql_a "d1"] _ start [sql_a] (answer_of "d1") [[[("id", JString "7")]]] [MkFingerprint sql_a "d1"]);
    [|apply keyed_start|reflexivity].
  apply (taken_read nt [] begin start [sql_a] (answer_of "d1") [[[("id", JString "7")]]] [MkFingerprint sql_a "d1"]);
    [constructor|apply keyed_start|reflexivity].
Qed.
Lemma keyed_a : keyed nt after_a.
Proof. eapply finish_keyed; [apply keyed_start|apply taken_reads, taken_a]. Qed.
Lemma taken_b : taken nt [MkFingerprint sql_b "d2"] cross_b.
Proof.
  apply (taken_read nt [] begin after_a [sql_b] (answer_of "d2") [[[("id", JString "7")]]] [MkFingerprint sql_b "d2"]);
    [constructor|apply keyed_a|reflexivity].
Qed.
Lemma finish_correct_witness : snd (finish nt start cross_a ["task"]) = None /\
  exists e, get (published after_a) (sql_key nt sql_a) = Some e /\ fp_digest (en_fingerprint e) = "d1"%string.
Proof.
  assert (snd (finish nt start cross_a ["task"]) = None) as E by (vm_compute; reflexivity). split; [exact E|].
  pose proof (finish_correct nt start _ cross_a ["task"] keyed_start taken_a) as H. cbv zeta in H. rewrite E in H.
  destruct H as (_ & _ & _ & [H _]%Forall_cons & _). destruct H as (e & H1 & H2 & _). by exists e.
Defined.
Lemma consume_exact_witness :
  map fst (published after_b) = [sql_key nt sql_a; sql_key nt sql_b] /\
  map fst (published (consume after_b (generation after_a))) = [sql_key nt sql_b] /\
  is_some (get (published (consume after_b (fst (snapshot "src" after_a)))) (sql_key nt sql_b)) = true.
Proof.
  split_and!; [vm_compute; reflexivity|vm_compute; reflexivity|].
  refine (proj1 (proj2 (consume_exact nt after_a after_b [sql_key nt sql_b] "src" keyed_a _)) _ _); [|by left].
  assert (snd (finish nt after_a cross_b ["task"; "sys_user"]) = None) as E by (vm_compute; reflexivity).
  pose proof (later_finish nt after_a [] after_a _ cross_b ["task"; "sys_user"] (later_none nt after_a) taken_b) as H. rewrite E in H. exact H.
Defined.
End GuardSample.

(** ** What a transaction reads. *)
Module Native.
(** [hasSimilar]: a test of semantic likeness, which is not a native read. *)
Fixpoint hasSimilar (p : Pred) : bool :=
  match p with
  | PSimilar _ _ _ => true
  | PAnd ps | POr ps => existsb hasSimilar ps
  | PNot q | POne _ _ q | PMany _ _ _ q | PEach _ _ _ q => hasSimilar q
  | _ => false
  end.
Definition similar_in (p : option Pred) : bool := match p with Some p => hasSimilar p | None => false end.
Fixpoint selectedSimilar (s : SelectIR) : bool :=
  match s with Select _ _ relations => existsb (fun kv => relatedSimilar (snd kv)) relations end
with relatedSimilar (r : RelSelectIR) : bool :=
  match r with
  | RelSelect _ _ targetSelects _ select where_ _ _ _ =>
      similar_in where_ || selectedSimilar select ||
      match targetSelects with Some l => existsb (fun kv => selectedSimilar (snd kv)) l | None => false end
  end.
Definition nativeRead (read : ReadIR) : bool :=
  match read with
  | GetRead _ _ _ select _ _ => negb (selectedSimilar select)
  | Read r => negb (selectedSimilar (lr_select r)) && (negb (is_some (lr_search r)) && negb (similar_in (lr_where r)))
  | _ => false
  end.

(** The tables a statement names: each match, ignoring case, of the word FROM or JOIN, white space, and a quoted or plain name. *)
Definition is_letter (c : ascii) : bool := let n := N_of_ascii c in ((65 <=? n) && (n <=? 90))%N || ((97 <=? n) && (n <=? 122))%N.
Definition is_word (c : ascii) : bool := is_letter c || is_digit c || Ascii.eqb c "_".
(** The keyword at the head of a text, upper or lower case, and the rest. *)
Fixpoint keyword (k s : string) : option string :=
  match k, s with
  | EmptyString, _ => Some s
  | String a k', String c s' => if Ascii.eqb a (Eval.lower c) then keyword k' s' else None
  | String _ _, EmptyString => None
  end.
(** The body of a quoted name and what follows its closing quote; a doubled quote stands for itself if the name still closes. *)
Fixpoint quoted_body (s : string) : option (string * string) :=
  match s with
  | EmptyString => None
  | String c s' =>
      if Ascii.eqb c QUOTE then
        match s' with
        | String c2 s2 =>
            if Ascii.eqb c2 QUOTE then
              match quoted_body s2 with Some (b, r) => Some (String QUOTE b, r) | None => Some (EmptyString, s') end
            else Some (EmptyString, s')
        | EmptyString => Some (EmptyString, s')
        end
      else match quoted_body s' with Some (b, r) => Some (String c b, r) | None => None end
  end.
Definition table_name (s : string) : option (string * string) :=
  match s with
  | EmptyString => None
  | String c s' =>
      if Ascii.eqb c QUOTE then quoted_body s'
      else if is_letter c || Ascii.eqb c "_" then let (name, rest) := span is_word s in Some (Eval.toLowerCase name, rest)
      else None
  end.
Definition table_match (s : string) : option (string * string) :=
  match match keyword "from" s with Some r => Some r | None => keyword "join" s end with
  | Some (String c r) => if is_space c then table_name (trim_start r) else None
  | _ => None
  end.
Fixpoint table_scan (fuel : nat) (boundary : bool) (s : string) : list string :=
  match fuel, s with
  | S fuel', String c s' =>
      match (if boundary then table_match s else None) with
      | Some (name, rest) => name :: table_scan fuel' true rest
      | None => table_scan fuel' (negb (is_word c)) s'
      end
  | _, _ => []
  end.
Definition tables_of (text : string) : list string := table_scan (String.length text) true text.
Example tables_read :
  tables_of ("SELECT x FROM Task t JOIN " +:+ String QUOTE ("Odd" +:+ String QUOTE (String QUOTE ("name" +:+ String QUOTE "join b WHERE xfrom y")))) =
  ["task"; "Odd" +:+ String QUOTE "name"; "b"]%string.
Proof. reflexivity. Qed.
End Native.

(** ** The lease of one transaction. *)
Module Controller.
Import Native.
Section Controller.
Context (number_text : number -> string).
Context (conflictDetail : string -> option (string * list string)) (native_message : EngineError -> string).

(** The configuration's part the controller reads: the actor as its JSON, the models of the manifest. *)
Record Config := MkConfig {
  cf_actor : Json; cf_models : list string; cf_sourceEpoch : string; cf_invocationId : string; cf_constraints : dict ConstraintMeta }.
Record Begin := MkBegin { bg_key : string; bg_issuedAt : string; bg_readGuards : option ReadGuards }.
Record Root := MkRoot { rt_model : string; rt_id : string; rt_op : CapturedOp }.
(** The approval route the transaction's writes share, and the record it was opened for. *)
Record Held := MkHeld { hd_snapshot : Json; hd_root : Root }.
Record Session := MkSession {
  s_lease : nat; s_committing : bool; s_key : string; s_digest : string; s_issuedAt : string; s_invocation : string;
  s_guards : option ReadGuards; s_steps : Z; s_stageKeys : list string; s_captured : list Captured; s_capturedBytes : Z;
  s_operations : Z; s_readSql : dict Sql; s_tables : list string; s_held : option Held; s_publish : bool }.
Record Ctl := MkCtl { active : option Session; opening : bool }.
Definition closed : Ctl := MkCtl None false.

(** What the controller does to the world, in order. *)
Inductive Event :=
| EvOpen (lease : nat)
| EvRollback (lease : nat) (ok : bool)
| EvCommit (lease : nat) (ok : bool)
| EvClose (lease : nat)
| EvAuditFailed (captured : list Captured)
| EvAuditSettled
| EvLock (tables : list string)
| EvAct (key model verb : string)
| EvApproval (held : Held) (captured : list Captured) (guards : ReadGuards)
| EvReceipt (key digest : string) (outcome : Outcome) (captures : list Captured)
| EvPublish (captured : list Captured) (next_due : option string) (changed_instances : list string) (outcome : Outcome).

Definition refuse (code : Code) (message : string) : EngineError := EBolt (BoltError_make code PAdmission message NoCause).
Definition db_refuse (state message : string) : EngineError := EDb (MkDbError state message None None).

(** *** Updates of a session. *)
Definition with_operations (s : Session) (n : Z) : Session :=
  MkSession (s_lease s) (s_committing s) (s_key s) (s_digest s) (s_issuedAt s) (s_invocation s) (s_guards s) (s_steps s) (s_stageKeys s)
    (s_captured s) (s_capturedBytes s) n (s_readSql s) (s_tables s) (s_held s) (s_publish s).
Definition with_steps (s : Session) (n : Z) : Session :=
  MkSession (s_lease s) (s_committing s) (s_key s) (s_digest s) (s_issuedAt s) (s_invocation s) (s_guards s) n (s_stageKeys s)
    (s_captured s) (s_capturedBytes s) (s_operations s) (s_readSql s) (s_tables s) (s_held s) (s_publish s).
Definition with_captured (s : Session) (l : list Captured) (n : Z) : Session :=
  MkSession (s_lease s) (s_committing s) (s_key s) (s_digest s) (s_issuedAt s) (s_invocation s) (s_guards s) (s_steps s) (s_stageKeys s)
    l n (s_operations s) (s_readSql s) (s_tables s) (s_held s) (s_publish s).
Definition with_stage (s : Session) (keys : list string) (h : option Held) : Session :=
  MkSession (s_lease s) (s_committing s) (s_key s) (s_digest s) (s_issuedAt s) (s_invocation s) (s_guards s) (s_steps s) keys
    (s_captured s) (s_capturedBytes s) (s_operations s) (s_readSql s) (s_tables s) h (s_publish s).
Definition with_reads (s : Session) (reads : dict Sql) (tables : list string) : Session :=
  MkSession (s_lease s) (s_committing s) (s_key s) (s_digest s) (s_issuedAt s) (s_invocation s) (s_guards s) (s_steps s) (s_stageKeys s)
    (s_captured s) (s_capturedBytes s) (s_operations s) reads tables (s_held s) (s_publish s).
Definition with_publish (s : Session) : Session :=
  MkSession (s_lease s) (s_committing s) (s_key s) (s_digest s) (s_issuedAt s) (s_invocation s) (s_guards s) (s_steps s) (s_stageKeys s)
    (s_captured s) (s_capturedBytes s) (s_operations s) (s_readSql s) (s_tables s) (s_held s) true.

(** *** A staged write. *)
Definition op_name (op : CapturedOp) : string := match op with OpCreate => "create" | OpUpdate => "update" | OpDelete => "delete" end.
Definition cause_name (c : Cause) : string :=
  match c with Direct => "direct" | Cascade => "cascade" | Derived => "derived" | Erased => "erased" end.
Definition image_json (r : option Row) : Json := match r with Some r => JObject r | None => JNull end.
Definition captured_json (c : Captured) : Json :=
  JObject [("model", JString (c_model c)); ("id", JString (c_id c)); ("op", JString (op_name (c_op c)));
           ("revision", JNumber (num_of_int (c_revision c))); ("old", image_json (c_old c)); ("new", image_json (c_new c));
           ("cause", JString (cause_name (c_cause c)))].
Definition captured_bytes (cs : list Captured) : Z := Guards.byte_length (canonical number_text (JArray (map captured_json cs))).
(** The statement a write would commit, reduced to what staging looks at. *)
Record StagedCommit := MkStaged { sc_key : string; sc_resubmit : bool; sc_approval : option Json; sc_writes : list Root }.
Definition TOO_LARGE : EngineError := refuse C_tooLarge "The transaction cumulative row/byte budget was exceeded.".
Fixpoint stage_rows (s : Session) (rows : list (list Captured)) : Session * option EngineError :=
  match rows with
  | [] => (s, None)
  | row :: rows' =>
      let bytes := captured_bytes row in
      if (changesPerAct <? Z.of_nat (length (s_captured s)) + Z.of_nat (length row)) || (readBytes <? s_capturedBytes s + bytes)
      then (s, Some TOO_LARGE)
      else stage_rows (with_captured s (s_captured s ++ row) (s_capturedBytes s + bytes)) rows'
  end.
(** The approval route: the one held, or the first one staged. *)
Definition hold (s : Session) (commit : StagedCommit) : EngineError + option Held :=
  match sc_approval commit with
  | None => inr (s_held s)
  | Some route =>
      if match s_held s with Some h => negb (String.eqb (canonical number_text (hd_snapshot h)) (canonical number_text route)) | None => false end
      then inl (refuse C_approvalSplit "All writes in one transaction must use the same approval route.")
      else match sc_writes commit with
      | [] => inl (refuse C_invalidInput "An approval transaction must change a record.")
      | root :: _ => inr (Some match s_held s with Some h => h | None => MkHeld route root end)
      end
  end.
(** [stage.execute]; [answer] is what [executeCommit] answers on the leased connection. *)
Definition stage_execute (s : Session) (commit : StagedCommit) (answer : EngineError + list (list Captured)) : Session * (EngineError + list (list Captured)) :=
  if sc_resubmit commit then (s, inl (refuse C_locked "An interactive transaction cannot resubmit an existing approval request."))
  else match hold s commit with
  | inl e => (s, inl e)
  | inr h =>
      let s := with_stage s (s_stageKeys s) h in
      match answer with
      | inl e => (s, inl e)
      | inr rows =>
          match stage_rows s rows with
          | (s', Some e) => (s', inl e)
          | (s', None) => (with_stage s' (s_stageKeys s' ++ [sc_key commit]) (s_held s'), inr rows)
          end
      end
  end.

(** *** A read on the leased connection. *)
Definition platformTables : list string :=
  ["bolt_schema"; "bolt_history"; "bolt_seq"; "bolt_idem"; "bolt_idem_outcome"; "bolt_rate"; "bolt_push_subscriptions";
   "bolt_host_nonce"; "bolt_credential"; "bolt_approvals"; "bolt_run_admitted"]%string.
Definition nativeTables (cf : Config) : list string := uniq (cf_models cf ++ platformTables).
(** [tables.add(t)] of those that are native. *)
Definition add_tables (cf : Config) (tables names : list string) : list string :=
  fold_left (fun acc t => if includes (nativeTables cf) t && negb (includes acc t) then acc ++ [t] else acc) names tables.
Definition READ_OVER : EngineError := db_refuse "54000" "The transaction read guard budget was exceeded.".
Definition over_budget (sqls : dict Sql) : bool :=
  (readGuards_count <? Z.of_nat (length sqls)) ||
  (readGuards_bytes <? Guards.byte_length (canonical number_text (JArray (map Guards.sql_json (values sqls))))).
Definition add_sql (next : dict Sql) (sql : Sql) : dict Sql := set next (Guards.sql_key number_text sql) sql.
(** [bound]'s read; [answer] is the connection's. *)
Definition bound_read {A} (cf : Config) (s : Session) (statements : DbError + list Sql) (answer : EngineError + A) : Session * (EngineError + A) :=
  match statements with
  | inl e => (s, inl (EDb e))
  | inr copied =>
      let next := fold_left add_sql copied (s_readSql s) in
      let tables := add_tables cf (s_tables s) (flat_map (fun sql => tables_of (sql_text sql)) copied) in
      let s := with_reads s (s_readSql s) tables in
      if over_budget next then (s, inl READ_OVER)
      else match answer with inl e => (s, inl e) | inr rows => (with_reads s next tables, inr rows) end
  end.

(** What the read and write pipelines do to an open transaction while it is bound to them. *)
Inductive Call :=
| CStage (commit : StagedCommit) (answer : EngineError + list (list Captured))
| CRead (statements : DbError + list Sql) (answer : EngineError + list (list Row))
| CPublisher.
Definition run_call (cf : Config) (s : Session) (c : Call) : Session :=
  match c with
  | CStage commit answer => fst (stage_execute s commit answer)
  | CRead statements answer => fst (bound_read cf s statements answer)
  | CPublisher => with_publish s
  end.
Definition run_calls (cf : Config) (s : Session) (calls : list Call) : Session := fold_left (run_call cf) calls s.

(** *** The operations.

    Each takes the answers of the world it would get, runs on the controller's state and says what it did and what it returns.
    [rollback] is how rolling the lease back ends, should the operation do that. *)
Definition abort (rollback : option EngineError) (c : Ctl) : Ctl * list Event * option EngineError :=
  match active c with
  | None => (c, [], None)
  | Some s =>
      (MkCtl None (opening c),
       [EvRollback (s_lease s) (negb (is_some rollback)); EvClose (s_lease s)] ++
       (if is_some rollback || s_committing s then [] else [EvAuditFailed (s_captured s)]), rollback)
  end.
(** [Effect.onError(() => abort().pipe(Effect.ignore))]. *)
Definition on_error {A} (rollback : option EngineError) (r : Ctl * list Event * (EngineError + A)) : Ctl * list Event * (EngineError + A) :=
  match r with
  | (c, ev, inl e) => let '(c', ev', _) := abort rollback c in (c', ev ++ ev', inl e)
  | r => r
  end.
Definition required (c : Ctl) : EngineError + Session :=
  match active c with
  | Some s => if opening c then inl (refuse C_invalidInput "No native transaction is open.") else inr s
  | None => inl (refuse C_invalidInput "No native transaction is open.")
  end.

(** The answers [begin] waits for. *)
Record BeginEnv := MkBeginEnv {
  be_stored : EngineError + option Outcome; be_prepareAudit : option EngineError; be_session : EngineError + nat;
  be_context : option EngineError; be_gate : EngineError + option bool; be_settled : EngineError + option Outcome;
  be_rollback : option EngineError }.
Definition receipt_key (cf : Config) (key : string) : string :=
  sha256Hex (canonical number_text (JObject [("actor", cf_actor cf); ("callable", JString "transaction"); ("key", JString key)])).
Definition receipt_digest (cf : Config) (key : string) : string :=
  sha256Hex (canonical number_text (JObject [("sourceEpoch", JString (cf_sourceEpoch cf)); ("key", JString key)])).
(** [None]: a fresh transaction is open; an outcome: this one already ran. *)
Definition BeginAnswer := option Outcome.
Definition open_session (cf : Config) (input : Begin) (lease : nat) : Session :=
  MkSession lease false (receipt_key cf (bg_key input)) (receipt_digest cf (bg_key input)) (bg_issuedAt input) (bg_key input)
    (bg_readGuards input) 0 [] [] 0 0 [] (uniq match bg_readGuards input with Some g => rg_tables g | None => [] end) None false.
(** What follows once the session is active, the audit context first. *)
Definition open_checks (cf : Config) (input : Begin) (env : BeginEnv) (s : Session) (c : Ctl) : Ctl * list Event * (EngineError + BeginAnswer) :=
  match be_context env with
  | Some e => (c, [], inl e)
  | None =>
      if match bg_readGuards input with
         | Some g => match rg_sourceEpoch g with Some e => negb (String.eqb e (cf_sourceEpoch cf)) | None => false end
         | None => false
         end
      then (c, [], inl (refuse C_sourceChanged "The source changed after the transaction inputs were read."))
      else if match bg_readGuards input with Some g => rg_inconsistent g | None => false end
      then (c, [], inl (refuse C_conflict "The transaction inputs contain a changed repeated read."))
      else
        let locked := [EvLock (sort_names (s_tables s))] in
        match be_gate env with
        | inl e => (c, locked, inl e)
        | inr (Some true) => (c, locked, inr None)
        | inr _ =>
            match be_settled env with
            | inl e => (c, locked, inl e)
            | inr outcome =>
                match abort (be_rollback env) c with
                | (c', ev, Some e) => (c', locked ++ ev, inl e)
                | (c', ev, None) =>
                    (c', locked ++ ev, match outcome with
                      | None => inl (refuse C_conflict "The transaction receipt is still being settled.")
                      | Some o => inr (Some o)
                      end)
                end
            end
        end
  end.
Definition begin (cf : Config) (input : Begin) (env : BeginEnv) (c : Ctl) : Ctl * list Event * (EngineError + BeginAnswer) :=
  if is_some (active c) || opening c then (c, [], inl (refuse C_invalidInput "A native transaction is already open."))
  else match be_stored env with
  | inl e => (c, [], inl e)
  | inr (Some previous) => (c, [], inr (Some previous))
  | inr None =>
      match be_prepareAudit env, be_session env with
      | Some e, _ => (c, [], inl e)
      | None, inl e => (c, [], inl e)
      | None, inr lease =>
          let s := open_session cf input lease in
          let '(c', ev, r) := on_error (be_rollback env) (open_checks cf input env s (MkCtl (Some s) true)) in
          (MkCtl (active c') false, EvOpen lease :: ev, r)
      end
  end.

Definition BUDGET : EngineError := refuse C_crossingBudget "The transaction operation budget was exceeded.".
Definition with_active (c : Ctl) (s : Session) : Ctl := MkCtl (Some s) (opening c).
(** The operation counted, or refused over the budget; the count stands either way. *)
Definition counted (c : Ctl) : Ctl * (EngineError + Session) :=
  match required c with
  | inl e => (c, inl e)
  | inr s =>
      let s := with_operations s (s_operations s + 1) in
      (with_active c s, if automationCrossings <? s_operations s then inl BUDGET else inr s)
  end.

(** [keys] names each value of the answer; without it the first value is the answer. *)
Definition read (cf : Config) (reads : list ReadIR) (keys_ : option (list string)) (calls : list Call)
    (answer : EngineError + list Json) (rollback : option EngineError) (c : Ctl) : Ctl * list Event * (EngineError + Json) :=
  on_error rollback
    match counted c with
    | (c, inl e) => (c, [], inl e)
    | (c, inr s) =>
        if existsb (fun r => negb (nativeRead r)) reads then (c, [], inl (refuse C_invalidInput "A transaction reads native records and lists only."))
        else if match keys_ with Some ks => negb (Nat.eqb (length ks) (length reads)) | None => false end
        then (c, [], inl (refuse C_invalidInput "The transaction query keys do not match its reads."))
        else
          let c := with_active c (run_calls cf s calls) in
          match answer with
          | inl e => (c, [], inl e)
          | inr values =>
              (c, [], inr match keys_ with
                | None => List.nth 0 values JNull
                | Some ks => JObject (fold_left (fun o ik => set o (snd ik) (List.nth (fst ik) values JNull)) (combine (seq 0 (length ks)) ks) [])
                end)
          end
    end.

Inductive ActReply := Wrote (output : Json) (records : list Written) | NotCommitted (o : Outcome).
Definition act (cf : Config) (model verb : string) (calls : list Call) (answer : EngineError + Outcome)
    (rollback : option EngineError) (c : Ctl) : Ctl * list Event * (EngineError + ActReply) :=
  on_error rollback
    match counted c with
    | (c, inl e) => (c, [], inl e)
    | (c, inr s) =>
        if negb (includes ["create"; "update"; "delete"; "upsert"] verb)
        then (c, [], inl (refuse C_invalidInput "A transaction writes generated create, update, delete and upsert only."))
        else
          let key := s_key s +:+ "/" +:+ digits_of (s_steps s) in
          let c := with_active c (run_calls cf (with_steps s (s_steps s + 1)) calls) in
          let ran := [EvAct key model verb] in
          match answer with
          | inl e => (c, ran, inl e)
          | inr (Committed output records _) => (c, ran, inr (Wrote output records))
          | inr outcome =>
              match abort rollback c with
              | (c', ev, Some e) => (c', ran ++ ev, inl e)
              | (c', ev, None) => (c', ran ++ ev, inr (NotCommitted outcome))
              end
          end
    end.

(** The answers [finish] waits for: the receipts of the stages removed, the approval recorded, the receipt written, the audit
    receipt written, COMMIT, and the revision publishing gives. *)
Record FinishEnv := MkFinishEnv {
  fe_delete : option EngineError; fe_approval : EngineError + (string * option string); fe_calls : list Call;
  fe_receipt : EngineError + option (option string); fe_auditReceipt : option EngineError; fe_commit : option EngineError;
  fe_revision : Z; fe_rollback : option EngineError }.
Record ActResult := MkActResult { ar_outcome : Outcome; ar_captured : list Captured; ar_v : Z; ar_readGuardsConsumed : bool }.
Record Answer := MkAnswer { an_captured : list Captured; an_next_due : option string; an_changed_instances : list string }.
Definition failed_result (cf : Config) (s : Session) (e : EngineError) : ActResult :=
  MkActResult (transactionFailure conflictDetail native_message e (s_invocation s) (cf_constraints cf)) [] 0 false.
Definition written_of (c : Captured) : Written := MkWritten (c_model c) (c_id c) (c_revision c).
Definition is_direct (c : Captured) : bool := bool_decide (c_cause c = Direct).
(** The direct changes, as the receipt lists them. *)
Definition records_of (captures : list Captured) : list Written := map written_of (List.filter is_direct captures).
(** The earlier of two due times: [sort()[0]] of those present. *)
Definition earlier (a b : option string) : option string :=
  match a, b with Some x, Some y => Some (if str_ltb y x then y else x) | Some x, None => Some x | None, y => y end.
(** The read statements a held transaction's approval keeps: those it was opened with, then its own. *)
Definition approval_sql (s : Session) : dict Sql :=
  let given := match s_guards s with Some g => map fp_sql (rg_fingerprints g) | None => [] end in
  fold_left (fun d ks => set d (fst ks) (snd ks)) (s_readSql s) (fold_left add_sql given []).
Definition approval_guards (cf : Config) (s : Session) : ReadGuards :=
  MkReadGuards (Some (cf_sourceEpoch cf)) (map (fun sql => MkFingerprint sql "") (values (approval_sql s))) (sort_names (s_tables s)) false.
Definition APPROVAL_READS : EngineError := refuse C_readBudgetExceeded "The combined transaction approval read budget was exceeded.".
(** The outcome to record, and the approval's due time; what is asked of the approvals on the way. *)
Definition settle_outcome (cf : Config) (s : Session) (captures : list Captured) (output : Json) (omitted : bool) (env : FinishEnv)
  : list Event * (EngineError + (Outcome * option string)) :=
  match s_held s with
  | None => ([], inr (Committed (JObject [("value", output); ("omitted", JBool omitted)]) (records_of captures) None, None))
  | Some h =>
      if over_budget (approval_sql s) then ([], inl APPROVAL_READS)
      else
        let asked := [EvApproval h (s_captured s) (approval_guards cf s)] in
        match fe_approval env with
        | inl e => (asked, inl e)
        | inr (requestId, due) => (asked, inr (PendingApproval requestId (records_of captures), due))
        end
  end.
(** The inner work of [finish], on the bound connection. *)
Definition settle (cf : Config) (s : Session) (output : Json) (omitted : bool) (env : FinishEnv) : list Event * (EngineError + (Outcome * Answer)) :=
  match (match s_stageKeys s with [] => None | _ => fe_delete env end) with
  | Some e => ([], inl e)
  | None =>
      let captures := Net.netChanges (s_captured s) in
      match settle_outcome cf s captures output omitted env with
      | (ev, inl e) => (ev, inl e)
      | (ev, inr (outcome, due)) =>
          let ev := ev ++ [EvReceipt (s_key s) (s_digest s) outcome captures] in
          match fe_receipt env with
          | inl e => (ev, inl e)
          | inr None => (ev, inl (EBolt (BoltError_make C_badAnswer PCommit "The transaction returned no receipt." NoCause)))
          | inr (Some next_due) =>
              (ev, inr (outcome, MkAnswer captures (earlier next_due due)
                (map c_id (List.filter (fun c => String.eqb (c_model c) "sys_integration") captures))))
          end
      end
  end.
Definition committing (s : Session) : Session :=
  MkSession (s_lease s) true (s_key s) (s_digest s) (s_issuedAt s) (s_invocation s) (s_guards s) (s_steps s) (s_stageKeys s)
    (s_captured s) (s_capturedBytes s) (s_operations s) (s_readSql s) (s_tables s) (s_held s) (s_publish s).
Definition finish (cf : Config) (output : Json) (omitted : bool) (env : FinishEnv) (c : Ctl) : Ctl * list Event * (EngineError + ActResult) :=
  match required c with
  | inl e => (c, [], inl e)
  | inr s =>
      let '(ev, result) := settle cf s output omitted env in
      let s := run_calls cf s (fe_calls env) in
      let c := with_active c s in
      match result with
      | inl e => let '(c', ev', _) := abort (fe_rollback env) c in (c', ev ++ ev', inr (failed_result cf s e))
      | inr (outcome, answer) =>
          match fe_auditReceipt env with
          | Some e => (c, ev, inl e)
          | None =>
              let s := committing s in
              let ev := ev ++ [EvCommit (s_lease s) (negb (is_some (fe_commit env))); EvClose (s_lease s); EvAuditSettled] in
              let c := MkCtl None (opening c) in
              match fe_commit env with
              | Some e => (c, ev, inr (failed_result cf s e))
              | None =>
                  let published := s_publish s in
                  (c, ev ++ (if published then [EvPublish (an_captured answer) (an_next_due answer) (an_changed_instances answer) outcome] else []),
                   inr (MkActResult outcome (an_captured answer) (if published then fe_revision env else 0) (is_some (s_guards s))))
              end
          end
      end
  end.

(** One operation of a transaction's life, with what the world answers it. *)
Inductive Op :=
| OBegin (input : Begin) (env : BeginEnv)
| ORead (reads : list ReadIR) (keys_ : option (list string)) (calls : list Call) (answer : EngineError + list Json) (rollback : option EngineError)
| OAct (model verb : string) (calls : list Call) (answer : EngineError + Outcome) (rollback : option EngineError)
| OFinish (output : Json) (omitted : bool) (env : FinishEnv)
| OAbort (rollback : option EngineError).
Definition step (cf : Config) (c : Ctl) (o : Op) : Ctl * list Event :=
  match o with
  | OBegin input env => fst (begin cf input env c)
  | ORead reads ks calls answer rb => fst (read cf reads ks calls answer rb c)
  | OAct model verb calls answer rb => fst (act cf model verb calls answer rb c)
  | OFinish output omitted env => fst (finish cf output omitted env c)
  | OAbort rb => fst (abort rb c)
  end.
Fixpoint run_ops (cf : Config) (c : Ctl) (ops : list Op) : Ctl * list Event :=
  match ops with
  | [] => (c, [])
  | o :: ops' => let '(c1, ev1) := step cf c o in let '(c2, ev2) := run_ops cf c1 ops' in (c2, ev1 ++ ev2)
  end.

(** *** The life of a lease. *)
Inductive LeasePhase := Idle | Opened (lease : nat) | Settled (lease : nat).
(** The phase after an event; [None] where the event is out of place. *)
Definition lease_step (p : LeasePhase) (e : Event) : option LeasePhase :=
  match p, e with
  | Idle, EvOpen l => Some (Opened l)
  | Opened l, EvRollback l' _ | Opened l, EvCommit l' _ => if Nat.eqb l l' then Some (Settled l) else None
  | Settled l, EvClose l' => if Nat.eqb l l' then Some Idle else None
  | Opened l, EvLock _ | Opened l, EvAct _ _ _ | Opened l, EvApproval _ _ _ | Opened l, EvReceipt _ _ _ _ => Some (Opened l)
  | Idle, EvAuditFailed _ | Idle, EvAuditSettled | Idle, EvPublish _ _ _ _ => Some Idle
  | _, _ => None
  end.
Fixpoint lease_run (p : LeasePhase) (ev : list Event) : option LeasePhase :=
  match ev with [] => Some p | e :: ev' => match lease_step p e with Some p' => lease_run p' ev' | None => None end end.
Definition phase_of (c : Ctl) : LeasePhase := match active c with None => Idle | Some s => Opened (s_lease s) end.
Lemma lease_run_app (p p' : LeasePhase) (a b : list Event) : lease_run p a = Some p' -> lease_run p (a ++ b) = lease_run p' b.
Proof.
  revert p. induction a as [|e a IH]; intros p; cbn [lease_run app]; [by intros [= ->]|].
  destruct (lease_step p e); [apply IH|done].
Qed.
(** An operation's events take the phase it starts in to the one it ends in. *)
Definition moves {A} (c : Ctl) (r : Ctl * list Event * A) : Prop := lease_run (phase_of c) (snd (fst r)) = Some (phase_of (fst (fst r))).
Lemma stage_rows_lease (s : Session) (rows : list (list Captured)) : s_lease (fst (stage_rows s rows)) = s_lease s.
Proof. revert s. induction rows as [|row rows IH]; intros s; cbn [stage_rows]; [done|]. destruct (_ || _); [done|]. by rewrite IH. Qed.
Lemma run_call_lease (cf : Config) (s : Session) (c : Call) : s_lease (run_call cf s c) = s_lease s.
Proof.
  destruct c as [commit answer|statements answer|]; cbn [run_call]; [| |done].
  - unfold stage_execute. destruct (sc_resubmit commit); [done|]. destruct (hold s commit) as [|h]; [done|]. destruct answer as [|rows]; [done|].
    pose proof (stage_rows_lease (with_stage s (s_stageKeys s) h) rows) as H. by destruct (stage_rows _ rows) as [s' [e|]].
  - unfold bound_read. destruct statements as [|copied]; [done|]. cbv zeta. destruct (over_budget _); [done|]. by destruct answer.
Qed.
Lemma run_calls_lease (cf : Config) (s : Session) (calls : list Call) : s_lease (run_calls cf s calls) = s_lease s.
Proof. unfold run_calls. revert s. induction calls as [|c calls IH]; intros s; [done|]. cbn [fold_left]. by rewrite IH, run_call_lease. Qed.
Lemma abort_moves (rb : option EngineError) (c : Ctl) : moves c (abort rb c) /\ active (fst (fst (abort rb c))) = None /\ opening (fst (fst (abort rb c))) = opening c.
Proof.
  unfold moves, abort, phase_of. destruct (active c) as [s|] eqn:E; [|by cbn; rewrite ?E].
  cbn. rewrite Nat.eqb_refl. cbn. rewrite Nat.eqb_refl. by destruct (is_some rb || s_committing s).
Qed.
Lemma on_error_moves {A} (rb : option EngineError) (c : Ctl) (r : Ctl * list Event * (EngineError + A)) :
  moves c r -> moves c (on_error rb r).
Proof.
  destruct r as [[c' ev] [e|a]]; [|done]. unfold moves, on_error. cbn [fst snd]. intros H.
  destruct (abort_moves rb c') as [Ha _]. unfold moves in Ha. destruct (abort rb c') as [[c2 ev2] e2]. cbn [fst snd] in *.
  by rewrite (lease_run_app _ _ _ _ H).
Qed.
Lemma on_error_opening {A} (rb : option EngineError) (r : Ctl * list Event * (EngineError + A)) :
  opening (fst (fst (on_error rb r))) = opening (fst (fst r)).
Proof.
  destruct r as [[c' ev] [e|a]]; [|done]. cbn [on_error fst]. destruct (abort_moves rb c') as (_ & _ & H).
  by destruct (abort rb c') as [[c2 ev2] e2].
Qed.
Lemma counted_phase (c : Ctl) : phase_of (fst (counted c)) = phase_of c /\ opening (fst (counted c)) = opening c /\
  forall s, snd (counted c) = inr s -> s_lease s = match active c with Some s0 => s_lease s0 | None => s_lease s end /\ is_some (active c) = true.
Proof.
  unfold counted, required, phase_of. destruct (active c) as [s|] eqn:E; [|by cbn; rewrite ?E]. destruct (opening c) eqn:Eo; [by cbn; rewrite ?E|]. cbn.
  rewrite Eo. split_and!; [done|done|]. intros s'. destruct (_ <? _); [done|]. by intros [= <-].
Qed.
Lemma read_moves (cf : Config) reads ks calls answer rb (c : Ctl) :
  moves c (read cf reads ks calls answer rb c) /\ opening (fst (fst (read cf reads ks calls answer rb c))) = opening c.
Proof.
  unfold read. rewrite on_error_opening. destruct (counted_phase c) as (Hp & Ho & Hs). destruct (counted c) as [c1 [e|s]]; cbn [fst snd] in *.
  { split; [|done]. apply on_error_moves. unfold moves. cbn. by rewrite Hp. }
  destruct (Hs s eq_refl) as [Hl Ha]. split; [apply on_error_moves|]; unfold moves;
  (destruct (existsb _ reads); [cbn; by rewrite ?Hp|]); (destruct (match ks with Some _ => _ | None => _ end); [cbn; by rewrite ?Hp|]);
  destruct answer as [e|values]; cbn; try done;
  rewrite run_calls_lease, Hl; unfold phase_of; by destruct (active c).
Qed.
Lemma act_moves (cf : Config) model verb calls answer rb (c : Ctl) :
  moves c (act cf model verb calls answer rb c) /\ opening (fst (fst (act cf model verb calls answer rb c))) = opening c.
Proof.
  unfold act. rewrite on_error_opening. destruct (counted_phase c) as (Hp & Ho & Hs). destruct (counted c) as [c1 [e|s]]; cbn [fst snd] in *.
  { split; [|done]. apply on_error_moves. unfold moves. cbn. by rewrite Hp. }
  destruct (Hs s eq_refl) as [Hl Ha]. destruct (negb (includes _ verb)).
  { split; [|done]. apply on_error_moves. unfold moves. cbn. by rewrite Hp. }
  set (c2 := with_active c1 _). assert (phase_of c2 = phase_of c /\ opening c2 = opening c) as [H2 H3].
  { split; [|done]. unfold c2, with_active, phase_of. cbn [active]. rewrite run_calls_lease. cbn [with_steps s_lease]. rewrite Hl. by destruct (active c). }
  assert (forall ev : list Event, lease_run (phase_of c) (EvAct (s_key s +:+ "/" +:+ digits_of (s_steps s)) model verb :: ev) = lease_run (phase_of c) ev) as Hev.
  { intros ev. unfold phase_of. destruct (active c); [done|]. done. }
  destruct (abort_moves rb c2) as (Hm & _ & Hop). unfold moves in Hm.
  destruct answer as [e|[output records unchanged|requestId records|r|records|invocation]];
    [split; [apply on_error_moves; unfold moves; cbn [fst snd]; rewrite Hev, <- H2; done|done]
    |split; [apply on_error_moves; unfold moves; cbn [fst snd]; rewrite Hev, <- H2; done|done]|..];
  destruct (abort rb c2) as [[c3 ev] [e|]]; cbn [fst snd] in *; (split; [|by rewrite Hop]);
  apply on_error_moves; unfold moves; cbn [fst snd]; change ([?x] ++ ev) with (x :: ev); cbn [app]; by rewrite Hev, <- H2.
Qed.

Lemma open_checks_moves (cf : Config) (input : Begin) (env : BeginEnv) (s : Session) (c : Ctl) :
  active c = Some s -> moves c (open_checks cf input env s c) /\ opening (fst (fst (open_checks cf input env s c))) = opening c.
Proof.
  intros Ha. unfold open_checks, moves. assert (phase_of c = Opened (s_lease s)) as Hp by (unfold phase_of; by rewrite Ha).
  destruct (be_context env); [done|]. destruct (match bg_readGuards input with Some _ => _ | None => _ end); [done|].
  destruct (match bg_readGuards input with Some _ => _ | None => _ end); [done|].
  destruct (be_gate env) as [|[[|]|]]; try (cbn [fst snd]; by rewrite Hp);
    (destruct (be_settled env); [cbn [fst snd]; by rewrite Hp|]);
    destruct (abort_moves (be_rollback env) c) as (Hm & _ & Ho); unfold moves in Hm;
    destruct (abort (be_rollback env) c) as [[c' ev] [e|]]; cbn [fst snd app] in *; rewrite Hp in *; by split.
Qed.
Lemma begin_moves (cf : Config) (input : Begin) (env : BeginEnv) (c : Ctl) : opening c = false ->
  moves c (begin cf input env c) /\ opening (fst (fst (begin cf input env c))) = false.
Proof.
  intros Ho. unfold begin. destruct (active c) as [s0|] eqn:E; [done|]. rewrite Ho. cbn [is_some orb].
  destruct (be_stored env) as [|[|]]; [done|done|]. destruct (be_prepareAudit env); [done|]. destruct (be_session env) as [|lease]; [done|].
  cbv zeta. set (s := open_session cf input lease). set (c1 := MkCtl (Some s) true).
  destruct (open_checks_moves cf input env s c1 eq_refl) as [Hm _]. apply (on_error_moves (be_rollback env)) in Hm. unfold moves in *.
  destruct (on_error (be_rollback env) (open_checks cf input env s c1)) as [[c' ev] r]. cbn [fst snd] in *. split; [|done].
  unfold phase_of in *. rewrite E. cbn [lease_run lease_step active] in *. exact Hm.
Qed.
Lemma settle_phase (cf : Config) (s : Session) output omitted env l : lease_run (Opened l) (fst (settle cf s output omitted env)) = Some (Opened l).
Proof.
  unfold settle, settle_outcome. destruct (match s_stageKeys s with [] => None | _ => _ end); [done|]. cbv zeta.
  destruct (s_held s); [destruct (over_budget _); [done|]; destruct (fe_approval env) as [|[requestId due]]; [done|]|];
    by destruct (fe_receipt env) as [|[|]].
Qed.
Lemma finish_moves (cf : Config) output omitted env (c : Ctl) :
  moves c (finish cf output omitted env c) /\ opening (fst (fst (finish cf output omitted env c))) = opening c.
Proof.
  unfold finish, required. destruct (active c) as [s|] eqn:E; [|done]. destruct (opening c) eqn:Eo; [done|].
  pose proof (settle_phase cf s output omitted env (s_lease s)) as Hs. destruct (settle cf s output omitted env) as [ev result]. cbn [fst] in Hs.
  set (s1 := run_calls cf s (fe_calls env)). assert (s_lease s1 = s_lease s) as Hl by apply run_calls_lease.
  assert (phase_of c = Opened (s_lease s)) as Hp by (unfold phase_of; by rewrite E). unfold moves.
  destruct result as [e|[outcome answer]].
  - destruct (abort_moves (fe_rollback env) (with_active c s1)) as (Hm & _ & Ho). unfold moves in Hm.
    destruct (abort (fe_rollback env) (with_active c s1)) as [[c' ev'] ?]. cbn [fst snd] in *. split; [|by rewrite Ho].
    rewrite Hp, (lease_run_app _ _ _ _ Hs), <- Hm. unfold phase_of, with_active. cbn [active]. by rewrite Hl.
  - destruct (fe_auditReceipt env); [cbn [fst snd]; rewrite Hp, Hs; split; [unfold phase_of; cbn; by rewrite Hl|done]|].
    cbv zeta. cbn [committing s_lease]. rewrite Hl.
    destruct (fe_commit env); cbn [fst snd is_some negb]; (split; [|done]); rewrite <- ?app_assoc, Hp, (lease_run_app _ _ _ _ Hs); cbn;
      rewrite Nat.eqb_refl; cbn; rewrite Nat.eqb_refl; [done|]. by destruct (s_publish _).
Qed.
Lemma step_moves (cf : Config) (c : Ctl) (o : Op) : opening c = false ->
  lease_run (phase_of c) (snd (step cf c o)) = Some (phase_of (fst (step cf c o))) /\ opening (fst (step cf c o)) = false.
Proof.
  intros Ho. destruct o; cbn [step]; [by apply begin_moves|..]; rewrite <- Ho;
    [apply read_moves|apply act_moves|apply finish_moves|]. destruct (abort_moves rollback c) as (H1 & _ & H2). by split.
Qed.

(** C18. Every lease is settled exactly once. Whatever operations a transaction's client sends and whatever the database
    answers, the events read, in order, as leases each opened while none is held, then either rolled back or committed once, then
    closed once; nothing is written, asked or recorded outside an open lease, and nothing is published or audited as failed before it is closed.
    A lease is held at the end exactly when the controller says one is active, and the finalizer's abort settles that one too. *)
Theorem lease_settled_once (cf : Config) (ops : list Op) (rollback : option EngineError) :
  let (c, ev) := run_ops cf closed ops in
  lease_run Idle ev = Some (phase_of c) /\ opening c = false /\
  active (fst (fst (abort rollback c))) = None /\ lease_run Idle (ev ++ snd (fst (abort rollback c))) = Some Idle.
Proof.
  assert (forall c, opening c = false -> let (c', ev) := run_ops cf c ops in lease_run (phase_of c) ev = Some (phase_of c') /\ opening c' = false) as H.
  { induction ops as [|o ops IH]; intros c Ho; [done|]. cbn [run_ops]. destruct (step_moves cf c o Ho) as [H1 H2].
    destruct (step cf c o) as [c1 ev1]. cbn [fst snd] in *. specialize (IH c1 H2). destruct (run_ops cf c1 ops) as [c2 ev2].
    destruct IH as [H3 H4]. split; [|done]. by rewrite (lease_run_app _ _ _ _ H1). }
  specialize (H closed eq_refl). destruct (run_ops cf closed ops) as [c ev]. destruct H as [H1 H2].
  destruct (abort_moves rollback c) as (H3 & H4 & _). split_and!; [done|done|done|].
  rewrite (lease_run_app _ _ _ _ H1). unfold moves in H3. rewrite H3. unfold phase_of at 1. by rewrite H4.
Qed.

(** *** The budgets of a session. *)
Record session_ok (cf : Config) (s : Session) : Prop := MkSessionOk {
  so_operations : 0 <= s_steps s <= s_operations s /\ s_operations s <= automationCrossings;
  so_captured : Z.of_nat (length (s_captured s)) <= changesPerAct /\ 0 <= s_capturedBytes s <= readBytes;
  so_reads : over_budget (s_readSql s) = false /\ wf_dict (s_readSql s) /\
    forall k sql, (k, sql) ∈ s_readSql s -> k = Guards.sql_key number_text sql;
  so_named : forall k sql t, (k, sql) ∈ s_readSql s -> t ∈ tables_of (sql_text sql) -> t ∈ nativeTables cf -> t ∈ s_tables s;
  so_tables : NoDup (s_tables s) /\ forall t, t ∈ s_tables s ->
    t ∈ nativeTables cf \/ exists g, s_guards s = Some g /\ t ∈ rg_tables g;
  so_committing : s_committing s = false }.

Lemma add_tables_spec (cf : Config) (tables names : list string) : NoDup tables ->
  NoDup (add_tables cf tables names) /\ forall t, t ∈ add_tables cf tables names <-> t ∈ tables \/ t ∈ names /\ t ∈ nativeTables cf.
Proof.
  unfold add_tables. revert tables. induction names as [|n names IH]; intros tables Hd; cbn [fold_left].
  { split; [done|]. intros t. rewrite elem_of_nil. tauto. }
  destruct (includes (nativeTables cf) n && negb (includes tables n)) eqn:E.
  - apply andb_true_iff in E as [E1 E2]. apply includes_spec in E1. apply negb_true_iff, includes_false in E2.
    destruct (IH (tables ++ [n])) as [H1 H2].
    { apply NoDup_app. split_and!; [done| |apply NoDup_singleton]. intros x Hx ->%list_elem_of_singleton. done. }
    split; [done|]. intros t. rewrite H2, elem_of_app, list_elem_of_singleton, elem_of_cons. naive_solver.
  - destruct (IH tables Hd) as [H1 H2]. split; [done|]. intros t. rewrite H2, elem_of_cons.
    apply andb_false_iff in E as [E|E]; [apply includes_false in E|apply negb_false_iff, includes_spec in E]; naive_solver.
Qed.
Lemma add_sql_fold (l : list Sql) (d : dict Sql) : wf_dict d -> (forall k sql, (k, sql) ∈ d -> k = Guards.sql_key number_text sql) ->
  wf_dict (fold_left add_sql l d) /\ forall k sql, (k, sql) ∈ fold_left add_sql l d -> k = Guards.sql_key number_text sql /\ ((k, sql) ∈ d \/ sql ∈ l).
Proof.
  revert d. induction l as [|q l IH]; intros d Hd Hk; cbn [fold_left]; [split; [done|]; intros k sql H; by split; [apply Hk|left]|].
  destruct (IH (add_sql d q)) as [H1 H2].
  - by apply wf_set.
  - intros k sql [[-> ->]|[_ H]]%Net.set_in; [done|by apply Hk|done].
  - split; [done|]. intros k sql H. destruct (H2 k sql H) as [-> [H3|H3]]; (split; [done|]); [|by right; right].
    apply Net.set_in in H3 as [[_ ->]|[_ H3]]; [by right; left|by left|done].
Qed.
Lemma stage_rows_ok (cf : Config) (s : Session) (rows : list (list Captured)) : session_ok cf s -> session_ok cf (fst (stage_rows s rows)).
Proof.
  revert s. induction rows as [|row rows IH]; intros s Hs; cbn [stage_rows]; [done|]. destruct (_ || _) eqn:E; [done|].
  apply orb_false_iff in E as [E1 E2]. apply IH. destruct Hs as [H1 H2 H3 H4 H5 H6]. split; try done. cbn [with_captured s_captured s_capturedBytes].
  rewrite length_app. unfold captured_bytes, Guards.byte_length in *. lia.
Qed.
Lemma run_call_ok (cf : Config) (s : Session) (c : Call) : session_ok cf s -> session_ok cf (run_call cf s c).
Proof.
  intros Hs. destruct c as [commit answer|statements answer|]; cbn [run_call]; [| |by destruct Hs].
  - unfold stage_execute. destruct (sc_resubmit commit); [done|]. destruct (hold s commit) as [|h]; [done|].
    assert (session_ok cf (with_stage s (s_stageKeys s) h)) as Hh by by destruct Hs.
    destruct answer as [|rows]; [done|]. pose proof (stage_rows_ok cf _ rows Hh) as H.
    destruct (stage_rows _ rows) as [s' [e|]]; [done|]. cbn [fst] in *. by destruct H.
  - unfold bound_read. destruct statements as [|copied]; [done|]. cbv zeta. destruct Hs as [H1 H2 (H3a & H3b & H3c) H4 [H5a H5b] H6].
    destruct (add_tables_spec cf (s_tables s) (flat_map (fun sql => tables_of (sql_text sql)) copied) H5a) as [Ht1 Ht2].
    set (tables := add_tables cf (s_tables s) _) in *. destruct (add_sql_fold copied (s_readSql s) H3b H3c) as [Hn1 Hn2].
    assert (forall t, t ∈ tables -> t ∈ nativeTables cf \/ exists g, s_guards s = Some g /\ t ∈ rg_tables g) as Hfrom.
    { intros t [Hx|[_ Hx]]%Ht2; [by apply H5b|by left]. }
    assert (session_ok cf (with_reads s (s_readSql s) tables)) as Hs'.
    { split; cbn; try done. intros k sql t Hin Hn Hm. apply Ht2. left. by eapply H4. }
    destruct (over_budget (fold_left add_sql copied (s_readSql s))) eqn:E; [done|]. destruct answer as [|rows]; [done|]. cbn [fst].
    split; cbn; try done; [split_and!; [done|done|]; intros k sql Hin; by apply Hn2|].
    intros k sql t Hin Hn Hm. apply Ht2. destruct (Hn2 k sql Hin) as [_ [Hx|Hx]]; [left; by eapply H4|].
    right. split; [|done]. apply list_elem_of_In, in_flat_map. exists sql. by rewrite <- !list_elem_of_In.
Qed.
Lemma run_calls_ok (cf : Config) (s : Session) (calls : list Call) : session_ok cf s -> session_ok cf (run_calls cf s calls).
Proof. unfold run_calls. revert s. induction calls as [|c calls IH]; intros s H; [done|]. cbn [fold_left]. by apply IH, run_call_ok. Qed.

Definition fine (cf : Config) (c : Ctl) : Prop := forall s, active c = Some s -> session_ok cf s.
Lemma abort_fine (cf : Config) (rb : option EngineError) (c : Ctl) : fine cf (fst (fst (abort rb c))).
Proof. intros s H. destruct (abort_moves rb c) as (_ & Ha & _). by rewrite Ha in H. Qed.
Lemma on_error_fine {A} (cf : Config) (rb : option EngineError) (r : Ctl * list Event * (EngineError + A)) :
  (forall a, snd r = inr a -> fine cf (fst (fst r))) -> fine cf (fst (fst (on_error rb r))).
Proof.
  destruct r as [[c ev] [e|a]]; cbn [on_error fst snd]; [|intros H; by apply (H a)]. intros _.
  pose proof (abort_fine cf rb c) as H. by destruct (abort rb c) as [[c' ev'] e'].
Qed.
Lemma counted_ok (cf : Config) (c : Ctl) (s : Session) : fine cf c -> snd (counted c) = inr s -> session_ok cf s /\ 0 <= s_steps s < s_operations s.
Proof.
  intros Hf. unfold counted, required. destruct (active c) as [s0|] eqn:E; [|done]. destruct (opening c); [done|]. cbn [snd].
  destruct (_ <? _) eqn:El; [done|]. intros [= <-]. destruct (Hf s0 E). unfold with_operations in *. cbn [s_operations] in *.
  repeat split; cbn; try done; try tauto; lia.
Qed.
Lemma open_session_ok (cf : Config) (input : Begin) (lease : nat) : session_ok cf (open_session cf input lease).
Proof.
  split; cbn [open_session s_steps s_operations s_captured s_capturedBytes s_readSql s_tables s_guards s_committing length].
  - split; [lia|]. unfold automationCrossings. lia.
  - split; [unfold changesPerAct; lia|]. unfold readBytes, MiB. lia.
  - split_and!; [reflexivity|apply NoDup_nil_2|]. intros k sql H. by apply elem_of_nil in H.
  - intros k sql t H. by apply elem_of_nil in H.
  - split; [apply NoDup_uniq|]. intros t. rewrite elem_of_uniq. intros H. right. destruct (bg_readGuards input) as [g|]; [by exists g|].
    by apply elem_of_nil in H.
  - done.
Qed.
Lemma step_fine (cf : Config) (c : Ctl) (o : Op) : fine cf c -> fine cf (fst (step cf c o)).
Proof.
  intros Hf. destruct o as [input env|reads ks calls answer rb|model verb calls answer rb|output omitted env|rb]; cbn [step].
  - unfold begin. destruct (_ || _); [done|]. destruct (be_stored env) as [|[|]]; [done|done|]. destruct (be_prepareAudit env); [done|].
    destruct (be_session env) as [|lease]; [done|]. cbv zeta. set (s := open_session cf input lease). set (c1 := MkCtl (Some s) true).
    assert (fine cf c1) as Hc1 by (intros s' [= <-]; apply open_session_ok).
    assert (fine cf (fst (fst (on_error (be_rollback env) (open_checks cf input env s c1))))) as H.
    { apply on_error_fine. intros a _. unfold open_checks. destruct (be_context env); [done|].
      destruct (match bg_readGuards input with Some _ => _ | None => _ end); [done|].
      destruct (match bg_readGuards input with Some _ => _ | None => _ end); [done|].
      pose proof (abort_fine cf (be_rollback env) c1) as Ha.
      destruct (be_gate env) as [|[[|]|]]; try done; (destruct (be_settled env); [done|]);
        by destruct (abort (be_rollback env) c1) as [[c' ev] [e|]]. }
    destruct (on_error (be_rollback env) (open_checks cf input env s c1)) as [[c' ev] r]. exact H.
  - unfold read. apply on_error_fine. pose proof (fun s => counted_ok cf c s Hf) as Hc. destruct (counted c) as [c1 [e|s]]; [done|].
    destruct (existsb _ reads); [done|]. destruct (match ks with Some _ => _ | None => _ end); [done|].
    intros a _. destruct (Hc s eq_refl) as [Hs _].
    destruct answer; cbn [fst snd]; intros s' [= <-]; by apply run_calls_ok.
  - unfold act. apply on_error_fine. pose proof (fun s => counted_ok cf c s Hf) as Hc. destruct (counted c) as [c1 [e|s]]; [done|].
    destruct (negb (includes _ verb)); [done|]. intros a _. destruct (Hc s eq_refl) as (Hs & Hstep).
    set (c2 := with_active c1 _). assert (fine cf c2) as H2.
    { intros s' [= <-]. apply run_calls_ok. destruct Hs. unfold with_steps. split; cbn; try done. lia. }
    pose proof (abort_fine cf rb c2) as Ha.
    destruct answer as [e|[]]; try exact H2; by destruct (abort rb c2) as [[c3 ev] [e'|]].
  - unfold finish, required. destruct (active c) as [s|] eqn:E; [|done]. destruct (opening c) eqn:Eo; [done|].
    destruct (settle cf s output omitted env) as [ev result]. set (s1 := run_calls cf s (fe_calls env)).
    assert (fine cf (with_active c s1)) as H1 by (intros s' [= <-]; apply run_calls_ok; by apply Hf).
    destruct result as [e|[outcome answer]].
    + pose proof (abort_fine cf (fe_rollback env) (with_active c s1)) as Ha. by destruct (abort (fe_rollback env) (with_active c s1)) as [[c' ev'] e'].
    + destruct (fe_auditReceipt env); [exact H1|]. cbv zeta. by destruct (fe_commit env).
  - apply abort_fine.
Qed.

(** A transaction stays within its budgets. After any sequence of operations the open session has counted at most
    the operations it may make and at least the writes it has made; the rows captured and their bytes are within their limits; the
    statements retained are keyed by their own text, distinct, and within the read-guard budget; every native table a retained
    statement names is among the tables it will lock for, which are distinct and come from its statements or from the guards it was opened with. *)
Theorem budgets_hold (cf : Config) (ops : list Op) : forall s, active (fst (run_ops cf closed ops)) = Some s -> session_ok cf s.
Proof.
  assert (forall c, fine cf c -> fine cf (fst (run_ops cf c ops))) as H; [|by apply H].
  induction ops as [|o ops IH]; intros c Hc; [done|]. cbn [run_ops]. pose proof (step_fine cf c o Hc) as Hs.
  destruct (step cf c o) as [c1 ev1]. specialize (IH c1 Hs). by destruct (run_ops cf c1 ops) as [c2 ev2].
Qed.

(** *** What a finished transaction answers. *)
Definition went_through (o : Outcome) : bool := match o with Committed _ _ _ | PendingApproval _ _ => true | _ => false end.
Lemma decided_failure (e : EngineError) (constraints : dict ConstraintMeta) (x : Decided) :
  decided conflictDetail e constraints = inr x -> went_through (dc_outcome x) = false.
Proof.
  unfold decided. destruct e as [b|d| | | | | | |]; try done. destruct (String.eqb (sqlstate d) "BA001").
  - destruct (cut (db_message d)) as [code rest]. cbv zeta. repeat (case_match; [by intros [= <-]|]).
    destruct (String.eqb code "underApproval"); [|case_match; by intros [= <-]]. case_match; case_match; by intros [= <-].
  - destruct (refusalOf d constraints); by intros [= <-].
Qed.
Lemma failure_never_through (e : EngineError) (invocation : string) (constraints : dict ConstraintMeta) :
  went_through (transactionFailure conflictDetail native_message e invocation constraints) = false.
Proof.
  assert (forall d, went_through (db_failure conflictDetail d invocation constraints) = false) as H.
  { intros d. unfold db_failure. cbv zeta. do 4 (case_match; [done|]). destruct (decided conflictDetail (EDb d) constraints) eqn:E; [done|].
    by eapply decided_failure. }
  destruct e as [b|d| | | | | | |]; cbn [transactionFailure]; try done. destruct (be_cause b); [case_bool_decide| |case_bool_decide|case_bool_decide]; done.
Qed.
Definition committed_at (lease : nat) (ev : list Event) : Prop := EvCommit lease true ∈ ev.
Definition quiet (ev : list Event) : Prop := Forall (fun e => match e with EvCommit _ _ | EvPublish _ _ _ _ => False | _ => True end) ev.
Lemma quiet_in (ev : list Event) (e : Event) : quiet ev -> e ∈ ev -> match e with EvCommit _ _ | EvPublish _ _ _ _ => False | _ => True end.
Proof. unfold quiet. rewrite Forall_forall. intros H He. exact (H e He). Qed.
(** The events of settling: nothing is committed or published there, and its success records the outcome under the receipt's key. *)
Lemma settle_spec (cf : Config) (s : Session) output omitted env :
  quiet (fst (settle cf s output omitted env)) /\
  forall outcome answer, snd (settle cf s output omitted env) = inr (outcome, answer) ->
    EvReceipt (s_key s) (s_digest s) outcome (Net.netChanges (s_captured s)) ∈ fst (settle cf s output omitted env) /\
    an_captured answer = Net.netChanges (s_captured s) /\
    match s_held s with
    | None => outcome = Committed (JObject [("value", output); ("omitted", JBool omitted)]) (records_of (Net.netChanges (s_captured s))) None
    | Some h => over_budget (approval_sql s) = false /\ EvApproval h (s_captured s) (approval_guards cf s) ∈ fst (settle cf s output omitted env) /\
        exists id, outcome = PendingApproval id (records_of (Net.netChanges (s_captured s)))
    end.
Proof.
  unfold settle, settle_outcome. destruct (match s_stageKeys s with [] => None | _ => _ end); [by split; [constructor|]|].
  cbv zeta. destruct (s_held s) as [h|].
  - destruct (over_budget (approval_sql s)) eqn:Eb; [by split; [constructor|]|].
    destruct (fe_approval env) as [|[id due]]; [by split; [repeat constructor|]|].
    destruct (fe_receipt env) as [|[|]]; (split; [repeat constructor|]); try done. cbn [fst snd]. intros outcome answer [= <- <-].
    split_and!; [set_solver|done|done|set_solver|by exists id].
  - destruct (fe_receipt env) as [|[|]]; (split; [repeat constructor|]); try done. cbn [fst snd]. intros outcome answer [= <- <-].
    split_and!; [set_solver|done|done].
Qed.
Lemma abort_quiet (rb : option EngineError) (c : Ctl) : quiet (snd (fst (abort rb c))).
Proof. unfold abort, quiet. destruct (active c); cbn; [|constructor]. destruct (_ || _); repeat constructor. Qed.

(** The answer of a finished transaction is what happened to it. It says committed or pending approval exactly when
    COMMIT succeeded; then that very outcome was recorded under the transaction's key before the COMMIT, the net changes are
    its changes, its records are the direct ones, and it is pending approval exactly when a route was held, whose approval was asked
    for with the reads of the whole transaction. Otherwise it reports a failure, no change, and nothing was published. Only a
    failure to write the audit receipt leaves the transaction open, uncommitted, with no answer. *)
Theorem finish_answers (cf : Config) (s : Session) (output : Json) (omitted : bool) (env : FinishEnv) :
  let '(c', ev, r) := finish cf output omitted env (MkCtl (Some s) false) in
  match r with
  | inl e => fe_auditReceipt env = Some e /\ active c' = Some (run_calls cf s (fe_calls env)) /\ forall l b, EvCommit l b ∉ ev
  | inr res => active c' = None /\ (went_through (ar_outcome res) = true <-> committed_at (s_lease s) ev) /\
      (committed_at (s_lease s) ev ->
         EvReceipt (s_key s) (s_digest s) (ar_outcome res) (Net.netChanges (s_captured s)) ∈ ev /\
         ar_captured res = Net.netChanges (s_captured s) /\
         match s_held s with
         | None => ar_outcome res = Committed (JObject [("value", output); ("omitted", JBool omitted)]) (records_of (ar_captured res)) None
         | Some h => EvApproval h (s_captured s) (approval_guards cf s) ∈ ev /\ exists id, ar_outcome res = PendingApproval id (records_of (ar_captured res))
         end) /\
      (~ committed_at (s_lease s) ev -> ar_captured res = [] /\ ar_v res = 0 /\ forall cs due ids o, EvPublish cs due ids o ∉ ev)
  end.
Proof.
  unfold finish. cbn [required active opening]. destruct (settle_spec cf s output omitted env) as [Hno Hyes].
  destruct (settle cf s output omitted env) as [ev [e|[outcome answer]]]; cbn [fst snd] in *.
  - pose proof (abort_quiet (fe_rollback env) (with_active (MkCtl (Some s) false) (run_calls cf s (fe_calls env)))) as Hq.
    destruct (abort_moves (fe_rollback env) (with_active (MkCtl (Some s) false) (run_calls cf s (fe_calls env)))) as (_ & Ha & _).
    destruct (abort _ _) as [[c' ev'] e']. cbn [fst snd] in *.
    assert (quiet (ev ++ ev')) as Hall by (unfold quiet in *; by apply Forall_app).
    assert (~ committed_at (s_lease s) (ev ++ ev')) as Hc by (intros H; by apply (quiet_in _ _ Hall) in H).
    split_and!; [done| |done|].
    + unfold failed_result. cbn [ar_outcome]. rewrite failure_never_through. done.
    + intros _. split_and!; [done|done|]. intros cs due ids o H. by apply (quiet_in _ _ Hall) in H.
  - destruct (Hyes outcome answer eq_refl) as (H1 & H2 & H3).
    destruct (fe_auditReceipt env) as [e|].
    { split_and!; [done|done|]. intros l b H. by apply (quiet_in _ _ Hno) in H. }
    cbn [committing s_lease s_publish s_guards]. set (s1 := run_calls cf s (fe_calls env)). assert (s_lease s1 = s_lease s) as Hl by apply run_calls_lease.
    rewrite Hl. destruct (fe_commit env) as [e|]; cbn [is_some negb].
    + assert (~ committed_at (s_lease s) (ev ++ [EvCommit (s_lease s) false; EvClose (s_lease s); EvAuditSettled])) as Hc.
      { unfold committed_at. intros [H|H]%elem_of_app; [by apply (quiet_in _ _ Hno) in H|set_solver]. }
      split_and!; [done| |done|].
      * unfold failed_result. cbn [ar_outcome]. by rewrite failure_never_through.
      * intros _. split_and!; [done|done|]. intros cs due ids o [H|H]%elem_of_app; [by apply (quiet_in _ _ Hno) in H|set_solver].
    + set (tail := if s_publish s1 then [_] else _).
      assert (committed_at (s_lease s) ((ev ++ [EvCommit (s_lease s) true; EvClose (s_lease s); EvAuditSettled]) ++ tail)) as Hc.
      { unfold committed_at. set_solver. }
      split_and!; [done| | |done].
      * cbn [ar_outcome]. split; [done|]. intros _. destruct (s_held s); [destruct H3 as (_ & _ & id & ->); done|by rewrite H3].
      * intros _. cbn [ar_outcome ar_captured]. rewrite H2. split_and!; [set_solver|done|]. destruct (s_held s) as [h|]; [|done].
        destruct H3 as (_ & H3 & H4). split; [set_solver|done].
Qed.

(** The guards a transaction is opened with agree with the running source. *)
Definition guards_fresh (cf : Config) (g : option ReadGuards) : Prop :=
  forall g', g = Some g' -> rg_inconsistent g' = false /\ forall e, rg_sourceEpoch g' = Some e -> e = cf_sourceEpoch cf.

(** A transaction is opened only when it should be. From a closed controller [begin] answers that a fresh transaction is
    open exactly when one is, and then no outcome was stored for its key, its guards agree with the running source and are consistent, and
    the gate, run under a lock of the guards' tables, admitted its key; any other answer leaves the controller closed, and an
    outcome it returns is the one stored for the key. *)
Theorem begin_opens (cf : Config) (input : Begin) (env : BeginEnv) :
  let '(c', ev, r) := begin cf input env closed in
  match r with
  | inr None => exists lease, active c' = Some (open_session cf input lease) /\ opening c' = false /\ be_session env = inr lease /\
      be_stored env = inr None /\ be_gate env = inr (Some true) /\ guards_fresh cf (bg_readGuards input) /\
      EvLock (sort_names (s_tables (open_session cf input lease))) ∈ ev
  | inr (Some o) => c' = closed /\ (be_stored env = inr (Some o) \/ be_stored env = inr None /\ be_settled env = inr (Some o))
  | inl _ => c' = closed
  end.
Proof.
  unfold begin. cbn [closed active opening is_some orb]. destruct (be_stored env) as [e|[o|]] eqn:Es; [done|by split; [|left]|].
  destruct (be_prepareAudit env); [done|]. destruct (be_session env) as [|lease] eqn:El; [done|]. cbv zeta.
  set (s := open_session cf input lease). unfold open_checks.
  assert (forall A rb (ev : list Event) (e : EngineError), let '(c', _, _) := on_error (A := A) rb (MkCtl (Some s) true, ev, inl e) in active c' = None) as Herr.
  { intros A rb ev e. cbn [on_error]. destruct (abort_moves rb (MkCtl (Some s) true)) as (_ & H & _).
    by destruct (abort rb (MkCtl (Some s) true)) as [[c' ev'] e']. }
  destruct (be_context env) as [e|]; [by cbn|].
  destruct (match bg_readGuards input with Some g => match rg_sourceEpoch g with Some _ => _ | None => _ end | None => _ end) eqn:E1; [by cbn|].
  destruct (match bg_readGuards input with Some g => rg_inconsistent g | None => _ end) eqn:E2; [by cbn|].
  assert (guards_fresh cf (bg_readGuards input)) as Hg.
  { intros g' Hg. rewrite Hg in E1, E2. split; [done|]. intros e He. rewrite He in E1. by apply negb_false_iff, String.eqb_eq in E1. }
  destruct (be_gate env) as [e|[[|]|]] eqn:Eg; [by cbn| |..].
  - cbn. exists lease. split_and!; try done. by right; left.
  - destruct (be_settled env) as [e|[o|]]; [by cbn|..]; cbn; destruct (be_rollback env); cbn; try done; (split; [done|]); right; done.
  - destruct (be_settled env) as [e|[o|]]; [by cbn|..]; cbn; destruct (be_rollback env); cbn; try done; (split; [done|]); right; done.
Qed.
End Controller.

(** *** A transaction that reads, creates a row and commits, stopped before its end and run to it. *)
Module Demo.
Local Abbreviation nt := Sample.number_text.
Definition detail (s : string) : option (string * list string) := None.
Definition native (e : EngineError) : string := "failed".
Definition cf : Config := MkConfig (JString "run:1") ["task"] "release" "run:1" [].
Definition guards : ReadGuards := MkReadGuards (Some "release"%string) [] ["task"] false.
Definition opens : Op :=
  OBegin (MkBegin "k" "2024-01-01T00:00:00Z" (Some guards)) (MkBeginEnv (inr None) None (inr 7%nat) None (inr (Some true)) (inr None) None).
Definition created : Captured := MkCaptured "task" "1" OpCreate 1 None (Some [("title", JString "a")]) Direct.
Definition reads_ : Op := ORead [GetRead "task" None "1" (Select None true []) None None] None
  [CRead (inr [GuardSample.sql_b]) (inr [[]])] (inr [JNull]) None.
Definition acts : Op := OAct "task" "create" [CPublisher; CStage (MkStaged "s" false None [MkRoot "task" "1" OpCreate]) (inr [[created]])]
  (inr (Committed JNull [MkWritten "task" "1" 1] None)) None.
Definition ends : Op := OFinish JNull true (MkFinishEnv None (inl EInterrupted) [] (inr (Some None)) None None 5 None).
Example it_commits : List.filter (fun e => match e with EvCommit _ _ | EvPublish _ _ _ _ => true | _ => false end)
    (snd (run_ops nt detail native cf closed [opens; reads_; acts; ends])) =
  [EvCommit 7 true; EvPublish [created] None [] (Committed (JObject [("value", JNull); ("omitted", JBool true)]) [MkWritten "task" "1" 1] None)]%string.
Proof. vm_compute. reflexivity. Qed.
Lemma budgets_hold_witness : exists s, active (fst (run_ops nt detail native cf closed [opens; reads_; acts])) = Some s /\
  s_captured s = [created] /\ s_operations s = 2 /\ s_tables s = ["task"]%string /\ session_ok nt cf s.
Proof.
  eexists. split; [vm_compute; reflexivity|]. split_and!; [reflexivity|reflexivity|reflexivity|].
  apply (budgets_hold nt detail native cf [opens; reads_; acts]). vm_compute. reflexivity.
Defined.
End Demo.
End Controller.
