(* ===== verification/Flatten.v ===== *)
(** An act's input as a flat list of changes: [packages/bolt/src/engine/write/flatten.ts]. [layerSel] turns a write
    declaration into an allowlist, the [Flattener] walks the input against it, [withDefaults] completes a created row and
    [changed] drops what an update would not change. The schema library's decoders, [decodeInput] of
    callables/decode.ts (a walk over them) and the text of a number are arguments. *)
From Stdlib Require Import Qround.
From S2P Require Import Prelude Decimal Dates Ir Catalog Contracts Hash Eval.
Import Decimal.

(** ** Limits and data. *)
Definition writeDepth : nat := 8.
Inductive Part := PKey (k : string) | PAt (i : nat).
Abbreviation InputPath := (list Part).
#[export] Instance Part_eq_dec : EqDecision Part. Proof. solve_decision. Defined.

(** An input allowlist, or any field of the model. *)
Inductive Sel := SelAny | SelOnly (columns : list string) (with_ : dict (dict Sel)).
Definition NONE : Sel := SelOnly [] [].
Definition ACTIONS : list string := ["create"; "update"; "upsert"; "link"; "unlink"; "delete"]%string.
Definition SYSTEM : list string := ["id"; "revision"; "created_at"; "created_by"; "updated_at"; "updated_by"]%string.

(** A change: its row, where the input names it, and what it does. *)
Inductive OnConflict := ConflictUpdate | ConflictKeep.
Inductive Change :=
| Create (model id : string) (path : InputPath) (values : Row)
| Upsert (model id : string) (path : InputPath) (values : Row) (on : list string) (onConflict : OnConflict)
| Update (model id : string) (path : InputPath) (set_ : Row) (revision : option number)
| Delete (model id : string) (path : InputPath) (revision : option number).
Record RefUse := MkRef { ref_field : string; ref_to : string; ref_id : string }.
Record ParentRow := MkParent { pr_model : string; pr_id : string; pr_rel : string; pr_fk : string }.
Inductive Belongs := BelongsParent | BelongsFree.
Record Item := MkItem {
  it_change : Change; it_supplied : list string; it_refs : list RefUse; it_parent : option ParentRow;
  it_belongs : option Belongs; it_attach : bool }.
Record Problem := MkProblem { p_path : InputPath; p_message : string }.

(** The manifest's part the flattener reads. *)
Record FieldSpec := MkFieldSpec { fs_kind : KindSpec; fs_default : option Json; fs_multiple : bool }.
Record Relationship := MkRelationship { rs_owned : bool; rs_optional : bool; rs_default : option string }.
Record ModelSpec := MkModelSpec { ms_fields : dict FieldSpec; ms_key : option (list string); ms_unique : list (list string) }.
Record AttachLayer := MkAttach { at_model : string; at_field : string }.
Record Manifest := MkManifest {
  mf_models : dict ModelSpec; mf_relationships : dict Relationship; mf_teams : list string; mf_customFields : dict (option KindSpec);
  mf_attaches : dict (dict AttachLayer) }.

(** ** Allowlists of a write declaration. *)
Inductive WriteVerb := VCreate | VUpdate.
#[export] Instance WriteVerb_eq_dec : EqDecision WriteVerb. Proof. solve_decision. Defined.
(** What follows a prefix, if it is one. *)
Definition after (prefix s : string) : option string :=
  if String.prefix prefix s then Some (drop (String.length prefix) s) else None.
Section Layers.
Context (m : Manifest) (cat : Catalog) (columns : dict (list string)) (verb : WriteVerb).
Definition relationship (child column : string) : option Relationship := get (mf_relationships m) (child +:+ "." +:+ column).
Definition many_of (model rel : string) : option ManyRel := info ← get (models cat) model; get (mi_many info) rel.
(** The relation a declared path adds to another: one more name. *)
Definition child_rel (path p : string) : option string :=
  match after (path +:+ ".") p with
  | Some rel => if String.eqb rel "" || has_dot rel then None else Some rel
  | None => None
  end.
(** The actions a child layer takes besides the declared columns. *)
Definition layer_actions (owned : bool) (sub : Sel) : dict Sel :=
  match verb with
  | VCreate => ("create"%string, sub) :: (if owned then [] else [("link"%string, NONE)])
  | VUpdate =>
      [("create"%string, sub); ("update"%string, sub); ("delete"%string, NONE)] ++
      (if owned then [] else [("link"%string, NONE); ("unlink"%string, NONE)])
  end.
(** [layerSel]. A deeper layer has a longer path, so as many levels as the longest path has characters are enough. *)
Fixpoint layer_sel (fuel : nat) (path model : string) : Sel :=
  SelOnly (default [] (get columns path))
    match fuel with
    | O => []
    | S fuel' =>
        flat_map (fun p =>
          match child_rel path p with
          | None => []
          | Some rel =>
              match many_of model rel with
              | None => []
              | Some many =>
                  [(rel, layer_actions match relationship (many_child many) (many_column many) with Some r => rs_owned r | None => false end
                           (layer_sel fuel' p (many_child many)))]
              end
          end) (keys columns)
    end.
Definition longest : nat := foldr (fun p n => Nat.max (String.length p) n) O (keys columns).
Definition layerSel (path model : string) : Sel := layer_sel longest path model.
End Layers.

Definition is_action (p : Part) : bool := match p with PKey k => includes ACTIONS k | PAt _ => false end.
(** The relations a path was reached through: a name followed by an action. *)
Fixpoint layer_names (path : InputPath) : list string :=
  match path with
  | PKey k :: ((PKey a :: _) as rest) => (if includes ACTIONS a then [k] else []) ++ layer_names rest
  | _ :: rest => layer_names rest
  | [] => []
  end.
Definition layerPath (root : string) (path : InputPath) : string := join "." (root :: layer_names path).

(** ** One value against its kind. *)
Section Values.
(** [String(n)] of a finite number, [String(v)] of any value, and [Date.parse]. *)
Context (number_text : number -> string) (text_of : Json -> string) (date_parse : string -> option number).
(** The schema library: whether a value decodes as a decimal, a calendar day, an instant or a declared list or object. *)
Inductive Codec := CodecDecimal | CodecDate | CodecInstant | CodecSpec (spec : KindSpec).
Context (decodes : Codec -> Json -> bool).
(** A declared shape: a kind, or a list of one. *)
Inductive Shape := ShapeOf (kind : KindSpec) | ShapeList (kind : KindSpec).
(** [decodeInput] of one value of a shape: its problems, the value on the wire, and the records it names. *)
Record Decoded := MkDecoded { de_problems : list (string * string); de_wired : option Json; de_refs : list RefUse }.
Context (decodeInput : string -> Shape -> Json -> Decoded).

Definition isObject (v : Json) : bool := match v with JObject _ => true | _ => false end.
Definition is_string (v : Json) : bool := match v with JString _ => true | _ => false end.
Definition isSafeInteger (n : number) : bool := Qeq_bool n (inject_Z (Qfloor n)) && (Z.abs (Qfloor n) <=? 2 ^ 53 - 1).
Definition all_of (p : Json -> bool) (v : Json) : bool := match v with JArray l => forallb p l | _ => false end.
Definition kind_name (spec : option FieldSpec) : string := match spec with Some s => k_kind (fs_kind s) | None => "" end.

(** One end of a period. *)
Definition period_end (date : bool) (x : option Json) : option string :=
  match x with
  | Some (JString s) => if decodes (if date then CodecDate else CodecInstant) (JString s) then Some s else None
  | _ => None
  end.
Definition decode_period (date : bool) (v : Json) : option string :=
  let lo := if date then "from" else "start" in
  let hi := if date then "to" else "end" in
  let expected := Some ("expected a period { " +:+ lo +:+ ", " +:+ hi +:+ " }") in
  match v with
  | JObject o =>
      if forallb (fun k => String.eqb k lo || String.eqb k hi) (keys o) then
        match period_end date (get o lo) with
        | None => expected
        | Some a =>
            match default JNull (get o hi) with
            | JNull => None
            | b =>
                match period_end date (Some b) with
                | None => expected
                | Some z =>
                    if if date then str_leb a z
                       else match date_parse a, date_parse z with Some x, Some y => negb (Qle_bool y x) | _, _ => false end
                    then None else Some ("'" +:+ lo +:+ "' is after '" +:+ hi +:+ "'")
                end
            end
        end
      else expected
  | _ => expected
  end.
(** A problem's path without the leading name the shape was decoded under. *)
Definition shape_path (p : string) : string :=
  let p := match after "value" p with Some (String "." r) => r | Some r => r | None => p end in
  if String.eqb p "" then "value" else p.

Definition expect (ok : bool) (message : string) : option string := if ok then None else Some message.
Definition enum_ok (f : FieldInfo) (values : list string) (v : Json) : bool :=
  let ok := fun x => match x with JString s => includes values s | _ => false end in
  if f_many f then all_of ok v else ok v.
Definition arm_ok (f : FieldInfo) (v : Json) : bool :=
  match v with
  | JObject o =>
      (length o =? 2)%nat && is_some (match get o "id" with Some (JString s) => Some s | _ => None end) &&
      match get o "model" with Some (JString t) => includes (default [] (f_arms f)) t | _ => false end
  | _ => false
  end.
Definition vector_ok (f : FieldInfo) (v : Json) : bool :=
  match v with
  | JArray l => (Z.of_nat (length l) =? default (Z.of_nat (length l)) (f_dim f)) && forallb (fun x => match x with JNumber _ => true | _ => false end) l
  | _ => false
  end.
Definition decodeValue (f : FieldInfo) (v : Json) (spec : option FieldSpec) (shape : option Shape) : option string :=
  let kind := f_kind f in
  let is_kind := fun ks => includes ks kind in
  if match v with JNull => true | _ => false end then None
  else if is_kind ["text"; "currency"]%string then
    if f_many f then expect (all_of is_string v) "expected a list of text" else expect (is_string v) "expected text"
  else if is_kind ["enum"]%string then
    if negb (String.eqb (kind_name spec) "enum") then Some "expected the declared enum"%string
    else
      let values := match spec with Some s => default [] (k_values (fs_kind s)) | None => [] end in
      expect (enum_ok f values v) ("expected one of " +:+ join ", " values)
  else if is_kind ["state"]%string then
    if negb (String.eqb (kind_name spec) "state") then Some "expected the declared state"%string
    else
      let states := match spec with Some s => default [] (k_states (fs_kind s)) | None => [] end in
      expect match v with JString s => has_own states s | _ => false end ("'" +:+ text_of v +:+ "' is not a state")
  else if is_kind ["int"; "duration"]%string then
    expect match v with JNumber n => isSafeInteger n | _ => false end "expected a whole number"
  else if is_kind ["decimal"; "money"]%string then expect (decodes CodecDecimal v) "expected a decimal"
  else if is_kind ["bool"]%string then expect match v with JBool _ => true | _ => false end "expected true or false"
  else if is_kind ["date"]%string then expect (decodes CodecDate v) "expected a date"
  else if is_kind ["instant"]%string then
    expect match v with JString s => is_some (date_parse s) | _ => false end "expected an instant"
  else if is_kind ["id"]%string then expect (is_string v) "expected an id"
  else if is_kind ["ref"]%string then
    expect (arm_ok f v) ("expected { model, id } with model one of " +:+ join ", " (default [] (f_arms f)))
  else if is_kind ["period"]%string then decode_period (match f_periodOf f with Some "date"%string => true | _ => false end) v
  else if is_kind ["vector"]%string then
    expect (vector_ok f v) ("expected " +:+ match f_dim f with Some d => dec_of d | None => "a list of" end +:+ " finite numbers")
  else if is_kind ["list"; "object"]%string then
    match spec with
    | Some s =>
        if includes ["list"; "object"]%string (k_kind (fs_kind s)) then expect (decodes (CodecSpec (fs_kind s)) v) "expected the declared field shape"
        else Some "expected the declared field shape"%string
    | None => Some "expected the declared field shape"%string
    end
  else if is_kind ["json"; "custom"]%string then
    match shape with
    | None => None
    | Some s =>
        match de_problems (decodeInput "value" s v) with
        | [] => None
        | ps => Some (join "; " (map (fun pm => shape_path (fst pm) +:+ " " +:+ snd pm) ps))
        end
    end
  else None.

(** A JSON number as the decimal its shortest digits spell. *)
Fixpoint fraction_digits (s : string) : Z :=
  match s with
  | EmptyString => 0
  | String c s' =>
      if Ascii.eqb c "." then match span is_digit s' with (EmptyString, _) => fraction_digits s' | (ds, _) => slength ds end
      else fraction_digits s'
  end.
Fixpoint negative_exponent (s : string) : Z :=
  match s with
  | EmptyString => 0
  | String c s' =>
      if Ascii.eqb c "e" then
        match s' with
        | String d ds => if Ascii.eqb d "-" && negb (String.eqb ds "") && all_chars is_digit ds then digits_val ds else negative_exponent s'
        | EmptyString => 0
        end
      else negative_exponent s'
  end.
Definition spelled (v : number) : outcome Json :=
  let text := number_text v in
  let sc := fraction_digits text + negative_exponent text in
  d ← fromNumber (JsNumber None text) (num_of_Z sc) halfUp;
  Ok (JObject [("$dec"%string, JString (toString d))]).
End Values.

(** ** The flattener.

    A step ends, throws (a missing model), or is cut off by its fuel. *)
Inductive run (A : Type) := Done (a : A) | Threw (e : jserror) | Spent.
Arguments Done {A} _.
Arguments Threw {A} _.
Arguments Spent {A}.
#[export] Instance run_ret : MRet run := fun A a => Done a.
#[export] Instance run_bind : MBind run := fun A B f m => match m with Done a => f a | Threw e => Threw e | Spent => Spent end.
Definition of_outcome {A} (o : outcome A) : run A := match o with Ok a => Done a | Throw e => Threw e end.

(** What a flattener has gathered: changes, problems, and how many ids it minted. *)
Record Gathered := MkGathered { items : list Item; problems : list Problem; minted : nat }.
Definition gathered0 : Gathered := MkGathered [] [] 0.
Definition bad (st : Gathered) (path : InputPath) (message : string) : Gathered :=
  MkGathered (items st) (problems st ++ [MkProblem path message]) (minted st).
Definition push (st : Gathered) (i : Item) : Gathered := MkGathered (items st ++ [i]) (problems st) (minted st).

(** A relation's value: its explicit actions, or the list of a create tree's children. *)
Inductive Rel := RelActions (o : dict Json) | RelList (l : list Json).
Record Columns := MkColumns { cl_values : Row; cl_rels : list (string * Rel); cl_supplied : list string }.

(** [parseAddress] and [canonicalPhone] of identity/address.ts. *)
Definition phone_noise (c : ascii) : bool := is_space c || has_char (Ascii.eqb c) "-().".
Fixpoint strip (f : ascii -> bool) (s : string) : string :=
  match s with EmptyString => EmptyString | String c s' => if f c then strip f s' else String c (strip f s') end.
Definition is_phone_text (s : string) : bool :=
  match s with
  | String p (String d ds) =>
      Ascii.eqb p "+" && is_digit d && negb (Ascii.eqb d "0") && all_chars is_digit ds && (7 <=? slength ds) && (slength ds <=? 14)
  | _ => false
  end.
Definition canonicalPhone (typed : string) : string :=
  let text := trim typed in
  if has_char (Ascii.eqb "@") text then typed
  else let phone := strip phone_noise text in if is_phone_text phone then phone else typed.

Section Flattener.
Context (number_text : number -> string) (text_of : Json -> string) (date_parse : string -> option number).
Context (decodes : Codec -> Json -> bool) (decodeInput : string -> Shape -> Json -> Decoded).
(** The manifest, its catalog, the minted ids in order, and the ids an earlier pass gave (by model and path). *)
Context (m : Manifest) (cat : Catalog) (mint : nat -> string) (identities : string -> InputPath -> option string).

Definition model_of (name : string) : run ModelInfo :=
  match get (models cat) name with Some info => Done info | None => Threw (JsError "TypeError" "the model is undefined") end.
Definition field_spec (model k : string) : option FieldSpec := ms ← get (mf_models m) model; get (ms_fields ms) k.
Definition shapeOf (model k : string) : option Shape :=
  spec ← field_spec model k;
  let kind := k_kind (fs_kind spec) in
  if String.eqb kind "custom" then
    shape ← match k_of (fs_kind spec) with Some (JString of_) => default None (get (mf_customFields m) of_) | _ => None end;
    Some (if k_many (fs_kind spec) then ShapeList shape else ShapeOf shape)
  else if String.eqb kind "json" then option_map ShapeOf (k_shape (fs_kind spec))
  else if String.eqb kind "list" || String.eqb kind "object" then Some (ShapeOf (fs_kind spec))
  else None.
Definition isPhone (spec : option FieldSpec) : bool :=
  match spec with
  | Some s => String.eqb (k_kind (fs_kind s)) "text" && bool_decide (k_format (fs_kind s) = Some "phone"%string) && negb (k_many (fs_kind s))
  | None => false
  end.
Definition accepts_column (sel : Sel) (k : string) : bool := match sel with SelAny => true | SelOnly columns _ => includes columns k end.
Definition accepted_actions (sel : Sel) (rel : string) : option (dict Sel) := match sel with SelAny => None | SelOnly _ w => get w rel end.
Definition accepts_relation (sel : Sel) (k : string) : bool := match sel with SelAny => true | SelOnly _ w => is_some (get w k) end.
(** A field the engine computes or keeps itself. *)
Definition kept_field (f : FieldInfo) (k : string) : bool := f_computed f || f_derived f || includes SYSTEM k.
Definition writable (info : ModelInfo) (sel : Sel) : list string :=
  map fst (List.filter (fun kf => negb (kept_field (snd kf) (fst kf)) && accepts_column sel (fst kf)) (mi_fields info)).
Definition not_accepted (k : string) : string := "'" +:+ k +:+ "' is not accepted here".
Definition not_a_field (model k : string) (info : ModelInfo) (sel : Sel) : string :=
  "'" +:+ k +:+ "' is not a field of " +:+ model +:+
  (if has_char (fun c => (N_of_ascii c =? 173)%N) k then " (the name holds invisible characters)" else "") +:+
  "; its fields: " +:+ join ", " (writable info sel).
(** The value to store: a shape's wire form, a decimal spelled out, a phone in its one spelling. *)
Definition stored (model k : string) (f : FieldInfo) (v : Json) : run (option Json) :=
  match shapeOf model k, v with
  | Some shape, JNull => Done (Some JNull)
  | Some shape, v => Done (de_wired (decodeInput k shape v))
  | None, JNumber n =>
      if includes ["decimal"; "money"] (f_kind f) then j ← of_outcome (spelled number_text n); Done (Some j) else Done (Some v)
  | None, JString s => Done (Some (if isPhone (field_spec model k) then JString (canonicalPhone s) else v))
  | None, v => Done (Some v)
  end.
(** One entry of an input object. *)
Definition column (model : string) (info : ModelInfo) (sel : Sel) (path : InputPath) (acc : Gathered * Columns) (kv : string * Json)
  : run (Gathered * Columns) :=
  let '(st, d) := acc in
  let '(k, v) := kv in
  let at_ := path ++ [PKey k] in
  let refuse := fun message => Done (bad st at_ message, d) in
  let relate := fun r => Done (st, MkColumns (cl_values d) (cl_rels d ++ [(k, r)]) (cl_supplied d ++ [k])) in
  match get (mi_many info) k with
  | Some _ =>
      if negb (accepts_relation sel k) then refuse (not_accepted k)
      else match v with JObject o => relate (RelActions o) | JArray l => relate (RelList l) | _ => refuse "expected relation actions"%string end
  | None =>
      match (if has_dot k then None else get (mi_fields info) k) with
      | None => refuse (not_a_field model k info sel)
      | Some f =>
          if kept_field f k then refuse ("'" +:+ k +:+ "' is derived and cannot be written")
          else if negb (accepts_column sel k) then refuse (not_accepted k)
          else
            let problem :=
              match (if f_team f then v else JNull) with
              | JString s =>
                  if includes (mf_teams m) s then decodeValue text_of date_parse decodes decodeInput f v (field_spec model k) (shapeOf model k)
                  else Some ("'" +:+ s +:+ "' is not a team declared in source")
              | _ => decodeValue text_of date_parse decodes decodeInput f v (field_spec model k) (shapeOf model k)
              end in
            match problem with
            | Some message => refuse message
            | None =>
                s ← stored model k f v;
                match s with
                | None => refuse "expected the declared field shape"%string
                | Some j => Done (st, MkColumns (set (cl_values d) k j) (cl_rels d) (cl_supplied d ++ [k]))
                end
            end
      end
  end.
Fixpoint column_fold (model : string) (info : ModelInfo) (sel : Sel) (path : InputPath) (acc : Gathered * Columns) (o : dict Json)
  : run (Gathered * Columns) :=
  match o with
  | [] => Done acc
  | kv :: o' => acc' ← column model info sel path acc kv; column_fold model info sel path acc' o'
  end.
Definition columns (model : string) (sel : Sel) (value : option Json) (path : InputPath) (st : Gathered) : run (Gathered * option Columns) :=
  match value with
  | Some (JObject o) =>
      info ← model_of model;
      r ← column_fold model info sel path (st, MkColumns [] [] []) o;
      Done (fst r, Some (snd r))
  | _ => Done (bad st path "expected an object", None)
  end.

(** The records the values name. *)
Definition undefined_text (v : option Json) : string := match v with Some v => text_of v | None => "undefined" end.
Definition refs_of_value (info : ModelInfo) (model : string) (kv : string * Json) : list RefUse :=
  let '(k, v) := kv in
  match get (mi_one info) k with
  | None =>
      match shapeOf model k, v with
      | None, _ | Some _, JNull => []
      | Some shape, v => de_refs (decodeInput k shape v)
      end
  | Some one =>
      match v with
      | JString s => [MkRef k (hd_text (one_targets one)) s]
      | JObject o => if is_arc (one_targets one) then [MkRef k (undefined_text (get o "model")) (undefined_text (get o "id"))] else []
      | _ => []
      end
  end.
Definition refsOf (model : string) (values : Row) : run (list RefUse) :=
  info ← model_of model; Done (flat_map (refs_of_value info model) values).

Definition actions_in (path : InputPath) : nat := length (List.filter is_action path).
(** [depth]: whether another level of relation actions may nest here. *)
Definition depth (path : InputPath) (st : Gathered) : bool * Gathered :=
  if (actions_in path <=? writeDepth)%nat then (true, st)
  else (false, bad st path ("relation actions nest at most " +:+ dec_of (Z.of_nat writeDepth) +:+ " deep")).
Definition without_key (k : string) (o : dict Json) : dict Json := List.filter (fun kv => negb (String.eqb (fst kv) k)) o.

(** *** The writes.

    Each takes what walks the relations of the row it pushes. *)
Definition walk : Type := string -> Sel -> string -> list (string * Rel) -> InputPath -> Gathered -> run Gathered.

(** [attaches]: each id is an existing row whose declared optional ref the commit sets to the new row. *)
Definition attach_id (model : string) (layer : string) (target : AttachLayer) (parentId : string) (at_ : InputPath)
    (acc : Gathered * list string) (iv : nat * Json) : Gathered * list string :=
  let '(st, seen) := acc in
  let '(index, id) := iv in
  match id with
  | JString id =>
      if includes seen id then (bad st (at_ ++ [PAt index]) "duplicate id", seen)
      else
        (push st (MkItem (Update (at_model target) id (at_ ++ [PKey "link"; PAt index]) [(at_field target, JString parentId)] None)
                   [at_field target] [] (Some (MkParent model parentId layer (at_field target))) (Some BelongsFree) true),
         seen ++ [id])
  | _ => (bad st (at_ ++ [PAt index]) "expected an id", seen)
  end.
Definition indexed (l : list Json) : list (nat * Json) := combine (seq 0 (length l)) l.
Definition attach_layer (model : string) (layers : dict AttachLayer) (parentId : string) (path : InputPath) (st : Gathered) (li : string * Json) : Gathered :=
  let '(layer, ids) := li in
  let at_ := path ++ [PKey "attaches"; PKey layer] in
  match get layers layer with
  | None => bad st at_ ("'" +:+ layer +:+ "' is not an attach layer of " +:+ model)
  | Some target =>
      match ids with
      | JArray l => fst (fold_left (attach_id model layer target parentId at_) (indexed l) (st, []))
      | _ => bad st at_ "expected a list of ids"
      end
  end.
Definition attaches (model : string) (layers : dict AttachLayer) (value : Json) (parentId : string) (path : InputPath) (st : Gathered) : Gathered :=
  match value with
  | JObject o => fold_left (attach_layer model layers parentId path) o st
  | _ => bad st (path ++ [PKey "attaches"]) "expected an object of layer → ids"
  end.

Record UpsertOf := MkUpsertOf { up_on : list string; up_onConflict : OnConflict }.
Definition create_with (rec : walk) (model : string) (sel : Sel) (value : option Json) (path : InputPath) (parent : option ParentRow)
    (upsert : option UpsertOf) (named : option string) (st : Gathered) : run Gathered :=
  let attachLayers := match parent with None => get (mf_attaches m) model | Some _ => None end in
  let '(input, attached) :=
    match attachLayers, value with
    | Some _, Some (JObject o) => (Some (JObject (without_key "attaches" o)), get o "attaches")
    | _, _ => (value, None)
    end in
  r ← columns model sel input path st;
  match r with
  | (st, None) => Done st
  | (st, Some d) =>
      let values := match named, upsert with Some id, Some _ => set (cl_values d) "id" (JString id) | _, _ => cl_values d end in
      refs ← refsOf model values;
      let values := match parent with Some p => set values (pr_fk p) (JString (pr_id p)) | None => values end in
      let fresh := mint (minted st) in
      let st := MkGathered (items st) (problems st) (S (minted st)) in
      let id := match identities model path with
                | Some id => id
                | None => match named, upsert with Some id, None => id | _, _ => fresh end
                end in
      let change := match upsert with
                    | None => Create model id path values
                    | Some u => Upsert model id path values (up_on u) (up_onConflict u)
                    end in
      st ← rec model sel id (cl_rels d) path (push st (MkItem change (cl_supplied d) refs parent None false));
      Done match attachLayers, attached with
           | Some layers, Some value => attaches model layers value id path st
           | _, _ => st
           end
  end.

Definition update_with (rec : walk) (model : string) (sel : Sel) (id set_ : option Json) (revision : option number) (path : InputPath)
    (parent : option ParentRow) (st : Gathered) : run Gathered :=
  match id with
  | Some (JString id) =>
      r ← columns model sel set_ (path ++ [PKey "set"]) st;
      match r with
      | (st, None) => Done st
      | (st, Some d) =>
          refs ← refsOf model (cl_values d);
          rec model sel id (cl_rels d) (path ++ [PKey "set"])
            (push st (MkItem (Update model id path (cl_values d) revision) (cl_supplied d) refs parent
                       (match parent with Some _ => Some BelongsParent | None => None end) false))
      end
  | _ => Done (bad st (path ++ [PKey "target"]) "expected an id")
  end.

Definition delete (model : string) (id : option Json) (revision : option number) (path : InputPath) (parent : option ParentRow) (st : Gathered) : Gathered :=
  match id with
  | Some (JString id) =>
      push st (MkItem (Delete model id path revision) [] [] parent (match parent with Some _ => Some BelongsParent | None => None end) false)
  | _ => bad st path "expected an id"
  end.

(** A relation action's upsert: [{ values, onConflictDoUpdate }], or the bare values. *)
Definition upsert_with (rec : walk) (model : string) (sel : Sel) (v : Json) (path : InputPath) (parent : ParentRow) (st : Gathered) : run Gathered :=
  let o := match v with JObject o => o | _ => [] end in
  let wrapped := has_own o "values" && has_own o "onConflictDoUpdate" in
  let flag := get o "onConflictDoUpdate" in
  if wrapped && (negb match flag with Some (JBool _) => true | _ => false end || negb (length o =? 2)%nat)
  then Done (bad st path "expected { values, onConflictDoUpdate }")
  else
    let at_ := if wrapped then path ++ [PKey "values"] else path in
    match (if wrapped then default JNull (get o "values") else v) with
    | JObject row =>
        let values := JObject (without_key "id" row) in
        match get row "id" with
        | None => create_with rec model sel (Some values) at_ (Some parent) None None st
        | Some (JString id) =>
            let keep := wrapped && match flag with Some (JBool false) => true | _ => false end in
            create_with rec model sel (Some values) at_ (Some parent) (Some (MkUpsertOf ["id"%string] (if keep then ConflictKeep else ConflictUpdate))) (Some id) st
        | Some _ => Done (bad st (at_ ++ [PKey "id"]) "expected an id")
        end
    | _ => Done (bad st at_ "expected an object")
    end.

(** One row of a relation action. *)
Definition act_row (rec : walk) (rel : ManyRel) (owned : bool) (id : string) (parent : ParentRow) (action : string) (sub : Sel)
    (st : Gathered) (vp : Json * InputPath) : run Gathered :=
  let '(v, p) := vp in
  let child := many_child rel in
  if String.eqb action "create" then create_with rec child sub (Some v) p (Some parent) None None st
  else if String.eqb action "upsert" then upsert_with rec child sub v p parent st
  else if String.eqb action "update" then
    match v with
    | JObject o => update_with rec child sub (get o "target") (get o "set") None p (Some parent) st
    | _ => Done (bad st p "expected { target, set }")
    end
  else if String.eqb action "delete" then Done (delete child (Some v) None p (Some parent) st)
  else if owned then Done (bad st p ("an owned " +:+ child +:+ " never changes its parent"))
  else match v with
  | JString target =>
      let linked := String.eqb action "link" in
      Done (push st (MkItem (Update child target p [(many_column rel, if linked then JString id else JNull)] None) [many_column rel] []
                       (Some parent) (Some (if linked then BelongsFree else BelongsParent)) false))
  | _ => Done (bad st p "expected an id")
  end.
Fixpoint act_rows (rec : walk) (rel : ManyRel) (owned : bool) (id : string) (parent : ParentRow) (action : string) (sub : Sel)
    (rows : list (Json * InputPath)) (st : Gathered) : run Gathered :=
  match rows with
  | [] => Done st
  | vp :: rows' => st ← act_row rec rel owned id parent action sub st vp; act_rows rec rel owned id parent action sub rows' st
  end.

(** The actions of a relation's value with their rows and the paths of those; a list keeps each child's index. *)
Abbreviation group := (string * option (list (Json * InputPath)))%type.
Definition list_action (v : Json) : string := if is_string v then "link" else "create".
Definition list_groups (base : InputPath) (l : list Json) : list group :=
  let rows := map (fun iv => (list_action (snd iv), (snd iv, base ++ [PKey (list_action (snd iv)); PAt (fst iv)]))) (indexed l) in
  map (fun a => (a, Some (map snd (List.filter (fun r => String.eqb (fst r) a) rows)))) (uniq (map fst rows)).
Definition action_group (base : InputPath) (kv : string * Json) : group :=
  (fst kv, match snd kv with
           | JArray l => Some (map (fun iv => (snd iv, base ++ [PKey (fst kv); PAt (fst iv)])) (indexed l))
           | _ => None
           end).
Definition groups_of (base : InputPath) (r : Rel) : list group :=
  match r with RelList l => list_groups base l | RelActions o => map (action_group base) o end.
Definition act_group (rec : walk) (rel : ManyRel) (owned : bool) (id : string) (parent : ParentRow) (allowed : option (dict Sel))
    (base : InputPath) (st : Gathered) (g : group) : run Gathered :=
  let '(action, rows) := g in
  let at_ := base ++ [PKey action] in
  if negb (includes ACTIONS action) || match allowed with Some w => negb (has_own w action) | None => false end
  then Done (bad st at_ (not_accepted action))
  else match rows with
  | None => Done (bad st at_ "expected a list")
  | Some rows =>
      match depth at_ st with
      | (false, st) => Done st
      | (true, st) =>
          act_rows rec rel owned id parent action (match allowed with None => SelAny | Some w => default SelAny (get w action) end) rows st
      end
  end.
Fixpoint act_groups (rec : walk) (rel : ManyRel) (owned : bool) (id : string) (parent : ParentRow) (allowed : option (dict Sel))
    (base : InputPath) (gs : list group) (st : Gathered) : run Gathered :=
  match gs with
  | [] => Done st
  | g :: gs' => st ← act_group rec rel owned id parent allowed base st g; act_groups rec rel owned id parent allowed base gs' st
  end.
Definition walk_relation (rec : walk) (model : string) (sel : Sel) (id : string) (path : InputPath) (nr : string * Rel) (st : Gathered) : run Gathered :=
  let '(name, actions) := nr in
  info ← model_of model;
  match get (mi_many info) name with
  | None => Threw (JsError "TypeError" "the relation is undefined")
  | Some rel =>
      let owned := match relationship m (many_child rel) (many_column rel) with Some r => rs_owned r | None => false end in
      let base := path ++ [PKey name] in
      act_groups rec rel owned id (MkParent model id name (many_column rel)) (accepted_actions sel name) base (groups_of base actions) st
  end.
(** [relations]: every relation in turn. A row reached through one relation action more has one level of fuel less. *)
Fixpoint relations_of (rec : walk) (model : string) (sel : Sel) (id : string) (rels : list (string * Rel)) (path : InputPath) (st : Gathered) : run Gathered :=
  match rels with
  | [] => Done st
  | nr :: rels' => st ← walk_relation rec model sel id path nr st; relations_of rec model sel id rels' path st
  end.
Fixpoint relations (fuel : nat) : walk :=
  match fuel with
  | O => fun _ _ _ rels _ st => match rels with [] => Done st | _ => Spent end
  | S fuel' => relations_of (relations fuel')
  end.
(** The actions nest [writeDepth] deep, and one more level is opened to refuse them. *)
Definition FUEL : nat := S writeDepth.
Definition create := create_with (relations FUEL).
Definition update := update_with (relations FUEL).
Definition upsert := upsert_with (relations FUEL).

(** ** What a walk gathers.

    A walk only adds to what is gathered; what it adds is permitted by the allowlist it started with, after its parent, and
    no deeper than the limit. *)
Definition grows (st st' : Gathered) : Prop :=
  (exists new, items st' = items st ++ new) /\ (exists ps, problems st' = problems st ++ ps) /\ (minted st <= minted st')%nat.
#[local] Instance grows_preorder : PreOrder grows.
Proof.
  split.
  - intros st. split_and!; [by exists []; rewrite app_nil_r|by exists []; rewrite app_nil_r|lia].
  - intros a b c ((i1 & H1) & (p1 & H2) & H3) ((i2 & H4) & (p2 & H5) & H6).
    split_and!; [exists (i1 ++ i2); by rewrite H4, H1, app_assoc|exists (p1 ++ p2); by rewrite H5, H2, app_assoc|lia].
Qed.
Lemma grows_bad (st : Gathered) p msg : grows st (bad st p msg).
Proof. split_and!; [by exists []; rewrite app_nil_r|by exists [MkProblem p msg]|done]. Qed.
Lemma grows_push (st : Gathered) i : grows st (push st i).
Proof. split_and!; [by exists [i]|by exists []; rewrite app_nil_r|done]. Qed.
Lemma grows_mint (st : Gathered) : grows st (MkGathered (items st) (problems st) (S (minted st))).
Proof. split_and!; [by exists []; rewrite app_nil_r|by exists []; rewrite app_nil_r|cbn; lia]. Qed.
Hint Resolve grows_bad grows_push grows_mint : core.

(** What decoding the columns of an object leaves. *)
Definition writable_field (sel : Sel) (info : ModelInfo) (k : string) : Prop :=
  exists f, get (mi_fields info) k = Some f /\ kept_field f k = false /\ accepts_column sel k = true /\ has_dot k = false.
Record decoded (model : string) (info : ModelInfo) (sel : Sel) (d : Columns) : Prop := MkDecodedOk {
  dc_values : forall k, k ∈ keys (cl_values d) -> writable_field sel info k /\ k ∈ cl_supplied d;
  dc_rels : forall k r, (k, r) ∈ cl_rels d -> is_some (get (mi_many info) k) = true /\ accepts_relation sel k = true;
  dc_wf : wf_dict (cl_values d) }.
(** Where an entry went: refused, or a relation, or a value. *)
Lemma column_cases (model : string) (info : ModelInfo) (sel : Sel) (path : InputPath) (st st' : Gathered) (d d' : Columns) (k : string) (v : Json) :
  column model info sel path (st, d) (k, v) = Done (st', d') ->
  (exists msg, st' = bad st (path ++ [PKey k]) msg /\ d' = d) \/
  (exists r, st' = st /\ d' = MkColumns (cl_values d) (cl_rels d ++ [(k, r)]) (cl_supplied d ++ [k]) /\
     is_some (get (mi_many info) k) = true /\ accepts_relation sel k = true /\
     match r with RelActions o => v = JObject o | RelList l => v = JArray l end) \/
  (exists j, st' = st /\ d' = MkColumns (set (cl_values d) k j) (cl_rels d) (cl_supplied d ++ [k]) /\ writable_field sel info k /\
     get (mi_many info) k = None).
Proof.
  unfold column. destruct (get (mi_many info) k) as [rel|] eqn:Em.
  - destruct (accepts_relation sel k) eqn:Ea; cbn [negb]; [|intros [= <- <-]; left; by eexists].
    destruct v as [|b|n|s|l|o]; intros [= <- <-]; try (left; by eexists); right; left; [by exists (RelList l)|by exists (RelActions o)].
  - destruct (has_dot k) eqn:Ed; [intros [= <- <-]; left; by eexists|]. destruct (get (mi_fields info) k) as [f|] eqn:Ef; [|intros [= <- <-]; left; by eexists].
    destruct (kept_field f k) eqn:Ek; [intros [= <- <-]; left; by eexists|]. destruct (accepts_column sel k) eqn:Ea; cbn [negb]; [|intros [= <- <-]; left; by eexists].
    cbv zeta. destruct (match (if f_team f then v else JNull) with JString s => _ | _ => _ end) as [msg|]; [intros [= <- <-]; left; by eexists|].
    destruct (stored model k f v) as [[j|]| |]; cbn [mbind run_bind]; intros [= <- <-]; [|left; by eexists].
    right; right. exists j. split_and!; try done. by exists f.
Qed.
Lemma column_fold_spec (model : string) (info : ModelInfo) (sel : Sel) (path : InputPath) (o : dict Json) (st st' : Gathered) (d d' : Columns) :
  decoded model info sel d -> column_fold model info sel path (st, d) o = Done (st', d') ->
  grows st st' /\ items st' = items st /\ minted st' = minted st /\ decoded model info sel d'.
Proof.
  revert st d. induction o as [|[k v] o IH]; intros st d Hd; cbn [column_fold]; [by intros [= <- <-]|].
  destruct (column model info sel path (st, d) (k, v)) as [[st1 d1]| |] eqn:E; cbn [mbind run_bind]; [|done|done]. intros H.
  assert (grows st st1 /\ items st1 = items st /\ minted st1 = minted st /\ decoded model info sel d1) as (G1 & I1 & M1 & D1).
  { apply column_cases in E as [(msg & -> & ->)|[(r & -> & -> & H1 & H2 & _)|(j & -> & -> & H1 & _)]]; [by split_and!; auto|..];
      (split_and!; [done|done|done|]); destruct Hd as [Hv Hr Hw]; split; cbn [cl_values cl_rels cl_supplied]; try done.
    - intros x Hx. destruct (Hv x Hx) as [? ?]. split; [done|]. rewrite elem_of_app. by left.
    - intros x rx [Hx|Hx]%elem_of_app; [by apply (Hr x rx)|]. apply list_elem_of_singleton in Hx. by injection Hx as -> ->.
    - intros x Hx. rewrite keys_set in Hx. rewrite elem_of_app, list_elem_of_singleton.
      case_bool_decide; [destruct (Hv x Hx); auto|]. apply elem_of_app in Hx as [Hx|Hx%list_elem_of_singleton]; [destruct (Hv x Hx); auto|subst; auto].
    - by apply wf_set. }
  destruct (IH st1 d1 D1 H) as (G2 & I2 & M2 & D2). split_and!; [by etrans|by rewrite I2|by rewrite M2|done].
Qed.
Lemma columns_spec (model : string) (sel : Sel) (value : option Json) (path : InputPath) (st st' : Gathered) (r : option Columns) :
  columns model sel value path st = Done (st', r) ->
  grows st st' /\ items st' = items st /\ minted st' = minted st /\
  match r with
  | None => True
  | Some d => exists info o, get (models cat) model = Some info /\ value = Some (JObject o) /\ decoded model info sel d
  end.
Proof.
  unfold columns. destruct value as [[|b|n|s|l|o]|]; try (intros [= <- <-]; by split_and!; auto).
  unfold model_of. destruct (get (models cat) model) as [info|]; cbn [mbind run_bind]; [|done].
  destruct (column_fold model info sel path (st, MkColumns [] [] []) o) as [[st1 d]| |] eqn:E; cbn [mbind run_bind]; [|done|done]. intros [= <- <-].
  apply column_fold_spec in E as (G & I & M & D); [by split_and!; [..|exists info, o]|].
  split; cbn; [intros k H|intros k x H|by apply NoDup_nil_2]; by apply elem_of_nil in H.
Qed.

(** *** What an item may be. *)
Definition change_row (c : Change) : string * string :=
  match c with Create model id _ _ | Upsert model id _ _ _ _ | Update model id _ _ _ | Delete model id _ _ => (model, id) end.
Definition change_path (c : Change) : InputPath :=
  match c with Create _ _ p _ | Upsert _ _ p _ _ _ | Update _ _ p _ _ | Delete _ _ p _ => p end.
Definition written (c : Change) : Row :=
  match c with Create _ _ _ v | Upsert _ _ _ v _ _ | Update _ _ _ v _ => v | Delete _ _ _ _ => [] end.
(** The allowlists that govern the rows below a root, each with its model. *)
Inductive reach (sel0 : Sel) (model0 : string) : list string -> Sel -> string -> Prop :=
| reach_root : reach sel0 model0 [] sel0 model0
| reach_child names sel model info rel many action sub : reach sel0 model0 names sel model -> get (models cat) model = Some info ->
    get (mi_many info) rel = Some many -> accepts_relation sel rel = true -> action ∈ ACTIONS ->
    match accepted_actions sel rel with None => sub = SelAny | Some w => get w action = Some sub end ->
    reach sel0 model0 (names ++ [rel]) sub (many_child many).
(** No relation is named like an action. *)
Definition plain_relations : Prop := forall model info rel, get (models cat) model = Some info -> is_some (get (mi_many info) rel) = true -> rel ∉ ACTIONS.
(** A place in the input: the allowlist and model that govern it, reached through the relations its path names. *)
Definition at_row (sel0 : Sel) (model0 : string) (path0 : InputPath) (sel : Sel) (model : string) (path : InputPath) : Prop :=
  exists names, reach sel0 model0 names sel model /\ (plain_relations -> layer_names path = layer_names path0 ++ names).
(** A relation action the allowlist grants on rows of [child] through [column]. *)
Definition granted (sel0 : Sel) (model0 : string) (action child column : string) : Prop :=
  exists names sel model info rel many, reach sel0 model0 names sel model /\ get (models cat) model = Some info /\ get (mi_many info) rel = Some many /\
    many_child many = child /\ many_column many = column /\ accepts_relation sel rel = true /\
    match accepted_actions sel rel with None => True | Some w => is_some (get w action) = true end.
Inductive permitted (sel0 : Sel) (model0 : string) (path0 : InputPath) (i : Item) : Prop :=
| perm_row sel model info : at_row sel0 model0 path0 sel model (change_path (it_change i)) -> get (models cat) model = Some info -> fst (change_row (it_change i)) = model ->
    (forall k, k ∈ keys (written (it_change i)) ->
       writable_field sel info k \/
       match it_change i with
       | Create _ _ _ _ => exists p, it_parent i = Some p /\ k = pr_fk p
       | Upsert _ _ _ _ _ _ => k = "id"%string \/ exists p, it_parent i = Some p /\ k = pr_fk p
       | _ => False
       end) -> (forall id p r, it_change i <> Delete model id p r) -> permitted sel0 model0 path0 i
| perm_delete p child id path : it_parent i = Some p -> it_change i = Delete child id path None ->
    granted sel0 model0 "delete" child (pr_fk p) -> permitted sel0 model0 path0 i
| perm_link p child id path v action : it_parent i = Some p -> it_change i = Update child id path [(pr_fk p, v)] None ->
    granted sel0 model0 action child (pr_fk p) ->
    match relationship m child (pr_fk p) with Some r => rs_owned r = false | None => True end ->
    (action = "link"%string /\ v = JString (pr_id p) \/ action = "unlink"%string /\ v = JNull) -> permitted sel0 model0 path0 i
| perm_attach p names sel model layers target layer id path : reach sel0 model0 names sel model -> get (mf_attaches m) model = Some layers ->
    get layers layer = Some target -> it_attach i = true -> it_parent i = Some p -> pr_model p = model -> pr_fk p = at_field target ->
    it_change i = Update (at_model target) id path [(at_field target, JString (pr_id p))] None -> permitted sel0 model0 path0 i.
Definition row_in (its : list Item) (model id : string) : Prop := exists i, i ∈ its /\ change_row (it_change i) = (model, id).
(** A row's parent is an earlier row; a created child holds its key. *)
Definition parented (before : list Item) (i : Item) : Prop :=
  forall p, it_parent i = Some p -> row_in before (pr_model p) (pr_id p) /\
    match it_change i with Create _ _ _ v | Upsert _ _ _ v _ _ => get v (pr_fk p) = Some (JString (pr_id p)) | _ => True end.
Definition shallow (i : Item) : Prop := it_attach i = true \/ (actions_in (change_path (it_change i)) <= writeDepth)%nat.

Section Sound.
Context (sel0 : Sel) (model0 : string) (path0 : InputPath) (start : list Item).
(** Every item after [start] is permitted, follows its parent and is no deeper than the limit. *)
Definition item_sound (before : list Item) (i : Item) : Prop := permitted sel0 model0 path0 i /\ parented before i /\ shallow i.
Definition sound (its : list Item) : Prop :=
  exists new, its = start ++ new /\ forall a i b, new = a ++ i :: b -> item_sound (start ++ a) i.
Lemma sound_push (its : list Item) (i : Item) : sound its -> item_sound its i -> sound (its ++ [i]).
Proof.
  intros (new & -> & H) Hi. exists (new ++ [i]). split; [by rewrite app_assoc|]. intros a x b E.
  destruct (decide (b = [])) as [->|Hb].
  - apply app_inj_2 in E as [-> [= ->]]; [done|done].
  - destruct (exists_last Hb) as (b' & y & ->). change (x :: b' ++ [y]) with ((x :: b') ++ [y]) in E. rewrite app_assoc in E.
    apply app_inj_2 in E as [E _]; [|done]. by apply (H a x b').
Qed.
Lemma row_in_grows (st st' : Gathered) (model id : string) : grows st st' -> row_in (items st) model id -> row_in (items st') model id.
Proof. intros ((new & ->) & _) (i & Hi & Hr). exists i. split; [rewrite elem_of_app; by left|done]. Qed.
Lemma row_in_push (st : Gathered) (i : Item) : row_in (items (push st i)) (fst (change_row (it_change i))) (snd (change_row (it_change i))).
Proof. exists i. split; [cbn; rewrite elem_of_app, list_elem_of_singleton; by right|by destruct (change_row _)]. Qed.
Definition relation_ok (model : string) (sel : Sel) (nr : string * Rel) : Prop :=
  accepts_relation sel (fst nr) = true.
(** A walk of relations, and a write, from a state they may start in. *)
Definition outcome_sound (st : Gathered) (r : run Gathered) : Prop :=
  match r with Done st' => grows st st' /\ sound (items st') | _ => True end.
Definition walk_sound (rec : walk) : Prop := forall model sel id rels path st,
  at_row sel0 model0 path0 sel model path -> (actions_in path <= writeDepth)%nat -> sound (items st) -> row_in (items st) model id ->
  Forall (relation_ok model sel) rels -> outcome_sound st (rec model sel id rels path st).
Definition enters (model : string) (sel : Sel) (path : InputPath) (parent : option ParentRow) (st : Gathered) : Prop :=
  at_row sel0 model0 path0 sel model path /\ (actions_in path <= writeDepth)%nat /\ sound (items st) /\
  forall p, parent = Some p -> row_in (items st) (pr_model p) (pr_id p).
Lemma outcome_trans (a b : Gathered) (r : run Gathered) : grows a b -> outcome_sound b r -> outcome_sound a r.
Proof. destruct r; cbn; [|done|done]. intros H [G S]. split; [by etrans|done]. Qed.
Lemma outcome_bind (a : Gathered) (r : run Gathered) (f : Gathered -> run Gathered) :
  outcome_sound a r -> (forall b, grows a b -> sound (items b) -> outcome_sound b (f b)) -> outcome_sound a (st ← r; f st).
Proof. destruct r as [b| |]; cbn; [|done|done]. intros [G S] H. apply (outcome_trans _ b); [done|by apply H]. Qed.
Lemma actions_in_app (p q : InputPath) : actions_in (p ++ q) = (actions_in p + actions_in q)%nat.
Proof. unfold actions_in. by rewrite List.filter_app, length_app. Qed.

Lemma layer_names_key (path : InputPath) (k : string) : k ∉ ACTIONS -> layer_names (path ++ [PKey k]) = layer_names path.
Proof.
  intros Hk. induction path as [|[x|n] path IH]; [done| |exact IH]. cbn [app]. destruct path as [|[y|n] path].
  - cbn [app layer_names]. by rewrite (proj2 (includes_false ACTIONS k) Hk).
  - cbn [app] in *. change (layer_names (PKey x :: PKey y :: path ++ [PKey k])) with ((if includes ACTIONS y then [x] else []) ++ layer_names (PKey y :: path ++ [PKey k])).
    by rewrite IH.
  - exact IH.
Qed.
Lemma layer_names_child (path : InputPath) (rel action : string) (n : nat) : rel ∉ ACTIONS -> action ∈ ACTIONS ->
  layer_names (path ++ [PKey rel; PKey action; PAt n]) = layer_names path ++ [rel].
Proof.
  intros Hr Ha. induction path as [|[x|k] path IH]; [|  |exact IH].
  - cbn [app layer_names]. by rewrite (proj2 (includes_spec ACTIONS action) Ha).
  - cbn [app]. destruct path as [|[y|k] path].
    + cbn [app layer_names]. by rewrite (proj2 (includes_false ACTIONS rel) Hr), (proj2 (includes_spec ACTIONS action) Ha).
    + cbn [app] in *. change (layer_names (PKey x :: PKey y :: path ++ [PKey rel; PKey action; PAt n])) with
        ((if includes ACTIONS y then [x] else []) ++ layer_names (PKey y :: path ++ [PKey rel; PKey action; PAt n])).
      rewrite IH. by rewrite app_assoc.
    + exact IH.
Qed.
Lemma at_row_key (sel : Sel) (model : string) (path : InputPath) (k : string) :
  k ∉ ACTIONS -> at_row sel0 model0 path0 sel model path -> at_row sel0 model0 path0 sel model (path ++ [PKey k]).
Proof. intros Hk (names & Hr & Hn). exists names. split; [done|]. intros Hp. by rewrite layer_names_key, Hn. Qed.
Lemma not_action (k : string) : includes ACTIONS k = false -> k ∉ ACTIONS.
Proof. apply includes_false. Qed.
Lemma attaches_sound (model : string) (layers : dict AttachLayer) (s : Sel) names value id path st : reach sel0 model0 names s model -> get (mf_attaches m) model = Some layers ->
  sound (items st) -> row_in (items st) model id ->
  grows st (attaches model layers value id path st) /\ sound (items (attaches model layers value id path st)).
Proof.
  intros Hr Hl Hs Hrow. unfold attaches. destruct value as [| | | | |o]; try (split; [auto|exact Hs]).
  assert (forall st1, grows st st1 /\ sound (items st1) -> grows st (fold_left (attach_layer model layers id path) o st1) /\
    sound (items (fold_left (attach_layer model layers id path) o st1))) as H; [|by apply H].
  induction o as [|[layer ids] o IH]; intros st1 [G S]; cbn [fold_left]; [done|]. apply IH.
  unfold attach_layer. destruct (get layers layer) as [target|] eqn:Et; [|split; [etrans; [exact G|auto]|exact S]].
  destruct ids as [| | | |l|]; try (split; [etrans; [exact G|auto]|exact S]). generalize (indexed l) as il. intros il.
  assert (forall seen st2, grows st st2 /\ sound (items st2) ->
    let r := fold_left (attach_id model layer target id (path ++ [PKey "attaches"; PKey layer])) il (st2, seen) in
    grows st (fst r) /\ sound (items (fst r))) as H; [|by apply H].
  induction il as [|[n v] il IHl]; intros seen st2 [G2 S2]; cbn [fold_left]; [done|].
  assert (grows st2 (fst (attach_id model layer target id (path ++ [PKey "attaches"; PKey layer]) (st2, seen) (n, v))) /\
    sound (items (fst (attach_id model layer target id (path ++ [PKey "attaches"; PKey layer]) (st2, seen) (n, v))))) as [G3 S3].
  { unfold attach_id. destruct v as [| | |x| |]; try (split; [cbn [fst]; auto|exact S2]). destruct (includes seen x); cbn [fst]; [split; [auto|exact S2]|].
    split; [auto|]. cbn [push items]. apply sound_push; [done|]. set (p := MkParent model id layer (at_field target)). split_and!.
    - by eapply (perm_attach _ _ _ _ p names s model layers target layer x).
    - intros p' [= <-]. split; [|done]. by apply (row_in_grows st).
    - by left. }
  destruct (attach_id _ _ _ _ _ _ _) as [st3 seen3]. apply IHl. split; [by etrans|done].
Qed.
Lemma create_sound (rec : walk) model sel value path parent up named st : walk_sound rec -> enters model sel path parent st ->
  outcome_sound st (create_with rec model sel value path parent up named st).
Proof.
  intros Hrec (Hreach & Hdepth & Hs & Hpar). unfold create_with.
  set (layers := match parent with None => _ | Some _ => None end).
  destruct (match layers, value with Some _, Some (JObject o) => _ | _, _ => _ end) as [input attached].
  destruct (columns model sel input path st) as [[st1 [d|]]| |] eqn:E; cbn [mbind run_bind]; try done;
    apply columns_spec in E as (G1 & I1 & M1 & D); [|cbn; by rewrite I1].
  destruct D as (info & o & Hinfo & _ & [Hv Hrels Hwf]).
  set (vals := match named, up with Some id, Some _ => set (cl_values d) "id" (JString id) | _, _ => cl_values d end).
  destruct (refsOf model vals) as [refs| |]; cbn [mbind run_bind]; [|done|done].
  set (vals2 := match parent with Some p => _ | None => vals end).
  set (id := match identities model path with Some id => id | None => _ end).
  set (change := match up with None => Create model id path vals2 | Some u => _ end).
  set (st2 := MkGathered (items st1) (problems st1) (S (minted st1))). set (i := MkItem change _ _ _ _ _).
  assert (change_row change = (model, id) /\ change_path change = path /\ written change = vals2) as (Hrow & Hpath & Hwr) by (unfold change; by destruct up).
  assert (forall k, k ∈ keys vals2 -> k ∈ keys (cl_values d) \/ (exists u, up = Some u /\ k = "id"%string) \/ exists p, parent = Some p /\ k = pr_fk p) as Hkeys.
  { assert (forall k, k ∈ keys vals -> k ∈ keys (cl_values d) \/ exists u, up = Some u /\ k = "id"%string) as Hk1.
    { intros k. unfold vals. destruct named as [nm|], up as [u|]; try (by left). rewrite keys_set. case_bool_decide; [by left|].
      intros [H1|H1%list_elem_of_singleton]%elem_of_app; [by left|]. right. by exists u. }
    intros k. unfold vals2. destruct parent as [p|]; [|intros H1%Hk1; tauto]. rewrite keys_set.
    case_bool_decide; [intros H1%Hk1; tauto|]. intros [H1%Hk1|H1%list_elem_of_singleton]%elem_of_app; [tauto|]. right; right. by exists p. }
  assert (sound (items (push st2 i))) as S2.
  { cbn [push items st2]. rewrite I1. apply sound_push; [done|]. split_and!.
    - apply (perm_row _ _ _ i sel model info); cbn [i it_change it_parent]; [by rewrite Hpath|done|by rewrite Hrow| |intros; unfold change; by destruct up].
      rewrite Hwr. intros k [Hk|[(u & -> & ->)|(p & -> & ->)]]%Hkeys; [left; by apply Hv|right; by left|].
      right. unfold change. destruct up; [right|]; by exists p.
    - intros p [= ->]. split; [by apply Hpar|]. assert (get vals2 (pr_fk p) = Some (JString (pr_id p))) as Hg by apply get_set_eq.
      unfold i, change. cbn [it_change]. by destruct up.
    - right. cbn [i it_change]. by rewrite Hpath. }
  assert (grows st (push st2 i)) as G2 by (etrans; [exact G1|]; etrans; [apply grows_mint|apply grows_push]).
  assert (row_in (items (push st2 i)) model id) as Hin by (pose proof (row_in_push st2 i) as H; cbn [i it_change] in H; by rewrite Hrow in H).
  apply (outcome_trans _ (push st2 i)); [done|]. apply outcome_bind.
  - apply Hrec; try done. apply Forall_forall. intros [k r] Hkr. by destruct (Hrels k r Hkr).
  - intros b Gb Sb. destruct layers as [ls|] eqn:El; [|by split]. destruct attached as [a|]; [|by split].
    destruct Hreach as (names & Hreach & _). apply (attaches_sound _ _ sel names); [done| |done|by apply (row_in_grows (push st2 i))]. unfold layers in El. by destruct parent.
Qed.

Lemma update_sound (rec : walk) model sel id set_ revision path parent st : walk_sound rec -> enters model sel path parent st ->
  outcome_sound st (update_with rec model sel id set_ revision path parent st).
Proof.
  intros Hrec (Hreach & Hdepth & Hs & Hpar). unfold update_with.
  destruct id as [[| | |id| |]|]; try (split; [auto|exact Hs]).
  destruct (columns model sel set_ (path ++ [PKey "set"]) st) as [[st1 [d|]]| |] eqn:E; cbn [mbind run_bind]; try done;
    apply columns_spec in E as (G1 & I1 & M1 & D); [|cbn; by rewrite I1].
  destruct D as (info & o & Hinfo & _ & [Hv Hrels Hwf]). destruct (refsOf model (cl_values d)) as [refs| |]; cbn [mbind run_bind]; [|done|done].
  set (i := MkItem _ _ _ _ _ _). apply (outcome_trans _ (push st1 i)); [by etrans|]. apply Hrec; try done.
  - by apply at_row_key; [apply not_action|].
  - by rewrite actions_in_app, Nat.add_0_r.
  - cbn [push items]. rewrite I1. apply sound_push; [done|]. split_and!.
    + apply (perm_row _ _ _ i sel model info); [done|done|done| |done]. intros k Hk. left. by apply Hv.
    + intros p [= Hp]. split; [by apply Hpar|done].
    + by right.
  - apply (row_in_push st1 i).
  - apply Forall_forall. intros [k r] Hkr. by destruct (Hrels k r Hkr).
Qed.
Lemma upsert_sound (rec : walk) model sel v path parent st : walk_sound rec -> enters model sel path (Some parent) st ->
  outcome_sound st (upsert_with rec model sel v path parent st).
Proof.
  intros Hrec He. pose proof He as (Hreach & Hdepth & Hs & Hpar). unfold upsert_with.
  set (o := match v with JObject o => o | _ => [] end). cbv zeta. destruct (_ && (_ || _)); [split; [auto|exact Hs]|].
  set (at_ := if _ && _ then path ++ [PKey "values"] else path).
  assert (enters model sel at_ (Some parent) st) as He' by (split_and!; try done; unfold at_; destruct (_ && _); [by apply at_row_key; [apply not_action|]|done|by rewrite actions_in_app, Nat.add_0_r|done]).
  destruct (if _ && _ then default JNull (get o "values") else v) as [| | | | |row]; try (split; [auto|exact Hs]).
  destruct (get row "id") as [[| | |id| |]|]; try (split; [auto|exact Hs]); by apply create_sound.
Qed.

(** Where the rows of a relation action are walked. *)
Section Actions.
Context (rec : walk) (sel : Sel) (model rel_name id action : string) (info : ModelInfo) (rel : ManyRel) (path : InputPath).
Hypothesis Hrec : walk_sound rec.
Hypothesis Hreach : at_row sel0 model0 path0 sel model path.
Hypothesis Hinfo : get (models cat) model = Some info.
Hypothesis Hrel : get (mi_many info) rel_name = Some rel.
Hypothesis Haccepts : accepts_relation sel rel_name = true.
Let parent := MkParent model id rel_name (many_column rel).
Let owned := match relationship m (many_child rel) (many_column rel) with Some r => rs_owned r | None => false end.
Let allowed := accepted_actions sel rel_name.
Let sub := match allowed with None => SelAny | Some w => default SelAny (get w action) end.
Lemma act_row_sound st v p n : action ∈ ACTIONS -> p = path ++ [PKey rel_name; PKey action; PAt n] -> match allowed with None => True | Some w => is_some (get w action) = true end ->
  (actions_in p <= writeDepth)%nat -> sound (items st) -> row_in (items st) model id ->
  outcome_sound st (act_row rec rel owned id parent action sub st (v, p)).
Proof.
  intros Hact Epath Hal Hp Hs Hrow. destruct Hreach as (names & Hr & Hnames).
  assert (granted sel0 model0 action (many_child rel) (many_column rel)) as Hg by (exists names, sel, model, info, rel_name, rel; by split_and!).
  assert (at_row sel0 model0 path0 sub (many_child rel) p) as Hsub.
  { exists (names ++ [rel_name]). split.
    - apply (reach_child _ _ names sel model info rel_name rel action); try done. unfold sub. unfold allowed in *.
      destruct (accepted_actions sel rel_name) as [w|]; [|done]. by destruct (get w action).
    - intros Hplain. rewrite Epath, layer_names_child; [by rewrite Hnames, app_assoc| |done]. apply (Hplain model info); [done|]. by rewrite Hrel. }
  assert (enters (many_child rel) sub p (Some parent) st) as He by (split_and!; try done; by intros ? [= <-]).
  unfold act_row. destruct (String.eqb_spec action "create") as [|N1]; [by apply create_sound|].
  destruct (String.eqb_spec action "upsert") as [|N2]; [by apply upsert_sound|].
  destruct (String.eqb_spec action "update") as [|N3]; [destruct v; try (split; [auto|exact Hs]); by apply update_sound|].
  assert (forall i, item_sound (items st) i -> outcome_sound st (Done (push st i))) as Hpush.
  { intros i Hi. split; [auto|]. cbn [push items]. by apply sound_push. }
  assert (forall i, it_parent i = Some parent -> match it_change i with Update _ _ _ _ _ | Delete _ _ _ _ => True | _ => False end ->
    change_path (it_change i) = p -> permitted sel0 model0 path0 i -> item_sound (items st) i) as Hitem.
  { intros i Hpi Hc Hpath Hperm. split_and!; [done| |right; by rewrite Hpath]. intros p' Hp'. rewrite Hpi in Hp'. injection Hp' as <-.
    split; [done|]. by destruct (it_change i). }
  destruct (String.eqb_spec action "delete") as [Hdel|N4].
  { unfold delete. destruct v; try (split; [auto|exact Hs]). apply Hpush, Hitem; try done. eapply (perm_delete _ _ _ _ parent); [done|done|].
    cbn [parent pr_fk]. by rewrite <- Hdel. }
  destruct owned eqn:Eo; [split; [auto|exact Hs]|]. destruct v as [| | |target| |]; try (split; [auto|exact Hs]).
  apply Hpush, Hitem; try done. eapply (perm_link _ _ _ _ parent _ _ _ _ action); [done|done|done| |].
  - cbn [parent pr_fk]. unfold owned in Eo. by destruct (relationship m (many_child rel) (many_column rel)).
  - cbn [parent pr_id]. unfold ACTIONS in Hact. rewrite !elem_of_cons, elem_of_nil in Hact.
    destruct Hact as [|[|[|[->|[->|[|[]]]]]]]; [done|done|done|by left|by right|done].
Qed.
Lemma act_rows_sound rows st : action ∈ ACTIONS -> match allowed with None => True | Some w => is_some (get w action) = true end ->
  Forall (fun vp => (actions_in (snd vp) <= writeDepth)%nat /\ exists n, snd vp = path ++ [PKey rel_name; PKey action; PAt n]) rows ->
  sound (items st) -> row_in (items st) model id -> outcome_sound st (act_rows rec rel owned id parent action sub rows st).
Proof.
  intros Hact Hal. revert st. induction rows as [|[v p] rows IH]; intros st Hp Hs Hrow; cbn [act_rows]; [by split|].
  apply Forall_cons in Hp as [[Hp1 [n Hn]] Hp2]. apply outcome_bind; [by apply (act_row_sound _ _ _ n)|]. intros b G Sb. apply IH; try done. by apply (row_in_grows st).
Qed.
End Actions.

Lemma group_paths (base : InputPath) (r : Rel) (a : string) (rows : list (Json * InputPath)) : (a, Some rows) ∈ groups_of base r ->
  Forall (fun vp => actions_in (snd vp) = actions_in (base ++ [PKey a]) /\ exists n, snd vp = base ++ [PKey a; PAt n]) rows.
Proof.
  assert (forall i, actions_in (base ++ [PKey a; PAt i]) = actions_in (base ++ [PKey a])) as Hi.
  { intros i. change [PKey a; PAt i] with ([PKey a] ++ [PAt i]). rewrite app_assoc, (actions_in_app (base ++ [PKey a])). apply Nat.add_0_r. }
  intros H. apply Forall_forall. intros vp Hvp. destruct r as [o|l]; cbn [groups_of] in H.
  - apply list_elem_of_fmap in H as ([k v] & E & _). unfold action_group in E. cbn [fst snd] in E. destruct v as [| | | |l|]; try done.
    injection E as -> ->. apply list_elem_of_fmap in Hvp as ([i v] & -> & _). cbn [snd fst]. split; [apply Hi|by exists i].
  - unfold list_groups in H. apply list_elem_of_fmap in H as (a' & E & _). injection E as -> ->.
    apply list_elem_of_fmap in Hvp as ([a2 vp2] & -> & Hin). apply list_elem_of_In, filter_In in Hin as [Hin Ha]. cbn [fst snd] in *.
    apply String.eqb_eq in Ha as ->. apply list_elem_of_In, list_elem_of_fmap in Hin as ([i v] & E & _). injection E as -> ->. cbn [snd fst]. split; [apply Hi|by exists i].
Qed.
Lemma walk_relation_sound (rec : walk) model sel id path nr st : walk_sound rec -> at_row sel0 model0 path0 sel model path ->
  sound (items st) -> row_in (items st) model id -> relation_ok model sel nr -> outcome_sound st (walk_relation rec model sel id path nr st).
Proof.
  intros Hrec Hreach Hs Hrow Hok. destruct nr as [name r]. unfold relation_ok in Hok. cbn [fst] in Hok. unfold walk_relation, model_of.
  destruct (get (models cat) model) as [info|] eqn:Hinfo; cbn [mbind run_bind]; [|done].
  destruct (get (mi_many info) name) as [rel|] eqn:Hrel; [|done]. cbv zeta.
  set (owned := match relationship m (many_child rel) (many_column rel) with Some _ => _ | None => _ end).
  set (parent := MkParent _ _ _ _). set (base := path ++ [PKey name]).
  assert (forall gs st1, grows st st1 -> sound (items st1) -> (forall g, g ∈ gs -> g ∈ groups_of base r) ->
    outcome_sound st1 (act_groups rec rel owned id parent (accepted_actions sel name) base gs st1)) as H; [|by apply H].
  induction gs as [|[a rows] gs IH]; intros st1 G1 S1 Hin; cbn [act_groups]; [by split|].
  apply outcome_bind; [|intros b Gb Sb; apply IH; [by etrans|done|intros g Hg; apply Hin; by right]].
  unfold act_group. destruct (negb (includes ACTIONS a) || _) eqn:Ea; [split; [auto|exact S1]|]. apply orb_false_iff in Ea as [Ea1 Ea2].
  apply negb_false_iff, includes_spec in Ea1. destruct rows as [rows|]; [|split; [auto|exact S1]].
  unfold depth. destruct (actions_in (base ++ [PKey a]) <=? writeDepth)%nat eqn:Ed; [|split; [auto|exact S1]].
  apply Nat.leb_le in Ed. apply (act_rows_sound rec sel model name id a info rel path); try done.
  - destruct (accepted_actions sel name) as [w|]; [|done]. by apply negb_false_iff in Ea2.
  - eapply Forall_impl; [apply (group_paths base r a rows), Hin; by left|]. intros vp [Hvp [n Hn]]. split; [lia|]. exists n. rewrite Hn. unfold base. by rewrite <- app_assoc.
  - by apply (row_in_grows st).
Qed.
Lemma relations_of_sound (rec : walk) : walk_sound rec ->
  forall model sel id rels path st, at_row sel0 model0 path0 sel model path -> sound (items st) -> row_in (items st) model id ->
  Forall (relation_ok model sel) rels -> outcome_sound st (relations_of rec model sel id rels path st).
Proof.
  intros Hrec model sel id rels path. induction rels as [|nr rels IH]; intros st Hreach Hs Hrow Hok; cbn [relations_of]; [by split|].
  apply Forall_cons in Hok as [Hok1 Hok2]. apply outcome_bind; [by apply walk_relation_sound|]. intros b Gb Sb.
  apply IH; try done. by apply (row_in_grows st).
Qed.
Lemma relations_sound (fuel : nat) : walk_sound (relations fuel).
Proof.
  induction fuel as [|fuel IH]; intros model sel id rels path st Hreach Hd Hs Hrow Hok; cbn [relations]; [by destruct rels|].
  by apply relations_of_sound.
Qed.
End Sound.

(** *** A walk ends.

    Every relation of a model leads to a model, and a number prints as a decimal. *)
Definition known (model : string) : Prop := exists info, get (models cat) model = Some info.
Definition closed : Prop := forall model info rel many, get (models cat) model = Some info -> get (mi_many info) rel = Some many -> known (many_child many).
Definition prints : Prop := forall n, is_ok (spelled number_text n) = true.
Definition ends {A} (r : run A) : Prop := exists a, r = Done a.
Section Ends.
Hypothesis Hclosed : closed.
Hypothesis Hprints : prints.
Definition names_relations (model : string) (rels : list (string * Rel)) : Prop :=
  forall info, get (models cat) model = Some info -> Forall (fun nr => is_some (get (mi_many info) (fst nr)) = true) rels.
Definition walk_ends (least : nat) (rec : walk) : Prop := forall model sel id rels path st,
  known model -> names_relations model rels -> (least <= actions_in path <= writeDepth)%nat -> ends (rec model sel id rels path st).
Lemma ends_bind {A B} (r : run A) (f : A -> run B) : ends r -> (forall a, r = Done a -> ends (f a)) -> ends (a ← r; f a).
Proof. intros [a ->] H. by apply H. Qed.
Lemma stored_ends model k f v : ends (stored model k f v).
Proof.
  unfold stored. destruct (shapeOf model k) as [sh|], v as [|b|n|s|l|o]; try (by eexists). destruct (includes _ (f_kind f)); [|by eexists].
  pose proof (Hprints n) as H. destruct (spelled number_text n); [by eexists|done].
Qed.
Lemma column_fold_ends model info sel path acc o : ends (column_fold model info sel path acc o).
Proof.
  revert acc. induction o as [|[k v] o IH]; intros [st d]; cbn [column_fold]; [by eexists|]. apply ends_bind; [|intros a _; apply IH].
  unfold column. destruct (get (mi_many info) k); [destruct (negb _); [by eexists|destruct v; by eexists]|].
  destruct (if has_dot k then None else get (mi_fields info) k) as [f|]; [|by eexists]. destruct (kept_field f k); [by eexists|].
  destruct (negb _); [by eexists|]. cbv zeta. destruct (match (if f_team f then v else JNull) with JString s => _ | _ => _ end); [by eexists|].
  apply ends_bind; [apply stored_ends|]. intros [j|] _; by eexists.
Qed.
Lemma columns_ends model sel value path st : known model -> ends (columns model sel value path st).
Proof.
  intros [info Hi]. unfold columns, model_of. rewrite Hi. destruct value as [[]|]; try (by eexists). cbn [mbind run_bind].
  apply ends_bind; [apply column_fold_ends|]. intros a _. by eexists.
Qed.
Lemma refsOf_ends model values : known model -> ends (refsOf model values).
Proof. intros [info Hi]. unfold refsOf, model_of. rewrite Hi. by eexists. Qed.
Lemma columns_names model sel value path st st' d : columns model sel value path st = Done (st', Some d) -> names_relations model (cl_rels d).
Proof.
  intros H. apply columns_spec in H as (_ & _ & _ & info & o & Hi & _ & D). intros info' Hi'. rewrite Hi in Hi'. injection Hi' as <-.
  apply Forall_forall. intros [k r] Hkr. by apply (dc_rels _ _ _ _ D k r).
Qed.
Section Writes.
Context (least : nat) (rec : walk).
Hypothesis Hrec : walk_ends least rec.
Lemma create_ends model sel value path parent up named st : known model -> (least <= actions_in path <= writeDepth)%nat ->
  ends (create_with rec model sel value path parent up named st).
Proof.
  intros Hm Hp. unfold create_with. destruct (match (match parent with None => _ | Some _ => None end), value with Some _, Some (JObject o) => _ | _, _ => _ end) as [input attached].
  apply ends_bind; [by apply columns_ends|]. intros [st1 [d|]] Hc; [|by eexists]. apply ends_bind; [by apply refsOf_ends|]. intros refs _.
  cbv zeta. apply ends_bind; [|intros a _; by eexists]. apply Hrec; [done| |done]. by apply (columns_names _ _ _ _ _ _ _ Hc).
Qed.
Lemma update_ends model sel id set_ revision path parent st : known model -> (least <= actions_in path <= writeDepth)%nat ->
  ends (update_with rec model sel id set_ revision path parent st).
Proof.
  intros Hm Hp. unfold update_with. destruct id as [[]|]; try (by eexists). apply ends_bind; [by apply columns_ends|].
  intros [st1 [d|]] Hc; [|by eexists]. apply ends_bind; [by apply refsOf_ends|]. intros refs _.
  apply Hrec; [done|by apply (columns_names _ _ _ _ _ _ _ Hc)|]. by rewrite actions_in_app, Nat.add_0_r.
Qed.
Lemma upsert_ends model sel v path parent st : known model -> (least <= actions_in path <= writeDepth)%nat ->
  ends (upsert_with rec model sel v path parent st).
Proof.
  intros Hm Hp. unfold upsert_with. cbv zeta. destruct (_ && (_ || _)); [by eexists|].
  destruct (if _ && _ then default JNull _ else v) as [| | | | |row]; try (by eexists).
  assert (forall b : bool, (least <= actions_in (if b then path ++ [PKey "values"] else path) <= writeDepth)%nat) as Hb
    by (intros []; [by rewrite actions_in_app, Nat.add_0_r|done]).
  destruct (get row "id") as [[]|]; try (by eexists); by apply create_ends.
Qed.
Lemma act_rows_ends rel owned id parent action sub rows st : known (many_child rel) ->
  Forall (fun vp => (least <= actions_in (snd vp) <= writeDepth)%nat) rows -> ends (act_rows rec rel owned id parent action sub rows st).
Proof.
  intros Hm. revert st. induction rows as [|[v p] rows IH]; intros st Hp; cbn [act_rows]; [by eexists|]. apply Forall_cons in Hp as [Hp1 Hp2].
  apply ends_bind; [|intros a _; by apply IH]. unfold act_row. destruct (String.eqb action "create"); [by apply create_ends|].
  destruct (String.eqb action "upsert"); [by apply upsert_ends|].
  destruct (String.eqb action "update"); [destruct v; try (by eexists); by apply update_ends|].
  destruct (String.eqb action "delete"); [by eexists|]. destruct owned; [by eexists|]. destruct v; by eexists.
Qed.
End Writes.
Lemma relations_of_ends (least : nat) (rec : walk) : walk_ends (S least) rec -> forall model sel id rels path st,
  known model -> names_relations model rels -> (least <= actions_in path)%nat -> ends (relations_of rec model sel id rels path st).
Proof.
  intros Hrec model sel id rels path. induction rels as [|[name r] rels IH]; intros st Hm Hn Hp; cbn [relations_of]; [by eexists|].
  apply ends_bind; [|intros a _; apply IH; try done; intros info Hi; specialize (Hn info Hi); by apply Forall_cons in Hn as [_ Hn]].
  destruct Hm as [info Hi]. unfold walk_relation, model_of. rewrite Hi. cbn [mbind run_bind].
  specialize (Hn info Hi). apply Forall_cons in Hn as [Hn _]. cbn [fst] in Hn.
  destruct (get (mi_many info) name) as [rel|] eqn:Hrel; [|done]. cbv zeta. set (base := path ++ [PKey name]).
  assert (forall gs st1, (forall g, g ∈ gs -> g ∈ groups_of base r) ->
    ends (act_groups rec rel (match relationship m (many_child rel) (many_column rel) with Some r0 => rs_owned r0 | None => false end) id
      (MkParent model id name (many_column rel)) (accepted_actions sel name) base gs st1)) as H; [|by apply H].
  induction gs as [|[a rows] gs IHg]; intros st1 Hin; cbn [act_groups]; [by eexists|].
  apply ends_bind; [|intros b _; apply IHg; intros g Hg; apply Hin; by right].
  unfold act_group. destruct (negb (includes ACTIONS a) || _) eqn:Ea; [by eexists|]. apply orb_false_iff in Ea as [Ea _]. apply negb_false_iff in Ea.
  destruct rows as [rows|]; [|by eexists]. unfold depth. destruct (actions_in (base ++ [PKey a]) <=? writeDepth)%nat eqn:Ed; [|by eexists].
  apply Nat.leb_le in Ed. apply (act_rows_ends (S least)); [done|by apply (Hclosed model info name)|].
  eapply Forall_impl; [apply (group_paths base r a rows), Hin; by left|]. intros vp [Hvp _]. cbn in Hvp. rewrite Hvp. split; [|done].
  unfold base. rewrite !actions_in_app.
  assert (actions_in [PKey a] = 1%nat) as -> by (unfold actions_in; cbn [List.filter is_action]; by rewrite Ea). lia.
Qed.
Lemma relations_ends (fuel : nat) : walk_ends (S writeDepth - fuel) (relations fuel).
Proof.
  induction fuel as [|fuel IH]; intros model sel id rels path st Hm Hn Hp; [unfold writeDepth in *; lia|]. cbn [relations].
  apply (relations_of_ends (S writeDepth - S fuel)); try done; [|lia]. intros model' sel' id' rels' path' st' Hm' Hn' Hp'. apply IH; try done. lia.
Qed.
End Ends.

(** Flattening ends. Over a catalog whose relations lead to its models, with numbers that print as decimals,
    [create] and [update] of a known model end without throwing and without running out of fuel, whatever the input holds and however
    deep it nests: the levels the depth limit admits are enough. *)
Theorem flatten_ends (model : string) (sel : Sel) (path : InputPath) (st : Gathered) : closed -> prints -> known model -> (actions_in path <= writeDepth)%nat ->
  (forall value parent up named, ends (create model sel value path parent up named st)) /\
  (forall id set_ revision parent, ends (update model sel id set_ revision path parent st)).
Proof.
  intros Hc Hp Hm Ha. pose proof (relations_ends Hc Hp FUEL) as H.
  split; intros; [apply (create_ends Hp 0)|apply (update_ends Hp 0)]; try done; lia.
Qed.

(** What a whole write adds to what was gathered, for an allowlist and a root model. *)
Definition added (sel : Sel) (model : string) (P : list Item -> Item -> Prop) (st : Gathered) (r : run Gathered) : Prop :=
  forall st', r = Done st' -> exists new, items st' = items st ++ new /\ forall a i b, new = a ++ i :: b -> P (items st ++ a) i.
Lemma write_sound (model : string) (sel : Sel) (path : InputPath) (st : Gathered) : (actions_in path <= writeDepth)%nat ->
  (forall value up named, added sel model (item_sound sel model path) st (create model sel value path None up named st)) /\
  (forall id set_ revision, added sel model (item_sound sel model path) st (update model sel id set_ revision path None st)).
Proof.
  intros Ha.
  assert (sound sel model path (items st) (items st)) as Hs by (exists []; split; [by rewrite app_nil_r|]; intros a i b E; by destruct a).
  assert (enters sel model path (items st) model sel path None st) as He
    by (split_and!; [exists []; split; [constructor|intros _; by rewrite app_nil_r]|done|done|done]).
  pose proof (relations_sound sel model path (items st) FUEL) as Hr.
  split; [intros v up named st' E|intros id set_ revision st' E].
  - pose proof (create_sound sel model path (items st) (relations FUEL) model sel v path None up named st Hr He) as H. unfold create in E.
    rewrite E in H. by destruct H as [_ H].
  - pose proof (update_sound sel model path (items st) (relations FUEL) model sel id set_ revision path None st Hr He) as H. unfold update in E.
    rewrite E in H. by destruct H as [_ H].
Qed.

(** The flattener writes only what it was allowed to. Every change it adds is on a row it reached through relations the
    allowlist accepts, and sets only fields of that row's model that the allowlist names and the engine does not keep itself (never a
    computed, derived or system field), besides the key of its parent and the id an upsert is found by; a delete, a link and an unlink
    come only from an action the allowlist grants on that relation, the last two never on an owned child; an attached row sets only the declared
    ref of a declared layer. *)
Theorem writes_permitted (model : string) (sel : Sel) (path : InputPath) (st : Gathered) : (actions_in path <= writeDepth)%nat ->
  (forall value up named, added sel model (fun _ i => permitted sel model path i) st (create model sel value path None up named st)) /\
  (forall id set_ revision, added sel model (fun _ i => permitted sel model path i) st (update model sel id set_ revision path None st)).
Proof.
  intros Ha. destruct (write_sound model sel path st Ha) as [H1 H2].
  split; intros; intros st' E; [destruct (H1 _ _ _ st' E) as (new & En & Hn)|destruct (H2 _ _ _ st' E) as (new & En & Hn)];
    exists new; (split; [done|]); intros a i b Eb; by destruct (Hn a i b Eb).
Qed.

(** Parents come first. Every change with a parent follows, in the list, a change of that parent's row, and a created
    child holds its parent's id in the relation's column; no change but an attachment is reached through more relation actions than the limit. *)
Theorem parents_first (model : string) (sel : Sel) (path : InputPath) (st : Gathered) : (actions_in path <= writeDepth)%nat ->
  (forall value up named, added sel model (fun before i => parented before i /\ shallow i) st (create model sel value path None up named st)) /\
  (forall id set_ revision, added sel model (fun before i => parented before i /\ shallow i) st (update model sel id set_ revision path None st)).
Proof.
  intros Ha. destruct (write_sound model sel path st Ha) as [H1 H2].
  split; intros; intros st' E; [destruct (H1 _ _ _ st' E) as (new & En & Hn)|destruct (H2 _ _ _ st' E) as (new & En & Hn)];
    exists new; (split; [done|]); intros a i b Eb; by destruct (Hn a i b Eb) as [_ ?].
Qed.

(** *** The rows an input names.

    A reading of the input that checks nothing: the changes it asks for, each with its kind, its model and its place. *)
Abbreviation named := (string * string * InputPath)%type.
Definition many_rel (model k : string) : option ManyRel := info ← get (models cat) model; get (mi_many info) k.
(** A row of a relation action, given how to read what is below it. *)
Definition wrapped_upsert (o : dict Json) : bool := has_own o "values" && has_own o "onConflictDoUpdate".
Fixpoint below (v : Json) (skip : list string) (model : string) (path : InputPath) {struct v} : list named :=
  let row := fun (child : string) (p : InputPath) (a : string) (y : Json) =>
    if String.eqb a "create" then ("create"%string, child, p) :: below y [] child p
    else if String.eqb a "upsert" then
      match y with
      | JObject w =>
          if wrapped_upsert w then
            (fix values (w' : dict Json) : list named :=
               match w' with
               | [] => []
               | (k, x) :: w'' =>
                   if String.eqb k "values" then
                     (match x with JObject r => if has_own r "id" then "upsert"%string else "create"%string | _ => ""%string end, child, p ++ [PKey "values"]) ::
                     below x ["id"%string] child (p ++ [PKey "values"])
                   else values w''
               end) w
          else (if has_own w "id" then "upsert"%string else "create"%string, child, p) :: below y ["id"%string] child p
      | _ => []
      end
    else if String.eqb a "update" then
      match y with
      | JObject w =>
          ("update"%string, child, p) ::
          (fix under (w' : dict Json) : list named :=
             match w' with [] => [] | (k, x) :: w'' => if String.eqb k "set" then below x [] child (p ++ [PKey "set"]) else under w'' end) w
      | _ => []
      end
    else if String.eqb a "delete" then [("delete"%string, child, p)]
    else [("update"%string, child, p)] in
  match v with
  | JObject o =>
      (fix entries (o : dict Json) : list named :=
         match o with
         | [] => []
         | (k, x) :: o' =>
             match (if includes skip k then None else many_rel model k) with
             | None => []
             | Some rel =>
                 match x with
                 | JArray l =>
                     (fix rows (i : nat) (l : list Json) : list named :=
                        match l with
                        | [] => []
                        | y :: l' => row (many_child rel) (path ++ [PKey k; PKey (list_action y); PAt i]) (list_action y) y ++ rows (S i) l'
                        end) O l
                 | JObject acts =>
                     (fix actions (acts : dict Json) : list named :=
                        match acts with
                        | [] => []
                        | (a, z) :: acts' =>
                            match z with
                            | JArray l =>
                                (fix rows (i : nat) (l : list Json) : list named :=
                                   match l with
                                   | [] => []
                                   | y :: l' => row (many_child rel) (path ++ [PKey k; PKey a; PAt i]) a y ++ rows (S i) l'
                                   end) O l
                            | _ => []
                            end ++ actions acts'
                        end) acts
                 | _ => []
                 end
             end ++ entries o'
         end) o
  | _ => []
  end.

(** The same reading, over the lists it runs through. *)
Definition upsert_kind (row : Json) : string := match row with JObject r => if has_own r "id" then "upsert" else "create" | _ => "" end.
Definition row_named (child a : string) (y : Json) (p : InputPath) : list named :=
  if String.eqb a "create" then ("create"%string, child, p) :: below y [] child p
  else if String.eqb a "upsert" then
    match y with
    | JObject w =>
        if wrapped_upsert w then
          match get w "values" with
          | Some x => (upsert_kind x, child, p ++ [PKey "values"]) :: below x ["id"%string] child (p ++ [PKey "values"])
          | None => []
          end
        else (upsert_kind y, child, p) :: below y ["id"%string] child p
    | _ => []
    end
  else if String.eqb a "update" then
    match y with
    | JObject w => ("update"%string, child, p) :: match get w "set" with Some x => below x [] child (p ++ [PKey "set"]) | None => [] end
    | _ => []
    end
  else if String.eqb a "delete" then [("delete"%string, child, p)]
  else [("update"%string, child, p)].
Definition list_named (child : string) (base : InputPath) (iv : nat * Json) : list named :=
  row_named child (list_action (snd iv)) (snd iv) (base ++ [PKey (list_action (snd iv)); PAt (fst iv)]).
Definition action_named (child : string) (base : InputPath) (az : string * Json) : list named :=
  match snd az with
  | JArray l => flat_map (fun iv => row_named child (fst az) (snd iv) (base ++ [PKey (fst az); PAt (fst iv)])) (indexed l)
  | _ => []
  end.
Definition rel_named (model : string) (path : InputPath) (nr : string * Rel) : list named :=
  match many_rel model (fst nr) with
  | None => []
  | Some rel =>
      match snd nr with
      | RelList l => flat_map (list_named (many_child rel) (path ++ [PKey (fst nr)])) (indexed l)
      | RelActions o => flat_map (action_named (many_child rel) (path ++ [PKey (fst nr)])) o
      end
  end.
Definition rel_of (x : Json) : option Rel := match x with JArray l => Some (RelList l) | JObject o => Some (RelActions o) | _ => None end.
Definition entry_named (skip : list string) (model : string) (path : InputPath) (kx : string * Json) : list named :=
  if includes skip (fst kx) then [] else match rel_of (snd kx) with Some r => rel_named model path (fst kx, r) | None => [] end.
Lemma below_object (o : dict Json) (skip : list string) (model : string) (path : InputPath) :
  below (JObject o) skip model path = flat_map (entry_named skip model path) o.
Proof.
  assert (forall child a y p,
    (if String.eqb a "create" then ("create"%string, child, p) :: below y [] child p
     else if String.eqb a "upsert" then
       match y with
       | JObject w =>
           if wrapped_upsert w then
             (fix values (w' : dict Json) : list named :=
                match w' with
                | [] => []
                | (k, x) :: w'' =>
                    if String.eqb k "values" then
                      (match x with JObject r => if has_own r "id" then "upsert"%string else "create"%string | _ => ""%string end, child, p ++ [PKey "values"]) ::
                      below x ["id"%string] child (p ++ [PKey "values"])
                    else values w''
                end) w
           else (if has_own w "id" then "upsert"%string else "create"%string, child, p) :: below y ["id"%string] child p
       | _ => []
       end
     else if String.eqb a "update" then
       match y with
       | JObject w =>
           ("update"%string, child, p) ::
           (fix under (w' : dict Json) : list named :=
              match w' with [] => [] | (k, x) :: w'' => if String.eqb k "set" then below x [] child (p ++ [PKey "set"]) else under w'' end) w
       | _ => []
       end
     else if String.eqb a "delete" then [("delete"%string, child, p)]
     else [("update"%string, child, p)]) = row_named child a y p) as Hrow.
  { intros child a y p. unfold row_named. destruct (String.eqb a "create"); [done|]. destruct (String.eqb a "upsert").
    - destruct y as [| | | | |w]; try done. destruct (wrapped_upsert w); [|done]. induction w as [|[k x] w IH]; [done|]. cbn [get].
      by destruct (String.eqb k "values").
    - destruct (String.eqb a "update"); [|done]. destruct y as [| | | | |w]; try done. f_equal. induction w as [|[k x] w IH]; [done|]. cbn [get].
      by destruct (String.eqb k "set"). }
  assert (forall A (f : nat -> Json -> list A) l i,
    (fix rows (i : nat) (l : list Json) : list A := match l with [] => [] | y :: l' => f i y ++ rows (S i) l' end) i l =
    flat_map (fun iv => f (fst iv) (snd iv)) (combine (seq i (length l)) l)) as Hrows.
  { intros A f l. induction l as [|y l IH]; intros i; [done|]. cbn [length seq combine flat_map fst snd]. by rewrite IH. }
  induction o as [|[k x] o IH]; [done|]. cbn [flat_map]. rewrite <- IH. cbn [below]. f_equal. unfold entry_named, rel_named. cbn [fst snd].
  destruct (includes skip k); [done|]. destruct x as [| | | |l|acts]; cbn [rel_of]; destruct (many_rel model k) as [rel|]; try done.
  - cbn [fst snd]. rewrite (Hrows _ (fun i y => _) l O). apply flat_map_ext. intros [i y]. cbn [fst snd]. unfold list_named. cbn [fst snd].
    etrans; [apply Hrow|]. by rewrite <- app_assoc.
  - cbn [fst snd]. clear IH. induction acts as [|[a z] acts IHa]; [done|]. cbn [flat_map]. rewrite <- IHa. f_equal. unfold action_named. cbn [fst snd].
    destruct z as [| | | |l|]; try done. rewrite (Hrows _ (fun i y => _) l O). apply flat_map_ext. intros [i y]. cbn [fst snd].
    etrans; [apply Hrow|]. by rewrite <- app_assoc.
Qed.

(** *** A walk without problems gathers the rows named. *)
Definition op_of (c : Change) : string :=
  match c with Create _ _ _ _ => "create" | Upsert _ _ _ _ _ _ => "upsert" | Update _ _ _ _ _ => "update" | Delete _ _ _ _ => "delete" end.
Definition label_of (i : Item) : named := (op_of (it_change i), fst (change_row (it_change i)), change_path (it_change i)).
Definition labels (st : Gathered) : list named := map label_of (items st).
Definition lists (st st' : Gathered) (ns : list named) : Prop :=
  grows st st' /\ (problems st' = problems st -> labels st' ≡ₚ labels st ++ ns).
Definition gives (st : Gathered) (r : run Gathered) (ns : list named) : Prop := match r with Done st' => lists st st' ns | _ => True end.
Lemma sandwich (a b c : Gathered) : grows a b -> grows b c -> problems c = problems a -> problems b = problems a /\ problems c = problems b.
Proof.
  intros (_ & (p1 & H1) & _) (_ & (p2 & H2) & _) H. rewrite H1 in H2. rewrite H in H2.
  assert (p1 ++ p2 = []) as [-> ->]%app_nil by (apply (app_inv_head (problems a)); by rewrite app_nil_r, app_assoc, <- H2).
  rewrite app_nil_r in H1. by rewrite H1.
Qed.
Lemma lists_refl (st : Gathered) : lists st st [].
Proof. split; [done|]. intros _. by rewrite app_nil_r. Qed.
Lemma lists_bad (st : Gathered) p msg ns : lists st (bad st p msg) ns.
Proof.
  split; [auto|]. cbn [bad problems]. intros H. apply (f_equal length) in H. rewrite length_app in H. cbn in H. lia.
Qed.
Lemma lists_push (st : Gathered) (i : Item) : lists st (push st i) [label_of i].
Proof. split; [auto|]. intros _. unfold labels. cbn [push items]. by rewrite map_app. Qed.
Lemma lists_trans (a b c : Gathered) (p q : list named) : lists a b p -> lists b c q -> lists a c (p ++ q).
Proof.
  intros [G1 H1] [G2 H2]. split; [by etrans|]. intros H. destruct (sandwich a b c G1 G2 H) as [E1 E2].
  rewrite (H2 E2), (H1 E1). by rewrite app_assoc.
Qed.
Lemma lists_perm (a b : Gathered) (p q : list named) : p ≡ₚ q -> lists a b p -> lists a b q.
Proof. intros E [G H]. split; [done|]. intros Hp. by rewrite <- E, (H Hp). Qed.
Lemma gives_bind (st : Gathered) (r : run Gathered) (f : Gathered -> run Gathered) (p q : list named) :
  gives st r p -> (forall b, grows st b -> gives b (f b) q) -> gives st (b ← r; f b) (p ++ q).
Proof.
  destruct r as [b| |]; cbn; [|done|done]. intros H1 H2. specialize (H2 b (proj1 H1)). destruct (f b) as [c| |]; cbn in *; [|done|done].
  by apply (lists_trans _ b).
Qed.
Lemma gives_from (a b : Gathered) (r : run Gathered) (p q : list named) : lists a b p -> gives b r q -> gives a r (p ++ q).
Proof. destruct r; cbn; [|done|done]. apply lists_trans. Qed.

Lemma column_fold_named (model : string) (info : ModelInfo) (sel : Sel) (path : InputPath) (o : dict Json) (st st' : Gathered) (d d' : Columns) :
  get (models cat) model = Some info -> column_fold model info sel path (st, d) o = Done (st', d') ->
  grows st st' /\ items st' = items st /\ (problems st' = problems st ->
    flat_map (rel_named model path) (cl_rels d') = flat_map (rel_named model path) (cl_rels d) ++ flat_map (entry_named [] model path) o).
Proof.
  intros Hi. revert st d. induction o as [|[k v] o IH]; intros st d; cbn [column_fold].
  { intros [= <- <-]. split_and!; [done|done|]. intros _. by rewrite app_nil_r. }
  destruct (column model info sel path (st, d) (k, v)) as [[st1 d1]| |] eqn:E; cbn [mbind run_bind]; [|done|done]. intros H.
  destruct (IH st1 d1 H) as (G2 & I2 & H2).
  assert (grows st st1 /\ items st1 = items st /\ (problems st1 = problems st ->
    flat_map (rel_named model path) (cl_rels d1) = flat_map (rel_named model path) (cl_rels d) ++ entry_named [] model path (k, v))) as (G1 & I1 & H1).
  { apply column_cases in E as [(msg & -> & ->)|[(r & -> & -> & _ & _ & Hv)|(j & -> & -> & _ & Hm)]].
    - split_and!; [auto|done|]. intros Hp. apply (f_equal length) in Hp. cbn in Hp. rewrite length_app in Hp. cbn in Hp. lia.
    - split_and!; [done|done|]. intros _. cbn [cl_rels]. rewrite flat_map_app. f_equal. cbn [flat_map]. rewrite app_nil_r. unfold entry_named. cbn [fst snd includes existsb].
      destruct r; subst v; done.
    - split_and!; [done|done|]. intros _. cbn [cl_rels]. unfold entry_named, rel_named, many_rel. rewrite Hi. cbn [fst snd includes existsb mbind option_bind]. rewrite Hm.
      destruct (rel_of v); by rewrite app_nil_r. }
  split_and!; [by etrans|by rewrite I2|]. intros Hp. destruct (sandwich st st1 st' G1 G2 Hp) as [E1 E2]. rewrite (H2 E2), (H1 E1).
  cbn [flat_map]. by rewrite app_assoc.
Qed.
Lemma columns_named (model : string) (sel : Sel) (value : option Json) (path : InputPath) (st st' : Gathered) (r : option Columns) :
  columns model sel value path st = Done (st', r) -> grows st st' /\ items st' = items st /\
  match r with
  | None => problems st' <> problems st
  | Some d => exists o, value = Some (JObject o) /\ (problems st' = problems st -> flat_map (rel_named model path) (cl_rels d) = below (JObject o) [] model path)
  end.
Proof.
  assert (forall msg, problems (bad st path msg) <> problems st) as Hbad.
  { intros msg H. apply (f_equal length) in H. cbn in H. rewrite length_app in H. cbn in H. lia. }
  unfold columns. destruct value as [[|b|n|s|l|o]|]; try (intros [= <- <-]; by split_and!; auto). unfold model_of.
  destruct (get (models cat) model) as [info|] eqn:Hi; cbn [mbind run_bind]; [|done].
  destruct (column_fold model info sel path (st, MkColumns [] [] []) o) as [[st1 d]| |] eqn:E; cbn [mbind run_bind]; [|done|done]. intros [= <- <-].
  apply column_fold_named in E as (G & I & H); [|done]. split_and!; [done|done|]. exists o. split; [done|]. intros Hp. cbn [fst snd].
  rewrite (H Hp). by rewrite below_object.
Qed.

Lemma below_without (key : string) (o : dict Json) (model : string) (path : InputPath) :
  below (JObject (without_key key o)) [] model path = below (JObject o) [key] model path.
Proof.
  rewrite !below_object. unfold without_key. induction o as [|[k v] o IH]; [done|]. cbn [List.filter flat_map fst].
  unfold entry_named at 2. cbn [fst snd includes existsb]. rewrite orb_false_r.
  destruct (String.eqb k key); cbn [negb flat_map app]; [done|]. by rewrite IH.
Qed.
(** The rows attached at the root. *)
Definition attached_named (layers : option (dict AttachLayer)) (path : InputPath) (attached : option Json) : list named :=
  match layers, attached with
  | Some layers, Some (JObject o) =>
      flat_map (fun li => match get layers (fst li), snd li with
                          | Some target, JArray l =>
                              map (fun iv => ("update"%string, at_model target, path ++ [PKey "attaches"; PKey (fst li); PKey "link"; PAt (fst iv)])) (indexed l)
                          | _, _ => []
                          end) o
  | _, _ => []
  end.
Lemma attaches_lists (model : string) (layers : dict AttachLayer) (v : Json) (id : string) (path : InputPath) (st : Gathered) :
  lists st (attaches model layers v id path st) (attached_named (Some layers) path (Some v)).
Proof.
  unfold attaches. destruct v as [| | | | |o]; try apply lists_bad. cbn [attached_named]. revert st.
  induction o as [|[layer ids] o IH]; intros st; cbn [fold_left flat_map]; [apply lists_refl|]. eapply lists_trans; [|apply IH].
  unfold attach_layer. cbn [fst snd]. destruct (get layers layer) as [target|]; [|apply lists_bad].
  destruct ids as [| | | |l|]; try apply lists_bad. generalize (indexed l) as il. generalize (@nil string) as seen. intros seen il. revert seen st.
  induction il as [|[n v] il IHl]; intros seen st; cbn [fold_left map]; [apply lists_refl|].
  change (?x :: map ?f il) with ([x] ++ map f il).
  assert (lists st (fst (attach_id model layer target id (path ++ [PKey "attaches"; PKey layer]) (st, seen) (n, v)))
    [("update"%string, at_model target, path ++ [PKey "attaches"; PKey layer; PKey "link"; PAt n])]) as H1.
  { unfold attach_id. destruct v as [| | |x| |]; try apply lists_bad. destruct (includes seen x); [apply lists_bad|]. cbn [fst].
    replace (path ++ [PKey "attaches"; PKey layer; PKey "link"; PAt n]) with ((path ++ [PKey "attaches"; PKey layer]) ++ [PKey "link"; PAt n])
      by (by rewrite <- app_assoc). apply lists_push. }
  destruct (attach_id _ _ _ _ _ _ _) as [st3 seen3]. cbn [fst] in *. eapply lists_trans; [exact H1|apply IHl].
Qed.

Section Named.
Context (rec : walk).
Definition walk_gives (rec : walk) : Prop := forall model sel id rels path st, gives st (rec model sel id rels path st) (flat_map (rel_named model path) rels).
Hypothesis Hrec : walk_gives rec.
Definition up_kind (up : option UpsertOf) : string := match up with None => "create" | Some _ => "upsert" end.
(** The part of a created row's input that is its own, and what it attaches. *)
Definition own_input (layers : option (dict AttachLayer)) (value : option Json) : option Json * option Json :=
  match layers, value with
  | Some _, Some (JObject o) => (Some (JObject (without_key "attaches" o)), get o "attaches")
  | _, _ => (value, None)
  end.
Definition opt_below (v : option Json) (model : string) (path : InputPath) : list named := match v with Some v => below v [] model path | None => [] end.
Lemma create_gives model sel value path parent up named st :
  let layers := match parent with None => get (mf_attaches m) model | Some _ => None end in
  gives st (create_with rec model sel value path parent up named st)
    ((up_kind up, model, path) :: opt_below (fst (own_input layers value)) model path ++ attached_named layers path (snd (own_input layers value))).
Proof.
  cbv zeta. unfold create_with. fold (own_input (match parent with None => get (mf_attaches m) model | Some _ => None end) value).
  set (layers := match parent with None => _ | Some _ => None end). destruct (own_input layers value) as [input attached]. cbn [fst snd].
  destruct (columns model sel input path st) as [[st1 [d|]]| |] eqn:E; cbn [mbind run_bind]; try done; apply columns_named in E as (G1 & I1 & D);
    [|split; [done|]; intros H; by destruct D].
  destruct D as (o & -> & D). set (vals := match named, up with Some id, Some _ => set (cl_values d) "id" (JString id) | _, _ => cl_values d end).
  destruct (refsOf model vals) as [refs| |]; cbn [mbind run_bind]; [|done|done].
  set (vals2 := match parent with Some p => set vals _ _ | None => vals end).
  set (id := match identities model path with Some id => id | None => _ end).
  set (change := match up with None => Create model id path vals2 | Some u => _ end).
  set (st2 := MkGathered (items st1) (problems st1) (S (minted st1))). set (i := MkItem change _ _ _ _ _). cbn [opt_below].
  assert (lists st (push st2 i) [(up_kind up, model, path)]) as H1.
  { split; [etrans; [exact G1|]; etrans; [apply grows_mint|apply grows_push]|]. intros _. unfold labels. cbn [push items st2]. rewrite I1, map_app.
    unfold i, change. by destruct up. }
  pose proof (Hrec model sel id (cl_rels d) path (push st2 i)) as H2.
  destruct (rec model sel id (cl_rels d) path (push st2 i)) as [st3| |]; cbn [mbind run_bind gives] in *; [|done|done].
  assert (lists st3 (match layers, attached with Some ls, Some v => attaches model ls v id path st3 | _, _ => st3 end) (attached_named layers path attached)) as H3.
  { destruct layers, attached; try apply lists_refl. apply attaches_lists. }
  set (st4 := match layers, attached with Some ls, Some v => _ | _, _ => _ end) in *.
  change (?x :: ?a ++ ?b) with ([x] ++ (a ++ b)). pose proof (lists_trans _ _ _ _ _ H1 (lists_trans _ _ _ _ _ H2 H3)) as [G4 H4].
  split; [exact G4|]. intros Hp. rewrite (H4 Hp). rewrite D; [done|].
  assert (grows st1 st4) as G14 by (etrans; [apply grows_mint|]; etrans; [apply (grows_push st2 i)|]; etrans; [apply H2|apply H3]).
  by destruct (sandwich st st1 st4 G1 G14 Hp).
Qed.
Lemma update_gives model sel id set_ revision path parent st :
  gives st (update_with rec model sel id set_ revision path parent st) (("update"%string, model, path) :: opt_below set_ model (path ++ [PKey "set"])).
Proof.
  unfold update_with. destruct id as [[| | |id| |]|]; try apply lists_bad.
  destruct (columns model sel set_ (path ++ [PKey "set"]) st) as [[st1 [d|]]| |] eqn:E; cbn [mbind run_bind]; try done; apply columns_named in E as (G1 & I1 & D);
    [|split; [done|]; intros H; by destruct D].
  destruct D as (o & -> & D). destruct (refsOf model (cl_values d)) as [refs| |]; cbn [mbind run_bind]; [|done|done].
  set (i := MkItem _ _ _ _ _ _). pose proof (Hrec model sel id (cl_rels d) (path ++ [PKey "set"]) (push st1 i)) as H2.
  destruct (rec model sel id (cl_rels d) (path ++ [PKey "set"]) (push st1 i)) as [st3| |]; cbn [gives] in *; [|done|done].
  assert (lists st (push st1 i) [label_of i]) as H1.
  { split; [by etrans|]. intros _. unfold labels. cbn [push items]. by rewrite I1, map_app. }
  destruct (lists_trans _ _ _ _ _ H1 H2) as [G4 H4]. split; [exact G4|]. intros Hp. rewrite (H4 Hp). cbn [opt_below].
  rewrite D; [done|]. assert (grows st1 st3) as G13 by (etrans; [apply (grows_push st1 i)|apply H2]). by destruct (sandwich st st1 st3 G1 G13 Hp).
Qed.

Lemma create_child_gives model sel v path p up named st :
  gives st (create_with rec model sel (Some v) path (Some p) up named st) ((up_kind up, model, path) :: below v [] model path).
Proof. pose proof (create_gives model sel (Some v) path (Some p) up named st) as H. cbn [own_input fst snd opt_below attached_named] in H. by rewrite app_nil_r in H. Qed.
Lemma upsert_gives model sel v path p st : gives st (upsert_with rec model sel v path p st) (row_named model "upsert" v path).
Proof.
  unfold upsert_with. set (o := match v with JObject o => o | _ => [] end). cbv zeta. fold (wrapped_upsert o).
  destruct (wrapped_upsert o && (negb match get o "onConflictDoUpdate" with Some (JBool _) => true | _ => false end || negb (length o =? 2)%nat)) eqn:E;
    [apply lists_bad|].
  assert (forall row at_, gives st
    match get row "id" with
    | None => create_with rec model sel (Some (JObject (without_key "id" row))) at_ (Some p) None None st
    | Some (JString id) =>
        create_with rec model sel (Some (JObject (without_key "id" row))) at_ (Some p)
          (Some (MkUpsertOf ["id"%string] (if wrapped_upsert o && match get o "onConflictDoUpdate" with Some (JBool false) => true | _ => false end then ConflictKeep else ConflictUpdate)))
          (Some id) st
    | Some _ => Done (bad st (at_ ++ [PKey "id"]) "expected an id")
    end ((upsert_kind (JObject row), model, at_) :: below (JObject row) ["id"%string] model at_)) as H.
  { intros row at_. unfold upsert_kind, has_own. rewrite <- below_without.
    destruct (get row "id") as [[]|]; cbn [is_some]; try apply lists_bad; apply create_child_gives. }
  unfold row_named. cbn [String.eqb Ascii.eqb Bool.eqb]. destruct v as [| | | | |w]; try apply lists_bad. subst o. cbn [gives] in *.
  destruct (wrapped_upsert w) eqn:Ew; [|apply H]. cbn [andb] in *.
  assert (exists x, get w "values" = Some x) as [x Hx].
  { unfold wrapped_upsert, has_own in Ew. destruct (get w "values") as [x|]; [by exists x|done]. }
  rewrite Hx. cbn [default from_option id]. destruct x as [| | | | |row]; try apply lists_bad. apply H.
Qed.
Lemma act_row_gives rel owned id p action sub st v path :
  gives st (act_row rec rel owned id p action sub st (v, path)) (row_named (many_child rel) action v path).
Proof.
  unfold act_row. destruct (String.eqb_spec action "create") as [->|N1]; [apply create_child_gives|].
  destruct (String.eqb_spec action "upsert") as [->|N2]; [apply upsert_gives|].
  unfold row_named. rewrite (proj2 (String.eqb_neq _ _) N1), (proj2 (String.eqb_neq _ _) N2).
  destruct (String.eqb_spec action "update") as [->|N3].
  - destruct v as [| | | | |w]; try apply lists_bad. pose proof (update_gives (many_child rel) sub (get w "target") (get w "set") None path (Some p) st) as H.
    by destruct (get w "set").
  - destruct (String.eqb action "delete"); [destruct v; try apply lists_bad; apply lists_push|].
    destruct owned; [apply lists_bad|]. destruct v; try apply lists_bad. apply lists_push.
Qed.
Lemma act_rows_gives rel owned id p action sub rows st :
  gives st (act_rows rec rel owned id p action sub rows st) (flat_map (fun vp => row_named (many_child rel) action (fst vp) (snd vp)) rows).
Proof.
  revert st. induction rows as [|[v path] rows IH]; intros st; cbn [act_rows flat_map]; [apply lists_refl|].
  apply gives_bind; [apply act_row_gives|]. intros b _. apply IH.
Qed.
Definition group_named (child : string) (g : group) : list named :=
  match snd g with Some rows => flat_map (fun vp => row_named child (fst g) (fst vp) (snd vp)) rows | None => [] end.
Lemma act_groups_gives rel owned id p allowed base gs st :
  gives st (act_groups rec rel owned id p allowed base gs st) (flat_map (group_named (many_child rel)) gs).
Proof.
  revert st. induction gs as [|[a rows] gs IH]; intros st; cbn [act_groups flat_map]; [apply lists_refl|].
  apply gives_bind; [|intros b _; apply IH]. unfold act_group. destruct (_ || _); [apply lists_bad|]. destruct rows as [rows|]; [|apply lists_bad].
  unfold depth. destruct (_ <=? _)%nat; [apply act_rows_gives|apply lists_bad].
Qed.
(** Splitting rows by their action keeps them all. *)
Lemma split_by {A B} (f : string * A -> list B) (rows : list (string * A)) (K : list string) : NoDup K -> (forall r, r ∈ rows -> fst r ∈ K) ->
  flat_map (fun a => flat_map f (List.filter (fun r => String.eqb (fst r) a) rows)) K ≡ₚ flat_map f rows.
Proof.
  intros HK. induction rows as [|[a x] rows IH]; intros Hin; cbn [List.filter flat_map].
  { clear. by induction K. }
  rewrite <- IH by (intros r Hr; apply Hin; by right). clear IH. cbn [fst]. assert (a ∈ K) as Ha by (apply (Hin (a, x)); by left). clear Hin.
  induction HK as [|b K Hb HK IH]; [by apply elem_of_nil in Ha|]. cbn [flat_map]. destruct (String.eqb_spec a b) as [->|Hne].
  - cbn [flat_map app]. rewrite <- !app_assoc. do 2 f_equiv. clear IH Ha. induction K as [|c K IHK]; [done|]. cbn [flat_map].
    apply not_elem_of_cons in Hb as [Hbc Hb]. apply NoDup_cons in HK as [_ HK]. rewrite (proj2 (String.eqb_neq b c)) by done. f_equiv. by apply IHK.
  - apply elem_of_cons in Ha as [Ha|Ha]; [done|]. rewrite (IH Ha). rewrite !app_assoc. f_equiv. apply Permutation_app_comm.
Qed.
Lemma groups_named (child : string) (base : InputPath) (r : Rel) :
  flat_map (group_named child) (groups_of base r) ≡ₚ
  match r with RelList l => flat_map (list_named child base) (indexed l) | RelActions o => flat_map (action_named child base) o end.
Proof.
  destruct r as [o|l]; cbn [groups_of].
  - rewrite flat_map_concat_map, map_map, <- flat_map_concat_map. induction o as [|[a z] o IH]; [done|]. cbn [flat_map]. rewrite IH. f_equiv.
    unfold group_named, action_group, action_named. cbn [fst snd]. destruct z as [| | | |l|]; try done.
    by rewrite flat_map_concat_map, map_map, <- flat_map_concat_map.
  - unfold list_groups. cbv zeta. set (rows := map _ (indexed l)). rewrite flat_map_concat_map, map_map, <- flat_map_concat_map.
    rewrite (flat_map_ext _ (fun a => flat_map (fun r => row_named child (fst r) (fst (snd r)) (snd (snd r))) (List.filter (fun r => String.eqb (fst r) a) rows))).
    2:{ intros a. unfold group_named. cbn [fst snd]. induction rows as [|[b vp] rows IH]; [done|]. cbn [List.filter fst].
        destruct (String.eqb_spec b a) as [->|]; [|done]. cbn [map flat_map fst snd]. by rewrite IH. }
    rewrite split_by; [|apply NoDup_uniq|intros r Hr; apply elem_of_uniq; by apply (list_elem_of_fmap_2 fst)].
    unfold rows. by rewrite flat_map_concat_map, map_map, <- flat_map_concat_map.
Qed.
Lemma relations_of_gives : walk_gives (relations_of rec).
Proof.
  intros model sel id rels path. induction rels as [|[name r] rels IH]; intros st; cbn [relations_of flat_map]; [apply lists_refl|].
  apply gives_bind; [|intros b _; apply IH]. unfold walk_relation, model_of, rel_named, many_rel. cbn [fst snd].
  destruct (get (models cat) model) as [info|]; cbn [mbind run_bind option_bind]; [|done]. destruct (get (mi_many info) name) as [rel|]; [|done]. cbv zeta.
  set (owned := match relationship m (many_child rel) (many_column rel) with Some _ => _ | None => _ end).
  pose proof (act_groups_gives rel owned id (MkParent model id name (many_column rel)) (accepted_actions sel name) (path ++ [PKey name])
    (groups_of (path ++ [PKey name]) r) st) as H.
  destruct (act_groups _ _ _ _ _ _ _ _ _) as [st'| |]; cbn [gives] in *; [|done|done]. eapply lists_perm; [apply groups_named|done].
Qed.
End Named.
Lemma relations_gives (fuel : nat) : walk_gives (relations fuel).
Proof.
  induction fuel as [|fuel IH]; [|by apply relations_of_gives]. intros model sel id rels path st. cbn [relations]. destruct rels; [apply lists_refl|done].
Qed.

(** Nothing is dropped and nothing is invented. When [create] or [update] reports no new problem, the changes it adds
    are, up to order, exactly the rows the input names, each with its kind, its model and its place: the row itself, every row listed under
    a relation's action at any depth (a create tree's ids among them), and every attached id. In particular a row is deleted only
    where the input lists it under [delete]. *)
Theorem flatten_complete (model : string) (sel : Sel) (path : InputPath) (st st' : Gathered) : problems st' = problems st ->
  (forall value up named, create model sel value path None up named st = Done st' ->
     let layers := get (mf_attaches m) model in
     labels st' ≡ₚ labels st ++ (up_kind up, model, path) :: opt_below (fst (own_input layers value)) model path ++
       attached_named layers path (snd (own_input layers value))) /\
  (forall id set_ revision, update model sel id set_ revision path None st = Done st' ->
     labels st' ≡ₚ labels st ++ ("update"%string, model, path) :: opt_below set_ model (path ++ [PKey "set"])).
Proof.
  intros Hp. split.
  - intros v up named E. pose proof (create_gives (relations FUEL) (relations_gives FUEL) model sel v path None up named st) as H.
    unfold create in E. rewrite E in H. by apply H.
  - intros id set_ revision E. pose proof (update_gives (relations FUEL) (relations_gives FUEL) model sel id set_ revision path None st) as H.
    unfold update in E. rewrite E in H. by apply H.
Qed.

(** *** The layers of a declaration. *)
Section Declared.
Context (declared : dict (list string)) (verb : WriteVerb).
Definition path_of (root : string) (names : list string) : string := join "." (root :: names).
Lemma path_of_snoc (root : string) (names : list string) (rel : string) : path_of root (names ++ [rel]) = path_of root names +:+ "." +:+ rel.
Proof.
  unfold path_of. revert root. induction names as [|n names IH]; intros root; [done|]. cbn [app]. change (join "." (root :: n :: names ++ [rel])) with
    (root +:+ "." +:+ join "." (n :: names ++ [rel])). rewrite IH. change (join "." (root :: n :: names)) with (root +:+ "." +:+ join "." (n :: names)).
  by rewrite !append_assoc_s.
Qed.
Lemma child_rel_spec (path p rel : string) : child_rel path p = Some rel <-> p = path +:+ "." +:+ rel /\ rel <> EmptyString /\ has_dot rel = false.
Proof.
  unfold child_rel, after. split.
  - destruct (String.prefix (path +:+ ".") p) eqn:E; [|done]. apply prefix_drop in E. cbv zeta.
    destruct (String.eqb_spec (drop (String.length (path +:+ ".")) p) "") as [|Hne]; [done|]. destruct (has_dot _) eqn:Ed; [done|]. cbn [orb].
    intros [= <-]. split_and!; [|done|done]. rewrite E at 1. by rewrite append_assoc_s.
  - intros (-> & Hne & Hd). rewrite <- append_assoc_s, prefix_append, drop_append. rewrite (proj2 (String.eqb_neq _ _) Hne), Hd. done.
Qed.

Definition layer (fuel : nat) (path model : string) : Sel := layer_sel m cat declared verb fuel path model.
Lemma layer_columns (fuel : nat) (path model : string) (k : string) : accepts_column (layer fuel path model) k = true <-> k ∈ default [] (get declared path).
Proof. unfold layer. destruct fuel; apply includes_spec. Qed.
Lemma get_flat_map {A} (f : string -> dict A) (l : list string) (k : string) (v : A) : get (flat_map f l) k = Some v -> exists p, p ∈ l /\ get (f p) k = Some v.
Proof.
  induction l as [|p l IH]; cbn [flat_map]; [done|]. rewrite get_app. destruct (get (f p) k) as [x|] eqn:E.
  - intros [= ->]. exists p. split; [by left|done].
  - intros H. destruct (IH H) as (q & Hq & Hg). exists q. split; [by right|done].
Qed.
Lemma layer_relation (fuel : nat) (path model rel : string) (w : dict Sel) : accepted_actions (layer fuel path model) rel = Some w ->
  exists fuel' many, fuel = S fuel' /\ many_of cat model rel = Some many /\ path +:+ "." +:+ rel ∈ keys declared /\
    exists owned, w = layer_actions verb owned (layer fuel' (path +:+ "." +:+ rel) (many_child many)).
Proof.
  unfold layer. destruct fuel as [|fuel]; cbn [layer_sel accepted_actions]; [done|]. intros H. apply get_flat_map in H as (p & Hp & H).
  destruct (child_rel path p) as [r|] eqn:Ec; [|done]. destruct (many_of cat model r) as [many|] eqn:Em; [|done]. cbn [get] in H.
  destruct (String.eqb_spec r rel) as [->|]; [|done]. injection H as <-. apply child_rel_spec in Ec as (-> & _).
  exists fuel, many. split_and!; try done. by eexists.
Qed.
Lemma action_layers (owned : bool) (sub s : Sel) (a : string) : get (layer_actions verb owned sub) a = Some s -> s = sub \/ s = NONE.
Proof. intros H. apply get_in in H. unfold layer_actions in H. destruct verb, owned; cbn in H; rewrite ?elem_of_cons, elem_of_nil in H; naive_solver. Qed.
Lemma layer_reach (root : string) (names : list string) (sel : Sel) (model : string) : reach (layerSel m cat declared verb root root) root names sel model ->
  sel = NONE \/ exists fuel, sel = layer fuel (path_of root names) model.
Proof.
  induction 1 as [|names sel model info rel many action sub Hr IH Hinfo Hmany Hacc _ Hsub]; [right; by exists (longest declared)|].
  destruct IH as [->|[fuel ->]]; [done|]. destruct (accepted_actions (layer fuel (path_of root names) model) rel) as [w|] eqn:Ew.
  - destruct (layer_relation _ _ _ _ _ Ew) as (fuel' & many' & -> & Hm & _ & owned & ->). destruct (action_layers _ _ _ _ Hsub) as [->| ->]; [right|by left].
    exists fuel'. rewrite path_of_snoc. unfold many_of in Hm. rewrite Hinfo in Hm. cbn in Hm. rewrite Hmany in Hm. by injection Hm as ->.
  - unfold layer in *. destruct fuel; cbn [layer_sel accepted_actions accepts_relation] in *; [done|]. by rewrite Ew in Hacc.
Qed.
End Declared.

(** A field is written only where the declaration lists it. Flattening an input of [root] under its write declaration,
    from a place no relation leads to, every row it creates or updates sets only fields the declaration lists under that
    row's own layer path, the path the pipeline judges the change by (besides the parent's key and an upsert's id). *)
Theorem fields_by_layer (declared : dict (list string)) (verb : WriteVerb) (root : string) (path : InputPath) (st : Gathered) :
  plain_relations -> (actions_in path <= writeDepth)%nat -> layer_names path = [] ->
  let sel := layerSel m cat declared verb root root in
  let listed := fun (_ : list Item) (i : Item) =>
    it_attach i = false -> forall k, k ∈ keys (written (it_change i)) ->
      k ∈ default [] (get declared (layerPath root (change_path (it_change i)))) \/ k = "id"%string \/ (exists p, it_parent i = Some p /\ k = pr_fk p) in
  (forall value up named, added sel root listed st (create root sel value path None up named st)) /\
  (forall id set_ revision, added sel root listed st (update root sel id set_ revision path None st)).
Proof.
  intros Hplain Ha Hp. cbv zeta. set (sel := layerSel m cat declared verb root root).
  assert (forall before i, item_sound sel root path before i -> it_attach i = false -> forall k, k ∈ keys (written (it_change i)) ->
    k ∈ default [] (get declared (layerPath root (change_path (it_change i)))) \/ k = "id"%string \/ exists p, it_parent i = Some p /\ k = pr_fk p) as H.
  { intros before i (Hperm & _ & _) Hatt k Hk. destruct Hperm as [s mdl info (names & Hr & Hn) Hi Hm Hw _|p child id pth _ Ec _|p child id pth v action Hpar Ec _ _ _|p nms s mdl ls tgt ly id pth _ _ _ Hat _ _ _ _].
    - destruct (Hw k Hk) as [(f & _ & _ & Hac & _)|Hother].
      + left. destruct (layer_reach declared verb root names s mdl Hr) as [E|[fuel E]]; subst s; [done|]. apply layer_columns in Hac.
        unfold layerPath. rewrite (Hn Hplain), Hp. exact Hac.
      + right. destruct (it_change i); try done. by right.
    - rewrite Ec in Hk. by apply elem_of_nil in Hk.
    - rewrite Ec in Hk. cbn in Hk. apply list_elem_of_singleton in Hk as ->. right; right. by exists p.
    - congruence. }
  destruct (write_sound root sel path st Ha) as [H1 H2].
  split; [intros v up named st' E; destruct (H1 v up named st' E) as (new & En & Hn)|intros id set_ revision st' E; destruct (H2 id set_ revision st' E) as (new & En & Hn)];
    exists new; (split; [done|]); intros a i b Eb; exact (H _ i (Hn a i b Eb)).
Qed.
End Flattener.

(** ** Defaults and the required check of a created row. *)
Definition modelKey (m : Manifest) (model : string) : list string :=
  match get (mf_models m) model with
  | Some ms => match ms_key ms with Some k => k | None => match ms_unique ms with u :: _ => u | [] => [] end end
  | None => []
  end.

(** [clockDefault] of std/vars.ts: [now] or [today], shifted by whole units; a day is not shifted by hours or minutes. *)
Definition clock_unit (base u : string) : bool :=
  includes ["days"; "weeks"] u || (includes ["minutes"; "hours"] u && String.eqb base "now").
Definition clock_shift (base s : string) : bool :=
  match trim_start s with
  | String c r =>
      is_sign c &&
      match span (fun c => negb (Ascii.eqb c "(")) (trim_start r) with
      | (u, String _ r) =>
          clock_unit base u &&
          match span is_digit r with (ds, r) => negb (String.eqb ds "") && String.eqb r ")" end
      | _ => false
      end
  | EmptyString => false
  end.
Definition clockDefault (text : string) : bool :=
  let t := trim text in
  existsb (fun base => match after base t with Some r => String.eqb r "" || clock_shift base r | None => false end) ["now"; "today"]%string.

Section Defaults.
(** A clock expression's value at the invocation's clock: [compileVar] and [evaluateVar], the expression library's. *)
Context (m : Manifest) (cat : Catalog) (clock : string -> option Json).
Definition default_value (d : Json) : Json :=
  match d with
  | JObject [("var"%string, JString text)] => if clockDefault text then default d (clock text) else d
  | _ => d
  end.
(** What an unset field starts as. *)
Definition field_default (f : FieldSpec) : option Json :=
  if String.eqb (k_kind (fs_kind f)) "state" then option_map JString (k_initial (fs_kind f)) else option_map default_value (fs_default f).
Definition set_default (values : Row) (nf : string * FieldSpec) : Row :=
  if has_own values (fst nf) then values else match field_default (snd nf) with Some v => set values (fst nf) v | None => values end.
Definition requestor_id (actor : EngineActor) : option string :=
  match actor with ActMember a => Some (ma_id a) | ActVisitor _ visitor true => Some visitor | _ => None end.
Definition ref_default (model : string) (actor : EngineActor) (fk : string) (rel : OneRel) : option Json :=
  r ← get (mf_relationships m) (model +:+ "." +:+ fk);
  var ← rs_default r;
  id ← requestor_id actor;
  if String.eqb var "requestor.id" && includes (one_targets rel) "sys_user" then Some (JString id)
  else match actor with
  | ActMember a =>
      p ← ma_party a;
      if String.eqb var "requestor.party" && includes (one_targets rel) (party_model p) then Some (JString (party_id p)) else None
  | _ => None
  end.
Definition set_ref_default (model : string) (actor : EngineActor) (values : Row) (fr : string * OneRel) : Row :=
  if has_own values (fst fr) then values else match ref_default model actor (fst fr) (snd fr) with Some v => set values (fst fr) v | None => values end.
(** [values[n] ?? null === null]. *)
Definition missing (values : Row) (n : string) : bool := match get values n with None | Some JNull => true | Some _ => false end.
Definition needs_field (nf : string * FieldSpec) : bool :=
  negb (k_optional (fs_kind (snd nf))) && negb (includes ["seq"; "sum"; "count"] (k_kind (fs_kind (snd nf)))).
Definition needs_ref (model fk : string) : bool :=
  match get (mf_relationships m) (model +:+ "." +:+ fk) with Some r => negb (rs_optional r) | None => true end.
(** The row with its defaults, and the first required field it still lacks. *)
Definition withDefaults (spec : ModelSpec) (info : ModelInfo) (model : string) (values : Row) (actor : EngineActor) : Row * option string :=
  let values := fold_left set_default (ms_fields spec) values in
  let values := fold_left (set_ref_default model actor) (mi_one info) values in
  (values,
   match List.find (fun nf => needs_field nf && missing values (fst nf)) (ms_fields spec) with
   | Some nf => Some (fst nf)
   | None => List.find (fun fk => needs_ref model fk && missing values fk) (keys (mi_one info))
   end).

(** Filling in unset keys leaves the set ones and sets each key it has a value for. *)
Lemma fill_spec {A} (d : string -> A -> option Json) (step : Row -> string * A -> Row) (l : list (string * A)) (values : Row) :
  (forall v k x, step v (k, x) = if has_own v k then v else match d k x with Some j => set v k j | None => v end) -> wf_dict l ->
  forall k, get (fold_left step l values) k =
    match get values k with Some v => Some v | None => match get l k with Some x => d k x | None => None end end.
Proof.
  intros Hstep Hl. revert values. induction l as [|[k x] l IH]; intros values k'; cbn [fold_left get]; [by destruct (get values k')|].
  unfold wf_dict in Hl. cbn [keys map fst] in Hl. apply NoDup_cons in Hl as [Hk Hl]. rewrite (IH Hl), Hstep. unfold has_own.
  destruct (get values k) as [v|] eqn:E; cbn [is_some].
  - destruct (String.eqb_spec k k') as [->|Hne]; [by rewrite E|done].
  - assert (get l k = None) as El.
    { destruct (get l k) as [y|] eqn:Ey; [|done]. exfalso. apply Hk. apply get_in in Ey. apply list_elem_of_fmap. by exists (k, y). }
    destruct (String.eqb_spec k k') as [->|Hne].
    + rewrite E, El. destruct (d k' x) as [j|]; [by rewrite get_set_eq|by rewrite E].
    + destruct (d k x) as [j|]; [by rewrite get_set_ne|done].
Qed.

(** A created row is completed and never overwritten. What the input gave stays; a state left unset lands in its initial
    value, any other unset field takes its default, an unset reference takes the requestor where it declares so; nothing
    else is set. The field reported is the first required one, then the first required reference, that is still empty; none is
    reported exactly when every required field and reference has a value. *)
Theorem withDefaults_correct (spec : ModelSpec) (info : ModelInfo) (model : string) (values : Row) (actor : EngineActor) :
  wf_dict (ms_fields spec) -> wf_dict (mi_one info) ->
  let (values', lacks) := withDefaults spec info model values actor in
  (forall k, get values' k =
     match get values k with
     | Some v => Some v
     | None =>
         match match get (ms_fields spec) k with Some f => field_default f | None => None end with
         | Some v => Some v
         | None => match get (mi_one info) k with Some rel => ref_default model actor k rel | None => None end
         end
     end) /\
  (lacks = None <->
     (forall n f, (n, f) ∈ ms_fields spec -> needs_field (n, f) = true -> missing values' n = false) /\
     (forall fk, fk ∈ keys (mi_one info) -> needs_ref model fk = true -> missing values' fk = false)) /\
  (forall n, lacks = Some n -> missing values' n = true).
Proof.
  intros Hf Ho. unfold withDefaults. set (v1 := fold_left set_default (ms_fields spec) values).
  set (values' := fold_left (set_ref_default model actor) (mi_one info) v1).
  assert (forall k, get values' k = match get v1 k with Some v => Some v | None => match get (mi_one info) k with Some rel => ref_default model actor k rel | None => None end end) as Hget.
  { apply (fill_spec (ref_default model actor)); done. }
  assert (forall k, get v1 k = match get values k with Some v => Some v | None => match get (ms_fields spec) k with Some f => field_default f | None => None end end) as Hv1.
  { apply (fill_spec (fun _ => field_default)); done. }
  split_and!.
  - intros k. rewrite Hget, Hv1. destruct (get values k); [done|]. by destruct (match get (ms_fields spec) k with Some f => _ | None => None end).
  - destruct (List.find (fun nf => needs_field nf && missing values' (fst nf)) (ms_fields spec)) as [[n f]|] eqn:E1.
    + apply find_some in E1 as [Hin [H1 H2]%andb_true_iff]. split; [done|]. intros [H _]. apply list_elem_of_In in Hin. cbn [fst] in H2. by rewrite (H n f Hin H1) in H2.
    + assert (forall n f, (n, f) ∈ ms_fields spec -> needs_field (n, f) = true -> missing values' n = false) as Hfields.
      { intros n f Hin Hn. apply list_elem_of_In in Hin. pose proof (find_none _ _ E1 _ Hin) as H. cbn [fst] in H. by rewrite Hn in H. }
      destruct (List.find (fun fk => needs_ref model fk && missing values' fk) (keys (mi_one info))) as [fk|] eqn:E2.
      * apply find_some in E2 as [Hin [H1 H2]%andb_true_iff]. split; [done|]. intros [_ H]. apply list_elem_of_In in Hin. by rewrite (H fk Hin H1) in H2.
      * split; [|done]. intros _. split; [done|]. intros fk Hin Hn. apply list_elem_of_In in Hin. pose proof (find_none _ _ E2 _ Hin) as H. cbn beta in H. by rewrite Hn in H.
  - intros n. destruct (List.find (fun nf => _) (ms_fields spec)) as [[n' f]|] eqn:E1.
    + intros [= ->]. apply find_some in E1 as [_ [_ H]%andb_true_iff]. exact H.
    + intros E2. apply find_some in E2 as [_ [_ H]%andb_true_iff]. exact H.
Qed.
End Defaults.

(** ** What an update changes. *)
Section Changed.
Context (number_text : number -> string) (date_parse : string -> option number).
(** A tagged value's content: an object of one member whose name starts with a dollar sign. *)
Definition untag (x : Json) : Json := match x with JObject [(String "$" _, v)] => v | _ => x end.
(** [^\d{4}-\d{2}-\d{2}T]. *)
Definition iso_instant (s : string) : bool :=
  let t := takes 11 s in
  (slength t =? 11) && all_chars is_digit (slice 0 4 t) && String.eqb (slice 4 5 t) "-" && all_chars is_digit (slice 5 7 t) &&
  String.eqb (slice 7 8 t) "-" && all_chars is_digit (slice 8 10 t) && String.eqb (slice 10 11 t) "T".
Definition js_equal (a b : js) : bool := match a, b with JsNum x, JsNum y => Qeq_bool x y | _, _ => false end.
Definition is_number (v : Json) : bool := match v with JNumber _ => true | _ => false end.
Definition scalar_value (v : Json) : bool := match v with JNull | JArray _ | JObject _ => false | _ => true end.
Definition same (a b : Json) : bool :=
  let x := untag a in
  let y := untag b in
  if (is_number x || is_number y) && scalar_value x && scalar_value y then js_equal (Eval.Number (Eval.of_json x)) (Eval.Number (Eval.of_json y))
  else
    match x, y with
    | JString s, JString t =>
        if iso_instant s && iso_instant t then
          match date_parse s, date_parse t with Some p, Some q => Qeq_bool p q | _, _ => false end
        else String.eqb (canonical number_text x) (canonical number_text y)
    | _, _ => String.eqb (canonical number_text x) (canonical number_text y)
    end.
Definition changed (row set_ : Row) : Row := List.filter (fun kv => negb (same (default JNull (get row (fst kv))) (snd kv))) set_.

(** Text that looks like an instant and is none. *)
Definition false_instant (v : Json) : bool :=
  match untag v with JString s => iso_instant s && negb (is_some (date_parse s)) | _ => false end.
Lemma same_refl (v : Json) : same v v = negb (false_instant v).
Proof.
  unfold same, false_instant. destruct (untag v) as [|b|n|s|l|o]; cbn [is_number scalar_value orb andb negb]; rewrite ?String.eqb_refl; try done.
  - cbn [Eval.of_json Eval.Number js_equal]. by apply Qeq_bool_iff.
  - rewrite andb_diag. destruct (iso_instant s); [|done]. destruct (date_parse s); [|done]. by apply Qeq_bool_iff.
Qed.

(** An update writes only what differs. Its changes are entries of the update; an entry whose value is the stored one
    is dropped, with one exception: text in the shape of an instant that names none is never the same as itself, so it is
    written again. An update that repeats stored values therefore writes nothing unless it holds such text. *)
Theorem changed_minimal (row set_ : Row) :
  (forall k v, (k, v) ∈ changed row set_ -> (k, v) ∈ set_) /\
  (forall k v, (k, v) ∈ set_ -> get row k = Some v -> (k, v) ∈ changed row set_ <-> false_instant v = true) /\
  ((forall k v, (k, v) ∈ set_ -> get row k = Some v /\ false_instant v = false) -> changed row set_ = []).
Proof.
  assert (forall k v, (k, v) ∈ changed row set_ <-> (k, v) ∈ set_ /\ same (default JNull (get row k)) v = false) as H.
  { intros k v. unfold changed. rewrite list_elem_of_In, filter_In, <- list_elem_of_In. cbn [fst snd]. by rewrite negb_true_iff. }
  split_and!.
  - intros k v Hin. by apply H.
  - intros k v Hin Hk. rewrite H, Hk. cbn [default from_option id]. rewrite same_refl, negb_false_iff. tauto.
  - intros Hall. destruct (changed row set_) as [|[k v] l] eqn:E; [done|]. exfalso.
    assert ((k, v) ∈ (k, v) :: l) as Hin by (by left). apply H in Hin as [Hin Hs]. destruct (Hall k v Hin) as [Hk Hf].
    rewrite Hk in Hs. cbn [default from_option id] in Hs. by rewrite same_refl, Hf in Hs.
Qed.
End Changed.

(** ** An order with its lines. *)
Module Demo.
Definition text_field (name : string) : FieldInfo :=
  MkField name "text" name "text" false false false false None None None None None None None false false None.
Definition id_field (name of_ : string) : FieldInfo :=
  MkField name "id" name "uuid" false false false false None None None None None (Some of_) None false false None.
Definition order_info : ModelInfo :=
  MkModel "order" true [("number"%string, text_field "number")] [] [("lines"%string, MkMany "lines" "line" "order" None)] [] [] None None None [].
Definition line_info : ModelInfo :=
  MkModel "line" true [("sku"%string, text_field "sku"); ("order"%string, id_field "order" "order")] [("order"%string, MkOne "order" ["order"%string])] [] [] [] None None None [].
Definition cat : Catalog := MkCatalog [("order"%string, order_info); ("line"%string, line_info)] [] [] [].
Definition text_spec : FieldSpec := MkFieldSpec (kind_only "text") None false.
Definition order_spec : ModelSpec := MkModelSpec [("number"%string, text_spec)] None [].
Definition m : Manifest :=
  MkManifest [("order"%string, order_spec); ("line"%string, MkModelSpec [("sku"%string, text_spec)] None [])] [] [] [] [].
Definition declared : dict (list string) := [("order"%string, ["number"]); ("order.lines"%string, ["sku"])]%string.
Definition nt (_ : number) : string := "1.5".
Definition dp (_ : string) : option number := None.
Definition ok (_ : Codec) (_ : Json) : bool := true.
Definition di (_ : string) (_ : Shape) (_ : Json) : Decoded := MkDecoded [] None [].
Definition mint (n : nat) : string := "id" +:+ digits_of (Z.of_nat n).
Definition none (_ : string) (_ : InputPath) : option string := None.
Definition sel : Sel := layerSel m cat declared VCreate "order" "order".
Definition input : Json :=
  JObject [("number", JString "7"); ("lines", JArray [JObject [("sku", JString "a")]; JString "old"; JObject [("sku", JString "b")]])]%string.
Definition made : run Gathered := create nt (fun _ => "?"%string) dp ok di m cat mint none "order" sel (Some input) [PAt 0] None None None gathered0.
Definition gathered_of (r : run Gathered) : Gathered := match r with Done st => st | _ => gathered0 end.
Example it_flattens : problems (gathered_of made) = [] /\ map label_of (items (gathered_of made)) =
  [("create", "order", [PAt 0]); ("create", "line", [PAt 0; PKey "lines"; PKey "create"; PAt 0]);
   ("create", "line", [PAt 0; PKey "lines"; PKey "create"; PAt 2]); ("update", "line", [PAt 0; PKey "lines"; PKey "link"; PAt 1])]%string.
Proof. vm_compute. split; reflexivity. Qed.
Lemma made_done : made = Done (gathered_of made).
Proof. vm_compute. reflexivity. Qed.
Lemma plain : plain_relations cat.
Proof.
  intros model info rel Hi Hr. unfold cat in Hi. cbn [models get] in Hi. destruct (String.eqb "order" model).
  - injection Hi as <-. cbn [mi_many order_info get] in Hr. destruct (String.eqb_spec "lines" rel) as [E|]; [|done]. subst rel. apply not_action. reflexivity.
  - destruct (String.eqb "line" model); [|done]. by injection Hi as <-.
Qed.
Lemma flatten_ends_witness : ends made /\ closed cat /\ prints nt.
Proof.
  assert (closed cat) as Hc.
  { intros model info rel many Hi Hr. unfold cat in Hi. cbn [models get] in Hi. destruct (String.eqb "order" model).
    - injection Hi as <-. cbn [mi_many order_info get] in Hr. destruct (String.eqb "lines" rel); [|done]. injection Hr as <-. by exists line_info.
    - destruct (String.eqb "line" model); [|done]. by injection Hi as <-. }
  assert (prints nt) as Hp by (intros n; reflexivity).
  split; [|by split].
  refine (proj1 (flatten_ends nt (fun _ => "?"%string) dp ok di m cat mint none "order" sel [PAt 0] gathered0 Hc Hp _ _) _ _ _ _); [by exists order_info|cbn; lia].
Defined.
Lemma writes_permitted_witness : exists new, items (gathered_of made) = [] ++ new /\ length new = 4%nat /\
  forall a i b, new = a ++ i :: b -> permitted m cat sel "order" [PAt 0] i.
Proof.
  destruct (proj1 (writes_permitted nt (fun _ => "?"%string) dp ok di m cat mint none "order" sel [PAt 0] gathered0 ltac:(cbn; lia))
    (Some input) None None _ made_done) as (new & E & H).
  exists new. split; [exact E|]. split; [|exact H]. apply (f_equal length) in E. vm_compute in E. by rewrite E.
Defined.
Lemma parents_first_witness : exists new, items (gathered_of made) = [] ++ new /\
  forall a i b, new = a ++ i :: b -> parented ([] ++ a) i /\ shallow i.
Proof.
  exact (proj1 (parents_first nt (fun _ => "?"%string) dp ok di m cat mint none "order" sel [PAt 0] gathered0 ltac:(cbn; lia))
    (Some input) None None _ made_done).
Defined.
Lemma flatten_complete_witness : problems (gathered_of made) = [] /\
  map label_of (items (gathered_of made)) ≡ₚ ("create"%string, "order"%string, [PAt 0]) :: below cat input [] "order" [PAt 0].
Proof.
  split; [vm_compute; reflexivity|].
  pose proof (proj1 (flatten_complete nt (fun _ => "?"%string) dp ok di m cat mint none "order" sel [PAt 0] gathered0 (gathered_of made)
    ltac:(vm_compute; reflexivity)) (Some input) None None made_done) as H.
  cbv zeta in H. change (get (mf_attaches m) "order") with (@None (dict AttachLayer)) in H. cbn [own_input fst snd opt_below attached_named up_kind] in H.
  by rewrite app_nil_r in H.
Defined.
Lemma fields_by_layer_witness : layerPath "order" [PAt 0; PKey "lines"; PKey "create"; PAt 2] = "order.lines"%string /\
  exists new, items (gathered_of made) = [] ++ new /\ forall a i b, new = a ++ i :: b -> it_attach i = false ->
    forall k, k ∈ keys (written (it_change i)) ->
      k ∈ default [] (get declared (layerPath "order" (change_path (it_change i)))) \/ k = "id"%string \/ (exists p, it_parent i = Some p /\ k = pr_fk p).
Proof.
  split; [reflexivity|].
  exact (proj1 (fields_by_layer nt (fun _ => "?"%string) dp ok di m cat mint none declared VCreate "order" [PAt 0] gathered0 plain ltac:(cbn; lia) eq_refl)
    (Some input) None None _ made_done).
Defined.
(** A relation named like an action, under an update: the path of its rows names the [set] as well. *)
Example action_named_relation : layerPath "order" [PAt 0; PKey "set"; PKey "link"; PKey "create"; PAt 0] = "order.set.link"%string.
Proof. reflexivity. Qed.
Lemma withDefaults_correct_witness : let r := withDefaults m (fun _ => None) order_spec order_info "order" [] (ActApiKey "k") in
  snd r = Some "number"%string /\ missing (fst r) "number" = true.
Proof.
  cbv zeta. pose proof (withDefaults_correct m (fun _ => None) order_spec order_info "order" [] (ActApiKey "k")) as H.
  destruct (withDefaults m (fun _ => None) order_spec order_info "order" [] (ActApiKey "k")) as [v lacks] eqn:E.
  assert (lacks = Some "number"%string) as -> by (vm_compute in E; congruence). split; [reflexivity|]. cbn [fst].
  apply H; [| |reflexivity]; unfold wf_dict; cbn; repeat constructor; set_solver.
Defined.
End Demo.
