(* ===== verification/Versioned.v ===== *)
(** Versioned lineages: [packages/std/src/versioned.ts]. The rows of a lineage carry an inclusive date period; sealed rows
    that are not voided never share a day. [sealWrites] computes the updates that seal a draft among them, [onlyShortens] and
    [voidOnce] judge an update of a sealed row, [cloneNext] builds the successor draft. *)
From S2P Require Import Prelude Decimal Dates Ir.
From Stdlib Require Import Sorting.Sorted.

Module Versioned.
Import Dates.

(** ** Values: JSON-shaped values of a row in memory, where a property may be [undefined] and a decimal is an object. *)
Inductive Val :=
| VUndef
| VNull
| VBool (b : bool)
| VNum (n : number)
| VStr (s : string)
| VDec (d : Decimal.t)
| VArr (l : list Val)
| VObj (o : dict Val).

Definition is_undef (v : Val) : bool := match v with VUndef => true | _ => false end.
(** [Decimal.toJSON()]. *)
Definition toJSON (d : Decimal.t) : Val := VObj [("$dec", VStr (Decimal.toString d))]%string.
(** The entries of an object that are not [undefined]. *)
Definition entries (o : dict Val) : dict Val := List.filter (fun kv => negb (is_undef (snd kv))) o.

(** [a] is structurally [b], which is not a decimal. *)
Fixpoint equal_to (a b : Val) : bool :=
  match a, b with
  | VUndef, VUndef | VNull, VNull => true
  | VBool x, VBool y => Bool.eqb x y
  | VNum x, VNum y => Qeq_bool x y
  | VStr x, VStr y => String.eqb x y
  | VDec d, VObj y =>
      match entries y with
      | [(k, VStr s)] => String.eqb k "$dec" && String.eqb (Decimal.toString d) s
      | _ => false
      end
  | VArr x, VArr y =>
      (fix every (x y : list Val) : bool :=
         match x, y with
         | [], [] => true
         | v :: x', w :: y' => equal_to v (match w with VDec e => toJSON e | w => w end) && every x' y'
         | _, _ => false
         end) x y
  | VObj x, VObj y =>
      (length (entries x) =? length (entries y))%nat &&
      (fix every (x : dict Val) : bool :=
         match x with
         | [] => true
         | (k, v) :: x' =>
             (is_undef v ||
              match get (entries y) k with Some w => equal_to v (match w with VDec e => toJSON e | w => w end) | None => false end)
             && every x'
         end) x
  | _, _ => false
  end.
Definition equal (a b : Val) : bool := equal_to a (match b with VDec e => toJSON e | b => b end).

(** [x ?? null]. *)
Definition orNull (v : option Val) : Val := match v with None | Some VUndef => VNull | Some v => v end.
Definition same (a b : option Val) : bool := equal (orNull a) (orNull b).

(** ** Rows. *)

(** A row of a lineage: the columns the helpers read, and the rest of its fields. *)
Record Lineage := MkLineage {
  l_id : string; period : DatePeriod; sealed_at : option string; voided_at : option string; void_reason : option string;
  others : dict Val }.
Definition Input := dict Val.

Definition opt_val (s : option string) : Val := match s with Some s => VStr s | None => VNull end.
Definition period_val (p : DatePeriod) : Val := VObj [("from", VStr (from p)); ("to", opt_val (to p))]%string.
(** [(before as Input)[field]]. *)
Definition field_of (v : Lineage) (field : string) : option Val :=
  if String.eqb field "id" then Some (VStr (l_id v))
  else if String.eqb field "period" then Some (period_val (period v))
  else if String.eqb field "sealed_at" then Some (opt_val (sealed_at v))
  else if String.eqb field "voided_at" then Some (opt_val (voided_at v))
  else if String.eqb field "void_reason" then Some (opt_val (void_reason v))
  else get (others v) field.

Definition live (v : Lineage) : bool := is_some (sealed_at v) && negb (is_some (voided_at v)).

(** ** Sealing. *)

Record SealWrite := MkWrite { target : string; set_period : DatePeriod; set_sealed_at : option string }.

(** [sort((a, b) => a.period.from < b.period.from ? -1 : 1)]. *)
Fixpoint insert_from (v : Lineage) (l : list Lineage) : list Lineage :=
  match l with
  | [] => [v]
  | w :: l' => if str_ltb (from (period v)) (from (period w)) then v :: w :: l' else w :: insert_from v l'
  end.
Definition sort_from (l : list Lineage) : list Lineage := fold_left (fun acc v => insert_from v acc) l [].

Definition ends_from (p : DatePeriod) (d : string) : bool := match to p with None => true | Some t => str_leb d t end.

Definition sealWrites (draft : Lineage) (sealed : list Lineage) (now : string) : outcome (list SealWrite) :=
  if is_some (sealed_at draft) then PlainError "This version is already sealed."
  else
    let start := from (period draft) in
    let others := List.filter (fun v => negb (String.eqb (l_id v) (l_id draft)) && live v) sealed in
    match List.find (fun v => String.eqb (from (period v)) start) others with
    | Some _ => PlainError ("A sealed version already starts on " +:+ start +:+ "; void it before sealing another from that day.")
    | None =>
        first ← match List.find (fun v => str_ltb (from (period v)) start && ends_from (period v) start) others with
                | Some before =>
                    e ← addDays start (-1);
                    Ok [MkWrite (l_id before) (Period (from (period before)) (Some e)) None]
                | None => Ok []
                end;
        to_ ← match head (sort_from (List.filter (fun v => str_ltb start (from (period v))) others)) with
              | Some next =>
                  if ends_from (period draft) (from (period next))
                  then e ← addDays (from (period next)) (-1); Ok (Some e) else Ok (to (period draft))
              | None => Ok (to (period draft))
              end;
        Ok (first ++ [MkWrite (l_id draft) (Period start to_) (Some now)])
    end.

(** ** Updates of a sealed row. *)

(** [isPeriod(value)] and the ends it narrows to. *)
Definition isPeriod (v : Val) : option (string * option string) :=
  match v with
  | VObj o =>
      match get o "from", get o "to" with
      | Some (VStr f), Some VNull => Some (f, None)
      | Some (VStr f), Some (VStr t) => Some (f, Some t)
      | _, _ => None
      end
  | _ => None
  end.

(** A period value that keeps the start and ends no later. *)
Definition shortens (was : DatePeriod) (value : Val) : bool :=
  match isPeriod value with
  | Some (f, Some t) =>
      String.eqb f (from was) && str_leb f t && match to was with None => true | Some u => str_leb t u end
  | _ => false
  end.

Fixpoint onlyShortens (before : Lineage) (input : Input) : option string :=
  match input with
  | [] => None
  | (field, value) :: rest =>
      if String.eqb field "voided_at" || String.eqb field "void_reason" || same (Some value) (field_of before field)
         || (String.eqb field "period" && shortens (period before) value)
      then onlyShortens before rest
      else Some (if String.eqb field "period"
                 then "A sealed version’s period may only end earlier. Seal a new version instead."
                 else "This version is sealed, so " +:+ field
                        +:+ " cannot change. Seal a corrected version instead; a wrong seal is voided.")
  end.

Definition voidOnce (before : Lineage) (input : Input) : option string :=
  let voids := has_own input "voided_at" in
  let words := has_own input "void_reason" in
  let rewords := words && negb (same (get input "void_reason") (Some (opt_val (void_reason before)))) in
  if negb voids && negb words then None
  else if is_some (voided_at before) then
    if voids && negb (same (get input "voided_at") (Some (opt_val (voided_at before))))
    then Some "This version is voided; a void is never undone."%string
    else if rewords then Some "This version is voided; its reason is part of the record."%string
    else None
  else
    match orNull (get input "voided_at") with
    | VNull => if rewords then Some "A reason is given only with a void."%string else None
    | _ =>
        match (if words then get input "void_reason" else Some (opt_val (void_reason before))) with
        | Some (VStr reason) => if String.eqb (trim reason) "" then Some "A void states its reason."%string else None
        | _ => Some "A void states its reason."%string
        end
    end.

(** ** The successor draft. *)

Definition strip (drop : list string) (row : dict Val) : dict Val := List.filter (fun kv => negb (includes drop (fst kv))) row.
Definition CARRIED : list string := ["id"; "revision"; "sealed_at"; "voided_at"; "void_reason"]%string.

Definition cloneNext (version : dict Val) (from_ : string) (children : dict (list (dict Val))) : outcome (dict Val) :=
  start ← PlainDate from_;
  Ok (fold_left
        (fun out (rr : string * list (dict Val)) =>
           set out (fst rr) (VObj [("create", VArr (map (fun r => VObj (strip ["id"; "revision"] r)) (snd rr)))]%string))
        children
        (set (strip CARRIED version) "period" (period_val (Period start None)))).

(** ** The lineage a seal leaves. *)

(** One update of the statement, and the statement over the rows. *)
Definition applied (ws : list SealWrite) (v : Lineage) : Lineage :=
  match List.find (fun w => String.eqb (target w) (l_id v)) ws with
  | Some w => MkLineage (l_id v) (set_period w) (match set_sealed_at w with Some t => Some t | None => sealed_at v end)
                (voided_at v) (void_reason v) (others v)
  | None => v
  end.

Definition start (v : Lineage) : Z := toDays (from (period v)).
Definition covers (v : Lineage) (n : Z) : Prop := in_days (period v) n.
(** Sealed rows that stand share no day. *)
Definition noOverlap (rows : list Lineage) : Prop :=
  forall v w n, v ∈ rows -> w ∈ rows -> live v = true -> live w = true -> covers v n -> covers w n -> l_id v = l_id w.
Record wf_lineage (rows : list Lineage) : Prop := {
  wf_ids : NoDup (map l_id rows);
  wf_periods : Forall (fun v => wf_period (period v)) rows;
  wf_disjoint : noOverlap rows }.

Lemma same_id rows v w : wf_lineage rows -> v ∈ rows -> w ∈ rows -> l_id v = l_id w -> v = w.
Proof.
  intros [Hn _ _] Hv Hw E. apply list_elem_of_lookup in Hv as [i Hi], Hw as [j Hj].
  assert (i = j) as -> by (apply (NoDup_lookup (map l_id rows) i j (l_id v)); [done|by rewrite list_lookup_fmap, Hi|by rewrite list_lookup_fmap, Hj, E]).
  rewrite Hi in Hj. by injection Hj.
Qed.

Lemma row_wf rows v : wf_lineage rows -> v ∈ rows -> wf_period (period v).
Proof. intros [_ H _] Hv. by apply (proj1 (Forall_forall _ _) H). Qed.

Lemma covers_start v : wf_period (period v) -> covers v (start v).
Proof. unfold covers, in_days, start. intros [_ H]. destruct (to (period v)); lia. Qed.

(** The order of starts, on well-formed periods. *)
Lemma from_lt v w : wf_period (period v) -> wf_period (period w) ->
  (str_ltb (from (period v)) (from (period w)) = true <-> start v < start w).
Proof. intros [Hv _] [Hw _]. by rewrite ltb_days, Z.ltb_lt. Qed.

Lemma from_eq v w : wf_period (period v) -> wf_period (period w) ->
  (String.eqb (from (period v)) (from (period w)) = true <-> start v = start w).
Proof.
  intros [Hv _] [Hw _]. rewrite String.eqb_eq. unfold start. split; [by intros ->|]. by apply toDays_inj.
Qed.

Lemma ends_from_covers p d : wf_period p -> isPlainDate d = true -> toDays (from p) <= toDays d ->
  (ends_from p d = true <-> in_days p (toDays d)).
Proof.
  intros [Hf Ht] Hd L. unfold ends_from, in_days. destruct (to p) as [t|]; [|tauto].
  rewrite leb_days, Z.leb_le by tauto. tauto.
Qed.

Lemma day_before d n : isPlainDate d = true -> MIN_DAY <= n < toDays d ->
  exists e, addDays d (-1) = Ok e /\ isPlainDate e = true /\ toDays e = toDays d - 1.
Proof.
  intros Hd Hn. pose proof (toDays_range d Hd).
  destruct (addDays_days d (-1) Hd) as (e & E & P & D); [lia|]. by exists e.
Qed.

(** The sort puts a row of least start first. *)
Lemma insert_elem v l x : x ∈ insert_from v l <-> x = v \/ x ∈ l.
Proof.
  induction l as [|w l IH]; cbn; [by rewrite list_elem_of_singleton, elem_of_nil; intuition|].
  case_match; rewrite !elem_of_cons, ?IH; intuition.
Qed.

Definition least (v : Lineage) (l : list Lineage) : Prop := forall w, w ∈ l -> str_ltb (from (period w)) (from (period v)) = false.

Lemma insert_head v l x : (forall h t, l = h :: t -> least h l) -> head (insert_from v l) = Some x -> least x (v :: l).
Proof.
  intros Hl. destruct l as [|w l]; cbn.
  - intros [= <-] y Hy. apply list_elem_of_singleton in Hy as ->. apply str_ltb_irrefl.
  - specialize (Hl w l eq_refl). destruct (str_ltb (from (period v)) (from (period w))) eqn:E; intros [= <-] y Hy.
    + apply elem_of_cons in Hy as [->|Hy]; [apply str_ltb_irrefl|]. specialize (Hl y Hy).
      destruct (str_ltb (from (period y)) (from (period v))) eqn:E2; [|done].
      pose proof (str_ltb_trans _ _ _ E2 E) as E3. congruence.
    + apply elem_of_cons in Hy as [->|Hy]; [done|]. by apply Hl.
Qed.

Lemma sort_spec l : (forall x, x ∈ sort_from l <-> x ∈ l) /\ (forall h t, sort_from l = h :: t -> least h l).
Proof.
  unfold sort_from.
  enough (forall acc, (forall h t, acc = h :: t -> least h acc) ->
    let r := fold_left (fun acc v => insert_from v acc) l acc in
    (forall x, x ∈ r <-> x ∈ acc ++ l) /\ (forall h t, r = h :: t -> least h (acc ++ l))) as H by (apply (H []); done).
  induction l as [|v l IH]; intros acc Ha; cbn [fold_left]; [by rewrite app_nil_r|].
  destruct (IH (insert_from v acc)) as [I1 I2].
  { intros h t E. pose proof (insert_head v acc h Ha) as Hh. rewrite E in Hh. specialize (Hh eq_refl).
    intros y Hy. apply Hh. rewrite insert_elem in Hy. by rewrite elem_of_cons. }
  split.
  - intros x. rewrite I1, !elem_of_app, insert_elem, elem_of_cons. tauto.
  - intros h t E y Hy. apply (I2 h t E). revert Hy. rewrite !elem_of_app, insert_elem, elem_of_cons. tauto.
Qed.

Lemma head_sort l : match head (sort_from l) with
                    | Some m => m ∈ l /\ least m l
                    | None => l = []
                    end.
Proof.
  destruct (sort_spec l) as [S1 S2]. destruct (sort_from l) as [|m t]; cbn.
  - destruct l as [|x l]; [done|]. specialize (S1 x). rewrite elem_of_nil in S1. destruct S1 as [_ []]. by left.
  - split; [apply S1; by left|by apply (S2 m t)].
Qed.


(** The sealed rows a caller passes, and those standing beside a draft. *)
Definition sealed_rows (rows : list Lineage) : list Lineage := List.filter (fun v => is_some (sealed_at v)) rows.
Definition peers_of (rows : list Lineage) (draft : Lineage) : list Lineage :=
  List.filter (fun v => negb (String.eqb (l_id v) (l_id draft)) && live v) (sealed_rows rows).

(** The refusals of [sealWrites], and its writes otherwise: where the two neighbours stand decides them. *)
Section Seal.
Variables (rows : list Lineage) (draft : Lineage) (now : string).
Hypothesis (Hwf : wf_lineage rows) (Hd : draft ∈ rows) (Hs : sealed_at draft = None).
#[local] Abbreviation peers := (peers_of rows draft).

Lemma peers_in v : v ∈ peers <-> v ∈ rows /\ live v = true.
Proof.
  unfold peers_of, sealed_rows. rewrite !list_elem_of_In, !filter_In, <- !list_elem_of_In, andb_true_iff, negb_true_iff, String.eqb_neq.
  unfold live. rewrite !andb_true_iff. split; [tauto|]. intros (Hv & H1 & H2). repeat split; try done.
  intros E. apply (same_id rows v draft) in E as ->; [by rewrite Hs in H1|done..].
Qed.

Lemma peer_unique v w n : v ∈ peers -> w ∈ peers -> covers v n -> covers w n -> v = w.
Proof.
  rewrite !peers_in. intros [Hv Lv] [Hw Lw] Cv Cw. apply (same_id rows); try done. by apply (wf_disjoint rows Hwf v w n).
Qed.

Lemma peer_starts v w : v ∈ peers -> w ∈ peers -> start v = start w -> v = w.
Proof.
  intros Hv Hw E. apply (peer_unique v w (start v)); try done.
  - apply covers_start, (row_wf rows); [done|]. by apply peers_in in Hv as [? _].
  - rewrite E. apply covers_start, (row_wf rows); [done|]. by apply peers_in in Hw as [? _].
Qed.

Lemma clash_spec :
  match List.find (fun v => String.eqb (from (period v)) (from (period draft))) peers with
  | Some v => v ∈ rows /\ live v = true /\ start v = start draft
  | None => forall v, v ∈ peers -> start v <> start draft
  end.
Proof.
  destruct (List.find _ _) as [v|] eqn:E.
  - apply find_some in E as [Hv Ef]. apply list_elem_of_In in Hv. pose proof (proj1 (peers_in v) Hv) as [Hr Hl].
    repeat split; try done. apply from_eq in Ef; [done|by apply (row_wf rows)..].
  - intros v Hv Es. pose proof (find_none _ _ E v) as Hf. specialize (Hf (proj1 (list_elem_of_In _ _) Hv)). cbv beta in Hf.
    apply peers_in in Hv as [Hr _].
    rewrite (proj2 (from_eq v draft (row_wf _ _ Hwf Hr) (row_wf _ _ Hwf Hd))) in Hf; done.
Qed.

Lemma before_spec :
  match List.find (fun v => str_ltb (from (period v)) (from (period draft)) && ends_from (period v) (from (period draft))) peers with
  | Some v => v ∈ peers /\ start v < start draft /\ covers v (start draft)
  | None => forall v, v ∈ peers -> start v < start draft -> ~ covers v (start draft)
  end.
Proof.
  pose proof (row_wf _ _ Hwf Hd) as Wd.
  assert (forall v, v ∈ peers -> (str_ltb (from (period v)) (from (period draft)) && ends_from (period v) (from (period draft)) = true
            <-> start v < start draft /\ covers v (start draft))) as H.
  { intros v Hv. apply peers_in in Hv as [Hr _]. pose proof (row_wf _ _ Hwf Hr) as Wv.
    rewrite andb_true_iff, from_lt by done. split.
    - intros [L C]. split; [done|]. apply ends_from_covers in C; [done|done|apply Wd|unfold start in L; lia].
    - intros [L C]. split; [done|]. apply ends_from_covers; [done|apply Wd|unfold start in L; lia|done]. }
  destruct (List.find _ _) as [v|] eqn:E.
  - apply find_some in E as [Hv Ef]. apply list_elem_of_In in Hv. split; [done|]. by apply H.
  - intros v Hv L C. pose proof (find_none _ _ E v (proj1 (list_elem_of_In _ _) Hv)) as Hf. cbv beta in Hf.
    rewrite (proj2 (H v Hv)) in Hf; done.
Qed.

Lemma next_spec :
  match head (sort_from (List.filter (fun v => str_ltb (from (period draft)) (from (period v))) peers)) with
  | Some v => v ∈ peers /\ start draft < start v /\ (forall w, w ∈ peers -> start draft < start w -> start v <= start w)
  | None => forall v, v ∈ peers -> start v <= start draft
  end.
Proof.
  pose proof (row_wf _ _ Hwf Hd) as Wd.
  assert (forall v, v ∈ List.filter (fun v => str_ltb (from (period draft)) (from (period v))) peers
            <-> v ∈ peers /\ start draft < start v) as H.
  { intros v. rewrite list_elem_of_In, filter_In, <- list_elem_of_In. split; intros [Hv L]; (split; [done|]);
      pose proof (row_wf _ _ Hwf (proj1 (proj1 (peers_in v) Hv))) as Wv; by apply (from_lt draft v). }
  pose proof (head_sort (List.filter (fun v => str_ltb (from (period draft)) (from (period v))) peers)) as Hh.
  destruct (head _) as [v|].
  - destruct Hh as [Hv Hl]. apply H in Hv as [Hv L]. repeat split; try done.
    intros w Hw Lw. specialize (Hl w (proj2 (H w) (conj Hw Lw))).
    pose proof (row_wf _ _ Hwf (proj1 (proj1 (peers_in v) Hv))) as Wv.
    pose proof (row_wf _ _ Hwf (proj1 (proj1 (peers_in w) Hw))) as Ww.
    destruct (Z.lt_ge_cases (start w) (start v)) as [C|]; [|done]. apply (from_lt w v Ww Wv) in C. congruence.
  - intros v Hv. destruct (Z.lt_ge_cases (start draft) (start v)) as [C|]; [|done].
    assert (v ∈ List.filter (fun v => str_ltb (from (period draft)) (from (period v))) peers) as Hin by (apply H; done).
    rewrite Hh in Hin. by apply elem_of_nil in Hin.
Qed.

(** A day of the sealed draft: one of its own, before the next sealed version starts. *)
Definition kept (n : Z) : Prop := covers draft n /\ forall v, v ∈ peers -> start draft < start v -> n < start v.

(** The periods a seal writes. *)
Record seal_writes (ws : list SealWrite) : Prop := {
  seal_draft : exists p, List.find (fun w => String.eqb (target w) (l_id draft)) ws = Some (MkWrite (l_id draft) p (Some now)) /\
    from p = from (period draft) /\ wf_period p /\ forall n, in_days p n <-> kept n;
  seal_before : forall v, v ∈ peers -> start v < start draft -> covers v (start draft) ->
    exists p, List.find (fun w => String.eqb (target w) (l_id v)) ws = Some (MkWrite (l_id v) p None) /\
      from p = from (period v) /\ wf_period p /\ forall n, in_days p n <-> covers v n /\ n < start draft;
  seal_rest : forall w, w ∈ ws -> target w = l_id draft \/
    exists v, v ∈ peers /\ target w = l_id v /\ start v < start draft /\ covers v (start draft) }.

Lemma draft_end :
  exists t, (match head (sort_from (List.filter (fun v => str_ltb (from (period draft)) (from (period v))) peers)) with
             | Some next =>
                 if ends_from (period draft) (from (period next))
                 then e ← addDays (from (period next)) (-1); Ok (Some e) else Ok (to (period draft))
             | None => Ok (to (period draft))
             end) = Ok t /\
    let p := Period (from (period draft)) t in wf_period p /\ forall n, in_days p n <-> kept n.
Proof.
  pose proof (row_wf _ _ Hwf Hd) as Wd. pose proof next_spec as N. destruct (head _) as [next|].
  - destruct N as (Hn & L & Hmin). pose proof (row_wf _ _ Hwf (proj1 (proj1 (peers_in next) Hn))) as Wn.
    assert (toDays (from (period draft)) <= toDays (from (period next))) as L' by (unfold start in L; lia).
    pose proof (ends_from_covers (period draft) (from (period next)) Wd (proj1 Wn) L') as Hc.
    destruct (ends_from _ _) eqn:E.
    + pose proof (toDays_range _ (proj1 Wd)) as R.
      destruct (day_before (from (period next)) (start draft) (proj1 Wn)) as (e & Ee & Pe & De); [unfold start in *; lia|].
      exists (Some e). rewrite Ee. split; [done|]. cbn. unfold start in L. split.
      { split; [apply Wd|]. cbn. split; [done|lia]. }
      intros n. unfold kept, in_days, covers. cbn. rewrite De. apply proj1 in Hc. specialize (Hc eq_refl).
      unfold in_days in *. split.
      * intros [A B]. split; [split; [done|destruct (to (period draft)); [lia|done]]|].
        intros v Hv Lv. specialize (Hmin v Hv Lv). unfold start in *. lia.
      * intros [[A B] C]. specialize (C next Hn L). unfold start in *. lia.
    + exists (to (period draft)). split; [done|]. replace (Period _ _) with (period draft) by (by destruct (period draft)).
      cbn. split; [done|]. intros n. unfold kept, covers. split; [|tauto]. intros C. split; [done|]. intros v Hv Lv. specialize (Hmin v Hv Lv).
      destruct (Z.lt_ge_cases n (start v)) as [|Hge]; [done|]. exfalso.
      assert (false = true) as F; [|done]. apply Hc. unfold in_days in *. destruct (to (period draft)); unfold start in *; [lia|split; [lia|done]].
  - exists (to (period draft)). split; [done|]. replace (Period _ _) with (period draft) by (by destruct (period draft)).
    cbn. split; [done|]. intros n. unfold kept, covers. split; [|tauto]. intros C. split; [done|]. intros v Hv Lv.
    specialize (N v Hv). lia.
Qed.


Lemma peer_not_draft v : v ∈ peers -> l_id v <> l_id draft.
Proof.
  intros Hv. apply peers_in in Hv as [Hr L]. intros E. apply (same_id rows v draft Hwf Hr Hd) in E as ->.
  unfold live in L. by rewrite Hs in L.
Qed.

Lemma before_end :
  exists ws, (match List.find (fun v => str_ltb (from (period v)) (from (period draft)) && ends_from (period v) (from (period draft))) peers with
             | Some before =>
                 e ← addDays (from (period draft)) (-1);
                 Ok [MkWrite (l_id before) (Period (from (period before)) (Some e)) None]
             | None => Ok []
             end) = Ok ws /\
    (forall v, v ∈ peers -> start v < start draft -> covers v (start draft) ->
      exists p, ws = [MkWrite (l_id v) p None] /\ from p = from (period v) /\ wf_period p /\
        forall n, in_days p n <-> covers v n /\ n < start draft) /\
    (forall w, w ∈ ws -> exists v, v ∈ peers /\ target w = l_id v /\ start v < start draft /\ covers v (start draft)).
Proof.
  pose proof before_spec as B. destruct (List.find _ _) as [b|].
  - destruct B as (Hb & L & C). pose proof (row_wf _ _ Hwf (proj1 (proj1 (peers_in b) Hb))) as Wb.
    pose proof (toDays_range _ (proj1 Wb)) as R.
    destruct (day_before (from (period draft)) (start b) (proj1 (row_wf _ _ Hwf Hd))) as (e & Ee & Pe & De); [unfold start in *; lia|].
    rewrite Ee. eexists. split; [reflexivity|]. split.
    + intros v Hv Lv Cv. assert (v = b) as -> by by apply (peer_unique v b (start draft)). eexists. split; [reflexivity|]. cbn.
      unfold start, covers, in_days in *. split; [done|]. split; [split; [apply Wb|split; [done|cbn; lia]]|].
      intros n. cbn. rewrite De. destruct (to (period b)); lia.
    + intros w Hw. apply list_elem_of_singleton in Hw as ->. by exists b.
  - eexists. split; [reflexivity|]. split.
    + intros v Hv L C. by destruct (B v Hv L).
    + intros w Hw. by apply elem_of_nil in Hw.
Qed.

Lemma seal_ok :
  (exists v, v ∈ rows /\ live v = true /\ start v = start draft /\ is_ok (sealWrites draft (sealed_rows rows) now) = false) \/
  exists ws, sealWrites draft (sealed_rows rows) now = Ok ws /\ seal_writes ws.
Proof.
  unfold sealWrites. rewrite Hs. cbn [is_some]. fold (peers_of rows draft).
  pose proof clash_spec as C. destruct (List.find (fun v => String.eqb _ _) _) as [v|].
  { left. exists v. by destruct C as (? & ? & ?). }
  right. destruct before_end as (first & E1 & B1 & B2), draft_end as (t & E2 & W2 & K2).
  unfold mbind in E1, E2 |- *. rewrite E1. cbn [outcome_bind]. rewrite E2. cbn [outcome_bind]. eexists. split; [reflexivity|].
  assert (forall x, List.find (fun w => String.eqb (target w) (l_id draft)) (first ++ [x]) =
                    if String.eqb (target x) (l_id draft) then Some x else None) as F.
  { intros x. assert (forall w, w ∈ first -> String.eqb (target w) (l_id draft) = false) as G.
    { intros w Hw. destruct (B2 w Hw) as (v & Hv & -> & _). apply String.eqb_neq. by apply peer_not_draft. }
    revert G. clear. induction first as [|w l IH]; cbn; intros G; [done|]. rewrite (G w) by (by left).
    apply IH. intros y Hy. apply G. by right. }
  split.
  - exists (Period (from (period draft)) t). rewrite F. cbn. rewrite String.eqb_refl. done.
  - intros v Hv L Cv. destruct (B1 v Hv L Cv) as (p & -> & Hp). exists p. cbn. by rewrite String.eqb_refl.
  - intros w Hw. apply elem_of_app in Hw as [Hw|Hw]; [right; by apply B2|left]. by apply list_elem_of_singleton in Hw as ->.
Qed.

End Seal.


(** ** What a seal does to every row. *)

Lemma applied_none ws v : (forall w, w ∈ ws -> target w <> l_id v) -> applied ws v = v.
Proof.
  intros H. unfold applied. destruct (List.find _ _) as [w|] eqn:E; [|done].
  apply find_some in E as [Hw Ew]. apply list_elem_of_In in Hw. apply String.eqb_eq in Ew. by destruct (H w Hw).
Qed.

Lemma applied_id ws v : l_id (applied ws v) = l_id v.
Proof. unfold applied. by case_match. Qed.

(** The row [v] after the seal of [draft], as the statement leaves it. *)
Record sealed_beside (draft v v' : Lineage) : Prop := {
  sb_from : from (period v') = from (period v);
  sb_state : sealed_at v' = sealed_at v /\ voided_at v' = voided_at v /\ void_reason v' = void_reason v /\ others v' = others v;
  sb_wf : wf_period (period v');
  sb_days : forall n, covers v' n <-> covers v n /\ (live v = true -> start v < start draft -> n < start draft) }.
Record sealed_draft (rows : list Lineage) (draft v' : Lineage) (now : string) : Prop := {
  sd_from : from (period v') = from (period draft);
  sd_state : sealed_at v' = Some now /\ voided_at v' = voided_at draft /\ void_reason v' = void_reason draft /\ others v' = others draft;
  sd_wf : wf_period (period v');
  sd_days : forall n, covers v' n <->
    covers draft n /\ (forall v, v ∈ rows -> live v = true -> start draft < start v -> n < start v) }.

Section Sealed.
Variables (rows : list Lineage) (draft : Lineage) (now : string) (ws : list SealWrite).
Hypothesis (Hwf : wf_lineage rows) (Hd : draft ∈ rows) (Hs : sealed_at draft = None).
Hypothesis (Hok : seal_writes rows draft now ws).

Lemma applied_draft : sealed_draft rows draft (applied ws draft) now.
Proof.
  destruct (seal_draft _ _ _ _ Hok) as (p & E & Ef & Wp & K). unfold applied. rewrite E. cbn. split; cbn; try done.
  intros n. unfold covers in K |- *. cbn. rewrite K. unfold kept, covers. split; intros [A B]; (split; [done|]).
  - intros v Hv L. apply B. by apply peers_in.
  - intros v Hv. apply peers_in in Hv as [Hv L]; [|done..]. by apply B.
Qed.

Lemma applied_beside v : v ∈ rows -> l_id v <> l_id draft -> sealed_beside draft v (applied ws v).
Proof.
  intros Hv Hne.
  assert ((v ∈ peers_of rows draft /\ start v < start draft /\ covers v (start draft)) \/
          ~ (v ∈ peers_of rows draft /\ start v < start draft /\ covers v (start draft))) as [(Hp & L & C)|Hn].
  { rewrite peers_in by done. destruct (live v); [|right; naive_solver].
    assert (start v < start draft /\ covers v (start draft) \/ ~ (start v < start draft /\ covers v (start draft))) as [|]; [|naive_solver..].
    unfold covers, in_days. destruct (to (period v)); lia. }
  - destruct (seal_before _ _ _ _ Hok v Hp L C) as (p & E & Ef & Wp & K). unfold applied. rewrite E. cbn. split; cbn; try done.
    intros n. unfold covers. cbn. rewrite K. unfold covers. split; [tauto|]. intros [A B]. split; [done|]. apply B; [|done].
    by apply peers_in in Hp as [_ Lv].
  - rewrite applied_none.
    + split; try done; [by apply (row_wf rows)|]. intros n. split; [|tauto]. intros C. split; [done|]. intros Lv L.
      destruct (Z.lt_ge_cases n (start draft)) as [|Hge]; [done|]. exfalso. apply Hn. split; [by apply peers_in|]. split; [done|].
      unfold covers, in_days, start in *. destruct (to (period v)); lia.
    + intros w Hw E. destruct (seal_rest _ _ _ _ Hok w Hw) as [E'|(u & Hu & E' & L & C)]; [congruence|].
      assert (u = v) as ->; [|by apply Hn]. rewrite E' in E. pose proof (proj1 (peers_in rows draft Hwf Hd Hs u) Hu) as [Hr _].
      by apply (same_id rows).
Qed.

Hypothesis (Hclash : forall v, v ∈ rows -> live v = true -> start v <> start draft).

Lemma seal_disjoint v n : v ∈ rows -> l_id v <> l_id draft -> live v = true ->
  covers (applied ws v) n -> covers (applied ws draft) n -> False.
Proof.
  intros Hv Hne L Cv Cd. apply (sb_days _ _ _ (applied_beside v Hv Hne)) in Cv as [Cv Bv].
  apply (sd_days _ _ _ _ applied_draft) in Cd as [Cd Bd]. specialize (Hclash v Hv L). specialize (Bd v Hv L). specialize (Bv L).
  unfold covers, in_days, start in *. lia.
Qed.

Lemma seal_wf : wf_lineage (map (applied ws) rows).
Proof.
  split.
  - replace (map l_id (map (applied ws) rows)) with (map l_id rows); [apply Hwf|]. rewrite map_map. apply map_ext. intros v. by rewrite applied_id.
  - apply Forall_forall. intros v' Hv'. apply list_elem_of_fmap in Hv' as (v & -> & Hv).
    destruct (decide (l_id v = l_id draft)) as [E|E].
    + apply (same_id rows v draft Hwf Hv Hd) in E as ->. apply applied_draft.
    + by apply (applied_beside v).
  - intros v' w' n Hv' Hw' Lv Lw Cv Cw. apply list_elem_of_fmap in Hv' as (v & -> & Hv), Hw' as (w & -> & Hw). rewrite !applied_id.
    assert (forall u, u ∈ rows -> l_id u <> l_id draft -> live (applied ws u) = live u) as Ll.
    { intros u Hu Hne. destruct (applied_beside u Hu Hne) as [_ (S1 & S2 & _) _ _]. unfold live. by rewrite S1, S2. }
    destruct (decide (l_id v = l_id draft)) as [Ev|Ev], (decide (l_id w = l_id draft)) as [Ew|Ew]; [congruence| | |].
    + apply (same_id rows v draft Hwf Hv Hd) in Ev as ->. exfalso. apply (seal_disjoint w n); try done. by rewrite <- Ll.
    + apply (same_id rows w draft Hwf Hw Hd) in Ew as ->. exfalso. apply (seal_disjoint v n); try done. by rewrite <- Ll.
    + rewrite (Ll v), (Ll w) in * by done.
      apply (sb_days _ _ _ (applied_beside v Hv Ev)) in Cv as [Cv _]. apply (sb_days _ _ _ (applied_beside w Hw Ew)) in Cw as [Cw _].
      by apply (wf_disjoint rows Hwf v w n).
Qed.
End Sealed.

(** Sealing a draft of a well-formed lineage is refused exactly when the draft is sealed already or a standing sealed
    version starts on its day. Otherwise the one update list leaves a well-formed lineage (no two standing sealed versions
    share a day) in which every standing version that starts before the draft keeps exactly its days before the draft, the
    draft keeps exactly its days before the next standing version, and no other row changes. *)
Theorem sealWrites_correct (rows : list Lineage) (draft : Lineage) (now : string) (Hwf : wf_lineage rows) (Hd : draft ∈ rows) :
  (is_ok (sealWrites draft (sealed_rows rows) now) = false <->
     sealed_at draft <> None \/ exists v, v ∈ rows /\ live v = true /\ start v = start draft) /\
  (forall ws, sealWrites draft (sealed_rows rows) now = Ok ws ->
     wf_lineage (map (applied ws) rows) /\ sealed_draft rows draft (applied ws draft) now /\
     forall v, v ∈ rows -> v <> draft -> sealed_beside draft v (applied ws v)).
Proof.
  destruct (sealed_at draft) as [t|] eqn:Hs.
  { assert (is_ok (sealWrites draft (sealed_rows rows) now) = false) as E by (unfold sealWrites; by rewrite Hs).
    split; [|intros ws Hws; by rewrite Hws in E]. split; [|done]. intros _. by left. }
  pose proof (clash_spec rows draft Hwf Hd Hs) as C.
  destruct (seal_ok rows draft now Hwf Hd Hs) as [(v & Hv & L & Es & E)|(ws & E & Hok)].
  { split; [|intros ws Hws; by rewrite Hws in E]. split; [|done]. intros _. right. by exists v. }
  assert (forall v, v ∈ rows -> live v = true -> start v <> start draft) as Hc.
  { destruct (List.find _ _) as [u|] eqn:F.
    - exfalso. unfold sealWrites in E. rewrite Hs in E. cbn [is_some] in E. fold (peers_of rows draft) in E. by rewrite F in E.
    - intros v Hv L. apply C. by apply peers_in. }
  rewrite E. split.
  - split; [done|]. intros [?|(v & Hv & L & Es)]; [done|]. by destruct (Hc v Hv L).
  - intros ws' [= <-]. split; [by apply (seal_wf rows draft now)|]. split; [by apply applied_draft|].
    intros v Hv Hne. apply (applied_beside rows draft now); try done. intros Ei. by apply (same_id rows v draft) in Ei.
Qed.


(** ** Updates of sealed rows. *)

(** The row an update leaves: a field the input names takes its value, a period the one the value reads as. *)
Definition updates (before : Lineage) (input : Input) (after : Lineage) : Prop :=
  (forall k, get input k = None -> field_of after k = field_of before k) /\
  (forall k x, get input k = Some x ->
     if String.eqb k "period" then isPeriod x = Some (from (period after), to (period after))
     else same (Some x) (field_of after k) = true).

Lemma onlyShortens_all before input k x : onlyShortens before input = None -> (k, x) ∈ input ->
  k = "voided_at"%string \/ k = "void_reason"%string \/ same (Some x) (field_of before k) = true \/
  k = "period"%string /\ shortens (period before) x = true.
Proof.
  induction input as [|[f y] rest IH]; cbn [onlyShortens]; [by rewrite elem_of_nil|].
  destruct (_ || _) eqn:E; [|done]. intros H. rewrite elem_of_cons. intros [[= -> ->]|Hx]; [|by apply IH].
  rewrite !orb_true_iff, andb_true_iff, !String.eqb_eq in E. tauto.
Qed.

Lemma same_opt x s : same (Some x) (Some (opt_val s)) = true -> orNull (Some x) = opt_val s.
Proof.
  unfold same, equal. destruct s as [s|]; cbn [opt_val orNull]; destruct x; cbn; try done. by intros ->%String.eqb_eq.
Qed.

Lemma opt_val_inj a b : opt_val a = opt_val b -> a = b.
Proof. destruct a, b; cbn; congruence. Qed.

Lemma same_opt_inj x a b : same (Some x) (Some (opt_val a)) = true -> same (Some x) (Some (opt_val b)) = true -> a = b.
Proof. intros Ha%same_opt Hb%same_opt. apply opt_val_inj. congruence. Qed.

(** A value that is the period's own reads as the same ends. *)
Lemma equal_member o y k v : equal_to (VObj o) (VObj y) = true -> get o k = Some v -> is_undef v = false ->
  exists w, get (entries y) k = Some w /\ equal_to v (match w with VDec e => toJSON e | w => w end) = true.
Proof.
  cbn [equal_to]. rewrite andb_true_iff. intros [_ H] G U. apply get_in in G.
  induction o as [|[k' v'] o IH]; [by apply elem_of_nil in G|]. apply andb_true_iff in H as [H1 H2].
  apply elem_of_cons in G as [[= <- <-]|G]; [|by apply IH]. rewrite U in H1. cbn [orb] in H1.
  destruct (get (entries y) k) as [w|]; [|done]. by exists w.
Qed.

Lemma same_period x p f t : same (Some x) (Some (period_val p)) = true -> isPeriod x = Some (f, t) -> f = from p /\ t = to p.
Proof.
  unfold same, equal, isPeriod. destruct x as [| | | | | | |o]; try done. cbn [orNull period_val].
  destruct (get o "from") as [vf|] eqn:Ef; [|done]. destruct (get o "to") as [vt|] eqn:Et; [|by destruct vf].
  intros H Hp. assert (exists s, vf = VStr s) as [s ->] by (destruct vf; try done; eauto).
  destruct (equal_member _ _ _ _ H Ef eq_refl) as (wf & Gf & Qf). destruct vt; try done; injection Hp as <- <-;
    destruct (equal_member _ _ _ _ H Et eq_refl) as (wt & Gt & Qt); destruct (to p) as [u|]; cbn in Gf, Gt;
    injection Gf as <-; injection Gt as <-; cbn in Qf, Qt; try done;
    repeat match goal with E : String.eqb _ _ = true |- _ => apply String.eqb_eq in E as -> end; done.
Qed.

Section Amend.
Variables (before : Lineage) (input : Input) (after : Lineage).
Hypothesis (Ho : onlyShortens before input = None) (Hv : voidOnce before input = None) (Hu : updates before input after).
Hypothesis (Wb : wf_period (period before)) (Wa : wf_period (period after)).

Lemma amend_string k a b :
  (forall v, field_of v k = Some (opt_val (b v))) -> a = b after ->
  k <> "period"%string -> k <> "voided_at"%string -> k <> "void_reason"%string -> a = b before.
Proof.
  intros Hf -> H1 H2 H3. destruct Hu as [U1 U2]. destruct (get input k) as [x|] eqn:G.
  - specialize (U2 k x G). rewrite (proj2 (String.eqb_neq _ _) H1), Hf in U2.
    destruct (onlyShortens_all _ _ k x Ho (get_in _ _ _ G)) as [|[|[S|[]]]]; try done. rewrite Hf in S. by apply (same_opt_inj x).
  - specialize (U1 k G). rewrite !Hf in U1. injection U1. apply opt_val_inj.
Qed.

Lemma amend_id : l_id after = l_id before.
Proof.
  assert (Some (l_id after) = Some (l_id before)) as E; [|by injection E].
  by apply (amend_string "id" (Some (l_id after)) (fun v => Some (l_id v))).
Qed.
Lemma amend_sealed : sealed_at after = sealed_at before.
Proof. by apply (amend_string "sealed_at" (sealed_at after) sealed_at). Qed.

Lemma amend_period : from (period after) = from (period before) /\ forall n, covers after n -> covers before n.
Proof.
  destruct Hu as [U1 U2]. destruct (get input "period") as [x|] eqn:G.
  - specialize (U2 _ _ G). cbn in U2.
    destruct (onlyShortens_all _ _ _ x Ho (get_in _ _ _ G)) as [|[|[S|[_ S]]]]; try done.
    + destruct (same_period x (period before) _ _ S U2) as [E1 E2]. split; [done|]. intros n. unfold covers, in_days. by rewrite E1, E2.
    + unfold shortens in S. rewrite U2 in S. unfold covers, in_days. destruct Wb as [Wf Wt], Wa as [Wf' Wt'].
      destruct (to (period after)) as [t|]; [|done]. rewrite !andb_true_iff, String.eqb_eq in S. destruct S as [[E _] S].
      split; [done|]. intros n. rewrite E. destruct (to (period before)) as [u|]; [|tauto]. rewrite leb_days, Z.leb_le in S by tauto. lia.
  - specialize (U1 _ G). cbn in U1. injection U1 as E1 E2. apply opt_val_inj in E2. split; [done|]. intros n. unfold covers, in_days. by rewrite E1, E2.
Qed.

(** A column of text after the update: the value the input gives, or the one before. *)
Lemma after_text k (b : Lineage -> option string) :
  (forall v, field_of v k = Some (opt_val (b v))) -> k <> "period"%string ->
  opt_val (b after) = match get input k with Some x => orNull (Some x) | None => opt_val (b before) end.
Proof.
  intros Hf Hk. destruct Hu as [U1 U2]. destruct (get input k) as [x|] eqn:G.
  - specialize (U2 k x G). rewrite (proj2 (String.eqb_neq _ _) Hk), Hf in U2. symmetry. by apply same_opt.
  - specialize (U1 k G). rewrite !Hf in U1. by injection U1.
Qed.


(** Unless it is given another value, a column of text stays. *)
Lemma kept_text k (b : Lineage -> option string) :
  (forall v, field_of v k = Some (opt_val (b v))) -> k <> "period"%string ->
  has_own input k && negb (same (get input k) (Some (opt_val (b before)))) = false -> b after = b before.
Proof.
  intros Hf Hk. unfold has_own. pose proof (after_text k b Hf Hk) as A. destruct (get input k) as [x|]; cbn [is_some andb].
  - intros H. apply negb_false_iff, same_opt in H. apply opt_val_inj. congruence.
  - intros _. by apply opt_val_inj.
Qed.

Lemma kept_void :
  has_own input "voided_at" && negb (same (get input "voided_at") (Some (opt_val (voided_at before)))) = false ->
  voided_at after = voided_at before.
Proof. by apply kept_text. Qed.
Lemma kept_reason :
  has_own input "void_reason" && negb (same (get input "void_reason") (Some (opt_val (void_reason before)))) = false ->
  void_reason after = void_reason before.
Proof. by apply kept_text. Qed.

Lemma amend_voided : voided_at before <> None -> voided_at after = voided_at before /\ void_reason after = void_reason before.
Proof.
  intros Hb. unfold voidOnce in Hv. destruct (negb _ && negb _) eqn:E.
  - bool_hyps. split; [apply kept_void|apply kept_reason]; by apply andb_false_iff; left.
  - destruct (voided_at before) as [b|] eqn:Eb; [|done]. cbn [is_some] in Hv. rewrite <- Eb in *.
    destruct (has_own input "voided_at" && _) eqn:V; [done|]. destruct (has_own input "void_reason" && _) eqn:W; [done|].
    split; [by apply kept_void|by apply kept_reason].
Qed.

Lemma amend_unvoided : voided_at before = None ->
  if is_some (voided_at after) then exists r, void_reason after = Some r /\ trim r <> ""%string
  else void_reason after = void_reason before.
Proof.
  intros Hb. pose proof (after_text "voided_at" voided_at (fun _ => eq_refl) ltac:(done)) as A1.
  pose proof (after_text "void_reason" void_reason (fun _ => eq_refl) ltac:(done)) as A2.
  assert (opt_val (voided_at after) = orNull (get input "voided_at")) as A3.
  { rewrite A1, Hb. by destruct (get input "voided_at"). }
  unfold voidOnce in Hv. destruct (negb _ && negb _) eqn:E.
  { bool_hyps. rewrite kept_void, Hb by (by apply andb_false_iff; left). cbn. apply kept_reason. by apply andb_false_iff; left. }
  rewrite Hb in Hv. cbn [is_some] in Hv. rewrite <- A3 in Hv. destruct (voided_at after) as [t|]; cbn [opt_val is_some] in *.
  - unfold has_own in Hv. destruct (get input "void_reason") as [y|]; cbn [is_some] in Hv.
    + destruct y as [| | | |r| | |]; try done. destruct (String.eqb _ _) eqn:Er; [done|]. apply String.eqb_neq in Er.
      exists r. split; [|done]. by apply opt_val_inj.
    + destruct (void_reason before) as [r|]; cbn [opt_val] in *; [|done]. destruct (String.eqb _ _) eqn:Er; [done|].
      apply String.eqb_neq in Er. exists r. split; [|done]. by apply opt_val_inj.
  - destruct (has_own input "void_reason" && _) eqn:W; [done|]. by apply kept_reason.
Qed.

Lemma amend_other k : k <> "period"%string -> k <> "voided_at"%string -> k <> "void_reason"%string ->
  match get input k with
  | Some x => same (Some x) (field_of before k) = true /\ same (Some x) (field_of after k) = true
  | None => field_of after k = field_of before k
  end.
Proof.
  intros H1 H2 H3. destruct Hu as [U1 U2]. destruct (get input k) as [x|] eqn:G; [|by apply U1].
  specialize (U2 k x G). rewrite (proj2 (String.eqb_neq _ _) H1) in U2.
  by destruct (onlyShortens_all _ _ k x Ho (get_in _ _ _ G)) as [|[|[S|[]]]].
Qed.
End Amend.

(** ** The lineage over time. *)

Definition replace_row (v : Lineage) (rows : list Lineage) : list Lineage :=
  map (fun u => if String.eqb (l_id u) (l_id v) then v else u) rows.

(** What a lineage goes through: drafts come, change and go; a draft is sealed by the update list; a sealed row takes an
    update both judges admits. *)
Inductive step : list Lineage -> list Lineage -> Prop :=
| StepDraft rows v : sealed_at v = None -> wf_period (period v) -> l_id v ∉ map l_id rows -> step rows (rows ++ [v])
| StepRedraft rows v v' : v ∈ rows -> sealed_at v = None -> sealed_at v' = None -> l_id v' = l_id v -> wf_period (period v') ->
    step rows (replace_row v' rows)
| StepDiscard rows v : v ∈ rows -> sealed_at v = None -> step rows (List.filter (fun u => negb (String.eqb (l_id u) (l_id v))) rows)
| StepSeal rows draft now ws : draft ∈ rows -> sealWrites draft (sealed_rows rows) now = Ok ws -> step rows (map (applied ws) rows)
| StepAmend rows v input v' : v ∈ rows -> sealed_at v <> None -> onlyShortens v input = None -> voidOnce v input = None ->
    updates v input v' -> wf_period (period v') -> step rows (replace_row v' rows).

(** What a sealed row is, later on. *)
Record preserved (v v' : Lineage) : Prop := {
  pr_id : l_id v' = l_id v;
  pr_sealed : sealed_at v' = sealed_at v;
  pr_from : from (period v') = from (period v);
  pr_days : forall n, covers v' n -> covers v n;
  pr_void : voided_at v <> None -> voided_at v' = voided_at v /\ void_reason v' = void_reason v }.

Lemma preserved_refl v : preserved v v.
Proof. by split. Qed.

Lemma preserved_trans u v w : preserved u v -> preserved v w -> preserved u w.
Proof.
  intros [I1 S1 F1 D1 V1] [I2 S2 F2 D2 V2]. split; [congruence..|by intros n ?%D2%D1|].
  intros H. destruct (V1 H) as [E1 E2]. destruct V2 as [E3 E4]; [congruence|]. split; congruence.
Qed.

Lemma replace_in rows v v' u : wf_lineage rows -> v ∈ rows -> l_id v' = l_id v ->
  (u ∈ replace_row v' rows <-> u = v' \/ u ∈ rows /\ l_id u <> l_id v).
Proof.
  intros Hwf Hv Ei. unfold replace_row. rewrite list_elem_of_fmap. split.
  - intros (w & -> & Hw). destruct (String.eqb _ _) eqn:E; [by left|]. apply String.eqb_neq in E. right. split; [done|congruence].
  - intros [->|[Hu Hne]].
    + exists v. by rewrite Ei, String.eqb_refl.
    + exists u. by rewrite (proj2 (String.eqb_neq _ _)) by congruence.
Qed.

(** A replaced row keeps the lineage well formed when its days, standing, are among those the old one had. *)
Lemma replace_wf rows v v' : wf_lineage rows -> v ∈ rows -> l_id v' = l_id v -> wf_period (period v') ->
  (live v' = true -> live v = true /\ forall n, covers v' n -> covers v n) -> wf_lineage (replace_row v' rows).
Proof.
  intros Hwf Hv Ei Wp Hl. pose proof (fun u => replace_in rows v v' u Hwf Hv Ei) as Hin. split.
  - replace (map l_id (replace_row v' rows)) with (map l_id rows); [apply Hwf|]. unfold replace_row. rewrite map_map. apply map_ext.
    intros u. destruct (String.eqb _ _) eqn:E; [by apply String.eqb_eq in E|done].
  - apply Forall_forall. intros u Hu. apply Hin in Hu as [->|[Hu _]]; [done|]. by apply (row_wf rows).
  - intros a b n Ha Hb La Lb Ca Cb. apply Hin in Ha as [->|[Ha Na]], Hb as [->|[Hb Nb]]; [done|..].
    + destruct (Hl La) as [Lv Cv]. rewrite Ei. apply (wf_disjoint rows Hwf v b n); auto.
    + destruct (Hl Lb) as [Lv Cv]. rewrite Ei. apply (wf_disjoint rows Hwf a v n); auto.
    + by apply (wf_disjoint rows Hwf a b n).
Qed.

Lemma unsealed_not_live v : sealed_at v = None -> live v = true -> False.
Proof. unfold live. by intros ->. Qed.


(** An update of a sealed row that both judges admits keeps the row's identity, its seal and its first day, adds no day,
    and changes no other field than the void; a void once made stays with its reason, a new one has a reason that is not
    blank, and without one the reason stays. *)
Theorem amend_correct (before : Lineage) (input : Input) (after : Lineage)
  (Hwf : wf_period (period before) /\ wf_period (period after))
  (Hok : onlyShortens before input = None /\ voidOnce before input = None) (Hu : updates before input after) :
  l_id after = l_id before /\ sealed_at after = sealed_at before /\
  from (period after) = from (period before) /\ (forall n, covers after n -> covers before n) /\
  (forall k, k ∉ ["period"; "voided_at"; "void_reason"]%string ->
     match get input k with
     | Some x => same (Some x) (field_of before k) = true /\ same (Some x) (field_of after k) = true
     | None => field_of after k = field_of before k
     end) /\
  match voided_at before, voided_at after with
  | Some t, w => w = Some t /\ void_reason after = void_reason before
  | None, Some _ => exists r, void_reason after = Some r /\ trim r <> ""%string
  | None, None => void_reason after = void_reason before
  end.
Proof.
  destruct Hwf as [Wb Wa], Hok as [Ho Hv]. split; [by apply (amend_id before input)|].
  split; [by apply (amend_sealed before input)|]. destruct (amend_period before input after) as [Hf Hc]; [done..|].
  split; [done|]. split; [done|]. split.
  - intros k Hk. rewrite !not_elem_of_cons in Hk. destruct Hk as (? & ? & ? & _). by apply (amend_other before input).
  - destruct (voided_at before) as [t|] eqn:E.
    + rewrite <- E. apply (amend_voided before input); try done. by rewrite E.
    + pose proof (amend_unvoided before input after Hv Hu E) as U. by destruct (voided_at after).
Qed.

Lemma step_preserves rows rows' : wf_lineage rows -> step rows rows' ->
  wf_lineage rows' /\ forall v, v ∈ rows -> sealed_at v <> None -> exists v', v' ∈ rows' /\ preserved v v'.
Proof.
  intros Hwf H. destruct H as [rows v Hs Wp Hi|rows v v' Hv Hs Hs' Ei Wp|rows v Hv Hs|rows draft now ws Hd E|rows v input v' Hv Hs Ho Ho' Hu Wp].
  - split; [|intros u Hu _; exists u; split; [by apply elem_of_app; left|apply preserved_refl]]. split.
    + rewrite map_app. apply NoDup_app. split; [apply Hwf|]. split; [|apply NoDup_singleton].
      intros x Hx Hx'. apply list_elem_of_singleton in Hx' as ->. done.
    + apply Forall_app. split; [apply Hwf|by apply Forall_singleton].
    + intros a b n Ha Hb La Lb Ca Cb. rewrite !elem_of_app, !list_elem_of_singleton in *.
      destruct Ha as [Ha| ->]; [|by destruct (unsealed_not_live v)]. destruct Hb as [Hb| ->]; [|by destruct (unsealed_not_live v)].
      by apply (wf_disjoint rows Hwf a b n).
  - split; [by apply (replace_wf rows v); [..|intros L; destruct (unsealed_not_live v')]|].
    intros u Hu Su. exists u. split; [|apply preserved_refl]. apply (replace_in rows v); try done. right. split; [done|].
    intros Eu. apply (same_id rows u v) in Eu as ->; done.
  - split.
    + split.
      * apply (sublist_NoDup _ (map l_id rows)); [apply Hwf|]. clear. induction rows as [|u rows IH]; [done|]. cbn [List.filter map].
        case_match; cbn [map]; by constructor.
      * apply Forall_forall. intros u Hu. apply list_elem_of_In, filter_In in Hu as [Hu _]. apply (row_wf rows); [done|by apply list_elem_of_In].
      * intros a b n Ha Hb. rewrite list_elem_of_In, filter_In, <- list_elem_of_In in Ha, Hb. apply (wf_disjoint rows Hwf a b n); tauto.
    + intros u Hu Su. exists u. split; [|apply preserved_refl]. apply list_elem_of_In, filter_In. split; [by apply list_elem_of_In|].
      apply negb_true_iff, String.eqb_neq. intros Eu. apply (same_id rows u v) in Eu as ->; done.
  - assert (sealed_at draft = None) as Hs.
    { unfold sealWrites in E. by destruct (sealed_at draft). }
    destruct (seal_ok rows draft now Hwf Hd Hs) as [(u & _ & _ & _ & F)|(ws' & E' & Hok)]; [by rewrite E in F|].
    rewrite E in E'. injection E' as <-.
    assert (forall v, v ∈ rows -> live v = true -> start v <> start draft) as Hc.
    { pose proof (clash_spec rows draft Hwf Hd Hs) as C. unfold sealWrites in E. rewrite Hs in E. cbn [is_some] in E.
      fold (peers_of rows draft) in E. destruct (List.find (fun v => String.eqb _ _) _); [done|].
      intros v Hv L. apply C. by apply peers_in. }
    split; [by apply (seal_wf rows draft now)|]. intros v Hv Sv. exists (applied ws v). split; [by apply list_elem_of_fmap_2|].
    destruct (applied_beside rows draft now ws Hwf Hd Hs Hok v Hv) as [Bf (B1 & B2 & B3 & _) _ Bd]; [by intros Ei; apply (same_id rows v draft) in Ei as ->|].
    split; [apply applied_id|by rewrite B1|done|by intros n []%Bd|by intros _].
  - assert (wf_period (period v)) as Wb by by apply (row_wf rows).
    destruct (amend_period v input v') as [Hf Hc]; [done..|].
    pose proof (amend_id v input v' Ho Hu) as Ei. pose proof (amend_sealed v input v' Ho Hu) as Es. split.
    + apply (replace_wf rows v); try done. unfold live. rewrite Es. intros L. bool_hyps. split; [|done].
      destruct (voided_at v) as [t|] eqn:Ev; [|by apply andb_true_iff].
      destruct (amend_voided v input v') as [Ea _]; [done..|by rewrite Ev|]. rewrite Ea, Ev in *. done.
    + intros u Hin Su. destruct (decide (l_id u = l_id v)) as [Eu|Eu].
      * apply (same_id rows u v) in Eu as ->; [|done..]. exists v'. split; [by apply (replace_in rows v); [..|left]|].
        split; try done. intros Hvd. by apply (amend_voided v input v').
      * exists u. split; [|apply preserved_refl]. by apply (replace_in rows v); [..|right].
Qed.

(** C36. Whatever happens to a lineage from well-formed rows (drafts written, changed and discarded, drafts sealed by
    [sealWrites], sealed rows updated as far as [onlyShortens] and [voidOnce] admits), no two standing sealed versions ever
    share a day, and a sealed row is never lost: it keeps its seal and its first day, never gains a day, and a void and its
    reason stay. *)
Theorem lineage_safe (rows rows' : list Lineage) (Hwf : wf_lineage rows) (Hr : rtc step rows rows') :
  wf_lineage rows' /\ forall v, v ∈ rows -> sealed_at v <> None -> exists v', v' ∈ rows' /\ preserved v v'.
Proof.
  revert Hwf. induction Hr as [rows|rows mid rows' Hs Hr IH]; intros Hwf.
  - split; [done|]. intros v Hv _. exists v. split; [done|apply preserved_refl].
  - destruct (step_preserves rows mid Hwf Hs) as [Hm Pm]. destruct (IH Hm) as [Hw Pw]. split; [done|].
    intros v Hv Sv. destruct (Pm v Hv Sv) as (u & Hu & Pu). destruct (Pw u Hu) as (w & Hw' & Pw'); [by rewrite (pr_sealed _ _ Pu)|].
    exists w. split; [done|by apply (preserved_trans v u)].
Qed.


Lemma get_strip ks row k : get (strip ks row) k = if includes ks k then None else get row k.
Proof. unfold strip. rewrite (get_filter_key (fun k => negb (includes ks k))). by destruct (includes ks k). Qed.

(** The successor draft of a version needs a calendar day to start on; it holds the rows of every relation given as
    explicit creates without their identity, starts on that day and is open, is neither sealed nor voided, has no identity
    or revision of its own, and carries every other field of the version. *)
Theorem cloneNext_correct (version : dict Val) (day : string) (children : dict (list (dict Val))) (Hc : wf_dict children) :
  is_ok (cloneNext version day children) = isPlainDate day /\
  forall out, cloneNext version day children = Ok out -> forall k, get out k =
    match get children k with
    | Some rows => Some (VObj [("create", VArr (map (fun r => VObj (strip ["id"; "revision"] r)) rows))])%string
    | None =>
        if String.eqb k "period" then Some (period_val (Period day None))
        else if includes CARRIED k then None else get version k
    end.
Proof.
  unfold cloneNext, PlainDate. destruct (isPlainDate day); [|done]. cbn [mbind outcome_bind is_ok]. split; [done|].
  intros out [= <-] k. rewrite (get_fold_set (fun rows => VObj [("create", VArr (map (fun r => VObj (strip ["id"; "revision"] r)) rows))]%string)) by done.
  destruct (get children k); [done|]. destruct (String.eqb k "period") eqn:E.
  - apply String.eqb_eq in E as ->. by rewrite get_set_eq.
  - apply String.eqb_neq in E. by rewrite get_set_ne, get_strip by done.
Qed.

(** ** A lineage of rates. *)
Module Sample.
Definition january : Lineage := MkLineage "a" (Period "2026-01-01" None) (Some "2025-12-01T00:00:00.000Z"%string) None None [("rate", VStr "10")]%string.
Definition july : Lineage := MkLineage "c" (Period "2026-07-01" None) (Some "2025-12-02T00:00:00.000Z"%string) None None [].
Definition january_to_june : Lineage := MkLineage "a" (Period "2026-01-01" (Some "2026-06-30"%string)) (Some "2025-12-01T00:00:00.000Z"%string) None None [("rate", VStr "10")]%string.
Definition draft : Lineage := MkLineage "b" (Period "2026-03-01" None) None None None [].
Definition rows : list Lineage := [january_to_june; draft; july].
Definition voiding : Input := [("voided_at", VStr "2026-02-01T00:00:00.000Z"); ("void_reason", VStr "mistyped");
  ("period", VObj [("from", VStr "2026-01-01"); ("to", VStr "2026-05-31")]); ("rate", VStr "10")]%string.
Definition voided : Lineage := MkLineage "a" (Period "2026-01-01" (Some "2026-05-31"%string)) (Some "2025-12-01T00:00:00.000Z"%string)
  (Some "2026-02-01T00:00:00.000Z"%string) (Some "mistyped"%string) [("rate", VStr "10")]%string.

Lemma rows_wf : wf_lineage rows.
Proof.
  split.
  - by apply (bool_decide_unpack _), I.
  - repeat apply Forall_cons_2; [| | |apply Forall_nil_2]; split; try split; try done; by apply Z.leb_le.
  - intros v w n Hv Hw Lv Lw Cv Cw. unfold rows in Hv, Hw. rewrite !elem_of_cons, elem_of_nil in Hv, Hw. unfold covers, in_days in *.
    destruct Hv as [->|[->|[->|[]]]], Hw as [->|[->|[->|[]]]]; try done; exfalso; clear Lv Lw; cbn [period january_to_june draft july from to] in *;
      repeat match goal with H : context [toDays ?s] |- _ => let x := eval vm_compute in (toDays s) in change (toDays s) with x in H end; lia.
Qed.

Lemma sealed_writes :
  sealWrites draft (sealed_rows rows) "2026-02-10T00:00:00.000Z" =
  Ok [MkWrite "a" (Period "2026-01-01" (Some "2026-02-28"%string)) None;
      MkWrite "b" (Period "2026-03-01" (Some "2026-06-30"%string)) (Some "2026-02-10T00:00:00.000Z"%string)].
Proof. by vm_compute. Qed.
End Sample.

Lemma sealWrites_correct_witness :
  exists ws, sealWrites Sample.draft (sealed_rows Sample.rows) "2026-02-10T00:00:00.000Z" = Ok ws /\
    wf_lineage (map (applied ws) Sample.rows).
Proof.
  eexists. split; [apply Sample.sealed_writes|].
  apply (sealWrites_correct Sample.rows Sample.draft "2026-02-10T00:00:00.000Z" Sample.rows_wf); [by right; left|apply Sample.sealed_writes].
Defined.

Lemma updates_voiding : updates Sample.january_to_june Sample.voiding Sample.voided.
Proof.
  split; intros k; unfold Sample.voiding; cbn [get]; repeat (case_match; [intros *; try done; intros [= <-]; repeat match goal with E : String.eqb _ k = true |- _ => apply String.eqb_eq in E as <- end; by vm_compute|]); try done.
  intros _. unfold field_of. cbn. rewrite !(String.eqb_sym k). 
  repeat match goal with E : String.eqb _ k = false |- _ => rewrite E; clear E end. done.
Qed.

Lemma amend_correct_witness :
  onlyShortens Sample.january_to_june Sample.voiding = None /\ sealed_at Sample.voided = sealed_at Sample.january_to_june.
Proof.
  split; [by vm_compute|].
  refine (proj1 (proj2 (amend_correct Sample.january_to_june Sample.voiding Sample.voided _ _ updates_voiding))).
  - split; [by apply (row_wf Sample.rows); [apply Sample.rows_wf|left]|]. split; [done|]. split; [done|]. by apply Z.leb_le.
  - by vm_compute.
Defined.

Lemma lineage_safe_witness : exists rows', rtc step Sample.rows rows' /\ wf_lineage rows'.
Proof.
  assert (rtc step Sample.rows (map (applied
    [MkWrite "a" (Period "2026-01-01" (Some "2026-02-28"%string)) None;
     MkWrite "b" (Period "2026-03-01" (Some "2026-06-30"%string)) (Some "2026-02-10T00:00:00.000Z"%string)]) Sample.rows)) as H.
  { apply rtc_once, (StepSeal _ Sample.draft "2026-02-10T00:00:00.000Z"); [by right; left|apply Sample.sealed_writes]. }
  eexists. split; [exact H|]. exact (proj1 (lineage_safe Sample.rows _ Sample.rows_wf H)).
Defined.

Lemma cloneNext_correct_witness :
  exists out, cloneNext [("id", VStr "a"); ("rate", VStr "10")]%string "2026-07-01" [("lines", [[("id", VStr "l"); ("day", VNum 1%Q)]])]%string = Ok out /\
    get out "rate" = Some (VStr "10").
Proof.
  eexists. split; [by vm_compute|].
  rewrite (proj2 (cloneNext_correct [("id", VStr "a"); ("rate", VStr "10")]%string "2026-07-01"
    [("lines", [[("id", VStr "l"); ("day", VNum 1%Q)]])]%string (NoDup_singleton "lines"%string)) _ eq_refl). by vm_compute.
Defined.

End Versioned.
