(* ===== verification/History.v ===== *)
(** A record's history: [packages/bolt/src/engine/query/history-schema.ts] and [history.ts], the revision writer
    ([historyPiece] of [engine/write/commit.ts], which [engine/schema/audit-sql.ts] repeats in a trigger) and the pruning of
    old revisions. [Schemas] reads the columns of a revision as values of stable field identities, [Fold] rebuilds the record
    from its revisions and shows it to a reader, [Recorder] writes revisions, [Prune] drops the oldest. *)
From S2P Require Import Prelude Decimal Ir Catalog Hash Eval.
From Stdlib Require Import Qround.

(** ** The fields of a schema version. *)
Module Schemas.

(** A field kind as it is stored with a version: its JSON object. *)
Definition FieldSpec := dict Json.
Definition text_member (s : FieldSpec) (k : string) : option string := match get s k with Some (JString t) => Some t | _ => None end.
Definition int_member (s : FieldSpec) (k : string) : option Z := match get s k with Some (JNumber q) => Some (Qfloor q) | _ => None end.
Definition true_member (s : FieldSpec) (k : string) : bool := match get s k with Some (JBool true) => true | _ => false end.
Definition kind (s : FieldSpec) : string := default EmptyString (text_member s "kind").

Record HistorySchema := MkSchema {
  hs_id : string; lineage : string; hs_model : string; def_fields : dict FieldSpec; def_computed : dict FieldSpec;
  hs_fields : dict string; hs_current : bool }.
Record HistoricalValue := MkValue { hv_version : option HistorySchema; hv_field : string; hv_value : Json }.
Definition SYSTEM_HISTORY_FIELDS : list string := SYSTEM_COLUMNS.

Definition computed_kind (spec : FieldSpec) : FieldSpec :=
  if String.eqb (kind spec) "decimal"
  then [("kind", JString "decimal"); ("scale", match get spec "scale" with Some JNull | None => JNumber 2%Q | Some n => n end)]%string
  else [("kind", JString (kind spec))]%string.
Definition historyKinds (version : HistorySchema) : dict FieldSpec :=
  spread (def_fields version) (map (fun ns => (fst ns, computed_kind (snd ns))) (def_computed version)).

Section Values.
(** [String(n)] of a number; [new Date(text)] as ISO text, [None] when it is invalid; [JSON.parse], [None] when it throws. *)
Context (number_text : number -> string) (isoDate : string -> option string) (parseJson : string -> option Json).

Definition DECIMALS : list string := ["decimal"; "money"; "sum"]%string.
(** [String(v)] of a number or text. *)
Definition scalar_text (v : Json) : option string :=
  match v with JString s => Some s | JNumber n => Some (number_text n) | _ => None end.
(** [Number(text)] as JSON keeps it. *)
Definition number_json (s : string) : Json := match to_number s with JsNum n => JNumber n | _ => JNull end.
Definition point_char (c : ascii) : bool := is_digit c || has_char (Ascii.eqb c) "-+.eE".
(** [/^\(([-+.\deE]+),([-+.\deE]+)\)$/]. *)
Definition POINT (s : string) : option (string * string) :=
  match s with
  | String c rest =>
      if Ascii.eqb c "(" then
        match span point_char rest with
        | (String _ _ as a, String comma rest') =>
            if Ascii.eqb comma "," then
              match span point_char rest' with
              | (String _ _ as b, String close EmptyString) => if Ascii.eqb close ")" then Some (a, b) else None
              | _ => None
              end
            else None
        | _ => None
        end
      else None
  | EmptyString => None
  end.

Definition historicalValue (kind_ : option FieldSpec) (value : Json) : Json :=
  match value, kind_ with
  | JNull, _ | _, None => value
  | _, Some k =>
      match (if includes DECIMALS (kind k) then scalar_text value else None), value with
      | Some t, _ => JObject [("$dec", JString t)]%string
      | None, JString s =>
          if String.eqb (kind k) "instant" then JString (default s (isoDate s))
          else
            match (if String.eqb (kind k) "point" then POINT s else None) with
            | Some (lng_, lat_) => JObject [("lng", number_json lng_); ("lat", number_json lat_)]%string
            | None => if String.eqb (kind k) "vector" then default value (parseJson s) else value
            end
      | None, _ => value
      end
  end.

(** The targets of a reference with a list of them. *)
Definition ref_targets (k : FieldSpec) : option (list string) :=
  if String.eqb (kind k) "ref"
  then match get k "to" with Some (JArray l) => Some (omap (fun t => match t with JString s => Some s | _ => None end) l) | _ => None end
  else None.
Definition identity_of (version : option HistorySchema) (name : string) : string :=
  default ("legacy:" +:+ name) (v ← version; get (hs_fields v) name).

(** The value of a polymorphic reference, from the arms a change holds; [None] when it holds none. *)
Definition arms_value (name : string) (targets : list string) (changes : dict Json) : option (list string * Json) :=
  match List.filter (fun t => has_own changes (arm_column name t)) targets with
  | [] => None
  | present =>
      Some (map (arm_column name) present,
            match List.find (fun t => match get changes (arm_column name t) with Some JNull => false | _ => true end) present with
            | None => JNull
            | Some t => JObject [("model", JString t); ("id", default JNull (get changes (arm_column name t)))]%string
            end)
  end.
(** The columns a field is read from and its value, if the change holds it. *)
Definition field_change (changes : dict Json) (name : string) (k : FieldSpec) : option (list string * Json) :=
  match ref_targets k with
  | Some ((_ :: _ :: _) as targets) =>
      match arms_value name targets changes with Some (used, value) => Some (used ++ [name], value) | None => None end
  | Some [t] =>
      match get changes name with
      | Some (JString s) => Some ([name], JObject [("model", JString t); ("id", JString s)]%string)
      | v => option_map (fun v => ([name], v)) v
      end
  | _ => option_map (fun v => ([name], v)) (get changes name)
  end.

(** One field of the version, and one column no field was read from. *)
Definition read_field (version : option HistorySchema) (changes : dict Json) (acc : dict HistoricalValue * list string)
  (nk : string * FieldSpec) : dict HistoricalValue * list string :=
  match field_change changes (fst nk) (snd nk) with
  | None => acc
  | Some (used, value) =>
      (set (fst acc) (identity_of version (fst nk)) (MkValue version (fst nk) (historicalValue (Some (snd nk)) value)), snd acc ++ used)
  end.
Definition read_rest (version : option HistorySchema) (consumed : list string) (out : dict HistoricalValue) (nv : string * Json)
  : dict HistoricalValue :=
  if includes consumed (fst nv) then out else set out ("legacy:" +:+ fst nv) (MkValue version (fst nv) (snd nv)).
Definition historyChanges (version : option HistorySchema) (changes : dict Json) : dict HistoricalValue :=
  let kinds := match version with Some v => historyKinds v | None => [] end in
  let '(vals, consumed) := fold_left (read_field version changes) kinds ([], []) in
  fold_left (read_rest version consumed) changes vals.

(** ** Values under another kind. *)
Definition NUMERIC : list string := ["int"; "number"; "decimal"; "money"; "sum"; "count"; "duration"]%string.
(** [/^-?\d+(\.\d+)?$/]: the whole digits with their sign, and the fraction's. *)
Definition PLAIN (s : string) : option (string * option string) :=
  let '(sign, rest) := match s with String c r => if Ascii.eqb c "-" then ("-"%string, r) else (EmptyString, s) | _ => (EmptyString, s) end in
  match span is_digit rest with
  | (EmptyString, _) => None
  | (w, EmptyString) => Some (sign +:+ w, None)
  | (w, String c f) => if Ascii.eqb c "." && negb (String.eqb f "") && all_chars is_digit f then Some (sign +:+ w, Some f) else None
  end.
(** [replace(/0+$/, '').length]. *)
Fixpoint significant (s : string) : Z :=
  match s with
  | EmptyString => 0
  | String c s' => if all_chars (Ascii.eqb "0") s then 0 else 1 + significant s'
  end.
Definition canonical_of (v : option Json) : option string := option_map (canonical number_text) v.
Definition spec_text (k : option FieldSpec) : option string := canonical_of (option_map JObject k).
Definition scale_of (after : FieldSpec) : option Z :=
  if String.eqb (kind after) "decimal" then int_member after "scale"
  else if String.eqb (kind after) "money" then
    match int_member after "scale" with
    | Some s => Some s
    | None =>
        match text_member after "currency" with
        | Some c => if (slength c =? 3) && all_chars Decimal.is_upper c then Some (Decimal.minorDigits c) else None
        | None => None
        end
    end
  else None.
(** The smallest magnitude with more than [exponent] whole digits. *)
Definition precision_limit (exponent : Z) : string :=
  if exponent >=? 0 then "1" +:+ repeat_char (Z.to_nat exponent) "0"
  else "0." +:+ repeat_char (Z.to_nat (- exponent - 1)) "0" +:+ "1".
Definition exceeds (text : string) (exponent : Z) : bool :=
  match Decimal.of_text text with
  | Ok d => match Decimal.gte (Decimal.abs d) (Decimal.LText (precision_limit exponent)) with Ok b => b | Throw _ => true end
  | Throw _ => true
  end.
Definition INT32 (n : Z) : bool := (-2147483648 <=? n) && (n <=? 2147483647).

(** A scalar under a decimal kind, under another numeric kind. *)
Definition to_decimal (before : option FieldSpec) (after : FieldSpec) (text : string) : option Json :=
  match PLAIN text with
  | None => None
  | Some (_, frac) =>
      let sameKind := bool_decide (spec_text before = spec_text (Some after)) in
      if negb sameKind && match scale_of after with Some s => s <? significant (default EmptyString frac) | None => false end then None
      else if negb sameKind && String.eqb (kind after) "decimal"
              && match int_member after "precision", int_member after "scale" with
                 | Some p, Some s => exceeds text (p - s)
                 | _, _ => false
                 end then None
      else Some (JObject [("$dec", JString text)]%string)
  end.
Definition to_numeric (after : FieldSpec) (text : string) : option Json :=
  match PLAIN text, to_number text with
  | Some (_, frac), JsNum n =>
      let whole := Qeq_bool n (inject_Z (Qfloor n)) in
      let safe := whole && is_safe_integer (Qfloor n) in
      let isNumber := String.eqb (kind after) "number" in
      if negb isNumber && negb safe then None
      else if whole && negb safe then None
      else if ((String.eqb (kind after) "int" && negb (bool_decide (text_member after "storage" = Some "int64"%string)))
               || String.eqb (kind after) "duration" || String.eqb (kind after) "count") && negb (INT32 (Qfloor n)) then None
      else if negb isNumber && negb (all_chars (Ascii.eqb "0") (default EmptyString frac)) then None
      else Some (JNumber n)
  | _, _ => None
  end.

(** [decodeInput] under a field kind and [encodeWire] of its answer, codecs of the Effect schema library: the wire value the
    kind admits. *)
Context (admits : FieldSpec -> Json -> option Json).

Definition ref_value (before after : FieldSpec) (value : Json) : option Json :=
  let member k := match value with JObject o => get o k | _ => None end in
  let target := match get before "to" with Some (JString t) => Some (JString t) | _ => member "model"%string end in
  let id := match value with JString s => Some (JString s) | _ => member "id"%string end in
  match target, id with
  | Some (JString t), Some (JString i) =>
      match get after "to" with
      | Some (JString t') => if String.eqb t t' then Some (JString i) else None
      | Some (JArray l) => if existsb (json_is (JString t)) l then Some (JObject [("model", JString t); ("id", JString i)]%string) else None
      | _ => None
      end
  | _, _ => None
  end.
Definition unwrap_dec (value : Json) : Json :=
  match value with JObject o => match get o "$dec" with Some (JString t) => JString t | _ => value end | _ => value end.
(** [String(v)]. *)
Fixpoint js_string (v : Json) : string :=
  match v with
  | JNull => "null"
  | JBool b => if b then "true" else "false"
  | JNumber n => number_text n
  | JString s => s
  | JArray l => join "," (map (fun x => match x with JNull => EmptyString | _ => js_string x end) l)
  | JObject _ => "[object Object]"
  end.
(** A historical value shown as text. *)
Definition shown_text (value : Json) : Json :=
  match unwrap_dec value with JNull => JNull | v => JString (js_string v) end.
Definition is_null (v : Json) : bool := match v with JNull => true | _ => false end.
Definition before_is (before : option FieldSpec) (k : string) : bool := match before with Some b => String.eqb (kind b) k | None => false end.

Definition compatibleHistoryValue (value : Json) (before : option FieldSpec) (after : FieldSpec) : option Json :=
  let was k := before_is before k in
  if was "custom"%string
     && negb (String.eqb (kind after) "custom" && bool_decide ((b ← before; text_member b "of") = text_member after "of")) then None
  else if was "money"%string && String.eqb (kind after) "money"
     && negb (bool_decide (canonical_of (b ← before; get b "currency") = canonical_of (get after "currency"))) then None
  else
    converted ←
      (if negb (is_null value) && was "ref"%string then
         (if String.eqb (kind after) "ref" then b ← before; ref_value b after value else None)
       else if String.eqb (kind after) "ref" && negb (is_null value) then None
       else if negb (is_null value) && includes NUMERIC (kind after) then
         let scalar := unwrap_dec value in
         if includes DECIMALS (kind after) then t ← scalar_text scalar; to_decimal before after t
         else if String.eqb (kind after) "number" && match scalar with JNumber _ => true | _ => false end then Some scalar
         else t ← scalar_text scalar; to_numeric after t
       else if String.eqb (kind after) "text" && negb (true_member after "many")
               && match before with Some b => includes NUMERIC (kind b) | None => false end then Some (shown_text value)
       else Some value);
    admits after converted.

(** The physical columns of a value. *)
Definition member_text (value : Json) (k : string) : string :=
  match value with JObject o => match get o k with Some v => js_string v | None => "undefined" end | _ => "undefined" end.
Definition quoted (s : string) : string := String QUOTE (s +:+ String QUOTE EmptyString).
Definition id_member (value : Json) : Json := match value with JObject o => default JNull (get o "id") | v => v end.
Definition historyColumns (kind_ : option FieldSpec) (field : string) (value : Json) : dict Json :=
  match (k ← kind_; ref_targets k) with
  | Some [t] => [(field, id_member value)]
  | Some ((_ :: _ :: _) as targets) =>
      map (fun t => (arm_column field t,
                     match value with
                     | JObject o => if match get o "model" with Some m => json_is m (JString t) | None => false end then default JNull (get o "id") else JNull
                     | _ => JNull
                     end)) targets
  | _ =>
      match value, kind_ with
      | JObject o, Some k =>
          if String.eqb (kind k) "point" then [(field, JString ("(" +:+ member_text value "lng" +:+ "," +:+ member_text value "lat" +:+ ")"))]
          else if String.eqb (kind k) "period" then
            if bool_decide (text_member k "of" = Some "date"%string)
            then [(field, JString ("[" +:+ member_text value "from" +:+ ","
                                    +:+ match get o "to" with Some JNull | None => EmptyString | _ => member_text value "to" end +:+ "]"))]
            else [(field, JString ("[" +:+ quoted (member_text value "start") +:+ ","
                                    +:+ match get o "end" with Some JNull => EmptyString | _ => quoted (member_text value "end") end +:+ ")"))]
          else [(field, unwrap_dec value)]
      | _, _ => [(field, unwrap_dec value)]
      end
  end.
End Values.
End Schemas.

(** ** The fold of a record's revisions. *)
Module Fold.
Import Schemas.

Record HistoryRow := MkRow {
  revision : Z; at_ : option string; actor : option string; op : string; cause : string; restored_from : option Z;
  meta : dict Json; changes : dict Json; request : option string; request_state : option string }.
Definition State := dict HistoricalValue.

Section Fold.
Context (number_text : number -> string) (isoDate : string -> option string) (parseJson : string -> option Json).
Context (versions : list HistorySchema).

(** [byId.get(id)], keyed by a primary key. *)
Definition version_by (id : string) : option HistorySchema := List.find (fun v => String.eqb (hs_id v) id) versions.
Definition version_of (row : HistoryRow) : option HistorySchema :=
  match get (meta row) "schema" with Some (JString id) => version_by id | _ => None end.
Definition full (row : HistoryRow) : bool := match get (meta row) "full" with Some (JBool true) => true | _ => false end.
(** Whether a revision holds the whole record, whatever was before. *)
Definition resets (row : HistoryRow) : bool := String.eqb (op row) "create" || String.eqb (cause row) "erased" || full row.
Definition row_changes (row : HistoryRow) : dict HistoricalValue :=
  historyChanges number_text isoDate parseJson (version_of row) (changes row).
Definition system_key (field : string) : string := "legacy:" +:+ field.
(** The system fields a revision's metadata carries. *)
Definition set_system (version : option HistorySchema) (m : dict Json) (state : State) : State :=
  fold_left (fun s field => match get m field with Some value => set s (system_key field) (MkValue version field value) | None => s end)
    SYSTEM_HISTORY_FIELDS state.
Definition fold_row (state : State) (row : HistoryRow) : State :=
  let state := if resets row then [] else state in
  let state := set_system (version_of row) (meta row) (spread state (row_changes row)) in
  if String.eqb (op row) "delete" then [] else state.
Definition fold_rows (rows : list HistoryRow) : State := fold_left fold_row rows [].

(** *** What a reader is shown. *)
Record Viewer := MkViewer {
  as_workspace : bool; admin : bool; default_output : bool; exposure : ExposureInfo; current : option HistorySchema }.
Context (viewer : Viewer) (admits : FieldSpec -> Json -> option Json).

Definition currentKinds : dict FieldSpec := match current viewer with Some v => historyKinds v | None => [] end.
(** The field of the current version with an identity: the last entry of a [Map] built from its fields. *)
Definition current_field (identity : string) : option string :=
  match current viewer with
  | Some v => option_map fst (List.find (fun nf => String.eqb (snd nf) identity) (rev (hs_fields v)))
  | None => None
  end.
Definition is_legacy (identity : string) : bool := String.prefix "legacy:" identity.
(** The field that now has an identity; an unversioned one is known by its name. *)
Definition field_now (identity : string) (stored : HistoricalValue) : option string :=
  match current_field identity with
  | Some f => Some f
  | None => if is_legacy identity then Some (hv_field stored) else None
  end.
Definition canSeeRemoved : bool :=
  as_workspace viewer || (admin viewer && default_output viewer && negb (is_some (e_fields (exposure viewer)))).
Definition visibleField (identity : string) (stored : HistoricalValue) : bool :=
  if as_workspace viewer || includes SYSTEM_HISTORY_FIELDS (hv_field stored) then true
  else
    match field_now identity stored with
    | Some f => exposedField (exposure viewer) f
    | None =>
        canSeeRemoved &&
        match hv_version stored with
        | None => true
        | Some v => negb (match get (historyKinds v) (hv_field stored) with Some k => true_member k "hidden" | None => false end)
        end
    end.

Definition kind_then (stored : HistoricalValue) : option FieldSpec := v ← hv_version stored; get (historyKinds v) (hv_field stored).
(** The value under the current kind of its field. *)
Definition convert_now (identity : string) (stored : HistoricalValue) (before : option FieldSpec) : option (string * Json) :=
  field ← field_now identity stored;
  after ← get currentKinds field;
  converted ← compatibleHistoryValue number_text admits (hv_value stored) before after;
  Some (field, converted).

Record Revision := MkRevision {
  rv_revision : Z; rv_at : option string; rv_cause : string; rv_restoredFrom : option Z;
  rv_approval : option (string * option string); rv_changed : dict Json; rv_schemaVersion : option string; rv_legacy : bool;
  rv_uncompatible : list string; rv_actor : option (string * string) }.

(** A pair of texts around the first colon. *)
Definition actor_parts (s : string) : option (string * string) :=
  match span (fun c => negb (Ascii.eqb c ":")) s with
  | (kind_, String _ id) => Some (kind_, id)
  | _ => None
  end.
Definition true_meta (row : HistoryRow) (k : string) : bool := match get (meta row) k with Some (JBool true) => true | _ => false end.
Definition from_entries (l : list (string * Json)) : dict Json := fold_left (fun o kv => set o (fst kv) (snd kv)) l [].
Definition changed_values (previous : State) (row : HistoryRow) : list (string * HistoricalValue) :=
  List.filter (fun iv =>
    visibleField (fst iv) (snd iv) &&
    (negb (full row) ||
     negb (bool_decide (canonical_of number_text (option_map hv_value (get previous (fst iv))) = canonical_of number_text (Some (hv_value (snd iv)))))))
    (row_changes row).
Definition uncompatible_fields (row : HistoryRow) : list string :=
  omap (fun iv : string * HistoricalValue =>
    if negb (visibleField (fst iv) (snd iv)) || includes SYSTEM_HISTORY_FIELDS (hv_field (snd iv)) then None
    else match convert_now (fst iv) (snd iv) (kind_then (snd iv)) with None => Some (hv_field (snd iv)) | Some _ => None end)
    (row_changes row).
Definition revision_of (previous : State) (row : HistoryRow) : Revision :=
  MkRevision (revision row) (at_ row) (cause row) (restored_from row)
    (option_map (fun r => (r, request_state row)) (request row))
    (from_entries (map (fun iv => (hv_field (snd iv), hv_value (snd iv))) (changed_values previous row)))
    (option_map hs_id (version_of row)) (true_meta row "legacy" || negb (is_some (version_of row)))
    (uncompatible_fields row) (a ← actor row; actor_parts a).
Fixpoint revisions_from (state : State) (rows : list HistoryRow) : list Revision :=
  match rows with
  | [] => []
  | row :: rows' => revision_of state row :: revisions_from (fold_row state row) rows'
  end.

(** *** The record at the last revision. *)
Record View := MkView { vw_values : dict Json; vw_fields : dict FieldSpec; vw_compatible : dict Json; vw_uncompatible : list string }.
Definition original_field (definition : option HistorySchema) (identity : string) (stored : HistoricalValue) : option string :=
  match definition with
  | None => Some (hv_field stored)
  | Some d =>
      match List.find (fun nf => String.eqb (snd nf) identity) (hs_fields d) with
      | Some nf => Some (fst nf)
      | None => if is_legacy identity then Some (hv_field stored) else None
      end
  end.
Definition view_value (definition : option HistorySchema) (v : View) (iv : string * HistoricalValue) : View :=
  let '(identity, stored) := iv in
  if negb (visibleField identity stored) then v
  else
    match original_field definition identity stored with
    | None => v
    | Some original =>
        let values := set (vw_values v) original (hv_value stored) in
        let oldKind := match (d ← definition; get (historyKinds d) original) with Some k => Some k | None => kind_then stored end in
        let fields := match oldKind with Some k => set (vw_fields v) original k | None => vw_fields v end in
        if includes SYSTEM_HISTORY_FIELDS original
        then MkView values fields (set (vw_compatible v) original (hv_value stored)) (vw_uncompatible v)
        else
          match convert_now identity stored oldKind with
          | Some (field, converted) => MkView values fields (set (vw_compatible v) field converted) (vw_uncompatible v)
          | None => MkView values fields (vw_compatible v) (vw_uncompatible v ++ [original])
          end
    end.

(** [at], [full] and [view] of the read. *)
Inductive At := AtInstant (i : string) | AtRevision (r : Z) | AtBefore (before : string).
Record HistoryRead := MkHistoryRead { rd_model : string; rd_id : string; rd_at : option At; rd_full : bool; rd_view : bool }.
Inductive Answer :=
| Revisions (l : list Revision)
| Nothing
| Compatible (values : dict Json)
| Viewed (model record : string) (rev : Z) (at__ : option string) (schemaVersion : option string) (legacy : bool) (v : View).

Definition is_hex (c : ascii) : bool :=
  let n := N_of_ascii c in is_digit c || ((97 <=? n)%N && (n <=? 102)%N) || ((65 <=? n)%N && (n <=? 70)%N).
(** [/^[0-9a-f]{8}-[0-9a-f]{4}-[0-9a-f]{4}-[0-9a-f]{4}-[0-9a-f]{12}$/i]. *)
Definition UUID (s : string) : bool :=
  match map (fun p => (String.length p, all_chars is_hex p)) (split_char "-" s) with
  | [(8, true); (4, true); (4, true); (4, true); (12, true)]%nat => true
  | _ => false
  end.
(** What the caller may see: the record exists and is in the history scope, or is gone and a grant of the output has no
    condition. [granted] are the grant's conditions, [exists_] and [inScope] the answers of the two scope statements. *)
Definition isTrue (p : Pred) : bool := match p with PConst true => true | _ => false end.
Definition may_read (granted : option (list Pred)) (exists_ inScope : bool) : bool :=
  match granted with Some arms => if exists_ then inScope else existsb isTrue arms | None => false end.

Definition readHistory (read : HistoryRead) (granted : option (list Pred)) (exists_ inScope : bool) (rows : list HistoryRow) : Answer :=
  let whole := rd_full read || rd_view read in
  let nothing := if whole then Nothing else Revisions [] in
  if negb (UUID (rd_id read)) then nothing
  else if negb (as_workspace viewer || admin viewer) && negb (may_read granted exists_ inScope) then nothing
  else if negb whole then Revisions (revisions_from [] rows)
  else
    match last rows, fold_rows rows with
    | None, _ | _, [] => Nothing
    | Some row, state =>
        if rd_view read && match rd_at read with Some (AtRevision r) => negb (revision row =? r) | _ => false end then Nothing
        else
          let identity := [("id", JString (rd_id read)); ("revision", JNumber (inject_Z (revision row)))]%string in
          let v := fold_left (view_value (version_of row)) state (MkView identity [] identity []) in
          if rd_view read
          then Viewed (rd_model read) (rd_id read) (revision row) (at_ row) (option_map hs_id (version_of row))
                 (true_meta row "legacy" || negb (is_some (version_of row))) v
          else Compatible (vw_compatible v)
    end.
End Fold.
End Fold.

(** ** The writer of revisions. *)
Module Recorder.
Import Schemas Fold.

Definition UNHISTORIED : list string := ["bolt_search"; "bolt_embedding"; "bolt_record_label"]%string.
(** A row image: the [to_jsonb] of a row, one member per column. *)
Definition Image := dict Json.
(** A changed row of a statement: its operation, and its images before and after. *)
Record Change := MkChange {
  x_op : string; x_cause : string; x_erased : bool; x_revision : Z; x_old : option Image; x_new : option Image;
  x_at : string; x_actor : string; x_id : string; x_restored : option Z; x_request : option string }.

Section Recorder.
(** jsonb equality; PostgreSQL's text of a jsonb number, and the ends of a range's text. *)
Context (jsonb_eq : Json -> Json -> bool) (pg_number : number -> string) (pg_range : bool -> string -> option Json).

(** [j - array[...]]. *)
Definition minus_keys (ks : list string) (j : Image) : Image := List.filter (fun kv => negb (includes ks (fst kv))) j.
(** [j -> k], a missing member as SQL null, which [jsonb_build_object] writes as JSON null. *)
Definition arrow (j : Image) (k : string) : Json := default JNull (get j k).
(** [j ->> k = 'true']. *)
Definition arrow_true (j : Image) (k : string) : bool :=
  match get j k with Some (JBool b) => b | Some (JString s) => String.eqb s "true" | _ => false end.
Definition arrow_schema (j : Image) : option string := match get j "schema" with Some (JString s) => Some s | _ => None end.

(** Whether a revision must hold the whole row: an update with no earlier revision under the current schema version. *)
Definition full_of (history : list HistoryRow) (current : option string) (op_ : string) : bool :=
  String.eqb op_ "update" &&
  match current with
  | None => false
  | Some s => negb (existsb (fun h => bool_decide (arrow_schema (meta h) = Some s) && negb (arrow_true (meta h) "legacy")) history)
  end.
Definition changes_of (x : Change) (full_ : bool) : Image :=
  match x_new x with
  | Some n =>
      if String.eqb (x_op x) "create" || (x_erased x && String.eqb (x_op x) "update") || full_ then minus_keys UNHISTORIED n
      else if String.eqb (x_op x) "delete" then []
      else List.filter (fun kv =>
             negb (includes ["revision"; "updated_at"; "updated_by"]%string (fst kv)) && negb (includes UNHISTORIED (fst kv)) &&
             match (o ← x_old x; get o (fst kv)) with Some v => negb (jsonb_eq v (snd kv)) | None => true end) n
  | None => []
  end.
Definition meta_of (x : Change) (current : option string) (full_ : bool) : dict Json :=
  let row := match x_new x with Some n => n | None => default [] (x_old x) end in
  [("id", JString (x_id x)); ("revision", arrow row "revision"); ("updated_at", arrow row "updated_at"); ("updated_by", arrow row "updated_by");
   ("created_at", arrow row "created_at"); ("created_by", arrow row "created_by");
   ("schema", match current with Some s => JString s | None => JNull end); ("full", JBool full_)]%string.
Definition historyPiece (history : list HistoryRow) (current : option string) (x : Change) : HistoryRow :=
  let full_ := full_of history current (x_op x) in
  let mark := String.eqb (x_cause x) "direct" && is_some (x_restored x) in
  MkRow (x_revision x) (Some (x_at x)) (Some (x_actor x)) (x_op x) (if mark then "restored"%string else x_cause x)
    (if mark then x_restored x else None) (meta_of x current full_) (changes_of x full_) (x_request x) None.

(** The value of a member of [changes] as the history read selects it: [field] and [computed] are the kinds its key has in
    the version's definition. *)
Definition delivered_value (field computed : option FieldSpec) (v : Json) : Json :=
  match v with
  | JNumber n =>
      match (match field with Some k => Some k | None => computed end) with
      | Some k => if includes DECIMALS (kind k) then JString (pg_number n) else v
      | None => v
      end
  | JString s =>
      match field with
      | Some k =>
          if String.eqb (kind k) "period" then default v (pg_range (bool_decide (text_member k "of" = Some "date"%string)) s) else v
      | None => v
      end
  | _ => v
  end.
Definition deliver (version : option HistorySchema) (j : Image) : dict Json :=
  map (fun kv => (fst kv, delivered_value (v ← version; get (def_fields v) (fst kv)) (v ← version; get (def_computed v) (fst kv)) (snd kv))) j.
Definition delivered (versions : list HistorySchema) (row : HistoryRow) : HistoryRow :=
  MkRow (revision row) (at_ row) (actor row) (op row) (cause row) (restored_from row) (meta row)
    (deliver (version_of versions row) (changes row)) (request row) (request_state row).
End Recorder.
End Recorder.

(** ** Dropping the oldest revisions. *)
Module Prune.
Import Schemas Fold Recorder.

Definition is_erased (h : HistoryRow) : bool := String.eqb (cause h) "erased".
Definition holds_all (h : HistoryRow) : bool := String.eqb (op h) "create" || is_erased h || arrow_true (meta h) "full".
(** The rows from the last one that holds the whole record ([since]). *)
Fixpoint since (rows : list HistoryRow) : option (list HistoryRow) :=
  match rows with
  | [] => None
  | h :: rows' => match since rows' with Some s => Some s | None => if holds_all h then Some (h :: rows') else None end
  end.
(** The last value of each member over the rows. *)
Definition aggregated (rows : list HistoryRow) : Image := fold_left (fun acc h => spread acc (changes h)) rows [].
(** [anchored]: the oldest kept revision, as a create of everything known at it. *)
Definition anchor (upto : list HistoryRow) (h : HistoryRow) : HistoryRow :=
  if String.eqb (op h) "update" then
    match since upto with
    | Some s => MkRow (revision h) (at_ h) (actor h) "create" (cause h) (restored_from h) (meta h) (aggregated s) (request h) (request_state h)
    | None => h
    end
  else h.
(** The kept rows with the first that is not erased anchored; [before] are the rows that precede them. *)
Fixpoint anchor_oldest (before kept : list HistoryRow) : list HistoryRow :=
  match kept with
  | [] => []
  | h :: kept' => if is_erased h then h :: anchor_oldest (before ++ [h]) kept' else anchor (before ++ [h]) h :: kept'
  end.
(** [pruneHistory] over one record's revisions, oldest first; [blocked] when an open approval holds the record or one of its
    revisions awaits its audit receipt. *)
Definition pruneHistory (keep : nat) (blocked : bool) (rows : list HistoryRow) : list HistoryRow :=
  let old := take (length rows - keep) rows in
  let kept := skipn (length rows - keep) rows in
  if blocked || forallb is_erased old then rows
  else List.filter is_erased old ++ anchor_oldest old kept.
End Prune.

(** ** Reading one revision. *)
Module Reading.
Import Schemas Fold.

(** The physical columns of a field. *)
Definition columns_of (nk : string * FieldSpec) : list string :=
  match ref_targets (snd nk) with
  | Some ((_ :: _ :: _) as targets) => map (arm_column (fst nk)) targets
  | _ => [fst nk]
  end.
Definition is_poly (k : FieldSpec) : bool := match ref_targets k with Some (_ :: _ :: _) => true | _ => false end.

(** A version as the registry writes it: fields have distinct identities, which no other column's name spells; the columns of
    a field are no other's and none is a system column. *)
Record wf_version (v : HistorySchema) : Prop := {
  wv_kinds : wf_dict (historyKinds v);
  wv_identities : forall a b, a ∈ keys (historyKinds v) -> b ∈ keys (historyKinds v) ->
    identity_of (Some v) a = identity_of (Some v) b -> a = b;
  wv_legacy : forall a x, a ∈ keys (historyKinds v) -> identity_of (Some v) a = "legacy:" +:+ x -> x = a;
  wv_system : forall nk x, nk ∈ historyKinds v -> x ∈ fst nk :: columns_of nk -> x ∉ SYSTEM_COLUMNS ++ Recorder.UNHISTORIED }.

Section Reading.
Context (number_text : number -> string) (isoDate : string -> option string) (parseJson : string -> option Json).
Variable (ver : HistorySchema).
Hypothesis (Hver : wf_version ver).
#[local] Abbreviation HC := (historyChanges number_text isoDate parseJson).
#[local] Abbreviation ident := (identity_of (Some ver)).

Lemma wf_spread {A} (a b : dict A) : wf_dict a -> wf_dict (spread a b).
Proof. unfold spread. revert a. induction b as [|kv b IH]; intros a Ha; cbn; [done|]. by apply IH, wf_set. Qed.

Lemma wf_fold_set {A B C} (f : C -> string * B -> C) (proj : C -> dict A) (l : list (string * B)) (c : C) :
  (forall c x, wf_dict (proj c) -> wf_dict (proj (f c x))) -> wf_dict (proj c) -> wf_dict (proj (fold_left f l c)).
Proof. intros Hf. revert c. induction l as [|x l IH]; intros c Hc; cbn; [done|]. by apply IH, Hf. Qed.

Lemma HC_wf v c : wf_dict (HC v c).
Proof.
  unfold historyChanges. destruct (fold_left _ _ ([], [])) as [vals consumed] eqn:E.
  assert (wf_dict vals) as Hv.
  { replace vals with (fst (vals, consumed)) by done. rewrite <- E.
    apply (wf_fold_set _ fst); [|by apply NoDup_nil_2]. intros [a u] nk Ha. unfold read_field.
    destruct (field_change _ _ _) as [[? ?]|]; [|done]. by apply wf_set. }
  apply (wf_fold_set _ (fun d => d)); [|done]. intros d nv Hd. unfold read_rest. destruct (includes _ _); [done|]. by apply wf_set.
Qed.

(** What a field's columns give, pointwise in the identity. *)
Definition owned (x : string) : bool := existsb (fun nk => includes (fst nk :: columns_of nk) x) (historyKinds ver).
Definition legacy_name (id : string) : option string := if String.prefix "legacy:" id then Some (drop 7 id) else None.
Definition value_of (n : string) (k : FieldSpec) (c : dict Json) : option HistoricalValue :=
  option_map (fun uv => MkValue (Some ver) n (historicalValue number_text isoDate parseJson (Some k) (snd uv))) (field_change c n k).
Definition read_at (c : dict Json) (id : string) : option HistoricalValue :=
  match List.find (fun nk => String.eqb (ident (fst nk)) id) (historyKinds ver) with
  | Some nk => value_of (fst nk) (snd nk) c
  | None => x ← legacy_name id; if owned x then None else option_map (MkValue (Some ver) x) (get c x)
  end.

Lemma fold_fields c l acc : NoDup (map (fun nk => ident (fst nk)) l) ->
  let r := fold_left (read_field number_text isoDate parseJson (Some ver) c) l acc in
  (forall id, get (fst r) id =
     match List.find (fun nk => String.eqb (ident (fst nk)) id) l with
     | Some nk => match value_of (fst nk) (snd nk) c with Some x => Some x | None => get (fst acc) id end
     | None => get (fst acc) id
     end) /\
  (forall x, x ∈ snd r <-> x ∈ snd acc \/ exists nk u v, nk ∈ l /\ field_change c (fst nk) (snd nk) = Some (u, v) /\ x ∈ u).
Proof.
  revert acc. induction l as [|[n k] l IH]; intros acc Hn; cbn [fold_left].
  - split; [done|]. intros x. split; [by left|]. intros [|(nk & u & v & H & _)]; [done|]. by apply elem_of_nil in H.
  - cbn [map fst] in Hn. apply NoDup_cons in Hn as [Hk Hn].
    destruct (IH (read_field number_text isoDate parseJson (Some ver) c acc (n, k)) Hn) as [I1 I2]. split.
    + intros id. rewrite I1. cbn [List.find fst snd]. destruct (String.eqb (ident n) id) eqn:E.
      * apply String.eqb_eq in E as <-.
        assert (List.find (fun nk => String.eqb (ident (fst nk)) (ident n)) l = None) as ->.
        { destruct (List.find _ l) as [[n' k']|] eqn:F; [|done]. apply find_some in F as [F1 F2]. exfalso. apply Hk.
          apply String.eqb_eq in F2. cbn [fst] in F2. rewrite <- F2. apply list_elem_of_In, in_map_iff. by exists (n', k'). }
        unfold read_field, value_of. cbn [fst snd]. destruct (field_change c n k) as [[u v]|]; cbn [option_map fst snd]; [|done].
        by rewrite get_set_eq.
      * assert (get (fst (read_field number_text isoDate parseJson (Some ver) c acc (n, k))) id = get (fst acc) id) as ->; [|done].
        unfold read_field. cbn [fst snd]. destruct (field_change c n k) as [[u v]|]; [|done]. cbn [fst].
        apply get_set_ne. by apply String.eqb_neq.
    + intros x. rewrite I2. unfold read_field. cbn [fst snd]. destruct (field_change c n k) as [[u v]|] eqn:F; cbn [snd].
      * rewrite elem_of_app. split.
        -- intros [[H|H]|(nk & u' & v' & H & F' & Hx)]; [by left| |right; exists nk, u', v'; split; [by right|done]].
           right. exists (n, k), u, v. split; [by left|done].
        -- intros [H|(nk & u' & v' & H & F' & Hx)]; [by left; left|]. apply elem_of_cons in H as [->|H].
           ++ cbn [fst snd] in F'. rewrite F in F'. injection F' as <- <-. left; by right.
           ++ right. by exists nk, u', v'.
      * split.
        -- intros [H|(nk & u' & v' & H & F' & Hx)]; [by left|]. right. exists nk, u', v'. split; [by right|done].
        -- intros [H|(nk & u' & v' & H & F' & Hx)]; [by left|]. apply elem_of_cons in H as [->|H].
           ++ cbn [fst snd] in F'. congruence.
           ++ right. by exists nk, u', v'.
Qed.

(** A column is [legacy:x] for one [x] only. *)
Lemma legacy_inj x y : "legacy:" +:+ x = "legacy:" +:+ y -> x = y.
Proof. intros H. by injection H. Qed.

Lemma legacy_name_spec id x : legacy_name id = Some x <-> id = "legacy:" +:+ x.
Proof.
  unfold legacy_name. split.
  - destruct (String.prefix "legacy:" id) eqn:E; [|done]. intros [= <-].
    repeat (destruct id as [|? id]; [done|]; cbn [String.prefix] in E; destruct (ascii_dec _ _) as [<-|]; [|done]). done.
  - intros ->. cbn. by destruct x.
Qed.

Lemma fold_rest consumed c out : wf_dict c ->
  forall id, get (fold_left (read_rest (Some ver) consumed) c out) id =
    match (x ← legacy_name id; if includes consumed x then None else option_map (MkValue (Some ver) x) (get c x)) with
    | Some v => Some v
    | None => get out id
    end.
Proof.
  unfold wf_dict. revert out. induction c as [|[x v] c IH]; intros out Hc id; cbn [fold_left].
  - destruct (legacy_name id) as [y|]; [|done]. cbn. by destruct (includes consumed y).
  - apply NoDup_cons in Hc as [Hx Hc]. rewrite IH by done. unfold read_rest. cbn [fst snd].
    destruct (legacy_name id) as [y|] eqn:L; cbn [mbind option_bind].
    + apply legacy_name_spec in L as ->. cbn [get]. destruct (String.eqb x y) eqn:E.
      * apply String.eqb_eq in E as ->. destruct (includes consumed y); [done|].
        assert (get c y = None) as ->; [|cbn; by rewrite get_set_eq]. destruct (get c y) eqn:G; [|done].
        apply get_in in G. destruct Hx. by apply (list_elem_of_fmap_2 fst) in G.
      * apply String.eqb_neq in E. destruct (includes consumed y); [|destruct (get c y); [done|]]; cbn [option_map];
          (destruct (includes consumed x); [done|]; apply get_set_ne; intros Ex; by apply legacy_inj in Ex).
    + destruct (includes consumed x); [done|]. apply get_set_ne. intros <-.
      by rewrite (proj2 (legacy_name_spec _ _) eq_refl) in L.
Qed.

Lemma present_spec (c : dict Json) n ts t : t ∈ List.filter (fun t => has_own c (arm_column n t)) ts <-> t ∈ ts /\ has_own c (arm_column n t) = true.
Proof. by rewrite list_elem_of_In, filter_In, <- list_elem_of_In. Qed.

(** What a field is read from are its own columns, every present one. *)
Lemma field_change_used c n k u v x : field_change c n k = Some (u, v) -> x ∈ u -> x ∈ n :: columns_of (n, k).
Proof.
  unfold field_change, columns_of, arms_value. cbn [fst snd]. rewrite elem_of_cons.
  destruct (ref_targets k) as [[|t [|t' ts]]|].
  - destruct (get c n); [|done]. cbn. intros [= <- _]. rewrite list_elem_of_singleton. by left.
  - destruct (get c n) as [[]|]; cbn; intros [= <- _]; rewrite list_elem_of_singleton; by left.
  - destruct (List.filter _ _) as [|p ps] eqn:F; [done|]. intros [= <- _].
    change (x ∈ map (arm_column n) (p :: ps) ++ [n] -> x = n \/ x ∈ map (arm_column n) (t :: t' :: ts)).
    rewrite elem_of_app, list_elem_of_singleton.
    intros [H| ->]; [right|by left]. apply list_elem_of_fmap in H as (y & -> & Hy). apply list_elem_of_fmap_2. rewrite <- F in Hy.
    by apply present_spec in Hy as [Hy _].
  - destruct (get c n); [|done]. cbn. intros [= <- _]. rewrite list_elem_of_singleton. by left.
Qed.

Lemma field_change_present c n k x : has_own c x = true -> x ∈ columns_of (n, k) ->
  exists u v, field_change c n k = Some (u, v) /\ x ∈ u.
Proof.
  unfold field_change, columns_of, arms_value, has_own. cbn [fst snd].
  destruct (ref_targets k) as [[|t [|t' ts]]|].
  - intros H ->%list_elem_of_singleton. destruct (get c n); [|done]. cbn. do 2 eexists. split; [reflexivity|by left].
  - intros H ->%list_elem_of_singleton. destruct (get c n) as [[]|]; try done; cbn; do 2 eexists; (split; [reflexivity|by left]).
  - intros H Hx. apply list_elem_of_fmap in Hx as (y & -> & Hy).
    assert (y ∈ List.filter (fun t => has_own c (arm_column n t)) (t :: t' :: ts)) as Hp by by apply present_spec.
    destruct (List.filter _ _) as [|p ps]; [by apply elem_of_nil in Hp|]. do 2 eexists. split; [reflexivity|].
    change (arm_column n y ∈ map (arm_column n) (p :: ps) ++ [n]). apply elem_of_app. left. by apply list_elem_of_fmap_2.
  - intros H ->%list_elem_of_singleton. destruct (get c n); [|done]. cbn. do 2 eexists. split; [reflexivity|by left].
Qed.

(** A field given a value has one of its columns. *)
Lemma field_change_none c n k : is_poly k = false -> field_change c n k = None -> get c n = None.
Proof.
  unfold is_poly, field_change. destruct (ref_targets k) as [[|t [|t' ts]]|]; intros Hp; try done.
  - by destruct (get c n).
  - by destruct (get c n) as [[]|].
  - by destruct (get c n).
Qed.

(** No member is named like a field whose columns have other names. *)
Definition clean (c : dict Json) : Prop := forall nk, nk ∈ historyKinds ver -> is_poly (snd nk) = true -> has_own c (fst nk) = false.

Lemma kinds_identities : NoDup (map (fun nk => ident (fst nk)) (historyKinds ver)).
Proof.
  pose proof (wv_kinds _ Hver) as Hk. pose proof (wv_identities _ Hver) as Hi. unfold wf_dict, keys in *.
  rewrite <- (map_map fst ident). revert Hk Hi. generalize (map fst (historyKinds ver)). intros l Hk Hi.
  induction Hk as [|a l Ha Hk IH]; cbn [map]; [by apply NoDup_nil_2|]. apply NoDup_cons. split.
  - intros H. apply list_elem_of_fmap in H as (b & E & Hb). apply Ha. rewrite (Hi a b); [done|by left|by right|done].
  - apply IH. intros x y Hx Hy. apply Hi; by right.
Qed.

Lemma owned_spec x : owned x = true <-> exists nk, nk ∈ historyKinds ver /\ x ∈ fst nk :: columns_of nk.
Proof.
  unfold owned. rewrite existsb_exists. split; intros (nk & H1 & H2); exists nk; rewrite ?list_elem_of_In in *;
    (split; [done|]); [apply list_elem_of_In; by apply includes_spec|by apply includes_spec, list_elem_of_In].
Qed.

(** [historyChanges] reads a change pointwise. *)
Lemma HC_read c id : wf_dict c -> clean c -> get (HC (Some ver) c) id = read_at c id.
Proof.
  intros Hc Hcl. unfold historyChanges. pose proof (fold_fields c (historyKinds ver) ([], []) kinds_identities) as F.
  destruct (fold_left _ (historyKinds ver) _) as [vals consumed]. cbn [fst snd] in F. destruct F as [F1 F2].
  rewrite fold_rest by done. rewrite F1. unfold read_at.
  assert (forall x, has_own c x = true -> includes consumed x = owned x) as Ho.
  { intros x Hx. apply eq_true_iff_eq. rewrite includes_spec, F2, owned_spec. split.
    - intros [H|(nk & u & v & Hk & Fc & Hu)]; [by apply elem_of_nil in H|]. exists nk. split; [done|].
      destruct nk as [n k]. by apply (field_change_used c n k u v).
    - intros (nk & Hk & Hu). right. assert (x ∈ columns_of nk) as Hx'.
      { apply elem_of_cons in Hu as [->|Hu]; [|done]. destruct (is_poly (snd nk)) eqn:P; [by rewrite (Hcl nk Hk P) in Hx|].
        unfold columns_of. unfold is_poly in P. destruct (ref_targets (snd nk)) as [[|? [|]]|]; try done; by left. }
      destruct nk as [n k]. destruct (field_change_present c n k x Hx Hx') as (u & v & E & Hu'). by exists (n, k), u, v. }
  destruct (List.find _ (historyKinds ver)) as [[n k]|] eqn:E.
  - apply find_some in E as [En Ei]. apply list_elem_of_In in En. apply String.eqb_eq in Ei as <-. cbn [fst snd] in *.
    assert ((x ← legacy_name (ident n); if includes consumed x then None else option_map (MkValue (Some ver) x) (get c x)) = None) as ->.
    { destruct (legacy_name (ident n)) as [x|] eqn:L; [|done]. apply legacy_name_spec in L. cbn [mbind option_bind].
      assert (x = n) as ->. { apply (wv_legacy _ Hver n x); [|done]. by apply (list_elem_of_fmap_2 fst) in En. }
      destruct (get c n) eqn:G; [|by destruct (includes consumed n)]. assert (has_own c n = true) as Hn by (unfold has_own; by rewrite G). rewrite (Ho n Hn).
      assert (owned n = true) as ->; [|done]. apply owned_spec. exists (n, k). split; [done|by left]. }
    by destruct (value_of n k c).
  - destruct (legacy_name id) as [x|]; [|done]. cbn [mbind option_bind].
    destruct (get c x) as [v|] eqn:G; [|by destruct (includes consumed x), (owned x)]. rewrite Ho by (unfold has_own; by rewrite G).
    by destruct (owned x).
Qed.

(** *** A change over an earlier row. *)

(** The columns every update changes, which only the metadata of a revision carries. *)
Definition STAMPS : list string := ["revision"; "updated_at"; "updated_by"]%string.

(** The arms of every polymorphic reference: all present, at most one given. *)
Definition arms_ok (c : dict Json) : Prop :=
  forall n k t ts t1 t2, (n, k) ∈ historyKinds ver -> ref_targets k = Some (t :: ts) -> ts <> [] -> t1 ∈ t :: ts -> t2 ∈ t :: ts ->
    has_own c (arm_column n t1) = true /\
    (get c (arm_column n t1) <> Some JNull -> get c (arm_column n t2) <> Some JNull -> t1 = t2).

(** [d] are the members by which [o] becomes [n]. *)
Definition delta (d o n : dict Json) : Prop :=
  forall x, x ∉ STAMPS -> has_own n x = has_own o x /\
    ((get d x = None /\ get n x = get o x) \/ (get d x = get n x /\ (get o x = Some JNull -> get n x <> Some JNull))).

Lemma value_of_ext c c' n k : is_poly k = false -> get c n = get c' n -> value_of n k c = value_of n k c'.
Proof.
  unfold is_poly, value_of, field_change. intros Hp E. by destruct (ref_targets k) as [[|t [|t' ts]]|]; try done; rewrite E.
Qed.

Lemma value_of_none c n k : is_poly k = false -> (value_of n k c = None <-> get c n = None).
Proof.
  intros Hp. unfold value_of. split.
  - destruct (field_change c n k) as [[u v]|] eqn:F; [done|]. intros _. by apply (field_change_none c n k).
  - intros G. unfold is_poly in Hp. unfold field_change. destruct (ref_targets k) as [[|t [|t' ts]]|]; try done; by rewrite G.
Qed.

(** The value of the arms of a reference. *)
Definition arms_read (n : string) (ts : list string) (c : dict Json) : option Json := option_map snd (arms_value n ts c).

Lemma arms_read_ext n ts c c' : (forall t, t ∈ ts -> get c (arm_column n t) = get c' (arm_column n t)) -> arms_read n ts c = arms_read n ts c'.
Proof.
  intros H. unfold arms_read, arms_value.
  assert (List.filter (fun t => has_own c (arm_column n t)) ts = List.filter (fun t => has_own c' (arm_column n t)) ts) as E.
  { revert H. induction ts as [|t ts IH]; intros H; [done|]. cbn [List.filter].
    assert (has_own c (arm_column n t) = has_own c' (arm_column n t)) as -> by (unfold has_own; by rewrite H by by left).
    rewrite IH; [done|]. intros y Hy. apply H. by right. }
  rewrite E. assert (forall t, t ∈ List.filter (fun t => has_own c' (arm_column n t)) ts -> get c (arm_column n t) = get c' (arm_column n t)) as H'.
  { intros t Ht. apply H. by apply present_spec in Ht as [? _]. }
  clear E. revert H'. generalize (List.filter (fun t => has_own c' (arm_column n t)) ts). intros [|p ps] H'; [done|].
  cbn [option_map snd]. revert H'. generalize (p :: ps). intros l H'.
  assert (List.find (fun t => match get c (arm_column n t) with Some JNull => false | _ => true end) l =
          List.find (fun t => match get c' (arm_column n t) with Some JNull => false | _ => true end) l) as F.
  { revert H'. induction l as [|y l IH]; intros H'; [done|]. cbn [List.find]. rewrite H' by by left. rewrite IH; [done|].
    intros z Hz. apply H'. by right. }
  rewrite F. clear F.
  destruct (List.find (fun t => match get c' (arm_column n t) with Some JNull => false | _ => true end) l) as [y|] eqn:Fy; [|done]. apply find_some in Fy as [Fy _]. rewrite H'; [done|by apply list_elem_of_In].
Qed.

(** With every arm present and at most one given, the value is the given arm. *)
Lemma arms_read_spec n ts c : ts <> [] -> (forall t, t ∈ ts -> has_own c (arm_column n t) = true) ->
  (forall t1 t2, t1 ∈ ts -> t2 ∈ ts -> get c (arm_column n t1) <> Some JNull -> get c (arm_column n t2) <> Some JNull -> t1 = t2) ->
  (forall t, t ∈ ts -> get c (arm_column n t) <> Some JNull ->
     arms_read n ts c = Some (JObject [("model", JString t); ("id", default JNull (get c (arm_column n t)))]%string)) /\
  ((forall t, t ∈ ts -> get c (arm_column n t) = Some JNull) -> arms_read n ts c = Some JNull).
Proof.
  intros Hne Hall Hone. unfold arms_read, arms_value.
  assert (List.filter (fun t => has_own c (arm_column n t)) ts = ts) as ->.
  { clear Hne Hone. induction ts as [|t ts IH]; [done|]. cbn [List.filter]. rewrite Hall by by left. rewrite IH; [done|].
    intros y Hy. apply Hall. by right. }
  destruct ts as [|p ps]; [done|]. cbn [option_map snd]. set (l := p :: ps) in *. split.
  - intros t Ht Hn. destruct (List.find _ l) as [y|] eqn:F.
    + apply find_some in F as [Fy Fn]. apply list_elem_of_In in Fy. rewrite (Hone y t Fy Ht); [done| |done].
      intros E. by rewrite E in Fn.
    + pose proof (find_none _ _ F t (proj1 (list_elem_of_In _ _) Ht)) as Fn. cbv beta in Fn. destruct (get c _) as [[]|]; done.
  - intros Hnull. destruct (List.find _ l) as [y|] eqn:F; [|done]. apply find_some in F as [Fy Fn].
    rewrite Hnull in Fn; [done|by apply list_elem_of_In].
Qed.

Lemma arms_overlay d o n name ts : ts <> [] ->
  (forall c, c = o \/ c = n -> (forall t, t ∈ ts -> has_own c (arm_column name t) = true) /\
     forall t1 t2, t1 ∈ ts -> t2 ∈ ts -> get c (arm_column name t1) <> Some JNull -> get c (arm_column name t2) <> Some JNull -> t1 = t2) ->
  (forall t, t ∈ ts -> arm_column name t ∉ STAMPS) -> delta d o n ->
  (match arms_read name ts d with Some x => Some x | None => arms_read name ts o end) = arms_read name ts n.
Proof.
  intros Hne Hok Hs Hd. destruct (Hok n) as [Hn1 Hn2]; [by right|]. destruct (Hok o) as [Ho1 Ho2]; [by left|].
  assert (forall t, t ∈ ts -> get d (arm_column name t) = None -> get n (arm_column name t) = get o (arm_column name t)) as Habs.
  { intros t Ht G. destruct (Hd _ (Hs t Ht)) as [_ [[_ E]|[E _]]]; [done|]. exfalso. specialize (Hn1 t Ht). unfold has_own in Hn1.
    by rewrite <- E, G in Hn1. }
  assert (forall t v, t ∈ ts -> get d (arm_column name t) = Some v ->
            get n (arm_column name t) = Some v /\ (v = JNull -> get o (arm_column name t) <> Some JNull)) as Hpre.
  { intros t v Ht G. destruct (Hd _ (Hs t Ht)) as [_ [[E _]|[E Hc]]]; [congruence|]. split; [congruence|].
    intros -> E'. apply (Hc E'). congruence. }
  destruct (arms_read_spec name ts n Hne Hn1 Hn2) as [Sn Nn].
  unfold arms_read at 1, arms_value. destruct (List.filter (fun t => has_own d (arm_column name t)) ts) as [|p ps] eqn:F.
  { cbn [option_map]. apply arms_read_ext. intros t Ht. symmetry. apply Habs; [done|].
    destruct (get d (arm_column name t)) eqn:G; [|done]. exfalso.
    assert (t ∈ List.filter (fun t => has_own d (arm_column name t)) ts) as Hp by (apply present_spec; unfold has_own; by rewrite G).
    rewrite F in Hp. by apply elem_of_nil in Hp. }
  cbn [option_map snd]. rewrite <- F in *. destruct (List.find _ _) as [t|] eqn:Ft.
  - apply find_some in Ft as [Ft Fn]. apply list_elem_of_In, present_spec in Ft as [Ht Hp]. unfold has_own in Hp.
    destruct (get d (arm_column name t)) as [v|] eqn:G; [|done]. destruct (Hpre t v Ht G) as [Gn _].
    rewrite (Sn t Ht); [by rewrite Gn|]. rewrite Gn. by destruct v.
  - rewrite Nn; [done|]. intros t Ht. assert (get n (arm_column name t) = Some JNull \/ get n (arm_column name t) <> Some JNull) as [|Hnn]; [by destruct (get n _) as [[]|]; auto|done|].
    exfalso.
    assert (forall y, y ∈ List.filter (fun t => has_own d (arm_column name t)) ts -> get d (arm_column name y) = Some JNull) as Hall.
    { intros y Hy. pose proof (find_none _ _ Ft y (proj1 (list_elem_of_In _ _) Hy)) as Fn. cbv beta in Fn.
      by destruct (get d _) as [[]|]. }
    assert (get d (arm_column name t) = None) as Gt.
    { destruct (get d (arm_column name t)) as [v|] eqn:G; [|done]. exfalso. destruct (Hpre t v Ht G) as [Gn _].
      rewrite (Hall t) in G by (apply present_spec; unfold has_own; by rewrite G). congruence. }
    assert (p ∈ List.filter (fun t => has_own d (arm_column name t)) ts) as Hp by (rewrite F; by left).
    pose proof (Hall p Hp) as Gp. apply present_spec in Hp as [Hp _]. destruct (Hpre p JNull Hp Gp) as [Gn Go]. specialize (Go eq_refl).
    assert (t = p) as ->; [|congruence]. apply Ho2; try done. by rewrite <- Habs.
Qed.

Lemma value_of_arms n k t t' ts c : ref_targets k = Some (t :: t' :: ts) ->
  value_of n k c = option_map (fun v => MkValue (Some ver) n (historicalValue number_text isoDate parseJson (Some k) v)) (arms_read n (t :: t' :: ts) c).
Proof.
  intros E. unfold value_of, field_change, arms_read. rewrite E.
  by destruct (arms_value n (t :: t' :: ts) c) as [[u v]|].
Qed.

Lemma value_overlay d o n name k : (name, k) ∈ historyKinds ver -> arms_ok o -> arms_ok n -> delta d o n ->
  (match value_of name k d with Some x => Some x | None => value_of name k o end) = value_of name k n.
Proof.
  intros Hk Ao An Hd.
  assert (forall x, x ∈ name :: columns_of (name, k) -> x ∉ STAMPS) as Hs.
  { intros x Hx Hst. apply (wv_system _ Hver (name, k) x Hk Hx). apply elem_of_app. left. unfold STAMPS, SYSTEM_COLUMNS, AUDIT_COLUMNS in *. set_solver. }
  destruct (is_poly k) eqn:P.
  - unfold is_poly in P. destruct (ref_targets k) as [[|t [|t' ts]]|] eqn:E; try done. rewrite !(value_of_arms name k t t' ts) by done.
    rewrite <- (arms_overlay d o n name (t :: t' :: ts)); [by destruct (arms_read _ _ d)|done| | |done].
    + intros c Hc. assert (arms_ok c) as Ac by (by destruct Hc as [-> | ->]).
      split; [intros y Hy; by apply (Ac name k t (t' :: ts) y y)|]. intros t1 t2 H1 H2. by apply (Ac name k t (t' :: ts) t1 t2).
    + intros y Hy. apply Hs. right. unfold columns_of. cbn [fst snd]. rewrite E. by apply list_elem_of_fmap_2.
  - destruct (Hd name (Hs name ltac:(by left))) as [Hdom [[G1 G2]|[G1 _]]].
    + rewrite (proj2 (value_of_none d name k P) G1). symmetry. by apply value_of_ext.
    + rewrite (value_of_ext d n name k P G1). destruct (value_of name k n) eqn:V; [done|].
      apply (value_of_none n name k P) in V. apply (value_of_none o name k P). unfold has_own in Hdom. rewrite V in Hdom. by destruct (get o name).
Qed.

(** Reading the members that changed over the old row is reading the new row. *)
Lemma read_overlay d o n id : arms_ok o -> arms_ok n -> delta d o n -> (forall x, x ∈ STAMPS -> id <> "legacy:" +:+ x) ->
  (match read_at d id with Some x => Some x | None => read_at o id end) = read_at n id.
Proof.
  intros Ao An Hd Hid. unfold read_at. destruct (List.find _ (historyKinds ver)) as [[name k]|] eqn:E.
  - apply find_some in E as [E _]. apply list_elem_of_In in E. by apply value_overlay.
  - destruct (legacy_name id) as [x|] eqn:L; [|done]. cbn [mbind option_bind]. destruct (owned x); [done|].
    apply legacy_name_spec in L. assert (x ∉ STAMPS) as Hx by (intros Hx; by apply (Hid x Hx)).
    destruct (Hd x Hx) as [Hdom [[G1 G2]|[G1 _]]]; rewrite G1; cbn [option_map]; [by rewrite G2|].
    unfold has_own in Hdom. by destruct (get n x), (get o x).
Qed.

Lemma read_ext c c' id : (forall x, x ∉ STAMPS -> get c x = get c' x) -> (forall x, x ∈ STAMPS -> id <> "legacy:" +:+ x) ->
  read_at c id = read_at c' id.
Proof.
  intros H Hid. unfold read_at. destruct (List.find _ (historyKinds ver)) as [[name k]|] eqn:E.
  - apply find_some in E as [E _]. apply list_elem_of_In in E.
    assert (forall x, x ∈ name :: columns_of (name, k) -> get c x = get c' x) as Hs.
    { intros x Hx. apply H. intros Hst. apply (wv_system _ Hver (name, k) x E Hx). apply elem_of_app. left.
      unfold STAMPS, SYSTEM_COLUMNS, AUDIT_COLUMNS in *. set_solver. }
    cbn [fst snd]. destruct (is_poly k) eqn:P.
    + unfold is_poly in P. destruct (ref_targets k) as [[|t [|t' ts]]|] eqn:F; try done. rewrite !(value_of_arms name k t t' ts) by done.
      f_equal. apply arms_read_ext. intros y Hy. apply Hs. right. unfold columns_of. cbn [fst snd]. rewrite F. by apply list_elem_of_fmap_2.
    + apply value_of_ext; [done|]. apply Hs. by left.
  - destruct (legacy_name id) as [x|] eqn:L; [|done]. cbn [mbind option_bind]. destruct (owned x); [done|].
    apply legacy_name_spec in L. rewrite H; [done|]. intros Hx. by apply (Hid x Hx).
Qed.
End Reading.
End Reading.

(** ** A record's history. *)
Module Life.
Import Schemas Fold Recorder Reading Prune.

Definition state_eq (s t : State) : Prop := forall id, get s id = get t id.

Section Life.
Context (number_text : number -> string) (isoDate : string -> option string) (parseJson : string -> option Json).
Context (jsonb_eq : Json -> Json -> bool) (pg_number : number -> string) (pg_range : bool -> string -> option Json).
(** The versions of the record's model, and the record's key. *)
Variables (versions : list HistorySchema) (rid : string).
Hypothesis (Heq : forall a b, jsonb_eq a b = true -> a = b) (Hnull : jsonb_eq JNull JNull = true).
Hypothesis (Hrange : forall b s, pg_range b s <> Some JNull).
Hypothesis (Hids : NoDup (map hs_id versions)) (Hwf : Forall wf_version versions).
#[local] Abbreviation HC := (historyChanges number_text isoDate parseJson).
#[local] Abbreviation show := (deliver pg_number pg_range).
#[local] Abbreviation fold := (fold_row number_text isoDate parseJson versions).
#[local] Abbreviation minus := (minus_keys UNHISTORIED).
#[local] Abbreviation write := (historyPiece jsonb_eq).

(** The record as its revisions rebuild it. *)
Definition rebuilt (h : list HistoryRow) : State :=
  fold_rows number_text isoDate parseJson versions (map (delivered pg_number pg_range versions) h).
(** The record read from a row: every field of a version by its identity, and the system fields. *)
Definition system_meta (n : Image) : dict Json :=
  [("id", JString rid); ("revision", arrow n "revision"); ("updated_at", arrow n "updated_at"); ("updated_by", arrow n "updated_by");
   ("created_at", arrow n "created_at"); ("created_by", arrow n "created_by")]%string.
Definition snapshot (v : HistorySchema) (n : Image) : State :=
  set_system (Some v) (system_meta n) (HC (Some v) (show (Some v) (minus n))).

(** A row under a version: each polymorphic reference has its arms, at most one of them given. *)
Definition wf_image (v : HistorySchema) (n : Image) : Prop := wf_dict n /\ clean v n /\ arms_ok v n.

(** What happens to a record: versions of its model follow one another, each new, and its row is created, updated and
    deleted. *)
Inductive change_ok (h : list HistoryRow) (v : HistorySchema) : option Image -> Change -> option Image -> Prop :=
| OkCreate x n : x_op x = "create"%string -> x_new x = Some n -> wf_image v n -> change_ok h v None x (Some n)
| OkUpdate x o n : x_op x = "update"%string -> x_old x = Some o -> x_new x = Some n -> wf_image v n ->
    (full_of h (Some (hs_id v)) "update" = false -> forall k, has_own n k = has_own o k) -> change_ok h v (Some o) x (Some n)
| OkDelete x o : x_op x = "delete"%string -> x_old x = Some o -> x_new x = None -> change_ok h v (Some o) x None.
Inductive life : list HistoryRow -> option Image -> HistorySchema -> Prop :=
| LifeBorn v : v ∈ versions -> life [] None v
| LifeVersion h i v v' : life h i v -> v' ∈ versions -> (forall r, r ∈ h -> arrow_schema (meta r) <> Some (hs_id v')) -> life h i v'
| LifeWrite h i v x i' : life h i v -> x_id x = rid -> (x_cause x = "erased"%string -> x_erased x = true) -> change_ok h v i x i' ->
    life (h ++ [write h (Some (hs_id v)) x]) i' v.

(** *** Pointwise readings. *)

Lemma get_map_values (f : string -> Json -> Json) (c : dict Json) k :
  get (map (fun kv => (fst kv, f (fst kv) (snd kv))) c) k = option_map (f k) (get c k).
Proof.
  induction c as [|[k' v] c IH]; cbn [map get fst snd]; [done|]. destruct (String.eqb k' k) eqn:E; [|done].
  by apply String.eqb_eq in E as ->.
Qed.

Definition shown (v : option HistorySchema) (k : string) (j : Json) : Json :=
  delivered_value pg_number pg_range (v ← v; get (def_fields v) k) (v ← v; get (def_computed v) k) j.

Lemma get_show v c k : get (show v c) k = option_map (shown v k) (get c k).
Proof. apply (get_map_values (shown v)). Qed.

Lemma shown_null v k j : shown v k j = JNull <-> j = JNull.
Proof.
  split; [|by intros ->]. unfold shown, delivered_value. destruct j as [| |n|t| |]; try done.
  - by repeat case_match.
  - destruct (_ ≫= _) as [kd|]; [|done]. destruct (String.eqb _ _); [|done].
    destruct (pg_range _ _) as [j|] eqn:E; cbn; [|done]. intros ->. by destruct (Hrange _ _ E).
Qed.

Lemma show_wf v c : wf_dict c -> wf_dict (show v c).
Proof. unfold wf_dict, keys, deliver. by rewrite map_map. Qed.

Lemma has_show v c k : has_own (show v c) k = has_own c k.
Proof. unfold has_own. rewrite get_show. by destruct (get c k). Qed.

Lemma get_show_null v c k : get (show v c) k = Some JNull <-> get c k = Some JNull.
Proof.
  rewrite get_show. destruct (get c k) as [j|]; cbn [option_map]; [|done]. split.
  - intros [= E]. by apply shown_null in E as ->.
  - by intros [= ->].
Qed.

Lemma show_arms w v c : arms_ok w c -> arms_ok w (show v c).
Proof.
  intros H n k t ts t1 t2 Hk E Hne H1 H2. destruct (H n k t ts t1 t2 Hk E Hne H1 H2) as [A B]. rewrite has_show. split; [done|].
  by rewrite !get_show_null.
Qed.

Lemma show_clean w v c : clean w c -> clean w (show v c).
Proof. intros H nk Hk P. rewrite has_show. by apply H. Qed.

Lemma show_delta v d o n : delta d o n -> delta (show v d) (show v o) (show v n).
Proof.
  intros H x Hx. destruct (H x Hx) as [Hd Hc]. rewrite !has_show. split; [done|]. rewrite !get_show.
  destruct Hc as [[-> ->]|[E Hn]]; [by left|right]. rewrite E. split; [done|].
  rewrite <- !(get_show v). by rewrite !get_show_null.
Qed.

Lemma minus_wf c : wf_dict c -> wf_dict (minus c).
Proof.
  unfold wf_dict, keys, minus_keys. intros H. refine (sublist_NoDup _ (map fst c) H _). clear H.
  induction c as [|kv c IH]; [done|]. cbn [List.filter map]. case_match; cbn [map]; by constructor.
Qed.

Lemma get_minus c k : get (minus c) k = if includes UNHISTORIED k then None else get c k.
Proof. unfold minus_keys. rewrite (get_filter_key (fun k => negb (includes UNHISTORIED k))). by destruct (includes UNHISTORIED k). Qed.

Lemma minus_image v n : wf_version v -> wf_image v n -> wf_image v (minus n).
Proof.
  intros Hv (W & C & A). split; [by apply minus_wf|]. split.
  - intros nk Hk P. specialize (C nk Hk P). unfold has_own in *. rewrite get_minus. by case_match.
  - intros name k t ts t1 t2 Hk E Hne H1 H2. destruct (A name k t ts t1 t2 Hk E Hne H1 H2) as [A1 A2].
    assert (forall y, y ∈ t :: ts -> includes UNHISTORIED (arm_column name y) = false) as Hu.
    { intros y Hy. apply includes_false. intros Hin. apply (wv_system _ Hv (name, k) (arm_column name y) Hk); [|by apply elem_of_app; right].
      right. unfold columns_of. cbn [fst snd]. rewrite E. destruct ts as [|t' ts]; [done|]. by apply list_elem_of_fmap_2. }
    unfold has_own in *. rewrite !get_minus, !Hu by done. done.
Qed.

Lemma show_image w v n : wf_image v n -> wf_image v (show w n).
Proof. intros (W & C & A). split; [by apply show_wf|]. split; [by apply show_clean|by apply show_arms]. Qed.

(** The system fields of a state are the metadata's. *)
Lemma set_system_get v m s id :
  get (set_system v m s) id =
  match (f ← legacy_name id; if includes SYSTEM_HISTORY_FIELDS f then option_map (MkValue v f) (get m f) else None) with
  | Some x => Some x
  | None => get s id
  end.
Proof.
  unfold set_system. assert (NoDup SYSTEM_HISTORY_FIELDS) as Hn by by apply (bool_decide_unpack _), I.
  revert s. induction SYSTEM_HISTORY_FIELDS as [|f l IH]; intros s; cbn [fold_left].
  - by destruct (legacy_name id).
  - apply NoDup_cons in Hn as [Hf Hn]. rewrite IH by done. destruct (legacy_name id) as [g|] eqn:L; cbn [mbind option_bind].
    + apply legacy_name_spec in L as ->. unfold includes at 2. cbn [existsb]. fold (includes l g). destruct (String.eqb g f) eqn:E; cbn [orb].
      * apply String.eqb_eq in E as ->. rewrite (proj2 (includes_false l f) Hf). destruct (get m f); [|done].
        unfold system_key. by rewrite get_set_eq.
      * assert (get (match get m f with Some value => set s (system_key f) (MkValue v f value) | None => s end) ("legacy:" +:+ g)
                = get s ("legacy:" +:+ g)) as ->; [|done]. destruct (get m f); [|done]. apply get_set_ne. unfold system_key.
        intros H. apply legacy_inj in H as ->. by rewrite String.eqb_refl in E.
    + destruct (get m f); [|done]. apply get_set_ne. intros <-. unfold system_key in L. by rewrite (proj2 (legacy_name_spec _ _) eq_refl) in L.
Qed.

Lemma fold_row_eq s t r : state_eq s t -> state_eq (fold s r) (fold t r).
Proof.
  intros H id. unfold fold_row. destruct (String.eqb (op r) "delete"); [done|]. rewrite !set_system_get.
  destruct (legacy_name id ≫= _); [done|]. unfold row_changes. rewrite !get_spread by apply HC_wf.
  destruct (resets r); [done|]. by rewrite H.
Qed.

(** The metadata of a revision agrees with the row it recorded. *)
Definition meta_matches (m : dict Json) (n : Image) : Prop := forall f, includes SYSTEM_HISTORY_FIELDS f = true -> get m f = get (system_meta n) f.

Lemma system_meta_all n f : includes SYSTEM_HISTORY_FIELDS f = true -> get (system_meta n) f <> None.
Proof.
  rewrite includes_spec. unfold SYSTEM_HISTORY_FIELDS, SYSTEM_COLUMNS, AUDIT_COLUMNS. rewrite !elem_of_cons, elem_of_nil.
  by intros [->|[->|[->|[->|[->|[->|[]]]]]]].
Qed.

Lemma stamps_system id : (forall f, includes SYSTEM_HISTORY_FIELDS f = true -> legacy_name id <> Some f) ->
  forall x, x ∈ STAMPS -> id <> "legacy:" +:+ x.
Proof.
  intros H x Hx E. apply (H x); [|by apply legacy_name_spec]. apply includes_spec.
  unfold STAMPS, SYSTEM_HISTORY_FIELDS, SYSTEM_COLUMNS, AUDIT_COLUMNS in *. set_solver.
Qed.

(** A state that reads every field but the system ones like the row, under its metadata, is the row's snapshot. *)
Lemma snapshot_eq v n m s : meta_matches m n ->
  (forall id, (forall x, x ∈ STAMPS -> id <> "legacy:" +:+ x) ->
     (forall f, includes SYSTEM_HISTORY_FIELDS f = true -> legacy_name id <> Some f) ->
     get s id = get (HC (Some v) (show (Some v) (minus n))) id) ->
  state_eq (set_system (Some v) m s) (snapshot v n).
Proof.
  intros Hm H id. unfold snapshot. rewrite !set_system_get.
  destruct (legacy_name id) as [f|] eqn:L; cbn [mbind option_bind].
  - destruct (includes SYSTEM_HISTORY_FIELDS f) eqn:I.
    + rewrite Hm by done. pose proof (system_meta_all n f I). by destruct (get (system_meta n) f).
    + assert (forall g, includes SYSTEM_HISTORY_FIELDS g = true -> legacy_name id <> Some g) as Hs by (intros g Hg; rewrite L; congruence).
      apply H; [by apply stamps_system|done].
  - assert (forall g, includes SYSTEM_HISTORY_FIELDS g = true -> legacy_name id <> Some g) as Hs by (intros g Hg; by rewrite L).
    apply H; [by apply stamps_system|done].
Qed.

(** *** One revision. *)

Lemma find_version v : v ∈ versions -> version_by versions (hs_id v) = Some v.
Proof.
  unfold version_by. revert Hids. clear Hwf. induction versions as [|w l IH]; cbn [map List.find]; intros Hn Hv; [by apply elem_of_nil in Hv|].
  apply NoDup_cons in Hn as [Hw Hn]. apply elem_of_cons in Hv as [->|Hv]; [by rewrite String.eqb_refl|].
  destruct (String.eqb (hs_id w) (hs_id v)) eqn:E; [|by apply IH]. apply String.eqb_eq in E. destruct Hw. rewrite E.
  by apply (list_elem_of_fmap_2 hs_id) in Hv.
Qed.

Lemma version_wf v : v ∈ versions -> wf_version v.
Proof. apply (proj1 (Forall_forall _ _) Hwf). Qed.

Section Written.
Variables (h : list HistoryRow) (v : HistorySchema) (x : Change).
Hypothesis (Hv : v ∈ versions) (Hx : x_id x = rid).
#[local] Abbreviation r := (write h (Some (hs_id v)) x).

Lemma written_version : version_of versions r = Some v.
Proof. unfold version_of, historyPiece, meta_of. cbn. by apply find_version. Qed.

Lemma written_meta n : x_new x = Some n -> meta_matches (meta r) n.
Proof.
  intros E f Hf. unfold historyPiece, meta_of, system_meta. cbn [meta]. rewrite E, Hx.
  apply includes_spec in Hf. unfold SYSTEM_HISTORY_FIELDS, SYSTEM_COLUMNS, AUDIT_COLUMNS in Hf. rewrite !elem_of_cons, elem_of_nil in Hf.
  by destruct Hf as [->|[->|[->|[->|[->|[->|[]]]]]]].
Qed.

Lemma written_holds : holds_all r = String.eqb (x_op x) "create" || String.eqb (x_cause x) "erased" || full_of h (Some (hs_id v)) (x_op x).
Proof.
  assert (String.eqb (cause r) "erased" = String.eqb (x_cause x) "erased") as E.
  { unfold historyPiece. cbn [cause]. destruct (String.eqb (x_cause x) "direct") eqn:E; [|done]. apply String.eqb_eq in E as ->.
    by destruct (x_restored x). }
  unfold holds_all, is_erased. by rewrite E.
Qed.

Lemma written_resets : resets (delivered pg_number pg_range versions r) = holds_all r.
Proof. unfold resets, holds_all, is_erased, full, arrow_true, delivered, historyPiece. cbn. by destruct (full_of _ _ _). Qed.

Lemma written_changes : row_changes number_text isoDate parseJson versions (delivered pg_number pg_range versions r)
                        = HC (Some v) (show (Some v) (changes r)).
Proof.
  unfold row_changes. replace (version_of versions (delivered pg_number pg_range versions r)) with (Some v) by (symmetry; apply written_version).
  unfold delivered. cbn [changes]. by rewrite written_version.
Qed.
End Written.

Lemma rebuilt_app h r : rebuilt (h ++ [r]) = fold (rebuilt h) (delivered pg_number pg_range versions r).
Proof. unfold rebuilt, fold_rows. by rewrite map_app, fold_left_app. Qed.

Lemma since_app h r : since (h ++ [r]) = if holds_all r then Some [r] else option_map (fun s => s ++ [r]) (since h).
Proof.
  induction h as [|q h IH]; cbn [app since]; [by destruct (holds_all r)|]. rewrite IH. destruct (holds_all r); [done|].
  destruct (since h); [done|]. cbn. by destruct (holds_all q).
Qed.

Lemma aggregated_app s r : aggregated (s ++ [r]) = spread (aggregated s) (changes r).
Proof. unfold aggregated. by rewrite fold_left_app. Qed.

(** *** The invariant. *)
Record recorded (h : list HistoryRow) (n : Image) (w : HistorySchema) : Prop := {
  rc_version : w ∈ versions;
  rc_image : wf_image w n;
  rc_state : state_eq (rebuilt h) (snapshot w n);
  rc_last : exists r, last h = Some r /\ op r <> "delete"%string /\ version_of versions r = Some w /\ meta_matches (meta r) n;
  rc_since : exists s, since h = Some s /\ wf_dict (aggregated s) /\ forall k, k ∉ STAMPS -> get (aggregated s) k = get (minus n) k }.

(** A revision that holds the whole row. *)
Lemma recorded_whole h v x n : v ∈ versions -> x_id x = rid -> x_new x = Some n -> wf_image v n -> x_op x <> "delete"%string ->
  holds_all (write h (Some (hs_id v)) x) = true -> changes_of jsonb_eq x (full_of h (Some (hs_id v)) (x_op x)) = minus n ->
  recorded (h ++ [write h (Some (hs_id v)) x]) n v.
Proof.
  intros Hv Hx En Hn Hop Hh Hc. pose proof (minus_wf n (proj1 Hn)) as Wm. split; try done.
  - rewrite rebuilt_app. unfold fold_row. rewrite (written_resets h v x), Hh, written_changes by done.
    replace (op (delivered _ _ _ _)) with (x_op x) by done. rewrite (proj2 (String.eqb_neq _ _) Hop).
    replace (version_of versions _) with (Some v) by (symmetry; by apply (written_version h v x)).
    apply snapshot_eq; [by apply (written_meta h v x)|]. intros id _ _. rewrite get_spread by apply HC_wf.
    unfold historyPiece. cbn [changes]. rewrite Hc. by destruct (get (HC _ _) id).
  - eexists. split; [by rewrite last_snoc|]. split; [done|]. split; [by apply (written_version h v x)|by apply (written_meta h v x)].
  - eexists. split; [by rewrite since_app, Hh|]. unfold aggregated, historyPiece. cbn [fold_left changes]. rewrite Hc.
    split; [by apply wf_spread, NoDup_nil_2|]. intros k _. rewrite get_spread by done. by destruct (get (minus n) k).
Qed.

Lemma get_none_wf (c : dict Json) (p : string * Json -> bool) : wf_dict c -> wf_dict (List.filter p c).
Proof.
  unfold wf_dict, keys. intros H. refine (sublist_NoDup _ (map fst c) H _). clear H.
  induction c as [|kv c IH]; [done|]. cbn [List.filter map]. case_match; cbn [map]; by constructor.
Qed.

(** The members an update records are those by which its row changes. *)
Lemma changes_delta x o n : x_op x = "update"%string -> x_erased x = false -> x_old x = Some o -> x_new x = Some n -> wf_dict n ->
  (forall k, has_own n k = has_own o k) ->
  wf_dict (changes_of jsonb_eq x false) /\ delta (changes_of jsonb_eq x false) (minus o) (minus n).
Proof.
  intros Eo Ee Eold En Wn Hd. unfold changes_of. rewrite Eo, Ee, Eold, En. cbn [orb andb mbind option_bind].
  change (String.eqb "update" "create") with false. change (String.eqb "update" "delete") with false. cbn [orb].
  split; [by apply get_none_wf|]. intros k Hk. unfold has_own. rewrite !get_minus, get_filter by done. cbn [fst snd].
  rewrite (proj2 (includes_false STAMPS k) Hk : includes ["revision"; "updated_at"; "updated_by"]%string k = false).
  specialize (Hd k). unfold has_own in Hd. destruct (includes UNHISTORIED k); cbn [negb andb].
  { split; [done|]. left. by destruct (get n k). }
  split; [done|]. destruct (get n k) as [b|], (get o k) as [a|]; try done; cbn [mbind option_bind].
  - destruct (jsonb_eq a b) eqn:E; cbn [negb].
    + left. apply Heq in E as ->. done.
    + right. split; [done|]. intros [= ->] [= ->]. by rewrite Hnull in E.
  - by left.
Qed.

Lemma clean_same v c n : wf_version v -> (forall k, k ∉ STAMPS -> get c k = get n k \/ get c k = None) -> clean v n -> clean v c.
Proof.
  intros Wv H Hn nk Hk P. specialize (Hn nk Hk P).
  assert (fst nk ∉ STAMPS) as Hs.
  { intros Hst. apply (wv_system _ Wv nk (fst nk) Hk); [by left|]. apply elem_of_app. left.
    unfold STAMPS, SYSTEM_COLUMNS, AUDIT_COLUMNS in *. set_solver. }
  unfold has_own in *. destruct (H _ Hs) as [-> | ->]; done.
Qed.

(** An update that records what changed, over a history under the same version. *)
Lemma recorded_over h v x o n : x_id x = rid -> x_op x = "update"%string -> x_old x = Some o -> x_new x = Some n ->
  wf_image v n -> full_of h (Some (hs_id v)) "update" = false -> String.eqb (x_cause x) "erased" = false ->
  (forall k, has_own n k = has_own o k) -> recorded h o v -> recorded (h ++ [write h (Some (hs_id v)) x]) n v.
Proof.
  intros Hx Eo Eold En Hn Ef Ec Hdom R. pose proof (rc_version _ _ _ R) as Hv. pose proof (version_wf v Hv) as Wv.
  pose proof (minus_image v n Wv Hn) as Mn. pose proof (minus_image v o Wv (rc_image _ _ _ R)) as Mo.
  assert (holds_all (write h (Some (hs_id v)) x) = false) as Hh by by rewrite written_holds, Eo, Ec, Ef.
  set (d := changes_of jsonb_eq (MkChange (x_op x) (x_cause x) false (x_revision x) (x_old x) (x_new x) (x_at x) (x_actor x) (x_id x) (x_restored x) (x_request x)) false).
  assert (wf_dict d /\ delta d (minus o) (minus n)) as [Wd Dd] by (apply changes_delta; try done; apply Hn).
  assert (forall k, k ∉ STAMPS -> get d k = get (minus n) k \/ get d k = None) as Hdn.
  { intros k Hk. destruct (Dd k Hk) as [_ [[? _]|[? _]]]; auto. }
  pose proof (clean_same v d (minus n) Wv Hdn (proj1 (proj2 Mn))) as Cd.
  set (c := changes (write h (Some (hs_id v)) x)).
  assert (c = d \/ c = minus n) as Hc.
  { unfold c, historyPiece, d, changes_of. cbn [changes x_op x_old x_new x_erased]. rewrite Eo, En, Ef.
    change (String.eqb "update" "create") with false. change (String.eqb "update" "update") with true. change (String.eqb "update" "delete") with false.
    cbn [orb andb]. destruct (x_erased x); [by right|by left]. }
  assert (wf_dict c /\ clean v c) as [Wc Cc] by (destruct Hc as [-> | ->]; split; try done; [apply Mn|apply Mn]).
  assert (forall id, (forall y, y ∈ STAMPS -> id <> "legacy:" +:+ y) ->
    match get (HC (Some v) (show (Some v) c)) id with Some z => Some z | None => get (HC (Some v) (show (Some v) (minus o))) id end
    = get (HC (Some v) (show (Some v) (minus n))) id) as Hov.
  { intros id Hid. pose proof (show_image (Some v) v _ Mo) as (So1 & So2 & So3). pose proof (show_image (Some v) v _ Mn) as (Sn1 & Sn2 & Sn3).
    rewrite !HC_read by (try done; first [by apply show_wf | by apply show_clean]).
    pose proof (read_overlay number_text isoDate parseJson v Wv _ _ _ id So3 Sn3 (show_delta (Some v) _ _ _ Dd) Hid) as O.
    destruct Hc as [-> | ->]; [done|].
    destruct (read_at _ _ _ v (show (Some v) (minus n)) id) eqn:E; [done|]. by destruct (read_at _ _ _ v (show (Some v) d) id). }
  split; try done.
  - rewrite rebuilt_app. intros id. rewrite (fold_row_eq _ _ _ (rc_state _ _ _ R)). revert id. unfold fold_row.
    rewrite (written_resets h v x), Hh, written_changes by done. replace (op (delivered _ _ _ _)) with (x_op x) by done. rewrite Eo.
    change (String.eqb "update" "delete") with false.
    replace (version_of versions _) with (Some v) by (symmetry; by apply (written_version h v x)).
    apply snapshot_eq; [by apply (written_meta h v x)|]. intros id Hid Hsys. rewrite get_spread by apply HC_wf. fold c.
    rewrite <- Hov by done. destruct (get (HC (Some v) (show (Some v) c)) id); [done|]. unfold snapshot. rewrite set_system_get.
    destruct (legacy_name id) as [f|] eqn:L; [|done]. cbn [mbind option_bind].
    destruct (includes SYSTEM_HISTORY_FIELDS f) eqn:I; [|done]. by destruct (Hsys f I).
  - eexists. split; [by rewrite last_snoc|]. split; [by unfold historyPiece; cbn; rewrite Eo|].
    split; [by apply (written_version h v x)|by apply (written_meta h v x)].
  - destruct (rc_since _ _ _ R) as (s & Es & Ws & Hs). eexists. split; [by rewrite since_app, Hh, Es|]. rewrite aggregated_app. fold c.
    split; [by apply wf_spread|]. intros k Hk. rewrite get_spread, Hs by done. destruct Hc as [-> | ->].
    + destruct (Dd k Hk) as [Hdk [[-> E]|[-> _]]]; [done|]. unfold has_own in Hdk. by destruct (get (minus n) k), (get (minus o) k).
    + destruct (Dd k Hk) as [Hdk _]. unfold has_own in Hdk. by destruct (get (minus n) k), (get (minus o) k).
Qed.

(** *** Every history is read back as its row. *)
Lemma life_recorded h i v : life h i v ->
  v ∈ versions /\
  match i with
  | Some n => exists w, recorded h n w /\ (full_of h (Some (hs_id v)) "update" = false -> w = v)
  | None => rebuilt h = [] /\ match last h with Some r => op r = "delete"%string | None => True end
  end.
Proof.
  induction 1 as [v Hv|h i v v' H [Hv IH] Hv' Hfresh|h i v x i' H [Hv IH] Hx Hc Hok].
  - done.
  - split; [done|]. destruct i as [n|]; [|done]. destruct IH as (w & R & _). exists w. split; [done|].
    unfold full_of. cbn. intros Hf. apply negb_false_iff, existsb_exists in Hf as (r & Hr & E). apply andb_true_iff in E as [E _].
    apply bool_decide_eq_true in E. by destruct (Hfresh r (proj2 (list_elem_of_In _ _) Hr)).
  - split; [done|]. destruct Hok as [x n Eo En Wn|x o n Eo Eold En Wn Hdom|x o Eo Eold En].
    + exists v. split; [|done]. apply recorded_whole; try done; [by rewrite Eo|by rewrite written_holds, Eo|].
      unfold changes_of. by rewrite En, Eo.
    + exists v. split; [|done]. destruct (full_of h (Some (hs_id v)) "update") eqn:F.
      { apply recorded_whole; try done; [by rewrite Eo|by rewrite written_holds, Eo, F, orb_true_r|].
        unfold changes_of. by rewrite En, Eo, F, orb_true_r. }
      destruct (String.eqb (x_cause x) "erased") eqn:Ec.
      { apply String.eqb_eq in Ec. apply recorded_whole; try done; [by rewrite Eo|by rewrite written_holds, Ec, orb_true_r|].
        unfold changes_of. by rewrite En, Eo, (Hc Ec), F. }
      destruct IH as (w & R & Ew). specialize (Ew eq_refl) as ->. by apply (recorded_over h v x o n); auto.
    + split; [|by rewrite last_snoc]. rewrite rebuilt_app. unfold fold_row. replace (op (delivered _ _ _ _)) with (x_op x) by done.
      by rewrite Eo.
Qed.

(** *** Pruning. *)

Lemma life_prefix p q i v : life (p ++ q) i v -> exists i' v', life p i' v'.
Proof.
  remember (p ++ q) as h eqn:E. intros H. revert p q E.
  induction H as [v Hv|h i v v' H IH Hv' Hfresh|h i v x i' H IH Hx Hc Hok]; intros p q E.
  - symmetry in E. apply app_nil in E as [-> _]. exists None, v. by constructor.
  - by apply (IH p q).
  - destruct q as [|y q] using rev_ind; [rewrite app_nil_r in E; subst p; exists i', v; by apply LifeWrite with i|].
    rewrite app_assoc in E. apply app_inj_tail in E as [E _]. by apply (IH p q).
Qed.

Lemma life_op h r i v : life (h ++ [r]) i v -> op r = "create"%string \/ op r = "update"%string \/ op r = "delete"%string.
Proof.
  remember (h ++ [r]) as l eqn:E. intros H. revert h r E.
  induction H as [v Hv|l i v v' H IH Hv' Hfresh|l i v x i' H IH Hx Hc Hok]; intros h r E.
  - by destruct h.
  - by apply (IH h r).
  - apply app_inj_tail in E as [_ <-]. destruct Hok; cbn; auto.
Qed.

(** A revision that holds the whole record, or deletes it, does not depend on what was before. *)
Lemma rebuilt_fresh f g r : resets (delivered pg_number pg_range versions r) = true \/ op r = "delete"%string -> rebuilt (f ++ [r]) = rebuilt (g ++ [r]).
Proof.
  intros H. rewrite !rebuilt_app. unfold fold_row. replace (op (delivered _ _ _ _)) with (op r) by done.
  destruct H as [-> | ->]; done.
Qed.

Lemma anchor_rebuilt f p r i v : life (p ++ [r]) i v -> state_eq (rebuilt (f ++ [anchor (p ++ [r]) r])) (rebuilt (p ++ [r])).
Proof.
  intros L. unfold anchor. destruct (String.eqb (op r) "update") eqn:Eo.
  - apply String.eqb_eq in Eo. destruct (life_recorded _ _ _ L) as [_ I]. destruct i as [n|]; [|destruct I as [_ I]; rewrite last_snoc in I; congruence].
    destruct I as (w & R & _). destruct (rc_since _ _ _ R) as (s & -> & Ws & Hs). intros id. rewrite (rc_state _ _ _ R). revert id.
    pose proof (version_wf w (rc_version _ _ _ R)) as Ww. pose proof (minus_image w n Ww (rc_image _ _ _ R)) as Mn.
    destruct (rc_last _ _ _ R) as (r' & El & Od & Ev & Hm). rewrite last_snoc in El. injection El as <-.
    rewrite rebuilt_app. unfold fold_row, row_changes, resets. cbn [op cause meta delivered changes].
    change (String.eqb "create" "create") with true. change (String.eqb "create" "delete") with false. cbn [orb].
    unfold delivered. cbn [meta changes]. unfold version_of in *. cbn [meta]. rewrite !Ev. apply snapshot_eq; [done|]. intros id Hid _. rewrite get_spread by apply HC_wf.
    assert (clean w (aggregated s)) as Ca by (apply (clean_same w _ (minus n)); [done|intros k Hk; left; by apply Hs|apply Mn]).
    rewrite !HC_read; try done; try (by apply show_wf); try (by apply show_clean); [|by apply show_wf, Mn|by apply show_clean, Mn].
    cbn [get]. rewrite (read_ext _ _ _ w Ww (show (Some w) (aggregated s)) (show (Some w) (minus n)) id); [by destruct (read_at _ _ _ _ _ _)| |done].
    intros k Hk. by rewrite !get_show, Hs.
  - apply String.eqb_neq in Eo. intros id. rewrite (rebuilt_fresh f p r); [done|].
    destruct (life_op p r i v L) as [E|[E|E]]; [left|done|by right]. unfold resets. cbn [op delivered]. by rewrite E.
Qed.

Lemma snoc_app {A} (x : A) l l' : (l ++ [x]) ++ l' = l ++ x :: l'.
Proof. by rewrite <- app_assoc. Qed.

Lemma rebuilt_app_eq f g l : state_eq (rebuilt f) (rebuilt g) -> state_eq (rebuilt (f ++ l)) (rebuilt (g ++ l)).
Proof.
  revert f g. induction l as [|r l IH]; intros f g H; [by rewrite !app_nil_r|].
  rewrite <- (snoc_app r f l), <- (snoc_app r g l). apply IH. rewrite !rebuilt_app. by apply fold_row_eq.
Qed.

Lemma anchored_rebuilt kept : forall f before m i v, life (before ++ kept) i v -> (1 <= m)%nat -> kept <> [] ->
  state_eq (rebuilt (f ++ take m (anchor_oldest before kept))) (rebuilt (before ++ take m kept)).
Proof.
  induction kept as [|r kept IH]; intros f before m i v L Hm Hne; [done|]. destruct m as [|m]; [lia|].
  destruct (life_prefix (before ++ [r]) kept i v) as (i' & v' & Lr); [by rewrite <- app_assoc|].
  cbn [anchor_oldest]. destruct (is_erased r) eqn:E; cbn [firstn].
  - assert (rebuilt (f ++ [r]) = rebuilt (before ++ [r])) as Er.
    { apply rebuilt_fresh. left. unfold resets. unfold is_erased in E. cbn [cause delivered]. by rewrite E, orb_true_r. }
    destruct m as [|m]; [by rewrite !firstn_O, Er|]. destruct kept as [|r' kept]; [by cbn [anchor_oldest]; rewrite !firstn_nil, Er|].
    rewrite <- (snoc_app r f), <- (snoc_app r before (take _ _)). apply (IH _ _ _ i v); [by rewrite snoc_app|lia|done].
  - rewrite <- (snoc_app _ f), <- (snoc_app r before (take m kept)). apply rebuilt_app_eq. by apply (anchor_rebuilt f before r i' v').
Qed.

Lemma anchor_revisions kept : forall before, map revision (anchor_oldest before kept) = map revision kept.
Proof.
  induction kept as [|r kept IH]; intros before; [done|]. cbn [anchor_oldest]. destruct (is_erased r); cbn [map]; [by rewrite IH|].
  f_equal. unfold anchor. destruct (String.eqb _ _); [|done]. by destruct (since _).
Qed.

(** C5. A record's revisions read back as the record: after any life of it (its row created, updated and deleted, versions of
    its model following one another, personal data erased), the fold of the revisions written for it gives exactly what reading
    the current row whole under the version of the last revision gives, field by field by stable identity, polymorphic
    references from their arms, and the system fields; a deleted record is nothing. *)
Theorem history_rebuilds h i v (L : life h i v) :
  match i with
  | Some n => exists r w, last h = Some r /\ version_of versions r = Some w /\ state_eq (rebuilt h) (snapshot w n)
  | None => rebuilt h = []
  end.
Proof.
  destruct (life_recorded h i v L) as [_ I]. destruct i as [n|]; [|by destruct I].
  destruct I as (w & R & _). destruct (rc_last _ _ _ R) as (r & E & _ & Ev & _). exists r, w. repeat split; try done. by apply R.
Qed.

(** Pruning keeps the newest revisions, as many as asked for, and of the older ones only erased ones, and every kept
    revision still rebuilds the record it rebuilt before: the oldest one kept is made a create of everything known at it. *)
Theorem prune_rebuilds h i v keep blocked (L : life h i v) (Hk : (1 <= keep)%nat) :
  exists front kept, pruneHistory keep blocked h = front ++ kept /\
    map revision kept = map revision (skipn (length h - keep) h) /\
    (blocked = true \/ forallb is_erased front = true) /\
    forall m, (1 <= m)%nat ->
      state_eq (rebuilt (front ++ take m kept)) (rebuilt (take (length h - keep) h ++ take m (skipn (length h - keep) h))).
Proof.
  unfold pruneHistory. set (old := take (length h - keep) h). set (kept := skipn (length h - keep) h).
  assert (old ++ kept = h) as E by apply firstn_skipn.
  destruct (blocked || forallb is_erased old) eqn:B.
  { exists old, kept. split; [done|]. split; [done|]. split; [|done]. destruct blocked; [by left|by right]. }
  exists (List.filter is_erased old), (anchor_oldest old kept). split; [done|]. split; [apply anchor_revisions|]. split.
  - right. apply forallb_forall. intros r Hr. by apply filter_In in Hr as [_ Hr].
  - intros m Hm. apply (anchored_rebuilt kept _ _ _ i v); [by rewrite E|done|].
    intros Ek. apply orb_false_iff in B as [_ B]. assert (length kept = 0)%nat as Z by by rewrite Ek.
    unfold kept in Z. rewrite length_skipn in Z. assert (old = []) as Eo; [|by rewrite Eo in B].
    unfold old. assert (length h = 0)%nat as -> by lia. done.
Qed.
End Life.
End Life.

(** ** What a caller is shown. *)
Module Shown.
Import Schemas Fold Reading.

Section Shown.
Context (number_text : number -> string) (isoDate : string -> option string) (parseJson : string -> option Json).
Context (versions : list HistorySchema) (viewer : Viewer) (admits : FieldSpec -> Json -> option Json).
#[local] Abbreviation row_vals := (row_changes number_text isoDate parseJson versions).
#[local] Abbreviation visible := (visibleField viewer).

(** A field the caller may name: a system column, or one whose identity is a field its exposure holds today. *)
Definition may_name (identity : string) (stored : HistoricalValue) : Prop :=
  hv_field stored ∈ SYSTEM_HISTORY_FIELDS \/
  exists f, field_now viewer identity stored = Some f /\ exposedField (exposure viewer) f = true.

Lemma visible_named identity stored : as_workspace viewer = false -> admin viewer = false ->
  visible identity stored = true -> may_name identity stored.
Proof.
  intros Hw Ha. unfold visibleField, may_name, canSeeRemoved. rewrite Hw, Ha. cbn [orb andb].
  destruct (includes SYSTEM_HISTORY_FIELDS (hv_field stored)) eqn:I; [left; by apply includes_spec|].
  destruct (field_now viewer identity stored) as [f|]; [|done]. intros E. right. by exists f.
Qed.

(** Where the members of an object built from entries come from. *)
Lemma from_entries_in l k v : get (from_entries l) k = Some v -> (k, v) ∈ l.
Proof.
  unfold from_entries. enough (forall d, get (fold_left (fun o kv => set o (fst kv) (snd kv)) l d) k = Some v -> (k, v) ∈ l \/ get d k = Some v) as H.
  { intros G. by destruct (H [] G) as [|]. }
  induction l as [|[k' v'] l IH]; intros d; cbn [fold_left fst snd]; [by right|]. intros G. destruct (IH _ G) as [H|H]; [left; by right|].
  destruct (decide (k' = k)) as [->|Hne]; [rewrite get_set_eq in H; injection H as ->; left; by left|].
  rewrite get_set_ne in H by done. by right.
Qed.

Definition from_change (row : HistoryRow) (k : string) (v : Json) : Prop :=
  exists identity stored, (identity, stored) ∈ row_vals row /\ hv_field stored = k /\ hv_value stored = v /\ visible identity stored = true.

Lemma changed_from previous row k v :
  get (rv_changed (revision_of number_text isoDate parseJson versions viewer admits previous row)) k = Some v -> from_change row k v.
Proof.
  unfold revision_of. cbn [rv_changed]. intros G. apply from_entries_in in G. apply list_elem_of_fmap in G as ([i s] & [= -> ->] & H).
  apply list_elem_of_In, filter_In in H as [H E]. apply andb_true_iff in E as [E _]. exists i, s. cbn [fst snd] in *.
  repeat split; try done. by apply list_elem_of_In.
Qed.

Lemma revisions_from_in state rows rv : rv ∈ revisions_from number_text isoDate parseJson versions viewer admits state rows ->
  exists previous row, row ∈ rows /\ rv = revision_of number_text isoDate parseJson versions viewer admits previous row.
Proof.
  revert state. induction rows as [|row rows IH]; intros state; cbn [revisions_from]; [by rewrite elem_of_nil|].
  rewrite elem_of_cons. intros [->|H]; [exists state, row; split; [by left|done]|].
  destruct (IH _ H) as (p & r & Hr & E). exists p, r. split; [by right|done].
Qed.

(** A member of the rebuilt record: the identity or number of the revision, or what a visible field of the state holds. *)
Definition from_state (definition : option HistorySchema) (state : State) (k : string) (v : Json) : Prop :=
  exists identity stored, (identity, stored) ∈ state /\ visible identity stored = true /\
    original_field definition identity stored = Some k /\ hv_value stored = v.
Definition compatible_from (state : State) (k : string) (v : Json) : Prop :=
  exists identity stored, (identity, stored) ∈ state /\ visible identity stored = true /\
    (k ∈ SYSTEM_HISTORY_FIELDS /\ hv_value stored = v \/
     exists before, convert_now number_text viewer admits identity stored before = Some (k, v)).

Lemma view_from definition state acc :
  let v := fold_left (view_value number_text viewer admits definition) state acc in
  (forall k x, get (vw_values v) k = Some x -> get (vw_values acc) k = Some x \/ from_state definition state k x) /\
  (forall k x, get (vw_compatible v) k = Some x -> get (vw_compatible acc) k = Some x \/ compatible_from state k x).
Proof.
  revert acc. induction state as [|[i s] state IH]; intros acc; cbn [fold_left]; [by split; intros k x G; left|].
  destruct (IH (view_value number_text viewer admits definition acc (i, s))) as [I1 I2].
  assert (forall k x, from_state definition state k x -> from_state definition ((i, s) :: state) k x) as M1.
  { intros k x (i' & s' & H & R). exists i', s'. split; [by right|done]. }
  assert (forall k x, compatible_from state k x -> compatible_from ((i, s) :: state) k x) as M2.
  { intros k x (i' & s' & H & R). exists i', s'. split; [by right|done]. }
  assert ((forall k x, get (vw_values (view_value number_text viewer admits definition acc (i, s))) k = Some x ->
             get (vw_values acc) k = Some x \/ from_state definition ((i, s) :: state) k x) /\
          (forall k x, get (vw_compatible (view_value number_text viewer admits definition acc (i, s))) k = Some x ->
             get (vw_compatible acc) k = Some x \/ compatible_from ((i, s) :: state) k x)) as [S1 S2].
  { unfold view_value. destruct (visible i s) eqn:V; cbn [negb]; [|by split; intros; left].
    destruct (original_field definition i s) as [o|] eqn:O; [|by split; intros; left].
    assert (forall (d : dict Json) k x y (P : Prop), get (set d o x) k = Some y -> (k = o -> x = y -> P) -> get d k = Some y \/ P) as Set1.
    { intros d k x y P G H. destruct (decide (o = k)) as [->|Hne]; [rewrite get_set_eq in G; injection G as ->; right; by apply H|].
      rewrite get_set_ne in G by done. by left. }
    split; intros k x.
    - assert (get (set (vw_values acc) o (hv_value s)) k = Some x -> get (vw_values acc) k = Some x \/ from_state definition ((i, s) :: state) k x) as G.
      { intros G. apply (Set1 _ _ _ _ _ G). intros -> <-. exists i, s. split; [by left|done]. }
      destruct (includes SYSTEM_HISTORY_FIELDS o); [done|]. by destruct (convert_now _ _ _ _ _ _) as [[f c]|].
    - destruct (includes SYSTEM_HISTORY_FIELDS o) eqn:I; cbn [vw_compatible].
      + intros G. apply (Set1 _ _ _ _ _ G). intros -> <-. exists i, s. split; [by left|]. split; [done|]. left. split; [by apply includes_spec|done].
      + destruct (convert_now number_text viewer admits i s _) as [[f c]|] eqn:C; cbn [vw_compatible]; [|by left]. intros G.
        destruct (decide (f = k)) as [->|Hne]; [|rewrite get_set_ne in G by done; by left]. rewrite get_set_eq in G. injection G as ->.
        right. exists i, s. split; [by left|]. split; [done|]. right. by eexists. }
  split; intros k x G.
  - destruct (I1 k x G) as [H|H]; [by apply S1|right; by apply M1].
  - destruct (I2 k x G) as [H|H]; [by apply S2|right; by apply M2].
Qed.

(** A caller who is no administrator is shown nothing of a record it may not read, and of one it may, only fields it may
    name today: every change listed, and every member of the rebuilt record, is the number or identity of the revision, a
    system column, or a value stored under an identity that is a field of the caller's exposure now. *)
Theorem history_shows_exposed (read : HistoryRead) (granted : option (list Pred)) (exists_ inScope : bool) (rows : list HistoryRow)
  (Hv : as_workspace viewer = false /\ admin viewer = false) :
  match readHistory number_text isoDate parseJson versions viewer admits read granted exists_ inScope rows with
  | Nothing => True
  | Revisions l =>
      l = [] \/ may_read granted exists_ inScope = true /\
        forall rv k v, rv ∈ l -> get (rv_changed rv) k = Some v ->
          exists row identity stored, row ∈ rows /\ (identity, stored) ∈ row_vals row /\ hv_field stored = k /\ hv_value stored = v /\
            may_name identity stored
  | Compatible values =>
      may_read granted exists_ inScope = true /\
      forall k v, get values k = Some v ->
        k ∈ ["id"; "revision"]%string \/ exists identity stored,
          (identity, stored) ∈ fold_rows number_text isoDate parseJson versions rows /\ may_name identity stored /\
          (k ∈ SYSTEM_HISTORY_FIELDS \/ field_now viewer identity stored = Some k)
  | Viewed _ _ _ _ _ _ v =>
      may_read granted exists_ inScope = true /\
      forall k x, get (vw_values v) k = Some x ->
        k ∈ ["id"; "revision"]%string \/ exists identity stored,
          (identity, stored) ∈ fold_rows number_text isoDate parseJson versions rows /\ hv_value stored = x /\ may_name identity stored
  end.
Proof.
  destruct Hv as [Hw Ha]. unfold readHistory. rewrite Hw, Ha. cbn [orb negb andb].
  destruct (UUID (rd_id read)); cbn [negb]; [|by destruct (rd_full read || rd_view read); [|left]].
  destruct (may_read granted exists_ inScope) eqn:M; cbn [negb]; [|by destruct (rd_full read || rd_view read); [|left]].
  destruct (rd_full read || rd_view read) eqn:W; cbn [negb].
  2: { right. split; [done|]. intros rv k v Hrv G. apply revisions_from_in in Hrv as (p & row & Hr & ->).
       apply changed_from in G as (i & s & Hi & E1 & E2 & V). exists row, i, s. repeat split; try done. by apply visible_named. }
  destruct (last rows) as [row|]; [|done]. destruct (fold_rows _ _ _ _ rows) as [|e st] eqn:F; [done|].
  destruct (rd_view read && _); [done|]. rewrite <- F.
  set (acc := MkView _ [] _ []). destruct (view_from (version_of versions row) (fold_rows number_text isoDate parseJson versions rows) acc) as [V1 V2].
  assert (forall k (x : Json), get [("id", JString (rd_id read)); ("revision", JNumber (inject_Z (revision row)))]%string k = Some x ->
            k ∈ ["id"; "revision"]%string) as Hid.
  { intros k x G. apply get_in in G. rewrite !elem_of_cons in *. destruct G as [[= -> _]|[[= -> _]|G]]; [by left|right; by left|].
    by apply elem_of_nil in G. }
  destruct (rd_view read); (split; [done|]).
  - intros k x G. destruct (V1 k x G) as [G'|(i & s & Hi & V & _ & Ev)]; [left; by apply (Hid k x)|right].
    exists i, s. repeat split; try done. by apply visible_named.
  - intros k x G. destruct (V2 k x G) as [G'|(i & s & Hi & V & C)]; [left; by apply (Hid k x)|right].
    exists i, s. split; [done|]. split; [by apply visible_named|]. destruct C as [[C _]|[b C]]; [by left|right].
    unfold convert_now in C. destruct (field_now viewer i s) as [f|]; [|done]. cbn [mbind option_bind] in C.
    destruct (get (currentKinds viewer) f); [|done]. cbn [mbind option_bind] in C.
    destruct (compatibleHistoryValue _ _ _ _); [|done]. cbn [mbind option_bind] in C. by injection C as ->.
Qed.
End Shown.
End Shown.

(** ** A note whose subject moves and whose title is renamed. *)
Module Sample.
Import Schemas Fold Recorder Reading Prune Life Shown.
Open Scope string_scope.

Definition text_kind : FieldSpec := [("kind", JString "text")].
Definition poly_kind : FieldSpec := [("kind", JString "ref"); ("to", JArray [JString "account"; JString "order"])].
Definition v1 : HistorySchema := MkSchema "v1" "line" "note" [("name", text_kind); ("subject", poly_kind)] [] [("name", "i1"); ("subject", "i2")] false.
Definition v2 : HistorySchema := MkSchema "v2" "line" "note" [("title", text_kind); ("subject", poly_kind)] [] [("title", "i1"); ("subject", "i2")] true.
Definition versions : list HistorySchema := [v1; v2].
Definition row (rev : Z) (name_ text account order : string) : Image :=
  let ref s := if String.eqb s "" then JNull else JString s in
  [("id", JString "n"); ("revision", JNumber (inject_Z rev)); ("created_at", JString "t1"); ("created_by", JString "u");
   ("updated_at", JString (String.append "t" (dec_of rev))); ("updated_by", JString "u"); (name_, JString text);
   ("subject__account", ref account); ("subject__order", ref order)].
Definition n1 : Image := row 1 "name" "first" "a" "".
Definition n2 : Image := row 2 "name" "first" "" "o".
Definition n3 : Image := row 3 "title" "second" "" "o".
Definition made : Change := MkChange "create" "direct" false 1 None (Some n1) "t1" "member:u" "n" None None.
Definition moved : Change := MkChange "update" "direct" false 2 (Some n1) (Some n2) "t2" "member:u" "n" None None.
Definition renamed : Change := MkChange "update" "direct" false 3 (Some n2) (Some n3) "t3" "member:u" "n" None None.
Definition write := historyPiece json_eqb.
Definition h1 : list HistoryRow := [] ++ [write [] (Some "v1") made].
Definition h2 : list HistoryRow := h1 ++ [write h1 (Some "v1") moved].
Definition h3 : list HistoryRow := h2 ++ [write h2 (Some "v2") renamed].

Definition number_text (q : number) : string := dec_of (Qfloor q).
Definition same_text (s : string) : option string := Some s.
Definition no_json (_ : string) : option Json := None.
Definition no_range (_ : bool) (_ : string) : option Json := None.
Definition the_life := life json_eqb versions "n".

Lemma versions_wf : Forall wf_version versions.
Proof.
  repeat apply Forall_cons_2; [..|apply Forall_nil_2]; split; try (by apply (bool_decide_unpack _), I).
  all: try (intros a b Ha Hb; cbn in Ha, Hb; rewrite !elem_of_cons, elem_of_nil in Ha, Hb;
            destruct Ha as [->|[->|[]]], Hb as [->|[->|[]]]; done).
  all: try (intros a x Ha; cbn in Ha; rewrite !elem_of_cons, elem_of_nil in Ha; destruct Ha as [->|[->|[]]]; done).
  all: intros nk x Hk; cbn in Hk; rewrite !elem_of_cons, elem_of_nil in Hk; destruct Hk as [->|[->|[]]]; cbn;
    rewrite !elem_of_cons, elem_of_nil; intros Hx; decompose [or] Hx; subst; try done; by apply (bool_decide_unpack _), I.
Qed.

Lemma row_image v n : v ∈ versions -> n ∈ [n1; n2; n3] -> wf_image v n.
Proof.
  intros Hv Hn. split; [|split].
  - rewrite !elem_of_cons, elem_of_nil in Hn. destruct Hn as [->|[->|[->|[]]]]; by apply (bool_decide_unpack _), I.
  - intros nk Hk. unfold versions in Hv. rewrite !elem_of_cons, elem_of_nil in Hv. rewrite !elem_of_cons, elem_of_nil in Hn.
    destruct Hv as [->|[->|[]]]; cbn in Hk; rewrite !elem_of_cons, elem_of_nil in Hk; destruct Hk as [->|[->|[]]]; try done;
      by destruct Hn as [->|[->|[->|[]]]].
  - intros name k t ts t1 t2 Hk E _ H1 H2. unfold versions in Hv. rewrite !elem_of_cons, elem_of_nil in Hv. rewrite !elem_of_cons, elem_of_nil in Hn.
    assert (name = "subject" /\ t = "account" /\ ts = ["order"]) as (-> & -> & ->).
    { destruct Hv as [->|[->|[]]]; cbn in Hk; rewrite !elem_of_cons, elem_of_nil in Hk; destruct Hk as [[= -> ->]|[[= -> ->]|[]]]; try done;
        cbn in E; by injection E as <- <-. }
    rewrite !elem_of_cons, elem_of_nil in H1, H2. destruct H1 as [->|[->|[]]], H2 as [->|[->|[]]], Hn as [->|[->|[->|[]]]]; by split.
Qed.

Lemma h3_life : the_life h3 (Some n3) v2.
Proof.
  assert (the_life h1 (Some n1) v1) as L1.
  { apply (LifeWrite _ _ _ [] None v1 made); [apply LifeBorn; by left|done|done|]. apply OkCreate; try done. by apply row_image; [left|left]. }
  assert (the_life h2 (Some n2) v1) as L2.
  { apply (LifeWrite _ _ _ h1 (Some n1) v1 moved); [done..|]. apply OkUpdate; try done.
    - apply row_image; [by left|by right; left].
    - intros _ k. unfold n1, n2, row, has_own. cbn [get]. by repeat case_match. }
  apply (LifeWrite _ _ _ h2 (Some n2) v2 renamed); [|done..|].
  - apply (LifeVersion _ _ _ h2 (Some n2) v1); [done|by right; left|]. intros r Hr. unfold h2, h1 in Hr. cbn in Hr.
    rewrite !elem_of_cons, elem_of_nil in Hr. by destruct Hr as [->|[->|[]]].
  - apply OkUpdate; try done. apply row_image; [by right; left|by do 2 right; left].
Qed.

Definition caller (fields : list string) : Viewer :=
  MkViewer false false true
    (MkLevel "note" "note" (MkModel "note" true [] [] [] [] [] None None None []) (Some fields) None) (Some v2).

Lemma range_value (b : bool) (t : string) : no_range b t <> Some JNull.
Proof. done. Qed.
Lemma versions_ids : NoDup (map hs_id versions).
Proof. by apply (bool_decide_unpack _), I. Qed.
Definition rebuilt_sample : list HistoryRow -> State := rebuilt number_text same_text no_json number_text no_range versions.
End Sample.

Lemma history_rebuilds_witness :
  get (Sample.rebuilt_sample Sample.h3) "i2"%string =
    Some (Schemas.MkValue (Some Sample.v2) "subject" (JObject [("model", JString "order"); ("id", JString "o")]%string)).
Proof.
  pose proof (Life.history_rebuilds Sample.number_text Sample.same_text Sample.no_json json_eqb Sample.number_text Sample.no_range Sample.versions "n"
    json_eqb_eq eq_refl Sample.range_value Sample.versions_ids Sample.versions_wf Sample.h3 (Some Sample.n3) Sample.v2 Sample.h3_life) as (r & w & El & Ev & E).
  vm_compute in El. injection El as <-. vm_compute in Ev. injection Ev as <-.
  etransitivity; [apply (E "i2"%string)|]. by vm_compute.
Defined.

Lemma prune_rebuilds_witness :
  exists front kept, Prune.pruneHistory 1 false Sample.h3 = front ++ kept /\
    Life.state_eq (Sample.rebuilt_sample (front ++ take 1 kept)) (Sample.rebuilt_sample Sample.h3).
Proof.
  destruct (Life.prune_rebuilds Sample.number_text Sample.same_text Sample.no_json json_eqb Sample.number_text Sample.no_range Sample.versions "n"
    json_eqb_eq eq_refl Sample.range_value Sample.versions_ids Sample.versions_wf Sample.h3 (Some Sample.n3) Sample.v2 1 false Sample.h3_life (le_n 1))
    as (front & kept & E & _ & _ & H).
  exists front, kept. split; [done|]. exact (H 1%nat (le_n 1)).
Defined.

Lemma history_shows_exposed_witness :
  exists l, Fold.readHistory Sample.number_text Sample.same_text Sample.no_json Sample.versions (Sample.caller ["subject"%string]) (fun _ v => Some v)
      (Fold.MkHistoryRead "note" "00000000-0000-0000-0000-00000000000a" None false false) (Some [PConst true]) false false Sample.h3 = Fold.Revisions l /\
    (l = [] \/ Fold.may_read (Some [PConst true]) false false = true).
Proof.
  pose proof (Shown.history_shows_exposed Sample.number_text Sample.same_text Sample.no_json Sample.versions (Sample.caller ["subject"%string])
    (fun _ v => Some v) (Fold.MkHistoryRead "note" "00000000-0000-0000-0000-00000000000a" None false false) (Some [PConst true]) false false Sample.h3
    (conj eq_refl eq_refl)) as H.
  destruct (Fold.readHistory _ _ _ _ _ _ _ _ _ _ _) as [l| | |] eqn:E; [|by vm_compute in E..].
  exists l. split; [done|]. destruct H as [H|[H _]]; [by left|by right].
Defined.
