(* ===== verification/Queue.v ===== *)
(** The run queue: [packages/bolt/src/engine/runs/queue.ts] over the [sys_run] table of
    [packages/bolt/src/system/data/model/sys_run]. The one INSERT every enqueued run goes through with its conflict rule, the
    next due time of a commit, the declared triggers, the writer a model effect runs as, an effect's run name, and the runs a
    commit's row changes queue. A statement's SQL is the list function it computes; the table is a list of rows, [id] its
    primary key and [key] its unique column. *)
From Stdlib Require Import Sorted.
From S2P Require Import Prelude Ir Contracts Catalog Rate.

(** ** A run. *)

Inductive RunState := SQueued | SRunning | SSucceeded | SFailed | SStopped | SSkipped.
#[export] Instance RunState_eq_dec : EqDecision RunState. Proof. solve_decision. Defined.

(** [RunTrigger] of engine/contracts.ts. *)
Inductive EffectVerb := Created | Updated | Deleted.
#[export] Instance EffectVerb_eq_dec : EqDecision EffectVerb. Proof. solve_decision. Defined.
Inductive RunTrigger :=
| TrigPerson (actor : EngineActor) (conversation : option string)
| TrigCron
| TrigWebhook
| TrigEffect (model : string) (verb : EffectVerb) (records : list string)
| TrigSchedule (by_ : option (string * string)).

(** [RunError] and [RunAttempt] of attempt.ts; [er_rest] holds the error's optional members besides its message. *)
Record RunError := MkRunError { er_code : string; er_message : option string; er_rest : dict Json }.
Definition run_error (code message : string) : RunError := MkRunError code (Some message) [].
Record RunAttempt := MkRunAttempt {
  ra_attempt : Z; ra_at : Z; ra_state : RunState; ra_output : option Json; ra_error : option RunError;
  ra_warnings : list string; ra_missed : bool }.

(** One row of [sys_run]; an absent column is [None], instants are milliseconds. *)
Record SysRun := MkRun {
  id : string; automation : string; input : Json; due_at : Z; key : option string; cause : string; depth : Z;
  state : RunState; attempts : Z; leases : Z; run_key : option string; started_at : option Z; finished_at : option Z;
  progress : option Json; output : option Json; error : option RunError; results : list RunAttempt;
  actor : option string; starter : option Holder; trigger : option RunTrigger }.

(** ** The INSERT. *)

(** One row of the INSERT's source, before its [coalesce]s. *)
Record Incoming := MkIncoming {
  in_id : option string; in_automation : string; in_input : option Json; in_due : option Z; in_key : option string;
  in_cause : string; in_depth : option Z; in_actor : option string; in_starter : option Holder;
  in_trigger : option RunTrigger; in_state : option RunState; in_attempts : option Z; in_started : option Z;
  in_error : option RunError; in_finished : option Z }.

(** [QueuedRun] of engine/contracts.ts as the INSERT reads it. *)
Definition queued_run (automation : string) (input : Json) (dueAt : Z) (key id : option string) (cause : string) (depth : Z)
    (actor : option string) (starter : option Holder) (trigger : option RunTrigger) : Incoming :=
  MkIncoming id automation (Some input) (Some dueAt) key cause (Some depth) actor starter trigger None None None None None.

(** The row inserted: [uuid] is its [gen_random_uuid()], [now_] the statement's time. *)
Definition inserted (now_ : Z) (uuid : string) (r : Incoming) : SysRun :=
  {| id := default uuid (in_id r); automation := in_automation r; input := default (JObject []) (in_input r);
     due_at := default now_ (in_due r); key := in_key r; cause := in_cause r; depth := default 0 (in_depth r);
     state := default SQueued (in_state r); attempts := default 0 (in_attempts r); leases := 0; run_key := None;
     started_at := in_started r; finished_at := in_finished r; progress := None; output := None; error := in_error r;
     results := []; actor := in_actor r; starter := in_starter r; trigger := in_trigger r |}.

Inductive ConflictRule := NoConflict | Replace | Keep.

Definition same_id (r s : SysRun) : bool := String.eqb (id r) (id s).
Definition same_key (r s : SysRun) : bool := match key r, key s with Some a, Some b => String.eqb a b | _, _ => false end.

(** [DO UPDATE SET input = excluded.input, due_at = excluded.due_at] and its [WHERE]. *)
Definition replaceable (excluded s : SysRun) : bool :=
  String.eqb (automation s) (automation excluded) && bool_decide (state s = SQueued) && (attempts s =? 0).
Definition with_input_due (i : Json) (d : Z) (s : SysRun) : SysRun :=
  {| id := id s; automation := automation s; input := i; due_at := d; key := key s; cause := cause s; depth := depth s;
     state := state s; attempts := attempts s; leases := leases s; run_key := run_key s; started_at := started_at s;
     finished_at := finished_at s; progress := progress s; output := output s; error := error s; results := results s;
     actor := actor s; starter := starter s; trigger := trigger s |}.
Definition replace_in (excluded : SysRun) (t : list SysRun) : list SysRun :=
  map (fun s => if same_key excluded s && replaceable excluded s then with_input_due (input excluded) (due_at excluded) s else s) t.

(** What one inserted row leaves: the table, the rows the command returned so far. A second row on one key of the same
    command is the database's cardinality violation. *)
Definition unique_violation {A} : outcome A := Throw (JsError "DbError" "23505").
Definition cardinality_violation {A} : outcome A := Throw (JsError "DbError" "21000").
Definition insert_one (rule : ConflictRule) (acc : list SysRun * list SysRun) (row : SysRun) : outcome (list SysRun * list SysRun) :=
  let '(t, returned) := acc in
  let by_id := existsb (same_id row) t in
  let by_key := existsb (same_key row) t in
  match rule with
  | NoConflict => if by_id || by_key then unique_violation else Ok (t ++ [row], returned ++ [row])
  | Keep => if by_id || by_key then Ok (t, returned) else Ok (t ++ [row], returned ++ [row])
  | Replace =>
      if by_key then
        if existsb (same_key row) returned then cardinality_violation
        else Ok (replace_in row t, returned ++ List.filter (same_key row) (List.filter (fun s => replaceable row s) (replace_in row t)))
      else if by_id then unique_violation
      else Ok (t ++ [row], returned ++ [row])
  end.
Fixpoint insert_all (rule : ConflictRule) (rows : list SysRun) (acc : list SysRun * list SysRun) : outcome (list SysRun * list SysRun) :=
  match rows with
  | [] => Ok acc
  | r :: rows' => a ← insert_one rule acc r; insert_all rule rows' a
  end.

(** [RETURNING id, CASE WHEN state = 'queued' THEN due_at ELSE NULL END]. *)
Definition queued_due (r : SysRun) : option Z := if bool_decide (state r = SQueued) then Some (due_at r) else None.
Definition returning (r : SysRun) : string * option Z := (id r, queued_due r).

(** [enqueue(c, rows, { when, conflict })]: [when] is the piece's gate as the statement finds it; [uuids] the ids
    generated for the rows in turn. *)
Definition enqueue (now_ : Z) (uuids : nat -> string) (rows : list Incoming) (when_ : bool) (conflict : ConflictRule)
    (t : list SysRun) : outcome (list SysRun * list (string * option Z)) :=
  if when_ then
    a ← insert_all conflict (imap (fun i => inserted now_ (uuids i)) rows) (t, []);
    Ok (fst a, map returning (snd a))
  else Ok (t, []).

(** [nextDue(c)]: the least due time over the commit's pieces and its notices; NULLs are skipped. *)
Definition least (a b : option Z) : option Z :=
  match a, b with Some x, Some y => Some (Z.min x y) | Some x, None => Some x | None, b => b end.
Definition min_due (ds : list (option Z)) : option Z := fold_right least None ds.
Definition nextDue (pieces : list (list (string * option Z))) (notices : list (option Z)) : option Z :=
  min_due (concat (map (map snd) pieces) ++ notices).

(** ** Declared triggers. *)

Record RetrySpec := MkRetry { rs_attempts : Z; rs_backoff : option string }.
(** What the queue and the runs read of an automation's declaration; [as_max] is its [concurrency.max]. *)
Record AutomationSpec := MkAutomation {
  as_on : option Json; as_policies : list string; as_retry : option RetrySpec; as_max : option Z }.
(** The manifest's automations, the effects each model exposes, and the workspace's zone. *)
Record RunManifest := MkRunManifest {
  rm_automations : dict AutomationSpec; rm_effects : dict (dict bool); rm_tz : string }.

Inductive TriggerSpec :=
| CronSpec (cron : string) (tz rest : option string)
| WebhookSpec (webhook scheme secret : string).
Record CronEntry := MkCron { ce_id : string; ce_cron : string; ce_zone : string }.
Record WebhookTrigger := MkWebhook { wt_automation : string; wt_path : string; wt_scheme : string; wt_secret : string }.
Record Triggers := MkTriggers { tr_crons : list CronEntry; tr_webhooks : list WebhookTrigger; tr_rests : dict number }.

(** An optional text member: absent, a text, or a value the schema refuses. *)
Definition text_member (o : dict Json) (k : string) : option (option string) :=
  match get o k with None => Some None | Some (JString s) => Some (Some s) | Some _ => None end.
(** [Schema.decodeUnknownResult(TriggerSpec)]: the first member of the union that reads it. *)
Definition decodeCron (o : dict Json) : option TriggerSpec :=
  match get o "cron", text_member o "tz", text_member o "rest" with
  | Some (JString c), Some tz, Some rest => Some (CronSpec c tz rest)
  | _, _, _ => None
  end.
Definition decodeWebhook (o : dict Json) : option TriggerSpec :=
  match get o "webhook", get o "verify" with
  | Some (JString w), Some (JObject v) =>
      match get v "scheme", get v "secret" with
      | Some (JString scheme), Some (JString secret) => Some (WebhookSpec w scheme secret)
      | _, _ => None
      end
  | _, _ => None
  end.
Definition decodeTrigger (j : Json) : option TriggerSpec :=
  match j with
  | JObject o => match decodeCron o with Some t => Some t | None => decodeWebhook o end
  | _ => None
  end.

Definition MACROS : dict string :=
  [("@yearly", "0 0 1 1 *"); ("@annually", "0 0 1 1 *"); ("@monthly", "0 0 1 * *"); ("@weekly", "0 0 * * 0");
   ("@daily", "0 0 * * *"); ("@hourly", "0 * * * *")]%string.
Definition fields (cron : string) : string := default cron (get MACROS (trim cron)).

Definition declared (on : option Json) : list Json :=
  match on with None => [] | Some (JArray l) => l | Some x => [x] end.
Definition trigger_one (tz automation : string) (t : Triggers) (x : TriggerSpec) : outcome Triggers :=
  match x with
  | CronSpec cron zone rest =>
      let crons := tr_crons t ++ [MkCron automation (fields cron) (default tz zone)] in
      match rest with
      | None => Ok (MkTriggers crons (tr_webhooks t) (tr_rests t))
      | Some r => d ← Time.duration r; Ok (MkTriggers crons (tr_webhooks t) (set (tr_rests t) automation d))
      end
  | WebhookSpec path scheme secret =>
      Ok (MkTriggers (tr_crons t) (tr_webhooks t ++ [MkWebhook automation path scheme secret]) (tr_rests t))
  end.
Fixpoint trigger_all (tz automation : string) (xs : list TriggerSpec) (t : Triggers) : outcome Triggers :=
  match xs with [] => Ok t | x :: xs' => t' ← trigger_one tz automation t x; trigger_all tz automation xs' t' end.
Fixpoint triggers_from (tz : string) (autos : dict AutomationSpec) (t : Triggers) : outcome Triggers :=
  match autos with
  | [] => Ok t
  | (automation, spec) :: autos' =>
      match mapM decodeTrigger (declared (as_on spec)) with
      | None => Throw (JsError "BoltError" ("automation " +:+ automation))
      | Some on => t' ← trigger_all tz automation on t; triggers_from tz autos' t'
      end
  end.
Definition triggersOf (m : RunManifest) : outcome Triggers := triggers_from (rm_tz m) (rm_automations m) (MkTriggers [] [] []).

(** ** Who wrote. *)

Record Writer := MkWriter { wr_starter : Holder; wr_actor : string; wr_depth : Z }.
Definition is_automation (b : SystemBy) : bool := match b with ByAutomation _ => true | _ => false end.
Definition holderOf (a : Authority) : Holder :=
  match au_run a with
  | Some (_, holder) => holder
  | None =>
      MkHolder (au_actor a) (au_policies a) (au_admin a)
        (match au_actor a with ActSystem _ b => negb (is_automation b) | _ => false end) (au_teamTree a) (au_scopes a)
  end.
Definition writerOf (a : Authority) : Writer :=
  let holder := holderOf a in
  MkWriter holder (actorRef (h_actor holder)) (match au_run a with None => 0 | Some (d, _) => d + 1 end).

(** ** Model effects. *)

Definition EFFECT_VERBS : list EffectVerb := [Created; Updated; Deleted].
Definition verb_name (v : EffectVerb) : string :=
  match v with Created => "created" | Updated => "updated" | Deleted => "deleted" end.
Definition effectRun (model : string) (verb : EffectVerb) : string := model +:+ ".effect." +:+ verb_name verb.

(** [s.lastIndexOf(pat)]: the last position at which [pat] starts; [None] for -1. *)
Fixpoint lastIndexOf (pat s : string) : option nat :=
  match s with
  | EmptyString => if String.eqb pat "" then Some O else None
  | String _ s' =>
      match lastIndexOf pat s' with
      | Some i => Some (S i)
      | None => if String.eqb (takes (String.length pat) s) pat then Some O else None
      end
  end.
(** [m.exposures[model]?.effect?.[verb] === true]. *)
Definition exposes (m : RunManifest) (model : string) (verb : EffectVerb) : bool :=
  match get (rm_effects m) model with
  | Some e => match get e (verb_name verb) with Some b => b | None => false end
  | None => false
  end.
Definition effectOf (m : RunManifest) (automation : string) : option (string * EffectVerb) :=
  match lastIndexOf ".effect." automation with
  | None | Some O => None
  | Some at_ =>
      let model := takes at_ automation in
      match List.find (fun v => String.eqb (verb_name v) (drop (at_ + 8) automation)) EFFECT_VERBS with
      | Some verb => if exposes m model verb then Some (model, verb) else None
      | None => None
      end
  end.

Definition OP (v : EffectVerb) : CapturedOp := match v with Created => OpCreate | Updated => OpUpdate | Deleted => OpDelete end.
Definition storedFields (cat : Catalog) (model : string) : outcome (list string) :=
  match get (models cat) model with
  | None => Throw (JsError "BoltError" ("the effect names missing model " +:+ model))
  | Some info =>
      Ok (map f_column (List.filter (fun f => negb (f_derived f) && negb (f_computed f) && negb (includes SYSTEM_COLUMNS (f_name f)))
                (values (mi_fields info)))
          ++ List.filter (fun k => negb (has_own (mi_fields info) k)) (keys (mi_one info)))
  end.

(** One row change as the statement's source holds it: [c, id, op, o, n]. *)
Record RowChange := MkRowChange { x_c : string; x_id : string; x_op : CapturedOp; x_o : Row; x_n : Row }.
(** [(x.o -> f) IS DISTINCT FROM (x.n -> f)]; images are in canonical form. *)
Definition distinct_at (x : RowChange) (f : string) : bool :=
  match get (x_o x) f, get (x_n x) f with
  | None, None => false
  | Some a, Some b => negb (json_eqb a b)
  | _, _ => true
  end.
Definition changed (stored : list string) (verb : EffectVerb) (x : RowChange) : bool :=
  match verb with Updated => existsb (distinct_at x) stored | _ => true end.

(** The [WHERE] of one select. *)
Definition reached (stored : list string) (model : string) (verb : EffectVerb) (x : RowChange) : bool :=
  String.eqb (x_c x) model && bool_decide (x_op x = OP verb) && changed stored verb x.

(** [ORDER BY x.id] of the aggregates. *)
Fixpoint insert_change (x : RowChange) (l : list RowChange) : list RowChange :=
  match l with
  | [] => [x]
  | y :: l' => if str_ltb (x_id y) (x_id x) then y :: insert_change x l' else x :: l
  end.
Definition by_id (l : list RowChange) : list RowChange := fold_right insert_change [] l.

Definition images (verb : EffectVerb) (xs : list RowChange) : string * Json :=
  match verb with
  | Updated => ("changes"%string, JArray (map (fun x => JObject [("before", JObject (x_o x)); ("after", JObject (x_n x))]%string) xs))
  | Created => ("rows"%string, JArray (map (fun x => JObject (x_n x)) xs))
  | Deleted => ("rows"%string, JArray (map (fun x => JObject (x_o x)) xs))
  end.
(** One select: the changes of one model and verb, none when nothing matches. *)
Definition effect_select (stored : list string) (model : string) (verb : EffectVerb) (source : list RowChange) : list (string * Json) :=
  let xs := by_id (List.filter (reached stored model verb) source) in
  match xs with
  | [] => []
  | _ => [(effectRun model verb, JObject [("ids"%string, JArray (map (fun x => JString (x_id x)) xs)); images verb xs])]
  end.
Definition effects_of (m : RunManifest) : list (string * EffectVerb) :=
  flat_map (fun me => map (fun v => (fst me, v)) (List.filter (exposes m (fst me)) EFFECT_VERBS)) (rm_effects m).
Definition stored_for (cat : Catalog) (mv : string * EffectVerb) : outcome (list string) :=
  match snd mv with Updated => storedFields cat (fst mv) | _ => Ok [] end.
Fixpoint selects (cat : Catalog) (source : list RowChange) (es : list (string * EffectVerb)) : outcome (list (string * Json)) :=
  match es with
  | [] => Ok []
  | mv :: es' =>
      stored ← stored_for cat mv; rest ← selects cat source es';
      Ok (effect_select stored (fst mv) (snd mv) source ++ rest)
  end.

Definition WRITE_DEPTH : Z := 8.
Definition DEPTH_ERROR : RunError := run_error "depth" "Effects chain at most 8 deep: this write's effect did not run.".
Definition effect_run (now_ : Z) (writer : Writer) (ai : string * Json) : Incoming :=
  let deep := WRITE_DEPTH <? wr_depth writer in
  MkIncoming None (fst ai) (Some (snd ai)) (Some now_) None "effect" (Some (wr_depth writer)) (Some (wr_actor writer))
    (Some (wr_starter writer)) None (if deep then Some SFailed else None) None None (if deep then Some DEPTH_ERROR else None)
    (if deep then Some now_ else None).
(** [queueEffects(m, c, now, writer, source)]: the rows its piece inserts. *)
Definition queueEffects (m : RunManifest) (cat : Catalog) (now_ : Z) (writer : Writer) (source : list RowChange) : outcome (list Incoming) :=
  ss ← selects cat source (effects_of m); Ok (map (effect_run now_ writer) ss).

Module QueueFacts.

(** ** The table's constraints. *)

Definition table_ok (t : list SysRun) : Prop := NoDup (map id t) /\ NoDup (omap key t).
(** A run someone has claimed, or that has ended. *)
Definition started (s : SysRun) : Prop := state s <> SQueued \/ attempts s <> 0.

Lemma existsb_false {A} (f : A -> bool) (l : list A) : existsb f l = false <-> forall x, x ∈ l -> f x = false.
Proof.
  induction l as [|a l IH]; cbn [existsb]; [split; [intros _ x Hx; by apply elem_of_nil in Hx|done]|].
  rewrite orb_false_iff, IH. split.
  - intros [Ha H] x [->|Hx]%elem_of_cons; auto.
  - intros H. split; [apply H; left|intros x Hx; apply H; by right].
Qed.
Lemma existsb_true {A} (f : A -> bool) (l : list A) : existsb f l = true <-> exists x, x ∈ l /\ f x = true.
Proof. rewrite existsb_exists. by setoid_rewrite <- list_elem_of_In. Qed.

Lemma same_key_spec (r s : SysRun) : same_key r s = true <-> exists k, key r = Some k /\ key s = Some k.
Proof.
  unfold same_key. destruct (key r) as [a|], (key s) as [b|]; split; try done; try (intros (k & H1 & H2); congruence).
  - intros ->%String.eqb_eq. eauto.
  - intros (k & [= <-] & [= <-]). apply String.eqb_refl.
Qed.

Lemma table_ok_snoc (t : list SysRun) (row : SysRun) :
  table_ok t -> existsb (same_id row) t = false -> existsb (same_key row) t = false -> table_ok (t ++ [row]).
Proof.
  intros [Hi Hk] Fi Fk. rewrite existsb_false in Fi, Fk. split.
  - rewrite map_app. apply NoDup_app. split_and!; [done| |apply NoDup_singleton].
    intros i (s & -> & Hs)%list_elem_of_fmap Hin%list_elem_of_singleton. specialize (Fi s Hs). unfold same_id in Fi.
    rewrite <- Hin, String.eqb_refl in Fi. done.
  - rewrite omap_app. cbn [omap list_omap]. destruct (key row) as [k|] eqn:Ek; cbn; [|by rewrite app_nil_r].
    apply NoDup_app. split_and!; [done| |apply NoDup_singleton].
    intros k' (s & Hs & Es)%list_elem_of_omap ->%list_elem_of_singleton. specialize (Fk s Hs).
    assert (same_key row s = true) by (apply same_key_spec; eauto). congruence.
Qed.

Lemma replace_in_cols {A} (f : SysRun -> A) (e : SysRun) (t : list SysRun) :
  (forall i d s, f (with_input_due i d s) = f s) -> map f (replace_in e t) = map f t.
Proof.
  intros Hf. unfold replace_in. rewrite map_map. apply map_ext. intros s. destruct (same_key e s && replaceable e s); [apply Hf|done].
Qed.
Lemma omap_key (t : list SysRun) : omap key t = omap (fun k => k) (map key t).
Proof. induction t as [|s t IH]; cbn; [done|]. destruct (key s); cbn; by rewrite IH. Qed.
Lemma table_ok_replace (e : SysRun) (t : list SysRun) : table_ok t -> table_ok (replace_in e t).
Proof.
  intros [Hi Hk]. split; [by rewrite replace_in_cols|]. rewrite omap_key in *. by rewrite replace_in_cols.
Qed.
Lemma started_not_replaceable (e s : SysRun) : started s -> replaceable e s = false.
Proof.
  intros H. unfold replaceable. destruct H as [H|H].
  - rewrite (bool_decide_eq_false_2 _ H). by rewrite andb_false_r.
  - apply Z.eqb_neq in H. rewrite H. by rewrite andb_false_r.
Qed.
Lemma replace_in_started (e s : SysRun) (t : list SysRun) : started s -> s ∈ t -> s ∈ replace_in e t.
Proof.
  intros Hs Hin. apply list_elem_of_fmap. exists s. split; [|done]. by rewrite (started_not_replaceable e s Hs), andb_false_r.
Qed.

(** ** What one INSERT keeps. *)

Definition kept (t t' : list SysRun) : Prop := (table_ok t -> table_ok t') /\ (forall s, started s -> s ∈ t -> s ∈ t').
Lemma kept_refl t : kept t t. Proof. split; auto. Qed.
Lemma kept_trans t1 t2 t3 : kept t1 t2 -> kept t2 t3 -> kept t1 t3.
Proof. intros [A1 B1] [A2 B2]. split; auto. Qed.
Lemma kept_snoc (t : list SysRun) (row : SysRun) :
  existsb (same_id row) t = false -> existsb (same_key row) t = false -> kept t (t ++ [row]).
Proof. intros Hi Hk. split; [intros; by apply table_ok_snoc|]. intros s _ Hs. apply elem_of_app. by left. Qed.
Lemma kept_replace (e : SysRun) (t : list SysRun) : kept t (replace_in e t).
Proof. split; [apply table_ok_replace|]. intros s H1 H2. by apply replace_in_started. Qed.

Lemma insert_one_kept (rule : ConflictRule) (t ret t' ret' : list SysRun) (row : SysRun) :
  insert_one rule (t, ret) row = Ok (t', ret') -> kept t t'.
Proof.
  unfold insert_one. intros H.
  destruct (existsb (same_id row) t) eqn:Hi, (existsb (same_key row) t) eqn:Hk, (existsb (same_key row) ret) eqn:Hr, rule;
    cbn in H; try discriminate H; injection H as <- <-; (apply kept_refl || apply kept_replace || by apply kept_snoc).
Qed.
Lemma insert_all_kept (rule : ConflictRule) (rows t ret t' ret' : list SysRun) :
  insert_all rule rows (t, ret) = Ok (t', ret') -> kept t t'.
Proof.
  revert t ret. induction rows as [|r rows IH]; intros t ret H; cbn [insert_all] in H; inv_outcome; [apply kept_refl|].
  destruct a as [t1 ret1]. eapply kept_trans; [by eapply insert_one_kept|by eapply IH].
Qed.
Lemma enqueue_kept now_ uuids rows when_ rule t t' ret :
  enqueue now_ uuids rows when_ rule t = Ok (t', ret) -> kept t t'.
Proof.
  unfold enqueue. destruct when_; [|intros [= <- <-]; apply kept_refl].
  intros H. inv_outcome. destruct a as [t1 ret1]. by eapply insert_all_kept.
Qed.

(** Whatever an enqueue inserts, and under whichever conflict rule, the table keeps its primary key and its unique key
    column, and no run that was claimed or has ended is touched: only a queued run no one has started is ever replaced. *)
Theorem enqueue_safe now_ uuids rows when_ rule (t t' : list SysRun) ret :
  enqueue now_ uuids rows when_ rule t = Ok (t', ret) ->
  (table_ok t -> table_ok t') /\ (forall s, s ∈ t -> started s -> s ∈ t').
Proof. intros H. destruct (enqueue_kept _ _ _ _ _ _ _ _ H) as [A B]. split; auto. Qed.

(** ** The keyed run. *)

Lemma key_unique (t : list SysRun) (a b : SysRun) (k : string) :
  NoDup (omap key t) -> a ∈ t -> b ∈ t -> key a = Some k -> key b = Some k -> a = b.
Proof.
  induction t as [|s t IH]; intros Hn Ha Hb Ka Kb; [by apply elem_of_nil in Ha|].
  assert (Hin : forall x, x ∈ t -> key x = Some k -> k ∈ omap key t) by (intros x Hx Hk; apply list_elem_of_omap; eauto).
  cbn in Hn. apply elem_of_cons in Ha as [->|Ha], Hb as [->|Hb]; [done| | |].
  - rewrite Ka in Hn. apply NoDup_cons in Hn as [Hn _]. exfalso. apply Hn. by apply (Hin b).
  - rewrite Kb in Hn. apply NoDup_cons in Hn as [Hn _]. exfalso. apply Hn. by apply (Hin a).
  - apply IH; auto. destruct (key s); [by apply NoDup_cons in Hn as [_ Hn]|done].
Qed.
Lemma filter_one {A} (f : A -> bool) (l : list A) (h : A) :
  NoDup l -> h ∈ l -> f h = true -> (forall x, x ∈ l -> f x = true -> x = h) -> List.filter f l = [h].
Proof.
  induction l as [|a l IH]; intros Hn Hh Fh U; [by apply elem_of_nil in Hh|].
  apply NoDup_cons in Hn as [Ha Hn]. cbn [List.filter]. destruct (f a) eqn:Ea.
  - assert (a = h) as <- by (apply U; [left|done]). f_equal.
    destruct (List.filter f l) as [|b m] eqn:Eb; [done|]. exfalso. apply Ha.
    assert (Hb : b ∈ List.filter f l) by (rewrite Eb; left). apply list_elem_of_In, filter_In in Hb as [Hb Fb].
    apply list_elem_of_In in Hb. assert (b = a) as <- by (apply U; [by right|done]). done.
  - apply elem_of_cons in Hh as [->|Hh]; [congruence|]. apply IH; auto. intros x Hx. apply U. by right.
Qed.
Lemma filter_none {A} (f : A -> bool) (l : list A) : (forall x, x ∈ l -> f x = false) -> List.filter f l = [].
Proof.
  induction l as [|a l IH]; intros U; [done|]. cbn [List.filter]. rewrite (U a); [|left]. apply IH. intros x Hx. apply U. by right.
Qed.
Lemma table_rows (t : list SysRun) : table_ok t -> NoDup t.
Proof. intros [H _]. by eapply NoDup_fmap_1. Qed.
Lemma filter_filter {A} (f g : A -> bool) (l : list A) : List.filter f (List.filter g l) = List.filter (fun x => g x && f x) l.
Proof. induction l as [|a l IH]; cbn [List.filter]; [done|]. destruct (g a); cbn; [destruct (f a); by rewrite IH|done]. Qed.

(** What the [DO UPDATE] of a row's key does to the run [old] that holds it. *)
Lemma replace_in_held (row old : SysRun) (k : string) (t : list SysRun) :
  table_ok t -> key row = Some k -> old ∈ t -> key old = Some k ->
  let t' := replace_in row t in
  let hit := fun s => replaceable row s && same_key row s in
  if replaceable row old then
    with_input_due (input row) (due_at row) old ∈ t' /\ List.filter hit t' = [with_input_due (input row) (due_at row) old]
  else t' = t /\ List.filter hit t' = [].
Proof.
  intros Hok Kr Ho Ko t' hit.
  assert (Hok' : table_ok t') by (by apply table_ok_replace).
  assert (Ks : same_key row old = true) by (apply same_key_spec; eauto).
  assert (Kw : forall s, same_key row s = true -> key s = Some k)
    by (intros s (k' & E1 & E2)%same_key_spec; congruence).
  destruct (replaceable row old) eqn:Er.
  - assert (Hin : with_input_due (input row) (due_at row) old ∈ t').
    { apply list_elem_of_fmap. exists old. split; [|done]. by rewrite Ks, Er. }
    split; [done|]. apply filter_one; [by apply table_rows|done|unfold hit; apply andb_true_iff; split; [exact Er|exact Ks]|].
    intros x Hx [_ Hs]%andb_true_iff. apply (key_unique t' x _ k (proj2 Hok') Hx Hin); auto.
  - assert (Hsame : t' = t).
    { unfold t', replace_in. rewrite <- (map_id t) at 2. apply map_ext_in. intros s Hs%list_elem_of_In.
      destruct (same_key row s) eqn:Es; [|done]. assert (s = old) as -> by (apply (key_unique t s old k (proj2 Hok)); auto). by rewrite Er. }
    split; [done|]. rewrite Hsame. apply filter_none. intros s Hs. unfold hit. destruct (same_key row s) eqn:Es; [|by rewrite andb_false_r].
    assert (s = old) as -> by (apply (key_unique t s old k (proj2 Hok)); auto). by rewrite Er.
Qed.

(** Scheduling under a key: afterwards exactly one run holds the key. It is the new run when none held it; the run that
    held it, with the new input and due time, when that run is the same automation's, still queued and never started;
    else the run that held it, untouched, and nothing is queued. *)
Theorem enqueue_replaces now_ uuids (r : Incoming) (k : string) (t t' : list SysRun) ret :
  table_ok t -> in_key r = Some k -> enqueue now_ uuids [r] true Replace t = Ok (t', ret) ->
  let row := inserted now_ (uuids O) r in
  exists held, held ∈ t' /\ (forall s, s ∈ t' -> key s = Some k -> s = held) /\ key held = Some k /\
    ((forall s, s ∈ t -> key s <> Some k) /\ held = row /\ t' = t ++ [row] /\ ret = [returning row] \/
     exists old, old ∈ t /\ key old = Some k /\ length t' = length t /\
       (replaceable row old = true /\ held = with_input_due (input row) (due_at row) old /\ ret = [(id old, Some (due_at row))] \/
        replaceable row old = false /\ held = old /\ t' = t /\ ret = [])).
Proof.
  intros Hok Hk H row. unfold enqueue in H. cbn [imap insert_all] in H. change (inserted now_ (uuids O) r) with row in H.
  assert (Kr : key row = Some k) by (unfold row; cbn; exact Hk).
  inv_outcome. destruct a as [t1 ret1]. cbn [fst snd].
  assert (Hok' : table_ok t1) by (destruct (insert_one_kept _ _ _ _ _ _ E0) as [A _]; auto).
  assert (U : forall h, h ∈ t1 -> key h = Some k -> forall s, s ∈ t1 -> key s = Some k -> s = h)
    by (intros h Hh Eh s Hs Es; exact (key_unique t1 s h k (proj2 Hok') Hs Hh Es Eh)).
  unfold insert_one in E0. destruct (existsb (same_key row) t) eqn:Eb; cbn [existsb] in E0.
  - apply existsb_true in Eb as (old & Ho & (k' & E1 & E2)%same_key_spec). assert (k' = k) as -> by congruence.
    injection E0 as <- <-. rewrite filter_filter. pose proof (replace_in_held row old k t Hok Kr Ho E2) as R. cbv zeta in R.
    assert (Hl : length (replace_in row t) = length t) by apply length_map.
    destruct (replaceable row old) eqn:Er; destruct R as [R1 R2]; rewrite R2.
    + exists (with_input_due (input row) (due_at row) old).
      split_and!; [done|by apply U|done|]. right. exists old. split_and!; try done. left. split_and!; [done|done|].
      cbn. unfold returning, queued_due. cbn. unfold replaceable in Er. apply andb_true_iff in Er as [Er _]. apply andb_true_iff in Er as [_ Er]. by rewrite Er.
    + rewrite R1 in U |- *. exists old. split_and!; [done|by apply U|done|]. right. exists old. split_and!; try done. right. done.
  - destruct (existsb (same_id row) t); [discriminate E0|]. injection E0 as <- <-. rewrite existsb_false in Eb.
    exists row. split_and!; [apply elem_of_app; right; left|apply U; [apply elem_of_app; right; left|done]|done|].
    left. split_and!; try done. intros s Hs Es. specialize (Eb s Hs). assert (same_key row s = true) by (apply same_key_spec; eauto). congruence.
Qed.

(** ** A retried enqueue. *)

Definition conflicting (t : list SysRun) (row : SysRun) : Prop := existsb (same_id row) t || existsb (same_key row) t = true.
Lemma conflicting_app (t t2 : list SysRun) (row : SysRun) : conflicting t row -> conflicting (t ++ t2) row.
Proof. unfold conflicting. rewrite !existsb_app, !orb_true_iff. tauto. Qed.
Lemma keep_all (rows t ret : list SysRun) :
  exists t2, insert_all Keep rows (t, ret) = Ok (t ++ t2, ret ++ t2) /\ Forall (conflicting (t ++ t2)) rows /\ t2 `sublist_of` rows.
Proof.
  revert t ret. induction rows as [|r rows IH]; intros t ret.
  - exists []. rewrite !app_nil_r. split_and!; [done|constructor|constructor].
  - cbn [insert_all]. unfold insert_one at 1. destruct (existsb (same_id r) t || existsb (same_key r) t) eqn:E.
    + destruct (IH t ret) as (t2 & H & F & S). exists t2. cbn [mbind outcome_bind]. split_and!; [done| |by constructor].
      constructor; [by apply conflicting_app|done].
    + destruct (IH (t ++ [r]) (ret ++ [r])) as (t2 & H & F & S). exists (r :: t2). cbn [mbind outcome_bind].
      rewrite <- !app_assoc in H. rewrite <- app_assoc in F. split_and!; [exact H| |by constructor].
      constructor; [|done]. unfold conflicting. rewrite !existsb_app. cbn [existsb]. unfold same_id at 2.
      rewrite String.eqb_refl. rewrite !orb_true_iff. auto.
Qed.
Lemma keep_conflicts (rows t ret : list SysRun) :
  Forall (conflicting t) rows -> insert_all Keep rows (t, ret) = Ok (t, ret).
Proof.
  induction 1 as [|r rows H _ IH]; cbn [insert_all]; [done|]. unfold insert_one, conflicting in *. by rewrite H.
Qed.
(** A run with a minted id and no key conflicts exactly when its id is taken. *)
Lemma conflicting_id (t : list SysRun) (r : Incoming) (i : string) n u :
  in_id r = Some i -> in_key r = None -> conflicting t (inserted n u r) <-> i ∈ map id t.
Proof.
  intros Hi Hk. unfold conflicting. rewrite orb_true_iff, !existsb_true. rewrite list_elem_of_fmap. split.
  - intros [(s & Hs & E)|(s & Hs & (k & E & _)%same_key_spec)].
    + exists s. split; [|done]. unfold same_id in E. cbn in E. rewrite Hi in E. by apply String.eqb_eq in E.
    + cbn in E. congruence.
  - intros (s & -> & Hs). left. exists s. split; [done|]. unfold same_id. cbn. rewrite Hi. apply String.eqb_refl.
Qed.

(** Delivering the same runs again under the keep rule changes nothing: each was new or already there the first time, and
    in any later table that still holds those ids, whatever became of the runs since, nothing is queued twice. *)
Theorem enqueue_once now1 now2 uuids1 uuids2 (rows : list Incoming) (t later : list SysRun) :
  Forall (fun r => is_Some (in_id r) /\ in_key r = None) rows ->
  exists t2, fst <$> enqueue now1 uuids1 rows true Keep t = Ok (t ++ t2) /\ (length t2 <= length rows)%nat /\
    (map id (t ++ t2) ⊆ map id later -> enqueue now2 uuids2 rows true Keep later = Ok (later, [])).
Proof.
  intros Hi. unfold enqueue.
  destruct (keep_all (imap (fun i => inserted now1 (uuids1 i)) rows) t []) as (t2 & H & F & S). exists t2. rewrite H.
  cbn [mbind outcome_bind fmap outcome_fmap fst snd]. split_and!; [done|apply sublist_length in S; by rewrite length_imap in S|].
  intros Hsub. rewrite keep_conflicts; [done|]. apply Forall_forall. intros row Hrow.
  apply elem_of_lookup_imap in Hrow as (n & r & -> & Hr).
  destruct (proj1 (Forall_forall _ _) Hi r) as [[i Ei] Ek]; [by eapply list_elem_of_lookup_2|].
  apply (conflicting_id later r i); [done|done|]. apply Hsub, (conflicting_id _ r i now1 (uuids1 n) Ei Ek).
  apply (proj1 (Forall_forall _ _) F). apply elem_of_lookup_imap. by exists n, r.
Qed.

(** ** The next due time. *)

Lemma min_due_spec (ds : list (option Z)) :
  match min_due ds with Some d => Some d ∈ ds /\ forall x, Some x ∈ ds -> d <= x | None => forall x, Some x ∉ ds end.
Proof.
  induction ds as [|a ds IH]; cbn [min_due fold_right]; [intros x Hx; by apply elem_of_nil in Hx|].
  change (fold_right least None ds) with (min_due ds). destruct (min_due ds) as [d|], a as [x|]; cbn [least].
  - destruct IH as [H1 H2]. split; [destruct (Z.min_spec x d) as [[_ ->]|[_ ->]]; [left|by right]|].
    intros y [[= ->]|Hy]%elem_of_cons; [lia|]. specialize (H2 y Hy). lia.
  - destruct IH as [H1 H2]. split; [by right|]. intros y [?|Hy]%elem_of_cons; [done|auto].
  - split; [left|]. intros y [[= ->]|Hy]%elem_of_cons; [lia|by destruct (IH y)].
  - intros x [?|Hx]%elem_of_cons; [done|by destruct (IH x)].
Qed.
(** A commit's next due time is the earliest of the times its pieces and notices returned, and absent only when none of
    them returned a time: no queued run of the commit is left without a wake. *)
Theorem nextDue_least (pieces : list (list (string * option Z))) (notices : list (option Z)) :
  let ds := concat (map (map snd) pieces) ++ notices in
  match nextDue pieces notices with
  | Some d => Some d ∈ ds /\ forall x, Some x ∈ ds -> d <= x
  | None => forall x, Some x ∉ ds
  end.
Proof.
  intros ds. apply min_due_spec.
Qed.

(** ** An effect's run name. *)

Lemma takes_prefix (pat s : string) : String.eqb (takes (String.length pat) s) pat = true -> exists r, s = pat +:+ r.
Proof. intros H%String.eqb_eq. exists (drop (String.length pat) s). by rewrite <- H, takes_drop at 1. Qed.
Lemma lastIndexOf_app (pat m s : string) (i : nat) :
  lastIndexOf pat s = Some i -> lastIndexOf pat (m +:+ s) = Some (String.length m + i)%nat.
Proof. intros H. induction m as [|c m IH]; [exact H|]. rewrite append_cons. cbn [lastIndexOf String.length Nat.add]. by rewrite IH. Qed.
Lemma lastIndexOf_some (pat s : string) (i : nat) :
  pat <> EmptyString -> lastIndexOf pat s = Some i -> s = takes i s +:+ pat +:+ drop (i + String.length pat) s.
Proof.
  intros Hp. revert i. induction s as [|c s IH]; intros i H; cbn in H.
  - destruct (String.eqb pat "") eqn:E; [|done]. by apply String.eqb_eq in E.
  - destruct (lastIndexOf pat s) as [j|] eqn:Ej.
    + injection H as <-. cbn [takes drop Nat.add]. rewrite append_cons. f_equal. by apply IH.
    + destruct (String.eqb (takes (String.length pat) (String c s)) pat) eqn:E; [|done]. injection H as <-.
      cbn [takes Nat.add]. apply takes_prefix in E as [r ->]. by rewrite drop_append.
Qed.
Lemma effectRun_last (model : string) (verb : EffectVerb) : lastIndexOf ".effect." (effectRun model verb) = Some (String.length model).
Proof.
  unfold effectRun. rewrite (lastIndexOf_app _ _ _ 0); [f_equal; lia|]. by destruct verb.
Qed.
Lemma effectRun_inj (m1 m2 : string) (v1 v2 : EffectVerb) : effectRun m1 v1 = effectRun m2 v2 -> m1 = m2 /\ v1 = v2.
Proof.
  intros H. pose proof (effectRun_last m1 v1) as L. rewrite H, effectRun_last in L. injection L as L.
  assert (m1 = m2) as ->.
  { rewrite <- (takes_append m1 (".effect." +:+ verb_name v1)), <- (takes_append m2 (".effect." +:+ verb_name v2)).
    unfold effectRun in H. rewrite H. by rewrite L. }
  split; [done|].
  assert (E : drop (String.length m2) (m2 +:+ (".effect." +:+ verb_name v1)) = drop (String.length m2) (m2 +:+ (".effect." +:+ verb_name v2))).
  { unfold effectRun in H. by rewrite H. }
  rewrite !drop_append in E. by destruct v1, v2.
Qed.

(** An effect's run name reads back as the model and verb it was made of, for every model whose effect is exposed, and
    nothing else reads as an effect: a name that does is the name of an exposed effect. *)
Theorem effectRun_roundtrip (m : RunManifest) :
  (forall model verb, model <> EmptyString -> effectOf m (effectRun model verb) = if exposes m model verb then Some (model, verb) else None) /\
  (forall name model verb, effectOf m name = Some (model, verb) -> name = effectRun model verb /\ exposes m model verb = true).
Proof.
  split.
  - intros model verb Hm. unfold effectOf. rewrite effectRun_last.
    destruct (String.length model) as [|n] eqn:El; [by destruct model|]. rewrite <- El. unfold effectRun.
    rewrite takes_append. replace (String.length model + 8)%nat with (String.length (model +:+ ".effect.")) by (rewrite length_append; done).
    rewrite <- append_assoc_s, drop_append. by destruct verb.
  - intros name model verb H. unfold effectOf in H. destruct (lastIndexOf ".effect." name) as [[|n]|] eqn:El; [done| |done].
    destruct (List.find _ EFFECT_VERBS) as [v|] eqn:Ef; [|done]. destruct (exposes m (takes (S n) name) v) eqn:Ex; [|done].
    injection H as <- <-. split; [|done]. apply find_some in Ef as [_ Ef]. apply String.eqb_eq in Ef.
    apply lastIndexOf_some in El; [|done]. unfold effectRun. rewrite Ef. exact El.
Qed.

(** ** The runs a commit's changes queue. *)

Definition id_order (x y : RowChange) : Prop := str_ltb (x_id y) (x_id x) = false.

Lemma insert_change_perm (x : RowChange) (l : list RowChange) : insert_change x l ≡ₚ x :: l.
Proof. induction l as [|y l IH]; cbn; [done|]. destruct (str_ltb _ _); [|done]. rewrite IH. apply perm_swap. Qed.
Lemma by_id_perm (l : list RowChange) : by_id l ≡ₚ l.
Proof. induction l as [|x l IH]; cbn; [done|]. by rewrite insert_change_perm, IH. Qed.
Lemma insert_change_sorted (x : RowChange) (l : list RowChange) : Sorted id_order l -> Sorted id_order (insert_change x l).
Proof.
  induction 1 as [|y l Hs IH Hd]; cbn [insert_change]; [repeat constructor|]. destruct (str_ltb (x_id y) (x_id x)) eqn:E.
  - constructor; [done|]. destruct l as [|z l]; cbn [insert_change].
    + constructor. unfold id_order. by apply str_ltb_asym.
    + destruct (str_ltb (x_id z) (x_id x)); constructor; [by inversion Hd|]. unfold id_order. by apply str_ltb_asym.
  - constructor; [by constructor|]. by constructor.
Qed.
Lemma by_id_sorted (l : list RowChange) : Sorted id_order (by_id l).
Proof. induction l; cbn; [constructor|by apply insert_change_sorted]. Qed.

Definition effect_input (verb : EffectVerb) (xs : list RowChange) : Json :=
  JObject [("ids"%string, JArray (map (fun x => JString (x_id x)) xs)); images verb xs].
Lemma effect_select_spec (stored : list string) (model : string) (verb : EffectVerb) (source : list RowChange) :
  let xs := by_id (List.filter (reached stored model verb) source) in
  effect_select stored model verb source = if existsb (reached stored model verb) source then [(effectRun model verb, effect_input verb xs)] else [].
Proof.
  intros xs. unfold effect_select. fold xs. destruct (existsb (reached stored model verb) source) eqn:E.
  - apply existsb_true in E as (x & Hx & Rx). assert (H : x ∈ xs).
    { unfold xs. rewrite by_id_perm. apply list_elem_of_In, filter_In. by rewrite <- list_elem_of_In. }
    destruct xs; [by apply elem_of_nil in H|done].
  - rewrite existsb_false in E. unfold xs. by rewrite filter_none.
Qed.

Lemma selects_spec (cat : Catalog) (source : list RowChange) (es : list (string * EffectVerb)) ss :
  selects cat source es = Ok ss ->
  (forall ai, ai ∈ ss -> exists model verb stored xs, (model, verb) ∈ es /\ stored_for cat (model, verb) = Ok stored /\
     xs ≡ₚ List.filter (reached stored model verb) source /\ xs <> [] /\ Sorted id_order xs /\
     ai = (effectRun model verb, effect_input verb xs)) /\
  (NoDup es -> forall model verb stored, stored_for cat (model, verb) = Ok stored ->
     length (List.filter (fun ai => String.eqb (fst ai) (effectRun model verb)) ss) =
     if bool_decide ((model, verb) ∈ es) && existsb (reached stored model verb) source then 1%nat else 0%nat).
Proof.
  revert ss. induction es as [|[mo ve] es IH]; intros ss H; cbn [selects] in H; inv_outcome.
  - split; [intros ai Hai; by apply elem_of_nil in Hai|]. intros _ model verb stored _. by rewrite bool_decide_eq_false_2 by apply not_elem_of_nil.
  - destruct (IH _ eq_refl) as [A B]. clear IH. cbn [fst snd] in *. pose proof (effect_select_spec a mo ve source) as Es. cbv zeta in Es.
    rewrite Es. split.
    + intros ai [Hai|Hai]%elem_of_app.
      * destruct (existsb _ source) eqn:Ex; [|by apply elem_of_nil in Hai]. apply list_elem_of_singleton in Hai as ->.
        exists mo, ve, a, (by_id (List.filter (reached a mo ve) source)). split_and!; [left|done|apply by_id_perm| |apply by_id_sorted|done].
        intros Hn. unfold effect_select in Es. rewrite Hn in Es. done.
      * destruct (A ai Hai) as (mo' & ve' & st' & xs & Hin & R). exists mo', ve', st', xs. split; [by right|done].
    + intros Hn model verb stored Hst. apply NoDup_cons in Hn as [Hni Hn]. rewrite List.filter_app, length_app, (B Hn model verb stored Hst).
      destruct (decide ((model, verb) = (mo, ve))) as [[= -> ->]|Hne].
      * assert (a = stored) as -> by congruence. rewrite (bool_decide_eq_true_2 ((mo, ve) ∈ _ :: _)) by left.
        rewrite (bool_decide_eq_false_2 ((mo, ve) ∈ es)) by done. destruct (existsb (reached stored mo ve) source); cbn; [by rewrite String.eqb_refl|done].
      * assert (Hl : length (List.filter (fun ai => String.eqb (fst ai) (effectRun model verb)) (if existsb (reached a mo ve) source then [(effectRun mo ve, effect_input ve (by_id (List.filter (reached a mo ve) source)))] else [])) = O).
        { destruct (existsb (reached a mo ve) source); [|done]. cbn [List.filter fst]. destruct (String.eqb _ _) eqn:Eq; [|done].
          apply String.eqb_eq, effectRun_inj in Eq as [-> ->]. done. }
        rewrite Hl. cbn [Nat.add]. rewrite (bool_decide_ext ((model, verb) ∈ (mo, ve) :: es) ((model, verb) ∈ es)); [done|].
        rewrite elem_of_cons. tauto.
Qed.

Lemma effects_of_spec (m : RunManifest) (model : string) (verb : EffectVerb) :
  (model, verb) ∈ effects_of m <-> exposes m model verb = true.
Proof.
  unfold effects_of. rewrite list_elem_of_In, in_flat_map. split.
  - intros ([m' e] & _ & (v & [= <- <-] & Hv)%in_map_iff). by apply filter_In in Hv as [_ Hv].
  - intros H. assert (Hv : In verb EFFECT_VERBS) by (destruct verb; cbn; auto). unfold exposes in H.
    destruct (get (rm_effects m) model) as [e|] eqn:Eg; [|done]. exists (model, e). split; [by apply list_elem_of_In, get_in|].
    apply in_map_iff. exists verb. split; [done|]. apply filter_In. split; [done|]. cbn [fst]. unfold exposes. by rewrite Eg.
Qed.
Lemma effects_of_nodup (m : RunManifest) : wf_dict (rm_effects m) -> NoDup (effects_of m).
Proof.
  unfold effects_of, wf_dict. induction (rm_effects m) as [|[model e] d IH]; cbn [flat_map keys map fst]; intros H; [constructor|].
  apply NoDup_cons in H as [Hni H]. apply NoDup_app. split_and!; [| |by apply IH].
  - apply NoDup_fmap_2; [intros ?? [=]; done|]. apply NoDup_ListNoDup, List.NoDup_filter, NoDup_ListNoDup. by repeat (constructor; [set_solver|]); constructor.
  - intros [m' v] (? & [= -> ->] & _)%list_elem_of_fmap Hin. apply Hni. apply list_elem_of_In, in_flat_map in Hin as ([m2 e2] & Hi & (v2 & [= <- <-] & _)%in_map_iff).
    apply list_elem_of_fmap. exists (m2, e2). split; [done|by apply list_elem_of_In].
Qed.

(** The model effects of a commit. Each run queued is one exposed effect with every row change that reached it, once each
    and in id order, as its writer at the writer's depth; an effect whose verb reached some row is queued exactly once, one
    that reached none not at all; and a writer past the chain depth leaves only runs already failed, so an effect that writes
    again ends. *)
Theorem effects_queued (m : RunManifest) (cat : Catalog) now_ writer (source : list RowChange) rows :
  wf_dict (rm_effects m) -> queueEffects m cat now_ writer source = Ok rows ->
  (forall r, r ∈ rows -> exists model verb stored xs,
     exposes m model verb = true /\ stored_for cat (model, verb) = Ok stored /\
     xs ≡ₚ List.filter (reached stored model verb) source /\ xs <> [] /\ Sorted id_order xs /\
     r = effect_run now_ writer (effectRun model verb, effect_input verb xs)) /\
  (forall model verb stored, exposes m model verb = true -> stored_for cat (model, verb) = Ok stored ->
     length (List.filter (fun r => String.eqb (in_automation r) (effectRun model verb)) rows) =
     if existsb (reached stored model verb) source then 1%nat else 0%nat) /\
  (forall r, r ∈ rows -> in_depth r = Some (wr_depth writer) /\ in_starter r = Some (wr_starter writer) /\
     in_state r = if WRITE_DEPTH <? wr_depth writer then Some SFailed else None).
Proof.
  intros Hwf H. unfold queueEffects in H. inv_outcome. destruct (selects_spec _ _ _ _ E) as [A B]. split_and!.
  - intros r (ai & -> & Hai)%list_elem_of_fmap. destruct (A ai Hai) as (mo & ve & st & xs & Hin & R1 & R2 & R3 & R4 & ->).
    exists mo, ve, st, xs. split; [by apply effects_of_spec|done].
  - intros model verb stored Hex Hst. specialize (B (effects_of_nodup m Hwf) model verb stored Hst).
    rewrite (bool_decide_eq_true_2 ((model, verb) ∈ effects_of m)) in B by (by apply effects_of_spec). cbn [andb] in B. rewrite <- B.
    clear. induction a as [|ai a IH]; cbn [map List.filter effect_run in_automation]; [done|].
    destruct (String.eqb (fst ai) (effectRun model verb)); cbn [length]; by rewrite IH.
  - intros r (ai & -> & Hai)%list_elem_of_fmap. done.
Qed.

(** ** Declared triggers. *)

Definition cron_of (tz automation : string) (x : TriggerSpec) : option CronEntry :=
  match x with CronSpec c zone _ => Some (MkCron automation (fields c) (default tz zone)) | _ => None end.
Definition webhook_of (automation : string) (x : TriggerSpec) : option WebhookTrigger :=
  match x with WebhookSpec p s k => Some (MkWebhook automation p s k) | _ => None end.
Definition specs_of (spec : AutomationSpec) : list TriggerSpec := omap decodeTrigger (declared (as_on spec)).

Lemma trigger_all_spec (tz automation : string) (xs : list TriggerSpec) (t t' : Triggers) :
  trigger_all tz automation xs t = Ok t' ->
  tr_crons t' = tr_crons t ++ omap (cron_of tz automation) xs /\ tr_webhooks t' = tr_webhooks t ++ omap (webhook_of automation) xs.
Proof.
  revert t. induction xs as [|x xs IH]; intros t H; cbn [trigger_all] in H; inv_outcome; [by rewrite !app_nil_r|].
  destruct (IH _ H) as [-> ->]. destruct x as [c zone rest|p s k]; cbn [trigger_one] in E.
  - destruct rest as [r|]; inv_outcome; cbn; by rewrite <- app_assoc.
  - inv_outcome. cbn. by rewrite <- app_assoc.
Qed.
Lemma mapM_omap {A B} (f : A -> option B) (l : list A) (k : list B) : mapM f l = Some k -> omap f l = k.
Proof.
  revert k. induction l as [|x l IH]; intros k H; cbn in H |- *; [by injection H as <-|].
  destruct (f x) as [y|]; cbn in H; [|done]. destruct (mapM f l) as [k'|]; cbn in H; [|done]. injection H as <-. f_equal. by apply IH.
Qed.

(** The compiled triggers are the declared ones: every cron of every automation in declaration order, its macro as the five
    fields and its zone the workspace's unless it names one, and every webhook; a manifest compiles only when every
    declared trigger reads. *)
Theorem triggersOf_complete (m : RunManifest) (t : Triggers) :
  triggersOf m = Ok t ->
  tr_crons t = flat_map (fun aspec => omap (cron_of (rm_tz m) (fst aspec)) (specs_of (snd aspec))) (rm_automations m) /\
  tr_webhooks t = flat_map (fun aspec => omap (webhook_of (fst aspec)) (specs_of (snd aspec))) (rm_automations m) /\
  forall a spec j, (a, spec) ∈ rm_automations m -> j ∈ declared (as_on spec) -> is_Some (decodeTrigger j).
Proof.
  unfold triggersOf. assert (G : forall autos t0, triggers_from (rm_tz m) autos t0 = Ok t ->
    tr_crons t = tr_crons t0 ++ flat_map (fun aspec => omap (cron_of (rm_tz m) (fst aspec)) (specs_of (snd aspec))) autos /\
    tr_webhooks t = tr_webhooks t0 ++ flat_map (fun aspec => omap (webhook_of (fst aspec)) (specs_of (snd aspec))) autos /\
    forall a spec j, (a, spec) ∈ autos -> j ∈ declared (as_on spec) -> is_Some (decodeTrigger j)).
  { induction autos as [|[a spec] autos IH]; intros t0 H; cbn [triggers_from] in H.
    - inv_outcome. cbn. rewrite !app_nil_r. split_and!; try done. intros a spec j Hin. by apply elem_of_nil in Hin.
    - destruct (mapM decodeTrigger (declared (as_on spec))) as [on|] eqn:Eon; inv_outcome.
      apply trigger_all_spec in E as [E1 E2]. destruct (IH _ H) as (H1 & H2 & H3). cbn [flat_map fst snd].
      unfold specs_of at 1 3. rewrite (mapM_omap _ _ _ Eon). rewrite H1, H2, E1, E2, <- !app_assoc. split_and!; [done|done|].
      intros a' spec' j [[= -> ->]|Hin]%elem_of_cons Hj; [|by eapply H3].
      apply mapM_is_Some_1 in Eon as F || (pose proof (mk_is_Some _ _ Eon) as F; apply mapM_is_Some_1 in F). by eapply Forall_forall in F. }
  intros H. destruct (G _ _ H) as (H1 & H2 & H3). cbn in H1, H2. split_and!; done.
Qed.
End QueueFacts.

Module QueueSamples.
Import QueueFacts.

Definition fresh (n : nat) : string := "u" +:+ digits_of (Z.of_nat n).
Definition keyed (input : Json) (due : Z) : Incoming :=
  queued_run "nightly" input due (Some "k"%string) None "schedule" 0 None None None.
Definition one : list SysRun := [inserted 0 "a" (keyed JNull 5)].
Lemma one_ok : table_ok one.
Proof. split; repeat constructor; set_solver. Defined.

Definition replaced : list SysRun * list (string * option Z) :=
  match enqueue 7 fresh [keyed (JBool true) 9] true Replace one with Ok a => a | Throw _ => ([], []) end.
Lemma enqueue_safe_witness : table_ok (fst replaced).
Proof.
  apply (enqueue_safe 7 fresh [keyed (JBool true) 9] true Replace one (fst replaced) (snd replaced)); [vm_compute; reflexivity|exact one_ok].
Defined.
Lemma enqueue_replaces_witness : exists held, held ∈ fst replaced /\ key held = Some "k"%string /\ due_at held = 9.
Proof.
  destruct (enqueue_replaces 7 fresh (keyed (JBool true) 9) "k" one (fst replaced) (snd replaced) one_ok eq_refl) as (h & H & _ & K & R);
    [vm_compute; reflexivity|].
  exists h. split; [exact H|]. split; [exact K|].
  destruct R as [(N & _)|(old & Ho & _ & _ & [(_ & -> & _)|(F & _)])].
  - exfalso. apply (N (inserted 0 "a" (keyed JNull 5))); [left|reflexivity].
  - reflexivity.
  - apply list_elem_of_singleton in Ho as ->. vm_compute in F. discriminate F.
Defined.

Definition minted : Incoming := queued_run "nightly" JNull 3 None (Some "r1"%string) "start" 0 None None None.
Lemma enqueue_once_witness : enqueue 8 fresh [minted] true Keep (one ++ [inserted 4 "u0" minted]) = Ok (one ++ [inserted 4 "u0" minted], []).
Proof.
  destruct (enqueue_once 4 8 fresh fresh [minted] one (one ++ [inserted 4 "u0" minted])) as (t2 & H & _ & R).
  { constructor; [split; [eauto|reflexivity]|constructor]. }
  apply R. vm_compute in H. injection H as H. rewrite <- H. vm_compute. set_solver.
Defined.

Definition effects : RunManifest := MkRunManifest [] [("invoice", [("created", true); ("updated", true)])]%string "UTC".
Definition no_cat : Catalog :=
  MkCatalog [("invoice"%string, MkModel "invoice" false [("total"%string, fieldInfo "total" (kind_only "decimal"))] [] [] [] [] None None None [])] [] [] [].
Definition visitor : Holder := MkHolder (ActApiKey "k1") [] false false [] [].
Definition deep_writer : Writer := MkWriter visitor "apiKey:k1" 9.
Definition changes : list RowChange :=
  [MkRowChange "invoice" "b" OpUpdate [("total", JBool true)]%string [("total", JBool false)]%string;
   MkRowChange "invoice" "a" OpUpdate [("total", JBool true)]%string [("total", JNull)]%string;
   MkRowChange "invoice" "c" OpUpdate [] []].
Definition queued_effects : list Incoming :=
  match queueEffects effects no_cat 1 deep_writer changes with Ok l => l | Throw _ => [] end.
Lemma effects_queued_witness : map in_state queued_effects = [Some SFailed] /\ length queued_effects = 1%nat.
Proof.
  destruct (effects_queued effects no_cat 1 deep_writer changes queued_effects) as (_ & _ & H).
  - repeat constructor; set_solver.
  - vm_compute. reflexivity.
  - split; [|vm_compute; reflexivity]. destruct queued_effects as [|r l] eqn:E; [vm_compute in E; discriminate E|].
    destruct l; [|vm_compute in E; discriminate E]. cbn. destruct (H r) as (_ & _ & ->); [left|reflexivity].
Defined.

Definition crons : RunManifest :=
  MkRunManifest [("nightly"%string, MkAutomation (Some (JObject [("cron", JString "@daily")]%string)) [] None None)] [] "UTC".
Lemma triggersOf_complete_witness :
  match triggersOf crons with Ok t => tr_crons t = [MkCron "nightly" "0 0 * * *" "UTC"] | Throw _ => False end.
Proof.
  destruct (triggersOf crons) as [t|] eqn:E; [|vm_compute in E; discriminate E].
  destruct (triggersOf_complete crons t E) as (-> & _). vm_compute. reflexivity.
Defined.
End QueueSamples.
