(* ===== verification/Runs.v ===== *)
(** Automation runs: the run machine of [packages/bolt/src/engine/runs/index.ts] over the queue of Queue.v. What a boot does to
    the runs its last generation left running, how a claim admits due runs under each automation's capacity, what becomes of a
    run when its attempt ends, and the steps a workspace's runs take; who may read a run's result; a cron's slots and rests;
    and the parking a planned close waits on. Time is milliseconds; a statement's SQL is the list function it computes. *)
From Stdlib Require Import Sorted QArith.Qround.
From S2P Require Import Prelude Ir Contracts Rate Outcomes Hash Authority Deadlines Queue.

Definition PRUNE : string := "bolt.prune".
Definition TURN_RUN : string := "agent.turn".
Definition MAX_IDS : Z := 10000.

Definition id_in (ids : list string) (s : SysRun) : bool := includes ids (id s).

(** ** A boot ([boot]). *)
Module Boot.

Definition LOST_HANDOFF : RunError := run_error "lostLease" "The host was lost before the request answered.".
Definition LOST_LEASES : RunError := run_error "lostLease" "The run lost its lease 3 times.".

(** [error->>'code' = 'interrupted'], as a true test. *)
Definition closed (s : SysRun) : bool := match error s with Some e => String.eqb (er_code e) "interrupted" | None => false end.
Definition fails (overran : option string) (s : SysRun) : bool :=
  (is_some overran && negb (String.eqb (automation s) TURN_RUN)) || String.eqb (cause s) "handoff"
  || (3 <=? leases s) && negb (closed s).
Definition boot_error (overran : option string) (s : SysRun) : option RunError :=
  match overran with
  | Some over => Some (run_error "cpuBudget" over)
  | None =>
      if String.eqb (cause s) "handoff" then Some LOST_HANDOFF
      else if closed s then None
      else if leases s <? 3 then error s
      else Some LOST_LEASES
  end.
(** The row the [lost] update leaves. *)
Definition lost_row (at_ : Z) (overran : option string) (s : SysRun) : SysRun :=
  {| id := id s; automation := automation s; input := input s; due_at := at_; key := key s; cause := cause s; depth := depth s;
     state := if fails overran s then SFailed else SQueued; attempts := attempts s;
     leases := leases s + (if closed s then 0 else 1); run_key := run_key s; started_at := started_at s;
     finished_at := if fails overran s then Some at_ else None; progress := progress s; output := output s;
     error := boot_error overran s; results := results s; actor := actor s; starter := starter s; trigger := trigger s |}.
Definition is_running (s : SysRun) : bool := bool_decide (state s = SRunning).
Definition is_queued (s : SysRun) : bool := bool_decide (state s = SQueued).
Definition lost (at_ : Z) (overran : option string) (t : list SysRun) : list SysRun :=
  map (fun s => if is_running s then lost_row at_ overran s else s) t.

(** [sys_conversation] as the boot reads it. *)
Record Conversation := MkConversation { cv_id : string; cv_running : bool; cv_lease : option Z }.
(** [input->>'conversation']; a conversation's id is a text, so only a text member can be one. *)
Definition conversation_of (s : SysRun) : option string :=
  match input s with
  | JObject o => match get o "conversation" with Some (JString c) => Some c | _ => None end
  | _ => None
  end.
Definition answers (c : Conversation) (s : SysRun) : bool :=
  String.eqb (automation s) TURN_RUN && bool_decide (conversation_of s = Some (cv_id c)).
(** The [released] update: [t] is the table before the statement. *)
Definition releases (at_ : Z) (overran : option string) (t : list SysRun) (c : Conversation) : bool :=
  cv_running c &&
  (existsb (fun s => is_running s && fails overran s && answers c s) t
   || match cv_lease c with Some l => l <? at_ | None => false end
      && negb (existsb (fun s => answers c s && (is_queued s || is_running s)) t)).
Definition released (at_ : Z) (overran : option string) (t : list SysRun) (cs : list Conversation) : list Conversation :=
  map (fun c => if releases at_ overran t c then MkConversation (cv_id c) false None else c) cs.

(** What the boot publishes and settles: the runs that ended, the earliest due time, the conversations released. *)
Record Booted := MkBooted {
  b_runs : list SysRun; b_conversations : list Conversation; b_failed : list string; b_next : option Z; b_released : list string }.
Definition boot (now : Z) (overran : option string) (t : list SysRun) (cs : list Conversation) : Booted :=
  let l := List.filter is_running t in
  {| b_runs := lost now overran t; b_conversations := released now overran t cs;
     b_failed := map id (List.filter (fails overran) l);
     b_next := least (min_due (map queued_due t)) (min_due (map (fun s => queued_due (lost_row now overran s)) l));
     b_released := map cv_id (List.filter (releases now overran t) cs) |}.
End Boot.
Import Boot.

(** ** A claim ([claim]). *)
Module Claim.

Definition authored (m : RunManifest) (a : string) : bool := has_own (rm_automations m) a.
Definition capacity (m : RunManifest) (a : string) : Z :=
  match get (rm_automations m) a with Some spec => default 1 (as_max spec) | None => 1 end.
Definition running_count (t : list SysRun) (a : string) : Z :=
  Z.of_nat (length (List.filter (fun x => String.eqb (automation x) a && is_running x) t)).
Definition eligible (m : RunManifest) (now : Z) (pruned : bool) (t : list SysRun) (r : SysRun) : bool :=
  is_queued r && (due_at r <=? now) && (negb pruned || negb (String.eqb (automation r) PRUNE))
  && (running_count t (automation r) <? capacity m (automation r)).

(** [ORDER BY r.due_at, r.id]. *)
Definition run_before (a b : SysRun) : bool := (due_at a <? due_at b) || (due_at a =? due_at b) && str_ltb (id a) (id b).
Fixpoint insert_run (x : SysRun) (l : list SysRun) : list SysRun :=
  match l with
  | [] => [x]
  | y :: l' => if run_before y x then y :: insert_run x l' else x :: l
  end.
Definition by_due (l : list SysRun) : list SysRun := fold_right insert_run [] l.

(** The [head] rows: an authored automation's lane takes one, every other run is taken in bulk; [locked] are the rows another
    statement holds, which [SKIP LOCKED] passes over. *)
Definition head_of (m : RunManifest) (now : Z) (pruned custom : bool) (locked : list string) (t : list SysRun) : list SysRun :=
  firstn (if custom then 1 else 1000)%nat
    (by_due (List.filter (fun r => eligible m now pruned t r && Bool.eqb (authored m (automation r)) custom && negb (id_in locked r)) t)).
Definition claim_row (m : RunManifest) (now : Z) (s : SysRun) : SysRun :=
  {| id := id s; automation := automation s; input := input s; due_at := due_at s;
     key := if authored m (automation s) then None else key s; cause := cause s; depth := depth s; state := SRunning;
     attempts := attempts s + 1; leases := leases s;
     run_key := match key s with Some k => Some k | None => run_key s end; started_at := Some now;
     finished_at := finished_at s; progress := progress s; output := output s; error := error s; results := results s;
     actor := actor s; starter := starter s; trigger := trigger s |}.
Definition claim_in (m : RunManifest) (now : Z) (ids : list string) (t : list SysRun) : list SysRun :=
  map (fun s => if is_queued s && id_in ids s then claim_row m now s else s) t.
(** The table, the claimed rows in order and the next due time. *)
Definition claim (m : RunManifest) (now : Z) (parked pruned custom : bool) (locked : list string) (t : list SysRun)
    : list SysRun * list SysRun * option Z :=
  if parked then (t, [], None)
  else
    let ids := map id (head_of m now pruned custom locked t) in
    (claim_in m now ids t, map (claim_row m now) (head_of m now pruned custom locked t),
     min_due (map queued_due (List.filter (fun s => negb (id_in ids s)) t))).
End Claim.
Import Claim.

(** ** The end of an attempt ([execute], [interrupted], [stop]). *)
Module Attempt.

(** [GuestOutcome] of engine/contracts.ts; [rest] holds a refusal's optional members besides its message. *)
Inductive GuestOutcome :=
| GOk (output : Json)
| GRefused (message : string) (code : option string) (rest : dict Json)
| GFailed (error : BoltError).

(** [EFFECT]: a model effect's retries. *)
Definition EFFECT : RetrySpec := MkRetry 3 None.
(** [spec?.retry ?? platformRetry]. *)
Definition policy_of (m : RunManifest) (platformRetry : string -> option RetrySpec) (a : string) : option RetrySpec :=
  let declared :=
    match get (rm_automations m) a with
    | Some spec => as_retry spec
    | None => match effectOf m a with Some _ => Some EFFECT | None => None end
    end in
  match declared with Some p => Some p | None => platformRetry a end.
Definition attempts_allowed (p : option RetrySpec) : Z := match p with Some p => rs_attempts p | None => 1 end.
Definition backoff_of (p : option RetrySpec) : string := match p with Some (MkRetry _ (Some b)) => b | _ => "10s" end.

Definition retries (p : option RetrySpec) (head_attempts : Z) (o : GuestOutcome) : bool :=
  match o with GFailed e => isTransient (EBolt e) && (head_attempts <? attempts_allowed p) | _ => false end.
(** [iso(dueAt(at, at + wait))]: [wait] is a double, and an instant keeps its whole milliseconds. *)
Definition retry_at (at_ : Z) (wait : number) : Z :=
  let x := fl (Qplus (inject_Z at_) wait) in
  if negb (Qle_bool (inject_Z Time.BUCKET_MS) (fl (Qminus x (inject_Z at_)))) then Qfloor x
  else Qceiling (fl (Qdiv x (inject_Z Time.BUCKET_MS))) * Time.BUCKET_MS.

Definition state_after (retry : bool) (o : GuestOutcome) : RunState :=
  if retry then SQueued else match o with GOk _ => SSucceeded | _ => SFailed end.
Definition error_after (o : GuestOutcome) : option RunError :=
  match o with
  | GOk _ => None
  | GRefused message code rest => Some (MkRunError (default "refused"%string code) (Some message) rest)
  | GFailed e => Some (run_error (code_name (be_code e)) (be_message e))
  end.
Definition output_after (o : GuestOutcome) : option Json := match o with GOk j => Some j | _ => None end.
(** The attempt's record; [now] is when it started, [at_] when it ended. *)
Definition attempt_record (head : SysRun) (now at_ : Z) (retry : bool) (o : GuestOutcome) (warnings : list string) : RunAttempt :=
  MkRunAttempt (attempts head) at_ (state_after retry o) (output_after o) (error_after o) warnings
    (String.eqb (cause head) "cron" && (60000 <? now - due_at head)).

(** The [done] update's row. *)
Definition done_row (due : option Z) (at_ : Z) (st : RunState) (o : GuestOutcome) (result : RunAttempt) (s : SysRun) : SysRun :=
  {| id := id s; automation := automation s; input := input s; due_at := default (due_at s) due; key := key s; cause := cause s;
     depth := depth s; state := st; attempts := attempts s; leases := leases s; run_key := run_key s; started_at := started_at s;
     finished_at := (if bool_decide (st = SQueued) then None else Some at_); progress := progress s; output := output_after o;
     error := error_after o; results := results s ++ [result]; actor := actor s; starter := starter s; trigger := trigger s |}.
Definition done_in (ids : list string) (due : option Z) (at_ : Z) (st : RunState) (o : GuestOutcome) (result : RunAttempt)
    (t : list SysRun) : list SysRun :=
  map (fun s => if id_in ids s && negb (bool_decide (state s = SStopped)) then done_row due at_ st o result s else s) t.

(** The end of one attempt of [head]: its new due time when it retries, and the table. [jitter] is the draw in [0.5, 1.5). *)
Definition finish (m : RunManifest) (platformRetry : string -> option RetrySpec) (head : SysRun) (now at_ : Z) (jitter : number)
    (o : GuestOutcome) (warnings : list string) (t : list SysRun) : outcome (option Z * list SysRun) :=
  let p := policy_of m platformRetry (automation head) in
  let retry := retries p (attempts head) o in
  b ← Time.backoffMs (backoff_of p) (attempts head);
  let due := if retry then Some (retry_at at_ (fl (Qmult b jitter))) else None in
  Ok (due, done_in [id head] due at_ (state_after retry o) o (attempt_record head now at_ retry o warnings) t).

(** [interrupted(rows, message)]: only the attempt that was running. *)
Definition interrupt_row (message : string) (s : SysRun) : SysRun :=
  {| id := id s; automation := automation s; input := input s; due_at := due_at s; key := key s; cause := cause s;
     depth := depth s; state := state s; attempts := attempts s; leases := leases s; run_key := run_key s;
     started_at := started_at s; finished_at := finished_at s; progress := progress s; output := output s;
     error := Some (run_error "interrupted" message); results := results s; actor := actor s; starter := starter s;
     trigger := trigger s |}.
Definition same_attempt (s r : SysRun) : bool := String.eqb (id s) (id r) && (attempts s =? attempts r).
Definition interrupted (rows : list SysRun) (message : string) (t : list SysRun) : list SysRun :=
  map (fun s => if is_running s && existsb (same_attempt s) rows then interrupt_row message s else s) t.

(** [stop]'s update. *)
Definition STOPPED : RunError := run_error "stopped" "The run was stopped.".
Definition stop_row (now : Z) (s : SysRun) : SysRun :=
  {| id := id s; automation := automation s; input := input s; due_at := due_at s; key := None; cause := cause s;
     depth := depth s; state := SStopped; attempts := attempts s; leases := leases s; run_key := run_key s;
     started_at := started_at s; finished_at := Some now; progress := progress s; output := output s; error := Some STOPPED;
     results := results s; actor := actor s; starter := starter s; trigger := trigger s |}.
Definition stop_in (now : Z) (i : string) (t : list SysRun) : list SysRun :=
  map (fun s => if String.eqb (id s) i && (is_queued s || is_running s) then stop_row now s else s) t.

(** *** What an attempt does before any guest code runs. *)

(** An effect run's input: its ids with the committed rows, or an update's images before and after. *)
Inductive EffectImages := ImageRows (ids : list string) (rows : list Row) | ImageChanges (ids : list string) (changes : list (Row * Row)).
Definition image_of (j : Json) : option Row := match j with JObject o => Some o | _ => None end.
Definition change_of (j : Json) : option (Row * Row) :=
  match j with
  | JObject o =>
      match get o "before", get o "after" with Some (JObject b), Some (JObject a) => Some (b, a) | _, _ => None end
  | _ => None
  end.
Definition text_of (j : Json) : option string := match j with JString s => Some s | _ => None end.
Definition list_member {A} (f : Json -> option A) (o : dict Json) (k : string) : option (list A) :=
  match get o k with Some (JArray l) => mapM f l | _ => None end.
Definition effectImages (j : Json) : option EffectImages :=
  match j with
  | JObject o =>
      match list_member text_of o "ids" with
      | Some ids =>
          match list_member image_of o "rows" with
          | Some rows => Some (ImageRows ids rows)
          | None => option_map (ImageChanges ids) (list_member change_of o "changes")
          end
      | None => None
      end
  | _ => None
  end.
Definition images_ids (e : EffectImages) : list string := match e with ImageRows ids _ | ImageChanges ids _ => ids end.

(** [policyHolder], [starterOf] and [scheduledBy]. *)
Definition policyHolder (head : SysRun) (policies : list string) : Holder :=
  MkHolder (ActSystem (id head) (ByAutomation (automation head))) policies false false [] [].
Definition is_system (a : EngineActor) : bool := match a with ActSystem _ _ => true | _ => false end.
Definition starterOf (run : SysRun) (holder : Holder) : option Holder := if is_system (h_actor holder) then starter run else Some holder.
Definition scheduledBy (m : RunManifest) (run : SysRun) : RunTrigger :=
  match effectOf m (automation run), effectImages (input run) with
  | Some (model, verb), Some e => TrigEffect model verb (images_ids e)
  | _, _ => TrigSchedule (Some (automation run, id run))
  end.

Section Work.
(** The declared layer and compiler of Authority.v, the compiled authority of a holder, the decoder of an automation's declared
    input ([None]: it has problems) and whether a platform handler is registered under a name. *)
Context (SYSTEM : Manifest.Parts) (em : Manifest.EngineManifest) (authorityOf : Holder -> Authority).
Context (decodeInput : string -> Json -> option Json) (handled : string -> bool) (m : RunManifest).

(** [writerImages]. *)
Definition shown (keep : list string) (image : Row) : Json := JObject (List.filter (fun kv => includes keep (fst kv)) image).
Definition change_json (f : Row -> Json) (ba : Row * Row) : Json := JObject [("before", f (fst ba)); ("after", f (snd ba))]%string.
Definition images_json (f : Row -> Json) (e : EffectImages) : Json :=
  match e with ImageRows _ rows => JArray (map f rows) | ImageChanges _ cs => JArray (map (change_json f) cs) end.
Definition writerImages (a : Authority) (model : string) (e : EffectImages) : Json :=
  if au_admin a then images_json JObject e
  else match Access.viewOutput SYSTEM em a model with
       | None => JArray []
       | Some output => images_json (shown (["id"; "revision"]%string ++ Access.exposed SYSTEM em model model model output)) e
       end.

(** What [execute] does with a claimed run: a platform handler runs it, it fails at once, or guest code runs as a holder. *)
Inductive Work := Handle | FailedAs (e : BoltError) | Invoke (holder : Holder) (input : Json).
Definition fails_as (code : Code) (phase : Phase) (message : string) : Work := FailedAs (BoltError_make code phase message NoCause).
Definition work (head : SysRun) : Work :=
  match get (rm_automations m) (automation head), effectOf m (automation head) with
  | None, None =>
      if String.eqb (automation head) PRUNE || handled (automation head) then Handle
      else fails_as C_unknownAutomation PAdmission ("no automation '" +:+ automation head +:+ "'")
  | Some spec, effect =>
      match decodeInput (automation head) (input head) with
      | None => fails_as C_invalidInput PDecode "The run input did not decode."
      | Some j =>
          match effect with
          | None => Invoke (policyHolder head (as_policies spec)) j
          | Some (model, _) =>
              match effectImages j with
              | None => fails_as C_invalidInput PDecode "The effect run input did not decode."
              | Some e => let h := policyHolder head (as_policies spec) in Invoke h (writerImages (authorityOf h) model e)
              end
          end
      end
  | None, Some (model, _) =>
      match starter head with
      | None => fails_as C_noTrigger PAdmission "the run has no starter"
      | Some h =>
          match effectImages (input head) with
          | None => fails_as C_invalidInput PDecode "The effect run input did not decode."
          | Some e => Invoke h (writerImages (authorityOf h) model e)
          end
      end
  end.
End Work.
End Attempt.
Import Attempt.

(** ** Who reads a run ([readsRunResult], [runView], [runList]). *)
Module Views.

(** [RunTriggerView]: a person by reference and name. *)
Inductive RunTriggerView := ViewPerson (ref : string) (name : option string) (agent : bool) | ViewSystem (t : RunTrigger).
Record RunView := MkRunView {
  v_id : string; v_automation : string; v_cause : string; v_trigger : option RunTriggerView; v_status : RunState; v_due : Z;
  v_started : option Z; v_progress : option Json; v_error : option RunError; v_attempt_count : Z; v_result : option Json;
  v_input : option Json; v_attempts : option (list RunAttempt) }.

(** Two actors with one canonical text are one actor. *)
Definition readsRunResult (a : Authority) (automation : string) (starter : option Holder) : bool :=
  au_admin a || includes (au_automations a) automation
  || match starter with Some h => bool_decide (h_actor h = au_actor a) | None => false end.
Definition triggerView (name : option string) (t : option RunTrigger) : option RunTriggerView :=
  match t with
  | Some (TrigPerson actor conversation) => Some (ViewPerson (actorRef actor) name (is_some conversation))
  | Some t => Some (ViewSystem t)
  | None => None
  end.
Definition reads_all (a : Authority) (row : SysRun) : bool :=
  readsRunResult a (automation row) (starter row) && (negb (String.eqb (cause row) "effect") || au_admin a)
  || String.eqb (cause row) "start" && bool_decide (actor row = Some (actorRef (au_actor a))).
Definition view_with (name : option string) (row : SysRun) (error : option RunError) (result input : option Json)
    (attempts_ : option (list RunAttempt)) : RunView :=
  MkRunView (id row) (automation row) (cause row) (triggerView name (trigger row)) (state row) (due_at row) (started_at row)
    (progress row) error (attempts row) result input attempts_.
(** [trigger_name] is the display name the query reads. *)
Definition runView (a : Authority) (name : option string) (row : SysRun) : option RunView :=
  if reads_all a row then Some (view_with name row (error row) (output row) (Some (input row)) (Some (results row)))
  else if bool_decide (actor row = Some (actorRef (au_actor a))) then
    Some (view_with name row (option_map (fun e => MkRunError (er_code e) None []) (error row)) None None None)
  else None.

Fixpoint insert_late (x : SysRun) (l : list SysRun) : list SysRun :=
  match l with [] => [x] | y :: l' => if due_at y <? due_at x then x :: l else y :: insert_late x l' end.
Definition latest (l : list SysRun) : list SysRun := fold_right insert_late [] l.
Definition is_member (a : EngineActor) : bool := match a with ActMember _ => true | _ => false end.
Definition opt_is (o : option string) (s : string) : bool := match o with None => true | Some x => String.eqb x s end.
Definition runList (a : Authority) (name : SysRun -> option string) (limit : Z) (automation_ id_ : option string)
    (t : list SysRun) : list RunView :=
  if negb (is_member (au_actor a)) then []
  else
    let rows := List.filter (fun s =>
      (au_admin a || bool_decide (actor s = Some (actorRef (au_actor a))) || includes (au_automations a) (automation s))
      && opt_is automation_ (automation s) && opt_is id_ (id s)) t in
    omap (fun s => runView a (name s) s) (firstn (Z.to_nat (Z.min (Z.max 1 limit) 500)) (latest rows)).

(** [stop]: the table after, and the answer. *)
Definition stop (a : Authority) (name : option string) (now : Z) (i : string) (t : list SysRun) : list SysRun * option RunView :=
  match List.find (fun s => String.eqb (id s) i) t with
  | None => (t, None)
  | Some found =>
      match runView a name found with
      | Some v =>
          if is_some (v_input v) then
            (stop_in now i t, runView a name (if is_queued found || is_running found then stop_row now found else found))
          else (t, None)
      | None => (t, None)
      end
  end.
End Views.
Import Views.

(** ** Scheduling from a run (the [schedule] crossing). *)
Module Scheduling.

Inductive Scheduled := SchedRefused (code message : string) | SchedQueued (run : Incoming).
Section Schedule.
Context (num_text : number -> string) (m : RunManifest).
(** [at_] is the call's [at], where it names one, as the instant it reads as. *)
Definition schedule (run : SysRun) (holder : Holder) (now : Z) (target : string) (input_ : Json) (at_ : option (option Z))
    (key_ : option string) : Scheduled :=
  if negb (has_own (rm_automations m) target) then SchedRefused "invalidInput" ("no automation '" +:+ target +:+ "'")
  else
    let self := String.eqb target (automation run) in
    if self && negb (is_some at_) && String.eqb (canonical num_text input_) (canonical num_text (input run))
    then SchedRefused "hotLoop" "A run cannot schedule itself at once with the same input."
    else
      let d := if self then depth run else depth run + 1 in
      if WRITE_DEPTH <? d then SchedRefused "depth" "Runs chain at most 8 deep."
      else
        match match at_ with None => Some now | Some i => i end with
        | None => SchedRefused "invalidInput" "schedule: at is not an instant"
        | Some i =>
            SchedQueued (queued_run target input_ (Time.dueAt now i) key_ None "schedule" d (Some (actorRef (h_actor holder)))
              (starterOf run holder) (Some (scheduledBy m run)))
        end.
End Schedule.

(** [keyOf]: the attempt's key of a crossing, and the counts it keeps. *)
Definition keyOf (num_text : number -> string) (run : SysRun) (kind target : string) (args : Json) (seen : dict Z) : string * dict Z :=
  let digest := sha256Hex (canonical num_text (JArray [JString kind; JString target; args])) in
  let ordinal := default 0 (get seen digest) in
  (id run +:+ ":" +:+ dec_of (attempts run) +:+ ":" +:+ digest +:+ ":" +:+ dec_of ordinal, set seen digest (ordinal + 1)).
End Scheduling.
Import Scheduling.

(** ** A cron's slot ([fire]). *)
Module Crons.

Inductive Fired := NotRan (until : option Z) | Ran.
Inductive Gate := GateInvalid | GateRests (until : Z) | GateRuns (run : SysRun).
Section Fire.
Context (num_text : number -> string) (iso : Z -> string) (crons : list string) (rests : dict Z).

Definition slot_id (cron : string) (at_ : Z) : string :=
  takes 32 (sha256Hex (canonical num_text (JArray [JString "cron"; JString cron; JString (iso at_)]))).
Definition slot_run (cron : string) (at_ : Z) : SysRun :=
  {| id := slot_id cron at_; automation := cron; input := JObject []; due_at := at_; key := None; cause := "cron"; depth := 0;
     state := SRunning; attempts := 1; leases := 0; run_key := None; started_at := None; finished_at := None; progress := None;
     output := None; error := None; results := []; actor := None; starter := None; trigger := Some TrigCron |}.
(** Before the run: [slot] is the parsed slot, [resting] what the cron's own handler answers, [awake] whether anything touched
    the database, [restEnds] the ends this generation learned. *)
Definition fire_gate (cron : string) (slot : option Z) (now : Z) (resting : option Z) (awake : bool) (restEnds : dict Z) : Gate :=
  match slot with
  | Some at_ =>
      if negb (includes crons cron) then GateInvalid
      else match resting with
           | Some until => GateRests until
           | None =>
               match get restEnds cron with
               | Some rested => if (now <? rested) && negb awake then GateRests rested else GateRuns (slot_run cron at_)
               | None => GateRuns (slot_run cron at_)
               end
           end
  | None => GateInvalid
  end.
(** [record]: the slot's row, inserted unless the slot already ran. *)
Definition slot_row (now : Z) (run : SysRun) : Incoming :=
  MkIncoming (Some (id run)) (automation run) None (Some (due_at run)) None "cron" (Some 0) None None (trigger run)
    (Some SRunning) (Some 1) (Some now) None None.
Definition record (now : Z) (run : SysRun) (t : list SysRun) : outcome (list SysRun * bool) :=
  a ← enqueue now (fun _ => EmptyString) [slot_row now run] true Keep t; Ok (fst a, (0 <? length (snd a))%nat).
(** After it: whether it wrote, and until when a cron that only read rests. *)
Definition rest_end (now rest : Z) : Z := (now / rest + 1) * rest.
Definition fire_end (cron : string) (now : Z) (written : bool) (restEnds : dict Z) : Fired * dict Z :=
  if written then (Ran, Deadlines.Timer.remove restEnds cron)
  else match get rests cron with
       | None => (NotRan None, restEnds)
       | Some rest => let e := rest_end now rest in (NotRan (Some e), set restEnds cron e)
       end.
End Fire.
End Crons.
Import Crons.

(** ** Pruning ([prune]) and parking ([makeParking] of engine/parking.ts). *)
Module Prune.

Definition DAY : Z := 86400000.
Definition ended (s : RunState) : bool := match s with SSucceeded | SFailed | SStopped | SSkipped => true | _ => false end.
(** The [sys_run] row of [aged]. *)
Definition run_aged (now : Z) (s : SysRun) : bool :=
  ended (state s) && match finished_at s with Some f => f <? now - 90 * DAY | None => false end.

(** The other tables a pass prunes, as the columns it reads; a receipt is [bolt_audit_receipt]'s outcome key while it is neither
    acknowledged nor expired. *)
Record Idem := MkIdem { idem_key : string; idem_run : option string; idem_issued : Z }.
Record Notification := MkNotification { nt_read : option Z; nt_at : Z }.
Record Nonce := MkNonce { nn_key : string; nn_at : Z }.
Record User := MkUser { us_id : string; us_anonymous : bool }.
Record Session := MkSession { se_user : string; se_expires : Z }.
Record Tables := MkTables {
  tb_runs : list SysRun; tb_idem : list Idem; tb_rate : list Z; tb_inbox : list (option Z); tb_notifications : list Notification;
  tb_nonces : list Nonce; tb_users : list User; tb_sessions : list Session; tb_receipts : list string;
  tb_references : list string }.

(** [LIMIT]: the first rows of the scan; and the DELETE of exactly those. *)
Definition sel {A} (aged : A -> bool) (l : list A) : list A := firstn (Z.to_nat MAX_IDS) (List.filter aged l).
Fixpoint delete_first {A} (n : nat) (aged : A -> bool) (l : list A) : list A :=
  match l, n with
  | [], _ => []
  | l, O => l
  | x :: l', S n' => if aged x then delete_first n' aged l' else x :: delete_first n aged l'
  end.
Definition del {A} (aged : A -> bool) (l : list A) : list A := delete_first (Z.to_nat MAX_IDS) aged l.

Definition id_in_rows (r : string) (l : list SysRun) : bool := existsb (fun s => String.eqb (id s) r) l.
Definition idem_aged (now : Z) (t : Tables) (i : Idem) : bool :=
  match idem_run i with
  | Some r => id_in_rows r (sel (run_aged now) (tb_runs t)) || negb (id_in_rows r (tb_runs t))
  | None => idem_issued i <? now - DAY
  end && negb (includes (tb_receipts t) (idem_key i)).
Definition before (limit : Z) (o : option Z) : bool := match o with Some x => x <? limit | None => false end.
Definition notification_aged (now : Z) (n : Notification) : bool := before (now - 90 * DAY) (nt_read n) || (nt_at n <? now - 365 * DAY).
Definition nonce_aged (now : Z) (n : Nonce) : bool :=
  nn_at n <? now - (if String.eqb (takes 6 (nn_key n)) "nonce:" then 600000 else 30 * DAY).
(** [references] are the users some row other than a session refers to. *)
Definition user_aged (now : Z) (t : Tables) (u : User) : bool :=
  us_anonymous u && negb (existsb (fun s => String.eqb (se_user s) (us_id u) && (now <? se_expires s)) (tb_sessions t))
  && negb (includes (tb_references t) (us_id u)).
Definition selected (now : Z) (t : Tables) : list nat :=
  [length (sel (run_aged now) (tb_runs t)); length (sel (idem_aged now t) (tb_idem t));
   length (sel (fun w => w <? now - DAY) (tb_rate t)); length (sel (before (now - 30 * DAY)) (tb_inbox t));
   length (sel (notification_aged now) (tb_notifications t)); length (sel (nonce_aged now) (tb_nonces t));
   length (sel (user_aged now t) (tb_users t))].
Definition pruned (now : Z) (t : Tables) : Tables :=
  MkTables (del (run_aged now) (tb_runs t)) (del (idem_aged now t) (tb_idem t)) (del (fun w => w <? now - DAY) (tb_rate t))
    (del (before (now - 30 * DAY)) (tb_inbox t)) (del (notification_aged now) (tb_notifications t))
    (del (nonce_aged now) (tb_nonces t)) (del (user_aged now t) (tb_users t)) (tb_sessions t) (tb_receipts t) (tb_references t).
(** One pass: the tables after and whether it queues another. *)
Definition pass (now : Z) (t : Tables) : Tables * bool :=
  (pruned now t, existsb (fun n => (Z.to_nat MAX_IDS <=? n)%nat) (selected now t)).
End Prune.
Import Prune.

Module Parking.
(** [idle] is [None] until the first [park], then whether its deferred is done. *)
Record State := MkParking { inside : gset string; idle : option bool }.
Definition init : State := MkParking ∅ None.
Definition settled (p : State) : State :=
  match idle p with
  | Some d => MkParking (inside p) (Some (d || bool_decide (inside p = ∅)))
  | None => p
  end.
Definition parked (p : State) : bool := is_some (idle p).
Definition enter (i : string) (p : State) : State := MkParking ({[ i ]} ∪ inside p) (idle p).
Definition leave (i : string) (p : State) : State := settled (MkParking (inside p ∖ {[ i ]}) (idle p)).
Definition park (p : State) : State := settled (MkParking (inside p) (Some (default false (idle p)))).
End Parking.

(** ** The steps of a workspace's runs. *)
Module Machine.

(** The table, and the claimed rows this generation executes. *)
Record Sys := MkSys { runs : list SysRun; executing : list SysRun }.
Definition init : Sys := MkSys [] [].

Section Machine.
Context (num_text : number -> string) (iso : Z -> string) (m : RunManifest) (platformRetry : string -> option RetrySpec) (cat : Catalog.Catalog).

Definition without (h : SysRun) (l : list SysRun) : list SysRun := List.filter (fun x => negb (String.eqb (id x) (id h))) l.
(** A run the platform or a person queues: at depth 0, not yet started. *)
Definition from_outside (r : Incoming) : Prop := in_state r ∈ [None; Some SQueued; Some SFailed] /\ in_attempts r = None /\ default 0 (in_depth r) = 0.

(** One step; [true] marks a boot, which starts a generation: whatever the last one executed is gone. *)
Inductive step : bool -> Sys -> Sys -> Prop :=
| StepQueue now_ uuids rows when_ rule t ex t' ret : Forall from_outside rows ->
    enqueue now_ uuids rows when_ rule t = Ok (t', ret) -> step false (MkSys t ex) (MkSys t' ex)
| StepEffects now_ uuids writer source rows t ex t' ret :
    wr_depth writer = 0 \/ (exists h, h ∈ ex /\ wr_depth writer = depth h + 1) ->
    queueEffects m cat now_ writer source = Ok rows -> enqueue now_ uuids rows true NoConflict t = Ok (t', ret) ->
    step false (MkSys t ex) (MkSys t' ex)
| StepSchedule h holder now target input_ at_ key_ r uuids t ex t' ret : h ∈ ex ->
    schedule num_text m h holder now target input_ at_ key_ = SchedQueued r ->
    enqueue now uuids [r] true Replace t = Ok (t', ret) -> step false (MkSys t ex) (MkSys t' ex)
| StepClaim now pruned_ custom locked t ex t' taken next :
    claim m now false pruned_ custom locked t = (t', taken, next) -> step false (MkSys t ex) (MkSys t' (ex ++ taken))
| StepFire cron at_ now t ex t' : record now (slot_run num_text iso cron at_) t = Ok (t', true) ->
    step false (MkSys t ex) (MkSys t' (ex ++ [slot_run num_text iso cron at_]))
| StepFinish h now at_ jitter o warnings t ex due t' : h ∈ ex ->
    finish m platformRetry h now at_ jitter o warnings t = Ok (due, t') -> step false (MkSys t ex) (MkSys t' (without h ex))
| StepInterrupt h message t ex : h ∈ ex -> step false (MkSys t ex) (MkSys (interrupted [h] message t) (without h ex))
| StepStop a name now i t ex : step false (MkSys t ex) (MkSys (fst (stop a name now i t)) ex)
(** No attempt lasts the 90 days after which its ended row would be pruned. *)
| StepPrune now t ex : (forall h s, h ∈ ex -> s ∈ t -> id s = id h -> run_aged now s = false) ->
    step false (MkSys t ex) (MkSys (del (run_aged now) t) ex)
| StepBoot now overran cs t ex : step true (MkSys t ex) (MkSys (b_runs (boot now overran t cs)) []).

(** The states reached, with the boots on the way. *)
Inductive reached : nat -> Sys -> Prop :=
| ReachedInit : reached 0 init
| ReachedStep n b st st' : reached n st -> step b st st' -> reached (if b then S n else n) st'.
End Machine.
End Machine.
Import Machine.

Module RunFacts.
Import QueueFacts.

(** ** Rewriting a table row by row. *)

(** A row update keeps the id, and keeps or clears the key. *)
Definition keeps_ids (f : SysRun -> SysRun) : Prop := forall s, id (f s) = id s /\ (key (f s) = key s \/ key (f s) = None).
Lemma map_ids (f : SysRun -> SysRun) (t : list SysRun) : keeps_ids f -> map id (map f t) = map id t.
Proof. intros H. rewrite map_map. apply map_ext. intros s. apply H. Qed.
Lemma map_keys (f : SysRun -> SysRun) (t : list SysRun) : keeps_ids f -> omap key (map f t) `sublist_of` omap key t.
Proof.
  intros H. induction t as [|s t IH]; cbn; [constructor|]. destruct (H s) as [_ [->| ->]]; destruct (key s); cbn; try done; by constructor.
Qed.
Lemma table_ok_map (f : SysRun -> SysRun) (t : list SysRun) : keeps_ids f -> table_ok t -> table_ok (map f t).
Proof. intros H [A B]. split; [by rewrite map_ids|]. by eapply sublist_NoDup, map_keys. Qed.
Lemma table_ok_sublist (t t' : list SysRun) : t' `sublist_of` t -> table_ok t -> table_ok t'.
Proof.
  intros H [A B]. split.
  - eapply sublist_NoDup; [exact A|]. clear A B. induction H; cbn [map]; by constructor.
  - eapply sublist_NoDup; [exact B|]. clear A B. induction H; cbn [omap list_omap]; [constructor| |].
    + destruct (key x); [by constructor|done].
    + destruct (key x); [by constructor|done].
Qed.
Lemma row_unique (t : list SysRun) (a b : SysRun) : table_ok t -> a ∈ t -> b ∈ t -> id a = id b -> a = b.
Proof.
  intros [Hn _]. clear -Hn. induction t as [|s t IH]; intros Ha Hb E; [by apply elem_of_nil in Ha|].
  cbn in Hn. apply NoDup_cons in Hn as [Hni Hn]. apply elem_of_cons in Ha as [->|Ha], Hb as [->|Hb]; auto.
  - exfalso. apply Hni. rewrite E. apply list_elem_of_fmap. eauto.
  - exfalso. apply Hni. rewrite <- E. apply list_elem_of_fmap. eauto.
Qed.

Lemma is_running_spec (s : SysRun) : is_running s = true <-> state s = SRunning.
Proof. apply bool_decide_eq_true. Qed.
Lemma is_queued_spec (s : SysRun) : is_queued s = true <-> state s = SQueued.
Proof. apply bool_decide_eq_true. Qed.
Lemma id_in_spec (ids : list string) (s : SysRun) : id_in ids s = true <-> id s ∈ ids.
Proof. apply includes_spec. Qed.

Lemma lost_keeps at_ over : keeps_ids (fun s => if is_running s then lost_row at_ over s else s).
Proof. intros s. destruct (is_running s); auto. Qed.
Lemma claim_keeps m now ids : keeps_ids (fun s => if is_queued s && id_in ids s then claim_row m now s else s).
Proof. intros s. destruct (is_queued s && id_in ids s); [|auto]. cbn. destruct (authored m (automation s)); auto. Qed.
Lemma done_keeps ids due at_ st o r :
  keeps_ids (fun s => if id_in ids s && negb (bool_decide (state s = SStopped)) then done_row due at_ st o r s else s).
Proof. intros s. destruct (id_in ids s && _); auto. Qed.
Lemma interrupted_keeps rows msg : keeps_ids (fun s => if is_running s && existsb (same_attempt s) rows then interrupt_row msg s else s).
Proof. intros s. destruct (is_running s && _); auto. Qed.
Lemma stop_keeps now i : keeps_ids (fun s => if String.eqb (id s) i && (is_queued s || is_running s) then stop_row now s else s).
Proof. intros s. destruct (String.eqb (id s) i && _); cbn; auto. Qed.

Lemma delete_first_sublist {A} (n : nat) (aged : A -> bool) (l : list A) : delete_first n aged l `sublist_of` l.
Proof. revert n. induction l as [|x l IH]; intros [|n]; cbn; try done. destruct (aged x); constructor; apply IH. Qed.
Lemma delete_first_keeps {A} (n : nat) (aged : A -> bool) (l : list A) (x : A) : x ∈ l -> aged x = false -> x ∈ delete_first n aged l.
Proof.
  revert n. induction l as [|y l IH]; intros n Hx Ha; [by apply elem_of_nil in Hx|]. destruct n as [|n]; [done|]. cbn.
  apply elem_of_cons in Hx as [->|Hx]; [rewrite Ha; left|]. destruct (aged y); [|right]; by apply IH.
Qed.

(** A stop is the stop update of some row, or nothing. *)
Lemma stop_table (a : Authority) (name : option string) (now : Z) (i : string) (t : list SysRun) :
  fst (stop a name now i t) = stop_in now i t \/ fst (stop a name now i t) = t.
Proof.
  unfold stop. destruct (List.find _ t) as [found|]; [|auto]. destruct (runView a name found) as [v|]; [|auto].
  destruct (is_some (v_input v)); auto.
Qed.

(** ** The order of a claim. *)

Lemma run_before_irrefl (a : SysRun) : run_before a a = false.
Proof. unfold run_before. rewrite Z.ltb_irrefl, str_ltb_irrefl. by rewrite andb_false_r. Qed.
Definition not_after (a b : SysRun) : Prop := run_before b a = false.
Lemma run_before_asym (a b : SysRun) : run_before a b = true -> run_before b a = false.
Proof.
  unfold run_before. intros H. apply orb_true_iff in H as [H|H]; bool_hyps.
  - apply orb_false_iff. split; [by apply Z.ltb_ge; lia|]. apply andb_false_iff. left. apply Z.eqb_neq. lia.
  - apply orb_false_iff. split; [apply Z.ltb_ge; lia|]. apply andb_false_iff. right. by apply str_ltb_asym.
Qed.
Lemma str_leb_trans (x y z : string) : str_ltb y x = false -> str_ltb z y = false -> str_ltb z x = false.
Proof.
  intros H1 H2. destruct (str_ltb z x) eqn:E; [|done]. destruct (str_ltb x y) eqn:F.
  - by rewrite (str_ltb_trans z x y E F) in H2.
  - by rewrite (str_ltb_total x y F H1), H2 in E.
Qed.
#[local] Instance not_after_trans : Transitive not_after.
Proof.
  intros a b c. unfold not_after, run_before. rewrite !orb_false_iff, !andb_false_iff, !Z.ltb_ge, !Z.eqb_neq.
  intros [H1 H2] [H3 H4]. split; [lia|]. destruct (Z.eq_dec (due_at c) (due_at a)) as [E|]; [|by left].
  right. destruct H2 as [?|H2]; [lia|]. destruct H4 as [?|H4]; [lia|]. by eapply str_leb_trans.
Qed.
Lemma insert_run_perm (x : SysRun) (l : list SysRun) : insert_run x l ≡ₚ x :: l.
Proof. induction l as [|y l IH]; cbn; [done|]. destruct (run_before y x); [|done]. rewrite IH. apply perm_swap. Qed.
Lemma by_due_perm (l : list SysRun) : by_due l ≡ₚ l.
Proof. induction l as [|x l IH]; cbn; [done|]. by rewrite insert_run_perm, IH. Qed.
Lemma insert_run_sorted (x : SysRun) (l : list SysRun) : StronglySorted not_after l -> StronglySorted not_after (insert_run x l).
Proof.
  induction 1 as [|y l Hs IH Hd]; cbn [insert_run]; [repeat constructor|]. destruct (run_before y x) eqn:E.
  - constructor; [done|]. rewrite insert_run_perm. constructor; [by apply run_before_asym|done].
  - constructor; [by constructor|]. constructor; [done|]. eapply Forall_impl; [exact Hd|]. intros z Hz. by transitivity y.
Qed.
Lemma by_due_sorted (l : list SysRun) : StronglySorted not_after (by_due l).
Proof. induction l; cbn; [constructor|by apply insert_run_sorted]. Qed.
Lemma sorted_firstn {A} (R : A -> A -> Prop) (n : nat) (l : list A) (x y : A) :
  StronglySorted R l -> x ∈ firstn n l -> y ∈ l -> y ∉ firstn n l -> R x y.
Proof.
  revert n. induction l as [|a l IH]; intros [|n] Hs Hx Hy Hny; try (by apply elem_of_nil in Hx).
  cbn in Hx, Hny. apply StronglySorted_inv in Hs as [Hs Hd].
  apply not_elem_of_cons in Hny as [Hya Hny]. apply elem_of_cons in Hy as [->|Hy]; [done|].
  apply elem_of_cons in Hx as [->|Hx]; [by eapply Forall_forall in Hd|]. by eapply IH.
Qed.

(** ** What a boot leaves. *)

Lemma min_due_perm_like (ds es : list (option Z)) : (forall x, Some x ∈ ds <-> Some x ∈ es) -> min_due ds = min_due es.
Proof.
  intros H. pose proof (min_due_spec ds) as A. pose proof (min_due_spec es) as B.
  destruct (min_due ds) as [d|], (min_due es) as [e|]; try done.
  - destruct A as [A1 A2], B as [B1 B2]. f_equal. apply Z.le_antisymm; [by apply A2, H|by apply B2, H].
  - exfalso. destruct A as [A1 _]. apply H in A1. by apply (B d).
  - exfalso. destruct B as [B1 _]. apply H in B1. by apply (A e).
Qed.
Lemma least_min_due (ds es : list (option Z)) : least (min_due ds) (min_due es) = min_due (ds ++ es).
Proof.
  induction ds as [|d ds IH]; cbn [min_due fold_right app least]; [done|].
  change (fold_right least None (ds ++ es)) with (min_due (ds ++ es)). change (fold_right least None ds) with (min_due ds). rewrite <- IH.
  destruct d, (min_due ds), (min_due es); cbn; f_equal; lia.
Qed.

Lemma lost_row_state at_ over s : state (lost_row at_ over s) = SFailed \/ state (lost_row at_ over s) = SQueued.
Proof. cbn. destruct (fails over s); auto. Qed.

(** C13. After a boot no run is left running: each that was is queued again for now, or failed when its work cannot be run again
    or it lost its lease too often, and every other run is as it was; and the wake the boot settles is the earliest due time
    of all queued runs, absent only when none is queued. No run is lost with the host. *)
Theorem boot_recovers now overran (t : list SysRun) cs :
  let b := boot now overran t cs in
  map id (b_runs b) = map id t /\
  (forall s, s ∈ b_runs b -> state s <> SRunning) /\
  (forall s, s ∈ t -> state s <> SRunning -> s ∈ b_runs b) /\
  (forall s, s ∈ t -> state s = SRunning -> exists s', s' ∈ b_runs b /\ id s' = id s /\
     (if fails overran s then state s' = SFailed /\ id s ∈ b_failed b else state s' = SQueued /\ due_at s' = now)) /\
  match b_next b with
  | Some d => (exists s, s ∈ b_runs b /\ state s = SQueued /\ due_at s = d) /\
              forall s, s ∈ b_runs b -> state s = SQueued -> d <= due_at s
  | None => forall s, s ∈ b_runs b -> state s <> SQueued
  end.
Proof.
  intros b. cbn [b_runs boot] in b. unfold b. cbn [b_runs boot b_failed b_next]. split_and!.
  - apply map_ids, lost_keeps.
  - intros s (s0 & -> & _)%list_elem_of_fmap. destruct (is_running s0) eqn:E.
    + by destruct (lost_row_state now overran s0) as [->| ->].
    + intros H. apply is_running_spec in H. congruence.
  - intros s Hs Hn. apply list_elem_of_fmap. exists s. split; [|done]. destruct (is_running s) eqn:E; [by apply is_running_spec in E|done].
  - intros s Hs Hr. exists (lost_row now overran s). apply is_running_spec in Hr. split_and!; [|done|].
    + apply list_elem_of_fmap. exists s. by rewrite Hr.
    + cbn. destruct (fails overran s) eqn:Ef; [|done]. split; [done|]. apply list_elem_of_In, in_map_iff. exists s. split; [done|].
      apply filter_In. split; [|done]. apply filter_In. split; [by apply list_elem_of_In|done].
  - rewrite least_min_due, (min_due_perm_like _ (map queued_due (lost now overran t))).
    + pose proof (min_due_spec (map queued_due (lost now overran t))) as M.
      assert (Q : forall d, Some d ∈ map queued_due (lost now overran t) <-> exists s, s ∈ lost now overran t /\ state s = SQueued /\ due_at s = d).
      { intros d. rewrite list_elem_of_fmap. unfold queued_due. split.
        - intros (s & E & Hs). exists s. case_bool_decide; [|done]. by injection E.
        - intros (s & Hs & E & <-). exists s. split; [|done]. by rewrite bool_decide_eq_true_2. }
      destruct (min_due _) as [d|].
      * destruct M as [M1 M2]. split; [by apply Q|]. intros s Hs Es. apply M2, Q. eauto.
      * intros s Hs Es. apply (M (due_at s)), Q. eauto.
    + intros x. rewrite elem_of_app, !list_elem_of_fmap. split.
      * intros [(s & E & Hs)|(s & E & Hs)].
        -- exists s. split; [done|]. apply list_elem_of_fmap. exists s. split; [|done]. unfold queued_due in E. case_bool_decide as Hq; [|done].
           destruct (is_running s) eqn:Er; [|done]. apply is_running_spec in Er. congruence.
        -- apply list_elem_of_In, filter_In in Hs as [Hs Hr]. exists (lost_row now overran s). split; [done|].
           apply list_elem_of_fmap. exists s. rewrite Hr. split; [done|by apply list_elem_of_In].
      * intros (s' & E & (s & -> & Hs)%list_elem_of_fmap). destruct (is_running s) eqn:Er; [right|left; eauto].
        exists s. split; [done|]. apply list_elem_of_In, filter_In. split; [by apply list_elem_of_In|done].
Qed.

(** A boot releases every conversation no run answers any more: one still marked running afterwards has an unexpired lease or
    none set, or a turn of it is queued. *)
Theorem boot_releases now overran (t : list SysRun) cs (c : Conversation) :
  let b := boot now overran t cs in
  c ∈ b_conversations b -> cv_running c = true ->
  (forall l, cv_lease c = Some l -> now <= l) \/ (exists s, s ∈ b_runs b /\ state s = SQueued /\ answers c s = true).
Proof.
  cbn zeta. intros (c0 & -> & Hc)%list_elem_of_fmap Hr. destruct (releases now overran t c0) eqn:E; [done|].
  unfold releases in E. rewrite Hr in E. cbn [andb] in E. apply orb_false_iff in E as [E1 E2]. rewrite existsb_false in E1.
  apply andb_false_iff in E2 as [E2|E2].
  - left. intros l El. rewrite El in E2. by apply Z.ltb_ge in E2.
  - right. apply negb_false_iff in E2. apply existsb_true in E2 as (s & Hs & (Ha & Hq)%andb_true_iff).
    specialize (E1 s Hs). destruct (is_running s) eqn:Er.
    + exists (lost_row now overran s). split; [apply list_elem_of_fmap; exists s; by rewrite Er|]. split; [|exact Ha].
      cbn in E1 |- *. rewrite Ha, andb_true_r in E1. by rewrite E1.
    + rewrite orb_false_r in Hq. exists s. split; [apply list_elem_of_fmap; exists s; by rewrite Er|]. split; [by apply is_queued_spec|done].
Qed.

(** ** What a claim takes. *)

Definition in_lane (m : RunManifest) (now : Z) (pruned_ custom : bool) (locked : list string) (t : list SysRun) (r : SysRun) : bool :=
  eligible m now pruned_ t r && Bool.eqb (authored m (automation r)) custom && negb (id_in locked r).
Lemma elem_of_firstn {A} (n : nat) (l : list A) (x : A) : x ∈ firstn n l -> x ∈ l.
Proof. revert n. induction l as [|a l IH]; intros [|n]; cbn; try (intros H; by apply elem_of_nil in H). rewrite !elem_of_cons. intros [?|?]; eauto. Qed.
Lemma head_of_in m now pruned_ custom locked t r :
  r ∈ head_of m now pruned_ custom locked t -> r ∈ t /\ in_lane m now pruned_ custom locked t r = true.
Proof.
  intros H%elem_of_firstn. rewrite by_due_perm in H. apply list_elem_of_In, filter_In in H as [H1 H2]. split; [by apply list_elem_of_In|done].
Qed.
Lemma head_of_queued m now pruned_ custom locked t r : r ∈ head_of m now pruned_ custom locked t -> state r = SQueued.
Proof. intros [_ H]%head_of_in. unfold in_lane, eligible in H. bool_hyps. by apply is_queued_spec. Qed.
Lemma filter_sublist_bool {A} (f : A -> bool) (l : list A) : List.filter f l `sublist_of` l.
Proof. induction l as [|x l IH]; cbn; [constructor|]. destruct (f x); by constructor. Qed.
Lemma head_of_nodup m now pruned_ custom locked t : table_ok t -> NoDup (map id (head_of m now pruned_ custom locked t)).
Proof.
  intros [Hn _]. assert (Hp : NoDup (map id (by_due (List.filter (in_lane m now pruned_ custom locked t) t)))).
  { assert (E : map id (by_due (List.filter (in_lane m now pruned_ custom locked t) t)) ≡ₚ map id (List.filter (in_lane m now pruned_ custom locked t) t))
      by (apply Permutation_map, by_due_perm). rewrite E.
    eapply sublist_NoDup; [exact Hn|]. apply fmap_sublist, filter_sublist_bool. }
  eapply sublist_NoDup; [exact Hp|]. unfold head_of. apply fmap_sublist. apply sublist_take.
Qed.

Lemma firstn_full {A} (n : nat) (l : list A) (y : A) : y ∈ l -> y ∉ firstn n l -> length (firstn n l) = n.
Proof.
  intros Hy Hn. apply firstn_length_le. destruct (Nat.le_gt_cases n (length l)) as [|H]; [done|].
  exfalso. apply Hn. rewrite firstn_all2; [done|lia].
Qed.
Definition lane_limit (custom : bool) : nat := if custom then 1 else 1000.
Lemma claim_in_row m now (t h : list SysRun) (r : SysRun) :
  table_ok t -> h ⊆ t -> (forall x, x ∈ h -> state x = SQueued) -> r ∈ t ->
  (r ∈ h -> claim_row m now r ∈ claim_in m now (map id h) t) /\ (r ∉ h -> r ∈ claim_in m now (map id h) t).
Proof.
  intros Hok Hsub Hq Hr. split; intros Hh; apply list_elem_of_fmap; exists r; (split; [|done]).
  - rewrite (proj2 (is_queued_spec r) (Hq r Hh)). assert (E : id_in (map id h) r = true); [|by rewrite E].
    apply id_in_spec, list_elem_of_fmap. eauto.
  - destruct (id_in (map id h) r) eqn:E; [|by rewrite andb_false_r]. apply id_in_spec, list_elem_of_fmap in E as (x & E & Hx).
    exfalso. apply Hh. by rewrite (row_unique t r x Hok Hr (Hsub x Hx) E).
Qed.

(** A claim takes due work in order: what it takes are queued, due runs of its lane whose automation had room, each marked
    running with one more attempt; it takes at most one run of an authored automation; every other row stays as it is; a
    run it could have taken is left only when the claim is full of runs due no later; and the next due time it answers is
    the earliest among the queued runs left. *)
Theorem claim_takes_due m now pruned_ custom locked (t t' taken : list SysRun) next :
  table_ok t -> claim m now false pruned_ custom locked t = (t', taken, next) ->
  exists heads,
    taken = map (claim_row m now) heads /\ NoDup (map id heads) /\ (length heads <= lane_limit custom)%nat /\
    (forall r, r ∈ heads -> r ∈ t /\ in_lane m now pruned_ custom locked t r = true /\ claim_row m now r ∈ t') /\
    (forall r, r ∈ t -> r ∉ heads -> r ∈ t') /\ map id t' = map id t /\
    (forall r, r ∈ t -> r ∉ heads -> in_lane m now pruned_ custom locked t r = true ->
       length heads = lane_limit custom /\ forall x, x ∈ heads -> not_after x r) /\
    (forall r, r ∈ t' -> state r = SQueued -> exists d, next = Some d /\ d <= due_at r).
Proof.
  intros Hok H. unfold claim in H. injection H as <- <- <-.
  set (h := head_of m now pruned_ custom locked t).
  assert (Hsub : h ⊆ t) by (intros x [Hx _]%head_of_in; done).
  assert (Hq : forall x, x ∈ h -> state x = SQueued) by (intros x Hx; by eapply head_of_queued).
  exists h. split_and!.
  - done.
  - by apply head_of_nodup.
  - unfold h, head_of. rewrite length_firstn. unfold lane_limit. destruct custom; apply Nat.le_min_l.
  - intros r Hr. destruct (head_of_in _ _ _ _ _ _ _ Hr) as [H1 H2]. split_and!; [done|done|].
    by apply (claim_in_row m now t h r Hok Hsub Hq H1).
  - intros r Hr Hn. by apply (claim_in_row m now t h r Hok Hsub Hq Hr).
  - apply map_ids, claim_keeps.
  - intros r Hr Hn Hl. assert (Hin : r ∈ by_due (List.filter (in_lane m now pruned_ custom locked t) t)).
    { rewrite by_due_perm. apply list_elem_of_In, filter_In. split; [by apply list_elem_of_In|done]. }
    split; [eapply firstn_full; [exact Hin|exact Hn]|]. intros x Hx. eapply sorted_firstn; [apply by_due_sorted|exact Hx|exact Hin|exact Hn].
  - intros r (s & -> & Hs)%list_elem_of_fmap Hr. destruct (is_queued s && id_in (map id h) s) eqn:E; [done|].
    rewrite (proj2 (is_queued_spec s) Hr) in E. cbn in E.
    set (left_ := List.filter (fun s => negb (id_in (map id h) s)) t).
    assert (Hd : Some (due_at s) ∈ map queued_due left_).
    { apply list_elem_of_fmap. exists s. unfold queued_due. rewrite bool_decide_eq_true_2 by done. split; [done|].
      apply list_elem_of_In, filter_In. rewrite E. split; [by apply list_elem_of_In|done]. }
    pose proof (min_due_spec (map queued_due left_)) as M. destruct (min_due (map queued_due left_)) as [d|]; [|by destruct (M _ Hd)].
    exists d. split; [done|]. by apply M.
Qed.
End RunFacts.

Module MachineFacts.
Import QueueFacts RunFacts.

Section Machine.
Context (num_text : number -> string) (iso : Z -> string) (m : RunManifest) (platformRetry : string -> option RetrySpec) (cat : Catalog.Catalog).
#[local] Abbreviation step := (step num_text iso m platformRetry cat).
#[local] Abbreviation reached := (reached num_text iso m platformRetry cat).

(** ** The attempts this generation executes. *)

(** The row of an executing attempt: it is running it, or was stopped under it. *)
Definition holds (t : list SysRun) (h : SysRun) : Prop :=
  exists s, s ∈ t /\ id s = id h /\ (attempts s = attempts h /\ automation s = automation h) /\ (state s = SRunning \/ state s = SStopped).
Definition Inv (st : Sys) : Prop :=
  table_ok (runs st) /\ NoDup (map id (executing st)) /\ forall h, h ∈ executing st -> holds (runs st) h.

Lemma holds_map (f : SysRun -> SysRun) (t : list SysRun) (h : SysRun) :
  (forall s, s ∈ t -> id s = id h -> state s = SRunning \/ state s = SStopped ->
     id (f s) = id s /\ (attempts (f s) = attempts s /\ automation (f s) = automation s) /\ (state (f s) = SRunning \/ state (f s) = SStopped)) ->
  holds t h -> holds (map f t) h.
Proof.
  intros Hf (s & Hs & Ei & (Ea & Eu) & Es). destruct (Hf s Hs Ei Es) as (F1 & (F2 & F4) & F3). exists (f s). split_and!; [|congruence|congruence|congruence|done].
  apply list_elem_of_fmap. eauto.
Qed.
Lemma holds_started (t t' : list SysRun) (h : SysRun) : (forall s, started s -> s ∈ t -> s ∈ t') -> holds t h -> holds t' h.
Proof.
  intros H (s & Hs & R). exists s. split; [|done]. apply H; [|done]. left. destruct R as (_ & _ & [->| ->]); done.
Qed.
Lemma elem_of_without (h x : SysRun) (l : list SysRun) : x ∈ without h l <-> x ∈ l /\ id x <> id h.
Proof. unfold without. rewrite list_elem_of_In, filter_In, <- list_elem_of_In, negb_true_iff, String.eqb_neq. done. Qed.
Lemma without_nodup (h : SysRun) (l : list SysRun) : NoDup (map id l) -> NoDup (map id (without h l)).
Proof. intros H. eapply sublist_NoDup; [exact H|]. apply fmap_sublist, filter_sublist_bool. Qed.

Lemma inv_intro t ex : table_ok t -> NoDup (map id ex) -> (forall h, h ∈ ex -> holds t h) -> Inv (MkSys t ex).
Proof. intros A B C. split; [exact A|split; [exact B|exact C]]. Qed.
Lemma inv_enqueue now_ uuids rows when_ rule t ex t' ret :
  enqueue now_ uuids rows when_ rule t = Ok (t', ret) -> Inv (MkSys t ex) -> Inv (MkSys t' ex).
Proof.
  intros H (A & B & C). destruct (enqueue_kept _ _ _ _ _ _ _ _ H) as [K1 K2]. split_and!; cbn in *; auto.
  intros h Hh. eapply holds_started; [exact K2|]. by apply C.
Qed.

Definition slot_inserted (now : Z) (cron : string) (at_ : Z) : SysRun := inserted now "" (slot_row now (slot_run num_text iso cron at_)).
Lemma record_spec now cron at_ t :
  record now (slot_run num_text iso cron at_) t =
  if bool_decide (slot_id num_text iso cron at_ ∈ map id t) then Ok (t, false) else Ok (t ++ [slot_inserted now cron at_], true).
Proof.
  unfold record, enqueue. cbn [imap insert_all]. change (inserted now "" (slot_row now _)) with (slot_inserted now cron at_).
  assert (Hc : conflicting t (slot_inserted now cron at_) <-> slot_id num_text iso cron at_ ∈ map id t) by (by apply conflicting_id).
  unfold conflicting in Hc. unfold insert_one. destruct (existsb (same_id _) t || existsb (same_key _) t) eqn:E.
  - rewrite bool_decide_eq_true_2 by (by apply Hc). done.
  - rewrite bool_decide_eq_false_2; [done|]. intros H. apply Hc in H. congruence.
Qed.

Lemma inv_step b st st' : step b st st' -> Inv st -> Inv st'.
Proof.
  intros Hs (A & B & C).
  destruct Hs as [? ? ? ? ? ? ? ? ? F E|? ? ? ? ? ? ? ? ? _ _ E|? ? ? ? ? ? ? ? ? ? ? ? ? _ _ E|now pr cu lk t ex t' taken next E
    |cron at_ now t ex t' E|h now at_ j o w t ex due t' Hh E|h msg t ex Hh|a nm now i t ex|now t ex Hp|now ov cs t ex]; cbn [runs executing] in *.
  - eapply inv_enqueue; [exact E|by apply inv_intro].
  - eapply inv_enqueue; [exact E|by apply inv_intro].
  - eapply inv_enqueue; [exact E|by apply inv_intro].
  - destruct (claim_takes_due _ _ _ _ _ _ _ _ _ A E) as (hs & -> & Hn & _ & Hin & Hout & Hids & _).
    assert (Hold : forall x, x ∈ ex -> exists s, s ∈ t /\ ~ s ∈ hs /\ id s = id x /\ (attempts s = attempts x /\ automation s = automation x) /\ (state s = SRunning \/ state s = SStopped)).
    { intros x Hx. destruct (C x Hx) as (s & H1 & H2 & (H3 & H5) & H4). exists s. split_and!; try done. intros Hsh.
      destruct (Hin s Hsh) as (_ & Hl & _). unfold in_lane, eligible in Hl. bool_hyps. apply is_queued_spec in H. destruct H4; congruence. }
    apply inv_intro.
    + unfold claim in E. injection E as <- _ _. by apply table_ok_map; [apply claim_keeps|].
    + rewrite map_app, map_map. cbn [claim_row id]. apply NoDup_app. split_and!; [done| |done].
      intros i (x & -> & Hx)%list_elem_of_fmap (r & Ei & Hr)%list_elem_of_fmap.
      destruct (Hold x Hx) as (s & H1 & H2 & H3 & _). apply H2. destruct (Hin r Hr) as (Hrt & _).
      by rewrite (row_unique t s r A H1 Hrt ltac:(congruence)).
    + intros h [Hh|(r & -> & Hr)%list_elem_of_fmap]%elem_of_app.
      * destruct (Hold h Hh) as (s & H1 & H2 & H3). exists s. split; [by apply Hout|done].
      * exists (claim_row m now r). split_and!; try done; [by apply Hin|by left].
  - rewrite record_spec in E. case_bool_decide as Hi; [done|]. injection E as <-. apply inv_intro.
    + apply table_ok_snoc; [done| |].
      * apply existsb_false. intros x Hx. unfold same_id. cbn. apply String.eqb_neq. intros Ex. apply Hi. apply list_elem_of_fmap. exists x. done.
      * apply existsb_false. intros x Hx. done.
    + rewrite map_app. apply NoDup_app. split_and!; [done| |apply NoDup_singleton].
      intros i (x & -> & Hx)%list_elem_of_fmap Ei%list_elem_of_singleton. destruct (C x Hx) as (s & H1 & H2 & _). apply Hi.
      apply list_elem_of_fmap. exists s. split; [|done]. by rewrite H2, Ei.
    + intros h [Hh| ->%list_elem_of_singleton]%elem_of_app.
      * destruct (C h Hh) as (s & H1 & R). exists s. split; [apply elem_of_app; by left|done].
      * exists (slot_inserted now cron at_). split; [apply elem_of_app; right; left|]. split_and!; try done. by left.
  - unfold finish in E. inv_outcome. apply inv_intro.
    + by apply table_ok_map; [apply done_keeps|].
    + by apply without_nodup.
    + intros h' [Hh' Hne]%elem_of_without. apply holds_map; [|by apply C]. intros s Hs Ei Est.
      assert (F : id_in [id h] s = false); [|by rewrite F].
      destruct (id_in [id h] s) eqn:F; [|done]. apply id_in_spec, list_elem_of_singleton in F. congruence.
  - apply inv_intro.
    + by apply table_ok_map; [apply interrupted_keeps|].
    + by apply without_nodup.
    + intros h' [Hh' Hne]%elem_of_without. apply holds_map; [|by apply C]. intros s Hs Ei Est.
      assert (F : existsb (same_attempt s) [h] = false).
      { cbn. rewrite orb_false_r. unfold same_attempt. apply andb_false_iff. left. apply String.eqb_neq. congruence. }
      by rewrite F, andb_false_r.
  - apply inv_intro.
    + destruct (stop_table a nm now i t) as [->| ->]; [by apply table_ok_map; [apply stop_keeps|]|done].
    + done.
    + intros h Hh. destruct (stop_table a nm now i t) as [->| ->]; [|by apply C]. apply holds_map; [|by apply C].
      intros s Hs Ei Est. destruct (_ && _); cbn; auto.
  - apply inv_intro.
    + eapply table_ok_sublist; [apply delete_first_sublist|done].
    + done.
    + intros h Hh. destruct (C h Hh) as (s & H1 & H2 & R). exists s. split; [|done]. apply delete_first_keeps; [done|]. by apply (Hp h s).
  - apply inv_intro; [by apply table_ok_map; [apply lost_keeps|]|constructor|]. intros h Hh. by apply elem_of_nil in Hh.
Qed.
Lemma inv_reached n st : reached n st -> Inv st.
Proof.
  induction 1 as [|n b st st' _ IH Hs]; [|by eapply inv_step].
  split_and!; cbn; [split; constructor|constructor|]. intros h Hh. by apply elem_of_nil in Hh.
Qed.

(** ** How one row changes. *)

Inductive moved : bool -> SysRun -> SysRun -> Prop :=
| MovedReplace i d s : state s = SQueued -> attempts s = 0 -> moved false s (with_input_due i d s)
| MovedClaim now s : state s = SQueued -> moved false s (claim_row m now s)
| MovedDone due at_ retry o result s : state s = SRunning ->
    retry = retries (policy_of m platformRetry (automation s)) (attempts s) o ->
    moved false s (done_row due at_ (state_after retry o) o result s)
| MovedInterrupt msg s : state s = SRunning -> moved false s (interrupt_row msg s)
| MovedStop now s : state s = SQueued \/ state s = SRunning -> moved false s (stop_row now s)
| MovedLost now over s : state s = SRunning -> moved true s (lost_row now over s).

(** A row some step inserted. *)
Definition fresh (s : SysRun) : Prop :=
  leases s = 0 /\
  (attempts s = 0 /\ (state s = SQueued \/ state s = SFailed) \/ attempts s = 1 /\ state s = SRunning /\ cause s = "cron"%string) /\
  (depth s <= WRITE_DEPTH \/ state s = SFailed).

Lemma elem_of_replace_in e t s : s ∈ replace_in e t -> s ∈ t \/ exists s0, s0 ∈ t /\ moved false s0 s.
Proof.
  intros (s0 & -> & Hs)%list_elem_of_fmap. destruct (same_key e s0 && replaceable e s0) eqn:E; [right|by left].
  exists s0. split; [done|]. apply andb_true_iff in E as [_ E]. unfold replaceable in E. bool_hyps.
  apply MovedReplace; [by eapply bool_decide_eq_true|done].
Qed.
Lemma moved_replace_new b s0 s : moved b s0 s -> fresh s0 -> b = false -> (exists i d, s = with_input_due i d s0) -> fresh s.
Proof. intros _ F _ (i & d & ->). exact F. Qed.

(** A row of an insert's table is an old one, a replaced one, or one of the inserted rows (perhaps replaced since). *)
Definition from_insert (t rows : list SysRun) (s : SysRun) : Prop :=
  exists s0, (s0 ∈ t \/ s0 ∈ rows) /\ (s = s0 \/ exists i d, state s0 = SQueued /\ attempts s0 = 0 /\ s = with_input_due i d s0).
Lemma insert_one_from rule t ret row t' ret' s :
  insert_one rule (t, ret) row = Ok (t', ret') -> s ∈ t' -> from_insert t [row] s.
Proof.
  unfold insert_one, from_insert. intros H Hs.
  assert (New : s ∈ t ++ [row] -> exists s0, (s0 ∈ t \/ s0 ∈ [row]) /\ (s = s0 \/ exists i d, state s0 = SQueued /\ attempts s0 = 0 /\ s = with_input_due i d s0))
    by (intros [Hx|Hx]%elem_of_app; exists s; auto).
  assert (Old : s ∈ t -> exists s0, (s0 ∈ t \/ s0 ∈ [row]) /\ (s = s0 \/ exists i d, state s0 = SQueued /\ attempts s0 = 0 /\ s = with_input_due i d s0))
    by (intros Hx; exists s; auto).
  destruct (existsb (same_id row) t) eqn:Hi, (existsb (same_key row) t) eqn:Hk, (existsb (same_key row) ret) eqn:Hr, rule;
    cbn in H; try discriminate H; injection H as <- <-; auto.
  all: apply list_elem_of_fmap in Hs as (s0 & -> & Hs); exists s0; split; [by left|];
    destruct (same_key row s0 && replaceable row s0) eqn:E; [right|by left];
    apply andb_true_iff in E as [_ E]; unfold replaceable in E; bool_hyps; exists (input row), (due_at row);
    split_and!; [by eapply bool_decide_eq_true|done|done].
Qed.
Lemma insert_all_from rule rows t ret t' ret' s :
  insert_all rule rows (t, ret) = Ok (t', ret') -> s ∈ t' -> from_insert t rows s.
Proof.
  revert t ret. induction rows as [|r rows IH]; intros t ret H Hs; cbn [insert_all] in H; inv_outcome; [exists s; auto|].
  destruct a as [t1 ret1]. destruct (IH _ _ H Hs) as (s1 & Hs1 & R1).
  assert (G : from_insert t (r :: rows) s1).
  { destruct Hs1 as [Hs1|Hs1]; [|exists s1; split; [right; by right|by left]].
    destruct (insert_one_from _ _ _ _ _ _ _ E Hs1) as (s0 & Hs0 & R0). exists s0. split; [|done].
    destruct Hs0 as [?| ->%list_elem_of_singleton]; [by left|right; left]. }
  destruct G as (s0 & Hs0 & R0). exists s0. split; [done|]. destruct R1 as [->|(i & d & Q1 & Q2 & ->)]; [done|].
  destruct R0 as [->|(i0 & d0 & Q3 & Q4 & ->)]; right; exists i, d; done.
Qed.

(** What one step does to the table: each row is as it was, moved, or new. *)
Definition explained (b : bool) (t : list SysRun) (s' : SysRun) : Prop :=
  s' ∈ t \/ fresh s' \/ exists s, s ∈ t /\ moved b s s'.
Lemma explained_insert now_ uuids rows when_ rule t t' ret s :
  Forall (fun r => in_attempts r = None /\ (in_state r ∈ [None; Some SQueued; Some SFailed]) /\
    (default 0 (in_depth r) <= WRITE_DEPTH \/ in_state r = Some SFailed)) rows ->
  enqueue now_ uuids rows when_ rule t = Ok (t', ret) -> s ∈ t' -> explained false t s.
Proof.
  intros F H Hs. unfold enqueue in H. destruct when_; [|injection H as <- <-; by left]. inv_outcome. destruct a as [t1 r1]. cbn [fst snd] in *.
  destruct (insert_all_from _ _ _ _ _ _ _ E Hs) as (s0 & [Hs0|Hs0] & R).
  - destruct R as [->|(i & d & Q1 & Q2 & ->)]; [by left|]. right. right. exists s0. split; [done|by apply MovedReplace].
  - right. left. assert (F0 : fresh s0).
    { apply elem_of_lookup_imap in Hs0 as (n & r & -> & Hr). eapply Forall_lookup in F; [|exact Hr]. destruct F as (F1 & F2 & F3).
      unfold fresh. cbn. rewrite F1. cbn. split; [done|].
      apply elem_of_cons in F2 as [F2|[F2|[F2|F2%elem_of_nil]%elem_of_cons]%elem_of_cons]; [| | |done];
        rewrite F2 in F3 |- *; cbn [default from_option Datatypes.id]; (split; [left; auto|]);
        destruct F3 as [F3|F3]; first [by left | by right | discriminate F3]. }
    destruct R as [->|(i & d & Q1 & Q2 & ->)]; [done|exact F0].
Qed.

Lemma held_row t ex h s : Inv (MkSys t ex) -> h ∈ ex -> s ∈ t -> id s = id h ->
  attempts s = attempts h /\ automation s = automation h /\ (state s = SRunning \/ state s = SStopped).
Proof.
  intros (A & _ & C) Hh Hs Ei. destruct (C h Hh) as (s' & H1 & H2 & (H3 & H4) & H5). cbn [runs] in *.
  by rewrite (row_unique t s s' A Hs H1 ltac:(congruence)).
Qed.
Lemma step_explained b st st' s : Inv st -> step b st st' -> s ∈ runs st' -> explained b (runs st) s.
Proof.
  intros Hinv Hs Hin.
  destruct Hs as [? ? ? ? ? ? ? ? ? F E|? ? ? ? ? ? ? ? ? _ Q E|? ? ? ? ? ? ? ? ? ? ? ? ? _ Q E|now pr cu lk t ex t' taken next E
    |cron at_ now t ex t' E|h now at_ j o w t ex due t' Hh E|h msg t ex Hh|a nm now i t ex|now t ex Hp|now ov cs t ex]; cbn [runs] in *.
  - eapply explained_insert; [|exact E|exact Hin]. eapply Forall_impl; [exact F|]. intros r (F1 & F2 & F3). split_and!; [done|done|]. left. rewrite F3. done.
  - eapply explained_insert; [|exact E|exact Hin]. unfold queueEffects in Q. inv_outcome. apply Forall_forall. intros r (ai & -> & _)%list_elem_of_fmap.
    cbn [effect_run in_attempts in_state in_depth default from_option Datatypes.id]. split; [done|].
    destruct (WRITE_DEPTH <? wr_depth writer) eqn:Ed; bool_hyps; (split; [set_solver|]); [by right|by left].
  - eapply explained_insert; [|exact E|exact Hin]. apply Forall_singleton. unfold schedule in Q.
    destruct (negb (has_own _ target)); [done|]. cbv zeta in Q. destruct (_ && _); [done|]. destruct (WRITE_DEPTH <? _) eqn:Ed; [done|].
    destruct (match at_ with None => Some now | Some i => i end); [|done]. injection Q as <-. apply Z.ltb_ge in Ed.
    cbn [queued_run in_attempts in_state in_depth default from_option Datatypes.id]. split_and!; [done|set_solver|by left].
  - unfold claim in E. injection E as <- _ _. apply list_elem_of_fmap in Hin as (s0 & -> & Hs0). destruct (_ && _) eqn:Ec; [|by left].
    right. right. exists s0. split; [done|]. apply MovedClaim. bool_hyps. by apply is_queued_spec.
  - rewrite record_spec in E. case_bool_decide; [done|]. injection E as <-. apply elem_of_app in Hin as [?| ->%list_elem_of_singleton]; [by left|].
    right. left. split_and!; [done|right; done|left; cbn; done].
  - unfold finish in E. inv_outcome. apply list_elem_of_fmap in Hin as (s0 & -> & Hs0). destruct (_ && _) eqn:Ec; [|by left].
    right. right. exists s0. split; [done|]. bool_hyps. apply id_in_spec, list_elem_of_singleton in H.
    destruct (held_row _ _ _ _ Hinv Hh Hs0 H) as (E1 & E2 & [E3|E3]); [|by rewrite bool_decide_eq_true_2 in H0].
    apply MovedDone; [done|]. by rewrite E1, E2.
  - apply list_elem_of_fmap in Hin as (s0 & -> & Hs0). destruct (_ && _) eqn:Ec; [|by left].
    right. right. exists s0. split; [done|]. bool_hyps. apply MovedInterrupt. by apply is_running_spec.
  - destruct (stop_table a nm now i t) as [Ht|Ht]; rewrite Ht in Hin; [|by left].
    apply list_elem_of_fmap in Hin as (s0 & -> & Hs0). destruct (_ && _) eqn:Ec; [|by left].
    right. right. exists s0. split; [done|]. apply MovedStop. apply andb_true_iff in Ec as [_ Ec].
    apply orb_true_iff in Ec as [Ec|Ec]; [left; by apply is_queued_spec|right; by apply is_running_spec].
  - left. by eapply elem_of_sublist; [exact Hin|apply delete_first_sublist].
  - apply list_elem_of_fmap in Hin as (s0 & -> & Hs0). destruct (is_running s0) eqn:Ec; [|by left].
    right. right. exists s0. split; [done|]. apply MovedLost. by apply is_running_spec.
Qed.

(** A property of single rows that new rows have and moves keep holds of every row reached; it may grow with the boots. *)
Lemma rows_reached (P : nat -> SysRun -> Prop) :
  (forall n s, P n s -> P (S n) s) -> (forall n s, fresh s -> P n s) ->
  (forall n (b : bool) s s', P n s -> moved b s s' -> P (if b then S n else n) s') ->
  forall n st, reached n st -> forall s, s ∈ runs st -> P n s.
Proof.
  intros Pm Pf Pv n st H. induction H as [|n b st st' Hr IH Hs]; intros s Hin; [by apply elem_of_nil in Hin|].
  destruct (step_explained b st st' s (inv_reached n st Hr) Hs Hin) as [Ho|[Hf|(s0 & H0 & Hm)]].
  - destruct b; auto.
  - auto.
  - eapply Pv; [by apply IH|exact Hm].
Qed.

Definition live (s : SysRun) : Prop := state s = SQueued \/ state s = SRunning.

(** Lost leases are bounded: no run is ever charged more than four, and a run still queued or running at most three, so a run
    whose host keeps dying is given up instead of being run for ever. *)
Theorem leases_bounded n st s :
  reached n st -> s ∈ runs st -> 0 <= leases s <= 4 /\ (live s -> leases s <= 3).
Proof.
  intros H. revert s. eapply (rows_reached (fun _ s => 0 <= leases s <= 4 /\ (live s -> leases s <= 3))); [auto| | |exact H].
  - intros _ s' (L & _). rewrite L. lia.
  - clear. intros _ b s s' (L1 & L2) Hm. unfold live in *. inversion Hm; subst; cbn [with_input_due claim_row done_row interrupt_row stop_row lost_row leases state].
    1-4: split; [exact L1|intros _; apply L2; auto].
    + split; [exact L1|]. intros []; discriminate.
    + assert (leases s <= 3) by auto. destruct (closed s) eqn:Ec; [split; [lia|intros _; lia]|]. split; [lia|].
      unfold fails. rewrite Ec. cbn. rewrite andb_true_r.
      destruct (3 <=? leases s) eqn:E; bool_hyps; [rewrite orb_true_r; by intros [|]|lia].
Qed.

Definition allowed (s : SysRun) : Z := Z.max 1 (attempts_allowed (policy_of m platformRetry (automation s))).
(** Retries end: in any history with [n] boots a run is started at most as often as its retry policy allows, and once more for
    each boot; one waiting to start has at least one start left. *)
Theorem attempts_bounded n st s :
  reached n st -> s ∈ runs st ->
  attempts s <= allowed s + Z.of_nat n /\ (state s = SQueued -> attempts s < allowed s + Z.of_nat n).
Proof.
  intros H. revert s.
  eapply (rows_reached (fun n s => attempts s <= allowed s + Z.of_nat n /\ (state s = SQueued -> attempts s < allowed s + Z.of_nat n))); [| | |exact H].
  - intros k s (A1 & A2). split; [lia|intros Hq; specialize (A2 Hq); lia].
  - intros k s (_ & [[-> _]|(-> & Hr & _)] & _); unfold allowed; split; try lia. congruence.
  - clear. intros k b s s' (A1 & A2) Hm.
    inversion Hm; subst; unfold allowed in *; cbn [with_input_due claim_row done_row interrupt_row stop_row lost_row attempts automation state] in *.
    + split; [done|done].
    + split; [|done]. match goal with H : state s = SQueued |- _ => specialize (A2 H) end. lia.
    + split; [done|]. unfold state_after, retries. destruct o; try done. destruct (isTransient _ && _) eqn:Er; [|done]. intros _. bool_hyps. lia.
    + split; [done|congruence].
    + split; [done|done].
    + split; [lia|intros _; lia].
Qed.

(** Chains of runs end: whatever runs write and schedule, a run deeper than the limit exists only as one already failed, so
    it is never claimed. *)
Theorem depth_bounded n st s : reached n st -> s ∈ runs st -> depth s <= WRITE_DEPTH \/ state s = SFailed.
Proof.
  intros H. revert s. eapply (rows_reached (fun _ s => depth s <= WRITE_DEPTH \/ state s = SFailed)); [auto| | |exact H].
  - intros _ s (_ & _ & D). exact D.
  - clear. intros _ b s s' [D|D] Hm; [by left; inversion Hm; subst|]. inversion Hm; subst; try congruence. destruct H; congruence.
Qed.

(** C14. An end is final: once a run succeeded, failed, was stopped or skipped, no step changes its row, whatever attempt is still
    executing it; the row is as it was until it is pruned. *)
Theorem ended_final n b st st' s :
  reached n st -> step b st st' -> s ∈ runs st -> ended (state s) = true -> s ∈ runs st' \/ id s ∉ map id (runs st').
Proof.
  intros Hr Hs Hin He. pose proof (inv_reached n st Hr) as Hinv.
  assert (Hst : started s) by (left; destruct (state s); done).
  assert (Hq : is_queued s = false) by (apply bool_decide_eq_false; by destruct (state s)).
  assert (Hrn : is_running s = false) by (apply bool_decide_eq_false; by destruct (state s)).
  assert (K : forall f, f s = s -> s ∈ map f (runs st)) by (intros f Hf; apply list_elem_of_fmap; eauto).
  destruct Hs as [? ? ? ? ? ? ? ? ? F E|? ? ? ? ? ? ? ? ? _ Q E|? ? ? ? ? ? ? ? ? ? ? ? ? _ Q E|now pr cu lk t ex t' taken next E
    |cron at_ now t ex t' E|h now at_ j o w t ex due t' Hh E|h msg t ex Hh|a nm now i t ex|now t ex Hp|now ov cs t ex]; cbn [runs] in *.
  1-3: left; eapply enqueue_kept; [exact E|done|done].
  - left. unfold claim in E. injection E as <- _ _. apply K. by rewrite Hq.
  - left. rewrite record_spec in E. case_bool_decide; [done|]. injection E as <-. apply elem_of_app. by left.
  - left. unfold finish in E. inv_outcome. apply K. destruct (id_in [id h] s) eqn:Ei; [|done].
    apply id_in_spec, list_elem_of_singleton in Ei. destruct (held_row _ _ _ _ Hinv Hh Hin Ei) as (_ & _ & [E3|E3]); [by rewrite E3 in He|].
    by rewrite bool_decide_eq_true_2.
  - left. apply K. by rewrite Hrn.
  - left. destruct (stop_table a nm now i t) as [->| ->]; [apply K; by rewrite Hq, Hrn, andb_false_r|done].
  - destruct (decide (id s ∈ map id (del (run_aged now) t))) as [Hd|Hd]; [left|by right].
    apply list_elem_of_fmap in Hd as (s' & Ei & Hs'). assert (Hs2 : s' ∈ t) by (eapply elem_of_sublist; [exact Hs'|apply delete_first_sublist]).
    destruct Hinv as [Hok _]. by rewrite (row_unique t s s' Hok Hin Hs2 Ei).
  - left. apply K. by rewrite Hrn.
Qed.

(** ** Capacity. *)

(** A run counts against its automation's capacity while it is running, the first run of a cron's slot apart, which the host's
    clock starts. *)
Definition claimed_run (a : string) (s : SysRun) : bool :=
  String.eqb (automation s) a && is_running s && negb (String.eqb (cause s) "cron" && (attempts s =? 1)).
Definition claimed_count (t : list SysRun) (a : string) : Z := Z.of_nat (length (List.filter (claimed_run a) t)).

Lemma count_app t1 t2 a : claimed_count (t1 ++ t2) a = claimed_count t1 a + claimed_count t2 a.
Proof. unfold claimed_count. rewrite List.filter_app, length_app. lia. Qed.
Lemma count_nonneg t a : 0 <= claimed_count t a.
Proof. unfold claimed_count. lia. Qed.
Lemma count_cons s t a : claimed_count (s :: t) a = (if claimed_run a s then 1 else 0) + claimed_count t a.
Proof. unfold claimed_count. cbn [List.filter]. destruct (claimed_run a s); cbn [length]; lia. Qed.
Lemma count_map f t a :
  claimed_count (map f t) a <= claimed_count t a + Z.of_nat (length (List.filter (fun s => claimed_run a (f s) && negb (claimed_run a s)) t)).
Proof.
  induction t as [|s t IH]; [done|]. cbn [map]. rewrite !count_cons. cbn [List.filter].
  destruct (claimed_run a (f s)), (claimed_run a s); cbn [andb negb length]; lia.
Qed.
Lemma count_map_le f t a :
  (forall s, s ∈ t -> claimed_run a (f s) = true -> claimed_run a s = true) -> claimed_count (map f t) a <= claimed_count t a.
Proof.
  intros H. pose proof (count_map f t a) as C. rewrite filter_none in C; [cbn in C; lia|].
  intros s Hs. destruct (claimed_run a (f s)) eqn:E; [|done]. by rewrite (H s Hs E).
Qed.
Lemma count_sublist t t' a : t' `sublist_of` t -> claimed_count t' a <= claimed_count t a.
Proof. induction 1; [done| |]; rewrite ?count_cons; destruct (claimed_run a x); lia. Qed.
Lemma count_running t a : claimed_count t a <= running_count t a.
Proof.
  unfold claimed_count, running_count, claimed_run. induction t as [|s t IH]; [done|]. cbn [List.filter].
  destruct (String.eqb (automation s) a && is_running s); cbn [andb]; [|done]. destruct (negb _); cbn [length]; lia.
Qed.
Lemma not_running_uncounted s a : state s <> SRunning -> claimed_run a s = false.
Proof. intros H. unfold claimed_run. destruct (is_running s) eqn:E; [by apply is_running_spec in E|]. by rewrite andb_false_r. Qed.

Lemma count_insert_all rule rows t ret t' ret' a :
  (forall r, r ∈ rows -> claimed_run a r = false) -> insert_all rule rows (t, ret) = Ok (t', ret') -> claimed_count t' a <= claimed_count t a.
Proof.
  revert t ret. induction rows as [|r rows IH]; intros t ret F H; cbn [insert_all] in H; inv_outcome; [lia|].
  destruct a0 as [t1 ret1]. etransitivity; [eapply IH; [|exact H]; intros x Hx; apply F; by right|]. clear IH H.
  assert (Snoc : claimed_count (t ++ [r]) a <= claimed_count t a).
  { rewrite count_app, count_cons, (F r ltac:(left)). unfold claimed_count at 2. cbn. lia. }
  assert (Repl : claimed_count (replace_in r t) a <= claimed_count t a).
  { apply count_map_le. intros s _. by destruct (_ && _). }
  unfold insert_one in E.
  destruct (existsb (same_id r) t), (existsb (same_key r) t), (existsb (same_key r) ret), rule;
    cbn in E; try discriminate E; injection E as <- <-; lia.
Qed.
Lemma count_explained now_ uuids rows when_ rule t t' ret a :
  (forall r, r ∈ rows -> in_state r <> Some SRunning) ->
  enqueue now_ uuids rows when_ rule t = Ok (t', ret) -> claimed_count t' a <= claimed_count t a.
Proof.
  intros F H. unfold enqueue in H. destruct when_; [|injection H as <- <-; lia]. inv_outcome. destruct a0 as [t1 r1]. cbn [fst].
  eapply count_insert_all; [|exact E]. intros row Hrow. apply elem_of_lookup_imap in Hrow as (n & r & -> & Hr).
  apply not_running_uncounted. cbn. specialize (F r (list_elem_of_lookup_2 _ _ _ Hr)). destruct (in_state r); cbn; congruence.
Qed.

Lemma filter_length_mono {A} (p q : A -> bool) (l : list A) :
  (forall x, x ∈ l -> p x = true -> q x = true) -> (length (List.filter p l) <= length (List.filter q l))%nat.
Proof.
  induction l as [|x l IH]; intros H; [done|]. cbn [List.filter].
  assert (IH' : (length (List.filter p l) <= length (List.filter q l))%nat) by (apply IH; intros y Hy; apply H; by right).
  destruct (p x) eqn:E; [rewrite (H x ltac:(left) E); cbn; lia|]. destruct (q x); cbn; lia.
Qed.
Lemma one_row (i : string) (t : list SysRun) : NoDup (map id t) -> (length (List.filter (id_in [i]) t) <= 1)%nat.
Proof.
  induction t as [|s t IH]; intros Hn; cbn [List.filter map] in *; [cbn; lia|]. apply NoDup_cons in Hn as [Hni Hn].
  destruct (id_in [i] s) eqn:E; [|by apply IH]. apply id_in_spec, list_elem_of_singleton in E. cbn [length].
  rewrite filter_none; [cbn; lia|]. intros x Hx. destruct (id_in [i] x) eqn:Ex; [|done]. apply id_in_spec, list_elem_of_singleton in Ex.
  exfalso. apply Hni, list_elem_of_fmap. exists x. split; [congruence|done].
Qed.
Lemma count_claim now pr cu lk t t' taken next a :
  table_ok t -> authored m a = true -> claim m now false pr cu lk t = (t', taken, next) -> claimed_count t a <= Z.max 0 (capacity m a) ->
  claimed_count t' a <= Z.max 0 (capacity m a).
Proof.
  intros Hok Ha H Hc. unfold claim in H. injection H as <- _ _.
  set (h := head_of m now pr cu lk t). pose proof (head_of_in m now pr cu lk t) as Hin. fold h in Hin.
  (* a row starts to count only when it is the lane's head *)
  assert (New : forall s, s ∈ t -> claimed_run a (if is_queued s && id_in (map id h) s then claim_row m now s else s) = true ->
            claimed_run a s = true \/ s ∈ h /\ automation s = a).
  { intros s Hs. destruct (is_queued s && id_in (map id h) s) eqn:E; [|auto]. bool_hyps. intros Hcl. right.
    apply id_in_spec, list_elem_of_fmap in H0 as (r & Er & Hr). destruct (Hin r Hr) as [Hrt _]. rewrite (row_unique t s r Hok Hs Hrt Er).
    split; [done|]. rewrite <- (row_unique t s r Hok Hs Hrt Er). unfold claimed_run in Hcl. cbn in Hcl. bool_hyps. done. }
  destruct (list_find (fun r => automation r = a) h) as [[k r]|] eqn:Ef.
  - apply list_find_Some in Ef as (Hk & Er & _). assert (Hr : r ∈ h) by (by eapply list_elem_of_lookup_2). destruct (Hin r Hr) as [Hrt Hl].
    unfold in_lane, eligible in Hl. bool_hyps. rewrite Er in *. rewrite Ha in *. destruct cu; [|done].
    assert (Hh : h = [r]).
    { unfold h, head_of in *. destruct (by_due _) as [|x l]; [by apply elem_of_nil in Hr|]. cbn in Hr |- *. by apply list_elem_of_singleton in Hr as ->. }
    pose proof (count_running t a) as R. pose proof (count_map (fun s => if is_queued s && id_in (map id h) s then claim_row m now s else s) t a) as C.
    assert (L : (length (List.filter (fun s => claimed_run a (if is_queued s && id_in (map id h) s then claim_row m now s else s) && negb (claimed_run a s)) t) <= 1)%nat).
    { etransitivity; [|apply (one_row (id r) t), Hok]. apply filter_length_mono. intros s Hs [Hcl Hnc]%andb_true_iff. apply negb_true_iff in Hnc.
      destruct (New s Hs Hcl) as [?|[Hsh _]]; [congruence|]. rewrite Hh in Hsh. apply list_elem_of_singleton in Hsh as ->. apply id_in_spec. left. }
    unfold claim_in. lia.
  - apply list_find_None in Ef. etransitivity; [apply count_map_le|exact Hc].
    intros s Hs Hcl. destruct (New s Hs Hcl) as [?|[Hsh Ea]]; [done|]. exfalso. by eapply Forall_forall in Ef.
Qed.

(** C12. Capacity: however claims, fires, retries, stops and boots interleave, an automation never has more claimed runs running
    than its declared concurrency (one, when it declares none). *)
Theorem capacity_respected n st a :
  reached n st -> authored m a = true -> claimed_count (runs st) a <= Z.max 0 (capacity m a).
Proof.
  intros Hr Ha. induction Hr as [|n b st st' Hr IH Hs]; [unfold claimed_count; cbn; lia|].
  pose proof (inv_reached n st Hr) as (Hok & _ & _).
  destruct Hs as [? ? ? ? ? ? ? ? ? F E|? ? ? ? ? ? ? ? ? _ Q E|? ? ? ? ? ? ? ? ? ? ? ? ? _ Q E|now pr cu lk t ex t' taken next E
    |cron at_ now t ex t' E|h now at_ j o w t ex due t' Hh E|h msg t ex Hh|a' nm now i t ex|now t ex Hp|now ov cs t ex]; cbn [runs] in *.
  1-3: etransitivity; [eapply count_explained; [|exact E]|exact IH].
  - intros r Hr'. destruct (proj1 (Forall_forall _ _) F r Hr') as (F1 & _). set_solver.
  - unfold queueEffects in Q. inv_outcome. intros r (ai & -> & _)%list_elem_of_fmap. cbn. by destruct (_ <? _).
  - intros r' ->%list_elem_of_singleton. unfold schedule in Q. destruct (negb _); [done|]. cbv zeta in Q. destruct (_ && _); [done|].
    destruct (_ <? _); [done|]. destruct (match at_ with None => Some now | Some i => i end); [|done]. by injection Q as <-.
  - by eapply count_claim.
  - rewrite record_spec in E. case_bool_decide; [done|]. injection E as <-. rewrite count_app, count_cons.
    assert (claimed_run a (slot_inserted now cron at_) = false) as -> by (unfold claimed_run; cbn; by rewrite andb_false_r).
    unfold claimed_count at 2. cbn. lia.
  - unfold finish in E. inv_outcome. etransitivity; [apply count_map_le|exact IH]. intros s _. destruct (_ && _); [|done].
    rewrite not_running_uncounted; [done|]. cbn. unfold state_after. destruct (retries _ _ _); [done|]. by destruct o.
  - etransitivity; [apply count_map_le|exact IH]. intros s _. by destruct (_ && _).
  - destruct (stop_table a' nm now i t) as [->| ->]; [|done]. etransitivity; [apply count_map_le|exact IH]. intros s _. destruct (_ && _); [|done].
    by rewrite not_running_uncounted.
  - etransitivity; [apply count_sublist, delete_first_sublist|exact IH].
  - etransitivity; [apply count_map_le|exact IH]. intros s _. destruct (is_running s); [|done]. rewrite not_running_uncounted; [done|].
    by destruct (lost_row_state now ov s) as [->| ->].
Qed.
End Machine.
End MachineFacts.

Module RunTheorems.
Import QueueFacts RunFacts.

(** ** Who sees a run. *)

(** Who may read what a run was given and answered. *)
Definition reads_in_full (a : Authority) (row : SysRun) : Prop :=
  (au_admin a = true \/ automation row ∈ au_automations a \/ (exists h, starter row = Some h /\ h_actor h = au_actor a)) /\
  (cause row <> "effect"%string \/ au_admin a = true)
  \/ cause row = "start"%string /\ actor row = Some (actorRef (au_actor a)).
(** A view that shows no more than that the run exists, how it stands and the code it failed with. *)
Definition shows_status_only (v : RunView) : Prop :=
  v_input v = None /\ v_result v = None /\ v_attempts v = None /\
  (forall e, v_error v = Some e -> er_message e = None /\ er_rest e = []).

Lemma reads_all_spec (a : Authority) (row : SysRun) : reads_all a row = true <-> reads_in_full a row.
Proof.
  unfold reads_all, readsRunResult, reads_in_full.
  rewrite orb_true_iff, !andb_true_iff, !orb_true_iff, negb_true_iff, String.eqb_neq, String.eqb_eq, includes_spec, bool_decide_eq_true.
  assert (H : match starter row with Some h => bool_decide (h_actor h = au_actor a) | None => false end = true <->
              exists h, starter row = Some h /\ h_actor h = au_actor a).
  { destruct (starter row) as [h|]; [rewrite bool_decide_eq_true|]; split; try done; [eauto|by intros (h' & [= <-] & E)|by intros (h' & E & _)]. }
  rewrite H. tauto.
Qed.
Lemma runView_spec (a : Authority) name (row : SysRun) (v : RunView) :
  runView a name row = Some v -> v_id v = id row /\ (reads_in_full a row \/ actor row = Some (actorRef (au_actor a)) /\ shows_status_only v).
Proof.
  unfold runView. destruct (reads_all a row) eqn:E.
  - intros [= <-]. split; [done|]. left. by apply reads_all_spec.
  - case_bool_decide; [|done]. intros [= <-]. split; [done|]. right. split; [done|]. split_and!; try done.
    cbn. intros e. destruct (error row); cbn; [|done]. by intros [= <-].
Qed.

(** A run's input, answer, attempts and error text reach only those who may read it in full: an administrator, a holder of its
    automation, the person it was started for (an effect's rows only an administrator) or the person who started it by hand;
    a person who merely caused it sees its status and error code. The list shows nothing to anyone but a member and only
    such views, and only one who reads a run in full can stop it. *)
Theorem runs_private (a : Authority) name :
  (forall row v, runView a name row = Some v -> reads_in_full a row \/ actor row = Some (actorRef (au_actor a)) /\ shows_status_only v) /\
  (forall limit automation_ id_ t v, v ∈ runList a (fun _ => name) limit automation_ id_ t ->
     is_member (au_actor a) = true /\ exists row, row ∈ t /\ runView a name row = Some v) /\
  (forall now i t, fst (stop a name now i t) <> t -> exists row, row ∈ t /\ id row = i /\ reads_in_full a row).
Proof.
  split_and!.
  - intros row v H. by apply runView_spec in H as [_ H].
  - intros limit au_ id_ t v H. unfold runList in H. destruct (is_member (au_actor a)); [|by apply elem_of_nil in H].
    split; [done|]. cbn [negb] in H. apply list_elem_of_omap in H as (row & Hr & Hv). exists row. split; [|done].
    apply elem_of_firstn in Hr. assert (P : forall l, latest l ≡ₚ l).
    { induction l as [|x l IH]; cbn; [done|]. assert (Q : forall k, insert_late x k ≡ₚ x :: k).
      { induction k as [|y k IHk]; cbn; [done|]. destruct (_ <? _); [done|]. rewrite IHk. apply perm_swap. }
      by rewrite Q, IH. }
    rewrite P in Hr. apply list_elem_of_In, filter_In in Hr as [Hr _]. by apply list_elem_of_In.
  - intros now i t H. unfold stop in H. destruct (List.find _ t) as [row|] eqn:Ef; [|done].
    apply find_some in Ef as [Hin Ei]. cbv beta in Ei. apply String.eqb_eq in Ei. exists row. split_and!; [by apply list_elem_of_In|done|].
    destruct (runView a name row) as [v|] eqn:Ev; [|done]. apply runView_spec in Ev as [_ [?|[_ (Hi & _)]]]; [done|].
    by rewrite Hi in H.
Qed.

(** ** What an attempt leaves. *)

Definition retried (m : RunManifest) platformRetry (head : SysRun) (o : GuestOutcome) : Prop :=
  exists e, o = GFailed e /\ isTransient (EBolt e) = true /\ attempts head < attempts_allowed (policy_of m platformRetry (automation head)).
Lemma retries_spec m platformRetry head o :
  retries (policy_of m platformRetry (automation head)) (attempts head) o = true <-> retried m platformRetry head o.
Proof.
  unfold retries, retried. destruct o as [j|msg c r|e]; try (split; [done|by intros (e & ? & _)]).
  rewrite andb_true_iff, Z.ltb_lt. split; [intros []; eauto|by intros (e' & [= <-] & ?)].
Qed.

(** The end of an attempt: the run succeeds when its body answered, is queued again exactly when the failure is transient and
    its policy allows another attempt, and else fails, a refusal always; its history gains this attempt's record and nothing else; a
    run stopped meanwhile, and every other run, stays as it was. *)
Theorem attempt_end m platformRetry head now at_ jitter o warnings (t : list SysRun) due t' (s : SysRun) :
  finish m platformRetry head now at_ jitter o warnings t = Ok (due, t') -> s ∈ t ->
  (id s <> id head \/ state s = SStopped -> s ∈ t') /\
  (id s = id head -> state s <> SStopped -> exists s' record, s' ∈ t' /\ id s' = id s /\ results s' = results s ++ [record] /\
     ra_state record = state s' /\ ra_attempt record = attempts head /\ output s' = output_after o /\ error s' = error_after o /\
     (state s' = SQueued <-> retried m platformRetry head o) /\
     (state s' = SSucceeded <-> exists j, o = GOk j) /\
     (state s' = SQueued \/ state s' = SSucceeded \/ state s' = SFailed) /\
     (finished_at s' = None <-> state s' = SQueued) /\ (is_Some due <-> state s' = SQueued)).
Proof.
  intros H Hs. unfold finish in H. inv_outcome. set (p := policy_of m platformRetry (automation head)) in *.
  pose proof (retries_spec m platformRetry head o) as R. fold p in R. split.
  - intros Hc. apply list_elem_of_fmap. exists s. split; [|done]. destruct (id_in [id head] s) eqn:Ei; [|done].
    apply id_in_spec, list_elem_of_singleton in Ei. destruct Hc as [?|Hc]; [done|]. by rewrite bool_decide_eq_true_2.
  - intros Ei Hn. set (due := if retries p (attempts head) o then Some (retry_at at_ (fl (Qmult a jitter))) else None).
    set (rec := attempt_record head now at_ (retries p (attempts head) o) o warnings).
    set (f := done_row due at_ (state_after (retries p (attempts head) o) o) o rec).
    exists (f s), rec. split_and!; try done.
    + apply list_elem_of_fmap. exists s. split; [|done]. assert (E' : id_in [id head] s = true) by (apply id_in_spec; rewrite Ei; left).
      by rewrite E', bool_decide_eq_false_2.
    + rewrite <- R. cbn. unfold state_after. destruct (retries p (attempts head) o); [done|]. by destruct o.
    + cbn. unfold state_after. destruct (retries p (attempts head) o) eqn:Er; destruct o; cbn in *; split; try done; try (by intros (j & ?)); eauto.
    + cbn. unfold state_after. destruct (retries p (attempts head) o); [auto|]. destruct o; auto.
    + cbn. destruct (bool_decide (state_after _ o = SQueued)) eqn:Eb; [apply bool_decide_eq_true in Eb|apply bool_decide_eq_false in Eb]; done.
    + cbn. unfold state_after. destruct (retries p (attempts head) o); [split; eauto|]. destruct o; split; try done; by intros [].
Qed.

(** ** What a run may do and see. *)

(** The fields an image shows. *)
Definition image_fields (j : Json) : list string := match j with JObject o => keys o | _ => [] end.
Section Authority.
Context (SYSTEM : Manifest.Parts) (em : Manifest.EngineManifest) (authorityOf : Holder -> Authority).
Context (decodeInput : string -> Json -> option Json) (handled : string -> bool) (m : RunManifest).

Lemma shown_fields keep (row : Row) k : k ∈ image_fields (shown keep row) -> k ∈ keep /\ k ∈ keys row.
Proof.
  cbn. intros (kv & -> & Hk)%list_elem_of_fmap. apply list_elem_of_In, filter_In in Hk as [Hk Hf]. split; [by apply includes_spec|].
  apply list_elem_of_fmap. exists kv. split; [done|by apply list_elem_of_In].
Qed.

(** An image shown of a row: some of its own fields, each of them granted. *)
Definition granted_image (keep : list string) (row : Row) (x : Json) : Prop :=
  forall k, k ∈ image_fields x -> k ∈ keys row /\ k ∈ keep.
Definition granted_images (keep : list string) (e : EffectImages) (j : Json) : Prop :=
  match e with
  | ImageRows _ rows => exists js, j = JArray js /\ Forall2 (granted_image keep) rows js
  | ImageChanges _ cs => exists js, j = JArray (map (fun ba => JObject [("before", fst ba); ("after", snd ba)]%string) js) /\
      Forall2 (fun bc ba => granted_image keep (fst bc) (fst ba) /\ granted_image keep (snd bc) (snd ba)) cs js
  end.

(** An effect's guest code is handed no more than its writer may read: unless the writer is an administrator, the image of each
    committed row holds only the row's own fields that an output of the model the writer holds exposes, besides its id and
    revision; and when the writer holds no output of the model it is handed no image at all. *)
Theorem writer_sees_granted (a : Authority) (model : string) (e : EffectImages) :
  au_admin a = false ->
  match Access.viewOutput SYSTEM em a model with
  | None => writerImages SYSTEM em a model e = JArray []
  | Some output =>
      output ∈ Access.outputsOf SYSTEM em model /\ is_Some (Access.grantedArms a model output model) /\
      granted_images (["id"; "revision"]%string ++ Access.exposed SYSTEM em model model model output) e (writerImages SYSTEM em a model e)
  end.
Proof.
  intros Ha. unfold writerImages. rewrite Ha. destruct (Access.viewOutput SYSTEM em a model) as [output|] eqn:Ev; [|done].
  unfold Access.viewOutput in Ev. rewrite Ha in Ev. apply find_some in Ev as [Hin Hg]. cbv beta in Hg. split; [by apply list_elem_of_In|].
  split; [destruct (Access.grantedArms a model output model); [eauto|done]|].
  set (keep := ["id"; "revision"]%string ++ _).
  assert (G : forall row, granted_image keep row (shown keep row)) by (intros row k Hk; apply shown_fields in Hk as []; done).
  destruct e as [ids rows|ids cs]; cbn [images_json granted_images].
  - exists (map (shown keep) rows). split; [done|]. induction rows as [|row rows IH]; [constructor|]. cbn. constructor; [apply G|exact IH].
  - exists (map (fun ba => (shown keep (fst ba), shown keep (snd ba))) cs). split; [by rewrite map_map|].
    induction cs as [|[b c] cs IH]; [constructor|]. cbn [map fst snd]. constructor; [split; apply G|exact IH].
Qed.

(** A run holds no authority but its own: guest code of a declared automation runs as the system identity with exactly the
    automation's policies and never as an administrator, whoever started it; a model effect's runs as the writer the run
    recorded; and a run that is neither is never handed to guest code. *)
Theorem run_authority (head : SysRun) (h : Holder) (j : Json) :
  work SYSTEM em authorityOf decodeInput handled m head = Invoke h j ->
  match get (rm_automations m) (automation head) with
  | Some spec => h = policyHolder head (as_policies spec) /\ h_admin h = false
  | None => is_Some (effectOf m (automation head)) /\ starter head = Some h
  end.
Proof.
  unfold work. intros H. destruct (get (rm_automations m) (automation head)) as [spec|], (effectOf m (automation head)) as [[model verb]|].
  - destruct (decodeInput _ _) as [x|]; [|done]. destruct (effectImages x); [|done]. by injection H as <- _.
  - destruct (decodeInput _ _) as [x|]; [|done]. by injection H as <- _.
  - destruct (starter head) as [w|]; [|done]. destruct (effectImages (input head)); [|done]. injection H as <- _. eauto.
  - by destruct (_ || _).
Qed.
End Authority.

(** ** Cron slots. *)

(** A cron's slot runs once: its run is the row of the slot's own id, so however often the host fires the slot, it is recorded
    only while no row has that id; and a cron that rests is asked again within its rest, at a whole multiple of it. *)
Theorem slot_once num_text iso cron at_ :
  (forall now (t t' : list SysRun), record now (slot_run num_text iso cron at_) t = Ok (t', true) ->
     (slot_id num_text iso cron at_ ∉ map id t) /\ (exists s, t' = t ++ [s] /\ id s = slot_id num_text iso cron at_ /\ state s = SRunning /\ due_at s = at_)) /\
  (forall now (later : list SysRun), slot_id num_text iso cron at_ ∈ map id later -> record now (slot_run num_text iso cron at_) later = Ok (later, false)) /\
  (forall now rest, 0 < rest -> now < rest_end now rest <= now + rest /\ (rest | rest_end now rest)).
Proof.
  split_and!.
  - intros now t t' H. rewrite MachineFacts.record_spec in H. case_bool_decide as Hi; [done|]. injection H as <-. split; [done|].
    eexists. split_and!; done.
  - intros now later H. by rewrite MachineFacts.record_spec, bool_decide_eq_true_2.
  - intros now rest Hr. unfold rest_end. pose proof (Z.div_mod now rest ltac:(lia)). pose proof (Z.mod_pos_bound now rest Hr).
    split; [nia|]. exists (now / rest + 1). lia.
Qed.

(** ** Pruning ends. *)

Definition total (t : Tables) : nat :=
  list_sum [length (tb_runs t); length (tb_idem t); length (tb_rate t); length (tb_inbox t); length (tb_notifications t);
            length (tb_nonces t); length (tb_users t)].
Fixpoint passes (n : nat) (now : Z) (t : Tables) : Tables := match n with O => t | S n' => passes n' now (fst (pass now t)) end.

Lemma delete_first_length {A} (aged : A -> bool) (n : nat) (l : list A) :
  (length (delete_first n aged l) + length (firstn n (List.filter aged l)) = length l)%nat.
Proof.
  revert n. induction l as [|x l IH]; intros [|n]; try done; try (cbn; lia). cbn [delete_first List.filter].
  destruct (aged x); cbn [firstn length]; [specialize (IH n)|specialize (IH (S n))]; cbn in *; lia.
Qed.
Lemma del_length {A} (aged : A -> bool) (l : list A) : (length (del aged l) + length (sel aged l) = length l)%nat.
Proof. apply delete_first_length. Qed.
Lemma pass_total (now : Z) (t : Tables) : (total (fst (pass now t)) + list_sum (selected now t) = total t)%nat.
Proof.
  unfold pass, total, selected, pruned. cbn [fst list_sum fold_right tb_runs tb_idem tb_rate tb_inbox tb_notifications tb_nonces tb_users].
  pose proof (del_length (run_aged now) (tb_runs t)). pose proof (del_length (idem_aged now t) (tb_idem t)).
  pose proof (del_length (fun w => w <? now - DAY) (tb_rate t)). pose proof (del_length (before (now - 30 * DAY)) (tb_inbox t)).
  pose proof (del_length (notification_aged now) (tb_notifications t)). pose proof (del_length (nonce_aged now) (tb_nonces t)).
  pose proof (del_length (user_aged now t) (tb_users t)). lia.
Qed.
Lemma list_sum_ge (n : nat) (l : list nat) : n ∈ l -> (n <= list_sum l)%nat.
Proof. induction l as [|x l IH]; [intros H; by apply elem_of_nil in H|]. intros [->|H]%elem_of_cons; cbn [list_sum fold_right]; [lia|specialize (IH H); unfold list_sum in IH; lia]. Qed.

(** Pruning comes to an end: a pass asks for another only after it deleted a full batch, so from any tables some bounded number of
    passes reaches one that asks for none; and a pass deletes only runs that ended more than 90 days ago. *)
Theorem prune_ends (now : Z) (t : Tables) :
  (exists n, (n * Z.to_nat MAX_IDS <= total t)%nat /\ snd (pass now (passes n now t)) = false) /\
  (forall s, s ∈ tb_runs t -> s ∈ tb_runs (fst (pass now t)) \/ run_aged now s = true).
Proof.
  split.
  - assert (G : forall k t, (total t <= k)%nat -> exists n, (n * Z.to_nat MAX_IDS <= total t)%nat /\ snd (pass now (passes n now t)) = false).
    { induction k as [k IH] using lt_wf_ind. intros u Hu. destruct (snd (pass now u)) eqn:E; [|exists O; split; [cbn; lia|exact E]].
      cbn [pass snd] in E. apply existsb_true in E as (c & Hc & Hge). apply Nat.leb_le in Hge. apply list_sum_ge in Hc.
      pose proof (pass_total now u) as P. assert (M : (0 < Z.to_nat MAX_IDS)%nat) by (unfold MAX_IDS; lia).
      destruct (IH (total (fst (pass now u))) ltac:(lia) (fst (pass now u)) ltac:(lia)) as (n & Hn & Hs). exists (S n).
      split; [|exact Hs]. cbn [Nat.mul]. lia. }
    by apply (G (total t)).
  - intros s Hs. destruct (run_aged now s) eqn:E; [by right|left]. by apply delete_first_keeps.
Qed.

(** ** A planned close. *)

Inductive parking_reached : Parking.State -> Prop :=
| ParkInit : parking_reached Parking.init
| ParkEnter i p : parking_reached p -> parking_reached (Parking.enter i p)
| ParkLeave i p : parking_reached p -> parking_reached (Parking.leave i p)
| ParkPark p : parking_reached p -> parking_reached (Parking.park p).
(** A planned close is never left waiting: once it parked the work, it is answered as soon as nothing is inside, whatever
    entered and left before and after. *)
Theorem park_answers p : parking_reached p -> Parking.parked p = true -> Parking.inside p = ∅ -> Parking.idle p = Some true.
Proof.
  intros Hp. induction Hp as [|i p Hp IH|i p Hp IH|p Hp IH]; intros Hk Hi.
  - done.
  - cbn in Hi. exfalso. set_solver.
  - unfold Parking.leave, Parking.settled in *. cbn in *. destruct (Parking.idle p); [|done]. cbn in *. by rewrite bool_decide_eq_true_2, orb_true_r.
  - unfold Parking.park, Parking.settled in *. cbn in *. by rewrite bool_decide_eq_true_2, orb_true_r.
Qed.
End RunTheorems.

Module RunSamples.
Import QueueFacts RunFacts QueueSamples MachineFacts RunTheorems.

Definition num_text (_ : number) : string := "0".
Definition iso_text (_ : Z) : string := "1970-01-01T00:00:00.000Z".
Definition jobs : RunManifest :=
  MkRunManifest [("nightly"%string, MkAutomation None ["clerk"%string] (Some (MkRetry 2 None)) None)]
    [("invoice"%string, [("created"%string, true)])] "UTC".
Definition no_retry (_ : string) : option RetrySpec := None.
Definition a_step := step num_text iso_text jobs no_retry no_cat.
Definition a_reached := reached num_text iso_text jobs no_retry no_cat.

Definition t1 : list SysRun := match enqueue 0 QueueSamples.fresh [keyed JNull 5] true NoConflict [] with Ok a => fst a | Throw _ => [] end.
Definition t2 : list SysRun := claim_in jobs 6 ["u0"%string] t1.
Definition s1 : Sys := MkSys t1 [].
Definition s2 : Sys := MkSys t2 t2.
Definition s3 : Sys := MkSys (b_runs (boot 9 None t2 [])) [].
Lemma reached1 : a_reached 0 s1.
Proof.
  apply (ReachedStep _ _ _ _ _ 0 false init s1); [constructor|].
  apply (StepQueue _ _ _ _ _ 0 QueueSamples.fresh [keyed JNull 5] true NoConflict [] [] t1 [("u0"%string, Some 5)]); [|vm_compute; reflexivity].
  constructor; [|constructor]. split; [left|split; reflexivity].
Defined.
Lemma reached2 : a_reached 0 s2.
Proof.
  apply (ReachedStep _ _ _ _ _ 0 false s1 s2 reached1).
  apply (StepClaim _ _ _ _ _ 6 false true [] t1 [] t2 t2 None). vm_compute. reflexivity.
Defined.
Lemma reached3 : a_reached 1 s3.
Proof. apply (ReachedStep _ _ _ _ _ 0 true s2 s3 reached2). apply (StepBoot _ _ _ _ _ 9 None [] t2 t2). Defined.
Definition last_run (st : Sys) : SysRun := List.hd (slot_run num_text iso_text "x" 0) (runs st).
Lemma last_in3 : last_run s3 ∈ runs s3. Proof. left. Defined.

Lemma leases_bounded_witness : leases (last_run s3) <= 3.
Proof. destruct (leases_bounded num_text iso_text jobs no_retry no_cat 1 s3 (last_run s3) reached3 last_in3) as [_ H]. apply H. left. reflexivity. Defined.
Lemma attempts_bounded_witness : attempts (last_run s3) < 3.
Proof.
  destruct (attempts_bounded num_text iso_text jobs no_retry no_cat 1 s3 (last_run s3) reached3 last_in3) as [_ H]. apply H. reflexivity.
Defined.
Lemma depth_bounded_witness : depth (last_run s3) <= 8.
Proof. destruct (depth_bounded num_text iso_text jobs no_retry no_cat 1 s3 (last_run s3) reached3 last_in3) as [H|H]; [exact H|discriminate H]. Defined.
Lemma capacity_respected_witness : claimed_count (runs s2) "nightly" <= 1.
Proof. exact (capacity_respected num_text iso_text jobs no_retry no_cat 0 s2 "nightly" reached2 eq_refl). Defined.

(** A run stopped while it executes. *)
Definition admin_member : Authority :=
  MkAuthority "k" (ActMember (MkMember "u1" None None false [] [] true None)) true [] None None None None [] []
    (MkCaps [] [] [] []) [] [] [].
Definition s4 : Sys := MkSys (stop_in 8 "u0" t2) t2.
Definition s5 : Sys := MkSys (interrupted t2 "closing" (stop_in 8 "u0" t2)) [].
Lemma reached4 : a_reached 0 s4.
Proof. apply (ReachedStep _ _ _ _ _ 0 false s2 s4 reached2). apply (StepStop _ _ _ _ _ admin_member None 8 "u0" t2 t2). Defined.
Lemma step5 : a_step false s4 s5.
Proof. apply (StepInterrupt _ _ _ _ _ (List.hd (last_run s2) t2) "closing" (stop_in 8 "u0" t2) t2). left. Defined.
Lemma ended_final_witness : last_run s4 ∈ runs s5 \/ id (last_run s4) ∉ map id (runs s5).
Proof.
  apply (ended_final num_text iso_text jobs no_retry no_cat 0 false s4 s5 (last_run s4) reached4 step5); [left|reflexivity].
Defined.

Lemma t1_ok : table_ok t1.
Proof. split; repeat constructor; set_solver. Defined.
Lemma claim_takes_due_witness : exists heads, map (claim_row jobs 6) heads = t2 /\ (length heads <= 1)%nat.
Proof.
  destruct (claim_takes_due jobs 6 false true [] t1 t2 t2 None t1_ok) as (h & H & _ & L & _); [vm_compute; reflexivity|].
  exists h. split; [symmetry; exact H|exact L].
Defined.

(** A conversation whose lease ran out while its turn is queued. *)
Definition turn : SysRun := inserted 0 "t1" (queued_run TURN_RUN (JObject [("conversation", JString "c1")]%string) 3 None None "schedule" 0 None None None).
Definition talking : Conversation := MkConversation "c1" true (Some 2).
Lemma boot_releases_witness : exists s, s ∈ b_runs (boot 9 None [turn] [talking]) /\ answers talking s = true.
Proof.
  destruct (boot_releases 9 None [turn] [talking] talking) as [H|(s & H1 & _ & H3)]; [left|reflexivity| |eauto].
  exfalso. specialize (H 2 eq_refl). lia.
Defined.

Definition failing : GuestOutcome := GFailed (BoltError_make C_timeout PFacility "down" NoCause).
Definition finished : option Z * list SysRun :=
  match finish jobs no_retry (last_run s2) 6 7 (inject_Z 1) failing [] t2 with Ok a => a | Throw _ => (None, []) end.
Lemma attempt_end_witness : exists s', s' ∈ snd finished /\ state s' = SQueued.
Proof.
  destruct (attempt_end jobs no_retry (last_run s2) 6 7 (inject_Z 1) failing [] t2 (fst finished) (snd finished) (last_run s2)) as [_ H].
  - vm_compute. reflexivity.
  - left.
  - destruct (H eq_refl) as (s' & r & H1 & _ & _ & _ & _ & _ & _ & [_ Q] & _); [discriminate|]. exists s'. split; [exact H1|]. apply Q.
    exists (BoltError_make C_timeout PFacility "down" NoCause). split; [reflexivity|]. split; reflexivity.
Defined.

(** A writer without a grant, and one with the model's default output. *)
Definition clerk_of : Authority := Access.compileAuthority Sample.no_system Sample.keep_where Sample.sample (Sample.holder ["clerk"%string] false) "k".
Definition new_rows : EffectImages := ImageRows ["r1"%string] [[("total", JBool true); ("secret", JNull)]%string].
Lemma writer_sees_granted_witness :
  granted_images (["id"; "revision"]%string ++ Access.exposed Sample.no_system Sample.sample "invoice" "invoice" "invoice" "default") new_rows
    (writerImages Sample.no_system Sample.sample clerk_of "invoice" new_rows).
Proof. destruct (writer_sees_granted Sample.no_system Sample.sample clerk_of "invoice" new_rows eq_refl) as (_ & _ & H). exact H. Defined.
Lemma run_authority_witness : h_admin (policyHolder turn ["clerk"%string]) = false.
Proof.
  assert (H : work Sample.no_system Sample.sample (fun _ => clerk_of) (fun _ j => Some j) (fun _ => false) jobs (last_run s2)
              = Invoke (policyHolder (last_run s2) ["clerk"%string]) JNull) by reflexivity.
  apply (run_authority Sample.no_system Sample.sample (fun _ => clerk_of) (fun _ j => Some j) (fun _ => false) jobs (last_run s2) _ _ H).
Defined.
Lemma park_answers_witness : Parking.idle (Parking.park (Parking.leave "a" (Parking.enter "a" Parking.init))) = Some true.
Proof.
  apply park_answers; [apply ParkPark, ParkLeave, ParkEnter, ParkInit|reflexivity|vm_compute; reflexivity].
Defined.
End RunSamples.
