(* ===== verification/Admission.v ===== *)
(** The admission half of the act pipeline: [packages/bolt/src/engine/write/act.ts] up to the plan, with the import options of
    [write/import.ts]. What a request must pass before any guest code runs: its age, its access point, its input, the sync that
    owns its model, its idempotency record, the rows it names, the state moves it makes, the columns it writes, and the checks
    of the arms that admit it. Reads of the database are arguments: the rows it stores, the ids a scoped read returns. *)
From S2P Require Import Prelude Ir Catalog Contracts Hash Eval Authority Outcomes Flatten.

(** ** What an act is. *)

(** A sync of a model; a create or update access point; an exposed model. *)
Record SyncSpec := MkSyncSpec { sy_file : bool; sy_read : bool; sy_write : bool }.
Record VerbSpec := MkVerbSpec { vs_columns : dict (list string); vs_transform : bool }.
Record Exposure := MkExposed { x_create : option VerbSpec; x_update : option VerbSpec; x_delete : option bool; x_syncs : dict SyncSpec }.
(** The manifest: what the flattener reads of it, the access points, each model's lock, the declared transitions of its enums
    ([model.field]) and each relationship's inverse. *)
Record ActManifest := MkActManifest {
  am_flat : Manifest; am_exposures : dict Exposure; am_locked : dict Json; am_transitions : dict (dict (list string));
  am_inverse : dict string }.

Inductive Verb := VbCreate | VbUpdate | VbDelete | VbUpsert | VbImport | VbErase.
#[export] Instance OnConflict_eq_dec : EqDecision OnConflict. Proof. solve_decision. Defined.
#[export] Instance Belongs_eq_dec : EqDecision Belongs. Proof. solve_decision. Defined.
#[export] Instance Verb_eq_dec : EqDecision Verb. Proof. solve_decision. Defined.
Definition verb_name (v : Verb) : string :=
  match v with VbCreate => "create" | VbUpdate => "update" | VbDelete => "delete" | VbUpsert => "upsert" | VbImport => "import" | VbErase => "erase" end.
(** How an act is judged: a caller's, a sync's read page, or a row of a batch that is being recorded. *)
Inductive ActMode := ModeDirect | ModeSync (fields deletes : list string) | ModeRecord (pending : dict Row).
Record ActRequest := MkRequest {
  rq_model : string; rq_verb : Verb; rq_input : Json; rq_mode : ActMode; rq_key : string; rq_issuedAt : string; rq_retry : bool;
  rq_authority : Authority; rq_bindings : Bindings; rq_observed : dict number; rq_onConflict : option OnConflict }.
Definition sync_fields (r : ActRequest) : option (list string) := match rq_mode r with ModeSync fields _ => Some fields | _ => None end.
Definition sync_deletes (r : ActRequest) : list string := match rq_mode r with ModeSync _ deletes => deletes | _ => [] end.
Definition pending_rows (r : ActRequest) : dict Row := match rq_mode r with ModeRecord pending => pending | _ => [] end.
(** The authority an act is judged by: a sync page is workspace work, outside the caller's grants. *)
Definition with_admin (a : Authority) : Authority :=
  MkAuthority (au_key a) (au_actor a) true (au_policies a) (au_preview a) (au_kiosk a) (au_agent a) (au_run a) (au_models a)
    (au_automations a) (au_capabilities a) (au_limits a) (au_teamTree a) (au_scopes a).
Definition auth_of (r : ActRequest) : Authority := if is_some (sync_fields r) then with_admin (rq_authority r) else rq_authority r.

(** The verb a change is judged by. *)
Inductive Judged := JCreate | JUpdate | JDelete.
#[export] Instance Judged_eq_dec : EqDecision Judged. Proof. solve_decision. Defined.
Definition judged_name (v : Judged) : string := match v with JCreate => "create" | JUpdate => "update" | JDelete => "delete" end.

(** ** Early ends.

    A step goes on, settles the act with an outcome, fails with an engine error, dies of a thrown error, or is cut off by the
    flattener's fuel. *)
Inductive answer (A : Type) := Go (a : A) | Stop (o : Outcome) | Fails (e : BoltError) | Died (e : jserror) | Cut.
Arguments Go {A} _.
Arguments Stop {A} _.
Arguments Fails {A} _.
Arguments Died {A} _.
Arguments Cut {A}.
#[export] Instance answer_ret : MRet answer := fun A a => Go a.
#[export] Instance answer_bind : MBind answer :=
  fun A B f m => match m with Go a => f a | Stop o => Stop o | Fails e => Fails e | Died e => Died e | Cut => Cut end.
Definition of_run {A} (r : run A) : answer A := match r with Done a => Go a | Threw e => Died e | Spent => Cut end.
(** [if (o) return none(o)]. *)
Definition guard (o : option Outcome) : answer unit := match o with Some o => Stop o | None => Go tt end.
Definition forbid (b : bool) (o : Outcome) : answer unit := guard (if b then Some o else None).
(** The first refusal of a loop over a list. *)
Fixpoint first_stop {A} (f : A -> option Outcome) (l : list A) : option Outcome :=
  match l with [] => None | x :: l' => match f x with Some o => Some o | None => first_stop f l' end end.
Fixpoint find_index {A} (p : A -> bool) (l : list A) : option nat :=
  match l with [] => None | x :: l' => if p x then Some O else option_map S (find_index p l') end.

Definition NUL : ascii := chr 0.
(** [k]: a row's key in the act's maps. *)
Definition k (model id : string) : string := model +:+ String NUL id.

Definition NOT_FIELDS : list string := ["set"; "target"; "create"; "update"; "upsert"; "delete"; "link"; "unlink"]%string.
Definition part_field (p : Part) : option string := match p with PKey f => if includes NOT_FIELDS f then None else Some f | PAt _ => None end.
Definition part_row (p : Part) : option Z := match p with PAt i => Some (Z.of_nat i) | PKey _ => None end.
(** [refused]: a refusal names the innermost field of a path and its first row. *)
Definition refused (code : Code) (message : string) (path : InputPath) : Outcome :=
  OutRefused (MkRefused code message (first_some part_field (rev path)) None (first_some part_row path) None None None).
Definition part_text (p : Part) : string := match p with PKey s => s | PAt i => dec_of (Z.of_nat i) end.
Definition path_text (p : InputPath) : string := if String.eqb (join "." (map part_text p)) "" then "input" else join "." (map part_text p).

(** ** One request's age and its idempotency record. *)

Definition HOUR : Z := 3600000.
(** [expired]: at most 23 hours old and at most 5 minutes ahead; an instant that does not parse is neither. *)
Definition expired (r : ActRequest) : option Outcome :=
  match Date_parse (now (rq_bindings r)), Date_parse (rq_issuedAt r) with
  | Some t, Some issued =>
      if (t - issued <=? 23 * HOUR) && (- (5 * 60000) <=? t - issued) then None
      else Some (refused C_expired "The request expired; send it again." [])
  | _, _ => Some (refused C_expired "The request expired; send it again." [])
  end.
Definition KEY_REUSE : Outcome := OutRefused (refused_at C_keyReuse "This key was used for a different request." None).

Section Idempotency.
Context (number_text : number -> string).
(** [null] where there is none. *)
Definition opt_json (o : option string) : Json := match o with Some s => JString s | None => JNull end.
Definition member_json (a : MemberActor) : Json :=
  JObject [("kind", JString "member"); ("id", JString (ma_id a));
            ("email", opt_json (ma_email a));
            ("phone", opt_json (ma_phone a));
            ("external", JBool (ma_external a)); ("teams", JArray (map JString (ma_teams a)));
            ("teamPath", JArray (map JString (ma_teamPath a))); ("admin", JBool (ma_admin a));
            ("party", match ma_party a with
                      | Some p => JObject [("model", JString (party_model p)); ("id", JString (party_id p))]
                      | None => JNull
                      end)]%string.
Definition by_json (b : SystemBy) : Json :=
  JObject match b with
          | ByAutomation a => [("automation", JString a)]%string
          | ByPlatform p => [("platform", JString p)]%string
          | BySync s i => [("sync", JString s); ("instance", JString i)]%string
          end.
(** An actor as JSON: the object [contracts.ts] declares. *)
Definition actor_json (a : EngineActor) : Json :=
  match a with
  | ActMember m => member_json m
  | ActEnvoy e i s m l =>
      JObject ([("kind", JString "envoy"); ("envoy", JString e); ("instance", JString i); ("sender", JString s);
                ("member", opt_json m)]%string ++
               match l with Some x => [("linked"%string, member_json x)] | None => [] end)
  | ActVisitor app v anonymous =>
      JObject ([("kind", JString "visitor"); ("app", JString app); ("visitor", JString v)]%string ++
               (if anonymous then [("anonymous"%string, JBool true)] else []))
  | ActApiKey key => JObject [("kind", JString "apiKey"); ("key", JString key)]%string
  | ActSystem run by_ => JObject [("kind", JString "system"); ("run", JString run); ("by", by_json by_)]%string
  end.
Definition callable (r : ActRequest) : string := rq_model r +:+ "." +:+ verb_name (rq_verb r).
(** Whose record it is, its key's text before it is hashed, and the text of the request its digest is of. *)
Definition principal_json (r : ActRequest) : Json :=
  JObject [("actor", match au_actor (auth_of r) with ActMember a => JString (ma_id a) | a => actor_json a end);
           ("callable", JString (callable r))]%string.
Definition key_text (r : ActRequest) : string := canonical number_text (principal_json r) +:+ String NUL (rq_key r).
Definition request_json (r : ActRequest) : Json :=
  JObject [("callable", JString (callable r)); ("input", rq_input r);
           ("onConflict", match rq_onConflict r with
                          | None => JNull | Some ConflictUpdate => JString "update" | Some ConflictKeep => JString "keep"
                          end)]%string.
Definition digest_text (r : ActRequest) : string := canonical number_text (request_json r).
(** [stored]: the kept outcome of a request's key, from the records no older than a day ([records]: issue time, digest and
    outcome by key). *)
Definition DAY : Z := 24 * HOUR.
Definition stored (hash : string -> string) (records : string -> option (Z * string * Outcome)) (r : ActRequest) : option Outcome :=
  match records (hash (key_text r)), Date_parse (rq_issuedAt r) with
  | Some (issued, digest, outcome), Some at_ =>
      if at_ - DAY <? issued then Some (if String.eqb digest (hash (digest_text r)) then outcome else KEY_REUSE) else None
  | _, _ => None
  end.
End Idempotency.

(** *** The records of the database: [gate] and [answer] of write/sql.ts, run by every statement that settles an act.

    The gate opens for a key no record holds, or one issued more than a day before, unless its audit receipt is still
    awaited; an open gate runs the statement's writes and keeps its outcome, a closed one answers what is kept. *)
Record Idem := MkIdem { id_keys : dict (string * Z); id_outcomes : dict Outcome }.
Section Gate.
Context (awaited : string -> bool).
Definition gate (db : Idem) (key digest : string) (issued : Z) : option Idem :=
  let opened := Some (MkIdem (set (id_keys db) key (digest, issued)) (id_outcomes db)) in
  match get (id_keys db) key with
  | None => opened
  | Some (_, at_) => if (at_ <? issued - DAY) && negb (awaited key) then opened else None
  end.
Definition storedOutcome (db : Idem) (key digest : string) : option Outcome :=
  match get (id_keys db) key, get (id_outcomes db) key with
  | Some (d, _), Some o => Some (if String.eqb d digest then o else KEY_REUSE)
  | _, _ => None
  end.
(** One settling statement: the records after it, whether its writes ran, and its answer. *)
Record Settle := MkSettle { se_key : string; se_digest : string; se_issued : Z; se_outcome : Outcome }.
Definition settle (db : Idem) (s : Settle) : Idem * bool * option Outcome :=
  match gate db (se_key s) (se_digest s) (se_issued s) with
  | Some db' => (MkIdem (id_keys db') (set (id_outcomes db') (se_key s) (se_outcome s)), true, Some (se_outcome s))
  | None => (db, false, storedOutcome db (se_key s) (se_digest s))
  end.
Fixpoint settle_all (db : Idem) (l : list Settle) : list (bool * option Outcome) :=
  match l with
  | [] => []
  | s :: l' => let '(db', ran, o) := settle db s in (ran, o) :: settle_all db' l'
  end.
End Gate.

(** ** The input. *)

Definition MiB : Z := 1024 * 1024.
Definition ACT_INPUT_BYTES : Z := 8 * MiB.
Definition ACT_ROWS : Z := 4000.
Definition changesPerAct : Z := 10000.
Definition count {A} (l : list A) : Z := Z.of_nat (length l).

(** [importPlan] of write/import.ts. *)
Inductive OnImport := ImportUpdate | ImportKeep | ImportRefuse.
#[export] Instance OnImport_eq_dec : EqDecision OnImport. Proof. solve_decision. Defined.
Record ImportPlan := MkImportPlan {
  ip_rows : list Json; ip_onConflict : option OnImport; ip_skip : bool; ip_dryRun : bool; ip_prune : option Pred }.
Definition invalid_import (message : string) (field : option string) : Outcome := OutRefused (refused_at C_invalidInput message field).
Definition import_options : list string := ["rows"; "onConflict"; "onMissing"; "prune"; "dryRun"]%string.
Definition on_import (v : option Json) : option OnImport :=
  match v with
  | Some (JString s) =>
      if String.eqb s "update" then Some ImportUpdate else if String.eqb s "keep" then Some ImportKeep
      else if String.eqb s "refuse" then Some ImportRefuse else None
  | _ => None
  end.

Section Admission.
Context (number_text : number -> string) (text_of : Json -> string) (date_parse : string -> option number).
Context (decodes : Codec -> Json -> bool) (decodeInput : string -> Shape -> Json -> Decoded).
Context (m : ActManifest) (cat : Catalog) (mint : nat -> string).
(** [where] of the store: a filter of a model decoded, or why it is none. *)
Context (decodeWhere : string -> Json -> string + Pred).

Definition exposure_of (model : string) : option Exposure := get (am_exposures m) model.
Definition importPlan (model : string) (input : Json) (key : list string) : answer ImportPlan :=
  match input with
  | JObject o =>
      match get o "rows" with
      | Some (JArray rows) =>
          _ ← guard (option_map (fun extra => invalid_import ("'" +:+ extra +:+ "' is not an import option") (Some extra))
                       (List.find (fun n => negb (includes import_options n)) (keys o)));
          _ ← forbid (changesPerAct <? count rows) (OutRefused (refused_at C_overflow "An import writes at most 10000 rows." None));
          let keyed := negb (length key =? 0)%nat in
          _ ← forbid (negb keyed && (has_own o "onConflict" || has_own o "onMissing" || has_own o "prune"))
                (invalid_import (model +:+ " has no key: onConflict, onMissing and prune need one") None);
          _ ← forbid (keyed && negb (is_some (on_import (get o "onConflict"))))
                (invalid_import "onConflict is required: update, keep or refuse" (Some "onConflict"%string));
          _ ← forbid (match get o "onMissing" with
                      | None => false
                      | Some (JString s) => negb (String.eqb s "create" || String.eqb s "skip")
                      | Some _ => true
                      end) (invalid_import "onMissing is create or skip" (Some "onMissing"%string));
          _ ← forbid (match get o "dryRun" with None | Some (JBool true) => false | Some _ => true end)
                (invalid_import "dryRun is true" (Some "dryRun"%string));
          prune ← match get o "prune" with
                  | None => Go None
                  | Some w =>
                      match x ← exposure_of model; x_delete x with
                      | None => Stop (OutRefused (refused_at C_forbidden (model +:+ " does not accept delete.") None))
                      | Some _ =>
                          match decodeWhere model w with
                          | inl message => Stop (invalid_import message (Some "prune"%string))
                          | inr p => Go (Some p)
                          end
                      end
                  end;
          Go (MkImportPlan rows (on_import (get o "onConflict")) (is_text (get o "onMissing") "skip") (has_own o "dryRun") prune)
      | _ => Stop (invalid_import "an import is { rows, onConflict?, onMissing?, prune?, dryRun? }" None)
      end
  | _ => Stop (invalid_import "an import is { rows, onConflict?, onMissing?, prune?, dryRun? }" None)
  end.

(** [importRefs]: a reference given by its target's key values becomes the id of the row that has them. [keyed] is the read
    of one target's rows: the first with these texts at the key columns. *)
Context (keyed : string -> list string -> list string -> option string).
Definition tagged (key : string) : bool := match key with String "$" _ => true | _ => false end.
Definition key_values (fk : string) (row : Json) : option Row :=
  match row with
  | JObject o => match get o fk with Some (JObject v) => if existsb tagged (keys v) then None else Some v | _ => None end
  | _ => None
  end.
(** [{ ...r }] of any value. *)
Definition own_entries (r : Json) : Row :=
  match r with
  | JObject o => o
  | JArray l => map (fun iv => (dec_of (Z.of_nat (fst iv)), snd iv)) (indexed l)
  | JString s => map (fun ic => (dec_of (Z.of_nat (fst ic)), JString (String (snd ic) EmptyString))) (combine (seq 0 (String.length s)) (list_ascii_of_string s))
  | _ => []
  end.
(** [String(v ?? null)]. *)
Definition text_or_null (v : option Json) : string := match v with Some JNull | None => "null" | Some v => text_of v end.
Record Want := MkWant { wt_fk : string; wt_target : string; wt_key : list string; wt_at : list (nat * Row) }.
Definition wants_of (rows : list Json) (fr : string * OneRel) : answer (list Want) :=
  match one_targets (snd fr) with
  | [target] =>
      match omap (fun iv => option_map (pair (fst iv)) (key_values (fst fr) (snd iv))) (indexed rows) with
      | [] => Go []
      | ((row, _) :: _) as at_ =>
          match modelKey (am_flat m) target with
          | [] =>
              Stop (OutRefused (MkRefused C_invalidInput (target +:+ " has no key; name it by id") (Some (fst fr)) None
                                  (Some (Z.of_nat row)) None None None))
          | key => Go [MkWant (fst fr) target key at_]
          end
      end
  | _ => Go []
  end.
Fixpoint all_wants (rows : list Json) (one : dict OneRel) : answer (list Want) :=
  match one with [] => Go [] | fr :: one' => w ← wants_of rows fr; ws ← all_wants rows one'; Go (w ++ ws) end.
Definition set_at (fk id : string) (rows : list Row) (i : nat) : list Row := alter (fun r => set r fk (JString id)) i rows.
Definition key_texts (key : list string) (v : Row) : list string := map (fun f => text_or_null (Some (databaseValue (default JNull (get v f))))) key.
Fixpoint fill (w : Want) (at_ : list (nat * Row)) (rows : list Row) : answer (list Row) :=
  match at_ with
  | [] => Go rows
  | (i, v) :: at_' =>
      match keyed (wt_target w) (wt_key w) (key_texts (wt_key w) v) with
      | None =>
          Stop (OutRefused (MkRefused C_notFound ("No " +:+ wt_target w +:+ " has these key values.") (Some (wt_fk w)) None
                              (Some (Z.of_nat i)) None None None))
      | Some id => fill w at_' (set_at (wt_fk w) id rows i)
      end
  end.
Fixpoint fill_all (ws : list Want) (rows : list Row) : answer (list Row) :=
  match ws with [] => Go rows | w :: ws' => rows ← fill w (wt_at w) rows; fill_all ws' rows end.
Definition importRefs (model : string) (rows : list Json) : answer (list Json) :=
  match get (models cat) model with
  | None => Died (JsError "TypeError" "Cannot read properties of undefined")
  | Some info =>
      ws ← all_wants rows (mi_one info);
      match ws with
      | [] => Go rows
      | _ => rows ← fill_all ws (map own_entries rows); Go (map JObject rows)
      end
  end.

(** *** Rows and what is read of them.

    [db_rows] is the raw read of one table's rows by id, [db_gets] the ids of those a caller's read scope admits. *)
Context (db_rows : string -> list string -> list Row) (db_gets : Authority -> string -> list string -> list string).
Definition row_id (row : Row) : string := undefined_text text_of (get row "id").
Definition wanted (want : list (string * string)) (table : string) : list string :=
  uniq (map snd (List.filter (fun w => String.eqb (fst w) table) want)).
Definition rows_map (l : list (string * Row)) : dict Row := fold_left (fun d kr => set d (fst kr) (snd kr)) l [].
(** [readRows]: the rows by key, and with a caller's scope, which of them it admits. *)
Definition readRows (want : list (string * string)) : dict Row :=
  rows_map (flat_map (fun table => map (fun row => (k table (row_id row), row)) (db_rows table (wanted want table))) (uniq (map fst want))).
Definition mark (table : string) (b : bool) (ids : list string) (v : dict bool) : dict bool :=
  fold_left (fun v id => set v (k table id) b) ids v.
Definition readScoped (auth : Authority) (want : list (string * string)) (visibility : dict bool) : dict bool :=
  let checks := if au_admin auth then [] else List.filter (Access.readsAny auth) (uniq (map fst want)) in
  let visibility := fold_left (fun v table => mark table false (wanted want table) v) checks visibility in
  fold_left (fun v table => mark table true (db_gets auth table (wanted want table)) v) checks visibility.
(** [readableBy]. *)
Definition readableBy (auth : Authority) (visibility : dict bool) (c : string) (row : Row) : bool :=
  au_admin auth || match get row "id" with Some (JString id) => bool_decide (get visibility (k c id) = Some true) | _ => false end.

(** [JSON.stringify]: like the canonical text, the members in the order they are. *)
Fixpoint stringify (v : Json) : string :=
  match v with
  | JNull => "null"
  | JBool b => if b then "true" else "false"
  | JNumber n => number_text n
  | JString s => quote s
  | JArray l => "[" +:+ join "," (map stringify l) +:+ "]"
  | JObject o => "{" +:+ join "," (map (fun kv => member_text (fst kv, stringify (snd kv))) o) +:+ "}"
  end.
Fixpoint over_budget (bytes : Z) (inputs : list Json) : bool :=
  match inputs with
  | [] => false
  | x :: inputs' => let bytes := bytes + slength (stringify x) in (ACT_INPUT_BYTES <? bytes) || over_budget bytes inputs'
  end.
Definition INPUT_OVERFLOW : Outcome := refused C_overflow "An act writes at most 8 MiB of input; split the work into smaller acts." [].
Definition ROWS_OVERFLOW : Outcome := refused C_overflow "An act writes at most 4000 rows; split the work into smaller acts." [].
Definition CHANGES_OVERFLOW : Outcome := refused C_overflow "An act writes at most 10000 rows." [].

(** *** The access point of a verb. *)
Definition no_identity (_ : string) (_ : InputPath) : option string := None.
Definition layers_of (v : VerbSpec) (verb : WriteVerb) (model : string) : Sel := layerSel (am_flat m) cat (vs_columns v) verb model model.
Definition update_sel (spec : Exposure) (model : string) : option Sel := option_map (fun v => layers_of v VUpdate model) (x_update spec).
Definition access_sel (r : ActRequest) (spec : Exposure) : option Sel :=
  match sync_fields r with
  | Some fields => Some (SelOnly fields [])
  | None =>
      match rq_verb r with
      | VbUpdate => update_sel spec (rq_model r)
      | VbDelete => option_map (fun _ => SelOnly [] []) (x_delete spec)
      | _ => option_map (fun v => layers_of v VCreate (rq_model r)) (x_create spec)
      end
  end.
Definition byId (r : ActRequest) : bool := bool_decide (rq_verb r = VbUpsert).
(** An upsert needs what to do with a stored row, and from a caller the update access point too. *)
Definition accepted_sel (r : ActRequest) (spec : Exposure) : option Sel :=
  if byId r && (negb (is_some (rq_onConflict r)) || (negb (is_some (sync_fields r)) && negb (is_some (x_update spec)))) then None
  else access_sel r spec.

(** *** Each input as changes. *)
Definition f_create := Flatten.create number_text text_of date_parse decodes decodeInput (am_flat m) cat mint no_identity.
Definition f_update := Flatten.update number_text text_of date_parse decodes decodeInput (am_flat m) cat mint no_identity.
(** A member of an input as JavaScript reads it: [null] has none to read. *)
Definition member_of (x : Json) (name : string) : run (option Json) :=
  match x with
  | JNull => Threw (JsError "TypeError" "Cannot read properties of null")
  | JObject o => Done (get o name)
  | _ => Done None
  end.
Definition observed_of (r : ActRequest) (target : option Json) : option number := get (rq_observed r) (undefined_text text_of target).
Definition upsert_row (r : ActRequest) (spec : Exposure) (sel : Sel) (key0 : list string) (onFile : dict Row) (path : InputPath) (o : dict Json)
    (acc : Gathered * list (option string)) : run (Gathered * list (option string)) :=
  let '(st, upserted) := acc in
  let row := Some (JObject (without_key "id" o)) in
  match get o "id" with
  | Some (JString id) =>
      let upserted := upserted ++ [Some id] in
      if is_some (sync_fields r) && negb (has_own onFile (k (rq_model r) id)) then
        st ← f_create (rq_model r) sel row path None None (Some id) st; Done (st, upserted)
      else if bool_decide (rq_onConflict r = Some ConflictUpdate) then
        let sel := if is_some (sync_fields r) then sel else default sel (update_sel spec (rq_model r)) in
        st ← f_update (rq_model r) sel (Some (JString id)) row (get (rq_observed r) id) path None st; Done (st, upserted)
      else Done (st, upserted)
  | _ =>
      let on := match key0 with [] => None | _ => option_map (MkUpsertOf key0) (rq_onConflict r) end in
      st' ← f_create (rq_model r) sel row path None on None st;
      Done (st', upserted ++ [option_map (fun i => snd (change_row (it_change i))) (items st' !! length (items st))])
  end.
Definition one_input (r : ActRequest) (spec : Exposure) (sel : Sel) (key0 : list string) (imp : option ImportPlan) (onFile : dict Row)
    (acc : Gathered * list (option string)) (ix : nat * Json) : run (Gathered * list (option string)) :=
  let '(st, upserted) := acc in
  let '(i, x) := ix in
  let path := [PAt i] in
  let plain := st ← f_create (rq_model r) sel (Some x) path None None None st; Done (st, upserted) in
  match imp, rq_verb r with
  | _, VbCreate | Some (MkImportPlan _ None _ _ _), _ => plain
  | Some (MkImportPlan _ (Some on) _ _ _), _ =>
      let how := if bool_decide (on = ImportUpdate) then ConflictUpdate else ConflictKeep in
      st ← f_create (rq_model r) sel (Some x) path None (Some (MkUpsertOf key0 how)) None st; Done (st, upserted)
  | None, VbUpsert => upsert_row r spec sel key0 onFile path match x with JObject o => o | _ => [] end (st, upserted)
  | None, VbUpdate =>
      target ← member_of x "target"; set_ ← member_of x "set";
      st ← f_update (rq_model r) sel target set_ (observed_of r target) path None st; Done (st, upserted)
  | None, _ => target ← member_of x "target"; Done (Flatten.delete (rq_model r) target (observed_of r target) path None st, upserted)
  end.
Fixpoint each_input (f : Gathered * list (option string) -> nat * Json -> run (Gathered * list (option string)))
    (acc : Gathered * list (option string)) (l : list (nat * Json)) : run (Gathered * list (option string)) :=
  match l with [] => Done acc | x :: l' => acc ← f acc x; each_input f acc l' end.
Definition sync_delete (r : ActRequest) (st : Gathered) (ix : nat * string) : Gathered :=
  Flatten.delete (rq_model r) (Some (JString (snd ix))) None [PKey "deletes"; PAt (fst ix)] None st.

(** *** What a change names and how it is judged. *)
Definition named (c : Change) : string :=
  match c with
  | Upsert _ id _ values ["id"%string] _ => match get values "id" with Some (JString v) => v | _ => id end
  | c => snd (change_row c)
  end.
Definition model_of (c : Change) : string := fst (change_row c).
Definition actionOf (pre : dict Row) (c : Change) : Judged :=
  match c with
  | Create _ _ _ _ => JCreate
  | Upsert _ _ _ _ _ _ => if has_own pre (k (model_of c) (named c)) then JUpdate else JCreate
  | Update _ _ _ _ _ => JUpdate
  | Delete _ _ _ _ => JDelete
  end.
Definition model_fields (model : string) : dict FieldSpec := match get (mf_models (am_flat m)) model with Some ms => ms_fields ms | None => [] end.
(** [stateField]. *)
Definition stateField (model : string) : option string :=
  option_map fst (List.find (fun nf => String.eqb (k_kind (fs_kind (snd nf))) "state") (model_fields model)).
(** [suppliedChanges]: a restated value needs no grant. *)
Definition suppliedChanges (it : Item) (row : option Row) : list string :=
  let differs values row :=
    let differences := changed number_text date_parse row values in
    List.filter (fun f => negb (has_own values f) || has_own differences f) (it_supplied it) in
  match it_change it, row with
  | Update _ _ _ set_ _, Some row => differs set_ row
  | Upsert _ _ _ values _ _, Some row => differs values row
  | _, _ => it_supplied it
  end.

(** *** A sync's own model. *)
Definition readOnlySync (model : string) : option string :=
  match exposure_of model with
  | Some x => option_map fst (List.find (fun ns => negb (sy_file (snd ns)) && sy_read (snd ns) && negb (sy_write (snd ns))) (x_syncs x))
  | None => None
  end.
Definition written_fields (c : Change) : list string :=
  match c with
  | Update _ _ _ set_ _ => keys set_
  | Delete _ _ _ _ => []
  | Create _ _ _ values | Upsert _ _ _ values _ _ => List.filter (fun f => negb (String.eqb f "id")) (keys values)
  end.
Definition is_update (c : Change) : bool := match c with Update _ _ _ _ _ => true | _ => false end.
Definition local_columns (model : string) : list string :=
  match (x ← exposure_of model; v ← x_update x; get (vs_columns v) model) with Some l => l | None => [] end.
Definition owned_change (r : ActRequest) (it : Item) : option Outcome :=
  let c := it_change it in
  let path := change_path c in
  match sync_fields r with
  | Some fields =>
      if negb (String.eqb (model_of c) (rq_model r)) then Some (refused C_forbidden ("A sync writes only " +:+ rq_model r +:+ ".") path)
      else option_map (fun f => refused C_forbidden ("'" +:+ f +:+ "' of " +:+ model_of c +:+ " is outside this sync's fields.") (path ++ [PKey f]))
             (List.find (fun f => negb (includes fields f)) (written_fields c))
  | None =>
      match readOnlySync (model_of c) with
      | None => None
      | Some owner =>
          if negb (is_update c) then Some (refused C_forbidden (model_of c +:+ " is written by its sync " +:+ owner +:+ ".") path)
          else option_map (fun f => refused C_forbidden ("'" +:+ f +:+ "' of " +:+ model_of c +:+ " is written by its sync " +:+ owner +:+ ".") (path ++ [PKey f]))
                 (List.find (fun f => negb (includes (local_columns (model_of c)) f)) (written_fields c))
      end
  end.
Definition syncOwnership (r : ActRequest) (its : list Item) : option Outcome := first_stop (owned_change r) its.

(** *** The columns: [admit_batch] is [admit], and what a batch needs of the arms.

    Every path and column the batch writes must be named by an arm of the root's verb; the arms that name all of them admit
    it. A need is a layer path, a column of it, and the input row it is for. *)
Record CheckArm := MkCheckArm { ca_policy : string; ca_check : bool }.
Record Need := MkNeed { nd_path : string; nd_field : option string; nd_row : option Z }.
Definition Admitted_ := list (Judged * list CheckArm).
Fixpoint vget {A} (d : list (Judged * A)) (v : Judged) : option A :=
  match d with [] => None | (w, x) :: d' => if bool_decide (v = w) then Some x else vget d' v end.
Fixpoint vset {A} (d : list (Judged * A)) (v : Judged) (x : A) : list (Judged * A) :=
  match d with [] => [(v, x)] | (w, y) :: d' => if bool_decide (v = w) then (w, x) :: d' else (w, y) :: vset d' v x end.
Definition held_text (auth : Authority) : string :=
  match au_policies auth with [] => "you hold no policy" | ps => "none of your policies (" +:+ join ", " ps +:+ ") grants it" end.
Definition forbidden (need : option Need) (message : string) : Outcome :=
  OutRefused (MkRefused C_forbidden message (n ← need; nd_field n) (option_map nd_path need) (n ← need; nd_row n) None None None).
Definition at_of (c : Change) : option Part := head (change_path c).
Definition row_of (c : Change) : option Z := match at_of c with Some (PAt i) => Some (Z.of_nat i) | _ => None end.
Definition arms_of (auth : Authority) (model : string) (v : Judged) : list WriteArm :=
  match get (au_models auth) model with
  | Some a => match v with JCreate => ma_create a | JUpdate => ma_update a | JDelete => [] end
  | None => []
  end.
Definition delete_arms (auth : Authority) (model : string) : list DeleteArm :=
  match get (au_models auth) model with Some a => ma_delete a | None => [] end.
(** The verb of each input: its root's. *)
Definition verbs_of (pre : dict Row) (its : list Item) : list (option Part * Judged) :=
  omap (fun it => match it_parent it with None => Some (at_of (it_change it), actionOf pre (it_change it)) | Some _ => None end) its.
Definition verb_at (verbs : list (option Part * Judged)) (at_ : option Part) : option Judged :=
  option_map snd (List.find (fun av => bool_decide (fst av = at_)) (rev verbs)).
Definition parent_fk (it : Item) : option string := option_map pr_fk (it_parent it).
Definition many_names (c : Change) : list string := match get (models cat) (model_of c) with Some info => keys (mi_many info) | None => [] end.
(** What one change needs: its layer, when it is a child, and each column it changes there. *)
Definition needs_of (root : string) (pre : dict Row) (it : Item) : list Need :=
  let c := it_change it in
  let need := fun field => MkNeed (layerPath root (change_path c)) field (row_of c) in
  (if is_some (it_parent it) then [need None] else []) ++
  match c with
  | Delete _ _ _ _ => []
  | _ =>
      map (fun f => need (Some f))
        (List.filter (fun f => negb (bool_decide (parent_fk it = Some f)) && negb (includes (many_names c) f))
           (suppliedChanges it (get pre (k (model_of c) (named c)))))
  end.
(** An attached record's own model grants the reference it sets. *)
Definition attach_granted (auth : Authority) (it : Item) : bool :=
  match parent_fk it with
  | Some f => existsb (fun arm => match get (wa_columns arm) (model_of (it_change it)) with Some cs => includes cs f | None => false end)
                (arms_of auth (model_of (it_change it)) JUpdate)
  | None => false
  end.
Definition no_attach (auth : Authority) (root : string) (it : Item) : Outcome :=
  let c := it_change it in
  forbidden (Some (MkNeed (layerPath root (change_path c)) (parent_fk it) (row_of c)))
    ("You may not write " +:+ default "undefined" (parent_fk it) +:+ " of " +:+ model_of c +:+ ".").
Fixpoint gather_needs (auth : Authority) (root : string) (pre : dict Row) (verbs : list (option Part * Judged))
    (its : list Item) (acc : list (Judged * list Need)) : Outcome + list (Judged * list Need) :=
  match its with
  | [] => inr acc
  | it :: its' =>
      if it_attach it then
        if attach_granted auth it then gather_needs auth root pre verbs its' acc else inl (no_attach auth root it)
      else
        let c := it_change it in
        let verb := default (actionOf pre c) (verb_at verbs (at_of c)) in
        gather_needs auth root pre verbs its' (vset acc verb (default [] (vget acc verb) ++ needs_of root pre it))
  end.
Definition covers (arm : WriteArm) (need : Need) : bool :=
  match nd_field need with
  | None => has_own (wa_columns arm) (nd_path need)
  | Some f => match get (wa_columns arm) (nd_path need) with Some cs => includes cs f | None => false end
  end.
Definition outside_text (need : Need) : string :=
  match nd_field need with
  | None => "You may not change " +:+ nd_path need +:+ "."
  | Some f => "You may not write " +:+ f +:+ " of " +:+ nd_path need +:+ "."
  end.
Definition check_of (arm : WriteArm) : CheckArm := MkCheckArm (wa_policy arm) (wa_check arm).
Definition admit_verb (auth : Authority) (root : string) (vn : Judged * list Need) : Outcome + (Judged * list CheckArm) :=
  let '(verb, list) := vn in
  match verb with
  | JDelete =>
      match delete_arms auth root with
      | [] => inl (forbidden (head list) ("You may not delete " +:+ root +:+ ": " +:+ held_text auth +:+ "."))
      | arms => inr (JDelete, map (fun a => MkCheckArm (da_policy a) (da_check a)) arms)
      end
  | _ =>
      match arms_of auth root verb with
      | [] => inl (forbidden (head list) ("You may not " +:+ judged_name verb +:+ " " +:+ root +:+ ": " +:+ held_text auth +:+ "."))
      | (first_arm :: _) as arms =>
          match List.find (fun need => negb (existsb (fun arm => covers arm need) arms)) list with
          | Some outside => inl (forbidden (Some outside) (outside_text outside))
          | None =>
              match List.filter (fun arm => forallb (covers arm) list) arms with
              | [] =>
                  inl (forbidden (List.find (fun need => negb (covers first_arm need)) list)
                         "No one policy admits this whole change; split it into smaller acts.")
              | admitting => inr (verb, map check_of admitting)
              end
          end
      end
  end.
Fixpoint admit_verbs (auth : Authority) (root : string) (needs : list (Judged * list Need)) : Outcome + Admitted_ :=
  match needs with
  | [] => inr []
  | vn :: needs' =>
      match admit_verb auth root vn with
      | inl o => inl o
      | inr va => match admit_verbs auth root needs' with inl o => inl o | inr out => inr (va :: out) end
      end
  end.
Definition admit_batch (auth : Authority) (root : string) (its : list Item) (pre : dict Row) : Outcome + Admitted_ :=
  match gather_needs auth root pre (verbs_of pre its) its [] with
  | inl o => inl o
  | inr needs => admit_verbs auth root needs
  end.

(** *** The checks of the arms: [judge].

    [invoke] is the guest's answer to a check, by its target; [decodeVerdict] the schema library's decoding of a verdict. *)
Inductive GuestOutcome := GuestOk (output : Json) | GuestRefused (message : string) | GuestFailed (error : BoltError).
Inductive Verdict :=
| VerdictAllow
| VerdictDeny (message : string) (row : option Z) (path field : option string)
| VerdictApprove (flow : Json).
Context (decodeVerdict : Json -> string + Verdict).
Inductive Judgement := JudgeAllow | JudgeApprove (flow : Json) | JudgeDeny (o : Outcome).
(** [guestFailure]: workspace code's own failures and budgets are outcomes; anything else is the platform's. *)
Definition guestFailure (error : BoltError) : answer Outcome :=
  match be_code error with
  | C_guestError | C_internal => Go (refused C_internal (be_message error) [])
  | C_readBudgetExceeded | C_cpuBudget | C_crossingBudget | C_memory | C_tooLarge => Go (refused (be_code error) (be_message error) [])
  | _ => Fails error
  end.
Definition MAY_NOT : Outcome := refused C_forbidden "You may not make this change." [].
Definition refused_by (message target : string) (row : option Z) (path field : option string) : Outcome :=
  OutRefused (MkRefused C_refused message field path row None (Some target) None).
Definition or_else {A} (a b : option A) : option A := match a with Some _ => a | None => b end.
Section Judge.
Context (guest : option (string -> GuestOutcome)) (model : string) (verb : Judged).
Definition check_target (arm : CheckArm) : string := ca_policy arm +:+ "." +:+ model +:+ "." +:+ judged_name verb.
Fixpoint judge_arms (invoke : string -> GuestOutcome) (arms : list CheckArm) (approve : option Json) (deny : option Outcome) : answer Judgement :=
  match arms with
  | [] => Go match approve, deny with Some flow, _ => JudgeApprove flow | None, Some o => JudgeDeny o | None, None => JudgeDeny MAY_NOT end
  | arm :: arms' =>
      let target := check_target arm in
      match invoke target with
      | GuestFailed error => o ← guestFailure error; Go (JudgeDeny o)
      | GuestRefused message => Go (JudgeDeny (refused_by message target None None None))
      | GuestOk output =>
          match decodeVerdict output with
          | inl message => Fails (BoltError_make C_badAnswer PGuest (target +:+ ": " +:+ message) CauseOther)
          | inr VerdictAllow => Go JudgeAllow
          | inr (VerdictApprove flow) => judge_arms invoke arms' (or_else approve (Some flow)) deny
          | inr (VerdictDeny message row path field) =>
              judge_arms invoke arms' approve (or_else deny (Some (refused_by message target row path field)))
          end
      end
  end.
(** Whether guest code ran, and the verdict. *)
Definition judge (arms : list CheckArm) : answer (bool * Judgement) :=
  match arms with
  | [] => Go (false, JudgeDeny MAY_NOT)
  | _ =>
      if existsb (fun arm => negb (ca_check arm)) arms then Go (false, JudgeAllow)
      else match guest with
           | None => Fails (BoltError_make C_noGuest PGuest "this host runs no guest code" NoCause)
           | Some invoke => v ← judge_arms invoke arms None None; Go (true, v)
           end
  end.
End Judge.

(** *** The rows a batch names. *)
Definition NOT_FOUND (path : InputPath) : Outcome := refused C_notFound "The record does not exist." path.
Definition nullish (v : option Json) : bool := match v with None | Some JNull => true | Some _ => false end.
Definition is_id (v : option Json) (id : string) : bool := match v with Some (JString s) => String.eqb s id | _ => false end.
Definition target_check (auth : Authority) (pre : dict Row) (visibility : dict bool) (it : Item) : option Outcome :=
  let c := it_change it in
  let path := change_path c in
  let row := get pre (k (model_of c) (named c)) in
  if bool_decide (actionOf pre c = JUpdate) || bool_decide (actionOf pre c = JDelete) then
    match row with
    | None => Some (NOT_FOUND path)
    | Some r =>
        if negb (is_some (it_parent it)) && negb (readableBy auth visibility (model_of c) r) then Some (NOT_FOUND path)
        else if bool_decide (it_belongs it = Some BelongsParent) &&
                match it_parent it with Some p => negb (is_id (get r (pr_fk p)) (pr_id p)) | None => true end
        then Some (refused C_notFound "The record does not belong here." path)
        else if it_attach it && match it_parent it with Some p => negb (nullish (get r (pr_fk p))) | None => false end
        then Some (refused C_invalidInput "The record is already attached." path)
        else None
    end
  else None.
Definition unreadable_ref (to : string) : string :=
  "No readable " +:+ to +:+ " has this id: whoever writes this link must be able to read it.".
Definition ref_check (auth : Authority) (pre : dict Row) (visibility : dict bool) (path : InputPath) (ref : RefUse) : option Outcome :=
  match get pre (k (ref_to ref) (ref_id ref)) with
  | Some target =>
      if readableBy auth visibility (ref_to ref) target then None
      else Some (refused C_notFound (unreadable_ref (ref_to ref)) (path ++ [PKey (ref_field ref)]))
  | None => Some (refused C_notFound (unreadable_ref (ref_to ref)) (path ++ [PKey (ref_field ref)]))
  end.
Definition set_of (c : Change) : Row := match c with Update _ _ _ set_ _ => set_ | _ => [] end.
Definition move_check (auth : Authority) (pre : dict Row) (it : Item) : option Outcome :=
  let c := it_change it in
  match stateField (model_of c), get pre (k (model_of c) (named c)) with
  | Some state, Some row =>
      match get (set_of c) state with
      | Some (JString next) =>
          if negb (au_admin auth) && negb (is_some (it_parent it)) &&
             negb (Access.admitMove auth (model_of c) state (undefined_text text_of (get row state)) next)
          then Some (refused C_forbidden ("You may not move " +:+ state +:+ " to '" +:+ next +:+ "'.") (change_path c ++ [PKey state]))
          else None
      | _ => None
      end
  | _, _ => None
  end.
Definition item_check (auth : Authority) (pre : dict Row) (visibility : dict bool) (it : Item) : option Outcome :=
  match target_check auth pre visibility it with
  | Some o => Some o
  | None =>
      match first_stop (ref_check auth pre visibility (change_path (it_change it))) (it_refs it) with
      | Some o => Some o
      | None => move_check auth pre it
      end
  end.
(** The revision a change was made from must be the stored one. *)
Definition revision_of (c : Change) : option number := match c with Update _ _ _ _ v | Delete _ _ _ v => v | _ => None end.
Definition seen_of (r : ActRequest) (c : Change) : option number :=
  match c with
  | Update _ id _ _ _ | Delete _ id _ _ => or_else (revision_of c) (get (rq_observed r) id)
  | _ => None
  end.
Definition revision_check (r : ActRequest) (pre : dict Row) (it : Item) : option Outcome :=
  let c := it_change it in
  match get pre (k (model_of c) (named c)), seen_of r c with
  | Some row, Some seen =>
      if match get row "revision" with Some (JNumber n) => Qeq_bool n seen | _ => false end then None
      else Some (OutConflict [MkConflictRecord (model_of c) (snd (change_row c)) []])
  | _, _ => None
  end.

(** *** Upserts matched by key: [resolveUpserts], and the rows they land on.

    [joined] is the read of one table's rows equal to a list of key values at the key columns. *)
Context (joined : string -> list string -> list (list Json) -> list Row).
Definition upsert_on (it : Item) : list string := match it_change it with Upsert _ _ _ _ on _ => on | _ => [] end.
Definition values_of (c : Change) : Row := match c with Create _ _ _ v | Upsert _ _ _ v _ _ => v | _ => [] end.
Definition texts_key (l : list string) : string := canonical number_text (JArray (map JString l)).
Definition table_matches (ups : list (nat * Item)) (table : string) : list (nat * Row) :=
  let mine := List.filter (fun ni => String.eqb (model_of (it_change (snd ni))) table) ups in
  let on := match mine with ni :: _ => upsert_on (snd ni) | [] => [] end in
  let rows := joined table on (map (fun ni => map (fun f => databaseValue (default JNull (get (values_of (it_change (snd ni))) f))) on) mine) in
  let index := fold_left (fun d row => set d (texts_key (map (fun f => text_or_null (get row f)) on)) row) rows [] in
  omap (fun ni => option_map (pair (fst ni)) (get index (texts_key (key_texts on (values_of (it_change (snd ni))))))) mine.
Definition is_upsert (c : Change) : bool := match c with Upsert _ _ _ _ _ _ => true | _ => false end.
Definition numbered {A} (l : list A) : list (nat * A) := combine (seq 0 (length l)) l.
(** The rows matched, by the position of their change. *)
Definition resolveUpserts (its : list Item) : list (nat * Row) :=
  let ups := List.filter (fun ni => is_upsert (it_change (snd ni))) (numbered its) in
  flat_map (table_matches ups) (uniq (map (fun ni => model_of (it_change (snd ni))) ups)).

Definition with_id (c : Change) (id : string) : Change :=
  match c with
  | Create model _ p v => Create model id p v
  | Upsert model _ p v on how => Upsert model id p v on how
  | Update model _ p s v => Update model id p s v
  | Delete model _ p v => Delete model id p v
  end.
Definition set_field (c : Change) (f : string) (v : Json) : Change :=
  match c with
  | Create model id p vs => Create model id p (set vs f v)
  | Upsert model id p vs on how => Upsert model id p (set vs f v) on how
  | Update model id p s rev => Update model id p (set s f v) rev
  | Delete _ _ _ _ => c
  end.
(** A child of a matched row is re-parented to the stored row. *)
Definition reparent (model previous id : string) (it : Item) : Item :=
  match it_parent it with
  | Some p =>
      if String.eqb (pr_model p) model && String.eqb (pr_id p) previous then
        MkItem (set_field (it_change it) (pr_fk p) (JString id)) (it_supplied it) (it_refs it)
          (Some (MkParent (pr_model p) id (pr_rel p) (pr_fk p))) (it_belongs it) (it_attach it)
      else it
  | None => it
  end.
Definition with_change (it : Item) (c : Change) : Item :=
  MkItem c (it_supplied it) (it_refs it) (it_parent it) (it_belongs it) (it_attach it).
Record Resolving := MkResolving { rs_items : list Item; rs_pre : dict Row; rs_onFile : dict Row; rs_upserted : list (option string) }.
Definition match_row (r : ActRequest) (st : Resolving) (nr : nat * Row) : Resolving :=
  let '(n, row) := nr in
  match rs_items st !! n with
  | None => st
  | Some it =>
      let c := it_change it in
      let id := row_id row in
      let pre := set (rs_pre st) (k (model_of c) id) row in
      let own := byId r && String.eqb (model_of c) (rq_model r) && negb (is_some (it_parent it)) in
      let index := match at_of c with Some (PAt i) => i | _ => O end in
      MkResolving
        (map (reparent (model_of c) (snd (change_row c)) id) (<[n := with_change it (with_id c id)]> (rs_items st)))
        pre (if own then set (rs_onFile st) (k (rq_model r) id) row else rs_onFile st)
        (if own then <[index := Some id]> (rs_upserted st) else rs_upserted st)
  end.

(** The rows the batch reads before it is judged. *)
Definition upsert_id (c : Change) : option string :=
  match c with Upsert _ _ _ values ["id"%string] _ => match get values "id" with Some (JString v) => Some v | _ => None end | _ => None end.
Definition rows_named (r : ActRequest) (its : list Item) (matched : list (nat * Row)) (onFile : dict Row) : list (string * string) :=
  omap (fun it => match it_change it with Update model id _ _ _ | Delete model id _ _ => Some (model, id) | _ => None end) its ++
  omap (fun it => option_map (pair (model_of (it_change it))) (upsert_id (it_change it))) its ++
  omap (fun nr => option_map (fun it => (model_of (it_change it), row_id (snd nr))) (its !! fst nr)) matched ++
  (if bool_decide (rq_onConflict r = Some ConflictKeep) then map (fun row => (rq_model r, row_id row)) (values onFile) else []) ++
  flat_map (fun it => map (fun x => (ref_to x, ref_id x)) (it_refs it)) its.
(** [if (!pre.has(key)) pre.set(key, row)]. *)
Definition add_pending (pre pending : dict Row) : dict Row :=
  fold_left (fun d kr => if has_own d (fst kr) then d else set d (fst kr) (snd kr)) pending pre.
(** A kept row is shown to the caller and could be updated by it. *)
Definition keep_check (auth : Authority) (r : ActRequest) (visibility : dict bool) (onFile : dict Row) (id : option string) : option Outcome :=
  match id with
  | None => None
  | Some id =>
      match get onFile (k (rq_model r) id) with
      | None => None
      | Some row =>
          if negb (readableBy auth visibility (rq_model r) row) then Some (refused C_notFound "The record does not exist." [])
          else if negb (au_admin auth) && (length (arms_of auth (rq_model r) JUpdate) =? 0)%nat then Some MAY_NOT
          else None
      end
  end.

(** *** The pipeline up to the plan. *)
Record Admission := MkAdmission {
  ad_items : list Item; ad_pre : dict Row; ad_visibility : dict bool; ad_upserted : list (option string);
  ad_admitted : option Admitted_; ad_import : option ImportPlan }.

Definition unknown_model (model : string) : BoltError := BoltError_make C_unknownModel PDecode ("unknown model '" +:+ model +:+ "'") NoCause.
Definition is_object (v : Json) : bool := match v with JObject _ => true | _ => false end.
Definition bad_id (v : Json) : bool :=
  match v with JObject o => match get o "id" with None | Some (JString _) => false | Some _ => true end | _ => false end.
Definition named_ids (r : ActRequest) (inputs : list Json) : list (string * string) :=
  omap (fun x => match x with JObject o => match get o "id" with Some (JString id) => Some (rq_model r, id) | _ => None end | _ => None end) inputs.
Definition missing_id (r : ActRequest) (onFile : dict Row) (x : Json) : bool :=
  match x with JObject o => has_own o "id" && negb (has_own onFile (k (rq_model r) (undefined_text text_of (get o "id")))) | _ => false end.
Definition problems_refusal (ps : list Problem) : option Outcome :=
  match ps with
  | [] => None
  | p :: _ => Some (refused C_invalidInput (join "; " (map (fun p => path_text (p_path p) +:+ ": " +:+ p_message p) ps)) (p_path p))
  end.

(** Step 1: the age. Step 2: the access point, the options, the rows and their changes. *)
Definition plan_import (r : ActRequest) (key0 : list string) : answer (option ImportPlan) :=
  if bool_decide (rq_verb r = VbImport) then
    p ← importPlan (rq_model r) (rq_input r) key0;
    rows ← importRefs (rq_model r) (ip_rows p);
    Go (Some (MkImportPlan rows (ip_onConflict p) (ip_skip p) (ip_dryRun p) (ip_prune p)))
  else Go None.
Definition rows_of_input (r : ActRequest) (imp : option ImportPlan) : option (list Json) :=
  match imp with Some p => Some (ip_rows p) | None => match rq_input r with JArray l => Some l | _ => None end end.
Definition decode_input (r : ActRequest) (spec : Exposure) (sel : Sel) (imp : option ImportPlan) (key0 : list string)
    : answer (Gathered * list (option string) * dict Row) :=
  match rows_of_input r imp with
  | None => Stop (refused C_invalidInput (callable r +:+ " takes an array of rows.") [])
  | Some inputs =>
      _ ← forbid (over_budget 0 inputs) INPUT_OVERFLOW;
      _ ← forbid (ACT_ROWS <? count inputs) ROWS_OVERFLOW;
      _ ← guard (if byId r then option_map (fun i => refused C_invalidInput "Expected an object." [PAt i]) (find_index (fun x => negb (is_object x)) inputs) else None);
      _ ← guard (if byId r then option_map (fun i => refused C_invalidInput "Expected an id." [PAt i; PKey "id"]) (find_index bad_id inputs) else None);
      let onFile := if byId r then readRows (named_ids r inputs) else [] in
      _ ← guard (if byId r && negb (is_some (sync_fields r)) then
                   option_map (fun i => refused C_notFound ("No " +:+ rq_model r +:+ " has this id.") [PAt i; PKey "id"])
                     (find_index (missing_id r onFile) inputs)
                 else None);
      acc ← of_run (each_input (one_input r spec sel key0 imp onFile) (gathered0, []) (indexed inputs));
      let st := fold_left (sync_delete r) (combine (seq 0 (length (sync_deletes r))) (sync_deletes r)) (fst acc) in
      _ ← guard (problems_refusal (problems st));
      _ ← guard (syncOwnership r (items st));
      _ ← forbid (changesPerAct <? count (items st)) CHANGES_OVERFLOW;
      Go (st, snd acc, onFile)
  end.
(** Step 4: the rows named, with what the batch would prune. Step 5: the columns. Then the observed revisions. *)
Definition judge_batch (r : ActRequest) (imp : option ImportPlan) (its : list Item) (onFile : dict Row) (upserted : list (option string)) (matched : list (nat * Row))
    : answer Admission :=
  let auth := auth_of r in
  let want := rows_named r its matched onFile in
  let visibility := readScoped auth want [] in
  let st := fold_left (match_row r) matched (MkResolving its (readRows want) onFile upserted) in
  let pre := add_pending (rs_pre st) (pending_rows r) in
  _ ← guard (if byId r && bool_decide (rq_onConflict r = Some ConflictKeep) then first_stop (keep_check auth r visibility (rs_onFile st)) (rs_upserted st) else None);
  _ ← guard (first_stop (item_check auth pre visibility) (rs_items st));
  admitted ← (if au_admin auth then Go None
              else match admit_batch auth (rq_model r) (rs_items st) pre with inl o => Stop o | inr a => Go (Some a) end);
  _ ← guard (first_stop (revision_check r pre) (rs_items st));
  Go (MkAdmission (rs_items st) pre visibility (rs_upserted st) admitted imp).
(** What the host's rate windows answered, the outcome kept under the key, and the ids an import's [prune] deletes. *)
Definition admission (limited : bool) (kept : option Outcome) (prune : Authority -> Pred -> list Item -> Outcome + list string) (r : ActRequest) : answer Admission :=
  _ ← forbid limited (refused C_rateLimited RATE_LIMITED []);
  _ ← guard (expired r);
  match exposure_of (rq_model r) with
  | None => Fails (unknown_model (rq_model r))
  | Some spec =>
      match accepted_sel r spec with
      | None => Stop (refused C_forbidden (rq_model r +:+ " does not accept " +:+ verb_name (rq_verb r) +:+ ".") [])
      | Some sel =>
          let key0 := modelKey (am_flat m) (rq_model r) in
          imp ← plan_import r key0;
          d ← decode_input r spec sel imp key0;
          let '(st, upserted, onFile) := d in
          _ ← guard (if rq_retry r then kept else None);
          let matched := resolveUpserts (items st) in
          st ← match (p ← imp; ip_prune p) with
               | None => Go st
               | Some w =>
                   match prune (auth_of r) w (items st) with
                   | inl o => Stop o
                   | inr ids => Go (fold_left (fun st id => Flatten.delete (rq_model r) (Some (JString id)) None [PKey "prune"] None st) ids st)
                   end
               end;
          judge_batch r imp (items st) onFile upserted matched
      end
  end.
End Admission.

(** ** The columns. *)
Module Columns.
Section Columns.
Context (number_text : number -> string) (date_parse : string -> option number) (cat : Catalog) (auth : Authority) (root : string).
Context (pre : dict Row) (its : list Item).
Let needs (it : Item) : list Need := needs_of number_text date_parse cat root pre it.
(** The verb an item is judged by, and what the items of one verb need together. *)
Definition group_verb (it : Item) : Judged :=
  default (actionOf pre (it_change it)) (verb_at (verbs_of pre its) (at_of (it_change it))).
Definition of_verb (v : Judged) (it : Item) : bool := negb (it_attach it) && bool_decide (group_verb it = v).
Definition needs_in (v : Judged) (l : list Item) : list Need := flat_map (fun it => needs it) (List.filter (of_verb v) l).
(** The arms that cover every need of a verb. *)
Definition admitting (v : Judged) : list CheckArm :=
  match v with
  | JDelete => map (fun a => MkCheckArm (da_policy a) (da_check a)) (delete_arms auth root)
  | v => map check_of (List.filter (fun arm => forallb (covers arm) (needs_in v its)) (arms_of auth root v))
  end.

Lemma vget_vset {A} (d : list (Judged * A)) (v w : Judged) (x : A) : vget (vset d v x) w = if bool_decide (w = v) then Some x else vget d w.
Proof.
  induction d as [|[u y] d IH]; cbn [vset vget]; [done|]. destruct (bool_decide_reflect (v = u)) as [->|Hvu]; cbn [vget].
  - by destruct (bool_decide_reflect (w = u)).
  - rewrite IH. destruct (bool_decide_reflect (w = u)) as [->|]; [|done]. by rewrite bool_decide_eq_false_2.
Qed.
Definition gathered (acc : list (Judged * list Need)) (l : list Item) (v : Judged) : option (list Need) :=
  if existsb (of_verb v) l then Some (default [] (vget acc v) ++ needs_in v l) else vget acc v.
Lemma gather_spec (l : list Item) (acc : list (Judged * list Need)) :
  match gather_needs number_text date_parse cat auth root pre (verbs_of pre its) l acc with
  | inr out => Forall (fun it => it_attach it = true -> attach_granted auth it = true) l /\ forall v, vget out v = gathered acc l v
  | inl _ => Exists (fun it => it_attach it = true /\ attach_granted auth it = false) l
  end.
Proof.
  revert acc. induction l as [|it l IH]; intros acc; cbn [gather_needs]; [by split|].
  destruct (it_attach it) eqn:Hat.
  - destruct (attach_granted auth it) eqn:Hg; [|by left]. specialize (IH acc). destruct (gather_needs _ _ _ _ _ _ _ l acc) as [o|out]; [by right|].
    destruct IH as [IH1 IH2]. split; [by constructor|]. intros v. rewrite IH2. unfold gathered, needs_in, of_verb. cbn [existsb List.filter].
    by rewrite Hat.
  - cbv zeta. set (acc' := vset acc _ _). specialize (IH acc'). destruct (gather_needs _ _ _ _ _ _ _ l acc') as [o|out]; [by right|].
    destruct IH as [IH1 IH2]. split; [constructor; [by rewrite Hat|done]|]. intros v. rewrite IH2.
    assert (vget acc' v = if bool_decide (group_verb it = v) then Some (default [] (vget acc v) ++ needs it) else vget acc v) as Hv.
    { unfold acc'. rewrite vget_vset. fold (group_verb it). destruct (bool_decide_reflect (v = group_verb it)) as [->|Hne]; [by rewrite bool_decide_eq_true_2|].
      by rewrite bool_decide_eq_false_2 by congruence. }
    unfold gathered, needs_in, of_verb. cbn [existsb List.filter]. rewrite Hat. cbn [negb andb]. rewrite Hv.
    destruct (bool_decide_reflect (group_verb it = v)) as [E|E]; cbn [orb default flat_map]; [|done].
    destruct (existsb _ l) eqn:El; [by rewrite app_assoc|].
    replace (List.filter _ l) with (@nil Item); [by rewrite !app_nil_r|].
    symmetry. clear -El. induction l as [|x l IHl]; [done|]. cbn [existsb List.filter] in *. apply orb_false_iff in El as [E1 E2]. by rewrite E1, IHl.
Qed.
Lemma vset_keys {A} (d : list (Judged * A)) (v : Judged) (x : A) : NoDup (map fst d) -> NoDup (map fst (vset d v x)) /\ (forall w, w ∈ map fst (vset d v x) -> w = v \/ w ∈ map fst d).
Proof.
  induction d as [|[u y] d IH]; cbn [vset map fst]; intros H.
  - split; [apply NoDup_singleton|]. intros w Hw. left. by apply list_elem_of_singleton in Hw.
  - apply NoDup_cons in H as [Hu H]. destruct (IH H) as [IH1 IH2]. destruct (bool_decide_reflect (v = u)) as [->|Hne]; cbn [map fst].
    + split; [by constructor|]. intros w Hw. by right.
    + split; [constructor; [|done]; intros Hin; destruct (IH2 u Hin); congruence|].
      intros w [->|Hw]%elem_of_cons; [right; apply elem_of_cons; by left|]. destruct (IH2 w Hw); [by left|right; apply elem_of_cons; by right].
Qed.
Lemma vget_in {A} (d : list (Judged * A)) (v : Judged) (x : A) : NoDup (map fst d) -> (v, x) ∈ d -> vget d v = Some x.
Proof.
  induction d as [|[u y] d IH]; cbn [map fst vget]; [by intros _ ?%elem_of_nil|]. intros [Hu H]%NoDup_cons [[= -> ->]|Hin]%elem_of_cons; [by rewrite bool_decide_eq_true_2|].
  rewrite bool_decide_eq_false_2; [by apply IH|]. intros ->. apply Hu, list_elem_of_fmap. by exists (u, x).
Qed.
Lemma gather_distinct (l : list Item) (acc out : list (Judged * list Need)) : NoDup (map fst acc) ->
  gather_needs number_text date_parse cat auth root pre (verbs_of pre its) l acc = inr out -> NoDup (map fst out).
Proof.
  revert acc. induction l as [|it l IH]; intros acc Hacc; cbn [gather_needs]; [by intros [= <-]|].
  destruct (it_attach it); [destruct (attach_granted auth it); [by apply IH|done]|]. cbv zeta. apply IH. by apply vset_keys.
Qed.
Lemma admit_verb_spec (v : Judged) : match admit_verb auth root (v, needs_in v its) with
  | inr (w, arms) => w = v /\ arms = admitting v /\ arms <> []
  | inl _ => admitting v = []
  end.
Proof.
  assert (forall (arms : list WriteArm) first_arm rest, arms = first_arm :: rest -> forall ns,
    match match List.find (fun need => negb (existsb (fun arm => covers arm need) arms)) ns with
          | Some outside => inl (forbidden (Some outside) (outside_text outside))
          | None => match List.filter (fun arm => forallb (covers arm) ns) arms with
                    | [] => inl (forbidden (List.find (fun need => negb (covers first_arm need)) ns) "No one policy admits this whole change; split it into smaller acts.")
                    | admitting => inr (v, map check_of admitting)
                    end
          end with
    | inr (w, cs) => w = v /\ cs = map check_of (List.filter (fun arm => forallb (covers arm) ns) arms) /\ cs <> []
    | inl _ => map check_of (List.filter (fun arm => forallb (covers arm) ns) arms) = []
    end) as Hw.
  { intros arms first_arm rest _ ns. destruct (List.find _ ns) as [n|] eqn:E.
    - apply find_some in E as [Hin Hn]. replace (List.filter _ arms) with (@nil WriteArm); [done|]. symmetry.
      cbv beta in Hn. apply negb_true_iff in Hn. clear -Hin Hn. induction arms as [|a arms IH]; [done|]. cbn [existsb List.filter] in *.
      apply orb_false_iff in Hn as [H1 H2]. destruct (forallb (covers a) ns) eqn:Ef; [|by apply IH].
      rewrite forallb_forall in Ef. by rewrite (Ef n Hin) in H1.
    - by destruct (List.filter _ arms). }
  destruct v; unfold admit_verb, admitting.
  1,2: destruct (arms_of auth root _) as [|first_arm rest] eqn:Ea; [done|]; exact (Hw _ first_arm rest eq_refl (needs_in _ its)).
  by destruct (delete_arms auth root).
Qed.
Lemma admit_verbs_spec (nl : list (Judged * list Need)) : Forall (fun vn => snd vn = needs_in (fst vn) its) nl ->
  match admit_verbs auth root nl with
  | inr out => (forall v, vget out v = option_map (fun _ => admitting v) (vget nl v)) /\ Forall (fun vn => admitting (fst vn) <> []) nl
  | inl _ => Exists (fun vn => admitting (fst vn) = []) nl
  end.
Proof.
  induction nl as [|[v ns] l IH]; cbn [admit_verbs]; [by split|]. intros [Hn Hl]%Forall_cons. cbn [fst snd] in Hn. subst ns.
  pose proof (admit_verb_spec v) as Hv. destruct (admit_verb auth root (v, needs_in v its)) as [o|[w arms]]; [by left|].
  destruct Hv as (-> & -> & Hne). specialize (IH Hl). destruct (admit_verbs auth root l) as [o|out]; [by right|].
  destruct IH as [IH1 IH2]. split; [|by constructor]. intros w. cbn [vget]. destruct (bool_decide_reflect (w = v)) as [->|]; [done|by apply IH1].
Qed.

Lemma admit_exact_spec :
  match admit_batch number_text date_parse cat auth root its pre with
  | inr out =>
      (forall it, it ∈ its -> it_attach it = true -> attach_granted auth it = true) /\
      (forall v, vget out v = if existsb (of_verb v) its then Some (admitting v) else None) /\
      (forall v, existsb (of_verb v) its = true -> admitting v <> [])
  | inl _ =>
      (exists it, it ∈ its /\ it_attach it = true /\ attach_granted auth it = false) \/
      (exists v, existsb (of_verb v) its = true /\ admitting v = [])
  end.
Proof.
  unfold admit_batch. pose proof (gather_spec its []) as Hg. destruct (gather_needs _ _ _ _ _ _ _ its []) as [o|ns] eqn:E.
  { left. apply Exists_exists in Hg as (it & Hin & H). by exists it. }
  destruct Hg as [Hat Hv]. pose proof (gather_distinct its [] ns (NoDup_nil_2) E) as Hd.
  assert (forall v l, (v, l) ∈ ns -> existsb (of_verb v) its = true /\ l = needs_in v its) as Hns.
  { intros v l Hin. pose proof (vget_in ns v l Hd Hin) as H. rewrite Hv in H. unfold gathered in H. destruct (existsb _ its); [|done]. by injection H. }
  assert (Forall (fun vn => snd vn = needs_in (fst vn) its) ns) as Hf by (apply Forall_forall; intros [v l] Hin; by apply Hns).
  pose proof (admit_verbs_spec ns Hf) as Ha. destruct (admit_verbs auth root ns) as [o|out].
  - right. apply Exists_exists in Ha as ([v l] & Hin & H). exists v. by split; [apply (Hns v l)|].
  - destruct Ha as [Ha1 Ha2]. split; [intros it Hin; rewrite Forall_forall in Hat; by apply Hat|]. split.
    + intros v. rewrite Ha1, Hv. unfold gathered. by destruct (existsb _ its).
    + intros v Hex. specialize (Hv v). unfold gathered in Hv. rewrite Hex in Hv. rewrite Forall_forall in Ha2.
      assert ((v, needs_in v its) ∈ ns) as Hin; [|exact (Ha2 _ Hin)]. clear -Hv. cbn [default vget app] in Hv.
      induction ns as [|[w l] ns IH]; [done|]. cbn [vget] in Hv. destruct (bool_decide_reflect (v = w)) as [E2|E2]; [subst w; injection Hv as ->; by left|right; by apply IH].
Qed.
(** C7. A batch is admitted exactly by the arms that cover all of it. It is admitted when every attachment is granted on the attached
    record's own model and every verb it uses has an arm of the root that covers everything the batch writes and acts on under that
    verb; the arms that then judge a verb are all of those and no others, in the order of the authority. Otherwise it is refused. *)
Theorem admit_exact :
  match admit_batch number_text date_parse cat auth root its pre with
  | inr out =>
      (forall it, it ∈ its -> it_attach it = true -> attach_granted auth it = true) /\
      (forall v, vget out v = if existsb (of_verb v) its then Some (admitting v) else None) /\
      (forall v, existsb (of_verb v) its = true -> admitting v <> [])
  | inl _ =>
      (exists it, it ∈ its /\ it_attach it = true /\ attach_granted auth it = false) \/
      (exists v, existsb (of_verb v) its = true /\ admitting v = [])
  end.
Proof. exact admit_exact_spec. Qed.

(** A covered need of an item is covered by every arm that judges its verb. *)
Lemma covered_need (it : Item) (need : Need) (ca : CheckArm) : it ∈ its -> it_attach it = false -> need ∈ needs it -> group_verb it <> JDelete ->
  ca ∈ admitting (group_verb it) -> exists arm, arm ∈ arms_of auth root (group_verb it) /\ check_of arm = ca /\ covers arm need = true.
Proof.
  intros Hin Hat Hneed Hv Hca.
  assert (ca ∈ map check_of (List.filter (fun arm => forallb (covers arm) (needs_in (group_verb it) its)) (arms_of auth root (group_verb it)))) as H.
  { revert Hca. unfold admitting. by destruct (group_verb it). }
  apply list_elem_of_fmap in H as (arm & -> & [Ha Hc]%list_elem_of_In%filter_In). exists arm. split; [by apply list_elem_of_In|]. split; [done|].
  rewrite forallb_forall in Hc. apply Hc, in_flat_map. exists it. split; [|by apply list_elem_of_In]. apply filter_In. split; [by apply list_elem_of_In|].
  unfold of_verb. rewrite Hat. cbn [negb andb]. by apply bool_decide_eq_true_2.
Qed.
End Columns.
End Columns.

(** ** The checks. *)
Module Checks.
Section Checks.
Context (decodeVerdict : Json -> string + Verdict) (invoke : string -> GuestOutcome) (model : string) (verb : Judged).
(** What one check says: it decides alone (allows, ends the act, or breaks it), or it is weighed with the others. *)
Inductive Ballot := BallotAllow | BallotApprove (flow : Json) | BallotDeny (o : Outcome) | BallotEnds (o : Outcome) | BallotBreaks (e : BoltError).
Definition ballot (arm : CheckArm) : Ballot :=
  let target := check_target model verb arm in
  match invoke target with
  | GuestFailed error => match guestFailure error with Go o => BallotEnds o | _ => BallotBreaks error end
  | GuestRefused message => BallotEnds (refused_by message target None None None)
  | GuestOk output =>
      match decodeVerdict output with
      | inl message => BallotBreaks (BoltError_make C_badAnswer PGuest (target +:+ ": " +:+ message) CauseOther)
      | inr VerdictAllow => BallotAllow
      | inr (VerdictApprove flow) => BallotApprove flow
      | inr (VerdictDeny message row path field) => BallotDeny (refused_by message target row path field)
      end
  end.
Definition weighed (b : Ballot) : bool := match b with BallotApprove _ | BallotDeny _ => true | _ => false end.
Definition approves (b : Ballot) : option Json := match b with BallotApprove flow => Some flow | _ => None end.
Definition denies (b : Ballot) : option Outcome := match b with BallotDeny o => Some o | _ => None end.
(** The combination as the policies promise it. *)
Definition combined (bs : list Ballot) : answer Judgement :=
  match List.find (fun b => negb (weighed b)) bs with
  | Some BallotAllow => Go JudgeAllow
  | Some (BallotEnds o) => Go (JudgeDeny o)
  | Some (BallotBreaks e) => Fails e
  | _ => Go match first_some approves bs, first_some denies bs with
            | Some flow, _ => JudgeApprove flow
            | None, Some o => JudgeDeny o
            | None, None => JudgeDeny MAY_NOT
            end
  end.
Lemma guestFailure_cases (e : BoltError) : (exists o, guestFailure e = Go o) \/ guestFailure e = Fails e.
Proof. unfold guestFailure. destruct (be_code e); eauto. Qed.
Lemma judge_arms_combined (arms : list CheckArm) (approve : option Json) (deny : option Outcome) :
  judge_arms decodeVerdict model verb invoke arms approve deny =
  combined (match approve with Some flow => [BallotApprove flow] | None => [] end ++ match deny with Some o => [BallotDeny o] | None => [] end ++ map ballot arms).
Proof.
  revert approve deny. induction arms as [|arm arms IH]; intros approve deny; [by destruct approve, deny|].
  cbn [judge_arms map]. set (pre := match approve with Some _ => _ | None => _ end). set (den := match deny with Some _ => _ | None => _ end).
  assert (forall b rest, weighed b = false -> combined (pre ++ den ++ b :: rest) = combined [b]) as Hstop
    by (intros b rest Hb; unfold pre, den; destruct b; try done; by destruct approve, deny).
  unfold ballot at 1. destruct (invoke (check_target model verb arm)) as [output|message|error]; [|by rewrite Hstop|].
  - destruct (decodeVerdict output) as [message|[|message row path field|flow]]; [by rewrite Hstop|by rewrite Hstop| |].
    + rewrite IH. unfold pre, den. by destruct approve, deny.
    + rewrite IH. unfold pre, den. by destruct approve, deny.
  - destruct (guestFailure_cases error) as [[o E]|E]; rewrite E; cbn [mbind answer_bind]; by rewrite Hstop.
Qed.

Lemma judge_combines_spec (arms : list CheckArm) :
  judge decodeVerdict (Some invoke) model verb arms =
  match arms with
  | [] => Go (false, JudgeDeny MAY_NOT)
  | _ =>
      if existsb (fun arm => negb (ca_check arm)) arms then Go (false, JudgeAllow)
      else v ← combined (map ballot arms); Go (true, v)
  end.
Proof. unfold judge. destruct arms as [|arm arms]; [done|]. destruct (existsb _ _); [done|]. by rewrite judge_arms_combined. Qed.
(** C28. How the arms' checks combine. With no admitting arm the change is denied; an arm without a check allows it; otherwise
    the checks are heard in the order of the arms, up to the first that allows (the change is allowed), that refuses or fails in
    its own code (denied with its outcome), or that breaks (the platform's error); if each only approves or denies, the first
    approval holds the change for its flow, and without one the first denial refuses it. That is less than the declarations say,
    by which any [allow] executes: a refusal or a failure that is heard earlier keeps a later arm from allowing
    ([Desk.refusal_hides_allow]). *)
Theorem judge_combines (arms : list CheckArm) :
  judge decodeVerdict (Some invoke) model verb arms =
  match arms with
  | [] => Go (false, JudgeDeny MAY_NOT)
  | _ =>
      if existsb (fun arm => negb (ca_check arm)) arms then Go (false, JudgeAllow)
      else v ← combined (map ballot arms); Go (true, v)
  end.
Proof. exact (judge_combines_spec arms). Qed.

(** So whoever is allowed was allowed by an arm: by one without a check, or by a check that said so. *)
Lemma allowed_by (arms : list CheckArm) (ran : bool) : judge decodeVerdict (Some invoke) model verb arms = Go (ran, JudgeAllow) ->
  exists arm, arm ∈ arms /\ (ca_check arm = false \/ ballot arm = BallotAllow).
Proof.
  rewrite judge_combines_spec. destruct arms as [|a arms]; [done|]. destruct (existsb _ _) eqn:E.
  - intros _. apply existsb_exists in E as (arm & Hin & Hc). exists arm. split; [by apply list_elem_of_In|]. left. by apply negb_true_iff.
  - unfold combined. destruct (List.find _ _) as [b|] eqn:Ef.
    + apply find_some in Ef as [Hin Hb]. destruct b; try done. intros _. apply list_elem_of_In, list_elem_of_fmap in Hin as (arm & Hb' & Hin).
      exists arm. split; [done|]. by right.
    + by destruct (first_some approves (map ballot (a :: arms))), (first_some denies (map ballot (a :: arms))).
Qed.
End Checks.
End Checks.

(** ** Idempotency. *)
Module Idempotent.
Section Idempotent.
Context (number_text : number -> string).
Hypothesis Htext : forall n m, number_text n = number_text m <-> (n == m)%Q.
Hypothesis Hchars : forall n, all_chars Canonical.is_numeric (number_text n) = true /\ number_text n <> EmptyString.
Definition not_nul (c : ascii) : bool := negb (Ascii.eqb c NUL).
Lemma all_chars_join (f : ascii -> bool) (sep : string) (l : list string) : all_chars f sep = true -> Forall (fun s => all_chars f s = true) l -> all_chars f (join sep l) = true.
Proof.
  intros Hs H. induction H as [|s l H1 H2 IH]; [done|]. destruct l as [|s' l]; [done|]. change (join sep (s :: s' :: l)) with (s +:+ sep +:+ join sep (s' :: l)).
  by rewrite !all_chars_append, H1, Hs, IH.
Qed.
Lemma escaped_not_nul (s : string) : all_chars not_nul (escaped s) = true.
Proof.
  induction s as [|c s IH]; [done|]. cbn [escaped]. rewrite all_chars_append, IH, andb_true_r.
  destruct c as [[] [] [] [] [] [] [] []]; vm_compute; reflexivity.
Qed.
Lemma quote_not_nul (s : string) : all_chars not_nul (quote s) = true.
Proof. unfold quote. cbn [all_chars]. rewrite all_chars_append, escaped_not_nul. done. Qed.
Lemma canonical_not_nul (v : Json) : all_chars not_nul (canonical number_text v) = true.
Proof.
  induction v as [|b|n|s|l IH|o IH] using Json_nested; cbn [canonical]; [done|by destruct b| |apply quote_not_nul| |].
  - apply (all_chars_impl Canonical.is_numeric); [|apply Hchars]. intros c. destruct c as [[] [] [] [] [] [] [] []]; vm_compute; done.
  - rewrite !all_chars_append. cbn [all_chars]. rewrite all_chars_join; [done|done|]. apply Forall_map. exact IH.
  - rewrite !all_chars_append. cbn [all_chars]. rewrite all_chars_join; [done|done|]. apply Forall_map, Forall_forall. intros [key t] Hin.
    rewrite (Canonical.member_order_perm _) in Hin. apply list_elem_of_fmap in Hin as ([key' v] & [= -> ->] & Hin).
    unfold member_text. cbn [fst snd]. rewrite !all_chars_append, quote_not_nul. rewrite Forall_forall in IH. specialize (IH _ Hin). cbn [snd] in IH. by rewrite IH.
Qed.
Lemma nul_split (a b r s : string) : all_chars not_nul a = true -> all_chars not_nul b = true ->
  a +:+ String NUL r = b +:+ String NUL s -> a = b /\ r = s.
Proof.
  revert b. induction a as [|c a IH]; intros [|d b] Ha Hb E; cbn [append all_chars] in *.
  - by injection E.
  - injection E as <- _. by apply andb_true_iff in Hb as [? _].
  - injection E as -> _. by apply andb_true_iff in Ha as [? _].
  - injection E as <- E. apply andb_true_iff in Ha as [_ Ha], Hb as [_ Hb]. by destruct (IH b Ha Hb E) as [-> ->].
Qed.

Definition not_dot (c : ascii) : bool := negb (Ascii.eqb c ".").
Lemma last_dot (a b v w : string) : all_chars not_dot v = true -> all_chars not_dot w = true ->
  a +:+ String "." v = b +:+ String "." w -> a = b /\ v = w.
Proof.
  assert (forall x y, all_chars not_dot (x +:+ String "." y) = false) as Hdot.
  { intros x y. rewrite all_chars_append. cbn [all_chars]. by rewrite andb_false_r. }
  intros Hv Hw. revert b. induction a as [|c a IH]; intros [|d b] E; cbn [append] in *.
  - by injection E.
  - injection E as <- E. by rewrite E, Hdot in Hv.
  - injection E as -> E. by rewrite <- E, Hdot in Hw.
  - injection E as <- E. by destruct (IH b E) as [-> ->].
Qed.
Lemma callable_inj (r s : ActRequest) : callable r = callable s <-> rq_model r = rq_model s /\ rq_verb r = rq_verb s.
Proof.
  split; [|by unfold callable; intros [-> ->]]. unfold callable. change ("." +:+ verb_name (rq_verb r)) with (String "." (verb_name (rq_verb r))).
  change ("." +:+ verb_name (rq_verb s)) with (String "." (verb_name (rq_verb s))). intros E.
  apply last_dot in E as [E1 E2]; [|by destruct (rq_verb r)|by destruct (rq_verb s)]. split; [done|]. by destruct (rq_verb r), (rq_verb s).
Qed.

(** Equal objects have equal members; equal texts, lists and flags are the same. *)
Lemma same_get (o p : dict Json) (key : string) (x : Json) : wf_dict o -> wf_dict p -> Canonical.same_json (JObject o) (JObject p) ->
  get o key = Some x -> exists y, get p key = Some y /\ Canonical.same_json x y.
Proof.
  intros Ho Hp H Hx. inversion H as [| | | | |a o' b p' Ho' Hp' HF]; subst. apply get_in in Hx. rewrite Ho' in Hx.
  apply list_elem_of_lookup in Hx as [i Hi]. destruct (Forall2_lookup_l _ _ _ _ _ HF Hi) as ([key' y] & Hy & Hk & Hs). cbn [fst snd] in *. subst key'.
  exists y. split; [|done]. apply in_get; [done|]. rewrite <- Hp'. by eapply list_elem_of_lookup_2.
Qed.
Lemma same_strings (l l' : list string) : Canonical.same_json (JArray (map JString l)) (JArray (map JString l')) -> l = l'.
Proof.
  intros H. inversion H as [| | | |a b HF|]; subst. clear H. revert l' HF. induction l as [|x l IH]; intros [|y l'] HF; inversion HF; subst; [done|].
  f_equal; [by match goal with E : Canonical.same_json (JString _) _ |- _ => inversion E end|by apply IH].
Qed.
Lemma same_text (a b : string) : Canonical.same_json (JString a) (JString b) -> a = b.
Proof. by inversion 1. Qed.
Lemma same_flag (a b : bool) : Canonical.same_json (JBool a) (JBool b) -> a = b.
Proof. by inversion 1. Qed.
Lemma same_opt_json (a b : option string) : Canonical.same_json (opt_json a) (opt_json b) -> a = b.
Proof. destruct a, b; inversion 1; by subst. Qed.
Lemma wf_strings (l : list string) : Canonical.wf_json (JArray (map JString l)).
Proof. cbn [Canonical.wf_json]. by induction l. Qed.
Ltac same_member H key :=
  let y := fresh "y" in let Hy := fresh "Hy" in let Hs := fresh "Hs" in
  let E := fresh "E" in pose proof (fun Ho Hp => same_get _ _ key _ Ho Hp H eq_refl) as E;
  destruct E as (y & Hy & Hs); [by apply (bool_decide_eq_true_1 _)|by apply (bool_decide_eq_true_1 _)|];
  cbv [get has_own String.eqb Ascii.eqb Bool.eqb] in Hy; first [injection Hy as <-|discriminate Hy].
Lemma same_size (o p : dict Json) : Canonical.same_json (JObject o) (JObject p) -> length o = length p.
Proof. inversion 1 as [| | | | |a o' b p' Ho Hp HF]; subst. by rewrite Ho, <- Hp, (Forall2_length _ _ _ HF). Qed.
Lemma member_json_inj (a b : MemberActor) : Canonical.same_json (member_json a) (member_json b) -> a = b.
Proof.
  destruct a as [i e ph ex ts tp ad pt], b as [i' e' ph' ex' ts' tp' ad' pt']. unfold member_json. cbn [ma_id ma_email ma_phone ma_external ma_teams ma_teamPath ma_admin ma_party].
  intros H. same_member H "id"%string. same_member H "email"%string. same_member H "phone"%string. same_member H "external"%string.
  same_member H "teams"%string. same_member H "teamPath"%string. same_member H "admin"%string. same_member H "party"%string.
  f_equal; [by apply same_text|by apply same_opt_json|by apply same_opt_json|by apply same_flag|by apply same_strings|by apply same_strings|by apply same_flag|].
  destruct pt as [[pm pi]|], pt' as [[pm' pi']|]; try by inversion Hs6. cbn [party_model party_id] in Hs6.
  same_member Hs6 "model"%string. same_member Hs6 "id"%string. f_equal. f_equal; by apply same_text.
Qed.
Lemma actor_json_inj (a b : EngineActor) : Canonical.same_json (actor_json a) (actor_json b) -> a = b.
Proof.
  destruct a as [m|e i sd mb l|ap v an|key|run by1], b as [m'|e' i' sd' mb' l'|ap' v' an'|key'|run' by1']; unfold actor_json; intros H;
    try (destruct l); try (destruct l'); try (destruct an); try (destruct an'); cbn [app] in H; pose proof (same_size _ _ H) as Hlen; try discriminate Hlen;
    same_member H "kind"%string; try (inversion Hs; fail); clear Hs.
  - f_equal. by apply member_json_inj.
  - same_member H "envoy"%string. same_member H "instance"%string. same_member H "sender"%string. same_member H "member"%string. same_member H "linked"%string.
    f_equal; [by apply same_text|by apply same_text|by apply same_text|by apply same_opt_json|]. f_equal. by apply member_json_inj.
  - same_member H "envoy"%string. same_member H "instance"%string. same_member H "sender"%string. same_member H "member"%string.
    f_equal; [by apply same_text|by apply same_text|by apply same_text|by apply same_opt_json].
  - same_member H "app"%string. same_member H "visitor"%string. f_equal; by apply same_text.
  - same_member H "app"%string. same_member H "visitor"%string. f_equal; by apply same_text.
  - same_member H "key"%string. f_equal; by apply same_text.
  - same_member H "run"%string. same_member H "by"%string. f_equal; [by apply same_text|]. clear -Hs0.
    destruct by1 as [x|x|x y], by1' as [x'|x'|x' y']; unfold by_json in Hs0; pose proof (same_size _ _ Hs0) as Hlen; try discriminate Hlen.
    + same_member Hs0 "automation"%string. f_equal; by apply same_text.
    + same_member Hs0 "automation"%string.
    + same_member Hs0 "platform"%string.
    + same_member Hs0 "platform"%string. f_equal; by apply same_text.
    + same_member Hs0 "sync"%string. same_member Hs0 "instance"%string. f_equal; by apply same_text.
Qed.

(** Two requests are one to the idempotency record: the same caller (a member by its id, whatever else of it changed), verb, model
    and client key; and they ask the same when their inputs are equal and they treat stored rows alike. *)
Definition same_actor (a b : EngineActor) : Prop :=
  match a, b with ActMember x, ActMember y => ma_id x = ma_id y | ActMember _, _ | _, ActMember _ => False | a, b => a = b end.
Definition same_key (r s : ActRequest) : Prop :=
  same_actor (au_actor (rq_authority r)) (au_actor (rq_authority s)) /\ rq_model r = rq_model s /\ rq_verb r = rq_verb s /\ rq_key r = rq_key s.
Definition same_ask (r s : ActRequest) : Prop :=
  rq_model r = rq_model s /\ rq_verb r = rq_verb s /\ rq_onConflict r = rq_onConflict s /\ Canonical.same_json (rq_input r) (rq_input s).
Lemma auth_actor (r : ActRequest) : au_actor (auth_of r) = au_actor (rq_authority r).
Proof. unfold auth_of. by destruct (is_some (sync_fields r)). Qed.
Lemma wf_member (a : MemberActor) : Canonical.wf_json (member_json a).
Proof.
  unfold member_json. cbn [Canonical.wf_json foldr snd]. split; [by apply (bool_decide_eq_true_1 _)|].
  split_and!; try done; try apply wf_strings; try (by destruct (ma_email a)); try (by destruct (ma_phone a)).
  destruct (ma_party a); [|done]. cbn. split_and!; try done. by apply (bool_decide_eq_true_1 _).
Qed.
Lemma wf_actor (a : EngineActor) : Canonical.wf_json (actor_json a).
Proof.
  destruct a as [a|e i sd mb l|ap v an|key|run by1]; [apply wf_member| | | |]; unfold actor_json.
  - destruct l as [l|]; (split; [by apply (bool_decide_eq_true_1 _)|]); cbn [app foldr snd]; split_and!; try done; try (by destruct mb); apply wf_member.
  - destruct an; (split; [by apply (bool_decide_eq_true_1 _)|done]).
  - by split; [apply (bool_decide_eq_true_1 _)|].
  - split; [by apply (bool_decide_eq_true_1 _)|]. cbn [foldr snd]. split_and!; try done. by destruct by1; (split; [apply (bool_decide_eq_true_1 _)|]).
Qed.
Lemma wf_principal (r : ActRequest) : Canonical.wf_json (principal_json r).
Proof. unfold principal_json. split; [by apply (bool_decide_eq_true_1 _)|]. cbn [foldr snd]. split_and!; try done. destruct (au_actor (auth_of r)); [done|apply wf_actor..]. Qed.
Lemma wf_request (r : ActRequest) : Canonical.wf_json (rq_input r) -> Canonical.wf_json (request_json r).
Proof. unfold request_json. split; [by apply (bool_decide_eq_true_1 _)|]. cbn [foldr snd]. split_and!; try done. by destruct (rq_onConflict r) as [[]|]. Qed.
Lemma key_text_same (r s : ActRequest) : key_text number_text r = key_text number_text s <-> same_key r s.
Proof.
  split.
  - unfold key_text. intros E. apply nul_split in E as [E Hk]; [|apply canonical_not_nul..].
    apply (Canonical.canonical_decides number_text Htext Hchars) in E; [|apply wf_principal..]. unfold principal_json in E.
    same_member E "actor"%string. same_member E "callable"%string. apply same_text, callable_inj in Hs0 as [Hm Hv]. rewrite !auth_actor in Hs.
    split; [|done]. unfold same_actor. clear -Hs.
    destruct (au_actor (rq_authority r)) as [a|e i sd mb l|ap v an|key|run by1] eqn:Ea, (au_actor (rq_authority s)) as [b|e' i' sd' mb' l'|ap' v' an'|key'|run' by1'] eqn:Eb;
      try (by apply same_text); try (by inversion Hs); match goal with |- ?a = ?b => exact (actor_json_inj a b Hs) end.
  - intros (Ha & Hm & Hv & Hk). unfold key_text. rewrite Hk. f_equal. f_equal. unfold principal_json. rewrite !auth_actor, (proj2 (callable_inj r s) (conj Hm Hv)).
    unfold same_actor in Ha. by destruct (au_actor (rq_authority r)), (au_actor (rq_authority s)); try done; rewrite Ha.
Qed.
Lemma digest_text_same (r s : ActRequest) : Canonical.wf_json (rq_input r) -> Canonical.wf_json (rq_input s) ->
  digest_text number_text r = digest_text number_text s -> same_ask r s.
Proof.
  intros Hr Hs E. apply (Canonical.canonical_decides number_text Htext Hchars) in E; [|by apply wf_request..]. unfold request_json in E.
  same_member E "callable"%string. same_member E "input"%string. same_member E "onConflict"%string. apply same_text, callable_inj in Hs0 as [Hm Hv].
  split_and!; try done. destruct (rq_onConflict r) as [[]|], (rq_onConflict s) as [[]|]; try done; by inversion Hs2.
Qed.

(** A retry is answered only with the outcome of its own request. Where the hash tells apart the texts it is given, a kept
    outcome found for a request was kept by a request of the same caller, model, verb and client key; it is returned only if that
    request had an equal input and treated stored rows alike, and a different one under the same key is refused. *)
Theorem retry_is_own (hash : string -> string) (records : string -> option (Z * string * Outcome)) (kept r : ActRequest) (issued : Z) (o answered : Outcome) :
  (forall a b, hash a = hash b -> a = b) -> Canonical.wf_json (rq_input kept) -> Canonical.wf_json (rq_input r) ->
  records (hash (key_text number_text r)) = Some (issued, hash (digest_text number_text kept), o) ->
  hash (key_text number_text r) = hash (key_text number_text kept) ->
  stored number_text hash records r = Some answered ->
  same_key r kept /\ (answered = o /\ same_ask r kept \/ answered = KEY_REUSE /\ digest_text number_text r <> digest_text number_text kept).
Proof.
  intros Hhash Hk Hr Hrec Hkey. unfold stored. rewrite Hrec. destruct (Date_parse (rq_issuedAt r)) as [at_|]; [|done].
  destruct (at_ - DAY <? issued); [|done]. intros [= <-]. split; [by apply key_text_same, Hhash|].
  destruct (String.eqb_spec (hash (digest_text number_text kept)) (hash (digest_text number_text r))) as [E|E].
  - left. split; [done|]. apply digest_text_same; [done|done|]. by apply Hhash in E.
  - right. split; [done|]. intros E'. by rewrite E' in E.
Qed.

(** *** Once. *)
Section Once.
Context (awaited : string -> bool).
Definition ran_for (key : string) (s : Settle) (x : bool * option Outcome) : bool := String.eqb (se_key s) key && fst x.
(** The records of [key] as one statement left them. *)
Definition keeps (db : Idem) (key digest : string) (issued : Z) (o : Outcome) : Prop :=
  get (id_keys db) key = Some (digest, issued) /\ get (id_outcomes db) key = Some o.
Lemma settle_other (db : Idem) (s : Settle) (key digest : string) (issued : Z) (o : Outcome) : se_key s <> key -> keeps db key digest issued o ->
  keeps (fst (fst (settle awaited db s))) key digest issued o.
Proof.
  intros Hne [H1 H2]. unfold settle, gate. destruct (get (id_keys db) (se_key s)) as [[d t]|]; [destruct (_ && _)|]; cbv zeta; unfold keeps; cbn [fst id_keys id_outcomes];
    rewrite ?get_set_ne by done; done.
Qed.
Lemma settle_again (db : Idem) (s : Settle) (key digest : string) (issued : Z) (o : Outcome) : se_key s = key -> se_issued s <= issued + DAY ->
  keeps db key digest issued o -> settle awaited db s = (db, false, Some (if String.eqb digest (se_digest s) then o else KEY_REUSE)).
Proof.
  intros <- Hd [H1 H2]. unfold settle, gate, storedOutcome. rewrite H1, H2. replace (issued <? se_issued s - DAY) with false by (symmetry; lia). done.
Qed.
Lemma settle_all_kept (l : list Settle) (db : Idem) (key digest : string) (issued : Z) (o : Outcome) : keeps db key digest issued o ->
  (forall s, s ∈ l -> se_key s = key -> se_issued s <= issued + DAY) ->
  Forall2 (fun s x => se_key s = key -> x = (false, Some (if String.eqb digest (se_digest s) then o else KEY_REUSE))) l (settle_all awaited db l).
Proof.
  revert db. induction l as [|s l IH]; intros db Hk Hl; cbn [settle_all]; [constructor|].
  destruct (settle awaited db s) as [[db' ran] a] eqn:E. destruct (decide (se_key s = key)) as [Hs|Hs].
  - rewrite (settle_again db s key digest issued o Hs (Hl s (list_elem_of_here _ _) Hs) Hk) in E. injection E as <- <- <-.
    constructor; [done|]. apply IH; [done|]. intros s' Hin. apply Hl. by apply list_elem_of_further.
  - constructor; [done|]. apply IH; [|intros s' Hin; apply Hl; by apply list_elem_of_further].
    pose proof (settle_other db s key digest issued o Hs Hk) as H. by rewrite E in H.
Qed.

(** C24. A request settles once. Of the statements that settle one key within a day of its first, in whatever order they run and
    among whatever others, exactly the first runs its writes, and each later one writes nothing and answers the first's outcome, or,
    when it is a different request, that the key was used. *)
Theorem settles_once (db : Idem) (before after_ : list Settle) (s : Settle) : get (id_keys db) (se_key s) = None ->
  (forall x, x ∈ before -> se_key x <> se_key s) -> (forall x, x ∈ after_ -> se_key x = se_key s -> se_issued x <= se_issued s + DAY) ->
  exists rs later, settle_all awaited db (before ++ s :: after_) = rs ++ (true, Some (se_outcome s)) :: later /\ length rs = length before /\
    Forall2 (fun x y => se_key x = se_key s -> y = (false, Some (if String.eqb (se_digest s) (se_digest x) then se_outcome s else KEY_REUSE))) after_ later.
Proof.
  revert db. induction before as [|b before IH]; intros db Hnone Hb Ha; cbn [app settle_all].
  - unfold settle, gate. rewrite Hnone. cbn [id_keys id_outcomes]. set (db' := MkIdem _ _).
    exists [], (settle_all awaited db' after_). split_and!; [done|done|]. apply (settle_all_kept _ db' (se_key s) (se_digest s) (se_issued s)); [|done].
    split; cbn [db' id_keys id_outcomes]; apply get_set_eq.
  - destruct (settle awaited db b) as [[db' ran] a] eqn:E.
    assert (get (id_keys db') (se_key s) = None) as Hn'.
    { unfold settle, gate in E. assert (se_key b <> se_key s) as Hne by (apply Hb; by left).
      destruct (get (id_keys db) (se_key b)) as [[d t]|]; [destruct (_ && _)|]; injection E as <- _ _; cbn [id_keys]; try done; by rewrite get_set_ne. }
    destruct (IH db' Hn') as (rs & later & Es & Hlen & HF); [intros x Hx; apply Hb; by right|done|].
    exists ((ran, a) :: rs), later. rewrite Es. split_and!; [done| |done]. cbn [length]. by rewrite Hlen.
Qed.
End Once.
End Idempotent.
End Idempotent.

(** ** The pipeline. *)
Module Pipeline.
Lemma bind_go {A B} (x : answer A) (f : A -> answer B) (b : B) : (x ≫= f) = Go b -> exists a, x = Go a /\ f a = Go b.
Proof. destruct x; cbn [mbind answer_bind]; intros H; try done. eauto. Qed.
Lemma guard_go (o : option Outcome) (u : unit) : guard o = Go u -> o = None.
Proof. by destruct o. Qed.
Lemma forbid_go (b : bool) (o : Outcome) (u : unit) : forbid b o = Go u -> b = false.
Proof. by destruct b. Qed.
Lemma first_stop_none {A} (f : A -> option Outcome) (l : list A) : first_stop f l = None <-> forall x, x ∈ l -> f x = None.
Proof.
  induction l as [|y l IH]; cbn [first_stop]; [by split; [intros _ x ?%elem_of_nil|]|]. split.
  - destruct (f y) eqn:E; [done|]. intros H x [->|Hx]%elem_of_cons; [done|]. by apply IH.
  - intros H. rewrite (H y) by (by left). apply IH. intros x Hx. apply H. by right.
Qed.
(** Takes apart a sequence of steps that went on. *)
Ltac go H :=
  match type of H with
  | (_ ≫= _) = Go _ => let a := fresh "a" in let E := fresh "E" in apply bind_go in H as (a & E & H); cbv beta in H; go H
  | _ => idtac
  end.

Section Pipeline.
Context (number_text : number -> string) (text_of : Json -> string) (date_parse : string -> option number).
Context (decodes : Codec -> Json -> bool) (decodeInput : string -> Shape -> Json -> Decoded).
Context (m : ActManifest) (cat : Catalog) (mint : nat -> string) (decodeWhere : string -> Json -> string + Pred).
Context (keyed : string -> list string -> list string -> option string).
Context (db_rows : string -> list string -> list Row) (db_gets : Authority -> string -> list string -> list string).
Context (joined : string -> list string -> list (list Json) -> list Row).
Let run_admission := admission number_text text_of date_parse decodes decodeInput m cat mint decodeWhere keyed db_rows db_gets joined.
Let own_columns := Columns.needs_in number_text date_parse cat.

(** What an admitted change may count on: the row it names is stored, the caller reads it unless it is written through its parent,
    it hangs where the change says, and is free if it is to be attached; each record it links to is readable; a top-level update
    moves the state only along an edge the caller is granted; and the revision it was made from is the stored one. *)
Record placed (r : ActRequest) (a : Admission) (it : Item) : Prop := MkPlaced {
  pl_row : actionOf (ad_pre a) (it_change it) <> JCreate -> exists row,
    get (ad_pre a) (k (model_of (it_change it)) (named (it_change it))) = Some row /\
    (it_parent it = None -> readableBy (auth_of r) (ad_visibility a) (model_of (it_change it)) row = true) /\
    (forall p, it_belongs it = Some BelongsParent -> it_parent it = Some p -> get row (pr_fk p) = Some (JString (pr_id p))) /\
    (forall p, it_attach it = true -> it_parent it = Some p -> nullish (get row (pr_fk p)) = true);
  pl_refs : forall ref, ref ∈ it_refs it -> exists row,
    get (ad_pre a) (k (ref_to ref) (ref_id ref)) = Some row /\ readableBy (auth_of r) (ad_visibility a) (ref_to ref) row = true;
  pl_move : forall state next row, stateField m (model_of (it_change it)) = Some state -> it_parent it = None ->
    get (set_of (it_change it)) state = Some (JString next) ->
    get (ad_pre a) (k (model_of (it_change it)) (named (it_change it))) = Some row ->
    Access.admitMove (auth_of r) (model_of (it_change it)) state (undefined_text text_of (get row state)) next = true;
  pl_revision : forall row seen, get (ad_pre a) (k (model_of (it_change it)) (named (it_change it))) = Some row ->
    seen_of r (it_change it) = Some seen -> exists n, get row "revision" = Some (JNumber n) /\ (n == seen)%Q }.

Lemma placed_of (r : ActRequest) (a : Admission) (it : Item) :
  item_check text_of m (auth_of r) (ad_pre a) (ad_visibility a) it = None -> revision_check r (ad_pre a) it = None -> placed r a it.
Proof.
  unfold item_check. intros H Hrev.
  destruct (target_check (auth_of r) (ad_pre a) (ad_visibility a) it) as [o|] eqn:Ht; [done|].
  destruct (first_stop _ (it_refs it)) as [o|] eqn:Hr; [done|]. constructor.
  - intros Hact. unfold target_check in Ht. cbv zeta in Ht.
    replace (bool_decide (actionOf (ad_pre a) (it_change it) = JUpdate) || bool_decide (actionOf (ad_pre a) (it_change it) = JDelete)) with true in Ht
      by (by destruct (actionOf (ad_pre a) (it_change it))).
    destruct (get (ad_pre a) _) as [row|]; [|done]. exists row. split; [done|].
    destruct (negb (is_some (it_parent it)) && _) eqn:E1; [done|]. destruct (bool_decide (it_belongs it = Some BelongsParent) && _) eqn:E2; [done|].
    destruct (it_attach it && _) eqn:E3; [done|]. split_and!.
    + intros Hp. rewrite Hp in E1. cbn in E1. by apply negb_false_iff in E1.
    + intros p Hb Hp. rewrite Hp, (bool_decide_eq_true_2 _ Hb) in E2. cbn [andb] in E2. apply negb_false_iff in E2. unfold is_id in E2.
      destruct (get row (pr_fk p)) as [[| | |s| |]|]; try done. by apply String.eqb_eq in E2 as ->.
    + intros p Hat Hp. rewrite Hp, Hat in E3. cbn [andb] in E3. by apply negb_false_iff in E3.
  - intros ref Hin. pose proof (proj1 (first_stop_none _ _) Hr ref Hin) as Href. unfold ref_check in Href.
    destruct (get (ad_pre a) (k (ref_to ref) (ref_id ref))) as [row|]; [|done]. exists row. split; [done|]. by destruct (readableBy _ _ _ row).
  - intros state next row Hs Hp Hset Hrow. unfold move_check in H. cbv zeta in H. rewrite Hs, Hrow, Hset, Hp in H. cbn [is_some negb andb] in H.
    rewrite andb_true_r in H. unfold Access.admitMove in *. destruct (au_admin (auth_of r)); [done|]. cbn [negb andb orb] in *.
    by match type of H with (if negb ?b then _ else _) = _ => destruct b end.
  - intros row seen Hrow Hseen. unfold revision_check in Hrev. cbv zeta in Hrev. rewrite Hrow, Hseen in Hrev.
    destruct (get row "revision") as [[| |n| | |]|]; try done. exists n. split; [done|]. destruct (Qeq_bool n seen) eqn:E; [|done]. by apply Qeq_bool_iff.
Qed.

(** Every arm that will judge an item's verb is an arm of the caller, and covers each thing the item writes or acts on. *)
Definition columns_granted (r : ActRequest) (a : Admission) (it : Item) : Prop :=
  if it_attach it then attach_granted (auth_of r) it = true
  else
    let verb := Columns.group_verb (ad_pre a) (ad_items a) it in
    exists out arms, ad_admitted a = Some out /\ vget out verb = Some arms /\ arms <> [] /\
      (verb <> JDelete -> forall ca need, ca ∈ arms -> need ∈ needs_of number_text date_parse cat (rq_model r) (ad_pre a) it ->
         exists arm, arm ∈ arms_of (auth_of r) (rq_model r) verb /\ check_of arm = ca /\ covers arm need = true) /\
      (verb = JDelete -> forall ca, ca ∈ arms -> exists arm, arm ∈ delete_arms (auth_of r) (rq_model r) /\ ca = MkCheckArm (da_policy arm) (da_check arm)).

Lemma batch_granted (r : ActRequest) (a : Admission) (out : Admitted_) (it : Item) :
  admit_batch number_text date_parse cat (auth_of r) (rq_model r) (ad_items a) (ad_pre a) = inr out -> ad_admitted a = Some out ->
  it ∈ ad_items a -> columns_granted r a it.
Proof.
  intros E Ho Hin. pose proof (Columns.admit_exact_spec number_text date_parse cat (auth_of r) (rq_model r) (ad_pre a) (ad_items a)) as H.
  rewrite E in H. destruct H as (Hat & Hv & Hne). unfold columns_granted. destruct (it_attach it) eqn:Ha; [by apply Hat|].
  cbv zeta. set (verb := Columns.group_verb _ _ it).
  assert (existsb (Columns.of_verb (ad_pre a) (ad_items a) verb) (ad_items a) = true) as Hex.
  { apply existsb_exists. exists it. split; [by apply list_elem_of_In|]. unfold Columns.of_verb. rewrite Ha. by apply bool_decide_eq_true_2. }
  exists out, (Columns.admitting number_text date_parse cat (auth_of r) (rq_model r) (ad_pre a) (ad_items a) verb). specialize (Hv verb). rewrite Hex in Hv.
  split_and!; [done|done|by apply Hne| |].
  - intros Hd ca need Hca Hneed. exact (Columns.covered_need number_text date_parse cat (auth_of r) (rq_model r) (ad_pre a) (ad_items a) it need ca Hin Ha Hneed Hd Hca).
  - intros Hd ca Hca. rewrite Hd in Hca. cbn [Columns.admitting] in Hca. apply list_elem_of_fmap in Hca as (arm & -> & Hca). by exists arm.
Qed.
Lemma judge_batch_go (r : ActRequest) (imp : option ImportPlan) its onFile upserted matched (a : Admission) :
  judge_batch number_text text_of date_parse m cat db_rows db_gets r imp its onFile upserted matched = Go a ->
  (forall it, it ∈ ad_items a -> placed r a it) /\
  (if au_admin (auth_of r) then ad_admitted a = None else forall it, it ∈ ad_items a -> columns_granted r a it).
Proof.
  unfold judge_batch. cbv zeta. intros H. go H. injection H as <-. apply guard_go in E0, E2. cbn [ad_items ad_pre ad_admitted ad_visibility]. split.
  - intros it Hin. apply placed_of; cbn [ad_pre ad_visibility]; [exact (proj1 (first_stop_none _ _) E0 it Hin)|exact (proj1 (first_stop_none _ _) E2 it Hin)].
  - destruct (au_admin (auth_of r)); [by injection E1 as <-|]. intros it Hin.
    destruct (admit_batch _ _ _ _ _ _ _) as [o|out] eqn:Eb; [done|]. injection E1 as <-. by apply (batch_granted _ _ out).
Qed.


(** *** What is readable was read. *)
Lemma get_mark (table : string) (b : bool) (ids : list string) (v : dict bool) (key : string) :
  get (mark table b ids v) key = if bool_decide (key ∈ map (k table) ids) then Some b else get v key.
Proof.
  unfold mark. revert v. induction ids as [|id ids IH]; intros v; cbn [fold_left map]; [done|]. rewrite IH.
  destruct (bool_decide_reflect (key ∈ map (k table) ids)) as [H|H].
  - rewrite bool_decide_eq_true_2; [done|by right].
  - destruct (String.eqb_spec key (k table id)) as [->|Hne].
    + rewrite get_set_eq, bool_decide_eq_true_2; [done|by left].
    + rewrite get_set_ne by done. rewrite bool_decide_eq_false_2; [done|]. by intros [?|?]%elem_of_cons.
Qed.
Lemma marked (f : string -> list string) (b : bool) (tables : list string) (v : dict bool) (key : string) (x : bool) :
  get (fold_left (fun v table => mark table b (f table) v) tables v) key = Some x ->
  x = b /\ (exists table id, table ∈ tables /\ id ∈ f table /\ key = k table id) \/ get v key = Some x.
Proof.
  revert v. induction tables as [|t tables IH]; intros v; cbn [fold_left]; [by right|]. intros H. apply IH in H as [(-> & t' & id & Ht & Hid & ->)|H].
  - left. split; [done|]. exists t', id. split; [by right|done].
  - rewrite get_mark in H. case_bool_decide as Hin; [|by right]. injection H as <-. left. split; [done|]. apply list_elem_of_fmap in Hin as (id & -> & Hid).
    exists t, id. split; [by left|done].
Qed.
Definition no_nul (s : string) : Prop := all_chars Idempotent.not_nul s = true.
Lemma k_inj (a b i j : string) : no_nul a -> no_nul b -> k a i = k b j -> a = b /\ i = j.
Proof. intros Ha Hb. by apply Idempotent.nul_split. Qed.
(** A row counts as readable only where the caller's own read scope returned it: the model is one the caller reads, and the
    compiled read of the ids the act names, under the caller's authority, gave this row's id. *)
Theorem readable_is_read (want : list (string * string)) (auth : Authority) (c : string) (row : Row) :
  no_nul c -> (forall w, w ∈ want -> no_nul (fst w)) -> au_admin auth = false ->
  readableBy auth (readScoped db_gets auth want []) c row = true ->
  exists id, get row "id" = Some (JString id) /\ Access.readsAny auth c = true /\ id ∈ db_gets auth c (wanted want c).
Proof.
  intros Hc Hw Hadmin. unfold readableBy, readScoped. rewrite Hadmin. cbn [orb]. destruct (get row "id") as [[| | |id| |]|]; try done. cbv zeta.
  set (checks := List.filter _ _). intros H%bool_decide_eq_true. apply (marked (fun t => db_gets auth t (wanted want t))) in H as [(_ & t & id' & Ht & Hid & E)|H].
  - apply list_elem_of_In, filter_In in Ht as [Ht Hr]. apply list_elem_of_In, elem_of_uniq, list_elem_of_fmap in Ht as (w & -> & Hin).
    apply k_inj in E as [-> ->]; [|done|by apply Hw]. by exists id'.
  - by apply (marked (wanted want)) in H as [(? & _)|H].
Qed.

(** *** The input. *)
Definition within_sync (r : ActRequest) (c : Change) : Prop :=
  match sync_fields r with
  | Some fields => model_of c = rq_model r /\ forall f, f ∈ written_fields c -> f ∈ fields
  | None => is_some (readOnlySync m (model_of c)) = true -> is_update c = true /\ forall f, f ∈ written_fields c -> f ∈ local_columns m (model_of c)
  end.
Lemma none_outside (g l : list string) (h : string -> Outcome) : option_map h (List.find (fun f => negb (includes g f)) l) = None -> forall f, f ∈ l -> f ∈ g.
Proof.
  intros H f Hf. destruct (List.find _ l) eqn:E; [done|]. pose proof (find_none _ _ E f) as Hn. cbv beta in Hn. apply includes_spec.
  rewrite <- list_elem_of_In in Hn. specialize (Hn Hf). by apply negb_false_iff.
Qed.
Lemma owned_within (r : ActRequest) (it : Item) : owned_change m r it = None -> within_sync r (it_change it).
Proof.
  unfold owned_change, within_sync. cbv zeta. destruct (sync_fields r) as [fields|].
  - destruct (String.eqb_spec (model_of (it_change it)) (rq_model r)) as [E|]; [|done]. cbn [negb]. intros H. split; [done|]. exact (none_outside _ _ _ H).
  - destruct (readOnlySync m _) as [owner|]; [|done]. destruct (is_update (it_change it)); [|done]. cbn [negb]. intros H _. split; [done|]. exact (none_outside _ _ _ H).
Qed.
Lemma over_budget_sum (l : list Json) (n : Z) : over_budget number_text n l = false -> l <> [] ->
  n + foldr (fun x t => slength (stringify number_text x) + t) 0 l <= ACT_INPUT_BYTES.
Proof.
  revert n. induction l as [|x l IH]; intros n H Hne; [done|]. cbn [over_budget foldr] in *. apply orb_false_iff in H as [H1 H2].
  destruct l as [|y l]; [cbn [foldr]; lia|]. specialize (IH _ H2 ltac:(done)). lia.
Qed.
(** C40. What is decoded is bounded and owned. The rows of a decoded input are at most 4,000 and 8 MiB together and become at most
    10,000 changes; a sync's page changes only its own model and only the fields it read; and in a caller's act a model that a
    read-only sync owns is never created or deleted, and updated only in the local columns its update declares. *)
Theorem decode_bounded (r : ActRequest) spec sel imp key0 (st : Gathered) (upserted : list (option string)) (onFile : dict Row) :
  decode_input number_text text_of date_parse decodes decodeInput m cat mint db_rows r spec sel imp key0 = Go (st, upserted, onFile) ->
  (exists inputs, rows_of_input r imp = Some inputs /\ count inputs <= ACT_ROWS /\
     foldr (fun x t => slength (stringify number_text x) + t) 0 inputs <= ACT_INPUT_BYTES) /\
  count (items st) <= changesPerAct /\ problems st = [] /\ (forall it, it ∈ items st -> within_sync r (it_change it)).
Proof.
  unfold decode_input. destruct (rows_of_input r imp) as [inputs|]; [|done]. cbv zeta. intros H. go H. injection H as <- _ _.
  apply forbid_go in E. apply forbid_go in E0. apply guard_go in E5. apply guard_go in E6. apply forbid_go in E7. split_and!.
  - exists inputs. split_and!; [done|lia|]. destruct inputs as [|x l]; [done|]. by apply (over_budget_sum (x :: l) 0).
  - lia.
  - by destruct (problems _).
  - intros it Hin. apply owned_within. exact (proj1 (first_stop_none _ _) E6 it Hin).
Qed.

(** *** It ends. *)
Definition settles {A} (x : answer A) : Prop := match x with Died _ | Cut => False | _ => True end.
Lemma settles_bind {A B} (x : answer A) (f : A -> answer B) : settles x -> (forall a, x = Go a -> settles (f a)) -> settles (x ≫= f).
Proof. destruct x; cbn [mbind answer_bind]; try done. intros _ H. by apply H. Qed.
Lemma settles_guard (o : option Outcome) : settles (guard o).
Proof. by destruct o. Qed.
Lemma settles_forbid (b : bool) (o : Outcome) : settles (forbid b o).
Proof. by destruct b. Qed.
Hint Resolve settles_guard settles_forbid : core.
Section Ends.
Hypothesis Hclosed : closed cat.
Hypothesis Hprints : prints number_text.
Lemma create_done (model : string) sel v i up nm st : known cat model -> ends (f_create number_text text_of date_parse decodes decodeInput m cat mint model sel v [PAt i] None up nm st).
Proof.
  intros Hm. apply (proj1 (flatten_ends number_text text_of date_parse decodes decodeInput (am_flat m) cat mint no_identity model sel [PAt i] st Hclosed Hprints Hm (Nat.le_0_l _))).
Qed.
Lemma update_done (model : string) sel id v rev i st : known cat model -> ends (f_update number_text text_of date_parse decodes decodeInput m cat mint model sel id v rev [PAt i] None st).
Proof.
  intros Hm. apply (proj2 (flatten_ends number_text text_of date_parse decodes decodeInput (am_flat m) cat mint no_identity model sel [PAt i] st Hclosed Hprints Hm (Nat.le_0_l _))).
Qed.
Definition null_row (r : ActRequest) : Prop :=
  (rq_verb r = VbUpdate \/ rq_verb r = VbDelete) /\ exists l, rq_input r = JArray l /\ JNull ∈ l.
Lemma one_input_ends (r : ActRequest) spec sel key0 imp onFile acc i x : known cat (rq_model r) ->
  (x = JNull -> imp = None -> rq_verb r <> VbUpdate /\ rq_verb r <> VbDelete) -> (imp = None -> rq_verb r <> VbImport /\ rq_verb r <> VbErase) ->
  ends (one_input number_text text_of date_parse decodes decodeInput m cat mint r spec sel key0 imp onFile acc (i, x)).
Proof.
  intros Hm Hx Himp. unfold one_input. destruct acc as [st ups].
  assert (forall v up nm, ends (st' ← f_create number_text text_of date_parse decodes decodeInput m cat mint (rq_model r) sel v [PAt i] None up nm st; Done (st', ups))) as Hc.
  { intros v up nm. destruct (create_done (rq_model r) sel v i up nm st Hm) as [st' E]. rewrite E. by eexists. }
  destruct imp as [[rows [on|] sk dr pr]|]; [by destruct (rq_verb r); apply Hc|by destruct (rq_verb r); apply Hc|].
  assert (rq_verb r = VbUpdate \/ rq_verb r = VbDelete -> forall n, ends (member_of x n)) as Hmem.
  { intros Hv n. destruct x; [by destruct (Hx eq_refl eq_refl), Hv|eexists; reflexivity..]. }
  destruct (rq_verb r) eqn:Ev; [apply Hc| | | |by destruct (Himp eq_refl)|by destruct (Himp eq_refl)].
  - destruct (Hmem (or_introl eq_refl) "target"%string) as [t Et], (Hmem (or_introl eq_refl) "set"%string) as [s Es]. rewrite Et. cbn [mbind run_bind]. rewrite Es. cbn [mbind run_bind].
    destruct (update_done (rq_model r) sel t s (observed_of text_of r t) i st Hm) as [st' E]. rewrite E. by eexists.
  - destruct (Hmem (or_intror eq_refl) "target"%string) as [t Et]. rewrite Et. by eexists.
  - unfold upsert_row. set (o := match x with JObject o => o | _ => [] end).
    assert (forall v up nm u', ends (st' ← f_create number_text text_of date_parse decodes decodeInput m cat mint (rq_model r) sel v [PAt i] None up nm st; Done (st', (u' st' : list (option string))))) as Hcu.
    { intros v up nm u'. destruct (create_done (rq_model r) sel v i up nm st Hm) as [st' E]. rewrite E. by eexists. }
    destruct (get o "id") as [[| | |id| |]|]; try apply Hcu. destruct (_ && _); [by apply Hcu|]. destruct (bool_decide _); [|by eexists].
    match goal with |- context [f_update _ _ _ _ _ _ _ _ ?md ?s ?t ?v ?rv _ _ _] => destruct (update_done md s t v rv i st Hm) as [st' E] end.
    rewrite E. by eexists.
Qed.
Lemma each_ends (f : Gathered * list (option string) -> nat * Json -> run (Gathered * list (option string))) (l : list (nat * Json)) :
  (forall acc x, x ∈ l -> ends (f acc x)) -> forall acc, ends (each_input f acc l).
Proof.
  induction l as [|x l IH]; intros Hf acc; cbn [each_input]; [by eexists|]. destruct (Hf acc x (list_elem_of_here _ _)) as [acc' E]. rewrite E. cbn [mbind run_bind].
  apply IH. intros acc2 y Hy. apply Hf. by apply list_elem_of_further.
Qed.
Lemma importPlan_settles (model : string) (input : Json) (key : list string) : settles (importPlan m decodeWhere model input key).
Proof.
  unfold importPlan. destruct input as [| | | | |o]; try done. destruct (get o "rows") as [[| | | |rows|]|]; try done. cbv zeta.
  repeat (apply settles_bind; [auto|intros _ _]). apply settles_bind; [|done]. destruct (get o "prune") as [w|]; [|done].
  destruct (exposure_of m model ≫= x_delete); [|done]. by destruct (decodeWhere model w).
Qed.
Lemma importRefs_settles (model : string) (rows : list Json) : known cat model -> settles (importRefs text_of m cat keyed model rows).
Proof.
  intros [info Hi]. unfold importRefs. rewrite Hi. apply settles_bind.
  - induction (mi_one info) as [|fr one IH]; cbn [all_wants]; [done|]. apply settles_bind; [|intros w _; by apply settles_bind].
    unfold wants_of. destruct (one_targets (snd fr)) as [|t [|]]; try done. destruct (omap _ _) as [|[n v] l]; [done|]. by destruct (modelKey (am_flat m) t).
  - intros ws _. destruct ws as [|w ws]; [done|]. apply settles_bind; [|done]. generalize (map own_entries rows). induction (w :: ws) as [|w' ws' IH]; intros rs; cbn [fill_all]; [done|].
    apply settles_bind; [|intros rs' _; apply IH]. generalize rs. induction (wt_at w') as [|[n v] at_ IHa]; intros rs2; cbn [fill]; [done|].
    destruct (keyed _ _ _); [apply IHa|done].
Qed.
Lemma decode_settles (r : ActRequest) spec sel imp key0 : known cat (rq_model r) -> ~ null_row r -> (imp = None -> rq_verb r <> VbImport /\ rq_verb r <> VbErase) ->
  settles (decode_input number_text text_of date_parse decodes decodeInput m cat mint db_rows r spec sel imp key0).
Proof.
  intros Hm Hn Himp. unfold decode_input. destruct (rows_of_input r imp) as [inputs|] eqn:Er; [|done]. cbv zeta.
  repeat (apply settles_bind; [by auto|intros _ _]).
  match goal with |- settles (of_run ?R ≫= _) => assert (ends R) as [acc E] end.
  - apply each_ends. intros acc [i x] Hin. apply one_input_ends; [done| |done]. intros -> ->. cbn [rows_of_input] in Er.
    destruct (rq_input r) as [| | | |l|] eqn:Ei; try done. injection Er as ->. apply elem_of_zip_r in Hin.
    split; intros Hv; apply Hn; (split; [by auto|]); by exists inputs.
  - rewrite E. cbn [of_run]. apply settles_bind; [done|]. intros acc' _. repeat (apply settles_bind; [by auto|intros _ _]). done.
Qed.
(** Admission ends. Over a catalog whose relations lead to its models, with numbers that print as decimals, every request for a
    model of the catalog is let through, settled with an outcome or failed with an engine error: the flattener's fuel is never
    spent and nothing is thrown, unless a row of an update or a delete is [null]. *)
Theorem admission_ends (limited : bool) (kept : option Outcome) prune (r : ActRequest) :
  known cat (rq_model r) -> rq_verb r <> VbErase -> ~ null_row r -> settles (run_admission limited kept prune r).
Proof.
  intros Hm Hv Hn. unfold run_admission, admission. repeat (apply settles_bind; [by auto|intros _ _]).
  destruct (exposure_of m (rq_model r)) as [spec|]; [|done]. destruct (accepted_sel m cat r spec) as [sel|]; [|done]. cbv zeta.
  apply settles_bind.
  { unfold plan_import. case_bool_decide; [|done]. apply settles_bind; [apply importPlan_settles|]. intros p _. by apply settles_bind; [apply importRefs_settles|]. }
  intros imp Ei. apply settles_bind.
  { apply decode_settles; [done|done|]. intros ->. split; [|done]. intros E. unfold plan_import in Ei. rewrite bool_decide_eq_true_2 in Ei by done.
    apply bind_go in Ei as (p & _ & Ei). by apply bind_go in Ei as (rows & _ & Ei). }
  intros [[st ups] onFile] _. apply settles_bind; [by auto|intros _ _]. apply settles_bind.
  { destruct (imp ≫= _); [|done]. by destruct (prune _ _ _). }
  intros st' _. unfold judge_batch. cbv zeta. repeat (apply settles_bind; [by auto|intros _ _]). apply settles_bind.
  { destruct (au_admin (auth_of r)); [done|]. by destruct (admit_batch _ _ _ _ _ _ _). }
  intros adm _. by apply settles_bind; [auto|].
Qed.
End Ends.
End Pipeline.
End Pipeline.

(** ** A sample workspace: invoices that a clerk may send, and only a manager may mark paid. *)
Module Desk.
Definition to (l : list string) : StateSpec := MkStateSpec (Some l) None.
Definition status_kind : KindSpec :=
  MkKind "state" false None None false None None None None None None (Some "draft"%string)
    (Some [("draft", to ["sent"]); ("sent", to ["paid"]); ("paid", to [])])%string None None None.
Definition text_kind : KindSpec := kind_only "text".
Definition info : ModelInfo :=
  MkModel "invoice" true [("number", fieldInfo "number" text_kind); ("status", fieldInfo "status" status_kind)]%string [] [] ["number"%string] [] None None None [].
Definition cat : Catalog := MkCatalog [("invoice"%string, info)] [] [] [].
Definition spec_ (kd : KindSpec) : FieldSpec := MkFieldSpec kd None false.
Definition flat : Manifest :=
  Flatten.MkManifest [("invoice"%string, Flatten.MkModelSpec [("number", spec_ text_kind); ("status", spec_ status_kind)]%string (Some ["number"%string]) [])] [] [] [] [].
Definition columns : dict (list string) := [("invoice", ["number"; "status"])]%string.
Definition access : Exposure := MkExposed (Some (MkVerbSpec columns false)) (Some (MkVerbSpec columns false)) None [].
Definition m : ActManifest := MkActManifest flat [("invoice"%string, access)] [] [] [].
Definition clerk : Authority :=
  MkAuthority "a" (ActApiKey "clerk") false ["clerk"%string] None None None None
    [("invoice"%string,
      MkModelAuthority [("default", [("invoice", [MkArm "clerk" (PConst true)])])]%string [] [MkWriteArm "clerk" columns false] [MkWriteArm "clerk" columns false] []
        [("status"%string, Edges ["draft->sent"%string])])] [] (MkCaps [] [] [] []) [] [] [].
Definition row : Row := [("id", JString "i1"); ("number", JString "7"); ("status", JString "sent"); ("revision", JNumber 1%Q)]%string.
Definition db_rows (_ : string) (ids : list string) : list Row := if includes ids "i1" then [row] else [].
Definition db_gets (_ : Authority) (_ : string) (ids : list string) : list string := ids.
Definition joined (_ : string) (_ : list string) (_ : list (list Json)) : list Row := [row].
Definition text_of (j : Json) : string := match j with JString s => s | _ => "?" end.
Definition nt (_ : number) : string := "1".
Definition dp (_ : string) : option number := None.
Definition ok (_ : Codec) (_ : Json) : bool := true.
Definition di (_ : string) (_ : Shape) (_ : Json) : Decoded := MkDecoded [] None [].
Definition mint (n : nat) : string := "new" +:+ digits_of (Z.of_nat n).
Definition no_where (_ : string) (_ : Json) : string + Pred := inl "none"%string.
Definition no_key (_ : string) (_ : list string) (_ : list string) : option string := None.
Definition no_prune (_ : Authority) (_ : Pred) (_ : list Item) : Outcome + list string := inr [].
Definition request (verb : Verb) (input : Json) : ActRequest :=
  MkRequest "invoice" verb input ModeDirect "key" "2026-01-01T10:00:00Z" false clerk (MkBindings "2026-01-01T10:00:05Z" "2026-01-01") [] (Some ConflictUpdate).
Definition ask (r : ActRequest) : answer Admission :=
  admission nt text_of dp ok di m cat mint no_where no_key db_rows db_gets joined false None no_prune r.
Definition paid : Json := JObject [("number", JString "7"); ("status", JString "paid")]%string.
Definition update_paid : ActRequest :=
  request VbUpdate (JArray [JObject [("target", JString "i1"); ("set", JObject [("status", JString "paid")])]])%string.
Definition upsert_paid : ActRequest := request VbUpsert (JArray [paid]).
Definition admitted_ (a : answer Admission) : option (list (Judged * string * Row)) :=
  match a with
  | Go a => Some (map (fun it => (actionOf (ad_pre a) (it_change it), snd (change_row (it_change it)), values_of (it_change it))) (ad_items a))
  | _ => None
  end.

(** Of two arms one refuses and one allows: which is heard first decides, though any [allow] is said to execute. *)
Definition one_refuses (target : string) : GuestOutcome := if String.eqb target "first.invoice.update" then GuestRefused "no" else GuestOk JNull.
Theorem refusal_hides_allow :
  let arms := [MkCheckArm "first" true; MkCheckArm "second" true] in
  judge (fun _ => inr VerdictAllow) (Some one_refuses) "invoice" JUpdate arms =
    Go (true, JudgeDeny (refused_by "no" "first.invoice.update" None None None)) /\
  judge (fun _ => inr VerdictAllow) (Some one_refuses) "invoice" JUpdate (rev arms) = Go (true, JudgeAllow).
Proof. split; reflexivity. Qed.

(** An upsert by the model's key moves a state the caller may not move. The clerk may only send an invoice: an update that marks the
    sent invoice paid is refused, and the upsert that names the same stored invoice by its number is admitted as an update of it that
    sets the state to paid. *)
Theorem upsert_skips_moves :
  ask update_paid = Stop (refused C_forbidden "You may not move status to 'paid'." [PAt 0; PKey "status"]) /\
  admitted_ (ask upsert_paid) = Some [(JUpdate, "i1"%string, [("number", JString "7"); ("status", JString "paid")]%string)] /\
  Access.admitMove clerk "invoice" "status" "sent" "paid" = false.
Proof. vm_compute. split_and!; reflexivity. Qed.

Definition upserted_ : option Admission := match ask upsert_paid with Go a => Some a | _ => None end.
Definition no_admission : Admission := MkAdmission [] [] [] [] None None.
Definition found : Admission := default no_admission upserted_.
Lemma ask_found : ask upsert_paid = Go found.
Proof. vm_compute. reflexivity. Qed.
Lemma cat_closed : closed cat.
Proof.
  intros model i rel many Hi Hr. unfold cat in Hi. cbn [models get] in Hi. destruct (String.eqb "invoice" model); [|done]. by injection Hi as <-.
Qed.
Lemma admission_ends_witness : Pipeline.settles (ask update_paid).
Proof.
  apply (Pipeline.admission_ends nt text_of dp ok di m cat mint no_where no_key db_rows db_gets joined cat_closed (fun _ => eq_refl) false None no_prune update_paid).
  - by exists info.
  - done.
  - intros [_ (l & [= <-] & H)]. apply list_elem_of_singleton in H. discriminate H.
Defined.
(** A [null] row of an update is not refused: reading its target throws. *)
Example null_update : ask (request VbUpdate (JArray [JNull])) = Died (JsError "TypeError" "Cannot read properties of null").
Proof. vm_compute. reflexivity. Qed.
Definition decoded_ := decode_input nt text_of dp ok di m cat mint db_rows upsert_paid access (layers_of m cat (MkVerbSpec columns false) VCreate "invoice") None ["number"%string].
Lemma decode_bounded_witness : match decoded_ with Go (st, _, _) => count (items st) = 1 /\ problems st = [] | _ => False end.
Proof.
  destruct decoded_ as [[[st ups] onFile]| | | |] eqn:E; try (vm_compute in E; discriminate E).
  destruct (Pipeline.decode_bounded nt text_of dp ok di m cat mint db_rows upsert_paid access _ None ["number"%string] st ups onFile E) as (_ & _ & Hp & _).
  split; [|exact Hp]. vm_compute in E. injection E as <- _ _. reflexivity.
Defined.
Lemma readable_is_read_witness : exists id, get row "id" = Some (JString id) /\ Access.readsAny clerk "invoice" = true /\
  id ∈ db_gets clerk "invoice" (wanted [("invoice", "i1")]%string "invoice").
Proof.
  apply (Pipeline.readable_is_read db_gets [("invoice", "i1")]%string clerk "invoice" row); [reflexivity| |reflexivity|vm_compute; reflexivity].
  intros w Hw. apply list_elem_of_singleton in Hw as ->. reflexivity.
Defined.
Definition nt' := Hash.Sample.number_text.
Lemma retry_is_own_witness : let r := upsert_paid in
  stored nt' (fun s => s) (fun _ => Some (1767261600000, digest_text nt' r, KEY_REUSE)) r = Some KEY_REUSE /\ Idempotent.same_key r r.
Proof.
  cbv zeta. assert (stored nt' (fun s => s) (fun _ => Some (1767261600000, digest_text nt' upsert_paid, KEY_REUSE)) upsert_paid = Some KEY_REUSE) as E by (vm_compute; reflexivity).
  split; [exact E|]. assert (Canonical.wf_json (rq_input upsert_paid)) as Hw by (cbn; split_and!; try done; by apply (bool_decide_eq_true_1 _)).
  exact (proj1 (Idempotent.retry_is_own nt' Hash.Sample.number_text_ok Hash.Sample.number_text_chars (fun s => s) _ upsert_paid upsert_paid 1767261600000 KEY_REUSE KEY_REUSE
    (fun a b E => E) Hw Hw eq_refl eq_refl E)).
Defined.
Definition settled (key digest : string) (issued : Z) (id : string) : Settle := MkSettle key digest issued (PendingApproval id []).
Lemma settles_once_witness :
  settle_all (fun _ => false) (MkIdem [] []) [settled "b" "x" 0 "other"; settled "a" "d" 5 "first"; settled "a" "d" 9 "second"; settled "a" "e" 9 "third"] =
    [(true, Some (PendingApproval "other" [])); (true, Some (PendingApproval "first" [])); (false, Some (PendingApproval "first" [])); (false, Some KEY_REUSE)] /\
  exists rs later, settle_all (fun _ => false) (MkIdem [] []) ([settled "b" "x" 0 "other"] ++ settled "a" "d" 5 "first" :: [settled "a" "d" 9 "second"]) =
    rs ++ (true, Some (PendingApproval "first" [])) :: later.
Proof.
  split; [vm_compute; reflexivity|].
  destruct (Idempotent.settles_once (fun _ => false) (MkIdem [] []) [settled "b" "x" 0 "other"] [settled "a" "d" 9 "second"] (settled "a" "d" 5 "first"))
    as (rs & later & E & _ & _); [reflexivity| | |by exists rs, later].
  - intros x ->%list_elem_of_singleton. discriminate.
  - intros x ->%list_elem_of_singleton _. unfold DAY, HOUR. cbn. lia.
Defined.
End Desk.
