(* ===== verification/Planning.v ===== *)
(** The planning half of the act pipeline: [plan] of [packages/bolt/src/engine/write/act.ts] around the workspace's own code.
    The policies' checks per verb, what a write callback may answer, the upserts of a level, the writes with their defaults and model
    rules, custom values, the approval that may hold them, the locks on owned parents, and the advice a record's page asks
    for ([recordCapabilities]). The guest's answers and the database's are arguments. *)
From S2P Require Import Prelude Ir Catalog Contracts Hash Eval Authority Outcomes Flatten Admission.

(** ** What a write callback answers: [answerOf]. *)

Inductive Carried :=
| CarriedCreate (model : string) (index : nat) (row : Json)
| CarriedUpdate (model : string) (index : nat) (target set_ : option Json) (observed : option number).
Record Answer := MkAnswer { an_rows : list Json; an_with : list Carried; an_onApproved : list Carried }.
Definition record (v : Json) : option (dict Json) := match v with JObject o => Some o | _ => None end.
Definition BAD_ROWS (verb : Judged) : string :=
  match verb with JDelete => "a delete check returns no rows, only with and onApproved" | _ => "a write callback returns one payload per input" end.
Definition rows_fit (verb : Judged) (rows : Json) (count : nat) : bool :=
  match verb with
  | JDelete => match rows with JNull => true | _ => false end
  | _ => match rows with JArray l => (length l =? count)%nat | _ => false end
  end.
Definition carried_update (key model : string) (ix : nat * Json) : string + Carried :=
  let at_ := key +:+ "." +:+ model +:+ ".update[" +:+ dec_of (Z.of_nat (fst ix)) +:+ "]" in
  match record (snd ix) with
  | None => inl (at_ +:+ " is { target, set, observed? }")
  | Some change =>
      match get change "observed" with
      | None => inr (CarriedUpdate model (fst ix) (get change "target") (get change "set") None)
      | Some (JNumber n) => inr (CarriedUpdate model (fst ix) (get change "target") (get change "set") (Some n))
      | Some _ => inl (at_ +:+ ".observed is a revision number")
      end
  end.
Fixpoint all_right {A B} (f : A -> string + B) (l : list A) : string + list B :=
  match l with
  | [] => inr []
  | x :: l' =>
      match f x with
      | inl e => inl e
      | inr y => match all_right f l' with inl e => inl e | inr ys => inr (y :: ys) end
      end
  end.
Definition list_or_empty (v : option Json) : option (list Json) :=
  match v with None => Some [] | Some (JArray l) => Some l | Some _ => None end.
Definition carried_model (key : string) (ms : string * Json) : string + list Carried :=
  let bad := key +:+ "." +:+ fst ms +:+ " holds create and update lists" in
  match record (snd ms) with
  | None => inl bad
  | Some spec =>
      match list_or_empty (get spec "create"), list_or_empty (get spec "update") with
      | Some create, Some update =>
          if forallb (fun n => String.eqb n "create" || String.eqb n "update") (keys spec) then
            match all_right (carried_update key (fst ms)) (indexed update) with
            | inl e => inl e
            | inr us => inr (map (fun ix => CarriedCreate (fst ms) (fst ix) (snd ix)) (indexed create) ++ us)
            end
          else inl bad
      | _, _ => inl bad
      end
  end.
Definition carried_group (whole : option (dict Json)) (key : string) : string + list Carried :=
  match (w ← whole; get w key) with
  | None => inr []
  | Some declared =>
      match record declared with
      | None => inl (key +:+ " maps a model to its creates and updates")
      | Some d => match all_right (carried_model key) d with inl e => inl e | inr ls => inr (concat ls) end
      end
  end.
Definition answerOf (verb : Judged) (output : Json) (count : nat) : string + Answer :=
  let whole := record output in
  let rows := match whole with None => output | Some o => default JNull (get o "rows") end in
  if rows_fit verb rows count then
    match carried_group whole "with" with
    | inl e => inl e
    | inr w =>
        match carried_group whole "onApproved" with
        | inl e => inl e
        | inr a => inr (MkAnswer match rows with JArray l => l | _ => [] end w a)
        end
    end
  else inl (BAD_ROWS verb).

(** ** The writes. *)

Inductive WriteOp := WCreate (values_ : Row) | WUpdate (set_ : Row) (revision : option number) | WDelete (revision : option number).
Record Write := MkWrite { w_model : string; w_id : string; w_op : WriteOp }.
Definition w_key (w : Write) : string := k (w_model w) (w_id w).
Record OwnedLock := MkLock { ol_child : string; ol_parent : string; ol_field : string; ol_states : list string; ol_ids : list string }.
(** What a model rule refuses. *)
Record Broken := MkBroken { br_code : Code; br_message : string; br_field : string }.

(** ** Steps of the plan.

    A step goes on, halts with an outcome (and whether guest code ran, so that the outcome is recorded), fails, or dies. *)
Inductive step (A : Type) := Next (a : A) | Halt (guest : bool) (o : Outcome) | Breaks (e : BoltError) | Throws (e : jserror).
Arguments Next {A} _.
Arguments Halt {A} _ _.
Arguments Breaks {A} _.
Arguments Throws {A} _.
#[export] Instance step_ret : MRet step := fun A a => Next a.
#[export] Instance step_bind : MBind step :=
  fun A B f x => match x with Next a => f a | Halt g o => Halt g o | Breaks e => Breaks e | Throws e => Throws e end.
Definition of_throwing {A} (o : outcome A) : step A := match o with Ok a => Next a | Throw e => Throws e end.
Definition halt_if {A} (b : bool) (guest : bool) (o : Outcome) (s : step A) : step A := if b then Halt guest o else s.

(** An open request's state; why a record or a field is not writable; what a check answers before any change. *)
Inductive HeldState := HeldPending | HeldChanges.
#[export] Instance HeldState_eq_dec : EqDecision HeldState. Proof. solve_decision. Defined.
Inductive Reason := NoGrant | StateLocked | SyncOwned | OwnedParent | OwnedParentLocked | UnderApproval.
#[export] Instance Reason_eq_dec : EqDecision Reason. Proof. solve_decision. Defined.
Inductive Gate := GateAllow | GateApprove | GateDeny.
#[export] Instance Gate_eq_dec : EqDecision Gate. Proof. solve_decision. Defined.

Section Planning.
Context (number_text : number -> string) (text_of : Json -> string) (date_parse : string -> option number).
(** The evaluator's mathematics and its requestor variables, as [Eval] takes them. *)
Context (sin cos asin sqrt : number -> number) (operandValue : string -> Authority -> outcome Json).
Context (m : ActManifest) (cat : Catalog) (toPred : string -> Json -> Pred) (clock : string -> option Json).
(** Whether a custom field kind declares a check, and whether a model declares a computed field. *)
Context (custom_checked : string -> bool) (computed : string -> string -> bool).

(** *** The evaluator's environment: a rule reaches one record by a single reference, stored or created by the act. *)
Record Env := MkEnv { en_pre : dict Row; en_created : dict Row; en_bindings : Eval.Bindings; en_authority : Authority }.
Definition created_rows (its : list Item) : dict Row :=
  fold_left (fun d it => match it_change it with
                         | Create model id _ v | Upsert model id _ v _ _ => set d (k model id) (set v "id" (JString id))
                         | _ => d
                         end) its [].
Definition related (e : Env) (c rel target : string) (row : Row) : outcome (list Row) :=
  match (i ← get (models cat) c; get (mi_one i) rel) with
  | None => Throw (JsError "unsupported" ("a model rule cannot scope through many-relation '" +:+ rel +:+ "'"))
  | Some _ =>
      Ok match get row rel with
         | Some (JString id) =>
             match or_else (get (en_pre e) (k target id)) (get (en_created e) (k target id)) with Some hit => [hit] | None => [] end
         | _ => []
         end
  end.
Definition holds (e : Env) (model : string) (p : Pred) (row : Row) : outcome bool :=
  (Eval.eval sin cos asin sqrt operandValue cat (en_bindings e) (Some (en_authority e)) (related e) model p row).
Definition LOCKED_MESSAGE : string := "This record is locked and cannot be changed.".
(** [modelLock]. *)
Definition modelLock (e : Env) (model : string) (row : Row) : outcome bool :=
  match get (am_locked m) model with None => Ok false | Some locked => holds e model (toPred model locked) row end.

(** *** [modelRules]: on an update's changed fields. *)
Definition flat_rel (key : string) : option Relationship := get (mf_relationships (am_flat m)) key.
Definition is_owned (model fk : string) : bool := match flat_rel (model +:+ "." +:+ fk) with Some r => rs_owned r | None => false end.
(** [String(row[field] ?? '')] and [String(row[field])]. *)
Definition text_or_empty (v : option Json) : string := match v with None | Some JNull => "" | Some v => text_of v end.
Definition bad_transition (model : string) (row set_ : Row) (nf : string * FieldSpec) : option Broken :=
  let field := fst nf in
  if String.eqb (k_kind (fs_kind (snd nf))) "enum" then
    match get (am_transitions m) (model +:+ "." +:+ field), get set_ field with
    | Some transitions, Some v =>
        let from := text_or_empty (get row field) in
        let next := text_of v in
        if negb (String.eqb from next) && negb (includes (default [] (get transitions from)) next)
        then Some (MkBroken C_invalidInput ("'" +:+ from +:+ "' cannot move to '" +:+ next +:+ "'.") field) else None
    | _, _ => None
    end
  else None.
Definition states_of (spec : FieldSpec) : dict StateSpec := default [] (k_states (fs_kind spec)).
(** A model's state field with its states. *)
Definition state_spec (model : string) : option (string * FieldSpec) :=
  List.find (fun nf => String.eqb (k_kind (fs_kind (snd nf))) "state") (model_fields m model).
Definition edges_from (spec : FieldSpec) (from : string) : list string := match (s ← get (states_of spec) from; st_to s) with Some l => l | None => [] end.
Definition edit_of (spec : FieldSpec) (from : string) : Edit := match (s ← get (states_of spec) from; st_edit s) with Some e => e | None => EditAll end.
Definition edit_allows (e : Edit) (f : string) : bool := match e with EditAll => true | EditNone => false | EditFields l => includes l f end.
Definition state_rules (model : string) (row set_ : Row) : option Broken :=
  match state_spec model with
  | None => None
  | Some (state, spec) =>
      let from := undefined_text text_of (get row state) in
      match (v ← get set_ state; if includes (edges_from spec from) (text_of v) then None else Some v) with
      | Some v => Some (MkBroken C_invalidInput ("'" +:+ from +:+ "' cannot move to '" +:+ text_of v +:+ "'.") state)
      | None =>
          option_map (fun f => MkBroken C_locked ("The record is locked while " +:+ state +:+ " is '" +:+ from +:+ "'.") f)
            (List.find (fun f => negb (String.eqb f state) && negb (edit_allows (edit_of spec from) f)) (keys set_))
      end
  end.
Definition field_rules (model : string) (row set_ : Row) : option Broken :=
  match first_some (bad_transition model row set_) (model_fields m model) with
  | Some b => Some b
  | None =>
      match List.find (is_owned model) (keys set_) with
      | Some fk => Some (MkBroken C_invalidInput "An owned record never changes its parent." fk)
      | None => state_rules model row set_
      end
  end.
Definition modelRules (e : Env) (model : string) (row set_ : Row) : outcome (option Broken) :=
  locked ← modelLock e model row;
  Ok (if (locked : bool) then Some (MkBroken C_locked LOCKED_MESSAGE "id") else field_rules model row set_).

(** *** The tree a check or a callback is handed: [payload]. *)
Definition part_eqb (p q : Part) : bool := bool_decide (p = q).
Fixpoint is_prefix (p q : InputPath) : bool :=
  match p, q with [], _ => true | x :: p', y :: q' => part_eqb x y && is_prefix p' q' | _ :: _, [] => false end.
Definition descendants (item root : Item) : bool :=
  (length (change_path (it_change root)) <? length (change_path (it_change item)))%nat &&
  is_prefix (change_path (it_change root)) (change_path (it_change item)).
(** How many relation actions a path goes through: an action followed by a row. *)
Fixpoint path_depth (p : InputPath) : nat :=
  match p with
  | PKey a :: ((PAt _ :: _) as rest) => ((if includes ACTIONS a then 1 else 0) + path_depth rest)%nat
  | _ :: rest => path_depth rest
  | [] => 0%nat
  end.
Definition depth (it : Item) : nat := path_depth (change_path (it_change it)).
Definition last_action (p : InputPath) : option string :=
  first_some (fun x => match x with PKey a => if includes ACTIONS a then Some a else None | PAt _ => None end) (rev p).
Definition children_of (its : list Item) (it : Item) : list Item :=
  List.filter (fun one =>
    match it_parent one with
    | Some p => String.eqb (k (pr_model p) (pr_id p)) (k (model_of (it_change it)) (snd (change_row (it_change it)))) &&
                (depth one =? S (depth it))%nat && descendants one it
    | None => false
    end) its.
Definition list_of (v : option Json) : list Json := match v with Some (JArray l) => l | _ => [] end.
Definition object_of (v : option Json) : dict Json := match v with Some (JObject o) => o | _ => [] end.
Definition entry_of (action : string) (child : Item) (sub : Row) : Json :=
  let id := snd (change_row (it_change child)) in
  if String.eqb action "update" then JObject [("target", JString id); ("set", JObject sub)]%string
  else if String.eqb action "upsert" then JObject (spread [("id"%string, JString id)] sub)
  else if includes ["delete"; "link"; "unlink"]%string action then JString id
  else JObject sub.
Definition is_create (c : Change) : bool := match c with Create _ _ _ _ => true | _ => false end.
Definition own_values (it : Item) (nested : bool) : Row :=
  match it_change it, it_parent it with
  | Delete _ _ _ _, _ => []
  | Update _ _ _ set_ _, _ => set_
  | c, Some p => if nested then without_key (pr_fk p) (values_of c) else values_of c
  | c, None => values_of c
  end.
Definition add_child (it : Item) (sub : Item -> Row) (vs : Row) (child : Item) : Row :=
  match it_parent child, last_action (change_path (it_change child)) with
  | Some p, Some action =>
      let rel := pr_rel p in
      let entry := entry_of action child (sub child) in
      if is_create (it_change it) then set vs rel (JArray (list_of (get vs rel) ++ [entry]))
      else let group := object_of (get vs rel) in
           set vs rel (JObject (set group action (JArray (list_of (get group action) ++ [entry]))))
  | _, _ => vs
  end.
Fixpoint payload (fuel : nat) (its : list Item) (nested : bool) (it : Item) : Row :=
  match it_change it with
  | Delete _ _ _ _ => []
  | _ =>
      match fuel with
      | O => own_values it nested
      | S fuel' => fold_left (add_child it (payload fuel' its true)) (children_of its it) (own_values it nested)
      end
  end.
Definition tree_of (its : list Item) (it : Item) : Json :=
  let vs := payload (length its) its false it in
  JObject (if is_upsert (it_change it) then without_key "id" vs else vs).

(** *** Step 6: the checks of each verb's batch, as submitted. [before] are the stored trees of the roots, [judged] the verdict
    on a batch. *)
Context (before : Judged -> list Item -> list (option Json)) (judged : Judged -> list CheckArm -> list Json -> answer (bool * Judgement)).
Definition is_root (it : Item) : bool := negb (is_some (it_parent it)).
Definition roots_of (pre : dict Row) (verb : Judged) (its : list Item) : list Item :=
  List.filter (fun it => is_root it && bool_decide (actionOf pre (it_change it) = verb)) its.
Fixpoint batch_input (verb : Judged) (its : list Item) (guest : bool) (l : list (Item * option Json)) : step (list Json) :=
  match l with
  | [] => Next []
  | (it, stored) :: l' =>
      let add := fun j => rest ← batch_input verb its guest l'; Next (j :: rest) in
      match verb, stored with
      | JCreate, _ => add (tree_of its it)
      | _, (None | Some JNull) => Halt guest (refused C_notFound "The record does not exist." (change_path (it_change it)))
      | JUpdate, Some b => add (JObject [("before", b); ("set", tree_of its it)]%string)
      | JDelete, Some b => add b
      end
  end.
(** A denial's row indexes the batch; the refusal names the input's row. *)
Definition input_row (roots : list Item) (o : Outcome) : Outcome :=
  match o with
  | OutRefused r =>
      match rf_row r with
      | None => o
      | Some n =>
          let at_ := it ← (if n <? 0 then None else roots !! Z.to_nat n); row_of (it_change it) in
          OutRefused (MkRefused (rf_code r) (rf_message r) (rf_field r) (rf_path r) at_ (rf_rows r) (rf_rule r) (rf_requestId r))
      end
  | o => o
  end.
Definition SPLIT : Outcome := refused C_approvalSplit "The rows in one act require different approval flows." [].
Definition judge_verb (its : list Item) (pre : dict Row) (admitted : Admitted_) (acc : bool * option Json) (verb : Judged) : step (bool * option Json) :=
  let '(runs, flow) := acc in
  let roots := roots_of pre verb its in
  match vget admitted verb, roots with
  | Some arms, _ :: _ =>
      input ← batch_input verb its runs (map (fun ni => (snd ni, mjoin (before verb roots !! fst ni))) (numbered roots));
      match judged verb arms input with
      | Go (guest, verdict) =>
          let runs := runs || guest in
          match verdict with
          | JudgeDeny o => Halt runs (input_row roots o)
          | JudgeAllow => Next (runs, flow)
          | JudgeApprove f =>
              match flow with
              | Some f' => if String.eqb (canonical number_text f') (canonical number_text f) then Next (runs, Some f) else Halt runs SPLIT
              | None => Next (runs, Some f)
              end
          end
      | Stop o => Halt runs o
      | Fails e => Breaks e
      | Died e => Throws e
      | Cut => Throws (JsError "Error" "")
      end
  | _, _ => Next acc
  end.
Definition judge_verbs (its : list Item) (pre : dict Row) (admitted : option Admitted_) : step (bool * option Json) :=
  match admitted with
  | None => Next (false, None)
  | Some a => acc ← judge_verb its pre a (false, None) JCreate; acc ← judge_verb its pre a acc JUpdate; judge_verb its pre a acc JDelete
  end.

(** *** The upserts of one level, resolved before its callbacks.

    [found] is the stored row an upsert's key matches. A root of an import also obeys the import's own options. *)
Inductive Resolved := ResRefuse (o : Outcome) | ResDrop (id : string) (action : string) | ResChange (c : Change) (action : string).
(** [Number(row['revision'])]; a stored row has one. *)
Definition row_revision (row : Row) : option number := match get row "revision" with Some (JNumber n) => Some n | _ => None end.
Definition resolved_values (c : Change) (found : bool) : Row :=
  List.filter (fun kv => negb (String.eqb (fst kv) "id") && (negb found || negb (includes (upsert_on (MkItem c [] [] None None false)) (fst kv)))) (values_of c).
Definition keeps_stored (c : Change) : bool := match c with Upsert _ _ _ _ _ ConflictKeep => true | _ => false end.
Definition resolve_upsert (auth : Authority) (visibility : dict bool) (imp : option ImportPlan) (sync : bool) (it : Item) (found : option Row) : Resolved :=
  let c := it_change it in
  let path := change_path c in
  let top := is_root it in
  let root := match imp with Some p => if top then Some p else None | None => None end in
  let refuse_stored := match root with Some p => bool_decide (ip_onConflict p = Some ImportRefuse) | None => false end in
  match found with
  | Some row =>
      if (top && negb (readableBy auth visibility (model_of c) row)) || refuse_stored
      then ResRefuse (refused C_unique "A record with these values already exists." path)
      else if keeps_stored c then ResDrop (row_id text_of row) "kept"
      else ResChange (Update (model_of c) (row_id text_of row) path (resolved_values c true) (row_revision row)) "updated"
  | None =>
      if bool_decide (upsert_on it = ["id"%string]) && negb sync then ResRefuse (refused C_notFound ("No " +:+ model_of c +:+ " has this id.") (path ++ [PKey "id"]))
      else if match root with Some p => ip_skip p | None => false end then ResDrop "" "skipped"
      else ResChange (Create (model_of c) (snd (change_row c)) path (resolved_values c false)) "created"
  end.
(** A resolved upsert's children hang off the stored row. *)
Definition rehang (model previous id : string) (root it : Item) : Item :=
  if descendants it root then reparent model previous id it else it.
Definition level_of (n : nat) (its : list Item) : list (nat * Item) := List.filter (fun ni => (depth (snd ni) =? n)%nat) (numbered its).

(** *** Step 7: the writes. *)
Record Plans := MkPlans { pn_writes : list (Write * Item); pn_unchanged : list (string * string) }.
Definition deleted_ids (its : list Item) : list string :=
  omap (fun it => match it_change it with Delete model id _ _ => Some (k model id) | _ => None end) its.
Definition initial_of (model : string) : option string := match state_spec model with Some (_, spec) => k_initial (fs_kind spec) | None => None end.
Definition stop_broken (guest sync : bool) (path : InputPath) (b : Broken) : option Outcome :=
  if sync && bool_decide (br_code b = C_locked) then None else Some (refused (br_code b) (br_message b) (path ++ [PKey (br_field b)])).
Definition plan_create (actor : EngineActor) (guest : bool) (it : Item) (model id : string) (path : InputPath) (values : Row) (acc : Plans) : step Plans :=
  match get (mf_models (am_flat m)) model, get (models cat) model with
  | Some spec, Some info =>
      let '(values, missing) := withDefaults (am_flat m) clock spec info model values actor in
      match missing with
      | Some f => Halt guest (refused C_required (f +:+ " is required.") (path ++ [PKey f]))
      | None =>
          let created := Next (MkPlans (pn_writes acc ++ [(MkWrite model id (WCreate values), it)]) (pn_unchanged acc)) in
          match stateField m model, initial_of model with
          | None, _ => created
          | Some state, Some i =>
              if is_id (get values state) i then created else Halt guest (refused C_invalidInput ("A new record starts in '" +:+ i +:+ "'.") (path ++ [PKey state]))
          | Some state, None => match get values state with None => created | Some _ => Halt guest (refused C_invalidInput "A new record starts in 'undefined'." (path ++ [PKey state])) end
          end
      end
  | _, _ => Throws (JsError "TypeError" "Cannot read properties of undefined")
  end.
Definition plan_update (e : Env) (guest sync : bool) (it : Item) (model id : string) (path : InputPath) (set_ : Row) (revision : option number) (row : Row) (acc : Plans) : step Plans :=
  if match revision with Some v => negb match row_revision row with Some n => Qeq_bool v n | None => false end | None => false end
  then Halt guest (OutConflict [MkConflictRecord model id []])
  else
    let changes := changed number_text date_parse row set_ in
    match changes with
    | [] => Next (MkPlans (pn_writes acc) (pn_unchanged acc ++ [(model, id)]))
    | _ =>
        broken ← of_throwing (modelRules e model row changes);
        match broken ≫= stop_broken guest sync path with
        | Some o => Halt guest o
        | None => Next (MkPlans (pn_writes acc ++ [(MkWrite model id (WUpdate changes (row_revision row)), it)]) (pn_unchanged acc))
        end
    end.
Definition plan_item (e : Env) (guest sync : bool) (deleted : list string) (acc : Plans) (it : Item) : step Plans :=
  let c := it_change it in
  let path := change_path c in
  let key := k (model_of c) (snd (change_row c)) in
  let is_delete := match c with Delete _ _ _ _ => true | _ => false end in
  if negb is_delete && includes deleted key
  then Halt guest (refused C_invalidInput "A row deleted in this act cannot also be changed (deletedInAct)." path)
  else
    match c with
    | Upsert _ _ _ _ _ _ => Breaks (BoltError_make C_internal PCommit "An unresolved upsert reached the commit planner." NoCause)
    | Create model id _ values => plan_create (au_actor (en_authority e)) guest it model id path values acc
    | Update model id _ set_ revision =>
        match get (en_pre e) key with
        | None => Halt guest (refused C_notFound "The record does not exist." path)
        | Some row => plan_update e guest sync it model id path set_ revision row acc
        end
    | Delete model id _ _ =>
        match get (en_pre e) key with
        | None => Halt guest (refused C_notFound "The record does not exist." path)
        | Some row =>
            locked ← of_throwing (modelLock e model row);
            if (locked : bool) then Halt guest (refused C_locked LOCKED_MESSAGE path)
            else Next (MkPlans (pn_writes acc ++ [(MkWrite model id (WDelete (row_revision row)), it)]) (pn_unchanged acc))
        end
    end.
Fixpoint plan_items (e : Env) (guest sync : bool) (deleted : list string) (acc : Plans) (its : list Item) : step Plans :=
  match its with [] => Next acc | it :: its' => acc ← plan_item e guest sync deleted acc it; plan_items e guest sync deleted acc its' end.
Definition plan_writes (e : Env) (guest sync : bool) (its : list Item) : step Plans := plan_items e guest sync (deleted_ids its) (MkPlans [] []) its.

(** *** Custom values: [validateCustom].

    The values of every custom field whose kind declares a check, per kind, each with where the input gave it. *)
Definition values_in (w : Write) : Row := match w_op w with WCreate v => v | WUpdate s _ => s | WDelete _ => [] end.
Definition custom_kind (model f : string) : option (string * bool) :=
  match get (model_fields m model) f with
  | Some spec =>
      if String.eqb (k_kind (fs_kind spec)) "custom" then
        match k_of (fs_kind spec) with Some (JString of_) => if custom_checked of_ then Some (of_, k_many (fs_kind spec)) else None | _ => None end
      else None
  | None => None
  end.
Definition custom_values (wi : Write * Item) (fv : string * Json) : list (string * (Json * InputPath)) :=
  match snd fv with
  | JNull => []
  | v =>
      match custom_kind (w_model (fst wi)) (fst fv) with
      | None => []
      | Some (of_, many) =>
          let path := change_path (it_change (snd wi)) ++ [PKey (fst fv)] in
          match many, v with true, JArray l => map (fun x => (of_, (x, path))) l | _, v => [(of_, (v, path))] end
      end
  end.
Definition all_custom (ws : list (Write * Item)) : list (string * (Json * InputPath)) :=
  flat_map (fun wi => flat_map (custom_values wi) (values_in (fst wi))) ws.
Definition of_kind (l : list (string * (Json * InputPath))) (of_ : string) : list (Json * InputPath) :=
  map snd (List.filter (fun ov => String.eqb (fst ov) of_) l).
(** [validate] is the guest's answer for a kind: a failure, a refusal, or a list whose texts are messages. *)
Definition value_path (vs : list (Json * InputPath)) (i : nat) : InputPath := match vs !! i with Some vp => snd vp | None => [] end.
Fixpoint validate_kinds (guest : option (string -> list Json -> GuestOutcome)) (l : list (string * (Json * InputPath))) (kinds : list string) : answer (option Outcome) :=
  match kinds with
  | [] => Go None
  | of_ :: kinds' =>
      let vs := of_kind l of_ in
      match guest with
      | None => Fails (BoltError_make C_noGuest PGuest "this host runs no guest code" NoCause)
      | Some invoke =>
          match invoke of_ (map fst vs) with
          | GuestFailed error => o ← guestFailure error; Go (Some o)
          | GuestRefused message => Go (Some (refused C_invalidInput message (value_path vs 0)))
          | GuestOk output =>
              let out := match output with JArray l => l | _ => [] end in
              match find_index Flatten.is_string out with
              | Some i => Go (Some (refused C_invalidInput (match out !! i with Some x => text_of x | None => "" end) (value_path vs i)))
              | None => validate_kinds guest l kinds'
              end
          end
      end
  end.
Definition validateCustom (guest : option (string -> list Json -> GuestOutcome)) (ws : list (Write * Item)) : answer (option Outcome) :=
  let l := all_custom ws in validate_kinds guest l (uniq (map fst l)).

(** *** Step 8: open approval requests.

    [Holder] is an open request that holds one of the records a write touches. *)
Record Holder_ := MkHolding { hd_id : string; hd_state : HeldState; hd_requester : bool; hd_model : string; hd_record : string; hd_action : Judged }.
Definition APPROVED : string := "$onApproved".
Definition has_key (key : string) (p : InputPath) : bool := existsb (part_eqb (PKey key)) p.
Definition w_judged (w : Write) : Judged := match w_op w with WCreate _ => JCreate | WUpdate _ _ => JUpdate | WDelete _ => JDelete end.
Definition same_row (w : Write) (c : Change) : bool := String.eqb (w_model w) (model_of c) && String.eqb (w_id w) (snd (change_row c)).
(** The writes, and the root updates of a caller that changed nothing themselves. *)
Definition checked_writes (admin : bool) (pre : dict Row) (submitted : list Item) (ws : list (Write * Item)) : list (Write * Item) :=
  fold_left (fun acc it =>
    let c := it_change it in
    if negb admin && is_root it && is_update c && negb (existsb (fun wi => same_row (fst wi) c) acc) then
      match get pre (k (model_of c) (snd (change_row c))) with
      | Some row => acc ++ [(MkWrite (model_of c) (snd (change_row c)) (WUpdate [] (row_revision row)), it)]
      | None => acc
      end
    else acc) submitted ws.
(** The records whose requests a write may join: its own row, and each owned parent the act does not create. *)
Definition held_refs (pre : dict Row) (ws checked : list (Write * Item)) : list (string * string) :=
  let fresh := omap (fun wi => if bool_decide (w_judged (fst wi) = JCreate) then Some (w_key (fst wi)) else None) ws in
  flat_map (fun wi =>
    let w := fst wi in
    (if bool_decide (w_judged w = JCreate) then [] else [(w_model w, w_id w)]) ++
    match get (models cat) (w_model w) with
    | None => []
    | Some info =>
        omap (fun fr =>
          let parent := match w_op w with WCreate v => get v (fst fr) | _ => row ← get pre (w_key w); get row (fst fr) end in
          match parent, one_targets (snd fr) with
          | Some (JString id), target :: _ => if is_owned (w_model w) (fst fr) && negb (includes fresh (k target id)) then Some (target, id) else None
          | _, _ => None
          end) (mi_one info)
    end) checked.
Inductive Holding := Plain | Joined | Resubmits (h : Holder_) | Routes (root : Write) (flow : Json).
Definition READ_GUARDED : Outcome := refused C_locked "A guarded automation write cannot join or resubmit an existing approval request." [].
Definition TWO_REQUESTS : Outcome := refused C_approvalSplit "One act cannot resubmit several approval requests." [].
Definition NO_ROOT : Outcome := refused C_forbidden "No root record admits this approval." [].
(** The writes that go on, and what becomes of the approval. *)
Definition hold_writes (held : list Holder_) (ws : list (Write * Item)) : list (Write * Item) :=
  match held with [] => ws | _ => List.filter (fun wi => negb (has_key APPROVED (change_path (it_change (snd wi))))) ws end.
Definition approval_of (guest guarded wired : bool) (model : string) (flow : option Json) (held : list Holder_) (ws checked : list (Write * Item)) : step Holding :=
  let ws := hold_writes held ws in
  let saving := List.filter (fun h => bool_decide (hd_state h = HeldChanges) && hd_requester h) held in
  if guarded && negb (length held =? 0)%nat then Halt guest READ_GUARDED
  else
    match saving with
    | _ :: _ :: _ => Halt guest TWO_REQUESTS
    | [h] => if wired then Next (Resubmits h) else Breaks (BoltError_make C_noApproval PAdmission "No approval flow is wired." NoCause)
    | [] =>
        match held, flow with
        | [], Some flow =>
            if wired then
              match List.find (fun wi => is_root (snd wi) && String.eqb (model_of (it_change (snd wi))) model) checked, ws with
              | Some (root, _), _ :: _ => Next (Routes root flow)
              | _, _ => Halt guest NO_ROOT
              end
            else Breaks (BoltError_make C_noApproval PAdmission "No approval flow is wired." NoCause)
        | [], None => Next Plain
        | _ :: _, _ => Next Joined
        end
    end.

(** *** [ownedLocks]: the parents whose state must still admit a child's write. *)
Definition admits_children (inverse : string) (spec : StateSpec) : bool :=
  match default EditAll (st_edit spec) with EditAll => true | EditNone => false | EditFields l => includes l inverse end.
Definition admitting_states (spec : FieldSpec) (inverse : string) : list string :=
  map fst (List.filter (fun ns => admits_children inverse (snd ns)) (states_of spec)).
Definition created_keys (ws : list Write) : list string :=
  omap (fun w => match w_op w with WCreate _ => Some (w_key w) | _ => None end) ws.
(** The parent a write's foreign key names: its model, inverse, state field with its states, and id. *)
Definition locked_parent (created : list string) (pre : dict Row) (w : Write) (fr : string * OneRel) : option (string * string * (string * FieldSpec) * string) :=
  inverse ← get (am_inverse m) (w_model w +:+ "." +:+ fst fr);
  parent ← head (one_targets (snd fr));
  v ← match w_op w with WCreate v => get v (fst fr) | _ => row ← get pre (w_key w); get row (fst fr) end;
  state ← state_spec parent;
  match v with
  | JString id => if is_owned (w_model w) (fst fr) && negb (includes created (k parent id)) then Some (parent, inverse, state, id) else None
  | _ => None
  end.
Definition lock_key (l : OwnedLock) (inverse : string) : string := ol_parent l +:+ "." +:+ inverse.
Definition add_id (l : OwnedLock) (id : string) : OwnedLock :=
  MkLock (ol_child l) (ol_parent l) (ol_field l) (ol_states l) (if includes (ol_ids l) id then ol_ids l else ol_ids l ++ [id]).
Definition add_lock (child : string) (locks : dict OwnedLock) (p : string * string * (string * FieldSpec) * string) : dict OwnedLock :=
  let '(parent, inverse, (state, spec), id) := p in
  let key := parent +:+ "." +:+ inverse in
  let lock := default (MkLock child parent state (admitting_states spec inverse) []) (get locks key) in
  set locks key (add_id lock id).
Definition locked_parents (created : list string) (pre : dict Row) (w : Write) : list (string * string * (string * FieldSpec) * string) :=
  match get (models cat) (w_model w) with Some info => omap (locked_parent created pre w) (mi_one info) | None => [] end.
Definition ownedLocks (ws : list Write) (pre : dict Row) : list OwnedLock :=
  values (fold_left (fun locks w => fold_left (add_lock (w_model w)) (locked_parents (created_keys ws) pre w) locks) ws []).

(** ** What a record's page may do: [recordCapabilities]. *)
Record Permission := MkPermission { pm_writable : bool; pm_proposal : bool; pm_reasons : list Reason }.
Record Operation := MkOperation { op_allowed : bool; op_proposal : bool; op_reasons : list Reason }.
Record Capabilities_ := MkCapabilities {
  cp_revision : number; cp_fields : dict Permission; cp_update : Operation; cp_delete : Operation;
  cp_moves : dict (list string); cp_proposalMoves : dict (list string) }.
Fixpoint dedup (l : list Reason) : list Reason :=
  match l with [] => [] | x :: l' => x :: List.filter (fun y => negb (bool_decide (x = y))) (dedup l') end.
Definition gate_of (j : Judgement) : Gate := match j with JudgeAllow => GateAllow | JudgeApprove _ => GateApprove | JudgeDeny _ => GateDeny end.
(** [opened]: what the checks answer for the stored record before any change. [probe] is the verdict of the arms on it. *)
Definition opened (auth : Authority) (hosts_guest : bool) (probe : list CheckArm -> answer (bool * Judgement)) (arms : list CheckArm) (stored : option Json) : answer Gate :=
  if au_admin auth then Go GateAllow
  else match arms with
       | [] => Go GateDeny
       | _ =>
           if existsb (fun arm => negb (ca_check arm)) arms then Go GateAllow
           else if negb hosts_guest then Go GateDeny
           else match stored with None | Some JNull => Go GateDeny | Some _ => v ← probe arms; Go (gate_of (snd v)) end
       end.
Definition update_checks (auth : Authority) (model : string) : list CheckArm := map check_of (arms_of auth model JUpdate).
Definition delete_checks (auth : Authority) (model : string) : list CheckArm := map (fun a => MkCheckArm (da_policy a) (da_check a)) (delete_arms auth model).

(** Where a record is edited: its own access point, or its parent's relation. *)
Record Place := MkPlace {
  pc_path : string; pc_owner : string; pc_gate : Gate; pc_reasons : list Reason; pc_fk : option string; pc_freeLink : bool;
  pc_unlink : bool; pc_deleteDeclared : bool }.
Definition declared_columns (model : string) : dict (list string) :=
  match (x ← exposure_of m model; x_update x) with Some v => vs_columns v | None => [] end.
Definition covered (auth : Authority) (pc : Place) (at_ : string) (field : option string) : bool :=
  has_own (declared_columns (pc_owner pc)) at_ &&
  (au_admin auth ||
   existsb (fun arm => has_own (wa_columns arm) at_ &&
              match field with None => true | Some f => includes (default [] (get (wa_columns arm) at_)) f end) (arms_of auth (pc_owner pc) JUpdate)).
Definition is_fk (pc : Place) (field : string) : bool := match pc_fk pc with Some f => String.eqb f field | None => false end.
Definition granted_field (auth : Authority) (pc : Place) (field : string) : bool :=
  if pc_freeLink pc then is_fk pc field && covered auth pc (pc_path pc) None
  else if is_fk pc field then pc_unlink pc && covered auth pc (pc_path pc) None
  else includes (default [] (get (declared_columns (pc_owner pc)) (pc_path pc))) field && covered auth pc (pc_path pc) (Some field).
Definition parents_locked (pre : dict Row) (locks : list OwnedLock) : bool :=
  existsb (fun l => existsb (fun id => negb (includes (ol_states l)
    (match get pre (k (ol_parent l) id) with Some row => undefined_text text_of (get row (ol_field l)) | None => "undefined" end))) (ol_ids l)) locks.
Definition restrictions_of (pre : dict Row) (model id : string) (row : Row) (underApproval : bool) : list Reason :=
  (if parents_locked pre (ownedLocks [MkWrite model id (WUpdate [] (row_revision row))] pre) then [OwnedParentLocked] else []) ++
  (if underApproval then [UnderApproval] else []).
Definition remote_fields (model : string) : list string :=
  match readOnlySync m model with
  | None => []
  | Some _ => List.filter (fun f => negb (includes (local_columns m model) f)) (keys (model_fields m model))
  end.
Definition transitions_of (model : string) (row : Row) : list string :=
  match state_spec model with Some (state, spec) => edges_from spec (undefined_text text_of (get row state)) | None => [] end.
Definition moves_of (auth : Authority) (model : string) (row : Row) : list string :=
  match state_spec model with
  | Some (state, spec) => List.filter (Access.admitMove auth model state (undefined_text text_of (get row state))) (transitions_of model row)
  | None => []
  end.
Definition advise (g : Gate) (reasons : list Reason) : Permission :=
  MkPermission (bool_decide (reasons = []) && bool_decide (g = GateAllow)) (bool_decide (reasons = []) && bool_decide (g = GateApprove))
    (dedup (if bool_decide (g = GateAllow) then reasons else reasons ++ [NoGrant])).
Definition is_locked (b : option Broken) : bool := match b with Some b => bool_decide (br_code b = C_locked) | None => false end.
Definition field_reasons (e : Env) (pc : Place) (model : string) (row : Row) (base : list Reason) (field : string) : outcome (list Reason) :=
  let auth := en_authority e in
  let is_state := bool_decide (stateField m model = Some field) in
  lock ← (if is_state then
            Ok match moves_of auth model row with [] => [if (length (transitions_of model row) =? 0)%nat then StateLocked else NoGrant] | _ => [] end
          else b ← modelRules e model row [(field, default JNull (get row field))]; Ok (if is_locked b then [StateLocked] else []));
  Ok (base ++ (if granted_field auth pc field then [] else [NoGrant]) ++ (if includes (remote_fields model) field then [SyncOwned] else []) ++
      (if negb (is_fk pc field) && is_owned model field then [OwnedParent] else []) ++ lock).
Definition known_field (model field : string) : bool :=
  is_some (get (model_fields m model) field) || computed model field || is_some (flat_rel (model +:+ "." +:+ field)).
Definition relation_under (path at_ : string) : option string := child_rel path at_.
Definition relation_reasons (e : Env) (pc : Place) (model : string) (row : Row) (base : list Reason) (at_ rel : string) : outcome (list Reason) :=
  b ← modelRules e model row [(rel, JNull)];
  Ok (base ++ (if covered (en_authority e) pc at_ None then [] else [NoGrant]) ++ (if is_locked b then [StateLocked] else [])).
Definition has_relation (model rel : string) : bool := match get (models cat) model with Some info => is_some (get (mi_many info) rel) | None => false end.
Definition capabilities (e : Env) (pc : Place) (model : string) (visible row : Row) (revision : number) (restrictions : list Reason) (deleteGate : Gate)
    : outcome Capabilities_ :=
  let base := restrictions ++ pc_reasons pc in
  own ← map_outcome (fun f => r ← field_reasons e pc model row base f; Ok (f, advise (pc_gate pc) r)) (List.filter (known_field model) (keys visible));
  rels ← map_outcome (fun ar => r ← relation_reasons e pc model row base (fst ar) (snd ar); Ok (snd ar, advise (pc_gate pc) r))
           (omap (fun at_ => rel ← relation_under (pc_path pc) at_; if has_relation model rel then Some (at_, rel) else None)
              (keys (declared_columns (pc_owner pc))));
  let fields := spread (spread [] own) rels in
  let advice := values fields in
  let updateReasons := base ++ (if existsb pm_writable advice then [] else [NoGrant]) in
  let deleteReasons := base ++ (if pc_deleteDeclared pc && bool_decide (deleteGate = GateAllow) then [] else [NoGrant]) in
  let state_is := fun p : Permission -> bool => match stateField m model with Some s => match get fields s with Some x => p x | None => false end | None => false end in
  let name := default "" (stateField m model) in
  Ok (MkCapabilities revision fields
        (MkOperation (bool_decide (updateReasons = [])) (bool_decide (restrictions = []) && existsb pm_proposal advice) (dedup updateReasons))
        (MkOperation (bool_decide (deleteReasons = [])) (pc_deleteDeclared pc && bool_decide (deleteGate = GateApprove) && bool_decide (base = [])) (dedup deleteReasons))
        (if state_is pm_writable then [(name, moves_of (en_authority e) model row)] else [])
        (if state_is pm_proposal then [(name, transitions_of model row)] else [])).
(** A record opened at its own access point. *)
Definition own_place (model : string) (g : Gate) : Place :=
  MkPlace model model match (x ← exposure_of m model; x_update x) with Some _ => g | None => GateDeny end [] None false false
    match (x ← exposure_of m model; x_delete x) with Some _ => true | None => false end.
(** A child opened under its parent: the parent's permission on the relation gates it. *)
Definition child_place (parent relation : string) (permission : Permission) (column : string) (model : string) (row : Row) (parent_id : string) : option Place :=
  let owned := is_owned model column in
  let free := nullish (get row column) && negb owned in
  if negb (is_id (get row column) parent_id) && negb free then None
  else Some (MkPlace (parent +:+ "." +:+ relation) parent
               (if pm_writable permission then GateAllow else if pm_proposal permission then GateApprove else GateDeny)
               (List.filter (fun r => negb (bool_decide (r = NoGrant))) (pm_reasons permission)) (Some column) free
               (negb owned && match flat_rel (model +:+ "." +:+ column) with Some r => rs_optional r | None => false end) (negb free)).
End Planning.

(** ** The model rules. *)
Module Rules.
Lemma find_none_iff {A} (p : A -> bool) (l : list A) : List.find p l = None <-> forall x, x ∈ l -> p x = false.
Proof.
  split; [intros H x Hx; apply (find_none _ _ H); by apply list_elem_of_In|]. induction l as [|y l IH]; intros H; cbn [List.find]; [done|].
  rewrite (H y) by (by left). apply IH. intros x Hx. apply H. by right.
Qed.
Section Rules.
Context (text_of : Json -> string) (m : ActManifest).
(** The fields a state lets be edited: all, none, or those it lists. *)
Definition lets_edit (e : Edit) (f : string) : Prop := match e with EditAll => True | EditNone => False | EditFields l => f ∈ l end.
Lemma edit_allows_spec (e : Edit) (f : string) : edit_allows e f = true <-> lets_edit e f.
Proof. destruct e as [| |l]; [done..|]. apply includes_spec. Qed.
(** What an update may do to a row: each declared transition, no owned parent, each state edge, and only the fields the state lets
    be edited. *)
Record lawful (model : string) (row set_ : Row) : Prop := MkLawful {
  lw_transition : forall field spec transitions v, (field, spec) ∈ model_fields m model -> k_kind (fs_kind spec) = "enum"%string ->
    get (am_transitions m) (model +:+ "." +:+ field) = Some transitions -> get set_ field = Some v ->
    text_or_empty text_of (get row field) = text_of v \/ text_of v ∈ default [] (get transitions (text_or_empty text_of (get row field)));
  lw_owned : forall fk, fk ∈ keys set_ -> is_owned m model fk = false;
  lw_state : forall state spec, state_spec m model = Some (state, spec) ->
    (forall v, get set_ state = Some v -> text_of v ∈ edges_from spec (undefined_text text_of (get row state))) /\
    (forall f, f ∈ keys set_ -> f <> state -> lets_edit (edit_of spec (undefined_text text_of (get row state))) f) }.

Lemma bad_transition_none (model : string) (row set_ : Row) (field : string) (spec : FieldSpec) : bad_transition text_of m model row set_ (field, spec) = None <->
  (forall transitions v, k_kind (fs_kind spec) = "enum"%string -> get (am_transitions m) (model +:+ "." +:+ field) = Some transitions -> get set_ field = Some v ->
    text_or_empty text_of (get row field) = text_of v \/ text_of v ∈ default [] (get transitions (text_or_empty text_of (get row field)))).
Proof.
  unfold bad_transition. cbn [fst snd]. destruct (String.eqb_spec (k_kind (fs_kind spec)) "enum") as [E|E]; [|by split; [intros _ ? ? ?|]].
  destruct (get (am_transitions m) _) as [tr|]; [|by split; [intros _ ? ? _ [=]|]]. destruct (get set_ field) as [v|]; [|by split; [intros _ ? ? _ _ [=]|]]. cbv zeta.
  destruct (String.eqb_spec (text_or_empty text_of (get row field)) (text_of v)) as [Et|Et]; cbn [negb andb].
  - split; [|done]. intros _ tr' v' _ [= <-] [= <-]. by left.
  - destruct (includes _ _) eqn:Ei; cbn [negb]; split; try done.
    + intros _ tr' v' _ [= <-] [= <-]. right. by apply includes_spec.
    + intros H. destruct (H tr v E eq_refl eq_refl) as [?|Hin]; [done|]. apply includes_spec in Hin. by rewrite Hin in Ei.
Qed.
Lemma state_rules_none (model : string) (row set_ : Row) : state_rules text_of m model row set_ = None <->
  forall state spec, state_spec m model = Some (state, spec) ->
    (forall v, get set_ state = Some v -> text_of v ∈ edges_from spec (undefined_text text_of (get row state))) /\
    (forall f, f ∈ keys set_ -> f <> state -> lets_edit (edit_of spec (undefined_text text_of (get row state))) f).
Proof.
  unfold state_rules. destruct (state_spec m model) as [[state spec]|]; [|by split; [intros _ ? ? [=]|]]. cbv zeta.
  set (from := undefined_text text_of (get row state)).
  assert (option_map (fun f => MkBroken C_locked ("The record is locked while " +:+ state +:+ " is '" +:+ from +:+ "'.") f)
            (List.find (fun f => negb (String.eqb f state) && negb (edit_allows (edit_of spec from) f)) (keys set_)) = None <->
          forall f, f ∈ keys set_ -> f <> state -> lets_edit (edit_of spec from) f) as Hedit.
  { setoid_rewrite <- edit_allows_spec. transitivity (List.find (fun f => negb (String.eqb f state) && negb (edit_allows (edit_of spec from) f)) (keys set_) = None); [by destruct (List.find _ _)|].
    rewrite find_none_iff. split; intros H f Hf.
    - intros Hne. specialize (H f Hf). apply andb_false_iff in H as [H|H]; apply negb_false_iff in H; [by apply String.eqb_eq in H|done].
    - destruct (String.eqb_spec f state) as [|Hne]; [done|]. by rewrite (H f Hf Hne). }
  destruct (get set_ state) as [v|] eqn:Eg; cbn [mbind option_bind].
  - destruct (includes (edges_from spec from) (text_of v)) eqn:Ei.
    + rewrite Hedit. split; [|by intros H; apply (H state spec eq_refl)]. intros H st sp [= <- <-]. split; [|done]. intros v'. rewrite Eg. intros [= <-]. by apply includes_spec.
    + split; [done|]. intros H. destruct (H state spec eq_refl) as [Hv _]. specialize (Hv v Eg). fold from in Hv. apply includes_spec in Hv. by rewrite Hv in Ei.
  - rewrite Hedit. split; [|by intros H; apply (H state spec eq_refl)]. intros H st sp [= <- <-]. split; [|done]. intros v'. by rewrite Eg.
Qed.
Lemma rules_exact_spec (model : string) (row set_ : Row) : field_rules text_of m model row set_ = None <-> lawful model row set_.
Proof.
  unfold field_rules. destruct (first_some _ _) as [b|] eqn:E1.
  - split; [done|]. intros [H1 _ _]. exfalso.
    assert (first_some (bad_transition text_of m model row set_) (model_fields m model) = None) as Hn; [|congruence].
    apply first_some_none. intros [field spec] Hin. apply bad_transition_none. intros tr v Hk Ht Hv. by apply (H1 field spec tr v).
  - rewrite first_some_none in E1. destruct (List.find (is_owned m model) (keys set_)) as [fk|] eqn:E2.
    + apply find_some in E2 as [Hin Ho]. split; [done|]. intros [_ H2 _]. apply list_elem_of_In in Hin. by rewrite (H2 fk Hin) in Ho.
    + rewrite find_none_iff in E2. rewrite state_rules_none. split.
      * intros H. constructor; [|done|done]. intros field spec tr v Hin. by apply (proj1 (bad_transition_none model row set_ field spec) (E1 _ Hin)).
      * by intros [].
Qed.
(** C37. An update passes the model's rules exactly when it is lawful: every enum it moves has the transition, no owned record changes
    its parent, the state moves along a declared edge, and every other field it changes is one the state it is in lets be edited. *)
Theorem rules_exact (model : string) (row set_ : Row) : field_rules text_of m model row set_ = None <-> lawful model row set_.
Proof. exact (rules_exact_spec model row set_). Qed.
End Rules.
End Rules.

(** ** The planned writes. *)
Module Writes.
Section Writes.
Context (number_text : number -> string) (text_of : Json -> string) (date_parse : string -> option number).
Context (sin cos asin sqrt : number -> number) (operandValue : string -> Authority -> outcome Json).
Context (m : ActManifest) (cat : Catalog) (toPred : string -> Json -> Pred) (clock : string -> option Json) (e : Env) (sync : bool).
Let rules := modelRules text_of sin cos asin sqrt operandValue m cat toPred e.
Let lock := modelLock sin cos asin sqrt operandValue m cat toPred e.
Let planned_item (guest : bool) := plan_item number_text text_of date_parse sin cos asin sqrt operandValue m cat toPred clock e guest sync.
Let planned_items (guest : bool) := plan_items number_text text_of date_parse sin cos asin sqrt operandValue m cat toPred clock e guest sync.

(** What a planned write promises of the change it carries out. *)
Definition conforms (wi : Write * Item) : Prop :=
  let '(w, it) := wi in
  (w_model w, w_id w) = change_row (it_change it) /\
  match w_op w, it_change it with
  | WCreate v, Create model _ _ given =>
      (exists spec info, get (mf_models (am_flat m)) model = Some spec /\ get (models cat) model = Some info /\
         withDefaults (am_flat m) clock spec info model given (au_actor (en_authority e)) = (v, None)) /\
      forall state, stateField m model = Some state -> get v state = option_map JString (initial_of m model)
  | WUpdate s revision, Update model id _ set_ seen =>
      exists row, get (en_pre e) (k model id) = Some row /\ s = changed number_text date_parse row set_ /\ s <> [] /\ revision = row_revision row /\
        (forall v, seen = Some v -> exists n, row_revision row = Some n /\ (v == n)%Q) /\
        exists broken, rules model row s = Ok broken /\ (broken = None \/ sync = true /\ is_locked broken = true)
  | WDelete revision, Delete model id _ _ =>
      exists row, get (en_pre e) (k model id) = Some row /\ revision = row_revision row /\ lock model row = Ok false
  | _, _ => False
  end.
Definition restates (it : Item) : Prop :=
  match it_change it with
  | Update model id _ set_ _ => exists row, get (en_pre e) (k model id) = Some row /\ changed number_text date_parse row set_ = []
  | _ => False
  end.
Definition is_delete (c : Change) : bool := match c with Delete _ _ _ _ => true | _ => false end.
Definition grown (acc p : Plans) (it : Item) : Prop :=
  (exists w, p = MkPlans (pn_writes acc ++ [(w, it)]) (pn_unchanged acc) /\ conforms (w, it)) \/
  (p = MkPlans (pn_writes acc) (pn_unchanged acc ++ [change_row (it_change it)]) /\ restates it).

Lemma of_throwing_next {A} (o : outcome A) (a : A) : of_throwing o = Next a -> o = Ok a.
Proof. destruct o; [by intros [= ->]|done]. Qed.
Lemma step_next {A B} (x : step A) (f : A -> step B) (b : B) : (x ≫= f) = Next b -> exists a, x = Next a /\ f a = Next b.
Proof. destruct x; cbn [mbind step_bind]; intros H; try done. eauto. Qed.
Lemma stop_broken_none (guest : bool) (path : InputPath) (broken : option Broken) : broken ≫= stop_broken guest sync path = None ->
  broken = None \/ sync = true /\ is_locked broken = true.
Proof.
  destruct broken as [b|]; [|by left]. cbn [mbind option_bind]. unfold stop_broken, is_locked. destruct sync; cbn [andb]; [|done].
  destruct (bool_decide (br_code b = C_locked)); [by right|done].
Qed.
Lemma plan_item_next (guest : bool) (deleted : list string) (acc p : Plans) (it : Item) : planned_item guest deleted acc it = Next p ->
  grown acc p it /\ (is_delete (it_change it) = false -> k (fst (change_row (it_change it))) (snd (change_row (it_change it))) ∉ deleted).
Proof.
  unfold planned_item, plan_item. cbv zeta. destruct it as [c sup refs par bel att]. cbn [it_change].
  destruct (negb (match c with Delete _ _ _ _ => true | _ => false end) && includes deleted (k (model_of c) (snd (change_row c)))) eqn:Ed; [done|].
  intros H. split; [|intros Hc; destruct c; try done; cbn [negb andb] in Ed; by apply includes_false].
  destruct c as [model id path values|model id path values on how|model id path set_ seen|model id path seen]; [|done| |].
  - unfold plan_create in H. destruct (get (mf_models (am_flat m)) model) as [spec|] eqn:Es; [|done]. destruct (get (models cat) model) as [info|] eqn:Ei; [|done].
    destruct (withDefaults _ _ _ _ _ _ _) as [v [f|]] eqn:Ew; [done|]. cbv zeta in H. left. eexists.
    assert (forall q, q = Next p -> q = Next (MkPlans (pn_writes acc ++ [(MkWrite model id (WCreate v), MkItem (Create model id path values) sup refs par bel att)]) (pn_unchanged acc)) ->
      p = MkPlans (pn_writes acc ++ [(MkWrite model id (WCreate v), MkItem (Create model id path values) sup refs par bel att)]) (pn_unchanged acc)) as Hq by (intros q -> [= ->]; done).
    assert ((forall state, stateField m model = Some state -> get v state = option_map JString (initial_of m model)) ->
      conforms (MkWrite model id (WCreate v), MkItem (Create model id path values) sup refs par bel att)) as Hc.
    { intros Hst. split; [done|]. cbn [w_op it_change]. split; [by exists spec, info|done]. }
    destruct (stateField m model) as [state|] eqn:Est.
    + destruct (initial_of m model) as [i|] eqn:Ein.
      * destruct (is_id (get v state) i) eqn:Eid; [|done]. split; [by injection H|]. apply Hc. intros st [= <-]. unfold is_id in Eid.
        destruct (get v state) as [[| | |s| |]|]; try done. apply String.eqb_eq in Eid as ->. done.
      * destruct (get v state) eqn:Eg; [done|]. split; [by injection H|]. apply Hc. intros st [= <-]. done.
    + split; [by injection H|]. apply Hc. done.
  - destruct (get (en_pre e) _) as [row|] eqn:Er; [|done]. unfold plan_update in H.
    destruct (match seen with Some v => _ | None => _ end) eqn:Eseen; [done|]. cbv zeta in H. destruct (changed number_text date_parse row set_) as [|x l] eqn:Ec.
    + right. injection H as <-. split; [done|]. cbn. by exists row.
    + left. apply step_next in H as (broken & Hb & H). apply of_throwing_next in Hb. destruct (broken ≫= _) as [o|] eqn:Eo; [done|]. injection H as <-.
      eexists. split; [done|]. split; [done|]. cbn [w_op it_change]. exists row. split_and!; try done.
      * intros v ->. destruct (row_revision row) as [n|]; [|done]. exists n. split; [done|]. apply negb_false_iff in Eseen. by apply Qeq_bool_iff.
      * exists broken. split; [exact Hb|]. by apply (stop_broken_none guest path).
  - destruct (get (en_pre e) _) as [row|] eqn:Er; [|done]. apply step_next in H as (locked & Hl & H). apply of_throwing_next in Hl.
    destruct locked; [done|]. injection H as <-. left. eexists. split; [done|]. split; [done|]. cbn [w_op it_change]. by exists row.
Qed.
Definition accounted (p : Plans) (it : Item) : Prop := (exists w, (w, it) ∈ pn_writes p) \/ (change_row (it_change it) ∈ pn_unchanged p /\ restates it).
Lemma plan_items_next (guest : bool) (deleted : list string) (its : list Item) (acc p : Plans) : planned_items guest deleted acc its = Next p ->
  (exists ws us, p = MkPlans (pn_writes acc ++ ws) (pn_unchanged acc ++ us) /\ Forall conforms ws /\ (length ws + length us = length its)%nat /\
     map snd ws `sublist_of` its) /\
  (forall it, it ∈ its -> accounted p it) /\
  (forall it, it ∈ its -> is_delete (it_change it) = false -> k (fst (change_row (it_change it))) (snd (change_row (it_change it))) ∉ deleted).
Proof.
  revert acc. induction its as [|it its IH]; intros acc; unfold planned_items; cbn [plan_items].
  - intros [= <-]. split; [exists [], []; rewrite !app_nil_r; split_and!; [by destruct acc|constructor|done|constructor]|]. split; by intros ? ?%elem_of_nil.
  - intros H. apply step_next in H as (acc' & Hi & H). apply plan_item_next in Hi as [Hg Hd]. fold (planned_items guest) in H.
    destruct (IH acc' H) as ((ws & us & -> & Hws & Hlen & Hsub) & Hacc & Hdel).
    assert (forall x : Plans, grown acc x it -> accounted (MkPlans (pn_writes x ++ ws) (pn_unchanged x ++ us)) it) as Hx.
    { intros x [(w & -> & _)|[-> Hr]]; [left; exists w|right]; cbn [pn_writes pn_unchanged]; [set_solver|split; [set_solver|done]]. }
    split; [|split].
    + destruct Hg as [(w & -> & Hc)|[-> Hr]]; cbn [pn_writes pn_unchanged].
      * exists ((w, it) :: ws), us. rewrite <- !app_assoc. split_and!; [done|by constructor|cbn; lia|by constructor].
      * exists ws, (change_row (it_change it) :: us). rewrite <- !app_assoc. split_and!; [done|done|cbn; lia|by constructor].
    + intros it' [->|Hin]%elem_of_cons; [by apply Hx|]. destruct (Hacc it' Hin) as [(w & Hw)|[Hu Hr]]; [by left; exists w|by right].
    + intros it' [->|Hin]%elem_of_cons; [done|by apply Hdel].
Qed.
Lemma plan_sound_spec (guest : bool) (its : list Item) (p : Plans) :
  plan_writes number_text text_of date_parse sin cos asin sqrt operandValue m cat toPred clock e guest sync its = Next p ->
  Forall conforms (pn_writes p) /\ (length (pn_writes p) + length (pn_unchanged p) = length its)%nat /\ map snd (pn_writes p) `sublist_of` its /\
  (forall it, it ∈ its -> accounted p it) /\
  (forall it it', it ∈ its -> it' ∈ its -> is_delete (it_change it) = true -> is_delete (it_change it') = false ->
     change_row (it_change it) <> change_row (it_change it')).
Proof.
  unfold plan_writes. intros H. apply plan_items_next in H as ((ws & us & -> & Hws & Hlen & Hsub) & Hacc & Hdel). cbn [pn_writes pn_unchanged app] in *.
  split_and!; [done|done|done|done|]. intros it it' Hin Hin' Hd Hd' Heq. apply (Hdel it' Hin' Hd'). unfold deleted_ids. apply list_elem_of_omap.
  exists it. split; [done|]. destruct (it_change it); try done. cbn [change_row] in Heq. by rewrite <- Heq.
Qed.
(** C11. A plan carries out the batch, all of it and nothing else. Each change becomes one write of the row it names or restates what is
    stored, in the batch's order; a created row has its required values and starts in its initial state; an updated row is stored, at
    the revision the change was made from, and changes only what differs, within the model's rules, from which a sync's
    write to a locked row is exempt; a deleted row is stored and not locked; and no row deleted in the act is also changed by it. *)
Theorem plan_sound (guest : bool) (its : list Item) (p : Plans) :
  plan_writes number_text text_of date_parse sin cos asin sqrt operandValue m cat toPred clock e guest sync its = Next p ->
  Forall conforms (pn_writes p) /\ (length (pn_writes p) + length (pn_unchanged p) = length its)%nat /\ map snd (pn_writes p) `sublist_of` its /\
  (forall it, it ∈ its -> accounted p it) /\
  (forall it it', it ∈ its -> it' ∈ its -> is_delete (it_change it) = true -> is_delete (it_change it') = false ->
     change_row (it_change it) <> change_row (it_change it')).
Proof. exact (plan_sound_spec guest its p). Qed.
End Writes.

(** *** The life of a state.

    A store holds each model's rows; a commit applies the planned writes to it. *)
Section Life.
Context (text_of : Json -> string) (date_parse : string -> option number) (number_text : number -> string).
Context (sin cos asin sqrt : number -> number) (operandValue : string -> Authority -> outcome Json).
Context (m : ActManifest) (cat : Catalog) (toPred : string -> Json -> Pred) (clock : string -> option Json).
(** [String] of a text is the text. *)
Hypothesis Hstring : forall s, text_of (JString s) = s.
Definition Store := string -> string -> option Row.
Definition apply_write (st : Store) (w : Write) : Store := fun model id =>
  if String.eqb model (w_model w) && String.eqb id (w_id w) then
    match w_op w with WCreate v => Some v | WUpdate s _ => option_map (fun row => spread row s) (st model id) | WDelete _ => None end
  else st model id.
Definition applied (ws : list (Write * Item)) (st : Store) : Store := fold_left (fun st wi => apply_write st (fst wi)) ws st.
Context (model state : string) (spec : FieldSpec) (start : string).
Hypothesis Hstate : state_spec m model = Some (state, spec).
Hypothesis Hstart : k_initial (fs_kind spec) = Some start.
Inductive reachable_state : string -> Prop :=
| state_starts : reachable_state start
| state_moves from to : reachable_state from -> to ∈ edges_from spec from -> reachable_state to.
Definition in_machine (st : Store) : Prop := forall id row, st model id = Some row -> reachable_state (undefined_text text_of (get row state)).

Lemma locked_rules (row s : Row) (b : Broken) : field_rules text_of m model row s = Some b -> br_code b = C_locked ->
  forall v, get s state = Some v -> text_of v ∈ edges_from spec (undefined_text text_of (get row state)).
Proof.
  unfold field_rules. destruct (first_some _ _) as [b'|] eqn:E.
  - intros [= ->] Hc. exfalso. clear -E Hc. induction (model_fields m model) as [|nf l IH]; cbn [first_some] in E; [done|].
    destruct (bad_transition text_of m model row s nf) as [b'|] eqn:Eb; [|by apply IH]. injection E as ->. unfold bad_transition in Eb.
    destruct (String.eqb _ _); [|done]. destruct (get _ _); [|done]. destruct (get s _); [|done]. cbv zeta in Eb. destruct (_ && _); [|done]. injection Eb as <-. done.
  - destruct (List.find _ _); [by intros [= <-]|]. unfold state_rules. rewrite Hstate. cbv zeta. intros H Hc v Hv. rewrite Hv in H. cbn [mbind option_bind] in H.
    destruct (includes _ _) eqn:Ei; [by apply includes_spec|]. injection H as <-. done.
Qed.
Lemma conforms_edge (e : Env) (sync : bool) (row s : Row) (broken : option Broken) : sync = false \/ get (am_locked m) model = None ->
  modelRules text_of sin cos asin sqrt operandValue m cat toPred e model row s = Ok broken -> broken = None \/ sync = true /\ is_locked broken = true ->
  forall v, get s state = Some v -> text_of v ∈ edges_from spec (undefined_text text_of (get row state)).
Proof.
  intros Hs. unfold modelRules. destruct (modelLock _ _ _ _ _ _ _ _ _ _ _) as [locked|err] eqn:El; [|done]. cbn [mbind outcome_bind]. intros [= <-] Hb v Hv.
  destruct locked.
  - destruct Hb as [?|[-> _]]; [done|]. destruct Hs as [?|Hs]; [done|]. unfold modelLock in El. by rewrite Hs in El.
  - destruct Hb as [Hb|[_ Hb]].
    + apply Rules.rules_exact_spec in Hb as [_ _ Hst]. by apply (Hst state spec Hstate).
    + destruct (field_rules _ _ _ _ _) as [b|] eqn:Ef; [|done]. apply bool_decide_eq_true in Hb. by apply (locked_rules row s b Ef Hb).
Qed.
(** What a write does to a row's state: it starts, moves along an edge, or stays. *)
Lemma write_in_machine (e : Env) (sync : bool) (wi : Write * Item) (st0 st : Store) :
  sync = false \/ get (am_locked m) model = None -> in_machine st0 -> in_machine st ->
  (forall id row, get (en_pre e) (k model id) = Some row -> st0 model id = Some row) ->
  (forall id path set_ seen, it_change (snd wi) = Update model id path set_ seen -> wf_dict set_) ->
  conforms number_text text_of date_parse sin cos asin sqrt operandValue m cat toPred clock e sync wi -> in_machine (apply_write st (fst wi)).
Proof.
  intros Hs H0 Hst Hpre Hwf Hc id row. destruct wi as [w it]. cbn [fst snd] in *. unfold apply_write.
  destruct (String.eqb_spec model (w_model w)) as [Em|_]; cbn [andb]; [|by apply Hst]. destruct (String.eqb_spec id (w_id w)) as [Ei|_]; [|by apply Hst].
  destruct Hc as [Hrow Hc]. destruct (w_op w) as [v|s revision|revision]; [| |done].
  - intros [= <-]. destruct (it_change it) as [mdl i path given| | |]; try done. destruct Hc as [_ Hi]. cbn [change_row] in Hrow.
    assert (mdl = model) as -> by congruence.
    assert (stateField m model = Some state) as Hf by (pose proof Hstate as Hx; unfold state_spec in Hx; unfold stateField; by rewrite Hx).
    rewrite (Hi state Hf). unfold initial_of. rewrite Hstate, Hstart. cbn [option_map undefined_text]. rewrite Hstring. constructor.
  - destruct (it_change it) as [| |mdl i path set_ seen|]; try done. destruct Hc as (prow & Hp & Hsd & _ & _ & _ & broken & Hb & Hbr). cbn [change_row] in Hrow.
    assert (mdl = model) as -> by congruence. assert (i = id) as -> by congruence.
    destruct (st model id) as [row0|] eqn:E0; [|done]. cbn [option_map]. intros [= <-].
    assert (wf_dict s) as Hws.
    { rewrite Hsd. unfold changed. apply Canonical.keys_filter. by apply (Hwf id path set_ seen). }
    rewrite get_spread by done. destruct (get s state) as [v|] eqn:Ev; [|by apply (Hst id)].
    cbn [undefined_text]. apply (state_moves (undefined_text text_of (get prow state))); [by apply (H0 id), Hpre|]. by apply (conforms_edge e sync prow s broken).
Qed.
(** C8. A record lives inside its state machine. If every stored row of a model is in a state its declared machine reaches from the
    initial one, so is every row after a planned act commits, whatever the act creates, updates and deletes: a new row starts in
    the initial state and a stored one moves along a declared edge. A sync's act is covered only where the model declares no lock:
    on a model with one it can leave the machine ([Office.sync_leaves_machine]). *)
Theorem states_reachable (e : Env) (guest sync : bool) (its : list Item) (p : Plans) (st : Store) :
  plan_writes number_text text_of date_parse sin cos asin sqrt operandValue m cat toPred clock e guest sync its = Next p ->
  sync = false \/ get (am_locked m) model = None ->
  (forall it id path set_ seen, it ∈ its -> it_change it = Update model id path set_ seen -> wf_dict set_) ->
  (forall id row, get (en_pre e) (k model id) = Some row -> st model id = Some row) ->
  in_machine st -> in_machine (applied (pn_writes p) st).
Proof.
  intros Hp Hs Hwf Hpre H0. apply plan_sound_spec in Hp as (Hc & _ & Hsub & _). unfold applied.
  assert (forall wi, wi ∈ pn_writes p -> snd wi ∈ its) as Hin.
  { intros wi Hwi. eapply elem_of_sublist; [|exact Hsub]. apply list_elem_of_fmap. by exists wi. }
  enough (forall cur, in_machine cur -> in_machine (fold_left (fun st wi => apply_write st (fst wi)) (pn_writes p) cur)) as H by (by apply H). clear Hsub.
  induction (pn_writes p) as [|wi ws IH]; intros cur Hcur; cbn [fold_left]; [done|].
  apply Forall_cons in Hc as [Hw Hc]. apply IH; [done|intros wj Hj; apply Hin; by apply list_elem_of_further|].
  eapply write_in_machine; [exact Hs|exact H0|exact Hcur|exact Hpre| |exact Hw]. intros id path set_ seen E. eapply Hwf; [|exact E]. apply Hin. by left.
Qed.
End Life.
End Writes.

(** ** The checks, the approval and the locks of a plan. *)
Module Plan.
Section Plan.
Context (number_text : number -> string) (m : ActManifest) (cat : Catalog).
Context (before : Judged -> list Item -> list (option Json)) (judged : Judged -> list CheckArm -> list Json -> answer (bool * Judgement)).
(** A verb of the act that its arms judged, on the batch its roots give. *)
Definition verb_verdict (its : list Item) (pre : dict Row) (a : Admitted_) (verb : Judged) (v : Judgement) : Prop :=
  exists arms guest runs input, vget a verb = Some arms /\ roots_of pre verb its <> [] /\
    batch_input verb its runs (map (fun ni => (snd ni, mjoin (before verb (roots_of pre verb its) !! fst ni))) (numbered (roots_of pre verb its))) = Next input /\
    judged verb arms input = Go (guest, v).
Definition same_flow (f g : Json) : Prop := canonical number_text f = canonical number_text g.
(** What a verb contributes to the flow that holds the act. *)
Definition agrees (its : list Item) (pre : dict Row) (a : Admitted_) (flow : option Json) (verb : Judged) : Prop :=
  is_some (vget a verb) = true -> roots_of pre verb its <> [] ->
  verb_verdict its pre a verb JudgeAllow \/ exists f g, verb_verdict its pre a verb (JudgeApprove f) /\ flow = Some g /\ same_flow f g.
Lemma judge_verb_next (its : list Item) (pre : dict Row) (a : Admitted_) (runs runs' : bool) (flow flow' : option Json) (verb : Judged) :
  judge_verb number_text before judged its pre a (runs, flow) verb = Next (runs', flow') ->
  agrees its pre a flow' verb /\ (forall f, flow = Some f -> exists g, flow' = Some g /\ same_flow f g) /\
  (flow = None -> flow' <> None -> exists f, verb_verdict its pre a verb (JudgeApprove f)).
Proof.
  unfold judge_verb. intros H. destruct (vget a verb) as [arms|] eqn:Ea.
  2:{ injection H as <- <-. split_and!; [by unfold agrees; rewrite Ea|by intros f ->; exists f|by intros ->]. }
  destruct (roots_of pre verb its) as [|r0 rs] eqn:Er.
  { injection H as <- <-. split_and!; [by unfold agrees; rewrite Er|by intros f ->; exists f|by intros ->]. }
  apply Writes.step_next in H as (input & Hin & H). destruct (judged verb arms input) as [[guest v]|o|err|err|] eqn:Ej; try done.
  assert (forall j, v = j -> verb_verdict its pre a verb j) as Hv.
  { intros j <-. exists arms, guest, runs, input. by rewrite Er. }
  destruct v as [|f|o]; [| |done].
  - injection H as <- <-. split_and!; [left; by apply Hv|by intros f ->; exists f|by intros ->].
  - destruct flow as [f'|].
    + destruct (String.eqb_spec (canonical number_text f') (canonical number_text f)) as [E|]; [|done]. injection H as <- <-.
      split_and!; [right; exists f, f; by split; [apply Hv|]|intros f0 [= <-]; by exists f|done].
    + injection H as <- <-. split_and!; [right; exists f, f; by split; [apply Hv|]|done|intros _ _; exists f; by apply Hv].
Qed.
(** C26. Nothing denied is planned. When the checks let an act on, every verb it uses was judged on its own batch and either allowed, or
    approved with one flow that all approvals share; the act is held exactly when some verb was approved rather than allowed. *)
Theorem checks_hold (its : list Item) (pre : dict Row) (a : Admitted_) (runs : bool) (flow : option Json) :
  judge_verbs number_text before judged its pre (Some a) = Next (runs, flow) ->
  (forall verb, agrees its pre a flow verb) /\ (flow <> None -> exists verb f, verb_verdict its pre a verb (JudgeApprove f)).
Proof.
  unfold judge_verbs. intros H. apply Writes.step_next in H as ([r1 f1] & H1 & H). apply Writes.step_next in H as ([r2 f2] & H2 & H3).
  apply judge_verb_next in H1 as (A1 & K1 & N1), H2 as (A2 & K2 & N2), H3 as (A3 & K3 & N3).
  assert (forall f verb, agrees its pre a f verb -> (forall x, f = Some x -> exists g, flow = Some g /\ same_flow x g) -> agrees its pre a flow verb) as Hlift.
  { intros f verb Ha Hk Hs Hr. destruct (Ha Hs Hr) as [?|(x & g & Hv & -> & E)]; [by left|]. right. destruct (Hk g eq_refl) as (g' & -> & E').
    exists x, g'. split_and!; [done|done|]. by unfold same_flow in *; rewrite E. }
  assert (forall x, f1 = Some x -> exists g, flow = Some g /\ same_flow x g) as K13.
  { intros x E. destruct (K2 x E) as (g & E2 & S2). destruct (K3 g E2) as (g' & E3 & S3). exists g'. split; [done|]. by unfold same_flow in *; rewrite S2. }
  split.
  - intros []; [by apply (Hlift f1)|by apply (Hlift f2)|done].
  - intros Hne. destruct f2 as [x2|]; [|destruct (N3 eq_refl Hne) as [f Hf]; by exists JDelete, f].
    destruct f1 as [x1|]; [|destruct (N2 eq_refl ltac:(done)) as [f Hf]; by exists JUpdate, f].
    destruct (N1 eq_refl ltac:(done)) as [f Hf]. by exists JCreate, f.
Qed.

Lemma has_key_false (key : string) (path : InputPath) : has_key key path = false <-> PKey key ∉ path.
Proof.
  rewrite <- not_true_iff_false. unfold has_key. rewrite existsb_exists. setoid_rewrite <- list_elem_of_In. apply not_iff_compat. split.
  - intros (x & Hx & E). unfold part_eqb in E. by apply bool_decide_eq_true in E as ->.
  - intros H. exists (PKey key). split; [done|]. by apply bool_decide_eq_true_2.
Qed.
End Plan.

End Plan.

(** ** The locks on owned parents. *)
Module Locks.
Section Locks.
Context (text_of : Json -> string) (m : ActManifest) (cat : Catalog).
Abbreviation Parent := (string * string * (string * FieldSpec) * string)%type (only parsing).
Definition p_parent (p : Parent) : string := fst (fst (fst p)).
Definition p_inverse (p : Parent) : string := snd (fst (fst p)).
Definition p_state (p : Parent) : string * FieldSpec := snd (fst p).
Definition p_id (p : Parent) : string := snd p.
Definition p_key (p : Parent) : string := p_parent p +:+ "." +:+ p_inverse p.
(** A lock is the one its parents' relation asks for. *)
Definition shaped (p : Parent) (l : OwnedLock) : Prop :=
  ol_parent l = p_parent p /\ ol_field l = fst (p_state p) /\ ol_states l = admitting_states (snd (p_state p)) (p_inverse p).
Definition regular (p : Parent) : Prop := state_spec m (p_parent p) = Some (p_state p) /\ all_chars Idempotent.not_dot (p_inverse p) = true.
Record collected (ps : list Parent) (locks : dict OwnedLock) : Prop := MkCollected {
  co_wf : wf_dict locks;
  co_all : forall p, p ∈ ps -> exists l, get locks (p_key p) = Some l /\ shaped p l /\ p_id p ∈ ol_ids l;
  co_only : forall key l, get locks key = Some l -> (exists p, p ∈ ps /\ p_key p = key /\ shaped p l) /\
    forall id, id ∈ ol_ids l -> exists p, p ∈ ps /\ p_key p = key /\ p_id p = id }.

Lemma p_key_inj (p q : Parent) : regular p -> regular q -> p_key p = p_key q ->
  p_parent p = p_parent q /\ p_inverse p = p_inverse q /\ p_state p = p_state q.
Proof.
  intros [Hp Ip] [Hq Iq] E. destruct (Idempotent.last_dot _ _ _ _ Ip Iq E) as [E1 E2]. split_and!; try done. rewrite E1, Hq in Hp. by injection Hp.
Qed.
Lemma shaped_same (p q : Parent) (l : OwnedLock) : regular p -> regular q -> p_key p = p_key q -> shaped p l -> shaped q l.
Proof. intros Hp Hq E. destruct (p_key_inj p q Hp Hq E) as (E1 & E2 & E3). unfold shaped. by rewrite E1, E2, E3. Qed.
Lemma add_id_ids (l : OwnedLock) (id x : string) : x ∈ ol_ids (add_id l id) <-> x ∈ ol_ids l \/ x = id.
Proof.
  unfold add_id. cbn [ol_ids]. destruct (includes (ol_ids l) id) eqn:E; [|set_solver]. apply includes_spec in E. split; [by left|by intros [?| ->]].
Qed.
Lemma add_lock_collected (child : string) (ps : list Parent) (p : Parent) (locks : dict OwnedLock) : Forall regular (ps ++ [p]) ->
  collected ps locks -> collected (ps ++ [p]) (add_lock child locks p).
Proof.
  intros Hreg [Hw Ha Ho]. rewrite Forall_app, Forall_singleton in Hreg. destruct Hreg as [Hps Hp]. rewrite Forall_forall in Hps.
  set (old := default (MkLock child (p_parent p) (fst (p_state p)) (admitting_states (snd (p_state p)) (p_inverse p)) []) (get locks (p_key p))).
  assert (add_lock child locks p = set locks (p_key p) (add_id old (p_id p))) as ->.
  { destruct p as [[[parent inverse] [state spec]] id]. done. }
  assert (shaped p old) as Hold.
  { unfold old. destruct (get locks (p_key p)) as [l|] eqn:E; [|done]. destruct (Ho _ _ E) as [(q & Hq & Ek & Hs) _]. cbn [default from_option id].
    eapply shaped_same; [by apply Hps|exact Hp|exact Ek|exact Hs]. }
  constructor.
  - by apply wf_set.
  - intros q [Hq|Hq%list_elem_of_singleton]%elem_of_app.
    + destruct (decide (p_key p = p_key q)) as [E|E].
      * rewrite <- E, get_set_eq. eexists. split; [done|]. destruct (Ha q Hq) as (l & Hg & Hs & Hi). split.
        { change (shaped q old). eapply shaped_same; [exact Hp|by apply Hps|exact E|exact Hold]. }
        apply add_id_ids. left. unfold old. by rewrite E, Hg.
      * rewrite get_set_ne by done. by apply Ha.
    + subst q. rewrite get_set_eq. eexists. split; [done|]. split; [exact Hold|]. apply add_id_ids. by right.
  - intros key l. destruct (decide (p_key p = key)) as [<-|E].
    + rewrite get_set_eq. intros [= <-]. split.
      * exists p. split; [set_solver|]. by split.
      * intros id [Hid|Hid]%add_id_ids; [|exists p; split; [set_solver|done]]. unfold old in Hid.
        destruct (get locks (p_key p)) as [l|] eqn:Eg; [|by apply elem_of_nil in Hid]. destruct (Ho _ _ Eg) as [_ H]. destruct (H id Hid) as (q & Hq & Ek & Ei).
        exists q. split; [set_solver|done].
    + rewrite get_set_ne by done. intros Hg. destruct (Ho _ _ Hg) as [(q & Hq & Hs) H]. split; [exists q; split; [set_solver|done]|].
      intros id Hid. destruct (H id Hid) as (r & Hr & Hx). exists r. split; [set_solver|done].
Qed.
Lemma add_locks_collected (child : string) (qs ps : list Parent) (locks : dict OwnedLock) : Forall regular (ps ++ qs) ->
  collected ps locks -> collected (ps ++ qs) (fold_left (add_lock child) qs locks).
Proof.
  revert ps locks. induction qs as [|q qs IH]; intros ps locks Hreg H; cbn [fold_left]; [by rewrite app_nil_r|].
  change (q :: qs) with ([q] ++ qs) in *. rewrite app_assoc in *. apply IH; [done|]. apply add_lock_collected; [|done]. by apply Forall_app in Hreg as [? _].
Qed.
(** Every parent the writes hang under, each with the lock of its relation. *)
Definition parents_of (ws : list Write) (pre : dict Row) : list Parent := flat_map (locked_parents m cat (created_keys ws) pre) ws.
Lemma folds_collected (created : list string) (pre : dict Row) (ws : list Write) (ps : list Parent) (locks : dict OwnedLock) :
  Forall regular (ps ++ flat_map (locked_parents m cat created pre) ws) -> collected ps locks ->
  collected (ps ++ flat_map (locked_parents m cat created pre) ws)
    (fold_left (fun locks w => fold_left (add_lock (w_model w)) (locked_parents m cat created pre w) locks) ws locks).
Proof.
  revert ps locks. induction ws as [|w ws IH]; intros ps locks Hreg H; cbn [fold_left flat_map] in *; [by rewrite app_nil_r|].
  rewrite app_assoc in *. apply IH; [done|]. apply add_locks_collected; [|done]. by apply Forall_app in Hreg as [? _].
Qed.
(** A relation's name holds no dot. *)
Definition plain_inverses : Prop := forall key inverse, get (am_inverse m) key = Some inverse -> all_chars Idempotent.not_dot inverse = true.
(** [under created pre w p]: the row a write gives, or the stored row it changes, is owned by a record with a state that the act does not
    itself create. *)
Definition under (created : list string) (pre : dict Row) (w : Write) (p : Parent) : Prop :=
  exists info fk one rest, get (models cat) (w_model w) = Some info /\ (fk, one) ∈ mi_one info /\ one_targets one = p_parent p :: rest /\
    is_owned m (w_model w) fk = true /\ get (am_inverse m) (w_model w +:+ "." +:+ fk) = Some (p_inverse p) /\
    state_spec m (p_parent p) = Some (p_state p) /\
    match w_op w with WCreate v => get v fk | _ => row ← get pre (w_key w); get row fk end = Some (JString (p_id p)) /\
    k (p_parent p) (p_id p) ∉ created.
Lemma locked_parents_under (created : list string) (pre : dict Row) (w : Write) (p : Parent) :
  p ∈ locked_parents m cat created pre w <-> under created pre w p.
Proof.
  unfold locked_parents, under. destruct (get (models cat) (w_model w)) as [info|]; [|by split; [intros ?%elem_of_nil|intros (? & ? & ? & ? & ? & _)]].
  rewrite list_elem_of_omap. unfold locked_parent. split.
  - intros ([fk one] & Hin & H). cbn [fst snd] in H. exists info, fk, one. destruct (get (am_inverse m) _) as [inverse|] eqn:Ei; [|done]. cbn [mbind option_bind] in H.
    destruct (one_targets one) as [|parent rest] eqn:Et; [done|]. cbn [head mbind option_bind] in H.
    destruct (match w_op w with WCreate v => get v fk | _ => row ← get pre (w_key w); get row fk end) as [v|] eqn:Ev; [|done]. cbn [mbind option_bind] in H.
    destruct (state_spec m parent) as [st|] eqn:Es; [|done]. cbn [mbind option_bind] in H. destruct v as [| | |id| |]; try done.
    destruct (is_owned m (w_model w) fk) eqn:Eo; [|done]. cbn [andb] in H. destruct (includes created (k parent id)) eqn:Ec; [done|]. injection H as <-.
    exists rest. apply includes_false in Ec. split_and!; done.
  - intros (i & fk & one & rest & [= <-] & Hin & Ht & Ho & Hi & Hs & Hv & Hc). exists (fk, one). split; [done|]. cbn [fst snd].
    rewrite Hi, Ht. cbn [mbind option_bind head]. rewrite Hv. cbn [mbind option_bind]. rewrite Hs. cbn [mbind option_bind]. rewrite Ho. apply includes_false in Hc. rewrite Hc.
    by destruct p as [[[] ?] ?].
Qed.
Lemma owned_collected (ws : list Write) (pre : dict Row) : plain_inverses ->
  exists locks, ownedLocks m cat ws pre = values locks /\ collected (parents_of ws pre) locks.
Proof.
  intros Hdot. eexists. split; [reflexivity|]. apply (folds_collected (created_keys ws) pre ws [] []).
  - apply Forall_forall. intros p Hp. cbn [app] in Hp. apply list_elem_of_In, in_flat_map in Hp as (w & _ & Hp). apply list_elem_of_In, locked_parents_under in Hp.
    destruct Hp as (? & fk & ? & ? & _ & _ & _ & _ & Hi & Hs & _). split; [done|]. by apply (Hdot _ _ Hi).
  - constructor; [constructor|by intros ? ?%elem_of_nil|done].
Qed.
(** The stored state of a parent. *)
Definition parent_state (pre : dict Row) (p : Parent) : string :=
  match get pre (k (p_parent p) (p_id p)) with Some row => undefined_text text_of (get row (fst (p_state p))) | None => "undefined" end.
(** C22. The parents guard their children. An act's locks pass exactly when every write on an owned child hangs under a parent that is in a
    state admitting changes of that relation, or that the same act creates: no write of the act escapes, and no other record can fail it. *)
Theorem locks_exact (ws : list Write) (pre stored : dict Row) : plain_inverses ->
  parents_locked text_of stored (ownedLocks m cat ws pre) = false <->
  forall w p, w ∈ ws -> under (created_keys ws) pre w p ->
    exists s, (parent_state stored p, s) ∈ states_of (snd (p_state p)) /\ admits_children (p_inverse p) s = true.
Proof.
  intros Hdot. destruct (owned_collected ws pre Hdot) as (locks & -> & [Hw Ha Ho]).
  assert (forall p, p ∈ parents_of ws pre <-> exists w, w ∈ ws /\ under (created_keys ws) pre w p) as Hp.
  { intros p. unfold parents_of. rewrite list_elem_of_In, in_flat_map. setoid_rewrite <- list_elem_of_In. by setoid_rewrite locked_parents_under. }
  assert (forall p (l : OwnedLock), shaped p l -> (includes (ol_states l)
     (match get stored (k (ol_parent l) (p_id p)) with Some row => undefined_text text_of (get row (ol_field l)) | None => "undefined" end) = true <->
     exists s, (parent_state stored p, s) ∈ states_of (snd (p_state p)) /\ admits_children (p_inverse p) s = true)) as Hadm.
  { intros p l (E1 & E2 & E3). rewrite E1, E2, E3, includes_spec. fold (parent_state stored p). unfold admitting_states. rewrite list_elem_of_fmap. split.
    - intros ([n s] & En & Hin). apply list_elem_of_In, filter_In in Hin as [Hin Hs]. exists s. cbn [fst snd] in *. rewrite En. split; [by apply list_elem_of_In|done].
    - intros (s & Hin & Hs). exists (parent_state stored p, s). split; [done|]. apply list_elem_of_In, filter_In. split; [by apply list_elem_of_In|done]. }
  unfold parents_locked. split.
  - intros H w p Hin Hu. destruct (Ha p) as (l & Hg & Hs & Hi); [apply Hp; by exists w|]. apply (Hadm p l Hs).
    apply negb_false_iff, not_true_iff_false. intros Hn. apply not_true_iff_false in H. apply H. apply existsb_exists. exists l. split.
    { apply list_elem_of_In, list_elem_of_fmap. exists (p_key p, l). split; [done|by apply get_in]. }
    apply existsb_exists. exists (p_id p). split; [by apply list_elem_of_In|done].
  - intros H. apply not_true_iff_false. intros (l & Hl & (id & Hid & Hn)%existsb_exists)%existsb_exists.
    apply list_elem_of_In, list_elem_of_fmap in Hl as ([key l'] & -> & Hl). apply (in_get _ _ _ Hw) in Hl. destruct (Ho _ _ Hl) as [(q & Hq & Eq & Hs) Hids].
    apply list_elem_of_In in Hid. cbn [snd] in *. destruct (Hids id Hid) as (p & Hpp & Ep & <-). apply Hp in Hpp as (w & Hin & Hu).
    assert (shaped p l') as Hsp.
    { destruct (Ha p) as (l2 & Hg & Hs2 & _); [apply Hp; by exists w|]. rewrite Ep, Hl in Hg. by injection Hg as ->. }
    apply negb_true_iff in Hn. pose proof (proj2 (Hadm p l' Hsp) (H w p Hin Hu)) as Hx. by rewrite Hx in Hn.
Qed.
End Locks.
End Locks.

(** ** The advice on a record. *)
Module Advice.
Section Advice.
Context (text_of : Json -> string).
Context (sin cos asin sqrt : number -> number) (operandValue : string -> Authority -> outcome Json).
Context (m : ActManifest) (cat : Catalog) (toPred : string -> Json -> Pred) (computed : string -> string -> bool).
Context (e : Env) (pc : Place) (model : string) (visible row : Row) (revision : number) (restrictions : list Reason) (deleteGate : Gate).
Let rules := modelRules text_of sin cos asin sqrt operandValue m cat toPred e.
Let auth := en_authority e.
(** Nothing stands in the way of a change of a field: neither the record nor the place it is edited at is restricted, the caller's update
    arms cover the field, no external system owns it, it is not the record's fixed parent, and the record's state admits it. *)
Record editable (f : string) : Prop := MkEditable {
  ed_record : restrictions = [] /\ pc_reasons pc = [];
  ed_granted : granted_field m auth pc f = true;
  ed_local : f ∉ remote_fields m model;
  ed_parent : is_fk pc f = true \/ is_owned m model f = false;
  ed_state : (stateField m model = Some f /\ moves_of text_of m auth model row <> []) \/
             (stateField m model <> Some f /\ exists b, rules model row [(f, default JNull (get row f))] = Ok b /\ is_locked b = false) }.

Lemma map_outcome_keys {A B} (f : A -> outcome B) (l : list A) (ys : list B) : map_outcome f l = Ok ys ->
  forall y, y ∈ ys -> exists x, x ∈ l /\ f x = Ok y.
Proof.
  revert ys. induction l as [|x l IH]; intros ys; cbn [map_outcome]; [by intros [= <-] y ?%elem_of_nil|].
  destruct (f x) as [y0|] eqn:E; [|done]. cbn [mbind outcome_bind]. destruct (map_outcome f l) as [ys0|]; [|done]. intros [= <-] y [->|Hy]%elem_of_cons.
  - exists x. split; [by left|done].
  - destruct (IH ys0 eq_refl y Hy) as (z & Hz & Ez). exists z. split; [by right|done].
Qed.
(** What a dictionary built by writing entries holds under a key is one of them. *)
Lemma get_spread_in {A} (a b : dict A) (key : string) (v : A) : get (spread a b) key = Some v -> (key, v) ∈ b \/ get a key = Some v.
Proof.
  unfold spread. revert a. induction b as [|[k' v'] b IH]; intros a; cbn [fold_left fst snd]; [by right|]. intros H.
  destruct (IH _ H) as [?|Hg]; [left; by right|]. destruct (decide (k' = key)) as [->|].
  - rewrite get_set_eq in Hg. injection Hg as ->. left. by left.
  - rewrite get_set_ne in Hg by done. by right.
Qed.
Lemma dedup_nil (l : list Reason) : dedup l = [] <-> l = [].
Proof. by destruct l. Qed.
Lemma field_reasons_nil (f : string) (rs : list Reason) :
  field_reasons text_of sin cos asin sqrt operandValue m cat toPred e pc model row (restrictions ++ pc_reasons pc) f = Ok rs -> rs = [] <-> editable f.
Proof.
  unfold field_reasons. fold auth rules. destruct (bool_decide (stateField m model = Some f)) eqn:Es.
  - apply bool_decide_eq_true in Es. cbn [mbind outcome_bind]. intros [= <-]. rewrite !app_nil. split.
    + intros ((H1 & H1') & H2 & H3 & H4 & H5). constructor; [done| | | |left; split; [done|]].
      * by destruct (granted_field _ _ _ _).
      * apply includes_false. by destruct (includes _ _).
      * destruct (is_fk pc f); [by left|]. destruct (is_owned m model f); [done|by right].
      * intros E. rewrite E in H5. by destruct (length _ =? 0)%nat.
    + intros [[-> ->] Hg Hl Hp [[_ Hm]|[Hn _]]]; [|done]. rewrite Hg. apply includes_false in Hl. rewrite Hl. split_and!; try done.
      * by destruct Hp as [->| ->]; rewrite ?andb_false_r.
      * by destruct (moves_of _ _ _ _ _).
  - apply bool_decide_eq_false in Es. destruct (rules model row _) as [b|] eqn:Er; [|done]. cbn [mbind outcome_bind]. intros [= <-]. rewrite !app_nil. split.
    + intros ((H1 & H1') & H2 & H3 & H4 & H5). constructor; [done| | | |right; split; [done|]].
      * by destruct (granted_field _ _ _ _).
      * apply includes_false. by destruct (includes _ _).
      * destruct (is_fk pc f); [by left|]. destruct (is_owned m model f); [done|by right].
      * exists b. split; [done|]. by destruct (is_locked b).
    + intros [[-> ->] Hg Hl Hp [[Hs _]|[_ (b' & Hb & Hlk)]]]; [done|]. rewrite Hg. apply includes_false in Hl. rewrite Hl. split_and!; try done.
      * by destruct Hp as [->| ->]; rewrite ?andb_false_r.
      * rewrite Hb in Er. injection Er as <-. by rewrite Hlk.
Qed.
Lemma advise_exact (g : Gate) (rs : list Reason) : let p := advise g rs in
  (pm_writable p = true <-> rs = [] /\ g = GateAllow) /\ (pm_proposal p = true <-> rs = [] /\ g = GateApprove) /\ (pm_reasons p = [] <-> rs = [] /\ g = GateAllow).
Proof.
  cbv zeta. unfold advise. cbn [pm_writable pm_proposal pm_reasons]. rewrite !andb_true_iff, !bool_decide_eq_true, dedup_nil. split_and!; [done|done|].
  case_bool_decide as Hg; [naive_solver|]. rewrite app_nil. naive_solver.
Qed.
Let advised := capabilities text_of sin cos asin sqrt operandValue m cat toPred computed e pc model visible row revision restrictions deleteGate.
(** The advice on a record is exact. A field is offered for writing just when nothing restricts the record or the place it is edited at,
    the caller's update arms cover it, it is neither an external system's nor the fixed parent, its state admits it and the checks allow
    the record; it is offered as a proposal when the checks would have it approved; and whatever is not writable says why. *)
Theorem advice_exact (c : Capabilities_) (f : string) (p : Permission) :
  advised = Ok c -> get (cp_fields c) f = Some p -> has_relation cat model f = false ->
  (pm_writable p = true <-> editable f /\ pc_gate pc = GateAllow) /\ (pm_proposal p = true <-> editable f /\ pc_gate pc = GateApprove) /\
  (pm_reasons p = [] <-> pm_writable p = true).
Proof.
  unfold advised, capabilities. cbv zeta. destruct (map_outcome _ (List.filter _ _)) as [own|] eqn:E1; [|done]. cbn [mbind outcome_bind].
  destruct (map_outcome _ (omap _ _)) as [rels|] eqn:E2; [|done]. cbn [mbind outcome_bind]. intros [= <-] Hg Hr. cbn [cp_fields] in Hg.
  apply get_spread_in in Hg as [Hg|Hg].
  { exfalso. destruct (map_outcome_keys _ _ _ E2 _ Hg) as ([at_ rel] & Hin & Hf). cbn [fst snd] in Hf.
    destruct (relation_reasons _ _ _ _ _ _ _ _ _ _ _ _ _ _ _ _); [|done]. cbn [mbind outcome_bind] in Hf. injection Hf as -> _.
    apply list_elem_of_omap in Hin as (at' & _ & Ha). destruct (relation_under (pc_path pc) at') as [rel'|]; [|done]. cbn [mbind option_bind] in Ha.
    destruct (has_relation cat model rel') eqn:Eh; [|done]. injection Ha as _ ->. congruence. }
  apply get_spread_in in Hg as [Hg|Hg]; [|done]. destruct (map_outcome_keys _ _ _ E1 _ Hg) as (f' & _ & Hf).
  destruct (field_reasons _ _ _ _ _ _ _ _ _ _ _ _ _ _ _) as [rs|] eqn:Ers; [|done]. cbn [mbind outcome_bind] in Hf. injection Hf as -> <-.
  apply field_reasons_nil in Ers. destruct (advise_exact (pc_gate pc) rs) as (H1 & H2 & H3). rewrite H1, H2, H3, Ers. naive_solver.
Qed.

(** C34. Every move a record's page offers is one the act takes: it is an edge the state declares from where the record is, the caller's
    grants admit it, and an update that makes it breaks none of the model's field rules. *)
Theorem offered_moves_land (c : Capabilities_) (state next : string) (moves : list string) :
  (forall s, text_of (JString s) = s) -> wf_dict (model_fields m model) -> is_owned m model state = false ->
  advised = Ok c -> get (cp_moves c) state = Some moves -> next ∈ moves ->
  stateField m model = Some state /\ next ∈ transitions_of text_of m model row /\
  Access.admitMove auth model state (undefined_text text_of (get row state)) next = true /\
  field_rules text_of m model row [(state, JString next)] = None.
Proof.
  intros Htext Hwf Hown Hc Hm Hn. unfold advised, capabilities in Hc. cbv zeta in Hc. destruct (map_outcome _ (List.filter _ _)) as [own|]; [|done]. cbn [mbind outcome_bind] in Hc.
  destruct (map_outcome _ (omap _ _)) as [rels|]; [|done]. cbn [mbind outcome_bind] in Hc. injection Hc as <-. cbn [cp_moves] in Hm.
  destruct (match stateField m model with Some s => _ | None => _ end) eqn:Ew; [|done]. destruct (stateField m model) as [s|] eqn:Es; [|done].
  cbn [get default from_option id] in Hm. destruct (String.eqb_spec s state) as [->|]; [|done]. injection Hm as <-. split; [done|].
  unfold stateField in Es. unfold moves_of, transitions_of, state_spec in *. destruct (List.find _ (model_fields m model)) as [[st spec]|] eqn:Ef; [|done].
  injection Es as ->. apply list_elem_of_In, filter_In in Hn as [Hn Ha]. split; [by apply list_elem_of_In|]. split; [done|].
  apply Rules.rules_exact_spec. constructor.
  - intros field sp tr v Hin Hk _ Hv. cbn [get] in Hv. destruct (String.eqb_spec state field) as [<-|]; [|done]. exfalso.
    apply find_some in Ef as [Hf Hks]. apply list_elem_of_In in Hf. apply (in_get _ _ _ Hwf) in Hf, Hin. rewrite Hf in Hin. injection Hin as <-.
    cbn [snd] in Hks. rewrite Hk in Hks. done.
  - intros fk Hfk. apply list_elem_of_singleton in Hfk as ->. done.
  - intros st' sp' E. unfold state_spec in E. rewrite Ef in E. injection E as <- <-. split.
    + intros v. cbn [get]. rewrite String.eqb_refl. intros [= <-]. rewrite Htext. by apply list_elem_of_In.
    + intros f Hf Hne. by apply list_elem_of_singleton in Hf as ->.
Qed.
End Advice.
End Advice.

(** ** A sample: an invoice with its lines. *)
Module Office.
Definition st (to : list string) (edit : Edit) : StateSpec := MkStateSpec (Some to) (Some edit).
Definition status_kind : KindSpec :=
  MkKind "state" false None None false None None None None None None (Some "draft"%string)
    (Some [("draft", st ["sent"] EditAll); ("sent", st ["paid"] (EditFields ["number"])); ("paid", st [] EditNone)])%string None None None.
Definition text_kind : KindSpec := kind_only "text".
Definition spec_ (kd : KindSpec) : FieldSpec := MkFieldSpec kd None false.
Definition invoice_fields : dict FieldSpec := [("number", spec_ text_kind); ("status", spec_ status_kind)]%string.
Definition flat : Manifest :=
  Flatten.MkManifest
    [("invoice", Flatten.MkModelSpec invoice_fields (Some ["number"]) []); ("line", Flatten.MkModelSpec [("text", spec_ text_kind)] None [])]%string
    [("line.invoice"%string, MkRelationship true false None)] [] [] [].
Definition info : ModelInfo :=
  MkModel "invoice" true [("number", fieldInfo "number" text_kind); ("status", fieldInfo "status" status_kind)]%string [] [] ["number"%string] [] None None None [].
Definition line_info : ModelInfo :=
  MkModel "line" true [("text"%string, fieldInfo "text" text_kind)] [("invoice"%string, MkOne "invoice" ["invoice"%string])] [] [] [] None None None [].
Definition cat : Catalog := MkCatalog [("invoice"%string, info); ("line"%string, line_info)] [] [] [].
Definition columns : dict (list string) := [("invoice", ["number"; "status"])]%string.
Definition access : Exposure := MkExposed (Some (MkVerbSpec columns false)) (Some (MkVerbSpec columns false)) None [].
Definition with_lock (locked : dict Json) : ActManifest := MkActManifest flat [("invoice"%string, access)] locked [] [("line.invoice", "lines")]%string.
Definition m : ActManifest := with_lock [].
(** The same workspace with its sent invoices locked. *)
Definition m_locked : ActManifest := with_lock [("invoice"%string, JNull)].
Definition toPred (_ : string) (_ : Json) : Pred := PConst true.
Definition clerk : Authority :=
  MkAuthority "a" (ActApiKey "clerk") false ["clerk"%string] None None None None
    [("invoice"%string,
      MkModelAuthority [] [] [MkWriteArm "clerk" columns false] [MkWriteArm "clerk" columns false] [] [("status"%string, AllMoves)])] [] (MkCaps [] [] [] []) [] [] [].
Definition row (n : string) (status : string) : Row := [("id", JString n); ("number", JString "7"); ("status", JString status); ("revision", JNumber 1%Q)]%string.
Definition line (n parent : string) : Row := [("id", JString n); ("text", JString "a"); ("invoice", JString parent); ("revision", JNumber 1%Q)]%string.
Definition pre : dict Row :=
  [(k "invoice" "i1", row "i1" "sent"); (k "invoice" "i2", row "i2" "paid"); (k "line" "l1", line "l1" "i1"); (k "line" "l2", line "l2" "i2")].
Definition text_of (j : Json) : string := match j with JString s => s | _ => "?" end.
Definition nt (_ : number) : string := "1".
Definition dp (_ : string) : option number := None.
Definition f1 (x : number) : number := x.
Definition no_operand (_ : string) (_ : Authority) : outcome Json := Ok JNull.
Definition clock (_ : string) : option Json := None.
Definition no_computed (_ _ : string) : bool := false.
Definition env : Env := MkEnv pre [] (MkBindings "2026-01-01T10:00:05Z" "2026-01-01") clerk.
Definition item (c : Change) : Item := MkItem c [] [] None None false.
Definition at_ (n : nat) : InputPath := [PAt n].
Definition creates : Item := item (Create "invoice" "i3" (at_ 0) [("number", JString "8"); ("status", JString "draft")]%string).
Definition pays : Item := item (Update "invoice" "i1" (at_ 1) [("status", JString "paid"); ("number", JString "7")]%string (Some 1%Q)).
Definition restated : Item := item (Update "invoice" "i2" (at_ 2) [("number", JString "7")]%string None).
Definition removes : Item := item (Delete "line" "l2" (at_ 3) None).
Definition batch : list Item := [creates; pays; restated; removes].
Definition planned (m : ActManifest) (sync : bool) (its : list Item) : step Plans :=
  plan_writes nt text_of dp f1 f1 f1 f1 no_operand m cat toPred clock env false sync its.
Definition plans_of (s : step Plans) : Plans := match s with Next p => p | _ => MkPlans [] [] end.
Definition writes : list (Write * Item) :=
  [(MkWrite "invoice" "i3" (WCreate [("number", JString "8"); ("status", JString "draft")]), creates);
   (MkWrite "invoice" "i1" (WUpdate [("status", JString "paid")] (Some 1%Q)), pays);
   (MkWrite "line" "l2" (WDelete (Some 1%Q)), removes)]%string.
Lemma planned_batch : planned m false batch = Next (MkPlans writes [("invoice", "i2")]%string).
Proof. vm_compute. reflexivity. Qed.
Lemma plan_sound_witness : length writes = 3%nat /\ map snd writes `sublist_of` batch.
Proof.
  split; [reflexivity|].
  exact (proj1 (proj2 (proj2 (Writes.plan_sound nt text_of dp f1 f1 f1 f1 no_operand m cat toPred clock env false false batch _ planned_batch)))).
Defined.
Definition store : Writes.Store := fun model id => get pre (k model id).
Definition status_spec : FieldSpec := spec_ status_kind.
Lemma pre_reachable : Writes.in_machine text_of "invoice" "status" status_spec "draft" store.
Proof.
  assert (Writes.reachable_state status_spec "draft" "sent") as Hsent by (apply (Writes.state_moves _ _ "draft"); [constructor|vm_compute; left]).
  assert (Writes.reachable_state status_spec "draft" "paid") as Hpaid by (apply (Writes.state_moves _ _ "sent"); [exact Hsent|vm_compute; left]).
  intros id r H. apply get_in in H. unfold pre in H. repeat (apply elem_of_cons in H as [H|H]); [| | | |by apply elem_of_nil in H]; injection H as _ ->; try done.
Qed.
Lemma batch_wf (it : Item) (id : string) (path : InputPath) (set_ : Row) (seen : option number) :
  it ∈ batch -> it_change it = Update "invoice" id path set_ seen -> wf_dict set_.
Proof.
  unfold batch. intros H E. repeat (apply elem_of_cons in H as [->|H]); try done; [| |by apply elem_of_nil in H]; injection E as _ _ <- _; by apply (bool_decide_eq_true_1 _).
Qed.
Lemma states_reachable_witness : Writes.in_machine text_of "invoice" "status" status_spec "draft" (Writes.applied writes store) /\
  option_map (fun r : Row => get r "status") (Writes.applied writes store "invoice" "i1") = Some (Some (JString "paid")).
Proof.
  split; [|vm_compute; reflexivity].
  exact (Writes.states_reachable text_of dp nt f1 f1 f1 f1 no_operand m cat toPred clock (fun _ => eq_refl) "invoice" "status" status_spec "draft" eq_refl eq_refl
    env false false batch _ store planned_batch (or_introl eq_refl) batch_wf (fun _ _ E => E) pre_reachable).
Defined.
(** A sync's act may change a record under its model's lock, and then no other rule of the model is asked either: the paid invoice goes back to
    draft, an edge its machine does not have. Without the lock the same sync is refused. *)
Definition reopens : Item := item (Update "invoice" "i2" (at_ 0) [("status", JString "draft")]%string None).
Definition reopening : Plans := plans_of (planned m_locked true [reopens]).
(** Under a lock a sync leaves the state machine. A sync is let past its model's lock, and the edges of the machine are then not asked
    either: it takes the paid invoice back to draft, which the same sync may not do when the model declares no lock. *)
Theorem sync_leaves_machine :
  (planned m true [reopens] = Halt false (refused C_invalidInput "'paid' cannot move to 'draft'." [PAt 0; PKey "status"])) /\
  map fst (pn_writes reopening) = [MkWrite "invoice" "i2" (WUpdate [("status", JString "draft")] (Some 1%Q))]%string /\
  "draft"%string ∉ edges_from status_spec "paid".
Proof. split_and!; [vm_compute; reflexivity|vm_compute; reflexivity|by intros ?%elem_of_nil]. Qed.

Definition before (_ : Judged) (_ : list Item) : list (option Json) := [Some (JObject (row "i1" "sent"))].
Definition judged (_ : Judged) (arms : list CheckArm) (_ : list Json) : answer (bool * Judgement) :=
  match arms with [] => Go (false, JudgeAllow) | _ => Go (true, JudgeApprove (JString "flow")) end.
Definition admitted : Admitted_ := [(JCreate, []); (JUpdate, [MkCheckArm "clerk" true])].
Definition verdict := judge_verbs nt before judged [creates; pays] pre (Some admitted).
Lemma verdict_approves : verdict = Next (true, Some (JString "flow")).
Proof. vm_compute. reflexivity. Qed.
Lemma checks_hold_witness : Plan.agrees nt before judged [creates; pays] pre admitted (Some (JString "flow")) JUpdate.
Proof. exact (proj1 (Plan.checks_hold nt before judged [creates; pays] pre admitted true (Some (JString "flow")) verdict_approves) JUpdate). Defined.
Definition asked : Holder_ := MkHolding "q1" HeldChanges true "invoice" "i1" JUpdate.
Definition line_write (n : string) : Write := MkWrite "line" n (WUpdate [("text", JString "b")]%string None).
Lemma inverses_plain : Locks.plain_inverses m.
Proof. intros key inverse E. apply get_in, list_elem_of_singleton in E. injection E as _ ->. reflexivity. Qed.
(** The lines of a paid invoice are closed with it, and so are a sent one's, whose number alone may be edited. *)
Lemma locks_exact_witness : parents_locked text_of pre (ownedLocks m cat [line_write "l2"] pre) = true /\
  ~ (forall w p, w ∈ [line_write "l2"] -> Locks.under m cat (created_keys [line_write "l2"]) pre w p ->
       exists s, (Locks.parent_state text_of pre p, s) ∈ states_of (snd (Locks.p_state p)) /\ admits_children (Locks.p_inverse p) s = true).
Proof.
  assert (parents_locked text_of pre (ownedLocks m cat [line_write "l2"] pre) = true) as E by (vm_compute; reflexivity).
  split; [exact E|]. intros H. apply (Locks.locks_exact text_of m cat [line_write "l2"] pre pre inverses_plain) in H. rewrite E in H. discriminate H.
Defined.
Definition advice (m : ActManifest) : outcome Capabilities_ :=
  capabilities text_of f1 f1 f1 f1 no_operand m cat toPred no_computed env (own_place m "invoice" GateAllow) "invoice" (row "i1" "sent") (row "i1" "sent") 1%Q [] GateDeny.
Definition advised (m : ActManifest) : Capabilities_ :=
  match advice m with Ok c => c | Throw _ => MkCapabilities 0%Q [] (MkOperation false false []) (MkOperation false false []) [] [] end.
Lemma advice_of (m' : ActManifest) : is_ok (advice m') = true -> advice m' = Ok (advised m').
Proof. unfold advised. by destruct (advice m'). Qed.
Lemma advice_exact_witness : get (cp_fields (advised m)) "number" = Some (MkPermission true false []) /\
  Advice.editable text_of f1 f1 f1 f1 no_operand m cat toPred env (own_place m "invoice" GateAllow) "invoice" (row "i1" "sent") [] "number".
Proof.
  assert (get (cp_fields (advised m)) "number" = Some (MkPermission true false [])) as E by (vm_compute; reflexivity). split; [exact E|].
  exact (proj1 (proj1 (proj1 (Advice.advice_exact text_of f1 f1 f1 f1 no_operand m cat toPred no_computed env (own_place m "invoice" GateAllow) "invoice"
    (row "i1" "sent") (row "i1" "sent") 1%Q [] GateDeny _ "number" _ (advice_of m eq_refl) E eq_refl)) eq_refl)).
Defined.
Lemma offered_moves_land_witness : get (cp_moves (advised m)) "status" = Some ["paid"%string] /\
  field_rules text_of m "invoice" (row "i1" "sent") [("status"%string, JString "paid")] = None.
Proof.
  assert (get (cp_moves (advised m)) "status" = Some ["paid"%string]) as E by (vm_compute; reflexivity). split; [exact E|].
  assert (wf_dict (model_fields m "invoice")) as Hwf by (apply (bool_decide_eq_true_1 _); vm_compute; reflexivity).
  exact (proj2 (proj2 (proj2 (Advice.offered_moves_land text_of f1 f1 f1 f1 no_operand m cat toPred no_computed env (own_place m "invoice" GateAllow) "invoice"
    (row "i1" "sent") (row "i1" "sent") 1%Q [] GateDeny _ "status" "paid" ["paid"%string] (fun _ => eq_refl) Hwf eq_refl (advice_of m eq_refl) E (proj2 (list_elem_of_singleton "paid"%string "paid"%string) eq_refl))))).
Defined.
(** A locked record's page still offers its state. Under its model's lock no change of the sent invoice is taken, yet the page says the
    state is writable and offers the move to paid: the lock is asked for every other field only. *)
Theorem locked_moves_offered :
  get (cp_moves (advised m_locked)) "status" = Some ["paid"%string] /\
  get (cp_fields (advised m_locked)) "number" = Some (MkPermission false false [StateLocked]) /\
  planned m_locked false [item (Update "invoice" "i1" (at_ 0) [("status"%string, JString "paid")] None)] =
    Halt false (refused C_locked LOCKED_MESSAGE [PAt 0; PKey "id"]).
Proof. vm_compute. split_and!; reflexivity. Qed.
(** A created invoice with two lines, as a check is handed it. *)
Definition line_of (n : nat) (text : string) : Item :=
  MkItem (Create "line" ("l" +:+ text) (at_ 0 ++ [PKey "lines"; PKey "create"; PAt n]) [("text", JString text); ("invoice", JString "i3")]%string) [] []
    (Some (MkParent "invoice" "i3" "lines" "invoice")) None false.
Example tree_of_invoice : tree_of [creates; line_of 0 "a"; line_of 1 "b"] creates =
  JObject [("number", JString "8"); ("status", JString "draft");
           ("lines", JArray [JObject [("text", JString "a")]; JObject [("text", JString "b")]])]%string.
Proof. vm_compute. reflexivity. Qed.
Example answer_of_rows : answerOf JCreate (JObject [("rows", JArray [JNull]); ("with", JObject [("line", JObject [("create", JArray [JBool true])])])]%string) 1 =
  inr (MkAnswer [JNull] [CarriedCreate "line" 0 (JBool true)] []).
Proof. vm_compute. reflexivity. Qed.
End Office.
