(* ===== verification/Facts.v ===== *)
(** Runtime-declared fields and priced lines: [packages/std/src/facts.ts] and [packages/std/src/pricing.ts]. A fact's value is
    whatever a JSON field holds; a declaration constrains its type, its range and its options. *)
From Stdlib Require QArith.Qcanon.
From Stdlib Require Import Lqa Sorting.Sorted.
From S2P Require Import Prelude Decimal Ir Eval.

(** ** Facts. *)
Module Facts.
(** A value as the code tells values apart: a number is finite or not ([NaN], an infinity, by its text), and everything whose [typeof] is
    ['object'] is one. A function is met only as a member every object inherits. [undefined] and [null] are no value. *)
Inductive FactValue := FvBool (b : bool) | FvNumber (n : number) | FvNotFinite (text : string) | FvString (s : string) | FvObject | FvFunction (name : string).
Inductive FactType := TBoolean | TNumber | TString.
#[export] Instance FactType_eq_dec : EqDecision FactType. Proof. solve_decision. Defined.
Record FactSpec := MkFactSpec {
  fc_key : string; fc_type : FactType; fc_label : option string; fc_required : option bool; fc_default : option FactValue;
  fc_options : option (list FactValue); fc_minimum : option number; fc_maximum : option number; fc_integer : option bool;
  fc_min_length : option number }.
Definition type_name (t : FactType) : string := match t with TBoolean => "boolean" | TNumber => "number" | TString => "string" end.
Definition typeof (v : FactValue) : string :=
  match v with FvBool _ => "boolean" | FvNumber _ | FvNotFinite _ => "number" | FvString _ => "string" | FvObject => "object" | FvFunction _ => "function" end.
(** [a === b], and [Set]'s equality, under which [NaN] is itself. *)
Definition same (a b : FactValue) : bool :=
  match a, b with
  | FvBool x, FvBool y => Bool.eqb x y
  | FvNumber x, FvNumber y => Qeq_bool x y
  | FvNotFinite x, FvNotFinite y => String.eqb x y
  | FvString x, FvString y => String.eqb x y
  | FvFunction x, FvFunction y => String.eqb x y
  | _, _ => false
  end.
Definition strictly (a b : FactValue) : bool := match a, b with FvNotFinite "NaN", _ => false | _, _ => same a b end.

Section Facts.
Context (number_text : number -> string).
(** [String(v)], and an element of [join]. *)
Definition text_of (v : FactValue) : string :=
  match v with
  | FvBool b => if b then "true" else "false" | FvNumber n => number_text n | FvNotFinite s => s | FvString s => s
  | FvObject => "[object Object]"
  | FvFunction name => "function " +:+ name +:+ "() { [native code] }"
  end.
Definition opt_number (n : option number) : string := match n with Some n => number_text n | None => "undefined" end.
Definition nameOf (s : FactSpec) : string := match fc_label s with Some l => if String.eqb (trim l) "" then fc_key s else trim l | None => fc_key s end.

(** *** [VALUE]: the checks of a value, in order. *)
Definition below (n : number) (bound : option number) : bool := match bound with Some b => Qlt_bool n b | None => false end.
Definition above (n : number) (bound : option number) : bool := match bound with Some b => Qlt_bool b n | None => false end.
Definition is_integer (n : number) : bool := (Zpos (Qden (Qred n)) =? 1).
Definition VALUE : list ((FactSpec -> FactValue -> bool) * (string -> FactSpec -> FactValue -> string)) :=
  [ (fun s v => negb (String.eqb (typeof v) (type_name (fc_type s))),
     fun name s v => name +:+ " must be a " +:+ type_name (fc_type s) +:+ "; this value is a " +:+ typeof v +:+ ".");
    (fun _ v => match v with FvNotFinite _ => true | _ => false end, fun name _ _ => name +:+ " must be finite.");
    (fun s v => match v with FvNumber n => bool_decide (fc_integer s = Some true) && negb (is_integer n) | _ => false end,
     fun name _ _ => name +:+ " must be a whole number.");
    (fun s v => match v with FvNumber n => below n (fc_minimum s) | _ => false end,
     fun name s _ => name +:+ " must be at least " +:+ opt_number (fc_minimum s) +:+ ".");
    (fun s v => match v with FvNumber n => above n (fc_maximum s) | _ => false end,
     fun name s _ => name +:+ " must be at most " +:+ opt_number (fc_maximum s) +:+ ".");
    (fun s v => match v with FvString t => below (num_of_int (slength (trim t))) (fc_min_length s) | _ => false end,
     fun name s _ => name +:+ " must contain at least " +:+ opt_number (fc_min_length s) +:+ " characters.");
    (fun s v => match fc_options s with Some os => negb (existsb (fun o => strictly o v) os) | None => false end,
     fun name s _ => name +:+ " must be one of: " +:+ join ", " (map text_of (default [] (fc_options s))) +:+ ".") ].
Definition valueFault (s : FactSpec) (v : FactValue) : option string :=
  option_map (fun hit => snd hit (nameOf s) s v) (List.find (fun tm => fst tm s v) VALUE).

(** *** [DECLARATION]: the checks of a declaration, in order, given the keys declared before it. *)
Definition is_letter (c : ascii) : bool := let n := N_of_ascii c in ((65 <=? n)%N && (n <=? 90)%N) || ((97 <=? n)%N && (n <=? 122)%N) || (n =? 95)%N.
Definition is_identifier (k : string) : bool :=
  match k with EmptyString => false | String c k' => is_letter c && all_chars (fun c => is_letter c || is_digit c) k' end.
(** [new Set(xs)]. *)
Definition set_of (l : list FactValue) : list FactValue := fold_left (fun acc x => if existsb (same x) acc then acc else acc ++ [x]) l [].
Definition DECLARATION : list ((FactSpec -> list string -> bool) * string) :=
  [ (fun s _ => negb (is_identifier (fc_key s)), "a key is a letter or underscore, then letters, digits or underscores");
    (fun s seen => includes seen (fc_key s), "each key is declared once");
    (fun s _ => negb (bool_decide (fc_type s = TNumber)) && (is_some (fc_minimum s) || is_some (fc_maximum s) || is_some (fc_integer s)),
     "numeric constraints require a number fact");
    (fun s _ => negb (bool_decide (fc_type s = TString)) && is_some (fc_min_length s), "a minimum length requires a string fact");
    (fun s _ => match fc_minimum s, fc_maximum s with Some a, Some b => Qlt_bool b a | _, _ => false end, "the minimum exceeds the maximum");
    (fun s _ => bool_decide (fc_required s = Some true) && is_some (fc_default s), "a fact is required or has a default, not both");
    (fun s _ => match fc_options s with Some os => (length os =? 0)%nat || negb (length (set_of os) =? length os)%nat | None => false end,
     "options are nonempty and unique") ]%string.
Definition without_options (s : FactSpec) : FactSpec :=
  MkFactSpec (fc_key s) (fc_type s) (fc_label s) (fc_required s) (fc_default s) None (fc_minimum s) (fc_maximum s) (fc_integer s) (fc_min_length s).
Definition option_fault (s : FactSpec) : option string := match fc_options s with Some os => head (omap (valueFault (without_options s)) os) | None => None end.
Definition default_fault (s : FactSpec) : option string := match fc_default s with Some v => valueFault s v | None => None end.
Definition declaration_fault (s : FactSpec) (seen : list string) : option string :=
  match List.find (fun tm => fst tm s seen) DECLARATION with
  | Some tm => Some (snd tm)
  | None => match option_fault s with Some f => Some f | None => default_fault s end
  end.
Fixpoint facts_from (seen : list string) (specs : list FactSpec) : outcome unit :=
  match specs with
  | [] => Ok tt
  | s :: specs' =>
      match declaration_fault s seen with
      | Some fault => PlainError (fc_key s +:+ ": " +:+ fault)
      | None => facts_from (seen ++ [fc_key s]) specs'
      end
  end.
Definition facts (specs : list FactSpec) : outcome (list FactSpec) := _ ← facts_from [] specs; Ok specs.

(** *** [validateFacts]. The values of a record; [None] is [null] or [undefined] under a present key. *)
Definition blank (v : option FactValue) : bool := match v with None => true | Some (FvString s) => String.eqb (trim s) "" | Some _ => false end.
(** The members [Object.prototype] gives every record, which a key may name. *)
Definition METHODS : list string :=
  ["__defineGetter__"; "__defineSetter__"; "hasOwnProperty"; "__lookupGetter__"; "__lookupSetter__"; "isPrototypeOf"; "propertyIsEnumerable";
   "toString"; "valueOf"; "toLocaleString"]%string.
Definition inherited (key : string) : option FactValue :=
  if String.eqb key "constructor" then Some (FvFunction "Object")
  else if String.eqb key "__proto__" then Some FvObject
  else if includes METHODS key then Some (FvFunction key) else None.
(** [values[s.key]]: an own member, or an inherited one. *)
Definition fact_of (values : dict (option FactValue)) (key : string) : option FactValue :=
  match get values key with Some v => v | None => inherited key end.
Definition fact_fault (complete : bool) (values : dict (option FactValue)) (s : FactSpec) : option string :=
  let v := fact_of values (fc_key s) in
  if blank v then if complete && default false (fc_required s) then Some (nameOf s +:+ " is required.") else None
  else match v with Some v => valueFault s v | None => None end.
Fixpoint first_fault {A} (f : A -> option string) (l : list A) : option string :=
  match l with [] => None | x :: l' => match f x with Some e => Some e | None => first_fault f l' end end.
Definition validateFacts (specs : list FactSpec) (values : dict (option FactValue)) (complete : bool) : option string :=
  match List.find (fun key => negb (includes (map fc_key specs) key)) (keys values) with
  | Some key => Some (key +:+ " is not a declared fact.")
  | None => first_fault (fact_fault complete values) specs
  end.

(** *** What a declaration means. *)

(** [fits s v]: the value is of the declared type and within every constraint. *)
Definition in_range (s : FactSpec) (n : number) : Prop :=
  (fc_integer s = Some true -> exists z, (n == inject_Z z)%Q) /\
  (forall b, fc_minimum s = Some b -> (b <= n)%Q) /\ (forall b, fc_maximum s = Some b -> (n <= b)%Q).
Definition typed (s : FactSpec) (v : FactValue) : Prop :=
  match fc_type s, v with
  | TBoolean, FvBool _ => True
  | TNumber, FvNumber n => in_range s n
  | TString, FvString t => forall b, fc_min_length s = Some b -> (b <= inject_Z (slength (trim t)))%Q
  | _, _ => False
  end.
Definition fits (s : FactSpec) (v : FactValue) : Prop :=
  typed s v /\ (forall os, fc_options s = Some os -> exists o, o ∈ os /\ strictly o v = true).
Record declared (s : FactSpec) (before : list string) : Prop := MkDeclared {
  dc_key : is_identifier (fc_key s) = true;
  dc_once : fc_key s ∉ before;
  dc_number : fc_type s <> TNumber -> fc_minimum s = None /\ fc_maximum s = None /\ fc_integer s = None;
  dc_string : fc_type s <> TString -> fc_min_length s = None;
  dc_range : forall a b, fc_minimum s = Some a -> fc_maximum s = Some b -> (a <= b)%Q;
  dc_default : fc_required s = Some true -> fc_default s = None;
  dc_options : forall os, fc_options s = Some os -> os <> [] /\ ForallOrdPairs (fun a b => same b a = false) os /\ forall o, o ∈ os -> typed s o;
  dc_fits : forall v, fc_default s = Some v -> fits s v }.
Inductive declarations : list string -> list FactSpec -> Prop :=
| declares_none before : declarations before []
| declares_one before s specs : declared s before -> declarations (before ++ [fc_key s]) specs -> declarations before (s :: specs).

Lemma Qlt_bool_false (a b : Q) : Qlt_bool a b = false <-> (b <= a)%Q.
Proof.
  unfold Qlt_bool. rewrite andb_false_iff, negb_false_iff, Qeq_bool_iff. split.
  - intros [H|H]; [|rewrite H; apply Qle_refl]. apply Qnot_lt_le. intros Hlt. apply Qlt_le_weak, Qle_bool_iff in Hlt. congruence.
  - intros H. destruct (Qle_bool a b) eqn:E; [|by left]. right. apply Qle_bool_iff in E. by apply Qle_antisym.
Qed.
Lemma Qlt_bool_true (a b : Q) : Qlt_bool a b = true <-> (a < b)%Q.
Proof.
  destruct (Qlt_bool a b) eqn:E.
  - split; [intros _|done]. apply Qnot_le_lt. intros H. apply Qlt_bool_false in H. congruence.
  - apply Qlt_bool_false in E. split; [done|]. intros H. exfalso. by apply (Qlt_not_le _ _ H).
Qed.
Lemma is_integer_spec (n : number) : is_integer n = true <-> exists z, (n == inject_Z z)%Q.
Proof.
  unfold is_integer. rewrite Z.eqb_eq. split.
  - intros H. exists (Qnum (Qred n)). rewrite <- (Qred_correct n) at 1. unfold inject_Z, Qeq. cbn. lia.
  - intros [z Hz]. apply Qred_complete in Hz. rewrite Hz. pose proof (Qcanon.Qred_identity (inject_Z z)) as H. rewrite H; [done|]. cbn. apply Z.gcd_1_r.
Qed.
Lemma below_false (n : number) (b : option number) : below n b = false <-> forall x, b = Some x -> (x <= n)%Q.
Proof. destruct b as [x|]; cbn [below]; [rewrite Qlt_bool_false|]; naive_solver. Qed.
Lemma above_false (n : number) (b : option number) : above n b = false <-> forall x, b = Some x -> (n <= x)%Q.
Proof. destruct b as [x|]; cbn [above]; [rewrite Qlt_bool_false|]; naive_solver. Qed.
Lemma find_none_forall {A} (p : A -> bool) (l : list A) : List.find p l = None <-> Forall (fun x => p x = false) l.
Proof.
  induction l as [|x l IH]; cbn [List.find]; [by split|]. rewrite Forall_cons. destruct (p x); [naive_solver|]. rewrite IH. naive_solver.
Qed.
Lemma typed_spec (s : FactSpec) (v : FactValue) :
  negb (String.eqb (typeof v) (type_name (fc_type s))) = false /\ match v with FvNotFinite _ => true | _ => false end = false /\
  match v with FvNumber n => bool_decide (fc_integer s = Some true) && negb (is_integer n) | _ => false end = false /\
  match v with FvNumber n => below n (fc_minimum s) | _ => false end = false /\
  match v with FvNumber n => above n (fc_maximum s) | _ => false end = false /\
  match v with FvString t => below (num_of_int (slength (trim t))) (fc_min_length s) | _ => false end = false <-> typed s v.
Proof.
  unfold typed, in_range.
  assert (forall n, bool_decide (fc_integer s = Some true) && negb (is_integer n) = false <-> (fc_integer s = Some true -> exists z, (n == inject_Z z)%Q)) as Hint.
  { intros n. rewrite andb_false_iff, bool_decide_eq_false, negb_false_iff, is_integer_spec. destruct (decide (fc_integer s = Some true)); naive_solver. }
  destruct (fc_type s), v; cbn [typeof type_name negb String.eqb Ascii.eqb Bool.eqb]; rewrite ?Hint, ?below_false, ?above_false; naive_solver.
Qed.
(** A value has no fault exactly when it fits its declaration. *)
Lemma valueFault_none (s : FactSpec) (v : FactValue) : valueFault s v = None <-> fits s v.
Proof.
  unfold valueFault, fits. rewrite <- typed_spec.
  transitivity (List.find (fun tm => fst tm s v) VALUE = None); [by destruct (List.find _ _)|]. rewrite find_none_forall. unfold VALUE.
  rewrite !Forall_cons, Forall_nil. cbn [fst].
  assert (match fc_options s with Some os => negb (existsb (fun o => strictly o v) os) | None => false end = false <->
          (forall os, fc_options s = Some os -> exists o, o ∈ os /\ strictly o v = true)) as Hopt.
  { destruct (fc_options s) as [os|]; [|by split]. rewrite negb_false_iff, existsb_exists. setoid_rewrite list_elem_of_In. naive_solver. }
  rewrite <- Hopt. tauto.
Qed.
Lemma set_of_unique (l : list FactValue) : length (set_of l) = length l <-> ForallOrdPairs (fun a b => same b a = false) l.
Proof.
  unfold set_of. enough (forall acc, (length (fold_left (fun acc x => if existsb (same x) acc then acc else acc ++ [x]) l acc) <= length acc + length l)%nat /\
    (length (fold_left (fun acc x => if existsb (same x) acc then acc else acc ++ [x]) l acc) = (length acc + length l)%nat <->
     Forall (fun a => Forall (fun b => same b a = false) l) acc /\ ForallOrdPairs (fun a b => same b a = false) l)) as H.
  { destruct (H []) as [_ Hx]. cbn [length] in Hx. rewrite Hx. split; [by intros []|by split]. }
  induction l as [|x l IH]; intros acc; cbn [fold_left length].
  - split; [lia|]. split; [|lia]. intros _. split; [|constructor]. apply Forall_forall. intros. constructor.
  - assert (Forall (fun a => Forall (fun b => same b a = false) (x :: l)) acc <->
      existsb (same x) acc = false /\ Forall (fun a => Forall (fun b => same b a = false) l) acc) as Hacc.
    { setoid_rewrite Forall_cons. rewrite !Forall_forall. split.
      - intros H. split; [|intros a Ha; by apply H]. apply not_true_iff_false. intros (a & Ha & E)%existsb_exists. apply list_elem_of_In in Ha.
        destruct (H a Ha) as [E' _]. congruence.
      - intros [He H] a Ha. split; [|by apply H]. apply not_true_iff_false. intros E. apply not_true_iff_false in He. apply He, existsb_exists.
        exists a. split; [by apply list_elem_of_In|done]. }
    assert (ForallOrdPairs (fun a b => same b a = false) (x :: l) <-> Forall (fun b => same b x = false) l /\ ForallOrdPairs (fun a b => same b a = false) l) as Hfop.
    { split; [by inversion 1|]. intros []. by constructor. }
    rewrite Hacc, Hfop. destruct (existsb (same x) acc) eqn:E.
    + destruct (IH acc) as [Hle _]. split; [lia|]. split; [lia|]. by intros [[? _] _].
    + destruct (IH (acc ++ [x])) as [Hle Heq]. rewrite length_app in *. cbn [length] in *. split; [lia|].
      replace (length acc + S (length l))%nat with (length acc + 1 + length l)%nat by lia. rewrite Heq, Forall_app, Forall_singleton. tauto.
Qed.
Lemma head_omap_none {A B} (f : A -> option B) (l : list A) : head (omap f l) = None <-> forall x, x ∈ l -> f x = None.
Proof.
  induction l as [|y l IH]; [by split; [intros _ x ?%elem_of_nil|]|]. cbn. destruct (f y) eqn:E.
  - split; [done|]. intros H. rewrite (H y) in E by (by left). done.
  - rewrite IH. split; [intros H x [->|Hx]%elem_of_cons; [done|by apply H]|]. intros H x Hx. apply H. by right.
Qed.
Lemma typed_without (s : FactSpec) (v : FactValue) : fits (without_options s) v <-> typed s v.
Proof. unfold fits. cbn. split; [by intros []|]. by split. Qed.
(** The checks of a declaration hold exactly when it is one. *)
Lemma declaration_none (s : FactSpec) (seen : list string) : declaration_fault s seen = None <-> declared s seen.
Proof.
  assert (option_fault s = None <-> forall os, fc_options s = Some os -> forall o, o ∈ os -> typed s o) as Ho.
  { unfold option_fault. destruct (fc_options s) as [os|]; [|by split]. rewrite head_omap_none. setoid_rewrite valueFault_none. setoid_rewrite typed_without. naive_solver. }
  assert (default_fault s = None <-> forall v, fc_default s = Some v -> fits s v) as Hd.
  { unfold default_fault. destruct (fc_default s) as [v|]; [|by split]. rewrite valueFault_none. naive_solver. }
  transitivity (List.find (fun tm => fst tm s seen) DECLARATION = None /\ option_fault s = None /\ default_fault s = None).
  { unfold declaration_fault. destruct (List.find _ _); [naive_solver|]. destruct (option_fault s); naive_solver. }
  rewrite Ho, Hd, find_none_forall. unfold DECLARATION. rewrite !Forall_cons, Forall_nil. cbn [fst].
  rewrite negb_false_iff, includes_false, !andb_false_iff, !negb_false_iff, !bool_decide_eq_true, bool_decide_eq_false.
  assert (match fc_options s with Some os => (length os =? 0)%nat || negb (length (set_of os) =? length os)%nat | None => false end = false <->
          forall os, fc_options s = Some os -> os <> [] /\ ForallOrdPairs (fun a b => same b a = false) os) as Hu.
  { destruct (fc_options s) as [os|]; [|by split]. rewrite orb_false_iff, negb_false_iff, Nat.eqb_neq, Nat.eqb_eq, set_of_unique.
    split; [intros [Hn Hf] os' [= <-]; split; [by intros ->|done]|]. intros H. destruct (H os eq_refl) as [Hn Hf]. split; [by destruct os|done]. }
  rewrite Hu. assert (match fc_minimum s, fc_maximum s with Some a, Some b => Qlt_bool b a | _, _ => false end = false <->
     forall a b, fc_minimum s = Some a -> fc_maximum s = Some b -> (a <= b)%Q) as Hr.
  { destruct (fc_minimum s) as [a|], (fc_maximum s) as [b|]; try (split; [intros _ ? ?|]; done). rewrite Qlt_bool_false. naive_solver. }
  rewrite Hr. split.
  - intros ((H1 & H2 & H3 & H4 & H5 & H6 & H7 & _) & H8 & H9). constructor; try done.
    + intros Hne. destruct H3 as [?|H3]; [done|]. rewrite !orb_false_iff in H3. destruct (fc_minimum s), (fc_maximum s), (fc_integer s); naive_solver.
    + intros Hne. destruct H4 as [?|H4]; [done|]. by destruct (fc_min_length s).
    + intros Hreq. destruct H6 as [?|H6]; [done|]. by destruct (fc_default s).
    + intros os Hos. destruct (H7 os Hos) as [Hn Hf]. split_and!; try done. by apply H8.
  - intros [H1 H2 H3 H4 H5 H6 H7 H8]. split_and!; try done.
    + destruct (decide (fc_type s = TNumber)) as [|Hne]; [by left|]. right. destruct (H3 Hne) as (-> & -> & ->). done.
    + destruct (decide (fc_type s = TString)) as [|Hne]; [by left|]. right. by rewrite (H4 Hne).
    + destruct (decide (fc_required s = Some true)) as [Hr'|]; [right; by rewrite (H6 Hr')|by left].
    + intros os Hos. by destruct (H7 os Hos) as (? & ? & _).
    + intros os Hos. by destruct (H7 os Hos) as (_ & _ & ?).
Qed.
Lemma facts_from_ok (specs : list FactSpec) (seen : list string) : facts_from seen specs = Ok tt <-> declarations seen specs.
Proof.
  revert seen. induction specs as [|s specs IH]; intros seen; cbn [facts_from].
  - split; [constructor|done].
  - destruct (declaration_fault s seen) as [f|] eqn:E.
    + split; [done|]. inversion 1 as [|? ? ? Hd _]; subst. apply declaration_none in Hd. congruence.
    + rewrite IH. apply declaration_none in E. split; [by constructor|by inversion 1].
Qed.
(** Declarations are checked completely. [facts] accepts a list of declarations just when each key is an identifier declared once, each
    constraint is one of its type, ranges are not empty, no required fact has a default, options are nonempty, distinct and typed, and
    every default fits its own declaration; otherwise it throws. *)
Theorem facts_checked (specs : list FactSpec) : facts specs = Ok specs <-> declarations [] specs.
Proof. rewrite <- facts_from_ok. unfold facts. by destruct (facts_from [] specs) as [[]|e]. Qed.

Lemma first_fault_none {A} (f : A -> option string) (l : list A) : first_fault f l = None <-> forall x, x ∈ l -> f x = None.
Proof.
  induction l as [|y l IH]; cbn [first_fault]; [by split; [intros _ x ?%elem_of_nil|]|]. destruct (f y) eqn:E.
  - split; [done|]. intros H. rewrite (H y) in E by (by left). done.
  - rewrite IH. split; [intros H x [->|Hx]%elem_of_cons; [done|by apply H]|]. intros H x Hx. apply H. by right.
Qed.
Lemma faults_spec (specs : list FactSpec) (values : dict (option FactValue)) (complete : bool) :
  validateFacts specs values complete = None <->
  (forall key, key ∈ keys values -> exists s, s ∈ specs /\ fc_key s = key) /\
  (forall s, s ∈ specs ->
     (forall v, fact_of values (fc_key s) = Some v -> blank (Some v) = false -> fits s v) /\
     (complete = true -> fc_required s = Some true -> blank (fact_of values (fc_key s)) = false)).
Proof.
  assert (List.find (fun key => negb (includes (map fc_key specs) key)) (keys values) = None <->
          forall key, key ∈ keys values -> exists s, s ∈ specs /\ fc_key s = key) as Hk.
  { rewrite find_none_forall, Forall_forall. setoid_rewrite negb_false_iff. setoid_rewrite includes_spec. setoid_rewrite list_elem_of_fmap. naive_solver. }
  transitivity (List.find (fun key => negb (includes (map fc_key specs) key)) (keys values) = None /\ first_fault (fact_fault complete values) specs = None).
  { unfold validateFacts. destruct (List.find _ _); naive_solver. }
  rewrite Hk, first_fault_none. apply and_iff_compat_l.
  assert (forall s, fact_fault complete values s = None <->
     (forall v, fact_of values (fc_key s) = Some v -> blank (Some v) = false -> fits s v) /\
     (complete = true -> fc_required s = Some true -> blank (fact_of values (fc_key s)) = false)) as Hf; [|by setoid_rewrite Hf].
  intros s. unfold fact_fault. cbv zeta.
  assert ((if complete && default false (fc_required s) then Some (nameOf s +:+ " is required.") else None) = None <->
    (complete = true -> fc_required s = Some true -> true = false)) as Hreq.
  { destruct complete; [|by split]. destruct (fc_required s) as [[|]|]; cbn; [split; [done|intros H; by specialize (H eq_refl eq_refl)]|by split|by split]. }
  destruct (blank (fact_of values (fc_key s))) eqn:Eb.
  - rewrite Hreq. split; [|by intros []]. intros H. split; [|done]. intros v Hv Hb. rewrite Hv in Eb. congruence.
  - destruct (fact_of values (fc_key s)) as [v|]; [|done]. rewrite valueFault_none. split; [intros H; split; [by intros ? [= <-]|done]|].
    intros [H _]. by apply H.
Qed.
(** The value a record holds under a key, its own or an inherited one; [Some None] is an own [null] or [undefined]. *)
Inductive holds_value (values : dict (option FactValue)) (key : string) : FactValue -> Prop :=
| holds_own v : get values key = Some (Some v) -> holds_value values key v
| holds_inherited v : get values key = None -> inherited key = Some v -> holds_value values key v.
(** A value of whitespace alone counts as none, whatever the declared type. *)
Definition white (v : FactValue) : Prop := exists t, v = FvString t /\ all_chars is_space t = true.
Lemma trim_white (t : string) : String.eqb (trim t) "" = all_chars is_space t.
Proof.
  unfold trim. induction t as [|c t IH]; [done|]. cbn [trim_start all_chars]. destruct (is_space c) eqn:E; [exact IH|]. cbn [andb trim_end].
  destruct (trim_end t); [by rewrite E|done].
Qed.
Lemma holds_value_spec (values : dict (option FactValue)) (key : string) (v : FactValue) : holds_value values key v <-> fact_of values key = Some v.
Proof.
  unfold fact_of. split.
  - by intros [w H|w H Hi]; rewrite H.
  - destruct (get values key) as [w|] eqn:E; intros H; [apply holds_own; by rewrite E, H|by apply holds_inherited].
Qed.
Lemma blank_white (v : FactValue) : blank (Some v) = false <-> ~ white v.
Proof.
  unfold white. cbn [blank]. destruct v; try (split; [by intros _ (? & ? & _)|done]). rewrite trim_white. split.
  - by intros H (t & [= <-] & E); rewrite E in H.
  - intros H. apply not_true_iff_false. intros E. apply H. by eexists.
Qed.
Lemma values_typed_spec (specs : list FactSpec) (values : dict (option FactValue)) (complete : bool) :
  validateFacts specs values complete = None <->
  (forall key, key ∈ keys values -> exists s, s ∈ specs /\ fc_key s = key) /\
  (forall s, s ∈ specs ->
     (forall v, holds_value values (fc_key s) v -> ~ white v -> fits s v) /\
     (complete = true -> fc_required s = Some true -> exists v, holds_value values (fc_key s) v /\ ~ white v)).
Proof.
  rewrite faults_spec. setoid_rewrite <- blank_white. setoid_rewrite holds_value_spec.
  assert (forall key, blank (fact_of values key) = false <-> exists v, fact_of values key = Some v /\ blank (Some v) = false) as Hb.
  { intros key. destruct (fact_of values key) as [v|]; [|split; [done|by intros (? & ? & _)]]. split; [eauto|by intros (? & [= <-] & ?)]. }
  by setoid_rewrite Hb.
Qed.
(** C38. A validated record is typed. [validateFacts] finds no fault exactly when every key of the record is declared, the value it
    holds under a declared key, unless it is none or of whitespace alone, is of the declared type and within its range and
    options, and, for a complete record, it holds such a value for every required fact. What it holds includes what every
    object inherits, so a fact keyed [constructor] that is left out is a fault ([Form.inherited_faulted]). *)
Theorem values_typed (specs : list FactSpec) (values : dict (option FactValue)) (complete : bool) :
  validateFacts specs values complete = None <->
  (forall key, key ∈ keys values -> exists s, s ∈ specs /\ fc_key s = key) /\
  (forall s, s ∈ specs ->
     (forall v, holds_value values (fc_key s) v -> ~ white v -> fits s v) /\
     (complete = true -> fc_required s = Some true -> exists v, holds_value values (fc_key s) v /\ ~ white v)).
Proof. exact (values_typed_spec specs values complete). Qed.
(** The record of the declared defaults. *)
Definition defaults (specs : list FactSpec) : dict (option FactValue) := omap (fun s => option_map (fun v => (fc_key s, Some v)) (fc_default s)) specs.
Lemma declarations_in (before : list string) (specs : list FactSpec) : declarations before specs ->
  NoDup (map fc_key specs) /\ (forall s, s ∈ specs -> fc_key s ∉ before) /\ forall s v, s ∈ specs -> fc_default s = Some v -> fits s v.
Proof.
  induction 1 as [|before s specs Hs _ (IH1 & IH2 & IH3)]; [split_and!; [constructor|by intros ? ?%elem_of_nil|by intros ? ? ?%elem_of_nil]|]. split_and!.
  - cbn [map]. constructor; [|done]. intros (t & E & Ht)%list_elem_of_fmap. apply (IH2 t Ht). rewrite <- E. set_solver.
  - intros t [->|Ht]%elem_of_cons; [apply Hs|]. specialize (IH2 t Ht). set_solver.
  - intros t v [->|Ht]%elem_of_cons; [apply Hs|by apply IH3].
Qed.
Lemma defaults_get (specs : list FactSpec) (s : FactSpec) : NoDup (map fc_key specs) -> s ∈ specs -> get (defaults specs) (fc_key s) = option_map Some (fc_default s).
Proof.
  unfold defaults. induction specs as [|t specs IH]; cbn [map]; intros Hn Hin; [by apply elem_of_nil in Hin|]. apply NoDup_cons in Hn as [Hx Hn].
  assert (forall l, fc_key s ∉ map fc_key l -> get (omap (fun s => option_map (fun v => (fc_key s, Some v)) (fc_default s)) l) (fc_key s) = None) as Hnone.
  { clear. induction l as [|t l IH]; cbn [map]; intros H; [done|]. apply not_elem_of_cons in H as [Hne H]. cbn.
    destruct (fc_default t); cbn [option_map get]; [|by apply IH]. destruct (String.eqb_spec (fc_key t) (fc_key s)); [congruence|by apply IH]. }
  apply elem_of_cons in Hin as [->|Hin]; cbn.
  - destruct (fc_default t); cbn [option_map get]; [by rewrite String.eqb_refl|]. by rewrite (Hnone specs).
  - destruct (fc_default t) as [v|]; cbn [option_map get]; [|by apply IH]. destruct (String.eqb_spec (fc_key t) (fc_key s)) as [E|]; [|by apply IH].
    exfalso. apply Hx. rewrite E. apply list_elem_of_fmap. by exists s.
Qed.
(** The defaults of accepted declarations are a valid record, where no fact without a default is keyed like a member every
    object inherits. *)
Theorem defaults_valid (specs : list FactSpec) : facts specs = Ok specs ->
  (forall s, s ∈ specs -> fc_default s = None -> inherited (fc_key s) = None) -> validateFacts specs (defaults specs) false = None.
Proof.
  intros H Hi. assert (declarations [] specs) as Hd.
  { apply facts_from_ok. unfold facts in H. by destruct (facts_from [] specs) as [[]|]. }
  apply declarations_in in Hd as (Hn & _ & Hf). apply values_typed_spec. split.
  - intros key (kv & -> & Hin)%list_elem_of_fmap. apply list_elem_of_omap in Hin as (s & Hs & E). exists s. split; [done|].
    destruct (fc_default s); [|done]. by injection E as <-.
  - intros s Hs. split; [|done]. intros v Hv _. pose proof (defaults_get specs s Hn Hs) as Hg. destruct Hv as [v Hv|v Hv Hinh]; rewrite Hg in Hv.
    + apply Hf; [done|]. destruct (fc_default s); [|done]. cbn in Hv. by injection Hv as ->.
    + destruct (fc_default s) eqn:Ed; [done|]. rewrite (Hi s Hs Ed) in Hinh. done.
Qed.
End Facts.
End Facts.

(** ** Priced lines. *)
Module Pricing.
Import Decimal.
Record Band := MkBand { bd_when : option string; bd_take : option string; bd_price : string; bd_label : option string }.
Record Line := MkLine { ln_code : string; ln_label : string; ln_bucket : string; ln_quantity : option DecimalLike; ln_bands : list Band }.
(** What a formula's value is: a decimal, or a number under float contexts. *)
Inductive Value := VNull | VBool (b : bool) | VDecimal (d : Decimal.t) | VNumber (v : jsnumber) | VText (s : string).
Record Slice := MkSlice { sl_band : nat; sl_label : option string; sl_quantity : option Decimal.t; sl_amount : Value }.
Record PricedLine := MkPriced {
  pl_code : string; pl_label : string; pl_bucket : string; pl_band : nat; pl_quantity : option Decimal.t; pl_amount : Value }.
Inductive Result := RBool | RDecimal.

Section Pricing.
(** The compiler and the evaluator of formulas under one context. *)
Context (Expr : Type) (compile : string -> Result -> string + Expr) (evaluate : Expr -> dict Value -> outcome Value).
Definition run (text : string) (result : Result) (values : dict Value) : outcome Value :=
  match compile text result with
  | inl error => PlainError ("'" +:+ text +:+ "' does not compile: " +:+ error)
  | inr c => evaluate c values
  end.
Definition TEN : jsnumber := num_of_Z 10.
(** [toDecimal]; [String(v)] of what is neither a decimal nor a number is no number's text. *)
Definition toDecimal (v : Value) : outcome Decimal.t :=
  match v with
  | VDecimal d => Ok d
  | VNumber n => fromNumber n TEN halfUp
  | VNull => RangeError "null is not a finite number"
  | VBool b => RangeError ((if b then "true" else "false") +:+ " is not a finite number")
  | VText s => RangeError (s +:+ " is not a finite number")
  end.
Definition with_quantity (values : dict Value) (q : option Decimal.t) : dict Value :=
  set values "quantity" (match q with Some d => VDecimal d | None => VNull end).
Definition holds (values : dict Value) (b : Band) (q : option Decimal.t) : outcome bool :=
  match bd_when b with
  | None => Ok true
  | Some when => v ← run when RBool (with_quantity values q); Ok match v with VBool true => true | _ => false end
  end.
Definition price (values : dict Value) (b : Band) (q : option Decimal.t) : outcome Value := run (bd_price b) RDecimal (with_quantity values q).
(** With no quantity: the first band that holds prices the whole. *)
Fixpoint flat_band (values : dict Value) (i : nat) (bands : list Band) : outcome (list Slice) :=
  match bands with
  | [] => Ok []
  | b :: bands' =>
      h ← holds values b None;
      if (h : bool) then amount ← price values b None; Ok [MkSlice i (bd_label b) None amount] else flat_band values (S i) bands'
  end.
Definition wanted (values : dict Value) (b : Band) (left : Decimal.t) : outcome Decimal.t :=
  match bd_take b with None => Ok left | Some text => v ← run text RDecimal (with_quantity values (Some left)); toDecimal v end.
(** With one: the bands take slices in order until it is used up. *)
Fixpoint sliced (values : dict Value) (i : nat) (bands : list Band) (left : Decimal.t) : outcome (list Slice) :=
  match bands with
  | [] => Ok []
  | b :: bands' =>
      if sign left <=? 0 then Ok []
      else
        h ← holds values b (Some left);
        if negb h then sliced values (S i) bands' left
        else
          want ← wanted values b left;
          over ← gt want (LDecimal left);
          let take := if (over : bool) then left else want in
          if sign take <=? 0 then sliced values (S i) bands' left
          else
            amount ← price values b (Some take);
            left' ← minus left (LDecimal take);
            rest ← sliced values (S i) bands' left';
            Ok (MkSlice i (bd_label b) (Some take) amount :: rest)
  end.
Definition band (bands : list Band) (values : dict Value) (quantity : option DecimalLike) : outcome (list Slice) :=
  match quantity with
  | None => flat_band values 0 bands
  | Some q => d ← of_like q; sliced values 0 bands d
  end.
Definition priced_line (l : Line) (s : Slice) : PricedLine :=
  MkPriced (ln_code l) (default (ln_label l) (sl_label s)) (ln_bucket l) (sl_band s) (sl_quantity s) (sl_amount s).
Definition pricedLines (lines : list Line) (values : dict Value) : outcome (list PricedLine) :=
  parts ← map_outcome (fun l => ss ← band (ln_bands l) values (ln_quantity l); Ok (map (priced_line l) ss)) lines; Ok (concat parts).

(** *** A quantity is never priced twice, and never more than there is. *)
(** A decimal's scale is never negative, in what a formula reads and in what it answers. *)
Definition wf_values (values : dict Value) : Prop := forall key d, get values key = Some (VDecimal d) -> wf d.
Hypothesis Hwf : forall e values d, wf_values values -> evaluate e values = Ok (VDecimal d) -> wf d.
Definition quantity_of (s : Slice) : Q := match sl_quantity s with Some d => value d | None => 0%Q end.
Definition allotted (ss : list Slice) : Q := foldr (fun s acc => quantity_of s + acc)%Q 0%Q ss.
(** A slice of a quantity at most [left]: a positive part of it, at the price of its band for that part. *)
Definition slice_of (values : dict Value) (bands : list Band) (i : nat) (left : Q) (s : Slice) : Prop :=
  exists b d, bands !! (sl_band s - i)%nat = Some b /\ (i <= sl_band s)%nat /\ sl_label s = bd_label b /\ sl_quantity s = Some d /\ wf d /\
    (0 < value d)%Q /\ (value d <= left)%Q /\ price values b (Some d) = Ok (sl_amount s) /\
    exists l, holds values b (Some l) = Ok true /\ wf l /\ (value d <= value l)%Q.

Lemma sign_pos (d : Decimal.t) : wf d -> (sign d <=? 0) = false <-> (0 < value d)%Q.
Proof.
  intros Hd. unfold sign, value. assert (0 < inject_Z (pow10 (scale d)))%Q as Hp.
  { change 0%Q with (inject_Z 0). rewrite <- Zlt_Qlt. apply pow10_pos. exact Hd. }
  assert ((0 < inject_Z (coeff d) / inject_Z (pow10 (scale d)))%Q <-> 0 < coeff d) as ->.
  { rewrite (Zlt_Qlt 0 (coeff d)). split; intros H.
    - apply (Qmult_lt_r _ _ (/ inject_Z (pow10 (scale d)))); [by apply Qinv_lt_0_compat|]. rewrite Qmult_0_l. exact H.
    - unfold Qdiv. rewrite <- (Qmult_0_l (/ inject_Z (pow10 (scale d)))). apply Qmult_lt_r; [by apply Qinv_lt_0_compat|exact H]. }
  destruct (coeff d <? 0) eqn:E1; [|destruct (coeff d >? 0) eqn:E2]; cbn; lia.
Qed.
Lemma minus_value (x y : Decimal.t) : wf x -> wf y -> exists z, minus x (LDecimal y) = Ok z /\ wf z /\ (value z == value x - value y)%Q.
Proof.
  intros Hx Hy. destruct (pair_spec x y (LDecimal y) Hx Hy eq_refl) as (a & b & s & Hp & Hs & Ha & Hb).
  exists (Decimal.mk (a - b) s). unfold minus. rewrite Hp. split_and!; [done|exact Hs|].
  apply value_mk; [done|]. unfold Z.sub. rewrite inject_Z_plus, inject_Z_opp, Ha, Hb. ring.
Qed.
Lemma gt_value (x y : Decimal.t) : wf x -> wf y -> exists g, gt x (LDecimal y) = Ok g /\ if (g : bool) then (value y < value x)%Q else (value x <= value y)%Q.
Proof.
  intros Hx Hy. destruct (pair_spec x y (LDecimal y) Hx Hy eq_refl) as (a & b & s & Hp & Hs & Ha & Hb). unfold gt, cmp. rewrite Hp. cbn [mbind outcome_bind].
  eexists. split; [reflexivity|]. assert ((value x ?= value y)%Q = (a ?= b)) as Hc.
  { rewrite <- (Qcompare_scaled (value x) (value y) (inject_Z (pow10 s))).
    - rewrite <- Ha, <- Hb. apply Qcompare_inject.
    - change 0%Q with (inject_Z 0). rewrite <- Zlt_Qlt. by apply pow10_pos. }
  unfold Z.ltb, Z.gtb. destruct (a ?= b) eqn:E.
  - apply Qeq_alt in Hc. cbn. apply Qle_lteq. by right.
  - apply Qlt_alt in Hc. by apply Qlt_le_weak.
  - by apply Qgt_alt in Hc.
Qed.
Lemma run_wf (text : string) (r : Result) (values : dict Value) (d : Decimal.t) : wf_values values -> run text r values = Ok (VDecimal d) -> wf d.
Proof. intros Hv. unfold run. destruct (compile text r); [done|]. by apply Hwf. Qed.
Lemma with_quantity_wf (values : dict Value) (d : Decimal.t) : wf_values values -> wf d -> wf_values (with_quantity values (Some d)).
Proof.
  intros Hv Hd key x. unfold with_quantity. destruct (decide ("quantity"%string = key)) as [<-|Hne]; [rewrite get_set_eq; by intros [= <-]|].
  rewrite get_set_ne by done. apply Hv.
Qed.
Lemma wanted_wf (values : dict Value) (b : Band) (left d : Decimal.t) : wf_values values -> wf left -> wanted values b left = Ok d -> wf d.
Proof.
  intros Hv Hl. unfold wanted. destruct (bd_take b) as [text|]; [|by intros [= <-]]. intros H. inv_outcome.
  match goal with E : run _ _ _ = Ok ?v, H : toDecimal ?v = Ok d |- _ => destruct v; try done; cbn in H end.
  - match goal with E : run _ _ _ = _, H : Ok _ = Ok _ |- _ => injection H as <-; apply run_wf in E; [done|by apply with_quantity_wf] end.
  - by eapply fromNumber_wf.
Qed.
Lemma slice_weaken (values : dict Value) (b : Band) (bands : list Band) (i : nat) (q q' : Q) (s : Slice) :
  (q <= q')%Q -> slice_of values bands (S i) q s -> slice_of values (b :: bands) i q' s.
Proof.
  intros Hq (b' & d & Hb & Hi & Hl & Hd & Hw & Hp & Hle & Hpr & l & Hh & Hwl & Hdl). exists b', d. split_and!; try done; [|lia| |by exists l].
  - replace (sl_band s - i)%nat with (S (sl_band s - S i)) by lia. exact Hb.
  - by apply (Qle_trans _ q).
Qed.
(** The bands after one that takes nothing. *)
Record allots (values : dict Value) (bands : list Band) (i : nat) (left : Decimal.t) (out : list Slice) : Prop := MkAllots {
  al_slices : Forall (slice_of values bands i (value left)) out;
  al_order : StronglySorted Nat.lt (map sl_band out);
  al_none : (value left <= 0)%Q -> out = [];
  al_within : (0 < value left)%Q -> (allotted out <= value left)%Q;
  al_all : (0 < value left)%Q -> (exists b, b ∈ bands /\ bd_when b = None /\ bd_take b = None) -> (allotted out == value left)%Q }.
Lemma allots_skip (values : dict Value) (b : Band) (bands : list Band) (i : nat) (left : Decimal.t) (out : list Slice) : 
  ((0 < value left)%Q -> bd_when b <> None \/ bd_take b <> None) -> allots values bands (S i) left out -> allots values (b :: bands) i left out.
Proof.
  intros Hb [H1 H2 H3 H4 H5]. constructor; try done.
  - eapply Forall_impl; [exact H1|]. intros s. apply slice_weaken, Qle_refl.
  - intros Hp (b' & Hin & Hw & Ht). apply elem_of_cons in Hin as [->|Hin]; [destruct (Hb Hp); congruence|]. apply H5; [done|]. by exists b'.
Qed.
Lemma sliced_allots (values : dict Value) (bands : list Band) (i : nat) (left : Decimal.t) (out : list Slice) : wf_values values -> wf left ->
  sliced values i bands left = Ok out -> allots values bands i left out.
Proof.
  intros Hvs. revert i left out. induction bands as [|b bands IH]; intros i left out Hl H; cbn [sliced] in H.
  { injection H as <-. constructor; try constructor; [intros; by apply Qlt_le_weak|]. intros _ (b & Hb & _). by apply elem_of_nil in Hb. }
  destruct (sign left <=? 0) eqn:Es.
  { injection H as <-. assert (~ (0 < value left)%Q) as Hn by (intros Hp; apply sign_pos in Hp; [congruence|done]). constructor; try constructor; done. }
  apply sign_pos in Es; [|done]. destruct (holds values b (Some left)) as [h|] eqn:Eh; [|done]. cbn [mbind outcome_bind] in H.
  destruct h; cbn [negb] in H.
  2:{ apply allots_skip; [|by apply IH]. intros _. left. intros Hw. unfold holds in Eh. by rewrite Hw in Eh. }
  destruct (wanted values b left) as [want|] eqn:Ew; [|done]. cbn [mbind outcome_bind] in H. pose proof (wanted_wf _ _ _ _ Hvs Hl Ew) as Hww.
  destruct (gt_value want left Hww Hl) as (over & Eg & Hover). rewrite Eg in H. cbn [mbind outcome_bind] in H. cbv zeta in H.
  set (tk := if over then left else want) in *.
  assert (wf tk /\ (value tk <= value left)%Q) as [Hwt Htl] by (unfold tk; destruct over; split; [done|apply Qle_refl|done|done]).
  destruct (sign tk <=? 0) eqn:Et.
  { apply allots_skip; [|by apply IH]. intros _. right. intros Hn. unfold wanted in Ew. rewrite Hn in Ew. injection Ew as <-.
    assert ((0 < value tk)%Q) as Hp by (unfold tk; by destruct over). apply sign_pos in Hp; [congruence|done]. }
  apply sign_pos in Et; [|done]. destruct (price values b (Some tk)) as [amount|] eqn:Ep; [|done]. cbn [mbind outcome_bind] in H.
  destruct (minus_value left tk Hl Hwt) as (left' & Em & Hwl' & Hv). rewrite Em in H. cbn [mbind outcome_bind] in H.
  destruct (sliced values (S i) bands left') as [rest|] eqn:Er; [|done]. injection H as <-. destruct (IH _ _ _ Hwl' Er) as [R1 R2 R3 R4 R5].
  assert (value left' <= value left)%Q as Hle by (rewrite Hv; lra).
  assert (allotted (MkSlice i (bd_label b) (Some tk) amount :: rest) == value tk + allotted rest)%Q as Ha by reflexivity.
  constructor.
  - constructor.
    + exists b, tk. cbn [sl_band sl_label sl_quantity sl_amount]. rewrite Nat.sub_diag. split_and!; try done. by exists left.
    + eapply Forall_impl; [exact R1|]. intros s. by apply slice_weaken.
  - cbn [map]. constructor; [done|]. apply Forall_forall. intros j (s & -> & Hs)%list_elem_of_fmap. rewrite Forall_forall in R1.
    destruct (R1 s Hs) as (? & ? & _ & ? & _). cbn [sl_band]. lia.
  - intros Hn. lra.
  - intros _. rewrite Ha. destruct (Qlt_le_dec 0 (value left')) as [Hp|Hn]; [specialize (R4 Hp); rewrite Hv in R4; lra|]. rewrite (R3 Hn). cbn. lra.
  - intros Hp (b' & Hin & Hw & Hn). rewrite Ha. destruct (Qlt_le_dec 0 (value left')) as [Hp'|Hn'].
    + apply elem_of_cons in Hin as [->|Hin].
      * exfalso. unfold wanted in Ew. rewrite Hn in Ew. injection Ew as <-. assert (value tk == value left)%Q as E by (unfold tk; by destruct over). lra.
      * rewrite (R5 Hp'); [rewrite Hv; lra|]. by exists b'.
    + rewrite (R3 Hn'). cbn. lra.
Qed.
(** Every unit is priced at most once. Whatever the bands' formulas answer, the slices of a quantity are positive, each is the price of a
    band that holds for what was left when it was reached, the bands come in order, and together they are never more than the quantity; they
    are all of it as soon as one band takes what is left under no condition. *)
Theorem bands_conserve (bands : list Band) (values : dict Value) (q : DecimalLike) (d : Decimal.t) (out : list Slice) :
  wf_values values -> wf_like q -> of_like q = Ok d -> band bands values (Some q) = Ok out ->
  Forall (slice_of values bands 0 (value d)) out /\ StronglySorted Nat.lt (map sl_band out) /\
  ((value d <= 0)%Q -> out = []) /\ ((0 < value d)%Q -> (0 <= allotted out <= value d)%Q) /\
  ((0 < value d)%Q -> (exists b, b ∈ bands /\ bd_when b = None /\ bd_take b = None) -> (allotted out == value d)%Q).
Proof.
  intros Hvs Hq Hd H. unfold band in H. rewrite Hd in H. cbn [mbind outcome_bind] in H.
  destruct (sliced_allots values bands 0 d out Hvs (of_like_wf q d Hq Hd) H) as [H1 H2 H3 H4 H5]. split_and!; try done.
  intros Hp. split; [|by apply H4]. clear -H1. induction H1 as [|s out (b & x & _ & _ & _ & E & _ & Hx & _) _ IH]; [apply Qle_refl|].
  change (0 <= quantity_of s + allotted out)%Q. assert (quantity_of s = value x) as -> by (unfold quantity_of; by rewrite E). lra.
Qed.
(** Without a quantity the first band that holds prices the whole, and no other is asked. *)
Lemma flat_band_first (values : dict Value) (bands : list Band) (i : nat) (out : list Slice) : flat_band values i bands = Ok out ->
  (out = [] /\ forall b, b ∈ bands -> holds values b None = Ok false) \/
  exists j b amount, bands !! j = Some b /\ out = [MkSlice (i + j) (bd_label b) None amount] /\ price values b None = Ok amount /\
    holds values b None = Ok true /\ forall n b', (n < j)%nat -> bands !! n = Some b' -> holds values b' None = Ok false.
Proof.
  revert i. induction bands as [|b bands IH]; intros i H; cbn [flat_band] in H.
  - injection H as <-. left. split; [done|]. by intros b ?%elem_of_nil.
  - destruct (holds values b None) as [[]|] eqn:Eh; [| |done]; cbn [mbind outcome_bind] in H.
    + destruct (price values b None) as [amount|] eqn:Ep; [|done]. injection H as <-. right. exists 0%nat, b, amount. rewrite Nat.add_0_r.
      split_and!; try done. intros n b' Hn. lia.
    + destruct (IH _ H) as [[-> Hall]|(j & b' & amount & Hj & -> & Hp & Hh & Hbefore)].
      * left. split; [done|]. intros b' [->|Hb']%elem_of_cons; [done|by apply Hall].
      * right. exists (S j), b', amount. rewrite Nat.add_succ_r. split_and!; try done. intros [|n] x Hn; cbn; [by intros [= <-]|]. apply Hbefore. lia.
Qed.
End Pricing.
End Pricing.

(** ** Samples: an intake form, and a price list with two breaks. *)
Module Form.
Import Facts.
Definition nt (_ : number) : string := "1".
Definition age : FactSpec := MkFactSpec "age" TNumber (Some " Age "%string) (Some true) None None (Some 0%Q) (Some 120%Q) (Some true) None.
Definition level : FactSpec :=
  MkFactSpec "level" TString None None (Some (FvString "basic")) (Some [FvString "basic"; FvString "full"]) None None None None.
Definition form : list FactSpec := [age; level].
Example form_checked : facts nt form = Ok form. Proof. vm_compute. reflexivity. Qed.
Example bad_age : validateFacts nt form [("age"%string, Some (FvNumber (3#2)))] false = Some "Age must be a whole number."%string.
Proof. vm_compute. reflexivity. Qed.
Example missing_age : validateFacts nt form [("level"%string, Some (FvString "full"))] true = Some "Age is required."%string.
Proof. vm_compute. reflexivity. Qed.
Lemma defaults_valid_witness : validateFacts nt form [("level"%string, Some (FvString "basic"))] false = None.
Proof.
  apply (defaults_valid nt form form_checked). intros s Hs. assert (Forall (fun s => fc_default s = None -> inherited (fc_key s) = None) form) as H.
  { repeat constructor. }
  rewrite Forall_forall in H. exact (H s Hs).
Defined.
(** An optional text keyed like a member every object inherits: its declaration is accepted, and a record that leaves it
    out, or that only sets another fact, is refused. *)
Definition builder : FactSpec := MkFactSpec "constructor" TString None None None None None None None None.
Theorem inherited_faulted : facts nt [builder] = Ok [builder] /\
  validateFacts nt [builder] [] false = Some "constructor must be a string; this value is a function."%string /\
  validateFacts nt [builder] [("constructor"%string, Some (FvString "Acme"))] false = None.
Proof. vm_compute. split_and!; reflexivity. Qed.
End Form.
Module Prices.
Import Decimal Pricing.
(** Formulas are whole numbers written out, or the quantity itself. *)
Definition compile (text : string) (_ : Result) : string + string := if String.eqb text "" then inl "empty"%string else inr text.
Definition evaluate (c : string) (values : dict Value) : outcome Value :=
  if String.eqb c "quantity" then Ok (default VNull (get values "quantity")) else Ok (VDecimal (Decimal.mk (digits_val c) 0)).
Definition bands : list Band :=
  [MkBand None (Some "10"%string) "5" (Some "first ten"%string); MkBand None None "4" None; MkBand None None "1" None].
Definition priced := band string compile evaluate bands [] (Some (LText "12.5")).
Definition slices : list Slice :=
  [MkSlice 0 (Some "first ten"%string) (Some (Decimal.mk 10 0)) (VDecimal (Decimal.mk 5 0)); MkSlice 1 None (Some (Decimal.mk 25 1)) (VDecimal (Decimal.mk 4 0))].
Lemma priced_slices : priced = Ok slices. Proof. vm_compute. reflexivity. Qed.
Lemma evaluate_wf (e : string) (values : dict Value) (d : Decimal.t) : wf_values values -> evaluate e values = Ok (VDecimal d) -> wf d.
Proof.
  unfold evaluate. intros H. destruct (String.eqb e "quantity"); [|intros [= <-]; done]. destruct (get values "quantity") as [v|] eqn:E; [|done].
  cbn [default from_option id]. intros [= ->]. by apply (H _ _ E).
Qed.
Lemma bands_conserve_witness : (allotted slices == value (Decimal.mk 125 1))%Q /\ (0 <= allotted slices <= value (Decimal.mk 125 1))%Q.
Proof.
  assert (wf_values []) as Hv by (intros ? ? [=]). assert (0 < value (Decimal.mk 125 1))%Q as Hp by (vm_compute; reflexivity).
  destruct (bands_conserve string compile evaluate evaluate_wf bands [] (LText "12.5") (Decimal.mk 125 1) slices Hv I eq_refl priced_slices)
    as (_ & _ & _ & H1 & H2).
  split; [|exact (H1 Hp)]. apply (H2 Hp). exists (MkBand None None "4" None). split; [right; left|]. by split.
Defined.
End Prices.
