(* ===== verification/Sheet.v ===== *)
(** Sheets: [packages/std/src/sheet.ts], the one codec between a table of cells and typed rows. The first line is the header; a
    date period takes two columns. A number cell is the double it holds, by its value and its text [String(v)]. *)
From Stdlib Require Import Lqa.
From Stdlib Require QArith.Qcanon.
From S2P Require Import Prelude Decimal Dates Ir Eval.

(** ** [Number(text)]: a decimal literal, or one of base 16, 8 or 2. *)
Module Numerals.
Definition digit_in (base : Z) (c : ascii) : option Z :=
  let n := Z.of_N (N_of_ascii (Eval.lower c)) in
  let d := if is_digit c then n - 48 else if (97 <=? n) && (n <=? 122) then n - 87 else 99 in
  if d <? base then Some d else None.
Fixpoint digits_in (base acc : Z) (s : string) : option Z :=
  match s with EmptyString => Some acc | String c s' => match digit_in base c with Some d => digits_in base (acc * base + d) s' | None => None end end.
Definition base_of (c : ascii) : option Z :=
  let c := Eval.lower c in if Ascii.eqb c "x" then Some 16 else if Ascii.eqb c "o" then Some 8 else if Ascii.eqb c "b" then Some 2 else None.
(** The digits before and after the point; one of them is not empty. *)
Definition point (s : string) : option (string * string * string) :=
  let '(whole, r) := span is_digit s in
  let '(frac, r') := match r with String "." r' => span is_digit r' | _ => (EmptyString, r) end in
  if String.eqb whole "" && String.eqb frac "" then None else Some (whole, frac, r').
Definition exponent (s : string) : option Z :=
  match s with
  | EmptyString => Some 0
  | String c e =>
      if Ascii.eqb c "e" || Ascii.eqb c "E" then
        let '(sign, ds) := Decimal.sign_of e in
        if negb (String.eqb ds "") && all_chars is_digit ds then Some (if String.eqb sign "-" then - digits_val ds else digits_val ds) else None
      else None
  end.
Definition decimal_literal (s : string) : option number :=
  let '(sign, s') := Decimal.sign_of s in
  match point s' with
  | Some (whole, frac, r) =>
      match exponent r with
      | Some e =>
          let n := digits_val (whole +:+ frac) in
          Some (fl (inject_Z (if String.eqb sign "-" then - n else n) * pow10Q (e - slength frac)))
      | None => None
      end
  | None => None
  end.
(** [None] is [NaN] or an infinity. *)
Definition number_of (text : string) : option number :=
  match trim text with
  | EmptyString => Some 0%Q
  | String "0" (String c (String d ds)) as s =>
      match base_of c with Some base => option_map (fun n => fl (inject_Z n)) (digits_in base 0 (String d ds)) | None => decimal_literal s end
  | s => decimal_literal s
  end.
(** The integer a number is, if [Number.isSafeInteger] holds of it. *)
Definition safe_integer (n : number) : option Z :=
  let r := Qred n in if (Zpos (Qden r) =? 1) && is_safe_integer (Qnum r) then Some (Qnum r) else None.
End Numerals.
Import Numerals.

Module Sheet.
Import Dates.
(** ** Columns. *)
Inductive Cell := CText (s : string) | CNumber (n : number) | CBool (b : bool) | CNull.
Inductive ColumnSpec := SText | SInt | SDecimal | SDate | STime | SBool | SEnum (values : list string) | SPeriod | SOptional (c : ColumnSpec).
Inductive Kind := KText | KInt | KDecimal | KDate | KTime | KBool | KEnum (values : list string) | KPeriod.
#[export] Instance Kind_eq_dec : EqDecision Kind. Proof. solve_decision. Defined.
Record Column := MkColumn { cl_name : string; cl_kind : Kind; cl_optional : bool }.
Record SheetError := MkSheetError { se_row : Z; se_column : string; se_message : string }.
(** A decoded value: the scalar kinds, a period, and [null]. *)
Inductive Value := VNull | VText (s : string) | VInt (n : Z) | VDecimal (d : Decimal.t) | VBool (b : bool) | VPeriod (p : DatePeriod).
Definition Row : Type := dict Value.

Definition EXCEL_EPOCH : string := "1899-12-30".
Definition blank (c : option Cell) : bool :=
  match c with None | Some CNull => true | Some (CText s) => String.eqb (trim s) "" | Some _ => false end.
Fixpoint normalise (name : string) (spec : ColumnSpec) (optional : bool) : Column :=
  match spec with
  | SText => MkColumn name KText optional | SInt => MkColumn name KInt optional | SDecimal => MkColumn name KDecimal optional
  | SDate => MkColumn name KDate optional | STime => MkColumn name KTime optional | SBool => MkColumn name KBool optional
  | SEnum values => MkColumn name (KEnum values) optional | SPeriod => MkColumn name KPeriod optional
  | SOptional c => normalise name c true
  end.
Definition columnsOf (cols : dict ColumnSpec) : list Column := map (fun ns => normalise (fst ns) (snd ns) false) cols.
Definition from_of (name : string) : string := name +:+ ".from".
Definition to_of (name : string) : string := name +:+ ".to".
Definition headersOf (c : Column) : list string := match cl_kind c with KPeriod => [from_of (cl_name c); to_of (cl_name c)] | _ => [cl_name c] end.

(** ** One cell. *)
Section Cells.
Context (number_text : number -> string).
Definition text_of (v : Cell) : string :=
  match v with CText s => trim s | CNumber n => number_text n | CBool b => if b then "true" else "false" | CNull => "null" end.
(** [Math.floor(x)], [Math.round(x)], and [x % 1]. *)
Definition floor (x : Q) : Z := Qnum x / Zpos (Qden x).
Definition jsround (x : Q) : Z := floor (x + (1 # 2)).
Definition fraction (x : Q) : Q := x - inject_Z (Z.quot (Qnum x) (Zpos (Qden x))).
Definition two (n : Z) : string := pad_start 2 "0" (dec_of n).
Definition clock_of (n : number) : string :=
  let m := jsround (fl (fraction n * 1440)) in
  two (Z.rem (m / 60) 24) +:+ ":" +:+ two (Z.rem m 60).
(** [^(\d{1,2}):([0-5]\d)(?::[0-5]\d)?$]: the hour and the minute. *)
Definition sixty (s : string) : bool := (slength s =? 2) && all_chars is_digit s && (digits_val s <? 60).
Definition TIME (s : string) : option (string * string) :=
  let fits h m := (1 <=? slength h) && (slength h <=? 2) && all_chars is_digit h && sixty m in
  match split_char ":" s with
  | [h; m] => if fits h m then Some (h, m) else None
  | [h; m; sec] => if fits h m && sixty sec then Some (h, m) else None
  | _ => None
  end.
Definition js_number (n : number) (text : string) : jsnumber := JsNumber (let r := Qred n in if (Zpos (Qden r) =? 1) then Some (Qnum r) else None) text.
Definition has_e (s : string) : bool := has_char (fun c => Ascii.eqb (Eval.lower c) "e") s.
Definition cell (k : Kind) (v : Cell) : outcome Value :=
  let text := text_of v in
  match k with
  | KText => Ok (VText text)
  | KInt => match (n ← number_of text; safe_integer n) with Some z => Ok (VInt z) | None => PlainError "expected a whole number" end
  | KDecimal =>
      d ← match v with
          | CNumber n => if has_e text then Decimal.fromNumber (js_number n text) (num_of_Z 10) Decimal.halfUp else Decimal.of_like (Decimal.LText text)
          | _ => Decimal.of_like (Decimal.LText text)
          end; Ok (VDecimal d)
  | KDate => s ← match v with CNumber n => addDays EXCEL_EPOCH (floor n) | _ => PlainDate (takes 10 text) end; Ok (VText s)
  | KTime =>
      match v with
      | CNumber n => Ok (VText (clock_of n))
      | _ => match TIME text with
             | Some (h, m) => if 23 <? digits_val h then PlainError "expected a time HH:MM" else Ok (VText (pad_start 2 "0" h +:+ ":" +:+ m))
             | None => PlainError "expected a time HH:MM"
             end
      end
  | KBool =>
      match v with
      | CBool b => Ok (VBool b)
      | _ =>
          let t := Eval.toLowerCase text in
          if includes ["true"; "yes"; "y"; "1"]%string t then Ok (VBool true)
          else if includes ["false"; "no"; "n"; "0"]%string t then Ok (VBool false) else PlainError "expected yes or no"
      end
  | KEnum values => if includes values text then Ok (VText text) else PlainError ("expected one of " +:+ join ", " values)
  | KPeriod => Ok VNull
  end.

(** ** [decode]. *)
Definition message_of (e : jserror) : string := match e with JsError _ m => m end.
Definition header_of (cells : list (list Cell)) : list string :=
  map (fun h => if blank (Some h) then EmptyString else text_of h) (default [] (head cells)).
Definition positions (header : list string) : dict nat :=
  fold_left (fun at_ ih => if String.eqb (snd ih) "" then at_ else set at_ (snd ih) (fst ih)) (zip (seq 0 (length header)) header) [].
Definition ends_to (k : string) : bool := String.eqb (drop (String.length k - 3) k) ".to" && (3 <=? String.length k)%nat.
Definition missing_columns (columns : list Column) (at_ : dict nat) : list SheetError :=
  flat_map (fun c => omap (fun k => if negb (has_own at_ k) && negb (cl_optional c) && negb (ends_to k) then Some (MkSheetError 1 k "missing column") else None)
                       (headersOf c)) columns.
Definition unknown_columns (columns : list Column) (at_ : dict nat) : list SheetError :=
  omap (fun h => if includes (flat_map headersOf columns) h then None else Some (MkSheetError 1 h "unknown column")) (keys at_).
(** [read]: a value, or [null] with the error there is. *)
Definition read (at_ : dict nat) (line : list Cell) (n : Z) (column : string) (k : Kind) (optional : bool) : Value * list SheetError :=
  let v := i ← get at_ column; line !! i in
  if blank v then (VNull, if optional then [] else [MkSheetError n column "required"])
  else match v with
       | Some v => match cell k v with Ok x => (x, []) | Throw e => (VNull, [MkSheetError n column (message_of e)]) end
       | None => (VNull, [])
       end.
Definition date_of (v : Value) : option string := match v with VText s => Some s | _ => None end.
Definition read_column (at_ : dict nat) (line : list Cell) (n : Z) (c : Column) : Value * list SheetError :=
  match cl_kind c with
  | KPeriod =>
      let '(f, e1) := read at_ line n (from_of (cl_name c)) KDate (cl_optional c) in
      let '(t, e2) := read at_ line n (to_of (cl_name c)) KDate true in
      let backwards := match date_of f, date_of t with Some f, Some t => str_ltb t f | _, _ => false end in
      (match date_of f with None => VNull | Some f => VPeriod (Period f (date_of t)) end,
       e1 ++ e2 ++ if backwards then [MkSheetError n (to_of (cl_name c)) "ends before it starts"] else [])
  | k => read at_ line n (cl_name c) k (cl_optional c)
  end.
Definition read_line (at_ : dict nat) (columns : list Column) (line : list Cell) (n : Z) : Row * list SheetError :=
  fold_left (fun re c => let '(v, es) := read_column at_ line n c in (set (fst re) (cl_name c) v, snd re ++ es)) columns ([], []).
Definition decode_line (at_ : dict nat) (columns : list Column) (acc : list Row * list SheetError) (il : nat * list Cell) : list Row * list SheetError :=
  if forallb (fun c => blank (Some c)) (snd il) then acc
  else let '(row, es) := read_line at_ columns (snd il) (Z.of_nat (fst il) + 2) in
       (match es with [] => fst acc ++ [row] | _ => fst acc end, snd acc ++ es).
Definition decode (cells : list (list Cell)) (cols : dict ColumnSpec) : list Row * list SheetError :=
  let columns := columnsOf cols in
  let at_ := positions (header_of cells) in
  match missing_columns columns at_ ++ unknown_columns columns at_ with
  | [] => let lines := list.drop 1 cells in fold_left (decode_line at_ columns) (zip (seq 0 (length lines)) lines) ([], [])
  | errors => ([], errors)
  end.

(** ** [encode]. A typed row holds a scalar in a scalar column and a period in a period's. *)
Definition out (v : option Value) : Cell :=
  match v with
  | None | Some VNull | Some (VPeriod _) => CNull
  | Some (VText s) => CText s
  | Some (VInt n) => CNumber (inject_Z n)
  | Some (VDecimal d) => CText (Decimal.toString d)
  | Some (VBool b) => CBool b
  end.
Definition day_cell (d : option string) : Cell := match d with Some s => CText s | None => CNull end.
Definition cells_of (row : Row) (c : Column) : list Cell :=
  match cl_kind c with
  | KPeriod => match get row (cl_name c) with Some (VPeriod p) => [day_cell (Some (from p)); day_cell (to p)] | _ => [CNull; CNull] end
  | _ => [out (get row (cl_name c))]
  end.
Definition encode (rows : list Row) (cols : dict ColumnSpec) : list (list Cell) :=
  let columns := columnsOf cols in
  map CText (flat_map headersOf columns) :: map (fun r => flat_map (cells_of r) columns) rows.
End Cells.
End Sheet.

(** ** What one cell holds. *)
Module Cells.
Import Sheet Dates.
(** A text without white space is read as it is. *)
Definition plain (s : string) : Prop := all_chars (fun c => negb (is_space c)) s = true.
Lemma plain_trim (s : string) : plain s -> trim s = s.
Proof. apply trim_id. Qed.
Lemma digits_plain (s : string) : all_chars is_digit s = true -> plain s.
Proof. apply digits_not_space. Qed.
Lemma fmt_plain_text (s : string) : isPlainDate s = true -> plain s /\ String.length s = 10%nat.
Proof.
  intros H. pose proof H as H'. apply isPlainDate_iff in H as (y & m & d & [Hy Hv] & ->). pose proof (valid_day_bound y m d Hv) as [Hm Hd].
  destruct (pad_digits 4 y) as (A1 & A2 & _); [lia..|]. destruct (pad_digits 2 m) as (B1 & B2 & _); [lia..|]. destruct (pad_digits 2 d) as (C1 & C2 & _); [lia..|].
  fold (pad 4 y) in *. fold (pad 2 m) in *. fold (pad 2 d) in *. unfold fmt. split.
  - unfold plain. rewrite !all_chars_append. rewrite (digits_plain _ A1), (digits_plain _ B1), (digits_plain _ C1). reflexivity.
  - unfold slength in *. rewrite !length_append. change (String.length "-") with 1%nat. lia.
Qed.
Lemma fl_int (n : Z) : is_safe_integer n = true -> (fl (inject_Z n) == inject_Z n)%Q.
Proof.
  unfold is_safe_integer, MAX_SAFE_INTEGER. intros H. bool_hyps. unfold fl. cbn [Qnum Qden inject_Z].
  destruct (Z.abs n =? 0) eqn:E0; [apply Z.eqb_eq in E0; assert (n = 0) as -> by lia; reflexivity|]. apply Z.eqb_neq in E0.
  assert (0 <= Z.log2 (Z.abs n) <= 52) as Hl.
  { split; [apply Z.log2_nonneg|]. apply Z.lt_succ_r. apply Z.log2_lt_pow2; [lia|]. change (2 ^ Z.succ 52) with 9007199254740992. lia. }
  assert (ulp_exp (Z.abs n) 1 = Z.log2 (Z.abs n) - 52) as ->.
  { unfold ulp_exp. cbv zeta. change (Z.log2 1) with 0. rewrite Z.sub_0_r. destruct (Z.log2 (Z.abs n) <? 0) eqn:E; [lia|]. rewrite Z.mul_1_l.
    destruct (Z.log2_spec (Z.abs n)) as [Hp _]; [lia|]. rewrite (proj2 (Z.ltb_ge _ _)) by done. lia. }
  assert (forall m, round_even m 1 = m) as Hr.
  { intros m. unfold round_even. rewrite Z.div_1_r, Z.mod_1_r. reflexivity. }
  set (e := Z.log2 (Z.abs n) - 52) in *. rewrite Qred_correct. unfold scale2. destruct (e <? 0) eqn:Ee.
  - rewrite Hr. apply Z.ltb_lt in Ee. unfold Qeq, inject_Z. cbn [Qnum Qden]. assert (0 < 2 ^ (- e)) by (apply Z.pow_pos_nonneg; lia).
    rewrite Z2Pos.id by lia. rewrite Z.mul_assoc, Z.mul_1_r. rewrite (Z.mul_comm (Z.sgn n)), Z.abs_sgn. reflexivity.
  - apply Z.ltb_ge in Ee. assert (e = 0) as E by lia. rewrite E. change (1 * 2 ^ 0) with 1. rewrite Hr. rewrite Z.mul_1_r, Z.mul_comm, Z.abs_sgn. reflexivity.
Qed.
Lemma safe_integer_int (q : number) (n : Z) : (q == inject_Z n)%Q -> is_safe_integer n = true -> safe_integer q = Some n.
Proof.
  intros E Hs. unfold safe_integer. apply Qred_complete in E. rewrite E. assert (Qred (inject_Z n) = inject_Z n) as ->.
  { apply Qcanon.Qred_identity. cbn. apply Z.gcd_1_r. }
  cbn [Qnum Qden inject_Z]. by rewrite Hs.
Qed.
Lemma dec_plain (n : Z) : plain (dec_of n).
Proof.
  unfold dec_of. destruct (n <? 0) eqn:E; [|apply digits_plain, digits_of_digits; lia]. unfold plain. cbn [all_chars].
  change (plain (digits_of (- n))). apply digits_plain, digits_of_digits. lia.
Qed.
Lemma decimal_literal_dec (n : Z) : decimal_literal (dec_of n) = Some (fl (inject_Z n)).
Proof.
  assert (forall k, 0 <= k -> point (digits_of k) = Some (digits_of k, EmptyString, EmptyString)) as Hp.
  { intros k Hk. unfold point. rewrite span_all by auto with js. pose proof (digits_of_nonempty k) as Hn. destruct (digits_of k); [change (slength "") with 0 in Hn; lia|]. reflexivity. }
  assert (forall z, fl (inject_Z z * pow10Q (0 - slength "")) = fl (inject_Z z)) as Hf.
  { intros z. change (pow10Q (0 - slength "")) with (1 # 1). unfold Qmult, inject_Z. cbn [Qnum Qden]. by rewrite Z.mul_1_r. }
  unfold decimal_literal, dec_of. destruct (n <? 0) eqn:E.
  - apply Z.ltb_lt in E. cbn [Decimal.sign_of]. change (Decimal.is_sign "-") with true. cbv iota. rewrite Hp by lia. cbn [exponent]. cbv zeta.
    rewrite append_nil_r, digits_of_val by lia. change (String.eqb (String "-" "") "-") with true. cbv iota. rewrite Z.opp_involutive. by rewrite Hf.
  - apply Z.ltb_ge in E. pose proof (digits_of_nonempty n) as Hn. pose proof (digits_of_digits n E) as Hd. destruct (digits_of n) as [|c r] eqn:Ed; [change (slength "") with 0 in Hn; lia|].
    cbn [all_chars] in Hd. apply andb_true_iff in Hd as [Hc _]. rewrite Decimal.sign_of_digit by done. rewrite <- Ed, Hp by lia. cbn [exponent]. cbv zeta.
    rewrite append_nil_r, digits_of_val by lia. change (String.eqb "" "-") with false. cbv iota. by rewrite Hf.
Qed.
(** An integer's text is read as the integer. *)
Lemma number_of_dec (n : Z) : number_of (dec_of n) = Some (fl (inject_Z n)).
Proof.
  unfold number_of. rewrite plain_trim by apply dec_plain. rewrite <- decimal_literal_dec.
  destruct (dec_of n) as [|c r] eqn:E.
  { exfalso. unfold dec_of in E. destruct (n <? 0) eqn:En; [done|]. pose proof (digits_of_nonempty n) as Hn. rewrite E in Hn. change (slength "") with 0 in Hn. lia. }
  destruct r as [|x [|y r]]; [by destruct c as [[] [] [] [] [] [] [] []]|by destruct c as [[] [] [] [] [] [] [] []]|].
  assert (c = "0"%char -> base_of x = None) as Hb.
  { intros ->. unfold dec_of in E. destruct (n <? 0) eqn:En; [by injection E|]. apply Z.ltb_ge in En. pose proof (digits_of_digits n En) as Hd. rewrite E in Hd.
    cbn [all_chars] in Hd. apply andb_true_iff in Hd as [_ Hd]. apply andb_true_iff in Hd as [Hx _]. clear -Hx. by destruct x as [[] [] [] [] [] [] [] []]. }
  destruct (decide (c = "0"%char)) as [->|Hc]; [by rewrite Hb|]. by destruct c as [[] [] [] [] [] [] [] []].
Qed.
Section Cells.
Context (number_text : number -> string).
(** [String(n)] of a safe integer is its decimal digits. *)
Hypothesis Htext : forall n, is_safe_integer n = true -> number_text (inject_Z n) = dec_of n.
Definition named (s : string) : Prop := trim s = s /\ s <> EmptyString.
Definition is_clock (s : string) : Prop := exists h m, 0 <= h < 24 /\ 0 <= m < 60 /\ s = two h +:+ ":" +:+ two m.
(** The values of a scalar column. *)
Definition scalar (k : Kind) (v : Value) : Prop :=
  match k, v with
  | KText, VText s => named s
  | KInt, VInt n => is_safe_integer n = true
  | KDecimal, VDecimal d => Decimal.wf d
  | KDate, VText s => isPlainDate s = true
  | KTime, VText s => is_clock s
  | KBool, VBool _ => True
  | KEnum values, VText s => s ∈ values /\ named s
  | _, _ => False
  end.
Lemma named_nonblank (s : string) : named s -> blank (Some (CText s)) = false.
Proof. intros [E Hn]. cbn [blank]. rewrite E. by apply String.eqb_neq. Qed.
Lemma plain_named (s : string) : plain s -> s <> EmptyString -> named s.
Proof. intros Hp Hn. split; [by apply plain_trim|done]. Qed.
Lemma date_named (s : string) : isPlainDate s = true -> named s.
Proof. intros H. destruct (fmt_plain_text s H) as [Hp Hl]. apply plain_named; [done|]. by intros ->. Qed.
Lemma two_digits (n : Z) : 0 <= n < 100 -> all_chars is_digit (two n) = true /\ slength (two n) = 2 /\ digits_val (two n) = n.
Proof.
  intros Hn. unfold two. assert (dec_of n = digits_of n) as -> by (unfold dec_of; by rewrite (proj2 (Z.ltb_ge n 0)) by lia).
  apply (pad_digits 2); lia.
Qed.
Lemma digits_no_colon (s : string) : all_chars is_digit s = true -> all_chars (fun x => negb (Ascii.eqb x ":")) s = true.
Proof.
  apply all_chars_impl. intros c Hc. destruct (Ascii.eqb_spec c ":") as [->|]; [|done]. discriminate Hc.
Qed.
Lemma clock_parts (h m : Z) : 0 <= h < 24 -> 0 <= m < 60 ->
  TIME (two h +:+ ":" +:+ two m) = Some (two h, two m) /\ (23 <? digits_val (two h)) = false /\ pad_start 2 "0" (two h) = two h /\ named (two h +:+ ":" +:+ two m).
Proof.
  intros Hh Hm. destruct (two_digits h) as (A1 & A2 & A3); [lia|]. destruct (two_digits m) as (B1 & B2 & B3); [lia|]. split_and!.
  - unfold TIME. change (":" +:+ two m) with (String ":" (two m)). rewrite split_char_app, !split_char_none by (by apply digits_no_colon). cbn [app].
    unfold sixty. rewrite A1, A2, B1, B2, B3. rewrite (proj2 (Z.ltb_lt m 60)) by lia. reflexivity.
  - rewrite A3. lia.
  - unfold pad_start at 1. rewrite A2. reflexivity.
  - apply plain_named; [|by destruct (two h)]. unfold plain. rewrite !all_chars_append.
    change (all_chars (fun c => negb (is_space c)) (two h) && (all_chars (fun c => negb (is_space c)) (":" +:+ two m)) = true).
    rewrite all_chars_append, (digits_plain _ A1), (digits_plain _ B1). reflexivity.
Qed.
(** A typed scalar is not blank as a cell, and is read back as itself. *)
Lemma cell_back (k : Kind) (v : Value) : scalar k v -> blank (Some (out (Some v))) = false /\ cell number_text k (out (Some v)) = Ok v.
Proof.
  destruct k, v; cbn [scalar out]; try done.
  - intros H. split; [by apply named_nonblank|]. cbn [cell text_of]. by rewrite (proj1 H).
  - intros H. split; [done|]. cbn [cell text_of]. rewrite Htext, number_of_dec by done. cbn [mbind option_bind].
    by rewrite (safe_integer_int _ n) by (done || by apply fl_int).
  - intros H. assert (plain (Decimal.toString d)) as Hp by apply Decimal.toString_chars.
    assert (named (Decimal.toString d)) as Hn.
    { apply plain_named; [done|]. intros E. pose proof (Decimal.of_text_toString d H) as Hx. rewrite E in Hx. vm_compute in Hx. discriminate Hx. }
    split; [by apply named_nonblank|]. cbn [cell text_of]. rewrite (proj1 Hn). cbn [Decimal.of_like]. rewrite Decimal.of_text_toString by done. done.
  - intros H. pose proof (date_named s H) as Hn. split; [by apply named_nonblank|]. cbn [cell text_of]. rewrite (proj1 Hn).
    destruct (fmt_plain_text s H) as [_ Hl]. rewrite takes_all by done. by rewrite PlainDate_ok.
  - intros (h & m & Hh & Hm & ->). destruct (clock_parts h m Hh Hm) as (Ht & H23 & Hp & Hn). split; [by apply named_nonblank|].
    cbn [cell text_of]. rewrite (proj1 Hn), Ht, H23. by rewrite Hp.
  - intros [Hin Hn]. split; [by apply named_nonblank|]. cbn [cell text_of]. rewrite (proj1 Hn). by rewrite (proj2 (includes_spec values s)).
Qed.
End Cells.
End Cells.

(** ** A sheet read back. *)
Module Roundtrip.
Import Sheet Dates Cells.
Section Roundtrip.
Context (number_text : number -> string).
Hypothesis Htext : forall n, is_safe_integer n = true -> number_text (inject_Z n) = dec_of n.
(** A typed row: a value per column, in their order, [null] only where the column is optional, and not all of them. *)
Definition fits (c : Column) (v : Value) : Prop :=
  match v with
  | VNull => cl_optional c = true
  | VPeriod p => cl_kind c = KPeriod /\ isPlainDate (from p) = true /\ match to p with Some t => isPlainDate t = true /\ str_ltb t (from p) = false | None => True end
  | v => scalar (cl_kind c) v
  end.
Definition typed_row (columns : list Column) (row : Row) : Prop :=
  Forall2 (fun c nv => fst nv = cl_name c /\ fits c (snd nv)) columns row /\ exists nv, nv ∈ row /\ snd nv <> VNull.
(** A header of distinct names that are not blank. *)
Definition good_header (columns : list Column) : Prop :=
  NoDup (map cl_name columns) /\ NoDup (flat_map headersOf columns) /\ Forall named (flat_map headersOf columns).

Lemma positions_from (header : list string) (m : nat) (d : dict nat) : NoDup header -> Forall (fun h => h <> EmptyString) header ->
  let at_ := fold_left (fun at_ (ih : nat * string) => if String.eqb (snd ih) "" then at_ else set at_ (snd ih) (fst ih)) (zip (seq m (length header)) header) d in
  (forall i k, header !! i = Some k -> get at_ k = Some (m + i)%nat) /\ (forall k, k ∉ header -> get at_ k = get d k).
Proof.
  cbv zeta. revert m d. induction header as [|h header IH]; intros m d Hn He; cbn [length seq zip zip_with fold_left fst snd]; [by split|].
  apply NoDup_cons in Hn as [Hh Hn]. apply Forall_cons in He as [Hne He]. rewrite (proj2 (String.eqb_neq h "")) by done.
  destruct (IH (S m) (set d h m) Hn He) as [H1 H2]. split.
  - intros [|i] k; cbn; [intros [= <-]|intros Hk; rewrite (H1 i k Hk); f_equal; lia]. rewrite H2 by done. rewrite get_set_eq. f_equal. lia.
  - intros k Hk. apply not_elem_of_cons in Hk as [Hkh Hk]. rewrite H2 by done. by rewrite get_set_ne.
Qed.
Lemma cells_length (row : Row) (c : Column) : length (cells_of row c) = length (headersOf c).
Proof. unfold cells_of, headersOf. destruct (cl_kind c); try done. by destruct (get row (cl_name c)) as [[]|]. Qed.
Lemma header_back (columns : list Column) (rows : list (list Cell)) : Forall named (flat_map headersOf columns) ->
  header_of number_text (map CText (flat_map headersOf columns) :: rows) = flat_map headersOf columns.
Proof.
  intros H. unfold header_of. cbn [head default from_option id]. rewrite List.map_map. induction H as [|h l Hh _ IH]; [done|].
  change (map ?f (h :: l)) with (f h :: map f l). rewrite IH, named_nonblank by done. f_equal. apply Hh.
Qed.
Lemma row_keys (columns : list Column) (row : Row) : Forall2 (fun c nv => fst nv = cl_name c /\ fits c (snd nv)) columns row -> keys row = map cl_name columns.
Proof. induction 1 as [|c nv cs r [E _] _ IH]; [done|]. unfold keys in *. cbn [map]. by rewrite E, IH. Qed.
Section Line.
Context (columns : list Column) (row : Row).
Hypothesis Hgood : good_header columns.
Hypothesis Hrow : Forall2 (fun c nv => fst nv = cl_name c /\ fits c (snd nv)) columns row.
Let at_ := positions (flat_map headersOf columns).
Let line := flat_map (cells_of row) columns.
Lemma at_header (i : nat) (k : string) : flat_map headersOf columns !! i = Some k -> get at_ k = Some i.
Proof.
  intros Hk. unfold at_, positions. destruct Hgood as (_ & Hn & Hnamed). destruct (positions_from (flat_map headersOf columns) 0 [] Hn) as [H _].
  - eapply Forall_impl; [exact Hnamed|]. by intros x [].
  - by apply H.
Qed.
Lemma row_get (c : Column) : c ∈ columns -> exists v, get row (cl_name c) = Some v /\ fits c v.
Proof.
  intros Hc. apply list_elem_of_lookup in Hc as [i Hi]. destruct (Forall2_lookup_l _ _ _ _ _ Hrow Hi) as ([n v] & Hv & Hn & Hf). cbn [fst snd] in *. subst n.
  exists v. split; [|done]. apply in_get; [|by apply (list_elem_of_lookup_2 _ i)]. unfold wf_dict. destruct Hgood as (Hd & _).
  by rewrite (row_keys _ _ Hrow).
Qed.
(** The cell a header's column has in a row's line. *)
Lemma cell_at (c : Column) (j : nat) (k : string) : c ∈ columns -> headersOf c !! j = Some k -> (i ← get at_ k; line !! i) = cells_of row c !! j.
Proof.
  intros Hc Hk. apply list_elem_of_split in Hc as (pre & post & E).
  assert (length (flat_map headersOf pre) = length (flat_map (cells_of row) pre)) as Hl.
  { clear. induction pre as [|x pre IH]; [done|]. cbn [flat_map]. by rewrite !length_app, IH, cells_length. }
  rewrite (at_header (length (flat_map headersOf pre) + j) k).
  - cbn [mbind option_bind]. unfold line. rewrite E, flat_map_app. cbn [flat_map]. rewrite Hl, lookup_app_r by lia.
    replace (length (flat_map (cells_of row) pre) + j - length (flat_map (cells_of row) pre))%nat with j by lia.
    rewrite lookup_app_l; [done|]. rewrite cells_length. by apply lookup_lt_Some in Hk.
  - rewrite E, flat_map_app. cbn [flat_map]. rewrite lookup_app_r by lia.
    replace (length (flat_map headersOf pre) + j - length (flat_map headersOf pre))%nat with j by lia.
    by apply lookup_app_l_Some.
Qed.
Lemma read_back (n : Z) (c : Column) (j : nat) (k : string) (kd : Kind) (optional : bool) (v : Value) :
  c ∈ columns -> headersOf c !! j = Some k -> cells_of row c !! j = Some (out (Some v)) -> scalar kd v -> read number_text at_ line n k kd optional = (v, []).
Proof.
  intros Hc Hk Hcell Hs. unfold read. rewrite (cell_at c j k Hc Hk), Hcell. destruct (cell_back number_text Htext kd v Hs) as [Hb He]. by rewrite Hb, He.
Qed.
Lemma read_null (n : Z) (c : Column) (j : nat) (k : string) (kd : Kind) :
  c ∈ columns -> headersOf c !! j = Some k -> cells_of row c !! j = Some CNull -> read number_text at_ line n k kd true = (VNull, []).
Proof. intros Hc Hk Hcell. unfold read. by rewrite (cell_at c j k Hc Hk), Hcell. Qed.
Lemma column_back (n : Z) (c : Column) : c ∈ columns -> exists v, get row (cl_name c) = Some v /\ read_column number_text at_ line n c = (v, []).
Proof.
  intros Hc. destruct (row_get c Hc) as (v & Hv & Hf). exists v. split; [done|].
  destruct c as [name kd opt] eqn:Ec. cbn [cl_name cl_kind cl_optional] in *. unfold fits in Hf. cbn [cl_kind cl_optional] in Hf.
  destruct (decide (kd = KPeriod)) as [->|Hk].
  - unfold read_column. cbn [cl_kind cl_name cl_optional].
    assert (headersOf (MkColumn name KPeriod opt) = [from_of name; to_of name]) as Hh by done.
    destruct v as [|?|?|?|?|[f t]]; try done.
    + subst opt. rewrite (read_null n (MkColumn name KPeriod true) 0 (from_of name) KDate), (read_null n (MkColumn name KPeriod true) 1 (to_of name) KDate); try done;
        unfold cells_of; cbn [cl_kind cl_name]; by rewrite Hv.
    + destruct Hf as (_ & Hpf & Hpt). cbn [from to] in *.
      assert (cells_of row (MkColumn name KPeriod opt) = [CText f; day_cell t]) as Hcs by (unfold cells_of; cbn [cl_kind cl_name]; by rewrite Hv).
      rewrite (read_back n (MkColumn name KPeriod opt) 0 (from_of name) KDate opt (VText f)) by (done || by rewrite Hcs).
      destruct t as [t|]; cbn [day_cell] in Hcs.
      * destruct Hpt as [Hpt Hle]. rewrite (read_back n (MkColumn name KPeriod opt) 1 (to_of name) KDate true (VText t)) by (done || by rewrite Hcs).
        cbn [date_of]. by rewrite Hle.
      * rewrite (read_null n (MkColumn name KPeriod opt) 1 (to_of name) KDate) by (done || by rewrite Hcs). done.
  - assert (headersOf (MkColumn name kd opt) = [name] /\ cells_of row (MkColumn name kd opt) = [out (Some v)]) as [Hh Hcs].
    { unfold headersOf, cells_of. cbn [cl_kind cl_name]. rewrite Hv. by destruct kd. }
    assert (read_column number_text at_ line n (MkColumn name kd opt) = read number_text at_ line n name kd opt) as -> by (by destruct kd).
    destruct v as [| | | | |p]; try (apply (read_back n (MkColumn name kd opt) 0); [done|by rewrite Hh|by rewrite Hcs|exact Hf]).
    + subst opt. apply (read_null n (MkColumn name kd true) 0); [done|by rewrite Hh|by rewrite Hcs].
    + by destruct Hf.
Qed.
Lemma line_back (n : Z) : read_line number_text at_ columns line n = (row, []).
Proof.
  unfold read_line.
  enough (forall cs r (acc : Row), (forall c, c ∈ cs -> c ∈ columns) -> Forall2 (fun c nv => fst nv = cl_name c /\ fits c (snd nv)) cs r ->
    (forall nv, nv ∈ r -> nv ∈ row) -> NoDup (map cl_name cs) -> (forall c, c ∈ cs -> get acc (cl_name c) = None) ->
    fold_left (fun re c => let '(v, es) := read_column number_text at_ line n c in (set (fst re) (cl_name c) v, snd re ++ es)) cs (acc, []) = (acc ++ r, [])) as H.
  { apply (H columns row []); try done. by destruct Hgood. }
  assert (wf_dict row) as Hwf.
  { unfold wf_dict. destruct Hgood as (Hd & _). by rewrite (row_keys _ _ Hrow). }
  intros cs r acc Hcs Hr. revert acc Hcs. induction Hr as [|c [name v] cs r [E Hf] _ IH]; intros acc Hcs Hin Hn Hget; [by rewrite app_nil_r|].
  cbn [fold_left fst snd] in *. subst name. destruct (column_back n c) as (v' & Hv' & ->); [apply Hcs; by left|].
  assert (v' = v) as ->. { rewrite (in_get row (cl_name c) v Hwf) in Hv'; [by injection Hv'|]. apply Hin. by left. }
  cbn [map] in Hn. apply NoDup_cons in Hn as [Hx Hn]. rewrite IH.
  - assert (set acc (cl_name c) v = acc ++ [(cl_name c, v)]) as ->; [|by rewrite <- app_assoc].
    assert (get acc (cl_name c) = None) as Hg by (apply Hget; by left). clear -Hg. induction acc as [|[k w] acc IH]; [done|]. cbn [get set app] in *.
    destruct (String.eqb k (cl_name c)); [done|]. by rewrite IH.
  - intros c' Hc'. apply Hcs. by right.
  - intros nv Hnv. apply Hin. by right.
  - done.
  - intros c' Hc'. rewrite get_set_ne; [apply Hget; by right|]. intros Hxx. apply Hx. rewrite Hxx. by apply (list_elem_of_fmap_2 cl_name).
Qed.
Lemma line_nonblank : (exists nv, nv ∈ row /\ snd nv <> VNull) -> forallb (fun c => blank (Some c)) line = false.
Proof.
  intros ([name v] & Hin & Hv). cbn [snd] in Hv. apply not_true_iff_false. rewrite forallb_forall. intros H.
  apply list_elem_of_lookup in Hin as [i Hi]. destruct (Forall2_lookup_r _ _ _ _ _ Hrow Hi) as (c & Hc & Hn & Hf). cbn [fst snd] in *. subst name.
  assert (c ∈ columns) as Hcc by (by apply (list_elem_of_lookup_2 _ i)). destruct (row_get c Hcc) as (v' & Hg & _).
  assert (get row (cl_name c) = Some v) as Hg'.
  { apply in_get; [|by apply (list_elem_of_lookup_2 _ i)]. unfold wf_dict. destruct Hgood as (Hd & _). by rewrite (row_keys _ _ Hrow). }
  assert (exists x, x ∈ cells_of row c /\ blank (Some x) = false) as (x & Hx & Hb).
  { unfold cells_of. rewrite Hg'. unfold fits in Hf. destruct (cl_kind c) eqn:Ek; destruct v as [| | | | |p]; try done;
      try (eexists; split; [by left|]; by apply (cell_back number_text Htext _ _ Hf)).
    - by destruct Hf. - by destruct Hf. - by destruct Hf. - by destruct Hf. - by destruct Hf. - by destruct Hf. - by destruct Hf.
    - eexists. split; [by left|]. destruct Hf as (_ & Hp & _). by apply named_nonblank, date_named. }
  rewrite H in Hb; [done|]. apply list_elem_of_In. unfold line. apply list_elem_of_In, in_flat_map. exists c. split; by apply list_elem_of_In.
Qed.
End Line.
Lemma omap_none {A B} (f : A -> option B) (l : list A) : (forall x, x ∈ l -> f x = None) -> omap f l = [].
Proof.
  induction l as [|x l IH]; intros H; [done|]. cbn. rewrite (H x) by (by left). apply IH. intros y Hy. apply H. by right.
Qed.
Lemma missing_none (columns : list Column) (at_ : dict nat) : (forall k, k ∈ flat_map headersOf columns -> has_own at_ k = true) -> missing_columns columns at_ = [].
Proof.
  unfold missing_columns. induction columns as [|c cs IH]; intros H; [done|]. cbn [flat_map] in *. rewrite IH by (intros k Hk; apply H; set_solver).
  rewrite omap_none; [done|]. intros k Hk. rewrite H by set_solver. done.
Qed.
Lemma unknown_none (columns : list Column) (at_ : dict nat) : (forall k, k ∈ keys at_ -> k ∈ flat_map headersOf columns) -> unknown_columns columns at_ = [].
Proof. intros H. apply omap_none. intros k Hk. by rewrite (proj2 (includes_spec _ k) (H k Hk)). Qed.
Lemma position_keys (columns : list Column) (k : string) : good_header columns -> k ∈ keys (positions (flat_map headersOf columns)) -> k ∈ flat_map headersOf columns.
Proof.
  intros (_ & Hn & Hnamed) Hk. destruct (decide (k ∈ flat_map headersOf columns)) as [|Hno]; [done|]. exfalso.
  destruct (positions_from (flat_map headersOf columns) 0 [] Hn) as [_ H]; [by eapply Forall_impl; [exact Hnamed|]; intros x []|].
  specialize (H k Hno). fold (positions (flat_map headersOf columns)) in H. pose proof (get_keys (positions (flat_map headersOf columns)) k) as Hx.
  rewrite H in Hx. symmetry in Hx. by apply bool_decide_eq_false in Hx.
Qed.
Lemma lines_back (columns : list Column) (rows : list Row) (m : nat) (acc : list Row) : good_header columns -> Forall (typed_row columns) rows ->
  let lines := map (fun r => flat_map (cells_of r) columns) rows in
  fold_left (decode_line number_text (positions (flat_map headersOf columns)) columns) (zip (seq m (length lines)) lines) (acc, []) = (acc ++ rows, []).
Proof.
  intros Hgood. cbv zeta. revert m acc. induction rows as [|r rows IH]; intros m acc Hrows; cbn [map length seq zip zip_with fold_left]; [by rewrite app_nil_r|].
  apply Forall_cons in Hrows as [[Hr Hne] Hrows].
  assert (decode_line number_text (positions (flat_map headersOf columns)) columns (acc, []) (m, flat_map (cells_of r) columns) = (acc ++ [r], [])) as ->.
  { unfold decode_line. cbn [fst snd]. rewrite (line_nonblank columns r Hgood Hr Hne), (line_back columns r Hgood Hr). done. }
  rewrite IH by done. by rewrite <- app_assoc.
Qed.
End Roundtrip.
End Roundtrip.

(** ** What is read is typed. *)
Module Typed.
Import Sheet Dates Cells.
Lemma trim_end_idem (s : string) : trim_end (trim_end s) = trim_end s.
Proof.
  induction s as [|c s IH]; [done|]. cbn [trim_end]. destruct (trim_end s) as [|x t] eqn:E.
  - destruct (is_space c) eqn:Ec; cbn [trim_end]; [done|]. by rewrite Ec.
  - cbn [trim_end] in IH |- *. by rewrite IH.
Qed.
Lemma trim_start_cases (s : string) : trim_start s = EmptyString \/ exists c r, trim_start s = String c r /\ is_space c = false.
Proof. induction s as [|c s IH]; [by left|]. cbn [trim_start]. destruct (is_space c) eqn:E; [done|]. right. by exists c, s. Qed.
Lemma trim_idem (s : string) : trim (trim s) = trim s.
Proof.
  unfold trim. destruct (trim_start_cases s) as [->|(c & r & -> & Hc)]; [done|].
  assert (exists t, trim_end (String c r) = String c t) as [t Ht].
  { cbn [trim_end]. rewrite Hc. destruct (trim_end r); eauto. }
  rewrite Ht, trim_start_id by done. by rewrite <- Ht, trim_end_idem.
Qed.
Section Typed.
Context (number_text : number -> string).
(** [String(x)] of a number is a text without white space. *)
Hypothesis Hplain : forall n, plain (number_text n) /\ number_text n <> EmptyString.
(** The serial numbers a sheet's calendar has: from the epoch to the end of the year 9999. *)
Definition serial (n : number) : Prop := (0 <= n)%Q /\ (n < inject_Z 2958466)%Q.
Definition calendar (k : Kind) : bool := bool_decide (k = KDate) || bool_decide (k = KTime).
Lemma text_named (v : Cell) : blank (Some v) = false -> named (text_of number_text v).
Proof.
  destruct v as [s|n|b|]; cbn [blank text_of]; try done.
  - intros H. apply String.eqb_neq in H. split; [apply trim_idem|done].
  - intros _. destruct (Hplain n). by apply plain_named.
  - intros _. by destruct b.
Qed.
Lemma floor_bounds (x : Q) (a b : Z) : (inject_Z a <= x)%Q -> (x < inject_Z b)%Q -> a <= floor x < b.
Proof.
  unfold floor, Qle, Qlt, inject_Z. cbn [Qnum Qden]. rewrite !Z.mul_1_r. intros H1 H2. split.
  - apply Z.div_le_lower_bound; lia.
  - apply Z.div_lt_upper_bound; lia.
Qed.
Lemma fraction_bounds (x : Q) : (0 <= x)%Q -> (0 <= fraction x)%Q /\ (fraction x < 1)%Q.
Proof.
  intros H. unfold Qle in H. cbn in H. rewrite Z.mul_1_r in H. unfold fraction. rewrite Z.quot_div_nonneg by lia.
  pose proof (Z.mod_pos_bound (Qnum x) (Zpos (Qden x))) as Hm. pose proof (Z.div_mod (Qnum x) (Zpos (Qden x))) as Hd.
  unfold Qle, Qlt, Qminus, Qplus, Qopp, inject_Z. cbn [Qnum Qden]. rewrite !Z.mul_1_r, !Z.mul_1_l, !Pos.mul_1_r. nia.
Qed.
Lemma hour_text (h : string) : (1 <=? slength h) && (slength h <=? 2) && all_chars is_digit h = true -> pad_start 2 "0" h = two (digits_val h) /\ 0 <= digits_val h < 100.
Proof.
  intros H. bool_hyps. pose proof (digits_val_bounds h ltac:(done)) as Hb. assert (slength h = 1 \/ slength h = 2) as Hl by lia.
  assert (0 <= digits_val h < 100) as Hr by (destruct Hl as [E|E]; rewrite E in Hb; [change (10 ^ 1) with 10 in Hb|change (10 ^ 2) with 100 in Hb]; lia).
  split; [|done]. destruct (two_digits (digits_val h) Hr) as (A1 & A2 & A3). apply digits_val_inj.
  - unfold pad_start. rewrite all_chars_append, all_chars_repeat by done. done.
  - done.
  - assert (slength (pad_start 2 "0" h) = 2) as E; [|unfold slength in *; lia]. unfold pad_start. rewrite slength_append, slength_repeat_char. lia.
  - rewrite A3. unfold pad_start. apply digits_val_zeros.
Qed.
Lemma minute_text (m : string) : sixty m = true -> m = two (digits_val m) /\ 0 <= digits_val m < 60.
Proof.
  unfold sixty. intros H. bool_hyps. pose proof (digits_val_bounds m ltac:(done)) as Hb. assert (0 <= digits_val m < 60) as Hr by lia. split; [|done].
  destruct (two_digits (digits_val m)) as (A1 & A2 & A3); [lia|]. apply digits_val_inj; try done. unfold slength in *. lia.
Qed.
Lemma TIME_clock (text h m : string) : TIME text = Some (h, m) -> (23 <? digits_val h) = false -> is_clock (pad_start 2 "0" h +:+ ":" +:+ m).
Proof.
  intros H Hh. assert ((1 <=? slength h) && (slength h <=? 2) && all_chars is_digit h = true /\ sixty m = true) as [Hh' Hm].
  { unfold TIME in H. cbv zeta in H. destruct (split_char ":" text) as [|a [|b [|c [|]]]]; try done.
    - destruct (_ && sixty b) eqn:E; [|done]. injection H as <- <-. by apply andb_true_iff in E.
    - destruct (_ && sixty c) eqn:E; [|done]. injection H as <- <-. apply andb_true_iff in E as [E _]. by apply andb_true_iff in E. }
  destruct (hour_text h Hh') as [-> Hb]. destruct (minute_text m Hm) as [Em Hmb]. exists (digits_val h), (digits_val m).
  apply Z.ltb_ge in Hh. split_and!; try lia. by rewrite <- Em.
Qed.
Lemma round_even_bounds (N d : Z) : 0 <= N -> 0 < d -> 0 <= round_even N d /\ round_even N d * d <= N + d.
Proof.
  intros HN Hd. unfold round_even. cbv zeta. pose proof (Z.div_mod N d) as H. pose proof (Z.mod_pos_bound N d Hd). pose proof (Z.div_pos N d HN Hd).
  destruct (2 * (N mod d) <? d); [nia|]. destruct (d <? 2 * (N mod d)); [nia|]. destruct (Z.even (N / d)); nia.
Qed.
(** Rounding a day's minutes to binary64 is off by less than a quarter. *)
Lemma fl_close (q : Q) : (0 <= q)%Q -> (q < inject_Z 2048)%Q -> (0 <= fl q)%Q /\ (fl q <= q + (1 # 4))%Q.
Proof.
  destruct q as [n d]. intros H0 H1. unfold Qle, Qlt in H0, H1. cbn [Qnum Qden inject_Z Z.mul] in H0, H1. rewrite Z.mul_1_r in *. unfold fl. cbn [Qnum Qden]. rewrite Z.abs_eq by lia.
  destruct (n =? 0) eqn:En; [apply Z.eqb_eq in En; subst n; split; [vm_compute; discriminate|]; unfold Qle; cbn; lia|]. apply Z.eqb_neq in En.
  set (D := Zpos d) in *. assert (0 < D) as HD by done.
  assert (Z.log2 n <= Z.log2 D + 11) as Hlog.
  { rewrite Z.add_comm, <- Z.log2_mul_pow2 by lia. apply Z.log2_le_mono. change (2 ^ 11) with 2048. lia. }
  set (e := ulp_exp n D). assert (e <= -41) as He.
  { unfold e, ulp_exp. cbv zeta. destruct (if _ <? 0 then _ else _); lia. }
  rewrite (proj2 (Z.ltb_lt e 0)) by lia. rewrite Qred_correct. unfold scale2. rewrite (proj2 (Z.ltb_lt e 0)) by lia.
  assert (0 < 2 ^ (- e)) as Hpow by (apply Z.pow_pos_nonneg; lia). assert (4 <= 2 ^ (- e)) as H4.
  { change 4 with (2 ^ 2). apply Z.pow_le_mono_r; lia. }
  destruct (round_even_bounds (n * 2 ^ (- e)) D) as [Hr0 Hr1]; [nia|done|]. rewrite Z.sgn_pos by lia. rewrite Z.mul_1_l.
  set (r := round_even (n * 2 ^ (- e)) D) in *. set (P := 2 ^ (- e)) in *. unfold Qle, Qplus. cbn [Qnum Qden]. rewrite Z2Pos.id by done. rewrite Pos2Z.inj_mul. fold D.
  split; nia.
Qed.
Lemma clock_number (n : number) : serial n -> is_clock (clock_of n).
Proof.
  intros [H0 _]. destruct (fraction_bounds n H0) as [F0 F1]. destruct (fl_close (fraction n * 1440)) as [L0 L1]; [unfold inject_Z; lra..|].
  unfold clock_of. cbv zeta. set (m := jsround (fl (fraction n * 1440))).
  assert (0 <= m < 1441) as Hm by (apply floor_bounds; unfold inject_Z; lra).
  assert (0 <= m / 60 <= 24) as Hh by (split; [apply Z.div_pos; lia|apply Z.div_le_upper_bound; lia]).
  exists (Z.rem (m / 60) 24), (Z.rem m 60). pose proof (Z.rem_bound_pos (m / 60) 24). pose proof (Z.rem_bound_pos m 60). split_and!; try lia. done.
Qed.
Lemma safe_integer_safe (q : number) (n : Z) : safe_integer q = Some n -> is_safe_integer n = true.
Proof. unfold safe_integer. cbv zeta. destruct (_ && is_safe_integer _) eqn:E; [|done]. intros [= <-]. by apply andb_true_iff in E as [_ ?]. Qed.
(** A cell that is read holds a value of its column. *)
Lemma cell_typed (k : Kind) (v : Cell) (x : Value) : k <> KPeriod -> blank (Some v) = false ->
  (calendar k = true -> forall n, v = CNumber n -> serial n) -> cell number_text k v = Ok x -> scalar k x.
Proof.
  intros Hk Hb Hser H. pose proof (text_named v Hb) as Hn. destruct k; cbn [cell] in H; try done.
  - by injection H as <-.
  - destruct (n ← number_of _; safe_integer n) as [z|] eqn:E; [|done]. injection H as <-. destruct (number_of _) as [q|]; [|done]. by apply (safe_integer_safe q).
  - inv_outcome. cbn [scalar]. destruct v; try by apply (Decimal.of_like_wf (Decimal.LText _) _ I E). destruct (has_e _); [by eapply Decimal.fromNumber_wf|].
    by apply (Decimal.of_like_wf (Decimal.LText _) _ I E).
  - inv_outcome. cbn [scalar].
    assert (forall s t, PlainDate s = Ok t -> isPlainDate t = true) as Hpd.
    { intros s t. unfold PlainDate. destruct (isPlainDate s) eqn:Es; [|done]. by intros [= <-]. }
    destruct v as [s|n|b|]; try by apply (Hpd _ _ E). destruct (Hser eq_refl n eq_refl) as [S0 S1].
    assert (0 <= floor n < 2958466) as Hf by (apply floor_bounds; [exact S0|exact S1]).
    destruct (addDays_days EXCEL_EPOCH (floor n)) as (t & Ht & Hp & _); [reflexivity| |].
    { change (toDays EXCEL_EPOCH) with (-25569). unfold MIN_DAY, MAX_DAY. lia. }
    rewrite Ht in E. by injection E as <-.
  - destruct v as [s|n|b|]; cycle 1.
    { injection H as <-. apply clock_number. by apply Hser. }
    all: destruct (TIME _) as [[h m]|] eqn:Et; [|done]; destruct (23 <? digits_val h) eqn:E23; [done|]; injection H as <-; by apply (TIME_clock _ h m Et).
  - destruct v; cbv zeta in H; repeat case_match; try done; by injection H as <-.
  - destruct (includes values _) eqn:Ei; [|done]. injection H as <-. split; [by apply includes_spec|done].
Qed.
(** Where a column of days or times holds a number, it is a day of the calendar. *)
Definition in_calendar (at_ : dict nat) (columns : list Column) (line : list Cell) : Prop :=
  forall c k n, c ∈ columns -> k ∈ headersOf c -> (calendar (cl_kind c) = true \/ cl_kind c = KPeriod) -> (i ← get at_ k; line !! i) = Some (CNumber n) -> serial n.
Lemma read_typed (at_ : dict nat) (line : list Cell) (n : Z) (k : string) (kd : Kind) (opt : bool) (v : Value) : kd <> KPeriod ->
  (calendar kd = true -> forall x, (i ← get at_ k; line !! i) = Some (CNumber x) -> serial x) ->
  read number_text at_ line n k kd opt = (v, []) -> (v = VNull /\ opt = true) \/ scalar kd v.
Proof.
  intros Hk Hcal. unfold read. cbv zeta. destruct (i ← get at_ k; line !! i) as [x|]; [|by destruct opt; [intros [= <-]; left|]].
  destruct (blank (Some x)) eqn:Eb; [by destruct opt; [intros [= <-]; left|]|].
  destruct (cell number_text kd x) as [y|e] eqn:Ec; [|done]. intros [= <-]. right. apply (cell_typed kd x y Hk Eb); [|done].
  intros Hc m ->. by apply Hcal.
Qed.
Lemma period_typed (at_ : dict nat) (line : list Cell) (n : Z) (k : string) (opt : bool) (v : Value) :
  (forall x, (i ← get at_ k; line !! i) = Some (CNumber x) -> serial x) ->
  read number_text at_ line n k KDate opt = (v, []) -> (date_of v = None /\ opt = true) \/ exists s, date_of v = Some s /\ isPlainDate s = true.
Proof.
  intros Hcal H. apply read_typed in H as [[-> ->]|H]; [by left| |done|by intros _].
  right. destruct v; try done. by exists s.
Qed.
Lemma column_typed (at_ : dict nat) (columns : list Column) (line : list Cell) (n : Z) (c : Column) (v : Value) : c ∈ columns -> in_calendar at_ columns line ->
  read_column number_text at_ line n c = (v, []) -> Roundtrip.fits c v.
Proof.
  intros Hc Hcal. destruct c as [name kd opt]. destruct (decide (kd = KPeriod)) as [->|Hk].
  - unfold read_column. cbn [cl_kind cl_name cl_optional].
    destruct (read number_text at_ line n (from_of name) KDate opt) as [f e1] eqn:E1. destruct (read number_text at_ line n (to_of name) KDate true) as [t e2] eqn:E2.
    cbv zeta. intros H. injection H as Hv He. apply app_nil in He as [-> He]. apply app_nil in He as [-> Hback].
    apply period_typed in E1; [|intros x; apply (Hcal (MkColumn name KPeriod opt)); [done|by left|by right]].
    apply period_typed in E2; [|intros x; apply (Hcal (MkColumn name KPeriod opt)); [done|right; by left|by right]].
    destruct E1 as [[Ef ->]|(s & Ef & Hs)]; rewrite Ef in Hv, Hback; subst v; [done|]. unfold Roundtrip.fits. cbn [cl_kind from to]. split; [done|]. split; [done|].
    destruct E2 as [[Et _]|(s' & Et & Hs')]; rewrite Et in Hback |- *; [done|]. split; [done|]. by destruct (str_ltb s' s).
  - assert (read_column number_text at_ line n (MkColumn name kd opt) = read number_text at_ line n name kd opt) as -> by (by destruct kd).
    assert (name ∈ headersOf (MkColumn name kd opt)) as Hh by (unfold headersOf; cbn [cl_kind cl_name]; destruct kd; try (by left); done).
    intros H. apply read_typed in H as [[-> ->]|H]; [done| |done|intros Hcl x; apply (Hcal (MkColumn name kd opt)); [done|done|by left]].
    unfold Roundtrip.fits. cbn [cl_kind]. by destruct v, kd.
Qed.
(** The values of a line read without an error, each of its column. *)
Definition typed_values (columns : list Column) (row : Row) : Prop := Forall2 (fun c nv => fst nv = cl_name c /\ Roundtrip.fits c (snd nv)) columns row.
Lemma line_typed (at_ : dict nat) (columns : list Column) (line : list Cell) (n : Z) (row : Row) : NoDup (map cl_name columns) -> in_calendar at_ columns line ->
  read_line number_text at_ columns line n = (row, []) -> typed_values columns row.
Proof.
  intros Hn Hcal. unfold read_line.
  enough (forall cs (acc : Row) es, (forall c, c ∈ cs -> c ∈ columns) -> NoDup (map cl_name cs) -> (forall c, c ∈ cs -> get acc (cl_name c) = None) ->
    fold_left (fun re c => let '(v, es) := read_column number_text at_ line n c in (set (fst re) (cl_name c) v, snd re ++ es)) cs (acc, es) = (row, []) ->
    es = [] /\ exists r, row = acc ++ r /\ typed_values cs r) as H.
  { intros E. destruct (H columns [] [] ltac:(done) Hn ltac:(done) E) as (_ & r & -> & Hr). done. }
  induction cs as [|c cs IH]; intros acc es Hcs Hnd Hget; cbn [fold_left fst snd].
  { intros [= -> ->]. split; [done|]. exists []. split; [by rewrite app_nil_r|constructor]. }
  destruct (read_column number_text at_ line n c) as [v es'] eqn:Ec. cbn [map] in Hnd. apply NoDup_cons in Hnd as [Hx Hnd]. intros H. apply IH in H.
  - destruct H as [He (r & -> & Hr)]. apply app_nil in He as [-> ->]. split; [done|]. exists ((cl_name c, v) :: r). split.
    + assert (set acc (cl_name c) v = acc ++ [(cl_name c, v)]) as ->; [|by rewrite <- app_assoc].
      assert (get acc (cl_name c) = None) as Hg by (apply Hget; by left). clear -Hg. induction acc as [|[k w] acc IH]; [done|]. cbn [get set app] in *.
      destruct (String.eqb k (cl_name c)); [done|]. by rewrite IH.
    + constructor; [split; [done|]|done]. apply (column_typed at_ columns line n c v); [apply Hcs; by left|done|done].
  - intros c' Hc'. apply Hcs. by right.
  - done.
  - intros c' Hc'. rewrite get_set_ne; [apply Hget; by right|]. intros Hxx. apply Hx. rewrite Hxx. by apply (list_elem_of_fmap_2 cl_name).
Qed.
Definition filled (line : list Cell) : bool := negb (forallb (fun c => blank (Some c)) line).
Lemma lines_typed (at_ : dict nat) (columns : list Column) (lines : list (list Cell)) (m : nat) (acc rows : list Row) (es errs : list SheetError) :
  NoDup (map cl_name columns) -> Forall (in_calendar at_ columns) lines -> Forall (typed_values columns) acc ->
  fold_left (decode_line number_text at_ columns) (zip (seq m (length lines)) lines) (acc, es) = (rows, errs) ->
  Forall (typed_values columns) rows /\ (errs = [] -> es = [] /\ length rows = (length acc + length (List.filter filled lines))%nat).
Proof.
  intros Hn. revert m acc es. induction lines as [|line lines IH]; intros m acc es Hcal Hacc; cbn [length seq zip zip_with fold_left].
  { intros [= -> ->]. split; [done|]. intros ->. cbn. by rewrite Nat.add_0_r. }
  apply Forall_cons in Hcal as [Hl Hcal]. unfold decode_line at 2. cbn [fst snd List.filter]. unfold filled at 1.
  destruct (forallb (fun c => blank (Some c)) line) eqn:Eb; cbn [negb]; [by apply IH|].
  destruct (read_line number_text at_ columns line (Z.of_nat m + 2)) as [row es'] eqn:Er. intros H. destruct es' as [|e es'].
  - apply IH in H; [|done|apply Forall_app; split; [done|]; apply Forall_singleton; by apply (line_typed at_ columns line _ row Hn Hl Er)].
    destruct H as [H1 H2]. split; [done|]. intros He. destruct (H2 He) as [Hes Hlen]. rewrite app_nil_r in Hes. split; [done|]. rewrite Hlen, length_app. cbn. lia.
  - apply IH in H; [|done|done]. destruct H as [H1 H2]. split; [done|]. intros He. destruct (H2 He) as [Hes _]. by destruct es.
Qed.
(** What is read is typed. Every row a sheet decodes to holds, for each column in order, a value of that column or the blank of an optional
    one, also where other lines of the sheet are wrong; and when there is no error every line that is not blank is one row. Numbers in columns
    of days and times are taken to be days of the calendar, from 1899-12-30 to 9999-12-31. *)
Theorem decode_typed (cells : list (list Cell)) (cols : dict ColumnSpec) (rows : list Row) (errs : list SheetError) :
  NoDup (map cl_name (columnsOf cols)) ->
  Forall (in_calendar (positions (header_of number_text cells)) (columnsOf cols)) (list.drop 1 cells) ->
  decode number_text cells cols = (rows, errs) ->
  Forall (typed_values (columnsOf cols)) rows /\
  (errs = [] -> length rows = length (List.filter filled (list.drop 1 cells))).
Proof.
  intros Hn Hcal. unfold decode. cbv zeta. destruct (missing_columns _ _ ++ unknown_columns _ _) as [|e es]; [|by intros [= <- <-]].
  intros H. apply lines_typed in H as [H1 H2]; [|done|done|constructor]. split; [done|]. intros He. by destruct (H2 He).
Qed.
End Typed.
End Typed.

(** ** A sample: a payroll sheet. *)
Module Payroll.
Import Sheet Dates Cells.
(** Whole numbers by their digits, others by a stand-in. *)
Definition number_text (n : number) : string := let r := Qred n in if (Zpos (Qden r) =? 1) then dec_of (Qnum r) else "0.5".
Lemma number_text_int (n : Z) : is_safe_integer n = true -> number_text (inject_Z n) = dec_of n.
Proof.
  intros _. unfold number_text. assert (Qred (inject_Z n) = inject_Z n) as -> by (apply Qcanon.Qred_identity; cbn; apply Z.gcd_1_r). done.
Qed.
Lemma number_text_plain (n : number) : plain (number_text n) /\ number_text n <> EmptyString.
Proof.
  unfold number_text. cbv zeta. destruct (Zpos (Qden (Qred n)) =? 1); [|by split]. split; [apply dec_plain|]. unfold dec_of.
  destruct (Qnum (Qred n) <? 0); [done|]. pose proof (digits_of_nonempty (Qnum (Qred n))) as H. intros E. rewrite E in H. change (slength "") with 0 in H. lia.
Qed.
Definition cols : dict ColumnSpec :=
  [("name", SText); ("hours", SOptional SInt); ("pay", SDecimal); ("start", STime); ("active", SBool); ("grade", SEnum ["a"; "b"]); ("term", SPeriod)]%string.
Definition row (name : string) (hours : Value) (end_ : option string) : Row :=
  [("name", VText name); ("hours", hours); ("pay", VDecimal (Decimal.mk 1250 2)); ("start", VText "07:30"); ("active", VBool true);
   ("grade", VText "b"); ("term", VPeriod (Period "2026-01-01" end_))]%string.
Definition rows : list Row := [row "Ann" (VInt 40) None; row "Bo" VNull (Some "2026-06-30"%string)].
Example encoded : encode rows cols =
  [map CText ["name"; "hours"; "pay"; "start"; "active"; "grade"; "term.from"; "term.to"];
   [CText "Ann"; CNumber 40%Q; CText "12.50"; CText "07:30"; Sheet.CBool true; CText "b"; CText "2026-01-01"; CNull];
   [CText "Bo"; CNull; CText "12.50"; CText "07:30"; Sheet.CBool true; CText "b"; CText "2026-01-01"; CText "2026-06-30"]]%string.
Proof. vm_compute. reflexivity. Qed.
Lemma cols_good : Roundtrip.good_header (columnsOf cols).
Proof.
  split_and!; [apply (bool_decide_eq_true_1 _); vm_compute; reflexivity..|]. repeat (constructor; [by split|]). constructor.
Qed.
Lemma rows_typed : Forall (Roundtrip.typed_row (columnsOf cols)) rows.
Proof.
  assert (is_clock "07:30") as Hc by (exists 7, 30; split_and!; try lia; reflexivity).
  repeat constructor; try done; try (eexists; split; [by left|done]); by apply includes_spec.
Qed.
Definition day_cols : dict ColumnSpec := [("day", SDate); ("at", STime)]%string.
Definition days (day at_ : number) : list (list Cell) := [[CText "day"; CText "at"]; [CNumber day; CNumber at_]]%string.
Lemma decode_typed_witness :
  decode number_text (days 46023%Q (1 # 2)) day_cols = ([[("day", VText "2026-01-01"); ("at", VText "12:00")]]%string, []) /\
  Forall (Typed.typed_values (columnsOf day_cols)) [[("day", VText "2026-01-01"); ("at", VText "12:00")]]%string.
Proof.
  assert (decode number_text (days 46023%Q (1 # 2)) day_cols = ([[("day", VText "2026-01-01"); ("at", VText "12:00")]]%string, [])) as E by (vm_compute; reflexivity).
  split; [exact E|]. refine (proj1 (Typed.decode_typed number_text number_text_plain (days 46023%Q (1 # 2)) day_cols _ [] _ _ E)).
  - apply (bool_decide_eq_true_1 _). vm_compute. reflexivity.
  - constructor; [|constructor]. intros c k n _ _ _ H.
    assert ((n == 46023)%Q \/ (n == 1 # 2)%Q) as Hn.
    { destruct (get _ k) as [[|[|i]]|]; cbn in H; try discriminate H; injection H as <-; [left|right]; reflexivity. }
    destruct Hn as [Hn|Hn]; split; rewrite Hn; vm_compute; congruence.
Defined.
(** Rows that are not typed: a text is trimmed, an empty one counts as missing, and a row of nulls is no row. *)
Example untyped_rows :
  let two := [("name", SText); ("note", SOptional SText)]%string in
  let back rows := decode number_text (encode rows two) two in
  back [[("name", VText " a "); ("note", VText "x")]]%string = ([[("name", VText "a"); ("note", VText "x")]]%string, []) /\
  (let '(rows, errors) := back [[("name", VText ""); ("note", VText "x")]]%string in rows = [] /\ errors <> []) /\
  back [[("name", VNull); ("note", VNull)]]%string = ([], []).
Proof. vm_compute. split_and!; done. Qed.
(** A number off the calendar is read without an error. A day past the year 9999 becomes a text that is no date, and a negative fraction of a
    day a text that is no time; the sheet reports neither. *)
Theorem bad_numbers_read :
  decode number_text (days 3000000%Q (-1 # 2)) day_cols = ([[("day", VText "+010113-09"); ("at", VText "-12:00")]]%string, []) /\
  isPlainDate "+010113-09" = false /\ TIME "-12:00" = None.
Proof. vm_compute. split_and!; reflexivity. Qed.
End Payroll.
