(* ===== verification/Pages.v ===== *)
(** A page of a read and its cursor: the store's failures ([packages/store/src/errors.ts]), its caps (limits.ts), the order
    and the keyset cursors of [packages/store/src/read/sql.ts] ([seek], [encodeCursor], [decodeCursor], [hash], and what
    the statement of a list read asks of the database: [budgeted], [counted], the limit), and the answer of a compiled
    read ([packages/store/src/read/page.ts]). *)
From Stdlib Require Import Sorted.
From Stdlib Require HexString.
From stdpp Require Import countable.
From S2P Require Import Prelude Ir.
Open Scope Z_scope.

(** ** The store's failures. *)

Inductive StoreCode :=
| S_badCursor | S_destructiveNotAccepted | S_forbidden | S_internal | S_invalid | S_invalidInput | S_invalidWhere
| S_migrationChanged | S_migrationInvalid | S_notFound | S_schema | S_schemaInvalid | S_schemaMoved | S_stale | S_tooLarge.
Inductive StorePhase := SP_decode | SP_admission | SP_derive | SP_commit | SP_deliver.
Record StoreError := MkStoreError { se_code : StoreCode; se_phase : StorePhase; se_message : string }.

(** [Effect<A, StoreError>]: a pure effect fails with a [StoreError] or succeeds. *)
Definition Fx (A : Type) : Type := StoreError + A.
#[export] Instance Fx_ret : MRet Fx := fun A a => inr a.
#[export] Instance Fx_bind : MBind Fx := fun A B f m => match m with inl e => inl e | inr a => f a end.
(** [Effect.fail(StoreError.of(code, phase, message))]. *)
Definition fail {A} (code : StoreCode) (phase : StorePhase) (message : string) : Fx A := inl (MkStoreError code phase message).

(** ** [STORE_LIMITS]. *)

Definition page_max : Z := 10000.
Definition page_all : Z := 50000.
Definition MiB : Z := 1024 * 1024.
Definition page_allBytes : Z := 8 * MiB.
Definition page_relationArm : Z := 10000.
Definition pageBytes : Z := 4 * MiB.

(** ** The answer of a read (page.ts). *)

Definition OVER : string := "$over".
Definition TOTAL : string := "$total".
(** The member of a row its sort keys are delivered in. *)
Definition KEYS : string := "$k".

Definition Wire := dict Json.
Definition tooLarge {A} (message : string) : Fx A := fail S_tooLarge SP_deliver message.
Definition cursorKeys (v : option Json) : list (option string) :=
  match v with
  | Some (JArray l) => map (fun x => match x with JString s => Some s | _ => None end) l
  | _ => []
  end.

(** [Array.filter(v => Predicate.isObject(v))]: neither null nor an array. *)
Definition as_object (v : Json) : option Wire := match v with JObject o => Some o | _ => None end.
Definition objects (vs : list Json) : list Wire := omap as_object vs.

(** The rows a relation's value holds. *)
Definition arm_rows (many : bool) (v : option Json) : list Wire :=
  objects (if many then match v with Some (JArray l) => l | _ => [] end
           else match v with None | Some JNull => [] | Some x => [x] end).
Definition arm_all (page : option PageIR) : bool := match page with Some AllRows => true | _ => false end.

(** [over(sel, rs)]: the first relation, at any depth, that was asked for [all] and holds too many rows. *)
Fixpoint over (sel : SelectIR) (rs : list Wire) : option string :=
  match sel with
  | Select _ _ relations =>
      first_some (fun rel_r : string * RelSelectIR => let '(rel, r) := rel_r in first_some (over_arm rel r) rs) relations
  end
with over_arm (rel : string) (r : RelSelectIR) (row : Wire) : option string :=
  match r with
  | RelSelect _ targets targetSelects many select _ _ page _ =>
      let held := arm_rows many (get row rel) in
      if many && arm_all page && (page_relationArm <? Z.of_nat (length held)) then Some rel
      else
        match targets with
        | None => over select held
        | Some ts =>
            first_some (fun target : string =>
              let items := List.filter (fun item => match get item "model" with Some (JString m) => String.eqb m target | _ => false end) held in
              match targetSelects with
              | None => over select items
              | Some selects =>
                  (fix pick (selects : dict SelectIR) : option string :=
                     match selects with
                     | [] => over select items
                     | (t, s) :: selects' => if String.eqb t target then over s items else pick selects'
                     end) selects
              end) ts
        end
  end.

Definition armsFit (ir : ReadIR) (rows : list Wire) : Fx unit :=
  let check (select : SelectIR) : Fx unit :=
    match over select rows with
    | None => inr tt
    | Some rel => tooLarge ("relation '" +:+ rel +:+ "' holds more than " +:+ dec_of page_relationArm +:+ " rows; state a limit (rule 9)")
    end in
  match ir with
  | Read r => check (lr_select r)
  | GetRead _ _ _ select _ _ => check select
  | _ => inr tt
  end.

(** [xs.at(-1)] and [xs.slice(0, -1)]. *)
Definition initial {A} (l : list A) : list A := take (length l - 1) l.

(** [totalOf(rows)]. *)
Definition totalOf (rows : list Json) : list Json * option number :=
  match last rows with
  | Some (JObject o) => match get o TOTAL with Some (JNumber n) => (initial rows, Some n) | _ => (rows, None) end
  | _ => (rows, None)
  end.

(** What the answer reads of a [Compiled] read: its statement and its dependencies are the host's. *)
Inductive Answers := Rows | One | Agg.
Inductive Take := TakeLimit (limit : Z) | TakeAll | TakeNull.
Record Compiled := MkCompiled { c_kind : Answers; c_limit : Take; c_hash : string; c_keys : Z }.

(** [xs.slice(0, n)]: a negative [n] counts from the end. *)
Definition slice_to {A} (n : Z) (l : list A) : list A :=
  if n <? 0 then take (Z.to_nat (Z.of_nat (length l) + n)) l else take (Z.to_nat n) l.

Definition ir_model (ir : ReadIR) : string :=
  match ir with Read r => lr_model r | GetRead m _ _ _ _ _ => m | Aggregate _ m _ _ _ => m | Similar m _ _ _ _ _ _ => m end.
Definition opt_json (s : option string) : Json := match s with Some s => JString s | None => JNull end.
Definition is_true (j : option Json) : bool := match j with Some (JBool true) => true | _ => false end.

Section Answer.
(** [Schema.encodeSync(CursorPayload)]: the unpadded base64url text of [{ h, k }] as JSON. *)
Variable encodePayload : string * list (option string) -> string.

(** [encodeCursor(h, values)]. *)
Definition encodeCursor (h : string) (values : list (option string)) : string := encodePayload (h, values).

(** [row] without its [$k]. *)
Definition delivered (row : Wire) : Json := JObject (List.filter (fun kv => negb (String.eqb (fst kv) KEYS)) row).

(** [answer(ir, c, rows, allBytes)]. *)
Definition answer (ir : ReadIR) (c : Compiled) (rows : list Json) (allBytes : Z) : Fx Json :=
  let counted := totalOf rows in
  let total : Wire := match snd counted with None => [] | Some n => [(("total"%string), JNumber n)] end in
  let answered := objects (fst counted) in
  let over := match last answered with Some row => is_true (get row OVER) | None => false end in
  let js := if over then initial answered else answered in
  let of_ := " of " +:+ ir_model ir in
  _ ← armsFit ir js;
  match c_kind c with
  | One | Agg => inr (match js with row :: _ => JObject row | [] => JNull end)
  | Rows =>
      match c_limit c with
      | TakeAll | TakeNull =>
          if page_all <? Z.of_nat (length js) then
            tooLarge ("the read" +:+ of_ +:+ " matches more than " +:+ dec_of page_all +:+ " rows; page it (rule 9)")
          else if over then
            tooLarge ("the read" +:+ of_ +:+ " is larger than " +:+ dec_of allBytes +:+ " bytes; page it (rule 9)")
          else inr (JObject ([("rows"%string, JArray (map JObject js)); ("next"%string, JNull)] ++ total))
      | TakeLimit limit =>
          if over && (Z.of_nat (length js) =? 0) then
            tooLarge ("a row" +:+ of_ +:+ " is larger than " +:+ dec_of pageBytes +:+ " bytes; select fewer fields (rule 9)")
          else
            let more := over || (limit <? Z.of_nat (length js)) in
            let page := slice_to limit js in
            let next := match last page with
                        | Some row => if more then Some (encodeCursor (c_hash c) (cursorKeys (get row KEYS))) else None
                        | None => None
                        end in
            inr (JObject ([("rows"%string, JArray (map delivered page)); ("next"%string, opt_json next)] ++ total))
      end
  end.

(** ** Cursors (read/sql.ts). *)

(** [Schema.decodeUnknownResult(CursorPayload)]. *)
Variable decodePayload : string -> option (string * list (option string)).

Definition decodeCursor (cursor h : string) (n : Z) : Fx (list (option string)) :=
  match decodePayload cursor with
  | Some (h', k) =>
      if String.eqb h' h && (Z.of_nat (length k) =? n) then inr k
      else fail S_badCursor SP_decode "the cursor does not belong to this query (rule 11)"
  | None => fail S_badCursor SP_decode "the cursor does not belong to this query (rule 11)"
  end.
End Answer.

(** The digits of [n] in base 36 ([n.toString(36)]). *)
Fixpoint base36 (fuel : nat) (n : Z) (acc : string) : string :=
  match fuel with
  | O => acc
  | S fuel' =>
      let d := n mod 36 in
      let acc' := String (if d <? 10 then digit_char d else chr (Z.to_N (d + 87))) acc in
      if n <? 36 then acc' else base36 fuel' (n / 36) acc'
  end.
(** One step of FNV-1a: [Math.imul(h ^ c, 0x01000193)], kept to 32 bits. *)
Definition fnv_step (h : Z) (c : ascii) : Z := Z.land (Z.lxor h (Z.of_N (N_of_ascii c)) * 16777619) (Z.ones 32).
Fixpoint fnv (h : Z) (s : string) : Z := match s with EmptyString => h | String c s' => fnv (fnv_step h c) s' end.
(** [hash(ir)] of the query's JSON text. *)
Definition hash (text : string) : string := base36 7 (fnv 2166136261 text) "".

(** ** Keyset order ([seek]). *)

Record Key := MkKey { k_expr : string; k_pg : string; k_dir : Dir }.
(** A condition as the statement spells it: comparisons of a column expression with a bound value, [AND], [OR]. *)
Inductive Sql :=
| IsNull (expr : string)
| IsNotNull (expr : string)
| Equals (expr value pg : string)
| Greater (expr value pg : string)
| Less (expr value pg : string)
| AllOf (cs : list Sql)
| AnyOf (cs : list Sql)
| SqlFalse.

(** The equalities on the keys before one. *)
Definition same_key (at_ : Key * option string) : Sql :=
  match snd at_ with None => IsNull (k_expr (fst at_)) | Some v => Equals (k_expr (fst at_)) v (k_pg (fst at_)) end.
(** The rows past a value of one key. *)
Definition past_key (k : Key) (v : option string) : Sql :=
  match k_dir k, v with
  | Asc, Some v => AnyOf [Greater (k_expr k) v (k_pg k); IsNull (k_expr k)]
  | Asc, None => SqlFalse
  | Desc, None => IsNotNull (k_expr k)
  | Desc, Some v => Less (k_expr k) v (k_pg k)
  end.
(** The branches from one key on, [before] being the keys before it with their values. *)
Fixpoint branches (before : list (Key * option string)) (keys : list Key) (values : list (option string)) : list Sql :=
  match keys with
  | [] => []
  | k :: keys' =>
      let v := match values with v :: _ => v | [] => None end in
      let rest := branches (before ++ [(k, v)]) keys' (tail values) in
      match k_dir k, v with
      | Asc, None => rest
      | _, _ => AllOf (map same_key before ++ [past_key k v]) :: rest
      end
  end.
Definition seek (keys : list Key) (values : list (option string)) : Sql :=
  match branches [] keys values with [] => SqlFalse | bs => AnyOf bs end.

(** ** What the statement of a list read asks of the database. *)

Section Statement.
(** [octet_length(j::text)]. *)
Variable size : Json -> Z.
Definition over_marker : Json := JObject [(OVER, JBool true)].
(** [budgeted(rows, bytes)]: [b] is the sum of the sizes up to and with the row; a row leaves while the ones before it
    fit, and is the marker when it does not fit itself. *)
Fixpoint budgeted (before bytes : Z) (rows : list Json) : list Json :=
  match rows with
  | [] => []
  | j :: rows' =>
      let b := before + size j in
      (if b - size j <=? bytes then [if bytes <? b then over_marker else j] else []) ++ budgeted b bytes rows'
  end.
(** [counted(rows, total, ...)]. *)
Definition counted (rows : list Json) (total : option Z) : list Json :=
  match total with Some n => rows ++ [JObject [(TOTAL, JNumber (num_of_int n))]] | None => rows end.
(** The rows a statement takes: one past the limit. *)
Definition taken (t : Take) : nat :=
  match t with TakeLimit limit => Z.to_nat (limit + 1) | _ => Z.to_nat (page_all + 1) end.
Definition byte_budget (t : Take) (allBytes : Z) : Z := match t with TakeLimit _ => pageBytes | _ => allBytes end.
End Statement.

(** The hash keeps 32 bits, and seven digits are enough to write it. *)
Lemma fnv_bounds h s : 0 <= h < 2 ^ 32 -> 0 <= fnv h s < 2 ^ 32.
Proof.
  revert h. induction s as [|c s IH]; intros h Hh; [done|]. cbn [fnv]. apply IH. unfold fnv_step.
  rewrite Z.land_ones by lia. apply Z.mod_pos_bound. lia.
Qed.
Lemma base36_fuel fuel n acc : 0 <= n < 36 ^ Z.of_nat (S fuel) -> base36 (S (S fuel)) n acc = base36 (S fuel) n acc.
Proof.
  revert n acc. induction fuel as [|fuel IH]; intros n acc Hn.
  - cbn [base36]. by rewrite (proj2 (Z.ltb_lt n 36)) by (change (36 ^ Z.of_nat 1) with 36 in Hn; lia).
  - cbn [base36]. destruct (n <? 36) eqn:E; [done|]. apply IH. bool_hyps.
    rewrite (Nat2Z.inj_succ (S fuel)), Z.pow_succ_r in Hn by lia. split; [apply Z.div_pos; lia|]. apply Z.div_lt_upper_bound; lia.
Qed.
Lemma hash_fuel text : base36 8 (fnv 2166136261 text) "" = hash text.
Proof.
  apply base36_fuel. pose proof (fnv_bounds 2166136261 text ltac:(lia)). change (36 ^ Z.of_nat 7) with 78364164096. lia.
Qed.
(** The published test vector of FNV-1a. *)
Example fnv_a : fnv 2166136261 "a" = 3826002220.
Proof. reflexivity. Qed.

(** ** The database side of a key: a column's values, their order and their text. *)

(** The values of one PostgreSQL type: its order, and a text form that casts back (what a cursor carries). *)
Class KeyOrder (V : Type) := {
  lt_val : string -> V -> V -> bool;
  text_of : string -> V -> string;
  cast_to : string -> string -> option V;
  lt_irrefl : forall pg v, lt_val pg v v = false;
  lt_trans : forall pg a b c, lt_val pg a b = true -> lt_val pg b c = true -> lt_val pg a c = true;
  lt_total : forall pg a b, lt_val pg a b = false -> lt_val pg b a = false -> a = b;
  cast_text : forall pg v, cast_to pg (text_of pg v) = Some v
}.

Section Order.
Context {V : Type} `{KeyOrder V}.

Lemma lt_asym pg a b : lt_val pg a b = true -> lt_val pg b a = false.
Proof. intros Hab. destruct (lt_val pg b a) eqn:Hba; [|done]. pose proof (lt_trans _ _ _ _ Hab Hba) as E. by rewrite lt_irrefl in E. Qed.

(** A row as the statement sees it: the value of each column expression. *)
Definition Row := string -> option V.

(** Three-valued logic: [None] is unknown, and a [WHERE] keeps the rows that are true. *)
Definition and3 (a b : option bool) : option bool :=
  match a, b with
  | Some false, _ | _, Some false => Some false
  | Some true, Some true => Some true
  | _, _ => None
  end.
Definition or3 (a b : option bool) : option bool :=
  match a, b with
  | Some true, _ | _, Some true => Some true
  | Some false, Some false => Some false
  | _, _ => None
  end.
Definition compare3 (f : V -> V -> bool) (a b : option V) : option bool :=
  match a, b with Some x, Some y => Some (f x y) | _, _ => None end.

Fixpoint eval (r : Row) (c : Sql) : option bool :=
  match c with
  | IsNull e => Some (negb (is_some (r e)))
  | IsNotNull e => Some (is_some (r e))
  | Equals e v pg => compare3 (fun x y => negb (lt_val pg x y) && negb (lt_val pg y x)) (r e) (cast_to pg v)
  | Greater e v pg => compare3 (fun x y => lt_val pg y x) (r e) (cast_to pg v)
  | Less e v pg => compare3 (lt_val pg) (r e) (cast_to pg v)
  | AllOf cs => fold_right (fun c acc => and3 (eval r c) acc) (Some true) cs
  | AnyOf cs => fold_right (fun c acc => or3 (eval r c) acc) (Some false) cs
  | SqlFalse => Some false
  end.
Definition holds (r : Row) (c : Sql) : bool := match eval r c with Some true => true | _ => false end.

(** The specification: [ORDER BY] one key, nulls last ascending and first descending. *)
Definition rank (k : Key) (a b : option V) : comparison :=
  match k_dir k, a, b with
  | _, None, None => Eq
  | Asc, None, Some _ | Desc, Some _, None => Gt
  | Asc, Some _, None | Desc, None, Some _ => Lt
  | Asc, Some x, Some y => if lt_val (k_pg k) x y then Lt else if lt_val (k_pg k) y x then Gt else Eq
  | Desc, Some x, Some y => if lt_val (k_pg k) y x then Lt else if lt_val (k_pg k) x y then Gt else Eq
  end.
(** [s] comes before [r] in the order of the keys. *)
Fixpoint precedes (keys : list Key) (s r : Row) : bool :=
  match keys with
  | [] => false
  | k :: keys' =>
      match rank k (s (k_expr k)) (r (k_expr k)) with
      | Lt => true
      | Eq => precedes keys' s r
      | Gt => false
      end
  end.
(** The texts of a row's keys: its [$k]. *)
Definition key_text (r : Row) (k : Key) : option string := option_map (text_of (k_pg k)) (r (k_expr k)).
Definition key_texts (keys : list Key) (r : Row) : list (option string) := map (key_text r) keys.

Lemma holds_all r cs : holds r (AllOf cs) = forallb (holds r) cs.
Proof.
  unfold holds. cbn [eval]. induction cs as [|c cs IH]; [done|]. cbn [fold_right forallb]. rewrite <- IH.
  destruct (eval r c) as [[]|], (fold_right _ _ cs) as [[]|]; done.
Qed.
Lemma holds_any r cs : holds r (AnyOf cs) = existsb (holds r) cs.
Proof.
  unfold holds. cbn [eval]. induction cs as [|c cs IH]; [done|]. cbn [fold_right existsb]. rewrite <- IH.
  destruct (eval r c) as [[]|], (fold_right _ _ cs) as [[]|]; done.
Qed.

Lemma same_key_holds r s k : holds r (same_key (k, key_text s k)) = match rank k (s (k_expr k)) (r (k_expr k)) with Eq => true | _ => false end.
Proof.
  unfold same_key, key_text, rank, holds. destruct k as [e pg []]; cbn [fst snd k_expr k_pg k_dir];
    destruct (s e) as [x|]; cbn [option_map eval]; rewrite ?cast_text; destruct (r e) as [y|]; try done; cbn [compare3];
    destruct (lt_val pg y x) eqn:?, (lt_val pg x y) eqn:?; done.
Qed.
Lemma past_key_holds r s k : holds r (past_key k (key_text s k)) = match rank k (s (k_expr k)) (r (k_expr k)) with Lt => true | _ => false end.
Proof.
  unfold past_key, key_text, rank, holds. destruct k as [e pg []]; cbn [fst snd k_expr k_pg k_dir];
    destruct (s e) as [x|]; cbn [option_map eval fold_right]; rewrite ?cast_text; destruct (r e) as [y|]; try done; cbn [compare3 or3 is_some negb].
  - destruct (lt_val pg x y) eqn:?, (lt_val pg y x) eqn:?; done.
  - destruct (lt_val pg y x) eqn:?, (lt_val pg x y) eqn:?; done.
Qed.

Lemma branches_hold r s (before keys : list Key) :
  existsb (holds r) (branches (map (fun k => (k, key_text s k)) before) keys (key_texts keys s)) =
  forallb (fun k => match rank k (s (k_expr k)) (r (k_expr k)) with Eq => true | _ => false end) before && precedes keys s r.
Proof.
  revert before. induction keys as [|k keys IH]; intros before; cbn [branches key_texts map precedes existsb]; [by rewrite andb_false_r|].
  specialize (IH (before ++ [k])). rewrite map_app in IH. cbn [map] in IH.
  cbn [tail]. fold (key_texts keys s). set (rest := branches _ keys (key_texts keys s)) in *.
  assert (Hbr : holds r (AllOf (map same_key (map (fun k => (k, key_text s k)) before) ++ [past_key k (key_text s k)])) =
    forallb (fun k => match rank k (s (k_expr k)) (r (k_expr k)) with Eq => true | _ => false end) before &&
    match rank k (s (k_expr k)) (r (k_expr k)) with Lt => true | _ => false end).
  { rewrite holds_all, forallb_app. cbn [forallb]. rewrite andb_true_r, past_key_holds. f_equal. rewrite map_map.
    clear IH rest. induction before as [|b before IHb]; [done|]. cbn [map forallb]. by rewrite same_key_holds, IHb. }
  assert (Hall : existsb (holds r) (match k_dir k, key_text s k with Asc, None => rest | _, _ =>
      AllOf (map same_key (map (fun k => (k, key_text s k)) before) ++ [past_key k (key_text s k)]) :: rest end) =
    holds r (AllOf (map same_key (map (fun k => (k, key_text s k)) before) ++ [past_key k (key_text s k)])) || existsb (holds r) rest).
  { destruct (k_dir k) eqn:D, (key_text s k) eqn:T; try done. rewrite Hbr. replace (match rank k _ _ with Lt => true | _ => false end) with false.
    - by rewrite andb_false_r.
    - unfold rank, key_text in *. rewrite D. destruct (s (k_expr k)); [done|]. by destruct (r (k_expr k)). }
  rewrite Hall, Hbr, IH, forallb_app. cbn [forallb]. rewrite andb_true_r.
  destruct (forallb _ before); [|done]. cbn [andb]. by destruct (rank k _ _).
Qed.

Lemma seek_exact_spec (keys : list Key) (s r : Row) : holds r (seek keys (key_texts keys s)) = precedes keys s r.
Proof.
  pose proof (branches_hold r s [] keys) as E. cbn [map forallb andb] in E. unfold seek. rewrite <- E.
  destruct (branches [] keys (key_texts keys s)) as [|b bs]; [done|]. apply holds_any.
Qed.
(** C31. A page's cursor is exact: the condition [seek] adds for the keys of a row keeps exactly the rows that come after
    that row in the statement's [ORDER BY], over ascending and descending keys, nulls last or first as PostgreSQL puts
    them, and with SQL's three-valued comparisons. *)
Theorem seek_exact (keys : list Key) (s r : Row) : holds r (seek keys (key_texts keys s)) = precedes keys s r.
Proof. exact (seek_exact_spec keys s r). Qed.

Lemma precedes_irrefl keys r : precedes keys r r = false.
Proof.
  induction keys as [|k keys IH]; [done|]. cbn [precedes]. unfold rank.
  destruct (k_dir k), (r (k_expr k)); rewrite ?lt_irrefl; done.
Qed.
Lemma rank_sym k a b : rank k a b = CompOpp (rank k b a).
Proof.
  unfold rank. destruct (k_dir k), a as [x|], b as [y|]; try done;
    destruct (lt_val _ x y) eqn:A, (lt_val _ y x) eqn:B; try done; by rewrite (lt_asym _ _ _ A) in B.
Qed.
Lemma precedes_asym keys s r : precedes keys s r = true -> precedes keys r s = false.
Proof.
  induction keys as [|k keys IH]; [done|]. cbn [precedes]. rewrite (rank_sym k (r _)). destruct (rank k (s _) (r _)); done.
Qed.
End Order.

(** ** A list read, page by page. *)

Section Read.
Context {V : Type} `{KeyOrder V}.
Variable encodePayload : string * list (option string) -> string.
Variable decodePayload : string -> option (string * list (option string)).
Variable size : Json -> Z.
(** [JSON.stringify] of a query. *)
Variable query_text : ListRead -> string.
(** A row the read's filters keep: its column values, and the members its select list delivers. *)
Context {Rec : Type}.
Variable col : Rec -> Row (V := V).
Variable project : Rec -> Wire.

(** [const { page, total, ...rest } = ir]. *)
Definition rest_of (ir : ListRead) : ListRead :=
  MkListRead (lr_model ir) (lr_output ir) (lr_where ir) (lr_select ir) (lr_order ir) (lr_search ir) (lr_firstPer ir)
    AllRows false (lr_member ir) (lr_cte ir).
Definition with_page (ir : ListRead) (page : PageIR) : ListRead :=
  MkListRead (lr_model ir) (lr_output ir) (lr_where ir) (lr_select ir) (lr_order ir) (lr_search ir) (lr_firstPer ir)
    page (lr_total ir) (lr_member ir) (lr_cte ir).
Definition pageLimit (p : PageIR) : Take := match p with AllRows => TakeAll | Limit limit _ => TakeLimit limit end.

(** A delivered row: a limited page carries the texts of its keys. *)
Definition row_wire (t : Take) (keys : list Key) (r : Rec) : Wire :=
  project r ++ match t with TakeLimit _ => [(KEYS, JArray (map opt_json (key_texts keys (col r))))] | _ => [] end.
(** The rows of the statement of a list read, of the rows its filters keep in its order. *)
Definition statement_rows (ir : ListRead) (keys : list Key) (after : option (list (option string))) (allBytes : Z) (rows : list Rec) : list Json :=
  let t := pageLimit (lr_page ir) in
  let kept := match after with None => rows | Some values => List.filter (fun r => holds (col r) (seek keys values)) rows end in
  counted (budgeted size 0 (byte_budget t allBytes) (map (fun r => JObject (row_wire t keys r)) (take (taken t) kept)))
    (if lr_total ir then Some (Z.of_nat (length rows)) else None).
(** [compile] of a list read, run and answered. *)
Definition list_read (ir : ListRead) (keys : list Key) (allBytes : Z) (rows : list Rec) : Fx Json :=
  let h := hash (query_text (rest_of ir)) in
  let n := Z.of_nat (length keys) in
  after ← match lr_page ir with
          | Limit _ (Some cursor) => values ← decodeCursor decodePayload cursor h n; inr (Some values)
          | _ => inr None
          end;
  answer encodePayload (Read ir) (MkCompiled Rows (pageLimit (lr_page ir)) h n) (statement_rows ir keys after allBytes rows) allBytes.

(** A caller that reads on from each page's [next]: the rows of its pages, one after another. *)
Definition member (j : Json) (k : string) : option Json := match j with JObject o => get o k | _ => None end.
Fixpoint walk (fuel : nat) (ir : ListRead) (limit : Z) (keys : list Key) (rows : list Rec) (after : option string) : Fx (list Json) :=
  match fuel with
  | O => inr []
  | S fuel' =>
      page ← list_read (with_page ir (Limit limit after)) keys page_allBytes rows;
      let here := match member page "rows" with Some (JArray l) => l | _ => [] end in
      match member page "next" with
      | Some (JString next) => more ← walk fuel' ir limit keys rows (Some next); inr (here ++ more)
      | _ => inr here
      end
  end.
End Read.

(** ** Arms. *)
Module Arms.
(** A relation of a read that is reached, at any depth, from rows [rs] of its select, with the rows it holds there. *)
Inductive reaches : SelectIR -> list Wire -> string -> RelSelectIR -> list Wire -> Prop :=
| Reach_here fields whole relations rs rel target targets selects many select w o page agg row :
    (rel, RelSelect target targets selects many select w o page agg) ∈ relations -> row ∈ rs ->
    reaches (Select fields whole relations) rs rel (RelSelect target targets selects many select w o page agg) (arm_rows many (get row rel))
| Reach_one fields whole relations rs rel target selects many select w o page agg row rel' r' held :
    (rel, RelSelect target None selects many select w o page agg) ∈ relations -> row ∈ rs ->
    reaches select (arm_rows many (get row rel)) rel' r' held ->
    reaches (Select fields whole relations) rs rel' r' held
| Reach_of fields whole relations rs rel target ts selects many select w o page agg row t rel' r' held :
    (rel, RelSelect target (Some ts) selects many select w o page agg) ∈ relations -> row ∈ rs -> t ∈ ts ->
    reaches (match selects with Some d => default select (get d t) | None => select end)
      (List.filter (fun item => match get item "model" with Some (JString m) => String.eqb m t | _ => false end) (arm_rows many (get row rel)))
      rel' r' held ->
    reaches (Select fields whole relations) rs rel' r' held.
(** An arm asked for [all] that holds more than its cap. *)
Definition too_many (r : RelSelectIR) (held : list Wire) : Prop :=
  match r with RelSelect _ _ _ many _ _ _ page _ => many = true /\ arm_all page = true /\ page_relationArm < Z.of_nat (length held) end.

(** The select of one target of a polymorphic arm. *)
Lemma pick_get (select : SelectIR) (items : list Wire) t (d : dict SelectIR) :
  (fix pick (selects : dict SelectIR) : option string :=
     match selects with
     | [] => over select items
     | (t', s) :: selects' => if String.eqb t' t then over s items else pick selects'
     end) d = over (default select (get d t)) items.
Proof. induction d as [|[t' s] d IH]; [done|]. cbn [get]. destruct (String.eqb t' t); [done|exact IH]. Qed.
Section SelectInd.
Variable P : SelectIR -> Prop.
(** What holds of every select below a relation. *)
Definition below (r : RelSelectIR) : Prop :=
  match r with RelSelect _ _ selects _ select _ _ _ _ => P select /\ match selects with Some d => Forall (fun kv => P (snd kv)) d | None => True end end.
Hypothesis Hsel : forall fields whole relations, Forall (fun kv => below (snd kv)) relations -> P (Select fields whole relations).
Fixpoint Select_nested (s : SelectIR) : P s :=
  match s with
  | Select fields whole relations =>
      Hsel fields whole relations
        ((fix go (l : list (string * RelSelectIR)) : Forall (fun kv => below (snd kv)) l :=
            match l with
            | [] => Forall_nil_2 _
            | kv :: l' =>
                Forall_cons_2 _ kv l'
                  (match snd kv as r return below r with
                   | RelSelect _ _ selects _ select _ _ _ _ =>
                       conj (Select_nested select)
                         (match selects as o return match o with Some d => Forall (fun kv => P (snd kv)) d | None => True end with
                          | None => I
                          | Some d => (fix goes (d : list (string * SelectIR)) : Forall (fun kv => P (snd kv)) d :=
                                         match d with
                                         | [] => Forall_nil_2 _
                                         | x :: d' => Forall_cons_2 _ x d' (Select_nested (snd x)) (goes d')
                                         end) d
                          end)
                   end) (go l')
            end) relations)
  end.
End SelectInd.

(** One arm of one row, its two cases. *)
Lemma over_arm_eq rel target targets selects many select w o page agg row :
  over_arm rel (RelSelect target targets selects many select w o page agg) row =
  if many && arm_all page && (page_relationArm <? Z.of_nat (length (arm_rows many (get row rel)))) then Some rel
  else match targets with
       | None => over select (arm_rows many (get row rel))
       | Some ts => first_some (fun t =>
           over (match selects with Some d => default select (get d t) | None => select end)
             (List.filter (fun item => match get item "model" with Some (JString m) => String.eqb m t | _ => false end) (arm_rows many (get row rel)))) ts
       end.
Proof.
  cbn [over_arm]. destruct (_ && _ && _); [done|]. destruct targets as [ts|]; [|done].
  induction ts as [|t ts IH]; [done|]. cbn [first_some]. destruct selects as [d|].
  - rewrite pick_get. by rewrite IH.
  - done.
Qed.

Lemma over_none sel rs : (forall rel r held, reaches sel rs rel r held -> ~ too_many r held) -> over sel rs = None.
Proof.
  revert rs. induction sel as [fields whole relations IH] using Select_nested. intros rs Hno. cbn [over].
  apply first_some_none. intros [rel r] Hrel. apply first_some_none. intros row Hrow.
  rewrite Forall_forall in IH. specialize (IH _ Hrel). destruct r as [target targets selects many select w o page agg].
  cbn [snd below] in IH. destruct IH as [IHs IHd]. rewrite over_arm_eq.
  destruct (_ && _ && _) eqn:Hcap.
  { destruct (Hno rel _ _ (Reach_here _ _ _ _ _ _ _ _ _ _ _ _ _ _ _ Hrel Hrow)). bool_hyps. by split_and!. }
  destruct targets as [ts|].
  - apply first_some_none. intros t Ht.
    assert (Hsel : forall rs', (forall rel' r' held', reaches (match selects with Some d => default select (get d t) | None => select end) rs' rel' r' held' ->
        ~ too_many r' held') -> over (match selects with Some d => default select (get d t) | None => select end) rs' = None).
    { destruct selects as [d|]; [|apply IHs]. destruct (get d t) as [s|] eqn:G; [|apply IHs]. apply get_in in G.
      rewrite Forall_forall in IHd. exact (IHd _ G). }
    apply Hsel. intros rel' r' held' Hr. eapply Hno. eapply Reach_of; eassumption.
  - apply IHs. intros rel' r' held' Hr. eapply Hno. eapply Reach_one; eassumption.
Qed.

Lemma over_some_reaches sel rs rel r held : reaches sel rs rel r held -> too_many r held -> over sel rs <> None.
Proof.
  intros Hr Ht. induction Hr as [f wh relations rs rel target targets selects many select w o page agg row Hrel Hrow
    |f wh relations rs rel target selects many select w o page agg row rel' r' held Hrel Hrow _ IH
    |f wh relations rs rel target ts selects many select w o page agg row t rel' r' held Hrel Hrow Htt _ IH];
    cbn [over]; intros Hn; pose proof (proj1 (first_some_none _ _) Hn _ Hrel) as Hn'; cbn beta iota in Hn';
    pose proof (proj1 (first_some_none _ _) Hn' _ Hrow) as Hn''; rewrite over_arm_eq in Hn''.
  - destruct Ht as (Hm & Ha & Hlen). apply Z.ltb_lt in Hlen. by rewrite Hlen, Ha, Hm in Hn''.
  - destruct (_ && _ && _); [done|]. by apply IH.
  - destruct (_ && _ && _); [done|]. apply IH; [done|]. exact (proj1 (first_some_none _ _) Hn'' _ Htt).
Qed.

(** The select of a read whose answer holds arms. *)
Definition select_of (ir : ReadIR) : option SelectIR :=
  match ir with Read r => Some (lr_select r) | GetRead _ _ _ s _ _ => Some s | _ => None end.

(** A list arm asked for whole is delivered whole or the read is refused: [armsFit] lets an answer pass exactly when
    no many-relation asked for [all], at whatever depth of the select and in whatever target of a polymorphic relation,
    holds more rows than its cap in any row it is reached from; nothing is cut. *)
Theorem armsFit_exact (ir : ReadIR) (rows : list Wire) :
  armsFit ir rows = inr tt <->
  match select_of ir with
  | Some sel => forall rel r held, reaches sel rows rel r held -> ~ too_many r held
  | None => True
  end.
Proof.
  assert (Hsel : forall sel, match over sel rows with None => inr tt | Some rel => tooLarge (A := unit) ("relation '" +:+ rel +:+ "' holds more than " +:+ dec_of page_relationArm +:+ " rows; state a limit (rule 9)") end = inr tt <->
      forall rel r held, reaches sel rows rel r held -> ~ too_many r held).
  { intros sel. split.
    - destruct (over sel rows) eqn:E; [done|]. intros _ rel r held Hr Ht. by apply (over_some_reaches _ _ _ _ _ Hr Ht).
    - intros Hno. by rewrite over_none. }
  destruct ir; cbn [armsFit select_of]; [apply Hsel|apply Hsel|done|done].
Qed.
End Arms.

(** ** Pages. *)
Module Walk.
(** No arm of a select was asked for whole. *)
Fixpoint bounded (s : SelectIR) : bool :=
  match s with Select _ _ relations => forallb (fun kv : string * RelSelectIR => bounded_arm (snd kv)) relations end
with bounded_arm (r : RelSelectIR) : bool :=
  match r with
  | RelSelect _ _ selects many select _ _ page _ =>
      negb (many && arm_all page) && bounded select &&
      match selects with Some d => forallb (fun kv : string * SelectIR => bounded (snd kv)) d | None => true end
  end.
Lemma bounded_fits sel rs : bounded sel = true -> over sel rs = None.
Proof.
  intros Hb. apply Arms.over_none. intros rel r held Hr. revert Hb.
  assert (Harm : forall relations rel0 r0, forallb (fun kv : string * RelSelectIR => bounded_arm (snd kv)) relations = true ->
      (rel0, r0) ∈ relations -> bounded_arm r0 = true).
  { intros relations rel0 r0 Hall Hin. rewrite forallb_forall in Hall. apply list_elem_of_In in Hin. exact (Hall _ Hin). }
  induction Hr as [f wh relations rs rel target targets selects many select w o page agg row Hrel Hrow
    |f wh relations rs rel target selects many select w o page agg row rel' r' held Hrel Hrow _ IH
    |f wh relations rs rel target ts selects many select w o page agg row t rel' r' held Hrel Hrow Htt _ IH];
    cbn [bounded]; intros Hb; pose proof (Harm _ _ _ Hb Hrel) as Ha; cbn [bounded_arm] in Ha; bool_hyps.
  - cbn [Arms.too_many]. intros (Hm & Hp & _). by rewrite Hm, Hp in *.
  - by apply IH.
  - apply IH. destruct selects as [d|]; [|done]. destruct (get d t) as [s|] eqn:G; [|done]. apply get_in in G.
    match goal with Hd : forallb _ d = true |- _ => rewrite forallb_forall in Hd; apply list_elem_of_In in G; exact (Hd _ G) end.
Qed.

(** ** The budget. *)
Section Budget.
Variable size : Json -> Z.
Hypothesis size_pos : forall j, 0 < size j.

Definition weight (js : list Json) : Z := fold_right (fun j acc => size j + acc) 0 js.
Lemma weight_nonneg js : 0 <= weight js.
Proof. induction js as [|j js IH]; cbn [weight fold_right]; [lia|]. pose proof (size_pos j). unfold weight in IH. lia. Qed.

Lemma budgeted_past before bytes js : bytes < before -> budgeted size before bytes js = [].
Proof.
  revert before. induction js as [|j js IH]; intros before Hb; [done|]. cbn [budgeted]. pose proof (size_pos j).
  replace (before + size j - size j) with before by lia. rewrite (proj2 (Z.leb_gt before bytes)) by done. apply IH. lia.
Qed.
(** What a budget lets through: a prefix, and the marker when it is cut. *)
Lemma budgeted_prefix before bytes js : before <= bytes ->
  exists n, (n <= length js)%nat /\
    budgeted size before bytes js = take n js ++ (if (n <? length js)%nat then [over_marker] else []) /\
    (forall j, j ∈ take n js -> size j <= bytes - before) /\
    (n = 0%nat -> forall j js', js = j :: js' -> bytes - before < size j) /\
    (n <? length js)%nat = (bytes <? before + weight js).
Proof.
  revert before. induction js as [|j js IH]; intros before Hb.
  { exists 0%nat. split_and!; try done; [cbn [take]; intros j Hj; by apply elem_of_nil in Hj|]. cbn [weight fold_right]. symmetry. apply Z.ltb_ge. lia. }
  cbn [budgeted]. replace (before + size j - size j) with before by lia. rewrite (proj2 (Z.leb_le before bytes)) by done.
  pose proof (size_pos j). destruct (bytes <? before + size j) eqn:E; bool_hyps.
  - exists 0%nat. split_and!; [cbn; lia| |cbn [take]; intros y Hy; by apply elem_of_nil in Hy| |].
    + cbn [take app length Nat.ltb Nat.leb]. by rewrite budgeted_past.
    + intros _ y js' [= <- _]. lia.
    + cbn [length weight fold_right]. fold (weight js). pose proof (weight_nonneg js). symmetry. apply Z.ltb_lt. lia.
  - destruct (IH (before + size j)) as (n & Hn & Hbud & Hfit & _ & Hw); [lia|]. exists (S n). split_and!; [cbn [length]; lia| | |done|].
    + cbn [take app length]. by rewrite Hbud.
    + cbn [take]. intros y [->|Hy]%elem_of_cons; [lia|]. specialize (Hfit y Hy). lia.
    + cbn [length weight fold_right]. fold (weight js). rewrite Z.add_assoc, <- Hw. done.
Qed.
End Budget.

Lemma objects_map (ws : list Wire) : objects (map JObject ws) = ws.
Proof. unfold objects. induction ws as [|w ws IH]; [done|]. cbn [map omap list_omap as_object]. cbn. f_equal. exact IH. Qed.
Lemma initial_snoc {A} (l : list A) x : initial (l ++ [x]) = l.
Proof. unfold initial. rewrite length_app. cbn [length]. replace (length l + 1 - 1)%nat with (length l) by lia. apply take_app_length. Qed.

Lemma totalOf_counted (js : list Json) (total : option Z) :
  (forall o, JObject o ∈ js -> get o TOTAL = None) -> totalOf (counted js total) = (js, option_map num_of_int total).
Proof.
  intros Hno. unfold counted, totalOf. destruct total as [n|]; cbn [option_map].
  - rewrite last_snoc. cbn [get]. by rewrite initial_snoc.
  - destruct (last js) as [[]|] eqn:E; try done. rewrite Hno; [done|]. apply last_Some in E as [l' ->]. apply elem_of_app. right. by left.
Qed.

(** What the answer takes from the rows of a statement: the delivered ones, the marker and the count apart. *)
Lemma opened (ws : list Wire) (cut : bool) (total : option Z) :
  (forall w, w ∈ ws -> get w TOTAL = None /\ get w OVER = None) ->
  let js := map JObject ws ++ (if cut then [over_marker] else []) in
  totalOf (counted js total) = (js, option_map num_of_int total) /\
  objects js = ws ++ (if cut then [[(OVER, JBool true)]] else []) /\
  (match last (objects js) with Some row => is_true (get row OVER) | None => false end) = cut /\
  (if cut then initial (objects js) else objects js) = ws.
Proof.
  intros Hno js. assert (Hobj : objects js = ws ++ (if cut then [[(OVER, JBool true)]] else [])).
  { subst js. rewrite <- (objects_map (ws ++ _)), map_app. f_equal. by destruct cut. }
  rewrite Hobj. split_and!; [|done| |].
  - apply totalOf_counted. subst js. intros o [(w & Ho & Hw)%list_elem_of_fmap|Hin]%elem_of_app.
    + injection Ho as ->. by apply Hno.
    + destruct cut; [|by apply elem_of_nil in Hin]. apply list_elem_of_singleton in Hin. by injection Hin as ->.
  - destruct cut; [by rewrite last_snoc|]. rewrite app_nil_r. destruct (last ws) as [w|] eqn:El; [|done].
    apply last_Some in El as [ws' ->]. assert (Hw : w ∈ ws' ++ [w]) by (apply elem_of_app; right; by left). by rewrite (proj2 (Hno w Hw)).
  - destruct cut; [apply initial_snoc|apply app_nil_r].
Qed.

(** ** One page. *)
Section Reads.
Context {V : Type} `{KeyOrder V}.
Variable encodePayload : string * list (option string) -> string.
Variable decodePayload : string -> option (string * list (option string)).
Variable size : Json -> Z.
Variable query_text : ListRead -> string.
Context {Rec : Type}.
Variable col : Rec -> Row (V := V).
Variable project : Rec -> Wire.
(** A cursor's text is read back. *)
Hypothesis codec : forall p, decodePayload (encodePayload p) = Some p.
Hypothesis size_pos : forall j, 0 < size j.
(** No field of a model is spelled as the members a statement adds. *)
Hypothesis reserved : forall r k, k ∈ [KEYS; OVER; TOTAL] -> get (project r) k = None.
Variable ir : ListRead.
Variable limit : Z.
Variable keys : list Key.
Hypothesis limit_pos : 1 <= limit.
Hypothesis arms_bounded : bounded (lr_select ir) = true.

Abbreviation wire := (row_wire col project (TakeLimit limit) keys).
Definition fits (r : Rec) : bool := size (JObject (wire r)) <=? pageBytes.
Definition too_large_row {A} : Fx A :=
  tooLarge ("a row of " +:+ lr_model ir +:+ " is larger than " +:+ dec_of pageBytes +:+ " bytes; select fewer fields (rule 9)").
Definition page_of (rows : list Rec) (next : option string) (total : option Z) : Json :=
  JObject ([("rows"%string, JArray (map (fun r => JObject (project r)) rows)); ("next"%string, opt_json next)] ++
    match total with Some n => [("total"%string, JNumber (num_of_int n))] | None => [] end).
(** The cursor after the last of a page's rows, when rows remain. *)
Definition next_of (h : string) (p : nat) (post : list Rec) : option string :=
  if (p <? length post)%nat then option_map (fun r => encodeCursor encodePayload h (key_texts keys (col r))) (last (take p post)) else None.

Lemma get_wire r k : k ∈ [KEYS; OVER; TOTAL] ->
  get (wire r) k = if String.eqb KEYS k then Some (JArray (map opt_json (key_texts keys (col r)))) else None.
Proof. intros Hk. unfold row_wire. rewrite get_app, reserved by done. cbn [get]. by destruct (String.eqb KEYS k). Qed.
Lemma delivered_wire r : delivered (wire r) = JObject (project r).
Proof.
  unfold delivered, row_wire. f_equal. rewrite List.filter_app. cbn [List.filter fst]. rewrite String.eqb_refl. cbn [negb]. rewrite app_nil_r.
  assert (Hk : get (project r) KEYS = None) by (apply reserved; set_solver). induction (project r) as [|[k v] d IH]; [done|]. cbn [get List.filter fst] in *.
  destruct (String.eqb k KEYS); [done|]. cbn [negb]. f_equal. by apply IH.
Qed.
Lemma cursor_wire r : cursorKeys (get (wire r) KEYS) = key_texts keys (col r).
Proof.
  rewrite get_wire by set_solver. rewrite String.eqb_refl. cbn [cursorKeys]. rewrite map_map. rewrite <- (map_id (key_texts keys (col r))) at 2.
  apply map_ext. by intros [t|].
Qed.

(** The rows a page's statement brings of the rows left, and what its answer makes of them. *)
Definition brought (post : list Rec) : list Json :=
  budgeted size 0 pageBytes (map (fun r => JObject (wire r)) (take (Z.to_nat (limit + 1)) post)).
Lemma last_map_wire n (l : list Rec) : last (map wire (take n l)) = option_map wire (last (take n l)).
Proof. generalize (take n l). intros l'. induction l' as [|x l' _] using rev_ind; [done|]. rewrite map_app. cbn [map]. by rewrite !last_snoc. Qed.

Lemma brought_answer h n total post m (cut : bool) :
  (m <= length post)%nat -> brought post = map (fun r => JObject (wire r)) (take m post) ++ (if cut then [over_marker] else []) ->
  answer encodePayload (Read ir) (MkCompiled Rows (TakeLimit limit) h n) (counted (brought post) total) page_allBytes =
  if cut && (m =? 0)%nat then too_large_row
  else inr (JObject ([("rows"%string, JArray (map (fun r => JObject (project r)) (take (Z.to_nat limit) (take m post))));
         ("next"%string, opt_json (if cut || (limit <? Z.of_nat m)
            then option_map (fun r => encodeCursor encodePayload h (key_texts keys (col r))) (last (take (Z.to_nat limit) (take m post))) else None))] ++
        match total with Some n => [("total"%string, JNumber (num_of_int n))] | None => [] end)).
Proof.
  intros Hm Hb. unfold answer. rewrite Hb.
  replace (map (fun r => JObject (wire r)) (take m post)) with (map JObject (map wire (take m post))) by apply map_map.
  destruct (opened (map wire (take m post)) cut total) as (-> & Hobj & Hover & Hjs).
  { intros w (r & -> & _)%list_elem_of_fmap. by rewrite !get_wire by set_solver. }
  cbn [fst snd]. rewrite Hover, Hjs.
  cbn [c_kind c_limit c_hash ir_model armsFit]. rewrite bounded_fits by done. cbn [mbind Fx_bind].
  rewrite length_map, length_take, Nat.min_l by done. assert (Hz : (Z.of_nat m =? 0) = (m =? 0)%nat) by (by destruct m). rewrite Hz.
  destruct (cut && (m =? 0)%nat); [done|]. unfold slice_to. rewrite (proj2 (Z.ltb_ge limit 0)) by lia.
  rewrite firstn_map, map_map.
  replace (map (fun r => delivered (wire r)) _) with (map (fun r => JObject (project r)) (take (Z.to_nat limit) (take m post))) by (apply map_ext; intros r; by rewrite delivered_wire).
  rewrite last_map_wire. destruct (last (take (Z.to_nat limit) (take m post))) as [r|]; cbn [option_map]; [rewrite cursor_wire|]; by destruct (_ || _), total.
Qed.

(** One page of the rows left: at least one row, at most [limit], each within the budget, and a cursor exactly when rows
    remain; or the refusal of a first row past the budget. *)
Lemma one_page_exact h n total post :
  answer encodePayload (Read ir) (MkCompiled Rows (TakeLimit limit) h n) (counted (brought post) total) page_allBytes =
    too_large_row /\ (exists r post', post = r :: post' /\ fits r = false) \/
  exists p, (p <= length post)%nat /\ (post <> [] -> (1 <= p)%nat) /\ (Z.of_nat p <= limit)%Z /\ (forall r, r ∈ take p post -> fits r = true) /\
    answer encodePayload (Read ir) (MkCompiled Rows (TakeLimit limit) h n) (counted (brought post) total) page_allBytes =
    inr (page_of (take p post) (next_of h p post) total).
Proof.
  destruct (budgeted_prefix size size_pos 0 pageBytes (map (fun r => JObject (wire r)) (take (Z.to_nat (limit + 1)) post))) as (m & Hm & Hb & Hfit & Hzero & _); [done|].
  fold (brought post) in Hb. rewrite length_map in Hm, Hb. pose proof (length_take post (Z.to_nat (limit + 1))) as Hlen.
  rewrite firstn_map, take_take, Nat.min_l in Hb, Hfit by lia.
  rewrite (brought_answer h n total post m _ ltac:(lia) Hb).
  set (cut := (m <? length (take (Z.to_nat (limit + 1)) post))%nat) in *.
  destruct (cut && (m =? 0)%nat) eqn:Hover.
  - apply andb_true_iff in Hover as [Hcut Hover]. left. split; [done|]. apply Nat.eqb_eq in Hover as ->. destruct post as [|r post']; [subst cut; by rewrite take_nil in Hcut|].
    exists r, post'. split; [done|]. unfold fits. apply Z.leb_gt. replace pageBytes with (pageBytes - 0) by lia.
    eapply Hzero; [done|]. replace (Z.to_nat (limit + 1)) with (S (Z.to_nat limit)) by lia. cbn [take map]. done.
  - right. set (p := Nat.min (Z.to_nat limit) m). exists p.
    assert (Hmore : cut || (limit <? Z.of_nat m) = (p <? length post)%nat).
    { subst cut p. destruct (_ <? length (take _ _))%nat eqn:E1, (limit <? Z.of_nat m) eqn:E2; cbn [orb];
        repeat match goal with Hh : (_ <? _)%nat = true |- _ => apply Nat.ltb_lt in Hh | Hh : (_ <? _)%nat = false |- _ => apply Nat.ltb_ge in Hh end; bool_hyps; symmetry;
        [apply Nat.ltb_lt|apply Nat.ltb_lt|apply Nat.ltb_lt|apply Nat.ltb_ge]; lia. }
    split_and!; try (subst p; lia).
    + intros Hne. destruct m as [|m]; [|subst p; lia]. exfalso. subst cut. rewrite andb_true_r in Hover. apply Nat.ltb_ge in Hover.
      destruct post; [done|]. rewrite Hlen in Hover. cbn [length] in Hover. lia.
    + intros r Hr. unfold fits. apply Z.leb_le. specialize (Hfit (JObject (wire r))). rewrite Z.sub_0_r in Hfit. apply Hfit.
      apply list_elem_of_fmap. exists r. split; [done|]. subst p. rewrite <- take_take in Hr. by apply elem_of_take in Hr as (? & Hr & _); eapply list_elem_of_lookup_2.
    + unfold page_of, next_of. rewrite Hmore, take_take. fold p. done.
Qed.

(** ** A read asked for whole. *)
Abbreviation whole := (row_wire col project TakeAll keys).
(** A read asked for whole answers every row or is refused: the answer holds all the rows, with no cursor, exactly when
    they are at most the cap and weigh at most the byte budget; past either the read fails as [tooLarge], and no answer
    leaves a row out. *)
Theorem all_or_refused (rows : list Rec) (allBytes : Z) : 0 <= allBytes ->
  match list_read encodePayload decodePayload size query_text col project (with_page ir AllRows) keys allBytes rows with
  | inr page =>
      page = page_of rows None (if lr_total ir then Some (Z.of_nat (length rows)) else None) /\
      Z.of_nat (length rows) <= page_all /\ weight size (map (fun r => JObject (whole r)) rows) <= allBytes
  | inl e =>
      se_code e = S_tooLarge /\
      (page_all < Z.of_nat (length rows) \/ allBytes < weight size (map (fun r => JObject (whole r)) (take (Z.to_nat (page_all + 1)) rows)))
  end.
Proof using size_pos reserved arms_bounded.
  intros Hbytes. clear codec limit_pos. unfold list_read. cbn [with_page lr_page mbind Fx_bind]. unfold statement_rows. cbn [with_page lr_page lr_total pageLimit byte_budget taken].
  set (kept := take (Z.to_nat (page_all + 1)) rows).
  destruct (budgeted_prefix size size_pos 0 allBytes (map (fun r => JObject (whole r)) kept)) as (m & Hm & -> & _ & _ & Hcut); [done|].
  rewrite length_map in *. rewrite Z.add_0_l in Hcut. set (cut := (m <? length kept)%nat) in *.
  unfold answer. rewrite firstn_map.
  replace (map (fun r => JObject (whole r)) (take m kept)) with (map JObject (map whole (take m kept))) by apply map_map.
  destruct (opened (map whole (take m kept)) cut (if lr_total ir then Some (Z.of_nat (length rows)) else None)) as (-> & Hobj & Hover & Hjs).
  { intros w (r & -> & _)%list_elem_of_fmap. unfold row_wire. rewrite app_nil_r. split; apply reserved; set_solver. }
  cbn [fst snd]. rewrite Hover, Hjs. cbn [c_kind c_limit armsFit]. change (lr_select (with_page ir AllRows)) with (lr_select ir).
  rewrite bounded_fits by done. cbn [mbind Fx_bind]. rewrite length_map, length_take, Nat.min_l by done.
  assert (Hkept : length kept = Nat.min (Z.to_nat (page_all + 1)) (length rows)) by (subst kept; apply length_take).
  destruct (page_all <? Z.of_nat m) eqn:Hall; bool_hyps; [split; [done|]; left; lia|].
  destruct cut eqn:Ec; [split; [done|]; right; symmetry in Hcut; by bool_hyps|].
  symmetry in Hcut. bool_hyps. unfold cut in Ec. apply Nat.ltb_ge in Ec.
  assert (Hrows : kept = rows) by (subst kept; apply firstn_all2; lia). rewrite Hrows in *. split_and!; [|lia|done].
  rewrite firstn_all2 by lia. unfold page_of. rewrite map_map. cbn [opt_json].
  replace (map (fun r => JObject (whole r)) rows) with (map (fun r => JObject (project r)) rows)
    by (apply map_ext; intros r; unfold row_wire; by rewrite app_nil_r).
  by destruct (lr_total ir).
Qed.

(** ** All pages. *)
Abbreviation ordered := (StronglySorted (fun a b => precedes keys (col a) (col b) = true)).
(** The rows past a row, of rows in order. *)
Lemma kept_after pre x post : ordered (pre ++ x :: post) ->
  List.filter (fun r => holds (col r) (seek keys (key_texts keys (col x)))) (pre ++ x :: post) = post.
Proof.
  intros Hs. rewrite (List.filter_ext _ (fun r => precedes keys (col x) (col r))) by (intros r; apply seek_exact_spec).
  induction pre as [|y pre IH]; cbn [app List.filter].
  - rewrite precedes_irrefl. apply StronglySorted_inv in Hs as [_ Hx]. clear - Hx. induction Hx as [|r post Hr _ IH]; [done|].
    cbn [List.filter]. by rewrite Hr, IH.
  - cbn [app] in Hs. apply StronglySorted_inv in Hs as [Hs Hy]. rewrite Forall_forall in Hy.
    rewrite (precedes_asym keys (col y) (col x)) by (apply Hy, elem_of_app; right; by left). by apply IH.
Qed.

Abbreviation the_hash := (hash (query_text (rest_of ir))).
(** Where a walk stands: at the start, or past a row with its cursor. *)
Definition stands (pre : list Rec) (after : option string) : Prop :=
  match after with
  | None => pre = []
  | Some c => exists pre' x, pre = pre' ++ [x] /\ c = encodeCursor encodePayload the_hash (key_texts keys (col x))
  end.
Lemma list_read_from pre post after : ordered (pre ++ post) -> stands pre after ->
  list_read encodePayload decodePayload size query_text col project (with_page ir (Limit limit after)) keys page_allBytes (pre ++ post) =
  answer encodePayload (Read ir) (MkCompiled Rows (TakeLimit limit) the_hash (Z.of_nat (length keys)))
    (counted (brought post) (if lr_total ir then Some (Z.of_nat (length (pre ++ post))) else None)) page_allBytes.
Proof.
  intros Hs Hst. unfold list_read. cbn [with_page lr_page lr_total rest_of].
  destruct after as [c|]; cbn [stands] in Hst.
  - destruct Hst as (pre' & x & -> & ->). unfold decodeCursor, encodeCursor. rewrite codec, String.eqb_refl.
    unfold key_texts in *. rewrite length_map, Z.eqb_refl. fold (key_texts keys (col x)). cbn [andb mbind Fx_bind]. unfold statement_rows. cbn [with_page lr_page lr_total pageLimit byte_budget taken].
    rewrite <- app_assoc in *. cbn [app] in *. rewrite kept_after by done. reflexivity.
  - subst pre. reflexivity.
Qed.

Lemma walk_from fuel pre post after : ordered (pre ++ post) -> stands pre after -> (length post < fuel)%nat ->
  walk encodePayload decodePayload size query_text col project fuel ir limit keys (pre ++ post) after =
  if forallb fits post then inr (map (fun r => JObject (project r)) post) else too_large_row.
Proof.
  revert pre post after. induction fuel as [|fuel IH]; intros pre post after Hs Hst Hf; [lia|]. cbn [walk].
  rewrite (list_read_from _ _ _ Hs Hst).
  destruct (one_page_exact the_hash (Z.of_nat (length keys)) (if lr_total ir then Some (Z.of_nat (length (pre ++ post))) else None) post)
    as [[-> (r & post' & -> & Hr)]|(p & Hp & Hp1 & _ & Hfit & ->)].
  - cbn [mbind Fx_bind forallb]. by rewrite Hr.
  - cbn [mbind Fx_bind member page_of get app]. cbn [String.eqb Ascii.eqb Bool.eqb]. unfold next_of.
    assert (Hall : forallb fits (take p post) = true).
    { apply forallb_forall. intros r Hr. apply Hfit. by apply list_elem_of_In. }
    destruct (p <? length post)%nat eqn:Hlt.
    + apply Nat.ltb_lt in Hlt. destruct (last (take p post)) as [x|] eqn:El.
      2:{ apply last_None in El. destruct post; [cbn in Hlt; lia|]. destruct p; [|done]. specialize (Hp1 ltac:(done)). lia. }
      apply last_Some in El as [pre' El]. cbn [option_map opt_json].
      assert (Hpp : (pre ++ post = (pre ++ take p post) ++ skipn p post)) by (rewrite <- app_assoc; by rewrite firstn_skipn).
      rewrite Hpp in Hs |- *.
      rewrite IH; [|done| |].
      * assert (Hrest : forallb fits post = forallb fits (skipn p post)) by (rewrite <- (firstn_skipn p post) at 1; by rewrite forallb_app, Hall).
        assert (Hm : map (fun r => JObject (project r)) post = map (fun r => JObject (project r)) (take p post) ++ map (fun r => JObject (project r)) (skipn p post))
          by (by rewrite <- map_app, firstn_skipn).
        rewrite Hrest, Hm. by destruct (forallb fits (skipn p post)).
      * cbn [stands]. exists (pre ++ pre'), x. split; [by rewrite El, app_assoc|done].
      * rewrite length_skipn. destruct post; [cbn in Hlt; lia|]. specialize (Hp1 ltac:(done)). lia.
    + apply Nat.ltb_ge in Hlt. rewrite firstn_all2 in * by lia. rewrite Hall. cbn [opt_json]. done.
Qed.

(** C16. Reading on from each page's cursor gives the whole result: over rows in a total order, a caller that starts without
    a cursor and passes each page's [next] back reads every row exactly once, in order, whatever the limit and the byte
    budget cut the pages at, and stops within as many pages as there are rows and one; when some row alone is larger than
    the budget, the walk is refused rather than cut. *)
Theorem walk_complete (rows : list Rec) : ordered rows ->
  walk encodePayload decodePayload size query_text col project (S (length rows)) ir limit keys rows None =
  if forallb fits rows then inr (map (fun r => JObject (project r)) rows) else too_large_row.
Proof. intros Hs. apply (walk_from _ [] rows None); [done|done|lia]. Qed.
End Reads.
End Walk.

(** ** A list of books by title, a title being optional. *)
Module Books.
#[export] Instance text_order : KeyOrder string.
Proof.
  refine {| lt_val := fun _ => str_ltb; text_of := fun _ v => v; cast_to := fun _ s => Some s |}.
  - intros _. exact str_ltb_irrefl.
  - intros _. exact str_ltb_trans.
  - intros _. exact str_ltb_total.
  - done.
Defined.
Record Book := MkBook { title : option string; id : string }.
Definition col (b : Book) : Row := fun e => if String.eqb e "t1.title" then title b else if String.eqb e "t1.id" then Some (id b) else None.
Definition project (b : Book) : Wire := [("id", JString (id b)); ("title", opt_json (title b))]%string.
Lemma reserved r k : k ∈ [KEYS; OVER; TOTAL] -> get (project r) k = None.
Proof. intros Hk. rewrite !elem_of_cons in Hk. by destruct Hk as [->|[->|[->|Hk%elem_of_nil]]]. Qed.
Definition keys : list Key := [MkKey "t1.title" "text" Desc; MkKey "t1.id" "text" Asc]%string.
Definition by_title : ListRead :=
  MkListRead "book" None None (Select None false []) (Some [MkOrder "title" Desc None]) None None AllRows true None None.
(** Nulls first: the order is descending. *)
Definition shelf : list Book := [MkBook None "3"; MkBook (Some "Persuasion") "1"; MkBook (Some "Emma") "2"; MkBook (Some "Emma") "4"]%string.
(** Rows of three megabytes: a page's budget lets one through. *)
Definition size (_ : Json) : Z := 3 * MiB.
Definition query_text (ir : ListRead) : string := lr_model ir.
(** A codec of cursors: any injection into text does. *)
Definition encodePayload (p : string * list (option string)) : string := HexString.of_N (Npos (encode p)).
Definition decodePayload (s : string) : option (string * list (option string)) :=
  match HexString.to_N s with Npos p => decode p | N0 => None end.
Lemma codec p : decodePayload (encodePayload p) = Some p.
Proof. unfold decodePayload, encodePayload. rewrite HexString.to_N_of_N. apply decode_encode. Qed.

Lemma shelf_ordered : StronglySorted (fun a b => precedes keys (col a) (col b) = true) shelf.
Proof. repeat constructor. Qed.

Lemma walk_complete_witness :
  StronglySorted (fun a b => precedes keys (col a) (col b) = true) shelf /\
  walk encodePayload decodePayload size query_text col project 5 by_title 2 keys shelf None =
    inr (map (fun b => JObject (project b)) shelf).
Proof.
  split; [exact shelf_ordered|].
  exact (Walk.walk_complete encodePayload decodePayload size query_text col project codec (fun _ => eq_refl) reserved
    by_title 2 keys (fun E => ltac:(discriminate E)) eq_refl shelf shelf_ordered).
Defined.
Lemma all_or_refused_witness :
  list_read encodePayload decodePayload size query_text col project (with_page by_title AllRows) keys (12 * MiB) shelf =
    inr (Walk.page_of project shelf None (Some 4)).
Proof.
  pose proof (Walk.all_or_refused encodePayload decodePayload size query_text col project (fun _ => eq_refl) reserved
    by_title keys eq_refl shelf (12 * MiB) (fun E => ltac:(discriminate E))) as Hall.
  destruct (list_read _ _ _ _ _ _ _ _ _ _) as [e|page]; [|by destruct Hall as [-> _]].
  exfalso. destruct Hall as [_ [Hall|Hall]]; vm_compute in Hall; discriminate Hall.
Defined.
End Books.
