(* ===== verification/Evolve.v ===== *)
(** Schema evolution, [packages/store/src/schema/plan.ts]: the steps from the schema a database holds to the next one, the
    renames it declares, the statements of a plan in the order they run, and the destructive steps left to accept. The
    objects of a schema (schema/ddl.ts) are an argument, as in the source. *)
From Stdlib Require Import Sorted.
From S2P Require Import Prelude Ir Pages Hash.
Open Scope Z_scope.

(** ** What the planner reads of a schema (schema/spec.ts). *)

(** A field: [k_rest] is every other member of its declaration. A ref's [to] is one target ([inl]) or several. *)
Record FieldSpec := MkFieldSpec { k_kind : string; k_to : option (string + list string); k_was : option string; k_rest : dict Json }.
Record TableSpec := MkTableSpec { t_fields : dict FieldSpec; t_was : option string; t_rest : dict Json }.
Record SchemaSpec := MkSchemaSpec { tables : dict TableSpec; s_rest : dict Json }.

Definition opt_member (k : string) (v : option Json) : dict Json := match v with Some j => [(k, j)] | None => [] end.
Definition field_json (f : FieldSpec) : Json :=
  JObject ([("kind"%string, JString (k_kind f))]
    ++ opt_member "to" (option_map (fun to => match to with inl t => JString t | inr ts => JArray (map JString ts) end) (k_to f))
    ++ opt_member "was" (option_map JString (k_was f)) ++ k_rest f).
Definition table_json (t : TableSpec) : Json :=
  JObject ([("fields"%string, JObject (map (fun kv => (fst kv, field_json (snd kv))) (t_fields t)))]
    ++ opt_member "was" (option_map JString (t_was t)) ++ t_rest t).
Definition schema_json (s : SchemaSpec) : Json :=
  JObject ([("tables"%string, JObject (map (fun kv => (fst kv, table_json (snd kv))) (tables s)))] ++ s_rest s).
(** [fingerprint(s)]; [number_text] is [String(n)]. *)
Definition fingerprint (number_text : number -> string) (s : SchemaSpec) : string := sha256Hex (canonical number_text (schema_json s)).

(** ** Schema objects (schema/ddl.ts). *)

Inductive Rank := RExtension | RFunction | RTable | RColumn | RBackfill | RDefault | RNotNull | RConstraint | RFk | RIndex.
#[export] Instance Rank_eq_dec : EqDecision Rank. Proof. solve_decision. Defined.
Definition RANK (r : Rank) : Z :=
  match r with
  | RExtension => 0 | RFunction => 1 | RTable => 2 | RColumn => 3 | RBackfill => 4
  | RDefault => 5 | RNotNull => 6 | RConstraint => 7 | RFk => 8 | RIndex => 9
  end.
(** [o_name] is [meta.name], what of a constraint's declaration the planner reads. *)
Record SchemaObject := MkObject {
  o_id : string; o_rank : Rank; o_table : string; o_deps : list string; o_create : list string; o_shape : option string;
  o_drop : option string; o_stored : bool; o_derived : bool; o_violations : option string; o_name : option string }.

(** ** Steps and plans. *)

Inductive StepClass := Additive | Rename | Backfill | Validating | Destructive.
#[export] Instance StepClass_eq_dec : EqDecision StepClass. Proof. solve_decision. Defined.
Inductive StepRisk := AccessExclusiveLock | WritesBlocked | TableScan | TableRewrite | IndexRebuild.
#[export] Instance StepRisk_eq_dec : EqDecision StepRisk. Proof. solve_decision. Defined.
Record Step := MkStep {
  st_id : string; st_class : StepClass; st_drop : option SchemaObject; st_create : option SchemaObject;
  st_rename : option string; st_alter : option string; st_risks : list StepRisk }.
Record Plan := MkPlan { p_from : option string; p_to : string; p_schema : SchemaSpec; p_steps : list Step }.
Record PlannedStatement := MkStatement {
  ps_step : string; ps_sql : string; ps_violations : option string; ps_name : option string; ps_risks : list StepRisk }.

(** [ORDER.indexOf(c)]. *)
Definition ORDER (c : StepClass) : Z :=
  match c with Additive => 0 | Rename => 1 | Backfill => 2 | Validating => 3 | Destructive => 4 end.
Definition worst (a b : StepClass) : StepClass := if ORDER b <? ORDER a then a else b.

(** ** Text. *)

Definition dq : string := String QUOTE EmptyString.
Definition line : string := String LF EmptyString.
(** [text.replaceAll(c, by)] of one character. *)
Fixpoint replace_char (c : ascii) (by_ s : string) : string :=
  match s with EmptyString => EmptyString | String x s' => (if Ascii.eqb x c then by_ else String x EmptyString) +:+ replace_char c by_ s' end.
(** [q(id)]. *)
Definition q (id : string) : string := dq +:+ replace_char QUOTE (dq +:+ dq) id +:+ dq.
Definition def (o : SchemaObject) : string := match o_shape o with Some s => s | None => join (";" +:+ line) (o_create o) end.
Definition colKey (o : SchemaObject) (c : string) : string := o_table o +:+ "." +:+ c.
(** [text.includes(sub)]. *)
Fixpoint has_text (sub s : string) : bool :=
  String.prefix sub s || match s with EmptyString => false | String _ s' => has_text sub s' end.

(** The rest of a quoted token after its opening quote, and what follows it: [(?:''|[^'])*'], the longest match. *)
Fixpoint token_end (quote : ascii) (s : string) : option (string * string) :=
  match s with
  | EmptyString => None
  | String c s' =>
      if Ascii.eqb c quote then
        match s' with
        | String c2 s2 =>
            if Ascii.eqb c2 quote then
              match token_end quote s2 with
              | Some (body, rest) => Some (String c (String c2 body), rest)
              | None => Some (String c EmptyString, s')
              end
            else Some (String c EmptyString, s')
        | EmptyString => Some (String c EmptyString, EmptyString)
        end
      else option_map (fun br => (String c (fst br), snd br)) (token_end quote s')
  end.
(** [quoted(sql, from, to)]: every quoted token that is the identifier [from] becomes [to]. *)
Fixpoint quoted_from (fuel : nat) (from to sql : string) : string :=
  match fuel, sql with
  | S fuel', String c s' =>
      if Ascii.eqb c "'" || Ascii.eqb c QUOTE then
        match token_end c s' with
        | Some (body, rest) =>
            let token := String c body in
            (if String.eqb token (q from) then q to else token) +:+ quoted_from fuel' from to rest
        | None => String c (quoted_from fuel' from to s')
        end
      else String c (quoted_from fuel' from to s')
  | _, _ => sql
  end.
Definition quoted (sql from to : string) : string := quoted_from (String.length sql) from to sql.

(** ** Small loops. *)

(** A [Set] of strings, in insertion order. *)
Definition add (x : string) (s : list string) : list string := if includes s x then s else s ++ [x].
(** [new Map(entries)]. *)
Definition map_of {A} (entries : list (string * A)) : dict A := fold_left (fun d kv => set d (fst kv) (snd kv)) entries [].
(** [for (const x of l) ...] that may fail. *)
Fixpoint each {A S} (f : S -> A -> Fx S) (l : list A) (s : S) : Fx S :=
  match l with [] => inr s | x :: l' => s' ← f s x; each f l' s' end.

(** ** Renames. *)

Record Renames := MkRenames { r_tables : dict string; r_fields : dict (dict string); r_columns : dict (dict string) }.
Definition no_renames : Renames := MkRenames [] [] [].
Definition fail_derive {A} (message : string) : Fx A := fail S_schema SP_derive message.

(** The old name a declaration reads under: its [was] when the database lacks the name. *)
Definition old_name {A} (was : option string) (applied : dict A) (name : string) : string :=
  match was with Some w => if is_some (get applied name) then name else w | None => name end.

(** One table of the first loop of [renamesOf]. *)
Definition rename_table (applied next : SchemaSpec) (acc : dict string) (entry : string * TableSpec) : Fx (dict string) :=
  let '(name, spec) := entry in
  let old := old_name (t_was spec) (tables applied) name in
  if String.eqb old name then inr acc
  else if negb (has_own (tables applied) old) then
    fail_derive ("'" +:+ name +:+ "' renames '" +:+ old +:+ "', which the database does not hold")
  else if has_own (tables next) old || includes (values acc) old then
    fail_derive ("'" +:+ name +:+ "' renames '" +:+ old +:+ "', which another table still uses")
  else inr (set acc name old).

(** The targets of a relation to several tables. *)
Definition arms_of (f : option FieldSpec) : option (list string) :=
  match f with
  | Some f => match k_to f with
              | Some (inr ts) => if String.eqb (k_kind f) "ref" && (1 <? Z.of_nat (length ts)) then Some ts else None
              | _ => None
              end
  | None => None
  end.
(** The arm columns of a relation that read under another name. *)
Definition arm_renames (tbl : dict string) (f old : string) (oldArms newArms : list string) (physical : dict string) : dict string :=
  fold_left (fun acc target =>
    let from := default target (get tbl target) in
    let new := f +:+ "__" +:+ target in
    let was := old +:+ "__" +:+ from in
    if includes oldArms from && negb (String.eqb new was) then set acc new was else acc) newArms physical.
(** One field of the second loop: the renamed fields and the renamed columns of its table so far. *)
Definition rename_field (tbl : dict string) (name : string) (spec before : TableSpec) (acc : dict string * dict string) (entry : string * FieldSpec) :
    Fx (dict string * dict string) :=
  let '(own, physical) := acc in
  let '(f, k) := entry in
  let old := old_name (k_was k) (t_fields before) f in
  let previous := get (t_fields before) old in
  own' ← (if String.eqb old f then inr own
          else if negb (is_some previous) then
            fail_derive ("'" +:+ name +:+ "." +:+ f +:+ "' renames '" +:+ old +:+ "', which the database does not hold")
          else if has_own (t_fields spec) old || includes (values own) old then
            fail_derive ("'" +:+ name +:+ "." +:+ f +:+ "' renames '" +:+ old +:+ "', which another field still uses")
          else inr (set own f old));
  inr (own', match arms_of previous, arms_of (Some k) with
             | Some oldArms, Some newArms => arm_renames tbl f old oldArms newArms physical
             | None, None => if String.eqb old f then physical else set physical f old
             | _, _ => physical
             end).
(** One table of the second loop. *)
Definition rename_columns (applied : SchemaSpec) (tbl : dict string) (acc : dict (dict string) * dict (dict string)) (entry : string * TableSpec) :
    Fx (dict (dict string) * dict (dict string)) :=
  let '(fields, columns) := acc in
  let '(name, spec) := entry in
  match get (tables applied) (default name (get tbl name)) with
  | None => inr acc
  | Some before =>
      op ← each (rename_field tbl name spec before) (t_fields spec) ([], []);
      let '(own, physical) := op in
      inr (if 0 <? Z.of_nat (length own) then set fields name own else fields,
           if 0 <? Z.of_nat (length physical) then set columns name physical else columns)
  end.
Definition renamesOf (applied next : SchemaSpec) : Fx Renames :=
  tbl ← each (rename_table applied next) (tables next) [];
  fc ← each (rename_columns applied tbl) (tables next) ([], []);
  inr (MkRenames tbl (fst fc) (snd fc)).

(** [new Map(entries.map(([n, old]) => [old, n]))]. *)
Definition reversed (entries : dict string) : dict string := map_of (map (fun no => (snd no, fst no)) entries).
(** Every renamed identifier of a text, one rename after another. *)
Definition rename_all (m : dict string) (sql : string) : string := fold_left (fun out on => quoted out (fst on) (snd on)) m sql.
Definition COLUMN_RANKS : list string := ["column"; "default"; "notNull"; "backfill"]%string.

Definition renamedObject (o : SchemaObject) (r : Renames) : SchemaObject :=
  let back := reversed (r_tables r) in
  let table := default (o_table o) (get back (o_table o)) in
  let fields := reversed (default [] (get (r_fields r) table) ++ default [] (get (r_columns r) table)) in
  let column c := default c (get fields c) in
  let text sql := rename_all fields (rename_all back sql) in
  let parts := split_char ":" (o_id o) in
  let rank := nth 0 parts ""%string in
  let rest := nth 1 parts ""%string in
  let local := drop (S (String.length (o_table o))) rest in
  let id :=
    if String.eqb (o_table o) "" then o_id o
    else if decide (o_rank o = RTable) then "table:" +:+ table
    else if negb (has_char (Ascii.eqb ".") rest) then o_id o
    else rank +:+ ":" +:+ table +:+ "." +:+ (if includes COLUMN_RANKS rank then column local else local) in
  MkObject id (o_rank o) table (map column (o_deps o)) (map text (o_create o)) (option_map text (o_shape o)) (o_drop o)
    (o_stored o) (o_derived o) (o_violations o) (o_name o).

(** The bytes of a text in UTF-8 ([new TextEncoder().encode(s).length]) of its Latin-1 code units. *)
Fixpoint byte_length (s : string) : Z :=
  match s with EmptyString => 0 | String c s' => (if (N_of_ascii c <? 128)%N then 1 else 2) + byte_length s' end.
Fixpoint clip (prefix s : string) : string :=
  match s with
  | EmptyString => prefix
  | String c s' => let longer := prefix +:+ String c EmptyString in if 58 <? byte_length longer then prefix else clip longer s'
  end.
(** [primary(table)]: the name PostgreSQL gives a table's primary key. *)
Definition primary (table : string) : string := clip "" table +:+ "_pkey".

Definition rename_step (id sql : string) : Step := MkStep id Rename None None (Some sql) None [].
Definition renameSql (r : Renames) (replacedTables replacedCols : list string) : list Step :=
  flat_map (fun no : string * string =>
    let '(n, o) := no in
    [rename_step ("rename:" +:+ o +:+ "->" +:+ n) ("alter table " +:+ q o +:+ " rename to " +:+ q n);
     rename_step ("rename:" +:+ n +:+ "." +:+ primary o +:+ "->" +:+ primary n)
       ("alter table " +:+ q n +:+ " rename constraint " +:+ q (primary o) +:+ " to " +:+ q (primary n))])
    (List.filter (fun no => negb (includes replacedTables (fst no))) (r_tables r)) ++
  flat_map (fun tf : string * dict string =>
    let '(t, fields) := tf in
    flat_map (fun no : string * string =>
      let '(n, o) := no in
      if includes replacedTables t || includes replacedCols (t +:+ "." +:+ n) then []
      else [rename_step ("rename:" +:+ t +:+ "." +:+ o +:+ "->" +:+ n)
              ("alter table " +:+ q t +:+ " rename column " +:+ q o +:+ " to " +:+ q n)]) fields) (r_columns r).

(** ** The diff. *)

Definition deps_key (o : SchemaObject) : string := colKey o (match o_deps o with c :: _ => c | [] => "" end).
(** [new Map(objects.map(o => [o.id, o]))]. *)
Definition by_id (os : list SchemaObject) : dict SchemaObject := map_of (map (fun o => (o_id o, o)) os).
Definition is_rank (o : SchemaObject) (r : Rank) : bool := bool_decide (o_rank o = r).
Definition shape_is (o : SchemaObject) (t : string) : bool := match o_shape o with Some s => String.eqb s t | None => false end.
(** [widens(before, after)]. *)
Definition widens (before after : SchemaObject) : bool :=
  is_rank before RColumn && o_stored before && o_stored after && shape_is before "int" &&
  (shape_is after "bigint" || shape_is after "numeric") &&
  match o_deps before, o_deps after with [a], [b] => String.eqb a b | _, _ => false end.

(** The objects whose definition differs. *)
Definition differing (before after : dict SchemaObject) : list string :=
  fold_left (fun changed (io : string * SchemaObject) =>
    match get after (fst io) with
    | Some n => if String.eqb (def n) (def (snd io)) then changed else add (fst io) changed
    | None => changed
    end) before [].
(** The tables to be built anew, and the columns a cast widens. *)
Definition replaced_tables (after : list SchemaObject) (changed : list string) : list string :=
  fold_left (fun s o => add (o_table o) s) (List.filter (fun o => is_rank o RTable && includes changed (o_id o)) after) [].
Definition widened_ids (before : dict SchemaObject) (after : list SchemaObject) (replacedTables : list string) : list string :=
  fold_left (fun s o => add (o_id o) s)
    (List.filter (fun o => match get before (o_id o) with
                           | Some old => negb (includes replacedTables (o_table o)) && widens old o
                           | None => false
                           end) after) [].
Definition widened_cols (after : list SchemaObject) (widened : list string) : list string :=
  fold_left (fun s o => add (deps_key o) s) (List.filter (fun o => includes widened (o_id o)) after) [].
(** The columns that are dropped or replaced themselves. *)
Definition replaced_cols (before afterById : dict SchemaObject) (widened changed : list string) : list string :=
  fold_left (fun s o => add (deps_key o) s)
    (List.filter (fun o => is_rank o RColumn && negb (includes widened (o_id o)) &&
                           (negb (has_own afterById (o_id o)) || includes changed (o_id o))) (values before)) [].
(** A replaced table takes its objects, and the foreign keys that reference it, along. *)
Definition with_tables (before : dict SchemaObject) (after : list SchemaObject) (replacedTables changed : list string) : list string :=
  fold_left (fun changed o =>
    if has_own before (o_id o) &&
       (includes replacedTables (o_table o) ||
        (is_rank o RFk && existsb (fun sql => existsb (fun t => has_text ("references " +:+ q t +:+ " (") sql) replacedTables) (o_create o)))
    then add (o_id o) changed else changed) after changed.
(** The state of the loops that follow: what changed, and the columns replaced. *)
Definition Marks := (list string * list string)%type.
Definition reads_any (cols : list string) (o : SchemaObject) : bool := existsb (fun c => includes cols (colKey o c)) (o_deps o).
(** A generated column over a widened one is rebuilt. *)
Definition with_widened (before : dict SchemaObject) (after : list SchemaObject) (widenedCols : list string) (st : Marks) : Marks :=
  fold_left (fun (st : Marks) o =>
    if has_own before (o_id o) && is_rank o RColumn && o_derived o && reads_any widenedCols o
    then (add (o_id o) (fst st), add (deps_key o) (snd st)) else st) after st.
(** One pass of the dependants' loop; the last member is [grew]. *)
Definition grow_one (before : dict SchemaObject) (st : Marks * bool) (o : SchemaObject) : Marks * bool :=
  let '((changed, cols), grew) := st in
  if includes changed (o_id o) || negb (has_own before (o_id o)) || negb (reads_any cols o) then st
  else ((add (o_id o) changed, if is_rank o RColumn then add (deps_key o) cols else cols), true).
Definition grow_pass (before : dict SchemaObject) (after : list SchemaObject) (st : Marks) : Marks * bool :=
  fold_left (grow_one before) after (st, false).
Fixpoint grow (fuel : nat) (before : dict SchemaObject) (after : list SchemaObject) (st : Marks) : Marks :=
  match fuel with
  | O => st
  | S fuel' => let '(st', grew) := grow_pass before after st in if grew then grow fuel' before after st' else st'
  end.

(** What the diff decides. *)
Record Diff := MkDiff {
  d_before : dict SchemaObject; d_after : list SchemaObject; d_byId : dict SchemaObject;
  d_replacedTables : list string; d_widened : list string; d_changed : list string; d_replacedCols : list string }.
Definition diff_of (held after : list SchemaObject) (r : Renames) : Diff :=
  let before := by_id (map (fun o => renamedObject o r) held) in
  let afterById := by_id after in
  let changed := differing before afterById in
  let replacedTables := replaced_tables after changed in
  let widened := widened_ids before after replacedTables in
  let cols := replaced_cols before afterById widened changed in
  let changed := with_tables before after replacedTables changed in
  let st := with_widened before after (widened_cols after widened) (changed, cols) in
  let st := grow (S (length after)) before after st in
  MkDiff before after afterById replacedTables widened (fst st) (snd st).

Definition fresh_tables (d : Diff) : list string :=
  fold_left (fun s o => add (o_table o) s) (List.filter (fun o => is_rank o RTable && negb (has_own (d_before d) (o_id o))) (d_after d)) [].
Definition createClass (d : Diff) (o : SchemaObject) : StepClass :=
  if includes (fresh_tables d) (o_table o) then Additive
  else if is_some (o_violations o) then Validating
  else if o_derived o then Backfill else Additive.
Definition dropClass (o : SchemaObject) : StepClass := if o_stored o then Destructive else Additive.
Definition row_rules_header : string :=
  "create or replace function store_row_rules() returns trigger language plpgsql as $store_rules$" +:+ line.
(** The versioned trigger function, replaced in place. *)
Definition rowGuard (old : option SchemaObject) (o : SchemaObject) : bool :=
  String.eqb (o_id o) "function:store_row_rules" &&
  match old with
  | Some old =>
      is_rank old RFunction && is_rank o RFunction &&
      match o_create old, o_create o with
      | [a], [b] => String.prefix row_rules_header a && String.prefix row_rules_header b
      | _, _ => false
      end
  | None => false
  end.
Definition drop_step (o : SchemaObject) : Step := MkStep ("drop:" +:+ o_id o) (dropClass o) (Some o) None None None [].
Definition replaced (d : Diff) (o : SchemaObject) : option SchemaObject :=
  let old := get (d_before d) (o_id o) in
  match old with
  | Some held => if negb (is_some (o_drop held)) || rowGuard old o then None else Some held
  | None => None
  end.
Definition replace_step (d : Diff) (o : SchemaObject) : Step :=
  let drop := replaced d o in
  MkStep ("replace:" +:+ o_id o) (worst (match drop with None => Additive | Some x => dropClass x end) (createClass d o)) drop (Some o) None None [].
Definition WIDENING_RISKS : list StepRisk := [AccessExclusiveLock; TableRewrite; IndexRebuild].
(** [o.shape] in a template: an absent one prints as [undefined]. *)
Definition shape_text (o : SchemaObject) : string := default "undefined"%string (o_shape o).
Definition widen_step (o : SchemaObject) : Step :=
  MkStep ("widen:" +:+ o_id o) Additive None None None
    (Some ("alter table " +:+ q (o_table o) +:+ " alter column " +:+ q (match o_deps o with c :: _ => c | [] => "" end) +:+ " type " +:+ shape_text o))
    WIDENING_RISKS.
Definition create_step (d : Diff) (o : SchemaObject) : Step := MkStep ("create:" +:+ o_id o) (createClass d o) None (Some o) None None [].

Definition dropped (d : Diff) : list SchemaObject :=
  List.filter (fun o => negb (has_own (d_byId d) (o_id o)) && is_some (o_drop o)) (values (d_before d)).
Definition rebuilt (d : Diff) : list SchemaObject :=
  List.filter (fun o => includes (d_changed d) (o_id o) && negb (includes (d_widened d) (o_id o))) (d_after d).
Definition widened (d : Diff) : list SchemaObject := List.filter (fun o => includes (d_widened d) (o_id o)) (d_after d).
Definition created (d : Diff) : list SchemaObject := List.filter (fun o => negb (has_own (d_before d) (o_id o))) (d_after d).
Definition steps_of (d : Diff) (r : Renames) : list Step :=
  renameSql r (d_replacedTables d) (d_replacedCols d) ++ map drop_step (dropped d) ++ map (replace_step d) (rebuilt d)
  ++ map widen_step (widened d) ++ map (create_step d) (created d).

Section Planner.
Variable number_text : number -> string.
(** [objects(schema, extra)], and a host's own objects for a schema. *)
Variable objects : SchemaSpec -> list SchemaObject -> Fx (list SchemaObject).
Variable extra : SchemaSpec -> list SchemaObject.

(** [plannerWithObjects(objects)(applied, next, extra)]. *)
Definition plan (applied : option SchemaSpec) (next : SchemaSpec) : Fx Plan :=
  r ← match applied with None => inr no_renames | Some a => renamesOf a next end;
  held ← match applied with None => inr [] | Some a => objects a (extra a) end;
  after ← objects next (extra next);
  inr (MkPlan (option_map (fingerprint number_text) applied) (fingerprint number_text next) next (steps_of (diff_of held after r) r)).

(** [destructiveSteps(applied, next, extra)], over the planner of its own objects. *)
Definition destructiveSteps (applied : option SchemaSpec) (next : SchemaSpec) : Fx (list string) :=
  p ← plan applied next;
  inr (map st_id (List.filter (fun s => bool_decide (st_class s = Destructive)) (p_steps p))).
End Planner.

(** [unaccepted(p, accept)]: [None] accepts every step. *)
Definition unaccepted (p : Plan) (accept : option (list string)) : list Step :=
  List.filter (fun s => bool_decide (st_class s = Destructive) &&
    match accept with None => false | Some ids => negb (includes ids (st_id s)) end) (p_steps p).

(** ** The statements of a plan. *)

(** [Array.prototype.sort] by a number: stable. *)
Fixpoint insert_rank {A} (key : A -> Z) (x : A) (l : list A) : list A :=
  match l with [] => [x] | y :: l' => if key x <=? key y then x :: l else y :: insert_rank key x l' end.
Fixpoint sort_rank {A} (key : A -> Z) (l : list A) : list A :=
  match l with [] => [] | x :: l' => insert_rank key x (sort_rank key l') end.

(** An object under the step that plans it. *)
Definition Item := (string * SchemaObject)%type.
Definition item_id (x : Item) : string := o_id (snd x).
Definition drops_of (p : Plan) : list Item :=
  sort_rank (fun x => - RANK (o_rank (snd x))) (flat_map (fun s => match st_drop s with Some o => [(st_id s, o)] | None => [] end) (p_steps p)).
Definition planned (p : Plan) : list Item := flat_map (fun s => match st_create s with Some o => [(st_id s, o)] | None => [] end) (p_steps p).
Definition creates_of (p : Plan) (reassert : list SchemaObject) : list Item :=
  sort_rank (fun x => RANK (o_rank (snd x)))
    (planned p ++ map (fun o => ("assert:" +:+ o_id o, o))
       (List.filter (fun o => negb (existsb (fun x => String.eqb (item_id x) (o_id o)) (planned p))) reassert)).
Definition column_items (creates : list Item) : dict Item :=
  map_of (map (fun x : Item => (deps_key (snd x), x)) (List.filter (fun x => is_rank (snd x) RColumn) creates)).
(** [schedule(item)]: the columns an item reads come first. The state is what is scheduled, and the order so far. *)
Definition Schedule := (list string * list Item)%type.
Fixpoint schedule (fuel : nat) (columns : dict Item) (item : Item) (st : Schedule) : Schedule :=
  match fuel with
  | O => st
  | S fuel' =>
      if includes (fst st) (item_id item) then st
      else
        let st1 : Schedule := (add (item_id item) (fst st), snd st) in
        let st2 :=
          if is_rank (snd item) RColumn then
            fold_left (fun st field => match get columns (colKey (snd item) field) with
                                       | Some dependency => schedule fuel' columns dependency st
                                       | None => st
                                       end) (tail (o_deps (snd item))) st1
          else st1 in
        (fst st2, snd st2 ++ [item])
  end.
Definition ordered_creates (creates : list Item) : list Item :=
  snd (fold_left (fun st item => schedule (S (length creates)) (column_items creates) item st) creates ([], [])).

(** ** The texts a statement is labelled by, matched without regard to case. *)
Definition fold_case (c : ascii) : ascii := let n := N_of_ascii c in if ((65 <=? n) && (n <=? 90))%N then chr (n + 32) else c.
Definition is_word (c : ascii) : bool :=
  is_digit c || Ascii.eqb c "_" || (let n := N_of_ascii (fold_case c) in ((97 <=? n) && (n <=? 122))%N).
(** A lower-case word at the start of a text: what follows it. *)
Fixpoint word (w s : string) : option string :=
  match w, s with
  | EmptyString, _ => Some s
  | String a w', String b s' => if Ascii.eqb a (fold_case b) then word w' s' else None
  | _, _ => None
  end.
(** [\s+] and [\s*] before a character that is no space; [\b] after a word. *)
Definition spaces1 (s : string) : option string := match s with String c s' => if is_space c then Some (trim_start s') else None | EmptyString => None end.
Definition at_boundary (s : string) : bool := match s with String c _ => negb (is_word c) | EmptyString => true end.
Definition words2 (a : string) (bs : list string) (s : string) : bool :=
  match word a s with
  | Some rest => match spaces1 rest with
                 | Some rest => existsb (fun b => match word b rest with Some t => at_boundary t | None => false end) bs
                 | None => false
                 end
  | None => false
  end.
(** [/^\s*(?:alter\s+table|drop\s+(?:table|index))\b/i]. *)
Definition locks_table (sql : string) : bool := let s := trim_start sql in words2 "alter" ["table"%string] s || words2 "drop" ["table"; "index"]%string s.
(** [/^\s*create\s+(?:unique\s+)?index\b/i]. *)
Definition creates_index (sql : string) : bool :=
  let s := trim_start sql in
  words2 "create" ["index"%string] s ||
  match word "create" s with
  | Some rest => match spaces1 rest with Some rest => words2 "unique" ["index"%string] rest | None => false end
  | None => false
  end.
(** [/^\s*update\b/i]. *)
Definition updates (sql : string) : bool := match word "update" (trim_start sql) with Some t => at_boundary t | None => false end.
(** [/\bgenerated\s+always\s+as\s*\(/i]. *)
Definition generated_here (s : string) : bool :=
  match word "generated" s with
  | Some a => match spaces1 a with
              | Some a => match word "always" a with
                          | Some b => match spaces1 b with
                                      | Some b => match word "as" b with
                                                  | Some t => match trim_start t with String c _ => Ascii.eqb c "(" | EmptyString => false end
                                                  | None => false
                                                  end
                                      | None => false
                                      end
                          | None => false
                          end
              | None => false
              end
  | None => false
  end.
Fixpoint has_generated (after_word : bool) (s : string) : bool :=
  (negb after_word && generated_here s) || match s with String c s' => has_generated (is_word c) s' | EmptyString => false end.

(** A [Set] of risks. *)
Definition add_risk (x : StepRisk) (s : list StepRisk) : list StepRisk := if existsb (fun y => bool_decide (y = x)) s then s else s ++ [x].
Definition label_risks (s : PlannedStatement) : list StepRisk :=
  let risks := fold_left (fun acc x => add_risk x acc) (ps_risks s) [] in
  let risks := if locks_table (ps_sql s) then add_risk AccessExclusiveLock risks else risks in
  let risks := if creates_index (ps_sql s) then add_risk TableScan (add_risk WritesBlocked risks) else risks in
  let risks := if is_some (ps_violations s) then add_risk TableScan risks else risks in
  if updates (ps_sql s) then add_risk TableScan (add_risk WritesBlocked risks) else risks.
Definition create_statements (x : Item) : list PlannedStatement :=
  let '(step, o) := x in
  imap (fun i sql =>
    MkStatement step sql
      (if (i =? 0)%nat then o_violations o else None)
      (if (i =? 0)%nat && is_some (o_violations o) then Some (default (o_id o) (o_name o)) else None)
      (if is_rank o RColumn && (shape_is o "identity" || (o_derived o && has_generated false sql)) then [TableRewrite] else [])) (o_create o).
(** [statements(p, reassert)]. *)
Definition statements (p : Plan) (reassert : list SchemaObject) : list PlannedStatement :=
  let out :=
    flat_map (fun x : Item => match o_drop (snd x) with Some sql => [MkStatement (fst x) sql None None []] | None => [] end) (drops_of p)
    ++ flat_map (fun s => match st_rename s with Some sql => [MkStatement (st_id s) sql None None []] | None => [] end) (p_steps p)
    ++ flat_map (fun s => match st_alter s with Some sql => [MkStatement (st_id s) sql None None (st_risks s)] | None => [] end) (p_steps p)
    ++ flat_map create_statements (ordered_creates (creates_of p reassert)) in
  map (fun s => MkStatement (ps_step s) (ps_sql s) (ps_violations s) (ps_name s) (label_risks s)) out.

(** ** The loops' sets. *)
Module Marks.
Lemma elem_of_add x y s : y ∈ add x s <-> y = x \/ y ∈ s.
Proof.
  unfold add. destruct (includes s x) eqn:E.
  - apply includes_spec in E. naive_solver.
  - rewrite elem_of_app, list_elem_of_singleton. naive_solver.
Qed.
Lemma includes_add x y s : includes (add x s) y = true <-> y = x \/ includes s y = true.
Proof. rewrite !includes_spec. apply elem_of_add. Qed.

(** A set filled by a loop over the objects that pass a test. *)
Lemma elem_of_collect {A} (f : A -> string) (l : list A) (s : list string) y :
  y ∈ fold_left (fun s x => add (f x) s) l s <-> y ∈ s \/ exists x, x ∈ l /\ y = f x.
Proof.
  revert s. induction l as [|x l IH]; intros s; cbn [fold_left].
  - split; [by left|]. intros [Hs|(x & Hx & _)]; [done|]. by apply elem_of_nil in Hx.
  - rewrite IH, elem_of_add. setoid_rewrite elem_of_cons. naive_solver.
Qed.
Lemma elem_of_pass {A} (p : A -> bool) (f : A -> string) (l : list A) (s : list string) y :
  y ∈ fold_left (fun s x => if p x then add (f x) s else s) l s <-> y ∈ s \/ exists x, x ∈ l /\ p x = true /\ y = f x.
Proof.
  revert s. induction l as [|x l IH]; intros s; cbn [fold_left].
  - split; [by left|]. intros [Hs|(x & Hx & _)]; [done|]. by apply elem_of_nil in Hx.
  - rewrite IH. split.
    + intros [Hs|(x' & Hx & Hp & ->)]; [|right; exists x'; split_and!; [by right|done|done]].
      destruct (p x) eqn:E; [apply elem_of_add in Hs as [->|Hs]|]; [|by left|by left]. right. exists x. split_and!; [by left|done|done].
    + intros [Hs|(x' & [->|Hx]%elem_of_cons & Hp & ->)].
      * left. destruct (p x); [|done]. apply elem_of_add. by right.
      * left. rewrite Hp. apply elem_of_add. by left.
      * right. by exists x'.
Qed.
Lemma elem_of_List_filter {A} (p : A -> bool) (l : list A) x : x ∈ List.filter p l <-> x ∈ l /\ p x = true.
Proof. rewrite !list_elem_of_In. apply filter_In. Qed.

(** A [Map] built from entries. *)
Lemma map_of_set {A} (l : list (string * A)) (d : dict A) k :
  get (fold_left (fun d kv => set d (fst kv) (snd kv)) l d) k =
  match last (List.filter (fun kv => String.eqb (fst kv) k) l) with Some kv => Some (snd kv) | None => get d k end.
Proof.
  revert d. induction l as [|[k' v] l IH]; intros d; cbn [fold_left fst snd]; [done|]. rewrite IH. cbn [List.filter fst].
  destruct (String.eqb k' k) eqn:E.
  - apply String.eqb_eq in E as ->. rewrite last_cons. destruct (last _); [done|]. by rewrite get_set_eq.
  - destruct (last _); [done|]. apply get_set_ne. by apply String.eqb_neq.
Qed.
Lemma map_of_get {A} (l : list (string * A)) k v : get (map_of l) k = Some v -> (k, v) ∈ l.
Proof.
  unfold map_of. rewrite map_of_set. destruct (last _) as [[k' v']|] eqn:E; [|done]. cbn [snd]. intros [= ->].
  apply last_Some in E as [l' El]. assert (Hin : (k', v) ∈ List.filter (fun kv => String.eqb (fst kv) k) l) by (rewrite El; apply elem_of_app; right; by left).
  apply elem_of_List_filter in Hin as [Hin Hk]. cbn [fst] in Hk. by apply String.eqb_eq in Hk as ->.
Qed.
Lemma map_of_has {A} (l : list (string * A)) k : is_some (get (map_of l) k) = true <-> k ∈ map fst l.
Proof.
  unfold map_of. rewrite map_of_set. cbn [get]. split.
  - destruct (last _) as [[k' v]|] eqn:E; [|done]. intros _. apply last_Some in E as [l' El].
    assert (Hin : (k', v) ∈ List.filter (fun kv => String.eqb (fst kv) k) l) by (rewrite El; apply elem_of_app; right; by left).
    apply elem_of_List_filter in Hin as [Hin Hk]. cbn [fst] in Hk. apply String.eqb_eq in Hk as <-. apply list_elem_of_fmap. by exists (k', v).
  - intros ([k' v] & -> & Hin)%list_elem_of_fmap. destruct (last _) eqn:E; [done|]. apply last_None in E.
    assert (Hf : (k', v) ∈ List.filter (fun kv : string * A => String.eqb (fst kv) (fst (k', v))) l) by (apply elem_of_List_filter; split; [done|]; cbn [fst]; by rewrite String.eqb_refl).
    rewrite E in Hf. by apply elem_of_nil in Hf.
Qed.
Lemma wf_map_of {A} (l : list (string * A)) : wf_dict (map_of l).
Proof.
  unfold map_of. assert (Hg : forall d, wf_dict d -> wf_dict (fold_left (fun d kv => set d (fst kv) (snd kv)) l d)).
  { induction l as [|kv l IH]; intros d Hd; [done|]. cbn [fold_left]. apply IH. by apply wf_set. }
  apply Hg. constructor.
Qed.
Lemma map_of_in {A} (l : list (string * A)) k v : NoDup (map fst l) -> (k, v) ∈ l -> get (map_of l) k = Some v.
Proof.
  intros Hnd Hin. assert (Hh : is_some (get (map_of l) k) = true) by (apply map_of_has, list_elem_of_fmap; by exists (k, v)).
  destruct (get (map_of l) k) as [v'|] eqn:E; [|done]. f_equal. pose proof (map_of_get _ _ _ E) as Hin'.
  pose proof (in_get l k v Hnd Hin) as E1. pose proof (in_get l k v' Hnd Hin') as E2. congruence.
Qed.
Lemma by_id_get os i o : get (by_id os) i = Some o -> o ∈ os /\ o_id o = i.
Proof. intros Hg. apply map_of_get in Hg. apply list_elem_of_fmap in Hg as (o' & [= -> ->] & Ho). done. Qed.
Lemma by_id_has os o : o ∈ os -> is_some (get (by_id os) (o_id o)) = true.
Proof. intros Ho. apply map_of_has. rewrite map_map. apply list_elem_of_fmap. by exists o. Qed.
Lemma by_id_in os o : NoDup (map o_id os) -> o ∈ os -> get (by_id os) (o_id o) = Some o.
Proof.
  intros Hnd Ho. apply map_of_in; [by rewrite map_map|]. apply list_elem_of_fmap. by exists o.
Qed.
End Marks.

(** ** What a diff rebuilds. *)
Module Rebuild.
Import Marks.
Section Grow.
Variable before : dict SchemaObject.
Variable after : list SchemaObject.
(** An object the loop has nothing left to do about. *)
Definition quiet (st : Marks) (o : SchemaObject) : bool :=
  includes (fst st) (o_id o) || negb (has_own before (o_id o)) || negb (reads_any (snd st) o).
Definition unmarked (st : Marks) : nat := length (List.filter (fun o => negb (includes (fst st) (o_id o))) after).

Lemma grow_one_quiet st g o : quiet st o = true -> grow_one before (st, g) o = (st, g).
Proof. destruct st as [ch cs]. unfold quiet, grow_one. cbn [fst snd]. by intros ->. Qed.
Lemma grow_one_loud st g o : quiet st o = false ->
  grow_one before (st, g) o = ((add (o_id o) (fst st), if is_rank o RColumn then add (deps_key o) (snd st) else snd st), true).
Proof. destruct st as [ch cs]. unfold quiet, grow_one. cbn [fst snd]. by intros ->. Qed.

(** A pass, whatever the state: marks only grow; an idle pass changes nothing; a busy one marks an object. *)
Lemma grow_pass_spec (os : list SchemaObject) st g :
  let out := fold_left (grow_one before) os (st, g) in
  (forall i, i ∈ fst st -> i ∈ fst (fst out)) /\ (g = true -> snd out = true) /\
  (snd out = false -> fst out = st /\ forall o, o ∈ os -> quiet st o = true) /\
  (g = false -> snd out = true -> exists o, o ∈ os /\ (o_id o ∉ fst st) /\ o_id o ∈ fst (fst out)).
Proof.
  revert st g. cbv zeta. induction os as [|o os IH]; intros st g; cbn [fold_left].
  - split_and!; try done; [|by intros ->]. intros _. split; [done|]. intros o Ho. by apply elem_of_nil in Ho.
  - destruct (quiet st o) eqn:E.
    + rewrite grow_one_quiet by done. destruct (IH st g) as (H1 & H2 & H3 & H4). split_and!; [done|done| |].
      * intros Hg. destruct (H3 Hg) as [-> Hq]. split; [done|]. intros o' [->|Ho]%elem_of_cons; [done|by apply Hq].
      * intros Hg Hout. destruct (H4 Hg Hout) as (o' & Ho & Hn & Hi). exists o'. split_and!; [by right|done|done].
    + rewrite grow_one_loud by done. set (st1 := (add (o_id o) (fst st), if is_rank o RColumn then add (deps_key o) (snd st) else snd st)). destruct (IH st1 true) as (H1 & H2 & H3 & _).
      assert (Hadd : forall i, i ∈ fst st -> i ∈ fst st1) by (intros i Hi; apply elem_of_add; by right).
      split_and!.
      * intros i Hi. by apply H1, Hadd.
      * intros _. by apply H2.
      * intros Hout. discriminate (eq_trans (eq_sym (H2 eq_refl)) Hout).
      * intros _ _. exists o. split_and!; [by left| |].
        { unfold quiet in E. bool_hyps. by apply includes_false. }
        { apply H1. apply elem_of_add. by left. }
Qed.

Lemma filter_shrinks {A} (p p' : A -> bool) (l : list A) : (forall x, p' x = true -> p x = true) ->
  (length (List.filter p' l) <= length (List.filter p l))%nat.
Proof.
  intros Hsub. induction l as [|x l IH]; cbn [List.filter]; [done|]. destruct (p' x) eqn:E'.
  - rewrite (Hsub x E'). cbn [length]. lia.
  - destruct (p x); cbn [length]; lia.
Qed.
Lemma filter_shrinks_strict {A} (p p' : A -> bool) (l : list A) x : (forall x, p' x = true -> p x = true) ->
  x ∈ l -> p x = true -> p' x = false -> (length (List.filter p' l) < length (List.filter p l))%nat.
Proof.
  intros Hsub Hx Hp Hp'. induction l as [|y l IH]; [by apply elem_of_nil in Hx|]. cbn [List.filter].
  apply elem_of_cons in Hx as [->|Hx].
  - rewrite Hp, Hp'. cbn [length]. pose proof (filter_shrinks p p' l Hsub). lia.
  - specialize (IH Hx). destruct (p' y) eqn:E'.
    + rewrite (Hsub y E'). cbn [length]. lia.
    + destruct (p y); cbn [length]; lia.
Qed.

(** The loop ends by itself: with more fuel than unmarked objects its last pass is idle. *)
Lemma grow_closed fuel st : (unmarked st < fuel)%nat -> forall o, o ∈ after -> quiet (grow fuel before after st) o = true.
Proof.
  revert st. induction fuel as [|fuel IH]; intros st Hf; [lia|]. cbn [grow]. unfold grow_pass.
  destruct (grow_pass_spec after st false) as (H1 & _ & H3 & H4).
  destruct (fold_left (grow_one before) after (st, false)) as [st' grew]. cbn [fst snd] in *. destruct grew.
  - apply IH. destruct (H4 eq_refl eq_refl) as (o & Ho & Hn & Hi).
    assert (unmarked st' < unmarked st)%nat; [|lia]. unfold unmarked. eapply filter_shrinks_strict; [|exact Ho| |].
    + intros x Hx. bool_hyps. apply negb_true_iff. apply includes_false. intros Hin. apply H1 in Hin. by apply includes_spec in Hin; rewrite Hin in *.
    + by apply negb_true_iff, includes_false.
    + by apply negb_false_iff, includes_spec.
  - destruct (H3 eq_refl) as [-> Hq]. exact Hq.
Qed.

(** What holds of the marks and is kept by every object the loop marks holds at its end. *)
Lemma grow_inv (I : Marks -> Prop) : (forall st o, I st -> o ∈ after -> quiet st o = false ->
    I (add (o_id o) (fst st), if is_rank o RColumn then add (deps_key o) (snd st) else snd st)) ->
  forall fuel st, I st -> I (grow fuel before after st).
Proof.
  intros Hstep. assert (Hpass : forall os st g, (forall o, o ∈ os -> o ∈ after) -> I st -> I (fst (fold_left (grow_one before) os (st, g)))).
  { intros os. induction os as [|o os IH]; intros st g Hsub Hst; [done|]. cbn [fold_left]. destruct (quiet st o) eqn:E.
    - rewrite grow_one_quiet by done. apply IH; [|done]. intros o' Ho. apply Hsub. by right.
    - rewrite grow_one_loud by done. apply IH; [intros o' Ho; apply Hsub; by right|]. apply Hstep; [done|apply Hsub; by left|done]. }
  intros fuel. induction fuel as [|fuel IH]; intros st Hst; [done|]. cbn [grow]. unfold grow_pass.
  pose proof (Hpass after st false (fun _ H => H) Hst) as Hp. destruct (fold_left _ _ _) as [st' grew]. cbn [fst] in Hp.
  destruct grew; [by apply IH|done].
Qed.
End Grow.

(** ** The specification: the least set of objects a diff has to rebuild. *)
Section Exact.
Variable held after : list SchemaObject.
Variable r : Renames.
Definition before_of : dict SchemaObject := by_id (map (fun o => renamedObject o r) held).
Abbreviation before := before_of.

(** An id both sides define, differently. *)
Definition differs (i : string) : Prop := exists old n, get before i = Some old /\ get (by_id after) i = Some n /\ def n <> def old.
Definition table_replaced (t : string) : Prop := exists o, o ∈ after /\ o_rank o = RTable /\ differs (o_id o) /\ o_table o = t.
(** A column whose type is widened in place. *)
Definition widens_to (o : SchemaObject) : Prop :=
  exists old, o ∈ after /\ get before (o_id o) = Some old /\ ~ table_replaced (o_table o) /\ widens old o = true.
(** What a diff rebuilds before it looks at dependants. *)
Definition first (i : string) : Prop :=
  differs i \/
  exists o, o ∈ after /\ has_own before (o_id o) = true /\ i = o_id o /\
    (table_replaced (o_table o) \/
     (o_rank o = RFk /\ exists sql t, sql ∈ o_create o /\ table_replaced t /\ has_text ("references " +:+ q t +:+ " (") sql = true)).

(** [due (inl i)]: object [i] is rebuilt; [due (inr c)]: column [c] is dropped or replaced. *)
Inductive due : string + string -> Prop :=
| due_first i : first i -> due (inl i)
| due_widened o w c : o ∈ after -> has_own before (o_id o) = true -> o_rank o = RColumn -> o_derived o = true ->
    widens_to w -> c ∈ o_deps o -> colKey o c = deps_key w -> due (inl (o_id o))
| due_reads o c : o ∈ after -> has_own before (o_id o) = true -> c ∈ o_deps o -> due (inr (colKey o c)) -> due (inl (o_id o))
| due_col_dropped i old : (i, old) ∈ before -> o_rank old = RColumn -> has_own (by_id after) (o_id old) = false -> due (inr (deps_key old))
| due_col_replaced i old : (i, old) ∈ before -> o_rank old = RColumn -> differs (o_id old) ->
    (forall o, o_id o = o_id old -> ~ widens_to o) -> due (inr (deps_key old))
| due_col_widened o w c : o ∈ after -> has_own before (o_id o) = true -> o_rank o = RColumn -> o_derived o = true ->
    widens_to w -> c ∈ o_deps o -> colKey o c = deps_key w -> due (inr (deps_key o))
| due_col_reads o c : o ∈ after -> has_own before (o_id o) = true -> o_rank o = RColumn -> ~ first (o_id o) ->
    c ∈ o_deps o -> due (inr (colKey o c)) -> due (inr (deps_key o)).

Hypothesis ids_distinct : NoDup (map o_id after).

Lemma wf_before : wf_dict before.
Proof. apply wf_map_of. Qed.
Lemma before_id i o : (i, o) ∈ before -> o_id o = i /\ get before i = Some o.
Proof. intros Hin. pose proof (in_get _ _ _ wf_before Hin) as Hg. split; [|done]. by apply by_id_get in Hg as [_ ?]. Qed.

Lemma differing_spec i : i ∈ differing before (by_id after) <-> differs i.
Proof.
  unfold differing, differs.
  assert (Hfold : forall (l : dict SchemaObject) acc, i ∈ fold_left (fun changed (io : string * SchemaObject) =>
      match get (by_id after) (fst io) with
      | Some n => if String.eqb (def n) (def (snd io)) then changed else add (fst io) changed
      | None => changed end) l acc <->
      i ∈ acc \/ exists old n, (i, old) ∈ l /\ get (by_id after) i = Some n /\ def n <> def old).
  { intros l. induction l as [|[k old] l IH]; intros acc; cbn [fold_left fst snd].
    - split; [by left|]. intros [Ha|(old & n & Hin & _)]; [done|]. by apply elem_of_nil in Hin.
    - rewrite IH. destruct (get (by_id after) k) as [n|] eqn:G.
      + destruct (String.eqb (def n) (def old)) eqn:E.
        * apply String.eqb_eq in E. setoid_rewrite elem_of_cons. split; [naive_solver|].
          intros [Ha|(old' & n' & [[= -> ->]|Hin] & Hg & Hd)]; [by left|congruence|right; by exists old', n'].
        * apply String.eqb_neq in E. rewrite elem_of_add. setoid_rewrite elem_of_cons. split.
          { intros [[->|Ha]|(old' & n' & Hin & Hg & Hd)]; [right; exists old, n; by split_and!; [left|..]|by left|right; exists old', n'; by split_and!; [right|..]]. }
          { intros [Ha|(old' & n' & [[= -> ->]|Hin] & Hg & Hd)]; [left; by right|left; by left|right; by exists old', n']. }
      + setoid_rewrite elem_of_cons. split; [naive_solver|].
        intros [Ha|(old' & n' & [[= -> ->]|Hin] & Hg & Hd)]; [by left|congruence|right; by exists old', n']. }
  rewrite Hfold. split.
  - intros [Hn|(old & n & Hin & Hg & Hd)]; [by apply elem_of_nil in Hn|]. exists old, n. split_and!; [by apply before_id|done|done].
  - intros (old & n & Hg & Hn & Hd). right. exists old, n. split_and!; [by apply get_in|done|done].
Qed.

Abbreviation the_diff := (diff_of held after r).
Lemma replaced_tables_spec t : t ∈ d_replacedTables the_diff <-> table_replaced t.
Proof.
  cbn [diff_of d_replacedTables]. fold before. unfold replaced_tables. rewrite elem_of_collect. setoid_rewrite elem_of_List_filter. split.
  - intros [Hn|(o & [Ho Hp] & ->)]; [by apply elem_of_nil in Hn|]. apply andb_true_iff in Hp as [Hr Hc].
    exists o. split_and!; [done|by apply bool_decide_eq_true in Hr| |done]. by apply includes_spec, differing_spec in Hc.
  - intros (o & Ho & Hr & Hd & <-). right. exists o. split_and!; [done| |done]. apply andb_true_iff. split; [by apply bool_decide_eq_true|].
    by apply includes_spec, differing_spec.
Qed.
Lemma widened_spec i : i ∈ d_widened the_diff <-> exists o, widens_to o /\ o_id o = i.
Proof.
  cbn [diff_of d_widened]. fold before. unfold widened_ids. rewrite elem_of_collect. setoid_rewrite elem_of_List_filter. split.
  - intros [Hn|(o & [Ho Hp] & ->)]; [by apply elem_of_nil in Hn|]. exists o. split; [|done]. destruct (get before (o_id o)) as [old|] eqn:G; [|done].
    apply andb_true_iff in Hp as [Ht Hw]. exists old. split_and!; [done|done| |done]. rewrite <- replaced_tables_spec.
    by apply negb_true_iff, includes_false in Ht.
  - intros (o & (old & Ho & Hg & Ht & Hw) & <-). right. exists o. split_and!; [done| |done]. rewrite Hg, Hw, andb_true_r.
    apply negb_true_iff, includes_false. by rewrite <- replaced_tables_spec in Ht.
Qed.

Lemma existsb_elem {A} (p : A -> bool) (l : list A) : existsb p l = true <-> exists x, x ∈ l /\ p x = true.
Proof. rewrite existsb_exists. by setoid_rewrite list_elem_of_In. Qed.
Lemma reads_any_spec cols o : reads_any cols o = true <-> exists c, c ∈ o_deps o /\ colKey o c ∈ cols.
Proof. unfold reads_any. rewrite existsb_elem. by setoid_rewrite includes_spec. Qed.
Lemma is_rank_spec o k : is_rank o k = true <-> o_rank o = k.
Proof. apply bool_decide_eq_true. Qed.
Lemma same_object o o' : o ∈ after -> o' ∈ after -> o_id o = o_id o' -> o = o'.
Proof. intros Ho Ho' E. pose proof (by_id_in _ _ ids_distinct Ho) as G. pose proof (by_id_in _ _ ids_distinct Ho') as G'. rewrite E in G. congruence. Qed.

(** The marks the loop over dependants starts from. *)
Abbreviation changed0 := (differing before (by_id after)).
Abbreviation tables0 := (d_replacedTables the_diff).
Definition changed1 : list string := with_tables before after tables0 changed0.
Definition cols1 : list string := replaced_cols before (by_id after) (d_widened the_diff) changed0.
Definition marks1 : Marks := with_widened before after (widened_cols after (d_widened the_diff)) (changed1, cols1).

Lemma first_spec i : i ∈ changed1 <-> first i.
Proof.
  unfold changed1, with_tables, first. rewrite elem_of_pass, differing_spec. apply or_iff_compat_l. split.
  - intros (o & Ho & Hp & ->). apply andb_true_iff in Hp as [Hh Hp]. exists o. split_and!; [done|done|done|].
    apply orb_true_iff in Hp as [Ht|Hp]; [left; by apply includes_spec, replaced_tables_spec in Ht|]. right.
    apply andb_true_iff in Hp as [Hk Hp]. split; [by apply is_rank_spec|]. apply existsb_elem in Hp as (sql & Hs & Hp).
    apply existsb_elem in Hp as (t & Ht & Hp). exists sql, t. split_and!; [done|by apply replaced_tables_spec|done].
  - intros (o & Ho & Hh & -> & Hp). exists o. split_and!; [done| |done]. rewrite Hh. cbn [andb]. apply orb_true_iff.
    destruct Hp as [Ht|(Hk & sql & t & Hs & Ht & Hp)]; [left; by apply includes_spec, replaced_tables_spec|]. right.
    apply andb_true_iff. split; [by apply is_rank_spec|]. apply existsb_elem. exists sql. split; [done|]. apply existsb_elem. exists t.
    split; [by apply replaced_tables_spec|done].
Qed.
Lemma cols1_spec c : c ∈ cols1 <-> exists i old, (i, old) ∈ before /\ o_rank old = RColumn /\ c = deps_key old /\
  (forall o, o_id o = o_id old -> ~ widens_to o) /\ (has_own (by_id after) (o_id old) = false \/ differs (o_id old)).
Proof.
  unfold cols1, replaced_cols. rewrite elem_of_collect. setoid_rewrite elem_of_List_filter. split.
  - intros [Hn|(old & [Hv Hp] & ->)]; [by apply elem_of_nil in Hn|]. unfold values in Hv. apply list_elem_of_fmap in Hv as ([i old'] & -> & Hin).
    cbn [snd] in *. apply andb_true_iff in Hp as [Hp Hd]. apply andb_true_iff in Hp as [Hk Hw]. exists i, old'. split_and!; [done|by apply is_rank_spec|done| |].
    + intros o Ho Hwo. apply negb_true_iff, includes_false in Hw. apply Hw. apply widened_spec. by exists o.
    + apply orb_true_iff in Hd as [Hd|Hd]; [left; by apply negb_true_iff in Hd|right; by apply includes_spec, differing_spec in Hd].
  - intros (i & old & Hin & Hk & -> & Hw & Hd). right. exists old. split; [|done]. split; [apply list_elem_of_fmap; by exists (i, old)|].
    rewrite (proj2 (is_rank_spec old RColumn)) by done. cbn [andb]. apply andb_true_iff. split.
    + apply negb_true_iff, includes_false. rewrite widened_spec. intros (o & Ho & E). by apply (Hw o).
    + apply orb_true_iff. destruct Hd as [->|Hd]; [by left|right; by apply includes_spec, differing_spec].
Qed.
Lemma pass_marks (p : SchemaObject -> bool) (os : list SchemaObject) (st : Marks) :
  let out := fold_left (fun (st : Marks) o => if p o then (add (o_id o) (fst st), add (deps_key o) (snd st)) else st) os st in
  (forall i, i ∈ fst out <-> i ∈ fst st \/ exists o, o ∈ os /\ p o = true /\ i = o_id o) /\
  (forall c, c ∈ snd out <-> c ∈ snd st \/ exists o, o ∈ os /\ p o = true /\ c = deps_key o).
Proof.
  cbv zeta.
  assert (E : fold_left (fun (st : Marks) o => if p o then (add (o_id o) (fst st), add (deps_key o) (snd st)) else st) os st =
    (fold_left (fun s o => if p o then add (o_id o) s else s) os (fst st), fold_left (fun s o => if p o then add (deps_key o) s else s) os (snd st))).
  { revert st. induction os as [|o os IH]; intros [a b]; [done|]. cbn [fold_left]. rewrite IH. by destruct (p o). }
  rewrite E. cbn [fst snd]. split; intros x; apply elem_of_pass.
Qed.
(** A generated column over a widened one. *)
Definition over_widened (o : SchemaObject) : Prop :=
  o ∈ after /\ has_own before (o_id o) = true /\ o_rank o = RColumn /\ o_derived o = true /\
  exists w c, widens_to w /\ c ∈ o_deps o /\ colKey o c = deps_key w.
Lemma marks1_spec :
  (forall i, i ∈ fst marks1 <-> first i \/ exists o, over_widened o /\ i = o_id o) /\
  (forall c, c ∈ snd marks1 <-> c ∈ cols1 \/ exists o, over_widened o /\ c = deps_key o).
Proof.
  unfold marks1, with_widened.
  destruct (pass_marks (fun o => has_own before (o_id o) && is_rank o RColumn && o_derived o && reads_any (widened_cols after (d_widened the_diff)) o) after (changed1, cols1)) as [H1 H2].
  assert (Hp : forall o, o ∈ after -> (has_own before (o_id o) && is_rank o RColumn && o_derived o && reads_any (widened_cols after (d_widened the_diff)) o = true <-> over_widened o)).
  { intros o Ho. unfold over_widened. rewrite !andb_true_iff, is_rank_spec, reads_any_spec. unfold widened_cols.
    setoid_rewrite elem_of_collect. setoid_rewrite elem_of_List_filter. setoid_rewrite includes_spec. setoid_rewrite widened_spec. split.
    - intros [[[Hh Hk] Hd] (c & Hc & [Hn|(w & [Hw (w' & Hw' & E)] & Ek)])]; [by apply elem_of_nil in Hn|]. split_and!; [done..|].
      exists w, c. split_and!; [|done|done]. rewrite (same_object w w'); [done|done| |done]. by destruct Hw' as (? & ? & _).
    - intros (_ & Hh & Hk & Hd & w & c & Hw & Hc & E). split_and!; [done..|]. exists c. split; [done|]. right. exists w.
      split_and!; [by destruct Hw as (? & ? & _)|by exists w|done]. }
  split.
  - intros i. rewrite H1. cbn [fst]. rewrite first_spec. apply or_iff_compat_l. split; [intros (o & Ho & Hpo & ->)|intros (o & Ho & ->)].
    + exists o. split; [by apply Hp|done].
    + assert (Hin : o ∈ after) by (by destruct Ho). exists o. split_and!; [done|by apply Hp|done].
  - intros c. rewrite H2. cbn [snd]. apply or_iff_compat_l. split; [intros (o & Ho & Hpo & ->)|intros (o & Ho & ->)].
    + exists o. split; [by apply Hp|done].
    + assert (Hin : o ∈ after) by (by destruct Ho). exists o. split_and!; [done|by apply Hp|done].
Qed.

(** What the loop over dependants keeps: every mark is due, the first marks stay, and a marked column that was not marked
    first is replaced itself. *)
Definition sound (st : Marks) : Prop :=
  (forall i, i ∈ fst st -> due (inl i)) /\ (forall c, c ∈ snd st -> due (inr c)) /\
  (forall i, i ∈ fst marks1 -> i ∈ fst st) /\ (forall c, c ∈ snd marks1 -> c ∈ snd st) /\
  (forall o, o ∈ after -> o_rank o = RColumn -> o_id o ∈ fst st -> first (o_id o) \/ deps_key o ∈ snd st).
Lemma marks1_sound : sound marks1.
Proof.
  destruct marks1_spec as [H1 H2]. split_and!; [| |done|done|].
  - intros i [Hf|(o & (Ho & Hh & Hk & Hd & w & c & Hw & Hc & E) & ->)]%H1; [by apply due_first|by eapply due_widened].
  - intros c [Hc|(o & (Ho & Hh & Hk & Hd & w & c' & Hw & Hc & E) & ->)]%H2; [|by eapply due_col_widened].
    apply cols1_spec in Hc as (i & old & Hin & Hk & -> & Hw & [Hd|Hd]); [by eapply due_col_dropped|by eapply due_col_replaced].
  - intros o Ho Hk [Hf|(o' & Hov & E)]%H1; [by left|]. right. apply H2. right. exists o'. split; [done|].
    by rewrite (same_object o o' Ho (proj1 Hov) E).
Qed.
Lemma loop_sound fuel : sound (grow fuel before after marks1).
Proof.
  apply grow_inv; [|apply marks1_sound]. intros st o (Hi & Hc & Hm1 & Hm2 & Hcol) Ho Hq. unfold quiet in Hq.
  apply orb_false_iff in Hq as [Hq Hr]. apply orb_false_iff in Hq as [Hn Hh]. apply negb_false_iff in Hh, Hr. apply includes_false in Hn.
  apply reads_any_spec in Hr as (c & Hcd & Hr). apply Hc in Hr.
  assert (Hf : ~ first (o_id o)) by (intros Hf; apply Hn, Hm1; apply marks1_spec; by left).
  assert (Hdue : due (inl (o_id o))) by by eapply due_reads. split_and!; cbn [fst snd].
  - intros i [->|Hin]%elem_of_add; [done|by apply Hi].
  - intros c' Hc'. destruct (is_rank o RColumn) eqn:Hk; [|by apply Hc]. apply is_rank_spec in Hk.
    apply elem_of_add in Hc' as [->|Hc']; [by eapply due_col_reads|by apply Hc].
  - intros i Hin. apply elem_of_add. right. by apply Hm1.
  - intros c' Hc'. destruct (is_rank o RColumn); [apply elem_of_add; right|]; by apply Hm2.
  - intros o' Ho' Hk [E|Hin]%elem_of_add.
    + right. rewrite (same_object o' o Ho' Ho E) in *. rewrite (proj2 (is_rank_spec o RColumn)) by done. apply elem_of_add. by left.
    + destruct (Hcol o' Ho' Hk Hin) as [Hf'|Hd]; [by left|]. right. destruct (is_rank o RColumn); [apply elem_of_add; right|]; done.
Qed.
Lemma loop_closed o : o ∈ after -> quiet before (grow (S (length after)) before after marks1) o = true.
Proof.
  apply grow_closed. unfold unmarked. apply Nat.lt_succ_r, filter_length_le.
Qed.

Lemma rebuilds_exactly_spec :
  (forall i, i ∈ d_changed the_diff <-> due (inl i)) /\ (forall c, c ∈ d_replacedCols the_diff <-> due (inr c)).
Proof.
  set (st := grow (S (length after)) before after marks1).
  assert (Hst : d_changed the_diff = fst st /\ d_replacedCols the_diff = snd st) by done. destruct Hst as [-> ->].
  destruct (loop_sound (S (length after))) as (Hi & Hc & Hm1 & Hm2 & Hcol). fold st in Hi, Hc, Hm1, Hm2, Hcol.
  destruct marks1_spec as [S1 S2].
  assert (Hread : forall o c, o ∈ after -> has_own before (o_id o) = true -> c ∈ o_deps o -> colKey o c ∈ snd st -> o_id o ∈ fst st).
  { intros o c Ho Hh Hcd Hk. pose proof (loop_closed o Ho) as Hq. fold st in Hq. unfold quiet in Hq. rewrite Hh in Hq.
    rewrite (proj2 (reads_any_spec (snd st) o)) in Hq by (by exists c). cbn [negb orb] in Hq. rewrite !orb_false_r in Hq. by apply includes_spec. }
  assert (Hcomp : forall x, due x -> match x with inl i => i ∈ fst st | inr c => c ∈ snd st end).
  { intros x Hx. induction Hx as [i Hf|o w c Ho Hh Hk Hd Hw Hcd E|o c Ho Hh Hcd _ IH|i old Hin Hk Hh|i old Hin Hk Hd Hw|o w c Ho Hh Hk Hd Hw Hcd E|o c Ho Hh Hk Hf Hcd _ IH].
    - apply Hm1, S1. by left.
    - apply Hm1, S1. right. exists o. split; [|done]. split_and!; [done..|]. by exists w, c.
    - by eapply Hread.
    - apply Hm2, S2. left. apply cols1_spec. exists i, old. split_and!; [done..| |by left].
      intros o E (old' & Ho & _). apply by_id_has in Ho. rewrite E in Ho. unfold has_own in Hh. by rewrite Ho in Hh.
    - apply Hm2, S2. left. apply cols1_spec. exists i, old. split_and!; [done..|by right].
    - apply Hm2, S2. right. exists o. split; [|done]. split_and!; [done..|]. by exists w, c.
    - destruct (Hcol o Ho Hk) as [?|?]; [by eapply Hread|done|done]. }
  split; intros x; split; [apply Hi|apply (Hcomp (inl x))|apply Hc|apply (Hcomp (inr x))].
Qed.
(** C17. A diff rebuilds exactly what it has to: an object is replaced, and a column counted as replaced, exactly when that
    follows from a differing definition, a replaced table, a foreign key into one, a widened source of a generated column,
    or a column it reads being dropped or replaced in turn; the loop over dependants ends with nothing missed and nothing
    besides. *)
Theorem rebuilds_exactly :
  (forall i, i ∈ d_changed the_diff <-> due (inl i)) /\ (forall c, c ∈ d_replacedCols the_diff <-> due (inr c)).
Proof. exact rebuilds_exactly_spec. Qed.
End Exact.
End Rebuild.

(** ** The order of the statements. *)
Module Order.
Import Marks.

Lemma insert_rank_perm {A} (key : A -> Z) x l : insert_rank key x l ≡ₚ x :: l.
Proof. induction l as [|y l IH]; [done|]. cbn [insert_rank]. destruct (key x <=? key y); [done|]. rewrite IH. apply Permutation_swap. Qed.
Lemma sort_rank_perm {A} (key : A -> Z) l : sort_rank key l ≡ₚ l.
Proof. induction l as [|x l IH]; [done|]. cbn [sort_rank]. by rewrite insert_rank_perm, IH. Qed.
Lemma insert_rank_sorted {A} (key : A -> Z) x l :
  StronglySorted (fun a b => key a <= key b) l -> StronglySorted (fun a b => key a <= key b) (insert_rank key x l).
Proof.
  intros Hs. induction Hs as [|y l Hs IH Hy]; cbn [insert_rank]; [repeat constructor|]. destruct (key x <=? key y) eqn:E; bool_hyps.
  - constructor; [by constructor|]. constructor; [done|]. eapply Forall_impl; [exact Hy|]. cbn. lia.
  - constructor; [done|]. rewrite insert_rank_perm. constructor; [lia|done].
Qed.
Lemma sort_rank_sorted {A} (key : A -> Z) l : StronglySorted (fun a b => key a <= key b) (sort_rank key l).
Proof. induction l as [|x l IH]; [constructor|]. cbn [sort_rank]. by apply insert_rank_sorted. Qed.

Lemma sorted_impl {A} (R R' : A -> A -> Prop) (l : list A) : (forall a b, R a b -> R' a b) -> StronglySorted R l -> StronglySorted R' l.
Proof. intros HR Hs. induction Hs as [|x l Hs IH Hx]; constructor; [done|]. eapply Forall_impl; [exact Hx|]. apply HR. Qed.

Section Schedule.
Variable creates : list Item.
Abbreviation columns := (column_items creates).
Abbreviation ids := (map item_id).
(** [y] is a column of the same migration that the column [x] reads. *)
Definition reads_item (x y : Item) : Prop := o_rank (snd x) = RColumn /\ exists field, field ∈ tail (o_deps (snd x)) /\ get columns (colKey (snd x) field) = Some y.
(** Every item comes after the columns it reads. *)
Definition settled (out : list Item) : Prop := forall l1 x l2 y, out = l1 ++ x :: l2 -> reads_item x y -> item_id y ∈ ids l1.
(** No cycle: each column is above the columns it reads. *)
Definition graded (level : string -> nat) : Prop := forall x y, x ∈ creates -> reads_item x y -> (level (item_id y) < level (item_id x))%nat.
Definition unscheduled (sch : list string) : nat := length (List.filter (fun x => negb (includes sch (item_id x))) creates).

Lemma columns_in k y : get columns k = Some y -> y ∈ creates /\ o_rank (snd y) = RColumn.
Proof.
  intros Hg. apply map_of_get, list_elem_of_fmap in Hg as (x & [= -> ->] & Hx). apply elem_of_List_filter in Hx as [Hx Hr].
  split; [done|]. by apply bool_decide_eq_true in Hr.
Qed.
Lemma unscheduled_add sch x : x ∈ creates -> item_id x ∉ sch -> (unscheduled (add (item_id x) sch) < unscheduled sch)%nat.
Proof.
  intros Hx Hn. unfold unscheduled. eapply Rebuild.filter_shrinks_strict; [|exact Hx| |].
  - intros y Hy. apply negb_true_iff, includes_false in Hy. apply negb_true_iff, includes_false. intros Hin. apply Hy, elem_of_add. by right.
  - by apply negb_true_iff, includes_false.
  - apply negb_false_iff, includes_spec, elem_of_add. by left.
Qed.
Lemma unscheduled_mono sch sch' : (forall i, i ∈ sch -> i ∈ sch') -> (unscheduled sch' <= unscheduled sch)%nat.
Proof.
  intros Hsub. apply Rebuild.filter_shrinks. intros y Hy. apply negb_true_iff, includes_false in Hy. apply negb_true_iff, includes_false. auto.
Qed.

(** What a call adds: items not scheduled before, each once, of one rank. *)
Record adds (k : Rank) (st st' : Schedule) (new : list Item) : Prop := {
  add_out : snd st' = snd st ++ new;
  add_sch : forall i, i ∈ fst st' <-> i ∈ fst st \/ i ∈ ids new;
  add_new : forall y, y ∈ new -> y ∈ creates /\ item_id y ∉ fst st;
  add_once : NoDup (ids new);
  add_rank : forall y, y ∈ new -> o_rank (snd y) = k
}.
(** Ids that are being worked on: scheduled, not yet placed. *)
Definition open_id (st : Schedule) (i : string) : Prop := i ∈ fst st /\ i ∉ ids (snd st).
Definition placed_known (st : Schedule) : Prop := forall i, i ∈ ids (snd st) -> i ∈ fst st.

Lemma adds_nil k st : adds k st st [].
Proof.
  split; [by rewrite app_nil_r|intros i; cbn [map]; rewrite elem_of_nil; naive_solver|intros y Hy; by apply elem_of_nil in Hy|constructor|intros y Hy; by apply elem_of_nil in Hy].
Qed.
Lemma adds_app k st1 st2 st3 new new' : adds k st1 st2 new -> adds k st2 st3 new' -> adds k st1 st3 (new ++ new').
Proof.
  intros [O1 S1 N1 D1 R1] [O2 S2 N2 D2 R2]. split.
  - by rewrite O2, O1, app_assoc.
  - intros i. rewrite S2, S1, map_app, elem_of_app. tauto.
  - intros y [Hy|Hy]%elem_of_app; [by apply N1|]. destruct (N2 y Hy) as [Hc Hn]. split; [done|]. intros Hi. apply Hn, S1. by left.
  - rewrite map_app. apply NoDup_app. split_and!; [done| |done]. intros i (y & -> & Hy)%list_elem_of_fmap (y' & E & Hy')%list_elem_of_fmap.
    destruct (N2 y' Hy') as [_ Hn]. apply Hn, S1. right. rewrite <- E. apply list_elem_of_fmap. by exists y.
  - intros y [Hy|Hy]%elem_of_app; auto.
Qed.
(** What is open stays what it was. *)
Lemma adds_open k st st' new i : adds k st st' new -> open_id st' i <-> open_id st i.
Proof.
  intros [O S N _ _]. unfold open_id. rewrite O, map_app, elem_of_app, S. split; [tauto|]. intros [Hi Hn]. split; [by left|].
  intros [?|Hin]; [done|]. apply list_elem_of_fmap in Hin as (y & -> & Hy). by destruct (N y Hy).
Qed.
Lemma adds_known k st st' new : adds k st st' new -> placed_known st -> placed_known st'.
Proof. intros [O S _ _ _] Hk i. rewrite O, map_app, elem_of_app, S. intros [Hi|Hi]; [left; by apply Hk|by right]. Qed.
Lemma adds_unscheduled k st st' new : adds k st st' new -> (unscheduled (fst st') <= unscheduled (fst st))%nat.
Proof. intros [_ S _ _ _]. apply unscheduled_mono. intros i Hi. apply S. by left. Qed.

(** The contract of a call. *)
Definition calls (fuel : nat) : Prop := forall x st, x ∈ creates -> (unscheduled (fst st) < fuel)%nat ->
  exists new, adds (o_rank (snd x)) st (schedule fuel columns x st) new /\ item_id x ∈ fst (schedule fuel columns x st) /\
    (forall level, graded level -> placed_known st -> (forall g, open_id st g -> (level (item_id x) < level g)%nat) ->
      settled (snd st) -> settled (snd (schedule fuel columns x st))).

(** The loop over the columns an item reads. *)
Lemma fields_spec fuel x fields st : calls fuel -> x ∈ creates -> o_rank (snd x) = RColumn ->
  (forall f, f ∈ fields -> f ∈ tail (o_deps (snd x))) -> (unscheduled (fst st) < fuel)%nat ->
  let st' := fold_left (fun st field => match get columns (colKey (snd x) field) with Some d => schedule fuel columns d st | None => st end) fields st in
  exists new, adds RColumn st st' new /\
    (forall f y, f ∈ fields -> get columns (colKey (snd x) f) = Some y -> item_id y ∈ fst st') /\
    (forall level, graded level -> placed_known st -> (forall g, open_id st g -> (level (item_id x) <= level g)%nat) ->
      settled (snd st) -> settled (snd st')).
Proof.
  intros Hcalls Hx Hk. revert st. cbv zeta. induction fields as [|f fields IH]; intros st Hsub Hf; cbn [fold_left].
  - exists []. split_and!; [apply adds_nil|intros f y Hy; by apply elem_of_nil in Hy|done].
  - destruct (get columns (colKey (snd x) f)) as [d|] eqn:Hd.
    2:{ destruct (IH st) as (new & Ha & Hr & Hs); [intros f' Hf'; apply Hsub; by right|done|]. exists new. split_and!; [done| |done].
        intros f' y [->|Hf']%elem_of_cons Hy; [congruence|by eapply Hr]. }
    destruct (columns_in _ _ Hd) as [Hdc Hdr].
    destruct (Hcalls d st Hdc Hf) as (new1 & Ha1 & Hself & Hs1). rewrite Hdr in Ha1.
    pose proof (adds_unscheduled _ _ _ _ Ha1).
    destruct (IH (schedule fuel columns d st)) as (new2 & Ha2 & Hr2 & Hs2); [intros f' Hf'; apply Hsub; by right|lia|].
    exists (new1 ++ new2). split_and!.
    + by eapply adds_app.
    + intros f' y [->|Hf']%elem_of_cons Hy; [|by eapply Hr2]. assert (y = d) as -> by congruence.
      apply (add_sch _ _ _ _ Ha2). by left.
    + intros level Hg Hpk Hopen Hset. apply (Hs2 level); [done|by eapply adds_known| |].
      * intros g Hog. apply Hopen. by apply (adds_open _ _ _ _ g Ha1).
      * apply (Hs1 level); [done|done| |done]. intros g Hog. specialize (Hopen g Hog).
        assert (Hl : (level (item_id d) < level (item_id x))%nat); [|lia]. apply Hg; [done|]. split; [done|]. exists f. split; [apply Hsub; by left|done].
Qed.

Lemma schedule_spec fuel : calls fuel.
Proof.
  induction fuel as [|fuel IH]; intros x st Hx Hf; [lia|]. cbn [schedule]. destruct (includes (fst st) (item_id x)) eqn:E.
  { exists []. split_and!; [apply adds_nil|by apply includes_spec|done]. }
  apply includes_false in E. pose proof (unscheduled_add _ _ Hx E) as Hlt.
  set (st1 := (add (item_id x) (fst st), snd st) : Schedule).
  set (st2 := if is_rank (snd x) RColumn then _ else st1).
  assert (H2 : exists new, adds (o_rank (snd x)) st1 st2 new /\ (forall y, reads_item x y -> item_id y ∈ fst st2) /\
    (forall level, graded level -> placed_known st1 -> (forall g, open_id st1 g -> (level (item_id x) <= level g)%nat) -> settled (snd st1) -> settled (snd st2))).
  { subst st2. destruct (is_rank (snd x) RColumn) eqn:Hk.
    - apply bool_decide_eq_true in Hk. destruct (fields_spec fuel x (tail (o_deps (snd x))) st1 IH Hx Hk) as (new & Ha & Hr & Hs); [done|cbn [fst] in *; unfold st1; cbn [fst]; lia|].
      rewrite Hk. exists new. split_and!; [done| |done]. intros y (_ & f & Hff & Hy). by eapply Hr.
    - exists []. split_and!; [apply adds_nil| |done]. intros y (Hk' & _). apply bool_decide_eq_false in Hk. done. }
  destruct H2 as (new & Ha & Hr & Hs). pose proof Ha as [O S N D R].
  assert (Hx1 : item_id x ∈ fst st1) by (apply elem_of_add; by left).
  exists (new ++ [x]). split_and!; cbn [fst snd].
  - split; cbn [fst snd].
    + rewrite O. unfold st1. cbn [snd]. by rewrite app_assoc.
    + intros i. rewrite S, map_app, elem_of_app. cbn [map]. rewrite list_elem_of_singleton. unfold st1. cbn [fst]. rewrite elem_of_add. tauto.
    + intros y [Hy|Hy]%elem_of_app.
      * destruct (N y Hy) as [Hc Hn]. split; [done|]. intros Hi. apply Hn. apply elem_of_add. by right.
      * apply list_elem_of_singleton in Hy as ->. done.
    + rewrite map_app. apply NoDup_app. split_and!; [done| |apply NoDup_singleton]. intros i (y & -> & Hy)%list_elem_of_fmap Hi.
      cbn [map] in Hi. apply list_elem_of_singleton in Hi. destruct (N y Hy) as [_ Hn]. by rewrite Hi in Hn.
    + intros y [Hy|Hy]%elem_of_app; [by apply R|]. by apply list_elem_of_singleton in Hy as ->.
  - apply S. by left.
  - intros level Hg Hpk Hopen Hset.
    assert (Hopen1 : forall g, open_id st1 g -> (level (item_id x) <= level g)%nat).
    { intros g [Hg1 Hg2]. unfold st1 in Hg1, Hg2. cbn [fst snd] in *. apply elem_of_add in Hg1 as [->|Hg1]; [done|].
      assert (level (item_id x) < level g)%nat by by apply Hopen. lia. }
    assert (Hpk1 : placed_known st1) by (intros i Hi; apply elem_of_add; right; by apply Hpk).
    specialize (Hs level Hg Hpk1 Hopen1 Hset). intros l1 z l2 y E2 Hzy.
    destruct l2 as [|w l2 _] using rev_ind.
    + apply app_inj_tail in E2 as [<- <-]. destruct (decide (item_id y ∈ ids (snd st2))) as [|Hno]; [done|]. exfalso.
      assert (Hoy : open_id st1 (item_id y)).
      { apply (adds_open _ _ _ _ _ Ha). split; [by apply Hr|done]. }
      specialize (Hopen1 _ Hoy). specialize (Hg x y Hx Hzy). lia.
    + rewrite app_comm_cons, app_assoc in E2. apply app_inj_tail in E2 as [E2 _]. by eapply Hs.
Qed.

(** The whole loop: what is placed after the items of a prefix. *)
Definition rank_of (x : Item) : Z := RANK (o_rank (snd x)).
Record placed (todo : list Item) (st : Schedule) : Prop := {
  pl_once : NoDup (ids (snd st));
  pl_known : forall i, i ∈ fst st <-> i ∈ ids (snd st);
  pl_from : forall y, y ∈ snd st -> y ∈ creates;
  pl_rest : forall x, x ∈ creates -> x ∈ todo \/ item_id x ∈ fst st;
  pl_sorted : StronglySorted (fun a b => rank_of a <= rank_of b) (snd st);
  pl_below : forall y x, y ∈ snd st -> x ∈ todo -> rank_of y <= rank_of x;
  pl_settled : forall level, graded level -> settled (snd st)
}.
Lemma ranked_app (l l' : list Item) : StronglySorted (fun a b => rank_of a <= rank_of b) l ->
  StronglySorted (fun a b => rank_of a <= rank_of b) l' -> (forall a b, a ∈ l -> b ∈ l' -> rank_of a <= rank_of b) ->
  StronglySorted (fun a b => rank_of a <= rank_of b) (l ++ l').
Proof.
  intros Hl Hl' Hc. induction Hl as [|x l Hl IH Hx]; [done|]. cbn [app]. constructor.
  - apply IH. intros a b Ha Hb. apply Hc; [by right|done].
  - apply Forall_app. split; [done|]. apply Forall_forall. intros b Hb. apply Hc; [by left|done].
Qed.
Lemma same_rank_sorted k (l : list Item) : (forall y, y ∈ l -> o_rank (snd y) = k) -> StronglySorted (fun a b => rank_of a <= rank_of b) l.
Proof.
  intros Hk. induction l as [|x l IH]; [constructor|]. constructor; [apply IH; intros y Hy; apply Hk; by right|].
  apply Forall_forall. intros y Hy. unfold rank_of. rewrite (Hk x), (Hk y); [done|by right|by left].
Qed.
Lemma place_one x todo st : (forall z, z ∈ x :: todo -> z ∈ creates) -> (forall z, z ∈ todo -> rank_of x <= rank_of z) -> placed (x :: todo) st ->
  placed todo (schedule (S (length creates)) columns x st).
Proof.
  intros Hsub Hle [P1 P2 P3 P4 P5 P6 P7].
  destruct (schedule_spec (S (length creates)) x st) as (new & [O S N D R] & Hself & Hset).
  { apply Hsub. by left. }
  { apply Nat.lt_succ_r, filter_length_le. }
  assert (Hk : forall y, y ∈ new -> rank_of y = rank_of x) by (intros y Hy; unfold rank_of; by rewrite R).
  split.
  - rewrite O, map_app. apply NoDup_app. split_and!; [done| |done]. intros i Hi (y & -> & Hy)%list_elem_of_fmap.
    destruct (N y Hy) as [_ Hn]. apply Hn. by apply P2.
  - intros i. rewrite S, O, map_app, elem_of_app, P2. done.
  - intros y. rewrite O. intros [Hy|Hy]%elem_of_app; [by apply P3|by apply N].
  - intros z Hz. destruct (P4 z Hz) as [[->|Hz']%elem_of_cons|Hz']; [by right|by left|]. right. apply S. by left.
  - rewrite O. apply ranked_app; [done|by apply (same_rank_sorted (o_rank (snd x)))|]. intros a b Ha Hb. rewrite (Hk b Hb). apply P6; [done|by left].
  - intros y z. rewrite O. intros [Hy|Hy]%elem_of_app Hz; [apply P6; [done|by right]|]. rewrite (Hk y Hy). by apply Hle.
  - intros level Hg. apply (Hset level); [done|intros i Hi; by apply P2| |by apply (P7 level)]. intros g [Hg1 Hg2]. by apply P2 in Hg1.
Qed.
Lemma place_all todo st : (forall z, z ∈ todo -> z ∈ creates) -> StronglySorted (fun a b => rank_of a <= rank_of b) todo -> placed todo st ->
  placed [] (fold_left (fun st item => schedule (S (length creates)) columns item st) todo st).
Proof.
  intros Hsub Hs. revert st Hsub. induction Hs as [|x todo Hs IH Hx]; intros st Hsub Hp; [done|]. cbn [fold_left].
  apply IH; [intros z Hz; apply Hsub; by right|]. apply place_one; [done| |done]. by apply Forall_forall.
Qed.
Lemma ordered_placed : StronglySorted (fun a b => rank_of a <= rank_of b) creates ->
  exists sch, placed [] (sch, ordered_creates creates).
Proof.
  intros Hs. pose proof (place_all creates ([], []) (fun _ H => H) Hs) as Hp. unfold ordered_creates.
  destruct (fold_left _ _ _) as [sch out]. exists sch. apply Hp. split; cbn [fst snd map].
  - constructor.
  - done.
  - intros y Hy. by apply elem_of_nil in Hy.
  - by left.
  - constructor.
  - intros y x Hy. by apply elem_of_nil in Hy.
  - intros level _ l1 x l2 y E. by destruct l1.
Qed.
End Schedule.

Lemma statements_ordered_spec (p : Plan) (reassert : list SchemaObject) :
  let creates := creates_of p reassert in
  let out := ordered_creates creates in
  StronglySorted (fun a b => RANK (o_rank (snd b)) <= RANK (o_rank (snd a))) (drops_of p) /\
  StronglySorted (fun a b => RANK (o_rank (snd a)) <= RANK (o_rank (snd b))) out /\
  NoDup (map item_id out) /\ (forall x, x ∈ creates -> item_id x ∈ map item_id out) /\ (forall x, x ∈ out -> x ∈ creates) /\
  (forall level, graded creates level -> settled creates out).
Proof.
  cbv zeta. destruct (ordered_placed (creates_of p reassert)) as (sch & [P1 P2 P3 P4 P5 _ P7]); [apply sort_rank_sorted|]. cbn [fst snd] in *.
  split_and!; [|done|done| |done|done].
  - eapply sorted_impl; [|apply (sort_rank_sorted (fun x : Item => - RANK (o_rank (snd x))))]. cbn. lia.
  - intros x Hx. destruct (P4 x Hx) as [Hn|Hi]; [by apply elem_of_nil in Hn|]. by apply P2.
Qed.
(** C29. A plan's statements run in an order the database can follow: what is dropped goes newest rank first; every object
    to create is created once, in the order of the ranks, and a generated column comes after each column of the same
    migration that it reads, as long as no columns read each other in a circle. *)
Theorem statements_ordered (p : Plan) (reassert : list SchemaObject) :
  let creates := creates_of p reassert in
  let out := ordered_creates creates in
  StronglySorted (fun a b => RANK (o_rank (snd b)) <= RANK (o_rank (snd a))) (drops_of p) /\
  StronglySorted (fun a b => RANK (o_rank (snd a)) <= RANK (o_rank (snd b))) out /\
  NoDup (map item_id out) /\ (forall x, x ∈ creates -> item_id x ∈ map item_id out) /\ (forall x, x ∈ out -> x ∈ creates) /\
  (forall level, graded creates level -> settled creates out).
Proof. exact (statements_ordered_spec p reassert). Qed.
End Order.

(** ** What the statements of a plan carry out. *)
Module Carried.
Import Marks.

Section Steps.
Variable d : Diff.
Variable r : Renames.
Variable p : Plan.
Hypothesis steps : p_steps p = steps_of d r.

(** What the rename steps do not do. *)
Lemma rename_inert s : s ∈ renameSql r (d_replacedTables d) (d_replacedCols d) -> st_drop s = None /\ st_create s = None /\ st_alter s = None /\ st_class s = Rename.
Proof.
  unfold renameSql. rewrite elem_of_app, !list_elem_of_In, !in_flat_map. intros [([n o] & _ & Hs)|([t fields] & _ & Hs)].
  - cbn [In] in Hs. by destruct Hs as [<-|[<-|[]]].
  - apply in_flat_map in Hs as ([n o] & _ & Hs). destruct (_ || _); [done|]. by destruct Hs as [<-|[]].
Qed.
Lemma step_cases s : s ∈ p_steps p <->
  s ∈ renameSql r (d_replacedTables d) (d_replacedCols d) \/ (exists o, o ∈ dropped d /\ s = drop_step o) \/
  (exists o, o ∈ rebuilt d /\ s = replace_step d o) \/ (exists o, o ∈ widened d /\ s = widen_step o) \/ (exists o, o ∈ created d /\ s = create_step d o).
Proof.
  rewrite steps. unfold steps_of. rewrite !elem_of_app, !list_elem_of_fmap. split; intros [H|[(o & ? & ?)|[(o & ? & ?)|[(o & ? & ?)|(o & ? & ?)]]]]; eauto 10.
Qed.
Lemma planned_cases x : x ∈ planned p <-> exists o, snd x = o /\
  (o ∈ rebuilt d /\ fst x = "replace:" +:+ o_id o \/ o ∈ created d /\ fst x = "create:" +:+ o_id o).
Proof.
  unfold planned. rewrite list_elem_of_In, in_flat_map. setoid_rewrite <- list_elem_of_In. setoid_rewrite step_cases. split.
  - intros (s & Hs & Hx). destruct Hs as [Hs|[(o & Ho & ->)|[(o & Ho & ->)|[(o & Ho & ->)|(o & Ho & ->)]]]].
    + apply rename_inert in Hs as (_ & E & _). by rewrite E in Hx; apply elem_of_nil in Hx.
    + cbn in Hx. by apply elem_of_nil in Hx.
    + cbn in Hx. apply list_elem_of_singleton in Hx as ->. exists o. split; [done|]. by left.
    + cbn in Hx. by apply elem_of_nil in Hx.
    + cbn in Hx. apply list_elem_of_singleton in Hx as ->. exists o. split; [done|]. by right.
  - destruct x as [i o]. intros (o' & E & [[Ho Hi]|[Ho Hi]]); cbn [fst snd] in *; subst.
    + exists (replace_step d o'). split; [right; right; left; by exists o'|]. cbn. by left.
    + exists (create_step d o'). split; [right; right; right; right; by exists o'|]. cbn. by left.
Qed.
Lemma drops_cases x : x ∈ drops_of p <->
  (exists o, o ∈ dropped d /\ x = ("drop:" +:+ o_id o, o)) \/ (exists o old, o ∈ rebuilt d /\ replaced d o = Some old /\ x = ("replace:" +:+ o_id o, old)).
Proof.
  unfold drops_of. rewrite Order.sort_rank_perm. rewrite list_elem_of_In, in_flat_map. setoid_rewrite <- list_elem_of_In. setoid_rewrite step_cases. split.
  - intros (s & Hs & Hx). destruct Hs as [Hs|[(o & Ho & ->)|[(o & Ho & ->)|[(o & Ho & ->)|(o & Ho & ->)]]]].
    + apply rename_inert in Hs as (E & _). by rewrite E in Hx; apply elem_of_nil in Hx.
    + cbn in Hx. apply list_elem_of_singleton in Hx as ->. left. by exists o.
    + cbn [replace_step st_drop st_id] in Hx. destruct (replaced d o) as [old|] eqn:E; [|by apply elem_of_nil in Hx].
      apply list_elem_of_singleton in Hx as ->. right. by exists o, old.
    + cbn in Hx. by apply elem_of_nil in Hx.
    + cbn in Hx. by apply elem_of_nil in Hx.
  - intros [(o & Ho & ->)|(o & old & Ho & Hr & ->)].
    + exists (drop_step o). split; [right; left; by exists o|]. cbn. by left.
    + exists (replace_step d o). split; [right; right; left; by exists o|]. cbn [replace_step st_drop st_id]. rewrite Hr. by left.
Qed.
End Steps.

Section Carry.
Variable held after : list SchemaObject.
Variable r : Renames.
Variable p : Plan.
Abbreviation d := (diff_of held after r).
Abbreviation before := (Rebuild.before_of held r).
Hypothesis steps : p_steps p = steps_of d r.
Hypothesis ids_distinct : NoDup (map o_id after).

Lemma after_get o : o ∈ after -> get (d_byId d) (o_id o) = Some o.
Proof. apply by_id_in, ids_distinct. Qed.
Lemma in_rebuilt o : o ∈ rebuilt d <-> o ∈ after /\ o_id o ∈ d_changed d /\ o_id o ∉ d_widened d.
Proof. unfold rebuilt. rewrite elem_of_List_filter, andb_true_iff, negb_true_iff, includes_spec, includes_false. done. Qed.
Lemma in_created o : o ∈ created d <-> o ∈ after /\ has_own before (o_id o) = false.
Proof. unfold created. rewrite elem_of_List_filter, negb_true_iff. done. Qed.
Lemma in_widened o : o ∈ widened d <-> o ∈ after /\ o_id o ∈ d_widened d.
Proof. unfold widened. rewrite elem_of_List_filter, includes_spec. done. Qed.
Lemma in_dropped o : o ∈ dropped d <-> get before (o_id o) = Some o /\ has_own (by_id after) (o_id o) = false /\ is_some (o_drop o) = true.
Proof.
  unfold dropped. rewrite elem_of_List_filter, andb_true_iff, negb_true_iff. unfold values. rewrite list_elem_of_fmap. split.
  - intros [([i o'] & -> & Hin) Hp]. cbn [snd] in *. destruct (Rebuild.before_id held r i o' Hin) as [<- Hg]. by split.
  - intros [Hg Hp]. split; [|done]. exists (o_id o, o). split; [done|]. by apply get_in in Hg.
Qed.
(** Every object of the next schema that is not created, rebuilt or widened is held as it is to be. *)
Lemma unchanged o : o ∈ after -> o ∉ created d -> o ∉ rebuilt d -> o ∉ widened d -> exists old, get before (o_id o) = Some old /\ def old = def o.
Proof.
  intros Ho Hc Hr Hw. destruct (get before (o_id o)) as [old|] eqn:G.
  2:{ exfalso. apply Hc, in_created. split; [done|]. unfold has_own. by rewrite G. }
  exists old. split; [done|]. destruct (decide (def old = def o)) as [|Hne]; [done|]. exfalso.
  assert (Hnw : o_id o ∉ d_widened d) by (intros Hi; apply Hw, in_widened; by split).
  apply Hr, in_rebuilt. split_and!; [done| |done]. apply (Rebuild.rebuilds_exactly_spec held after r ids_distinct).
  apply Rebuild.due_first. left. exists old, o. split_and!; [done|by apply after_get|done].
Qed.
Lemma created_of x : x ∈ creates_of p [] -> snd x ∈ after /\ (snd x ∈ rebuilt d \/ snd x ∈ created d).
Proof.
  unfold creates_of. rewrite Order.sort_rank_perm. cbn [List.filter map]. rewrite app_nil_r. intros Hx.
  apply (planned_cases d r p steps) in Hx as (o & -> & [[Ho _]|[Ho _]]).
  - split; [by apply in_rebuilt in Ho as (? & _)|by left].
  - split; [by apply in_created in Ho as (? & _)|by right].
Qed.

(** The trigger function of the row rules, held and next in its versioned form: it is created over itself, not dropped. *)
Definition in_place (old o : SchemaObject) : Prop :=
  o_id o = "function:store_row_rules"%string /\ o_rank old = RFunction /\ o_rank o = RFunction /\
  exists a b, o_create old = [a] /\ o_create o = [b] /\
    String.prefix row_rules_header a = true /\ String.prefix row_rules_header b = true.
Lemma rowGuard_spec old o : rowGuard (Some old) o = true <-> in_place old o.
Proof.
  unfold rowGuard, in_place, is_rank. rewrite !andb_true_iff, String.eqb_eq, !bool_decide_eq_true.
  assert (match o_create old, o_create o with [a], [b] => String.prefix row_rules_header a && String.prefix row_rules_header b | _, _ => false end = true <->
    exists a b, o_create old = [a] /\ o_create o = [b] /\ String.prefix row_rules_header a = true /\ String.prefix row_rules_header b = true) as ->; [|tauto].
  destruct (o_create old) as [|a [|]], (o_create o) as [|b [|]]; (split; [try done|try (by intros (? & ? & [=] & [=] & ?))]).
  - intros [Ha Hb]%andb_true_iff. by exists a, b.
  - intros (a' & b' & [= ->] & [= ->] & -> & ->). done.
Qed.
(** A stored int32 column that is to be wider, of the same name, on a table that stays. *)
Definition grows_wider (o : SchemaObject) : Prop :=
  o ∈ after /\ ~ Rebuild.table_replaced held after r (o_table o) /\ exists old field,
    get before (o_id o) = Some old /\ o_rank old = RColumn /\ o_stored old = true /\ o_stored o = true /\
    o_shape old = Some "int"%string /\ (o_shape o = Some "bigint"%string \/ o_shape o = Some "numeric"%string) /\
    o_deps old = [field] /\ o_deps o = [field].
Lemma shape_is_spec o t : shape_is o t = true <-> o_shape o = Some t.
Proof. unfold shape_is. destruct (o_shape o); [rewrite String.eqb_eq|]; naive_solver. Qed.
Lemma widens_spec o : Rebuild.widens_to held after r o <-> grows_wider o.
Proof.
  unfold Rebuild.widens_to, grows_wider, widens, is_rank. split.
  - intros (old & Ho & Hg & Ht & Hw). rewrite !andb_true_iff, orb_true_iff, bool_decide_eq_true, !shape_is_spec in Hw.
    split_and!; [done|done|]. destruct Hw as [[[[[Hk Hs] Hs'] Hi] Hb] Hd].
    destruct (o_deps old) as [|x [|]] eqn:Ex, (o_deps o) as [|y [|]] eqn:Ey; try done. apply String.eqb_eq in Hd as ->. exists old, y. by split_and!.
  - intros (Ho & Ht & old & f & Hg & Hk & Hs & Hs' & Hi & Hb & Hd & Hd'). exists old. split_and!; [done..|].
    rewrite !andb_true_iff, orb_true_iff, bool_decide_eq_true, !shape_is_spec, Hd, Hd'. by rewrite String.eqb_refl.
Qed.

(** What a plan has to do: the objects that go, those made anew in the place of one held, and the new ones. *)
Definition goes (o : SchemaObject) : Prop := get before (o_id o) = Some o /\ forall n, n ∈ after -> o_id n <> o_id o.
Definition made_anew (o : SchemaObject) : Prop := o ∈ after /\ Rebuild.due held after r (inl (o_id o)) /\ ~ grows_wider o.
Definition is_new (o : SchemaObject) : Prop := o ∈ after /\ get before (o_id o) = None.

Lemma due_held x : Rebuild.due held after r x -> match x with inl i => has_own before i = true | inr _ => True end.
Proof.
  unfold has_own. intros Hd. destruct Hd; try done.
  match goal with H : Rebuild.first _ _ _ _ |- _ => destruct H as [(old & n & -> & _)|(o & _ & Ho & -> & _)] end; done.
Qed.
Lemma goes_spec o : o ∈ dropped d <-> goes o /\ is_some (o_drop o) = true.
Proof.
  rewrite in_dropped. unfold goes, has_own. split.
  - intros (Hg & Hn & Hd). split_and!; [done| |done]. intros n Hin E. apply by_id_has in Hin. rewrite E in Hin. by rewrite Hin in Hn.
  - intros ((Hg & Hn) & Hd). split_and!; [done| |done]. destruct (get (by_id after) (o_id o)) as [n|] eqn:G; [|done].
    apply by_id_get in G as [Hin E]. by apply Hn in Hin.
Qed.
Lemma wider_spec o : o ∈ widened d <-> grows_wider o.
Proof.
  rewrite in_widened, (Rebuild.widened_spec held after r). setoid_rewrite widens_spec. split.
  - intros (Ho & w & Hw & E). by rewrite (Rebuild.same_object after ids_distinct o w Ho (proj1 Hw) (eq_sym E)).
  - intros Hw. split; [exact (proj1 Hw)|by exists o].
Qed.
Lemma anew_spec o : o ∈ rebuilt d <-> made_anew o.
Proof.
  rewrite in_rebuilt, (proj1 (Rebuild.rebuilds_exactly_spec held after r ids_distinct)). unfold made_anew. rewrite <- wider_spec, in_widened. tauto.
Qed.
Lemma new_spec o : o ∈ created d <-> is_new o.
Proof. rewrite in_created. unfold is_new, has_own. destruct (get before (o_id o)); naive_solver. Qed.

(** The statements of the plan, by the step that plans them. *)
Definition texts (ss : list PlannedStatement) : list (string * string) := map (fun s => (ps_step s, ps_sql s)) ss.
(** A statement drops an object that goes, or the held one in whose place one is made anew. *)
Definition drop_statement (s : string * string) : Prop :=
  (exists o, goes o /\ o_drop o = Some (snd s) /\ fst s = "drop:" +:+ o_id o) \/
  (exists o old, made_anew o /\ get before (o_id o) = Some old /\ ~ in_place old o /\ o_drop old = Some (snd s) /\ fst s = "replace:" +:+ o_id o).
(** A statement renames a table that is not replaced, or its primary key. *)
Definition table_rename_statement (s : string * string) : Prop :=
  exists n o, (n, o) ∈ r_tables r /\ ~ Rebuild.table_replaced held after r n /\
    (s = ("rename:" +:+ o +:+ "->" +:+ n, "alter table " +:+ q o +:+ " rename to " +:+ q n) \/
     s = ("rename:" +:+ n +:+ "." +:+ primary o +:+ "->" +:+ primary n,
          "alter table " +:+ q n +:+ " rename constraint " +:+ q (primary o) +:+ " to " +:+ q (primary n))).
(** A statement renames a column that is not replaced, of a table that is not. *)
Definition column_rename_statement (s : string * string) : Prop :=
  exists t fields n o, (t, fields) ∈ r_columns r /\ (n, o) ∈ fields /\
    ~ Rebuild.table_replaced held after r t /\ ~ Rebuild.due held after r (inr (t +:+ "." +:+ n)) /\
    s = ("rename:" +:+ t +:+ "." +:+ o +:+ "->" +:+ n, "alter table " +:+ q t +:+ " rename column " +:+ q o +:+ " to " +:+ q n).
(** A statement widens a column. *)
Definition widen_statement (s : string * string) : Prop :=
  exists o field kind, grows_wider o /\ o_deps o = [field] /\ o_shape o = Some kind /\
    s = ("widen:" +:+ o_id o, "alter table " +:+ q (o_table o) +:+ " alter column " +:+ q field +:+ " type " +:+ kind).
(** An object is created under its step. *)
Definition created_under (x : string * SchemaObject) : Prop :=
  made_anew (snd x) /\ fst x = "replace:" +:+ o_id (snd x) \/ is_new (snd x) /\ fst x = "create:" +:+ o_id (snd x).
(** The plan does all that and nothing else: what stays is held as the next schema defines it. *)
Definition carries_out : Prop :=
  exists drops tables columns alters created,
    texts (statements p []) = drops ++ (tables ++ columns) ++ alters ++
      flat_map (fun x : string * SchemaObject => map (pair (fst x)) (o_create (snd x))) created /\
    (forall s, s ∈ drops <-> drop_statement s) /\ (forall s, s ∈ tables <-> table_rename_statement s) /\
    (forall s, s ∈ columns <-> column_rename_statement s) /\ (forall s, s ∈ alters <-> widen_statement s) /\
    NoDup (map (fun x => o_id (snd x)) created) /\ (forall x, x ∈ created <-> created_under x) /\
    (forall o, o ∈ after -> ~ made_anew o -> ~ is_new o -> ~ grows_wider o ->
       exists old, get before (o_id o) = Some old /\ def old = def o).

Lemma in_flat_map' {A B} (f : A -> list B) (l : list A) y : y ∈ flat_map f l <-> exists x, x ∈ l /\ y ∈ f x.
Proof. rewrite list_elem_of_In, in_flat_map. by setoid_rewrite <- list_elem_of_In. Qed.
Lemma texts_flat {A} (f : A -> list PlannedStatement) (l : list A) : texts (flat_map f l) = flat_map (fun x => texts (f x)) l.
Proof. induction l as [|x l IH]; [done|]. cbn [flat_map]. unfold texts in *. by rewrite map_app, IH. Qed.

Lemma drops_carried s :
  s ∈ texts (flat_map (fun x : Item => match o_drop (snd x) with Some sql => [MkStatement (fst x) sql None None []] | None => [] end) (drops_of p)) <->
  drop_statement s.
Proof.
  destruct s as [step sql]. rewrite texts_flat, in_flat_map'. unfold drop_statement. setoid_rewrite <- rowGuard_spec. cbn [fst snd]. split.
  - intros (x & Hx & Hs). destruct (o_drop (snd x)) as [t|] eqn:E; [|by apply elem_of_nil in Hs]. apply list_elem_of_singleton in Hs as [= -> ->].
    apply (drops_cases d r p steps) in Hx as [(o & Ho & ->)|(o & old & Ho & Hr & ->)]; cbn [fst snd] in *.
    + left. exists o. by apply goes_spec in Ho as [Ho _].
    + right. exists o, old. unfold replaced in Hr. change (d_before d) with before in Hr. destruct (get before (o_id o)) as [h|]; [|done].
      destruct (negb _ || rowGuard _ _) eqn:G; [done|]. injection Hr as ->. apply orb_false_iff in G as [_ G]. split_and!; [by apply anew_spec|done|by rewrite G|done..].
  - intros [(o & Ho & Hd & ->)|(o & old & Ho & Hg & Hi & Hd & ->)].
    + exists (("drop:" +:+ o_id o)%string, o). split; [|cbn [fst snd]; rewrite Hd; by left].
      apply (drops_cases d r p steps). left. exists o. split; [|done]. apply goes_spec. split; [done|]. by rewrite Hd.
    + exists (("replace:" +:+ o_id o)%string, old). split; [|cbn [fst snd]; rewrite Hd; by left].
      apply (drops_cases d r p steps). right. exists o, old. split_and!; [by apply anew_spec| |done]. unfold replaced. change (d_before d) with before.
      rewrite Hg, Hd. cbn [is_some negb orb]. by destruct (rowGuard (Some old) o).
Qed.
Lemma steps_split {B} (f : Step -> list B) : (forall o, f (drop_step o) = []) -> (forall o, f (replace_step d o) = []) -> (forall o, f (create_step d o) = []) ->
  flat_map f (p_steps p) = flat_map f (renameSql r (d_replacedTables d) (d_replacedCols d)) ++ flat_map f (map widen_step (widened d)).
Proof.
  intros H1 H2 H3. rewrite steps. unfold steps_of. rewrite !flat_map_app.
  assert (Hnil : forall (g : SchemaObject -> Step) l, (forall o, f (g o) = []) -> flat_map f (map g l) = []).
  { intros g l Hg. induction l as [|o l IH]; [done|]. cbn [map flat_map]. by rewrite Hg, IH. }
  by rewrite (Hnil _ _ H1), (Hnil _ _ H2), (Hnil _ _ H3), app_nil_r.
Qed.
Lemma alters_carried s :
  s ∈ texts (flat_map (fun s => match st_alter s with Some sql => [MkStatement (st_id s) sql None None (st_risks s)] | None => [] end) (p_steps p)) <->
  widen_statement s.
Proof.
  rewrite texts_flat, in_flat_map'. setoid_rewrite (step_cases d r p steps). unfold widen_statement. split.
  - intros (x & [Hx|[(o & _ & ->)|[(o & _ & ->)|[(o & Ho & ->)|(o & _ & ->)]]]] & Hs); try (by apply elem_of_nil in Hs).
    + apply rename_inert in Hx as (_ & _ & E & _). rewrite E in Hs. by apply elem_of_nil in Hs.
    + apply wider_spec in Ho. apply list_elem_of_singleton in Hs as ->. pose proof Ho as (_ & _ & old & f & _ & _ & _ & _ & _ & Hk & _ & Hd).
      cbn [st_id widen_step]. unfold shape_text. rewrite Hd. destruct Hk as [Hk|Hk]; rewrite Hk; [exists o, f, "bigint"%string|exists o, f, "numeric"%string]; by rewrite Hk.
  - intros (o & f & k & Ho & Hd & Hk & ->). exists (widen_step o). split; [right; right; right; left; exists o; split; [by apply wider_spec|done]|].
    cbn [st_alter widen_step st_id st_risks]. unfold shape_text. rewrite Hd, Hk. by left.
Qed.
Lemma renames_carried :
  exists tables columns,
    texts (flat_map (fun s => match st_rename s with Some sql => [MkStatement (st_id s) sql None None []] | None => [] end) (p_steps p)) = tables ++ columns /\
    (forall s, s ∈ tables <-> table_rename_statement s) /\ (forall s, s ∈ columns <-> column_rename_statement s).
Proof.
  rewrite steps_split by done.
  assert (flat_map (fun s => match st_rename s with Some sql => [MkStatement (st_id s) sql None None []] | None => [] end) (map widen_step (widened d)) = []) as ->.
  { induction (widened d) as [|o l IH]; [done|]. exact IH. }
  rewrite app_nil_r. unfold renameSql. rewrite flat_map_app. unfold texts. rewrite map_app. eexists _, _. split; [done|].
  setoid_rewrite list_elem_of_fmap. setoid_rewrite in_flat_map'. setoid_rewrite in_flat_map'. split.
  - intros s. unfold table_rename_statement. setoid_rewrite <- (Rebuild.replaced_tables_spec held after r). setoid_rewrite elem_of_List_filter.
    setoid_rewrite negb_true_iff. setoid_rewrite includes_false. split.
    + intros (y & -> & x & ([n o] & [Hno Hr] & Hx) & Hy). exists n, o. split_and!; [done|done|].
      apply elem_of_cons in Hx as [->|[->|[]%elem_of_nil]%elem_of_cons]; apply list_elem_of_singleton in Hy as ->; [by left|by right].
    + intros (n & o & Hno & Hr & Hs). destruct Hs as [->| ->].
      * eexists (MkStatement _ _ None None []). split; [done|]. eexists. split; [exists (n, o); split; [by split|by left]|]. by left.
      * eexists (MkStatement _ _ None None []). split; [done|]. eexists. split; [exists (n, o); split; [by split|right; by left]|]. by left.
  - intros s. unfold column_rename_statement. setoid_rewrite <- (Rebuild.replaced_tables_spec held after r).
    setoid_rewrite <- (proj2 (Rebuild.rebuilds_exactly_spec held after r ids_distinct)). split.
    + intros (y & -> & x & ([t fields] & Ht & Hx) & Hy). apply in_flat_map' in Hx as ([n o] & Hn & Hx).
      destruct (includes _ _ || includes _ _) eqn:E; [by apply elem_of_nil in Hx|]. apply orb_false_iff in E as [E1 E2].
      apply includes_false in E1, E2. apply list_elem_of_singleton in Hx as ->. apply list_elem_of_singleton in Hy as ->. by exists t, fields, n, o.
    + intros (t & fields & n & o & Ht & Hn & E1 & E2 & ->). eexists (MkStatement _ _ None None []). split; [done|]. eexists (rename_step _ _). split; [|by left].
      exists (t, fields). split; [done|]. apply in_flat_map'. exists (n, o). split; [done|].
      apply includes_false in E1, E2. rewrite E1, E2. by left.
Qed.
Lemma created_cases x : x ∈ creates_of p [] <-> created_under x.
Proof.
  unfold creates_of. rewrite Order.sort_rank_perm. cbn [List.filter map]. rewrite app_nil_r, (planned_cases d r p steps).
  unfold created_under. setoid_rewrite anew_spec. setoid_rewrite new_spec. naive_solver.
Qed.
Lemma created_inj x y : created_under x -> created_under y -> o_id (snd x) = o_id (snd y) -> x = y.
Proof.
  destruct x as [i o], y as [j o']. unfold created_under, made_anew, is_new. cbn [fst snd]. intros Hx Hy E.
  assert (o = o') as -> by (apply (Rebuild.same_object after ids_distinct); naive_solver). f_equal.
  destruct Hx as [[(_ & Hd & _) ->]|[(_ & Hn) ->]], Hy as [[(_ & Hd' & _) ->]|[(_ & Hn') ->]]; try done.
  - apply due_held in Hd. unfold has_own in Hd. by rewrite Hn' in Hd.
  - apply due_held in Hd'. unfold has_own in Hd'. by rewrite Hn in Hd'.
Qed.
Lemma create_texts (xs : list Item) : texts (flat_map create_statements xs) = flat_map (fun x : string * SchemaObject => map (pair (fst x)) (o_create (snd x))) xs.
Proof.
  rewrite texts_flat. induction xs as [|[i o] xs IH]; [done|]. cbn [flat_map fst snd]. rewrite IH. f_equal.
  cbn [create_statements]. unfold texts. change (map ?f ?l) with (f <$> l). rewrite fmap_imap. 
  apply list_eq. intros k. rewrite list_lookup_imap, list_lookup_fmap. by destruct (_ !! k).
Qed.
Lemma carried : carries_out.
Proof.
  destruct renames_carried as (tables & columns & Hr & Ht & Hc).
  destruct (Order.statements_ordered_spec p []) as (_ & _ & Hnd & Hall & Hfrom & _).
  eexists _, tables, columns, _, (ordered_creates (creates_of p [])). split.
  { unfold statements, texts. rewrite map_map. cbn [ps_step ps_sql]. rewrite !map_app.
    rewrite <- Hr, <- create_texts. reflexivity. }
  split_and!; [apply drops_carried|done|done|apply alters_carried|done| |].
  - intros x. rewrite <- created_cases. split; [apply Hfrom|]. intros Hx. pose proof (Hall x Hx) as (y & E & Hy)%list_elem_of_fmap.
    rewrite (created_inj x y); [done|by apply created_cases|by apply created_cases, Hfrom|done].
  - intros o Ho Ha Hn Hw. rewrite <- anew_spec in Ha. rewrite <- new_spec in Hn. rewrite <- wider_spec in Hw. by apply unchanged.
Qed.
End Carry.
End Carried.

(** ** Plans. *)
Module Plans.
Import Marks Carried.
Section Plans.
Variable number_text : number -> string.
Variable objects : SchemaSpec -> list SchemaObject -> Fx (list SchemaObject).
Variable extra : SchemaSpec -> list SchemaObject.

(** What a plan was made from. *)
Definition made_from (applied : option SchemaSpec) (next : SchemaSpec) (p : Plan) (r : Renames) (held after : list SchemaObject) : Prop :=
  match applied with
  | None => r = no_renames /\ held = []
  | Some a => renamesOf a next = inr r /\ objects a (extra a) = inr held
  end /\ objects next (extra next) = inr after /\ p_steps p = steps_of (diff_of held after r) r /\
  p_from p = option_map (fingerprint number_text) applied /\ p_to p = fingerprint number_text next.
Lemma plan_inv applied next p : plan number_text objects extra applied next = inr p -> exists r held after, made_from applied next p r held after.
Proof.
  unfold plan, made_from. destruct applied as [a|]; cbn [mbind Fx_bind].
  - destruct (renamesOf a next) as [|r]; [done|]. cbn [mbind Fx_bind]. destruct (objects a (extra a)) as [|held]; [done|]. cbn [mbind Fx_bind].
    destruct (objects next (extra next)) as [|after]; [done|]. intros [= <-]. by exists r, held, after.
  - destruct (objects next (extra next)) as [|after]; [done|]. intros [= <-]. by exists no_renames, [], after.
Qed.

(** C9. A plan carries out the change of schema. Its statements, in order, are: the drops, of each held object the next
    schema has not and of each held one in whose place one is made anew, where it can be dropped (the versioned row-rules
    function is made over itself); the renames, of each renamed table not replaced, with its primary key, and then of
    each renamed column not replaced; the alterations, of each stored int32 column that gets wider; and the creations, each
    once, of every object made anew or new, in full. An object is made anew exactly when that is due: its definition
    differs, its table is replaced, it references or reads what is replaced. Every other object of the next schema is
    held already, with the same definition, under its new name. *)
Theorem plan_carries_out applied next p : plan number_text objects extra applied next = inr p ->
  exists r held after, made_from applied next p r held after /\ (NoDup (map o_id after) -> carries_out held after r p).
Proof.
  intros Hp. destruct (plan_inv _ _ _ Hp) as (r & held & after & Hm). exists r, held, after. split; [done|].
  intros Hnd. apply carried; [by destruct Hm as (_ & _ & ? & _)|done].
Qed.

Lemma worst_destructive a b : worst a b = Destructive <-> a = Destructive \/ b = Destructive.
Proof. destruct a, b; cbn; naive_solver. Qed.
Lemma createClass_safe d o : createClass d o <> Destructive.
Proof. unfold createClass. by repeat case_match. Qed.
Lemma dropClass_stored o : dropClass o = Destructive <-> o_stored o = true.
Proof. unfold dropClass. by destruct (o_stored o). Qed.
Lemma class_exact d r p s : p_steps p = steps_of d r -> s ∈ p_steps p ->
  st_class s = Destructive <-> exists o, st_drop s = Some o /\ o_stored o = true.
Proof.
  intros Hp Hs. apply (step_cases d r p Hp) in Hs as [Hs|[(o & Ho & ->)|[(o & Ho & ->)|[(o & Ho & ->)|(o & Ho & ->)]]]].
  - apply rename_inert in Hs as (-> & _ & _ & ->). split; [done|]. by intros (o & ? & _).
  - cbn [drop_step st_class st_drop]. rewrite dropClass_stored. split; [intros Hst; by exists o|by intros (o' & [= ->] & Hst)].
  - cbn [replace_step st_class st_drop]. rewrite worst_destructive. destruct (replaced d o) as [old|].
    + rewrite dropClass_stored. split; [intros [Hst|Hc]; [by exists old|by apply createClass_safe in Hc]|]. intros (o' & [= ->] & Hst). by left.
    + split; [intros [?|Hc]; [done|by apply createClass_safe in Hc]|by intros (o' & ? & _)].
  - split; [done|by intros (o' & ? & _)].
  - cbn [create_step st_class st_drop]. split; [intros Hc; by apply createClass_safe in Hc|by intros (o' & ? & _)].
Qed.

(** C35. No stored data is dropped unnoticed: a step is classed destructive exactly when it drops a table or a stored column,
    and a plan with no destructive step left unaccepted drops stored objects only under steps that were accepted. *)
Theorem destruction_accepted applied next p : plan number_text objects extra applied next = inr p ->
  (forall s, s ∈ p_steps p -> st_class s = Destructive <-> exists o, st_drop s = Some o /\ o_stored o = true) /\
  (forall accept, unaccepted p (Some accept) = [] -> forall x, x ∈ drops_of p -> o_stored (snd x) = true -> fst x ∈ accept).
Proof.
  intros Hp. destruct (plan_inv _ _ _ Hp) as (r & held & after & _ & _ & Hs & _). split; [intros s; by apply (class_exact _ _ _ _ Hs)|].
  intros accept Hu x Hx Hst. unfold drops_of in Hx. rewrite Order.sort_rank_perm in Hx. rewrite list_elem_of_In, in_flat_map in Hx.
  destruct Hx as (s & Hin & Hx). apply list_elem_of_In in Hin. destruct (st_drop s) as [o|] eqn:E; [|done]. destruct Hx as [<-|[]]. cbn [fst snd] in *.
  destruct (includes accept (st_id s)) eqn:Ei; [by apply includes_spec|]. exfalso.
  assert (Hf : s ∈ unaccepted p (Some accept)); [|rewrite Hu in Hf; by apply elem_of_nil in Hf].
  unfold unaccepted. apply elem_of_List_filter. split; [done|]. rewrite Ei. cbn [negb]. rewrite andb_true_r. apply bool_decide_eq_true.
  apply (class_exact _ _ _ _ Hs Hin). by exists o.
Qed.

(** ** An unchanged schema. *)

(** An id as ddl.ts writes it: a table's names the table; one of a table's objects names the kind, the table and the part. *)
Definition no_colon (s : string) : bool := all_chars (fun c => negb (Ascii.eqb c ":")) s.
Definition named (o : SchemaObject) : Prop :=
  o_table o = ""%string \/
  (o_rank o = RTable /\ o_id o = ("table:" +:+ o_table o)%string) \/
  (o_rank o <> RTable /\
   (has_char (Ascii.eqb ".") (nth 1 (split_char ":" (o_id o)) ""%string) = false \/
    exists k part, no_colon k = true /\ no_colon (o_table o +:+ "." +:+ part) = true /\ o_id o = (k +:+ String ":" (o_table o +:+ "." +:+ part))%string)).
Definition wf_schema (s : SchemaSpec) : Prop := wf_dict (tables s) /\ Forall (fun kv => wf_dict (t_fields (snd kv))) (tables s).

Lemma rename_all_nil sql : rename_all [] sql = sql.
Proof. done. Qed.
Lemma drop_app (a b : string) : drop (S (String.length a)) (a +:+ String "." b) = b.
Proof. induction a as [|c a IH]; [done|exact IH]. Qed.
Lemma has_char_mid (f : ascii -> bool) (a b : string) c : f c = true -> has_char f (a +:+ String c b) = true.
Proof. intros Hc. induction a as [|x a IH]; apply orb_true_iff; [by left|by right]. Qed.
Lemma renamed_same o : named o -> renamedObject o no_renames = o.
Proof.
  intros Hn. destruct o as [i k t deps create shape drop_ st dv vio nm]. unfold renamedObject. cbn [o_id o_rank o_table o_deps o_create o_shape o_drop o_stored o_derived o_violations o_name no_renames r_tables r_fields r_columns reversed map map_of fold_left get default app].
  f_equal.
  - unfold named in Hn. cbn [o_id o_rank o_table] in Hn. destruct (String.eqb t "") eqn:Et; [done|]. apply String.eqb_neq in Et.
    destruct (decide (k = RTable)) as [->|Hk].
    + destruct Hn as [?|[[_ ->]|[? _]]]; done.
    + destruct Hn as [?|[[? _]|[_ [Hd|(kind & part & Hc & Hp & ->)]]]]; [done|done|by rewrite Hd|].
      rewrite split_char_app, !split_char_none by done. cbn [app nth].
      change ("." +:+ part)%string with (String "." part). rewrite has_char_mid by done. cbn [negb]. rewrite drop_app.
      by destruct (includes COLUMN_RANKS kind).
  - induction deps as [|x deps IH]; [done|]. cbn [map]. by rewrite IH.
  - induction create as [|x create IH]; [done|]. cbn [map]. by rewrite IH.
  - by destruct shape.
Qed.

Lemma old_name_same {A} (was : option string) (d : dict A) name v : get d name = Some v -> old_name was d name = name.
Proof. unfold old_name. intros ->. by destruct was. Qed.
Lemma arm_renames_same f arms physical : arm_renames [] f f arms arms physical = physical.
Proof.
  unfold arm_renames. generalize arms at 1 as olds. intros olds. induction arms as [|t arms IH]; [done|]. cbn [fold_left get default].
  rewrite String.eqb_refl. cbn [negb]. by rewrite andb_false_r.
Qed.
Lemma renames_same s : wf_schema s -> renamesOf s s = inr no_renames.
Proof.
  intros [Hw Hf]. unfold renamesOf.
  assert (H1 : forall l acc, (forall kv, kv ∈ l -> kv ∈ tables s) -> each (rename_table s s) l acc = inr acc).
  { intros l. induction l as [|[name spec] l IH]; intros acc Hsub; [done|]. cbn [each].
    assert (E : rename_table s s acc (name, spec) = inr acc).
    { unfold rename_table. rewrite (old_name_same _ _ _ spec) by (apply in_get; [done|apply Hsub; by left]). by rewrite String.eqb_refl. }
    rewrite E. cbn [mbind Fx_bind]. apply IH. intros kv Hkv. apply Hsub. by right. }
  rewrite H1 by done. cbn [mbind Fx_bind].
  assert (Hfields : forall name spec fl, wf_dict (t_fields spec) -> (forall kv, kv ∈ fl -> kv ∈ t_fields spec) ->
      each (rename_field [] name spec spec) fl ([], []) = inr ([], [])).
  { intros name spec fl Hwf. induction fl as [|[f k] fl IHf]; intros Hfs; [done|]. cbn [each].
    assert (Hk : get (t_fields spec) f = Some k) by (apply in_get; [done|apply Hfs; by left]).
    assert (E : rename_field [] name spec spec ([], []) (f, k) = inr ([], [])).
    { unfold rename_field. rewrite (old_name_same _ _ _ k) by done. rewrite String.eqb_refl, Hk. cbn [mbind Fx_bind].
      destruct (arms_of (Some k)); [by rewrite arm_renames_same|done]. }
    rewrite E. cbn [mbind Fx_bind]. apply IHf. intros kv Hkv. apply Hfs. by right. }
  assert (H2 : forall l acc, (forall kv, kv ∈ l -> kv ∈ tables s) -> each (rename_columns s []) l acc = inr acc).
  { intros l. induction l as [|[name spec] l IH]; intros [fs cs] Hsub; [done|]. cbn [each].
    assert (Hin : (name, spec) ∈ tables s) by (apply Hsub; by left). rewrite Forall_forall in Hf. pose proof (Hf _ Hin) as Hwf. cbn [snd] in Hwf.
    assert (E : rename_columns s [] (fs, cs) (name, spec) = inr (fs, cs)).
    { unfold rename_columns. cbn [get default]. rewrite (in_get _ _ _ Hw Hin), Hfields by done. done. }
    rewrite E. cbn [mbind Fx_bind]. apply IH. intros kv Hkv. apply Hsub. by right. }
  by rewrite H2.
Qed.

Section Same.
Variable os : list SchemaObject.
Hypothesis ids_distinct : NoDup (map o_id os).
Hypothesis ids_named : Forall named os.
Lemma before_same : Rebuild.before_of os no_renames = by_id os.
Proof. unfold Rebuild.before_of. f_equal. rewrite <- (map_id os) at 2. apply map_ext_in. intros o Ho. apply renamed_same. rewrite Forall_forall in ids_named. apply ids_named. by apply list_elem_of_In. Qed.
Lemma widens_self o : widens o o = false.
Proof. unfold widens, shape_is. destruct (o_shape o) as [sh|]; [|by rewrite !andb_false_r]. destruct (String.eqb sh "int") eqn:E; [apply String.eqb_eq in E as ->; by rewrite !andb_false_r|by rewrite !andb_false_r]. Qed.
Lemma nothing_differs i : ~ Rebuild.differs os os no_renames i.
Proof. intros (old & n & Ho & Hn & Hd). rewrite before_same in Ho. congruence. Qed.
Lemma nothing_widens o : ~ Rebuild.widens_to os os no_renames o.
Proof.
  intros (old & Ho & Hg & _ & Hw). rewrite before_same, (by_id_in os o ids_distinct Ho) in Hg. injection Hg as <-. by rewrite widens_self in Hw.
Qed.
Lemma nothing_first i : ~ Rebuild.first os os no_renames i.
Proof.
  intros [Hd|(o & _ & _ & _ & [(t & _ & _ & Hd & _)|(_ & _ & t & _ & (t' & _ & _ & Hd & _) & _)])]; by apply nothing_differs in Hd.
Qed.
Lemma nothing_due x : ~ Rebuild.due os os no_renames x.
Proof.
  intros Hx. induction Hx as [i Hf|o w c _ _ _ _ Hw _ _|o c _ _ _ _ IH|i old Hin _ Hh|i old _ _ Hd _|o w c _ _ _ _ Hw _ _|o c _ _ _ _ _ _ IH]; try done.
  - by apply nothing_first in Hf.
  - by apply nothing_widens in Hw.
  - rewrite before_same in Hin. apply (in_get _ _ _ (wf_map_of _)) in Hin. apply by_id_get in Hin as [Ho _]. apply by_id_has in Ho.
    unfold has_own in Hh. by rewrite Ho in Hh.
  - by apply nothing_differs in Hd.
  - by apply nothing_widens in Hw.
Qed.
Lemma steps_same : steps_of (diff_of os os no_renames) no_renames = [].
Proof.
  assert (Hbefore : forall o, o ∈ os -> has_own (Rebuild.before_of os no_renames) (o_id o) = true) by (intros o Ho; rewrite before_same; by apply by_id_has).
  assert (Hc : created (diff_of os os no_renames) = []).
  { apply elem_of_nil_inv. intros o Ho. apply in_created in Ho as [Ho Hh]. by rewrite Hbefore in Hh. }
  assert (Hr : rebuilt (diff_of os os no_renames) = []).
  { apply elem_of_nil_inv. intros o Ho. apply in_rebuilt in Ho as (_ & Hch & _). apply (Rebuild.rebuilds_exactly_spec _ _ _ ids_distinct) in Hch. by apply nothing_due in Hch. }
  assert (Hw : widened (diff_of os os no_renames) = []).
  { apply elem_of_nil_inv. intros o Ho. apply in_widened in Ho as (_ & Hwi). apply Rebuild.widened_spec in Hwi as (w & Hw & _). by apply nothing_widens in Hw. }
  assert (Hd : dropped (diff_of os os no_renames) = []).
  { apply elem_of_nil_inv. intros o Ho. apply in_dropped in Ho as (Hg & Hh & _). rewrite before_same in Hg. unfold has_own in Hh. by rewrite Hg in Hh. }
  unfold steps_of. by rewrite Hc, Hr, Hw, Hd.
Qed.
End Same.

(** Planning a schema against itself plans nothing: no step, no statement, the same fingerprint on both sides, even for
    tables and fields that still carry the name they were once renamed from. *)
Theorem unchanged_plans_nothing s os : wf_schema s -> objects s (extra s) = inr os -> NoDup (map o_id os) -> Forall named os ->
  exists p, plan number_text objects extra (Some s) s = inr p /\ p_steps p = [] /\ p_from p = Some (p_to p) /\ statements p [] = [].
Proof.
  intros Hw Ho Hnd Hn. unfold plan. rewrite (renames_same s Hw). cbn [mbind Fx_bind]. rewrite Ho. cbn [mbind Fx_bind].
  rewrite (steps_same os Hnd Hn). eexists. by split_and!.
Qed.
End Plans.
End Plans.

(** ** Renames. *)
Module RenameFacts.
Import Marks.
Lemma each_inv {A S} (f : S -> A -> Fx S) (I : S -> Prop) (l : list A) s s' :
  (forall s x s', x ∈ l -> I s -> f s x = inr s' -> I s') -> I s -> each f l s = inr s' -> I s'.
Proof.
  revert s. induction l as [|x l IH]; intros s Hstep Hs E; cbn [each] in E; [by injection E as <-|].
  destruct (f s x) as [|s1] eqn:E1; [done|]. cbn [mbind Fx_bind] in E. eapply IH; [|by eapply (Hstep s x s1); [left|..]|exact E].
  intros s2 y s3 Hy. apply Hstep. by right.
Qed.
Lemma values_set {A} (d : dict A) k v x : x ∈ values (set d k v) -> x = v \/ x ∈ values d.
Proof.
  unfold values. induction d as [|[k' v'] d IH]; cbn [set map snd].
  - intros Hx. apply list_elem_of_singleton in Hx. by left.
  - destruct (String.eqb k' k); cbn [map snd]; rewrite !elem_of_cons; [tauto|]. intros [->|Hx]; [by right; left|]. destruct (IH Hx); tauto.
Qed.
Lemma values_set_nodup {A} (d : dict A) k v : NoDup (values d) -> v ∉ values d -> NoDup (values (set d k v)).
Proof.
  unfold values. induction d as [|[k' v'] d IH]; cbn [set map snd]; intros Hnd Hv; [apply NoDup_singleton|].
  apply NoDup_cons in Hnd as [Hv' Hnd]. apply not_elem_of_cons in Hv as [Hne Hv]. destruct (String.eqb k' k); cbn [map snd]; constructor; auto.
  intros Hx. by destruct (values_set d k v v' Hx) as [->|?].
Qed.
Lemma entries_set {A} (d : dict A) k v kv : kv ∈ set d k v -> kv = (k, v) \/ kv ∈ d.
Proof.
  induction d as [|[k' v'] d IH]; cbn [set].
  - intros Hx. apply list_elem_of_singleton in Hx. by left.
  - destruct (String.eqb k' k) eqn:E; rewrite !elem_of_cons; [apply String.eqb_eq in E as ->; tauto|]. intros [->|Hx]; [by right; left|]. destruct (IH Hx); tauto.
Qed.
Lemma old_name_was {A} (was : option string) (d : dict A) name : old_name was d name <> name ->
  was = Some (old_name was d name) /\ get d name = None.
Proof. unfold old_name. destruct was as [w|]; [|done]. destruct (get d name); cbn [is_some]; done. Qed.
Lemma has_own_get {A} (d : dict A) k : has_own d k = true <-> is_some (get d k) = true.
Proof. done. Qed.

(** A table of the next schema that reads as another table the database holds, and that no other table takes. *)
Definition table_renamed (applied next : SchemaSpec) (n o : string) : Prop :=
  exists spec, (n, spec) ∈ tables next /\ t_was spec = Some o /\
    get (tables applied) n = None /\ has_own (tables applied) o = true /\ has_own (tables next) o = false.
Definition field_renamed (spec before : TableSpec) (f old : string) : Prop :=
  exists k, (f, k) ∈ t_fields spec /\ k_was k = Some old /\
    get (t_fields before) f = None /\ has_own (t_fields before) old = true /\ has_own (t_fields spec) old = false.

Lemma tables_sound applied next tbl : each (rename_table applied next) (tables next) [] = inr tbl ->
  NoDup (values tbl) /\ forall n o, (n, o) ∈ tbl -> table_renamed applied next n o.
Proof.
  apply (each_inv _ (fun tbl => NoDup (values tbl) /\ forall n o, (n, o) ∈ tbl -> table_renamed applied next n o)).
  - intros acc [name spec] acc' Hin [Hnd Hall] E. unfold rename_table in E. set (old := old_name _ _ _) in *.
    destruct (String.eqb old name) eqn:E1; [by injection E as <-|]. apply String.eqb_neq in E1.
    destruct (has_own (tables applied) old) eqn:E2; [|done]. cbn [negb] in E. destruct (_ || _) eqn:E3; [done|]. injection E as <-.
    apply orb_false_iff in E3 as [E3 E4]. apply includes_false in E4. destruct (old_name_was _ _ _ E1) as [Hw Hg]. split; [by apply values_set_nodup|].
    intros n o [[= -> ->]|Hno]%entries_set; [|by apply Hall]. exists spec. by split_and!.
  - split; [constructor|]. intros n o Hno. by apply elem_of_nil in Hno.
Qed.
Lemma fields_sound tbl name spec before own physical : each (rename_field tbl name spec before) (t_fields spec) ([], []) = inr (own, physical) ->
  NoDup (values own) /\ forall f old, (f, old) ∈ own -> field_renamed spec before f old.
Proof.
  intros E. change own with (fst (own, physical)).
  apply (each_inv _ (fun op : dict string * dict string => NoDup (values (fst op)) /\ forall f old, (f, old) ∈ fst op -> field_renamed spec before f old) _ _ _) in E; [done| |].
  - clear. intros [acc ph] [f k] [acc' ph'] Hin [Hnd Hall] E. cbn [fst] in *. unfold rename_field in E. set (old := old_name _ _ _) in *.
    destruct (String.eqb old f) eqn:E1; cbn [mbind Fx_bind] in E; [by injection E as <- _|]. apply String.eqb_neq in E1.
    destruct (get (t_fields before) old) as [prev|] eqn:E2; cbn [is_some negb] in E; [|done]. destruct (_ || _) eqn:E3; [done|]. injection E as <- _.
    apply orb_false_iff in E3 as [E3 E4]. apply includes_false in E4. destruct (old_name_was _ _ _ E1) as [Hw Hg]. split; [by apply values_set_nodup|].
    intros f' o [[= -> ->]|Hno]%entries_set; [|by apply Hall]. exists k. unfold has_own at 1. rewrite E2. by split_and!.
  - cbn [fst]. split; [constructor|]. intros f old Hno. by apply elem_of_nil in Hno.
Qed.

(** Renames never lose or merge names: every renamed table or field was declared so, is new to the database, and takes
    the place of one the database holds and the next schema no longer uses; no two take the same one. *)
Theorem renames_sound applied next r : renamesOf applied next = inr r ->
  (NoDup (values (r_tables r)) /\ forall n o, (n, o) ∈ r_tables r -> table_renamed applied next n o) /\
  (forall t own, (t, own) ∈ r_fields r -> NoDup (values own) /\
     exists spec before, (t, spec) ∈ tables next /\ get (tables applied) (default t (get (r_tables r) t)) = Some before /\
       forall f old, (f, old) ∈ own -> field_renamed spec before f old).
Proof.
  unfold renamesOf. destruct (each (rename_table applied next) (tables next) []) as [|tbl] eqn:E1; [done|]. cbn [mbind Fx_bind].
  destruct (each (rename_columns applied tbl) (tables next) ([], [])) as [|[fields columns]] eqn:E2; [done|]. intros [= <-]. cbn [r_tables r_fields fst].
  split; [by apply tables_sound|].
  refine (each_inv _ (fun fc : dict (dict string) * dict (dict string) => forall t own, (t, own) ∈ fst fc -> NoDup (values own) /\
     exists spec before, (t, spec) ∈ tables next /\ get (tables applied) (default t (get tbl t)) = Some before /\
       forall f old, (f, old) ∈ own -> field_renamed spec before f old) _ _ _ _ _ E2); [|by intros t own Hn; apply elem_of_nil in Hn].
  clear E1 E2. intros [fs cs] [name spec] [fs' cs'] Hin Hall E. cbn [fst] in *. unfold rename_columns in E.
  destruct (get (tables applied) _) as [before|] eqn:Eb; [|by injection E as <- _].
  destruct (each (rename_field tbl name spec before) (t_fields spec) ([], [])) as [|[own physical]] eqn:Ef; [done|]. cbn [mbind Fx_bind] in E.
  injection E as <- _. intros t o Hto. destruct (0 <? Z.of_nat (length own)); [|by apply Hall].
  apply entries_set in Hto as [[= -> ->]|Hto]; [|by apply Hall]. destruct (fields_sound _ _ _ _ _ _ Ef) as [Hnd Hfs]. split; [done|]. by exists spec, before.
Qed.

(** The name of a renamed table's primary key keeps to PostgreSQL's 63 bytes. *)
Lemma byte_length_app a b : byte_length (a +:+ b) = byte_length a + byte_length b.
Proof. induction a as [|c a IH]; [done|]. cbn [String.append byte_length]. change (String c a +:+ b) with (String c (a +:+ b)). cbn [byte_length]. rewrite IH. lia. Qed.
Lemma clip_bound prefix s : byte_length prefix <= 58 -> byte_length (clip prefix s) <= 58.
Proof.
  revert prefix. induction s as [|c s IH]; intros prefix Hp; [done|]. cbn [clip]. destruct (58 <? _) eqn:E; [done|]. bool_hyps. by apply IH.
Qed.
Lemma clip_short prefix s : byte_length prefix + byte_length s <= 58 -> clip prefix s = prefix +:+ s.
Proof.
  revert prefix. induction s as [|c s IH]; intros prefix Hp; cbn [clip]; [by rewrite append_nil_r|].
  assert (Hc : 0 <= byte_length s) by (clear; induction s as [|c s IH]; cbn [byte_length]; [lia|]; destruct (_ <? _)%N; lia).
  cbn [byte_length] in Hp. rewrite (proj2 (Z.ltb_ge 58 _)).
  - rewrite IH; [by rewrite append_assoc_s|]. rewrite byte_length_app. cbn [byte_length]. lia.
  - rewrite byte_length_app. cbn [byte_length]. lia.
Qed.
(** The primary key of a renamed table is addressed by the name PostgreSQL gave it: the table's name cut at 58 bytes
    and the suffix, at most 63 bytes, and the whole name when it fits. *)
Theorem primary_bounded table : byte_length (primary table) <= 63 /\ (byte_length table <= 58 -> primary table = (table +:+ "_pkey")%string).
Proof.
  unfold primary. split.
  - rewrite byte_length_app. pose proof (clip_bound "" table ltac:(done)). change (byte_length "_pkey") with 5. lia.
  - intros Hl. by rewrite clip_short.
Qed.
End RenameFacts.

(** ** Schemas of notes, their objects rendered as schema/ddl.ts renders them. *)
Module Notes.
Definition number_text (_ : number) : string := "0".
Definition extra (_ : SchemaSpec) : list SchemaObject := [].
Definition text_field (was : option string) : FieldSpec := MkFieldSpec "text" None was [].
Definition table_object (t : string) : SchemaObject :=
  MkObject ("table:" +:+ t) RTable t [] ["create table " +:+ q t +:+ " (" +:+ q "id" +:+ " uuid primary key)"]%string None
    (Some ("drop table if exists " +:+ q t +:+ " cascade")%string) true false None None.
Definition column_object (t f : string) (kind : string) : SchemaObject :=
  MkObject ("column:" +:+ t +:+ "." +:+ f) RColumn t [f] ["alter table " +:+ q t +:+ " add column " +:+ q f +:+ " " +:+ kind]%string (Some kind)
    (Some ("alter table " +:+ q t +:+ " drop column if exists " +:+ q f +:+ " cascade")%string) true false None None.
(** A generated column over the fields of its table, and an index over it. *)
Definition search_objects (t : string) (fields : list string) : list SchemaObject :=
  [MkObject ("column:" +:+ t +:+ ".bolt_search") RColumn t ("bolt_search"%string :: fields)
     ["alter table " +:+ q t +:+ " add column bolt_search tsvector generated always as (" +:+ join " " fields +:+ ") stored"]%string None
     (Some ("alter table " +:+ q t +:+ " drop column if exists bolt_search cascade")%string) false true None None;
   MkObject ("index:" +:+ t +:+ ".search") RIndex t ["bolt_search"%string] ["create index " +:+ q "search" +:+ " on " +:+ q t +:+ " using gin (bolt_search)"]%string None
     (Some ("drop index if exists " +:+ q "search")%string) false false None None].
Definition objects (s : SchemaSpec) (extra : list SchemaObject) : Fx (list SchemaObject) :=
  inr (flat_map (fun kv : string * TableSpec =>
    search_objects (fst kv) (keys (t_fields (snd kv))) ++ table_object (fst kv) :: map (fun fk : string * FieldSpec => column_object (fst kv) (fst fk) (k_kind (snd fk))) (t_fields (snd kv)))
    (tables s) ++ extra).
Definition schema_of (ts : list (string * dict FieldSpec)) : SchemaSpec := MkSchemaSpec (map (fun kv => (fst kv, MkTableSpec (snd kv) None [])) ts) [].
Definition first_notes : SchemaSpec := schema_of [("note", [("title", text_field None); ("body", text_field None)])]%string.
(** [title] becomes a number, and [tags] is new. *)
Definition next_notes : SchemaSpec :=
  schema_of [("note", [("title", MkFieldSpec "int" None None []); ("body", text_field None); ("tags", text_field None)])]%string.
Abbreviation plan_of := (plan number_text objects extra).
(** Steps without a schema's fingerprint, which takes long to compute. *)
Definition steps_from (applied next : SchemaSpec) : Fx (list Step) :=
  r ← renamesOf applied next; held ← objects applied []; after ← objects next []; inr (steps_of (diff_of held after r) r).
Definition ids_of (m : Fx (list Step)) : list string := match m with inr ss => map st_id ss | inl _ => [] end.

Lemma planned_steps a b ss : steps_from a b = inr ss ->
  plan_of (Some a) b = inr (MkPlan (Some (fingerprint number_text a)) (fingerprint number_text b) b ss).
Proof.
  unfold steps_from, plan. cbn [mbind Fx_bind]. destruct (renamesOf a b) as [|r]; [done|]. cbn [mbind Fx_bind objects].
  by intros [= <-].
Qed.
Definition steps_list (a b : SchemaSpec) : list Step := match steps_from a b with inr ss => ss | inl _ => [] end.
Lemma steps_listed a b : renamesOf a b <> inl (match renamesOf a b with inl e => e | inr _ => MkStoreError S_schema SP_derive "" end) ->
  steps_from a b = inr (steps_list a b).
Proof. unfold steps_list, steps_from. cbn [mbind Fx_bind]. by destruct (renamesOf a b). Qed.

Example retyped_steps : ids_of (steps_from first_notes next_notes) =
  ["replace:column:note.bolt_search"; "replace:index:note.search"; "replace:column:note.title"; "create:column:note.tags"]%string.
Proof. vm_compute. reflexivity. Qed.

Definition notes_plan : Plan := MkPlan (Some (fingerprint number_text first_notes)) (fingerprint number_text next_notes) next_notes
  (steps_list first_notes next_notes).
Lemma notes_planned : plan_of (Some first_notes) next_notes = inr notes_plan.
Proof. apply planned_steps, steps_listed. vm_compute. discriminate. Qed.

Lemma plan_carries_out_witness : plan_of (Some first_notes) next_notes = inr notes_plan /\
  exists r held after, objects next_notes [] = inr after /\ Carried.carries_out held after r notes_plan.
Proof.
  split; [exact notes_planned|].
  destruct (Plans.plan_carries_out number_text objects extra (Some first_notes) next_notes notes_plan notes_planned) as (r & held & after & Hm & Hrun).
  exists r, held, after. assert (Ha : objects next_notes [] = inr after) by (by destruct Hm as (_ & ? & _)). split; [exact Ha|].
  apply Hrun. assert (E : after = match objects next_notes [] with inr l => l | inl _ => [] end) by (by rewrite Ha).
  rewrite E. apply (bool_decide_eq_true_1 _). vm_compute. reflexivity.
Defined.
Lemma destruction_accepted_witness : plan_of (Some first_notes) next_notes = inr notes_plan /\
  unaccepted notes_plan (Some ["replace:column:note.title"%string]) = [] /\
  forall x, x ∈ drops_of notes_plan -> o_stored (snd x) = true -> fst x ∈ ["replace:column:note.title"%string].
Proof.
  split; [exact notes_planned|]. assert (Hu : unaccepted notes_plan (Some ["replace:column:note.title"%string]) = []).
  { unfold unaccepted, notes_plan. cbn [p_steps]. vm_compute. reflexivity. }
  split; [exact Hu|].
  exact (proj2 (Plans.destruction_accepted number_text objects extra (Some first_notes) next_notes notes_plan notes_planned) _ Hu).
Defined.
Lemma unchanged_plans_nothing_witness : exists p, plan_of (Some first_notes) first_notes = inr p /\ p_steps p = [].
Proof.
  destruct (Plans.unchanged_plans_nothing number_text objects extra first_notes
    (match objects first_notes [] with inr l => l | inl _ => [] end)) as (p & Hp & Hs & _).
  - split; [unfold wf_dict; apply (bool_decide_eq_true_1 _); vm_compute; reflexivity|].
    constructor; [unfold wf_dict; apply (bool_decide_eq_true_1 _); vm_compute; reflexivity|constructor].
  - reflexivity.
  - apply (bool_decide_eq_true_1 _). vm_compute. reflexivity.
  - repeat apply Forall_cons_2; [..|apply Forall_nil_2].
    + right; right. split; [done|]. right. by exists "column"%string, "bolt_search"%string.
    + right; right. split; [done|]. right. by exists "index"%string, "search"%string.
    + right; left. done.
    + right; right. split; [done|]. right. by exists "column"%string, "title"%string.
    + right; right. split; [done|]. right. by exists "column"%string, "body"%string.
  - by exists p.
Defined.

Definition objects_of (s : SchemaSpec) : list SchemaObject := match objects s [] with inr l => l | inl _ => [] end.
Lemma rebuilds_exactly_witness : NoDup (map o_id (objects_of next_notes)) /\
  "index:note.search"%string ∈ d_changed (diff_of (objects_of first_notes) (objects_of next_notes) no_renames) /\
  Rebuild.due (objects_of first_notes) (objects_of next_notes) no_renames (inl "index:note.search"%string).
Proof.
  assert (Hnd : NoDup (map o_id (objects_of next_notes))) by (apply (bool_decide_eq_true_1 _); vm_compute; reflexivity).
  assert (Hin : "index:note.search"%string ∈ d_changed (diff_of (objects_of first_notes) (objects_of next_notes) no_renames)) by (apply (bool_decide_eq_true_1 _); vm_compute; reflexivity).
  split; [exact Hnd|]. split; [exact Hin|].
  exact (proj1 (proj1 (Rebuild.rebuilds_exactly (objects_of first_notes) (objects_of next_notes) no_renames Hnd) _) Hin).
Defined.
Lemma renames_sound_witness :
  let applied := schema_of [("memo", [("text", text_field None)])]%string in
  let next := MkSchemaSpec [("note", MkTableSpec [("body", text_field (Some "text"%string))] (Some "memo"%string) [])]%string [] in
  renamesOf applied next = inr (MkRenames [("note", "memo")] [("note", [("body", "text")])] [("note", [("body", "text")])])%string /\
  RenameFacts.table_renamed applied next "note" "memo".
Proof.
  intros applied next. assert (E : renamesOf applied next = inr (MkRenames [("note", "memo")] [("note", [("body", "text")])] [("note", [("body", "text")])])%string) by (vm_compute; reflexivity).
  split; [exact E|]. apply (proj2 (proj1 (RenameFacts.renames_sound applied next _ E))). cbn [r_tables]. by left.
Defined.

(** The stored values are int32 before and wider after: the column is widened, and only derived data is rebuilt. *)
Example widened_steps :
  ids_of (steps_from (schema_of [("note", [("n", MkFieldSpec "int" None None [])])]%string) (schema_of [("note", [("n", MkFieldSpec "bigint" None None [])])]%string)) =
  ["replace:column:note.bolt_search"; "replace:index:note.search"; "widen:column:note.n"]%string.
Proof. vm_compute. reflexivity. Qed.

(** A table and its field of the same name. *)
Definition memo (f : string) (was : option string) : SchemaSpec := schema_of [("memo", [(f, text_field was)])]%string.
Example renamed_field_kept : match steps_from (memo "text" None) (memo "body" (Some "text"%string)) with
  | inr ss => List.filter (fun s => bool_decide (st_class s = Destructive)) ss = [] | inl _ => False end.
Proof. vm_compute. reflexivity. Qed.

(** A field renamed away from its own table's name takes the table with it: the planner renames identifiers of the held
    objects by name alone, so the table's own definition seems to have changed, and the plan of a mere rename drops the
    table, and every stored column of it, under a destructive step. *)
Theorem rename_replaces_table :
  exists p, plan_of (Some (memo "memo" None)) (memo "body" (Some "memo"%string)) = inr p /\
    exists s, s ∈ p_steps p /\ st_id s = "replace:table:memo"%string /\ st_class s = Destructive /\
      option_map o_id (st_drop s) = Some "table:memo"%string /\ option_map o_stored (st_drop s) = Some true.
Proof.
  eexists. split; [apply planned_steps, steps_listed; vm_compute; discriminate|]. cbn [p_steps].
  set (ss := steps_list _ _).
  assert (Hs : existsb (fun s => bool_decide (st_id s = "replace:table:memo"%string /\ st_class s = Destructive /\
      option_map o_id (st_drop s) = Some "table:memo"%string /\ option_map o_stored (st_drop s) = Some true)) ss = true) by (vm_compute; reflexivity).
  apply existsb_exists in Hs as (s & Hin & Hs). exists s. split; [by apply list_elem_of_In|]. by apply bool_decide_eq_true in Hs.
Qed.
End Notes.
