(* ===== verification/Scripts.v ===== *)
(** A migration file as text: [packages/store/src/migrate.ts] up to [checkFile]. A file is SQL with step markers in its
    comments. [sqlTokens] cuts SQL into words, quoted texts and symbols, so that a comment or a string is never taken for
    a command; [blocksOf] reads the step markers; [checksOf] and [executable] turn each check into a block that refuses;
    [migrationStatements] cuts what runs into its statements; [checkFile] is the file's admission. *)
From Stdlib Require Import Sorted.
From S2P Require Import Prelude Ir Hash Pages Evolve.
Open Scope Z_scope.

(** [migrationInvalid], [migrationChanged] and [schemaMoved], the failures of this file, at admission. *)
Definition refuse {A} (code : StoreCode) (message : string) : Fx A := fail code SP_admission message.
Definition invalid {A} (message : string) : Fx A := refuse S_migrationInvalid message.

Record MigrationFile := MkFile { f_name : string; f_sql : string }.
Definition checksumOf (file : MigrationFile) : string := sha256Hex (f_sql file).

(** ** Texts. *)

(** [s.indexOf(sub, from)], of a [sub] that is not empty. *)
Fixpoint search (sub s : string) : option nat :=
  if String.prefix sub s then Some 0%nat else match s with EmptyString => None | String _ s' => option_map S (search sub s') end.
Definition indexOf (sub s : string) (from : nat) : option nat := option_map (Nat.add from) (search sub (drop from s)).
(** What follows a prefix. *)
Definition strip (p s : string) : option string := if String.prefix p s then Some (drop (String.length p) s) else None.
Definition chars (c : ascii) : string := String c EmptyString.
Definition APOS : ascii := chr 39.
Definition DOLLAR : ascii := chr 36.
(** [text.toLowerCase()]. Only its ASCII letters matter where it is compared: no other letter below code 256 has one for its lower case. *)
Fixpoint lower (s : string) : string := match s with EmptyString => EmptyString | String c s' => String (fold_case c) (lower s') end.
(** [`'${text.replaceAll("'", "''")}'`]. *)
Definition sql_quoted (text : string) : string := chars APOS +:+ replace_char APOS (chars APOS +:+ chars APOS) text +:+ chars APOS.
(** [text.replaceAll("''", "'")]. *)
Fixpoint halved (s : string) : string :=
  match s with
  | EmptyString => EmptyString
  | String c s' =>
      match s' with
      | String d s2 => if Ascii.eqb c APOS && Ascii.eqb d APOS then String APOS (halved s2) else String c (halved s')
      | EmptyString => String c EmptyString
      end
  end.

(** ** Tokens of SQL. *)

Inductive TokenKind := KWord | KLiteral | KBody | KQuoted | KSymbol.
#[export] Instance TokenKind_eq_dec : EqDecision TokenKind.
Proof. solve_decision. Defined.
Record SqlToken := MkToken { tk_kind : TokenKind; tk_text : string; tk_at : nat }.

(** [[a-z_]] and [[a-z0-9_$]], without regard to case. *)
Definition word_start (c : ascii) : bool := is_word c && negb (is_digit c).
Definition word_char (c : ascii) : bool := is_word c || Ascii.eqb c DOLLAR.
(** The delimiter of a dollar body: two dollars, or a tag between two dollars. *)
Definition delimiter_at (rest : string) : option string :=
  match rest with
  | String c r =>
      if Ascii.eqb c DOLLAR then
        let '(tag, r') := span is_word r in
        match r' with
        | String d _ => if Ascii.eqb d DOLLAR && (match tag with String t _ => word_start t | EmptyString => true end)
                        then Some (String DOLLAR (tag +:+ chars DOLLAR)) else None
        | EmptyString => None
        end
      else None
  | EmptyString => None
  end.
(** The text before a quote ends in a letter e of its own. *)
Fixpoint ends_in_e (after_word : bool) (s : string) : bool :=
  match s with
  | EmptyString => false
  | String c s' => match s' with EmptyString => negb after_word && Ascii.eqb (fold_case c) "e" | _ => ends_in_e (is_word c) s' end
  end.
(** The index the scan of a quoted text stops at: its closing quote, or past the end. *)
Fixpoint quote_end (quote : ascii) (escapes : bool) (s : string) (i : nat) : nat :=
  match s with
  | EmptyString => i
  | String c s' =>
      if Ascii.eqb c quote then
        match s' with
        | String d s2 => if Ascii.eqb d quote then quote_end quote escapes s2 (2 + i) else i
        | EmptyString => i
        end
      else if Ascii.eqb c BACKSLASH && escapes then
        match s' with String _ s2 => quote_end quote escapes s2 (2 + i) | EmptyString => (2 + i)%nat end
      else quote_end quote escapes s' (S i)
  end.
(** The index after a block comment that is [depth] deep. *)
Fixpoint comment_end (depth : nat) (s : string) (i : nat) : nat :=
  match depth, s with
  | O, _ | _, EmptyString => i
  | S shallower, String c s' =>
      match s' with
      | String d s2 =>
          if Ascii.eqb c "/" && Ascii.eqb d "*" then comment_end (S depth) s2 (2 + i)
          else if Ascii.eqb c "*" && Ascii.eqb d "/" then comment_end shallower s2 (2 + i)
          else comment_end depth s' (S i)
      | EmptyString => comment_end depth s' (S i)
      end
  end.

(** One turn of the loop at index [i]: the token it pushes, and the next index. *)
Definition lex_turn (sql : string) (i : nat) : list SqlToken * nat :=
  let rest := drop i sql in
  match rest with
  | EmptyString => ([], i)
  | String c _ =>
      if is_space c then ([], S i)
      else if String.prefix "--" rest then
        ([], match indexOf (chars LF) sql (2 + i) with None => String.length sql | Some e => S e end)
      else if String.prefix "/*" rest then ([], comment_end 1 (drop (2 + i) sql) (2 + i))
      else match delimiter_at rest with
           | Some d =>
               let from := (i + String.length d)%nat in
               match indexOf d sql from with
               | None => ([MkToken KBody (slice from (String.length sql) sql) i], String.length sql)
               | Some e => ([MkToken KBody (slice from e sql) i], (e + String.length d)%nat)
               end
           | None =>
               if Ascii.eqb c APOS || Ascii.eqb c QUOTE then
                 let e := quote_end c (Ascii.eqb c APOS && ends_in_e false (slice 0 i sql)) (drop (S i) sql) (S i) in
                 ([MkToken (if Ascii.eqb c APOS then KLiteral else KQuoted) (slice (S i) e sql) i], S e)
               else if word_start c then
                 let w := fst (span word_char rest) in ([MkToken KWord (lower w) i], (i + String.length w)%nat)
               else ([MkToken KSymbol (chars c) i], S i)
           end
  end.
Fixpoint tokens_from (fuel : nat) (sql : string) (i : nat) : list SqlToken :=
  match fuel with
  | O => []
  | S f => if (i <? String.length sql)%nat then let '(ts, i') := lex_turn sql i in ts ++ tokens_from f sql i' else []
  end.
Definition sqlTokens (sql : string) : list SqlToken := tokens_from (String.length sql) sql 0.

Definition is_kind (k : TokenKind) (t : SqlToken) : bool := bool_decide (tk_kind t = k).
Definition is_semi (t : SqlToken) : bool := is_kind KSymbol t && String.eqb (tk_text t) ";".
(** The runs of tokens between the semicolons, none of them empty. *)
Definition add_token (sts : list (list SqlToken)) (t : SqlToken) : list (list SqlToken) :=
  if is_semi t then sts ++ [[]] else match last sts with Some s => removelast sts ++ [s ++ [t]] | None => sts end.
Definition sqlStatements (sql : string) : list (list SqlToken) :=
  List.filter (fun s => negb (match s with [] => true | _ => false end)) (fold_left add_token (sqlTokens sql) [[]]).

(** ** Markers. *)

Definition not_space (c : ascii) : bool := negb (is_space c).
Definition is_blank (c : ascii) : bool := Ascii.eqb c " " || Ascii.eqb c (chr 9).
(** A step's line, [-- step <id> (<class>)], before trailing characters that satisfy [tail]. *)
Definition step_line (tail : ascii -> bool) (text : string) : option (string * string) :=
  match strip "-- step " text with
  | Some r =>
      let '(id, r) := span not_space r in
      match strip " (" r with
      | Some r =>
          let '(klass, r) := span is_word r in
          match strip ")" r with
          | Some r => if negb (String.eqb id "") && negb (String.eqb klass "") && all_chars tail r then Some (id, klass) else None
          | None => None
          end
      | None => None
      end
  | None => None
  end.
(** A line that is a key and one word: [-- accept: <id>] and [-- check: <name>]. *)
Definition named_line (key : string) (tail : ascii -> bool) (text : string) : option string :=
  match strip key text with
  | Some r => let '(name, r) := span not_space r in if negb (String.eqb name "") && all_chars tail r then Some name else None
  | None => None
  end.

Record Block := MkBlock { b_id : string; b_klass : string; b_accepted : bool }.
Definition opt_list {A} (o : option A) : list A := match o with Some x => [x] | None => [] end.
Definition block_turn (st : list Block * option Block) (text : string) : list Block * option Block :=
  let '(out, current) := st in
  match step_line is_space text with
  | Some (id, klass) => (out ++ opt_list current, Some (MkBlock id klass false))
  | None =>
      match named_line "-- accept: " is_space text, current with
      | Some id, Some b => (out, Some (if String.eqb id (b_id b) then MkBlock (b_id b) (b_klass b) true else b))
      | _, _ => st
      end
  end.
Definition blocksOf (file : MigrationFile) : list Block :=
  let '(out, current) := fold_left block_turn (split_char LF (f_sql file)) ([], None) in out ++ opt_list current.

(** The lines [^] and [$] of a multiline expression delimit, each with its index. *)
Definition line_break (c : ascii) : bool := Ascii.eqb c LF || Ascii.eqb c CR.
Fixpoint split_lines (s : string) : list string :=
  match s with
  | EmptyString => [EmptyString]
  | String x s' =>
      let r := split_lines s' in
      if line_break x then EmptyString :: r else match r with w :: r' => String x w :: r' | [] => [String x EmptyString] end
  end.
Fixpoint line_starts (i : nat) (ls : list string) : list (nat * string) :=
  match ls with [] => [] | l :: ls' => (i, l) :: line_starts (S (i + String.length l)) ls' end.
Definition lines_at (sql : string) : list (nat * string) := line_starts 0 (split_lines sql).

Record CheckBlock := MkCheck { c_name : string; c_query : string; c_start : nat; c_end : nat }.
Definition check_at (sql : string) (il : nat * string) : option CheckBlock :=
  match named_line "-- check: " is_blank (snd il) with
  | Some name =>
      let from := (fst il + String.length (snd il))%nat in
      let semi := find is_semi (sqlTokens (drop from sql)) in
      let end_ := match semi with Some t => (from + tk_at t)%nat | None => String.length sql end in
      Some (MkCheck name (trim (slice from end_ sql)) (fst il) (match semi with Some _ => S end_ | None => end_ end))
  | None => None
  end.
Definition checksOf (sql : string) : list CheckBlock := omap (check_at sql) (lines_at sql).

(** ** What a host executes. *)

Definition TAB : string := chars (chr 9).
Definition check_body (c : CheckBlock) : string :=
  "declare n bigint; begin" +:+ Evolve.line +:+ TAB +:+ "execute " +:+
  sql_quoted ("select count(*) from (" +:+ c_query c +:+ Evolve.line +:+ ") store_check") +:+ " into n;" +:+ Evolve.line +:+ TAB +:+
  "if n > 0 then raise exception using errcode = 'BM005', message = format('check %s failed: %s row(s) returned', " +:+
  sql_quoted (c_name c) +:+ ", n); end if;" +:+ Evolve.line +:+ "end".
(** [`${delimiter.slice(0, -1)}_$`]. *)
Definition longer (delimiter : string) : string := takes (String.length delimiter - 1) delimiter +:+ "_$".
(** [while (body.includes(delimiter)) delimiter = ...]. *)
Fixpoint fresh_delimiter (fuel : nat) (body delimiter : string) : string :=
  match fuel with
  | O => delimiter
  | S f => if has_text delimiter body then fresh_delimiter f body (longer delimiter) else delimiter
  end.
Definition do_block (first body : string) : string :=
  let delimiter := fresh_delimiter (S (String.length body)) body first in
  "do " +:+ delimiter +:+ " " +:+ body +:+ " " +:+ delimiter +:+ ";".
Definition executable_turn (sql : string) (st : string * nat) (c : CheckBlock) : string * nat :=
  (fst st +:+ slice (snd st) (c_start c) sql +:+ do_block "$store_check$" (check_body c), c_end c).
Definition executable (file : MigrationFile) : string :=
  let sql := f_sql file in
  let '(out, from) := fold_left (executable_turn sql) (checksOf sql) (EmptyString, 0%nat) in
  out +:+ drop from sql.

Record MigrationStatement := MkMigrationStatement { ms_step : string; ms_hazard : string; ms_text : string; ms_writes : bool }.
Definition WRITES : list string := ["insert"; "update"; "delete"; "merge"]%string.
Definition word_texts (ts : list SqlToken) : list string := map tk_text (List.filter (is_kind KWord) ts).
Definition hd_word (ws : list string) : string := default EmptyString (head ws).
(** [file.name.replace(/\.sql$/, '')]. *)
Definition base_name (name : string) : string :=
  let n := (String.length name - 4)%nat in if String.eqb (drop n name) ".sql" then takes n name else name.
Record Marker := MkMarker { m_index : nat; m_id : string; m_klass : string }.
Definition markersOf (sql : string) : list Marker :=
  omap (fun il => option_map (fun ik => MkMarker (fst il) (fst ik) (snd ik)) (step_line is_blank (snd il))) (lines_at sql).
(** [markers.findLast((m) => m.index < at)]. *)
Definition marker_before (ms : list Marker) (at_ : nat) : option Marker := last (List.filter (fun m => (m_index m <? at_)%nat) ms).
Definition statement_of (file : MigrationFile) (sql : string) (at_ end_ : nat) (words : list string) : MigrationStatement :=
  let marker := marker_before (markersOf sql) at_ in
  MkMigrationStatement (match marker with Some m => m_id m | None => base_name (f_name file) end)
    (match marker with Some m => m_klass m | None => "data" end)
    (slice at_ end_ sql)
    (includes WRITES (hd_word words) || (String.eqb (hd_word words) "with" && existsb (includes WRITES) words)).
(** The statement being read: where it starts, and its words. *)
Definition close (file : MigrationFile) (sql : string) (open : option (nat * list string)) (end_ : nat) : list MigrationStatement :=
  match open with Some (at_, words) => [statement_of file sql at_ end_ words] | None => [] end.
Definition statement_turn (file : MigrationFile) (sql : string) (st : list MigrationStatement * option (nat * list string)) (t : SqlToken) :
    list MigrationStatement * option (nat * list string) :=
  let '(out, open) := st in
  if is_semi t then (out ++ close file sql open (tk_at t), None)
  else let '(at_, words) := default (tk_at t, []) open in
       (out, Some (at_, words ++ (if is_kind KWord t then [tk_text t] else []))).
Definition migrationStatements (file : MigrationFile) : list MigrationStatement :=
  let sql := executable file in
  let '(out, open) := fold_left (statement_turn file sql) (sqlTokens sql) ([], None) in
  out ++ close file sql open (String.length sql).

(** [impactCount(table, column)]. *)
Definition ident (name : string) : string := dq +:+ replace_char QUOTE (dq +:+ dq) name +:+ dq.
Definition impactCount (table : string) (column : option string) : string * string :=
  let count := match column with
               | None => "count(*)"%string
               | Some c => "count(*) filter (where to_jsonb(x) -> " +:+ sql_quoted c +:+ " <> 'null'::jsonb)"
               end in
  ("do $store_impact$ declare n bigint := 0; begin if to_regclass(" +:+ sql_quoted (ident table) +:+
     ") is not null then execute " +:+ sql_quoted ("select " +:+ count +:+ " from " +:+ ident table +:+ " x") +:+
     " into n; end if; perform set_config('store.impact', n::text, true); end $store_impact$",
   "select current_setting('store.impact')::float8 as n"%string).

(** ** A file's admission. *)

Definition HOST_BOUNDS : list string :=
  ["lock_timeout"; "statement_timeout"; "idle_in_transaction_session_timeout"; "transaction_timeout"]%string.
Definition at_text (ts : list SqlToken) (i : nat) : option string := option_map tk_text (nth_error ts i).
Definition at_kind (ts : list SqlToken) (i : nat) (k : TokenKind) : bool :=
  match nth_error ts i with Some t => is_kind k t | None => false end.
(** Whether the token before [next] sets or resets one of the host's bounds by name. *)
Definition sets_bound (token : SqlToken) (next : list SqlToken) : bool :=
  let name := lower (tk_text token) in
  (is_kind KWord token && (String.eqb name "set" || String.eqb name "reset") &&
   (let first := option_map lower (at_text next 0) in
    let setting := match first with
                   | Some w => if String.eqb w "local" || String.eqb w "session" then option_map lower (at_text next 1) else first
                   | None => None
                   end in
    includes HOST_BOUNDS (default EmptyString setting) ||
    (String.eqb name "reset" && match setting with Some s => String.eqb s "all" | None => false end))) ||
  (String.eqb name "set_config" && match at_text next 0 with Some s => String.eqb s "(" | None => false end && at_kind next 1 KLiteral &&
   includes HOST_BOUNDS (lower (default EmptyString (at_text next 1)))).
(** A token whose text [DO] or [EXECUTE] runs, and that text. *)
Definition runs_text (t : SqlToken) : bool := is_kind KBody t || is_kind KLiteral t.
Definition inner_text (t : SqlToken) : string := if is_kind KLiteral t then halved (tk_text t) else tk_text t.
(** A test of each token with those after it. *)
Fixpoint any_suffix (f : SqlToken -> list SqlToken -> bool) (ts : list SqlToken) : bool :=
  match ts with [] => false | t :: rest => f t rest || any_suffix f rest end.
Fixpoint changes_bounds (fuel : nat) (ts : list SqlToken) : bool :=
  match fuel with
  | O => false
  | S f =>
      any_suffix (fun t rest =>
        (is_kind KWord t || is_kind KQuoted t) &&
        (sets_bound t rest ||
         (String.eqb (lower (tk_text t)) "execute" && at_kind rest 0 KLiteral &&
          match rest with u :: _ => changes_bounds f (sqlTokens (inner_text u)) | [] => false end))) ts ||
      (match ts with t :: _ => String.eqb (tk_text t) "do" | [] => false end &&
       existsb (fun t => runs_text t && changes_bounds f (sqlTokens (inner_text t))) ts)
  end.
(** The texts nested in a statement are shorter at every level, so their levels are at most the length of the longest. *)
Definition text_bound (ts : list SqlToken) : nat :=
  fold_right (fun t n => if runs_text t then Nat.max (S (String.length (tk_text t))) n else n) 0%nat ts.
Definition changesHostBounds (ts : list SqlToken) : bool := changes_bounds (S (text_bound ts)) ts.

(** [NAME] and [number]. *)
Definition NAME (name : string) : bool :=
  all_chars is_digit (takes 4 name) && (4 <? String.length name)%nat &&
  match drop 4 name with
  | String c r =>
      Ascii.eqb c "_" &&
      (let '(stem, r') := span (fun c => is_digit c || Ascii.eqb c "_" || (is_word c && Ascii.eqb (fold_case c) c)) r in
       negb (String.eqb stem "") && String.eqb r' ".sql")
  | EmptyString => false
  end.
(** [Number.NaN] of another name is [None]. *)
Definition number_of (name : string) : option Z := if NAME name then Some (digits_val (takes 4 name)) else None.

Definition STEP_CLASSES : list string := ["additive"; "rename"; "backfill"; "validating"; "destructive"; "data"]%string.
Definition accept_line (b : Block) : string := "-- accept: " +:+ b_id b.
Definition block_fault (file : MigrationFile) (b : Block) : option string :=
  if includes STEP_CLASSES (b_klass b) then None
  else Some (f_name file +:+ ": unknown step class '" +:+ b_klass b +:+ "': it is one of " +:+ join ", " STEP_CLASSES).
Definition check_fault (file : MigrationFile) (c : CheckBlock) : option string :=
  if includes ["select"; "with"]%string (default EmptyString (at_text (sqlTokens (c_query c)) 0)) then None
  else Some (f_name file +:+ ": check " +:+ c_name c +:+ " needs one SELECT whose rows are the violations").
Definition unaccepted_blocks (bs : list Block) : list Block := List.filter (fun b => String.eqb (b_klass b) "destructive" && negb (b_accepted b)) bs.
Definition transaction_control (words : list string) : bool :=
  includes ["begin"; "commit"; "end"; "rollback"; "abort"; "savepoint"; "release"]%string (hd_word words) ||
  ((String.eqb (hd_word words) "start" || String.eqb (hd_word words) "prepare") &&
   match nth_error words 1 with Some w => String.eqb w "transaction" | None => false end).
Definition builds_concurrently (words : list string) : bool :=
  includes words "concurrently" &&
  (String.eqb (hd_word words) "reindex" ||
   ((String.eqb (hd_word words) "create" || String.eqb (hd_word words) "drop") && includes words "index")).
Definition statement_fault (file : MigrationFile) (statement : list SqlToken) : option string :=
  let words := word_texts statement in
  if transaction_control words then Some (f_name file +:+ ": transaction control cannot run inside an atomic migration")
  else if changesHostBounds statement then
    Some (f_name file +:+ ": lock_timeout, statement_timeout, idle_in_transaction_session_timeout and transaction_timeout belong to the host's bounded migration transaction")
  else if builds_concurrently words then
    Some (f_name file +:+ ": CONCURRENTLY cannot run in an atomic migration; use an ordinary index statement")
  else None.
(** The first fault of a list refuses. *)
Definition refuse_first {A} (fault : A -> option string) (l : list A) : Fx unit :=
  match first_some fault l with Some m => invalid m | None => mret tt end.
Definition checkFile (file : MigrationFile) : Fx MigrationFile :=
  if negb (match number_of (f_name file) with Some n => 1 <=? n | None => false end) then
    invalid ("'" +:+ f_name file +:+ "' is not NNNN_<name>.sql starting at 0001")
  else
    _ ← refuse_first (block_fault file) (blocksOf file);
    _ ← refuse_first (check_fault file) (checksOf (f_sql file));
    _ ← (match unaccepted_blocks (blocksOf file) with
         | [] => mret tt
         | bs => invalid (f_name file +:+ ": destructive steps need an accept line: " +:+ join ", " (map accept_line bs))
         end);
    _ ← refuse_first (statement_fault file) (sqlStatements (f_sql file));
    mret file.

(** ** The lexer ends, and reads SQL back from its parts. *)
Module Lex.

Lemma drop_add (a b : nat) (s : string) : drop (a + b) s = drop b (drop a s).
Proof. revert s. induction a as [|a IH]; intros s; [done|]. destruct s; [by destruct b|]. apply IH. Qed.
Lemma drop_past (pre s : string) (k : nat) : drop (String.length pre + k) (pre +:+ s) = drop k s.
Proof. by rewrite drop_add, drop_append. Qed.
Lemma slice_past (pre s : string) (a b : nat) :
  slice (String.length pre + a) (String.length pre + b) (pre +:+ s) = slice a b s.
Proof. unfold slice. rewrite drop_past. f_equal. lia. Qed.
Lemma prefix_split (p s : string) : String.prefix p s = true -> exists r, s = p +:+ r.
Proof. intros H%prefix_drop. eauto. Qed.
Lemma search_split (sub s : string) n : search sub s = Some n -> exists r, s = takes n s +:+ sub +:+ r /\ (n <= String.length s)%nat.
Proof.
  revert n. induction s as [|c s IH]; intros n; cbn [search]; destruct (String.prefix sub _) eqn:E.
  - apply prefix_split in E as (r & E). intros [= <-]. exists r. split; [exact E|cbn; lia].
  - done.
  - apply prefix_split in E as (r & E). intros [= <-]. exists r. split; [exact E|cbn; lia].
  - destruct (search sub s) as [m|]; [|done]. intros [= <-]. destruct (IH m eq_refl) as (r & H & Hm).
    exists r. split; [|cbn; lia]. cbn [takes]. rewrite append_cons. by rewrite <- H.
Qed.
Lemma search_app (sub a b : string) n : search sub a = Some n -> search sub (a +:+ b) = Some n.
Proof.
  revert n. induction a as [|c a IH]; intros n H.
  - destruct sub; [|done]. injection H as <-. by destruct b.
  - rewrite append_cons. cbn [search] in *. destruct (String.prefix sub (String c a)) eqn:E.
    + injection H as <-. apply prefix_split in E as (r & E). change (String c (a +:+ b)) with (String c a +:+ b).
      rewrite E, append_assoc_s, prefix_append. done.
    + destruct (search sub a) as [m|] eqn:Em; [|done]. injection H as <-. rewrite (IH m eq_refl).
      destruct (String.prefix sub (String c (a +:+ b))) eqn:E2; [|done]. exfalso.
      destruct (search_split _ _ _ Em) as (r & Ha & _).
      assert (String.length sub <= String.length a)%nat as Hl.
      { rewrite Ha, !length_append. lia. }
      apply prefix_split in E2 as (r2 & E2). destruct sub as [|d sub]; [done|]. rewrite append_cons in E2. injection E2 as -> E2.
      cbn [String.length] in Hl. assert (takes (String.length sub) (a +:+ b) = takes (String.length sub) a) as Ht.
      { clear -Hl. assert (String.length sub <= String.length a)%nat as H by lia. clear Hl. revert a H.
        induction (String.length sub) as [|k IH]; intros a H; [by destruct a, b|]. destruct a; cbn in H; [lia|]. rewrite append_cons. cbn [takes]. rewrite IH by lia. done. }
      rewrite E2, takes_append in Ht.
      assert (String.prefix (String d sub) (String d a) = true) as HH; [|by rewrite HH in E].
      cbn. destruct (ascii_dec d d); [|done]. rewrite Ht. rewrite <- (takes_drop (String.length sub) a) at 2. apply prefix_append.
Qed.

Lemma quote_end_ge quote e s i : (i <= quote_end quote e s i)%nat.
Proof.
  revert i. induction s as [s IH] using (induction_ltof1 _ String.length). unfold ltof in IH. intros i.
  destruct s as [|c s]; cbn [quote_end]; [lia|]. repeat case_match; subst; try lia;
  match goal with |- context [quote_end _ _ ?x ?j] => specialize (IH x ltac:(cbn; lia) j); lia end.
Qed.
Lemma comment_end_ge depth s i : (i <= comment_end depth s i)%nat.
Proof.
  revert depth i. induction s as [s IH] using (induction_ltof1 _ String.length). unfold ltof in IH. intros depth i.
  destruct depth as [|n], s as [|c s]; cbn [comment_end]; try lia. destruct s as [|d s2]; [cbn; lia|].
  destruct (_ && _); [|destruct (_ && _)]; (etrans; [|apply IH; cbn; lia]); lia.
Qed.
Lemma delimiter_length rest d : delimiter_at rest = Some d -> (2 <= String.length d)%nat.
Proof.
  destruct rest as [|c r]; unfold delimiter_at; [done|]. destruct (Ascii.eqb c DOLLAR); [|done]. destruct (span is_word r) as [tag r'].
  destruct r'; [done|]. destruct (_ && _); [|done]. intros [= <-]. cbn [String.length]. rewrite length_append. cbn. lia.
Qed.

(** Every turn of the loop goes on. *)
Lemma lex_turn_progress sql i : (i < String.length sql)%nat -> (i < snd (lex_turn sql i))%nat.
Proof.
  intros Hi. unfold lex_turn. destruct (drop i sql) as [|c r] eqn:Ed.
  { pose proof (length_drop i sql) as H. rewrite Ed in H. cbn in H. lia. }
  destruct (is_space c); [cbn; lia|]. destruct (String.prefix "--" _).
  { unfold indexOf. destruct (search _ _); cbn; lia. }
  destruct (String.prefix "/*" _). { cbn [snd]. pose proof (comment_end_ge 1 (drop (2 + i) sql) (2 + i)). lia. }
  destruct (delimiter_at _) as [d|] eqn:Edel.
  { apply delimiter_length in Edel. unfold indexOf. destruct (search _ _); cbn; lia. }
  destruct (_ || _).
  { cbn [snd]. match goal with |- context [quote_end ?q ?e ?s ?j] => pose proof (quote_end_ge q e s j) end. lia. }
  destruct (word_start c) eqn:Ew; cbn [fst snd]; [|lia].
  assert (word_char c = true) as Hw by (unfold word_start in Ew; apply andb_true_iff in Ew as [Ew _]; unfold word_char; by rewrite Ew).
  cbn [span]. rewrite Hw. destruct (span word_char r). cbn. lia.
Qed.
Lemma tokens_fuel fuel fuel' sql i : (String.length sql - i <= fuel)%nat -> (fuel <= fuel')%nat -> tokens_from fuel' sql i = tokens_from fuel sql i.
Proof.
  revert fuel' i. induction fuel as [|f IH]; intros fuel' i H H'.
  - destruct fuel'; [done|]. cbn [tokens_from]. rewrite (proj2 (Nat.ltb_ge _ _)) by lia. done.
  - destruct fuel' as [|f']; [lia|]. cbn [tokens_from]. destruct (i <? String.length sql)%nat eqn:E; [|done]. apply Nat.ltb_lt in E.
    pose proof (lex_turn_progress sql i E) as P. destruct (lex_turn sql i) as [ts i']. cbn [snd] in P. rewrite (IH f') by lia. done.
Qed.
(** The tokens from an index on. *)
Definition tokens_at (sql : string) (i : nat) : list SqlToken := tokens_from (String.length sql - i) sql i.
Lemma tokens_at_turn sql i : (i < String.length sql)%nat -> tokens_at sql i = fst (lex_turn sql i) ++ tokens_at sql (snd (lex_turn sql i)).
Proof.
  intros H. unfold tokens_at. pose proof (lex_turn_progress sql i H) as P. destruct (String.length sql - i)%nat as [|f] eqn:E; [lia|].
  cbn [tokens_from]. rewrite (proj2 (Nat.ltb_lt _ _)) by done. destruct (lex_turn sql i) as [ts i']. cbn [fst snd] in *. f_equal.
  apply tokens_fuel; lia.
Qed.
Lemma tokens_at_end sql i : (String.length sql <= i)%nat -> tokens_at sql i = [].
Proof. intros H. unfold tokens_at. replace (String.length sql - i)%nat with 0%nat by lia. done. Qed.
Lemma tokens_at_start sql : tokens_at sql 0 = sqlTokens sql.
Proof. unfold tokens_at, sqlTokens. by rewrite Nat.sub_0_r. Qed.
End Lex.

(** ** SQL and its parts: the grammar the lexer inverts. *)
Module Parts.
Import Lex.

(** The body of a block comment, with the comments inside it. *)
Inductive nested : string -> Prop :=
| nested_nil : nested ""
| nested_char c s : nested s -> String.prefix "/*" (String c (s +:+ "*/")) = false -> String.prefix "*/" (String c (s +:+ "*/")) = false ->
    nested (String c s)
| nested_comment a b : nested a -> nested b -> nested ("/*" +:+ a +:+ "*/" +:+ b).

Inductive Part :=
| PSpace (c : ascii) | PLine (s : string) | PBlock (s : string) | PBody (tag s : string)
| PLiteral (s : string) | PQuoted (s : string) | PWord (w : string) | PSymbol (c : ascii).
Definition dollars (tag : string) : string := String DOLLAR (tag +:+ chars DOLLAR).
Definition part_text (p : Part) : string :=
  match p with
  | PSpace c => chars c
  | PLine s => "--" +:+ s +:+ chars LF
  | PBlock s => "/*" +:+ s +:+ "*/"
  | PBody tag s => dollars tag +:+ s +:+ dollars tag
  | PLiteral s => sql_quoted s
  | PQuoted s => ident s
  | PWord w => w
  | PSymbol c => chars c
  end.
(** The token of a part: the source text inside its delimiters, a word in lower case. Spaces and comments have none. *)
Definition part_tokens (i : nat) (p : Part) : list SqlToken :=
  match p with
  | PSpace _ | PLine _ | PBlock _ => []
  | PBody _ s => [MkToken KBody s i]
  | PLiteral s => [MkToken KLiteral (replace_char APOS (chars APOS +:+ chars APOS) s) i]
  | PQuoted s => [MkToken KQuoted (replace_char QUOTE (dq +:+ dq) s) i]
  | PWord w => [MkToken KWord (lower w) i]
  | PSymbol c => [MkToken KSymbol (chars c) i]
  end.
Definition starts (f : ascii -> bool) (s : string) : bool := match s with String c _ => f c | EmptyString => false end.
(** When a part is read as itself between the texts before and after it. *)
Definition fits (before after : string) (p : Part) : Prop :=
  match p with
  | PSpace c => is_space c = true
  | PLine s => all_chars (fun c => negb (Ascii.eqb c LF)) s = true
  | PBlock s => nested s
  | PBody tag s => all_chars is_word tag = true /\ (tag = "" \/ starts word_start tag = true) /\
                   search (dollars tag) (s +:+ dollars tag) = Some (String.length s)
  | PLiteral s => (all_chars (fun c => negb (Ascii.eqb c BACKSLASH)) s = true \/ ends_in_e false before = false) /\
                  starts (Ascii.eqb APOS) after = false
  | PQuoted s => starts (Ascii.eqb QUOTE) after = false
  | PWord w => starts word_start w = true /\ all_chars word_char w = true /\ starts word_char after = false
  | PSymbol c => is_space c = false /\ Ascii.eqb c APOS = false /\ Ascii.eqb c QUOTE = false /\ word_start c = false /\
                 String.prefix "--" (String c after) = false /\ String.prefix "/*" (String c after) = false /\
                 delimiter_at (String c after) = None
  end.
Definition written (ps : list Part) : string := fold_right (fun p s => part_text p +:+ s) EmptyString ps.
Fixpoint placed (i : nat) (ps : list Part) : list SqlToken :=
  match ps with [] => [] | p :: ps' => part_tokens i p ++ placed (i + String.length (part_text p)) ps' end.
Fixpoint all_fit (before after : string) (ps : list Part) : Prop :=
  match ps with [] => True | p :: ps' => fits before (written ps' +:+ after) p /\ all_fit (before +:+ part_text p) after ps' end.

Lemma drop_here pre s : drop (String.length pre) (pre +:+ s) = s.
Proof. apply drop_append. Qed.
Lemma slice_before pre s : slice 0 (String.length pre) (pre +:+ s) = pre.
Proof. by apply slice_first. Qed.

Lemma comment_end_nested a : nested a -> forall depth b i,
  comment_end (S depth) (a +:+ "*/" +:+ b) i = comment_end depth b (i + String.length a + 2).
Proof.
  induction 1 as [|c s Hs IH H1 H2|x y Hx IHx Hy IHy]; intros depth b i.
  - change ("" +:+ "*/" +:+ b) with (String "*" (String "/" b)). cbn [comment_end String.length]. cbn [Ascii.eqb Bool.eqb andb]. f_equal. lia.
  - rewrite (append_cons c s). cbn [comment_end].
    assert (exists d r, s +:+ "*/" +:+ b = String d r /\ exists r', s +:+ "*/" = String d r') as (d & r & E & r' & E').
    { destruct s as [|d s]; [exists "*"%char, (String "/" b); split; [done|by eexists]|]. exists d, (s +:+ "*/" +:+ b). split; [done|by eexists]. }
    specialize (IH depth b (S i)). rewrite E in IH |- *. rewrite E' in H1, H2. cbn [String.prefix] in H1, H2.
    assert ((Ascii.eqb c "/" && Ascii.eqb d "*") = false) as ->.
    { apply andb_false_iff. destruct (ascii_dec "/" c) as [<-|]; [|left; by apply Ascii.eqb_neq]. destruct (ascii_dec "*" d) as [<-|]; [|right; by apply Ascii.eqb_neq]. by destruct r'. }
    assert ((Ascii.eqb c "*" && Ascii.eqb d "/") = false) as ->.
    { apply andb_false_iff. destruct (ascii_dec "*" c) as [<-|]; [|left; by apply Ascii.eqb_neq]. destruct (ascii_dec "/" d) as [<-|]; [|right; by apply Ascii.eqb_neq]. by destruct r'. }
    rewrite IH. cbn [String.length]. f_equal. lia.
  - rewrite !append_assoc_s. change ("/*" +:+ x +:+ "*/" +:+ y +:+ "*/" +:+ b) with (String "/" (String "*" (x +:+ "*/" +:+ y +:+ "*/" +:+ b))).
    cbn [comment_end]. cbn [Ascii.eqb Bool.eqb andb]. rewrite IHx, IHy, !length_append. cbn [String.length]. f_equal. lia.
Qed.
Lemma quote_end_text q e s after i : (q = APOS \/ q = QUOTE) -> (all_chars (fun c => negb (Ascii.eqb c BACKSLASH)) s = true \/ e = false) ->
  starts (Ascii.eqb q) after = false ->
  quote_end q e (replace_char q (chars q +:+ chars q) s +:+ String q after) i = (i + String.length (replace_char q (chars q +:+ chars q) s))%nat.
Proof.
  intros Hq He Ha. revert i. induction s as [|c s IH]; intros i.
  - cbn [replace_char]. change ("" +:+ String q after) with (String q after). cbn [quote_end String.length]. rewrite Ascii.eqb_refl.
    destruct after as [|d a]; [lia|]. cbn in Ha. rewrite Ascii.eqb_sym, Ha. lia.
  - cbn [replace_char]. assert (all_chars (fun c => negb (Ascii.eqb c BACKSLASH)) s = true \/ e = false) as He'.
    { destruct He as [He|He]; [left|by right]. cbn in He. by bool_hyps. }
    specialize (IH He'). destruct (Ascii.eqb c q) eqn:Ec.
    + change (quote_end q e (String q (String q (replace_char q (chars q +:+ chars q) s +:+ String q after))) i =
              (i + S (S (String.length (replace_char q (chars q +:+ chars q) s))))%nat). cbn [quote_end]. rewrite !Ascii.eqb_refl, IH.
      change (2 + i + String.length (replace_char q (chars q +:+ chars q) s) = i + S (S (String.length (replace_char q (chars q +:+ chars q) s))))%nat. lia.
    + change (quote_end q e (String c (replace_char q (chars q +:+ chars q) s +:+ String q after)) i =
              (i + S (String.length (replace_char q (chars q +:+ chars q) s)))%nat). cbn [quote_end]. rewrite Ec.
      assert ((Ascii.eqb c BACKSLASH && e) = false) as ->.
      { destruct He as [He| ->]; [|by rewrite andb_false_r]. cbn [all_chars] in He. bool_hyps. by rewrite H. }
      rewrite IH. change (S i + String.length (replace_char q (chars q +:+ chars q) s) = i + S (String.length (replace_char q (chars q +:+ chars q) s)))%nat. lia.
Qed.

Lemma word_start_plain c : word_start c = true ->
  is_space c = false /\ Ascii.eqb c "-" = false /\ Ascii.eqb c "/" = false /\ Ascii.eqb c DOLLAR = false /\
  Ascii.eqb c APOS = false /\ Ascii.eqb c QUOTE = false /\ word_char c = true.
Proof. destruct c as [[] [] [] [] [] [] [] []]; vm_compute; intros; repeat split; congruence. Qed.
Lemma prefix_head c s d e : Ascii.eqb c d = false -> String.prefix (String d e) (String c s) = false.
Proof. intros H. cbn. destruct (ascii_dec d c) as [<-|]; [by rewrite Ascii.eqb_refl in H|done]. Qed.
Lemma search_char c a b : all_chars (fun x => negb (Ascii.eqb x c)) a = true -> search (chars c) (a +:+ String c b) = Some (String.length a).
Proof.
  induction a as [|x a IH]; intros H.
  - change (search (chars c) (String c b) = Some 0%nat). pose proof (prefix_append (chars c) b) as H1.
    change (chars c +:+ b) with (String c b) in H1. cbn [search]. by rewrite H1.
  - cbn [all_chars] in H. apply andb_true_iff in H as [Hx Ha]. apply negb_true_iff in Hx. rewrite append_cons. cbn [search].
    unfold chars at 1. rewrite prefix_head by done. by rewrite (IH Ha).
Qed.
Lemma delimiter_dollars tag s : all_chars is_word tag = true -> (tag = "" \/ starts word_start tag = true) ->
  delimiter_at (dollars tag +:+ s) = Some (dollars tag).
Proof.
  intros Ht Hs. unfold dollars, delimiter_at. rewrite append_cons, append_assoc_s. change (chars DOLLAR +:+ s) with (String DOLLAR s).
  rewrite Ascii.eqb_refl, span_stop by done. rewrite Ascii.eqb_refl. destruct tag as [|t tag]; [done|].
  destruct Hs as [|Hs]; [done|]. cbn [starts] in Hs. by rewrite Hs.
Qed.
Lemma part_nonempty before after p : fits before after p -> (0 < String.length (part_text p))%nat.
Proof. intros H. destruct p as [| | | | | |w|]; try apply Nat.lt_0_succ. destruct w; [by destruct H|apply Nat.lt_0_succ]. Qed.
Lemma quoted_turn pre q s after i : (q = APOS \/ q = QUOTE) ->
  i = String.length pre ->
  (all_chars (fun c => negb (Ascii.eqb c BACKSLASH)) s = true \/ (Ascii.eqb q APOS && ends_in_e false pre) = false) -> starts (Ascii.eqb q) after = false ->
  let text := replace_char q (chars q +:+ chars q) s in
  lex_turn (pre +:+ (chars q +:+ text +:+ chars q) +:+ after) i =
  ([MkToken (if Ascii.eqb q APOS then KLiteral else KQuoted) text i], (i + String.length (chars q +:+ text +:+ chars q))%nat).
Proof.
  intros Hq -> He Ha text. unfold lex_turn. rewrite drop_here, slice_before, !append_assoc_s.
  change (chars q +:+ text +:+ chars q +:+ after) with (String q (text +:+ String q after)). cbn iota.
  assert (is_space q = false /\ Ascii.eqb q "-" = false /\ Ascii.eqb q "/" = false /\ Ascii.eqb q DOLLAR = false /\ (Ascii.eqb q APOS || Ascii.eqb q QUOTE) = true)
    as (H1 & H2 & H3 & H4 & H5) by (destruct Hq as [-> | ->]; done).
  rewrite H1, !prefix_head by done. unfold delimiter_at. rewrite H4, H5.
  replace (S (String.length pre)) with (String.length pre + 1)%nat by lia.
  rewrite drop_past. cbn [drop]. pose proof (quote_end_text q (Ascii.eqb q APOS && ends_in_e false pre) s after (String.length pre + 1) Hq He Ha) as E.
  fold text in E. rewrite E. f_equal; [|rewrite !length_append; cbn; lia]. do 2 f_equal.
  rewrite <- Nat.add_assoc, slice_past. change (String q (text +:+ String q after)) with (chars q +:+ text +:+ String q after).
  by apply slice_mid.
Qed.
Lemma lex_turn_dollar sql i r d : drop i sql = String DOLLAR r -> delimiter_at (String DOLLAR r) = Some d ->
  lex_turn sql i =
  (let from := (i + String.length d)%nat in
   match indexOf d sql from with
   | None => ([MkToken KBody (slice from (String.length sql) sql) i], String.length sql)
   | Some e => ([MkToken KBody (slice from e sql) i], (e + String.length d)%nat)
   end).
Proof.
  intros H Hd. unfold lex_turn. rewrite H. change (is_space DOLLAR) with false. rewrite !prefix_head by done. by rewrite Hd.
Qed.
Lemma turn_part pre p after : fits pre after p ->
  lex_turn (pre +:+ part_text p +:+ after) (String.length pre) = (part_tokens (String.length pre) p, (String.length pre + String.length (part_text p))%nat).
Proof.
  destruct p as [c|s|s|tag s|s|s|w|c]; cbn [fits part_text part_tokens].
  - intros H. unfold lex_turn. rewrite drop_here. change (chars c +:+ after) with (String c after). cbn iota. rewrite H. cbn. f_equal. lia.
  - intros H. unfold lex_turn. rewrite drop_here, !append_assoc_s. change ("--" +:+ ?x) with (String "-" (String "-" x)). cbn iota.
    cbn [is_space]. change (is_space "-") with false. change (String.prefix "--" (String "-" (String "-" (s +:+ chars LF +:+ after)))) with (String.prefix "--" ("--" +:+ (s +:+ chars LF +:+ after))).
    rewrite prefix_append. unfold indexOf. change (String "-" (String "-" (s +:+ chars LF +:+ after))) with ("--" +:+ (s +:+ chars LF +:+ after)).
    rewrite (Nat.add_comm 2), drop_past. change (drop 2 ("--" +:+ ?x)) with x. change (chars LF +:+ after) with (String LF after).
    rewrite search_char by done. cbn [option_map]. f_equal. cbn [String.length]. rewrite !length_append. cbn. lia.
  - intros H. unfold lex_turn. rewrite drop_here, !append_assoc_s. change ("/*" +:+ ?x) with (String "/" (String "*" x)). cbn iota.
    change (is_space "/") with false. rewrite (prefix_head "/" _ "-") by done. change (String "/" (String "*" ?x)) with ("/*" +:+ x). rewrite prefix_append.
    rewrite (Nat.add_comm 2), drop_past. change (drop 2 ("/*" +:+ ?x)) with x. rewrite (comment_end_nested s H 0 after).
    f_equal. cbn [String.length]. rewrite !length_append. assert (forall j, comment_end 0 after j = j) as -> by (by destruct after). cbn. lia.
  - intros (Ht & Hs & Hf). pose proof (delimiter_dollars tag (s +:+ dollars tag +:+ after) Ht Hs) as Hd.
    rewrite (lex_turn_dollar _ _ (tag +:+ chars DOLLAR +:+ s +:+ dollars tag +:+ after) (dollars tag)).
    2:{ rewrite drop_here, !append_assoc_s. unfold dollars at 1. rewrite append_cons, append_assoc_s. done. }
    2:{ rewrite <- Hd. f_equal. unfold dollars at 2. rewrite append_cons, append_assoc_s. done. }
    cbv zeta. unfold indexOf. rewrite !append_assoc_s, drop_past, drop_append, <- append_assoc_s, (search_app _ _ _ _ Hf). cbn [option_map].
    f_equal; [|rewrite !length_append; lia]. do 2 f_equal. rewrite <- Nat.add_assoc, slice_past, append_assoc_s. by apply slice_mid.
  - intros [He Ha]. apply (quoted_turn pre APOS); [by left|done| |done]. destruct He as [He|He]; [by left|right]. by rewrite He, andb_false_r.
  - intros Ha. apply (quoted_turn pre QUOTE); [by right|done| |done]. by right.
  - intros (Hs & Hw & Ha). destruct w as [|c w]; [done|]. cbn [starts] in Hs. pose proof (word_start_plain c Hs) as (H1 & H2 & H3 & H4 & H5 & H6 & H7).
    unfold lex_turn. rewrite drop_here, append_cons. cbn iota. rewrite H1, !prefix_head by done. unfold delimiter_at. rewrite H4, H5, H6, Hs. cbn [orb].
    assert (span word_char (String c (w +:+ after)) = (String c w, after)) as ->.
    { change (String c (w +:+ after)) with (String c w +:+ after). destruct after as [|d a]; [rewrite append_nil_r; by apply span_all|by apply span_stop]. }
    done.
  - intros (H1 & H2 & H3 & H4 & H5 & H6 & H7). unfold lex_turn. rewrite drop_here. change (chars c +:+ after) with (String c after). cbn iota.
    rewrite H1, H5, H6, H7, H2, H3, H4. cbn. f_equal. lia.
Qed.
Lemma tokens_at_parts pre after ps : all_fit pre after ps ->
  tokens_at (pre +:+ written ps +:+ after) (String.length pre) =
  placed (String.length pre) ps ++ tokens_at (pre +:+ written ps +:+ after) (String.length pre + String.length (written ps)).
Proof.
  revert pre. induction ps as [|p ps IH]; intros pre; cbn [all_fit written fold_right placed app].
  - intros _. cbn. by rewrite Nat.add_0_r.
  - intros [Hp Hps]. fold (written ps). rewrite append_assoc_s. rewrite tokens_at_turn.
    2:{ rewrite !length_append. pose proof (part_nonempty _ _ _ Hp). lia. }
    rewrite (turn_part _ _ _ Hp). cbn [fst snd]. rewrite <- app_assoc. f_equal.
    specialize (IH (pre +:+ part_text p) Hps). rewrite !append_assoc_s, !length_append in IH. rewrite length_append, Nat.add_assoc. exact IH.
Qed.
Lemma tokens_written ps : all_fit "" "" ps -> sqlTokens (written ps) = placed 0 ps.
Proof.
  intros Hfit. pose proof (tokens_at_parts "" "" ps Hfit) as H. change ("" +:+ written ps +:+ "") with (written ps +:+ "") in H. rewrite append_nil_r in H.
  cbn [String.length Nat.add] in H. rewrite <- tokens_at_start, H, tokens_at_end by done. by rewrite app_nil_r.
Qed.
(** C25. SQL written from its parts is read back as those parts: [sqlTokens] returns every word, quoted text, dollar body
    and symbol in order, each at the place it was written, and nothing of the spaces and the comments between them,
    nested ones included; a quoted text keeps its doubled quotes, a word is in lower case. *)
Theorem tokens_read_back (ps : list Part) (Hfit : all_fit "" "" ps) : sqlTokens (written ps) = placed 0 ps.
Proof. exact (tokens_written ps Hfit). Qed.
End Parts.

(** ** A check's block is one statement, whatever its query and its name hold. *)
Module Checks.
Import Lex Parts.

Lemma prefix_before sub a c b : has_char (Ascii.eqb c) sub = false -> String.prefix sub (a +:+ String c b) = String.prefix sub a.
Proof.
  revert a. induction sub as [|x sub IH]; intros a H; [by destruct a|]. cbn [has_char] in H. apply orb_false_iff in H as [Hx Hs].
  destruct a as [|y a].
  - change ("" +:+ String c b) with (String c b). rewrite prefix_head by done. done.
  - rewrite append_cons. cbn [String.prefix]. destruct (ascii_dec x y); [by apply IH|done].
Qed.
Lemma has_text_before sub a c b : sub <> "" -> has_char (Ascii.eqb c) sub = false ->
  has_text sub (a +:+ String c b) = has_text sub a || has_text sub b.
Proof.
  intros Hn Hc. assert (forall s, String.prefix sub (String c s) = false) as Hh.
  { intros s. destruct sub as [|x sub]; [done|]. cbn [has_char] in Hc. apply orb_false_iff in Hc as [Hx _]. by apply prefix_head. }
  induction a as [|y a IH].
  - change ("" +:+ String c b) with (String c b). cbn [has_text]. rewrite Hh. by destruct sub.
  - rewrite append_cons. cbn [has_text]. change (String y (a +:+ String c b)) with (String y a +:+ String c b).
    rewrite prefix_before, IH by done. by rewrite orb_assoc.
Qed.
Lemma search_last sub a c : sub <> "" -> has_char (Ascii.eqb c) sub = false -> has_text sub a = false ->
  search sub (a +:+ String c sub) = Some (S (String.length a)).
Proof.
  intros Hn Hc. assert (forall s, String.prefix sub (String c s) = false) as Hh.
  { intros s. destruct sub as [|x sub]; [done|]. cbn [has_char] in Hc. apply orb_false_iff in Hc as [Hx _]. by apply prefix_head. }
  assert (search sub sub = Some 0%nat) as Hsub.
  { pose proof (prefix_append sub "") as H. rewrite append_nil_r in H. destruct sub; [done|]. cbn [search]. by rewrite H. }
  induction a as [|y a IH]; intros Ht.
  - change ("" +:+ String c sub) with (String c sub). cbn [search]. by rewrite Hh, Hsub.
  - cbn [has_text] in Ht. apply orb_false_iff in Ht as [Hp Ht]. rewrite append_cons. cbn [search].
    change (String y (a +:+ String c sub)) with (String y a +:+ String c sub). rewrite prefix_before, Hp by done. by rewrite (IH Ht).
Qed.
Lemma search_skip sub c s : String.prefix sub (String c s) = false -> search sub (String c s) = option_map S (search sub s).
Proof. intros H. cbn [search]. by rewrite H. Qed.
Lemma has_text_length sub s : has_text sub s = true -> (String.length sub <= String.length s)%nat.
Proof.
  induction s as [|c s IH]; cbn [has_text]; intros [H|H]%orb_true_iff; try done; try (apply prefix_drop in H; rewrite H, length_append; lia).
  apply IH in H. cbn. lia.
Qed.

Lemma longer_dollars tag : longer (dollars tag) = dollars (tag +:+ "_").
Proof.
  unfold longer, dollars. cbn [String.length]. rewrite length_append. replace (S (String.length tag + String.length (chars DOLLAR)) - 1)%nat with (S (String.length tag)) by (cbn; lia).
  cbn [takes]. rewrite takes_append, !append_cons. f_equal. by rewrite append_assoc_s.
Qed.
Definition good_tag (tag : string) : Prop := all_chars is_word tag = true /\ starts word_start tag = true.
Lemma good_longer tag : good_tag tag -> good_tag (tag +:+ "_").
Proof. intros [H1 H2]. split; [by rewrite all_chars_append, H1|]. by destruct tag. Qed.
(** The loop over delimiters ends at one the body does not hold. *)
Lemma fresh_delimiter_fresh fuel body tag : good_tag tag -> (String.length body < fuel + String.length (dollars tag))%nat ->
  exists tag', fresh_delimiter fuel body (dollars tag) = dollars tag' /\ good_tag tag' /\ has_text (dollars tag') body = false.
Proof.
  revert tag. induction fuel as [|f IH]; intros tag Ht Hl; cbn [fresh_delimiter].
  - exists tag. repeat split; try apply Ht. destruct (has_text _ _) eqn:E; [|done]. apply has_text_length in E. lia.
  - destruct (has_text _ _) eqn:E; [|by exists tag]. rewrite longer_dollars. apply IH; [by apply good_longer|].
    unfold dollars in *. cbn [String.length] in *. rewrite !length_append in *. cbn. cbn in Hl. lia.
Qed.
Lemma no_space_dollars tag : all_chars is_word tag = true -> has_char (Ascii.eqb " ") (dollars tag) = false.
Proof.
  intros H. unfold dollars. cbn [has_char]. apply orb_false_iff. split; [done|]. rewrite has_char_all. apply negb_false_iff. rewrite all_chars_append.
  apply andb_true_iff. split; [|done].
  eapply all_chars_impl; [|exact H]. intros c Hc. apply negb_true_iff. destruct (Ascii.eqb " " c) eqn:E; [|done]. by apply Ascii.eqb_eq in E as <-.
Qed.
Definition block_parts (tag body : string) : list Part := [PWord "do"; PSpace " "; PBody tag (" " +:+ body +:+ " "); PSymbol ";"].
Lemma block_fits pre tag body after : good_tag tag -> has_text (dollars tag) body = false -> all_fit pre after (block_parts tag body).
Proof.
  intros [H1 H2] Hb. cbn [all_fit block_parts fits]. repeat split; try done; [by right|].
  pose proof (no_space_dollars tag H1) as Hs. assert (dollars tag <> "") as Hn by done.
  rewrite !append_assoc_s. change (search (dollars tag) (String " " (body +:+ String " " (dollars tag))) = Some (S (String.length (body +:+ " ")))).
  rewrite search_skip by (by apply prefix_head). rewrite search_last by done.
  cbn [option_map]. rewrite length_append. cbn. f_equal. lia.
Qed.
Lemma do_block_parts first body tag : first = dollars tag -> good_tag tag ->
  exists tag', do_block first body = written (block_parts tag' body) /\ forall pre after, all_fit pre after (block_parts tag' body).
Proof.
  intros -> Ht. destruct (fresh_delimiter_fresh (S (String.length body)) body tag Ht) as (tag' & E & Ht' & Hf); [lia|].
  exists tag'. split; [|intros; by apply block_fits]. unfold do_block. rewrite E. unfold written, block_parts. cbn [fold_right part_text].
  rewrite !append_assoc_s. done.
Qed.

Lemma halved_cons c s : Ascii.eqb c APOS = false -> halved (String c s) = String c (halved s).
Proof. intros H. destruct s; [done|]. cbn [halved]. by rewrite H. Qed.
Lemma halved_quoted s : halved (replace_char APOS (chars APOS +:+ chars APOS) s) = s.
Proof.
  induction s as [|c s IH]; [done|]. cbn [replace_char]. destruct (Ascii.eqb c APOS) eqn:E.
  - apply Ascii.eqb_eq in E as ->. change ((chars APOS +:+ chars APOS) +:+ ?x) with (String APOS (String APOS x)). cbn [halved]. rewrite Ascii.eqb_refl. cbn [andb]. by rewrite IH.
  - change (String c "" +:+ ?x) with (String c x). rewrite halved_cons, IH by done. done.
Qed.
Lemma ends_space a x : ends_in_e a (x +:+ chars " ") = false.
Proof.
  revert a. induction x as [|c x IH]; intros a; [by destruct a|]. rewrite append_cons. cbn [ends_in_e].
  destruct (x +:+ chars " ") eqn:E; [by destruct x|]. apply IH.
Qed.

(** The tokens of a check's block: its query and its name are each one literal. *)
Definition sp : Part := PSpace " ".
Definition body_parts (query name : string) : list Part :=
  [PWord "declare"; sp; PWord "n"; sp; PWord "bigint"; PSymbol ";"; sp; PWord "begin"; PSpace LF; PSpace (chr 9); PWord "execute"; sp;
   PLiteral ("select count(*) from (" +:+ query +:+ Evolve.line +:+ ") store_check");
   sp; PWord "into"; sp; PWord "n"; PSymbol ";"; PSpace LF; PSpace (chr 9); PWord "if"; sp; PWord "n"; sp; PSymbol ">"; sp; PSymbol "0"; sp;
   PWord "then"; sp; PWord "raise"; sp; PWord "exception"; sp; PWord "using"; sp; PWord "errcode"; sp; PSymbol "="; sp; PLiteral "BM005";
   PSymbol ","; sp; PWord "message"; sp; PSymbol "="; sp; PWord "format"; PSymbol "("; PLiteral "check %s failed: %s row(s) returned";
   PSymbol ","; sp; PLiteral name; PSymbol ","; sp; PWord "n"; PSymbol ")"; PSymbol ";"; sp; PWord "end"; sp; PWord "if"; PSymbol ";";
   PSpace LF; PWord "end"]%string%char.
Ltac fit := repeat first [exact I | reflexivity | apply conj | (left; reflexivity) | (right; apply ends_space)].
Lemma body_fits query name : all_fit "" "" (body_parts query name).
Proof. cbn [all_fit body_parts fits sp]. fit. Qed.
Lemma check_body_written c : check_body c = written (body_parts (c_query c) (c_name c)).
Proof.
  unfold check_body, written, body_parts, sp, TAB. cbn [fold_right part_text].
  generalize (sql_quoted ("select count(*) from (" +:+ c_query c +:+ Evolve.line +:+ ") store_check")). generalize (sql_quoted (c_name c)).
  intros n q. reflexivity.
Qed.
Definition literals (ps : list Part) : list string := omap (fun p => match p with PLiteral s => Some s | _ => None end) ps.
Lemma placed_literal i ps t : t ∈ placed i ps -> tk_kind t = KLiteral -> halved (tk_text t) ∈ literals ps.
Proof.
  revert i. induction ps as [|p ps IH]; intros i; cbn [placed]; [by intros ?%elem_of_nil|]. rewrite elem_of_app. intros [H|H] Hk.
  - destruct p; cbn [part_tokens] in H; try (by apply elem_of_nil in H); apply list_elem_of_singleton in H as ->; try done.
    cbn [tk_text]. rewrite halved_quoted. by left.
  - destruct p; cbn [literals omap list_omap]; try right; by eapply IH.
Qed.
(** C21. The block a check becomes is one statement wherever it stands: whatever the query and the name hold, it reads as
    [do], one body and a semicolon, the delimiter being found after finitely many tries; in that body the query and the
    name are one literal each, whose text is the query counted and the name. *)
Theorem check_runs_alone (c : CheckBlock) (before after : string) :
  let block := do_block "$store_check$" (check_body c) in
  let sql := before +:+ block +:+ after in
  let i := String.length before in
  (exists j k, tokens_at sql i = [MkToken KWord "do" i; MkToken KBody (" " +:+ check_body c +:+ " ") j; MkToken KSymbol ";" k] ++
                                 tokens_at sql (i + String.length block)) /\
  sqlTokens (check_body c) = placed 0 (body_parts (c_query c) (c_name c)) /\
  (forall t, t ∈ sqlTokens (check_body c) -> tk_kind t = KLiteral ->
     halved (tk_text t) ∈ ["select count(*) from (" +:+ c_query c +:+ Evolve.line +:+ ") store_check"; "BM005";
                           "check %s failed: %s row(s) returned"; c_name c]%string).
Proof.
  intros block sql i.
  destruct (do_block_parts "$store_check$" (check_body c) "store_check") as (tag & E & Hf); [done|done|]. fold block in E.
  assert (sqlTokens (check_body c) = placed 0 (body_parts (c_query c) (c_name c))) as Hb.
  { rewrite check_body_written. apply tokens_written, body_fits. }
  split; [|split; [exact Hb|]].
  - pose proof (tokens_at_parts before after _ (Hf before after)) as H. rewrite <- E in H. fold sql i in H. rewrite H.
    cbn [block_parts placed part_tokens app]. by do 2 eexists.
  - rewrite Hb. intros t Ht Hk. exact (placed_literal _ _ _ Ht Hk).
Qed.
End Checks.

(** ** The statements reported are the statements run. *)
Module Statements.
Import Lex.

Definition at_of (st : list SqlToken) : nat := match st with t :: _ => tk_at t | [] => 0%nat end.

(** Tokens stand at increasing places. *)
Lemma lex_turn_at sql i t : t ∈ fst (lex_turn sql i) -> tk_at t = i.
Proof.
  unfold lex_turn. intros H. repeat (case_match; cbn [fst] in H); try (by apply elem_of_nil in H);
    apply list_elem_of_singleton in H as ->; done.
Qed.
Lemma lex_turn_one sql i : (length (fst (lex_turn sql i)) <= 1)%nat.
Proof. unfold lex_turn. repeat (case_match; cbn [fst length]); lia. Qed.
Lemma tokens_from_placed fuel sql i :
  Forall (fun t => i <= tk_at t < String.length sql)%nat (tokens_from fuel sql i) /\
  StronglySorted (fun t u => tk_at t < tk_at u)%nat (tokens_from fuel sql i).
Proof.
  revert i. induction fuel as [|f IH]; intros i; cbn [tokens_from]; [split; constructor|].
  destruct (i <? String.length sql)%nat eqn:E; [|split; constructor]. apply Nat.ltb_lt in E.
  pose proof (lex_turn_progress sql i E) as P. pose proof (lex_turn_at sql i) as A. pose proof (lex_turn_one sql i) as O.
  destruct (lex_turn sql i) as [ts i']. cbn [fst snd] in *. destruct (IH i') as [H1 H2].
  destruct ts as [|t [|u ts]]; cbn [app length] in *; [| |lia].
  - split; [|done]. eapply Forall_impl; [exact H1|]. intros t Ht. cbn in Ht. lia.
  - assert (tk_at t = i) as Et by (apply A; by left). split.
    + constructor; [lia|]. eapply Forall_impl; [exact H1|]. intros u Hu. cbn in Hu. lia.
    + constructor; [done|]. eapply Forall_impl; [exact H1|]. intros u Hu. cbn in Hu. lia.
Qed.

(** The runs of tokens between semicolons, each with where it ends. *)
Definition run_list (cur : list SqlToken) (e : nat) : list (list SqlToken * nat) := match cur with [] => [] | _ => [(cur, e)] end.
Fixpoint runs (cur : list SqlToken) (ts : list SqlToken) (e : nat) : list (list SqlToken * nat) :=
  match ts with
  | [] => run_list cur e
  | t :: ts' => if is_semi t then run_list cur (tk_at t) ++ runs [] ts' e else runs (cur ++ [t]) ts' e
  end.
Definition nonempty (s : list SqlToken) : bool := negb (match s with [] => true | _ => false end).
Lemma sqlStatements_runs ts done cur e :
  List.filter nonempty (fold_left add_token ts (done ++ [cur])) = List.filter nonempty done ++ map fst (runs cur ts e).
Proof.
  revert done cur. induction ts as [|t ts IH]; intros done cur; cbn [fold_left runs].
  - rewrite List.filter_app. f_equal. by destruct cur.
  - unfold add_token at 2. destruct (is_semi t).
    + rewrite IH, List.filter_app, map_app, <- app_assoc. f_equal. f_equal. by destruct cur.
    + rewrite last_snoc, removelast_last. by rewrite IH.
Qed.
Definition opened (cur : list SqlToken) : option (nat * list string) := match cur with [] => None | t :: _ => Some (tk_at t, word_texts cur) end.
Definition report (file : MigrationFile) (sql : string) (r : list SqlToken * nat) : MigrationStatement :=
  statement_of file sql (at_of (fst r)) (snd r) (word_texts (fst r)).
Lemma close_runs file sql cur e : close file sql (opened cur) e = map (report file sql) (run_list cur e).
Proof. by destruct cur. Qed.
Lemma word_texts_snoc cur t : word_texts (cur ++ [t]) = word_texts cur ++ (if is_kind KWord t then [tk_text t] else []).
Proof. unfold word_texts. rewrite List.filter_app, map_app. f_equal. cbn [List.filter]. by destruct (is_kind KWord t). Qed.
Lemma turn_open file sql out cur t : is_semi t = false -> statement_turn file sql (out, opened cur) t = (out, opened (cur ++ [t])).
Proof.
  intros H. unfold statement_turn. rewrite H. destruct cur as [|u cur]; cbn [opened app default].
  - unfold word_texts. cbn. by destruct (is_kind KWord t).
  - pose proof (word_texts_snoc (u :: cur) t) as W. cbn [app] in W. by rewrite W.
Qed.
Lemma statements_runs file sql ts out cur e :
  (let '(out, open) := fold_left (statement_turn file sql) ts (out, opened cur) in out ++ close file sql open e) =
  out ++ map (report file sql) (runs cur ts e).
Proof.
  revert out cur. induction ts as [|t ts IH]; intros out cur; cbn [fold_left runs].
  - by rewrite close_runs.
  - destruct (is_semi t) eqn:E.
    + unfold statement_turn at 2. rewrite E, close_runs. change None with (opened []). rewrite IH, map_app. by rewrite app_assoc.
    + by rewrite turn_open, IH.
Qed.
Lemma runs_bound b ts cur e : Forall (fun t => b <= tk_at t)%nat (cur ++ ts) -> Forall (fun r => b <= at_of (fst r))%nat (runs cur ts e).
Proof.
  revert cur. induction ts as [|t ts IH]; intros cur H; cbn [runs].
  - rewrite app_nil_r in H. destruct cur; constructor; [|constructor]. cbn. by inversion H.
  - destruct (is_semi t).
    + apply Forall_app in H as [H1 H2]. apply Forall_app. split; [|apply IH; by inversion H2]. destruct cur; constructor; [|constructor]. by inversion H1.
    + apply IH. by rewrite <- app_assoc.
Qed.
Lemma run_whole cur e : StronglySorted (fun t u => tk_at t < tk_at u)%nat cur -> Forall (fun t => tk_at t < e)%nat cur ->
  Forall (fun r => Forall (fun t => at_of (fst r) <= tk_at t < snd r)%nat (fst r)) (run_list cur e).
Proof.
  intros Hs He. destruct cur as [|t cur]; constructor; [|constructor]. cbn [fst snd at_of]. apply StronglySorted_inv in Hs as [_ Hs].
  inversion He; subst. constructor; [lia|]. rewrite Forall_forall in *. intros u Hu. specialize (Hs u Hu). specialize (H2 u Hu). cbn in *. lia.
Qed.
Lemma runs_placed ts cur e : StronglySorted (fun t u => tk_at t < tk_at u)%nat (cur ++ ts) -> Forall (fun t => tk_at t < e)%nat (cur ++ ts) ->
  Forall (fun r => Forall (fun t => at_of (fst r) <= tk_at t < snd r)%nat (fst r)) (runs cur ts e) /\
  StronglySorted (fun r r' => snd r < at_of (fst r'))%nat (runs cur ts e).
Proof.
  revert cur. induction ts as [|t ts IH]; intros cur Hs He; cbn [runs].
  - rewrite app_nil_r in *. split; [by apply run_whole|]. destruct cur; repeat constructor.
  - destruct (is_semi t) eqn:E; [|apply IH; by rewrite <- app_assoc].
    assert (Forall (fun u => tk_at u < tk_at t)%nat cur /\ StronglySorted (fun t u => tk_at t < tk_at u)%nat cur /\
            StronglySorted (fun t u => tk_at t < tk_at u)%nat (t :: ts)) as (H1 & H2 & H3).
    { clear -Hs. induction cur as [|u cur IHc]; cbn [app] in Hs; [repeat split; try constructor; by inversion Hs|].
      apply StronglySorted_inv in Hs as [Hs Hu]. destruct (IHc Hs) as (A & B & C). apply Forall_app in Hu as [Hu1 Hu2].
      repeat split; [|by constructor|done]. constructor; [by inversion Hu2|done]. }
    apply StronglySorted_inv in H3 as [H3 H4]. apply Forall_app in He as [_ He]. inversion He as [|? ? Ht Hts]; subst.
    destruct (IH [] H3 Hts) as [I1 I2]. split.
    + apply Forall_app. split; [by apply run_whole|done].
    + pose proof (runs_bound (S (tk_at t)) ts [] e) as Hb. specialize (Hb ltac:(eapply Forall_impl; [exact H4|]; intros u Hu; cbn in *; lia)).
      destruct cur as [|u cur]; [done|]. cbn [run_list app]. constructor; [done|].
      eapply Forall_impl; [exact Hb|]. intros r Hr. cbn in *. lia.
Qed.
(** What a migration reports is what it runs: [migrationStatements] answers one entry for each statement of the SQL
    the host executes, in order and none twice, under the last step marker before it; its text runs from its first token
    to the semicolon after it, so it holds exactly that statement's tokens, and the texts do not overlap. *)
Theorem statements_whole (file : MigrationFile) :
  let sql := executable file in
  exists rs : list (list SqlToken * nat),
    map fst rs = sqlStatements sql /\ migrationStatements file = map (report file sql) rs /\
    Forall (fun r => Forall (fun t => at_of (fst r) <= tk_at t < snd r)%nat (fst r)) rs /\
    StronglySorted (fun r r' => snd r < at_of (fst r'))%nat rs.
Proof.
  intros sql. exists (runs [] (sqlTokens sql) (String.length sql)).
  destruct (tokens_from_placed (String.length sql) sql 0) as [H1 H2]. split; [|split].
  - unfold sqlStatements. symmetry. exact (sqlStatements_runs (sqlTokens sql) [] [] (String.length sql)).
  - exact (statements_runs file sql (sqlTokens sql) [] [] (String.length sql)).
  - apply runs_placed; [done|]. eapply Forall_impl; [exact H1|]. intros t Ht. cbn in *. lia.
Qed.
End Statements.

(** ** What a host's bounds are guarded against, and a file's admission. *)
Module Guards.
Import Lex.

(** The bounds a host sets on the transaction of a migration. *)
Definition host_bound (s : string) : Prop :=
  s = "lock_timeout"%string \/ s = "statement_timeout"%string \/ s = "idle_in_transaction_session_timeout"%string \/ s = "transaction_timeout"%string.
(** The setting that the tokens after [SET] or [RESET] name, its scope aside. *)
Inductive setting : list SqlToken -> string -> Prop :=
| setting_bare u b : lower (tk_text u) <> "local"%string -> lower (tk_text u) <> "session"%string -> setting (u :: b) (lower (tk_text u))
| setting_scoped u v b : lower (tk_text u) = "local"%string \/ lower (tk_text u) = "session"%string -> setting (u :: v :: b) (lower (tk_text v)).
(** A token and those after it name a bound and change it: by [SET], by [RESET], by [RESET ALL], or by a call of
    [set_config] on the name in apostrophes. *)
Inductive names_bound : SqlToken -> list SqlToken -> Prop :=
| names_set t b s : tk_kind t = KWord -> lower (tk_text t) = "set"%string -> setting b s -> host_bound s -> names_bound t b
| names_reset t b s : tk_kind t = KWord -> lower (tk_text t) = "reset"%string -> setting b s -> host_bound s \/ s = "all"%string -> names_bound t b
| names_config t u v b : lower (tk_text t) = "set_config"%string -> tk_text u = "("%string -> tk_kind v = KLiteral ->
    host_bound (lower (tk_text v)) -> names_bound t (u :: v :: b).
(** The text of a literal, its doubled apostrophes halved, or of a dollar-quoted body. *)
Inductive holds_text : SqlToken -> string -> Prop :=
| holds_literal u : tk_kind u = KLiteral -> holds_text u (halved (tk_text u))
| holds_body u : tk_kind u = KBody -> holds_text u (tk_text u).
(** A statement that changes a host's bound it names, itself, in a literal it executes, or in a text of its [DO]. *)
Inductive changes : list SqlToken -> Prop :=
| changes_named a t b : tk_kind t = KWord \/ tk_kind t = KQuoted -> names_bound t b -> changes (a ++ t :: b)
| changes_executed a t u b : tk_kind t = KWord \/ tk_kind t = KQuoted -> lower (tk_text t) = "execute"%string ->
    tk_kind u = KLiteral -> changes (sqlTokens (halved (tk_text u))) -> changes (a ++ t :: u :: b)
| changes_done t ts u s : tk_text t = "do"%string -> u ∈ t :: ts -> holds_text u s -> changes (sqlTokens s) -> changes (t :: ts).

Lemma kind_spec k t : is_kind k t = true <-> tk_kind t = k.
Proof. apply bool_decide_eq_true. Qed.
Lemma named_kind t : is_kind KWord t || is_kind KQuoted t = true <-> tk_kind t = KWord \/ tk_kind t = KQuoted.
Proof. by rewrite orb_true_iff, !kind_spec. Qed.
Lemma bound_spec s : includes HOST_BOUNDS s = true <-> host_bound s.
Proof. rewrite includes_spec. unfold HOST_BOUNDS, host_bound. rewrite !elem_of_cons, elem_of_nil. tauto. Qed.
Lemma holds_text_spec u s : holds_text u s <-> runs_text u = true /\ inner_text u = s.
Proof.
  unfold runs_text, inner_text. split.
  - intros [v H|v H]; unfold is_kind; by rewrite H.
  - intros [H E]. destruct (is_kind KLiteral u) eqn:L; subst; [by apply holds_literal, kind_spec|]. apply holds_body, kind_spec. by rewrite orb_false_r in H.
Qed.
(** The setting as the guard reads it. *)
Definition setting_read (next : list SqlToken) : option string :=
  let first := option_map lower (at_text next 0) in
  match first with
  | Some w => if String.eqb w "local" || String.eqb w "session" then option_map lower (at_text next 1) else first
  | None => None
  end.
Lemma setting_spec b s : setting_read b = Some s <-> setting b s.
Proof.
  unfold setting_read, at_text. split.
  - destruct b as [|u b]; [done|]. cbn [nth_error option_map]. destruct (_ || _) eqn:E.
    + destruct b as [|v b]; [done|]. cbn [nth_error option_map]. intros [= <-]. apply setting_scoped. by rewrite orb_true_iff, !String.eqb_eq in E.
    + intros [= <-]. apply orb_false_iff in E as [E1%String.eqb_neq E2%String.eqb_neq]. by apply setting_bare.
  - intros [u c H1 H2|u v c H]; cbn [nth_error option_map].
    + by rewrite (proj2 (String.eqb_neq _ _) H1), (proj2 (String.eqb_neq _ _) H2).
    + assert (String.eqb (lower (tk_text u)) "local" || String.eqb (lower (tk_text u)) "session" = true) as ->; [|done]. by rewrite orb_true_iff, !String.eqb_eq.
Qed.
Lemma bound_read b : includes HOST_BOUNDS (default EmptyString (setting_read b)) = true <-> exists s, setting b s /\ host_bound s.
Proof.
  rewrite bound_spec. setoid_rewrite <- setting_spec. destruct (setting_read b) as [s|]; cbn [default].
  - split; [eauto|by intros (? & [= ->] & ?)].
  - split; [by intros [|[|[|]]]|by intros (? & ? & ?)].
Qed.
Lemma sets_bound_spec t b : sets_bound t b = true <-> names_bound t b.
Proof.
  unfold sets_bound. fold (setting_read b). rewrite orb_true_iff, !andb_true_iff, !orb_true_iff, bound_read, kind_spec, andb_true_iff, !String.eqb_eq.
  assert (match setting_read b with Some s => String.eqb s "all" | None => false end = true <-> setting b "all") as ->.
  { rewrite <- setting_spec. destruct (setting_read b); [rewrite String.eqb_eq|]; split; congruence. }
  split.
  - intros [[[Hk Hn] [(s & Hs & Hb)|[Hr Ha]]]|[[[Hn Ho] Hl] Hb]].
    + destruct Hn as [Hn|Hn]; [by eapply names_set|]. eapply names_reset; eauto.
    + eapply names_reset; eauto.
    + destruct b as [|u [|v b]]; try done. unfold at_kind, at_text in *. cbn [nth_error option_map default] in *.
      apply names_config; [done|by apply String.eqb_eq in Ho|by apply kind_spec in Hl|by apply bound_spec in Hb].
  - intros [v c s Hk Hn Hs Hb|v c s Hk Hn Hs [Hb| ->]|v u w c Hn Ho Hl Hb].
    + left. split; [by split; [|left]|]. left. eauto.
    + left. split; [by split; [|right]|]. left. eauto.
    + left. split; [by split; [|right]|]. by right.
    + right. unfold at_kind, at_text. cbn [nth_error option_map default]. rewrite Ho, kind_spec, bound_spec. done.
Qed.

Lemma length_slice a b s : (String.length (slice a b s) <= String.length s - a)%nat.
Proof.
  unfold slice. rewrite <- length_drop. generalize (drop a s). induction (b - a)%nat as [|n IH]; intros [|c r]; cbn; try lia. specialize (IH r). lia.
Qed.
Lemma length_halved s : (String.length (halved s) <= String.length s)%nat.
Proof.
  induction s as [s IH] using (induction_ltof1 _ String.length). unfold ltof in IH. destruct s as [|c [|d s]]; [done|cbn; lia|].
  change (halved (String c (String d s))) with (if Ascii.eqb c APOS && Ascii.eqb d APOS then String APOS (halved s) else String c (halved (String d s))). destruct (_ && _).
  - pose proof (IH s ltac:(cbn; lia)). cbn. lia.
  - pose proof (IH (String d s) ltac:(cbn; lia)). cbn [String.length] in *. lia.
Qed.
Lemma turn_text sql i t : (i < String.length sql)%nat -> t ∈ fst (lex_turn sql i) -> runs_text t = true -> (S (String.length (tk_text t)) <= String.length sql)%nat.
Proof.
  intros Hi Ht Hr. unfold lex_turn in Ht. destruct (drop i sql) as [|c r]; [by apply elem_of_nil in Ht|].
  destruct (is_space c); [by apply elem_of_nil in Ht|]. destruct (String.prefix "--" _); [by apply elem_of_nil in Ht|].
  destruct (String.prefix "/*" _); [by apply elem_of_nil in Ht|]. destruct (delimiter_at _) as [d|] eqn:Ed.
  - apply delimiter_length in Ed. cbv zeta in Ht. destruct (indexOf _ _ _) as [e|]; cbn [fst] in Ht; apply list_elem_of_singleton in Ht as ->; cbn [tk_text].
    + pose proof (length_slice (i + String.length d) e sql). lia.
    + pose proof (length_slice (i + String.length d) (String.length sql) sql). lia.
  - destruct (_ || _).
    + cbn [fst] in Ht. apply list_elem_of_singleton in Ht as ->. cbn [tk_text]. match goal with |- context [slice ?a ?b sql] => pose proof (length_slice a b sql) end. lia.
    + destruct (word_start c); cbn [fst] in Ht; apply list_elem_of_singleton in Ht as ->; done.
Qed.
Lemma token_text sql t : t ∈ sqlTokens sql -> runs_text t = true -> (S (String.length (tk_text t)) <= String.length sql)%nat.
Proof.
  unfold sqlTokens. generalize (String.length sql) at 1 as fuel. generalize 0%nat as i. intros i fuel. revert i.
  induction fuel as [|f IH]; intros i; cbn [tokens_from]; [by intros ?%elem_of_nil|]. destruct (i <? String.length sql)%nat eqn:E; [|by intros ?%elem_of_nil].
  apply Nat.ltb_lt in E. pose proof (turn_text sql i t E) as T. destruct (lex_turn sql i) as [ts i']. intros [H|H]%elem_of_app Hr; [by apply T|by eapply IH].
Qed.
Lemma text_bound_in ts t : t ∈ ts -> runs_text t = true -> (S (String.length (tk_text t)) <= text_bound ts)%nat.
Proof.
  induction ts as [|u ts IH]; [by intros ?%elem_of_nil|]. cbn [text_bound fold_right]. intros [->|H]%elem_of_cons Hr; [rewrite Hr; lia|].
  specialize (IH H Hr). fold (text_bound ts). destruct (runs_text u); lia.
Qed.
Lemma text_bound_le ts n : (forall t, t ∈ ts -> runs_text t = true -> S (String.length (tk_text t)) <= n)%nat -> (text_bound ts <= n)%nat.
Proof.
  induction ts as [|u ts IH]; cbn [text_bound fold_right]; [lia|]. intros H. fold (text_bound ts).
  assert (text_bound ts <= n)%nat by (apply IH; intros t Ht; apply H; by right). pose proof (H u ltac:(by left)). destruct (runs_text u); [|done]. specialize (H1 eq_refl). lia.
Qed.
(** One level down the bound is smaller. *)
Lemma inner_bound ts u : u ∈ ts -> runs_text u = true -> (text_bound (sqlTokens (inner_text u)) < text_bound ts)%nat.
Proof.
  intros Hu Hr. pose proof (text_bound_in ts u Hu Hr) as H. assert (String.length (inner_text u) <= String.length (tk_text u))%nat.
  { unfold inner_text. destruct (is_kind KLiteral u); [apply length_halved|lia]. }
  assert (text_bound (sqlTokens (inner_text u)) <= String.length (inner_text u))%nat by (apply text_bound_le, token_text). lia.
Qed.
Lemma any_suffix_spec f ts : any_suffix f ts = true <-> exists a t b, ts = a ++ t :: b /\ f t b = true.
Proof.
  induction ts as [|t ts IH]; cbn [any_suffix]; [split; [done|by intros ([|] & ? & ? & ? & _)]|]. rewrite orb_true_iff, IH. split.
  - intros [H|(a & u & b & -> & H)]; [by exists [], t, ts|by exists (t :: a), u, b].
  - intros ([|x a] & u & b & E & H); injection E as -> ->; [by left|right; by exists a, u, b].
Qed.
Lemma literal_runs u : tk_kind u = KLiteral -> runs_text u = true.
Proof. unfold runs_text, is_kind. intros ->. done. Qed.
Lemma changes_bounds_iff ts fuel : (S (text_bound ts) <= fuel)%nat -> changes_bounds fuel ts = true <-> changes ts.
Proof.
  assert (forall fuel ts, changes_bounds fuel ts = true -> changes ts) as Hs.
  { intros n. induction n as [|f IH]; intros us; [done|]. cbn [changes_bounds]. intros [H|H]%orb_true_iff.
    - apply any_suffix_spec in H as (a & t & b & -> & H). apply andb_true_iff in H as [Hk%named_kind [H|H]%orb_true_iff]; [by apply changes_named, sets_bound_spec|].
      apply andb_true_iff in H as [H Hc]. apply andb_true_iff in H as [He Hl]. apply String.eqb_eq in He. destruct b as [|u b]; [done|].
      unfold at_kind in Hl. cbn [nth_error] in Hl. unfold inner_text in Hc. rewrite Hl in Hc. apply kind_spec in Hl. apply changes_executed; [done..|by apply IH].
    - apply andb_true_iff in H as [Hd H]. destruct us as [|t us]; [done|]. apply String.eqb_eq in Hd.
      apply existsb_exists in H as (u & Hu%list_elem_of_In & [Hr Hc]%andb_true_iff). eapply changes_done; [done|exact Hu|by apply holds_text_spec|by apply IH]. }
  intros Hfuel. split; [apply Hs|]. intros H. revert fuel Hfuel.
  induction H as [a t b Hk Hb|a t u b Hk He Hl Hc IH|t us u s Hd Hu Hr Hc IH]; intros fuel Hf; (destruct fuel as [|f]; [lia|]); cbn [changes_bounds]; apply orb_true_iff.
  - left. apply any_suffix_spec. exists a, t, b. split; [done|]. apply named_kind in Hk. apply sets_bound_spec in Hb. by rewrite Hk, Hb.
  - left. apply any_suffix_spec. exists a, t, (u :: b). split; [done|]. apply named_kind in Hk. rewrite Hk, He, String.eqb_refl. unfold at_kind. cbn [nth_error].
    pose proof (inner_bound (a ++ t :: u :: b) u ltac:(set_solver) (literal_runs u Hl)) as Hb. unfold inner_text in *. rewrite (proj2 (kind_spec KLiteral u) Hl) in *.
    rewrite IH; [by rewrite orb_true_r|]. lia.
  - right. apply holds_text_spec in Hr as [Hr <-]. rewrite Hd, String.eqb_refl. apply existsb_exists. exists u. split; [by apply list_elem_of_In|]. rewrite Hr. apply IH.
    pose proof (inner_bound (t :: us) u Hu Hr). lia.
Qed.
Lemma changes_iff ts : changesHostBounds ts = true <-> changes ts.
Proof. by apply changes_bounds_iff. Qed.
(** C32. What the guard of the host's timeouts sees, it sees at every level of nesting, and it ends: [changesHostBounds] is
    true of a statement exactly when it names one of the four bounds in a [SET], a [RESET] or a [set_config] of a name in
    apostrophes, or resets all settings, itself, in a literal it executes, or in a text of a [DO] statement, at any depth; and
    looking deeper than its texts are long finds nothing more. A bound named otherwise is not seen
    ([Sample.dollar_name_unguarded]). *)
Theorem bounds_guarded (ts : list SqlToken) :
  (changesHostBounds ts = true <-> changes ts) /\
  (forall more, changes_bounds (S (text_bound ts) + more) ts = changesHostBounds ts).
Proof.
  split; [apply changes_iff|]. intros more. apply eq_true_iff_eq. rewrite changes_iff. apply changes_bounds_iff. lia.
Qed.

Lemma refuse_first_ok {A} (fault : A -> option string) l : refuse_first fault l = inr tt <-> forall x, x ∈ l -> fault x = None.
Proof. unfold refuse_first. rewrite <- first_some_none. by destruct (first_some fault l). Qed.
Lemma refuse_first_err {A} (fault : A -> option string) l e : refuse_first fault l = inl e -> exists m, e = MkStoreError S_migrationInvalid SP_admission m.
Proof. unfold refuse_first. destruct (first_some fault l); [|done]. intros [= <-]. by eexists. Qed.
Definition known_class (k : string) : Prop :=
  k = "additive"%string \/ k = "rename"%string \/ k = "backfill"%string \/ k = "validating"%string \/ k = "destructive"%string \/ k = "data"%string.
Lemma block_ok file b : block_fault file b = None <-> known_class (b_klass b).
Proof.
  assert (known_class (b_klass b) <-> includes STEP_CLASSES (b_klass b) = true) as ->.
  { rewrite includes_spec. unfold STEP_CLASSES, known_class. rewrite !elem_of_cons, elem_of_nil. tauto. }
  unfold block_fault. by destruct (includes _ _).
Qed.
Definition starts_query (c : CheckBlock) : Prop := exists w, at_text (sqlTokens (c_query c)) 0 = Some w /\ w ∈ ["select"; "with"]%string.
Lemma check_ok file c : check_fault file c = None <-> starts_query c.
Proof.
  unfold check_fault, starts_query. destruct (at_text _ 0) as [w|]; cbn [default].
  - assert (includes ["select"; "with"]%string w = true <-> exists w', Some w = Some w' /\ w' ∈ ["select"; "with"]%string) as <-.
    { rewrite includes_spec. split; [eauto|by intros (? & [= <-] & Hw)]. }
    unfold id. by destruct (includes _ w).
  - split; [done|]. by intros (? & [=] & _).
Qed.
(** The words of a statement open, end or mark a transaction. *)
Inductive controls : list string -> Prop :=
| controls_word w ws : w ∈ ["begin"; "commit"; "end"; "rollback"; "abort"; "savepoint"; "release"]%string -> controls (w :: ws)
| controls_start ws : controls ("start" :: "transaction" :: ws)%string
| controls_prepare ws : controls ("prepare" :: "transaction" :: ws)%string.
(** They build, rebuild or drop an index concurrently. *)
Inductive concurrent : list string -> Prop :=
| concurrent_reindex ws : "concurrently"%string ∈ ws -> concurrent ("reindex" :: ws)%string
| concurrent_create ws : "concurrently"%string ∈ ws -> "index"%string ∈ ws -> concurrent ("create" :: ws)%string
| concurrent_drop ws : "concurrently"%string ∈ ws -> "index"%string ∈ ws -> concurrent ("drop" :: ws)%string.
Lemma controls_spec ws : transaction_control ws = true <-> controls ws.
Proof.
  unfold transaction_control. rewrite orb_true_iff, andb_true_iff, orb_true_iff, includes_spec, !String.eqb_eq. split.
  - destruct ws as [|w ws]; cbn [hd_word head default nth_error].
    + intros [H%includes_spec|[[H|H] _]]; done.
    + intros [H|[Hw H]]; [by apply controls_word|]. destruct ws as [|v ws]; [done|]. cbn [nth_error] in H. apply String.eqb_eq in H as ->.
      destruct Hw as [Hw|Hw]; cbn in Hw; subst; [apply controls_start|apply controls_prepare].
  - intros [w us H|us|us]; cbn [hd_word head default nth_error]; [by left|right; split; [by left|done]|right; split; [by right|done]].
Qed.
Lemma concurrent_spec ws : builds_concurrently ws = true <-> concurrent ws.
Proof.
  unfold builds_concurrently. rewrite andb_true_iff, orb_true_iff, andb_true_iff, orb_true_iff, !includes_spec, !String.eqb_eq. split.
  - destruct ws as [|w ws]; cbn [hd_word head default]; [by intros [?%elem_of_nil _]|]. unfold id. rewrite !elem_of_cons.
    intros [Hc [->|[[->| ->] Hi]]]; destruct Hc as [Hc|Hc]; try done; [by apply concurrent_reindex|..]; destruct Hi as [Hi|Hi]; try done;
      [by apply concurrent_create|by apply concurrent_drop].
  - intros [us H|us H Hi|us H Hi]; cbn [hd_word head default]; unfold id; rewrite !elem_of_cons; tauto.
Qed.
(** What a migration may hold: a statement that leaves transactions, bounds and concurrent builds alone, by its words. *)
Definition may_run (st : list SqlToken) : Prop :=
  let words := map tk_text (List.filter (fun t => bool_decide (tk_kind t = KWord)) st) in
  ~ controls words /\ ~ changes st /\ ~ concurrent words.
Lemma statement_ok file st : statement_fault file st = None <-> may_run st.
Proof.
  unfold statement_fault, may_run. cbv zeta. fold (word_texts st). rewrite <- changes_iff, <- controls_spec, <- concurrent_spec.
  destruct (transaction_control _), (changesHostBounds st), (builds_concurrently _); split; try done; intros (H1 & H2 & H3); done.
Qed.
(** [NNNN_<name>.sql], from 0001 on. *)
Definition stem_char (c : ascii) : bool :=
  let n := N_of_ascii c in ((48 <=? n) && (n <=? 57) || (n =? 95) || (97 <=? n) && (n <=? 122))%N.
Definition numbered_name (name : string) : Prop :=
  exists digits stem, name = digits +:+ "_" +:+ stem +:+ ".sql" /\ String.length digits = 4%nat /\ all_chars is_digit digits = true /\
    1 <= digits_val digits /\ stem <> "" /\ all_chars stem_char stem = true.
Lemma stem_char_spec c : is_digit c || Ascii.eqb c "_" || (is_word c && Ascii.eqb (fold_case c) c) = stem_char c.
Proof. destruct c as [[] [] [] [] [] [] [] []]; vm_compute; reflexivity. Qed.
Lemma all_chars_ext f g s : (forall c, f c = g c) -> all_chars f s = all_chars g s.
Proof. intros H. induction s as [|c s IH]; [done|]. cbn [all_chars]. by rewrite H, IH. Qed.
Lemma numbered_spec name : (match number_of name with Some n => 1 <=? n | None => false end) = true <-> numbered_name name.
Proof.
  unfold number_of, NAME. split.
  - destruct (_ && _) eqn:E; [|done]. intros H%Z.leb_le. apply andb_true_iff in E as [[E1 E2%Nat.ltb_lt]%andb_true_iff E3].
    pose proof (takes_drop 4 name) as Hn. destruct (drop 4 name) as [|c s] eqn:Ed; [done|]. apply andb_true_iff in E3 as [Hc%Ascii.eqb_eq E3]. subst c.
    destruct (span _ s) as [stem s'] eqn:Es. apply andb_true_iff in E3 as [E3 E4%String.eqb_eq]. subst s'. apply negb_true_iff, String.eqb_neq in E3.
    apply span_append in Es as [-> Es]. exists (takes 4 name), stem. split_and!; [by rewrite <- Hn at 1| |done|done|done|].
    + pose proof (f_equal String.length Hn) as L. rewrite length_append in L. pose proof (f_equal String.length Ed) as L2. rewrite length_drop in L2. lia.
    + by rewrite <- (all_chars_ext _ _ _ stem_char_spec).
  - intros (ds & stem & -> & Hl & Hd & H1 & Hs & Hc).
    assert (takes 4 (ds +:+ "_" +:+ stem +:+ ".sql") = ds) as -> by (rewrite <- Hl; apply takes_append).
    assert (drop 4 (ds +:+ "_" +:+ stem +:+ ".sql") = String "_" (stem +:+ ".sql")) as -> by (rewrite <- Hl; apply drop_append).
    rewrite Hd, (proj2 (Nat.ltb_lt _ _)) by (rewrite !length_append, Hl; cbn; lia). cbn [andb]. rewrite Ascii.eqb_refl. cbn [andb].
    rewrite <- (all_chars_ext _ _ _ stem_char_spec) in Hc. change (stem +:+ ".sql") with (stem +:+ String "." "sql"). rewrite (span_stop _ stem "." "sql") by done.
    rewrite (proj2 (String.eqb_neq stem "") Hs). cbn [negb andb String.eqb]. by apply Z.leb_le.
Qed.
Lemma unaccepted_ok bs : unaccepted_blocks bs = [] <-> forall b, b ∈ bs -> b_klass b = "destructive"%string -> b_accepted b = true.
Proof.
  unfold unaccepted_blocks. split.
  - intros E b Hb Hd. destruct (b_accepted b) eqn:Ea; [done|]. exfalso. assert (b ∈ List.filter (fun b => String.eqb (b_klass b) "destructive" && negb (b_accepted b)) bs) as H.
    { apply Marks.elem_of_List_filter. by rewrite Hd, Ea. }
    rewrite E in H. by apply elem_of_nil in H.
  - intros H. destruct (List.filter _ bs) as [|b r] eqn:E; [done|]. exfalso. assert (b ∈ List.filter (fun b => String.eqb (b_klass b) "destructive" && negb (b_accepted b)) bs) as Hb by (rewrite E; by left).
    apply Marks.elem_of_List_filter in Hb as [Hb [Hd Ha]%andb_true_iff]. apply String.eqb_eq in Hd. by rewrite (H b Hb Hd) in Ha.
Qed.
(** Each loop of refusals holds or refuses as an invalid migration. *)
Lemma refuse_first_cases {A} (fault : A -> option string) (P : A -> Prop) l : (forall x, fault x = None <-> P x) ->
  (refuse_first fault l = inr tt /\ forall x, x ∈ l -> P x) \/
  (exists m, refuse_first fault l = inl (MkStoreError S_migrationInvalid SP_admission m) /\ ~ forall x, x ∈ l -> P x).
Proof.
  intros HP. destruct (refuse_first fault l) as [e|[]] eqn:E.
  - right. destruct (refuse_first_err _ _ _ E) as (m & ->). exists m. split; [done|]. intros H.
    assert (refuse_first fault l = inr tt) as W; [|congruence]. apply refuse_first_ok. intros x Hx. by apply HP, H.
  - left. split; [done|]. intros x Hx. apply HP. by apply (proj1 (refuse_first_ok fault l)).
Qed.
(** C15. What admission of a file checks, it checks of every part: a file is admitted exactly when its name is
    [NNNN_<name>.sql] from 0001 on, each of its steps is of one of the six classes, every destructive one has its accept line,
    every check begins a query, and no statement begins with a word that controls a transaction, names and changes one of
    the host's four bounds where the guard looks ([changes]), or builds or drops an index concurrently. Any other file is
    refused as an invalid migration. *)
Theorem file_admitted (file : MigrationFile) :
  let ok := numbered_name (f_name file) /\
    (forall b, b ∈ blocksOf file -> known_class (b_klass b)) /\
    (forall b, b ∈ blocksOf file -> b_klass b = "destructive"%string -> b_accepted b = true) /\
    (forall c, c ∈ checksOf (f_sql file) -> starts_query c) /\
    (forall st, st ∈ sqlStatements (f_sql file) -> may_run st) in
  (checkFile file = inr file /\ ok) \/ (exists m, checkFile file = inl (MkStoreError S_migrationInvalid SP_admission m) /\ ~ ok).
Proof.
  intros ok. unfold checkFile. pose proof (numbered_spec (f_name file)) as Hn.
  destruct (match number_of _ with Some _ => _ | None => _ end); cbn [negb].
  2:{ right. eexists. split; [done|]. intros [H _]. by apply Hn in H. }
  destruct (refuse_first_cases _ _ (blocksOf file) (block_ok file)) as [[-> Hb]|(m & -> & Hb)]; [|right; exists m; split; [done|unfold ok; tauto]].
  destruct (refuse_first_cases _ _ (checksOf (f_sql file)) (check_ok file)) as [[-> Hc]|(m & -> & Hc)]; [|right; exists m; split; [done|unfold ok; tauto]].
  cbn [mbind Fx_bind]. pose proof (unaccepted_ok (blocksOf file)) as Hu.
  destruct (unaccepted_blocks (blocksOf file)) as [|b bs]; [|right; eexists; split; [done|]; intros (_ & _ & H & _); by apply Hu in H].
  destruct (refuse_first_cases _ _ (sqlStatements (f_sql file)) (statement_ok file)) as [[-> Hs]|(m & -> & Hs)]; [|right; exists m; split; [done|unfold ok; tauto]].
  left. split; [done|]. unfold ok. split_and!; try done; [by apply Hn|by apply Hu].
Qed.
End Guards.

(** ** A file, and a way past the guard. *)
Module Sample.
Import Lex Parts Checks Guards.

Definition parts : list Part :=
  [PLine " commit; the word is a comment"; PWord "INSERT"; PSpace " "; PWord "into"; PSpace " "; PQuoted "a table"; PSpace LF;
   PWord "values"; PSymbol "("; PLiteral "it's; commit"; PSymbol ")"; PSymbol ";"; PBlock "x/*y*/z"; PWord "do"; PSpace " ";
   PBody "f" " begin; $$ "; PSymbol ";"]%string%char.
Lemma parts_fit : all_fit "" "" parts.
Proof.
  cbn [all_fit parts fits]. fit; [|right; reflexivity].
  apply (nested_char "x"); [|reflexivity|reflexivity]. apply (nested_comment "y" "z"); (apply nested_char; [apply nested_nil|reflexivity|reflexivity]).
Qed.
Lemma tokens_read_back_witness : all_fit "" "" parts /\ map tk_text (sqlTokens (written parts)) =
  ["insert"; "into"; "a table"; "values"; "("; "it''s; commit"; ")"; ";"; "do"; " begin; $$ "; ";"]%string.
Proof. split; [exact parts_fit|]. rewrite (tokens_read_back parts parts_fit). reflexivity. Defined.

Definition waits (quote : string) : MigrationFile :=
  MkFile "0001_wait.sql" ("do $$begin perform set_config(" +:+ quote +:+ "lock_timeout" +:+ quote +:+ ",'0',true); end$$").
(** A dollar-quoted name passes the guard of the host's bounds: a file that sets [lock_timeout] through [set_config]
    is refused when the name is written in apostrophes and admitted when the same string constant is dollar-quoted, since
    the guard reads a name of a [literal] token only and a dollar-quoted text is a [body] token. *)
Theorem dollar_name_unguarded :
  (exists m, checkFile (waits "'") = inl (MkStoreError S_migrationInvalid SP_admission m)) /\
  checkFile (waits "$x$") = inr (waits "$x$") /\
  (exists i j k, sqlTokens "set_config($x$lock_timeout$x$" =
     [MkToken KWord "set_config" i; MkToken KSymbol "(" j; MkToken KBody "lock_timeout" k]).
Proof. split; [eexists; vm_compute; reflexivity|]. split; [vm_compute; reflexivity|]. do 3 eexists. vm_compute. reflexivity. Qed.
End Sample.
