(* ===== verification/Migrations.v ===== *)
(** The history of a database's migrations: [packages/store/src/migrate.ts] from [orderedFiles] on. The committed files
    are a chain; a squash is a verified alternative for one prefix of it; the lock holds the checksums both were verified
    with. [migrationHistory] compares them with what a database applied and says what is still to run; [verify] and
    [verifySquash] write what it reads. *)
From Stdlib Require Import Sorted.
From Stdlib Require Qcanon HexString.
From stdpp Require Import countable.
From S2P Require Import Prelude Ir Hash Pages Evolve Scripts.
Open Scope Z_scope.

Definition changed {A} (message : string) : Fx A := refuse S_migrationChanged message.

(** ** Checksums, receipts and locks. *)

Record Applied := MkApplied { a_name : string; a_checksum : string }.
#[export] Instance Applied_eq_dec : EqDecision Applied.
Proof. solve_decision. Defined.
Record SquashReceipt := MkReceipt {
  sr_file : string; sr_checksum : string; sr_archive : string; sr_replaces : list Applied; sr_proof : string }.
Record MigrationLock := MkLock {
  l_snapshot : string; l_files : dict string; l_squashes : option (list SquashReceipt); l_physical : option (dict string) }.
(** [MigrationProofs]: what a lock holds beside the files. *)
Record MigrationProofs := MkProofs { p_squashes : option (list SquashReceipt); p_physical : option (dict string) }.

Definition applied_of (file : MigrationFile) : Applied := MkApplied (f_name file) (checksumOf file).
Definition appliedOf (files : list MigrationFile) : list Applied := map applied_of files.

(** [files.sort((a, b) => number(a.name) - number(b.name))]. A name without a number leaves the order to the engine; every
    list with such a name is refused after it is sorted. *)
Definition sort_number {A} (name : A -> string) (l : list A) : list A := sort_rank (fun x => default 0 (number_of (name x))) l.
Fixpoint check_order (i : Z) (files : list MigrationFile) : Fx unit :=
  match files with
  | [] => mret tt
  | file :: rest =>
      _ ← checkFile file;
      if bool_decide (number_of (f_name file) = Some (i + 1)) then check_order (i + 1) rest
      else invalid ("migrations are numbered from 0001 without gaps; " +:+ f_name file +:+ " is not " +:+ dec_of (i + 1))
  end.
Definition orderedFiles (files : list MigrationFile) : Fx (list MigrationFile) :=
  let ordered := sort_number f_name files in _ ← check_order 0 ordered; mret ordered.

(** ** What a squash may replace. *)

Fixpoint literal_rest (s : string) : option (string * string) :=
  match s with
  | EmptyString => None
  | String c s' =>
      if Ascii.eqb c APOS then
        match s' with
        | String d s2 => if Ascii.eqb d APOS then option_map (fun br => (String c (String d (fst br)), snd br)) (literal_rest s2) else Some (EmptyString, s')
        | EmptyString => Some (EmptyString, EmptyString)
        end
      else option_map (fun br => (String c (fst br), snd br)) (literal_rest s')
  end.
(** The query of the one [DO] body understood, the generated count of violations, its quotes still doubled. *)
Definition validation_query (body : string) : option string :=
  r ← strip "declare n bigint; begin" body; r ← spaces1 r; r ← strip "execute '" r;
  qr ← literal_rest r; r ← strip " into n;" (snd qr); r ← spaces1 r;
  r ← strip "if n > 0 then raise exception '" r; mr ← literal_rest r; r ← strip ", n; end if;" (snd mr); r ← spaces1 r;
  if String.eqb r "end" then Some (fst qr) else None.
Definition counts_rows (query : string) : bool :=
  match strip "select" (lower query) with
  | Some r => match spaces1 r with
              | Some r => existsb (fun p => String.prefix p r) ["count(*)"; "coalesce(sum(d.n - 1), 0)"; "coalesce(sum(n - 1), 0)"]%string
              | None => false
              end
  | None => false
  end.
Definition DO_DATA : list string := ["insert"; "update"; "delete"; "merge"; "copy"; "truncate"; "call"]%string.
Definition only_validates (statement : list SqlToken) : bool :=
  match find (is_kind KBody) statement with
  | Some b =>
      match option_map halved (validation_query (trim (tk_text b))) with
      | Some query =>
          let ts := sqlTokens query in
          counts_rows query && negb (existsb (includes DO_DATA) (word_texts ts)) && negb (existsb is_semi ts)
      | None => false
      end
  | None => false
  end.
Definition nth_word (words : list string) (i : nat) : string := default EmptyString (nth_error words i).
Definition generated_extension (statement : list SqlToken) : bool :=
  let words := word_texts statement in
  forallb (is_kind KWord) statement && (length words =? 6)%nat &&
  String.eqb (join " " (firstn 5 words)) "create extension if not exists" && includes ["vector"; "btree_gist"]%string (nth_word words 5).
(** A test of each word with the one before and the one after it. *)
Fixpoint any_word (f : option string -> string -> option string -> bool) (before : option string) (words : list string) : bool :=
  match words with [] => false | w :: rest => f before w (head rest) || any_word f (Some w) rest end.
Definition moves_data (words : list string) : bool :=
  any_word (fun before w after =>
    includes ["insert"; "merge"; "copy"; "truncate"; "call"]%string w ||
    ((String.eqb w "update" || String.eqb w "delete") && negb (includes ["on"; "before"; "after"]%string (default EmptyString before))) ||
    (String.eqb w "as" && includes ["select"; "with"; "values"; "table"; "execute"]%string (default EmptyString after)) ||
    String.eqb w "sequence" || String.eqb w "restart" ||
    (includes words "identity" && includes ["start"; "increment"; "minvalue"; "maxvalue"; "cache"; "cycle"]%string w)) None words.
Definition CREATED : list string :=
  ["table"; "index"; "unique"; "function"; "procedure"; "or"; "trigger"; "sequence"; "type"; "extension"]%string.
Definition stored_definition (words : list string) : bool :=
  String.eqb (hd_word words) "create" && (includes words "function" || includes words "procedure" || includes words "trigger").
Definition definition_head (words : list string) : bool :=
  includes ["alter"; "drop"; "comment"]%string (hd_word words) || (String.eqb (hd_word words) "create" && includes CREATED (nth_word words 1)).
Definition squash_fault (file : MigrationFile) (statement : list SqlToken) : option string :=
  let words := word_texts statement in
  if String.eqb (hd_word words) "create" && match nth_error words 1 with Some w => String.eqb w "extension" | None => false end then
    if generated_extension statement then None
    else Some (f_name file +:+ ": only generated vector/btree_gist extension creation can be replaced by a schema baseline")
  else if String.eqb (hd_word words) "do" then
    if only_validates statement then None else Some (f_name file +:+ ": an executed DO body cannot be replaced by a schema baseline")
  else if definition_head words && (stored_definition words || negb (moves_data words)) then None
  else Some (f_name file +:+ ": data-affecting or unclassified SQL cannot be replaced by a schema baseline").
Definition squash_file_fault (file : MigrationFile) : option string :=
  if existsb (fun b => String.eqb (b_klass b) "data") (blocksOf file) then
    Some (f_name file +:+ ": a data step cannot be replaced by a schema baseline")
  else first_some (squash_fault file) (sqlStatements (f_sql file)).
Definition checkSquashSources (files : list MigrationFile) : Fx (list MigrationFile) :=
  ordered ← orderedFiles files;
  match ordered with
  | [] => invalid "a squash needs a nonempty original prefix"
  | _ => _ ← refuse_first squash_file_fault ordered; mret ordered
  end.
Definition checkSquashBaseline (file : MigrationFile) : Fx (list MigrationFile) :=
  checkSquashSources [MkFile "0001_baseline.sql" (f_sql file)].

(** ** Histories. *)

Record Baseline := MkBaseline { bl_file : MigrationFile; bl_receipt : SquashReceipt }.
Definition bl_cutoff (b : Baseline) : nat := length (sr_replaces (bl_receipt b)).
Inductive Strategy := Original | Squash.
Record History := MkHistory { h_ordered : list MigrationFile; h_covered : nat; h_strategy : Strategy; h_pending : list MigrationFile }.
Definition refuse_if (b : bool) (e : Fx unit) : Fx unit := if b then e else mret tt.
Definition is_hex (c : ascii) : bool := is_digit c || (let n := N_of_ascii c in ((97 <=? n) && (n <=? 102))%N).
Definition opt_eqb (o : option string) (s : string) : bool := match o with Some t => String.eqb t s | None => false end.

Section Store.
(** [String(n)] of a finite number, and [a.localeCompare(b) < 0]: the language's and its collation's. *)
Variable number_text : number -> string.
Variable locale_lt : string -> string -> bool.

Definition applied_json (a : Applied) : Json := JObject [("name"%string, JString (a_name a)); ("checksum"%string, JString (a_checksum a))].
Definition applied_text (l : list Applied) : string := canonical number_text (JArray (map applied_json l)).
Definition archiveOf (files : list MigrationFile) : string := sha256Hex (applied_text (appliedOf files)).
(** [[...new Set(lines)].sort()]. *)
Definition sorted_lines (lines : list string) : list string := map fst (sort_by str_ltb (map (fun l => (l, tt)) (uniq lines))).
Definition physicalHash (lines : list string) : string := sha256Hex (canonical number_text (JArray (map JString (sorted_lines lines)))).
Definition comparePhysical (lines : list string) (expected : string) : Fx unit :=
  if String.eqb (physicalHash lines) expected then mret tt else changed "the live schema differs from its verified migration prefix".

Definition verifySquash (originals : list MigrationFile) (file : MigrationFile) (archived baseline : list string) : Fx SquashReceipt :=
  ordered ← checkSquashSources originals;
  _ ← checkFile file;
  _ ← checkSquashBaseline file;
  if negb (bool_decide (number_of (f_name file) = Some (Z.of_nat (length ordered)))) || existsb (fun o => String.eqb (f_name o) (f_name file)) ordered then
    invalid "a squash needs a distinct filename numbered at the end of its original prefix"
  else if negb (String.eqb (physicalHash archived) (physicalHash baseline)) then
    invalid "the squash baseline does not reproduce the archived schema"
  else mret (MkReceipt (f_name file) (checksumOf file) (archiveOf ordered) (appliedOf ordered) (physicalHash baseline)).

(** The files and the lock agree. *)
Definition known_of (ordered : list MigrationFile) : dict MigrationFile := map_of (map (fun f => (f_name f, f)) ordered).
Definition checkLocked (ordered : list MigrationFile) (lock : MigrationLock) (snapshot : option string) : Fx unit :=
  _ ← (match snapshot with
       | Some text => refuse_if (negb (String.eqb (sha256Hex text) (l_snapshot lock))) (changed "snapshot.json changed since the migrations were verified")
       | None => mret tt
       end);
  _ ← (match find (fun f => negb (opt_eqb (get (l_files lock) (f_name f)) (checksumOf f))) ordered with
       | Some f => changed (f_name f +:+ " changed since it was last verified; verify the migrations before applying them")
       | None => mret tt
       end);
  match find (fun name => negb (has_own (known_of ordered) name)) (keys (l_files lock)) with
  | Some name => changed ("the verified migration " +:+ name +:+ " is gone")
  | None => mret tt
  end.
Definition load_squash (loaded : dict MigrationFile) (file : MigrationFile) : Fx (dict MigrationFile) :=
  if has_own loaded (f_name file) then invalid ("duplicate squash file " +:+ f_name file) else mret (set loaded (f_name file) file).
(** One receipt of the lock, with its file and the prefix it replaces. *)
Definition take_receipt (ordered : list MigrationFile) (lock : MigrationLock) (loaded : dict MigrationFile) (baselines : dict Baseline) (receipt : SquashReceipt) :
    Fx (dict Baseline) :=
  let name := sr_file receipt in
  if has_own baselines name || has_own (known_of ordered) name then invalid ("duplicate migration identity " +:+ name)
  else match get loaded name with
  | None => changed ("the verified squash " +:+ name +:+ " is gone")
  | Some file =>
      _ ← checkFile file;
      _ ← checkSquashBaseline file;
      let n := length (sr_replaces receipt) in
      let prefix := firstn n ordered in
      _ ← refuse_if ((n =? 0)%nat || negb (bool_decide (number_of name = Some (Z.of_nat n))) ||
                     negb (String.eqb (applied_text (sr_replaces receipt)) (applied_text (appliedOf prefix))) ||
                     negb (String.eqb (sr_archive receipt) (archiveOf prefix)))
                    (invalid (name +:+ " does not replace an exact original prefix"));
      _ ← checkSquashSources prefix;
      _ ← refuse_if (negb (String.eqb (sr_checksum receipt) (checksumOf file)))
                    (changed (name +:+ " changed since its baseline was verified"));
      _ ← refuse_if (negb (all_chars is_hex (sr_proof receipt) && (String.length (sr_proof receipt) =? 64)%nat) ||
                     match get (default [] (l_physical lock)) name with Some p => negb (String.eqb p (sr_proof receipt)) | None => false end)
                    (invalid (name +:+ " has no consistent physical replay proof"));
      mret (set baselines name (MkBaseline file receipt))
  end.
(** The source of a history: the ordered originals and the verified baselines. *)
Definition source (files : list MigrationFile) (lock : MigrationLock) (snapshot : option string) (squashes : list MigrationFile) :
    Fx (list MigrationFile * dict Baseline) :=
  ordered ← orderedFiles files;
  _ ← checkLocked ordered lock snapshot;
  loaded ← each load_squash squashes [];
  baselines ← each (take_receipt ordered lock loaded) (default [] (l_squashes lock)) [];
  match find (fun f => negb (has_own baselines (f_name f))) squashes with
  | Some f => changed (f_name f +:+ " has no verified squash receipt")
  | None => mret (ordered, baselines)
  end.

(** The baseline a new database starts from: the longest, by name among equals. *)
Definition longer_first (a b : Baseline) : bool :=
  (bl_cutoff b <? bl_cutoff a)%nat ||
  ((bl_cutoff b =? bl_cutoff a)%nat && negb (locale_lt (f_name (bl_file b)) (f_name (bl_file a)))).
Fixpoint insert_first (x : Baseline) (l : list Baseline) : list Baseline :=
  match l with [] => [x] | y :: l' => if longer_first x y then x :: l else y :: insert_first x l' end.
Definition longest (baselines : dict Baseline) : option Baseline := head (fold_right insert_first [] (values baselines)).

Definition applied_fault (known : dict MigrationFile) (baselines : dict Baseline) (a : Applied) : option string :=
  match (match get known (a_name a) with Some f => Some f | None => option_map bl_file (get baselines (a_name a)) end) with
  | None => Some ("the database applied " +:+ a_name a +:+ ", which is gone")
  | Some f => if String.eqb (checksumOf f) (a_checksum a) then None
              else Some (a_name a +:+ " was applied with other text; an applied file never changes")
  end.
Fixpoint prefix_fault (rest : list MigrationFile) (originals : list Applied) : option string :=
  match originals with
  | [] => None
  | a :: originals' =>
      if match rest with f :: _ => String.eqb (f_name f) (a_name a) | [] => false end then prefix_fault (skipn 1 rest) originals'
      else Some ("the database migration history is not a prefix of the committed files at " +:+ a_name a)
  end.
(** What a ledger leaves to run. *)
Definition continue_ (ordered : list MigrationFile) (baselines : dict Baseline) (applied : list Applied) : Fx History :=
  let history := sort_number a_name applied in
  let is_baseline := fun a => has_own baselines (a_name a) in
  let used := List.filter is_baseline history in
  if (1 <? length used)%nat then invalid "a database cannot apply multiple squash baselines" else
  let baseline := match used with a :: _ => get baselines (a_name a) | [] => None end in
  let cutoff := match baseline with Some b => bl_cutoff b | None => 0%nat end in
  let originals := List.filter (fun a => negb (is_baseline a)) history in
  match first_some (applied_fault (known_of ordered) baselines) history with
  | Some m => changed m
  | None =>
      match prefix_fault (skipn cutoff ordered) originals with
      | Some m => invalid m
      | None =>
          let covered := (cutoff + length originals)%nat in
          match history, longest baselines with
          | [], Some b => mret (MkHistory ordered covered Squash (bl_file b :: skipn (bl_cutoff b) ordered))
          | _, _ => mret (MkHistory ordered covered (if is_some baseline then Squash else Original) (skipn covered ordered))
          end
      end
  end.
Definition migrationHistory (files : list MigrationFile) (lock : MigrationLock) (applied : list Applied) (snapshot : option string) (squashes : list MigrationFile) :
    Fx History :=
  ob ← source files lock snapshot squashes; continue_ (fst ob) (snd ob) applied.
Definition pending (files : list MigrationFile) (lock : MigrationLock) (applied : list Applied) (snapshot : option string) (squashes : list MigrationFile) :
    Fx (list MigrationFile) :=
  h ← migrationHistory files lock applied snapshot squashes; mret (h_pending h).

Inductive Ledger := LEmpty | LCurrent | LPrefix.
Inductive Physical := PUnchecked | PUnverified | PDrift | PCurrent | PPrefix.
Record MigrationStatus := MkStatus {
  s_ledger : Ledger; s_strategy : Strategy; s_covered : nat; s_applied : list Applied; s_pending : list MigrationFile;
  s_physical : Physical; s_expected : option string; s_actual : option string }.
Definition migrationStatus (files : list MigrationFile) (lock : MigrationLock) (applied : list Applied) (snapshot : option string)
    (squashes : list MigrationFile) (physical : option (list string)) : Fx MigrationStatus :=
  history ← migrationHistory files lock applied snapshot squashes;
  let last_name := match last (sort_number a_name applied) with Some a => a_name a | None => EmptyString end in
  let expected := match get (default [] (l_physical lock)) last_name with
                  | Some p => Some p
                  | None => if String.eqb last_name "" then Some (physicalHash [])
                            else option_map sr_proof (find (fun r => String.eqb (sr_file r) last_name) (default [] (l_squashes lock)))
                  end in
  let actual := option_map physicalHash physical in
  let whole := (h_covered history =? length (h_ordered history))%nat in
  mret (MkStatus (match applied with [] => LEmpty | _ => if whole then LCurrent else LPrefix end)
    (h_strategy history) (h_covered history) applied (h_pending history)
    (match actual, expected with
     | None, _ => PUnchecked
     | Some _, None => PUnverified
     | Some a, Some e => if negb (String.eqb a e) then PDrift else if whole then PCurrent else PPrefix
     end) expected actual).
End Store.

(** ** The shapes JSON files decode as. *)

Definition as_text (v : Json) : option string := match v with JString s => Some s | _ => None end.
Definition member_of (v : Json) (k : string) : option Json := match v with JObject o => get o k | _ => None end.
Definition text_member (v : Json) (k : string) : option string := x ← member_of v k; as_text x.
Fixpoint opt_map {A B} (f : A -> option B) (l : list A) : option (list B) :=
  match l with [] => Some [] | x :: l' => y ← f x; ys ← opt_map f l'; Some (y :: ys) end.
Definition as_list {A} (f : Json -> option A) (v : Json) : option (list A) := match v with JArray l => opt_map f l | _ => None end.
Definition as_record {A} (f : Json -> option A) (v : Json) : option (dict A) :=
  match v with JObject o => opt_map (fun kv => option_map (pair (fst kv)) (f (snd kv))) o | _ => None end.
Definition as_texts : Json -> option (dict string) := as_record as_text.
Definition as_applied (v : Json) : option Applied := n ← text_member v "name"; c ← text_member v "checksum"; Some (MkApplied n c).
Definition as_receipt (v : Json) : option SquashReceipt :=
  f ← text_member v "file"; c ← text_member v "checksum"; a ← text_member v "archive";
  r ← member_of v "replaces"; r ← as_list as_applied r; p ← text_member v "proof"; Some (MkReceipt f c a r p).
(** An optional key may be absent; a present one decodes. *)
Definition optional_key {A} (f : Json -> option A) (v : option Json) : option (option A) :=
  match v with None => Some None | Some x => option_map Some (f x) end.
Definition as_lock (v : Json) : option MigrationLock :=
  s ← text_member v "snapshot"; f ← member_of v "files"; f ← as_texts f;
  q ← optional_key (as_list as_receipt) (member_of v "squashes"); p ← optional_key as_texts (member_of v "physical");
  Some (MkLock s f q p).
(** [Schema.Int]. *)
Definition as_int (v : Json) : option Z :=
  match v with JNumber n => if (Zpos (Qden (Qred n)) =? 1) && is_safe_integer (Qnum (Qred n)) then Some (Qnum (Qred n)) else None | _ => None end.
(** ** The definitions a proof keeps. *)

(** A line as a proof file holds it: itself, or deflated. *)
Inductive Packed := Plain (line : string) | Deflate (text : string).
Record PhysicalFile := MkPhysicalFile { pf_format : Z; pf_lines : list Packed; pf_prefixes : dict (list Z) }.
(** What a proof file decodes as: indexed (format 1, or 2 with deflated lines), or the definitions themselves. *)
Inductive DefinitionsFile := Indexed (file : PhysicalFile) | Expanded (definitions : dict (list string)).

Section Definitions.
Variable locale_lt : string -> string -> bool.
(** [Base64.encode(deflateSync(new TextEncoder().encode(line)))], and its inverse where the text is one. *)
Variable deflate : string -> string.
Variable inflate : string -> option string.
(** [JSON.stringify(v, null, '\t')], [JSON.parse(text)], and the message the decoder gives for a text. *)
Variable pretty : Json -> string.
Variable parse : string -> option Json.
Variable fault_of : string -> string.

(** The index of a line, appended when it is new. [indexes] maps each line of [lines] to its place. *)
Definition index_line (st : list string * dict Z) (line : string) : (list string * dict Z) * Z :=
  match get (snd st) line with
  | Some i => (st, i)
  | None => let i := Z.of_nat (length (fst st)) in ((fst st ++ [line], set (snd st) line i), i)
  end.
Fixpoint index_lines (st : list string * dict Z) (ls : list string) : (list string * dict Z) * list Z :=
  match ls with
  | [] => (st, [])
  | l :: ls' => let '(st, i) := index_line st l in let '(st, is_) := index_lines st ls' in (st, i :: is_)
  end.
Fixpoint index_entries (st : list string * dict Z) (es : dict (list string)) : (list string * dict Z) * dict (list Z) :=
  match es with
  | [] => (st, [])
  | (name, ls) :: es' =>
      let '(st, is_) := index_lines st ls in let '(st, rest) := index_entries st es' in (st, (name, is_) :: rest)
  end.
Definition pack_line (line : string) : Packed :=
  if slength line <? 4096 then Plain line
  else let d := deflate line in if slength d <? slength line then Deflate d else Plain line.
Definition is_deflated (p : Packed) : bool := match p with Deflate _ => true | Plain _ => false end.
Definition physical_file (definitions : dict (list string)) : PhysicalFile :=
  let '((lines, _), prefixes) := index_entries ([], []) (sort_by locale_lt definitions) in
  let packed := map pack_line lines in
  MkPhysicalFile (if existsb is_deflated packed then 2 else 1) packed (map_of prefixes).
Definition packed_json (p : Packed) : Json := match p with Plain l => JString l | Deflate d => JObject [("deflate"%string, JString d)] end.
Definition physical_json (f : PhysicalFile) : Json :=
  JObject [("format"%string, JNumber (inject_Z (pf_format f))); ("lines"%string, JArray (map packed_json (pf_lines f)));
           ("prefixes"%string, JObject (map (fun kv => (fst kv, JArray (map (fun i => JNumber (inject_Z i)) (snd kv)))) (pf_prefixes f)))].
Definition physicalDefinitionsOf (definitions : dict (list string)) : string := pretty (physical_json (physical_file definitions)) +:+ Evolve.line.

(** [decodeDefinitions]: the first of the three shapes that fits. *)
Definition as_packed (v : Json) : option Packed :=
  match v with JString s => Some (Plain s) | JObject _ => option_map Deflate (text_member v "deflate") | _ => None end.
Definition has_format (v : Json) (n : Z) : bool := match member_of v "format" with Some (JNumber q) => Qeq_bool q (inject_Z n) | _ => false end.
Definition as_indexed {A} (line : Json -> option A) (pack : A -> Packed) (n : Z) (v : Json) : option DefinitionsFile :=
  if has_format v n then
    ls ← member_of v "lines"; ls ← as_list line ls; ps ← member_of v "prefixes"; ps ← as_record (as_list as_int) ps;
    Some (Indexed (MkPhysicalFile n (map pack ls) ps))
  else None.
Definition as_definitions (v : Json) : option DefinitionsFile :=
  match as_indexed as_text Plain 1 v with
  | Some f => Some f
  | None => match as_indexed as_packed id 2 v with Some f => Some f | None => option_map Expanded (as_record (as_list as_text) v) end
  end.

Definition expand_line (p : Packed) : Fx string :=
  match p with
  | Plain l => mret l
  | Deflate d => match inflate d with Some l => mret l | None => fail S_migrationChanged SP_decode "invalid compressed physical definition" end
  end.
Fixpoint fx_map {A B} (f : A -> Fx B) (l : list A) : Fx (list B) :=
  match l with [] => mret [] | x :: l' => y ← f x; ys ← fx_map f l'; mret (y :: ys) end.
Definition line_at (name : string) (expanded : list string) (index : Z) : Fx string :=
  match (if index <? 0 then None else nth_error expanded (Z.to_nat index)) with
  | Some l => mret l
  | None => changed (name +:+ ": physical definition " +:+ dec_of index +:+ " is missing")
  end.
Definition expand_entry (expanded : list string) (definitions : dict (list string)) (entry : string * list Z) : Fx (dict (list string)) :=
  lines ← fx_map (line_at (fst entry) expanded) (snd entry); mret (set definitions (fst entry) lines).
Definition expand_file (file : DefinitionsFile) : Fx (dict (list string)) :=
  match file with
  | Expanded definitions => mret definitions
  | Indexed file =>
      expanded ← fx_map expand_line (pf_lines file);
      each (expand_entry expanded) (pf_prefixes file) []
  end.
Definition readPhysicalDefinitions (text : string) : Fx (dict (list string)) :=
  match (v ← parse text; as_definitions v) with
  | Some f => expand_file f
  | None => fail S_migrationChanged SP_decode (fault_of text)
  end.
End Definitions.

(** ** The snapshot and the declared schema. *)

Section Verify.
Variable number_text : number -> string.

(** [JSON.parse(canonical(v))]: the members of every object in the order the canonical text lists them. *)
Fixpoint in_order (v : Json) : Json :=
  match v with
  | JArray l => JArray (map in_order l)
  | JObject o => JObject (member_order (map (fun kv => (fst kv, in_order (snd kv))) o))
  | _ => v
  end.
(** [JSON.stringify(v)]. *)
Fixpoint stringify (v : Json) : string :=
  match v with
  | JNull => "null"
  | JBool b => if b then "true" else "false"
  | JNumber n => number_text n
  | JString s => quote s
  | JArray l => "[" +:+ join "," (map stringify l) +:+ "]"
  | JObject o => "{" +:+ join "," (map (fun kv => member_text (fst kv, stringify (snd kv))) o) +:+ "}"
  end.
Definition opt_text_eqb (a b : option string) : bool := bool_decide (a = b).
Definition differs (a b : dict Json) (key : string) : bool :=
  negb (opt_text_eqb (option_map stringify (get a key)) (option_map stringify (get b key))).
Fixpoint height (v : Json) : nat :=
  match v with
  | JArray l => S (fold_right (fun x n => Nat.max (height x) n) 0%nat l)
  | JObject o => S (fold_right (fun kv n => Nat.max (height (snd kv)) n) 0%nat o)
  | _ => 1%nat
  end.
(** [firstDifference(held, declared, at)]: a member that is absent is no object. *)
Fixpoint difference_from (fuel : nat) (held declared : option Json) (at_ : string) : string :=
  match fuel, held, declared with
  | S f, Some (JObject a), Some (JObject b) =>
      match find (differs a b) (uniq (keys a ++ keys b)) with
      | Some key => difference_from f (get a key) (get b key) (if String.eqb at_ "" then key else at_ +:+ "." +:+ key)
      | None => at_
      end
  | _, _, _ => at_
  end.
Definition firstDifference (held declared : Json) (at_ : string) : string := difference_from (height held) (Some held) (Some declared) at_.
Definition moved_message (at_ : string) : string :=
  "the schema changed since the last migration at " +:+ at_ +:+ "; generate the next one, or remove it if the build cannot store it".
Definition current (snapshot schema : SchemaSpec) : Fx unit :=
  let held := schema_json snapshot in
  let declared := schema_json schema in
  if String.eqb (canonical number_text held) (canonical number_text declared) then mret tt
  else refuse S_schemaMoved (moved_message (firstDifference (in_order held) (in_order declared) "")).

(** The decoder of a snapshot, whose failure gives its message, and [JSON.stringify(v, null, '\t')]. *)
Variable decode_snapshot : string -> string + SchemaSpec.
Variable pretty : Json -> string.
Definition readSnapshot (text : string) : Fx SchemaSpec :=
  match decode_snapshot text with inr s => mret s | inl m => fail S_migrationInvalid SP_decode ("snapshot.json is no schema: " +:+ m) end.
Definition snapshotOf (s : SchemaSpec) : string := pretty (in_order (schema_json s)) +:+ Evolve.line.

Definition receipt_json (r : SquashReceipt) : Json :=
  JObject [("file"%string, JString (sr_file r)); ("checksum"%string, JString (sr_checksum r)); ("archive"%string, JString (sr_archive r));
           ("replaces"%string, JArray (map applied_json (sr_replaces r))); ("proof"%string, JString (sr_proof r))].
Definition texts_json (d : dict string) : Json := JObject (map (fun kv => (fst kv, JString (snd kv))) d).
Definition lock_json (l : MigrationLock) : Json :=
  JObject ([("snapshot"%string, JString (l_snapshot l)); ("files"%string, texts_json (l_files l))] ++
           opt_member "squashes" (option_map (fun rs => JArray (map receipt_json rs)) (l_squashes l)) ++
           opt_member "physical" (option_map texts_json (l_physical l))).
(** The lock of the files: [Object.fromEntries(files.map((f) => [f.name, checksumOf(f)]))], and the proofs. *)
Definition lock_of (snapshot : string) (files : list MigrationFile) (proofs : MigrationProofs) : MigrationLock :=
  MkLock (sha256Hex snapshot) (map_of (map (fun f => (f_name f, checksumOf f)) files)) (p_squashes proofs) (p_physical proofs).
Definition lockOf (snapshot : string) (files : list MigrationFile) (proofs : MigrationProofs) : string :=
  pretty (lock_json (lock_of snapshot files proofs)) +:+ Evolve.line.

Definition missing_lines (replayed declared : list string) : list string := List.filter (fun l => negb (includes replayed l)) declared.
Definition verify_faults (missing extra : list string) : string :=
  join Evolve.line ("the migrations do not arrive at the schema the models declare; an edit may move data, never the schema:"%string ::
    map (fun l => "  missing " +:+ l) missing ++ map (fun l => "  extra   " +:+ l) extra).
Definition head_name (ordered : list MigrationFile) : string := match last ordered with Some f => f_name f | None => EmptyString end.
Definition verify (files : list MigrationFile) (snapshot : string) (schema : SchemaSpec) (replayed declared : list string) (proofs : MigrationProofs) :
    Fx string :=
  held ← readSnapshot snapshot;
  _ ← current held schema;
  ordered ← orderedFiles files;
  let missing := missing_lines replayed declared in
  let extra := missing_lines declared replayed in
  match missing, extra with
  | [], [] =>
      match get (default [] (p_physical proofs)) (head_name ordered) with
      | Some p => if String.eqb p (physicalHash number_text replayed) then mret (lockOf snapshot ordered proofs)
                  else invalid "the final prefix proof differs from the verified replay"
      | None => mret (lockOf snapshot ordered proofs)
      end
  | _, _ => invalid (verify_faults missing extra)
  end.

Variable parse : string -> option Json.
(** The message a decoder gives for a text. *)
Variable fault_of : string -> string.
Definition readLock (text : string) : Fx MigrationLock :=
  match (v ← parse text; as_lock v) with
  | Some l => mret l
  | None => fail S_migrationInvalid SP_decode ("migrations.lock.json: " +:+ fault_of text)
  end.
End Verify.

(** [build(schema)]: the statements that build a schema from nothing. *)
Definition build (number_text : number -> string) (objects : SchemaSpec -> list SchemaObject -> Fx (list SchemaObject)) (schema : SchemaSpec) : Fx (list string) :=
  p ← plan number_text objects (fun _ => []) None schema; mret (map ps_sql (statements p [])).

(** ** The ledger of a database, and its guard. *)

Definition MIGRATIONS_TABLE : string :=
  "create table if not exists store_migration (name text primary key, checksum text not null, applied_at timestamptz not null default now())".
Definition APPLIED : string := "select name, checksum from store_migration order by name".
Definition recordApplied (file : MigrationFile) : string * list string :=
  ("insert into store_migration (name, checksum) values ($1, $2)"%string, [f_name file; checksumOf file]).

Inductive GuardStage := GBefore | GAfter.
Definition ledger_code (stage : GuardStage) : string := match stage with GBefore => "BM001" | GAfter => "BM004" end.
Definition physical_code (stage : GuardStage) : string := match stage with GBefore => "BM002" | GAfter => "BM003" end.

Section Guard.
Variable number_text : number -> string.
Variable locale_lt : string -> string -> bool.
(** The introspection query, a constant of SQL. *)
Variable INTROSPECT : string.

Definition by_name (applied : list Applied) : list Applied := map snd (sort_by locale_lt (map (fun a => (a_name a, a)) applied)).
Definition json_text (v : Json) : string := sql_quoted (stringify number_text v) +:+ "::jsonb".
Definition held_json (applied : list Applied) : Json := JArray (map applied_json (by_name applied)).
Definition pairs_json (excluded : list (string * string)) : Json := JArray (map (fun x => JArray [JString (fst x); JString (snd x)]) excluded).
(** A line of the body, with its indentation. *)
Definition indented (n : nat) (s : string) : string := Evolve.line +:+ Nat.iter n (append TAB) s.
Definition guard_body (applied : list Applied) (definitions : list string) (stage : GuardStage) (excluded : list (string * string)) : string :=
  "declare held jsonb; moved boolean; begin" +:+
  indented 2 "select coalesce(jsonb_agg(jsonb_build_object('name', name, 'checksum', checksum) order by name), '[]'::jsonb) into held from store_migration;" +:+
  indented 2 ("if held is distinct from " +:+ json_text (held_json applied) +:+ " then") +:+
  indented 3 ("raise exception using errcode = '" +:+ ledger_code stage +:+ "', message = 'the migration ledger moved';") +:+
  indented 2 "end if;" +:+
  indented 2 ("with inspected as (" +:+ INTROSPECT +:+ "), actual as (") +:+
  indented 3 "select line from inspected i where not exists (" +:+
  indented 4 ("select 1 from jsonb_array_elements(" +:+ json_text (pairs_json excluded) +:+ ") x") +:+
  indented 4 "where x->>0 = i.kind and x->>1 = i.owner" +:+
  indented 3 ")" +:+
  indented 2 ("), expected as (select jsonb_array_elements_text(" +:+ json_text (JArray (map JString definitions)) +:+ ") as line)") +:+
  indented 2 "select exists ((select line from actual except select line from expected) union all (select line from expected except select line from actual)) into moved;" +:+
  indented 2 ("if moved then raise exception using errcode = '" +:+ physical_code stage +:+ "', message = 'the physical migration prefix moved'; end if;") +:+
  indented 1 "end".
(** [migrationGuard(applied, definitions, stage, excluded)]; it has no parameters. *)
Definition migrationGuard (applied : list Applied) (definitions : list string) (stage : GuardStage) (excluded : list (string * string)) : string :=
  "do " +:+ sql_quoted (guard_body applied definitions stage excluded).
End Guard.

(** Inverts a chain of binds that succeeded. *)
Ltac inv_fx :=
  repeat match goal with
  | H : mbind _ ?m = inr _ |- _ => let E := fresh "E" in destruct m eqn:E; cbn [mbind Fx_bind] in H; [discriminate H|]
  | H : mret _ = inr _ |- _ => injection H as H
  | x : unit |- _ => destruct x
  end.
Lemma refuse_if_ok b e : refuse_if b e = inr tt -> e <> inr tt -> b = false.
Proof. unfold refuse_if. by destruct b. Qed.

(** ** Ordered files, and sorting by number. *)
Module Ordered.

Lemma sorted_unique {A} (key : A -> Z) (l m : list A) : l ≡ₚ m -> StronglySorted (fun a b => key a <= key b) l ->
  StronglySorted (fun a b => key a < key b) m -> l = m.
Proof.
  revert l. induction m as [|x m IH]; intros l Hp Hl Hm; [by apply Permutation_nil_r|].
  destruct l as [|y l]; [by apply Permutation_nil_l in Hp|]. apply StronglySorted_inv in Hl as [Hl Hy]. apply StronglySorted_inv in Hm as [Hm Hx].
  rewrite Forall_forall in Hy, Hx. assert (y = x) as ->; [|f_equal; apply IH; [by apply Permutation_cons_inv in Hp|done|done]].
  assert (y ∈ x :: m) as [->|Hym]%elem_of_cons by (rewrite <- Hp; by left); [done|]. assert (x ∈ y :: l) as [->|Hxl]%elem_of_cons by (rewrite Hp; by left); [done|].
  specialize (Hx y Hym). specialize (Hy x Hxl). lia.
Qed.
Definition num (name : string) : Z := default 0 (number_of name).
Lemma sort_number_unique {A} (name : A -> string) (l m : list A) : l ≡ₚ m -> StronglySorted (fun a b => num (name a) < num (name b)) m ->
  sort_number name l = m.
Proof.
  intros Hp Hm. apply (sorted_unique (fun x => num (name x))); [|apply Order.sort_rank_sorted|done]. unfold sort_number. by rewrite Order.sort_rank_perm.
Qed.

(** Files numbered from [i + 1] on, each admitted. *)
Fixpoint numbered (i : Z) (files : list MigrationFile) : Prop :=
  match files with [] => True | f :: rest => checkFile f = inr f /\ number_of (f_name f) = Some (i + 1) /\ numbered (i + 1) rest end.
Lemma checkFile_same f g : checkFile f = inr g -> g = f.
Proof. unfold checkFile. intros H. destruct (negb _); [done|]. inv_fx. by destruct (unaccepted_blocks _); inv_fx. Qed.
Lemma check_order_numbered i files : check_order i files = inr tt <-> numbered i files.
Proof.
  revert i. induction files as [|f files IH]; intros i; cbn [check_order numbered]; [done|]. rewrite <- IH.
  destruct (checkFile f) as [e|g] eqn:E; cbn [mbind Fx_bind]; [naive_solver|]. apply checkFile_same in E as ->. case_bool_decide; naive_solver.
Qed.
Lemma orderedFiles_spec files O : orderedFiles files = inr O <-> O = sort_number f_name files /\ numbered 0 O.
Proof.
  unfold orderedFiles. rewrite <- check_order_numbered. destruct (check_order 0 _) as [e|[]] eqn:E; cbn [mbind Fx_bind].
  - split; [done|]. intros [-> H]. by rewrite E in H.
  - split; [by intros [= <-]|]. by intros [-> _].
Qed.
Lemma numbered_lookup i files k f : numbered i files -> files !! k = Some f -> number_of (f_name f) = Some (i + Z.of_nat k + 1) /\ checkFile f = inr f.
Proof.
  revert i k. induction files as [|g files IH]; intros i k; [done|]. intros (Hc & Hn & Hr). destruct k as [|k]; cbn.
  - intros [= ->]. split; [rewrite Hn; f_equal; lia|done].
  - intros H. destruct (IH _ _ Hr H) as [-> ?]. split; [f_equal; lia|done].
Qed.
Lemma numbered_sorted i files : numbered i files -> StronglySorted (fun a b => num (f_name a) < num (f_name b)) files /\ Forall (fun f => i < num (f_name f)) files.
Proof.
  revert i. induction files as [|f files IH]; intros i; [repeat constructor|]. intros (_ & Hn & Hr). destruct (IH _ Hr) as [Hs Hf].
  assert (num (f_name f) = i + 1) as E by (unfold num; by rewrite Hn). split; constructor; try done; [|lia|]; (eapply Forall_impl; [exact Hf|]); cbn; intros; lia.
Qed.
Lemma numbered_app i a b : numbered i (a ++ b) <-> numbered i a /\ numbered (i + Z.of_nat (length a)) b.
Proof.
  revert i. induction a as [|f a IH]; intros i; cbn [app numbered length].
  - rewrite Z.add_0_r. naive_solver.
  - rewrite IH. replace (i + 1 + Z.of_nat (length a)) with (i + Z.of_nat (S (length a))) by lia. naive_solver.
Qed.
Lemma numbered_take i files n : numbered i files -> numbered i (take n files).
Proof. intros H. rewrite <- (take_drop n files) in H. by apply numbered_app in H as [? _]. Qed.
Lemma strictly_names files : StronglySorted (fun a b => num (f_name a) < num (f_name b)) files -> NoDup (map f_name files).
Proof.
  induction files as [|f files IH]; cbn [map]; [constructor|]. intros [Hs Hf]%StronglySorted_inv. constructor; [|by apply IH].
  intros (g & E & Hg)%list_elem_of_fmap. rewrite Forall_forall in Hf. specialize (Hf g Hg). rewrite E in Hf. lia.
Qed.
Lemma numbered_names i files : numbered i files -> NoDup (map f_name files).
Proof. intros [H _]%numbered_sorted. by apply strictly_names. Qed.
End Ordered.

(** ** A ledger is a prefix of a chain, and what is pending is the rest of it. *)
Module Chain.
Import Ordered.

Section Chains.
Variable number_text : number -> string.
Variable locale_lt : string -> string -> bool.

(** What [source] has established of the originals and the baselines. *)
Record sound (O : list MigrationFile) (B : dict Baseline) : Prop := {
  snd_numbered : numbered 0 O;
  snd_wf : wf_dict B;
  snd_baseline : forall name b, get B name = Some b ->
    f_name (bl_file b) = name /\ has_own (known_of O) name = false /\ number_of name = Some (Z.of_nat (bl_cutoff b)) /\ checkFile (bl_file b) = inr (bl_file b) /\ O <> [];
  snd_receipt : forall name b, get B name = Some b ->
    (1 <= bl_cutoff b <= length O)%nat /\ sr_replaces (bl_receipt b) = appliedOf (take (bl_cutoff b) O) /\
    sr_checksum (bl_receipt b) = checksumOf (bl_file b) /\
    (exists p, checkSquashSources (take (bl_cutoff b) O) = inr p) /\ (exists p, checkSquashBaseline (bl_file b) = inr p) }.

(** The text of a ledger says what it holds. *)
Lemma entry_text a : canonical number_text (applied_json a) =
  "{" +:+ (quote "checksum" +:+ ":" +:+ quote (a_checksum a)) +:+ "," +:+ (quote "name" +:+ ":" +:+ quote (a_name a)) +:+ "}".
Proof.
  unfold applied_json. cbn [canonical map fst snd].
  assert (forall x y : string, member_order [("name", x); ("checksum", y)]%string = [("checksum", y); ("name", x)]%string) as E by reflexivity.
  rewrite E. cbn [map join]. unfold member_text. cbn [fst snd]. by rewrite !append_assoc_s.
Qed.
Lemma applied_text_inj l m : applied_text number_text l = applied_text number_text m -> l = m.
Proof.
  unfold applied_text. cbn [canonical]. rewrite !map_map. intros H. injection H as H.
  apply (Canonical.items_inj (fun a => canonical number_text (applied_json a)) eq "]"%char) in H as [H _]; [|done|done| |].
  - clear -H. induction H as [|a b l m -> _ IH]; [done|]. by rewrite IH.
  - intros a s s'. rewrite entry_text. intros E. discriminate E.
  - apply Forall_forall. intros a _ b r r' _ _ E. rewrite !entry_text, !append_assoc_s in E.
    apply (append_inj "{" "{") in E as [_ E]; [|done]. apply Canonical.quote_inj in E as [_ E]. apply (append_inj ":" ":") in E as [_ E]; [|done].
    apply Canonical.quote_inj in E as [E1 E]. apply (append_inj "," ",") in E as [_ E]; [|done]. apply Canonical.quote_inj in E as [_ E].
    apply (append_inj ":" ":") in E as [_ E]; [|done]. apply Canonical.quote_inj in E as [E2 E]. apply (append_inj "}" "}") in E as [_ E]; [|done]. split; [|done].
    destruct a, b. cbn in *. by subst.
Qed.

Lemma known_get O name f : NoDup (map f_name O) -> get (known_of O) name = Some f <-> f ∈ O /\ f_name f = name.
Proof.
  intros Hn. unfold known_of. split.
  - intros (g & [= -> ->] & Hg)%Marks.map_of_get%list_elem_of_fmap. done.
  - intros [Hf <-]. apply Marks.map_of_in; [by rewrite map_map|]. apply list_elem_of_fmap. by exists f.
Qed.
Lemma known_has O f : f ∈ O -> has_own (known_of O) (f_name f) = true.
Proof. intros H. unfold has_own, known_of. apply Marks.map_of_has. rewrite map_map. apply list_elem_of_fmap. by exists f. Qed.

Lemma take_receipt_sound O lock loaded B receipt B' : (forall name f, get loaded name = Some f -> f_name f = name) -> sound O B ->
  take_receipt number_text O lock loaded B receipt = inr B' -> sound O B'.
Proof.
  intros Hl [H1 H2 H3 H4] H. unfold take_receipt in H. destruct (has_own B _ || _) eqn:E; [done|]. apply orb_false_iff in E as [E1 E2].
  destruct (get loaded (sr_file receipt)) as [f|] eqn:El; [|done]. inv_fx. subst B'.
  match goal with H : checkFile f = inr _ |- _ => pose proof (checkFile_same _ _ H) as -> end.
  repeat match goal with H : refuse_if _ _ = inr tt |- _ => apply refuse_if_ok in H; [|done] end. bool_hyps.
  split; [done|by apply wf_set| |]; intros name b Hb; (destruct (decide (sr_file receipt = name)) as [<-|Hne];
    [rewrite get_set_eq in Hb; injection Hb as <-|rewrite get_set_ne in Hb by done; by eauto]); unfold bl_cutoff in *; cbn [bl_file bl_receipt].
  - repeat split; [by apply Hl|done| |done|].
    + match goal with H : bool_decide _ = true |- _ => by apply bool_decide_eq_true in H end.
    + intros ->. rewrite take_nil in *. done.
  - match goal with H : applied_text _ _ = applied_text _ _ |- _ => apply applied_text_inj in H; pose proof (f_equal length H) as Hlen end.
    unfold appliedOf in Hlen. rewrite length_map, length_take in Hlen.
    match goal with H : (_ =? 0)%nat = false |- _ => apply Nat.eqb_neq in H end. split; [lia|]. split_and!; eauto.
Qed.
Lemma source_sound files lock snapshot squashes O B : source number_text files lock snapshot squashes = inr (O, B) ->
  orderedFiles files = inr O /\ sound O B.
Proof.
  unfold source. intros H. inv_fx. destruct (find _ squashes); [done|]. injection H as -> ->. split; [done|].
  assert (forall name f, get l0 name = Some f -> f_name f = name) as Hl.
  { eapply (RenameFacts.each_inv load_squash (fun d => forall name f, get d name = Some f -> f_name f = name)); [| |eassumption]; [|done].
    intros d f d' _ Hd. unfold load_squash. destruct (has_own d _); [done|]. intros [= <-] name g. destruct (decide (f_name f = name)) as [<-|Hne].
    + rewrite get_set_eq. by intros [= <-].
    + rewrite get_set_ne by done. apply Hd. }
  eapply (RenameFacts.each_inv _ (sound O)); [| |eassumption].
  - intros s r s' _ Hs. by apply take_receipt_sound.
  - match goal with H : orderedFiles _ = _ |- _ => apply orderedFiles_spec in H as [_ H] end. by split; [|constructor| |].
Qed.

(** *** The chains of a source. *)
Section Of.
Context (O : list MigrationFile) (B : dict Baseline) (HS : sound O B).

(** The originals, or a baseline and the originals after the prefix it replaces. *)
Inductive chain_of : list MigrationFile -> Prop :=
| chain_original : chain_of O
| chain_squash name b : get B name = Some b -> chain_of (bl_file b :: skipn (bl_cutoff b) O).
(** The chain of a new database. *)
Definition chosen : list MigrationFile := match longest locale_lt B with Some b => bl_file b :: skipn (bl_cutoff b) O | None => O end.

Lemma insert_first_perm x l : insert_first locale_lt x l ≡ₚ x :: l.
Proof. induction l as [|y l IH]; cbn [insert_first]; [done|]. destruct (longer_first _ _ _); [done|]. rewrite IH. apply Permutation_swap. Qed.
Lemma longest_in b : longest locale_lt B = Some b -> exists name, get B name = Some b.
Proof.
  unfold longest. intros H. assert (fold_right (insert_first locale_lt) [] (values B) ≡ₚ values B) as P.
  { clear H. induction (values B) as [|y l IH]; [done|]. cbn [fold_right]. by rewrite insert_first_perm, IH. }
  assert (b ∈ values B) as Hb. { rewrite <- P. clear P. destruct (fold_right _ _ _) as [|y l]; cbn in H; [discriminate H|]. injection H as ->. by left. }
  apply list_elem_of_fmap in Hb as ([name b'] & -> & Hb). exists name. apply in_get; [apply HS|done].
Qed.
Lemma chosen_chain : chain_of chosen.
Proof. unfold chosen. destruct (longest locale_lt B) as [b|] eqn:E; [|constructor]. apply longest_in in E as (name & E). by econstructor. Qed.
Lemma names_distinct : NoDup (map f_name O).
Proof. apply (numbered_names 0), HS. Qed.

(** A chain's files are admitted, and their numbers increase. *)
Lemma chain_sorted c : chain_of c -> StronglySorted (fun a b => num (f_name a) < num (f_name b)) c.
Proof.
  destruct HS as [Hn _ Hb _]. intros [|name b Hg]; [by apply (numbered_sorted 0)|].
  destruct (Hb _ _ Hg) as (<- & _ & Hnum & _). pose proof Hn as Hn'. rewrite <- (firstn_skipn (bl_cutoff b) O) in Hn'. apply numbered_app in Hn' as [_ Hr].
  apply numbered_sorted in Hr as [Hs Hf]. constructor; [done|]. destruct (decide (bl_cutoff b <= length O)%nat) as [Hl|Hl].
  - eapply Forall_impl; [exact Hf|]. intros f Hlt. cbn in Hlt. rewrite length_take_le in Hlt by done. unfold num at 1. rewrite Hnum. cbn. lia.
  - by rewrite skipn_all2 by lia.
Qed.
Lemma in_skipn {A} (x : A) n l : x ∈ skipn n l -> x ∈ l.
Proof. intros H. rewrite <- (firstn_skipn n l). by apply elem_of_app; right. Qed.
Lemma original_no_baseline f : f ∈ O -> has_own B (f_name f) = false.
Proof.
  intros Hf. unfold has_own. destruct (get B (f_name f)) as [b|] eqn:E; [|done]. destruct (snd_baseline _ _ HS _ _ E) as (_ & H & _). by rewrite known_has in H.
Qed.
Lemma chain_known c f : chain_of c -> f ∈ c -> applied_fault (known_of O) B (applied_of f) = None.
Proof.
  intros Hc Hf. unfold applied_fault. cbn [a_name a_checksum applied_of].
  assert (f ∈ O \/ exists b, get B (f_name f) = Some b /\ f = bl_file b) as [H|(b & H & ->)].
  { destruct Hc as [|name b Hb]; [by left|]. apply elem_of_cons in Hf as [->|Hf]; [|left; by eapply in_skipn].
    right. exists b. destruct (snd_baseline _ _ HS _ _ Hb) as (-> & _). done. }
  - rewrite (proj2 (known_get O _ f names_distinct)) by done. by rewrite String.eqb_refl.
  - destruct (snd_baseline _ _ HS _ _ H) as (_ & Hk & _). unfold has_own in Hk. destruct (get (known_of O) _); [done|]. rewrite H. cbn. by rewrite String.eqb_refl.
Qed.
Lemma prefix_fault_spec rest l : prefix_fault rest l = None <-> map a_name l = map f_name (take (length l) rest).
Proof.
  revert rest. induction l as [|a l IH]; intros rest; cbn [prefix_fault length map]; [done|]. destruct rest as [|f rest]; [done|].
  cbn [take map skipn]. destruct (String.eqb (f_name f) (a_name a)) eqn:E.
  - apply String.eqb_eq in E as ->. rewrite IH. split; [by intros ->|by intros [= ->]].
  - apply String.eqb_neq in E. split; [done|]. intros [= H _]. done.
Qed.
Lemma applied_names l : map a_name (appliedOf l) = map f_name l.
Proof. unfold appliedOf. by rewrite map_map. Qed.

(** An entry of the ledger that passed is the file of its name as it was applied. *)
Lemma entry_original a f : applied_fault (known_of O) B a = None -> f ∈ O -> f_name f = a_name a -> a = applied_of f.
Proof.
  intros Ha Hf E. unfold applied_fault in Ha. rewrite (proj2 (known_get O (a_name a) f names_distinct)) in Ha by done.
  destruct (String.eqb _ _) eqn:Ec; [|done]. apply String.eqb_eq in Ec. destruct a. cbn in *. by subst.
Qed.
Lemma entry_baseline a b : applied_fault (known_of O) B a = None -> get B (a_name a) = Some b -> a = applied_of (bl_file b).
Proof.
  intros Ha Hb. destruct (snd_baseline _ _ HS _ _ Hb) as (En & Hk & _). unfold applied_fault in Ha. unfold has_own in Hk.
  destruct (get (known_of O) (a_name a)); [done|]. rewrite Hb in Ha. cbn in Ha. destruct (String.eqb _ _) eqn:Ec; [|done]. apply String.eqb_eq in Ec.
  destruct a. cbn in *. by subst.
Qed.
Lemma entries_originals l k : (forall a, a ∈ l -> applied_fault (known_of O) B a = None) -> prefix_fault (skipn k O) l = None ->
  l = appliedOf (take (length l) (skipn k O)).
Proof.
  intros Ha Hp%prefix_fault_spec. assert (forall f, f ∈ take (length l) (skipn k O) -> f ∈ O) as Hin.
  { intros f Hf. apply (in_skipn _ k). rewrite <- (firstn_skipn (length l) (skipn k O)). by apply elem_of_app; left. }
  revert Hp Hin. generalize (take (length l) (skipn k O)). induction l as [|a l IH]; intros fs; destruct fs as [|f fs]; cbn [map]; try done.
  intros [= E Hp] Hin. cbn [appliedOf map]. f_equal.
  - apply entry_original; [apply Ha; by left|apply Hin; by left|done].
  - apply IH; [intros; apply Ha; by right|done|intros; apply Hin; by right].
Qed.

Definition is_squash (a : Applied) : bool := has_own B (a_name a).
Lemma split_squashes hist : hist ≡ₚ List.filter is_squash hist ++ List.filter (fun a => negb (is_squash a)) hist.
Proof.
  induction hist as [|a l IH]; [done|]. cbn [List.filter]. destruct (is_squash a); cbn [negb app]; [by rewrite <- IH|].
  rewrite <- Permutation_middle. by rewrite <- IH.
Qed.
Lemma skipn_rest {A} n (l : list A) : (n <= length l)%nat -> n = length l <-> skipn n l = [].
Proof.
  intros Hn. split; [intros ->; by apply skipn_all|]. intros H%(f_equal length). rewrite length_skipn in H. cbn in H. lia.
Qed.
Lemma continue_inv applied h : continue_ locale_lt O B applied = inr h ->
  exists c n, chain_of c /\ (n = 0%nat -> c = chosen) /\ (n <= length c)%nat /\ applied ≡ₚ appliedOf (take n c) /\ h_pending h = skipn n c /\
    h_ordered h = O /\ (applied <> [] -> (h_covered h = length O <-> h_pending h = [])).
Proof.
  unfold continue_. cbv zeta. change (fun a => has_own B (a_name a)) with is_squash. change (fun a => negb (has_own B (a_name a))) with (fun a => negb (is_squash a)).
  remember (sort_number a_name applied) as hist eqn:Ehist. assert (hist ≡ₚ applied) as Hp by (subst hist; apply Order.sort_rank_perm).
  pose proof (split_squashes hist) as Hsplit. destruct (1 <? _)%nat eqn:E1; [done|]. apply Nat.ltb_ge in E1.
  destruct (first_some _ hist) eqn:Ef; [done|]. rewrite first_some_none in Ef.
  assert (forall a, a ∈ List.filter (fun a => negb (is_squash a)) hist -> applied_fault (known_of O) B a = None) as Hfo.
  { intros a Ha. apply Ef. by apply Marks.elem_of_List_filter in Ha as [? _]. }
  set (os := List.filter (fun a => negb (is_squash a)) hist) in *.
  destruct (List.filter is_squash hist) as [|a [|a2 r]] eqn:Eu; [| |cbn in E1; lia].
  - destruct (prefix_fault (skipn 0 O) os) eqn:Epf; [done|]. pose proof (entries_originals os 0 Hfo Epf) as Eos. cbn [app] in Hsplit.
    pose proof (proj1 (prefix_fault_spec _ _) Epf) as Hlen%(f_equal length). rewrite !length_map, length_take in Hlen. change (skipn 0 O) with O in *. clear Ehist.
    destruct hist as [|x hist'] eqn:Eh.
    + intros Hh. exists chosen, 0%nat. split; [apply chosen_chain|]. split; [done|]. split; [lia|]. split; [by rewrite <- Hp|].
      apply Permutation_nil_l in Hp. unfold chosen. destruct (longest locale_lt B); injection Hh as <-; done.
    + intros Hh. exists O, (length os). split; [constructor|]. split; [intros Hz; apply Permutation_length in Hsplit; by rewrite Hz in Hsplit|]. split; [lia|].
      split; [by rewrite <- Hp, Hsplit, <- Eos|]. injection Hh as <-. cbn [h_pending h_ordered h_covered]. split; [done|]. split; [done|]. intros _. apply (skipn_rest (length os)); lia.
  - assert (a ∈ hist) as Ha by (rewrite Hsplit; by left).
    assert (is_squash a = true) as Hs. { assert (a ∈ List.filter is_squash hist) as H by (rewrite Eu; by left). by apply Marks.elem_of_List_filter in H as [_ ?]. }
    unfold is_squash, has_own in Hs. destruct (get B (a_name a)) as [b|] eqn:Eb; [|done].
    destruct (prefix_fault (skipn (bl_cutoff b) O) os) eqn:Epf; [done|]. pose proof (entries_originals os _ Hfo Epf) as Eos.
    pose proof (proj1 (prefix_fault_spec _ _) Epf) as Hlen%(f_equal length). rewrite !length_map, length_take in Hlen.
    intros Hh. exists (bl_file b :: skipn (bl_cutoff b) O), (S (length os)). split; [by econstructor|]. split; [done|]. split; [cbn; lia|]. split.
    + rewrite <- Hp, Hsplit. cbn [take appliedOf map app]. rewrite <- (entry_baseline a b) by (done || by apply Ef). constructor. unfold appliedOf in Eos. by rewrite <- Eos.
    + destruct hist as [|x hist']; [by apply elem_of_nil in Ha|]. injection Hh as <-. cbn [h_pending h_ordered h_covered skipn].
      split; [by rewrite skipn_skipn, Nat.add_comm|]. split; [done|]. intros _. apply skipn_rest.
      rewrite length_skipn in Hlen. destruct (snd_receipt _ _ HS _ _ Eb) as [Hc _]. lia.
Qed.

Lemma no_squashes l : (forall f, f ∈ l -> f ∈ O) -> List.filter is_squash (appliedOf l) = [] /\ List.filter (fun a => negb (is_squash a)) (appliedOf l) = appliedOf l.
Proof.
  induction l as [|f l IH]; [done|]. intros H. destruct IH as [I1 I2]; [intros; apply H; by right|].
  assert (is_squash (applied_of f) = false) as E by (apply original_no_baseline, H; by left).
  unfold appliedOf in *. cbn [map List.filter]. rewrite E. cbn [negb]. by rewrite I1, I2.
Qed.
Lemma prefix_of_chain rest n : prefix_fault rest (appliedOf (take n rest)) = None.
Proof. apply prefix_fault_spec. rewrite applied_names. unfold appliedOf. rewrite length_map, length_take. f_equal.
  destruct (Nat.le_ge_cases n (length rest)); [by rewrite Nat.min_l|]. rewrite Nat.min_r by done. by rewrite !take_ge by lia. Qed.
Lemma sort_chain c n applied : chain_of c -> applied ≡ₚ appliedOf (take n c) -> sort_number a_name applied = appliedOf (take n c).
Proof.
  intros Hc Hp. apply sort_number_unique; [done|]. pose proof (chain_sorted c Hc) as Hs. rewrite <- (firstn_skipn n c) in Hs.
  clear Hp. induction (take n c) as [|f l IH]; cbn [appliedOf map]; [constructor|]. apply StronglySorted_inv in Hs as [Hs Hf]. constructor; [by apply IH|].
  apply Forall_app in Hf as [Hf _]. apply Forall_map. exact Hf.
Qed.
Lemma chain_faults c n : chain_of c -> first_some (applied_fault (known_of O) B) (appliedOf (take n c)) = None.
Proof.
  intros Hc. apply first_some_none. intros a (f & -> & Hf)%list_elem_of_fmap. apply (chain_known c); [done|].
  rewrite <- (firstn_skipn n c). by apply elem_of_app; left.
Qed.
Lemma continue_chain c n applied : chain_of c -> (n = 0%nat -> c = chosen) -> applied ≡ₚ appliedOf (take n c) ->
  exists h, continue_ locale_lt O B applied = inr h /\ h_pending h = skipn n c /\ h_ordered h = O.
Proof.
  intros Hc H0 Hp. pose proof (sort_chain c n applied Hc Hp) as Hsort. pose proof (chain_faults c n Hc) as Hfaults.
  unfold continue_. cbv zeta. rewrite Hsort, Hfaults.
  change (fun a => has_own B (a_name a)) with is_squash. change (fun a => negb (has_own B (a_name a))) with (fun a => negb (is_squash a)).
  destruct Hc as [|name b Hb].
  - destruct (no_squashes (take n O)) as [E1 E2]. { intros f Hf. rewrite <- (firstn_skipn n O). by apply elem_of_app; left. }
    rewrite E1, E2. cbn [length Nat.ltb Nat.leb skipn Nat.add]. rewrite prefix_of_chain. assert (length (appliedOf (take n O)) = Nat.min n (length O)) as ->.
    { unfold appliedOf. by rewrite length_map, length_take. }
    destruct (appliedOf (take n O)) as [|x l] eqn:Em.
    + assert (n = 0%nat \/ O = []) as [->|HO]. { destruct n; [by left|]. destruct O; [by right|done]. }
      * unfold chosen in H0. destruct (longest locale_lt B) as [b|]; eexists; (split; [done|]); (split; [|done]); cbn [h_pending]; [|done]. symmetry. exact (H0 eq_refl).
      * assert (longest locale_lt B = None) as ->. { destruct (longest locale_lt B) as [b|] eqn:El; [|done]. apply longest_in in El as (nm & El). by destruct (snd_baseline _ _ HS _ _ El) as (_ & _ & _ & _ & ?). }
        eexists. split; [done|]. split; [|done]. cbn [h_pending]. clear -HO. subst O. by rewrite !drop_nil.
    + eexists. split; [done|]. split; [|done]. cbn [h_pending]. destruct (Nat.le_ge_cases n (length O)).
      * by rewrite Nat.min_l.
      * rewrite Nat.min_r by done. by rewrite !skipn_all2 by lia.
  - destruct n as [|n].
    + specialize (H0 eq_refl). cbn. unfold chosen in H0. destruct (longest locale_lt B) as [b'|] eqn:El.
      * eexists. split; [done|]. split; [|done]. cbn [h_pending]. by rewrite H0.
      * eexists. split; [done|]. split; [|done]. cbn [h_pending]. change (O = bl_file b :: skipn (bl_cutoff b) O). by rewrite H0.
    + destruct (no_squashes (take n (skipn (bl_cutoff b) O))) as [E1 E2].
      { intros f Hf. apply (in_skipn _ (bl_cutoff b)). rewrite <- (firstn_skipn n (skipn (bl_cutoff b) O)). by apply elem_of_app; left. }
      destruct (snd_baseline _ _ HS _ _ Hb) as (En & _). subst name.
      assert (is_squash (applied_of (bl_file b)) = true) as Es by (unfold is_squash, has_own; cbn; by rewrite Hb).
      cbn [take]. unfold appliedOf in *. cbn [map List.filter]. rewrite Es. cbn [negb]. rewrite E1, E2. cbn [length Nat.ltb Nat.leb a_name applied_of]. rewrite Hb.
      pose proof (prefix_of_chain (skipn (bl_cutoff b) O) n) as Hpf. unfold appliedOf in Hpf. rewrite Hpf. eexists. split; [done|]. split; [|done]. cbn [h_pending skipn].
      rewrite length_map, length_take, length_skipn. destruct (Nat.le_ge_cases n (length O - bl_cutoff b)).
      * rewrite Nat.min_l by done. by rewrite skipn_skipn, Nat.add_comm.
      * rewrite Nat.min_r by done. rewrite !skipn_all2 by (rewrite ?length_skipn; lia). done.
Qed.
End Of.
End Chains.

Section Ledger.
Variable number_text : number -> string.
Variable locale_lt : string -> string -> bool.
Variable files : list MigrationFile.
Variable lock : MigrationLock.
Variable snapshot : option string.
Variable squashes : list MigrationFile.

Lemma pending_chain (O : list MigrationFile) (B : dict Baseline) (applied : list Applied) (p : list MigrationFile)
    (Hsource : source number_text files lock snapshot squashes = inr (O, B)) :
  pending number_text locale_lt files lock applied snapshot squashes = inr p <->
  exists c n, chain_of O B c /\ (n = 0%nat -> c = chosen locale_lt O B) /\ applied ≡ₚ appliedOf (take n c) /\ p = skipn n c.
Proof.
  destruct (source_sound _ _ _ _ _ _ _ Hsource) as [_ HS]. unfold pending, migrationHistory. rewrite Hsource. cbn [mbind Fx_bind fst snd]. split.
  - intros H. inv_fx. subst p. match goal with H : continue_ _ _ _ _ = _ |- _ => apply (continue_inv _ _ _ HS) in H as (c & n & H1 & H2 & _ & H3 & H4 & _) end.
    by exists c, n.
  - intros (c & n & H1 & H2 & H3 & ->). destruct (continue_chain locale_lt O B HS c n applied H1 H2 H3) as (h & -> & E & _). cbn [mbind Fx_bind]. by rewrite E.
Qed.

(** C10. A database is migrated along one chain: the originals, or a verified baseline and the originals after the prefix
    it replaces. Where the committed files and their lock agree, a ledger is accepted exactly when it holds a first part of
    a chain, whatever the order its rows are read in; a new database is on the chain of the longest baseline; and what is
    pending is the rest of the chain, in order. *)
Theorem ledger_continues (O : list MigrationFile) (B : dict Baseline) (applied : list Applied) (p : list MigrationFile)
    (Hsource : source number_text files lock snapshot squashes = inr (O, B)) :
  pending number_text locale_lt files lock applied snapshot squashes = inr p <->
  exists c n, chain_of O B c /\ (n = 0%nat -> c = chosen locale_lt O B) /\ applied ≡ₚ appliedOf (take n c) /\ p = skipn n c.
Proof. exact (pending_chain O B applied p Hsource). Qed.

(** C19. A migration run that stops goes on: once the database has recorded any first part of what was pending, the next
    run is left with exactly the rest, and with nothing after the last file. *)
Theorem pending_resumes (applied : list Applied) (p : list MigrationFile) (k : nat)
    (Hp : pending number_text locale_lt files lock applied snapshot squashes = inr p) :
  pending number_text locale_lt files lock (applied ++ appliedOf (take k p)) snapshot squashes = inr (skipn k p).
Proof.
  unfold pending, migrationHistory in *. destruct (source _ _ _ _ _) as [|[O B]] eqn:Hs; [done|]. cbn [mbind Fx_bind fst snd] in *. inv_fx. subst p.
  destruct (source_sound _ _ _ _ _ _ _ Hs) as [_ HS].
  match goal with H : continue_ _ _ _ _ = _ |- _ => apply (continue_inv _ _ _ HS) in H as (c & n & H1 & H2 & _ & H3 & H4 & _) end. rewrite H4.
  destruct (continue_chain locale_lt O B HS c (n + k) (applied ++ appliedOf (take k (skipn n c)))) as (h' & -> & E & _); [done| | |].
  - intros Hz. apply H2. lia.
  - rewrite H3. unfold appliedOf. by rewrite <- map_app, take_take_drop.
  - cbn [mbind Fx_bind]. rewrite E. by rewrite skipn_skipn, Nat.add_comm.
Qed.

Lemma physical_cases (actual expected : option string) (whole : bool) :
  let state := match actual, expected with
               | None, _ => PUnchecked
               | Some _, None => PUnverified
               | Some a, Some e => if negb (String.eqb a e) then PDrift else if whole then PCurrent else PPrefix
               end in
  (state = PUnchecked <-> actual = None) /\
  (state = PDrift <-> exists a e, actual = Some a /\ expected = Some e /\ a <> e) /\
  (state = PCurrent -> whole = true /\ actual = expected).
Proof.
  destruct actual as [a|], expected as [e|]; cbn zeta iota; [destruct (String.eqb a e) eqn:E; bool_hyps; cbn [negb]; [destruct whole|]| | |];
    (split; [split; intros; done|]); (split; [split; [intros; try done|intros (? & ? & ? & ? & ?); try done; congruence]|intros; split; congruence]).
  by exists a, e.
Qed.
(** The status of a database says what its next run does: its pending files are those [pending] gives; its ledger is
    current exactly when nothing is left to run on it; and its schema is reported as moved exactly when the definitions
    found differ from those its last migration was verified with. *)
Theorem status_tells (applied : list Applied) (physical : option (list string)) (s : MigrationStatus)
    (Hs : migrationStatus number_text locale_lt files lock applied snapshot squashes physical = inr s) :
  pending number_text locale_lt files lock applied snapshot squashes = inr (s_pending s) /\
  (s_ledger s = LEmpty <-> applied = []) /\
  (s_ledger s = LCurrent <-> applied <> [] /\ s_pending s = []) /\
  (s_physical s = PUnchecked <-> physical = None) /\
  (s_physical s = PDrift <-> exists a e, s_actual s = Some a /\ s_expected s = Some e /\ a <> e) /\
  (s_physical s = PCurrent -> applied <> [] -> s_pending s = [] /\ s_actual s = s_expected s).
Proof.
  unfold migrationStatus in Hs. inv_fx. subst s. unfold pending. rewrite E. cbn [mbind Fx_bind s_pending s_ledger s_physical s_actual s_expected].
  split; [done|]. unfold migrationHistory in E. destruct (source _ _ _ _ _) as [|[O B]] eqn:Es; [done|]. cbn [mbind Fx_bind fst snd] in E.
  destruct (source_sound _ _ _ _ _ _ _ Es) as [_ HS]. apply (continue_inv _ _ _ HS) in E as (c & n & _ & _ & _ & _ & _ & -> & Hw).
  match goal with |- context [(?x =? ?y)%nat] => assert ((x =? y)%nat = true <-> x = y) as Hn by apply Nat.eqb_eq; destruct (x =? y)%nat end;
    match goal with |- context [match option_map _ physical with Some _ => match ?e with Some _ => _ | None => _ end | None => _ end] => generalize e end;
    intros expected; pose proof (physical_cases (option_map (physicalHash number_text) physical) expected) as P.
  - destruct (P true) as (P1 & P2 & P3). split; [by destruct applied|]. split; [|split; [rewrite P1; by destruct physical|split; [done|]]].
    + destruct applied as [|a l]; [naive_solver|]. split; [|done]. intros _. split; [done|]. apply Hw; [done|]. by apply Hn.
    + intros Hc Hne. apply P3 in Hc as [_ Hc]. split; [|done]. apply Hw; [done|]. by apply Hn.
  - destruct (P false) as (P1 & P2 & P3). split; [by destruct applied|]. split; [|split; [rewrite P1; by destruct physical|split; [done|]]].
    + destruct applied as [|a l]; [naive_solver|]. split; [done|]. intros [_ H]. apply Hw in H; [|done]. apply Hn in H. done.
    + intros Hc. by apply P3 in Hc as [? _].
Qed.
End Ledger.
End Chain.

(** ** What is verified is accepted. *)
Module Squashes.
Import Ordered Chain.

(** A SHA-256 is 64 hexadecimal digits. *)
Lemma hex_digit_hex d : 0 <= d < 16 -> is_hex (hex_digit d) = true.
Proof.
  intros H. assert (d = 0 \/ d = 1 \/ d = 2 \/ d = 3 \/ d = 4 \/ d = 5 \/ d = 6 \/ d = 7 \/ d = 8 \/ d = 9 \/ d = 10 \/ d = 11 \/ d = 12 \/ d = 13 \/ d = 14 \/ d = 15) as C by lia.
  repeat (destruct C as [->|C]; [reflexivity|]). by subst.
Qed.
Lemma toHex_hex b : Forall Sha256.is_byte b -> all_chars is_hex (toHex b) = true /\ String.length (toHex b) = (2 * length b)%nat.
Proof.
  induction 1 as [|x b Hx _ [IH1 IH2]]; [done|]. unfold Sha256.is_byte in Hx. cbn [toHex all_chars String.length length].
  rewrite !hex_digit_hex, IH1, IH2 by dlia. split; [done|lia].
Qed.
Lemma compress_length h b : length h = 8%nat -> length (compress h b) = 8%nat.
Proof. intros H. unfold compress. rewrite length_zip_with, H. done. Qed.
Lemma sha256Hex_hex s : all_chars is_hex (sha256Hex s) = true /\ String.length (sha256Hex s) = 64%nat.
Proof.
  unfold sha256Hex, scalar. set (h := fold_left compress _ _). assert (length h = 8%nat) as Hl.
  { unfold h. generalize (blocks (utf8 s)). intros bs. assert (length H256 = 8%nat) as H by done. revert H. generalize H256.
    induction bs as [|b bs IH]; intros x Hx; [done|]. by apply IH, compress_length. }
  destruct (toHex_hex (concat (map be32 h))) as [H1 H2].
  - apply Forall_concat, Forall_map, Forall_forall. intros v _. apply Sha256.be32_bytes.
  - split; [done|]. rewrite H2. do 9 (destruct h as [|? h]; try discriminate Hl). done.
Qed.

Lemma orderedFiles_self O : numbered 0 O -> orderedFiles O = inr O.
Proof. intros H. apply orderedFiles_spec. split; [|done]. symmetry. apply sort_number_unique; [done|]. by apply (numbered_sorted 0). Qed.
Lemma checkSquash_inv files O : checkSquashSources files = inr O -> orderedFiles files = inr O /\ O <> [] /\ refuse_first squash_file_fault O = inr tt.
Proof.
  unfold checkSquashSources. intros H. inv_fx. destruct l as [|f l]; [done|]. inv_fx. subst O. done.
Qed.
Lemma checkSquash_self files O : checkSquashSources files = inr O -> checkSquashSources O = inr O.
Proof.
  intros (Ho & Hn & Hr)%checkSquash_inv. apply orderedFiles_spec in Ho as [_ Ho]. unfold checkSquashSources. rewrite (orderedFiles_self O Ho). cbn [mbind Fx_bind].
  destruct O; [done|]. by rewrite Hr.
Qed.
(** The files that come first in number come first in any larger numbered list. *)
Lemma numbered_prefix O o : numbered 0 O -> numbered 0 o -> (forall f, f ∈ o -> f ∈ O) -> take (length o) O = o.
Proof.
  intros HO Ho Hin. apply list_eq. intros k. destruct (decide (k < length o)%nat) as [Hk|Hk].
  - rewrite lookup_take_lt by done. destruct (lookup_lt_is_Some_2 o k Hk) as [f Hf]. rewrite Hf.
    assert (f ∈ O) as (j & Hj)%list_elem_of_lookup by (apply Hin; by eapply list_elem_of_lookup_2).
    destruct (numbered_lookup _ _ _ _ Ho Hf) as [E1 _]. destruct (numbered_lookup _ _ _ _ HO Hj) as [E2 _]. rewrite E1 in E2. injection E2 as E2.
    by replace k with j by lia.
  - rewrite lookup_take_ge by lia. symmetry. apply lookup_ge_None_2. lia.
Qed.
Lemma checkLocked_of snapshot O proofs : NoDup (map f_name O) -> checkLocked O (lock_of snapshot O proofs) (Some snapshot) = inr tt.
Proof.
  intros Hn. unfold checkLocked, lock_of. cbn [l_snapshot l_files]. rewrite String.eqb_refl. cbn [negb refuse_if mbind Fx_bind].
  assert (find (fun f => negb (opt_eqb (get (map_of (map (fun f => (f_name f, checksumOf f)) O)) (f_name f)) (checksumOf f))) O = None) as ->.
  { destruct (find _ O) as [f|] eqn:E; [|done]. apply find_some in E as [Hf%list_elem_of_In E].
    rewrite (Marks.map_of_in _ _ (checksumOf f)) in E; [cbn in E; by rewrite String.eqb_refl in E|by rewrite map_map|]. apply list_elem_of_fmap. by exists f. }
  cbn [mbind Fx_bind]. destruct (find _ (keys _)) as [name|] eqn:E; [|done]. exfalso. apply find_some in E as [Hk%list_elem_of_In E].
  apply list_elem_of_fmap in Hk as ([k v] & -> & Hk). apply in_get in Hk; [|apply Marks.wf_map_of].
  apply Marks.map_of_get, list_elem_of_fmap in Hk as (f & [= -> ->] & Hf). cbn [fst] in E. by rewrite known_has in E.
Qed.

Lemma source_unsquashed number_text files O snapshot proofs : default [] (p_squashes proofs) = [] -> orderedFiles files = inr O ->
  source number_text files (lock_of snapshot O proofs) (Some snapshot) [] = inr (O, []).
Proof.
  intros Hq HO. unfold source. rewrite HO. cbn [mbind Fx_bind]. apply orderedFiles_spec in HO as [_ HO].
  rewrite checkLocked_of by (by apply (numbered_names 0)). cbn [mbind Fx_bind lock_of l_squashes each mret Fx_ret]. by rewrite Hq.
Qed.
Lemma source_plain number_text files O snapshot physical : orderedFiles files = inr O ->
  source number_text files (lock_of snapshot O (MkProofs None physical)) (Some snapshot) [] = inr (O, []).
Proof. by apply source_unsquashed. Qed.
(** Every baseline of a source is a squash file given, under a receipt of the lock. *)
Lemma source_receipts number_text files lock snapshot squashes O B : source number_text files lock snapshot squashes = inr (O, B) ->
  forall name b, get B name = Some b -> bl_receipt b ∈ default [] (l_squashes lock) /\ bl_file b ∈ squashes /\ f_name (bl_file b) = sr_file (bl_receipt b).
Proof.
  intros H. unfold source in H. inv_fx. destruct (find _ squashes); [done|]. injection H as -> ->.
  assert (forall name f, get l0 name = Some f -> f ∈ squashes /\ f_name f = name) as Hl.
  { eapply (RenameFacts.each_inv load_squash (fun d => forall name f, get d name = Some f -> f ∈ squashes /\ f_name f = name)); [| |eassumption]; [|done].
    intros d f d' Hf Hd. unfold load_squash. destruct (has_own d _); [done|]. intros [= <-] name g. destruct (decide (f_name f = name)) as [<-|Hne].
    + rewrite get_set_eq. by intros [= <-].
    + rewrite get_set_ne by done. apply Hd. }
  eapply (RenameFacts.each_inv _ (fun B => forall name b, get B name = Some b ->
    bl_receipt b ∈ default [] (l_squashes lock) /\ bl_file b ∈ squashes /\ f_name (bl_file b) = sr_file (bl_receipt b))); [| |eassumption]; [|done].
  intros B0 receipt B1 Hr HB Ht. unfold take_receipt in Ht. destruct (_ || _); [done|].
  destruct (get l0 (sr_file receipt)) as [f|] eqn:El; [|done]. inv_fx. subst B1. intros name b.
  destruct (decide (sr_file receipt = name)) as [<-|Hne]; [rewrite get_set_eq; intros [= <-]; cbn; by destruct (Hl _ _ El)|rewrite get_set_ne by done; apply HB].
Qed.

Section Writers.
Variable number_text : number -> string.
Variable locale_lt : string -> string -> bool.

Lemma take_receipt_verified O o originals file archived baseline r lock loaded :
  numbered 0 O -> checkSquashSources originals = inr o -> (forall f, f ∈ o -> f ∈ O) ->
  verifySquash number_text originals file archived baseline = inr r ->
  get loaded (f_name file) = Some file ->
  (get (default [] (l_physical lock)) (f_name file) = None \/ get (default [] (l_physical lock)) (f_name file) = Some (sr_proof r)) ->
  take_receipt number_text O lock loaded [] r = inr [(f_name file, MkBaseline file r)] /\ bl_cutoff (MkBaseline file r) = length o.
Proof.
  intros HO Ho Hin Hv Hl Hp. unfold verifySquash in Hv. rewrite Ho in Hv. cbn [mbind Fx_bind] in Hv. inv_fx. destruct (_ || _) eqn:Ec in Hv; [done|].
  destruct (negb (String.eqb _ _)); [done|]. injection Hv as <-. apply orb_false_iff in Ec as [En1 En2]. apply negb_false_iff, bool_decide_eq_true in En1.
  match goal with H : checkFile file = _ |- _ => pose proof (checkFile_same _ _ H) as -> end.
  pose proof (checkSquash_inv _ _ Ho) as (Hord & Hne & _). apply orderedFiles_spec in Hord as [_ Hon].
  pose proof (numbered_prefix O o HO Hon Hin) as Ht. unfold take_receipt. cbn [sr_file sr_replaces sr_archive sr_checksum sr_proof].
  assert (length (appliedOf o) = length o) as Hlen by (unfold appliedOf; apply length_map).
  assert (has_own (known_of O) (f_name file) = false) as ->.
  { unfold has_own. destruct (get (known_of O) (f_name file)) as [g|] eqn:Eg; [|done]. apply known_get in Eg as [Hg Hgn]; [|by eapply numbered_names].
    apply list_elem_of_lookup in Hg as (j & Hj). destruct (numbered_lookup _ _ _ _ HO Hj) as [En _]. rewrite Hgn, En1 in En. injection En as En.
    assert (g ∈ o) as Hgo. { rewrite <- Ht. apply list_elem_of_lookup. exists j. rewrite lookup_take_lt; [done|lia]. }
    assert (existsb (fun x => String.eqb (f_name x) (f_name file)) o = true) as W; [|congruence].
    apply existsb_exists. exists g. split; [by apply list_elem_of_In|]. by rewrite Hgn, String.eqb_refl. }
  cbn [has_own get is_some orb]. rewrite Hl.
  match goal with H : checkFile file = _ |- _ => rewrite H end. cbn [mbind Fx_bind].
  match goal with H : checkSquashBaseline file = _ |- _ => rewrite H end. cbn [mbind Fx_bind]. rewrite Hlen, Ht, !String.eqb_refl, En1.
  rewrite bool_decide_eq_true_2 by done. destruct (length o =? 0)%nat eqn:Ez; [apply Nat.eqb_eq in Ez; by destruct o|]. cbn [orb negb refuse_if mbind Fx_bind].
  rewrite (checkSquash_self _ _ Ho). cbn [mbind Fx_bind]. destruct (sha256Hex_hex (canonical number_text (JArray (map JString (sorted_lines baseline))))) as [H1 H2].
  unfold physicalHash in *. rewrite H1, H2. cbn [andb negb orb Nat.eqb refuse_if mbind Fx_bind sr_proof] in *.
  split; [|exact Hlen]. destruct Hp as [-> | ->]; [|rewrite String.eqb_refl]; done.
Qed.
(** C23. A squash the host has verified is accepted: with the lock [lockOf] writes for the originals and any later files,
    the receipt [verifySquash] gave and no other proof of its file, a new database is left with the baseline and then
    exactly the files after the originals it replaces. *)
Theorem squash_accepted (originals later : list MigrationFile) (file : MigrationFile) (archived baseline : list string) (r : SquashReceipt)
    (O o : list MigrationFile) (snapshot : string) (physical : option (dict string))
    (Hv : verifySquash number_text originals file archived baseline = inr r)
    (Ho : orderedFiles originals = inr o) (HO : orderedFiles (originals ++ later) = inr O)
    (Hp : get (default [] physical) (f_name file) = None \/ get (default [] physical) (f_name file) = Some (sr_proof r)) :
  let lock := lock_of snapshot O (MkProofs (Some [r]) physical) in
  take (length o) O = o /\
  pending number_text locale_lt (originals ++ later) lock [] (Some snapshot) [file] = inr (file :: skipn (length o) O).
Proof.
  intros lock. assert (checkSquashSources originals = inr o) as Hs.
  { unfold verifySquash in Hv. destruct (checkSquashSources originals) as [|x] eqn:E; [done|]. pose proof (checkSquash_inv _ _ E) as [Hx _]. congruence. }
  pose proof HO as [EO Hn]%orderedFiles_spec. pose proof Ho as [Eo Hno]%orderedFiles_spec.
  assert (forall f, f ∈ o -> f ∈ O) as Hin.
  { intros f Hf. rewrite EO. unfold sort_number. rewrite Order.sort_rank_perm. apply elem_of_app. left. rewrite Eo in Hf. unfold sort_number in Hf. by rewrite Order.sort_rank_perm in Hf. }
  split; [by apply numbered_prefix|].
  assert (get [(f_name file, file)] (f_name file) = Some file) as Hg by (cbn; by rewrite String.eqb_refl).
  destruct (take_receipt_verified O o originals file archived baseline r lock [(f_name file, file)] Hn Hs Hin Hv Hg Hp) as [Et Hc].
  assert (source number_text (originals ++ later) lock (Some snapshot) [file] = inr (O, [(f_name file, MkBaseline file r)])) as Hsrc.
  { unfold source. rewrite HO. cbn [mbind Fx_bind].
    pose proof (checkLocked_of snapshot O (MkProofs (Some [r]) physical) (numbered_names 0 O Hn)) as Hcl. fold lock in Hcl. rewrite Hcl. cbn [mbind Fx_bind each load_squash has_own get is_some].
    change (default [] (l_squashes lock)) with [r]. cbn [mret Fx_ret mbind Fx_bind set each]. rewrite Et. cbn [mbind Fx_bind mret Fx_ret find].
    unfold has_own. cbn [get]. rewrite String.eqb_refl. done. }
  apply (pending_chain _ _ _ _ _ _ _ _ _ _ Hsrc). exists (file :: skipn (length o) O), 0%nat.
  assert (chosen locale_lt O [(f_name file, MkBaseline file r)] = file :: skipn (length o) O) as Ech by (unfold chosen; cbn [longest values map fold_right insert_first head snd bl_file]; by rewrite Hc).
  split; [|split; [done|by split]]. rewrite <- Ech. apply chosen_chain. by eapply source_sound.
Qed.
End Writers.
End Squashes.

(** ** The lock of a verification is the one a run reads. *)
Module Verified.
Import Ordered Chain Squashes.

(** A value [JSON.parse] reads back from its text as it is: distinct keys, and none of them an array index. *)
Fixpoint clean (v : Json) : Prop :=
  match v with
  | JArray l => fold_right (fun x P => clean x /\ P) True l
  | JObject o => wf_dict o /\ Forall (fun kv => is_index (fst kv) = false) o /\ fold_right (fun kv P => clean (snd kv) /\ P) True o
  | _ => True
  end.
Lemma clean_array {A} (f : A -> Json) l : (forall x, x ∈ l -> clean (f x)) -> clean (JArray (map f l)).
Proof. induction l as [|x l IH]; cbn; [done|]. intros H. split; [apply H; by left|]. apply IH. intros y Hy. apply H. by right. Qed.
Lemma clean_object {A} (f : A -> Json) (d : dict A) : wf_dict d -> Forall (fun kv => is_index (fst kv) = false) d -> (forall k x, (k, x) ∈ d -> clean (f x)) ->
  clean (JObject (map (fun kv => (fst kv, f (snd kv))) d)).
Proof.
  intros Hw Hi Hf. cbn [clean]. split; [|split].
  - unfold wf_dict, keys in *. by rewrite map_map.
  - apply Forall_map. exact Hi.
  - clear Hw Hi. induction d as [|[k x] d IH]; cbn; [done|]. split; [apply (Hf k); by left|]. apply IH. intros k' y Hy. apply (Hf k'). by right.
Qed.
Lemma opt_map_map {A B} (f : B -> option A) (g : A -> B) l : (forall x, x ∈ l -> f (g x) = Some x) -> opt_map f (map g l) = Some l.
Proof.
  induction l as [|x l IH]; [done|]. intros H. cbn [map opt_map]. rewrite H by (by left). cbn. rewrite IH; [done|]. intros y Hy. apply H. by right.
Qed.
Lemma as_record_map {A} (f : Json -> option A) (g : A -> Json) (d : dict A) : (forall k x, (k, x) ∈ d -> f (g x) = Some x) ->
  as_record f (JObject (map (fun kv => (fst kv, g (snd kv))) d)) = Some d.
Proof.
  intros H. cbn [as_record]. apply (opt_map_map (fun kv => option_map (pair (fst kv)) (f (snd kv))) (fun kv => (fst kv, g (snd kv)))).
  intros [k x] Hx. cbn [fst snd]. by rewrite (H k x).
Qed.
Lemma as_texts_json d : as_texts (texts_json d) = Some d.
Proof. unfold as_texts, texts_json. apply (as_record_map as_text JString). done. Qed.
Lemma as_applied_json a : as_applied (applied_json a) = Some a.
Proof. by destruct a. Qed.
Lemma as_receipt_json r : as_receipt (receipt_json r) = Some r.
Proof.
  destruct r as [f c a rs p]. unfold as_receipt, receipt_json, text_member, member_of. cbn -[as_list].
  unfold as_list. rewrite (opt_map_map as_applied applied_json) by (intros; apply as_applied_json). done.
Qed.
Lemma as_lock_json l : as_lock (lock_json l) = Some l.
Proof.
  destruct l as [s f q p]. unfold as_lock, lock_json, text_member, member_of. cbn [l_snapshot l_files l_squashes l_physical].
  assert (as_list as_receipt (JArray (map receipt_json (default [] q))) = Some (default [] q)) as Hq by (apply opt_map_map; intros; apply as_receipt_json).
  assert (forall d, as_texts (texts_json d) = Some d) as Ht by apply as_texts_json.
  destruct q as [q|], p as [p|]; cbn -[as_list as_texts texts_json]; rewrite !Ht; cbn -[as_list as_texts texts_json]; cbn [default] in Hq; unfold id in Hq;
    rewrite ?Hq, ?Ht; done.
Qed.
Definition clean_names (d : option (dict string)) : Prop := wf_dict (default [] d) /\ Forall (fun kv => is_index (fst kv) = false) (default [] d).
Lemma clean_texts d : wf_dict d -> Forall (fun kv => is_index (fst kv) = false) d -> clean (texts_json d).
Proof. intros H1 H2. by apply (clean_object JString). Qed.
Lemma clean_receipt r : clean (receipt_json r).
Proof.
  destruct r. unfold receipt_json. cbn [clean fst snd fold_right sr_replaces]. split; [apply (bool_decide_eq_true_1 _); reflexivity|].
  split; [repeat constructor|]. split_and!; try done. induction sr_replaces0 as [|a l IH]; [done|]. cbn [map fold_right]. split; [|done].
  cbn. split_and!; try done; [apply (bool_decide_eq_true_1 _); reflexivity|repeat constructor].
Qed.
Lemma clean_lock l : wf_dict (l_files l) -> Forall (fun kv => is_index (fst kv) = false) (l_files l) -> clean_names (l_physical l) -> clean (lock_json l).
Proof.
  destruct l as [s f q p]. cbn [l_files l_physical]. intros H1 H2 [H3 H4]. unfold lock_json. cbn [l_snapshot l_files l_squashes l_physical].
  pose proof (clean_texts f H1 H2) as Hf.
  assert (clean (JArray (map receipt_json (default [] q)))) as Hq by (apply clean_array; intros; apply clean_receipt).
  assert (clean (texts_json (default [] p))) as Hp by (by apply clean_texts).
  destruct q as [q|], p as [p|]; cbn [option_map opt_member app clean fst snd fold_right default] in *; unfold id in *;
    (split; [apply (bool_decide_eq_true_1 _); reflexivity|split; [repeat constructor|split_and!; done]]).
Qed.
(** A migration's name is no array index. *)
Lemma name_no_index name n : number_of name = Some n -> is_index name = false.
Proof.
  unfold number_of. destruct (NAME name) eqn:E; [|done]. intros _. unfold NAME in E. apply andb_true_iff in E as [E1 E2].
  unfold is_index. destruct (all_chars is_digit name) eqn:Ed; [|done]. exfalso. apply (all_chars_drop is_digit 4) in Ed.
  destruct (drop 4 name) as [|c r]; [done|]. apply andb_true_iff in E2 as [Ec _]. apply Ascii.eqb_eq in Ec as ->. done.
Qed.

Section Json.
Variable number_text : number -> string.
Variable locale_lt : string -> string -> bool.
Variable decode_snapshot : string -> string + SchemaSpec.
Variable pretty : Json -> string.
Variable parse : string -> option Json.
Variable fault_of : string -> string.
(** A text [JSON.stringify] wrote parses to its value, also with a line break after it. *)
Hypothesis parse_pretty : forall v, clean v -> parse (pretty v +:+ Evolve.line) = Some v.

Lemma readLock_lockOf snapshot O proofs : numbered 0 O -> clean_names (p_physical proofs) ->
  readLock parse fault_of (lockOf pretty snapshot O proofs) = inr (lock_of snapshot O proofs).
Proof.
  intros Hn Hp. unfold readLock, lockOf. rewrite parse_pretty.
  - cbn [mbind option_bind]. by rewrite as_lock_json.
  - apply clean_lock; [apply Marks.wf_map_of| |done]. apply Forall_forall. intros [k v] Hk. cbn [lock_of l_files] in Hk.
    apply in_get in Hk; [|apply Marks.wf_map_of]. apply Marks.map_of_get, list_elem_of_fmap in Hk as (f & [= -> ->] & Hf).
    apply list_elem_of_lookup in Hf as (j & Hj). destruct (numbered_lookup _ _ _ _ Hn Hj) as [E _]. by eapply name_no_index.
Qed.
Lemma missing_lines_none a b : missing_lines a b = [] <-> forall l, l ∈ b -> l ∈ a.
Proof.
  unfold missing_lines. split.
  - intros E l Hl. destruct (includes a l) eqn:Ei; [by apply includes_spec|]. exfalso.
    assert (l ∈ List.filter (fun x => negb (includes a x)) b) as H by (apply Marks.elem_of_List_filter; by rewrite Ei). rewrite E in H. by apply elem_of_nil in H.
  - intros H. destruct (List.filter _ b) as [|l r] eqn:E; [done|]. exfalso.
    assert (l ∈ List.filter (fun x => negb (includes a x)) b) as Hl by (rewrite E; by left). apply Marks.elem_of_List_filter in Hl as [Hl Hi].
    apply H, includes_spec in Hl. by rewrite Hl in Hi.
Qed.
(** C27. What a verification passes, a run takes: when [verify] accepts the committed files, its snapshot is the declared
    schema, the replay left exactly the definitions the schema builds, the proof kept of the last file is of that replay, and
    the lock it writes reads back as it was made, with the checksum of every file, the receipts and the proofs. With that lock
    a new database whose lock holds no squash runs every file, in order; and whatever squash files are given, what a new
    database is left to run is every file in order, or one given squash, of the checksum its receipt in the lock has, and
    then exactly the files after the prefix that receipt replaces. *)
Theorem verified_runs (files : list MigrationFile) (snapshot text : string) (schema : SchemaSpec) (replayed declared : list string) (proofs : MigrationProofs)
    (Hphysical : clean_names (p_physical proofs))
    (Hv : verify number_text decode_snapshot pretty files snapshot schema replayed declared proofs = inr text) :
  exists O held, orderedFiles files = inr O /\ decode_snapshot snapshot = inr held /\
    canonical number_text (schema_json held) = canonical number_text (schema_json schema) /\
    (forall l, l ∈ replayed <-> l ∈ declared) /\
    (forall proof, get (default [] (p_physical proofs)) (head_name O) = Some proof -> proof = physicalHash number_text replayed) /\
    let lock := MkLock (sha256Hex snapshot) (map_of (map (fun f => (f_name f, checksumOf f)) O)) (p_squashes proofs) (p_physical proofs) in
    readLock parse fault_of text = inr lock /\
    (default [] (p_squashes proofs) = [] -> pending number_text locale_lt files lock [] (Some snapshot) [] = inr O) /\
    (forall squashes left_, pending number_text locale_lt files lock [] (Some snapshot) squashes = inr left_ ->
       left_ = O \/ exists receipt file, receipt ∈ default [] (p_squashes proofs) /\ file ∈ squashes /\ f_name file = sr_file receipt /\
         checksumOf file = sr_checksum receipt /\ sr_replaces receipt = appliedOf (take (length (sr_replaces receipt)) O) /\
         left_ = file :: skipn (length (sr_replaces receipt)) O).
Proof.
  unfold verify in Hv. inv_fx.
  match goal with H : readSnapshot _ _ = inr ?h, H2 : current _ _ _ = _, H3 : orderedFiles _ = inr ?o |- _ => rename h into held, o into O, H into Hr, H2 into Hc, H3 into HO end.
  unfold readSnapshot in Hr. destruct (decode_snapshot snapshot) as [|held'] eqn:Ed; [done|]. injection Hr as ->.
  unfold current in Hc. destruct (String.eqb (canonical _ _) _) eqn:Ec; [|done]. apply String.eqb_eq in Ec.
  pose proof (missing_lines_none replayed declared) as M1. pose proof (missing_lines_none declared replayed) as M2.
  destruct (missing_lines replayed declared) as [|? ?]; [|done]. destruct (missing_lines declared replayed) as [|? ?]; [|done].
  assert (text = lockOf pretty snapshot O proofs /\ forall proof, get (default [] (p_physical proofs)) (head_name O) = Some proof -> proof = physicalHash number_text replayed) as [-> Hproof].
  { destruct (get _ _) as [p|]; [destruct (String.eqb p _) eqn:E; [apply String.eqb_eq in E|done]|]; injection Hv as <-; split; try done. by intros ? [= <-]. }
  pose proof HO as [_ Hn]%orderedFiles_spec. exists O, held. fold (lock_of snapshot O proofs).
  split; [done|]. split; [done|]. split; [done|]. split; [intros l; split; [by apply M2|by apply M1]|]. split; [done|]. split; [by apply readLock_lockOf|]. split.
  - intros Hq. pose proof (source_unsquashed number_text files O snapshot proofs Hq HO) as Hsrc.
    apply (pending_chain _ _ _ _ _ _ _ _ _ _ Hsrc). exists O, 0%nat. split; [constructor|]. by split; [|split].
  - intros squashes left_ Hp. destruct (source number_text files (lock_of snapshot O proofs) (Some snapshot) squashes) as [|[O' B]] eqn:Hsrc.
    { unfold pending, migrationHistory in Hp. by rewrite Hsrc in Hp. }
    pose proof (source_sound _ _ _ _ _ _ _ Hsrc) as [HO' HS]. assert (O' = O) as EO by congruence. subst O'.
    destruct (proj1 (pending_chain _ _ _ _ _ _ _ _ _ _ Hsrc) Hp) as (c & n & Hc' & _ & Ha & ->).
    apply Permutation_nil_l in Ha. inversion Hc' as [|name b Hb]; subst c.
    + left. unfold appliedOf in Ha. destruct n as [|n]; [done|]. destruct O; [done|]. discriminate Ha.
    + right. destruct n; [|discriminate Ha]. destruct (source_receipts _ _ _ _ _ _ _ Hsrc name b Hb) as (H1 & H2 & H3).
      destruct (snd_receipt _ _ HS _ _ Hb) as (_ & H4 & H5 & _). exists (bl_receipt b), (bl_file b). by split_and!.
Qed.
End Json.
End Verified.

(** ** The definitions a proof keeps are read back. *)
Module Physical.
Import Ordered Verified.

Lemma fresh_key {A} (d l : dict A) k x : NoDup (keys (d ++ (k, x) :: l)) -> k ∉ keys d.
Proof. unfold keys. rewrite map_app. intros (_ & H & _)%NoDup_app Hk. apply (H k Hk). by left. Qed.
Lemma map_of_id {A} (l : dict A) : wf_dict l -> map_of l = l.
Proof.
  unfold map_of. assert (forall d : dict A, NoDup (keys (d ++ l)) -> fold_left (fun d kv => set d (fst kv) (snd kv)) l d = d ++ l) as H; [|apply (H [])].
  induction l as [|[k x] l IH]; intros d Hd; cbn [fold_left fst snd]; [by rewrite app_nil_r|].
  rewrite set_fresh by (by apply get_none, (fresh_key d l k x)).
  rewrite IH; [by rewrite <- app_assoc|]. by rewrite <- app_assoc.
Qed.

Definition indexed (st : list string * dict Z) : Prop :=
  NoDup (fst st) /\ (forall l i, get (snd st) l = Some i -> 0 <= i /\ nth_error (fst st) (Z.to_nat i) = Some l) /\
  (forall l, l ∈ fst st -> is_some (get (snd st) l) = true).
Lemma index_line_spec st line : indexed st -> let '(st', i) := index_line st line in
  indexed st' /\ (exists more, fst st' = fst st ++ more /\ (length more <= 1)%nat) /\ 0 <= i /\ nth_error (fst st') (Z.to_nat i) = Some line.
Proof.
  intros (Hn & Hg & Hi). unfold index_line. destruct (get (snd st) line) as [i|] eqn:E.
  - destruct (Hg _ _ E) as [H0 Hl]. split; [done|]. split; [exists []; rewrite app_nil_r; split; [done|cbn; lia]|done].
  - cbn [fst snd]. assert (line ∉ fst st) as Hl. { intros H%Hi. by rewrite E in H. }
    assert (nth_error (fst st ++ [line]) (Z.to_nat (Z.of_nat (length (fst st)))) = Some line) as Hlast.
    { rewrite Nat2Z.id, nth_error_app2, Nat.sub_diag by done. done. }
    split; [|split; [exists [line]; by split|split; [lia|done]]]. split; [|split]; cbn [fst snd].
    + apply NoDup_app. repeat split; [done| |apply NoDup_singleton]. intros x Hx Hx'%list_elem_of_singleton. by subst.
    + intros l i. destruct (decide (line = l)) as [<-|Hne].
      * rewrite get_set_eq. intros [= <-]. split; [lia|done].
      * rewrite get_set_ne by done. intros [H0 H]%Hg. split; [done|]. rewrite nth_error_app1; [done|]. by apply nth_error_Some; rewrite H.
    + intros l [H|H%list_elem_of_singleton]%elem_of_app; [|subst; by rewrite get_set_eq].
      destruct (decide (line = l)) as [<-|Hne]; [by rewrite get_set_eq|]. rewrite get_set_ne by done. by apply Hi.
Qed.
Lemma nth_more {A} (l more : list A) n x : nth_error l n = Some x -> nth_error (l ++ more) n = Some x.
Proof. intros H. rewrite nth_error_app1; [done|]. by apply nth_error_Some; rewrite H. Qed.
Lemma fx_map_ok {A B} (f : A -> Fx B) (l : list A) (m : list B) : Forall2 (fun x y => f x = inr y) l m -> fx_map f l = inr m.
Proof. induction 1 as [|x y l m H _ IH]; [done|]. cbn [fx_map]. rewrite H. cbn [mbind Fx_bind]. by rewrite IH. Qed.
(** The indices of lines, in any table that keeps theirs first. *)
Definition resolves (lines : list string) (i : Z) (l : string) : Prop := 0 <= i < Z.of_nat (length lines) /\ nth_error lines (Z.to_nat i) = Some l.
Lemma resolves_more lines more i l : resolves lines i l -> resolves (lines ++ more) i l.
Proof. intros [H1 H2]. split; [rewrite length_app; lia|by apply nth_more]. Qed.
Lemma index_lines_spec ls st : indexed st -> let '(st', is_) := index_lines st ls in
  indexed st' /\ (exists more, fst st' = fst st ++ more /\ (length more <= length ls)%nat) /\ Forall2 (resolves (fst st')) is_ ls.
Proof.
  revert st. induction ls as [|l ls IH]; intros st Hst; cbn [index_lines].
  - split; [done|]. split; [exists []; rewrite app_nil_r; split; [done|cbn; lia]|constructor].
  - pose proof (index_line_spec st l Hst) as H. destruct (index_line st l) as [st1 i]. destruct H as (H1 & (more & E & Hm) & H0 & Hl).
    specialize (IH st1 H1). destruct (index_lines st1 ls) as [st2 is_]. destruct IH as (H2 & (more2 & E2 & Hm2) & HF). split; [done|]. split.
    + exists (more ++ more2). rewrite E2, E, app_assoc, length_app. split; [done|]. cbn. lia.
    + constructor; [|done]. rewrite E2. apply resolves_more. split; [|done]. split; [done|]. assert (Z.to_nat i < length (fst st1))%nat by (by apply nth_error_Some; rewrite Hl). lia.
Qed.
Definition all_lines (es : dict (list string)) : list string := concat (map snd es).
Lemma all_lines_perm es es' : es ≡ₚ es' -> all_lines es ≡ₚ all_lines es'.
Proof.
  unfold all_lines. induction 1 as [|x l l' _ IH|x y l|l l' l'' _ IH1 _ IH2]; cbn [map concat]; [done|by rewrite IH| |by etrans].
  rewrite !app_assoc. by rewrite (Permutation_app_comm (snd y)).
Qed.
Lemma index_entries_spec es st : indexed st -> let '(st', ps) := index_entries st es in
  indexed st' /\ (exists more, fst st' = fst st ++ more /\ (length more <= length (all_lines es))%nat) /\
  Forall2 (fun p e => fst p = fst e /\ Forall2 (resolves (fst st')) (snd p) (snd e)) ps es.
Proof.
  revert st. induction es as [|[name ls] es IH]; intros st Hst; cbn [index_entries].
  - split; [done|]. split; [exists []; rewrite app_nil_r; split; [done|cbn; lia]|constructor].
  - pose proof (index_lines_spec ls st Hst) as H. destruct (index_lines st ls) as [st1 is_]. destruct H as (H1 & (more & E & Hm) & Hl).
    specialize (IH st1 H1). destruct (index_entries st1 es) as [st2 ps]. destruct IH as (H2 & (more2 & E2 & Hm2) & HF). split; [done|]. split.
    + exists (more ++ more2). rewrite E2, E, app_assoc, length_app. split; [done|]. unfold all_lines in *. cbn [map concat snd]. rewrite length_app. lia.
    + constructor; [|done]. cbn [fst snd]. split; [done|]. rewrite E2. eapply Forall2_impl; [exact Hl|]. intros. by apply resolves_more.
Qed.
Lemma expand_entries lines ps es : Forall2 (fun p e => fst p = fst e /\ Forall2 (resolves lines) (snd p) (snd e)) ps es ->
  forall d, NoDup (keys (d ++ es)) -> each (expand_entry lines) ps d = inr (d ++ es).
Proof.
  induction 1 as [|[n is_] [n' ls] ps es [E HF] _ IH]; intros d Hd; cbn [each].
  - by rewrite app_nil_r.
  - cbn [fst snd] in *. subst n'. assert (expand_entry lines d (n, is_) = inr (set d n ls)) as ->.
    { unfold expand_entry. cbn [fst snd]. rewrite (fx_map_ok _ _ ls); [done|].
      eapply Forall2_impl; [exact HF|]. intros i l [H0 Hl]. unfold line_at. rewrite (proj2 (Z.ltb_ge i 0)) by lia. by rewrite Hl. }
    cbn [mbind Fx_bind]. rewrite set_fresh by (by apply get_none, (fresh_key d es n ls)).
    rewrite IH; [by rewrite <- app_assoc|]. by rewrite <- app_assoc.
Qed.

Section Codec.
Variable locale_lt : string -> string -> bool.
Variable deflate : string -> string.
Variable inflate : string -> option string.
Variable pretty : Json -> string.
Variable parse : string -> option Json.
Variable fault_of : string -> string.
Hypothesis inflate_deflate : forall l, inflate (deflate l) = Some l.
Hypothesis parse_pretty : forall v, clean v -> parse (pretty v +:+ Evolve.line) = Some v.

Lemma expand_pack l : expand_line inflate (pack_line deflate l) = inr l.
Proof. unfold pack_line. destruct (_ <? _); [done|]. destruct (_ <? _); [|done]. cbn. by rewrite inflate_deflate. Qed.
Lemma as_packed_json p : as_packed (packed_json p) = Some p.
Proof. by destruct p. Qed.
Lemma as_int_json i : 0 <= i <= MAX_SAFE_INTEGER -> as_int (JNumber (inject_Z i)) = Some i.
Proof.
  intros H. unfold as_int. assert (Qred (inject_Z i) = inject_Z i) as ->.
  { apply Qcanon.Qred_identity. cbn. apply Z.gcd_1_r. }
  cbn. unfold is_safe_integer. rewrite !(proj2 (Z.leb_le _ _)) by lia. done.
Qed.
Lemma as_prefixes (ps : dict (list Z)) : (forall n is_ i, (n, is_) ∈ ps -> i ∈ is_ -> 0 <= i <= MAX_SAFE_INTEGER) ->
  as_record (as_list as_int) (JObject (map (fun kv => (fst kv, JArray (map (fun i => JNumber (inject_Z i)) (snd kv)))) ps)) = Some ps.
Proof.
  intros H. apply (as_record_map (as_list as_int) (fun is_ => JArray (map (fun i => JNumber (inject_Z i)) is_))). intros n is_ Hn. cbn [as_list].
  apply opt_map_map. intros i Hi. apply as_int_json. by eapply H.
Qed.
Lemma plain_lines ls : existsb is_deflated ls = false -> exists ts, ls = map Plain ts.
Proof.
  induction ls as [|[l|d] ls IH]; cbn [existsb is_deflated orb]; [by exists []| |done]. intros (ts & ->)%IH. by exists (l :: ts).
Qed.
Lemma as_physical_json n ls ps : (n = if existsb is_deflated ls then 2 else 1) -> (forall n is_ i, (n, is_) ∈ ps -> i ∈ is_ -> 0 <= i <= MAX_SAFE_INTEGER) ->
  as_definitions (physical_json (MkPhysicalFile n ls ps)) = Some (Indexed (MkPhysicalFile n ls ps)).
Proof.
  intros -> Hi. pose proof (as_prefixes ps Hi) as Hps. unfold as_definitions, as_indexed, has_format, physical_json, member_of. cbn [pf_format pf_lines pf_prefixes get String.eqb Ascii.eqb Bool.eqb].
  destruct (existsb is_deflated ls) eqn:Ed.
  - change (Qeq_bool (inject_Z 2) (inject_Z 1)) with false. change (Qeq_bool (inject_Z 2) (inject_Z 2)) with true. cbn iota. cbn [mbind option_bind as_list].
    rewrite (opt_map_map as_packed packed_json) by (intros; apply as_packed_json). cbn [mbind option_bind]. rewrite Hps. cbn [mbind option_bind]. by rewrite map_id.
  - change (Qeq_bool (inject_Z 1) (inject_Z 1)) with true. cbn iota. cbn [mbind option_bind as_list].
    destruct (plain_lines ls Ed) as (ts & ->). rewrite map_map. change (fun x => packed_json (Plain x)) with JString.
    rewrite (opt_map_map as_text JString) by done. cbn [mbind option_bind]. by rewrite Hps.
Qed.
Lemma clean_physical f : wf_dict (pf_prefixes f) -> Forall (fun kv => is_index (fst kv) = false) (pf_prefixes f) -> clean (physical_json f).
Proof.
  intros H1 H2. unfold physical_json.
  assert (clean (JArray (map packed_json (pf_lines f)))) as Hl.
  { apply clean_array. intros [l|d] _; [done|]. cbn. split_and!; try done; [apply (bool_decide_eq_true_1 _); reflexivity|repeat constructor]. }
  assert (clean (JObject (map (fun kv => (fst kv, JArray (map (fun i => JNumber (inject_Z i)) (snd kv)))) (pf_prefixes f)))) as Hp.
  { apply (clean_object (fun is_ => JArray (map (fun i => JNumber (inject_Z i)) is_))); [done|done|]. intros k is_ _. by apply clean_array. }
  split; [apply (bool_decide_eq_true_1 _); reflexivity|]. split; [repeat constructor|]. split; [exact I|]. split; [exact Hl|]. split; [exact Hp|exact I].
Qed.
(** The definitions a proof keeps are read back exactly, each of them stored once: [readPhysicalDefinitions] of what
    [physicalDefinitionsOf] wrote gives every prefix its lines in order, however many prefixes share a line and whichever
    lines were worth deflating, and lists the prefixes by name. *)
Theorem definitions_read_back (definitions : dict (list string)) (Hw : wf_dict definitions)
    (Hi : Forall (fun kv => is_index (fst kv) = false) definitions) (Hs : Z.of_nat (length (all_lines definitions)) <= MAX_SAFE_INTEGER) :
  readPhysicalDefinitions inflate parse fault_of (physicalDefinitionsOf locale_lt deflate pretty definitions) = inr (sort_by locale_lt definitions) /\
  (exists lines, pf_lines (physical_file locale_lt deflate definitions) = map (pack_line deflate) lines /\ NoDup lines).
Proof.
  unfold physicalDefinitionsOf. set (sorted := sort_by locale_lt definitions).
  assert (sorted ≡ₚ definitions) as Hp by apply Canonical.sort_by_perm.
  assert (wf_dict sorted) as Hws by (eapply Canonical.wf_perm; [symmetry; exact Hp|done]).
  pose proof (index_entries_spec sorted ([], [])) as H. assert (indexed ([], [])) as H0 by (split; [constructor|split; [done|by intros l ?%elem_of_nil]]). specialize (H H0).
  unfold physical_file. fold sorted. destruct (index_entries ([], []) sorted) as [[lines idx] ps]. destruct H as (Hx & (more & E & Hlen) & HF). cbn [fst app] in *. subst more.
  assert (keys ps = keys sorted) as Hk. { clear -HF. induction HF as [|p e ps es [E _] _ IH]; [done|]. change (fst p :: keys ps = fst e :: keys es). by rewrite E, IH. }
  assert (map_of ps = ps) as Emap by (apply map_of_id; unfold wf_dict; by rewrite Hk). rewrite Emap. cbn [pf_lines].
  split; [|exists lines; split; [done|apply Hx]].
  assert (Z.of_nat (length lines) <= MAX_SAFE_INTEGER) as Hsafe.
  { pose proof (Permutation_length (all_lines_perm _ _ Hp)). lia. }
  unfold readPhysicalDefinitions. rewrite parse_pretty.
  2:{ apply clean_physical; cbn [pf_prefixes]; [unfold wf_dict; by rewrite Hk|]. assert (Forall (fun k => is_index k = false) (keys ps)) as Hf; [|by apply Forall_map in Hf].
      rewrite Hk. unfold keys. apply Forall_map. by rewrite Hp. }
  cbn [mbind option_bind]. rewrite as_physical_json; [|done|].
  2:{ intros n is_ i Hn Hin. assert (exists e, Forall2 (resolves lines) is_ e) as (e & He).
      { clear -HF Hn. induction HF as [|p e ps es [_ He] _ IH]; [by apply elem_of_nil in Hn|]. apply elem_of_cons in Hn as [<-|Hn]; [by exists (snd e)|by apply IH]. }
      apply list_elem_of_lookup in Hin as (j & Hj). destruct (Forall2_lookup_l _ _ _ _ _ He Hj) as (l & _ & [Hr _]). lia. }
  unfold expand_file. cbn [pf_lines pf_prefixes]. rewrite (fx_map_ok _ _ lines).
  2:{ clear -inflate_deflate. induction lines as [|l ls IH]; [constructor|]. constructor; [apply expand_pack; exact inflate_deflate|exact IH]. }
  cbn [mbind Fx_bind]. by rewrite (expand_entries lines ps sorted HF []).
Qed.
End Codec.
End Physical.

(** ** Comparing schemas. *)
Module Compared.

Section Text.
Variable number_text : number -> string.

(** The text of a value in canonical order is its canonical text. *)
Lemma stringify_in_order v : stringify number_text (in_order v) = canonical number_text v.
Proof.
  induction v as [|x|x|x|l IH|o IH] using Json_nested; try done; cbn [in_order stringify canonical].
  - do 3 f_equal. rewrite map_map. apply map_ext_Forall. exact IH.
  - do 3 f_equal. assert (map (fun kv => (fst kv, canonical number_text (snd kv))) o = map (prod_map id (stringify number_text)) (map (fun kv => (fst kv, in_order (snd kv))) o)) as ->.
    { rewrite map_map. apply map_ext_Forall. eapply Forall_impl; [exact IH|]. intros [k v] E. cbn in *. by rewrite E. }
    rewrite Canonical.member_order_map, map_map. apply map_ext. by intros [k v].
Qed.

(** The member a path names, and the path [firstDifference] writes for it. *)
Fixpoint at_path (v : option Json) (ks : list string) : option Json :=
  match ks with [] => v | k :: ks' => at_path (match v with Some (JObject o) => get o k | _ => None end) ks' end.
Definition path_text (at_ : string) (ks : list string) : string :=
  fold_left (fun at_ k => if String.eqb at_ "" then k else at_ +:+ "." +:+ k) ks at_.
Definition text_of (v : option Json) : option string := option_map (stringify number_text) v.
(** Two values that differ here and not in a member of both. *)
Definition leaf_difference (a b : option Json) : Prop :=
  text_of a <> text_of b /\
  match a, b with Some (JObject x), Some (JObject y) => forall k, text_of (get x k) = text_of (get y k) | _, _ => True end.
Definition tall (v : option Json) : nat := match v with Some j => height j | None => 0%nat end.
Lemma member_height o k : (tall (get o k) < height (JObject o))%nat.
Proof.
  cbn [height]. induction o as [|[k' v] o IH]; cbn [get fold_right snd]; [cbn; lia|]. destruct (String.eqb k' k); [cbn [tall]; lia|lia].
Qed.
Lemma differs_spec x y k : differs number_text x y k = true <-> text_of (get x k) <> text_of (get y k).
Proof. unfold differs, opt_text_eqb. rewrite negb_true_iff, bool_decide_eq_false. done. Qed.
Lemma no_difference x y : find (differs number_text x y) (uniq (keys x ++ keys y)) = None -> forall k, text_of (get x k) = text_of (get y k).
Proof.
  intros H k. destruct (decide (text_of (get x k) = text_of (get y k))) as [|Hne]; [done|]. exfalso.
  assert (k ∈ uniq (keys x ++ keys y)) as Hk.
  { apply elem_of_uniq, elem_of_app. pose proof (get_keys x k) as Hx. pose proof (get_keys y k) as Hy.
    destruct (get x k); [left; symmetry in Hx; by apply bool_decide_eq_true in Hx|]. destruct (get y k); [right; symmetry in Hy; by apply bool_decide_eq_true in Hy|done]. }
  apply list_elem_of_In in Hk. pose proof (find_none _ _ H k Hk) as E. apply differs_spec in Hne. congruence.
Qed.
Lemma difference_found fuel held declared at_ : (tall held <= fuel)%nat -> text_of held <> text_of declared ->
  exists ks, difference_from number_text fuel held declared at_ = path_text at_ ks /\ leaf_difference (at_path held ks) (at_path declared ks).
Proof.
  revert held declared at_. induction fuel as [|f IH]; intros held declared at_ Hf Hd.
  - exists []. split; [done|]. split; [done|]. cbn. destruct held as [[]|]; try done; cbn in Hf; lia.
  - cbn [difference_from]. destruct held as [h|]; [|by exists []]. destruct declared as [d|]; [|exists []; split; [by destruct h|split; [done|by destruct h]]].
    destruct h as [| | | | |x]; try (by exists []). destruct d as [| | | | |y]; try (by exists []).
    destruct (find _ _) as [k|] eqn:E.
    + apply find_some in E as [_ E]. apply differs_spec in E. pose proof (member_height x k) as Hm. cbn [tall] in Hf.
      destruct (IH (get x k) (get y k) (if String.eqb at_ "" then k else at_ +:+ "." +:+ k)) as (ks & E1 & E2); [lia|done|]. exists (k :: ks). by rewrite E1.
    + exists []. split; [done|]. split; [done|]. exact (no_difference x y E).
Qed.
(** A moved schema is named: the check of the snapshot passes exactly when it is the declared schema, canonically;
    otherwise it fails as [schemaMoved] and its message names a path at which the two schemas really differ, one of them
    absent or of another value there, or both objects of equal members. *)
Theorem moved_schema_named (snapshot schema : SchemaSpec) :
  (current number_text snapshot schema = inr tt /\ canonical number_text (schema_json snapshot) = canonical number_text (schema_json schema)) \/
  (exists ks, current number_text snapshot schema = inl (MkStoreError S_schemaMoved SP_admission (moved_message (path_text "" ks))) /\
     leaf_difference (at_path (Some (in_order (schema_json snapshot))) ks) (at_path (Some (in_order (schema_json schema))) ks)).
Proof.
  unfold current. destruct (String.eqb (canonical _ _) _) eqn:E; bool_hyps; [by left|right].
  destruct (difference_found (height (in_order (schema_json snapshot))) (Some (in_order (schema_json snapshot))) (Some (in_order (schema_json schema))) "")
    as (ks & E1 & E2); [done| |].
  - unfold text_of. cbn [option_map]. rewrite !stringify_in_order. congruence.
  - exists ks. split; [|done]. unfold firstDifference. by rewrite E1.
Qed.

(** The lines a physical hash covers. *)
Lemma sorted_lines_in lines l : l ∈ sorted_lines lines <-> l ∈ lines.
Proof.
  unfold sorted_lines. rewrite Canonical.sort_by_perm, map_map. cbn. rewrite map_id. apply elem_of_uniq.
Qed.
Lemma quoted_lines_inj a b : canonical number_text (JArray (map JString a)) = canonical number_text (JArray (map JString b)) -> a = b.
Proof.
  cbn [canonical]. rewrite !map_map. intros H. injection H as H.
  apply (Canonical.items_inj (fun l => canonical number_text (JString l)) eq "]"%char) in H as [H _]; [|done|done| |].
  - clear -H. induction H as [|x y l m -> _ IH]; [done|]. by rewrite IH.
  - intros x s s' E. discriminate E.
  - apply Forall_forall. intros x _ y r r' _ _ E. by apply Canonical.quote_inj in E.
Qed.
Lemma physicalHash_same (a b : list string) : (forall l, l ∈ a <-> l ∈ b) -> physicalHash number_text a = physicalHash number_text b.
Proof.
  intros H. unfold physicalHash. do 4 f_equal. unfold sorted_lines. f_equal.
  rewrite (Canonical.sort_unique str_ltb (fun _ => True) str_ltb_irrefl str_ltb_trans) with (m := map (fun l => (l, tt)) (uniq b)); try done.
  - intros x y _ _. apply str_ltb_total.
  - by apply Forall_true.
  - unfold wf_dict, keys. rewrite map_map. cbn. rewrite map_id. apply NoDup_uniq.
  - apply Permutation_map, NoDup_Permutation; [apply NoDup_uniq|apply NoDup_uniq|]. intros l. by rewrite !elem_of_uniq.
Qed.
(** A physical proof is about the set of definitions: introspections that list the same lines, in any order and any
    number of times, hash equal, and two that hash the same text list the same lines. *)
Theorem physical_hash_sets (a b : list string) :
  ((forall l, l ∈ a <-> l ∈ b) -> physicalHash number_text a = physicalHash number_text b) /\
  (canonical number_text (JArray (map JString (sorted_lines a))) = canonical number_text (JArray (map JString (sorted_lines b))) -> forall l, l ∈ a <-> l ∈ b).
Proof.
  split; [apply physicalHash_same|].
  intros H%quoted_lines_inj l. by rewrite <- (sorted_lines_in a), <- (sorted_lines_in b), H.
Qed.
End Text.
End Compared.

(** ** The guard is one statement. *)
Module Guarded.
Import Lex Parts.
(** The guard of a migration runs as one statement whatever the ledger and the definitions hold: it lexes as [do] and
    one literal, which stands for the guard's body, so that no recorded name, checksum or definition can end it early. *)
Theorem guard_runs_alone (number_text : number -> string) (locale_lt : string -> string -> bool) (INTROSPECT : string)
    (applied : list Applied) (definitions : list string) (stage : GuardStage) (excluded : list (string * string)) :
  let sql := migrationGuard number_text locale_lt INTROSPECT applied definitions stage excluded in
  exists text, sqlTokens sql = [MkToken KWord "do" 0; MkToken KLiteral text 3] /\ sqlStatements sql = [sqlTokens sql] /\
    halved text = guard_body number_text locale_lt INTROSPECT applied definitions stage excluded.
Proof.
  intros sql. unfold sql, migrationGuard. set (body := guard_body _ _ _ _ _ _ _).
  assert (sqlTokens ("do " +:+ sql_quoted body) = placed 0 [PWord "do"; PSpace " "; PLiteral body]) as E.
  { rewrite <- tokens_written; [by rewrite <- (append_nil_r (sql_quoted body))|]. cbn [all_fit fits]. split_and!; try done. by right. }
  eexists. unfold sqlStatements. rewrite E. split; [reflexivity|]. split; [reflexivity|]. apply Checks.halved_quoted.
Qed.
End Guarded.

(** ** A chain with a squash, and a codec of JSON. *)
Module Sample.
Import Ordered Chain Squashes Verified Physical.

(** A codec of JSON values: any injection into text does. *)
Fixpoint to_tree (v : Json) : gen_tree (bool + (Z * positive) + string) :=
  match v with
  | JNull => GenNode 0 []
  | JBool b => GenLeaf (inl (inl b))
  | JNumber n => GenLeaf (inl (inr (Qnum n, Qden n)))
  | JString s => GenLeaf (inr s)
  | JArray l => GenNode 1 (map to_tree l)
  | JObject o => GenNode 2 (map (fun kv => GenNode 3 [GenLeaf (inr (fst kv)); to_tree (snd kv)]) o)
  end.
Fixpoint of_tree (t : gen_tree (bool + (Z * positive) + string)) : Json :=
  match t with
  | GenLeaf (inl (inl b)) => JBool b
  | GenLeaf (inl (inr (n, d))) => JNumber (Qmake n d)
  | GenLeaf (inr s) => JString s
  | GenNode 1 ts => JArray (map of_tree ts)
  | GenNode 2 ts => JObject (map (fun t => match t with GenNode _ [GenLeaf (inr k); v] => (k, of_tree v) | _ => (""%string, JNull) end) ts)
  | GenNode _ _ => JNull
  end.
Lemma of_to_tree v : of_tree (to_tree v) = v.
Proof.
  induction v as [|x|[n d]|x|l IH|o IH] using Json_nested; try done; cbn [to_tree of_tree]; rewrite map_map.
  - f_equal. rewrite <- (map_id l) at 2. apply map_ext_Forall. exact IH.
  - f_equal. rewrite <- (map_id o) at 2. apply map_ext_Forall. eapply Forall_impl; [exact IH|]. intros [k v] E. cbn in *. by rewrite E.
Qed.
Definition pretty (v : Json) : string := HexString.of_N (Npos (encode (to_tree v))).
Definition parse (s : string) : option Json :=
  match HexString.to_N (takes (String.length s - 1) s) with Npos p => option_map of_tree (decode p) | N0 => None end.
Lemma parse_pretty v : clean v -> parse (pretty v +:+ Evolve.line) = Some v.
Proof.
  intros _. unfold parse. rewrite length_append. replace (_ + _ - 1)%nat with (String.length (pretty v)) by (cbn; lia).
  rewrite takes_append. unfold pretty. rewrite HexString.to_N_of_N, decode_encode. cbn [option_map]. by rewrite of_to_tree.
Qed.
Definition number_text := Hash.Sample.number_text.
Definition no_fault (_ : string) : string := "".

Definition one : MigrationFile := MkFile "0001_entry.sql" "create table entry (id uuid primary key);".
Definition two : MigrationFile := MkFile "0002_label.sql" "alter table entry add column label text;".
Definition three : MigrationFile := MkFile "0003_count.sql" "alter table entry add column count int;".
Definition squashed : MigrationFile := MkFile "0002_squash.sql" "create table entry (id uuid primary key, label text);".
Definition lines : list string := ["column entry.id uuid"; "column entry.label text"]%string.
Definition chain : list MigrationFile := [one; two; three].
Lemma ordered_sample : orderedFiles [three; one; two] = inr chain.
Proof. vm_compute. reflexivity. Qed.
Lemma ordered_prefix : orderedFiles [two; one] = inr [one; two].
Proof. vm_compute. reflexivity. Qed.
Lemma ordered_chain : orderedFiles ([two; one] ++ [three]) = inr chain.
Proof. vm_compute. reflexivity. Qed.
Definition receipt : SquashReceipt :=
  MkReceipt (f_name squashed) (checksumOf squashed) (archiveOf number_text [one; two]) (appliedOf [one; two]) (physicalHash number_text (rev lines)).
Lemma receipt_sample : verifySquash number_text [two; one] squashed lines (rev lines) = inr receipt.
Proof.
  unfold verifySquash. assert (checkSquashSources [two; one] = inr [one; two]) as -> by (vm_compute; reflexivity).
  assert (checkFile squashed = inr squashed) as -> by (vm_compute; reflexivity).
  assert (exists p, checkSquashBaseline squashed = inr p) as (p & ->) by (eexists; vm_compute; reflexivity). cbn [mbind Fx_bind].
  assert (physicalHash number_text lines = physicalHash number_text (rev lines)) as ->.
  { apply Compared.physicalHash_same. intros l. unfold lines. rewrite !list_elem_of_In, <- in_rev. done. }
  rewrite String.eqb_refl. reflexivity.
Qed.
Lemma squash_accepted_witness :
  pending number_text str_ltb ([two; one] ++ [three]) (lock_of "snapshot" chain (MkProofs (Some [receipt]) None)) [] (Some "snapshot"%string) [squashed] =
  inr [squashed; three].
Proof.
  exact (proj2 (squash_accepted number_text str_ltb [two; one] [three] squashed lines (rev lines) receipt chain [one; two] "snapshot" None
    receipt_sample ordered_prefix ordered_chain (or_introl eq_refl))).
Defined.

(** The same chain without the squash. *)
Definition plain_lock : MigrationLock := lock_of "snapshot" chain (MkProofs None None).
Lemma plain_source : source number_text [three; one; two] plain_lock (Some "snapshot"%string) [] = inr (chain, []).
Proof.
  exact (source_plain number_text [three; one; two] chain "snapshot" None ordered_sample).
Qed.
Lemma ledger_continues_witness :
  pending number_text str_ltb [three; one; two] plain_lock (appliedOf [two; one]) (Some "snapshot"%string) [] = inr [three].
Proof.
  apply (ledger_continues _ _ _ _ _ _ _ _ _ _ plain_source). exists chain, 2%nat. split; [constructor|]. split; [done|]. split; [apply perm_swap|done].
Defined.
Lemma pending_resumes_witness :
  pending number_text str_ltb [three; one; two] plain_lock (appliedOf [one] ++ appliedOf (take 1 [two; three])) (Some "snapshot"%string) [] = inr [three].
Proof.
  apply (pending_resumes number_text str_ltb [three; one; two] plain_lock (Some "snapshot"%string) [] (appliedOf [one]) [two; three] 1).
  apply (pending_chain _ _ _ _ _ _ _ _ _ _ plain_source). exists chain, 1%nat. split; [constructor|]. split; [done|]. split; [reflexivity|done].
Defined.
Lemma status_sample : exists s, migrationStatus number_text str_ltb [three; one; two] plain_lock (appliedOf chain) (Some "snapshot"%string) [] (Some lines) = inr s /\
  s_ledger s = LCurrent.
Proof.
  destruct (continue_chain str_ltb chain [] (proj2 (source_sound _ _ _ _ _ _ _ plain_source)) chain 3 (appliedOf chain)) as (h & Eh & Hp & Ho); [constructor|done|done|].
  pose proof (continue_inv _ _ _ (proj2 (source_sound _ _ _ _ _ _ _ plain_source)) _ _ Eh) as (_ & _ & _ & _ & _ & _ & _ & _ & Hw).
  eexists. split.
  - unfold migrationStatus, migrationHistory. rewrite plain_source. cbn [mbind Fx_bind fst snd]. rewrite Eh. reflexivity.
  - cbn [s_ledger appliedOf map chain]. rewrite Ho. destruct (Hw ltac:(done)) as [_ Hw']. rewrite Hw' by done. by rewrite Nat.eqb_refl.
Qed.
Lemma status_tells_witness : exists s,
  migrationStatus number_text str_ltb [three; one; two] plain_lock (appliedOf chain) (Some "snapshot"%string) [] (Some lines) = inr s /\ s_pending s = [].
Proof.
  destruct status_sample as (s & Hs & Hl). exists s. split; [exact Hs|].
  destruct (status_tells number_text str_ltb [three; one; two] plain_lock (Some "snapshot"%string) [] (appliedOf chain) (Some lines) s Hs) as (_ & _ & Hc & _).
  by apply Hc in Hl as [_ ?].
Defined.
Definition schema0 : SchemaSpec := MkSchemaSpec [] [].
Lemma verify_sample : verify number_text (fun _ => inr schema0) pretty [three; one; two] "snapshot" schema0 lines (rev lines) (MkProofs None None) =
  inr (lockOf pretty "snapshot" chain (MkProofs None None)).
Proof.
  unfold verify, readSnapshot. cbn [mbind Fx_bind mret Fx_ret]. unfold current. rewrite String.eqb_refl. cbn [mbind Fx_bind mret Fx_ret]. rewrite ordered_sample.
  reflexivity.
Qed.
Lemma verified_runs_witness : exists lock, readLock parse no_fault (lockOf pretty "snapshot" chain (MkProofs None None)) = inr lock /\
  pending number_text str_ltb [three; one; two] lock [] (Some "snapshot"%string) [] = inr chain.
Proof.
  assert (clean_names None) as Hc by (split; constructor).
  destruct (verified_runs number_text str_ltb (fun _ => inr schema0) pretty parse no_fault parse_pretty [three; one; two] "snapshot" _ schema0 lines (rev lines) (MkProofs None None) Hc verify_sample)
    as (O & held & HO & _ & _ & _ & _ & Hl & Hp & _). eexists. split; [exact Hl|]. rewrite (Hp eq_refl). f_equal. rewrite ordered_sample in HO. by injection HO.
Defined.
Definition proofs : dict (list string) := [("0002_label.sql", lines); ("0001_entry.sql", firstn 1 lines); ("", [])]%string.
Lemma definitions_read_back_witness :
  readPhysicalDefinitions Some parse no_fault (physicalDefinitionsOf str_ltb id pretty proofs) =
  inr [("", []); ("0001_entry.sql", firstn 1 lines); ("0002_label.sql", lines)]%string.
Proof.
  assert (wf_dict proofs) as Hw by (apply (bool_decide_eq_true_1 _); reflexivity).
  assert (Forall (fun kv => is_index (fst kv) = false) proofs) as Hi by repeat constructor.
  exact (proj1 (definitions_read_back str_ltb id Some pretty parse no_fault (fun _ => eq_refl) parse_pretty proofs Hw Hi ltac:(done))).
Defined.

(** A table filled from a column called [trigger]. *)
Definition kept (column : string) : MigrationFile := MkFile "0001_kept.sql" ("create table kept as select " +:+ column +:+ " from audit").
(** A squash can lose rows: a statement that copies rows into a table is refused as a source of a squash when the
    column it copies is called [label] and accepted when it is called [trigger], since any [create] with the word
    [trigger], [function] or [procedure] in it is taken for a stored definition. *)
Theorem copied_rows_squashed :
  (exists m, checkSquashSources [kept "label"] = inl (MkStoreError S_migrationInvalid SP_admission m)) /\
  checkSquashSources [kept "trigger"] = inr [kept "trigger"].
Proof. split; [eexists; vm_compute; reflexivity|vm_compute; reflexivity]. Qed.
End Sample.
