(* ===== verification/Generate.v ===== *)
(** Writing a migration file: [packages/store/src/migration-generate.ts]. A plan's statements are compacted and grouped
    under step markers, with the data steps of changed inline shapes before the constraints they serve; a squash baseline
    is the same text from nothing. The condition of a changed shape ([shapeViolation]) is SQL text, an argument here. *)
From S2P Require Import Prelude Ir Hash Pages Evolve Scripts Migrations.
Open Scope Z_scope.

(** ** Names and markers. *)

Definition hex_upper (d : Z) : ascii := if d <? 10 then digit_char d else chr (Z.to_N (d + 55)).
Definition percent (b : Z) : string := String "%" (String (hex_upper (b / 16)) (String (hex_upper (b mod 16)) EmptyString)).
(** [encodeURIComponent(c)] of a character that is escaped: the UTF-8 bytes of a code below 256. *)
Definition encodeURIComponent (c : ascii) : string :=
  let n := Z.of_N (N_of_ascii c) in if n <? 128 then percent n else percent (192 + n / 64) +:+ percent (128 + n mod 64).
Definition marked (c : ascii) : bool := Ascii.eqb c "%" || is_space c || Ascii.eqb c "(" || Ascii.eqb c ")".
Fixpoint marker (id : string) : string :=
  match id with
  | EmptyString => EmptyString
  | String c s => (if marked c then (if Ascii.eqb c "(" then "%28" else if Ascii.eqb c ")" then "%29" else encodeURIComponent c) else chars c) +:+ marker s
  end.

Definition alnum (c : ascii) : bool := is_word c && negb (Ascii.eqb c "_").
(** [name.replace(/[^a-z0-9]+/gi, '_')]: each run of other characters is one underscore. *)
Fixpoint squeeze (in_run : bool) (s : string) : string :=
  match s with
  | EmptyString => EmptyString
  | String c s' => if alnum c then String c (squeeze false s') else if in_run then squeeze true s' else String "_" (squeeze true s')
  end.
Fixpoint strip_start (s : string) : string := match s with String c s' => if Ascii.eqb c "_" then strip_start s' else s | EmptyString => EmptyString end.
Fixpoint strip_end (s : string) : string :=
  match s with
  | EmptyString => EmptyString
  | String c s' => match strip_end s' with EmptyString => if Ascii.eqb c "_" then EmptyString else chars c | t => String c t end
  end.
Definition slug_of (name : string) : string := lower (strip_end (strip_start (squeeze false name))).

(** ** Checks and data steps. *)

Definition validation_body (name violations : string) : string :=
  "declare n bigint; begin" +:+ Evolve.line +:+ TAB +:+ "execute " +:+ sql_quoted violations +:+ " into n;" +:+ Evolve.line +:+ TAB +:+
  "if n > 0 then raise exception " +:+ sql_quoted (name +:+ " refuses % existing row(s)") +:+ ", n; end if;" +:+ Evolve.line +:+ "end".
Definition validation (name violations : string) : string := do_block "$store$" (validation_body name violations).
(** A changed inline shape: its table, its field and the query that counts the rows the new shape refuses. *)
Record ShapeChange := MkShapeChange { sc_table : string; sc_field : string; sc_bad : string }.
Definition shape_name (c : ShapeChange) : string := sc_table c +:+ "." +:+ sc_field c.
Definition shape_step (c : ShapeChange) : string :=
  join Evolve.line
    ["-- step " +:+ marker ("data:" +:+ shape_name c) +:+ " (data)";
     "-- hazard: the shape of " +:+ marker (shape_name c) +:+ " changed; rows written under the old shape may not decode under the new one.";
     "-- Transform them here (an UPDATE over " +:+ marker (sc_table c) +:+ "); the check below counts the rows the new shape still refuses.";
     "-- step " +:+ marker ("check:" +:+ shape_name c) +:+ " (validating)";
     validation ("the shape of " +:+ shape_name c) (sc_bad c)]%string.

(** *** Which shapes changed.

    [canonical number_text] prints a field; [shapeViolation] is the SQL condition on the rows a shape refuses. *)
Section Shapes.
Variable number_text : number -> string.
Variable shapeViolation : string -> FieldSpec -> string.
Definition INLINE : list string := ["json"; "list"; "object"; "record"]%string.
Definition or_else {A} (a b : option A) : option A := match a with Some x => Some x | None => b end.
(** [before.tables[t] ?? before.tables[spec.was ?? t]]. *)
Definition table_before (before : SchemaSpec) (t : string) (spec : TableSpec) : option TableSpec :=
  or_else (get (tables before) t) (get (tables before) (default t (t_was spec))).
Definition field_before (table : option TableSpec) (f : string) (k : FieldSpec) : option FieldSpec :=
  spec ← table; or_else (get (t_fields spec) f) (get (t_fields spec) (default f (k_was k))).
Definition same_shape (was k : FieldSpec) : bool := String.eqb (canonical number_text (field_json was)) (canonical number_text (field_json k)).
Definition optional (k : FieldSpec) : bool := match get (k_rest k) "optional" with Some (JBool true) => true | _ => false end.
Definition shape_condition (spec : TableSpec) (f : string) (k : FieldSpec) : string :=
  if has_own (t_rest spec) "nativeRules" then
    q f +:+ " is " +:+ (if optional k then "not " else "") +:+ "null " +:+ (if optional k then "and" else "or") +:+ " store_json_valid(" +:+ q f +:+ ", " +:+
    sql_quoted (canonical number_text (field_json k)) +:+ "::jsonb) is not true"
  else shapeViolation (q f) k.
Definition shape_change (before : SchemaSpec) (t : string) (spec : TableSpec) (f : string) (k : FieldSpec) : list ShapeChange :=
  match field_before (table_before before t spec) f k with
  | Some was =>
      if includes INLINE (k_kind k) && negb (same_shape was k) then
        [MkShapeChange t f ("select count(*) from " +:+ q t +:+ " where " +:+ shape_condition spec f k)]
      else []
  | None => []
  end.
Definition shapeSteps (before : option SchemaSpec) (after : SchemaSpec) : list ShapeChange :=
  match before with
  | None => []
  | Some before =>
      flat_map (fun ts => flat_map (fun fk => shape_change before (fst ts) (snd ts) (fst fk) (snd fk)) (t_fields (snd ts))) (tables after)
  end.
End Shapes.

(** ** Rendering. *)

Definition class_text (c : StepClass) : string :=
  match c with Additive => "additive" | Rename => "rename" | Backfill => "backfill" | Validating => "validating" | Destructive => "destructive" end.
Definition HAZARD (c : StepClass) : string :=
  match c with
  | Additive => "additive: adds an object or widens a stored type without discarding existing values."
  | Rename => "rename: readers of the old name break; the data stays."
  | Backfill => "backfill: a derived column is filled from every row (time grows with the table)."
  | Validating => "validating: refuses, naming the constraint and the row count, if existing rows break it."
  | Destructive => "DESTRUCTIVE: drops data (a table or a stored column) or rebuilds it; runs only under its accept line."
  end.
Definition risk_text (r : StepRisk) : string :=
  match r with
  | AccessExclusiveLock => "access-exclusive-lock" | WritesBlocked => "writes-blocked" | TableScan => "table-scan"
  | TableRewrite => "table-rewrite" | IndexRebuild => "index-rebuild"
  end.
Definition RISK (r : StepRisk) : string :=
  match r with
  | AccessExclusiveLock => "may acquire an ACCESS EXCLUSIVE lock, blocking reads and writes while held"
  | WritesBlocked => "may block table writers, or conflicting row writers for an UPDATE"
  | TableScan => "may scan existing rows; work grows with the table"
  | TableRewrite => "may rewrite the table; disk use and work grow with existing data"
  | IndexRebuild => "may rebuild affected indexes"
  end.
Definition validated (s : PlannedStatement) : string :=
  match ps_violations s with
  | None => ps_sql s +:+ ";"
  | Some v => join Evolve.line [validation (default (ps_step s) (ps_name s)) v; ps_sql s +:+ ";"]
  end.

(** ** Compaction: a new table declares its columns and constraints together.

    A statement is named by its place in the plan's list. *)
Definition add_column (table : string) : string := "alter table " +:+ q table +:+ " add column ".
Definition add_constraint (table : string) : string := "alter table " +:+ q table +:+ " add constraint ".
Definition alter_set (o : SchemaObject) : string :=
  "alter table " +:+ q (o_table o) +:+ " alter column " +:+ q (match o_deps o with c :: _ => c | [] => "" end) +:+ " set ".
(** [`${o.table}.${o.deps[0]}`]. *)
Definition first_dep (o : SchemaObject) : string := o_table o +:+ "." +:+ (match o_deps o with c :: _ => c | [] => "undefined" end).
Definition ends_with (suffix s : string) : bool :=
  (String.length suffix <=? String.length s)%nat && String.eqb (drop (String.length s - String.length suffix) s) suffix.
Fixpoint index_of (x : string) (l : list string) : option nat :=
  match l with [] => None | y :: l' => if String.eqb y x then Some 0%nat else option_map S (index_of x l') end.

Record Compaction := MkCompaction { cp_definitions : dict (list string); cp_columns : dict PlannedStatement; cp_consumed : list nat }.
Definition objects_of (p : Plan) : dict SchemaObject :=
  map_of (flat_map (fun s => match st_create s with Some o => [(st_id s, o)] | None => [] end) (p_steps p)).
Definition fresh_of (p : Plan) : dict string :=
  map_of (flat_map (fun s => match st_create s, st_drop s with
                             | Some o, None => if is_rank o RTable then [(o_table o, st_id s)] else []
                             | _, _ => []
                             end) (p_steps p)).
Definition defined (c : Compaction) (table : string) : list string := default [] (get (cp_definitions c) table).
(** The first loop: the columns of the plan, those of new tables consumed. *)
Definition column_turn (objects : dict SchemaObject) (fresh : dict string) (c : Compaction) (is_ : nat * PlannedStatement) : Compaction :=
  let '(i, s) := is_ in
  match get objects (ps_step s) with
  | Some o =>
      if is_rank o RColumn && String.prefix (add_column (o_table o)) (ps_sql s) then
        let columns := set (cp_columns c) (first_dep o) s in
        if has_own fresh (o_table o) then
          MkCompaction (set (cp_definitions c) (o_table o) (defined c (o_table o) ++ [drop (String.length (add_column (o_table o))) (ps_sql s)])) columns (cp_consumed c ++ [i])
        else MkCompaction (cp_definitions c) columns (cp_consumed c)
      else c
  | None => c
  end.
(** The second loop: defaults a column already states, and the rest of a new table. *)
Definition default_turn (o : SchemaObject) (i : nat) (s : PlannedStatement) (c : Compaction) : Compaction :=
  match get (cp_columns c) (first_dep o) with
  | Some column =>
      if is_rank o RDefault && String.prefix (alter_set o) (ps_sql s) &&
         ends_with (" " +:+ drop (String.length (alter_set o)) (ps_sql s)) (ps_sql column)
      then MkCompaction (cp_definitions c) (cp_columns c) (cp_consumed c ++ [i]) else c
  | None => c
  end.
Definition not_null_turn (o : SchemaObject) (i : nat) (s : PlannedStatement) (c : Compaction) : Compaction :=
  match get (cp_columns c) (first_dep o) with
  | Some column =>
      if is_rank o RNotNull && String.eqb (ps_sql s) (alter_set o +:+ "not null") then
        let definition := drop (String.length (add_column (o_table o))) (ps_sql column) in
        match get (cp_definitions c) (o_table o) with
        | Some l =>
            match index_of definition l with
            | Some at_ => MkCompaction (set (cp_definitions c) (o_table o) (<[at_ := definition +:+ " not null"]> l)) (cp_columns c) (cp_consumed c ++ [i])
            | None => c
            end
        | None => c
        end
      else c
  | None => c
  end.
Definition constraint_turn (o : SchemaObject) (i : nat) (s : PlannedStatement) (c : Compaction) : Compaction :=
  if is_rank o RConstraint && String.prefix (add_constraint (o_table o)) (ps_sql s) then
    MkCompaction (set (cp_definitions c) (o_table o) (defined c (o_table o) ++ ["constraint " +:+ drop (String.length (add_constraint (o_table o))) (ps_sql s)]))
      (cp_columns c) (cp_consumed c ++ [i])
  else c.
Definition rest_turn (objects : dict SchemaObject) (fresh : dict string) (c : Compaction) (is_ : nat * PlannedStatement) : Compaction :=
  let '(i, s) := is_ in
  match get objects (ps_step s) with
  | Some o =>
      let c := default_turn o i s c in
      if has_own fresh (o_table o) then
        let c := constraint_turn o i s (not_null_turn o i s c) in
        if is_rank o RBackfill then MkCompaction (cp_definitions c) (cp_columns c) (cp_consumed c ++ [i]) else c
      else c
  | None => c
  end.
Definition numbered {A} (l : list A) : list (nat * A) := imap pair l.
Definition compaction (p : Plan) : Compaction :=
  let sql := numbered (statements p []) in
  fold_left (rest_turn (objects_of p) (fresh_of p)) sql (fold_left (column_turn (objects_of p) (fresh_of p)) sql (MkCompaction [] [] [])).
Definition plain (s : PlannedStatement) (sql : string) : PlannedStatement := MkStatement (ps_step s) sql None None [].
Definition compacted (objects : dict SchemaObject) (fresh : dict string) (c : Compaction) (s : PlannedStatement) : PlannedStatement :=
  match get objects (ps_step s) with
  | Some o =>
      match (if is_rank o RTable then get (cp_definitions c) (o_table o) else None) with
      | Some fields =>
          if ends_with ")" (ps_sql s) then
            plain s (takes (String.length (ps_sql s) - 1) (ps_sql s) +:+ "," +:+ Evolve.line +:+ TAB +:+ join ("," +:+ Evolve.line +:+ TAB) fields +:+ Evolve.line +:+ ")")
          else if has_own fresh (o_table o) then plain s (ps_sql s) else s
      | None => if has_own fresh (o_table o) then plain s (ps_sql s) else s
      end
  | None => s
  end.
Definition compactStatements (p : Plan) : list PlannedStatement :=
  let c := compaction p in
  map (fun is_ => compacted (objects_of p) (fresh_of p) c (snd is_))
    (List.filter (fun is_ => negb (bool_decide (fst is_ ∈ cp_consumed c))) (numbered (statements p []))).

(** ** The file. *)

Record Group := MkGroup { g_id : string; g_list : list PlannedStatement }.
(** Runs of statements of one step. *)
Definition group_turn (groups : list Group) (s : PlannedStatement) : list Group :=
  match last groups with
  | Some g => if String.eqb (g_id g) (ps_step s) then removelast groups ++ [MkGroup (g_id g) (g_list g ++ [s])] else groups ++ [MkGroup (ps_step s) [s]]
  | None => groups ++ [MkGroup (ps_step s) [s]]
  end.
Definition groups_of (sql : list PlannedStatement) : list Group := fold_left group_turn sql [].
Definition step_of (p : Plan) (id : string) : option Step := find (fun s => String.eqb (st_id s) id) (p_steps p).
Definition group_class (p : Plan) (g : Group) : StepClass := match step_of p (g_id g) with Some s => st_class s | None => Additive end.
(** Where the data steps go: before the first group that adds a constraint or a NOT NULL. *)
Definition constrains (p : Plan) (g : Group) : bool :=
  match (s ← step_of p (g_id g); st_create s) with
  | Some o => (is_rank o RNotNull || is_rank o RConstraint) && existsb (fun s => includes (o_create o) (ps_sql s)) (g_list g)
  | None => false
  end.
Fixpoint find_index {A} (f : A -> bool) (l : list A) : option nat :=
  match l with [] => None | x :: l' => if f x then Some 0%nat else option_map S (find_index f l') end.
(** [[...new Set(rs)]]. *)
Definition risk_set (rs : list StepRisk) : list StepRisk := fold_left (fun acc r => add_risk r acc) rs [].
Definition group_risks (g : Group) : list StepRisk := risk_set (flat_map ps_risks (g_list g)).
Definition block_lines (p : Plan) (accept : list string) (g : Group) : list string :=
  ["-- step " +:+ marker (g_id g) +:+ " (" +:+ class_text (group_class p g) +:+ ")"] ++
  match group_risks g with [] => [] | rs => ["-- operational risk: " +:+ join ", " (map risk_text rs)] end ++
  (if bool_decide (group_class p g = Destructive) && includes accept (g_id g) then ["-- accept: " +:+ marker (g_id g)] else []) ++
  map validated (g_list g).
Definition block_text (p : Plan) (accept : list string) (g : Group) : string := join Evolve.line (block_lines p accept g).
(** The blocks, with the data steps in their place, at the end when no group constrains. *)
Definition place_data (p : Plan) (accept : list string) (data : list string) (groups : list Group) : list string :=
  match find_index (constrains p) groups with
  | Some i => map (block_text p accept) (firstn i groups) ++ data ++ map (block_text p accept) (skipn i groups)
  | None => map (block_text p accept) groups ++ data
  end.
Definition class_set (cs : list StepClass) : list StepClass := fold_left (fun acc c => if existsb (fun d => bool_decide (d = c)) acc then acc else acc ++ [c]) cs [].
Definition header_lines (p : Plan) (name : string) (groups : list Group) : list string :=
  ["-- " +:+ name +:+ ": " +:+ dec_of (Z.of_nat (length groups)) +:+ " step(s), from " +:+ default "an empty database"%string (p_from p) +:+ " to " +:+ p_to p +:+ ".";
   "-- Edit freely: `verify` replays every file on a scratch database and compares it with the schema."%string] ++
  map (fun c => "-- hazard: " +:+ HAZARD c) (class_set (map (group_class p) groups)) ++
  map (fun r => "-- operational risk: " +:+ risk_text r +:+ ": " +:+ RISK r +:+ ".") (risk_set (flat_map (fun g => flat_map ps_risks (g_list g)) groups)).
Definition file_text (p : Plan) (name : string) (accept : list string) (data : list string) : string :=
  let groups := groups_of (compactStatements p) in
  join Evolve.line (header_lines p name groups ++ [EmptyString; join (Evolve.line +:+ Evolve.line) (place_data p accept data groups); EmptyString]).
Definition file_name (number_ : Z) (slug : string) : string := pad_start 4 "0" (dec_of number_) +:+ "_" +:+ slug +:+ ".sql".

Section Generate.
Variable number_text : number -> string.
Variable objects : SchemaSpec -> list SchemaObject -> Fx (list SchemaObject).
Variable extra : SchemaSpec -> list SchemaObject.
Variable shapeViolation : string -> FieldSpec -> string.
Variable pretty : Json -> string.

Record Generated := MkGenerated { gn_file : MigrationFile; gn_plan : Plan; gn_snapshot : string }.
(** [generate(previous, next, { number, name, accept }, extra)], of an integral number. *)
Definition generate (previous : option SchemaSpec) (next : SchemaSpec) (number_ : Z) (name : string) (accept : list string) : Fx Generated :=
  if negb ((1 <=? number_) && (number_ <=? 9999)) then invalid "migration number must be an integer from 1 to 9999"
  else if String.eqb (slug_of name) "" then invalid "a migration needs a name"
  else
    p ← plan number_text objects extra previous next;
    let name := file_name number_ (slug_of name) in
    let data := map shape_step (shapeSteps number_text shapeViolation previous next) in
    mret (MkGenerated (MkFile name (file_text p name accept data)) p (snapshotOf pretty next)).

Record GeneratedSquash := MkGeneratedSquash { gs_file : MigrationFile; gs_replaces : list Applied; gs_archive : string; gs_snapshot : string }.
Definition generateSquash (originals : list MigrationFile) (schema : SchemaSpec) (name : option string) : Fx GeneratedSquash :=
  ordered ← checkSquashSources originals;
  let archive := archiveOf number_text ordered in
  baseline ← generate None schema (Z.of_nat (length ordered)) ("squash_" +:+ default EmptyString name +:+ "_" +:+ takes 12 archive) [];
  if existsb (fun f => String.eqb (f_name f) (f_name (gn_file baseline))) ordered then
    invalid "the squash filename must differ from every original migration"
  else mret (MkGeneratedSquash (gn_file baseline) (appliedOf ordered) archive (gn_snapshot baseline)).
End Generate.

(** ** Names. *)
Module Names.

Lemma squeeze_chars r s : all_chars (fun c => alnum c || Ascii.eqb c "_") (squeeze r s) = true.
Proof.
  revert r. induction s as [|c s IH]; intros r; [done|]. cbn [squeeze]. destruct (alnum c) eqn:E; [cbn [all_chars]; by rewrite E, IH|].
  destruct r; [apply IH|]. cbn [all_chars]. by rewrite IH, Ascii.eqb_refl, orb_true_r.
Qed.
Lemma strip_start_chars f s : all_chars f s = true -> all_chars f (strip_start s) = true.
Proof. induction s as [|c s IH]; [done|]. cbn [all_chars strip_start]. intros [Hc Hs]%andb_true_iff. destruct (Ascii.eqb c "_"); [by apply IH|]. cbn. by rewrite Hc, Hs. Qed.
Lemma strip_end_chars f s : all_chars f s = true -> all_chars f (strip_end s) = true.
Proof.
  induction s as [|c s IH]; [done|]. cbn [all_chars strip_end]. intros [Hc Hs]%andb_true_iff. specialize (IH Hs).
  destruct (strip_end s) as [|d t]; [destruct (Ascii.eqb c "_"); [done|cbn; by rewrite Hc]|]. change (all_chars f (String c (String d t)) = true). cbn [all_chars] in *. by rewrite Hc, IH.
Qed.
Definition slug_char (c : ascii) : bool := is_digit c || Ascii.eqb c "_" || (is_word c && Ascii.eqb (fold_case c) c).
Lemma fold_slug c : alnum c || Ascii.eqb c "_" = true -> slug_char (fold_case c) = true.
Proof. destruct c as [[] [] [] [] [] [] [] []]; vm_compute; intros H; first [discriminate H|reflexivity]. Qed.
Lemma lower_chars f g s : (forall c, f c = true -> g (fold_case c) = true) -> all_chars f s = true -> all_chars g (lower s) = true.
Proof. intros Hfg. induction s as [|c s IH]; [done|]. cbn [all_chars lower]. intros [Hc Hs]%andb_true_iff. by rewrite (Hfg _ Hc), (IH Hs). Qed.
Lemma slug_chars name : all_chars slug_char (slug_of name) = true.
Proof. unfold slug_of. eapply lower_chars; [apply fold_slug|]. apply strip_end_chars, strip_start_chars, squeeze_chars. Qed.
Lemma slug_head c s : alnum c = true -> exists r, slug_of (String c s) = String (fold_case c) r.
Proof.
  intros H. unfold slug_of. cbn [squeeze]. rewrite H. assert (Ascii.eqb c "_" = false) as Hc by (unfold alnum in H; bool_hyps; done).
  cbn [strip_start]. rewrite Hc. cbn [strip_end]. destruct (strip_end _) as [|d t]; [rewrite Hc|]; cbn [lower chars]; by eexists.
Qed.
Lemma four_digits n : 1 <= n <= 9999 -> all_chars is_digit (pad_start 4 "0" (dec_of n)) = true /\ String.length (pad_start 4 "0" (dec_of n)) = 4%nat /\
  digits_val (pad_start 4 "0" (dec_of n)) = n.
Proof.
  intros H. assert (dec_of n = digits_of n) as -> by (unfold dec_of; by rewrite (proj2 (Z.ltb_ge n 0)) by lia).
  destruct (pad_digits 4 n) as (H1 & H2 & H3); [lia|lia|lia|]. split; [done|]. split; [|done]. unfold slength in H2. lia.
Qed.
Lemma file_named n slug : 1 <= n <= 9999 -> slug <> "" -> all_chars slug_char slug = true -> number_of (file_name n slug) = Some n.
Proof.
  intros Hn Hs Hc. destruct (four_digits n Hn) as (H1 & H2 & H3). unfold number_of, NAME, file_name.
  set (ds := pad_start 4 "0" (dec_of n)) in *.
  assert (takes 4 (ds +:+ "_" +:+ slug +:+ ".sql") = ds) as Ht by (rewrite <- H2; apply takes_append).
  assert (drop 4 (ds +:+ "_" +:+ slug +:+ ".sql") = String "_" (slug +:+ ".sql")) as Hd by (rewrite <- H2; apply drop_append).
  rewrite Ht, Hd, H1, H3. rewrite (proj2 (Nat.ltb_lt _ _)) by (rewrite !length_append, H2; cbn; lia). cbn [andb]. rewrite Ascii.eqb_refl. cbn [andb].
  change (slug +:+ ".sql") with (slug +:+ String "." "sql"). rewrite (span_stop _ slug "." "sql") by done. cbn [andb].
  by rewrite (proj2 (String.eqb_neq slug "")).
Qed.

Lemma percent_no_space b : 0 <= b < 256 -> all_chars not_space (percent b) = true.
Proof.
  intros H. unfold percent. assert (forall d, 0 <= d < 16 -> not_space (hex_upper d) = true) as Hh.
  { intros d Hd. assert (d = 0 \/ d = 1 \/ d = 2 \/ d = 3 \/ d = 4 \/ d = 5 \/ d = 6 \/ d = 7 \/ d = 8 \/ d = 9 \/ d = 10 \/ d = 11 \/ d = 12 \/ d = 13 \/ d = 14 \/ d = 15) as C by lia.
    repeat (destruct C as [->|C]; [reflexivity|]). by subst. }
  cbn [all_chars]. rewrite !Hh by dlia. done.
Qed.
Lemma marker_no_space id : all_chars not_space (marker id) = true.
Proof.
  induction id as [|c s IH]; [done|]. cbn [marker]. rewrite all_chars_append, IH, andb_true_r. destruct (marked c) eqn:E.
  - destruct (Ascii.eqb c "("); [done|]. destruct (Ascii.eqb c ")"); [done|]. destruct c as [[] [] [] [] [] [] [] []]; reflexivity.
  - unfold marked in E. bool_hyps. cbn. unfold not_space. match goal with H : is_space c = false |- _ => by rewrite H end.
Qed.
Lemma marker_nonempty id : id <> "" -> marker id <> "".
Proof.
  destruct id as [|c s]; [done|]. intros _. cbn [marker]. destruct (marked c); [|done]. destruct (Ascii.eqb c "("); [done|]. destruct (Ascii.eqb c ")"); [done|].
  unfold encodeURIComponent. by destruct (_ <? _).
Qed.
End Names.

(** ** A generated file reads back as its steps. *)
Module Rendered.
Import Names.

(** A line that is no marker: neither a step's nor an accept line. *)
Definition inert (l : string) : Prop := step_line is_space l = None /\ named_line "-- accept: " is_space l = None.
Definition inert_text (t : string) : Prop := Forall inert (split_char LF t).
(** A step whose text can be told from its markers. *)
Definition writable (s : PlannedStatement) : Prop := ps_step s <> "" /\ inert_text (validated s).

Lemma step_line_written m k : all_chars not_space m = true -> m <> "" -> all_chars is_word k = true -> k <> "" ->
  step_line is_space ("-- step " +:+ m +:+ " (" +:+ k +:+ ")") = Some (m, k).
Proof.
  intros Hm Hn Hk Hkn. unfold step_line, strip. rewrite prefix_append, drop_append.
  change (" (" +:+ k +:+ ")") with (String " " ("(" +:+ k +:+ ")")). rewrite span_stop by done.
  change (String " " ("(" +:+ k +:+ ")")) with (" (" +:+ k +:+ ")"). rewrite prefix_append, drop_append.
  change (k +:+ ")") with (k +:+ String ")" ""). rewrite span_stop by done. change (String ")" "") with (")" +:+ ""). rewrite prefix_append, drop_append.
  rewrite (proj2 (String.eqb_neq m "")), (proj2 (String.eqb_neq k "")) by done. done.
Qed.
Lemma accept_line_written m : all_chars not_space m = true -> m <> "" -> named_line "-- accept: " is_space ("-- accept: " +:+ m) = Some m.
Proof.
  intros Hm Hn. unfold named_line, strip. rewrite prefix_append, drop_append, span_all by done. by rewrite (proj2 (String.eqb_neq m "")).
Qed.
Lemma fold_inert ls st : Forall inert ls -> fold_left block_turn ls st = st.
Proof.
  intros H. revert st. induction H as [|l ls [H1 H2] _ IH]; intros st; [done|]. cbn [fold_left]. rewrite IH. destruct st as [out cur].
  unfold block_turn. by rewrite H1, H2.
Qed.
Definition lf_free (s : string) : Prop := all_chars (fun c => negb (Ascii.eqb c LF)) s = true.
Lemma no_space_lf_free s : all_chars not_space s = true -> lf_free s.
Proof. apply all_chars_impl. intros c H. unfold not_space in H. destruct (Ascii.eqb c LF) eqn:E; [|done]. by apply Ascii.eqb_eq in E as ->. Qed.
Lemma lf_free_app a b : lf_free a -> lf_free b -> lf_free (a +:+ b).
Proof. unfold lf_free. intros Ha Hb. by rewrite all_chars_append, Ha, Hb. Qed.
Lemma lf_free_split s : lf_free s -> split_char LF s = [s].
Proof. apply split_char_none. Qed.
Lemma split_join xs : xs <> [] -> split_char LF (join Evolve.line xs) = concat (map (split_char LF) xs).
Proof.
  induction xs as [|x xs IH]; [done|]. intros _. destruct xs as [|y xs]; [cbn; by rewrite app_nil_r|].
  change (join Evolve.line (x :: y :: xs)) with (x +:+ String LF (join Evolve.line (y :: xs))). rewrite split_char_app, IH by done. done.
Qed.
Lemma split_join2 xs : split_char LF (join (Evolve.line +:+ Evolve.line) xs) = match xs with [] => [""%string] | x :: r => split_char LF x ++ concat (map (fun y => ""%string :: split_char LF y) r) end.
Proof.
  induction xs as [|x xs IH]; [done|]. destruct xs as [|y xs]; [cbn [join map concat]; by rewrite app_nil_r|].
  change (join (Evolve.line +:+ Evolve.line) (x :: y :: xs)) with (x +:+ String LF (String LF (join (Evolve.line +:+ Evolve.line) (y :: xs)))).
  rewrite split_char_app. change (split_char LF (String LF ?t)) with (""%string :: split_char LF t). rewrite IH. done.
Qed.
Lemma inert_nil : inert "".
Proof. done. Qed.

(** What a text adds to the steps read so far. *)
Definition reads (t : string) (bs : list Block) : Prop := bs <> [] /\ forall out cur, exists out' b,
  fold_left block_turn (split_char LF t) (out, cur) = (out', Some b) /\ out' ++ [b] = out ++ opt_list cur ++ bs.
Lemma reads_fold ts bs out cur : Forall2 reads ts bs ->
  exists out' cur', fold_left block_turn (concat (map (fun y => ""%string :: split_char LF y) ts)) (out, cur) = (out', cur') /\
    out' ++ opt_list cur' = out ++ opt_list cur ++ concat bs.
Proof.
  intros H. revert out cur. induction H as [|t b ts bs [_ Ht] _ IH]; intros out cur; cbn [map concat].
  - exists out, cur. by rewrite app_nil_r.
  - cbn [fold_left app]. assert (block_turn (out, cur) "" = (out, cur)) as -> by done. rewrite fold_left_app.
    destruct (Ht out cur) as (out1 & b1 & -> & E). destruct (IH out1 (Some b1)) as (o & c & E1 & E2). exists o, c. split; [exact E1|].
    rewrite E2. cbn [opt_list]. rewrite !app_assoc, E. by rewrite <- !app_assoc.
Qed.
Lemma reads_join2 ts bs out cur : Forall2 reads ts bs ->
  exists out' cur', fold_left block_turn (split_char LF (join (Evolve.line +:+ Evolve.line) ts)) (out, cur) = (out', cur') /\
    out' ++ opt_list cur' = out ++ opt_list cur ++ concat bs.
Proof.
  intros H. rewrite split_join2. destruct H as [|t b ts bs [_ Ht] H]; [exists out, cur; by rewrite app_nil_r|].
  rewrite fold_left_app. destruct (Ht out cur) as (out1 & b1 & -> & E). destruct (reads_fold ts bs out1 (Some b1) H) as (o & c & E1 & E2). exists o, c. split; [exact E1|].
  rewrite E2. cbn [opt_list concat]. rewrite !app_assoc, E. by rewrite <- !app_assoc.
Qed.

Definition group_block (p : Plan) (accept : list string) (g : Group) : Block :=
  MkBlock (marker (g_id g)) (class_text (group_class p g)) (bool_decide (group_class p g = Destructive) && includes accept (g_id g)).
Definition shape_blocks (c : ShapeChange) : list Block :=
  [MkBlock (marker ("data:" +:+ shape_name c)) "data" false; MkBlock (marker ("check:" +:+ shape_name c)) "validating" false].
Lemma class_word c : all_chars is_word (class_text c) = true /\ class_text c <> "".
Proof. by destruct c. Qed.
Lemma step_turn m k out cur : all_chars not_space m = true -> m <> "" -> all_chars is_word k = true -> k <> "" ->
  block_turn (out, cur) ("-- step " +:+ m +:+ " (" +:+ k +:+ ")") = (out ++ opt_list cur, Some (MkBlock m k false)).
Proof. intros. unfold block_turn. by rewrite step_line_written. Qed.
Lemma accept_turn m k out : all_chars not_space m = true -> m <> "" ->
  block_turn (out, Some (MkBlock m k false)) ("-- accept: " +:+ m) = (out, Some (MkBlock m k true)).
Proof. intros. unfold block_turn. rewrite accept_line_written by done. cbn [b_id]. by rewrite String.eqb_refl. Qed.
Lemma step_lf_free m k : all_chars not_space m = true -> all_chars is_word k = true -> lf_free ("-- step " +:+ m +:+ " (" +:+ k +:+ ")").
Proof.
  intros Hm Hk. repeat apply lf_free_app; try done; [by apply no_space_lf_free|]. eapply all_chars_impl; [|exact Hk].
  intros c H. destruct (Ascii.eqb c LF) eqn:E; [|done]. by apply Ascii.eqb_eq in E as ->.
Qed.
Lemma join_lf_free sep xs : lf_free sep -> Forall lf_free xs -> lf_free (join sep xs).
Proof.
  intros Hs H. induction H as [|x xs Hx H IH]; [done|]. destruct xs as [|y xs]; [done|].
  change (join sep (x :: y :: xs)) with (x +:+ sep +:+ join sep (y :: xs)). by repeat apply lf_free_app.
Qed.
Lemma inert_lines ls : Forall lf_free ls -> Forall inert ls -> Forall inert (concat (map (split_char LF) ls)).
Proof. induction 1 as [|l ls Hl _ IH]; [done|]. intros [H1 H2]%Forall_cons. cbn [map concat]. rewrite lf_free_split by done. constructor; [done|by apply IH]. Qed.

Lemma block_reads p accept g : g_id g <> "" -> Forall (fun s => inert_text (validated s)) (g_list g) -> reads (block_text p accept g) [group_block p accept g].
Proof.
  intros Hid Hg. split; [done|]. intros out cur. exists (out ++ opt_list cur), (group_block p accept g). split; [|by rewrite app_assoc].
  unfold block_text. rewrite split_join by done. unfold block_lines. rewrite !map_app, !concat_app, !fold_left_app. cbn [map concat].
  destruct (class_word (group_class p g)) as [Hk Hkn]. pose proof (marker_no_space (g_id g)) as Hm. pose proof (marker_nonempty _ Hid) as Hmn.
  rewrite lf_free_split by (by apply step_lf_free). cbn [app fold_left]. rewrite step_turn by done.
  assert (Forall inert (concat (map (split_char LF) (match group_risks g with [] => [] | rs => ["-- operational risk: " +:+ join ", " (map risk_text rs)] end)))) as Hr.
  { destruct (group_risks g) as [|r rs]; [constructor|]. apply inert_lines; repeat constructor.
    apply lf_free_app; [done|]. apply join_lf_free; [done|]. apply Forall_map, Forall_forall. by intros []. }
  rewrite (fold_inert _ _ Hr). assert (Forall inert (concat (map (split_char LF) (map validated (g_list g))))) as Hv.
  { rewrite map_map. apply Forall_concat, Forall_map. exact Hg. }
  unfold group_block. destruct (bool_decide _ && includes accept (g_id g)); cbn [map concat fold_left].
  - rewrite lf_free_split by (apply lf_free_app; [done|by apply no_space_lf_free]). cbn [app fold_left]. rewrite accept_turn by done. by rewrite fold_inert.
  - by rewrite fold_inert.
Qed.
Lemma shape_reads c : inert_text (validation ("the shape of " +:+ shape_name c) (sc_bad c)) -> reads (shape_step c) (shape_blocks c).
Proof.
  intros Hv. split; [done|]. intros out cur.
  exists (out ++ opt_list cur ++ [MkBlock (marker ("data:" +:+ shape_name c)) "data" false]), (MkBlock (marker ("check:" +:+ shape_name c)) "validating" false).
  split; [|by rewrite <- !app_assoc]. unfold shape_step. rewrite split_join by done. cbn [map concat]. rewrite app_nil_r.
  pose proof (marker_no_space ("data:" +:+ shape_name c)) as Hd. pose proof (marker_no_space ("check:" +:+ shape_name c)) as Hc.
  pose proof (no_space_lf_free _ (marker_no_space (shape_name c))) as Hn. pose proof (no_space_lf_free _ (marker_no_space (sc_table c))) as Ht.
  rewrite (lf_free_split ("-- step " +:+ marker ("data:" +:+ shape_name c) +:+ " (data)")) by (by apply (step_lf_free _ "data")).
  rewrite (lf_free_split ("-- step " +:+ marker ("check:" +:+ shape_name c) +:+ " (validating)")) by (by apply (step_lf_free _ "validating")).
  rewrite (lf_free_split ("-- hazard: the shape of " +:+ _)) by (by repeat apply lf_free_app).
  rewrite (lf_free_split ("-- Transform them here (an UPDATE over " +:+ _)) by (by repeat apply lf_free_app).
  cbn [app fold_left]. pose proof (step_turn (marker ("data:" +:+ shape_name c)) "data" out cur Hd ltac:(by apply marker_nonempty) eq_refl ltac:(done)) as E1.
  change (" (" +:+ "data" +:+ ")") with " (data)"%string in E1. rewrite E1.
  pose proof (fold_inert ["-- hazard: the shape of " +:+ marker (shape_name c) +:+ " changed; rows written under the old shape may not decode under the new one.";
     "-- Transform them here (an UPDATE over " +:+ marker (sc_table c) +:+ "); the check below counts the rows the new shape still refuses."]%string
     (out ++ opt_list cur, Some (MkBlock (marker ("data:" +:+ shape_name c)) "data" false)) ltac:(by repeat constructor)) as E2. cbn [fold_left] in E2. rewrite E2.
  pose proof (step_turn (marker ("check:" +:+ shape_name c)) "validating" (out ++ opt_list cur) (Some (MkBlock (marker ("data:" +:+ shape_name c)) "data" false)) Hc ltac:(by apply marker_nonempty) eq_refl ltac:(done)) as E3.
  change (" (" +:+ "validating" +:+ ")") with " (validating)"%string in E3. rewrite E3. rewrite fold_inert by done. cbn [opt_list]. by rewrite <- app_assoc.
Qed.

(** *** Groups keep every statement in order, under its own step. *)
Lemma groups_spec sql : concat (map g_list (groups_of sql)) = sql /\ Forall (fun g => g_list g <> [] /\ Forall (fun s => ps_step s = g_id g) (g_list g)) (groups_of sql).
Proof.
  unfold groups_of. induction sql as [|s sql [IH1 IH2]] using rev_ind; [by split|]. rewrite fold_left_app. cbn [fold_left].
  set (gs := fold_left group_turn sql []) in *. unfold group_turn.
  assert (forall g, g_list g = [s] -> g_id g = ps_step s -> concat (map g_list (gs ++ [g])) = sql ++ [s] /\
    Forall (fun g => g_list g <> [] /\ Forall (fun s => ps_step s = g_id g) (g_list g)) (gs ++ [g])) as Hnew.
  { intros g Hl Hi. rewrite map_app, concat_app, IH1. cbn [map concat]. rewrite Hl, app_nil_r. split; [done|]. apply Forall_app. split; [done|].
    constructor; [|constructor]. rewrite Hl, Hi. split; [done|by repeat constructor]. }
  destruct (last gs) as [g|] eqn:El; [|by apply Hnew]. destruct (String.eqb (g_id g) (ps_step s)) eqn:E; [|by apply Hnew]. apply String.eqb_eq in E.
  apply last_Some in El as (gs' & Egs). rewrite Egs in *. rewrite removelast_last. rewrite map_app, concat_app in IH1 |- *. cbn [map concat g_list] in *. rewrite app_nil_r in *.
  split; [by rewrite app_assoc, IH1|]. apply Forall_app in IH2 as [H1 H2]. apply Forall_app. split; [done|]. apply Forall_cons in H2 as [[H2 H3] _].
  constructor; [|constructor]. cbn [g_list g_id]. split; [by destruct (g_list g)|]. apply Forall_app. split; [done|]. by repeat constructor.
Qed.
Lemma group_statements sql g : g ∈ groups_of sql -> g_list g <> [] /\ (forall s, s ∈ g_list g -> s ∈ sql /\ ps_step s = g_id g).
Proof.
  intros Hg. destruct (groups_spec sql) as [E H]. rewrite Forall_forall in H. destruct (H g Hg) as [Hn Hs]. split; [done|]. intros s Hin.
  rewrite Forall_forall in Hs. split; [|by apply Hs]. rewrite <- E. rewrite list_elem_of_In, in_concat. exists (g_list g).
  split; [apply in_map; by apply list_elem_of_In|by apply list_elem_of_In].
Qed.

(** *** The header holds no marker. *)
Lemma hex_lf_free s : all_chars is_hex s = true -> lf_free s.
Proof. apply all_chars_impl. intros c H. destruct (Ascii.eqb c LF) eqn:E; [|done]. by apply Ascii.eqb_eq in E as ->. Qed.
Lemma digits_lf_free s : all_chars is_digit s = true -> lf_free s.
Proof. apply all_chars_impl. intros c H. destruct (Ascii.eqb c LF) eqn:E; [|done]. by apply Ascii.eqb_eq in E as ->. Qed.
Lemma name_line d rest : is_digit d = true -> inert ("-- " +:+ String d rest).
Proof.
  intros Hd. assert (forall x p s, Ascii.eqb x d = false -> strip ("-- " +:+ String x p) ("-- " +:+ String d s) = None) as H.
  { intros x p s Hx. unfold strip. rewrite Ascii.eqb_sym in Hx. pose proof (Parts.prefix_head d s x p Hx) as E.
    change (String.prefix ("-- " +:+ String x p) ("-- " +:+ String d s)) with (String.prefix (String x p) (String d s)). by rewrite E. }
  assert (Ascii.eqb "s" d = false /\ Ascii.eqb "a" d = false) as [Hs Ha].
  { split; (destruct (Ascii.eqb _ d) eqn:E; [|done]); by apply Ascii.eqb_eq in E as <-. }
  split; [unfold step_line; pose proof (H "s"%char "tep " rest Hs) as E|unfold named_line; pose proof (H "a"%char "ccept: " rest Ha) as E];
    [change ("-- " +:+ String "s" "tep ") with "-- step "%string in E|change ("-- " +:+ String "a" "ccept: ") with "-- accept: "%string in E]; by rewrite E.
Qed.
Lemma dec_lf_free n : lf_free (dec_of (Z.of_nat n)).
Proof. apply digits_lf_free. unfold dec_of. rewrite (proj2 (Z.ltb_ge _ 0)) by lia. apply digits_of_digits. lia. Qed.
Lemma header_inert p d name groups : is_digit d = true -> lf_free name -> lf_free (default "an empty database"%string (p_from p)) -> lf_free (p_to p) ->
  Forall inert (concat (map (split_char LF) (header_lines p (String d name) groups))).
Proof.
  intros Hd Hn Hf Ht. apply inert_lines.
  - unfold header_lines. repeat (apply Forall_app; split).
    + assert (lf_free (String d name)) as Hdn by (change (lf_free (chars d +:+ name)); apply lf_free_app; [apply digits_lf_free; cbn; by rewrite Hd|done]).
      constructor; [|by repeat constructor]. repeat apply lf_free_app; try done. apply dec_lf_free.
    + apply Forall_map, Forall_forall. by intros [].
    + apply Forall_map, Forall_forall. by intros [].
  - unfold header_lines. repeat (apply Forall_app; split).
    + constructor; [by apply name_line|by repeat constructor].
    + apply Forall_map, Forall_forall. by intros [].
    + apply Forall_map, Forall_forall. by intros [].
Qed.

(** *** The whole file. *)
Definition placed_blocks (p : Plan) (accept : list string) (changes : list ShapeChange) (groups : list Group) : list Block :=
  match find_index (constrains p) groups with
  | Some i => map (group_block p accept) (firstn i groups) ++ flat_map shape_blocks changes ++ map (group_block p accept) (skipn i groups)
  | None => map (group_block p accept) groups ++ flat_map shape_blocks changes
  end.
Lemma reads_all {A} (f : A -> string) (g : A -> list Block) l : (forall x, x ∈ l -> reads (f x) (g x)) -> Forall2 reads (map f l) (map g l).
Proof. intros H. induction l as [|x l IH]; constructor; [apply H; by left|]. apply IH. intros y Hy. apply H. by right. Qed.
Lemma concat_singles {A B} (f : A -> B) l : concat (map (fun x => [f x]) l) = map f l.
Proof. induction l as [|x l IH]; [done|]. cbn. by rewrite IH. Qed.
Lemma file_blocks p d name accept changes :
  is_digit d = true -> lf_free name -> lf_free (default "an empty database"%string (p_from p)) -> lf_free (p_to p) ->
  Forall writable (compactStatements p) -> Forall (fun c => inert_text (validation ("the shape of " +:+ shape_name c) (sc_bad c))) changes ->
  let file := MkFile (String d name) (file_text p (String d name) accept (map shape_step changes)) in
  blocksOf file = placed_blocks p accept changes (groups_of (compactStatements p)).
Proof.
  intros Hd Hn Hf Ht Hw Hc file. set (groups := groups_of (compactStatements p)).
  assert (forall gs, (forall g, g ∈ gs -> g ∈ groups) -> Forall2 reads (map (block_text p accept) gs) (map (fun g => [group_block p accept g]) gs)) as Hg.
  { intros gs Hgs. apply reads_all. intros g Hg. destruct (group_statements _ _ (Hgs g Hg)) as [Hne Hs]. rewrite Forall_forall in Hw. apply block_reads.
    - destruct (g_list g) as [|s r]; [done|]. destruct (Hs s) as [Hin <-]; [by left|]. by apply Hw.
    - apply Forall_forall. intros s Hin. by apply Hw, Hs. }
  assert (Forall2 reads (map shape_step changes) (map shape_blocks changes)) as Hch.
  { apply reads_all. intros c Hin. apply shape_reads. rewrite Forall_forall in Hc. by apply Hc. }
  assert (exists bs, Forall2 reads (place_data p accept (map shape_step changes) groups) bs /\ concat bs = placed_blocks p accept changes groups) as (bs & Hbs & Ebs).
  { unfold place_data, placed_blocks. rewrite flat_map_concat_map. destruct (find_index (constrains p) groups) as [i|].
    - eexists. split; [apply Forall2_app; [apply Hg|apply Forall2_app; [exact Hch|apply Hg]]|].
      + intros g Hin. rewrite <- (firstn_skipn i groups). by apply elem_of_app; left.
      + intros g Hin. by eapply Chain.in_skipn.
      + by rewrite !concat_app, !concat_singles.
    - eexists. split; [apply Forall2_app; [by apply Hg|exact Hch]|]. by rewrite concat_app, concat_singles. }
  unfold blocksOf, file. cbn [f_sql]. unfold file_text. fold groups. rewrite split_join by (by destruct (header_lines _ _ _)).
  rewrite map_app, concat_app, fold_left_app, (fold_inert _ _ (header_inert p d name groups Hd Hn Hf Ht)).
  cbn [map concat]. rewrite app_nil_r. cbn [split_char app fold_left]. change (block_turn ([], None) "") with (@nil Block, @None Block). rewrite fold_left_app.
  destruct (reads_join2 _ _ [] None Hbs) as (out & cur & -> & E). cbn [fold_left]. assert (block_turn (out, cur) "" = (out, cur)) as -> by done.
  rewrite E, Ebs. done.
Qed.

(** *** What the blocks are to say.

    The text a marker stands for, as [decodeURIComponent] reads a code below 256. *)
Definition hex_val (c : ascii) : Z := let n := Z.of_N (N_of_ascii c) in if n <? 58 then n - 48 else n - 55.
Fixpoint unmark (s : string) : string :=
  match s with
  | EmptyString => EmptyString
  | String c (String a (String b rest) as t) =>
      if Ascii.eqb c "%" then
        let n := hex_val a * 16 + hex_val b in
        if n <? 128 then String (chr (Z.to_N n)) (unmark rest)
        else match rest with
             | String _ (String a' (String b' rest')) => String (chr (Z.to_N ((n - 192) * 64 + (hex_val a' * 16 + hex_val b' - 128)))) (unmark rest')
             | _ => EmptyString
             end
      else String c (unmark t)
  | String c t => String c (unmark t)
  end.
(** The first step of the plan with an id. *)
Definition first_step (p : Plan) (id : string) (s : Step) : Prop :=
  exists before after, p_steps p = before ++ s :: after /\ st_id s = id /\ forall s', s' ∈ before -> st_id s' <> id.
Inductive class_named : StepClass -> string -> Prop :=
| named_additive : class_named Additive "additive"
| named_rename : class_named Rename "rename"
| named_backfill : class_named Backfill "backfill"
| named_validating : class_named Validating "validating"
| named_destructive : class_named Destructive "destructive".
(** A block shows a run of statements: the id of their step, its class, and whether it is destructive and accepted. *)
Record shown (p : Plan) (accept : list string) (g : Group) (b : Block) : Prop := MkShown {
  shown_id : unmark (b_id b) = g_id g;
  shown_class : exists s, first_step p (g_id g) s /\ class_named (st_class s) (b_klass b) /\
    (b_accepted b = true <-> st_class s = Destructive /\ g_id g ∈ accept) }.
(** The two blocks of a changed shape. *)
Definition shape_shown (c : ShapeChange) (bs : list Block) : Prop :=
  exists d k, bs = [d; k] /\
    unmark (b_id d) = "data:" +:+ sc_table c +:+ "." +:+ sc_field c /\ b_klass d = "data"%string /\ b_accepted d = false /\
    unmark (b_id k) = "check:" +:+ sc_table c +:+ "." +:+ sc_field c /\ b_klass k = "validating"%string /\ b_accepted k = false.
(** A run that adds a NOT NULL or a constraint. *)
Definition adds_rule (p : Plan) (g : Group) : Prop :=
  exists s o t, first_step p (g_id g) s /\ st_create s = Some o /\ (o_rank o = RNotNull \/ o_rank o = RConstraint) /\
    t ∈ g_list g /\ ps_sql t ∈ o_create o.
(** The longest runs of statements of one step. *)
Record runs (sql : list PlannedStatement) (groups : list Group) : Prop := MkRuns {
  runs_all : concat (map g_list groups) = sql;
  runs_one : forall g, g ∈ groups -> g_list g <> [] /\ forall s, s ∈ g_list g -> ps_step s = g_id g;
  runs_longest : forall before g h after, groups = before ++ g :: h :: after -> g_id g <> g_id h }.

Lemma unmark_char c s : unmark ((if marked c then (if Ascii.eqb c "(" then "%28" else if Ascii.eqb c ")" then "%29" else encodeURIComponent c) else chars c) +:+ s) = String c (unmark s).
Proof. destruct c as [[] [] [] [] [] [] [] []]; try reflexivity; destruct s as [|? [|? ?]]; reflexivity. Qed.
Lemma unmark_marker id : unmark (marker id) = id.
Proof. induction id as [|c s IH]; [done|]. cbn [marker]. by rewrite unmark_char, IH. Qed.
Lemma find_first {A} (f : A -> bool) l x : find f l = Some x -> exists before after, l = before ++ x :: after /\ f x = true /\ forall y, y ∈ before -> f y = false.
Proof.
  induction l as [|y l IH]; [done|]. cbn [find]. destruct (f y) eqn:E.
  - intros [= <-]. exists [], l. split_and!; [done|done|]. intros z Hz. by apply elem_of_nil in Hz.
  - intros H. destruct (IH H) as (b & a & -> & Hx & Hb). exists (y :: b), a. split_and!; [done|done|]. intros z [->|Hz]%elem_of_cons; [done|by apply Hb].
Qed.
Lemma step_of_first p id s : step_of p id = Some s <-> first_step p id s.
Proof.
  unfold step_of, first_step. split.
  - intros (b & a & E & Hs & Hb)%find_first. exists b, a. split_and!; [done|by apply String.eqb_eq in Hs|]. intros s' H. by apply String.eqb_neq, Hb.
  - intros (b & a & -> & <- & Hb). clear -Hb. induction b as [|y b IH]; cbn [app find]; [by rewrite String.eqb_refl|].
    rewrite (proj2 (String.eqb_neq (st_id y) (st_id s))) by (apply Hb; by left). apply IH. intros s' H. apply Hb. by right.
Qed.
(** Every statement of a plan is of one of its steps. *)
Lemma statement_step p s : s ∈ compactStatements p -> exists x, step_of p (ps_step s) = Some x.
Proof.
  intros Hs. assert (exists x, x ∈ p_steps p /\ st_id x = ps_step s) as (x & Hx & E).
  { unfold compactStatements in Hs. apply list_elem_of_fmap in Hs as ([i s'] & -> & Hs). cbn [snd].
    assert (ps_step (compacted (objects_of p) (fresh_of p) (compaction p) s') = ps_step s') as ->.
    { unfold compacted. repeat case_match; done. }
    apply Marks.elem_of_List_filter in Hs as [Hs _]. unfold numbered in Hs. apply elem_of_lookup_imap in Hs as (j & y & [= -> ->] & Hy).
    apply list_elem_of_lookup_2 in Hy. unfold statements in Hy. apply list_elem_of_fmap in Hy as (z & -> & Hz). cbn [ps_step].
    assert (forall (A : Type) (f : A -> list PlannedStatement) l w, w ∈ flat_map f l -> exists a, a ∈ l /\ w ∈ f a) as Hfm.
    { intros A f l w Hw. apply list_elem_of_In, in_flat_map in Hw as (u & Hu & Hw). exists u. by rewrite !list_elem_of_In. }
    rewrite !elem_of_app in Hz. destruct Hz as [Hz|[Hz|[Hz|Hz]]]; apply Hfm in Hz as (u & Hu & Hz).
    - destruct (o_drop (snd u)); [|by apply elem_of_nil in Hz]. apply list_elem_of_singleton in Hz as ->. cbn [ps_step].
      unfold drops_of in Hu. rewrite Order.sort_rank_perm, list_elem_of_In, in_flat_map in Hu. destruct Hu as (w & Hw & Hu). exists w. split; [by apply list_elem_of_In|].
      destruct (st_drop w); [|done]. by destruct Hu as [<-|[]].
    - destruct (st_rename u); [|by apply elem_of_nil in Hz]. apply list_elem_of_singleton in Hz as ->. by exists u.
    - destruct (st_alter u); [|by apply elem_of_nil in Hz]. apply list_elem_of_singleton in Hz as ->. by exists u.
    - destruct (Order.statements_ordered_spec p []) as (_ & _ & _ & _ & Hfrom & _). apply Hfrom in Hu. unfold creates_of in Hu.
      rewrite Order.sort_rank_perm in Hu. cbn [List.filter map] in Hu. rewrite app_nil_r in Hu. unfold planned in Hu. rewrite list_elem_of_In, in_flat_map in Hu.
      destruct Hu as (w & Hw & Hu). exists w. split; [by apply list_elem_of_In|]. destruct (st_create w); [|done]. destruct Hu as [<-|[]].
      cbn [create_statements] in Hz. by apply elem_of_lookup_imap in Hz as (j' & y' & -> & _). }
  unfold step_of. destruct (find _ _) eqn:Ef; [by eexists|]. exfalso. apply find_none with (x := x) in Ef; [|by apply list_elem_of_In]. by rewrite E, String.eqb_refl in Ef.
Qed.
Lemma groups_runs sql : runs sql (groups_of sql).
Proof.
  destruct (groups_spec sql) as [E H]. rewrite Forall_forall in H. split; [done| |].
  - intros g Hg. destruct (H g Hg) as [Hn Hs]. rewrite Forall_forall in Hs. by split.
  - clear E H. unfold groups_of. induction sql as [|s sql IH] using rev_ind; [by intros [] ? ? ?|]. rewrite fold_left_app. cbn [fold_left].
    set (gs := fold_left group_turn sql []) in *. unfold group_turn.
    assert (forall x, (forall g, last gs = Some g -> g_id g <> g_id x) -> forall before g h after, gs ++ [x] = before ++ g :: h :: after -> g_id g <> g_id h) as Hnew.
    { intros x Hx before g h after E. destruct after as [|z after _] using rev_ind.
      - assert (before ++ [g; h] = (before ++ [g]) ++ [h]) as E2 by (by rewrite <- app_assoc). rewrite E2 in E. apply app_inj_tail in E as [E <-].
        apply Hx. rewrite E. apply last_snoc.
      - rewrite !app_comm_cons, app_assoc in E. apply app_inj_tail in E as [E _]. by eapply IH. }
    destruct (last gs) as [x|] eqn:El; [|apply Hnew; intros ? ?; congruence]. destruct (String.eqb (g_id x) (ps_step s)) eqn:Ex.
    + apply last_Some in El as (gs' & Eg). rewrite Eg in *. rewrite removelast_last. intros before g h after E. destruct after as [|z after _] using rev_ind.
      * assert (before ++ [g; h] = (before ++ [g]) ++ [h]) as E2 by (by rewrite <- app_assoc). rewrite E2 in E. apply app_inj_tail in E as [E <-].
        apply (IH before g x []). by rewrite E, <- app_assoc.
      * rewrite !app_comm_cons, app_assoc in E. apply app_inj_tail in E as [E _]. apply (IH before g h (after ++ [x])). by rewrite E, <- app_assoc.
    + apply Hnew. intros g Hg. assert (g = x) as -> by congruence. by apply String.eqb_neq in Ex.
Qed.
Lemma group_shown p accept g : g ∈ groups_of (compactStatements p) -> shown p accept g (group_block p accept g).
Proof.
  intros Hg. destruct (group_statements _ _ Hg) as [Hn Hs]. destruct (g_list g) as [|t r]; [done|]. destruct (Hs t) as [Ht E]; [by left|].
  apply statement_step in Ht as (s & Es). rewrite E in Es. split; [apply unmark_marker|]. exists s. split; [by apply step_of_first|].
  unfold group_block, group_class. rewrite Es. cbn [b_klass b_accepted]. split; [destruct (st_class s); constructor|].
  by rewrite andb_true_iff, bool_decide_eq_true, includes_spec.
Qed.
Lemma constrains_spec p g : constrains p g = true <-> adds_rule p g.
Proof.
  unfold constrains, adds_rule, is_rank. split.
  - destruct (step_of p (g_id g)) as [s|] eqn:E; [|done]. cbn [mbind option_bind]. destruct (st_create s) as [o|] eqn:Eo; [|done].
    intros [Hr Ht]%andb_true_iff. rewrite orb_true_iff, !bool_decide_eq_true in Hr. apply existsb_exists in Ht as (t & Ht & Hi). exists s, o, t.
    split_and!; [by apply step_of_first|done|done|by apply list_elem_of_In|by apply includes_spec].
  - intros (s & o & t & Hs & Ho & Hr & Ht & Hi). apply step_of_first in Hs. rewrite Hs. cbn [mbind option_bind]. rewrite Ho. apply andb_true_iff.
    rewrite orb_true_iff, !bool_decide_eq_true. split; [done|]. apply existsb_exists. exists t. split; [by apply list_elem_of_In|by apply includes_spec].
Qed.
Lemma find_index_split {A} (f : A -> bool) l :
  match find_index f l with
  | Some i => (forall x, x ∈ firstn i l -> f x = false) /\ exists x r, skipn i l = x :: r /\ f x = true
  | None => forall x, x ∈ l -> f x = false
  end.
Proof.
  induction l as [|y l IH]; cbn [find_index]; [by intros x ?%elem_of_nil|]. destruct (f y) eqn:E.
  - split; [by intros x ?%elem_of_nil|]. by exists y, l.
  - destruct (find_index f l) as [i|]; cbn [option_map firstn skipn]; [destruct IH as [H1 H2]; split; [|done]|]; intros x [->|Hx]%elem_of_cons; auto.
Qed.
Lemma shapes_shown changes : Forall2 shape_shown changes (map shape_blocks changes).
Proof.
  induction changes as [|c cs IH]; [constructor|]. constructor; [|done]. eexists _, _. split; [done|]. cbn [b_id b_klass b_accepted]. by rewrite !unmark_marker.
Qed.
Lemma placed_shown p accept changes : let groups := groups_of (compactStatements p) in
  exists front rear fb rb datas, groups = front ++ rear /\ (forall g, g ∈ front -> ~ adds_rule p g) /\ (forall g r, rear = g :: r -> adds_rule p g) /\
    placed_blocks p accept changes groups = fb ++ concat datas ++ rb /\
    Forall2 (shown p accept) front fb /\ Forall2 shape_shown changes datas /\ Forall2 (shown p accept) rear rb.
Proof.
  intros groups. assert (forall gs, (forall g, g ∈ gs -> g ∈ groups) -> Forall2 (shown p accept) gs (map (group_block p accept) gs)) as Hg.
  { intros gs H. apply Forall2_fmap_r, Forall_Forall2_diag, Forall_forall. intros g Hin. by apply group_shown, H. }
  unfold placed_blocks. pose proof (find_index_split (constrains p) groups) as F. rewrite flat_map_concat_map. destruct (find_index (constrains p) groups) as [i|].
  - destruct F as [F1 (x & r & F2 & F3)]. exists (firstn i groups), (skipn i groups). eexists _, _, _. split_and!; [by rewrite firstn_skipn| | |done| |apply shapes_shown|].
    + intros g Hin H. apply constrains_spec in H. rewrite F1 in H; done.
    + intros g r' E. rewrite F2 in E. injection E as <- <-. by apply constrains_spec.
    + apply Hg. intros g Hin. rewrite <- (firstn_skipn i groups). by apply elem_of_app; left.
    + apply Hg. intros g Hin. by eapply Chain.in_skipn.
  - exists groups, []. eexists _, [], _. rewrite !app_nil_r. split_and!; [done| |done|done|by apply Hg|apply shapes_shown|constructor].
    intros g Hin H. apply constrains_spec in H. by rewrite F in H.
Qed.
Lemma checkFile_accepted f f' : checkFile f = inr f' -> forall b, b ∈ blocksOf f -> b_klass b = "destructive"%string -> b_accepted b = true.
Proof.
  unfold checkFile. intros H. destruct (negb _); [done|]. inv_fx. apply Guards.unaccepted_ok. by destruct (unaccepted_blocks (blocksOf f)).
Qed.

Lemma file_name_split n name : 1 <= n <= 9999 -> exists d rest, file_name n (slug_of name) = String d rest /\ is_digit d = true /\ lf_free rest.
Proof.
  intros Hn. destruct (four_digits n Hn) as (H1 & H2 & _). unfold file_name. destruct (pad_start 4 "0" (dec_of n)) as [|d r]; [done|].
  cbn [all_chars] in H1. apply andb_true_iff in H1 as [Hd Hr].
  exists d, (r +:+ "_" +:+ slug_of name +:+ ".sql"). split; [done|]. split; [done|]. repeat apply lf_free_app; try done; [by apply digits_lf_free|].
  eapply all_chars_impl; [|apply slug_chars]. intros c Hc'. destruct (Ascii.eqb c LF) eqn:Ec; [|done]. by apply Ascii.eqb_eq in Ec as ->.
Qed.
(** Every destructive block is accepted exactly when every destructive step with statements is. *)
Lemma settled_blocks p accept front rear fb rb changes datas : runs (compactStatements p) (front ++ rear) ->
  Forall2 (shown p accept) front fb -> Forall2 shape_shown changes datas -> Forall2 (shown p accept) rear rb ->
  (forall b, b ∈ fb ++ concat datas ++ rb -> b_klass b = "destructive"%string -> b_accepted b = true) <->
  (forall t s, t ∈ compactStatements p -> first_step p (ps_step t) s -> st_class s = Destructive -> ps_step t ∈ accept).
Proof.
  intros R Sf Sd Sr. pose proof (Forall2_app Sf Sr) as S. split.
  - intros H t s Ht Hs Hd. rewrite <- (runs_all _ _ R), list_elem_of_In, in_concat in Ht. destruct Ht as (l & Hl & Ht).
    apply in_map_iff in Hl as (x & <- & Hx). apply list_elem_of_In in Hx, Ht. destruct (runs_one _ _ R x Hx) as [_ Hone]. rewrite (Hone t Ht) in *.
    apply list_elem_of_lookup in Hx as (i & Hi). destruct (Forall2_lookup_l _ _ _ _ _ S Hi) as (b & Hb & [_ (s' & Hs' & Hk & Ha)]).
    apply step_of_first in Hs, Hs'. assert (s' = s) as -> by congruence. apply Ha, H.
    + apply list_elem_of_lookup_2 in Hb. rewrite !elem_of_app in *. tauto.
    + rewrite Hd in Hk. by inversion Hk.
  - intros H b Hb Hd. assert (b ∈ fb ++ rb \/ exists bs, bs ∈ datas /\ b ∈ bs) as [Hin|(bs & Hbs & Hin)].
    { rewrite !elem_of_app in Hb. rewrite elem_of_app. destruct Hb as [?|[Hb|?]]; [tauto| |tauto]. right. rewrite list_elem_of_In, in_concat in Hb.
      destruct Hb as (bs & ? & ?). exists bs. by rewrite !list_elem_of_In. }
    + apply list_elem_of_lookup in Hin as (i & Hi). destruct (Forall2_lookup_r _ _ _ _ _ S Hi) as (x & Hx & [_ (s & Hs & Hk & Ha)]).
      apply list_elem_of_lookup_2 in Hx. destruct (runs_one _ _ R x Hx) as [Hne Hone]. destruct (g_list x) as [|t r] eqn:El; [done|].
      assert (st_class s = Destructive) as Hc by (rewrite Hd in Hk; by inversion Hk). apply Ha. split; [done|].
      rewrite <- (Hone t) by by left. apply (H t s); [|by rewrite (Hone t) by by left|done].
      rewrite <- (runs_all _ _ R), list_elem_of_In, in_concat. exists (g_list x). split; [apply in_map; by apply list_elem_of_In|]. rewrite El. by left.
    + apply list_elem_of_lookup in Hbs as (i & Hi). destruct (Forall2_lookup_r _ _ _ _ _ Sd Hi) as (c & _ & (d & k & -> & _ & Ed & _ & _ & Ek & _)).
      rewrite !elem_of_cons, elem_of_nil in Hin. destruct Hin as [->|[->|[]]]; congruence.
Qed.

Section Generated.
Variable number_text : number -> string.
Variable objects : SchemaSpec -> list SchemaObject -> Fx (list SchemaObject).
Variable extra : SchemaSpec -> list SchemaObject.
Variable shapeViolation : string -> FieldSpec -> string.
Variable pretty : Json -> string.

Lemma generate_inv previous next n name accept g : generate number_text objects extra shapeViolation pretty previous next n name accept = inr g ->
  1 <= n <= 9999 /\ slug_of name <> "" /\ plan number_text objects extra previous next = inr (gn_plan g) /\
  gn_file g = MkFile (file_name n (slug_of name)) (file_text (gn_plan g) (file_name n (slug_of name)) accept
    (map shape_step (shapeSteps number_text shapeViolation previous next))).
Proof.
  unfold generate. intros H. destruct (_ && _) eqn:En; [|done]. bool_hyps. cbn [negb] in H. destruct (String.eqb (slug_of name) "") eqn:Es; [done|]. bool_hyps.
  inv_fx. subst g. cbn [gn_plan gn_file]. split; [lia|]. split; [done|]. split; done.
Qed.
Lemma plan_texts previous next p : plan number_text objects extra previous next = inr p -> lf_free (default "an empty database"%string (p_from p)) /\ lf_free (p_to p).
Proof.
  unfold plan. intros H. assert (forall s, lf_free (fingerprint number_text s)) as Hl by (intros s; apply hex_lf_free, Squashes.sha256Hex_hex).
  inv_fx. injection H as <-. cbn [p_from p_to]. split; [|apply Hl]. destruct previous; [apply Hl|reflexivity].
Qed.
(** C30. A generated migration reads back as it was planned, where no line of the planned SQL looks like a marker
    ([writable]; [inert_text] of the checks of changed shapes): its name carries its number; and [blocksOf] its text are
    blocks that show the longest runs of the plan's compacted statements in their order, each under the id of its step, the
    class the plan gives it and, if it is destructive and in [accept], its accept line, with the data and check blocks of the
    changed shapes before the first run that adds a NOT NULL or a constraint, or at the end. So every destructive block is
    accepted exactly when each destructive step with statements is in [accept], and otherwise the file is refused. *)
Theorem generated_reads_back (previous : option SchemaSpec) (next : SchemaSpec) (n : Z) (name : string) (accept : list string) (g : Generated)
    (Hg : generate number_text objects extra shapeViolation pretty previous next n name accept = inr g)
    (Hw : Forall writable (compactStatements (gn_plan g)))
    (Hc : Forall (fun c => inert_text (validation ("the shape of " +:+ shape_name c) (sc_bad c))) (shapeSteps number_text shapeViolation previous next)) :
  let p := gn_plan g in
  number_of (f_name (gn_file g)) = Some n /\
  (exists front rear fb rb datas, runs (compactStatements p) (front ++ rear) /\
    (forall x, x ∈ front -> ~ adds_rule p x) /\ (forall x r, rear = x :: r -> adds_rule p x) /\
    blocksOf (gn_file g) = fb ++ concat datas ++ rb /\
    Forall2 (shown p accept) front fb /\ Forall2 shape_shown (shapeSteps number_text shapeViolation previous next) datas /\ Forall2 (shown p accept) rear rb) /\
  let all_accepted := forall t s, t ∈ compactStatements p -> first_step p (ps_step t) s -> st_class s = Destructive -> ps_step t ∈ accept in
  ((forall b, b ∈ blocksOf (gn_file g) -> b_klass b = "destructive"%string -> b_accepted b = true) <-> all_accepted) /\
  (forall f, checkFile (gn_file g) = inr f -> all_accepted).
Proof.
  intros p. pose proof Hg as (Hn & Hs & Hp & Hf)%generate_inv. fold p in Hp, Hf. destruct (plan_texts _ _ _ Hp) as [Hfrom Hto].
  destruct (four_digits n Hn) as (H1 & H2 & _).
  assert (exists d rest, file_name n (slug_of name) = String d rest /\ is_digit d = true /\ lf_free rest) as (d & rest & E & Hd & Hr) by (by apply file_name_split).
  split; [rewrite Hf; by apply file_named, slug_chars|]. set (changes := shapeSteps number_text shapeViolation previous next).
  assert (blocksOf (gn_file g) = placed_blocks p accept changes (groups_of (compactStatements p))) as Hb.
  { rewrite Hf, E. by apply file_blocks. }
  destruct (placed_shown p accept changes) as (front & rear & fb & rb & datas & Eg & Hfr & Hre & Eb & Sf & Sd & Sr). rewrite Eb in Hb.
  pose proof (groups_runs (compactStatements p)) as R. rewrite Eg in R. split; [by exists front, rear, fb, rb, datas|].
  intros all_accepted. assert ((forall b, b ∈ blocksOf (gn_file g) -> b_klass b = "destructive"%string -> b_accepted b = true) <-> all_accepted) as Hall.
  { rewrite Hb. by apply (settled_blocks p accept front rear fb rb changes). }
  split; [done|]. intros f Hcf. apply Hall. by eapply checkFile_accepted.
Qed.
End Generated.
End Rendered.

(** ** Generated squashes. *)
Module Baselines.

Section Baselines.
Variable number_text : number -> string.
Variable objects : SchemaSpec -> list SchemaObject -> Fx (list SchemaObject).
Variable extra : SchemaSpec -> list SchemaObject.
Variable shapeViolation : string -> FieldSpec -> string.
Variable pretty : Json -> string.

Lemma squash_inv originals schema name g : generateSquash number_text objects extra shapeViolation pretty originals schema name = inr g ->
  exists O, checkSquashSources originals = inr O /\ gs_replaces g = appliedOf O /\ gs_archive g = archiveOf number_text O /\
    number_of (f_name (gs_file g)) = Some (Z.of_nat (length O)) /\ existsb (fun f => String.eqb (f_name f) (f_name (gs_file g))) O = false.
Proof.
  unfold generateSquash. intros H. destruct (checkSquashSources originals) as [|O] eqn:EO; [done|]. cbn [mbind Fx_bind] in H.
  destruct (generate _ _ _ _ _ _ _ _ _ _) as [|b] eqn:Eb in H; [done|]. cbn [mbind Fx_bind] in H. destruct (existsb _ O) eqn:Ed; [done|]. injection H as <-. cbn.
  exists O. apply Rendered.generate_inv in Eb as (Hn & Hs & _ & Hf). rewrite Hf in *. cbn [f_name] in *.
  split; [done|]. split; [done|]. split; [done|]. split; [|done]. by apply Names.file_named, Names.slug_chars.
Qed.
Lemma generate_made next n name held : objects next (extra next) = inr held -> 1 <= n <= 9999 -> slug_of name <> "" ->
  exists g, generate number_text objects extra shapeViolation pretty None next n name [] = inr g /\ f_name (gn_file g) = file_name n (slug_of name).
Proof.
  intros Ho Hn Hs. unfold generate, plan. rewrite (proj2 (Z.leb_le 1 n)), (proj2 (Z.leb_le n 9999)), (proj2 (String.eqb_neq _ _) Hs), Ho by lia.
  cbn [andb negb mbind Fx_bind]. by eexists.
Qed.
Lemma squash_made originals schema name held O : objects schema (extra schema) = inr held -> checkSquashSources originals = inr O ->
  1 <= Z.of_nat (length O) <= 9999 ->
  let slug := slug_of ("squash_" +:+ default EmptyString name +:+ "_" +:+ takes 12 (archiveOf number_text O)) in
  slug <> "" -> existsb (fun f => String.eqb (f_name f) (file_name (Z.of_nat (length O)) slug)) O = false ->
  exists g, generateSquash number_text objects extra shapeViolation pretty originals schema name = inr g /\
    f_name (gs_file g) = file_name (Z.of_nat (length O)) slug.
Proof.
  intros Ho HO Hn slug Hs Hd. unfold generateSquash. rewrite HO. cbn [mbind Fx_bind].
  destruct (generate_made schema (Z.of_nat (length O)) _ held Ho Hn Hs) as (b & Eb & En).
  unfold slug in *. rewrite Eb. cbn [mbind Fx_bind]. rewrite En, Hd. by eexists.
Qed.
(** A generated squash is the one its host verifies: when its (perhaps edited) text is an admissible migration and
    an admissible baseline, and its replay and that of the archive show the same lines, [verifySquash] accepts it with
    the very prefix and archive it was generated with. Its name never refuses it. *)
Theorem generated_squash_verifies (originals : list MigrationFile) (schema : SchemaSpec) (name : option string) (g : GeneratedSquash)
    (sql : string) (archived baseline : list string)
    (Hg : generateSquash number_text objects extra shapeViolation pretty originals schema name = inr g) :
  let file := MkFile (f_name (gs_file g)) sql in
  forall (Hf : checkFile file = inr file) (Hb : checkSquashBaseline file = inr [MkFile "0001_baseline.sql" sql]) (Hl : forall l, l ∈ archived <-> l ∈ baseline),
  verifySquash number_text originals file archived baseline =
  inr (MkReceipt (f_name file) (checksumOf file) (gs_archive g) (gs_replaces g) (physicalHash number_text baseline)).
Proof.
  intros file Hf Hb Hl. apply squash_inv in Hg as (O & EO & -> & -> & En & Ed). unfold verifySquash. rewrite EO. cbn [mbind Fx_bind].
  rewrite Hf, Hb. cbn [mbind Fx_bind f_name file]. rewrite En, Ed.
  rewrite bool_decide_eq_true_2 by done. cbn [negb orb]. rewrite (Compared.physicalHash_same number_text _ _ Hl), String.eqb_refl. done.
Qed.
End Baselines.
End Baselines.

(** ** A generated file and a generated squash. *)
Module Sample.
Import Rendered Evolve.Notes.

#[local] Instance inert_dec l : Decision (inert l). Proof. unfold inert. apply _. Defined.
#[local] Instance writable_dec s : Decision (writable s). Proof. unfold writable, inert_text. apply _. Defined.
Definition violation (x : string) (k : FieldSpec) : string := x +:+ " is null".
Definition accepted : list string := ["replace:column:note.title"%string].
Definition generated : Generated :=
  MkGenerated (MkFile (file_name 2 "retitle_notes") (file_text notes_plan (file_name 2 "retitle_notes") accepted [])) notes_plan
    (snapshotOf Migrations.Sample.pretty next_notes).
Lemma shapes_kept : shapeSteps number_text violation (Some first_notes) next_notes = [].
Proof. vm_compute. reflexivity. Qed.
Lemma generated_sample :
  generate number_text objects extra violation Migrations.Sample.pretty (Some first_notes) next_notes 2 " Retitle: notes! " accepted = inr generated.
Proof.
  unfold generate. assert (slug_of " Retitle: notes! " = "retitle_notes"%string) as -> by reflexivity. rewrite notes_planned, shapes_kept. reflexivity.
Qed.
(** The planned statements do not depend on the fingerprints. *)
Definition bare_plan : Plan := MkPlan None "" next_notes (steps_list first_notes next_notes).
Lemma sample_writable : Forall writable (compactStatements notes_plan).
Proof. change (Forall writable (compactStatements bare_plan)). apply (bool_decide_eq_true_1 _). vm_compute. reflexivity. Qed.
Lemma generated_reads_back_witness :
  number_of (f_name (gn_file generated)) = Some 2 /\
  (forall b, b ∈ blocksOf (gn_file generated) -> b_klass b = "destructive"%string -> b_accepted b = true).
Proof.
  destruct (generated_reads_back number_text objects extra violation Migrations.Sample.pretty (Some first_notes) next_notes 2 " Retitle: notes! " accepted generated
    generated_sample sample_writable ltac:(rewrite shapes_kept; constructor)) as (Hn & _ & Hu & _).
  split; [exact Hn|]. apply Hu. intros t s Ht Hs Hd. change (t ∈ compactStatements bare_plan) in Ht. change (first_step bare_plan (ps_step t) s) in Hs.
  apply step_of_first in Hs.
  assert (forallb (fun t => match step_of bare_plan (ps_step t) with
    | Some s => negb (bool_decide (st_class s = Destructive)) || includes accepted (ps_step t) | None => true end) (compactStatements bare_plan) = true) as H
    by (vm_compute; reflexivity).
  rewrite forallb_forall in H. apply list_elem_of_In in Ht. specialize (H t Ht). rewrite Hs in H. rewrite bool_decide_eq_true_2 in H by exact Hd.
  by apply includes_spec.
Defined.

(** A squash of the first two files of a chain, its text edited by hand. *)
Abbreviation squash_of := (generateSquash Migrations.Sample.number_text objects extra violation (fun _ => ""%string)
  [Migrations.Sample.two; Migrations.Sample.one] Migrations.Sample.schema0 (Some "notes"%string)).
Definition edited : string := "create table entry (id uuid primary key, label text);".
Lemma edited_admitted name : number_of name = Some 2 -> checkFile (MkFile name edited) = inr (MkFile name edited).
Proof. intros H. unfold checkFile. cbn [f_name]. rewrite H. clear H. vm_compute. reflexivity. Qed.
Lemma edited_baseline : checkSquashSources [MkFile "0001_baseline.sql" edited] = inr [MkFile "0001_baseline.sql" edited].
Proof. vm_compute. reflexivity. Qed.
Lemma squash_sample : exists g, squash_of = inr g /\ number_of (f_name (gs_file g)) = Some 2.
Proof.
  assert (checkSquashSources [Migrations.Sample.two; Migrations.Sample.one] = inr [Migrations.Sample.one; Migrations.Sample.two]) as HO by (vm_compute; reflexivity).
  assert (forall a, exists r, slug_of ("squash_" +:+ default EmptyString (Some "notes"%string) +:+ "_" +:+ a) = String "s" r) as Hs.
  { intros a. exact (Names.slug_head "s" ("quash_notes_" +:+ a) eq_refl). }
  destruct (Hs (takes 12 (archiveOf Migrations.Sample.number_text [Migrations.Sample.one; Migrations.Sample.two]))) as (r & E).
  destruct (Baselines.squash_made Migrations.Sample.number_text objects extra violation (fun _ => ""%string) [Migrations.Sample.two; Migrations.Sample.one]
    Migrations.Sample.schema0 (Some "notes"%string) [] _ eq_refl HO ltac:(cbn; lia)) as (g & Hg & En).
  - by rewrite E.
  - rewrite E. reflexivity.
  - exists g. split; [exact Hg|]. rewrite En. apply Names.file_named; [cbn; lia|by rewrite E|apply Names.slug_chars].
Qed.
Lemma generated_squash_verifies_witness : exists g, squash_of = inr g /\
  exists r, verifySquash Migrations.Sample.number_text [Migrations.Sample.two; Migrations.Sample.one] (MkFile (f_name (gs_file g)) edited)
    Migrations.Sample.lines (rev Migrations.Sample.lines) = inr r /\ sr_replaces r = gs_replaces g.
Proof.
  destruct squash_sample as (g & Hg & Hn). exists g. split; [exact Hg|].
  assert (forall l, l ∈ Migrations.Sample.lines <-> l ∈ rev Migrations.Sample.lines) as Hl by (intros l; by rewrite !list_elem_of_In, <- in_rev).
  assert (checkSquashBaseline (MkFile (f_name (gs_file g)) edited) = inr [MkFile "0001_baseline.sql" edited]) as Hb by exact edited_baseline.
  pose proof (Baselines.generated_squash_verifies Migrations.Sample.number_text objects extra violation (fun _ => ""%string) [Migrations.Sample.two; Migrations.Sample.one]
    Migrations.Sample.schema0 (Some "notes"%string) g edited _ _ Hg (edited_admitted _ Hn) Hb Hl) as H.
  eexists. split; [exact H|reflexivity].
Defined.
End Sample.
